(* ===== verification/_CoqProject ===== *)
-Q . S2P
Prelude.v
BTreeMap.v
Utf8.v
Float64.v
Domain.v
Decimal.v
CoreErrors.v
ProtocolTypes.v
Crc32.v
Codec.v
CodecProofs.v
PlaybackControls.v
ClockSync.v
Ramp.v
Concealment.v
JitterBuffer.v
Scheduler.v
Packetizer.v
Pipeline.v
Interleaving.v
BoundedChannel.v
DecodeTypes.v
Resampler.v
MediaSource.v
DecodeWorker.v
PacketizerWorker.v
Replay.v
RenderRing.v
PlaybackPump.v
AudioAbi.v
ListenerPlayback.v
RuntimeTypes.v
TransportTypes.v
ControlStream.v
HostWorkers.v
HostTransport.v
HostWorkersProofs.v
HostTransportProofs.v
HostQueue.v
PlaylistUpdates.v
PlaylistWorker.v
PlaylistProofs.v
Admission.v
SecureTrust.v
RuntimeRecords.v
ActorState.v
ActorHandlers.v
ActorLemmas.v
ActorInvariant.v
ActorPlaylist.v
ActorEffects.v
ActorProofs.v
ActorMailbox.v
ActorMailboxProofs.v
ManualEndpoint.v
Invitations.v
InvitationsProofs.v
