(* ===== verification/Prelude.v ===== *)
(** * A verification of Silent Disco's synchronized audio path

    Silent Disco plays one music stream on many phones at once: a host decodes
    tracks, cuts them into timed datagrams and sends them over the local
    network; each listener estimates the host's clock, reorders and conceals
    packets, and plays every sample at its presentation time.  The logic is the
    Rust crate [silent-disco-core] (src/rust/silent-disco-core/src), with the
    threads and the real-time callback boundary in [silent-disco-ffi]
    (src/rust/silent-disco-ffi/src); this library models the part of it that
    decides who is admitted, what is sent, accepted, queued and played, and
    proves it correct.

    ** The program's parts and the files that model them

    In dependency order, each operation of the code being one definition with
    the code's name (state is passed explicitly, [Result] is [result], [?] is
    [let?], early returns are branches):

    - [Prelude]: results, machine integers at their width, byte order, list
      lemmas, the [to_prop]/[split_match] tactics and the [rust] hint database.
      [target] is the pointer width: theorems hold on 32-bit and 64-bit
      targets, both of which the project ships.
    - [BTreeMap]: the standard library's ordered map as its sorted entry list.
    - [Utf8]: [str] as a list of scalar values, UTF-8, [trim], [is_control].
    - [Float64]: [f64] as IEEE binary64 (the Standard Library's [SpecFloat],
      executable), with exactness lemmas for integers and dyadic fractions
      below 2^53 units and the total order used for sorting; [f32] and its bit
      pattern.
    - [Domain]: domain/ids.rs, enums.rs, settings.rs.  The macro
      [define_stable_enum!] is the class [StableEnum] (an enum's table) whose
      conversions are proved once against the laws of [StableEnumOk], which
      every enumeration's instance discharges.
    - [Decimal], [CoreErrors]: decimal numerals of identifiers and messages;
      error.rs and the actor's error constructors.
    - [ProtocolTypes]: protocol/types.rs; [wf_frame] states the ranges of the
      Rust types.
    - [Crc32], [Codec], [CodecProofs]: protocol/codec.  The [Reader] and
      encoder, all fifteen message kinds, the frame header, the checksum and
      the policy-applying decoder with its counters.
    - [PlaybackControls]: transport/socket/host/mod.rs, the host's cache of
      playback controls: which controls and packets are relayed, and what a
      joining listener is replayed.
    - [ClockSync]: sync/types.rs and sync/estimator.rs.
    - [Ramp], [Concealment], [JitterBuffer]: audio/ramp.rs,
      audio/concealment.rs and audio/jitter_buffer.rs.
    - [Scheduler]: audio/scheduler; its state holds the jitter buffer and the
      concealment policy, as in the code, and it calls their operations.
    - [Packetizer]: audio/packetizer.rs and the chunk types of audio/types.rs.
    - [Pipeline]: host and listener composed: packetize, encode, decode, play.
    - [Interleaving], [BoundedChannel]: worker threads.  A worker is a program
      over a schedule and a shared world; each of its accesses to shared memory
      first runs the actions the other threads took since its last one, so a
      theorem about every schedule covers every interleaving ([wpc] and its
      rules).  The channel is [sync_channel] with the shared counters and
      cancellation flag both audio workers keep beside it.
    - [DecodeTypes], [Resampler], [MediaSource], [DecodeWorker]:
      audio/types.rs, resampler.rs, source.rs and decoder.rs.  What the
      third-party decoder and the file system answer is the workers' input
      data ([SourceFile], [packet_event]).
    - [PacketizerWorker]: audio/packetizer_worker.rs, the worker between a
      decoder and the sender of the stream.
    - [PlaylistUpdates], [PlaylistWorker], [PlaylistProofs]:
      audio/packetizer_worker/playlist_worker.rs and reservation.rs; the
      producer that carries one stream across tracks, opens the next decoder
      ahead and applies the queue edits of other threads.
    - [Replay]: transport/secure_replay.rs, the replay window of the
      authenticated datagram channels, with [HashMap] as stdpp's [gmap].
    - [RenderRing]: audio/render_ring.rs; its operations on indices that wrap
      at the width of [usize], and the concurrent semantics in which the atomic
      accesses of producer and consumer interleave and a load of the other
      side's index may be stale.
    - [PlaybackPump]: audio/playback_pump; the scheduler driving the ring,
      gated and slewed by clock offsets.
    - [AudioAbi]: audio_abi.rs, callback_capture.rs and audio_output.rs of the
      FFI crate; rings and capture taps live in a store shared by their two
      ends and are reached through tokens.
    - [ListenerPlayback]: listener_playback/runtime.rs and pump.rs of the FFI
      crate; platform calls, the pump thread, its contained panic and the stop
      sequence are the steps of one system ([sys_step]).
    - [RuntimeTypes], [RuntimeRecords]: runtime/types.rs, effects.rs and
      records; [HostQueue]: runtime/playlist.rs; [Admission]:
      runtime/host_admission.rs; [SecureTrust]: the listener's proof of
      identity and the trust registry (transport/secure_identity.rs,
      secure_trust.rs, runtime/secure_host_admission.rs), where SHA-256, P-256
      and the JSON text are parameters.
    - [TransportTypes]: transport/types.rs, socket/counters.rs and
      event_delivery_class.rs.  [ControlStream]: [read_control_loop] of
      socket/shared.rs against a script of what the socket, the clock and the
      flags show.
    - [HostWorkers], [HostWorkersProofs]: socket/host_workers.rs,
      host_worker_startup.rs, host_join_delivery.rs, host/peer.rs and
      host/terminal_mailbox.rs; the accept loop, the readers, the datagram
      receivers and the application's [recv_event], one [worker_step] per
      access to what they share.
    - [HostTransport], [HostTransportProofs]: socket/host/lookup.rs,
      authorization.rs, broadcast.rs and node.rs; the operations as programs of
      [Interleaving] whose environment is [worker_step], and the histories
      ([sys_run]) of operations, workers and the application.
    - [ActorState], [ActorHandlers]: runtime/actor_runtime/state; the actor's
      state, a state-and-error monad, every command and event handler and the
      transaction [process] around them.  [ActorLemmas] holds the weakest
      preconditions and frames of the handlers, [ActorInvariant] the histories
      ([actor_run]) and their elimination principles; [ActorPlaylist],
      [ActorEffects] and [ActorProofs] the theorems.
    - [ActorMailbox], [ActorMailboxProofs]: runtime/actor_runtime/mod.rs and
      reservation.rs; the bounded mailbox, the calls of the handle, the actor's
      worker, the notification worker and the owner's shutdown, each a program
      counter, and the executions ([rt_run]) of their transitions.
    - [ManualEndpoint]: transport/manual_endpoint.rs, with the standard
      library's address and number parsers.  [Invitations],
      [InvitationsProofs]: p2; the signed invitation, and the SQLite store of
      sessions, remembered hosts and consumed nonces as tables with the
      schema's constraints, transactions and statement faults ([p2_run]).  The
      other crates are the record [Libraries] and their documented behaviour
      the classes [LibraryLaws] and [ReadingLaws]; how the documents are read
      from the members of a JSON object is [read_unsigned] and [read_signed].

    ** What the theorems show

    - Wire format (CodecProofs, Domain): decoding inverts encoding for every
      frame; accepted bytes are exactly the canonical encodings; one corrupted
      payload byte is always detected; sizes are bounded; failures are counted
      exactly.
    - Clock (ClockSync): the four-timestamp sample's error is at most half the
      round trip; the estimator is exact on symmetric paths after any history;
      its memory is bounded, its gate stays within its limits, and it recovers
      from lost responses.
    - Reordering (JitterBuffer): delivery is in order and at most once under
      any interleaving ([jb_run] is the closure of a step relation); a
      reordered burst is restored; memory is bounded; resynchronization needs
      three corroborating packets, and three suffice.
    - Playback (Scheduler): over any history ([sched_run]) frames are ordered
      and real ones carry submitted packets and their PCM; none is early; playback starts on a
      reachable slot; a due slot always makes progress; realignment drops only
      late slots; splices have no step; a drained stream ends in silence.
    - Waveform (Ramp, Concealment): ramps are continuous and bounded, a run of
      concealed packets is one decaying, continuous waveform.
    - Host (Packetizer, Pipeline): no audio is lost or repeated; a track
      becomes one gapless numbered stream which the listener's decoder turns
      back into the same PCM; both ends compute the same timeline.
    - Workers (Resampler, DecodeWorker, PacketizerWorker, PlaylistProofs):
      resampling does not depend on batching; under every interleaving with
      consumer and editors the decoder delivers exactly the quantised source,
      the packetizer worker exactly the packetized stream within its queue's
      capacity, both ending early only with the stream's own failure or when
      they were cancelled or abandoned, and a playlist is one gapless stream
      with each track announced at its first sample; a consumer that keeps up
      receives all of it in bounded time.
    - Replay protection (Replay): the bitmap implements the set of committed
      sequences, no datagram is accepted twice over any history, and a retired
      key never comes back.
    - Output (RenderRing, PlaybackPump): the ring is a bounded queue under any
      interleaving and any staleness until its indices wrap, and not beyond;
      what the callback hears is what the scheduler yielded, rendered in order,
      missing only what the pump discards after the output ran dry; nothing plays before the first clock offset; the first frame is
      placed on its deadline behind what the ring holds; small corrections of
      the clock are slewed and converge.
    - Process (AudioAbi, ListenerPlayback): streams do not mix and a released
      token stays silent for good; stopping is final under any interleaving,
      terminates, and a failed start leaves no ring registered.
    - Session (HostQueue, Admission, SecureTrust): playlist edits are accepted
      exactly when they should be; a revoked listener stays out; the signed
      transcript binds every field, and claims in a request are ignored.
    - Actor: every input is a transaction that publishes consecutive valid
      snapshots; the playlist stays coherent with its reservations over any
      history; approvals are handed out only with a licence; an effect's
      completion is consumed once.
    - Actor threads (ActorMailboxProofs): over every interleaving of calls,
      workers and shutdown, inputs are applied once in the order admitted and
      the observer is told that history without gap; a granted boundary is
      committed and published; a clean shutdown leaves nothing behind; and an
      execution in which shutdown never returns.
    - Relaying (PlaybackControls): nothing a Stop retired is relayed again; the
      audio of a generation after a Stop is whole; what a late
      joiner is replayed is what the relayed controls say is on: the current
      track, the boundaries to come and the pause.
    - Control channel (ControlStream): what is reported is exactly the framing
      of the bytes received, however they are cut; well-formed messages
      all get through unless a deadline of the frame being assembled or of the
      admission really passed.
    - Socket host (HostTransportProofs): no disconnection is lost, because the
      terminal mailbox and the registered peers share one budget; datagrams
      reach only listeners whose admission completed; and a history in which a
      disconnection overtakes the last frame before it.

    - Invitations (InvitationsProofs): an invitation is redeemed at most once,
      and what is redeemed under a host's key is, field for field, what that
      host issued; the texts written by hand are JSON that reads back, and an
      invitation that was issued properly is redeemed; the history reads
      back from every store that is reached; and in the minute of tolerated
      clock skew after its expiry an invitation fails in the ledger's table.

    ** Modelling choices, fuel and bounds

    Integers are [Z] with explicit ranges; unchecked arithmetic wraps, because
    no build profile of the workspace enables overflow checks.  Loops are folds
    where the code iterates over a collection.  Two loops run on fuel: the
    packetizer's [while] loop, whose fuel is the carry's length (each round
    removes a non-empty packet; [emit_full_packets_closed] gives its result in
    closed form), and the scheduler's [discard_already_late_head], whose fuel
    is the distance to the last buffered packet ([discard_done] shows the loop
    has exited when the fuel is used up).  The pump thread's loop has the
    code's own bound of 512 frames, and the wait at stop is a step relation
    whose length [stop_wait_is_bounded] bounds.  The resampler's loop has
    [output_bound] as fuel, the number of output instants inside the source
    seen so far, which the proof of [resampling_ignores_batching] shows is never used up; a worker's loop
    ([worker_loop]) has the length of its schedule, and ends [Suspended] when
    the observation does.  [take_frames] has the length of its buffer, of which
    every round removes at least a header, and [read_loop] counts observed
    iterations: [control_stream_is_faithful] holds for each number of them, and
    [control_messages_get_through] says how many are enough.  Error messages
    are modelled in the actor, the audio workers and the transport, whose
    records carry them; elsewhere error kinds are.

    Some theorems bound their inputs: the theorems on the render ring's content
    bound the frames given to one ring by [usize::MAX] less its capacity (at 48
    kHz a day of playback on a 32-bit target, millions of years on a 64-bit
    one), because its indices wrap there ([wrapped_ring_repeats] shows what
    happens then); exactness of [f64] results needs times below 2^52 or 2^53
    units of the fraction they are multiples of; scheduler progress assumes the sequence number stays
    ten thousand below 2^64, since [next_expected_sequence += 1] wraps there.

    ** What is not modelled

    TLS, media decoding and the domain database (third-party crates and I/O);
    the parsing of JSON text, and SQLite beyond the statements the invitation
    store runs; the calls of
    the operating system under the sockets, whose answers are data of the
    models, with the writer thread that acknowledges a control message, the
    short answer to a connection over the limit, and the listener's end of the
    sockets; the spawning, joining and reaping of threads, the poisoning of a
    lock by a panicking thread and the counter of live decoders that only tests
    read; the UniFFI objects that forward to the modelled code; the virtual transports of the test harness; the
    Kotlin and desktop applications.  A stale read of telemetry counters is not
    modelled, since no decision depends on their exact value at once. *)
From Stdlib Require Import ZArith Lia Sorting.Sorted.
From stdpp Require Import numbers list prelude.

#[global] Open Scope Z_scope.

(** ** Results

    [Result<T, E>] of the source; [let?] is the [?] operator. *)

Inductive result (A E : Type) : Type :=
| Ok (value : A)
| Err (error : E).
Arguments Ok {A E} value.
Arguments Err {A E} error.

Declare Scope result_scope.
Delimit Scope result_scope with result.

Notation "'let?' x := e 'in' k" :=
  (match e with Ok x => k | Err error => Err error end)
  (at level 10, x name, e at level 200, k at level 200)
  : result_scope.
Notation "'let?' ' p := e 'in' k" :=
  (match e with Ok p => k | Err error => Err error end)
  (at level 10, p strict pattern, e at level 200, k at level 200)
  : result_scope.
#[global] Open Scope result_scope.

(** [Result::map_err]. *)
Definition map_err {A E F : Type} (f : E -> F) (r : result A E) : result A F :=
  match r with Ok a => Ok a | Err e => Err (f e) end.

(** [Result::map]. *)
Definition map_ok {A B E : Type} (f : A -> B) (r : result A E) : result B E :=
  match r with Ok a => Ok (f a) | Err e => Err e end.

(** [Option::ok_or]. *)
Definition ok_or {A E : Type} (o : option A) (e : E) : result A E :=
  match o with Some a => Ok a | None => Err e end.

Definition is_ok {A E : Type} (r : result A E) : bool :=
  match r with Ok _ => true | Err _ => false end.

#[export] Instance result_eq_dec {A E : Type} `{EqDecision A} `{EqDecision E} :
  EqDecision (result A E).
Proof. solve_decision. Defined.

(** ** Machine integers

    Every fixed-width integer of the source is a [Z] together with its range.
    [+], [-] and [*] on a type of [w] bits wrap modulo [2^w], which is what the
    release profile of the crate does (no profile of the workspace enables
    overflow checks); the [checked_] and [saturating_] families are the
    standard library's. *)

Definition is_uint (w x : Z) : Prop := 0 <= x < 2 ^ w.
Definition is_u8 (x : Z) : Prop := is_uint 8 x.
Definition is_u16 (x : Z) : Prop := is_uint 16 x.
Definition is_u32 (x : Z) : Prop := is_uint 32 x.
Definition is_u64 (x : Z) : Prop := is_uint 64 x.
Definition is_i16 (x : Z) : Prop := -32768 <= x <= 32767.

Definition u16_max : Z := 65535.
Definition u32_max : Z := 4294967295.
Definition u64_max : Z := 18446744073709551615.

Definition wrap (w x : Z) : Z := x mod 2 ^ w.
Definition wrapping_add (w a b : Z) : Z := wrap w (a + b).
Definition wrapping_sub (w a b : Z) : Z := wrap w (a - b).
Definition saturating_add (max a b : Z) : Z := Z.min (a + b) max.
Definition saturating_mul (max a b : Z) : Z := Z.min (a * b) max.
Definition saturating_sub (a b : Z) : Z := Z.max 0 (a - b).
Definition checked_add (max a b : Z) : option Z :=
  if a + b <=? max then Some (a + b) else None.
Definition checked_mul (max a b : Z) : option Z :=
  if a * b <=? max then Some (a * b) else None.
Definition checked_sub (a b : Z) : option Z :=
  if b <=? a then Some (a - b) else None.
Definition abs_diff (a b : Z) : Z := Z.abs (a - b).
(** [(lo..=hi).contains(&x)]. *)
Definition in_range (lo hi x : Z) : bool := (lo <=? x) && (x <=? hi).
(** [x.try_into().unwrap_or(MAX)]. *)
Definition try_from_or_max (max x : Z) : Z := if x <=? max then x else max.

(** The pointer width of the target: the Android library is built for 32-bit
    and 64-bit ABIs, the desktop host for 64-bit ones. *)
Inductive target : Type := Target32 | Target64.
Existing Class target.

Definition usize_max {t : target} : Z :=
  match t with Target32 => u32_max | Target64 => u64_max end.

(** [slice.len()]. *)
Definition len {A : Type} (l : list A) : Z := Z.of_nat (length l).

(** [VecDeque::push_back] into a deque of capacity [cap]: the code pops the
    front element first when the deque is full. *)
Definition push_bounded {A : Type} (cap : Z) (x : A) (l : list A) : list A :=
  (if len l =? cap then tail l else l) ++ [x].

(** [slice::sort_by], which is stable; [leb a b] is [compare(a, b) != Greater]. *)
Fixpoint sort_insert {A : Type} (leb : A -> A -> bool) (x : A) (l : list A) : list A :=
  match l with
  | [] => [x]
  | y :: l' => if leb x y then x :: l else y :: sort_insert leb x l'
  end.
Definition sort_by {A : Type} (leb : A -> A -> bool) (l : list A) : list A :=
  foldr (sort_insert leb) [] l.

(** ** Byte order *)

(** [uN::to_be_bytes] for [n] bytes. *)
Fixpoint be_bytes (n : nat) (z : Z) : list Z :=
  match n with
  | O => []
  | S n' => (z / 2 ^ (8 * Z.of_nat n')) mod 256 :: be_bytes n' z
  end.

(** [uN::from_be_bytes]. *)
Definition from_be_bytes (l : list Z) : Z := fold_left (fun acc b => acc * 256 + b) l 0.

(** ** Automation *)

Create HintDb rust.

Ltac unfold_ints :=
  unfold is_u8, is_u16, is_u32, is_u64, is_i16, is_uint, u16_max, u32_max, u64_max in *.

(** Case analysis on the boolean tests and matches that block a goal. *)
Ltac split_match :=
  match goal with
  | |- context [match ?x with _ => _ end] => destruct x eqn:?
  | H : context [match ?x with _ => _ end] |- _ => destruct x eqn:?
  end.

(** Peels the leading test, [let?] or match off a computation [H] that
    succeeded, discarding the branches that return an error. *)
Ltac ok_step H :=
  match type of H with
  | match ?x with _ => _ end = Ok _ => destruct x eqn:?; try discriminate H
  end.
Ltac ok_steps H := repeat ok_step H.

(** Turns the boolean comparisons of the code into the propositions they decide. *)
Ltac to_prop :=
  repeat match goal with
  | H : (_ && _)%bool = true |- _ => apply andb_true_iff in H; destruct H
  | H : (_ || _)%bool = false |- _ => apply orb_false_iff in H; destruct H
  | H : negb _ = true |- _ => apply negb_true_iff in H
  | H : negb _ = false |- _ => apply negb_false_iff in H
  | H : (_ <? _) = true |- _ => apply Z.ltb_lt in H
  | H : (_ <? _) = false |- _ => apply Z.ltb_ge in H
  | H : (_ <=? _) = true |- _ => apply Z.leb_le in H
  | H : (_ <=? _) = false |- _ => apply Z.leb_gt in H
  | H : (_ =? _) = true |- _ => apply Z.eqb_eq in H
  | H : (_ =? _) = false |- _ => apply Z.eqb_neq in H
  | H : bool_decide _ = true |- _ => apply bool_decide_eq_true in H
  | H : bool_decide _ = false |- _ => apply bool_decide_eq_false in H
  end.

(** ** Integers *)

Lemma usize_max_lower {t : target} : u32_max <= usize_max.
Proof. destruct t; unfold usize_max, u32_max, u64_max; lia. Qed.

Lemma usize_max_upper {t : target} : usize_max <= u64_max.
Proof. destruct t; unfold usize_max, u32_max, u64_max; lia. Qed.

Lemma wrap_small (w x : Z) : 0 <= x < 2 ^ w -> wrap w x = x.
Proof. intros H. unfold wrap. by apply Z.mod_small. Qed.

Lemma wrap_range (w x : Z) : 0 <= w -> is_uint w (wrap w x).
Proof. intros H. unfold is_uint, wrap. apply Z.mod_pos_bound, Z.pow_pos_nonneg; lia. Qed.

Lemma in_range_iff (lo hi x : Z) : in_range lo hi x = true <-> lo <= x <= hi.
Proof. unfold in_range. rewrite andb_true_iff, !Z.leb_le. done. Qed.

(** ** Lengths *)

Lemma len_nonneg {A : Type} (l : list A) : 0 <= len l.
Proof. unfold len. lia. Qed.
#[export] Hint Resolve len_nonneg : rust.

Lemma len_app {A : Type} (l k : list A) : len (l ++ k) = len l + len k.
Proof. unfold len. rewrite length_app. lia. Qed.

Lemma len_cons {A : Type} (x : A) (l : list A) : len (x :: l) = len l + 1.
Proof. unfold len. simpl. lia. Qed.

Lemma len_nil {A : Type} : len (@nil A) = 0.
Proof. reflexivity. Qed.

Lemma len_map {A B : Type} (f : A -> B) (l : list A) : len (map f l) = len l.
Proof. unfold len. by rewrite length_map. Qed.

Lemma len_zero {A : Type} (l : list A) : len l = 0 -> l = [].
Proof. destruct l; unfold len; simpl; [done|lia]. Qed.

Lemma len_push_bounded {A : Type} (cap : Z) (x : A) (l : list A) :
  1 <= cap -> len l <= cap -> 1 <= len (push_bounded cap x l) <= cap.
Proof.
  intros Hc Hl. unfold push_bounded. rewrite len_app, len_cons, len_nil.
  pose proof (len_nonneg l). destruct (len l =? cap) eqn:E; to_prop; [|lia].
  destruct l as [|y l]; [unfold len in *; simpl in *; lia|].
  rewrite len_cons in *. cbn [tail]. lia.
Qed.

Lemma push_bounded_not_nil {A : Type} (cap : Z) (x : A) (l : list A) : push_bounded cap x l <> [].
Proof. unfold push_bounded. by destruct (if len l =? cap then tail l else l). Qed.

Lemma Forall_push_bounded {A : Type} (P : A -> Prop) (cap : Z) (x : A) (l : list A) :
  P x -> Forall P l -> Forall P (push_bounded cap x l).
Proof.
  intros Hx Hl. unfold push_bounded. apply Forall_app. split; [|by constructor].
  destruct (len l =? cap), Hl; simpl; try done; by constructor.
Qed.

(** ** Sorting *)

Section Sorting.
Context {A : Type} (leb : A -> A -> bool).

Lemma sort_insert_perm (x : A) (l : list A) : sort_insert leb x l ≡ₚ x :: l.
Proof.
  induction l as [|y l IH]; simpl; [done|]. destruct (leb x y); [done|].
  rewrite IH. apply Permutation_swap.
Qed.

Lemma sort_by_perm (l : list A) : sort_by leb l ≡ₚ l.
Proof. induction l as [|x l IH]; simpl; [done|]. by rewrite sort_insert_perm, IH. Qed.

Hypothesis leb_total : forall x y, leb x y = false -> leb y x = true.
Hypothesis leb_trans : forall x y z, leb x y = true -> leb y z = true -> leb x z = true.

Lemma sort_insert_sorted (x : A) (l : list A) :
  StronglySorted (fun a b => leb a b = true) l ->
  StronglySorted (fun a b => leb a b = true) (sort_insert leb x l).
Proof.
  induction 1 as [|y l Hs IH Hy]; simpl; [by repeat constructor|].
  destruct (leb x y) eqn:E.
  - constructor; [by constructor|]. constructor; [done|].
    eapply Forall_impl; [exact Hy|]. intros z Hz. by apply (leb_trans x y).
  - constructor; [done|]. rewrite sort_insert_perm. constructor; [by apply leb_total|done].
Qed.

Lemma sort_by_sorted (l : list A) : StronglySorted (fun a b => leb a b = true) (sort_by leb l).
Proof. induction l as [|x l IH]; simpl; [constructor|by apply sort_insert_sorted]. Qed.

(** Truncating a sorted vector keeps its smallest elements. *)
Lemma sort_by_take_smallest (n : nat) (l : list A) (a b : A) :
  In a (take n (sort_by leb l)) -> In b (drop n (sort_by leb l)) -> leb a b = true.
Proof.
  pose proof (sort_by_sorted l) as Hs. revert n. induction Hs as [|x k Hs IH Hx]; intros n.
  - by rewrite take_nil.
  - destruct n as [|n]; [done|]. simpl. intros [->|Ha] Hb; [|by apply (IH n)].
    rewrite List.Forall_forall in Hx. apply Hx.
    rewrite <- (take_drop n k). apply in_app_iff. by right.
Qed.
End Sorting.

(** ** Byte order *)

Lemma length_be_bytes (n : nat) (z : Z) : length (be_bytes n z) = n.
Proof. induction n; simpl; congruence. Qed.

Lemma len_be_bytes (n : nat) (z : Z) : len (be_bytes n z) = Z.of_nat n.
Proof. unfold len. by rewrite length_be_bytes. Qed.

Lemma be_bytes_u8 (n : nat) (z : Z) : Forall is_u8 (be_bytes n z).
Proof.
  induction n; simpl; constructor; [|done].
  apply Z.mod_pos_bound. lia.
Qed.
#[export] Hint Resolve be_bytes_u8 : rust.

Lemma from_be_acc (l : list Z) (acc : Z) :
  fold_left (fun a b => a * 256 + b) l acc
  = acc * 2 ^ (8 * len l) + from_be_bytes l.
Proof.
  unfold from_be_bytes. revert acc. induction l as [|b l IH]; intros acc; cbn [fold_left].
  - change (len (@nil Z)) with 0. simpl. lia.
  - rewrite (IH (acc * 256 + b)), (IH (0 * 256 + b)), len_cons.
    replace (8 * (len l + 1)) with (8 * len l + 8) by lia.
    rewrite Z.pow_add_r by (pose proof (len_nonneg l); lia).
    change (2 ^ 8) with 256. ring.
Qed.

Lemma from_be_cons (b : Z) (l : list Z) :
  from_be_bytes (b :: l) = b * 2 ^ (8 * len l) + from_be_bytes l.
Proof. unfold from_be_bytes at 1. simpl. rewrite from_be_acc. lia. Qed.

Lemma from_be_be_bytes (n : nat) (z : Z) :
  from_be_bytes (be_bytes n z) = z mod 2 ^ (8 * Z.of_nat n).
Proof.
  induction n as [|n IH].
  - simpl. by rewrite Z.mod_1_r.
  - cbn [be_bytes]. rewrite from_be_cons, IH, len_be_bytes.
    replace (8 * Z.of_nat (S n)) with (8 * Z.of_nat n + 8) by lia.
    rewrite Z.pow_add_r by lia. change (2 ^ 8) with 256.
    rewrite Z.rem_mul_r by (try apply Z.pow_nonzero; lia). lia.
Qed.

Lemma from_be_range (l : list Z) :
  Forall is_u8 l -> 0 <= from_be_bytes l < 2 ^ (8 * len l).
Proof.
  induction 1 as [|b l Hb Hl IH].
  - change (0 <= 0 < 2 ^ 0). lia.
  - rewrite from_be_cons, len_cons.
    replace (8 * (len l + 1)) with (8 * len l + 8) by lia.
    rewrite Z.pow_add_r by (pose proof (len_nonneg l); lia).
    change (2 ^ 8) with 256. unfold is_u8, is_uint in Hb.
    change (2 ^ 8) with 256 in Hb. nia.
Qed.

Lemma be_bytes_high (n : nat) (z : Z) (h : Z) :
  be_bytes n (h * 2 ^ (8 * Z.of_nat n) + z) = be_bytes n z.
Proof.
  revert h. induction n as [|n IH]; intros h; [done|]. cbn [be_bytes].
  replace (8 * Z.of_nat (S n)) with (8 * Z.of_nat n + 8) by lia.
  rewrite Z.pow_add_r by lia. change (2 ^ 8) with 256. f_equal.
  - replace (h * (2 ^ (8 * Z.of_nat n) * 256) + z)
      with (h * 256 * 2 ^ (8 * Z.of_nat n) + z) by ring.
    rewrite Z.div_add_l by (apply Z.pow_nonzero; lia).
    rewrite (Z.add_comm (h * 256)). by rewrite Z.mod_add by lia.
  - replace (h * (2 ^ (8 * Z.of_nat n) * 256) + z)
      with (h * 256 * 2 ^ (8 * Z.of_nat n) + z) by ring. apply IH.
Qed.

Lemma be_bytes_from_be (l : list Z) :
  Forall is_u8 l -> be_bytes (length l) (from_be_bytes l) = l.
Proof.
  induction 1 as [|b l Hb Hl IH]; [done|].
  cbn [be_bytes length]. rewrite from_be_cons. fold (len l).
  pose proof (from_be_range l Hl) as Hr. pose proof (len_nonneg l). f_equal.
  - rewrite Z.div_add_l by (apply Z.pow_nonzero; lia).
    rewrite Z.div_small by done. rewrite Z.add_0_r. by apply Z.mod_small.
  - unfold len. rewrite be_bytes_high. done.
Qed.

Lemma from_be_be_bytes_small (n : nat) (z : Z) :
  is_uint (8 * Z.of_nat n) z -> from_be_bytes (be_bytes n z) = z.
Proof. intros H. rewrite from_be_be_bytes. by apply Z.mod_small. Qed.
