(* ===== verification/BTreeMap.v ===== *)
(** The ordered map [std::collections::BTreeMap<u64, V>] of the standard
    library, as the strictly increasing association list its iterators yield.
    The jitter buffer, its far-future candidates and the pending clock-sync
    probes are such maps; the code relies on key order ([keys().next()],
    [into_values()]), so order is part of the model. *)
From Stdlib Require Import ZArith Lia Sorting.Sorted.
From stdpp Require Import numbers list prelude.
From S2P Require Import Prelude.

Definition btmap (V : Type) : Type := list (Z * V).

Section BTreeMap.
Context {V : Type}.
Implicit Types (m : btmap V) (k : Z) (v : V).

Definition bt_empty : btmap V := [].

Definition bt_keys m : list Z := map fst m.
Definition bt_values m : list V := map snd m.

Fixpoint bt_get k m : option V :=
  match m with
  | [] => None
  | (k', v) :: m' => if k =? k' then Some v else bt_get k m'
  end.

Definition bt_contains_key k m : bool :=
  match bt_get k m with Some _ => true | None => false end.

Fixpoint bt_insert k v m : btmap V :=
  match m with
  | [] => [(k, v)]
  | (k', v') :: m' =>
      if k <? k' then (k, v) :: m
      else if k =? k' then (k, v) :: m'
      else (k', v') :: bt_insert k v m'
  end.

Fixpoint bt_remove k m : btmap V :=
  match m with
  | [] => []
  | (k', v') :: m' => if k =? k' then m' else (k', v') :: bt_remove k m'
  end.

(** [retain]. *)
Definition bt_retain (f : Z -> V -> bool) m : btmap V :=
  List.filter (fun kv => f kv.1 kv.2) m.

(** [keys().next()] and [keys().next_back()]. *)
Definition bt_first_key m : option Z := head (bt_keys m).
Definition bt_last_key m : option Z := last (bt_keys m).
(** [values().next()]. *)
Definition bt_first_value m : option V := head (bt_values m).

Definition bt_is_empty m : bool := match m with [] => true | _ => false end.

(** Keys are strictly increasing, as in every [BTreeMap]. *)
Definition bt_ok m : Prop := StronglySorted Z.lt (bt_keys m).

(** ** Well-formedness *)

Lemma bt_ok_empty : bt_ok bt_empty.
Proof. constructor. Qed.

Lemma bt_ok_cons k v m :
  bt_ok ((k, v) :: m) <-> Forall (Z.lt k) (bt_keys m) /\ bt_ok m.
Proof.
  unfold bt_ok; simpl. split.
  - intros H. by inversion H; subst.
  - intros [? ?]. by constructor.
Qed.

Lemma bt_keys_insert k v m k' : In k' (bt_keys (bt_insert k v m)) <-> k' = k \/ In k' (bt_keys m).
Proof.
  induction m as [|[k1 v1] m IH]; simpl; [intuition|].
  destruct (k <? k1) eqn:?; simpl; [intuition|].
  destruct (k =? k1) eqn:?; simpl; to_prop; subst; [intuition|].
  rewrite IH. intuition.
Qed.

Lemma bt_ok_insert k v m : bt_ok m -> bt_ok (bt_insert k v m).
Proof.
  induction m as [|[k1 v1] m IH]; intros Hok; simpl.
  - apply bt_ok_cons. split; [constructor|apply bt_ok_empty].
  - apply bt_ok_cons in Hok as [Hlt Hok].
    destruct (k <? k1) eqn:E1; to_prop.
    + apply bt_ok_cons. split; [|by apply bt_ok_cons].
      constructor; [done|]. eapply Forall_impl; [exact Hlt|]. intros; simpl in *; lia.
    + destruct (k =? k1) eqn:E2; to_prop; subst; apply bt_ok_cons; [done|].
      split; [|auto]. apply List.Forall_forall. intros x Hx.
      apply bt_keys_insert in Hx as [->|Hx]; [lia|].
      rewrite List.Forall_forall in Hlt. auto.
Qed.

Lemma bt_keys_remove_incl k m k' : In k' (bt_keys (bt_remove k m)) -> In k' (bt_keys m).
Proof.
  induction m as [|[k1 v1] m IH]; simpl; [done|].
  destruct (k =? k1); simpl; intuition.
Qed.

Lemma bt_ok_remove k m : bt_ok m -> bt_ok (bt_remove k m).
Proof.
  induction m as [|[k1 v1] m IH]; intros Hok; simpl; [done|].
  apply bt_ok_cons in Hok as [Hlt Hok].
  destruct (k =? k1); [done|]. apply bt_ok_cons. split; [|auto].
  apply List.Forall_forall. intros x Hx. apply bt_keys_remove_incl in Hx.
  rewrite List.Forall_forall in Hlt. auto.
Qed.

Lemma bt_keys_retain_incl f m k : In k (bt_keys (bt_retain f m)) -> In k (bt_keys m).
Proof.
  unfold bt_keys, bt_retain. rewrite !in_map_iff. intros (x & <- & Hx).
  apply filter_In in Hx as [Hx _]. eauto.
Qed.

Lemma bt_ok_retain f m : bt_ok m -> bt_ok (bt_retain f m).
Proof.
  induction m as [|[k1 v1] m IH]; intros Hok; simpl; [done|].
  apply bt_ok_cons in Hok as [Hlt Hok].
  destruct (f k1 v1); [|auto]. apply bt_ok_cons. split; [|by apply IH].
  apply List.Forall_forall. intros x Hx. apply bt_keys_retain_incl in Hx.
  rewrite List.Forall_forall in Hlt. auto.
Qed.

(** ** Lookup *)

Lemma bt_get_in_keys k m v : bt_get k m = Some v -> In k (bt_keys m).
Proof.
  induction m as [|[k1 v1] m IH]; simpl; [done|].
  destruct (k =? k1) eqn:E; to_prop; [by left|]. right. auto.
Qed.

Lemma bt_keys_get k m : In k (bt_keys m) -> exists v, bt_get k m = Some v.
Proof.
  induction m as [|[k1 v1] m IH]; simpl; [done|]. intros [->|H].
  - rewrite Z.eqb_refl. eauto.
  - destruct (k =? k1); eauto.
Qed.

Lemma bt_get_None_keys k m : bt_get k m = None <-> ~ In k (bt_keys m).
Proof.
  split.
  - intros H Hin. apply bt_keys_get in Hin as [v Hv]. congruence.
  - intros H. destruct (bt_get k m) eqn:E; [|done].
    exfalso. apply H. by eapply bt_get_in_keys.
Qed.

Lemma bt_contains_key_false k m : bt_contains_key k m = false <-> ~ In k (bt_keys m).
Proof. unfold bt_contains_key. rewrite <- bt_get_None_keys. by destruct (bt_get k m). Qed.

Lemma bt_get_insert_eq k v m : bt_get k (bt_insert k v m) = Some v.
Proof.
  induction m as [|[k1 v1] m IH]; simpl; [by rewrite Z.eqb_refl|].
  destruct (k <? k1) eqn:?; simpl; [by rewrite Z.eqb_refl|].
  destruct (k =? k1) eqn:E; simpl; [by rewrite Z.eqb_refl|]. by rewrite E.
Qed.

Lemma bt_get_insert_ne k k' v m : k <> k' -> bt_get k' (bt_insert k v m) = bt_get k' m.
Proof.
  intros Hne. assert ((k' =? k) = false) as Hf by (apply Z.eqb_neq; lia).
  induction m as [|[k1 v1] m IH]; simpl; [by rewrite Hf|].
  destruct (k <? k1) eqn:?; simpl; [by rewrite Hf|].
  destruct (k =? k1) eqn:E; simpl.
  - apply Z.eqb_eq in E; subst. by rewrite Hf.
  - by rewrite IH.
Qed.

Lemma bt_get_remove_eq k m : bt_ok m -> bt_get k (bt_remove k m) = None.
Proof.
  induction m as [|[k1 v1] m IH]; intros Hok; simpl; [done|].
  apply bt_ok_cons in Hok as [Hlt Hok].
  destruct (k =? k1) eqn:E; simpl; [|rewrite E; auto].
  to_prop; subst. apply bt_get_None_keys. intros Hin.
  rewrite List.Forall_forall in Hlt. apply Hlt in Hin. lia.
Qed.

Lemma bt_get_remove_ne k k' m : k <> k' -> bt_get k' (bt_remove k m) = bt_get k' m.
Proof.
  intros Hne. induction m as [|[k1 v1] m IH]; simpl; [done|].
  destruct (k =? k1) eqn:E; simpl.
  - to_prop; subst. assert ((k' =? k1) = false) as -> by (apply Z.eqb_neq; lia). done.
  - by rewrite IH.
Qed.

Lemma bt_remove_absent k m : bt_get k m = None -> bt_remove k m = m.
Proof.
  induction m as [|[k1 v1] m IH]; simpl; [done|].
  destruct (k =? k1); [done|]. intros H. by rewrite IH.
Qed.

Lemma bt_get_values k m v : bt_get k m = Some v -> In v (bt_values m).
Proof.
  induction m as [|[k1 v1] m IH]; simpl; [done|].
  destruct (k =? k1); [|auto]. intros [= ->]. by left.
Qed.

(** Every entry of [m] satisfies [P]; carried through the operations. *)
Definition bt_forall (P : Z -> V -> Prop) m : Prop := Forall (fun kv => P kv.1 kv.2) m.

Lemma bt_forall_insert P k v m : P k v -> bt_forall P m -> bt_forall P (bt_insert k v m).
Proof.
  intros HP Hm. induction Hm as [|[k1 v1] m Hh Ht IH]; simpl.
  - by constructor.
  - destruct (k <? k1); [by repeat constructor|].
    destruct (k =? k1); by constructor.
Qed.

Lemma bt_forall_remove P k m : bt_forall P m -> bt_forall P (bt_remove k m).
Proof.
  intros Hm. induction Hm as [|[k1 v1] m Hh Ht IH]; simpl; [constructor|].
  destruct (k =? k1); [done|]. by constructor.
Qed.

Lemma bt_forall_retain P f m : bt_forall P m -> bt_forall P (bt_retain f m).
Proof.
  unfold bt_forall, bt_retain. rewrite !List.Forall_forall.
  intros H x Hx. apply filter_In in Hx as [Hx _]. auto.
Qed.

Lemma bt_forall_impl (P Q : Z -> V -> Prop) m :
  (forall k v, P k v -> Q k v) -> bt_forall P m -> bt_forall Q m.
Proof. intros HPQ Hm. eapply Forall_impl; [exact Hm|]. intros [k v]; simpl; auto. Qed.

Lemma bt_forall_keys (P : Z -> Prop) m :
  bt_forall (fun k _ => P k) m <-> (forall k, In k (bt_keys m) -> P k).
Proof.
  unfold bt_forall, bt_keys. rewrite List.Forall_forall. split.
  - intros H k Hk. apply in_map_iff in Hk as ([k' v] & <- & Hin). by apply H in Hin.
  - intros H [k v] Hin. simpl. apply H, in_map_iff. by exists (k, v).
Qed.

Lemma bt_forall_get P k v m : bt_forall P m -> bt_get k m = Some v -> P k v.
Proof.
  intros Hm. induction Hm as [|[k1 v1] m Hh Ht IH]; simpl; [done|].
  destruct (k =? k1) eqn:E; [|done]. to_prop; subst. by intros [= <-].
Qed.

(** ** First and last keys *)

Lemma bt_first_key_min m k k' :
  bt_ok m -> bt_first_key m = Some k -> In k' (bt_keys m) -> k <= k'.
Proof.
  destruct m as [|[k1 v1] m]; [done|]. intros Hok [= ->].
  apply bt_ok_cons in Hok as [Hlt _]. rewrite List.Forall_forall in Hlt.
  simpl. intros [->|H]; [lia|]. apply Hlt in H. lia.
Qed.

Lemma bt_first_key_in m k : bt_first_key m = Some k -> In k (bt_keys m).
Proof. destruct m as [|[k1 v1] m]; [done|]. intros [= ->]. by left. Qed.

Lemma bt_first_key_value m k : bt_first_key m = Some k -> exists v, bt_first_value m = Some v.
Proof. destruct m as [|[k1 v1] m]; [done|]. intros _. by exists v1. Qed.

Lemma bt_first_key_None m : bt_first_key m = None <-> m = [].
Proof. by destruct m as [|[k1 v1] m]. Qed.

Lemma bt_last_key_in m k : bt_last_key m = Some k -> In k (bt_keys m).
Proof.
  unfold bt_last_key. intros H. apply last_Some in H as [l H]. rewrite H.
  apply in_app_iff. right. by left.
Qed.

Lemma bt_last_key_max m k k' :
  bt_ok m -> bt_last_key m = Some k -> In k' (bt_keys m) -> k' <= k.
Proof.
  unfold bt_ok, bt_last_key. generalize (bt_keys m) as l. intros l Hs Hl Hin.
  apply last_Some in Hl as [l' ->]. apply in_app_iff in Hin as [Hin|[->|[]]]; [|lia].
  induction l' as [|x l' IH]; [done|]. simpl in *.
  inversion_clear Hs as [|? ? Hs' Hf]. rewrite List.Forall_forall in Hf.
  destruct Hin as [->|Hin]; [|auto].
  assert (k' < k) by (apply Hf, in_app_iff; right; by left). lia.
Qed.

Lemma bt_is_empty_true m : bt_is_empty m = true <-> m = [].
Proof. by destruct m. Qed.

(** ** Sizes *)

Lemma bt_len_insert_fresh k v m :
  bt_get k m = None -> len (bt_insert k v m) = len m + 1.
Proof.
  induction m as [|[k1 v1] m IH]; simpl; [done|].
  destruct (k =? k1) eqn:E; [done|]. intros H.
  destruct (k <? k1); rewrite !len_cons; [done|]. by rewrite IH.
Qed.

Lemma bt_len_insert_le k v m : len (bt_insert k v m) <= len m + 1.
Proof.
  induction m as [|[k1 v1] m IH]; simpl; [done|].
  destruct (k <? k1), (k =? k1); rewrite !len_cons; lia.
Qed.

Lemma bt_len_remove_present k v m :
  bt_get k m = Some v -> len (bt_remove k m) = len m - 1.
Proof.
  induction m as [|[k1 v1] m IH]; simpl; [done|].
  destruct (k =? k1) eqn:E; rewrite !len_cons; [lia|]. intros H. rewrite IH; [lia|done].
Qed.

Lemma bt_len_retain_le f m : len (bt_retain f m) <= len m.
Proof. unfold len, bt_retain. pose proof (List.filter_length_le (fun kv => f kv.1 kv.2) m). lia. Qed.

(** A strictly increasing map whose keys lie in [[lo, hi]] has at most
    [hi - lo + 1] entries. *)
Lemma bt_len_range m lo hi :
  bt_ok m -> (forall k, In k (bt_keys m) -> lo <= k <= hi) -> lo <= hi + 1 ->
  len m <= hi - lo + 1.
Proof.
  revert lo. induction m as [|[k1 v1] m IH]; intros lo Hok Hr Hlo.
  - change (len (@nil (Z * V))) with 0. lia.
  - apply bt_ok_cons in Hok as [Hlt Hok]. rewrite List.Forall_forall in Hlt.
    assert (lo <= k1 <= hi) by (apply Hr; by left).
    rewrite len_cons. assert (len m <= hi - (k1 + 1) + 1); [|lia].
    apply IH; [done| |lia]. intros k Hk.
    assert (lo <= k <= hi) by (apply Hr; by right). apply Hlt in Hk. lia.
Qed.

End BTreeMap.

#[export] Hint Resolve bt_ok_empty bt_ok_insert bt_ok_remove bt_ok_retain : rust.
#[export] Hint Resolve bt_forall_insert bt_forall_remove bt_forall_retain : rust.
