(* ===== verification/Utf8.v ===== *)
(** Rust strings: a [String] is its sequence of [char]s (Unicode scalar
    values), with the UTF-8 conversions and the character classes of the
    standard library that the protocol's field validation uses. *)
From Stdlib Require Import ZArith Lia Strings.String Strings.Ascii.
From stdpp Require Import numbers list prelude.
From S2P Require Import Prelude.

(** A [str], as the list of its [char]s. *)
Abbreviation rstr := (list Z).

Definition is_scalar (c : Z) : Prop := 0 <= c < 55296 \/ 57344 <= c <= 1114111.
Definition wf_str (s : rstr) : Prop := Forall is_scalar s.

(** A string literal of the source; the literals of the modelled code are ASCII. *)
Fixpoint lit (s : string) : rstr :=
  match s with
  | EmptyString => []
  | String a s' => Z.of_nat (nat_of_ascii a) :: lit s'
  end.
Arguments lit s%_string.

(** [char::is_whitespace]: the Unicode [White_Space] property. *)
Definition is_whitespace (c : Z) : bool :=
  in_range 9 13 c || (c =? 32) || (c =? 133) || (c =? 160) || (c =? 5760)
  || in_range 8192 8202 c || (c =? 8232) || (c =? 8233) || (c =? 8239)
  || (c =? 8287) || (c =? 12288).

(** [char::is_control]: the general category Cc. *)
Definition is_control (c : Z) : bool := in_range 0 31 c || in_range 127 159 c.

Fixpoint trim_start (s : rstr) : rstr :=
  match s with
  | [] => []
  | c :: s' => if is_whitespace c then trim_start s' else s
  end.

(** [str::trim]. *)
Definition trim (s : rstr) : rstr := rev (trim_start (rev (trim_start s))).

(** [char::encode_utf8]. *)
Definition utf8_char (c : Z) : list Z :=
  if c <? 128 then [c]
  else if c <? 2048 then [192 + c / 64; 128 + c mod 64]
  else if c <? 65536 then [224 + c / 4096; 128 + (c / 64) mod 64; 128 + c mod 64]
  else [240 + c / 262144; 128 + (c / 4096) mod 64; 128 + (c / 64) mod 64; 128 + c mod 64].

(** [str::as_bytes]. *)
Fixpoint as_bytes (s : rstr) : list Z :=
  match s with
  | [] => []
  | c :: s' => utf8_char c ++ as_bytes s'
  end.

(** [str::len]: the number of UTF-8 bytes. *)
Definition str_len (s : rstr) : Z := len (as_bytes s).

Definition is_continuation (b : Z) : bool := in_range 128 191 b.

(** The second byte of a three-byte sequence: no overlong form, no surrogate. *)
Definition second_of_three (b0 b1 : Z) : bool :=
  if b0 =? 224 then in_range 160 191 b1
  else if b0 =? 237 then in_range 128 159 b1
  else is_continuation b1.

(** The second byte of a four-byte sequence: no overlong form, at most U+10FFFF. *)
Definition second_of_four (b0 b1 : Z) : bool :=
  if b0 =? 240 then in_range 144 191 b1
  else if b0 =? 244 then in_range 128 143 b1
  else is_continuation b1.

(** [core::str::from_utf8]. *)
Fixpoint from_utf8 (bs : list Z) : option rstr :=
  match bs with
  | [] => Some []
  | b0 :: r0 =>
      if b0 <? 128 then option_map (cons b0) (from_utf8 r0)
      else match r0 with
      | [] => None
      | b1 :: r1 =>
          if in_range 194 223 b0 && is_continuation b1 then
            option_map (cons ((b0 - 192) * 64 + (b1 - 128))) (from_utf8 r1)
          else match r1 with
          | [] => None
          | b2 :: r2 =>
              if in_range 224 239 b0 && second_of_three b0 b1 && is_continuation b2 then
                option_map (cons ((b0 - 224) * 4096 + (b1 - 128) * 64 + (b2 - 128)))
                  (from_utf8 r2)
              else match r2 with
              | [] => None
              | b3 :: r3 =>
                  if in_range 240 244 b0 && second_of_four b0 b1
                     && is_continuation b2 && is_continuation b3 then
                    option_map
                      (cons ((b0 - 240) * 262144 + (b1 - 128) * 4096
                             + (b2 - 128) * 64 + (b3 - 128)))
                      (from_utf8 r3)
                  else None
              end
          end
      end
  end.

(** ** UTF-8 round trips *)

Local Ltac utf8_lia :=
  unfold second_of_three, second_of_four, is_continuation, in_range in *;
  Z.div_mod_to_equations; lia.

Lemma utf8_char_u8 (c : Z) : is_scalar c -> Forall is_u8 (utf8_char c).
Proof.
  unfold is_scalar, utf8_char, is_u8, is_uint. change (2 ^ 8) with 256. intros H.
  repeat split_match; to_prop; repeat constructor; utf8_lia.
Qed.

Lemma as_bytes_u8 (s : rstr) : wf_str s -> Forall is_u8 (as_bytes s).
Proof.
  induction 1; simpl; [constructor|]. apply Forall_app. split; [|done].
  by apply utf8_char_u8.
Qed.
#[export] Hint Resolve as_bytes_u8 : rust.

Lemma from_utf8_char (c : Z) (bs : list Z) :
  is_scalar c -> from_utf8 (utf8_char c ++ bs) = option_map (cons c) (from_utf8 bs).
Proof.
  intros H. unfold is_scalar in H. unfold utf8_char.
  destruct (c <? 128) eqn:E1; [simpl; by rewrite E1|].
  destruct (c <? 2048) eqn:E2.
  { cbn [app from_utf8]. to_prop.
    rewrite (proj2 (Z.ltb_ge _ _)) by utf8_lia.
    replace (in_range 194 _ _ && _) with true by (symmetry; utf8_lia).
    do 2 f_equal. utf8_lia. }
  destruct (c <? 65536) eqn:E3.
  { cbn [app from_utf8]. to_prop.
    rewrite (proj2 (Z.ltb_ge _ _)) by utf8_lia.
    replace (in_range 194 _ _ && _) with false by (symmetry; utf8_lia).
    replace (in_range 224 _ _ && _ && _) with true.
    - do 2 f_equal. utf8_lia.
    - symmetry. rewrite !andb_true_iff. unfold second_of_three.
      repeat split; repeat split_match; to_prop; utf8_lia. }
  cbn [app from_utf8]. to_prop.
  rewrite (proj2 (Z.ltb_ge _ _)) by utf8_lia.
  replace (in_range 194 _ _ && _) with false by (symmetry; utf8_lia).
  replace (in_range 224 _ _ && _ && _) with false by (symmetry; rewrite !andb_false_iff; utf8_lia).
  replace (in_range 240 _ _ && _ && _ && _) with true.
  - do 2 f_equal. utf8_lia.
  - symmetry. rewrite !andb_true_iff. unfold second_of_four.
    repeat split; repeat split_match; to_prop; utf8_lia.
Qed.

Lemma from_utf8_as_bytes (s : rstr) : wf_str s -> from_utf8 (as_bytes s) = Some s.
Proof.
  induction 1 as [|c s Hc Hs IH]; [done|].
  cbn [as_bytes]. by rewrite from_utf8_char, IH.
Qed.

Lemma from_utf8_sound_len (n : nat) (bs : list Z) (s : rstr) :
  (length bs <= n)%nat -> Forall is_u8 bs -> from_utf8 bs = Some s ->
  as_bytes s = bs /\ wf_str s.
Proof.
  revert bs s. induction n as [|n IH]; intros bs s Hn Hu.
  { destruct bs; simpl in *; [|lia]. intros [= <-]. split; [done|constructor]. }
  destruct bs as [|b0 r0]; cbn [from_utf8].
  { intros [= <-]. split; [done|constructor]. }
  inversion_clear Hu as [|? ? Hb0 Hr0]. simpl in Hn.
  unfold is_u8, is_uint in Hb0. change (2 ^ 8) with 256 in Hb0.
  destruct (b0 <? 128) eqn:E0.
  { destruct (from_utf8 r0) as [s0|] eqn:E; [|done]. intros [= <-].
    apply IH in E as [<- Hs]; [|lia|done]. split.
    - cbn [as_bytes]. unfold utf8_char. by rewrite E0.
    - constructor; [|done]. unfold is_scalar. to_prop. lia. }
  destruct r0 as [|b1 r1]; [done|]. inversion_clear Hr0 as [|? ? Hb1 Hr1]. simpl in Hn.
  destruct (in_range 194 223 b0 && is_continuation b1) eqn:E1.
  { destruct (from_utf8 r1) as [s0|] eqn:E; [|done]. intros [= <-].
    apply IH in E as [<- Hs]; [|lia|done]. unfold is_continuation, in_range in E1. to_prop. split.
    - cbn [as_bytes]. unfold utf8_char.
      rewrite (proj2 (Z.ltb_ge _ _)), (proj2 (Z.ltb_lt _ _)) by utf8_lia.
      cbn [app]. repeat f_equal; utf8_lia.
    - constructor; [|done]. unfold is_scalar. utf8_lia. }
  destruct r1 as [|b2 r2]; [done|]. inversion_clear Hr1 as [|? ? Hb2 Hr2]. simpl in Hn.
  destruct (in_range 224 239 b0 && second_of_three b0 b1 && is_continuation b2) eqn:E2.
  { destruct (from_utf8 r2) as [s0|] eqn:E; [|done]. intros [= <-].
    apply IH in E as [<- Hs]; [|lia|done].
    clear E1. unfold second_of_three, is_continuation, in_range in E2. to_prop.
    assert (is_scalar ((b0 - 224) * 4096 + (b1 - 128) * 64 + (b2 - 128))
            /\ 2048 <= (b0 - 224) * 4096 + (b1 - 128) * 64 + (b2 - 128) < 65536
            /\ 128 <= b1 <= 191) as (Hsc & Hr & Hb).
    { unfold is_scalar, is_continuation, in_range in *. repeat split_match; to_prop; lia. }
    split; [|by constructor]. cbn [as_bytes]. unfold utf8_char.
    rewrite !(proj2 (Z.ltb_ge _ _)) by lia. rewrite (proj2 (Z.ltb_lt _ _)) by lia.
    cbn [app]. repeat f_equal; Z.div_mod_to_equations; lia. }
  destruct r2 as [|b3 r3]; [done|]. inversion_clear Hr2 as [|? ? Hb3 Hr3]. simpl in Hn.
  destruct (in_range 240 244 b0 && second_of_four b0 b1 && is_continuation b2
            && is_continuation b3) eqn:E3; [|done].
  destruct (from_utf8 r3) as [s0|] eqn:E; [|done]. intros [= <-].
  apply IH in E as [<- Hs]; [|lia|done].
  clear E1 E2. unfold second_of_four, is_continuation, in_range in E3. to_prop.
  assert (65536 <= (b0 - 240) * 262144 + (b1 - 128) * 4096 + (b2 - 128) * 64 + (b3 - 128)
          <= 1114111 /\ 128 <= b1 <= 191) as (Hr & Hb).
  { unfold is_continuation, in_range in *. repeat split_match; to_prop; lia. }
  split; [|constructor; [unfold is_scalar; lia|done]]. cbn [as_bytes]. unfold utf8_char.
  rewrite !(proj2 (Z.ltb_ge _ _)) by lia.
  cbn [app]. repeat f_equal; Z.div_mod_to_equations; lia.
Qed.

(** UTF-8 decoding is canonical: the accepted bytes are the encoding of the
    decoded string. *)
Lemma from_utf8_sound (bs : list Z) (s : rstr) :
  Forall is_u8 bs -> from_utf8 bs = Some s -> as_bytes s = bs /\ wf_str s.
Proof. apply (from_utf8_sound_len (length bs)). lia. Qed.

(** A literal made of ASCII characters is a well-formed string. *)
Lemma wf_str_lit (s : string) : wf_str (lit s).
Proof.
  induction s as [|a s IH]; simpl; constructor; [|done].
  unfold is_scalar. pose proof (nat_ascii_bounded a). lia.
Qed.
#[export] Hint Resolve wf_str_lit : rust.
