(* ===== verification/Float64.v ===== *)
(** [f64] of the source: IEEE-754 binary64, through the Standard Library's
    [SpecFloat] (53-bit precision, exponents below 1024), which computes.
    NaN payloads are not distinguished; no modelled operation inspects one. *)
From Stdlib Require Import ZArith Lia SpecFloat.
From stdpp Require Import numbers list prelude.
From S2P Require Import Prelude.

Definition f64 : Type := spec_float.

Definition f64_add : f64 -> f64 -> f64 := SFadd 53 1024.
Definition f64_sub : f64 -> f64 -> f64 := SFsub 53 1024.
Definition f64_mul : f64 -> f64 -> f64 := SFmul 53 1024.
Definition f64_div : f64 -> f64 -> f64 := SFdiv 53 1024.
Definition f64_abs : f64 -> f64 := SFabs.
Definition f64_ltb : f64 -> f64 -> bool := SFltb.
Definition f64_leb : f64 -> f64 -> bool := SFleb.
Definition f64_eqb : f64 -> f64 -> bool := SFeqb.

(** [value as f64] for an integer [value]. *)
Definition f64_of_Z (z : Z) : f64 := binary_normalize 53 1024 z 0 false.

Definition f64_is_nan (x : f64) : bool := match x with S754_nan => true | _ => false end.
Definition f64_is_finite (x : f64) : bool :=
  match x with S754_nan | S754_infinity _ => false | _ => true end.

(** [f64::max] and [f64::min]: a NaN argument yields the other one. *)
Definition f64_max (x y : f64) : f64 :=
  if f64_is_nan x then y else if f64_is_nan y then x else if f64_ltb x y then y else x.
Definition f64_min (x y : f64) : f64 :=
  if f64_is_nan x then y else if f64_is_nan y then x else if f64_ltb y x then y else x.

(** [f64::total_cmp(..) != Greater]: negative zero precedes positive zero and
    a (positive) NaN follows every number. *)
Definition f64_total_leb (x y : f64) : bool :=
  match x, y with
  | _, S754_nan => true
  | S754_nan, _ => false
  | S754_zero sx, S754_zero sy => implb sy sx
  | _, _ => f64_leb x y
  end.

(** [-0.0], the unit from which [Iterator::sum] folds. *)
Definition f64_neg_zero : f64 := S754_zero true.
Definition f64_sum (l : list f64) : f64 := fold_left f64_add l f64_neg_zero.

(** The magnitude [m * 2^e] rounded to the nearest integer, ties away from zero. *)
Definition round_half_away (m e : Z) : Z :=
  if 0 <=? e then m * 2 ^ e
  else (2 * m + 2 ^ (- e)) / 2 ^ (1 - e).

(** [f64::round]. *)
Definition f64_round (x : f64) : f64 :=
  match x with
  | S754_finite s m e =>
      if 0 <=? e then x
      else binary_normalize 53 1024 (cond_Zopp s (round_half_away (Zpos m) e)) 0 s
  | _ => x
  end.

(** [x as u64]: truncation towards zero, saturating; NaN becomes zero. *)
Definition f64_to_u64 (x : f64) : Z :=
  match x with
  | S754_finite false m e =>
      Z.min u64_max (if 0 <=? e then Zpos m * 2 ^ e else Zpos m / 2 ^ (- e))
  | S754_infinity false => u64_max
  | _ => 0
  end.

(** [f64::clamp]; a NaN stays. *)
Definition f64_clamp (x min max : f64) : f64 :=
  if f64_ltb x min then min else if f64_ltb max x then max else x.

(** ** Single precision *)

(** [f32] in the format of its own precision. *)
Definition f32 : Type := spec_float.
Definition f32_of_Z (z : Z) : f32 := binary_normalize 24 128 z 0 false.
Definition f32_is_finite (x : f32) : bool :=
  match x with S754_zero _ | S754_finite _ _ _ => true | S754_infinity _ | S754_nan => false end.
Definition f32_mul : f32 -> f32 -> f32 := SFmul 24 128.
Definition f32_div : f32 -> f32 -> f32 := SFdiv 24 128.

(** [f32::to_bits]: sign, eight bits of exponent, 23 of fraction. *)
Definition f32_to_bits (x : f32) : Z :=
  let sign (s : bool) := if s then 2 ^ 31 else 0 in
  match x with
  | S754_zero s => sign s
  | S754_infinity s => sign s + 255 * 2 ^ 23
  | S754_nan => 255 * 2 ^ 23 + 2 ^ 22
  | S754_finite s m e =>
      if 2 ^ 23 <=? Zpos m then sign s + (e + 150) * 2 ^ 23 + (Zpos m - 2 ^ 23)
      else sign s + Zpos m
  end.

(** ** Order *)

(** The position of a number in the order, compared lexicographically. *)
Definition f64_key (x : f64) : Z * Z * Z :=
  match x with
  | S754_nan => (3, 0, 0)
  | S754_infinity true => (-2, 0, 0)
  | S754_infinity false => (2, 0, 0)
  | S754_zero _ => (0, 0, 0)
  | S754_finite true m e => (-1, - e, - Zpos m)
  | S754_finite false m e => (1, e, Zpos m)
  end.

Definition key_le (a b : Z * Z * Z) : Prop :=
  a.1.1 < b.1.1 \/ a.1.1 = b.1.1 /\ (a.1.2 < b.1.2 \/ a.1.2 = b.1.2 /\ a.2 <= b.2).

Lemma f64_leb_key (x y : f64) :
  f64_leb x y = true <->
  f64_is_nan x = false /\ f64_is_nan y = false /\ key_le (f64_key x) (f64_key y).
Proof.
  unfold key_le, f64_leb, SFleb.
  destruct x as [[]|[]| |[] m e], y as [[]|[]| |[] m' e']; simpl;
    try (intuition (congruence || lia)); [..];
    change (Pos.compare_cont Eq m m') with (Pos.compare m m');
    destruct (Z.compare_spec e e'), (Pos.compare_spec m m'); simpl;
    intuition (congruence || lia).
Qed.

Lemma f64_ltb_key (x y : f64) :
  f64_ltb x y = true <->
  f64_is_nan x = false /\ f64_is_nan y = false /\ ~ key_le (f64_key y) (f64_key x).
Proof.
  unfold key_le, f64_ltb, SFltb.
  destruct x as [[]|[]| |[] m e], y as [[]|[]| |[] m' e']; simpl;
    try (intuition (congruence || lia)); [..];
    change (Pos.compare_cont Eq m m') with (Pos.compare m m');
    destruct (Z.compare_spec e e'), (Pos.compare_spec m m'); simpl;
    intuition (congruence || lia).
Qed.

Lemma f64_leb_trans (x y z : f64) :
  f64_leb x y = true -> f64_leb y z = true -> f64_leb x z = true.
Proof. rewrite !f64_leb_key. unfold key_le. intros (? & ? & ?) (? & ? & ?). repeat split; [done..|lia]. Qed.

Lemma f64_leb_refl (x : f64) : f64_is_nan x = false -> f64_leb x x = true.
Proof. rewrite f64_leb_key. unfold key_le. intros. repeat split; [done..|lia]. Qed.

Lemma f64_ltb_leb (x y : f64) : f64_ltb x y = true -> f64_leb x y = true.
Proof. rewrite f64_leb_key, f64_ltb_key. unfold key_le. intros (? & ? & ?). repeat split; [done..|lia]. Qed.

Lemma f64_leb_not_ltb (x y : f64) :
  f64_is_nan x = false -> f64_is_nan y = false -> f64_ltb x y = false -> f64_leb y x = true.
Proof.
  intros Hx Hy Hlt. apply f64_leb_key. repeat split; [done..|].
  destruct (f64_ltb x y) eqn:E; [done|].
  assert (~ ~ key_le (f64_key y) (f64_key x)) as H.
  { intros Hn. apply not_true_iff_false in E. apply E, f64_ltb_key. done. }
  unfold key_le in *. lia.
Qed.

Lemma f64_max_ge_l (x y : f64) : f64_is_nan x = false -> f64_leb x (f64_max x y) = true.
Proof.
  intros Hx. unfold f64_max. rewrite Hx. destruct (f64_is_nan y) eqn:Hy; [by apply f64_leb_refl|].
  destruct (f64_ltb x y) eqn:E; [by apply f64_ltb_leb|by apply f64_leb_refl].
Qed.

Lemma f64_max_ge_r (x y : f64) : f64_is_nan y = false -> f64_leb y (f64_max x y) = true.
Proof.
  intros Hy. unfold f64_max. destruct (f64_is_nan x) eqn:Hx; [by apply f64_leb_refl|].
  rewrite Hy. destruct (f64_ltb x y) eqn:E; [by apply f64_leb_refl|].
  by apply f64_leb_not_ltb.
Qed.

Lemma f64_max_lub (x y z : f64) :
  f64_leb x z = true -> f64_leb y z = true -> f64_leb (f64_max x y) z = true.
Proof. unfold f64_max. intros. by repeat split_match. Qed.

Lemma f64_max_not_nan (x y : f64) :
  f64_is_nan x = false -> f64_is_nan y = false -> f64_is_nan (f64_max x y) = false.
Proof. unfold f64_max. intros Hx Hy. rewrite Hx, Hy. by destruct (f64_ltb x y). Qed.

Lemma f64_min_le_r (x y : f64) : f64_is_nan y = false -> f64_leb (f64_min x y) y = true.
Proof.
  intros Hy. unfold f64_min. destruct (f64_is_nan x) eqn:Hx; [by apply f64_leb_refl|].
  rewrite Hy. destruct (f64_ltb y x) eqn:E; [by apply f64_leb_refl|].
  by apply f64_leb_not_ltb.
Qed.

Lemma f64_min_glb (x y z : f64) :
  f64_leb z x = true -> f64_leb z y = true -> f64_leb z (f64_min x y) = true.
Proof. unfold f64_min. intros. by repeat split_match. Qed.

(** [total_cmp] is a total preorder on the numbers of the model. *)
Definition f64_total_key (x : f64) : Z * Z * Z :=
  match x with S754_zero s => (0, if s then -1 else 0, 0) | _ => f64_key x end.

Lemma f64_total_leb_key (x y : f64) :
  f64_total_leb x y = true <-> key_le (f64_total_key x) (f64_total_key y).
Proof.
  unfold key_le, f64_total_leb, f64_leb, SFleb.
  destruct x as [[]|[]| |[] m e], y as [[]|[]| |[] m' e']; simpl;
    try (intuition (congruence || lia)); [..];
    change (Pos.compare_cont Eq m m') with (Pos.compare m m');
    destruct (Z.compare_spec e e'), (Pos.compare_spec m m'); simpl;
    intuition (congruence || lia).
Qed.

Lemma f64_total_leb_total (x y : f64) : f64_total_leb x y = false -> f64_total_leb y x = true.
Proof.
  intros H. apply not_true_iff_false in H. rewrite f64_total_leb_key in *.
  unfold key_le in *. lia.
Qed.

Lemma f64_total_leb_trans (x y z : f64) :
  f64_total_leb x y = true -> f64_total_leb y z = true -> f64_total_leb x z = true.
Proof. rewrite !f64_total_leb_key. unfold key_le. lia. Qed.

(** ** Exact integers

    Integers of at most 53 binary digits convert exactly, so on them the
    conversions, comparisons and subtractions of the code are the integer ones. *)

Lemma digits2_pos_spec (p : positive) :
  2 ^ (Zpos (digits2_pos p) - 1) <= Zpos p < 2 ^ Zpos (digits2_pos p).
Proof.
  induction p as [p IH|p IH|]; cbn [digits2_pos]; [..|simpl; lia];
    rewrite Pos2Z.inj_succ, Z.pow_succ_r by lia;
    replace (Z.succ (Zpos (digits2_pos p)) - 1) with (Z.succ (Zpos (digits2_pos p) - 1)) by lia;
    rewrite Z.pow_succ_r by lia; lia.
Qed.

Lemma digits2_pos_unique (p : positive) (d : Z) :
  2 ^ (d - 1) <= Zpos p < 2 ^ d -> Zpos (digits2_pos p) = d.
Proof.
  intros H. pose proof (digits2_pos_spec p) as Hs.
  assert (0 < d) by (destruct (Z.le_gt_cases d 0); [|lia];
    destruct (Z.eq_dec d 0) as [->|]; [simpl in H; lia|]; rewrite (Z.pow_neg_r 2 d) in H by lia; lia).
  destruct (Z.lt_trichotomy (Zpos (digits2_pos p)) d) as [Hlt|[->|Hlt]]; [|done|].
  - assert (2 ^ Zpos (digits2_pos p) <= 2 ^ (d - 1)) by (apply Z.pow_le_mono_r; lia). lia.
  - assert (2 ^ d <= 2 ^ (Zpos (digits2_pos p) - 1)) by (apply Z.pow_le_mono_r; lia). lia.
Qed.

Lemma digits2_pos_scaled (p q : positive) (k : Z) :
  0 <= k -> Zpos q = Zpos p * 2 ^ k -> Zpos (digits2_pos q) = Zpos (digits2_pos p) + k.
Proof.
  intros Hk Hq. pose proof (digits2_pos_spec p) as [Hl Hu]. apply digits2_pos_unique.
  replace (Zpos (digits2_pos p) + k - 1) with (Zpos (digits2_pos p) - 1 + k) by lia.
  rewrite !Z.pow_add_r by lia. assert (0 < 2 ^ k) by (apply Z.pow_pos_nonneg; lia). nia.
Qed.

Lemma iter_xO (m d : positive) : Zpos (Pos.iter xO m d) = Zpos m * 2 ^ Zpos d.
Proof.
  induction d as [|d IH] using Pos.peano_ind; [simpl; lia|].
  rewrite Pos.iter_succ, Pos2Z.inj_xO, IH, Pos2Z.inj_succ, Z.pow_succ_r by lia. ring.
Qed.

Lemma shr_1_double (m : Z) :
  0 < m -> shr_1 (Build_shr_record (2 * m) false false) = Build_shr_record m false false.
Proof. destruct m as [|p|p]; [lia| |lia]. reflexivity. Qed.

Lemma iter_shr_exact (n : positive) (m : Z) :
  0 < m ->
  SpecFloat.iter_pos shr_1 n (Build_shr_record (m * 2 ^ Zpos n) false false)
  = Build_shr_record m false false.
Proof.
  revert m. induction n as [n IH|n IH|]; intros m Hm; cbn [SpecFloat.iter_pos].
  - replace (m * 2 ^ Zpos (xI n)) with (2 * (m * 2 ^ Zpos n * 2 ^ Zpos n)).
    + rewrite shr_1_double; [|repeat apply Z.mul_pos_pos; try apply Z.pow_pos_nonneg; lia].
      rewrite IH; [by apply IH|]. apply Z.mul_pos_pos; [lia|apply Z.pow_pos_nonneg; lia].
    + replace (Zpos (xI n)) with (1 + Zpos n + Zpos n) by lia.
      rewrite !Z.pow_add_r by lia. ring.
  - replace (m * 2 ^ Zpos (xO n)) with (m * 2 ^ Zpos n * 2 ^ Zpos n).
    + rewrite IH; [by apply IH|]. apply Z.mul_pos_pos; [lia|apply Z.pow_pos_nonneg; lia].
    + replace (Zpos (xO n)) with (Zpos n + Zpos n) by lia.
      rewrite Z.pow_add_r by lia. ring.
  - replace (m * 2 ^ 1) with (2 * m) by (change (2 ^ 1) with 2; ring). by apply shr_1_double.
Qed.

(** The number [z * 2^-g]. *)
Definition f64_dyadic (g z : Z) : f64 := binary_normalize 53 1024 z (- g) false.

(** The canonical binary64 number of [(-1)^s * p * 2^-g]. *)
Definition f64_canon (g : Z) (s : bool) (p : positive) : f64 :=
  S754_finite s (Z.to_pos (Zpos p * 2 ^ (53 - Zpos (digits2_pos p)))) (Zpos (digits2_pos p) - 53 - g).

Lemma f64_canon_0 (s : bool) (p : positive) :
  f64_canon 0 s p
  = S754_finite s (Z.to_pos (Zpos p * 2 ^ (53 - Zpos (digits2_pos p)))) (Zpos (digits2_pos p) - 53).
Proof. unfold f64_canon. f_equal. lia. Qed.

(** Grids that keep clear of the subnormal numbers. *)
Definition grid (g : Z) : Prop := 0 <= g <= 900.

Lemma fexp_small (g d : Z) : grid g -> 1 <= d <= 53 -> fexp 53 1024 (d - g) = d - 53 - g.
Proof. intros Hg H. unfold grid, fexp, emin in *. lia. Qed.

Section Grid.
Context (g : Z) (Hg : grid g).

Lemma shr_fexp_exact (p q : positive) (e : Z) :
  let d := Zpos (digits2_pos p) in
  d <= 53 -> - 53 <= e ->
  e <= d - 53 -> Zpos q = Zpos p * 2 ^ (- e) ->
  shr_fexp 53 1024 (Zpos q) (e - g) loc_Exact
  = (Build_shr_record (Zpos p * 2 ^ (53 - d)) false false, d - 53 - g).
Proof.
  intros d Hd He Hle Hq. unfold shr_fexp. cbn [Zdigits2 shr_record_of_loc].
  rewrite (digits2_pos_scaled p q (- e)) by (lia || done). fold d.
  replace (d + - e + (e - g)) with (d - g) by lia. rewrite fexp_small by (done || lia).
  replace (d - 53 - g - (e - g)) with (d - 53 - e) by lia.
  destruct (d - 53 - e) as [|n|n] eqn:En; [..|lia]; cbn [shr].
  - replace (d - 53 - g) with (e - g) by lia. do 2 f_equal. rewrite Hq. do 2 f_equal. lia.
  - rewrite Hq. replace (2 ^ (- e)) with (2 ^ (53 - d) * 2 ^ Zpos n).
    + rewrite Z.mul_assoc, iter_shr_exact; [f_equal; lia|].
      apply Z.mul_pos_pos; [lia|apply Z.pow_pos_nonneg; lia].
    + rewrite <- Z.pow_add_r by lia. f_equal. lia.
Qed.

(** Rounding [q * 2^(e - g)] equal to [p * 2^-g] yields the canonical number. *)
Lemma binary_round_aux_exact (s : bool) (p q : positive) (e : Z) :
  Zpos (digits2_pos p) <= 53 -> - 53 <= e <= Zpos (digits2_pos p) - 53 ->
  Zpos q = Zpos p * 2 ^ (- e) ->
  binary_round_aux 53 1024 s (Zpos q) (e - g) loc_Exact = f64_canon g s p.
Proof.
  intros Hd He Hq. unfold f64_canon. set (d := Zpos (digits2_pos p)) in *.
  unfold binary_round_aux. rewrite (shr_fexp_exact p) by (fold d; lia || done). fold d.
  cbn [shr_m loc_of_shr_record round_nearest_even].
  assert (0 < Zpos p * 2 ^ (53 - d)) as Hpos
    by (apply Z.mul_pos_pos; [lia|apply Z.pow_pos_nonneg; lia]).
  destruct (Zpos p * 2 ^ (53 - d)) as [|r|r] eqn:Er; [lia| |lia].
  rewrite (shr_fexp_exact p).
  - fold d. cbn [shr_m]. rewrite Er. rewrite (proj2 (Z.leb_le _ _)) by (unfold grid in Hg; lia). done.
  - fold d. lia.
  - lia.
  - fold d. lia.
  - rewrite <- Er. do 2 f_equal. lia.
Qed.

(** Normalizing [p * 2^k * 2^(-k - g)] yields the canonical number. *)
Lemma binary_round_exact (s : bool) (p q : positive) (k : Z) :
  Zpos (digits2_pos p) <= 53 -> 0 <= k <= 53 -> Zpos q = Zpos p * 2 ^ k ->
  binary_round 53 1024 s q (- k - g) = f64_canon g s p.
Proof.
  intros Hd Hk Hq. unfold binary_round, f64_canon. set (d := Zpos (digits2_pos p)) in *.
  assert (1 <= d) by (subst d; lia).
  rewrite (digits2_pos_scaled p q k) by (lia || done). fold d.
  replace (d + k + (- k - g)) with (d - g) by lia. rewrite fexp_small by (done || lia).
  assert (exists q' e, shl_align q (- k - g) (d - 53 - g) = (q', e - g) /\ - 53 <= e <= d - 53
          /\ Zpos q' = Zpos p * 2 ^ (- e)) as (q' & e & -> & He & Hq').
  { unfold shl_align. replace (d - 53 - g - (- k - g)) with (d - 53 + k) by lia.
    destruct (d - 53 + k) as [|n|n] eqn:En.
    - exists q, (- k). rewrite Z.opp_involutive. repeat split; (lia || done).
    - exists q, (- k). rewrite Z.opp_involutive. repeat split; (lia || done).
    - exists (Pos.iter xO q n), (d - 53). repeat split; [lia..|].
      rewrite iter_xO, Hq, <- Z.mul_assoc, <- Z.pow_add_r by lia. do 2 f_equal. lia. }
  by apply (binary_round_aux_exact s p q' e).
Qed.
End Grid.

Definition f64_canon_Z (g z : Z) : f64 :=
  match z with
  | Z0 => S754_zero false
  | Zpos p => f64_canon g false p
  | Zneg p => f64_canon g true p
  end.

Lemma digits_53 (p : positive) : Zpos p < 2 ^ 53 -> Zpos (digits2_pos p) <= 53.
Proof.
  intros H. pose proof (digits2_pos_spec p) as [Hl _].
  destruct (Z.le_gt_cases (Zpos (digits2_pos p)) 53); [done|].
  assert (2 ^ 53 <= 2 ^ (Zpos (digits2_pos p) - 1)) by (apply Z.pow_le_mono_r; lia). lia.
Qed.

Lemma binary_normalize_exact (g n z k : Z) :
  grid g -> Z.abs z < 2 ^ 53 -> 0 <= k <= 53 -> n = z * 2 ^ k ->
  binary_normalize 53 1024 n (- k - g) false = f64_canon_Z g z.
Proof.
  intros Hg Hz Hk ->. assert (0 < 2 ^ k) by (apply Z.pow_pos_nonneg; lia).
  destruct z as [|p|p]; [done|..]; cbn [f64_canon_Z].
  - destruct (Zpos p * 2 ^ k) as [|q|q] eqn:E; [lia| |lia]. cbn [binary_normalize].
    apply binary_round_exact; [done|apply digits_53; lia|lia|lia].
  - destruct (Zneg p * 2 ^ k) as [|q|q] eqn:E; [lia..|]. cbn [binary_normalize].
    apply binary_round_exact; [done|apply digits_53; lia|lia|lia].
Qed.

Lemma f64_dyadic_exact (g z : Z) : grid g -> Z.abs z < 2 ^ 53 -> f64_dyadic g z = f64_canon_Z g z.
Proof. intros Hg H. unfold f64_dyadic. apply (binary_normalize_exact g z z 0); [done|done|lia|lia]. Qed.

Lemma grid_0 : grid 0.
Proof. unfold grid. lia. Qed.

Lemma f64_of_Z_exact (z : Z) : Z.abs z < 2 ^ 53 -> f64_of_Z z = f64_canon_Z 0 z.
Proof. exact (f64_dyadic_exact 0 z grid_0). Qed.

Lemma shl_align_canon (g : Z) (p : positive) (ez : Z) :
  Zpos (digits2_pos p) <= 53 -> ez <= Zpos (digits2_pos p) - 53 ->
  Zpos (fst (shl_align (Z.to_pos (Zpos p * 2 ^ (53 - Zpos (digits2_pos p))))
               (Zpos (digits2_pos p) - 53 - g) (ez - g))) = Zpos p * 2 ^ (- ez).
Proof.
  set (d := Zpos (digits2_pos p)). intros Hd Hez.
  assert (0 < Zpos p * 2 ^ (53 - d)) as Hpos
    by (apply Z.mul_pos_pos; [lia|apply Z.pow_pos_nonneg; lia]).
  unfold shl_align. destruct (ez - g - (d - 53 - g)) as [|n|n] eqn:E; [|lia|]; cbn [fst].
  - rewrite Z2Pos.id by done. do 2 f_equal. lia.
  - rewrite iter_xO, Z2Pos.id, <- Z.mul_assoc, <- Z.pow_add_r by lia. do 2 f_equal. lia.
Qed.

(** Addition and subtraction of numbers on a grid are exact. *)
Section GridOperations.
Context (g : Z) (Hg : grid g).

Lemma SFsub_finite_exact (sa sb : bool) (pa pb : positive) :
  Zpos pa < 2 ^ 53 -> Zpos pb < 2 ^ 53 ->
  Z.abs (cond_Zopp sa (Zpos pa) - cond_Zopp sb (Zpos pb)) < 2 ^ 53 ->
  SFsub 53 1024 (f64_canon g sa pa) (f64_canon g sb pb)
  = f64_canon_Z g (cond_Zopp sa (Zpos pa) - cond_Zopp sb (Zpos pb)).
Proof.
  intros Ha Hb Hd. apply digits_53 in Ha, Hb. unfold SFsub, f64_canon. rewrite Z.sub_min_distr_r.
  set (ez := Z.min _ _). assert (-53 <= ez <= 0) by (subst ez; lia).
  rewrite !shl_align_canon by (subst ez; lia).
  generalize (binary_normalize_exact g
    (cond_Zopp sa (Zpos pa * 2 ^ (- ez)) - cond_Zopp sb (Zpos pb * 2 ^ (- ez))) _ (- ez) Hg Hd).
  rewrite Z.opp_involutive. intros ->; [done|lia|].
  destruct sa, sb; cbn [cond_Zopp]; ring.
Qed.

Lemma SFadd_finite_exact (sa sb : bool) (pa pb : positive) :
  Zpos pa < 2 ^ 53 -> Zpos pb < 2 ^ 53 ->
  Z.abs (cond_Zopp sa (Zpos pa) + cond_Zopp sb (Zpos pb)) < 2 ^ 53 ->
  SFadd 53 1024 (f64_canon g sa pa) (f64_canon g sb pb)
  = f64_canon_Z g (cond_Zopp sa (Zpos pa) + cond_Zopp sb (Zpos pb)).
Proof.
  intros Ha Hb Hd. apply digits_53 in Ha, Hb. unfold SFadd, f64_canon. rewrite Z.sub_min_distr_r.
  set (ez := Z.min _ _). assert (-53 <= ez <= 0) by (subst ez; lia).
  rewrite !shl_align_canon by (subst ez; lia).
  generalize (binary_normalize_exact g
    (cond_Zopp sa (Zpos pa * 2 ^ (- ez)) + cond_Zopp sb (Zpos pb * 2 ^ (- ez))) _ (- ez) Hg Hd).
  rewrite Z.opp_involutive. intros ->; [done|lia|].
  destruct sa, sb; cbn [cond_Zopp]; ring.
Qed.

Lemma f64_sub_dyadic (a b : Z) :
  Z.abs a < 2 ^ 53 -> Z.abs b < 2 ^ 53 -> Z.abs (a - b) < 2 ^ 53 ->
  f64_sub (f64_dyadic g a) (f64_dyadic g b) = f64_dyadic g (a - b).
Proof.
  intros Ha Hb Hd. rewrite !f64_dyadic_exact by done. unfold f64_sub.
  destruct a as [|pa|pa], b as [|pb|pb]; cbn [f64_canon_Z]; try done.
  - by apply (SFsub_finite_exact false false).
  - by apply (SFsub_finite_exact false true).
  - by apply (SFsub_finite_exact true false).
  - by apply (SFsub_finite_exact true true).
Qed.

Lemma f64_add_dyadic (a b : Z) :
  Z.abs a < 2 ^ 53 -> Z.abs b < 2 ^ 53 -> Z.abs (a + b) < 2 ^ 53 ->
  f64_add (f64_dyadic g a) (f64_dyadic g b) = f64_dyadic g (a + b).
Proof.
  intros Ha Hb Hd. rewrite !f64_dyadic_exact by done. unfold f64_add.
  destruct a as [|pa|pa], b as [|pb|pb]; cbn [f64_canon_Z]; try done.
  - by apply (SFadd_finite_exact false false).
  - by apply (SFadd_finite_exact false true).
  - by apply (SFadd_finite_exact true false).
  - by apply (SFadd_finite_exact true true).
Qed.

Lemma f64_dyadic_not_nan (z : Z) : Z.abs z < 2 ^ 53 -> f64_is_nan (f64_dyadic g z) = false.
Proof. intros H. rewrite f64_dyadic_exact by done. by destruct z. Qed.

Lemma f64_dyadic_finite (z : Z) : Z.abs z < 2 ^ 53 -> f64_is_finite (f64_dyadic g z) = true.
Proof. intros H. rewrite f64_dyadic_exact by done. by destruct z. Qed.

Lemma f64_abs_dyadic (a : Z) : Z.abs a < 2 ^ 53 -> f64_abs (f64_dyadic g a) = f64_dyadic g (Z.abs a).
Proof. intros H. rewrite !f64_dyadic_exact by (done || lia). by destruct a. Qed.
End GridOperations.

(** In particular of exactly represented integers. *)
Lemma f64_sub_of_Z (a b : Z) :
  Z.abs a < 2 ^ 53 -> Z.abs b < 2 ^ 53 -> Z.abs (a - b) < 2 ^ 53 ->
  f64_sub (f64_of_Z a) (f64_of_Z b) = f64_of_Z (a - b).
Proof. exact (f64_sub_dyadic 0 grid_0 a b). Qed.

Lemma f64_add_of_Z (a b : Z) :
  Z.abs a < 2 ^ 53 -> Z.abs b < 2 ^ 53 -> Z.abs (a + b) < 2 ^ 53 ->
  f64_add (f64_of_Z a) (f64_of_Z b) = f64_of_Z (a + b).
Proof. exact (f64_add_dyadic 0 grid_0 a b). Qed.

Lemma f64_sum_acc_of_Z (l : list Z) (acc : Z) :
  Z.abs acc + foldr (fun z s => Z.abs z + s) 0 l < 2 ^ 53 ->
  fold_left f64_add (map f64_of_Z l) (f64_of_Z acc)
  = f64_of_Z (acc + foldr Z.add 0 l).
Proof.
  revert acc. induction l as [|z l IH]; intros acc H; cbn [map fold_left foldr] in *.
  - by rewrite Z.add_0_r.
  - assert (0 <= foldr (fun z s => Z.abs z + s) 0 l) by (clear; induction l; simpl; lia).
    rewrite f64_add_of_Z, IH by lia. f_equal. lia.
Qed.

(** [Iterator::sum] of exactly represented integers is exact. *)
Lemma f64_sum_of_Z (l : list Z) :
  l <> [] -> foldr (fun z s => Z.abs z + s) 0 l < 2 ^ 53 ->
  f64_sum (map f64_of_Z l) = f64_of_Z (foldr Z.add 0 l).
Proof.
  destruct l as [|z l]; [done|]. intros _ H. cbn [foldr] in H.
  assert (0 <= foldr (fun z s => Z.abs z + s) 0 l) by (clear; induction l; simpl; lia).
  unfold f64_sum. cbn [map fold_left foldr].
  replace (f64_add f64_neg_zero (f64_of_Z z)) with (f64_of_Z z).
  - by apply f64_sum_acc_of_Z.
  - rewrite f64_of_Z_exact by lia. by destruct z.
Qed.

Lemma digits_mul (p q : positive) :
  0 <= Zpos (digits2_pos (p * q)) - Zpos (digits2_pos q) <= Zpos (digits2_pos p).
Proof.
  pose proof (digits2_pos_spec p) as [Hp1 Hp2]. pose proof (digits2_pos_spec q) as [Hq1 Hq2].
  pose proof (digits2_pos_spec (p * q)) as [Hr1 Hr2]. rewrite Pos2Z.inj_mul in Hr1, Hr2.
  set (dp := Zpos (digits2_pos p)) in *. set (dq := Zpos (digits2_pos q)) in *.
  set (dr := Zpos (digits2_pos (p * q))) in *.
  assert (1 <= dr /\ 1 <= dp /\ 1 <= dq) as (? & ? & ?) by (subst dr dp dq; lia). split.
  - assert (2 ^ (dq - 1) < 2 ^ dr) as Hlt by nia.
    apply Z.pow_lt_mono_r_iff in Hlt; lia.
  - assert (2 ^ (dr - 1) < 2 ^ (dp + dq)) as Hlt
      by (rewrite Z.pow_add_r by lia; nia).
    apply Z.pow_lt_mono_r_iff in Hlt; lia.
Qed.

Lemma canon_digits (p : positive) :
  Zpos (digits2_pos p) <= 53 ->
  Zdigits2 (Zpos (Z.to_pos (Zpos p * 2 ^ (53 - Zpos (digits2_pos p))))) = 53.
Proof.
  intros Hd. assert (0 < 2 ^ (53 - Zpos (digits2_pos p))) by (apply Z.pow_pos_nonneg; lia).
  cbn [Zdigits2]. rewrite (digits2_pos_scaled p _ (53 - Zpos (digits2_pos p))); [lia|lia|].
  rewrite Z2Pos.id; lia.
Qed.

Lemma div_eucl_exact (a q b : Z) : 0 < b -> a = q * b -> Z.div_eucl a b = (q, 0).
Proof.
  intros Hb ->. pose proof (Z.div_mul q b ltac:(lia)) as Hq. pose proof (Z.mod_mul q b ltac:(lia)) as Hr.
  unfold Z.div, Z.modulo in *. destruct (Z.div_eucl (q * b) b); cbn in *. congruence.
Qed.

Lemma new_location_exact (n : Z) : new_location n 0 = loc_Exact.
Proof. unfold new_location, new_location_even, new_location_odd. by destruct (Z.even n). Qed.

Lemma SFdiv_finite_exact (s : bool) (p q : positive) :
  Zpos (p * q) < 2 ^ 53 ->
  SFdiv 53 1024 (f64_canon 0 s (p * q)) (f64_canon 0 false q) = f64_canon 0 s p.
Proof.
  intros Hpq. pose proof (digits_mul p q) as Hm.
  assert (Zpos p < 2 ^ 53) as Hp by nia. assert (Zpos q < 2 ^ 53) as Hq by nia.
  apply digits_53 in Hpq, Hp, Hq. rewrite (f64_canon_0 s (p * q)), (f64_canon_0 false q).
  unfold SFdiv, SFdiv_core_binary.
  rewrite !canon_digits by done.
  set (dr := Zpos (digits2_pos (p * q))) in *. set (dq := Zpos (digits2_pos q)) in *.
  assert (1 <= dr /\ 1 <= dq) as (? & ?) by (subst dr dq; lia).
  assert (0 < 2 ^ (53 - dr) /\ 0 < 2 ^ (53 - dq)) as (? & ?)
    by (split; apply Z.pow_pos_nonneg; lia).
  replace (fexp 53 1024 _) with (dr - dq - 53) by (unfold fexp, emin; lia).
  replace (Z.min _ _) with (dr - dq - 53) by lia.
  replace (dr - 53 - (dq - 53) - (dr - dq - 53)) with 53 by lia.
  assert (0 < 2 ^ (53 - (dr - dq))) by (apply Z.pow_pos_nonneg; lia).
  rewrite (div_eucl_exact _ (Zpos p * 2 ^ (53 - (dr - dq)))).
  - cbv beta iota zeta. rewrite new_location_exact.
    rewrite xorb_false_r.
    destruct (Zpos p * 2 ^ (53 - (dr - dq))) as [|r|r] eqn:Er; [lia| |lia].
    rewrite <- (Z.sub_0_r (dr - dq - 53)). apply binary_round_aux_exact; [apply grid_0|done|lia|].
    rewrite <- Er. do 2 f_equal. lia.
  - rewrite Z2Pos.id; lia.
  - rewrite Z.shiftl_mul_pow2, !Z2Pos.id by lia. rewrite Pos2Z.inj_mul.
    transitivity (Zpos p * Zpos q * (2 ^ (53 - dr) * 2 ^ 53)); [ring|].
    transitivity (Zpos p * Zpos q * (2 ^ (53 - (dr - dq)) * 2 ^ (53 - dq))); [|ring].
    rewrite <- !Z.pow_add_r by lia. do 2 f_equal. lia.
Qed.

(** Division of an exactly represented multiple is exact. *)
Lemma f64_div_of_Z (a b : Z) :
  0 < b -> Z.abs (a * b) < 2 ^ 53 -> b < 2 ^ 53 ->
  f64_div (f64_of_Z (a * b)) (f64_of_Z b) = f64_of_Z a.
Proof.
  intros Hb Hab Hb'. assert (Z.abs a < 2 ^ 53) by nia.
  rewrite !f64_of_Z_exact by lia. unfold f64_div. destruct b as [|q|q]; [lia| |lia].
  destruct a as [|p|p]; [done|..]; cbn [Z.mul f64_canon_Z]; apply SFdiv_finite_exact; lia.
Qed.

Lemma canon_key_le (g : Z) (p q : positive) :
  Zpos p < 2 ^ 53 -> Zpos q < 2 ^ 53 ->
  key_le (f64_key (f64_canon g false p)) (f64_key (f64_canon g false q)) <-> Zpos p <= Zpos q.
Proof.
  intros Hp Hq. apply digits_53 in Hp, Hq. unfold key_le, f64_canon, f64_key. cbn [fst snd].
  pose proof (digits2_pos_spec p) as Sp. pose proof (digits2_pos_spec q) as Sq.
  set (dp := Zpos (digits2_pos p)) in *. set (dq := Zpos (digits2_pos q)) in *.
  assert (0 < 2 ^ (53 - dp)) by (apply Z.pow_pos_nonneg; lia).
  assert (0 < 2 ^ (53 - dq)) by (apply Z.pow_pos_nonneg; lia).
  rewrite !Z2Pos.id by nia.
  destruct (Z.lt_trichotomy dp dq) as [Hlt|[Heq|Hlt]].
  - assert (2 ^ dp <= 2 ^ (dq - 1)) by (apply Z.pow_le_mono_r; lia). lia.
  - rewrite Heq in *. nia.
  - assert (2 ^ dq <= 2 ^ (dp - 1)) by (apply Z.pow_le_mono_r; lia). lia.
Qed.

Lemma canon_key_neg (g : Z) (p q : positive) :
  key_le (f64_key (f64_canon g true p)) (f64_key (f64_canon g true q))
  <-> key_le (f64_key (f64_canon g false q)) (f64_key (f64_canon g false p)).
Proof. unfold key_le, f64_canon, f64_key. cbn [fst snd]. lia. Qed.

(** Comparison of numbers on a grid is integer comparison. *)
Lemma f64_leb_dyadic (g a b : Z) :
  grid g -> Z.abs a < 2 ^ 53 -> Z.abs b < 2 ^ 53 ->
  f64_leb (f64_dyadic g a) (f64_dyadic g b) = (a <=? b).
Proof.
  intros Hg Ha Hb. apply Bool.eq_iff_eq_true. rewrite Z.leb_le, !f64_dyadic_exact, f64_leb_key by done.
  assert (forall z, f64_is_nan (f64_canon_Z g z) = false) as Hnan by (by intros []).
  rewrite !Hnan. enough (key_le (f64_key (f64_canon_Z g a)) (f64_key (f64_canon_Z g b)) <-> a <= b)
    by tauto.
  destruct a as [|pa|pa], b as [|pb|pb]; cbn [f64_canon_Z];
    try (unfold key_le, f64_key, f64_canon; cbn [fst snd]; lia).
  - rewrite canon_key_le by lia. lia.
  - rewrite canon_key_neg, canon_key_le by lia. lia.
Qed.

Lemma f64_leb_of_Z (a b : Z) :
  Z.abs a < 2 ^ 53 -> Z.abs b < 2 ^ 53 ->
  f64_leb (f64_of_Z a) (f64_of_Z b) = (a <=? b).
Proof. exact (f64_leb_dyadic 0 a b grid_0). Qed.

Lemma f64_to_u64_canon (p : positive) : Zpos p < 2 ^ 53 -> f64_to_u64 (f64_canon 0 false p) = Zpos p.
Proof.
  intros Hp. pose proof (digits_53 p Hp) as Hd. rewrite f64_canon_0. unfold f64_to_u64.
  set (d := Zpos (digits2_pos p)) in *.
  assert (0 < 2 ^ (53 - d)) by (apply Z.pow_pos_nonneg; lia).
  rewrite Z2Pos.id by nia. change (2 ^ 53) with 9007199254740992 in Hp.
  unfold u64_max. destruct (0 <=? d - 53) eqn:E; to_prop.
  - replace (53 - d) with 0 by lia. replace (d - 53) with 0 by lia. simpl. lia.
  - replace (- (d - 53)) with (53 - d) by lia. rewrite Z.div_mul by lia. lia.
Qed.

Lemma f64_round_canon (p : positive) : Zpos p < 2 ^ 53 -> f64_round (f64_canon 0 false p) = f64_canon 0 false p.
Proof.
  intros Hp. pose proof (digits_53 p Hp) as Hd. rewrite f64_canon_0. unfold f64_round.
  set (d := Zpos (digits2_pos p)) in *.
  assert (0 < 2 ^ (53 - d)) by (apply Z.pow_pos_nonneg; lia).
  destruct (0 <=? d - 53) eqn:E; [done|]. to_prop. rewrite Z2Pos.id by nia.
  unfold round_half_away. rewrite (proj2 (Z.leb_gt _ _)) by lia.
  replace (1 - (d - 53)) with (1 + (53 - d)) by lia.
  replace (- (d - 53)) with (53 - d) by lia.
  rewrite Z.pow_add_r by lia. change (2 ^ 1) with 2.
  replace (2 * (Zpos p * 2 ^ (53 - d)) + 2 ^ (53 - d)) with (2 ^ (53 - d) + Zpos p * (2 * 2 ^ (53 - d))) by ring.
  rewrite Z.div_add by lia. rewrite (Z.div_small (2 ^ (53 - d))) by lia.
  cbn [cond_Zopp]. rewrite Z.add_0_l. unfold d. rewrite <- f64_canon_0.
  by apply (f64_of_Z_exact (Zpos p)).
Qed.

(** [(z as f64).round() as u64] is [z] for a natural number below [2^53]. *)
Lemma f64_round_to_u64_of_Z (z : Z) :
  0 <= z < 2 ^ 53 -> f64_to_u64 (f64_round (f64_of_Z z)) = z.
Proof.
  intros Hz. rewrite f64_of_Z_exact by lia.
  destruct z as [|p|p]; [done| |lia]. cbn [f64_canon_Z].
  rewrite f64_round_canon by lia. apply f64_to_u64_canon. lia.
Qed.

Lemma f64_of_Z_not_nan (z : Z) : Z.abs z < 2 ^ 53 -> f64_is_nan (f64_of_Z z) = false.
Proof. intros H. rewrite f64_of_Z_exact by done. by destruct z. Qed.

Lemma f64_ltb_not_leb (x y : f64) :
  f64_is_nan x = false -> f64_is_nan y = false -> f64_ltb x y = negb (f64_leb y x).
Proof.
  intros Hx Hy. apply Bool.eq_iff_eq_true. rewrite negb_true_iff, <- not_true_iff_false.
  rewrite f64_ltb_key, f64_leb_key. rewrite Hx, Hy. intuition.
Qed.

Lemma f64_ltb_of_Z (a b : Z) :
  Z.abs a < 2 ^ 53 -> Z.abs b < 2 ^ 53 -> f64_ltb (f64_of_Z a) (f64_of_Z b) = (a <? b).
Proof.
  intros Ha Hb. rewrite f64_ltb_not_leb by (by apply f64_of_Z_not_nan).
  rewrite f64_leb_of_Z by done. by rewrite Z.ltb_antisym.
Qed.

Lemma f64_ltb_dyadic (g a b : Z) :
  grid g -> Z.abs a < 2 ^ 53 -> Z.abs b < 2 ^ 53 ->
  f64_ltb (f64_dyadic g a) (f64_dyadic g b) = (a <? b).
Proof.
  intros Hg Ha Hb. rewrite f64_ltb_not_leb by (by apply f64_dyadic_not_nan).
  rewrite f64_leb_dyadic by done. by rewrite Z.ltb_antisym.
Qed.

(** What a bound does not exclude, it does not exclude of anything smaller. *)
Lemma f64_ltb_below (x y z : f64) :
  f64_is_nan z = false -> f64_leb y z = true -> f64_ltb x z = false -> f64_ltb x y = false.
Proof.
  intros Hz Hle Hx. destruct (f64_ltb x y) eqn:E; [|done]. rewrite <- Hx. symmetry.
  apply f64_ltb_key in E as (Hx' & _ & Hk). apply f64_leb_key in Hle as (_ & _ & Hle).
  apply f64_ltb_key. split_and!; [done..|]. unfold key_le in *. lia.
Qed.

(** A finer grid has the numbers of a coarser one. *)
Lemma f64_dyadic_refine (g k z : Z) :
  grid g -> 0 <= k <= 53 -> grid (k + g) -> Z.abs z < 2 ^ 53 -> f64_dyadic (k + g) (z * 2 ^ k) = f64_dyadic g z.
Proof.
  intros Hg Hk Hkg Hz. rewrite (f64_dyadic_exact g) by done. unfold f64_dyadic.
  replace (- (k + g)) with (- k - g) by lia. by apply binary_normalize_exact.
Qed.

Lemma f64_abs_of_Z (a : Z) : Z.abs a < 2 ^ 53 -> f64_abs (f64_of_Z a) = f64_of_Z (Z.abs a).
Proof. intros H. rewrite !f64_of_Z_exact by lia. by destruct a. Qed.
