(* ===== verification/Domain.v ===== *)
(** Domain vocabulary shared by host and listener: opaque identifiers
    (src/rust/silent-disco-core/src/domain/ids.rs), the stable enumerations
    (domain/enums.rs) and the validated tuning settings (domain/settings.rs). *)
From Stdlib Require Import ZArith Lia Strings.String.
From stdpp Require Import numbers list prelude.
From S2P Require Import Prelude Utf8 Float64.

(** ** Identifiers *)

Definition MAX_IDENTIFIER_BYTES : Z := 128.

Inductive IdentifierKind : Type :=
| IdSession | IdStream | IdDevice | IdRequest | IdOperation | IdDiagnosticRun.

Inductive IdValidationReason : Type :=
| Empty
| TooLong (actual_bytes maximum_bytes : Z)
| SurroundingWhitespace
| ControlCharacter (byte_index : Z).

Record IdValidationError : Type := mkIdValidationError {
  identifier_kind : IdentifierKind;
  reason : IdValidationReason
}.

Inductive IdDecodeError : Type :=
| IdInvalidUtf8 (kind : IdentifierKind)
| IdInvalidIdentifier (error : IdValidationError).

#[export] Instance IdentifierKind_eq_dec : EqDecision IdentifierKind.
Proof. solve_decision. Defined.
#[export] Instance IdValidationReason_eq_dec : EqDecision IdValidationReason.
Proof. solve_decision. Defined.
#[export] Instance IdValidationError_eq_dec : EqDecision IdValidationError.
Proof. solve_decision. Defined.

(** [value.char_indices().find(|(_, c)| c.is_control())], from byte [index]. *)
Fixpoint find_control (index : Z) (s : rstr) : option Z :=
  match s with
  | [] => None
  | c :: s' => if is_control c then Some index else find_control (index + len (utf8_char c)) s'
  end.

Definition validate_identifier (kind : IdentifierKind) (value : rstr) : result unit IdValidationError :=
  if bool_decide (trim value = []) then Err (mkIdValidationError kind Empty)
  else if MAX_IDENTIFIER_BYTES <? str_len value then
    Err (mkIdValidationError kind (TooLong (str_len value) MAX_IDENTIFIER_BYTES))
  else if negb (bool_decide (trim value = value)) then
    Err (mkIdValidationError kind SurroundingWhitespace)
  else match find_control 0 value with
  | Some byte_index => Err (mkIdValidationError kind (ControlCharacter byte_index))
  | None => Ok tt
  end.

(** The newtypes [SessionId], [StreamId], [DeviceId], ...: a string that
    [validate_identifier] accepted; [new] is their only constructor. *)
Definition identifier_new (kind : IdentifierKind) (value : rstr) : result rstr IdValidationError :=
  let? _ := validate_identifier kind value in Ok value.

Definition to_canonical_bytes (id : rstr) : list Z := as_bytes id.

Definition from_canonical_bytes (kind : IdentifierKind) (bytes : list Z) : result rstr IdDecodeError :=
  let? value := ok_or (from_utf8 bytes) (IdInvalidUtf8 kind) in
  map_err IdInvalidIdentifier (identifier_new kind value).

(** ** Stable enumerations

    [define_stable_enum!] generates, from one table of [variant = code => name]
    rows, the four conversions below; the table is the interface. *)

Inductive EnumDecodeError : Type :=
| UnsupportedWireName (enum_name : string)
| UnsupportedStableCode (enum_name : string) (code : Z).

Class StableEnum (A : Type) `{EqDecision A} : Type := {
  enum_name : string;
  enum_table : list (A * Z * rstr)
}.
Arguments enum_name A {_ _}.
Arguments enum_table A {_ _}.

(** What the macro's users promise: every variant has a row, and no code or
    name is used twice. *)
Class StableEnumOk (A : Type) `{StableEnum A} : Prop := {
  enum_complete : forall a : A, exists code name, In (a, code, name) (enum_table A);
  enum_codes_unique : NoDup (map (fun row => row.1.2) (enum_table A));
  enum_names_unique : NoDup (map snd (enum_table A));
  enum_variants_unique : NoDup (map (fun row => row.1.1) (enum_table A))
}.

Section Conversions.
Context {A : Type} `{StableEnum A}.

Definition stable_code (a : A) : Z :=
  match List.find (fun row => bool_decide (row.1.1 = a)) (enum_table A) with
  | Some row => row.1.2
  | None => 0
  end.

Definition wire_name (a : A) : rstr :=
  match List.find (fun row => bool_decide (row.1.1 = a)) (enum_table A) with
  | Some row => row.2
  | None => []
  end.

Definition from_stable_code (code : Z) : result A EnumDecodeError :=
  match List.find (fun row => bool_decide (row.1.2 = code)) (enum_table A) with
  | Some row => Ok row.1.1
  | None => Err (UnsupportedStableCode (enum_name A) code)
  end.

Definition from_wire_name (value : rstr) : result A EnumDecodeError :=
  match List.find (fun row => bool_decide (row.2 = value)) (enum_table A) with
  | Some row => Ok row.1.1
  | None => Err (UnsupportedWireName (enum_name A))
  end.
End Conversions.

Inductive AppRole : Type := RoleHost | RoleListener.
Inductive ApprovalMode : Type := Manual | TrustedDevices | InviteCode.
Inductive HostLifecycle : Type :=
| HostIdle | CreatingSession | HostAdvertising | WaitingForListeners | HostReady
| Streaming | HostPaused | EndingSession | HostError.
Inductive ListenerLifecycle : Type :=
| ListenerIdle | Scanning | SessionSelected | JoinRequested | AwaitingApproval | Approved
| ListenerConnecting | SyncingClock | ListenerBuffering | ListenerPlaying | Reconnecting
| Desynced | ListenerDisconnected | ListenerError.
Inductive PlaybackState : Type :=
| PlaybackStopped | PlaybackBuffering | PlaybackReady | PlaybackPlaying | PlaybackPaused
| Underrun | PlaybackError.
Inductive TransportState : Type :=
| TransportIdle | Discovering | TransportAdvertising | TransportConnecting | Connected
| Retrying | TransportDisconnected | Failed.
Inductive SyncConfidence : Type := Unknown | Poor | Fair | Good | Excellent.
Inductive TrustState : Type := SessionOnly | Trusted.
Inductive DeliverySeverity : Type := DeliveryOk | ZeroPeers | PartialFailure.

#[export] Instance AppRole_eq_dec : EqDecision AppRole. Proof. solve_decision. Defined.
#[export] Instance ApprovalMode_eq_dec : EqDecision ApprovalMode. Proof. solve_decision. Defined.
#[export] Instance HostLifecycle_eq_dec : EqDecision HostLifecycle. Proof. solve_decision. Defined.
#[export] Instance ListenerLifecycle_eq_dec : EqDecision ListenerLifecycle.
Proof. solve_decision. Defined.
#[export] Instance PlaybackState_eq_dec : EqDecision PlaybackState. Proof. solve_decision. Defined.
#[export] Instance TransportState_eq_dec : EqDecision TransportState. Proof. solve_decision. Defined.
#[export] Instance SyncConfidence_eq_dec : EqDecision SyncConfidence. Proof. solve_decision. Defined.
#[export] Instance TrustState_eq_dec : EqDecision TrustState. Proof. solve_decision. Defined.
#[export] Instance DeliverySeverity_eq_dec : EqDecision DeliverySeverity.
Proof. solve_decision. Defined.

#[export] Instance AppRole_stable : StableEnum AppRole := {|
  enum_name := "AppRole";
  enum_table := [(RoleHost, 1, lit "host"); (RoleListener, 2, lit "listener")]
|}.

#[export] Instance ApprovalMode_stable : StableEnum ApprovalMode := {|
  enum_name := "ApprovalMode";
  enum_table := [(Manual, 1, lit "manual"); (TrustedDevices, 2, lit "trusted_devices");
                 (InviteCode, 3, lit "invite_code")]
|}.

#[export] Instance HostLifecycle_stable : StableEnum HostLifecycle := {|
  enum_name := "HostLifecycle";
  enum_table := [(HostIdle, 1, lit "idle"); (CreatingSession, 2, lit "creating_session");
                 (HostAdvertising, 3, lit "advertising");
                 (WaitingForListeners, 4, lit "waiting_for_listeners");
                 (HostReady, 5, lit "ready"); (Streaming, 6, lit "streaming");
                 (HostPaused, 7, lit "paused"); (EndingSession, 8, lit "ending_session");
                 (HostError, 9, lit "error")]
|}.

#[export] Instance ListenerLifecycle_stable : StableEnum ListenerLifecycle := {|
  enum_name := "ListenerLifecycle";
  enum_table := [(ListenerIdle, 1, lit "idle"); (Scanning, 2, lit "scanning");
                 (SessionSelected, 3, lit "session_selected");
                 (JoinRequested, 4, lit "join_requested");
                 (AwaitingApproval, 5, lit "awaiting_approval"); (Approved, 6, lit "approved");
                 (ListenerConnecting, 7, lit "connecting");
                 (SyncingClock, 8, lit "syncing_clock");
                 (ListenerBuffering, 9, lit "buffering"); (ListenerPlaying, 10, lit "playing");
                 (Reconnecting, 11, lit "reconnecting"); (Desynced, 12, lit "desynced");
                 (ListenerDisconnected, 13, lit "disconnected"); (ListenerError, 14, lit "error")]
|}.

#[export] Instance PlaybackState_stable : StableEnum PlaybackState := {|
  enum_name := "PlaybackState";
  enum_table := [(PlaybackStopped, 1, lit "stopped"); (PlaybackBuffering, 2, lit "buffering");
                 (PlaybackReady, 3, lit "ready"); (PlaybackPlaying, 4, lit "playing");
                 (PlaybackPaused, 5, lit "paused"); (Underrun, 6, lit "underrun");
                 (PlaybackError, 7, lit "error")]
|}.

#[export] Instance TransportState_stable : StableEnum TransportState := {|
  enum_name := "TransportState";
  enum_table := [(TransportIdle, 1, lit "idle"); (Discovering, 2, lit "discovering");
                 (TransportAdvertising, 3, lit "advertising");
                 (TransportConnecting, 4, lit "connecting"); (Connected, 5, lit "connected");
                 (Retrying, 6, lit "retrying"); (TransportDisconnected, 7, lit "disconnected");
                 (Failed, 8, lit "failed")]
|}.

#[export] Instance SyncConfidence_stable : StableEnum SyncConfidence := {|
  enum_name := "SyncConfidence";
  enum_table := [(Unknown, 1, lit "unknown"); (Poor, 2, lit "poor"); (Fair, 3, lit "fair");
                 (Good, 4, lit "good"); (Excellent, 5, lit "excellent")]
|}.

#[export] Instance TrustState_stable : StableEnum TrustState := {|
  enum_name := "TrustState";
  enum_table := [(SessionOnly, 1, lit "session_only"); (Trusted, 2, lit "trusted")]
|}.

#[export] Instance DeliverySeverity_stable : StableEnum DeliverySeverity := {|
  enum_name := "DeliverySeverity";
  enum_table := [(DeliveryOk, 1, lit "ok"); (ZeroPeers, 2, lit "zero_peers");
                 (PartialFailure, 3, lit "partial_failure")]
|}.

(** ** Tuning settings *)

Record TuningSettings : Type := mkTuningSettings {
  sync_sample_window : Z;
  sync_cadence_ms : Z;
  startup_buffer_ms : Z;
  late_packet_threshold_ms : Z;
  hard_resync_threshold_ms_setting : Z;
  sync_drift_threshold_ms : f64;
  scan_window_ms : Z
}.

Inductive TuningSettingsValidationError : Type :=
| ErrSyncSampleWindow | ErrSyncCadence | ErrStartupBuffer | ErrLatePacketThreshold
| ErrHardResyncThreshold | ErrSyncDriftThreshold | ErrScanWindow | ErrThresholdRelationship.

Definition TuningSettings_default : TuningSettings :=
  mkTuningSettings 12 2000 400 40 120 (f64_of_Z 18) 3000.

Definition TuningSettings_validate (s : TuningSettings) : result unit TuningSettingsValidationError :=
  if negb (in_range 4 32 s.(sync_sample_window)) then Err ErrSyncSampleWindow
  else if negb (in_range 500 5000 s.(sync_cadence_ms)) then Err ErrSyncCadence
  else if negb (in_range 100 1500 s.(startup_buffer_ms)) then Err ErrStartupBuffer
  else if negb (in_range 10 250 s.(late_packet_threshold_ms)) then Err ErrLatePacketThreshold
  else if negb (in_range 40 500 s.(hard_resync_threshold_ms_setting)) then Err ErrHardResyncThreshold
  else if negb (f64_is_finite s.(sync_drift_threshold_ms))
          || negb (f64_leb (f64_of_Z 4) s.(sync_drift_threshold_ms)
                   && f64_leb s.(sync_drift_threshold_ms) (f64_of_Z 100)) then
    Err ErrSyncDriftThreshold
  else if negb (in_range 1000 10000 s.(scan_window_ms)) then Err ErrScanWindow
  else
    let? minimum_hard_resync :=
      ok_or (checked_add u64_max s.(late_packet_threshold_ms) 20) ErrThresholdRelationship in
    if s.(hard_resync_threshold_ms_setting) <? minimum_hard_resync then Err ErrThresholdRelationship
    else Ok tt.

(** ** Identifier lemmas *)

Lemma find_control_None (i : Z) (s : rstr) :
  find_control i s = None <-> existsb is_control s = false.
Proof.
  revert i. induction s as [|c s IH]; intros i; simpl; [done|].
  destruct (is_control c); simpl; [done|apply IH].
Qed.

(** The four conditions an identifier satisfies, in the order-free form. *)
Lemma validate_identifier_ok (kind : IdentifierKind) (value : rstr) :
  validate_identifier kind value = Ok tt <->
  trim value <> [] /\ str_len value <= MAX_IDENTIFIER_BYTES /\ trim value = value
  /\ existsb is_control value = false.
Proof.
  unfold validate_identifier. rewrite <- (find_control_None 0).
  repeat case_bool_decide; simpl; destruct (MAX_IDENTIFIER_BYTES <? str_len value) eqn:El; to_prop;
    try destruct (find_control 0 value) eqn:Ef; intuition (congruence || lia).
Qed.

(** ** Enumeration lemmas *)

Lemma find_unique {A B : Type} `{EqDecision B} (f : A -> B) (l : list A) (x : A) :
  NoDup (map f l) -> In x l -> List.find (fun y => bool_decide (f y = f x)) l = Some x.
Proof.
  induction l as [|y l IH]; simpl; [done|]. intros Hnd [->|Hin].
  - by rewrite bool_decide_eq_true_2.
  - inversion_clear Hnd as [|? ? Hn Hnd']. case_bool_decide as E; [|auto].
    exfalso. apply Hn. rewrite E. apply list_elem_of_In. by apply in_map.
Qed.

Section EnumLemmas.
Context {A : Type} `{StableEnumOk A}.

Lemma enum_row (a : A) : exists code name,
  In (a, code, name) (enum_table A) /\ stable_code a = code /\ wire_name a = name.
Proof.
  destruct (enum_complete a) as (code & name & Hin). exists code, name.
  unfold stable_code, wire_name.
  by rewrite (find_unique (fun row => row.1.1) _ (a, code, name) enum_variants_unique Hin).
Qed.

Lemma from_wire_name_wire_name (a : A) : from_wire_name (wire_name a) = Ok a.
Proof.
  destruct (enum_row a) as (code & name & Hin & _ & ->). unfold from_wire_name.
  by rewrite (find_unique snd _ (a, code, name) enum_names_unique Hin).
Qed.

Lemma from_stable_code_stable_code (a : A) : from_stable_code (stable_code a) = Ok a.
Proof.
  destruct (enum_row a) as (code & name & Hin & -> & _). unfold from_stable_code.
  by rewrite (find_unique (fun row => row.1.2) _ (a, code, name) enum_codes_unique Hin).
Qed.

Lemma from_wire_name_sound (value : rstr) (a : A) : from_wire_name value = Ok a -> wire_name a = value.
Proof.
  unfold from_wire_name. destruct (List.find _ _) as [[[a' c] n]|] eqn:E; [|done].
  intros [= <-]. apply List.find_some in E as [Hin E]. apply bool_decide_eq_true in E.
  simpl in E. subst n. unfold wire_name.
  by rewrite (find_unique (fun row => row.1.1) _ (a', c, value) enum_variants_unique Hin).
Qed.

Lemma from_stable_code_sound (code : Z) (a : A) : from_stable_code code = Ok a -> stable_code a = code.
Proof.
  unfold from_stable_code. destruct (List.find _ _) as [[[a' c] n]|] eqn:E; [|done].
  intros [= <-]. apply List.find_some in E as [Hin E]. apply bool_decide_eq_true in E.
  simpl in E. subst c. unfold stable_code.
  by rewrite (find_unique (fun row => row.1.1) _ (a', code, n) enum_variants_unique Hin).
Qed.
End EnumLemmas.

Ltac solve_stable_enum :=
  split; [intros []; simpl; eauto 20 | | | ];
  match goal with |- NoDup ?l => apply (bool_decide_unpack (NoDup l)); vm_compute; exact I end.

#[export] Instance AppRole_ok : StableEnumOk AppRole. Proof. solve_stable_enum. Qed.
#[export] Instance ApprovalMode_ok : StableEnumOk ApprovalMode. Proof. solve_stable_enum. Qed.
#[export] Instance HostLifecycle_ok : StableEnumOk HostLifecycle. Proof. solve_stable_enum. Qed.
#[export] Instance ListenerLifecycle_ok : StableEnumOk ListenerLifecycle.
Proof. solve_stable_enum. Qed.
#[export] Instance PlaybackState_ok : StableEnumOk PlaybackState. Proof. solve_stable_enum. Qed.
#[export] Instance TransportState_ok : StableEnumOk TransportState. Proof. solve_stable_enum. Qed.
#[export] Instance SyncConfidence_ok : StableEnumOk SyncConfidence. Proof. solve_stable_enum. Qed.
#[export] Instance TrustState_ok : StableEnumOk TrustState. Proof. solve_stable_enum. Qed.
#[export] Instance DeliverySeverity_ok : StableEnumOk DeliverySeverity.
Proof. solve_stable_enum. Qed.

(** ** Properties *)

(** Identifier bytes: the decoder accepts a byte string exactly when it is
    the UTF-8 encoding of a value with the identifier rules (not blank, at most
    128 bytes, no surrounding whitespace, no control characters), and returns
    that value, so decoding inverts encoding and nothing else is accepted. *)
Lemma identifier_decoding_is_exact (kind : IdentifierKind) (bytes : list Z) (v : rstr) :
  Forall is_u8 bytes ->
  from_canonical_bytes kind bytes = Ok v <->
  wf_str v /\ to_canonical_bytes v = bytes
  /\ trim v <> [] /\ trim v = v /\ len bytes <= MAX_IDENTIFIER_BYTES
  /\ existsb is_control v = false.
Proof.
  intros Hu. unfold from_canonical_bytes, to_canonical_bytes, identifier_new. split.
  - destruct (from_utf8 bytes) as [s|] eqn:E; [|done]. cbn [ok_or].
    apply from_utf8_sound in E as [Hb Hw]; [|done].
    destruct (validate_identifier kind s) as [[]|] eqn:Hv; [|done]. intros [= <-].
    apply validate_identifier_ok in Hv as (H1 & H2 & H3 & H4). unfold str_len in H2.
    rewrite Hb in H2. by split_and!.
  - intros (Hw & <- & H1 & H2 & H3 & H4). rewrite from_utf8_as_bytes by done. cbn [ok_or].
    assert (validate_identifier kind v = Ok tt) as -> by (by apply validate_identifier_ok). done.
Qed.

(** Enumerations on the wire: for every enumeration that
    [define_stable_enum!] generates, a code or a name decodes to a variant
    exactly when it is the code or name of that variant, so no two variants
    share one. *)
Lemma enum_decoding_is_exact {A : Type} `{StableEnumOk A} (a : A) (code : Z) (name : rstr) :
  (from_stable_code code = Ok a <-> code = stable_code a)
  /\ (from_wire_name name = Ok a <-> name = wire_name a).
Proof.
  split; split.
  - intros Hc. symmetry. by apply from_stable_code_sound.
  - intros ->. apply from_stable_code_stable_code.
  - intros Hn. symmetry. by apply from_wire_name_sound.
  - intros ->. apply from_wire_name_wire_name.
Qed.

(** ** Witnesses *)

Lemma identifier_decoding_is_exact_witness :
  from_canonical_bytes IdSession [97; 195; 169] = Ok [97; 233].
Proof.
  apply (identifier_decoding_is_exact IdSession [97; 195; 169] [97; 233]).
  - repeat (apply List.Forall_cons; [unfold is_u8, is_uint; lia|]). apply List.Forall_nil.
  - split; [repeat (apply List.Forall_cons; [unfold is_scalar; lia|]); apply List.Forall_nil|].
    repeat split; vm_compute; discriminate.
Defined.
