(* ===== verification/Decimal.v ===== *)
(** Decimal formatting of unsigned integers ([impl Display for u64]) and the
    facts about ASCII text that the generated identifiers and diagnostics of
    the runtime rely on. *)
From Stdlib Require Import ZArith Lia Strings.String.
From stdpp Require Import numbers list prelude.
From S2P Require Import Prelude Utf8 Domain.

(** The digits of [n], most significant first, in front of [acc]; a [u64] has
    at most 20 of them. *)
Fixpoint decimal_digits (fuel : nat) (n : Z) (acc : rstr) : rstr :=
  match fuel with
  | O => acc
  | S fuel' =>
      let acc' := 48 + n mod 10 :: acc in
      if n <? 10 then acc' else decimal_digits fuel' (n / 10) acc'
  end.

(** [n.to_string()], [format!("{n}")]. *)
Definition to_decimal (n : Z) : rstr := decimal_digits 20 n [].

(** The number a string of digits denotes. *)
Definition from_decimal (s : rstr) : Z := fold_left (fun a c => a * 10 + (c - 48)) s 0.

Definition is_digit (c : Z) : Prop := 48 <= c <= 57.

(** Visible ASCII: what identifiers, tokens and digits are made of. *)
Definition is_visible (c : Z) : Prop := 33 <= c <= 126.

Lemma decimal_digits_value (fuel : nat) (n : Z) (acc : rstr) :
  0 <= n < 10 ^ Z.of_nat fuel -> (0 < fuel)%nat ->
  fold_left (fun a c => a * 10 + (c - 48)) (decimal_digits fuel n acc) 0
  = fold_left (fun a c => a * 10 + (c - 48)) acc n.
Proof.
  revert n acc. induction fuel as [|fuel IH]; intros n acc Hn Hf; [lia|].
  cbn [decimal_digits]. destruct (n <? 10) eqn:E; to_prop.
  - cbn [fold_left]. f_equal. rewrite Z.mod_small by lia. lia.
  - assert (0 < fuel)%nat.
    { destruct fuel; [|lia]. change (10 ^ Z.of_nat 1) with 10 in Hn. lia. }
    rewrite IH; [|split|done].
    + cbn [fold_left]. f_equal. pose proof (Z.div_mod n 10). lia.
    + apply Z.div_pos; lia.
    + apply Z.div_lt_upper_bound; [lia|].
      rewrite Nat2Z.inj_succ, Z.pow_succ_r in Hn by lia. lia.
Qed.

Lemma from_to_decimal (n : Z) : is_u64 n -> from_decimal (to_decimal n) = n.
Proof.
  intros Hn. unfold from_decimal, to_decimal. rewrite decimal_digits_value; [done| |lia].
  unfold is_u64, is_uint in Hn. change (10 ^ Z.of_nat 20) with 100000000000000000000.
  change (2 ^ 64) with 18446744073709551616 in Hn. lia.
Qed.

Lemma to_decimal_inj (m n : Z) : is_u64 m -> is_u64 n -> to_decimal m = to_decimal n -> m = n.
Proof. intros Hm Hn E. rewrite <- (from_to_decimal m), <- (from_to_decimal n), E; done. Qed.

Lemma decimal_digits_digits (fuel : nat) (n : Z) (acc : rstr) :
  0 <= n -> Forall is_digit acc -> Forall is_digit (decimal_digits fuel n acc).
Proof.
  revert n acc. induction fuel as [|fuel IH]; intros n acc Hn Ha; [done|].
  cbn [decimal_digits]. pose proof (Z.mod_pos_bound n 10 ltac:(lia)).
  assert (Forall is_digit (48 + n mod 10 :: acc)).
  { apply Forall_cons. split; [unfold is_digit; lia|done]. }
  destruct (n <? 10); [done|]. apply IH; [apply Z.div_pos; lia|done].
Qed.

Lemma to_decimal_digits (n : Z) : 0 <= n -> Forall is_digit (to_decimal n).
Proof. intros. apply decimal_digits_digits; [done|constructor]. Qed.

Lemma decimal_digits_length (fuel : nat) (n : Z) (acc : rstr) :
  (length acc <= length (decimal_digits fuel n acc) <= fuel + length acc)%nat.
Proof.
  revert n acc. induction fuel as [|fuel IH]; intros n acc; cbn [decimal_digits]; [lia|].
  destruct (n <? 10); [simpl; lia|]. specialize (IH (n / 10) (48 + n mod 10 :: acc)).
  simpl in *. lia.
Qed.

Lemma to_decimal_length (n : Z) : 1 <= len (to_decimal n) <= 20.
Proof.
  unfold to_decimal, len. pose proof (decimal_digits_length 19 (n / 10) [48 + n mod 10]) as H.
  cbn [decimal_digits] in *. destruct (n <? 10); [simpl; lia|].
  change 20%nat with (S 19). cbn [length] in H.
  lia.
Qed.

(** ** Visible ASCII strings *)

Lemma digit_visible (s : rstr) : Forall is_digit s -> Forall is_visible s.
Proof. intros H. eapply Forall_impl; [exact H|]. unfold is_digit, is_visible. lia. Qed.

Lemma visible_not_whitespace (c : Z) : is_visible c -> is_whitespace c = false.
Proof.
  unfold is_visible, is_whitespace, in_range. intros H.
  repeat (apply orb_false_iff; split); try (apply Z.eqb_neq; lia);
    apply andb_false_iff; rewrite !Z.leb_gt; lia.
Qed.

Lemma visible_not_control (c : Z) : is_visible c -> is_control c = false.
Proof.
  unfold is_visible, is_control, in_range. intros H.
  apply orb_false_iff; split; apply andb_false_iff; rewrite !Z.leb_gt; lia.
Qed.

Lemma trim_start_visible (s : rstr) : Forall is_visible s -> trim_start s = s.
Proof.
  destruct 1 as [|c s Hc Hs]; [done|]. cbn [trim_start]. by rewrite visible_not_whitespace.
Qed.

Lemma trim_visible (s : rstr) : Forall is_visible s -> trim s = s.
Proof.
  intros H. unfold trim. rewrite (trim_start_visible s) by done.
  rewrite trim_start_visible; [apply rev_involutive|]. by apply Forall_rev.
Qed.

Lemma str_len_visible (s : rstr) : Forall is_visible s -> str_len s = len s.
Proof.
  unfold str_len. induction 1 as [|c s Hc Hs IH]; [done|].
  cbn [as_bytes]. rewrite len_app, IH, len_cons. unfold utf8_char, is_visible in *.
  rewrite (proj2 (Z.ltb_lt c 128)) by lia. change (len [c]) with 1. lia.
Qed.

Lemma existsb_visible (f : Z -> bool) (s : rstr) :
  (forall c, is_visible c -> f c = false) -> Forall is_visible s -> existsb f s = false.
Proof. intros Hf. induction 1 as [|c s Hc Hs IH]; [done|]. simpl. by rewrite Hf, IH. Qed.

(** An identifier made of visible ASCII characters is accepted. *)
Lemma identifier_new_visible (kind : IdentifierKind) (s : rstr) :
  Forall is_visible s -> 1 <= len s <= MAX_IDENTIFIER_BYTES -> identifier_new kind s = Ok s.
Proof.
  intros Hs Hl. unfold identifier_new.
  assert (validate_identifier kind s = Ok tt) as ->; [|done].
  apply validate_identifier_ok. rewrite trim_visible, str_len_visible by done. split_and!.
  - intros ->. unfold len in Hl. simpl in Hl. lia.
  - lia.
  - done.
  - apply existsb_visible; [apply visible_not_control|done].
Qed.

(** Decides [Forall is_visible] on a literal. *)
Definition visible_str (s : rstr) : bool := forallb (fun c => in_range 33 126 c) s.

Lemma visible_str_true (s : rstr) : visible_str s = true -> Forall is_visible s.
Proof.
  unfold visible_str. intros H. apply List.Forall_forall. intros c Hc.
  rewrite forallb_forall in H. specialize (H c Hc). by apply in_range_iff in H.
Qed.
