(* ===== verification/CoreErrors.v ===== *)
(** Structured failures of the core (src/rust/silent-disco-core/src/error.rs):
    the stable codes with their subsystems, the validated error record with
    its bounded context, and the constructors the actor uses
    (runtime/actor_runtime/errors.rs). *)
From Stdlib Require Import ZArith Lia Strings.String.
From stdpp Require Import numbers list prelude.
From S2P Require Import Prelude Utf8 Domain Decimal.

Definition MAX_ERROR_MESSAGE_BYTES : Z := 512.
Definition MAX_ERROR_CONTEXT_ENTRIES : Z := 16.
Definition MAX_ERROR_CONTEXT_KEY_BYTES : Z := 64.
Definition MAX_ERROR_CONTEXT_VALUE_BYTES : Z := 256.

Inductive CoreSubsystem : Type :=
| SubValidation | SubProtocol | SubTransport | SubSynchronization | SubAudio | SubStorage
| SubPlatform | SubFfi | SubRuntime.

Definition subsystem_stable_name (s : CoreSubsystem) : rstr :=
  match s with
  | SubValidation => lit "validation"
  | SubProtocol => lit "protocol"
  | SubTransport => lit "transport"
  | SubSynchronization => lit "synchronization"
  | SubAudio => lit "audio"
  | SubStorage => lit "storage"
  | SubPlatform => lit "platform"
  | SubFfi => lit "ffi"
  | SubRuntime => lit "runtime"
  end.

Inductive ErrorSeverity : Type := SeverityWarning | SeverityError | SeverityFatal.

Inductive CoreErrorCode : Type :=
| CodeInvalidIdentifier | CodeInvalidArgument | CodeInvalidStateTransition
| CodeResourceLimitExceeded | CodeUnsupportedProtocolVersion | CodeMalformedProtocolFrame
| CodeProtocolFrameTooLarge | CodeUnsupportedMessageKind | CodeIntegrityCheckFailed
| CodeTransportUnavailable | CodeTransportConnectionFailed | CodeTransportConnectionLost
| CodeTransportDeliveryFailed | CodeTransportTimeout | CodeInvalidSyncSample
| CodeSynchronizationTimeout | CodeSynchronizationConfidenceLost
| CodeInvalidAudioConfiguration | CodeAudioOutputStartFailed | CodeAudioOutputFailed
| CodeAudioUnderrun | CodeAudioEngineUnavailable | CodeStorageOpenFailed
| CodeStorageMigrationFailed | CodeStorageIntegrityFailed | CodeStorageReadFailed
| CodeStorageWriteFailed | CodeStoragePragmaFailed | CodeStorageTransactionFailed
| CodeStorageConstraintViolation | CodeStorageBusy | CodeStorageCorrupt
| CodeStorageCloseFailed | CodeStorageQueryFailed | CodePlatformOperationFailed
| CodePermissionDenied | CodeCapabilityUnavailable | CodeFfiInvalidArgument
| CodeFfiIncompatibleVersion | CodeFfiPanicContained | CodeFfiCallbackFailed
| CodeQueueOverflow | CodeShutdownInProgress | CodeShutdownFailed | CodeWorkerStopped.

Definition numeric_code (c : CoreErrorCode) : Z :=
  match c with
  | CodeInvalidIdentifier => 1000 | CodeInvalidArgument => 1001
  | CodeInvalidStateTransition => 1002 | CodeResourceLimitExceeded => 1003
  | CodeUnsupportedProtocolVersion => 2000 | CodeMalformedProtocolFrame => 2001
  | CodeProtocolFrameTooLarge => 2002 | CodeUnsupportedMessageKind => 2003
  | CodeIntegrityCheckFailed => 2004 | CodeTransportUnavailable => 3000
  | CodeTransportConnectionFailed => 3001 | CodeTransportConnectionLost => 3002
  | CodeTransportDeliveryFailed => 3003 | CodeTransportTimeout => 3004
  | CodeInvalidSyncSample => 4000 | CodeSynchronizationTimeout => 4001
  | CodeSynchronizationConfidenceLost => 4002 | CodeInvalidAudioConfiguration => 5000
  | CodeAudioOutputStartFailed => 5001 | CodeAudioOutputFailed => 5002
  | CodeAudioUnderrun => 5003 | CodeAudioEngineUnavailable => 5004
  | CodeStorageOpenFailed => 6000 | CodeStorageMigrationFailed => 6001
  | CodeStorageIntegrityFailed => 6002 | CodeStorageReadFailed => 6003
  | CodeStorageWriteFailed => 6004 | CodeStoragePragmaFailed => 6005
  | CodeStorageTransactionFailed => 6006 | CodeStorageConstraintViolation => 6007
  | CodeStorageBusy => 6008 | CodeStorageCorrupt => 6009 | CodeStorageCloseFailed => 6010
  | CodeStorageQueryFailed => 6011 | CodePlatformOperationFailed => 7000
  | CodePermissionDenied => 7001 | CodeCapabilityUnavailable => 7002
  | CodeFfiInvalidArgument => 8000 | CodeFfiIncompatibleVersion => 8001
  | CodeFfiPanicContained => 8002 | CodeFfiCallbackFailed => 8003 | CodeQueueOverflow => 9000
  | CodeShutdownInProgress => 9001 | CodeShutdownFailed => 9002 | CodeWorkerStopped => 9003
  end.

Definition subsystem_of (c : CoreErrorCode) : CoreSubsystem :=
  match c with
  | CodeInvalidIdentifier | CodeInvalidArgument | CodeInvalidStateTransition
  | CodeResourceLimitExceeded => SubValidation
  | CodeUnsupportedProtocolVersion | CodeMalformedProtocolFrame | CodeProtocolFrameTooLarge
  | CodeUnsupportedMessageKind | CodeIntegrityCheckFailed => SubProtocol
  | CodeTransportUnavailable | CodeTransportConnectionFailed | CodeTransportConnectionLost
  | CodeTransportDeliveryFailed | CodeTransportTimeout => SubTransport
  | CodeInvalidSyncSample | CodeSynchronizationTimeout | CodeSynchronizationConfidenceLost => SubSynchronization
  | CodeInvalidAudioConfiguration | CodeAudioOutputStartFailed | CodeAudioOutputFailed
  | CodeAudioUnderrun | CodeAudioEngineUnavailable => SubAudio
  | CodeStorageOpenFailed | CodeStorageMigrationFailed | CodeStorageIntegrityFailed
  | CodeStorageReadFailed | CodeStorageWriteFailed | CodeStoragePragmaFailed
  | CodeStorageTransactionFailed | CodeStorageConstraintViolation | CodeStorageBusy
  | CodeStorageCorrupt | CodeStorageCloseFailed | CodeStorageQueryFailed => SubStorage
  | CodePlatformOperationFailed | CodePermissionDenied | CodeCapabilityUnavailable => SubPlatform
  | CodeFfiInvalidArgument | CodeFfiIncompatibleVersion | CodeFfiPanicContained
  | CodeFfiCallbackFailed => SubFfi
  | CodeQueueOverflow | CodeShutdownInProgress | CodeShutdownFailed | CodeWorkerStopped => SubRuntime
  end.

Definition code_stable_name (c : CoreErrorCode) : rstr :=
  match c with
  | CodeInvalidIdentifier => lit "invalid_identifier"
  | CodeInvalidArgument => lit "invalid_argument"
  | CodeInvalidStateTransition => lit "invalid_state_transition"
  | CodeResourceLimitExceeded => lit "resource_limit_exceeded"
  | CodeUnsupportedProtocolVersion => lit "unsupported_protocol_version"
  | CodeMalformedProtocolFrame => lit "malformed_protocol_frame"
  | CodeProtocolFrameTooLarge => lit "protocol_frame_too_large"
  | CodeUnsupportedMessageKind => lit "unsupported_message_kind"
  | CodeIntegrityCheckFailed => lit "integrity_check_failed"
  | CodeTransportUnavailable => lit "transport_unavailable"
  | CodeTransportConnectionFailed => lit "transport_connection_failed"
  | CodeTransportConnectionLost => lit "transport_connection_lost"
  | CodeTransportDeliveryFailed => lit "transport_delivery_failed"
  | CodeTransportTimeout => lit "transport_timeout"
  | CodeInvalidSyncSample => lit "invalid_sync_sample"
  | CodeSynchronizationTimeout => lit "synchronization_timeout"
  | CodeSynchronizationConfidenceLost => lit "synchronization_confidence_lost"
  | CodeInvalidAudioConfiguration => lit "invalid_audio_configuration"
  | CodeAudioOutputStartFailed => lit "audio_output_start_failed"
  | CodeAudioOutputFailed => lit "audio_output_failed"
  | CodeAudioUnderrun => lit "audio_underrun"
  | CodeAudioEngineUnavailable => lit "audio_engine_unavailable"
  | CodeStorageOpenFailed => lit "storage_open_failed"
  | CodeStorageMigrationFailed => lit "storage_migration_failed"
  | CodeStorageIntegrityFailed => lit "storage_integrity_failed"
  | CodeStorageReadFailed => lit "storage_read_failed"
  | CodeStorageWriteFailed => lit "storage_write_failed"
  | CodeStoragePragmaFailed => lit "storage_pragma_failed"
  | CodeStorageTransactionFailed => lit "storage_transaction_failed"
  | CodeStorageConstraintViolation => lit "storage_constraint_violation"
  | CodeStorageBusy => lit "storage_busy"
  | CodeStorageCorrupt => lit "storage_corrupt"
  | CodeStorageCloseFailed => lit "storage_close_failed"
  | CodeStorageQueryFailed => lit "storage_query_failed"
  | CodePlatformOperationFailed => lit "platform_operation_failed"
  | CodePermissionDenied => lit "permission_denied"
  | CodeCapabilityUnavailable => lit "capability_unavailable"
  | CodeFfiInvalidArgument => lit "ffi_invalid_argument"
  | CodeFfiIncompatibleVersion => lit "ffi_incompatible_version"
  | CodeFfiPanicContained => lit "ffi_panic_contained"
  | CodeFfiCallbackFailed => lit "ffi_callback_failed"
  | CodeQueueOverflow => lit "queue_overflow"
  | CodeShutdownInProgress => lit "shutdown_in_progress"
  | CodeShutdownFailed => lit "shutdown_failed"
  | CodeWorkerStopped => lit "worker_stopped"
  end.

#[export] Instance CoreSubsystem_eq_dec : EqDecision CoreSubsystem.
Proof. solve_decision. Defined.
#[export] Instance ErrorSeverity_eq_dec : EqDecision ErrorSeverity.
Proof. solve_decision. Defined.
#[export] Instance CoreErrorCode_eq_dec : EqDecision CoreErrorCode.
Proof. solve_decision. Defined.

Record ErrorContextEntry : Type := mkErrorContextEntry {
  context_key : rstr;
  context_value : rstr
}.

(** [CoreErrorRecord] and [CoreError] have the same fields; the second is only
    built through the validation below or by the core's own constructors. *)
Record CoreError : Type := mkCoreError {
  err_code : CoreErrorCode;
  err_message : rstr;
  err_subsystem : CoreSubsystem;
  err_severity : ErrorSeverity;
  err_retryable : bool;
  err_operation_id : option rstr;
  err_context : list ErrorContextEntry
}.

#[export] Instance ErrorContextEntry_eq_dec : EqDecision ErrorContextEntry.
Proof. solve_decision. Defined.
#[export] Instance CoreError_eq_dec : EqDecision CoreError.
Proof. solve_decision. Defined.

Inductive CoreErrorBuildError : Type :=
| EmptyMessage
| MessageTooLong (actual_bytes maximum_bytes : Z)
| MessageContainsControlCharacter
| EmptyContextKey
| ContextKeyTooLong (actual_bytes maximum_bytes : Z)
| ContextKeyHasSurroundingWhitespace
| ContextKeyContainsControlCharacter
| EmptyContextValue
| ContextValueTooLong (actual_bytes maximum_bytes : Z)
| ContextValueContainsControlCharacter
| ContextLimitExceeded (maximum_entries : Z)
| SubsystemMismatch (code : CoreErrorCode) (expected actual : CoreSubsystem).

Definition validate_error_message (message : rstr) : result unit CoreErrorBuildError :=
  if bool_decide (trim message = []) then Err EmptyMessage
  else if MAX_ERROR_MESSAGE_BYTES <? str_len message then
    Err (MessageTooLong (str_len message) MAX_ERROR_MESSAGE_BYTES)
  else if existsb is_control message then Err MessageContainsControlCharacter
  else Ok tt.

Definition validate_context_key (key : rstr) : result unit CoreErrorBuildError :=
  if bool_decide (trim key = []) then Err EmptyContextKey
  else if MAX_ERROR_CONTEXT_KEY_BYTES <? str_len key then
    Err (ContextKeyTooLong (str_len key) MAX_ERROR_CONTEXT_KEY_BYTES)
  else if negb (bool_decide (trim key = key)) then Err ContextKeyHasSurroundingWhitespace
  else if existsb is_control key then Err ContextKeyContainsControlCharacter
  else Ok tt.

Definition validate_context_value (value : rstr) : result unit CoreErrorBuildError :=
  if bool_decide (trim value = []) then Err EmptyContextValue
  else if MAX_ERROR_CONTEXT_VALUE_BYTES <? str_len value then
    Err (ContextValueTooLong (str_len value) MAX_ERROR_CONTEXT_VALUE_BYTES)
  else if existsb is_control value then Err ContextValueContainsControlCharacter
  else Ok tt.

Definition ErrorContextEntry_new (key value : rstr) : result ErrorContextEntry CoreErrorBuildError :=
  let? _ := validate_context_key key in
  let? _ := validate_context_value value in
  Ok (mkErrorContextEntry key value).

(** The [for entry in &record.context] loop. *)
Fixpoint validate_context (context : list ErrorContextEntry) : result unit CoreErrorBuildError :=
  match context with
  | [] => Ok tt
  | entry :: rest =>
      let? _ := validate_context_key entry.(context_key) in
      let? _ := validate_context_value entry.(context_value) in
      validate_context rest
  end.

(** [TryFrom<CoreErrorRecord> for CoreError]. *)
Definition CoreError_try_from (record : CoreError) : result CoreError CoreErrorBuildError :=
  let? _ := validate_error_message record.(err_message) in
  if negb (bool_decide (record.(err_subsystem) = subsystem_of record.(err_code))) then
    Err (SubsystemMismatch record.(err_code) (subsystem_of record.(err_code)) record.(err_subsystem))
  else if MAX_ERROR_CONTEXT_ENTRIES <? len record.(err_context) then
    Err (ContextLimitExceeded MAX_ERROR_CONTEXT_ENTRIES)
  else
    let? _ := validate_context record.(err_context) in
    Ok record.

Definition CoreError_new (code : CoreErrorCode) (message : rstr) (severity : ErrorSeverity)
    (retryable : bool) (operation_id : option rstr) : result CoreError CoreErrorBuildError :=
  CoreError_try_from
    (mkCoreError code message (subsystem_of code) severity retryable operation_id []).

Definition with_context (e : CoreError) (entry : ErrorContextEntry)
    : result CoreError CoreErrorBuildError :=
  if MAX_ERROR_CONTEXT_ENTRIES <=? len e.(err_context) then
    Err (ContextLimitExceeded MAX_ERROR_CONTEXT_ENTRIES)
  else Ok (mkCoreError e.(err_code) e.(err_message) e.(err_subsystem) e.(err_severity)
             e.(err_retryable) e.(err_operation_id) (e.(err_context) ++ [entry])).

Definition identifier_kind_name (kind : IdentifierKind) : rstr :=
  match kind with
  | IdSession => lit "session_id"
  | IdStream => lit "stream_id"
  | IdDevice => lit "device_id"
  | IdRequest => lit "request_id"
  | IdOperation => lit "operation_id"
  | IdDiagnosticRun => lit "diagnostic_run_id"
  end.

Definition from_identifier_validation (error : IdValidationError) (operation_id : option rstr)
    : CoreError :=
  let reason := match error.(reason) with
    | Empty => lit "empty"
    | TooLong _ _ => lit "too_long"
    | SurroundingWhitespace => lit "surrounding_whitespace"
    | ControlCharacter _ => lit "control_character"
    end in
  mkCoreError CodeInvalidIdentifier (lit "invalid domain identifier") SubValidation SeverityError
    false operation_id
    [mkErrorContextEntry (lit "identifier_kind") (identifier_kind_name error.(identifier_kind));
     mkErrorContextEntry (lit "reason") reason].

(** ** The actor's error constructors *)

Definition core_error (code : CoreErrorCode) (message : rstr) (severity : ErrorSeverity)
    (retryable : bool) (operation_id : option rstr) : CoreError :=
  mkCoreError code message (subsystem_of code) severity retryable operation_id [].

Definition invalid_argument (message : rstr) (operation_id : option rstr) : CoreError :=
  core_error CodeInvalidArgument message SeverityError false operation_id.

Definition invalid_state (message : rstr) (operation_id : option rstr) : CoreError :=
  core_error CodeInvalidStateTransition message SeverityError false operation_id.

Definition resource_limit (message : rstr) (operation_id : option rstr) : CoreError :=
  core_error CodeResourceLimitExceeded message SeverityFatal false operation_id.

Definition join_rejected (reason : rstr) : CoreError :=
  core_error CodeTransportConnectionFailed (lit "host rejected join request: " ++ reason)
    SeverityError true None.

Definition transport_delivery_failed (message operation_id : rstr) : CoreError :=
  core_error CodeTransportDeliveryFailed message SeverityError true (Some operation_id).

(** [error.operation_id = Some(operation_id)]. *)
Definition err_set_operation_id (e : CoreError) (operation_id : rstr) : CoreError :=
  mkCoreError e.(err_code) e.(err_message) e.(err_subsystem) e.(err_severity) e.(err_retryable)
    (Some operation_id) e.(err_context).

(** ** Lemmas *)

Lemma validate_context_ok (context : list ErrorContextEntry) :
  validate_context context = Ok tt <->
  Forall (fun e => validate_context_key e.(context_key) = Ok tt
                   /\ validate_context_value e.(context_value) = Ok tt) context.
Proof.
  induction context as [|e context IH]; simpl; [by split|]. rewrite Forall_cons, <- IH.
  destruct (validate_context_key _) as [[]|]; [|intuition discriminate].
  destruct (validate_context_value _) as [[]|]; intuition discriminate.
Qed.

(** A stable code determines its subsystem by its thousands digit, so codes of
    different subsystems never collide. *)
Definition subsystem_number (s : CoreSubsystem) : Z :=
  match s with
  | SubValidation => 1 | SubProtocol => 2 | SubTransport => 3 | SubSynchronization => 4
  | SubAudio => 5 | SubStorage => 6 | SubPlatform => 7 | SubFfi => 8 | SubRuntime => 9
  end.

Lemma numeric_code_subsystem (c : CoreErrorCode) :
  numeric_code c / 1000 = subsystem_number (subsystem_of c).
Proof. by destruct c. Qed.

Lemma numeric_code_inj (c d : CoreErrorCode) : numeric_code c = numeric_code d -> c = d.
Proof. destruct c, d; (reflexivity || discriminate). Qed.
