(* ===== verification/ProtocolTypes.v ===== *)
(** Wire-protocol data (src/rust/silent-disco-core/src/protocol/types.rs):
    message kinds, the fixed frame header and every message payload. The
    predicates [wf_...] at the end are the Rust types' own ranges. *)
From Stdlib Require Import ZArith Lia Strings.String.
From stdpp Require Import numbers list prelude.
From S2P Require Import Prelude Utf8 Domain.

Definition PROTOCOL_MAGIC : list Z := [83; 68; 80; 50].
Definition PROTOCOL_VERSION : Z := 3.
Definition FRAME_HEADER_BYTES : Z := 16.
Definition FRAME_HEADER_LENGTH : Z := 16.
Definition MAX_CONTROL_PAYLOAD_BYTES : Z := 64 * 1024.
Definition MAX_AUDIO_DATAGRAM_BYTES : Z := 4 * 1024.
Definition MAX_SESSION_NAME_BYTES : Z := 128.
Definition MAX_DISPLAY_NAME_BYTES : Z := 128.
Definition MAX_INVITE_CODE_BYTES : Z := 64.
Definition MAX_REASON_BYTES : Z := 256.
Definition MAX_SYNC_CONFIDENCE_WIRE_NAME_BYTES : Z := 32.
Definition FLAG_PAYLOAD_INTEGRITY : Z := 1.
Definition SUPPORTED_FRAME_FLAGS : Z := FLAG_PAYLOAD_INTEGRITY.

Inductive MessageKind : Type :=
| KHello | KJoinRequest | KJoinApproval | KJoinRejection | KHeartbeat | KStreamStart
| KPause | KStop | KDisconnect | KResyncNotice | KSynchronizationReport | KTrackBoundary
| KSyncRequest | KSyncResponse | KAudio.

#[export] Instance MessageKind_eq_dec : EqDecision MessageKind.
Proof. solve_decision. Defined.

Definition kind_code (k : MessageKind) : Z :=
  match k with
  | KHello => 1 | KJoinRequest => 2 | KJoinApproval => 3 | KJoinRejection => 4
  | KHeartbeat => 5 | KStreamStart => 6 | KPause => 7 | KStop => 8 | KDisconnect => 9
  | KResyncNotice => 10 | KSynchronizationReport => 11 | KTrackBoundary => 12
  | KSyncRequest => 100 | KSyncResponse => 101 | KAudio => 200
  end.

Definition is_control_kind (k : MessageKind) : bool :=
  match k with
  | KHello | KJoinRequest | KJoinApproval | KJoinRejection | KHeartbeat | KStreamStart
  | KPause | KStop | KDisconnect | KResyncNotice | KSynchronizationReport
  | KTrackBoundary => true
  | _ => false
  end.

Definition maximum_payload_bytes (k : MessageKind) : Z :=
  match k with
  | KAudio => MAX_AUDIO_DATAGRAM_BYTES - FRAME_HEADER_BYTES
  | _ => MAX_CONTROL_PAYLOAD_BYTES
  end.

(** [TryFrom<u16> for MessageKind]. *)
Definition kind_try_from (code : Z) : result MessageKind Z :=
  match code with
  | 1 => Ok KHello
  | 2 => Ok KJoinRequest
  | 3 => Ok KJoinApproval
  | 4 => Ok KJoinRejection
  | 5 => Ok KHeartbeat
  | 6 => Ok KStreamStart
  | 7 => Ok KPause
  | 8 => Ok KStop
  | 9 => Ok KDisconnect
  | 10 => Ok KResyncNotice
  | 11 => Ok KSynchronizationReport
  | 12 => Ok KTrackBoundary
  | 100 => Ok KSyncRequest
  | 101 => Ok KSyncResponse
  | 200 => Ok KAudio
  | _ => Err code
  end.

Record FrameHeader : Type := mkFrameHeader {
  header_version : Z;
  header_kind : MessageKind;
  header_flags : Z;
  header_header_length : Z;
  header_payload_length : Z
}.

Definition FrameHeader_new (kind : MessageKind) (flags payload_length : Z) : FrameHeader :=
  mkFrameHeader PROTOCOL_VERSION kind flags FRAME_HEADER_LENGTH payload_length.

Record DeviceIdentity : Type := mkDeviceIdentity {
  device_id : rstr;
  device_display_name : rstr
}.

Record Hello : Type := mkHello {
  hello_session_id : rstr;
  hello_session_name : rstr;
  hello_host_name : rstr;
  hello_approval_required : bool
}.

Record JoinRequest : Type := mkJoinRequest {
  join_session_id : rstr;
  join_device : DeviceIdentity;
  join_invite_code : option rstr;
  join_sync_port : Z;
  join_audio_port : Z
}.

Record JoinApproval : Type := mkJoinApproval {
  approval_session_id : rstr;
  approval_listener_id : rstr;
  approval_trusted_for_future : bool
}.

Record JoinRejection : Type := mkJoinRejection {
  rejection_session_id : rstr;
  rejection_listener_id : rstr;
  rejection_reason : rstr
}.

Record Heartbeat : Type := mkHeartbeat {
  heartbeat_session_id : rstr;
  heartbeat_listener_id : rstr;
  heartbeat_sent_at_elapsed_ms : Z
}.

Record StreamStart : Type := mkStreamStart {
  start_session_id : rstr;
  start_stream_id : rstr;
  start_host_start_time_ms : Z;
  start_sample_rate : Z;
  start_channels : Z;
  start_samples_per_packet : Z;
  start_current_entry_id : option rstr;
  start_current_display_name : option rstr
}.

Record TrackBoundary : Type := mkTrackBoundary {
  boundary_session_id : rstr;
  boundary_stream_id : rstr;
  boundary_first_sample_index : Z;
  boundary_entry_id : rstr;
  boundary_display_name : rstr
}.

Record Pause : Type := mkPause {
  pause_session_id : rstr;
  pause_stream_id : rstr;
  pause_host_pause_time_ms : Z
}.

Record Stop : Type := mkStop {
  stop_session_id : rstr;
  stop_stream_id : rstr;
  stop_host_stop_time_ms : Z
}.

Record Disconnect : Type := mkDisconnect {
  disconnect_session_id : rstr;
  disconnect_listener_id : rstr;
  disconnect_reason : rstr
}.

Record ResyncNotice : Type := mkResyncNotice {
  resync_session_id : rstr;
  resync_listener_id : rstr;
  resync_reason : rstr
}.

(** The three [f64] fields are carried as the IEEE-754 bit patterns that
    [f64::to_bits] writes and [f64::from_bits] reads. *)
Record SynchronizationReport : Type := mkSynchronizationReport {
  report_session_id : rstr;
  report_listener_id : rstr;
  report_confidence : SyncConfidence;
  report_offset_ms_bits : Z;
  report_round_trip_ms_bits : Z;
  report_drift_ppm_bits : Z
}.

Inductive ControlMessage : Type :=
| CHello (value : Hello)
| CJoinRequest (value : JoinRequest)
| CJoinApproval (value : JoinApproval)
| CJoinRejection (value : JoinRejection)
| CHeartbeat (value : Heartbeat)
| CStreamStart (value : StreamStart)
| CTrackBoundary (value : TrackBoundary)
| CPause (value : Pause)
| CStop (value : Stop)
| CDisconnect (value : Disconnect)
| CResyncNotice (value : ResyncNotice)
| CSynchronizationReport (value : SynchronizationReport).

Definition control_kind (m : ControlMessage) : MessageKind :=
  match m with
  | CHello _ => KHello
  | CJoinRequest _ => KJoinRequest
  | CJoinApproval _ => KJoinApproval
  | CJoinRejection _ => KJoinRejection
  | CHeartbeat _ => KHeartbeat
  | CStreamStart _ => KStreamStart
  | CTrackBoundary _ => KTrackBoundary
  | CPause _ => KPause
  | CStop _ => KStop
  | CDisconnect _ => KDisconnect
  | CResyncNotice _ => KResyncNotice
  | CSynchronizationReport _ => KSynchronizationReport
  end.

Definition control_session_id (m : ControlMessage) : rstr :=
  match m with
  | CHello v => v.(hello_session_id)
  | CJoinRequest v => v.(join_session_id)
  | CJoinApproval v => v.(approval_session_id)
  | CJoinRejection v => v.(rejection_session_id)
  | CHeartbeat v => v.(heartbeat_session_id)
  | CStreamStart v => v.(start_session_id)
  | CTrackBoundary v => v.(boundary_session_id)
  | CPause v => v.(pause_session_id)
  | CStop v => v.(stop_session_id)
  | CDisconnect v => v.(disconnect_session_id)
  | CResyncNotice v => v.(resync_session_id)
  | CSynchronizationReport v => v.(report_session_id)
  end.

Record SyncRequest : Type := mkSyncRequest {
  request_session_id : rstr;
  request_correlation_id : Z;
  request_t1_listener_send_elapsed_ms : Z
}.

Record SyncResponse : Type := mkSyncResponse {
  response_session_id : rstr;
  response_correlation_id : Z;
  response_t1_listener_send_elapsed_ms : Z;
  response_t2_host_receive_elapsed_ms : Z;
  response_t3_host_send_elapsed_ms : Z
}.

Inductive AudioCodec : Type := PcmS16Le.

Definition codec_code (c : AudioCodec) : Z := match c with PcmS16Le => 1 end.

(** [TryFrom<u8> for AudioCodec]. *)
Definition codec_try_from (code : Z) : result AudioCodec Z :=
  match code with 1 => Ok PcmS16Le | _ => Err code end.

Record AudioDatagram : Type := mkAudioDatagram {
  audio_session_id : rstr;
  audio_stream_id : rstr;
  audio_sequence : Z;
  audio_codec : AudioCodec;
  audio_sample_rate : Z;
  audio_channels : Z;
  audio_samples_per_packet : Z;
  audio_first_sample_index : Z;
  audio_host_presentation_time_ms : Z;
  audio_payload : list Z
}.

Inductive ProtocolFrame : Type :=
| FControl (message : ControlMessage)
| FSyncRequest (message : SyncRequest)
| FSyncResponse (message : SyncResponse)
| FAudio (message : AudioDatagram).

Definition frame_kind (f : ProtocolFrame) : MessageKind :=
  match f with
  | FControl m => control_kind m
  | FSyncRequest _ => KSyncRequest
  | FSyncResponse _ => KSyncResponse
  | FAudio _ => KAudio
  end.

Definition frame_session_id (f : ProtocolFrame) : rstr :=
  match f with
  | FControl m => control_session_id m
  | FSyncRequest m => m.(request_session_id)
  | FSyncResponse m => m.(response_session_id)
  | FAudio m => m.(audio_session_id)
  end.

(** ** Type ranges *)

Definition wf_opt_str (o : option rstr) : Prop := match o with Some s => wf_str s | None => True end.

Definition wf_control (m : ControlMessage) : Prop :=
  match m with
  | CHello v => wf_str v.(hello_session_id) /\ wf_str v.(hello_session_name)
                /\ wf_str v.(hello_host_name)
  | CJoinRequest v => wf_str v.(join_session_id) /\ wf_str v.(join_device).(device_id)
                      /\ wf_str v.(join_device).(device_display_name)
                      /\ wf_opt_str v.(join_invite_code)
                      /\ is_u16 v.(join_sync_port) /\ is_u16 v.(join_audio_port)
  | CJoinApproval v => wf_str v.(approval_session_id) /\ wf_str v.(approval_listener_id)
  | CJoinRejection v => wf_str v.(rejection_session_id) /\ wf_str v.(rejection_listener_id)
                        /\ wf_str v.(rejection_reason)
  | CHeartbeat v => wf_str v.(heartbeat_session_id) /\ wf_str v.(heartbeat_listener_id)
                    /\ is_u64 v.(heartbeat_sent_at_elapsed_ms)
  | CStreamStart v => wf_str v.(start_session_id) /\ wf_str v.(start_stream_id)
                      /\ is_u64 v.(start_host_start_time_ms) /\ is_u32 v.(start_sample_rate)
                      /\ is_u16 v.(start_channels) /\ is_u32 v.(start_samples_per_packet)
                      /\ wf_opt_str v.(start_current_entry_id)
                      /\ wf_opt_str v.(start_current_display_name)
  | CTrackBoundary v => wf_str v.(boundary_session_id) /\ wf_str v.(boundary_stream_id)
                        /\ is_u64 v.(boundary_first_sample_index)
                        /\ wf_str v.(boundary_entry_id) /\ wf_str v.(boundary_display_name)
  | CPause v => wf_str v.(pause_session_id) /\ wf_str v.(pause_stream_id)
                /\ is_u64 v.(pause_host_pause_time_ms)
  | CStop v => wf_str v.(stop_session_id) /\ wf_str v.(stop_stream_id)
               /\ is_u64 v.(stop_host_stop_time_ms)
  | CDisconnect v => wf_str v.(disconnect_session_id) /\ wf_str v.(disconnect_listener_id)
                     /\ wf_str v.(disconnect_reason)
  | CResyncNotice v => wf_str v.(resync_session_id) /\ wf_str v.(resync_listener_id)
                       /\ wf_str v.(resync_reason)
  | CSynchronizationReport v => wf_str v.(report_session_id) /\ wf_str v.(report_listener_id)
                                /\ is_u64 v.(report_offset_ms_bits)
                                /\ is_u64 v.(report_round_trip_ms_bits)
                                /\ is_u64 v.(report_drift_ppm_bits)
  end.

Definition wf_audio (v : AudioDatagram) : Prop :=
  wf_str v.(audio_session_id) /\ wf_str v.(audio_stream_id) /\ is_u64 v.(audio_sequence)
  /\ is_u32 v.(audio_sample_rate) /\ is_u16 v.(audio_channels)
  /\ is_u32 v.(audio_samples_per_packet) /\ is_u64 v.(audio_first_sample_index)
  /\ is_u64 v.(audio_host_presentation_time_ms) /\ Forall is_u8 v.(audio_payload).

Definition wf_frame (f : ProtocolFrame) : Prop :=
  match f with
  | FControl m => wf_control m
  | FSyncRequest v => wf_str v.(request_session_id) /\ is_u64 v.(request_correlation_id)
                      /\ is_u64 v.(request_t1_listener_send_elapsed_ms)
  | FSyncResponse v => wf_str v.(response_session_id) /\ is_u64 v.(response_correlation_id)
                       /\ is_u64 v.(response_t1_listener_send_elapsed_ms)
                       /\ is_u64 v.(response_t2_host_receive_elapsed_ms)
                       /\ is_u64 v.(response_t3_host_send_elapsed_ms)
  | FAudio v => wf_audio v
  end.

(** ** Lemmas *)

Lemma kind_try_from_code (k : MessageKind) : kind_try_from (kind_code k) = Ok k.
Proof. by destruct k. Qed.

Lemma kind_try_from_sound (code : Z) (k : MessageKind) :
  kind_try_from code = Ok k -> kind_code k = code.
Proof.
  unfold kind_try_from. intros H.
  repeat (match type of H with context [match ?x with _ => _ end] => destruct x end; try discriminate);
    by inversion H.
Qed.

Lemma kind_code_u16 (k : MessageKind) : is_u16 (kind_code k).
Proof. unfold is_u16, is_uint. destruct k; simpl; lia. Qed.

Lemma codec_try_from_sound (code : Z) (c : AudioCodec) :
  codec_try_from code = Ok c -> codec_code c = code.
Proof.
  unfold codec_try_from. intros H.
  repeat (match type of H with context [match ?x with _ => _ end] => destruct x end; try discriminate);
    by inversion H.
Qed.

Lemma maximum_payload_bytes_bound (k : MessageKind) :
  0 < maximum_payload_bytes k <= MAX_CONTROL_PAYLOAD_BYTES.
Proof.
  destruct k; unfold maximum_payload_bytes, MAX_CONTROL_PAYLOAD_BYTES,
    MAX_AUDIO_DATAGRAM_BYTES, FRAME_HEADER_BYTES; lia.
Qed.
