(* ===== verification/Crc32.v ===== *)
(** The audio payload checksum
    (src/rust/silent-disco-core/src/protocol/codec/mod.rs, [crc32]) and the
    error detection it provides: its bit step is a permutation of the 32-bit
    states, so two payloads that differ in one byte never share a checksum. *)
From Stdlib Require Import ZArith Lia.
From stdpp Require Import numbers list prelude.
From S2P Require Import Prelude.

(** One round of the inner [for _ in 0..8] loop. *)
Definition crc_bit (crc : Z) : Z :=
  let mask := wrapping_sub 32 0 (Z.land crc 1) in
  Z.lxor (Z.shiftr crc 1) (Z.land 3988292384 mask).

(** The body of the outer loop over the bytes. *)
Definition crc_byte (crc byte : Z) : Z := Nat.iter 8 crc_bit (Z.lxor crc byte).

Definition crc32 (bytes : list Z) : Z :=
  Z.lxor (fold_left crc_byte bytes u32_max) u32_max.

(** ** Closure of the 32-bit states *)

Lemma lxor_u32 (x y : Z) : is_u32 x -> is_u32 y -> is_u32 (Z.lxor x y).
Proof.
  unfold is_u32, is_uint. intros Hx Hy.
  assert (0 <= Z.lxor x y) by (apply Z.lxor_nonneg; lia). split; [done|].
  destruct (Z.eq_dec (Z.lxor x y) 0) as [->|]; [lia|].
  apply Z.log2_lt_pow2; [lia|].
  pose proof (Z.log2_lxor x y ltac:(lia) ltac:(lia)).
  assert (forall z, 0 <= z < 2 ^ 32 -> Z.log2 z < 32) as Hlog.
  { intros z Hz. destruct (Z.eq_dec z 0) as [->|]; [simpl; lia|]. apply Z.log2_lt_pow2; lia. }
  apply Hlog in Hx, Hy. lia.
Qed.

Lemma u8_u32 (b : Z) : is_u8 b -> is_u32 b.
Proof. unfold is_u8, is_u32, is_uint. lia. Qed.

Lemma crc_mask (crc : Z) :
  Z.land 3988292384 (wrapping_sub 32 0 (Z.land crc 1))
  = if Z.odd crc then 3988292384 else 0.
Proof.
  change 1 with (Z.ones 1). rewrite Z.land_ones by lia. change (2 ^ 1) with 2.
  rewrite Zmod_odd. by destruct (Z.odd crc).
Qed.

Lemma crc_bit_eq (crc : Z) :
  crc_bit crc = Z.lxor (Z.shiftr crc 1) (if Z.odd crc then 3988292384 else 0).
Proof. unfold crc_bit. by rewrite crc_mask. Qed.

Lemma shiftr_1_u32 (crc : Z) : is_u32 crc -> 0 <= Z.shiftr crc 1 < 2 ^ 31.
Proof. unfold is_u32, is_uint. rewrite Z.shiftr_div_pow2 by lia. Z.div_mod_to_equations. lia. Qed.

Lemma crc_bit_u32 (crc : Z) : is_u32 crc -> is_u32 (crc_bit crc).
Proof.
  intros H. rewrite crc_bit_eq. apply lxor_u32.
  - apply shiftr_1_u32 in H. unfold is_u32, is_uint. lia.
  - unfold is_u32, is_uint. destruct (Z.odd crc); lia.
Qed.

(** The top bit of a step records the parity of the state it came from. *)
Lemma crc_bit_top (crc : Z) : is_u32 crc -> Z.testbit (crc_bit crc) 31 = Z.odd crc.
Proof.
  intros H. rewrite crc_bit_eq, Z.lxor_spec. apply shiftr_1_u32 in H.
  assert (Z.testbit (Z.shiftr crc 1) 31 = false) as ->.
  { destruct (Z.eq_dec (Z.shiftr crc 1) 0) as [->|]; [done|].
    apply Z.bits_above_log2; [lia|]. apply Z.log2_lt_pow2; lia. }
  by destruct (Z.odd crc).
Qed.

Lemma crc_bit_inj (a b : Z) : is_u32 a -> is_u32 b -> crc_bit a = crc_bit b -> a = b.
Proof.
  intros Ha Hb Heq. assert (Z.odd a = Z.odd b) as Hodd.
  { rewrite <- (crc_bit_top a), <- (crc_bit_top b) by done. by rewrite Heq. }
  rewrite !crc_bit_eq, Hodd in Heq.
  assert (Z.shiftr a 1 = Z.shiftr b 1) as Hs.
  { apply (f_equal (fun z => Z.lxor z (if Z.odd b then 3988292384 else 0))) in Heq.
    by rewrite !Z.lxor_assoc, Z.lxor_nilpotent, !Z.lxor_0_r in Heq. }
  rewrite !Z.shiftr_div_pow2 in Hs by lia. change (2 ^ 1) with 2 in Hs.
  pose proof (Zmod_odd a) as Ma. pose proof (Zmod_odd b) as Mb.
  rewrite Hodd in Ma. Z.div_mod_to_equations. lia.
Qed.

Lemma crc_bits_u32 (n : nat) (crc : Z) : is_u32 crc -> is_u32 (Nat.iter n crc_bit crc).
Proof. intros H. induction n; simpl; [done|]. by apply crc_bit_u32. Qed.

Lemma crc_bits_inj (n : nat) (a b : Z) :
  is_u32 a -> is_u32 b -> Nat.iter n crc_bit a = Nat.iter n crc_bit b -> a = b.
Proof.
  intros Ha Hb. induction n; simpl; [done|]. intros H. apply IHn.
  apply crc_bit_inj; [by apply crc_bits_u32..|done].
Qed.

Lemma crc_byte_eq (crc b : Z) : crc_byte crc b = Nat.iter 8 crc_bit (Z.lxor crc b).
Proof. reflexivity. Qed.

(** Keeps conversion from unfolding the eight rounds on a symbolic state. *)
#[local] Opaque crc_bit crc_byte.

Lemma crc_byte_u32 (crc b : Z) : is_u32 crc -> is_u8 b -> is_u32 (crc_byte crc b).
Proof. intros. rewrite crc_byte_eq. apply crc_bits_u32, lxor_u32; [done|]. by apply u8_u32. Qed.

Lemma lxor_cancel_r (a b c : Z) : Z.lxor a c = Z.lxor b c -> a = b.
Proof.
  intros H. apply (f_equal (fun z => Z.lxor z c)) in H.
  by rewrite !Z.lxor_assoc, Z.lxor_nilpotent, !Z.lxor_0_r in H.
Qed.

Lemma crc_byte_inj_state (a b byte : Z) :
  is_u32 a -> is_u32 b -> is_u8 byte -> crc_byte a byte = crc_byte b byte -> a = b.
Proof.
  intros Ha Hb Hby H. rewrite !crc_byte_eq in H. apply crc_bits_inj in H; [|by apply lxor_u32, u8_u32..].
  by apply lxor_cancel_r in H.
Qed.

Lemma crc_byte_inj_byte (crc b c : Z) :
  is_u32 crc -> is_u8 b -> is_u8 c -> crc_byte crc b = crc_byte crc c -> b = c.
Proof.
  intros Hcrc Hb Hc H. rewrite !crc_byte_eq in H. apply crc_bits_inj in H; [|by apply lxor_u32, u8_u32..].
  rewrite !(Z.lxor_comm crc) in H. by apply lxor_cancel_r in H.
Qed.

(** A checksum folded over bytes with an injective step. *)
Section Fold.
Context (step : Z -> Z -> Z).
Context (step_u32 : forall crc b, is_u32 crc -> is_u8 b -> is_u32 (step crc b)).
Context (step_inj_state : forall a b byte,
  is_u32 a -> is_u32 b -> is_u8 byte -> step a byte = step b byte -> a = b).
Context (step_inj_byte : forall crc b c,
  is_u32 crc -> is_u8 b -> is_u8 c -> step crc b = step crc c -> b = c).

Lemma fold_u32 (l : list Z) (crc : Z) :
  is_u32 crc -> Forall is_u8 l -> is_u32 (fold_left step l crc).
Proof.
  intros Hc Hl. revert crc Hc. induction Hl; intros crc Hc; simpl; [done|]. auto.
Qed.

Lemma fold_inj (l : list Z) (a b : Z) :
  Forall is_u8 l -> is_u32 a -> is_u32 b ->
  fold_left step l a = fold_left step l b -> a = b.
Proof.
  intros Hl. revert a b. induction Hl as [|x l Hx Hl IH]; intros a b Ha Hb; simpl; [done|].
  intros H. apply IH in H; eauto.
Qed.

Lemma fold_one_byte (pre post : list Z) (b c start : Z) :
  is_u32 start -> Forall is_u8 pre -> Forall is_u8 post -> is_u8 b -> is_u8 c ->
  fold_left step (pre ++ b :: post) start = fold_left step (pre ++ c :: post) start -> b = c.
Proof.
  intros Hs Hpre Hpost Hb Hc H. rewrite !fold_left_app in H. simpl in H.
  assert (is_u32 (fold_left step pre start)) by (by apply fold_u32).
  apply fold_inj in H; eauto.
Qed.
End Fold.

Lemma u32_max_u32 : is_u32 u32_max.
Proof. unfold is_u32, is_uint, u32_max. lia. Qed.

Lemma crc32_u32 (bytes : list Z) : Forall is_u8 bytes -> is_u32 (crc32 bytes).
Proof.
  intros H. apply lxor_u32; [|apply u32_max_u32].
  exact (fold_u32 crc_byte crc_byte_u32 bytes u32_max u32_max_u32 H).
Qed.
#[export] Hint Resolve crc32_u32 : rust.

(** Equal checksums of two payloads that agree except possibly at one byte
    force that byte to agree as well. *)
Lemma crc32_one_byte (pre post : list Z) (b c : Z) :
  Forall is_u8 pre -> Forall is_u8 post -> is_u8 b -> is_u8 c ->
  crc32 (pre ++ b :: post) = crc32 (pre ++ c :: post) -> b = c.
Proof.
  intros Hpre Hpost Hb Hc H. apply lxor_cancel_r in H.
  exact (fold_one_byte crc_byte crc_byte_u32 crc_byte_inj_state crc_byte_inj_byte
           pre post b c u32_max u32_max_u32 Hpre Hpost Hb Hc H).
Qed.

(** The check value of CRC-32/ISO-HDLC for the ASCII digits ["123456789"]. *)
Example crc32_check_value : crc32 [49; 50; 51; 52; 53; 54; 55; 56; 57] = 3421780262.
Proof. vm_compute. reflexivity. Qed.
