(* ===== verification/Codec.v ===== *)
(** The frame codec (src/rust/silent-disco-core/src/protocol/codec/): the
    bounds-checked [Reader], the [Encoder], field validation, the payload and
    header codecs and the policy-applying [ProtocolDecoder]. Its theorems are
    in CodecProofs.v. *)
From Stdlib Require Import ZArith Lia Strings.String.
From stdpp Require Import numbers list prelude.
From S2P Require Import Prelude Utf8 Domain ProtocolTypes Crc32.

Inductive ParseFailureClass : Type := Malformed | Unsupported | Unauthorized | Stale | Oversized.

Inductive ProtocolError : Type :=
| Truncated
| TrailingBytes
| InvalidMagic
| UnsupportedVersion (version : Z)
| UnsupportedMessageKind (kind : Z)
| UnsupportedFlags (flags : Z)
| InvalidHeaderLength (length : Z)
| PayloadTooLarge (actual maximum : Z)
| LengthMismatch (declared actual : Z)
| InvalidBoolean (value : Z)
| InvalidUtf8
| InvalidIdentifier
| InvalidField (field : string)
| UnsupportedAudioCodec (codec : Z)
| IntegrityMismatch
| UnauthorizedSession
| StaleAudioSequence.

Definition classification (e : ProtocolError) : ParseFailureClass :=
  match e with
  | UnsupportedVersion _ | UnsupportedMessageKind _ | UnsupportedFlags _
  | UnsupportedAudioCodec _ => Unsupported
  | PayloadTooLarge _ _ => Oversized
  | UnauthorizedSession => Unauthorized
  | StaleAudioSequence => Stale
  | Truncated | TrailingBytes | InvalidMagic | InvalidHeaderLength _ | LengthMismatch _ _
  | InvalidBoolean _ | InvalidUtf8 | InvalidIdentifier | InvalidField _
  | IntegrityMismatch => Malformed
  end.

Record ProtocolDiagnosticCounters : Type := mkCounters {
  malformed : Z;
  unsupported : Z;
  unauthorized : Z;
  stale : Z;
  oversized : Z
}.

Definition counters_record (c : ProtocolDiagnosticCounters) (class : ParseFailureClass)
  : ProtocolDiagnosticCounters :=
  let bump x := saturating_add u64_max x 1 in
  match class with
  | Malformed => mkCounters (bump c.(malformed)) c.(unsupported) c.(unauthorized) c.(stale) c.(oversized)
  | Unsupported => mkCounters c.(malformed) (bump c.(unsupported)) c.(unauthorized) c.(stale) c.(oversized)
  | Unauthorized => mkCounters c.(malformed) c.(unsupported) (bump c.(unauthorized)) c.(stale) c.(oversized)
  | Stale => mkCounters c.(malformed) c.(unsupported) c.(unauthorized) (bump c.(stale)) c.(oversized)
  | Oversized => mkCounters c.(malformed) c.(unsupported) c.(unauthorized) c.(stale) (bump c.(oversized))
  end.

Record DecodePolicy : Type := mkDecodePolicy {
  expected_session_id : option rstr;
  minimum_audio_sequence : option Z
}.

Definition validate_text (field : string) (value : rstr) (maximum : Z) (secret : bool)
  : result unit ProtocolError :=
  if bool_decide (trim value = []) || negb (bool_decide (trim value = value))
     || (maximum <? str_len value) then Err (InvalidField field)
  else if existsb is_control value then Err (InvalidField field)
  else if secret && existsb is_whitespace value then Err (InvalidField field)
  else Ok tt.

Definition validate_audio_parameters {t : target} (audio : AudioDatagram) : result unit ProtocolError :=
  if negb (in_range 8000 384000 audio.(audio_sample_rate)) then Err (InvalidField "sample_rate")
  else if negb (in_range 1 8 audio.(audio_channels)) then Err (InvalidField "channels")
  else if audio.(audio_samples_per_packet) =? 0 then Err (InvalidField "samples_per_packet")
  else
    let? expected :=
      ok_or (match checked_mul usize_max audio.(audio_samples_per_packet) audio.(audio_channels) with
             | Some sample_values => checked_mul usize_max sample_values 2
             | None => None
             end) (InvalidField "samples_per_packet") in
    if negb (expected =? len audio.(audio_payload)) then
      Err (LengthMismatch expected (len audio.(audio_payload)))
    else Ok tt.

(** ** Encoder: the bytes written so far *)

Definition put_u8 (output : list Z) (value : Z) : list Z := output ++ [value].
Definition put_u16 (output : list Z) (value : Z) : list Z := output ++ be_bytes 2 value.
Definition put_u32 (output : list Z) (value : Z) : list Z := output ++ be_bytes 4 value.
Definition put_u64 (output : list Z) (value : Z) : list Z := output ++ be_bytes 8 value.
Definition put_f64 (output : list Z) (bits : Z) : list Z := put_u64 output bits.
Definition put_bool (output : list Z) (value : bool) : list Z :=
  put_u8 output (if value then 1 else 0).
Definition put_bytes (output bytes : list Z) : list Z := output ++ bytes.

Definition put_string (output : list Z) (field : string) (value : rstr) (maximum : Z) (secret : bool)
  : result (list Z) ProtocolError :=
  let? _ := validate_text field value maximum secret in
  if u16_max <? str_len value then Err (InvalidField field)
  else Ok (put_bytes (put_u16 output (str_len value)) (as_bytes value)).

Definition put_optional_string (output : list Z) (field : string) (value : option rstr) (maximum : Z)
  (secret : bool) : result (list Z) ProtocolError :=
  match value with
  | Some value => put_string (put_u8 output 1) field value maximum secret
  | None => Ok (put_u8 output 0)
  end.

Definition put_session_id (output : list Z) (value : rstr) : result (list Z) ProtocolError :=
  put_string output "session_id" value MAX_IDENTIFIER_BYTES false.
Definition put_stream_id (output : list Z) (value : rstr) : result (list Z) ProtocolError :=
  put_string output "stream_id" value MAX_IDENTIFIER_BYTES false.
Definition put_device_id (output : list Z) (value : rstr) : result (list Z) ProtocolError :=
  put_string output "device_id" value MAX_IDENTIFIER_BYTES false.

Definition encode_control (message : ControlMessage) : result (list Z) ProtocolError :=
  let output := [] in
  match message with
  | CHello value =>
      let? output := put_session_id output value.(hello_session_id) in
      let? output := put_string output "session_name" value.(hello_session_name)
                       MAX_SESSION_NAME_BYTES false in
      let? output := put_string output "host_name" value.(hello_host_name)
                       MAX_DISPLAY_NAME_BYTES false in
      Ok (put_bool output value.(hello_approval_required))
  | CJoinRequest value =>
      let? output := put_session_id output value.(join_session_id) in
      let? output := put_device_id output value.(join_device).(device_id) in
      let? output := put_string output "display_name" value.(join_device).(device_display_name)
                       MAX_DISPLAY_NAME_BYTES false in
      let? output := put_optional_string output "invite_code" value.(join_invite_code)
                       MAX_INVITE_CODE_BYTES true in
      let output := put_u16 output value.(join_sync_port) in
      Ok (put_u16 output value.(join_audio_port))
  | CJoinApproval value =>
      let? output := put_session_id output value.(approval_session_id) in
      let? output := put_device_id output value.(approval_listener_id) in
      Ok (put_bool output value.(approval_trusted_for_future))
  | CJoinRejection value =>
      let? output := put_session_id output value.(rejection_session_id) in
      let? output := put_device_id output value.(rejection_listener_id) in
      put_string output "reason" value.(rejection_reason) MAX_REASON_BYTES false
  | CHeartbeat value =>
      let? output := put_session_id output value.(heartbeat_session_id) in
      let? output := put_device_id output value.(heartbeat_listener_id) in
      Ok (put_u64 output value.(heartbeat_sent_at_elapsed_ms))
  | CStreamStart value =>
      let? output := put_session_id output value.(start_session_id) in
      let? output := put_stream_id output value.(start_stream_id) in
      let output := put_u64 output value.(start_host_start_time_ms) in
      let output := put_u32 output value.(start_sample_rate) in
      let output := put_u16 output value.(start_channels) in
      let output := put_u32 output value.(start_samples_per_packet) in
      let? output := put_optional_string output "current_entry_id" value.(start_current_entry_id)
                       MAX_IDENTIFIER_BYTES false in
      put_optional_string output "current_display_name" value.(start_current_display_name)
        MAX_DISPLAY_NAME_BYTES false
  | CTrackBoundary value =>
      let? output := put_session_id output value.(boundary_session_id) in
      let? output := put_stream_id output value.(boundary_stream_id) in
      let output := put_u64 output value.(boundary_first_sample_index) in
      let? output := put_string output "entry_id" value.(boundary_entry_id)
                       MAX_IDENTIFIER_BYTES false in
      put_string output "display_name" value.(boundary_display_name) MAX_DISPLAY_NAME_BYTES false
  | CPause value =>
      let? output := put_session_id output value.(pause_session_id) in
      let? output := put_stream_id output value.(pause_stream_id) in
      Ok (put_u64 output value.(pause_host_pause_time_ms))
  | CStop value =>
      let? output := put_session_id output value.(stop_session_id) in
      let? output := put_stream_id output value.(stop_stream_id) in
      Ok (put_u64 output value.(stop_host_stop_time_ms))
  | CDisconnect value =>
      let? output := put_session_id output value.(disconnect_session_id) in
      let? output := put_device_id output value.(disconnect_listener_id) in
      put_string output "reason" value.(disconnect_reason) MAX_REASON_BYTES false
  | CResyncNotice value =>
      let? output := put_session_id output value.(resync_session_id) in
      let? output := put_device_id output value.(resync_listener_id) in
      put_string output "reason" value.(resync_reason) MAX_REASON_BYTES false
  | CSynchronizationReport value =>
      let? output := put_session_id output value.(report_session_id) in
      let? output := put_device_id output value.(report_listener_id) in
      let? output := put_string output "confidence" (wire_name value.(report_confidence))
                       MAX_SYNC_CONFIDENCE_WIRE_NAME_BYTES false in
      let output := put_f64 output value.(report_offset_ms_bits) in
      let output := put_f64 output value.(report_round_trip_ms_bits) in
      Ok (put_f64 output value.(report_drift_ppm_bits))
  end.

Definition encode_sync_request (value : SyncRequest) : result (list Z) ProtocolError :=
  let? output := put_session_id [] value.(request_session_id) in
  let output := put_u64 output value.(request_correlation_id) in
  Ok (put_u64 output value.(request_t1_listener_send_elapsed_ms)).

Definition encode_sync_response (value : SyncResponse) : result (list Z) ProtocolError :=
  if value.(response_t3_host_send_elapsed_ms) <? value.(response_t2_host_receive_elapsed_ms) then
    Err (InvalidField "host_timestamp_order")
  else
    let? output := put_session_id [] value.(response_session_id) in
    let output := put_u64 output value.(response_correlation_id) in
    let output := put_u64 output value.(response_t1_listener_send_elapsed_ms) in
    let output := put_u64 output value.(response_t2_host_receive_elapsed_ms) in
    Ok (put_u64 output value.(response_t3_host_send_elapsed_ms)).

Definition encode_audio {t : target} (value : AudioDatagram) : result (list Z) ProtocolError :=
  let? _ := validate_audio_parameters value in
  let? output := put_session_id [] value.(audio_session_id) in
  let? output := put_stream_id output value.(audio_stream_id) in
  let output := put_u64 output value.(audio_sequence) in
  let output := put_u8 output (codec_code value.(audio_codec)) in
  let output := put_u32 output value.(audio_sample_rate) in
  let output := put_u16 output value.(audio_channels) in
  let output := put_u32 output value.(audio_samples_per_packet) in
  let output := put_u64 output value.(audio_first_sample_index) in
  let output := put_u64 output value.(audio_host_presentation_time_ms) in
  if u16_max <? len value.(audio_payload) then
    Err (PayloadTooLarge (len value.(audio_payload)) u16_max)
  else
    let output := put_u16 output (len value.(audio_payload)) in
    let output := put_u32 output (crc32 value.(audio_payload)) in
    let encoded := put_bytes output value.(audio_payload) in
    let maximum := MAX_AUDIO_DATAGRAM_BYTES - FRAME_HEADER_BYTES in
    if maximum <? len encoded then Err (PayloadTooLarge (len encoded) maximum)
    else Ok encoded.

Definition encode_payload {t : target} (frame : ProtocolFrame) : result (list Z * Z) ProtocolError :=
  match frame with
  | FControl message => map_ok (fun payload => (payload, 0)) (encode_control message)
  | FSyncRequest value => map_ok (fun payload => (payload, 0)) (encode_sync_request value)
  | FSyncResponse value => map_ok (fun payload => (payload, 0)) (encode_sync_response value)
  | FAudio value => map_ok (fun payload => (payload, FLAG_PAYLOAD_INTEGRITY)) (encode_audio value)
  end.

Definition encode_frame {t : target} (frame : ProtocolFrame) : result (list Z) ProtocolError :=
  let kind := frame_kind frame in
  let? '(payload, flags) := encode_payload frame in
  let maximum := maximum_payload_bytes kind in
  if maximum <? len payload then Err (PayloadTooLarge (len payload) maximum)
  else if u32_max <? len payload then Err (PayloadTooLarge (len payload) maximum)
  else
    let header := FrameHeader_new kind flags (len payload) in
    let output := put_bytes [] PROTOCOL_MAGIC in
    let output := put_u16 output header.(header_version) in
    let output := put_u16 output (kind_code header.(header_kind)) in
    let output := put_u16 output header.(header_flags) in
    let output := put_u16 output header.(header_header_length) in
    let output := put_u32 output header.(header_payload_length) in
    Ok (put_bytes output payload).

(** ** Reader: a cursor over a byte slice *)

Record Reader : Type := mkReader { reader_bytes : list Z; reader_position : Z }.

Definition Reader_new (bytes : list Z) : Reader := mkReader bytes 0.

Definition remaining (r : Reader) : Z := saturating_sub (len r.(reader_bytes)) r.(reader_position).

Definition take {t : target} (r : Reader) (length : Z) : result (list Z * Reader) ProtocolError :=
  let? end_ := ok_or (checked_add usize_max r.(reader_position) length) Truncated in
  if len r.(reader_bytes) <? end_ then Err Truncated
  else
    let value := firstn (Z.to_nat length) (skipn (Z.to_nat r.(reader_position)) r.(reader_bytes)) in
    Ok (value, mkReader r.(reader_bytes) end_).

Definition read_u8 {t : target} (r : Reader) : result (Z * Reader) ProtocolError :=
  let? '(bytes, r) := take r 1 in Ok (nth 0 bytes 0, r).
Definition read_u16 {t : target} (r : Reader) : result (Z * Reader) ProtocolError :=
  let? '(bytes, r) := take r 2 in Ok (from_be_bytes bytes, r).
Definition read_u32 {t : target} (r : Reader) : result (Z * Reader) ProtocolError :=
  let? '(bytes, r) := take r 4 in Ok (from_be_bytes bytes, r).
Definition read_u64 {t : target} (r : Reader) : result (Z * Reader) ProtocolError :=
  let? '(bytes, r) := take r 8 in Ok (from_be_bytes bytes, r).

Definition read_bool {t : target} (r : Reader) : result (bool * Reader) ProtocolError :=
  let? '(value, r) := read_u8 r in
  match value with
  | 0 => Ok (false, r)
  | 1 => Ok (true, r)
  | value => Err (InvalidBoolean value)
  end.

Definition read_f64 {t : target} (r : Reader) : result (Z * Reader) ProtocolError := read_u64 r.

Definition read_string {t : target} (r : Reader) (field : string) (maximum : Z) (secret : bool)
  : result (rstr * Reader) ProtocolError :=
  let? '(length, r) := read_u16 r in
  if maximum <? length then Err (PayloadTooLarge length maximum)
  else
    let? '(bytes, r) := take r length in
    let? value := ok_or (from_utf8 bytes) InvalidUtf8 in
    let? _ := validate_text field value maximum secret in
    Ok (value, r).

Definition read_optional_string {t : target} (r : Reader) (field : string) (maximum : Z) (secret : bool)
  : result (option rstr * Reader) ProtocolError :=
  let? '(tag, r) := read_u8 r in
  match tag with
  | 0 => Ok (None, r)
  | 1 => map_ok (fun '(value, r) => (Some value, r)) (read_string r field maximum secret)
  | value => Err (InvalidBoolean value)
  end.

Definition read_session_id {t : target} (r : Reader) : result (rstr * Reader) ProtocolError :=
  let? '(value, r) := read_string r "session_id" MAX_IDENTIFIER_BYTES false in
  let? id := map_err (fun _ => InvalidIdentifier) (identifier_new IdSession value) in Ok (id, r).
Definition read_stream_id {t : target} (r : Reader) : result (rstr * Reader) ProtocolError :=
  let? '(value, r) := read_string r "stream_id" MAX_IDENTIFIER_BYTES false in
  let? id := map_err (fun _ => InvalidIdentifier) (identifier_new IdStream value) in Ok (id, r).
Definition read_device_id {t : target} (r : Reader) : result (rstr * Reader) ProtocolError :=
  let? '(value, r) := read_string r "device_id" MAX_IDENTIFIER_BYTES false in
  let? id := map_err (fun _ => InvalidIdentifier) (identifier_new IdDevice value) in Ok (id, r).

Definition finish (r : Reader) : result unit ProtocolError :=
  if remaining r =? 0 then Ok tt else Err TrailingBytes.

Definition decode_stream_start {t : target} (input : Reader) : result (StreamStart * Reader) ProtocolError :=
  let? '(session_id, input) := read_session_id input in
  let? '(stream_id, input) := read_stream_id input in
  let? '(host_start_time_ms, input) := read_u64 input in
  let? '(sample_rate, input) := read_u32 input in
  let? '(channels, input) := read_u16 input in
  let? '(samples_per_packet, input) := read_u32 input in
  let? '(current_entry_id, input) :=
    read_optional_string input "current_entry_id" MAX_IDENTIFIER_BYTES false in
  let? '(current_display_name, input) :=
    read_optional_string input "current_display_name" MAX_DISPLAY_NAME_BYTES false in
  Ok (mkStreamStart session_id stream_id host_start_time_ms sample_rate channels
        samples_per_packet current_entry_id current_display_name, input).

(** The [match kind] of [decode_control], before the final [finish]. *)
Definition decode_control_body {t : target} (kind : MessageKind) (input : Reader)
  : result (ControlMessage * Reader) ProtocolError :=
  match kind with
  | KHello =>
      let? '(session_id, input) := read_session_id input in
      let? '(session_name, input) := read_string input "session_name" MAX_SESSION_NAME_BYTES false in
      let? '(host_name, input) := read_string input "host_name" MAX_DISPLAY_NAME_BYTES false in
      let? '(approval_required, input) := read_bool input in
      Ok (CHello (mkHello session_id session_name host_name approval_required), input)
  | KJoinRequest =>
      let? '(session_id, input) := read_session_id input in
      let? '(device_id, input) := read_device_id input in
      let? '(display_name, input) := read_string input "display_name" MAX_DISPLAY_NAME_BYTES false in
      let? '(invite_code, input) :=
        read_optional_string input "invite_code" MAX_INVITE_CODE_BYTES true in
      let? '(sync_port, input) := read_u16 input in
      let? '(audio_port, input) := read_u16 input in
      Ok (CJoinRequest (mkJoinRequest session_id (mkDeviceIdentity device_id display_name)
            invite_code sync_port audio_port), input)
  | KJoinApproval =>
      let? '(session_id, input) := read_session_id input in
      let? '(listener_id, input) := read_device_id input in
      let? '(trusted_for_future, input) := read_bool input in
      Ok (CJoinApproval (mkJoinApproval session_id listener_id trusted_for_future), input)
  | KJoinRejection =>
      let? '(session_id, input) := read_session_id input in
      let? '(listener_id, input) := read_device_id input in
      let? '(reason, input) := read_string input "reason" MAX_REASON_BYTES false in
      Ok (CJoinRejection (mkJoinRejection session_id listener_id reason), input)
  | KHeartbeat =>
      let? '(session_id, input) := read_session_id input in
      let? '(listener_id, input) := read_device_id input in
      let? '(sent_at_elapsed_ms, input) := read_u64 input in
      Ok (CHeartbeat (mkHeartbeat session_id listener_id sent_at_elapsed_ms), input)
  | KStreamStart =>
      let? '(value, input) := decode_stream_start input in
      Ok (CStreamStart value, input)
  | KTrackBoundary =>
      let? '(session_id, input) := read_session_id input in
      let? '(stream_id, input) := read_stream_id input in
      let? '(first_sample_index, input) := read_u64 input in
      let? '(entry_id, input) := read_string input "entry_id" MAX_IDENTIFIER_BYTES false in
      let? '(display_name, input) := read_string input "display_name" MAX_DISPLAY_NAME_BYTES false in
      Ok (CTrackBoundary (mkTrackBoundary session_id stream_id first_sample_index entry_id
            display_name), input)
  | KPause =>
      let? '(session_id, input) := read_session_id input in
      let? '(stream_id, input) := read_stream_id input in
      let? '(host_pause_time_ms, input) := read_u64 input in
      Ok (CPause (mkPause session_id stream_id host_pause_time_ms), input)
  | KStop =>
      let? '(session_id, input) := read_session_id input in
      let? '(stream_id, input) := read_stream_id input in
      let? '(host_stop_time_ms, input) := read_u64 input in
      Ok (CStop (mkStop session_id stream_id host_stop_time_ms), input)
  | KDisconnect =>
      let? '(session_id, input) := read_session_id input in
      let? '(listener_id, input) := read_device_id input in
      let? '(reason, input) := read_string input "reason" MAX_REASON_BYTES false in
      Ok (CDisconnect (mkDisconnect session_id listener_id reason), input)
  | KResyncNotice =>
      let? '(session_id, input) := read_session_id input in
      let? '(listener_id, input) := read_device_id input in
      let? '(reason, input) := read_string input "reason" MAX_REASON_BYTES false in
      Ok (CResyncNotice (mkResyncNotice session_id listener_id reason), input)
  | KSynchronizationReport =>
      let? '(session_id, input) := read_session_id input in
      let? '(listener_id, input) := read_device_id input in
      let? '(name, input) :=
        read_string input "confidence" MAX_SYNC_CONFIDENCE_WIRE_NAME_BYTES false in
      let? confidence := map_err (fun _ => InvalidField "confidence") (from_wire_name name) in
      let? '(offset_ms, input) := read_f64 input in
      let? '(round_trip_ms, input) := read_f64 input in
      let? '(drift_ppm, input) := read_f64 input in
      Ok (CSynchronizationReport (mkSynchronizationReport session_id listener_id confidence
            offset_ms round_trip_ms drift_ppm), input)
  | _ => Err (UnsupportedMessageKind (kind_code kind))
  end.

Definition decode_control {t : target} (kind : MessageKind) (payload : list Z)
  : result ControlMessage ProtocolError :=
  let? '(message, input) := decode_control_body kind (Reader_new payload) in
  let? _ := finish input in
  Ok message.

Definition decode_sync_request {t : target} (payload : list Z) : result SyncRequest ProtocolError :=
  let input := Reader_new payload in
  let? '(session_id, input) := read_session_id input in
  let? '(correlation_id, input) := read_u64 input in
  let? '(t1, input) := read_u64 input in
  let? _ := finish input in
  Ok (mkSyncRequest session_id correlation_id t1).

Definition decode_sync_response {t : target} (payload : list Z) : result SyncResponse ProtocolError :=
  let input := Reader_new payload in
  let? '(session_id, input) := read_session_id input in
  let? '(correlation_id, input) := read_u64 input in
  let? '(t1, input) := read_u64 input in
  let? '(t2, input) := read_u64 input in
  let? '(t3, input) := read_u64 input in
  let? _ := finish input in
  if t3 <? t2 then Err (InvalidField "host_timestamp_order")
  else Ok (mkSyncResponse session_id correlation_id t1 t2 t3).

Definition decode_audio {t : target} (payload : list Z) : result AudioDatagram ProtocolError :=
  let input := Reader_new payload in
  let? '(session_id, input) := read_session_id input in
  let? '(stream_id, input) := read_stream_id input in
  let? '(sequence, input) := read_u64 input in
  let? '(codec_code, input) := read_u8 input in
  let? codec := map_err UnsupportedAudioCodec (codec_try_from codec_code) in
  let? '(sample_rate, input) := read_u32 input in
  let? '(channels, input) := read_u16 input in
  let? '(samples_per_packet, input) := read_u32 input in
  let? '(first_sample_index, input) := read_u64 input in
  let? '(host_presentation_time_ms, input) := read_u64 input in
  let? '(declared_payload_length, input) := read_u16 input in
  let? '(checksum, input) := read_u32 input in
  if remaining input <? declared_payload_length then
    Err (LengthMismatch declared_payload_length (remaining input))
  else if declared_payload_length <? remaining input then Err TrailingBytes
  else
    let? '(payload_bytes, input) := take input declared_payload_length in
    if negb (crc32 payload_bytes =? checksum) then Err IntegrityMismatch
    else
      let? _ := finish input in
      let value := mkAudioDatagram session_id stream_id sequence codec sample_rate channels
                     samples_per_packet first_sample_index host_presentation_time_ms
                     payload_bytes in
      let? _ := validate_audio_parameters value in
      Ok value.

Definition decode_header {t : target} (bytes : list Z) : result FrameHeader ProtocolError :=
  if len bytes <? FRAME_HEADER_BYTES then Err Truncated
  else
    let input := Reader_new (firstn (Z.to_nat FRAME_HEADER_BYTES) bytes) in
    let? '(magic, input) := take input (len PROTOCOL_MAGIC) in
    if negb (bool_decide (magic = PROTOCOL_MAGIC)) then Err InvalidMagic
    else
      let? '(version, input) := read_u16 input in
      if negb (version =? PROTOCOL_VERSION) then Err (UnsupportedVersion version)
      else
        let? '(kind_code, input) := read_u16 input in
        let? kind := map_err UnsupportedMessageKind (kind_try_from kind_code) in
        let? '(flags, input) := read_u16 input in
        if negb (Z.land flags (Z.lxor u16_max SUPPORTED_FRAME_FLAGS) =? 0) then
          Err (UnsupportedFlags flags)
        else
          let expected_flags := if bool_decide (kind = KAudio) then FLAG_PAYLOAD_INTEGRITY else 0 in
          if negb (flags =? expected_flags) then Err (UnsupportedFlags flags)
          else
            let? '(header_length, input) := read_u16 input in
            if negb (header_length =? FRAME_HEADER_BYTES) then Err (InvalidHeaderLength header_length)
            else
              let? '(payload_length, input) := read_u32 input in
              let? _ := finish input in
              let maximum := maximum_payload_bytes kind in
              if usize_max <? payload_length then Err (PayloadTooLarge usize_max maximum)
              else if maximum <? payload_length then Err (PayloadTooLarge payload_length maximum)
              else Ok (mkFrameHeader version kind flags header_length payload_length).

Definition decode_frame {t : target} (bytes : list Z) : result ProtocolFrame ProtocolError :=
  let? header := decode_header bytes in
  let kind := header.(header_kind) in
  let payload_length := header.(header_payload_length) in
  if usize_max <? payload_length then Err (PayloadTooLarge usize_max (maximum_payload_bytes kind))
  else
    let? expected_total :=
      ok_or (checked_add usize_max FRAME_HEADER_BYTES payload_length)
        (PayloadTooLarge usize_max (maximum_payload_bytes kind)) in
    if len bytes <? expected_total then
      Err (LengthMismatch payload_length (saturating_sub (len bytes) FRAME_HEADER_BYTES))
    else if expected_total <? len bytes then Err TrailingBytes
    else
      let payload := skipn (Z.to_nat FRAME_HEADER_BYTES) bytes in
      if is_control_kind kind then map_ok FControl (decode_control kind payload)
      else match kind with
      | KSyncRequest => map_ok FSyncRequest (decode_sync_request payload)
      | KSyncResponse => map_ok FSyncResponse (decode_sync_response payload)
      | KAudio => map_ok FAudio (decode_audio payload)
      | kind => Err (UnsupportedMessageKind (kind_code kind))
      end.

(** [ProtocolDecoder::decode]: the decoder's counters are its whole state. *)
Definition decoder_decode {t : target} (counters : ProtocolDiagnosticCounters) (bytes : list Z)
  (policy : DecodePolicy) : result ProtocolFrame ProtocolError * ProtocolDiagnosticCounters :=
  let outcome :=
    let? frame := decode_frame bytes in
    if match policy.(expected_session_id) with
       | Some expected => negb (bool_decide (frame_session_id frame = expected))
       | None => false
       end then Err UnauthorizedSession
    else if match frame, policy.(minimum_audio_sequence) with
            | FAudio audio, Some minimum => audio.(audio_sequence) <? minimum
            | _, _ => false
            end then Err StaleAudioSequence
    else Ok frame in
  match outcome with
  | Ok _ => (outcome, counters)
  | Err error => (outcome, counters_record counters (classification error))
  end.
