(* ===== verification/CodecProofs.v ===== *)
(** Correctness of the frame codec: every field codec has a forward law (what
    an encoder wrote, the reader reads back) and a backward law (what a reader
    accepted, the encoder writes again). The message theorems chain them. *)
From Stdlib Require Import ZArith Lia Strings.String.
From stdpp Require Import numbers list prelude.
From S2P Require Import Prelude Utf8 Domain ProtocolTypes Crc32 Codec.

Section Laws.
Context {t : target}.

(** [r] stands in front of the unread bytes [v]. *)
Definition reads_from (r : Reader) (v : list Z) : Prop :=
  exists pre, r.(reader_bytes) = pre ++ v /\ r.(reader_position) = len pre
              /\ len r.(reader_bytes) <= usize_max.

(** The forward law of one field: [bs] is read back as [v]. *)
Definition parses {A : Type} (get : Reader -> result (A * Reader) ProtocolError) (v : A)
  (bs : list Z) : Prop :=
  forall r rest, reads_from r (bs ++ rest) ->
  exists r', get r = Ok (v, r') /\ reads_from r' rest.

Lemma reads_from_new (v : list Z) : len v <= usize_max -> reads_from (Reader_new v) v.
Proof. intros H. by exists []. Qed.

Lemma take_parses (x : list Z) (n : Z) : len x = n -> parses (fun r => take r n) x x.
Proof.
  intros Hn r rest (pre & Hb & Hp & Hu). exists (mkReader r.(reader_bytes) (len (pre ++ x))).
  unfold take. rewrite Hp, Hb. rewrite Hb in Hu. rewrite !len_app in Hu.
  pose proof (len_nonneg pre). pose proof (len_nonneg x). pose proof (len_nonneg rest).
  unfold checked_add. rewrite (proj2 (Z.leb_le _ _)) by lia. cbn [ok_or].
  rewrite (proj2 (Z.ltb_ge _ _)) by (rewrite !len_app; lia). split.
  - do 2 f_equal; [|f_equal; rewrite len_app; lia].
    unfold len in *. rewrite Nat2Z.id. rewrite drop_app_length. subst n.
    rewrite Nat2Z.id. apply take_app_length.
  - exists (pre ++ x). cbn [reader_bytes reader_position]. rewrite app_assoc.
    repeat split. rewrite !len_app. lia.
Qed.

Lemma take_inv (r r' : Reader) (v x : list Z) (n : Z) :
  0 <= n -> reads_from r v -> take r n = Ok (x, r') ->
  exists rest, v = x ++ rest /\ len x = n /\ reads_from r' rest.
Proof.
  intros Hn (pre & Hb & Hp & Hu). unfold take, checked_add. rewrite Hp.
  destruct (len pre + n <=? usize_max) eqn:E1; [|done]. cbn [ok_or].
  destruct (len r.(reader_bytes) <? len pre + n) eqn:E2; [done|]. intros [= <- <-].
  to_prop. rewrite Hb in E2 |- *. rewrite len_app in E2.
  assert (Z.to_nat (len pre) = length pre) as -> by (unfold len; lia).
  rewrite drop_app_length. exists (drop (Z.to_nat n) v). rewrite take_drop.
  assert (len (firstn (Z.to_nat n) v) = n) as Hlen.
  { unfold len in *. rewrite length_take. lia. }
  repeat split; [done|]. exists (pre ++ firstn (Z.to_nat n) v).
  cbn [reader_bytes reader_position].
  rewrite <- app_assoc, take_drop, len_app, Hlen. repeat split; congruence.
Qed.

Lemma Forall_u8_app (a b : list Z) : Forall is_u8 (a ++ b) -> Forall is_u8 a /\ Forall is_u8 b.
Proof. apply Forall_app. Qed.

(** ** Fixed-width fields *)

Lemma read_be_parses (n : nat) (get : Reader -> result (Z * Reader) ProtocolError) (v : Z) :
  (forall r, get r = let? '(bytes, r) := take r (Z.of_nat n) in Ok (from_be_bytes bytes, r)) ->
  is_uint (8 * Z.of_nat n) v -> parses get v (be_bytes n v).
Proof.
  intros Hget Hv r rest Hr.
  destruct (take_parses (be_bytes n v) (Z.of_nat n) (len_be_bytes n v) r rest Hr) as (r' & Ht & Hr').
  exists r'. rewrite Hget, Ht. cbn beta iota. by rewrite from_be_be_bytes_small.
Qed.

Lemma read_be_inv (n : nat) (get : Reader -> result (Z * Reader) ProtocolError) (r r' : Reader)
  (v : list Z) (x : Z) :
  (forall r, get r = let? '(bytes, r) := take r (Z.of_nat n) in Ok (from_be_bytes bytes, r)) ->
  reads_from r v -> Forall is_u8 v -> get r = Ok (x, r') ->
  exists rest, v = be_bytes n x ++ rest /\ is_uint (8 * Z.of_nat n) x /\ reads_from r' rest
               /\ Forall is_u8 rest.
Proof.
  intros Hget Hr Hu. rewrite Hget. destruct (take r (Z.of_nat n)) as [[bs r0]|] eqn:Ht; [|done].
  intros [= <- <-]. apply (take_inv r r0 v bs) in Ht as (rest & -> & Hl & Hr0); [|lia|done].
  apply Forall_u8_app in Hu as [Hub Hurest].
  exists rest. split; [|split; [|done]].
  - assert (n = length bs) as -> by (unfold len in Hl; lia). by rewrite be_bytes_from_be.
  - apply from_be_range in Hub. by rewrite Hl in Hub.
Qed.

Lemma read_u16_parses (v : Z) : is_u16 v -> parses read_u16 v (be_bytes 2 v).
Proof. by apply (read_be_parses 2). Qed.
Lemma read_u32_parses (v : Z) : is_u32 v -> parses read_u32 v (be_bytes 4 v).
Proof. by apply (read_be_parses 4). Qed.
Lemma read_u64_parses (v : Z) : is_u64 v -> parses read_u64 v (be_bytes 8 v).
Proof. by apply (read_be_parses 8). Qed.

Lemma read_u16_inv (r r' : Reader) (v : list Z) (x : Z) :
  reads_from r v -> Forall is_u8 v -> read_u16 r = Ok (x, r') ->
  exists rest, v = be_bytes 2 x ++ rest /\ is_u16 x /\ reads_from r' rest /\ Forall is_u8 rest.
Proof. by apply (read_be_inv 2). Qed.
Lemma read_u32_inv (r r' : Reader) (v : list Z) (x : Z) :
  reads_from r v -> Forall is_u8 v -> read_u32 r = Ok (x, r') ->
  exists rest, v = be_bytes 4 x ++ rest /\ is_u32 x /\ reads_from r' rest /\ Forall is_u8 rest.
Proof. by apply (read_be_inv 4). Qed.
Lemma read_u64_inv (r r' : Reader) (v : list Z) (x : Z) :
  reads_from r v -> Forall is_u8 v -> read_u64 r = Ok (x, r') ->
  exists rest, v = be_bytes 8 x ++ rest /\ is_u64 x /\ reads_from r' rest /\ Forall is_u8 rest.
Proof. by apply (read_be_inv 8). Qed.

Lemma read_u8_parses (v : Z) : parses read_u8 v [v].
Proof.
  intros r rest Hr. destruct (take_parses [v] 1 eq_refl r rest Hr) as (r' & Ht & Hr').
  exists r'. unfold read_u8. by rewrite Ht.
Qed.

Lemma read_u8_inv (r r' : Reader) (v : list Z) (x : Z) :
  reads_from r v -> Forall is_u8 v -> read_u8 r = Ok (x, r') ->
  exists rest, v = [x] ++ rest /\ is_u8 x /\ reads_from r' rest /\ Forall is_u8 rest.
Proof.
  intros Hr Hu. unfold read_u8. destruct (take r 1) as [[bs r0]|] eqn:Ht; [|done].
  intros [= <- <-]. apply (take_inv r r0 v bs) in Ht as (rest & -> & Hl & Hr0); [|lia|done].
  apply Forall_u8_app in Hu as [Hub Hurest].
  destruct bs as [|b [|]]; unfold len in Hl; simpl in Hl; [lia| |lia].
  exists rest. inversion_clear Hub. split_and!; done.
Qed.

Lemma read_bool_parses (b : bool) : parses read_bool b [if b then 1 else 0].
Proof.
  intros r rest Hr. destruct (read_u8_parses _ r rest Hr) as (r' & Hg & Hr').
  exists r'. unfold read_bool. rewrite Hg. by destruct b.
Qed.

Lemma read_bool_inv (r r' : Reader) (v : list Z) (b : bool) :
  reads_from r v -> Forall is_u8 v -> read_bool r = Ok (b, r') ->
  exists rest, v = [if b then 1 else 0] ++ rest /\ reads_from r' rest /\ Forall is_u8 rest.
Proof.
  intros Hr Hu. unfold read_bool. destruct (read_u8 r) as [[x r0]|] eqn:Hg; [|done].
  apply (read_u8_inv r r0 v x) in Hg as (rest & -> & Hx & Hr0 & Hurest); [|done..].
  destruct x as [|[p|p|]|p]; intros [= <- <-]; eauto.
Qed.

(** ** Text fields *)

Lemma validate_text_ok (field : string) (v : rstr) (max : Z) (secret : bool) (u : unit) :
  validate_text field v max secret = Ok u ->
  trim v <> [] /\ trim v = v /\ str_len v <= max /\ existsb is_control v = false.
Proof.
  unfold validate_text. repeat case_bool_decide; simpl; try done.
  destruct (max <? str_len v) eqn:E1; simpl; [done|].
  destruct (existsb is_control v) eqn:E2; [done|]. to_prop. intros _. split_and!; done.
Qed.

Lemma read_string_parses (field : string) (v : rstr) (max : Z) (secret : bool) :
  wf_str v -> max <= u16_max -> validate_text field v max secret = Ok tt ->
  parses (fun r => read_string r field max secret) v
    (be_bytes 2 (str_len v) ++ as_bytes v).
Proof.
  intros Hwf Hmax Hv r rest Hr. rewrite <- app_assoc in Hr.
  pose proof (validate_text_ok _ _ _ _ _ Hv) as (_ & _ & Hlen & _).
  pose proof (len_nonneg (as_bytes v)) as Hnn. fold (str_len v) in Hnn.
  destruct (read_u16_parses (str_len v)) with (r := r) (rest := as_bytes v ++ rest)
    as (r1 & Hg1 & Hr1); [unfold is_u16, is_uint, u16_max in *; lia|done|].
  destruct (take_parses (as_bytes v) (str_len v) eq_refl r1 rest Hr1) as (r2 & Hg2 & Hr2).
  exists r2. unfold read_string. rewrite Hg1. cbn beta iota.
  rewrite (proj2 (Z.ltb_ge _ _)) by lia. rewrite Hg2. cbn beta iota.
  rewrite from_utf8_as_bytes by done. cbn [ok_or]. by rewrite Hv.
Qed.

Lemma put_string_inv (e e' : list Z) (field : string) (v : rstr) (max : Z) (secret : bool) :
  wf_str v -> max <= u16_max -> put_string e field v max secret = Ok e' ->
  exists bs, e' = e ++ bs /\ Forall is_u8 bs
             /\ parses (fun r => read_string r field max secret) v bs
             /\ validate_text field v max secret = Ok tt.
Proof.
  intros Hwf Hmax. unfold put_string.
  destruct (validate_text field v max secret) as [[]|] eqn:Hv; [|done].
  destruct (u16_max <? str_len v) eqn:E; [done|]. intros [= <-].
  exists (be_bytes 2 (str_len v) ++ as_bytes v). unfold put_bytes, put_u16.
  rewrite app_assoc. split_and!; [done| |by apply read_string_parses|done].
  apply Forall_app. auto with rust.
Qed.

Lemma read_string_inv (r r' : Reader) (v : list Z) (field : string) (x : rstr) (max : Z) (secret : bool) :
  reads_from r v -> Forall is_u8 v -> max <= u16_max ->
  read_string r field max secret = Ok (x, r') ->
  exists bs rest, v = bs ++ rest /\ wf_str x /\ reads_from r' rest /\ Forall is_u8 rest
    /\ validate_text field x max secret = Ok tt
    /\ forall e, put_string e field x max secret = Ok (e ++ bs).
Proof.
  intros Hr Hu Hmax. unfold read_string.
  destruct (read_u16 r) as [[n r1]|] eqn:Hg1; [|done].
  apply (read_u16_inv r r1 v n) in Hg1 as (v1 & -> & Hn & Hr1 & Hu1); [|done..].
  destruct (max <? n) eqn:Emax; [done|]. unfold is_u16, is_uint in Hn.
  destruct (take r1 n) as [[bs r2]|] eqn:Hg2; [|done].
  apply (take_inv r1 r2 v1 bs n) in Hg2 as (rest & -> & Hl & Hr2); [|lia|done].
  apply Forall_u8_app in Hu1 as [Hub Hurest].
  destruct (from_utf8 bs) as [s|] eqn:Hs; cbn [ok_or]; [|done].
  apply from_utf8_sound in Hs as [Hbytes Hwf]; [|done].
  destruct (validate_text field s max secret) as [[]|] eqn:Hv; [|done]. intros [= <- <-].
  assert (str_len s = n) as Hsl by (unfold str_len; congruence).
  exists (be_bytes 2 n ++ bs), rest. rewrite app_assoc. split_and!; [done..|].
  intros e. unfold put_string. rewrite Hv, Hsl. to_prop.
  rewrite (proj2 (Z.ltb_ge _ _)) by lia. unfold put_bytes, put_u16.
  by rewrite Hbytes, app_assoc.
Qed.

Lemma put_optional_string_inv (e e' : list Z) (field : string) (v : option rstr) (max : Z)
  (secret : bool) :
  wf_opt_str v -> max <= u16_max -> put_optional_string e field v max secret = Ok e' ->
  exists bs, e' = e ++ bs /\ Forall is_u8 bs
             /\ parses (fun r => read_optional_string r field max secret) v bs.
Proof.
  intros Hwf Hmax. destruct v as [v|]; cbn [put_optional_string].
  - intros H. apply put_string_inv in H as (bs & -> & Hu & Hp & _); [|done..].
    exists (1 :: bs). unfold put_u8. rewrite <- app_assoc. split_and!; [done| |].
    + constructor; [|done]. unfold is_u8, is_uint. lia.
    + intros r rest Hr. destruct (read_u8_parses 1 r (bs ++ rest) Hr) as (r1 & Hg1 & Hr1).
      destruct (Hp r1 rest Hr1) as (r2 & Hg2 & Hr2). exists r2.
      unfold read_optional_string. rewrite Hg1. cbn beta iota. by rewrite Hg2.
  - intros [= <-]. exists [0]. split_and!; [done| |].
    + constructor; [|done]. unfold is_u8, is_uint. lia.
    + intros r rest Hr. destruct (read_u8_parses 0 r rest Hr) as (r1 & Hg1 & Hr1).
      exists r1. unfold read_optional_string. by rewrite Hg1.
Qed.

Lemma read_optional_string_inv (r r' : Reader) (v : list Z) (field : string) (x : option rstr)
  (max : Z) (secret : bool) :
  reads_from r v -> Forall is_u8 v -> max <= u16_max ->
  read_optional_string r field max secret = Ok (x, r') ->
  exists bs rest, v = bs ++ rest /\ wf_opt_str x /\ reads_from r' rest /\ Forall is_u8 rest
    /\ forall e, put_optional_string e field x max secret = Ok (e ++ bs).
Proof.
  intros Hr Hu Hmax. unfold read_optional_string.
  destruct (read_u8 r) as [[tag r1]|] eqn:Hg1; [|done].
  apply (read_u8_inv r r1 v tag) in Hg1 as (v1 & -> & Hn & Hr1 & Hu1); [|done..].
  destruct tag as [|[p|p|]|p]; try done.
  - intros [= <- <-]. exists [0], v1. by split_and!.
  - destruct (read_string r1 field max secret) as [[s r2]|] eqn:Hg2; [|done].
    intros [= <- <-].
    apply (read_string_inv r1 r2 v1) in Hg2 as (bs & rest & -> & Hwf & Hr2 & Hurest & _ & Hput);
      [|done..].
    exists (1 :: bs), rest. split_and!; [done..|]. intros e. cbn [put_optional_string].
    rewrite Hput. unfold put_u8. by rewrite <- app_assoc.
Qed.

(** ** Identifiers: text validation implies identifier validity *)

Lemma identifier_of_text (field : string) (kind : IdentifierKind) (v : rstr) :
  validate_text field v MAX_IDENTIFIER_BYTES false = Ok tt -> identifier_new kind v = Ok v.
Proof.
  intros Hv. apply validate_text_ok in Hv as (Hne & Htrim & Hlen & Hctl).
  unfold identifier_new. assert (validate_identifier kind v = Ok tt) as ->; [|done].
  by apply validate_identifier_ok.
Qed.

(** What the three identifier fields have in common. *)
Lemma put_id_inv (e e' : list Z) (field : string) (kind : IdentifierKind) (v : rstr)
  (get : Reader -> result (rstr * Reader) ProtocolError) :
  (forall r, get r = let? '(value, r) := read_string r field MAX_IDENTIFIER_BYTES false in
     let? id := map_err (fun _ => InvalidIdentifier) (identifier_new kind value) in Ok (id, r)) ->
  wf_str v -> put_string e field v MAX_IDENTIFIER_BYTES false = Ok e' ->
  exists bs, e' = e ++ bs /\ Forall is_u8 bs /\ parses get v bs.
Proof.
  intros Hget Hwf H. apply put_string_inv in H as (bs & -> & Hu & Hp & Hv); [|done..].
  exists bs. split_and!; [done..|]. intros r rest Hr.
  destruct (Hp r rest Hr) as (r1 & Hg & Hr1). exists r1. rewrite Hget, Hg. cbn beta iota.
  by rewrite (identifier_of_text field kind v Hv).
Qed.

Lemma read_id_inv (r r' : Reader) (v : list Z) (field : string) (kind : IdentifierKind) (x : rstr)
  (get : Reader -> result (rstr * Reader) ProtocolError) :
  (forall r, get r = let? '(value, r) := read_string r field MAX_IDENTIFIER_BYTES false in
     let? id := map_err (fun _ => InvalidIdentifier) (identifier_new kind value) in Ok (id, r)) ->
  reads_from r v -> Forall is_u8 v -> get r = Ok (x, r') ->
  exists bs rest, v = bs ++ rest /\ wf_str x /\ reads_from r' rest /\ Forall is_u8 rest
    /\ forall e, put_string e field x MAX_IDENTIFIER_BYTES false = Ok (e ++ bs).
Proof.
  intros Hget Hr Hu. rewrite Hget.
  destruct (read_string r field MAX_IDENTIFIER_BYTES false) as [[s r1]|] eqn:Hg; [|done].
  apply (read_string_inv r r1 v) in Hg as (bs & rest & -> & Hwf & Hr1 & Hur & Hv & Hput); [|done..].
  rewrite (identifier_of_text field kind s Hv). intros [= <- <-]. exists bs, rest. by split_and!.
Qed.

Lemma put_session_id_inv (e e' : list Z) (v : rstr) :
  wf_str v -> put_session_id e v = Ok e' ->
  exists bs, e' = e ++ bs /\ Forall is_u8 bs /\ parses read_session_id v bs.
Proof. by apply (put_id_inv e e' "session_id" IdSession). Qed.

Lemma read_session_id_inv (r r' : Reader) (v : list Z) (x : rstr) :
  reads_from r v -> Forall is_u8 v -> read_session_id r = Ok (x, r') ->
  exists bs rest, v = bs ++ rest /\ wf_str x /\ reads_from r' rest /\ Forall is_u8 rest
    /\ forall e, put_session_id e x = Ok (e ++ bs).
Proof. by apply (read_id_inv r r' v "session_id" IdSession x). Qed.

Lemma put_stream_id_inv (e e' : list Z) (v : rstr) :
  wf_str v -> put_stream_id e v = Ok e' ->
  exists bs, e' = e ++ bs /\ Forall is_u8 bs /\ parses read_stream_id v bs.
Proof. by apply (put_id_inv e e' "stream_id" IdStream). Qed.

Lemma read_stream_id_inv (r r' : Reader) (v : list Z) (x : rstr) :
  reads_from r v -> Forall is_u8 v -> read_stream_id r = Ok (x, r') ->
  exists bs rest, v = bs ++ rest /\ wf_str x /\ reads_from r' rest /\ Forall is_u8 rest
    /\ forall e, put_stream_id e x = Ok (e ++ bs).
Proof. by apply (read_id_inv r r' v "stream_id" IdStream x). Qed.

Lemma put_device_id_inv (e e' : list Z) (v : rstr) :
  wf_str v -> put_device_id e v = Ok e' ->
  exists bs, e' = e ++ bs /\ Forall is_u8 bs /\ parses read_device_id v bs.
Proof. by apply (put_id_inv e e' "device_id" IdDevice). Qed.

Lemma read_device_id_inv (r r' : Reader) (v : list Z) (x : rstr) :
  reads_from r v -> Forall is_u8 v -> read_device_id r = Ok (x, r') ->
  exists bs rest, v = bs ++ rest /\ wf_str x /\ reads_from r' rest /\ Forall is_u8 rest
    /\ forall e, put_device_id e x = Ok (e ++ bs).
Proof. by apply (read_id_inv r r' v "device_id" IdDevice x). Qed.

Lemma finish_ok (r : Reader) : reads_from r [] -> finish r = Ok tt.
Proof.
  intros (pre & Hb & Hp & _). unfold finish, remaining, saturating_sub.
  rewrite Hp, Hb, app_nil_r, Z.sub_diag. done.
Qed.

Lemma finish_inv (r : Reader) (v : list Z) (u : unit) :
  reads_from r v -> finish r = Ok u -> v = [].
Proof.
  intros (pre & Hb & Hp & _). unfold finish, remaining, saturating_sub. rewrite Hp, Hb, len_app.
  destruct (Z.max _ _ =? 0) eqn:E; [|done]. to_prop. intros _. apply len_zero.
  pose proof (len_nonneg v). lia.
Qed.

Lemma remaining_reads_from (r : Reader) (v : list Z) : reads_from r v -> remaining r = len v.
Proof.
  intros (pre & Hb & Hp & _). unfold remaining, saturating_sub.
  rewrite Hb, Hp, len_app. pose proof (len_nonneg v). lia.
Qed.

Lemma wf_wire_name (c : SyncConfidence) : wf_str (wire_name c).
Proof. destruct c; apply wf_str_lit. Qed.
End Laws.

(** ** Chaining the laws through a message *)

(** Consumes one [put] of an encoder run recorded in [H]. *)
Ltac step_put H :=
  let Hp := fresh "Hput" in
  match type of H with
  | context [match put_session_id ?e ?v with _ => _ end] =>
      destruct (put_session_id e v) eqn:Hp; [|discriminate H];
      apply put_session_id_inv in Hp as (? & -> & ? & ?); [|assumption]
  | context [match put_stream_id ?e ?v with _ => _ end] =>
      destruct (put_stream_id e v) eqn:Hp; [|discriminate H];
      apply put_stream_id_inv in Hp as (? & -> & ? & ?); [|assumption]
  | context [match put_device_id ?e ?v with _ => _ end] =>
      destruct (put_device_id e v) eqn:Hp; [|discriminate H];
      apply put_device_id_inv in Hp as (? & -> & ? & ?); [|assumption]
  | context [match put_string ?e ?f ?v ?m ?s with _ => _ end] =>
      destruct (put_string e f v m s) eqn:Hp; [|discriminate H];
      apply put_string_inv in Hp as (? & -> & ? & ? & _); [|first [assumption|apply wf_wire_name]|done]
  | context [match put_optional_string ?e ?f ?v ?m ?s with _ => _ end] =>
      destruct (put_optional_string e f v m s) eqn:Hp; [|discriminate H];
      apply put_optional_string_inv in Hp as (? & -> & ? & ?); [|assumption|done]
  | put_string ?e ?f ?v ?m ?s = _ =>
      apply put_string_inv in H as (? & -> & ? & ? & _); [|assumption|done]
  | put_optional_string ?e ?f ?v ?m ?s = _ =>
      apply put_optional_string_inv in H as (? & -> & ? & ?); [|assumption|done]
  | Ok _ = Ok _ => injection H as <-
  end.

(** Runs one [get] against the bytes in front of the reader. *)
Ltac step_get :=
  match goal with
  | Hr : reads_from ?r (be_bytes 2 ?x ++ ?rest) |- _ =>
      let Hg := fresh "Hget" in let Hr' := fresh "Hr" in
      destruct (read_u16_parses x ltac:(assumption) r rest Hr) as (? & Hg & Hr'); clear Hr
  | Hr : reads_from ?r (be_bytes 4 ?x ++ ?rest) |- _ =>
      let Hg := fresh "Hget" in let Hr' := fresh "Hr" in
      destruct (read_u32_parses x ltac:(assumption) r rest Hr) as (? & Hg & Hr'); clear Hr
  | Hr : reads_from ?r (be_bytes 8 ?x ++ ?rest) |- _ =>
      let Hg := fresh "Hget" in let Hr' := fresh "Hr" in
      destruct (read_u64_parses x ltac:(assumption) r rest Hr) as (? & Hg & Hr'); clear Hr
  | Hr : reads_from ?r ([if ?b then 1 else 0] ++ ?rest) |- _ =>
      let Hg := fresh "Hget" in let Hr' := fresh "Hr" in
      destruct (read_bool_parses b r rest Hr) as (? & Hg & Hr'); clear Hr
  | Hr : reads_from ?r (?bs ++ ?rest), Hp : parses _ _ ?bs |- _ =>
      let Hg := fresh "Hget" in let Hr' := fresh "Hr" in
      destruct (Hp r rest Hr) as (? & Hg & Hr'); cbn beta in Hg; clear Hr
  end.

(** Places a reader in front of a whole payload, the fields nested to the right. *)
Ltac start_get Hlen :=
  let Hr := fresh "Hr" in
  pose proof (reads_from_new _ Hlen) as Hr;
  match type of Hr with reads_from ?r ?v =>
    let r0 := fresh "r" in
    set (r0 := r) in *; clearbody r0; rewrite <- (app_nil_r v) in Hr
  end; rewrite <- ?app_assoc in Hr; rewrite ?app_nil_l in Hr.

Ltac run_get := match goal with Hg : _ = Ok (_, _) |- _ => rewrite Hg; clear Hg; cbn beta iota;
    rewrite ?from_wire_name_wire_name; cbn beta iota delta [map_err] end.

Ltac finish_get :=
  match goal with Hr : reads_from ?r [] |- _ => rewrite (finish_ok r Hr); cbn beta iota end;
  try reflexivity.

(** Every byte of a concatenation of encoded fields is a [u8]. *)
Ltac u8_app :=
  repeat first [ assumption | apply be_bytes_u8 | apply Forall_nil_2
               | apply Forall_app; split | apply Forall_cons; split ];
  unfold is_u8, is_uint; repeat split_match; simpl; lia.

(** Inverts one [get] of a decoder run recorded in [H], using the facts about
    the bytes in front of its reader. *)
Ltac step_read H :=
  let Hg := fresh "Hg" in
  match goal with
  | Hr : reads_from ?r ?v, Hu : Forall is_u8 ?v |- _ =>
  match type of H with
  | context [match read_session_id r with _ => _ end] =>
      destruct (read_session_id r) as [[? ?]|] eqn:Hg; [|discriminate H];
      apply (read_session_id_inv _ _ _ _ Hr Hu) in Hg as (? & ? & -> & ? & ? & ? & ?)
  | context [match read_stream_id r with _ => _ end] =>
      destruct (read_stream_id r) as [[? ?]|] eqn:Hg; [|discriminate H];
      apply (read_stream_id_inv _ _ _ _ Hr Hu) in Hg as (? & ? & -> & ? & ? & ? & ?)
  | context [match read_device_id r with _ => _ end] =>
      destruct (read_device_id r) as [[? ?]|] eqn:Hg; [|discriminate H];
      apply (read_device_id_inv _ _ _ _ Hr Hu) in Hg as (? & ? & -> & ? & ? & ? & ?)
  | context [match read_string r ?f ?m ?s with _ => _ end] =>
      destruct (read_string r f m s) as [[? ?]|] eqn:Hg; [|discriminate H];
      apply (read_string_inv _ _ _ _ _ _ _ Hr Hu) in Hg as (? & ? & -> & ? & ? & ? & _ & ?); [|done]
  | context [match read_optional_string r ?f ?m ?s with _ => _ end] =>
      destruct (read_optional_string r f m s) as [[? ?]|] eqn:Hg; [|discriminate H];
      apply (read_optional_string_inv _ _ _ _ _ _ _ Hr Hu) in Hg
        as (? & ? & -> & ? & ? & ? & ?); [|done]
  | context [match read_u8 r with _ => _ end] =>
      destruct (read_u8 r) as [[? ?]|] eqn:Hg; [|discriminate H];
      apply (read_u8_inv _ _ _ _ Hr Hu) in Hg as (? & -> & ? & ? & ?)
  | context [match read_u16 r with _ => _ end] =>
      destruct (read_u16 r) as [[? ?]|] eqn:Hg; [|discriminate H];
      apply (read_u16_inv _ _ _ _ Hr Hu) in Hg as (? & -> & ? & ? & ?)
  | context [match read_u32 r with _ => _ end] =>
      destruct (read_u32 r) as [[? ?]|] eqn:Hg; [|discriminate H];
      apply (read_u32_inv _ _ _ _ Hr Hu) in Hg as (? & -> & ? & ? & ?)
  | context [match read_u64 r with _ => _ end] =>
      destruct (read_u64 r) as [[? ?]|] eqn:Hg; [|discriminate H];
      apply (read_u64_inv _ _ _ _ Hr Hu) in Hg as (? & -> & ? & ? & ?)
  | context [match read_bool r with _ => _ end] =>
      destruct (read_bool r) as [[? ?]|] eqn:Hg; [|discriminate H];
      apply (read_bool_inv _ _ _ _ Hr Hu) in Hg as (? & -> & ? & ?)
  | context [match finish r with _ => _ end] =>
      destruct (finish r) as [[]|] eqn:Hg; [|discriminate H];
      apply (finish_inv _ _ _ Hr) in Hg; subst
  | context [match map_err _ (from_wire_name ?n) with _ => _ end] =>
      destruct (from_wire_name n) eqn:Hg; cbn [map_err] in H; [|discriminate H];
      apply from_wire_name_sound in Hg; subst
  end; cbn beta iota in H
  end.

(** Replays the encoder on the decoded value. *)
Ltac replay_puts :=
  repeat match goal with Hput : forall e, _ = Ok (e ++ _) |- _ => rewrite Hput; clear Hput end;
  unfold put_bool, put_f64, put_u64, put_u32, put_u16, put_u8, put_bytes;
  rewrite ?app_nil_r, <- ?app_assoc; try reflexivity.

Section Messages.
Context {t : target}.

Lemma encode_control_decode (m : ControlMessage) (out : list Z) :
  wf_control m -> encode_control m = Ok out -> len out <= usize_max ->
  decode_control (control_kind m) out = Ok m /\ Forall is_u8 out.
Proof.
  intros Hwf H Hlen. destruct m as [v|v|v|v|v|v|v|v|v|v|v|v]; destruct v;
    cbn [wf_control encode_control control_kind] in *;
    repeat match goal with v : DeviceIdentity |- _ => destruct v end; simpl in Hwf, H;
    destruct_and?; repeat step_put H;
    unfold put_bool, put_f64, put_u64, put_u32, put_u16, put_u8 in *;
    (split; [|u8_app]);
    unfold decode_control, decode_control_body, decode_stream_start, read_f64; start_get Hlen;
    repeat (step_get; run_get); finish_get.
Qed.

Lemma encode_sync_request_decode (v : SyncRequest) (out : list Z) :
  wf_frame (FSyncRequest v) -> encode_sync_request v = Ok out -> len out <= usize_max ->
  decode_sync_request out = Ok v /\ Forall is_u8 out.
Proof.
  intros Hwf H Hlen. destruct v. cbn [wf_frame] in Hwf. unfold encode_sync_request in H.
  simpl in Hwf, H. destruct_and?. repeat step_put H. unfold put_u64 in *.
  split; [|u8_app]. unfold decode_sync_request. start_get Hlen.
  repeat (step_get; run_get). finish_get.
Qed.

Lemma encode_sync_response_decode (v : SyncResponse) (out : list Z) :
  wf_frame (FSyncResponse v) -> encode_sync_response v = Ok out -> len out <= usize_max ->
  decode_sync_response out = Ok v /\ Forall is_u8 out.
Proof.
  intros Hwf H Hlen. destruct v. cbn [wf_frame] in Hwf. unfold encode_sync_response in H.
  simpl in Hwf, H. destruct_and?. destruct (_ <? _) eqn:E in H; [done|].
  repeat step_put H. unfold put_u64 in *. split; [|u8_app].
  unfold decode_sync_response. start_get Hlen. repeat (step_get; run_get). finish_get.
  by rewrite E.
Qed.

(** Everything [encode_audio] writes before the payload is read back, whatever
    payload of the same length follows; only the checksum decides. *)
Lemma encode_audio_prefix (v : AudioDatagram) (out : list Z) :
  wf_audio v -> encode_audio v = Ok out ->
  exists head, out = head ++ v.(audio_payload) /\ Forall is_u8 head
    /\ validate_audio_parameters v = Ok tt
    /\ forall body, len body = len v.(audio_payload) -> len (head ++ body) <= usize_max ->
       decode_audio (head ++ body)
       = if negb (crc32 body =? crc32 v.(audio_payload)) then Err IntegrityMismatch
         else
           let value := mkAudioDatagram v.(audio_session_id) v.(audio_stream_id) v.(audio_sequence)
             v.(audio_codec) v.(audio_sample_rate) v.(audio_channels) v.(audio_samples_per_packet)
             v.(audio_first_sample_index) v.(audio_host_presentation_time_ms) body in
           let? _ := validate_audio_parameters value in Ok value.
Proof.
  intros Hwf H. unfold encode_audio in H.
  destruct (validate_audio_parameters v) as [[]|] eqn:Hval; [|done].
  destruct v as [sid stid seq codec rate ch spp fsi hpt payload].
  unfold wf_audio in Hwf. simpl in Hwf, H. destruct_and?. do 2 step_put H.
  destruct (u16_max <? len payload) eqn:Epl; [done|].
  destruct (_ <? len (put_bytes _ _)) eqn:Eenc in H; [done|]. step_put H. clear Eenc.
  unfold put_bytes, put_u64, put_u32, put_u16, put_u8 in *.
  assert (is_u32 (crc32 payload)) by auto with rust.
  assert (is_u16 (len payload))
    by (to_prop; pose proof (len_nonneg payload); unfold is_u16, is_uint, u16_max in *; lia).
  eexists. split; [reflexivity|]. split; [destruct codec; u8_app|]. split; [done|].
  cbn [audio_payload]. intros body Hbody Hlen. unfold decode_audio. start_get Hlen.
  do 3 (step_get; run_get).
  match goal with Hr : reads_from ?r ([codec_code codec] ++ ?rest) |- _ =>
    destruct (read_u8_parses (codec_code codec) r rest Hr) as (? & Hget & ?); clear Hr end.
  run_get. destruct codec. cbn [codec_code codec_try_from map_err].
  repeat (step_get; run_get).
  match goal with Hr : reads_from ?r (body ++ []) |- _ =>
    rewrite (remaining_reads_from r _ Hr), app_nil_r, Hbody, Z.ltb_irrefl;
    destruct (take_parses body (len payload) Hbody r [] Hr) as (? & Hget & ?) end.
  run_get. destruct (negb _); [done|]. finish_get.
Qed.

Lemma encode_audio_decode (v : AudioDatagram) (out : list Z) :
  wf_audio v -> encode_audio v = Ok out -> len out <= usize_max ->
  decode_audio out = Ok v /\ Forall is_u8 out.
Proof.
  intros Hwf H Hlen. destruct (encode_audio_prefix v out Hwf H) as (head & -> & Hu & Hval & Hdec).
  rewrite Hdec, Z.eqb_refl by done. cbn [negb]. split.
  - destruct v. cbn in *. by rewrite Hval.
  - apply Forall_app. split; [done|]. apply Hwf.
Qed.

Lemma decode_control_encode (k : MessageKind) (p : list Z) (m : ControlMessage) :
  Forall is_u8 p -> len p <= usize_max -> decode_control k p = Ok m ->
  control_kind m = k /\ wf_control m /\ encode_control m = Ok p.
Proof.
  intros Hu Hlen H. apply reads_from_new in Hlen as Hr. clear Hlen.
  unfold decode_control, decode_control_body, decode_stream_start, read_f64 in H.
  destruct k; try discriminate H; repeat step_read H; injection H as <-;
    (split; [done|split; [cbn [wf_control]; simpl; split_and!; done|]]);
    cbn [encode_control]; cbn; replay_puts.
Qed.

Lemma decode_sync_request_encode (p : list Z) (v : SyncRequest) :
  Forall is_u8 p -> len p <= usize_max -> decode_sync_request p = Ok v ->
  wf_frame (FSyncRequest v) /\ encode_sync_request v = Ok p.
Proof.
  intros Hu Hlen H. apply reads_from_new in Hlen as Hr. unfold decode_sync_request in H.
  repeat step_read H. injection H as <-. split; [by cbn; split_and!|].
  unfold encode_sync_request. cbn. replay_puts.
Qed.

Lemma decode_sync_response_encode (p : list Z) (v : SyncResponse) :
  Forall is_u8 p -> len p <= usize_max -> decode_sync_response p = Ok v ->
  wf_frame (FSyncResponse v) /\ encode_sync_response v = Ok p.
Proof.
  intros Hu Hlen H. apply reads_from_new in Hlen as Hr. unfold decode_sync_response in H.
  repeat step_read H. destruct (_ <? _) eqn:E in H; [done|]. injection H as <-.
  split; [by cbn; split_and!|]. unfold encode_sync_response. cbn. rewrite E. replay_puts.
Qed.

Lemma decode_audio_encode (p : list Z) (v : AudioDatagram) :
  Forall is_u8 p -> len p <= MAX_AUDIO_DATAGRAM_BYTES - FRAME_HEADER_BYTES ->
  decode_audio p = Ok v -> wf_audio v /\ encode_audio v = Ok p.
Proof.
  intros Hu Hlen H.
  assert (len p <= usize_max) as Hr
    by (pose proof (usize_max_lower (t := t)); unfold u32_max, MAX_AUDIO_DATAGRAM_BYTES,
          FRAME_HEADER_BYTES in *; lia).
  apply reads_from_new in Hr. unfold decode_audio in H. do 4 step_read H.
  destruct (codec_try_from _) as [c|] eqn:Ec; cbn [map_err] in H; [|done].
  apply codec_try_from_sound in Ec as <-. repeat step_read H.
  erewrite remaining_reads_from in H by eassumption.
  destruct (_ <? _) eqn:E1 in H; [done|]. destruct (_ <? _) eqn:E2 in H; [done|].
  destruct (take _ _) as [[body r']|] eqn:Ht in H; [|done].
  match type of Ht with take ?r ?n = _ =>
    match goal with Hr0 : reads_from r ?v, Hu0 : Forall is_u8 ?v |- _ =>
      apply (take_inv r r' v body n) in Ht as (rest & -> & Hbl & Hr'); [|to_prop|exact Hr0];
      [|unfold is_u16, is_uint in *; lia]; apply Forall_u8_app in Hu0 as [Hub Hur] end end.
  destruct (crc32 body =? _) eqn:Ecrc in H; cbn [negb] in H; [|done].
  destruct (finish r') as [[]|] eqn:Hf in H; [|done]. apply (finish_inv _ _ _ Hr') in Hf as ->.
  to_prop. rewrite app_nil_r in *. subst.
  destruct (validate_audio_parameters _) as [[]|] eqn:Hval in H; [|done]. injection H as <-.
  split; [unfold wf_audio; cbn; split_and!; done|].
  unfold encode_audio. rewrite Hval. cbn [audio_session_id audio_stream_id audio_sequence
    audio_codec audio_sample_rate audio_channels audio_samples_per_packet
    audio_first_sample_index audio_host_presentation_time_ms audio_payload].
  repeat match goal with Hput : forall e, _ = Ok (e ++ _) |- _ => rewrite Hput; clear Hput end.
  rewrite (proj2 (Z.ltb_ge u16_max _)) by (unfold is_u16, is_uint, u16_max in *; lia).
  unfold put_bytes, put_u64, put_u32, put_u16, put_u8. rewrite app_nil_l, <- !app_assoc.
  by rewrite (proj2 (Z.ltb_ge _ _)).
Qed.
End Messages.

(** ** Frames *)

Section Frames.
Context {t : target}.

Definition header_bytes (kind : MessageKind) (flags payload_length : Z) : list Z :=
  PROTOCOL_MAGIC ++ be_bytes 2 PROTOCOL_VERSION ++ be_bytes 2 (kind_code kind)
  ++ be_bytes 2 flags ++ be_bytes 2 FRAME_HEADER_LENGTH ++ be_bytes 4 payload_length.

Definition expected_flags (kind : MessageKind) : Z :=
  if bool_decide (kind = KAudio) then FLAG_PAYLOAD_INTEGRITY else 0.

Lemma header_bytes_length (kind : MessageKind) (flags n : Z) :
  length (header_bytes kind flags n) = Z.to_nat FRAME_HEADER_BYTES.
Proof. reflexivity. Qed.

Lemma maximum_usize (kind : MessageKind) (n : Z) :
  n <= maximum_payload_bytes kind -> FRAME_HEADER_BYTES + n <= usize_max.
Proof.
  pose proof (maximum_payload_bytes_bound kind). pose proof (usize_max_lower (t := t)).
  unfold FRAME_HEADER_BYTES, MAX_CONTROL_PAYLOAD_BYTES, u32_max in *. lia.
Qed.

Lemma maximum_u32 (kind : MessageKind) (n : Z) :
  0 <= n <= maximum_payload_bytes kind -> is_u32 n.
Proof.
  pose proof (maximum_payload_bytes_bound kind). unfold MAX_CONTROL_PAYLOAD_BYTES, is_u32, is_uint in *.
  lia.
Qed.

Lemma decode_header_forward (kind : MessageKind) (n : Z) (payload : list Z) :
  0 <= n <= maximum_payload_bytes kind ->
  decode_header (header_bytes kind (expected_flags kind) n ++ payload)
  = Ok (FrameHeader_new kind (expected_flags kind) n).
Proof.
  intros Hn. pose proof (maximum_u32 kind n Hn). pose proof (kind_code_u16 kind).
  unfold decode_header. rewrite <- header_bytes_length with (kind := kind)
    (flags := expected_flags kind) (n := n). rewrite take_app_length.
  rewrite (proj2 (Z.ltb_ge _ _)) by (rewrite len_app; unfold len at 1;
    rewrite header_bytes_length; pose proof (len_nonneg payload); simpl; lia).
  assert (len (header_bytes kind (expected_flags kind) n) <= usize_max) as Hlen
    by (apply (maximum_usize kind 0); lia).
  assert (is_u16 (expected_flags kind)) by (unfold expected_flags, is_u16, is_uint; case_bool_decide; done).
  unfold header_bytes in *. start_get Hlen.
  match goal with Hr : reads_from ?r (PROTOCOL_MAGIC ++ ?rest) |- _ =>
    destruct (take_parses PROTOCOL_MAGIC (len PROTOCOL_MAGIC) eq_refl r rest Hr) as (? & Hget & ?);
    clear Hr end.
  run_get. rewrite bool_decide_eq_true_2 by done. cbn [negb].
  assert (is_u16 PROTOCOL_VERSION /\ is_u16 FRAME_HEADER_LENGTH) as [? ?] by done.
  do 2 (step_get; run_get). rewrite Z.eqb_refl, kind_try_from_code. cbn [negb map_err].
  step_get; run_get. fold (expected_flags kind). rewrite Z.eqb_refl. cbn [negb].
  replace (Z.land _ _ =? 0) with true by (unfold expected_flags; by case_bool_decide).
  cbn [negb]. step_get; run_get. replace (_ =? FRAME_HEADER_BYTES) with true by done. cbn [negb].
  step_get; run_get. finish_get.
  pose proof (maximum_usize kind n (proj2 Hn)). unfold FRAME_HEADER_BYTES in *.
  rewrite !(proj2 (Z.ltb_ge _ _)) by lia. done.
Qed.

Lemma decode_header_backward (bytes : list Z) (h : FrameHeader) :
  Forall is_u8 bytes -> decode_header bytes = Ok h ->
  let kind := h.(header_kind) in let n := h.(header_payload_length) in
  h = FrameHeader_new kind (expected_flags kind) n /\ 0 <= n <= maximum_payload_bytes kind
  /\ bytes = header_bytes kind (expected_flags kind) n ++ skipn (Z.to_nat FRAME_HEADER_BYTES) bytes.
Proof.
  intros Hu H. unfold decode_header in H.
  destruct (len bytes <? FRAME_HEADER_BYTES) eqn:E0; [done|].
  set (head := firstn (Z.to_nat FRAME_HEADER_BYTES) bytes) in *.
  assert (Forall is_u8 head) as Hh by (by apply Forall_take).
  assert (len head = 16) as Hhl by (to_prop; unfold head, len, FRAME_HEADER_BYTES in *;
    rewrite length_take; lia).
  assert (len head <= usize_max) as Hr by (pose proof (usize_max_lower (t := t)); unfold u32_max in *; lia).
  apply reads_from_new in Hr.
  destruct (take _ _) as [[magic r1]|] eqn:Ht in H; [|done].
  apply (take_inv _ r1 head magic) in Ht as (v1 & Ehead & Hml & Hr1); [|done|done].
  case_bool_decide as Em; cbn [negb] in H; [|done]. subst magic.
  rewrite Ehead in Hh. apply Forall_u8_app in Hh as [_ Hu1]. clear Hr.
  step_read H. destruct (_ =? PROTOCOL_VERSION) eqn:Ev in H; cbn [negb] in H; [|done].
  step_read H. destruct (kind_try_from _) as [k|] eqn:Ek in H; cbn [map_err] in H; [|done].
  apply kind_try_from_sound in Ek. step_read H.
  destruct (Z.land _ _ =? 0) eqn:Ef in H; cbn [negb] in H; [|done].
  destruct (_ =? (if bool_decide (k = KAudio) then _ else _)) eqn:Ef2 in H; cbn [negb] in H; [|done].
  step_read H. destruct (_ =? FRAME_HEADER_BYTES) eqn:Ehl in H; cbn [negb] in H; [|done].
  step_read H. step_read H.
  destruct (usize_max <? _) eqn:Eu in H; [done|]. destruct (_ <? _) eqn:Emax in H; [done|].
  injection H as <-. cbn [header_kind header_payload_length].
  fold (expected_flags k) in Ef2. to_prop. subst. split_and!.
  - done.
  - unfold is_u32, is_uint in *. lia.
  - done.
  - rewrite <- (take_drop (Z.to_nat FRAME_HEADER_BYTES) bytes) at 1. fold head. rewrite Ehead.
    unfold header_bytes. by rewrite app_nil_r, <- !app_assoc.
Qed.

Lemma encode_frame_inv (f : ProtocolFrame) (bytes : list Z) :
  encode_frame f = Ok bytes ->
  exists payload, encode_payload f = Ok (payload, expected_flags (frame_kind f))
    /\ 0 <= len payload <= maximum_payload_bytes (frame_kind f)
    /\ bytes = header_bytes (frame_kind f) (expected_flags (frame_kind f)) (len payload) ++ payload.
Proof.
  unfold encode_frame. destruct (encode_payload f) as [[payload flags]|] eqn:Hp; [|done].
  destruct (_ <? len payload) eqn:E1; [done|]. destruct (u32_max <? _) eqn:E2; [done|].
  intros [= <-]. assert (flags = expected_flags (frame_kind f)) as ->.
  { unfold encode_payload in Hp.
    destruct f as [m|v|v|v]; [destruct (encode_control m)|destruct (encode_sync_request v)
      |destruct (encode_sync_response v)|destruct (encode_audio v)]; try done;
      cbn [map_ok] in Hp; injection Hp as <- <-; [by destruct m|done..]. }
  to_prop. pose proof (len_nonneg payload). exists payload. split_and!; [done..|].
  unfold header_bytes, put_bytes, put_u16, put_u32, FrameHeader_new. cbn.
  by rewrite <- ?app_assoc.
Qed.

Lemma decode_frame_eq (kind : MessageKind) (payload : list Z) :
  len payload <= maximum_payload_bytes kind ->
  decode_frame (header_bytes kind (expected_flags kind) (len payload) ++ payload)
  = if is_control_kind kind then map_ok FControl (decode_control kind payload)
    else match kind with
    | KSyncRequest => map_ok FSyncRequest (decode_sync_request payload)
    | KSyncResponse => map_ok FSyncResponse (decode_sync_response payload)
    | KAudio => map_ok FAudio (decode_audio payload)
    | kind => Err (UnsupportedMessageKind (kind_code kind))
    end.
Proof.
  intros Hmax. pose proof (len_nonneg payload) as Hnn. unfold decode_frame.
  rewrite decode_header_forward by done. cbn [header_kind header_payload_length FrameHeader_new].
  pose proof (maximum_usize kind (len payload) Hmax) as Hus. unfold FRAME_HEADER_BYTES in Hus.
  rewrite (proj2 (Z.ltb_ge _ _)) by lia. unfold checked_add, FRAME_HEADER_BYTES.
  rewrite (proj2 (Z.leb_le _ _)) by lia. cbn [ok_or].
  assert (len (header_bytes kind (expected_flags kind) (len payload) ++ payload) = 16 + len payload)
    as -> by (rewrite len_app; done).
  rewrite Z.ltb_irrefl. by rewrite drop_app_length'.
Qed.

(** Decoding inverts encoding on every well-typed frame. *)
Lemma frame_roundtrip (f : ProtocolFrame) (bytes : list Z) :
  wf_frame f -> encode_frame f = Ok bytes -> decode_frame bytes = Ok f /\ Forall is_u8 bytes.
Proof.
  intros Hwf H. apply encode_frame_inv in H as (payload & Hp & [_ Hmax] & ->).
  rewrite decode_frame_eq by done.
  assert (len payload <= usize_max) as Hus
    by (apply maximum_usize in Hmax; unfold FRAME_HEADER_BYTES in Hmax; lia).
  assert (Forall is_u8 payload ->
    Forall is_u8 (header_bytes (frame_kind f) (expected_flags (frame_kind f)) (len payload) ++ payload))
    as Hu8.
  { intros Hu. apply Forall_app. split; [|done]. unfold header_bytes, PROTOCOL_MAGIC. u8_app. }
  destruct f as [m|v|v|v]; cbn [encode_payload frame_kind wf_frame] in *.
  - destruct (encode_control m) as [p|] eqn:He; [|done]. injection Hp as ->.
    apply encode_control_decode in He as [Hd Hu]; [|done..].
    assert (is_control_kind (control_kind m) = true) as -> by (by destruct m).
    rewrite Hd. auto.
  - destruct (encode_sync_request v) as [p|] eqn:He; [|done]. injection Hp as ->.
    apply encode_sync_request_decode in He as [Hd Hu]; [|done..]. cbn. rewrite Hd. auto.
  - destruct (encode_sync_response v) as [p|] eqn:He; [|done]. injection Hp as ->.
    apply encode_sync_response_decode in He as [Hd Hu]; [|done..]. cbn. rewrite Hd. auto.
  - destruct (encode_audio v) as [p|] eqn:He; [|done]. injection Hp as ->.
    apply encode_audio_decode in He as [Hd Hu]; [|done..]. cbn. rewrite Hd. auto.
Qed.

Lemma encode_frame_eq (f : ProtocolFrame) (payload : list Z) :
  encode_payload f = Ok (payload, expected_flags (frame_kind f)) ->
  len payload <= maximum_payload_bytes (frame_kind f) ->
  encode_frame f
  = Ok (header_bytes (frame_kind f) (expected_flags (frame_kind f)) (len payload) ++ payload).
Proof.
  intros Hp Hmax. unfold encode_frame. rewrite Hp. rewrite (proj2 (Z.ltb_ge _ _)) by done.
  pose proof (maximum_payload_bytes_bound (frame_kind f)).
  rewrite (proj2 (Z.ltb_ge _ _)) by (unfold u32_max, MAX_CONTROL_PAYLOAD_BYTES in *; lia).
  unfold header_bytes, put_bytes, put_u16, put_u32, FrameHeader_new. cbn. by rewrite <- ?app_assoc.
Qed.

(** Only canonical encodings are accepted. *)
Lemma frame_canonical (f : ProtocolFrame) (bytes : list Z) :
  Forall is_u8 bytes -> decode_frame bytes = Ok f -> wf_frame f /\ encode_frame f = Ok bytes.
Proof.
  intros Hu H. unfold decode_frame in H. destruct (decode_header bytes) as [h|] eqn:Hh; [|done].
  apply decode_header_backward in Hh as (Eh & Hn & Eb); [|done]. cbv zeta in *.
  set (kind := h.(header_kind)) in *. set (n := h.(header_payload_length)) in *.
  set (payload := skipn (Z.to_nat FRAME_HEADER_BYTES) bytes) in *.
  destruct (usize_max <? n) eqn:E1; [done|]. unfold checked_add in H.
  destruct (_ <=? usize_max) eqn:E2 in H; cbn [ok_or] in H; [|done].
  destruct (len bytes <? _) eqn:E3 in H; [done|]. destruct (_ <? len bytes) eqn:E4 in H; [done|].
  assert (len payload = n) as Hlen.
  { to_prop. rewrite Eb in E3, E4. rewrite len_app in E3, E4.
    change (len (header_bytes _ _ _)) with FRAME_HEADER_BYTES in E3, E4. lia. }
  assert (Forall is_u8 payload) as Hup by (by apply Forall_drop).
  assert (len payload <= usize_max) as Hus by (to_prop; lia).
  rewrite Eb. rewrite <- Hlen. destruct (is_control_kind kind) eqn:Ec.
  - destruct (decode_control kind payload) as [m|] eqn:Hd; [|done]. injection H as <-.
    apply decode_control_encode in Hd as (<- & Hwf & He); [|done..]. split; [done|].
    apply encode_frame_eq; cbn; [rewrite He|lia]. by destruct m.
  - destruct kind; try done.
    + destruct (decode_sync_request payload) as [v|] eqn:Hd; [|done]. injection H as <-.
      apply decode_sync_request_encode in Hd as (Hwf & He); [|done..]. split; [done|].
      apply encode_frame_eq; cbn; [by rewrite He|cbn in Hn; lia].
    + destruct (decode_sync_response payload) as [v|] eqn:Hd; [|done]. injection H as <-.
      apply decode_sync_response_encode in Hd as (Hwf & He); [|done..]. split; [done|].
      apply encode_frame_eq; cbn; [by rewrite He|cbn in Hn; lia].
    + destruct (decode_audio payload) as [v|] eqn:Hd; [|done]. injection H as <-.
      apply decode_audio_encode in Hd as (Hwf & He); [|done|cbn in Hn; lia]. split; [done|].
      apply encode_frame_eq; cbn; [by rewrite He|cbn in Hn; lia].
Qed.
End Frames.

(** ** Properties *)

Section Properties.
Context {t : target}.

(** C5. Round trip: whatever frame the host or listener encodes, the peer
    decodes exactly that frame; this holds for all fifteen message kinds, on
    32-bit and 64-bit targets. *)
Theorem decode_inverts_encode (f : ProtocolFrame) (bytes : list Z) :
  wf_frame f -> encode_frame f = Ok bytes -> decode_frame bytes = Ok f.
Proof. intros Hwf H. by apply (frame_roundtrip f bytes). Qed.

(** C23. Canonicality: a byte string accepted by the decoder is the unique
    encoding of the frame it decodes to, and that frame satisfies the ranges
    of its types; no two accepted byte strings carry the same frame. *)
Theorem accepted_bytes_are_canonical (f : ProtocolFrame) (bytes : list Z) :
  Forall is_u8 bytes -> decode_frame bytes = Ok f -> wf_frame f /\ encode_frame f = Ok bytes.
Proof. apply frame_canonical. Qed.

(** C39. Integrity: changing any single byte of the PCM payload of an encoded
    audio frame makes the decoder report an integrity mismatch. *)
Theorem corrupted_audio_is_rejected (v : AudioDatagram) (head pre post : list Z) (b c : Z) :
  wf_audio v -> encode_frame (FAudio v) = Ok (head ++ pre ++ b :: post) ->
  len (pre ++ b :: post) = len v.(audio_payload) -> is_u8 c -> c <> b ->
  decode_frame (head ++ pre ++ c :: post) = Err IntegrityMismatch.
Proof.
  intros Hwf H Hlen Hc Hne. apply encode_frame_inv in H as (enc & Hp & [_ Hmax] & E).
  cbn [encode_payload frame_kind] in *. destruct (encode_audio v) as [p|] eqn:He; [|done].
  injection Hp as ->. destruct (encode_audio_prefix v enc Hwf He) as (h0 & -> & Hu & _ & Hdec).
  rewrite (app_assoc (header_bytes _ _ _)) in E.
  apply app_inj_2 in E as [-> Ebody]; [|unfold len in Hlen; lia].
  assert (len (pre ++ c :: post) = len (audio_payload v)) as Hlen'
    by (rewrite <- Hlen, !len_app, !len_cons; done).
  assert (len (h0 ++ audio_payload v) = len (h0 ++ pre ++ c :: post)) as El
    by (rewrite !(len_app h0), Hlen'; done).
  rewrite El in Hmax |- *. rewrite <- (app_assoc (header_bytes _ _ _)), decode_frame_eq by done. cbn [is_control_kind].
  apply maximum_usize in Hmax. unfold FRAME_HEADER_BYTES in Hmax.
  rewrite Hdec by (done || lia). destruct (crc32 _ =? _) eqn:Ecrc; cbn [negb]; [|done].
  to_prop. destruct Hwf as (_ & _ & _ & _ & _ & _ & _ & _ & Hup). rewrite <- Ebody in Hup, Ecrc.
  apply Forall_app in Hup as [Hpre Hrest]. inversion_clear Hrest as [|? ? Hb Hpost].
  by apply crc32_one_byte in Ecrc.
Qed.

(** Size bounds: an encoded audio frame fits the 4096-byte datagram bound
    and every other frame is at most the 64 KiB control payload plus the
    16-byte header; the length field always equals the payload's length. *)
Lemma encoded_frame_size (f : ProtocolFrame) (bytes : list Z) :
  encode_frame f = Ok bytes ->
  FRAME_HEADER_BYTES <= len bytes
  /\ len bytes <= FRAME_HEADER_BYTES + maximum_payload_bytes (frame_kind f)
  /\ (frame_kind f = KAudio -> len bytes <= MAX_AUDIO_DATAGRAM_BYTES)
  /\ decode_header bytes
     = Ok (FrameHeader_new (frame_kind f) (expected_flags (frame_kind f))
             (len bytes - FRAME_HEADER_BYTES)).
Proof.
  intros H. apply encode_frame_inv in H as (payload & _ & Hn & ->).
  assert (forall n, len (header_bytes (frame_kind f) (expected_flags (frame_kind f)) n ++ payload)
            = FRAME_HEADER_BYTES + len payload) as El by (intros n; by rewrite len_app).
  rewrite El. split_and!; [lia|lia| |].
  - intros Hk. rewrite Hk in Hn. cbn [maximum_payload_bytes] in Hn. lia.
  - rewrite decode_header_forward by done. do 2 f_equal. lia.
Qed.

(** What one decode may return: a frame that decodes and meets the policy, or
    the reason it does not. *)
Definition policy_outcome (bytes : list Z) (policy : DecodePolicy)
  (outcome : result ProtocolFrame ProtocolError) : Prop :=
  match outcome with
  | Ok f =>
      decode_frame bytes = Ok f
      /\ (forall s, policy.(expected_session_id) = Some s -> frame_session_id f = s)
      /\ (forall a m, f = FAudio a -> policy.(minimum_audio_sequence) = Some m ->
             m <= a.(audio_sequence))
  | Err e =>
      decode_frame bytes = Err e
      \/ (exists f s, decode_frame bytes = Ok f /\ e = UnauthorizedSession
           /\ policy.(expected_session_id) = Some s /\ frame_session_id f <> s)
      \/ (exists a m, decode_frame bytes = Ok (FAudio a) /\ e = StaleAudioSequence
           /\ policy.(minimum_audio_sequence) = Some m /\ a.(audio_sequence) < m)
  end.

Lemma decoder_decode_outcome (counters : ProtocolDiagnosticCounters) (bytes : list Z)
  (policy : DecodePolicy) :
  policy_outcome bytes policy (decoder_decode counters bytes policy).1
  /\ (decoder_decode counters bytes policy).2
     = match (decoder_decode counters bytes policy).1 with
       | Ok _ => counters
       | Err e => counters_record counters (classification e)
       end.
Proof.
  unfold decoder_decode, policy_outcome. destruct (decode_frame bytes) as [f|e] eqn:Hd;
    [|split; [by left|done]].
  destruct (match expected_session_id policy with Some _ => _ | None => _ end) eqn:Es.
  { destruct (expected_session_id policy) as [s|] eqn:Hs; [|done]. to_prop. split; [|done].
    right; left. eauto 10. }
  destruct (match f with FAudio _ => _ | _ => _ end) eqn:Ea.
  { destruct f as [m|m|m|a]; try done. destruct (minimum_audio_sequence policy) as [m|] eqn:Hm; [|done].
    to_prop. split; [|done]. right; right. eauto 10. }
  split; [|done]. split_and!; [done| |].
  - intros s Hs. rewrite Hs in Es. to_prop. done.
  - intros a m -> Hm. rewrite Hm in Ea. to_prop. done.
Qed.

(** A receive loop: every datagram with the policy in force when it arrives. *)
Fixpoint decode_all (counters : ProtocolDiagnosticCounters) (inputs : list (list Z * DecodePolicy)) :
  list (result ProtocolFrame ProtocolError) * ProtocolDiagnosticCounters :=
  match inputs with
  | [] => ([], counters)
  | (bytes, policy) :: inputs =>
      let '(outcome, counters) := decoder_decode counters bytes policy in
      let '(outcomes, counters) := decode_all counters inputs in
      (outcome :: outcomes, counters)
  end.

Definition counter_of (class : ParseFailureClass) (c : ProtocolDiagnosticCounters) : Z :=
  match class with
  | Malformed => c.(malformed)
  | Unsupported => c.(unsupported)
  | Unauthorized => c.(unauthorized)
  | Stale => c.(stale)
  | Oversized => c.(oversized)
  end.

#[local] Instance ParseFailureClass_eq_dec : EqDecision ParseFailureClass.
Proof. solve_decision. Defined.

(** The failures of one class among the outcomes. *)
Definition failures (class : ParseFailureClass) (outcomes : list (result ProtocolFrame ProtocolError)) : Z :=
  len (List.filter (fun o => match o with
                             | Ok _ => false
                             | Err e => bool_decide (classification e = class)
                             end) outcomes).

Lemma counter_of_record (class class' : ParseFailureClass) (c : ProtocolDiagnosticCounters) :
  counter_of class c < u64_max ->
  counter_of class (counters_record c class')
  = counter_of class c + (if bool_decide (class' = class) then 1 else 0).
Proof.
  intros H. case_bool_decide as E; [subst class'|];
    destruct c, class; try destruct class'; try done; cbn in *; try lia; unfold saturating_add; lia.
Qed.

Lemma decode_all_counts (inputs : list (list Z * DecodePolicy)) (c : ProtocolDiagnosticCounters)
  (class : ParseFailureClass) :
  counter_of class c + len inputs <= u64_max ->
  counter_of class (decode_all c inputs).2
  = counter_of class c + failures class (decode_all c inputs).1.
Proof.
  revert c. induction inputs as [|[bytes policy] inputs IH]; intros c Hmax.
  { cbn. unfold failures. cbn. rewrite (len_nil (A := result ProtocolFrame ProtocolError)). lia. }
  rewrite len_cons in Hmax. pose proof (len_nonneg inputs). cbn [decode_all].
  pose proof (decoder_decode_outcome c bytes policy) as [_ Hc].
  destruct (decoder_decode c bytes policy) as [o c1]. cbn [fst snd] in Hc. subst c1.
  specialize (IH (match o with Ok _ => c | Err e => counters_record c (classification e) end)).
  destruct (decode_all _ inputs) as [os c2]. cbn [fst snd] in *. unfold failures in *. cbn [List.filter].
  destruct o as [f|e]; [apply IH; lia|].
  pose proof (counter_of_record class (classification e) c ltac:(lia)) as Hr.
  rewrite Hr in IH. case_bool_decide; rewrite ?len_cons; rewrite IH by lia; lia.
Qed.

(** The receive loop's accounting is exact: after any datagrams, each
    failure counter of a fresh decoder is the number of outcomes with an error
    of its class, and every outcome is right: a returned frame decodes, belongs
    to the expected session and is not below the minimum sequence; an error is
    the decoder's, or the policy's with the datagram violating it. *)
Lemma decoder_counts_failures (inputs : list (list Z * DecodePolicy)) :
  len inputs <= u64_max ->
  (forall class, counter_of class (decode_all (mkCounters 0 0 0 0 0) inputs).2
     = failures class (decode_all (mkCounters 0 0 0 0 0) inputs).1)
  /\ Forall2 (fun input => policy_outcome input.1 input.2) inputs
       (decode_all (mkCounters 0 0 0 0 0) inputs).1.
Proof.
  intros Hmax. split.
  - intros class. rewrite decode_all_counts; destruct class; cbn [counter_of malformed unsupported
      unauthorized stale oversized]; lia.
  - clear Hmax. generalize (mkCounters 0 0 0 0 0) as c.
    induction inputs as [|[bytes policy] inputs IH]; intros c; cbn [decode_all]; [constructor|].
    pose proof (decoder_decode_outcome c bytes policy) as [Ho _].
    destruct (decoder_decode c bytes policy) as [o c1]. specialize (IH c1).
    destruct (decode_all c1 inputs) as [os c2]. by constructor.
Qed.
End Properties.

(** ** Witnesses *)

Definition sample_audio : AudioDatagram :=
  mkAudioDatagram (lit "session-1") (lit "stream-1") 7 PcmS16Le 48000 2 2 14 1000
    [1; 0; 2; 0; 3; 0; 4; 0].

Definition sample_audio_bytes : list Z :=
  match encode_frame (t := Target64) (FAudio sample_audio) with Ok bytes => bytes | Err _ => [] end.

Ltac wf_by_compute :=
  repeat first [apply wf_str_lit | apply Forall_nil_2 | apply Forall_cons; split | split];
  unfold is_u64, is_u32, is_u16, is_u8, is_uint; cbn; lia.

Lemma sample_audio_wf : wf_audio sample_audio.
Proof. wf_by_compute. Defined.

Lemma decode_inverts_encode_witness :
  decode_frame (t := Target64) sample_audio_bytes = Ok (FAudio sample_audio).
Proof.
  apply (decode_inverts_encode (t := Target64) (FAudio sample_audio)).
  - exact sample_audio_wf.
  - vm_compute. reflexivity.
Defined.

Lemma accepted_bytes_are_canonical_witness :
  wf_frame (FAudio sample_audio)
  /\ encode_frame (t := Target32) (FAudio sample_audio) = Ok sample_audio_bytes.
Proof.
  apply (accepted_bytes_are_canonical (t := Target32)).
  - apply (bool_decide_unpack (Forall (fun b => 0 <= b < 256) sample_audio_bytes)).
    vm_compute. exact I.
  - vm_compute. reflexivity.
Defined.

Lemma corrupted_audio_is_rejected_witness :
  decode_frame (t := Target64) (firstn 78 sample_audio_bytes ++ [1; 0; 2; 0; 3; 0] ++ 5 :: [0])
  = Err IntegrityMismatch.
Proof.
  apply (corrupted_audio_is_rejected (t := Target64) sample_audio
           (firstn 78 sample_audio_bytes) [1; 0; 2; 0; 3; 0] [0] 4 5).
  - exact sample_audio_wf.
  - vm_compute. reflexivity.
  - vm_compute. reflexivity.
  - unfold is_u8, is_uint. lia.
  - lia.
Defined.

Lemma decoder_counts_failures_witness :
  counter_of Stale (decode_all (t := Target64) (mkCounters 0 0 0 0 0)
    [(sample_audio_bytes, mkDecodePolicy None (Some 8)); ([1; 2; 3], mkDecodePolicy None None)]).2 = 1.
Proof.
  assert (len [(sample_audio_bytes, mkDecodePolicy None (Some 8)); ([1; 2; 3], mkDecodePolicy None None)]
          <= u64_max) as H by (vm_compute; discriminate).
  destruct (decoder_counts_failures (t := Target64) _ H) as [Hc _].
  rewrite Hc. vm_compute. reflexivity.
Defined.
