(* ===== verification/PlaybackControls.v ===== *)
(** The host transport's authoritative playback state
    (src/rust/silent-disco-core/src/transport/socket/host/mod.rs,
    [PlaybackControls]): which control messages of a stream are current, which
    audio belongs to it, and what a listener that joins late is replayed. *)
From Stdlib Require Import ZArith Lia Sorting.Sorted.
From stdpp Require Import numbers list sorting prelude.
From S2P Require Import Prelude Utf8 ProtocolTypes.

Definition MAX_CACHED_TRACK_BOUNDARIES : Z := 100.

Record PlaybackControls : Type := mkPlaybackControls {
stream_start : option StreamStart;
boundaries : list TrackBoundary;
pause : option Pause;
last_stop : option Stop;
last_pause_time_ms : option Z;
last_stopped_start : option (rstr * Z);
last_stopped_control : option (rstr * Z);
awaiting_replay_first_packet : bool;
replay_next_packet : option (Z * Z);
replay_last_presentation_ms : option Z;
resume_anchor_floor : option Z;
last_applied_boundary_sample_index : option Z
}.

Definition PlaybackControls_default : PlaybackControls :=
  mkPlaybackControls None [] None None None None None false None None None None.

(** [Option::is_some_and]. *)
Definition is_some_and {A : Type} (f : A -> bool) (o : option A) : bool :=
  match o with Some a => f a | None => false end.

(** ** Updates *)

(** The samples heard [elapsed_ms] after the start, in thousandths. *)
Definition played_samples (elapsed_ms sample_rate : Z) : Z := elapsed_ms * sample_rate.

Definition audible (played : Z) (b : TrackBoundary) : bool :=
  b.(boundary_first_sample_index) * 1000 <=? played.

(** The [while] loop of [advance_paused_track]: the boundaries up to
    [confirmed], and the last of them. *)
Fixpoint retire_boundaries (confirmed : Z) (bs : list TrackBoundary) (applied : option Z) :
  list TrackBoundary * option Z :=
  match bs with
  | b :: rest =>
      if b.(boundary_first_sample_index) <=? confirmed
      then retire_boundaries confirmed rest (Some b.(boundary_first_sample_index))
      else (bs, applied)
  | [] => (bs, applied)
  end.

Definition set_boundaries (bs : list TrackBoundary) (applied : option Z) (c : PlaybackControls) :
  PlaybackControls :=
  mkPlaybackControls c.(stream_start) bs c.(pause) c.(last_stop) c.(last_pause_time_ms)
    c.(last_stopped_start) c.(last_stopped_control) c.(awaiting_replay_first_packet)
    c.(replay_next_packet) c.(replay_last_presentation_ms) c.(resume_anchor_floor) applied.

Definition advance_paused_track (resumed : StreamStart) (c : PlaybackControls) : PlaybackControls :=
  match c.(stream_start), c.(pause), resumed.(start_current_entry_id) with
  | Some previous, Some pause, Some current_entry =>
      let elapsed_ms := saturating_sub pause.(pause_host_pause_time_ms) previous.(start_host_start_time_ms) in
      let played := played_samples elapsed_ms previous.(start_sample_rate) in
      match last (filter (fun b => bool_decide (b.(boundary_entry_id) = current_entry) && audible played b)
                    c.(boundaries)) with
      | None => c
      | Some confirmed =>
          let '(bs, applied) := retire_boundaries confirmed.(boundary_first_sample_index) c.(boundaries)
                                  c.(last_applied_boundary_sample_index) in
          set_boundaries bs applied c
      end
  | _, _, _ => c
  end.

Definition retired_control (session : rstr) (control_time_ms : Z) (c : PlaybackControls) : bool :=
  is_some_and (fun '(stopped_session, stopped_at) =>
    bool_decide (stopped_session = session) && (control_time_ms <=? stopped_at)) c.(last_stopped_control).

Definition same_stream (start : StreamStart) (session_id stream_id : rstr) : bool :=
  bool_decide (start.(start_stream_id) = stream_id) && bool_decide (start.(start_session_id) = session_id).

Definition is_active (session_id stream_id : rstr) (c : PlaybackControls) : bool :=
  is_some_and (fun start => same_stream start session_id stream_id) c.(stream_start).

Definition set_start (start : StreamStart) (floor : option Z) (c : PlaybackControls) : PlaybackControls :=
  mkPlaybackControls (Some start) c.(boundaries) None c.(last_stop) c.(last_pause_time_ms)
    c.(last_stopped_start) c.(last_stopped_control) c.(awaiting_replay_first_packet)
    c.(replay_next_packet) c.(replay_last_presentation_ms) floor c.(last_applied_boundary_sample_index).

(** A start of a new generation. *)
Definition begin_stream (start : StreamStart) (c : PlaybackControls) : PlaybackControls :=
  let stopped := bool_decide (is_Some c.(last_stopped_control)) in
  mkPlaybackControls (Some start) [] None None None c.(last_stopped_start) c.(last_stopped_control)
    (stopped || c.(awaiting_replay_first_packet))
    (if stopped then None else c.(replay_next_packet))
    (if stopped then None else c.(replay_last_presentation_ms)) None None.

(** The [StreamStart] arm of [update]. *)
Definition update_start (start : StreamStart) (c : PlaybackControls) : bool * PlaybackControls :=
  let anchor := start.(start_host_start_time_ms) in
  let is_resume := is_active start.(start_session_id) start.(start_stream_id) c in
  if is_some_and (fun '(session, stopped) =>
       bool_decide (session = start.(start_session_id)) && (anchor <=? stopped)) c.(last_stopped_start)
  then (false, c)
  else if retired_control start.(start_session_id) anchor c then (false, c)
  else if is_some_and (fun previous =>
       bool_decide (previous.(start_session_id) = start.(start_session_id))
       && (anchor <? previous.(start_host_start_time_ms))) c.(stream_start)
  then (false, c)
  else if is_resume && is_some_and (fun previous =>
       negb (previous.(start_sample_rate) =? start.(start_sample_rate))
       || negb (previous.(start_channels) =? start.(start_channels))
       || negb (previous.(start_samples_per_packet) =? start.(start_samples_per_packet))) c.(stream_start)
  then (false, c)
  else if is_resume && bool_decide (is_Some c.(pause)) && is_some_and (fun previous =>
       anchor <=? previous.(start_host_start_time_ms)) c.(stream_start)
  then (false, c)
  else if is_resume then
    let c := advance_paused_track start c in
    let floor := if is_some_and (fun previous => previous.(start_host_start_time_ms) <? anchor) c.(stream_start)
                 then Some anchor else c.(resume_anchor_floor) in
    (true, set_start start floor c)
  else (true, begin_stream start c).

(** The [TrackBoundary] arm for a boundary of the active stream; the [while]
    loop keeps the newest hundred. *)
Definition update_boundary (b : TrackBoundary) (c : PlaybackControls) : bool * PlaybackControls :=
  if is_some_and (fun applied => b.(boundary_first_sample_index) <=? applied)
       c.(last_applied_boundary_sample_index)
     || is_some_and (fun previous => b.(boundary_first_sample_index) <=? previous.(boundary_first_sample_index))
          (last c.(boundaries))
  then (false, c)
  else
    let bs := c.(boundaries) ++ [b] in
    (true, set_boundaries (drop (length bs - Z.to_nat MAX_CACHED_TRACK_BOUNDARIES) bs)
             c.(last_applied_boundary_sample_index) c).

Definition update_pause (p : Pause) (c : PlaybackControls) : bool * PlaybackControls :=
  if retired_control p.(pause_session_id) p.(pause_host_pause_time_ms) c then (false, c)
  else if is_some_and (fun previous => p.(pause_host_pause_time_ms) <=? previous) c.(last_pause_time_ms)
  then (false, c)
  else (true, mkPlaybackControls c.(stream_start) c.(boundaries) (Some p) c.(last_stop)
                (Some p.(pause_host_pause_time_ms)) c.(last_stopped_start) c.(last_stopped_control)
                c.(awaiting_replay_first_packet) c.(replay_next_packet) c.(replay_last_presentation_ms)
                c.(resume_anchor_floor) c.(last_applied_boundary_sample_index)).

(** The [Stop] arms: [retired] is the active stream's start, if any. *)
Definition update_stop (s : Stop) (c : PlaybackControls) : bool * PlaybackControls :=
  if retired_control s.(stop_session_id) s.(stop_host_stop_time_ms) c then (false, c)
  else
    (true,
     match c.(stream_start) with
     | Some retired =>
         mkPlaybackControls None [] None (Some s) None
           (Some (retired.(start_session_id), retired.(start_host_start_time_ms)))
           (Some (retired.(start_session_id), s.(stop_host_stop_time_ms))) true None None None None
     | None =>
         mkPlaybackControls None c.(boundaries) c.(pause) (Some s) c.(last_pause_time_ms)
           c.(last_stopped_start) (Some (s.(stop_session_id), s.(stop_host_stop_time_ms))) true None None
           c.(resume_anchor_floor) c.(last_applied_boundary_sample_index)
     end).

Definition update (message : ControlMessage) (c : PlaybackControls) : bool * PlaybackControls :=
  match message with
  | CStreamStart start => update_start start c
  | CTrackBoundary b =>
      if is_active b.(boundary_session_id) b.(boundary_stream_id) c then update_boundary b c else (false, c)
  | CPause p => if is_active p.(pause_session_id) p.(pause_stream_id) c then update_pause p c else (false, c)
  | CStop s =>
      if is_active s.(stop_session_id) s.(stop_stream_id) c || negb (bool_decide (is_Some c.(stream_start)))
      then update_stop s c else (false, c)
  | _ => (true, c)
  end.

(** ** Audio *)

Definition allows_packet (packet : AudioDatagram) (c : PlaybackControls) : bool :=
  match c.(stream_start) with
  | Some start =>
      bool_decide (start.(start_session_id) = packet.(audio_session_id))
      && bool_decide (start.(start_stream_id) = packet.(audio_stream_id))
      && negb (bool_decide (is_Some c.(pause)))
      && match c.(resume_anchor_floor) with
         | Some anchor => anchor <=? packet.(audio_host_presentation_time_ms)
         | None => true
         end
      && negb (is_some_and (fun '(session, _) =>
           bool_decide (session = packet.(audio_session_id))
           && (packet.(audio_host_presentation_time_ms) <? start.(start_host_start_time_ms)))
           c.(last_stopped_control))
  | None => negb (bool_decide (is_Some c.(last_stopped_control)))
  end.

Definition set_replay (next : Z * Z) (presentation : Z) (c : PlaybackControls) : PlaybackControls :=
  mkPlaybackControls c.(stream_start) c.(boundaries) c.(pause) c.(last_stop) c.(last_pause_time_ms)
    c.(last_stopped_start) c.(last_stopped_control) false (Some next) (Some presentation)
    c.(resume_anchor_floor) c.(last_applied_boundary_sample_index).

Definition permits_audio (packet : AudioDatagram) (c : PlaybackControls) : bool * PlaybackControls :=
  let awaiting := c.(awaiting_replay_first_packet) in
  let presentation := packet.(audio_host_presentation_time_ms) in
  if negb (allows_packet packet c) then (false, c)
  else if awaiting && (negb (packet.(audio_sequence) =? 0) || negb (packet.(audio_first_sample_index) =? 0))
  then (false, c)
  else if awaiting && is_some_and (fun start => negb (presentation =? start.(start_host_start_time_ms)))
                        c.(stream_start)
  then (false, c)
  else if is_some_and (fun previous => presentation <? previous) c.(replay_last_presentation_ms)
  then (false, c)
  else if is_some_and (fun '(sequence, sample) =>
            negb (packet.(audio_sequence) =? sequence) || negb (packet.(audio_first_sample_index) =? sample))
            c.(replay_next_packet)
  then (false, c)
  else if awaiting || bool_decide (is_Some c.(replay_next_packet)) then
    match checked_add u64_max packet.(audio_sequence) 1,
          checked_add u64_max packet.(audio_first_sample_index) packet.(audio_samples_per_packet) with
    | Some sequence, Some sample => (true, set_replay (sequence, sample) presentation c)
    | _, _ => (false, c)
    end
  else (true, c).

(** ** Snapshots *)

Definition at_track (b : TrackBoundary) (start : StreamStart) : StreamStart :=
  mkStreamStart start.(start_session_id) start.(start_stream_id) start.(start_host_start_time_ms)
    start.(start_sample_rate) start.(start_channels) start.(start_samples_per_packet)
    (Some b.(boundary_entry_id)) (Some b.(boundary_display_name)).

(** The loop over the cached boundaries: audible ones name the current track,
    the others are upcoming. *)
Fixpoint split_boundaries (played : Z) (bs : list TrackBoundary) (start : StreamStart) :
  StreamStart * list TrackBoundary :=
  match bs with
  | [] => (start, [])
  | b :: bs =>
      if audible played b then split_boundaries played bs (at_track b start)
      else let '(start, upcoming) := split_boundaries played bs start in (start, b :: upcoming)
  end.

Definition effective_now (now : Z) (p : option Pause) : Z :=
  match p with Some p => Z.min now p.(pause_host_pause_time_ms) | None => now end.

Definition snapshot_at (now : Z) (c : PlaybackControls) : list ControlMessage :=
  match c.(stream_start) with
  | None => []
  | Some start =>
      let elapsed_ms := saturating_sub (effective_now now c.(pause)) start.(start_host_start_time_ms) in
      let '(start, upcoming) :=
        split_boundaries (played_samples elapsed_ms start.(start_sample_rate)) c.(boundaries) start in
      CStreamStart start :: map CTrackBoundary upcoming
      ++ match c.(pause) with Some p => [CPause p] | None => [] end
  end.

Definition recovery_snapshot_at (now : Z) (c : PlaybackControls) : list ControlMessage :=
  match c.(stream_start) with
  | Some _ => snapshot_at now c
  | None => match c.(last_stop) with Some s => [CStop s] | None => [] end
  end.

(** ** Histories *)

(** What reaches the state: a control the host broadcasts, or an audio packet
    its producer emits. *)
Inductive event : Type :=
| Control (message : ControlMessage)
| Audio (packet : AudioDatagram).

Definition offer (e : event) (c : PlaybackControls) : bool * PlaybackControls :=
  match e with Control m => update m c | Audio p => permits_audio p c end.

(** The events of a history that go on to the listeners, and the final state. *)
Fixpoint relay (es : list event) (c : PlaybackControls) : list event * PlaybackControls :=
  match es with
  | [] => ([], c)
  | e :: es =>
      let '(accepted, c) := offer e c in
      let '(out, c) := relay es c in
      (if accepted then e :: out else out, c)
  end.

(** The session an event names and the time it carries, for the events of a
    playback generation. *)
Definition event_session (e : event) : option rstr :=
  match e with
  | Control (CStreamStart m) => Some m.(start_session_id)
  | Control (CPause m) => Some m.(pause_session_id)
  | Control (CStop m) => Some m.(stop_session_id)
  | Control (CTrackBoundary m) => Some m.(boundary_session_id)
  | Audio p => Some p.(audio_session_id)
  | _ => None
  end.

Definition event_time (e : event) : option Z :=
  match e with
  | Control (CStreamStart m) => Some m.(start_host_start_time_ms)
  | Control (CPause m) => Some m.(pause_host_pause_time_ms)
  | Control (CStop m) => Some m.(stop_host_stop_time_ms)
  | Audio p => Some p.(audio_host_presentation_time_ms)
  | _ => None
  end.

Definition of_session (s : rstr) (e : event) : Prop :=
  match event_session e with Some s' => s' = s | None => True end.

(** [e] carries no time, or one after [t]. *)
Definition later_than (t : Z) (e : event) : Prop :=
  match event_time e with Some u => t < u | None => True end.

Definition after_stop (e1 e2 : event) : Prop :=
  match e1 with Control (CStop s) => later_than s.(stop_host_stop_time_ms) e2 | _ => True end.

(** Reflects the guards of an operation. *)
Ltac flags :=
  repeat match goal with
  | H : _ || _ = false |- _ => apply orb_false_iff in H as [? ?]
  | H : _ && _ = true |- _ => apply andb_true_iff in H as [? ?]
  | H : negb _ = true |- _ => apply negb_true_iff in H
  | H : negb _ = false |- _ => apply negb_false_iff in H
  | H : bool_decide _ = true |- _ => apply bool_decide_eq_true in H
  | H : bool_decide _ = false |- _ => apply bool_decide_eq_false in H
  | H : (_ =? _) = true |- _ => apply Z.eqb_eq in H
  | H : (_ <=? _) = true |- _ => apply Z.leb_le in H
  | H : (_ <=? _) = false |- _ => apply Z.leb_gt in H
  | H : (_ <? _) = true |- _ => apply Z.ltb_lt in H
  | H : (_ <? _) = false |- _ => apply Z.ltb_ge in H
  end.

(** Walks through the early returns in [H]. *)
Ltac early_returns H tac :=
  cbv zeta in H;
  repeat match type of H with (if ?b then _ else _) = _ => destruct b eqn:?; [tac|] end.

Lemma is_active_start : forall s i c, is_active s i c = true ->
  exists st, c.(stream_start) = Some st /\ st.(start_session_id) = s /\ st.(start_stream_id) = i.
Proof.
  unfold is_active, is_some_and, same_stream. intros s i c H. destruct (stream_start c) as [st|]; [|done].
  flags. eauto.
Qed.

Lemma retired_control_false : forall s u t c,
  c.(last_stopped_control) = Some (s, t) -> retired_control s u c = false -> t < u.
Proof.
  unfold retired_control. intros s u t c Hc. rewrite Hc. simpl.
  rewrite bool_decide_true by done. simpl. intros H. flags. lia.
Qed.

(** Retiring boundaries drops the oldest ones and touches nothing else. *)
Lemma retire_boundaries_drop : forall confirmed bs applied, exists k,
  (retire_boundaries confirmed bs applied).1 = drop k bs.
Proof.
  intros confirmed. induction bs as [|b bs IH]; intros applied; simpl; [by exists 0%nat|].
  case_match; [|by exists 0%nat]. destruct (IH (Some (boundary_first_sample_index b))) as [k Hk]. by exists (S k).
Qed.

Lemma advance_paused_track_drop : forall r c, exists k applied,
  advance_paused_track r c = set_boundaries (drop k c.(boundaries)) applied c.
Proof.
  intros r [st bs p ls lp lss lsc aw rn rl rf la]. unfold advance_paused_track; simpl.
  destruct st, p, (start_current_entry_id r); try by exists 0%nat, la.
  case_match; [|by exists 0%nat, la].
  destruct (retire_boundaries_drop (boundary_first_sample_index t) bs la) as [k Hk].
  destruct (retire_boundaries _ _ _) as [bs' a]. simpl in Hk. subst. by exists k, a.
Qed.

(** The fence of a stop at [t] in session [s]: it stands at [t] or later and
    the active stream started after it. *)
Definition fenced (s : rstr) (t : Z) (c : PlaybackControls) : Prop :=
  exists t', c.(last_stopped_control) = Some (s, t') /\ t <= t' /\
    forall st, c.(stream_start) = Some st -> st.(start_session_id) = s /\ t' < st.(start_host_start_time_ms).

Lemma update_start_accepted : forall st c c', update_start st c = (true, c') ->
  retired_control st.(start_session_id) st.(start_host_start_time_ms) c = false /\
  c'.(stream_start) = Some st /\ c'.(last_stopped_control) = c.(last_stopped_control).
Proof.
  unfold update_start. intros st c c' H.
  early_returns H ltac:(discriminate). destruct (is_active _ _ _); injection H as <-; split_and!; try done.
  cbn. destruct (advance_paused_track_drop st c) as (k & a & ->). reflexivity.
Qed.

Lemma update_start_refused : forall st c c', update_start st c = (false, c') -> c' = c.
Proof. unfold update_start. intros st c c' H.
  early_returns H ltac:(congruence). destruct (is_active _ _ _); discriminate.
Qed.

Lemma permits_audio_state : forall p c b c', permits_audio p c = (b, c') ->
  c' = c \/ (b = true /\ exists n, c' = set_replay n p.(audio_host_presentation_time_ms) c).
Proof.
  unfold permits_audio. intros p c b c' H.
  repeat match type of H with context [match ?x with _ => _ end] => destruct x end; simplify_eq; eauto.
Qed.

Lemma permits_audio_allowed : forall p c c', permits_audio p c = (true, c') -> allows_packet p c = true.
Proof. unfold permits_audio. intros p c c' H. destruct (allows_packet p c); [done|simpl in H; discriminate]. Qed.

Lemma fence_start : forall s t st b c c', update_start st c = (b, c') -> st.(start_session_id) = s ->
  fenced s t c -> fenced s t c' /\ (b = true -> t < st.(start_host_start_time_ms)).
Proof.
  intros s t st b c c' H <- Hf. destruct b; [|apply update_start_refused in H as ->; split; done].
  apply update_start_accepted in H as (Hr & Hst & Hl). destruct Hf as (t' & Hc & Ht & _).
  pose proof (retired_control_false _ _ _ _ Hc Hr). split; [|intros _; lia].
  exists t'. rewrite Hl. split_and!; [done..|]. intros st' E. rewrite Hst in E. injection E as <-. done.
Qed.

Lemma fence_pause : forall s t p b c c', update_pause p c = (b, c') -> p.(pause_session_id) = s ->
  fenced s t c -> fenced s t c' /\ (b = true -> t < p.(pause_host_pause_time_ms)).
Proof.
  unfold update_pause. intros s t p b c c' H <- Hf. pose proof Hf as (t' & Hc & Ht & Hs).
  destruct (retired_control _ _ c) eqn:Hr; [injection H as <- <-; done|].
  pose proof (retired_control_false _ _ _ _ Hc Hr).
  case_match; injection H as <- <-; [done|]. split; [exists t'; done|intros _; lia].
Qed.

Lemma fence_stop : forall s t m b c c', update_stop m c = (b, c') -> m.(stop_session_id) = s ->
  fenced s t c -> fenced s t c' /\ (b = true -> t < m.(stop_host_stop_time_ms)).
Proof.
  unfold update_stop. intros s t m b c c' H <- Hf. pose proof Hf as (t' & Hc & Ht & Hs).
  destruct (retired_control _ _ c) eqn:Hr; injection H as <- <-; [done|].
  pose proof (retired_control_false _ _ _ _ Hc Hr). split; [|intros _; lia].
  exists m.(stop_host_stop_time_ms). destruct (stream_start c) as [st|] eqn:Hst; cbn; split_and!; try done; try lia.
  destruct (Hs st eq_refl) as [-> _]. reflexivity.
Qed.

Lemma fence_audio : forall s t p b c c', permits_audio p c = (b, c') -> p.(audio_session_id) = s ->
  fenced s t c -> fenced s t c' /\ (b = true -> t < p.(audio_host_presentation_time_ms)).
Proof.
  intros s t p b c c' H <- Hf. split.
  - destruct (permits_audio_state _ _ _ _ H) as [-> | (_ & n & ->)]; [done|]. exact Hf.
  - intros ->. apply permits_audio_allowed in H. destruct Hf as (t' & Hc & Ht & Hs).
    unfold allows_packet in H. rewrite Hc in H. destruct (stream_start c) as [st|]; [|done].
    destruct (Hs st eq_refl). flags. simpl in *. rewrite bool_decide_true in * by done. simpl in *. flags. lia.
Qed.

Lemma offer_fenced : forall s t e b c c', offer e c = (b, c') -> of_session s e -> fenced s t c ->
  fenced s t c' /\ (b = true -> later_than t e).
Proof.
  intros s t [m|p] b c c' H Hs Hf; [|exact (fence_audio _ _ _ _ _ _ H Hs Hf)].
  destruct m; simpl in H; unfold of_session in Hs; simpl in Hs;
    try (injection H as <- <-; split; [done|intros _; exact I]).
  - exact (fence_start _ _ _ _ _ _ H Hs Hf).
  - case_match; [|injection H as <- <-; split; [done|intros _; exact I]].
    unfold update_boundary in H. case_match; injection H as <- <-; split; done.
  - case_match; [|injection H as <- <-; done]. exact (fence_pause _ _ _ _ _ _ H Hs Hf).
  - case_match; [|injection H as <- <-; done]. exact (fence_stop _ _ _ _ _ _ H Hs Hf).
Qed.

Lemma relay_fenced : forall s t es c, Forall (of_session s) es -> fenced s t c ->
  Forall (later_than t) (relay es c).1.
Proof.
  induction es as [|e es IH]; intros c Hes Hf; [constructor|]. inversion_clear Hes as [|? ? He Hr].
  simpl. destruct (offer e c) as [b c1] eqn:E.
  destruct (offer_fenced _ _ _ _ _ _ E He Hf) as [Hf1 Hl]. specialize (IH c1 Hr Hf1).
  destruct (relay es c1) as [out c2]. destruct b; [constructor; auto|done].
Qed.

Lemma accepted_stop_fences : forall s m c c', update (CStop m) c = (true, c') -> m.(stop_session_id) = s ->
  fenced s m.(stop_host_stop_time_ms) c'.
Proof.
  intros s m c c' H <-. simpl in H. unfold update_stop in H. case_match eqn:Ha; [|discriminate].
  case_match; [discriminate|]. injection H as <-. exists m.(stop_host_stop_time_ms).
  destruct (stream_start c) as [st|] eqn:Hst; cbn; split_and!; try done; try lia.
  apply orb_true_iff in Ha as [Ha|Ha]; [|done]. apply is_active_start in Ha as (st' & E & <- & _). congruence.
Qed.

(** C20. Over any history of controls and audio of one session, whatever the
    state it starts in, everything relayed to the listeners after a relayed
    Stop carries a later time than that Stop: no delayed start, pause, stop or
    audio packet of a retired generation is ever relayed again. *)
Theorem stop_retires_its_past : forall s es c, Forall (of_session s) es ->
  ForallOrdPairs after_stop (relay es c).1.
Proof.
  induction es as [|e es IH]; intros c Hes; [constructor|]. inversion_clear Hes as [|? ? He Hr].
  simpl. destruct (offer e c) as [b c1] eqn:E. specialize (IH c1 Hr).
  pose proof (fun t => relay_fenced s t es c1 Hr) as Hf. destruct (relay es c1) as [out c2]. destruct b; [|done].
  constructor; [|exact IH]. destruct e as [[]|]; try (apply Forall_true; done).
  exact (Hf _ (accepted_stop_fences s _ _ _ E He)).
Qed.

(** ** The packets of a generation *)

(** An accepted event that begins a new generation: a stop, or a start that is
    not a resume. *)
Definition renews (e : event) (c : PlaybackControls) : bool :=
  match e with
  | Control (CStop _) => true
  | Control (CStreamStart st) => negb (is_active st.(start_session_id) st.(start_stream_id) c)
  | _ => false
  end.

(** The packets relayed in the current generation, and the anchor in force
    when its first packet is due. *)
Definition extend (e : event) (c : PlaybackControls) (g : list AudioDatagram * option Z) :
  list AudioDatagram * option Z :=
  let g := if renews e c then ([], None) else g in
  match e, g with
  | Control (CStreamStart st), ([], _) => ([], Some st.(start_host_start_time_ms))
  | Audio p, (ps, a) => (ps ++ [p], a)
  | _, _ => g
  end.

Fixpoint generation (es : list event) (c : PlaybackControls) (g : list AudioDatagram * option Z) :
  list AudioDatagram * option Z :=
  match es with
  | [] => g
  | e :: es => let '(accepted, c') := offer e c in generation es c' (if accepted then extend e c g else g)
  end.

Fixpoint total_samples (ps : list AudioDatagram) : Z :=
  match ps with [] => 0 | p :: ps => p.(audio_samples_per_packet) + total_samples ps end.

Lemma total_samples_app : forall ps qs, total_samples (ps ++ qs) = total_samples ps + total_samples qs.
Proof. induction ps as [|p ps IH]; intros qs; simpl; [lia|]. rewrite IH. lia. Qed.

(** Packets of one stream numbered from zero without gap, each starting at the
    sample where the one before ended, never going back in presentation time. *)
Record whole_generation (ps : list AudioDatagram) : Prop := {
  numbered : forall i p, ps !! i = Some p ->
    p.(audio_sequence) = Z.of_nat i /\ p.(audio_first_sample_index) = total_samples (take i ps);
  timed : StronglySorted Z.le (map audio_host_presentation_time_ms ps);
  one_stream : forall p q, p ∈ ps -> q ∈ ps ->
    p.(audio_session_id) = q.(audio_session_id) /\ p.(audio_stream_id) = q.(audio_stream_id)
}.

(** What the state records of the generation's packets. *)
Definition tracks (c : PlaybackControls) (g : list AudioDatagram * option Z) : Prop :=
  is_Some c.(last_stopped_control) /\ whole_generation g.1 /\
  match c.(replay_next_packet) with
  | None => c.(awaiting_replay_first_packet) = true /\ g.1 = [] /\ c.(replay_last_presentation_ms) = None /\
      g.2 = start_host_start_time_ms <$> c.(stream_start)
  | Some (sequence, sample) => c.(awaiting_replay_first_packet) = false /\ sequence = Z.of_nat (length g.1) /\
      sample = total_samples g.1 /\ g.1 <> [] /\
      (exists t, c.(replay_last_presentation_ms) = Some t /\
         forall p, p ∈ g.1 -> p.(audio_host_presentation_time_ms) <= t) /\
      (exists st, c.(stream_start) = Some st /\
         forall p, p ∈ g.1 -> p.(audio_session_id) = st.(start_session_id) /\
                              p.(audio_stream_id) = st.(start_stream_id)) /\
      g.2 = audio_host_presentation_time_ms <$> head g.1
  end.

Lemma whole_nil : whole_generation [].
Proof. split; [done|constructor|]. intros p q H. inversion H. Qed.

Lemma whole_snoc : forall ps p, whole_generation ps ->
  p.(audio_sequence) = Z.of_nat (length ps) -> p.(audio_first_sample_index) = total_samples ps ->
  (forall q, q ∈ ps -> q.(audio_host_presentation_time_ms) <= p.(audio_host_presentation_time_ms) /\
     q.(audio_session_id) = p.(audio_session_id) /\ q.(audio_stream_id) = p.(audio_stream_id)) ->
  whole_generation (ps ++ [p]).
Proof.
  intros ps p [Hn Ht Ho] Hs Hx Hq. split.
  - intros i q Hi. apply lookup_app_Some in Hi as [Hi|[Hl Hi]].
    + destruct (Hn i q Hi) as [-> ->]. apply lookup_lt_Some in Hi. rewrite take_app_le by lia. done.
    + destruct (i - length ps)%nat as [|k] eqn:E; [|done]. simpl in Hi. injection Hi as <-.
      assert (i = length ps) as -> by lia. rewrite take_app_length. done.
  - rewrite map_app. apply StronglySorted_app_2; [|done|repeat constructor].
    intros x y (q & -> & Hin)%list_elem_of_fmap Hy%list_elem_of_singleton. subst y. apply Hq, Hin.
  - intros a b Ha Hb. apply elem_of_app in Ha, Hb. rewrite !list_elem_of_singleton in Ha, Hb.
    destruct Ha as [Ha| ->], Hb as [Hb| ->]; [by apply Ho|by apply Hq| |done].
    destruct (Hq b Hb) as (_ & -> & ->). done.
Qed.

Lemma allows_packet_stream : forall p c, is_Some c.(last_stopped_control) -> allows_packet p c = true ->
  exists st, c.(stream_start) = Some st /\
    p.(audio_session_id) = st.(start_session_id) /\ p.(audio_stream_id) = st.(start_stream_id).
Proof.
  unfold allows_packet. intros p c Hs H. destruct (stream_start c) as [st|].
  - flags. exists st. done.
  - rewrite bool_decide_true in H by done. done.
Qed.

Lemma permits_audio_tracks : forall p b c c' g, permits_audio p c = (b, c') -> tracks c g ->
  tracks c' (if b then extend (Audio p) c g else g).
Proof.
  intros p b c c' [ps a] H (Hstop & Hw & Hnext). destruct b; cycle 1.
  { destruct (permits_audio_state _ _ _ _ H) as [-> | [? _]]; done. }
  destruct (allows_packet_stream p c Hstop (permits_audio_allowed _ _ _ H)) as (st & Hst & Hses & Hstr).
  unfold permits_audio in H. early_returns H ltac:(discriminate). simpl in *.
  rewrite Hst in *. destruct (replay_next_packet c) as [[n x]|] eqn:Hn; simpl in *.
  - destruct Hnext as (Haw & -> & -> & Hne & (t & Ht & Hle) & (st' & E & Hof) & Ha). injection E as <-.
    rewrite Haw, Ht in *. simpl in *. flags.
    unfold checked_add in H. repeat case_match; simplify_eq.
    split_and!; [done| |]; cbn.
    + apply whole_snoc; auto. intros q Hq. destruct (Hof q Hq) as [-> ->]. pose proof (Hle q Hq). split; [lia|done].
    + split_and!; try done.
      * rewrite length_app. simpl. lia.
      * rewrite total_samples_app. simpl. lia.
      * destruct ps; done.
      * eexists. split; [done|]. intros q [Hq|Hq%list_elem_of_singleton]%elem_of_app; [pose proof (Hle q Hq); lia|subst; lia].
      * exists st. split; [done|]. intros q [Hq|Hq%list_elem_of_singleton]%elem_of_app; [auto|subst; done].
      * destruct ps; done.
  - destruct Hnext as (Haw & -> & Hl & ->). rewrite Haw in *. simpl in *. flags.
    unfold checked_add in H. repeat case_match; simplify_eq.
    split_and!; [done| |]; cbn.
    + apply (whole_snoc [] p); [apply whole_nil|done..|]. intros q Hq. inversion Hq.
    + split_and!; try done; try lia.
      * eexists. split; [done|]. intros q ->%list_elem_of_singleton. lia.
      * exists st. split; [done|]. intros q ->%list_elem_of_singleton. done.
      * congruence.
Qed.

Lemma update_refused : forall m c c', update m c = (false, c') -> c' = c.
Proof.
  intros m c c' H. destruct m; simpl in H; try discriminate; try (case_match; [|congruence]).
  - exact (update_start_refused _ _ _ H).
  - unfold update_boundary in H. case_match; congruence.
  - unfold update_pause in H. early_returns H ltac:(congruence). discriminate.
  - unfold update_stop in H. early_returns H ltac:(congruence). discriminate.
Qed.

(** An accepted start either resumes the active stream or begins a new one. *)
Lemma update_start_cases : forall st c c', update_start st c = (true, c') ->
  (is_active st.(start_session_id) st.(start_stream_id) c = true /\
   exists bs applied floor, c' = set_start st floor (set_boundaries bs applied c)) \/
  (is_active st.(start_session_id) st.(start_stream_id) c = false /\ c' = begin_stream st c).
Proof.
  unfold update_start. intros st c c' H. early_returns H ltac:(discriminate).
  destruct (is_active _ _ _); injection H as <-; [left|right; done].
  destruct (advance_paused_track_drop st c) as (k & a & ->). split; [done|]. eauto.
Qed.

Lemma update_start_tracks : forall st c c' g, update_start st c = (true, c') -> tracks c g ->
  tracks c' (extend (Control (CStreamStart st)) c g).
Proof.
  intros st c c' [ps a] H (Hstop & Hw & Hnext).
  apply update_start_cases in H as [[Ha (bs & ap & fl & ->)]|[Ha ->]]; unfold extend, renews; rewrite Ha; simpl.
  - apply is_active_start in Ha as (st' & Hst & Es & Ei). unfold tracks. cbn.
    split_and!; [done|by destruct ps|]. rewrite Hst in Hnext.
    destruct (replay_next_packet c) as [[n x]|]; simpl in Hnext.
    + destruct Hnext as (? & ? & ? & Hne & Hl & (st0 & [= <-] & Hof) & ->).
      destruct ps as [|q ps]; [done|]. split_and!; try done. exists st. rewrite <-Es, <-Ei. done.
    + destruct Hnext as (? & -> & ? & _). split_and!; done.
  - unfold begin_stream, tracks. rewrite bool_decide_true by done. cbn. split_and!; try done. apply whole_nil.
Qed.

Lemma offer_tracks : forall e b c c' g, offer e c = (b, c') -> tracks c g ->
  tracks c' (if b then extend e c g else g).
Proof.
  intros [m|p] b c c' g H Ht; [|exact (permits_audio_tracks _ _ _ _ _ H Ht)]. simpl in H.
  destruct b; [|by apply update_refused in H as ->].
  destruct m; simpl in H; try (injection H as <-; destruct g; exact Ht); try (case_match; [|discriminate]).
  - exact (update_start_tracks _ _ _ _ H Ht).
  - unfold update_boundary in H. case_match; [discriminate|]. injection H as <-. destruct g; exact Ht.
  - unfold update_pause in H. early_returns H ltac:(discriminate). injection H as <-. destruct g; exact Ht.
  - unfold update_stop in H. early_returns H ltac:(discriminate). injection H as <-.
    unfold tracks, extend. destruct g, (stream_start c); cbn; split_and!; try done; apply whole_nil.
Qed.

Lemma generation_tracks : forall es c g, tracks c g -> tracks (relay es c).2 (generation es c g).
Proof.
  induction es as [|e es IH]; intros c g Ht; [done|]. simpl. destruct (offer e c) as [b c1] eqn:E.
  pose proof (IH c1 _ (offer_tracks _ _ _ _ _ E Ht)) as H. destruct (relay es c1). exact H.
Qed.

(** C22. After an accepted Stop, whatever controls and packets of whatever
    producer follow, the audio relayed in the current generation is a whole
    one: packets of one stream numbered from zero without gap, sample indices
    contiguous, presentation times never going back, and the first of them at
    the anchor the start announced. *)
Theorem replayed_generation_is_whole : forall stop es c c',
  update (CStop stop) c = (true, c') ->
  let '(packets, anchor) := generation es c' ([], None) in
  whole_generation packets /\
  (forall first, head packets = Some first -> anchor = Some first.(audio_host_presentation_time_ms)).
Proof.
  intros stop es c c' H. assert (Ht : tracks c' ([], None)).
  { simpl in H. case_match; [|discriminate]. unfold update_stop in H. early_returns H ltac:(discriminate).
    injection H as <-. destruct (stream_start c); split_and!; try done; apply whole_nil. }
  apply (generation_tracks es) in Ht. destruct (generation es c' ([], None)) as [ps a].
  destruct Ht as (_ & Hw & Hn). split; [exact Hw|]. intros p Hp. simpl in *.
  destruct (replay_next_packet _) as [[n x]|].
  - destruct Hn as (_ & _ & _ & _ & _ & _ & ->). by rewrite Hp.
  - destruct Hn as (_ & -> & _). done.
Qed.

(** ** Late joiners *)

Local Notation earlier := (fun a b : TrackBoundary => a.(boundary_first_sample_index) < b.(boundary_first_sample_index)).

Definition of_stream (st : StreamStart) (b : TrackBoundary) : Prop :=
  same_stream st b.(boundary_session_id) b.(boundary_stream_id) = true.

(** The cached boundaries are increasing, at most a hundred, and with the pause
    they belong to the active stream. *)
Record controls_ok (c : PlaybackControls) : Prop := {
  ok_sorted : StronglySorted earlier c.(boundaries);
  ok_cached : Z.of_nat (length c.(boundaries)) <= MAX_CACHED_TRACK_BOUNDARIES;
  ok_active : match c.(stream_start) with
    | None => c.(boundaries) = [] /\ c.(pause) = None
    | Some st => Forall (of_stream st) c.(boundaries) /\
        forall p, c.(pause) = Some p -> same_stream st p.(pause_session_id) p.(pause_stream_id) = true
    end
}.

Lemma same_stream_iff : forall st s i, same_stream st s i = true <->
  st.(start_stream_id) = i /\ st.(start_session_id) = s.
Proof. intros. unfold same_stream. rewrite andb_true_iff, !bool_decide_eq_true. done. Qed.

Lemma sorted_snoc : forall bs b, StronglySorted earlier bs ->
  (forall prev, last bs = Some prev -> earlier prev b) -> StronglySorted earlier (bs ++ [b]).
Proof.
  intros bs b Hs Hl. apply StronglySorted_app_2; [|done|repeat constructor].
  intros x y Hx ->%list_elem_of_singleton.
  destruct bs as [|b0 bs] using rev_ind; [inversion Hx|]. clear IHbs.
  rewrite last_snoc in Hl. specialize (Hl b0 eq_refl).
  apply elem_of_app in Hx as [Hx|Hx]; [|by apply list_elem_of_singleton in Hx as ->].
  pose proof (StronglySorted_app_1_elem_of _ _ _ x b0 Hs Hx ltac:(by apply list_elem_of_singleton)) as Hb.
  simpl in *. lia.
Qed.

Lemma sorted_drop : forall k bs, StronglySorted earlier bs -> StronglySorted earlier (drop k bs).
Proof. intros k bs H. rewrite <-(take_drop k bs) in H. exact (StronglySorted_app_1_r _ _ _ H). Qed.

Lemma update_start_ok : forall st c c', update_start st c = (true, c') ->
  controls_ok c -> controls_ok c'.
Proof.
  intros st c c' H [Hs Hc Ha]. unfold update_start in H. early_returns H ltac:(discriminate).
  destruct (is_active _ _ _) eqn:E; injection H as <-.
  - apply is_active_start in E as (st0 & Hst & E1 & E2). rewrite Hst in Ha. destruct Ha as (Hb & _).
    destruct (advance_paused_track_drop st c) as (k & a & ->). split; cbn.
    + by apply sorted_drop.
    + rewrite length_drop. lia.
    + split; [|done]. apply Forall_drop. eapply Forall_impl; [exact Hb|].
      unfold of_stream. intros b. rewrite !same_stream_iff, E1, E2. done.
  - split; cbn; [constructor|done|done].
Qed.

Lemma update_boundary_ok : forall b c c' ok, update_boundary b c = (ok, c') ->
  is_active b.(boundary_session_id) b.(boundary_stream_id) c = true -> controls_ok c -> controls_ok c'.
Proof.
  unfold update_boundary. intros b c c' ok H Hact [Hs Hc Ha].
  destruct (_ || _) eqn:E in H; injection H as <- <-; [done|]. flags. split; cbn [boundaries set_boundaries].
  - apply sorted_drop, sorted_snoc; [done|]. intros prev Hl. rewrite Hl in *. simpl in *. flags. lia.
  - rewrite length_drop, length_app. simpl. unfold MAX_CACHED_TRACK_BOUNDARIES in *. lia.
  - cbn. apply is_active_start in Hact as (st & Hst & E1 & E2). rewrite Hst in *.
    destruct Ha as (Hb & ?). split; [|done]. apply Forall_drop, Forall_app. split; [done|].
    constructor; [|done]. by apply same_stream_iff.
Qed.

Lemma offer_controls_ok : forall e ok c c', offer e c = (ok, c') -> controls_ok c -> controls_ok c'.
Proof.
  intros [m|p] ok c c' H Hc; simpl in H; cycle 1.
  { destruct (permits_audio_state _ _ _ _ H) as [-> | (_ & n & ->)]; [done|]. destruct Hc. by split. }
  destruct ok; [|by apply update_refused in H as ->].
  destruct m; simpl in H; try (injection H as <-; exact Hc); try (case_match eqn:Hact; [|discriminate]).
  - exact (update_start_ok _ _ _ H Hc).
  - exact (update_boundary_ok _ _ _ _ H Hact Hc).
  - unfold update_pause in H. early_returns H ltac:(discriminate). injection H as <-.
    destruct Hc as [Hs Hl Ha]. split; cbn; [done..|]. apply is_active_start in Hact as (st & Hst & E1 & E2).
    rewrite Hst in *. destruct Ha as (? & _). split; [done|]. intros p' [= <-]. by apply same_stream_iff.
  - unfold update_stop in H. early_returns H ltac:(discriminate). injection H as <-. destruct Hc as [Hs Hl Ha].
    destruct (stream_start c); (split; cbn; [try done; constructor|done|done]).
Qed.

Lemma relay_controls_ok : forall es c, controls_ok c -> controls_ok (relay es c).2.
Proof.
  induction es as [|e es IH]; intros c Hc; [done|]. simpl.
  destruct (offer e c) as [ok c1] eqn:E. pose proof (IH c1 ltac:(by eapply offer_controls_ok)).
  destruct (relay es c1). done.
Qed.

(** What the relayed events say is on: the latest start that no stop has ended,
    the boundaries announced since its stream began, each with whether the
    stream was resumed from a pause in which it had been heard, and the pause
    that no start has ended. *)
Record Programme : Type := mkProgramme {
  on_start : StreamStart;
  announced : list (TrackBoundary * bool);
  on_pause : option Pause
}.

Definition played_at (now : Z) (p : option Pause) (start : StreamStart) : Z :=
  played_samples (saturating_sub (effective_now now p) start.(start_host_start_time_ms)) start.(start_sample_rate).

(** The boundaries of a stream that is started again. *)
Definition carried_over (g : Programme) : list (TrackBoundary * bool) :=
  match g.(on_pause) with
  | None => g.(announced)
  | Some p => map (fun '(b, heard) =>
      (b, heard || audible (played_at p.(pause_host_pause_time_ms) g.(on_pause) g.(on_start)) b)) g.(announced)
  end.

Definition log_event (log : option Programme) (e : event) : option Programme :=
  match e, log with
  | Control (CStreamStart st), Some g =>
      Some (mkProgramme st (if same_stream g.(on_start) st.(start_session_id) st.(start_stream_id)
                            then carried_over g else []) None)
  | Control (CStreamStart st), None => Some (mkProgramme st [] None)
  | Control (CTrackBoundary b), Some g =>
      Some (mkProgramme g.(on_start) (g.(announced) ++ [(b, false)]) g.(on_pause))
  | Control (CPause p), Some g => Some (mkProgramme g.(on_start) g.(announced) (Some p))
  | Control (CStop _), _ => None
  | _, _ => log
  end.

Definition programme (out : list event) : option Programme := fold_left log_event out None.

(** [kept] is what is left of the announced boundaries: all but some of the
    oldest, of which those that were not heard make room for a hundred newer
    ones. *)
Definition keeps_newest (all : list (TrackBoundary * bool)) (kept : list TrackBoundary) : Prop :=
  exists k, kept = drop k all.*1 /\ (k <= length all)%nat
    /\ forall i b, all !! i = Some (b, false) -> (i < k)%nat ->
         Z.of_nat i + MAX_CACHED_TRACK_BOUNDARIES < Z.of_nat (length all).

(** The state agrees with what was relayed. *)
Definition follows_log (c : PlaybackControls) (log : option Programme) : Prop :=
  c.(stream_start) = on_start <$> log
  /\ forall g, log = Some g -> c.(pause) = g.(on_pause) /\ keeps_newest g.(announced) c.(boundaries).

Lemma retire_boundaries_heard : forall played confirmed bs applied, confirmed * 1000 <= played -> exists k,
  (retire_boundaries confirmed bs applied).1 = drop k bs /\ Forall (fun b => audible played b = true) (take k bs).
Proof.
  intros played confirmed bs applied Hp. revert applied.
  induction bs as [|b bs IH]; intros applied; simpl; [by exists 0%nat|].
  case_match; [|by exists 0%nat]. destruct (IH (Some (boundary_first_sample_index b))) as (k & Hk & Ha).
  exists (S k). split; [done|]. constructor; [|done]. unfold audible. flags. apply Z.leb_le. lia.
Qed.

(** Resuming a paused stream retires boundaries that were heard before the
    pause, and only those. *)
Lemma advance_paused_track_heard : forall r c st p, c.(stream_start) = Some st -> c.(pause) = Some p ->
  exists k, (advance_paused_track r c).(boundaries) = drop k c.(boundaries)
    /\ Forall (fun b => audible (played_at p.(pause_host_pause_time_ms) (Some p) st) b = true) (take k c.(boundaries)).
Proof.
  intros r c st p Hst Hp. unfold advance_paused_track. rewrite Hst, Hp.
  destruct (start_current_entry_id r) as [entry|]; [|by exists 0%nat].
  unfold played_at, effective_now. rewrite Z.min_id.
  set (played := played_samples _ _). destruct (last _) as [confirmed|] eqn:E; [|by exists 0%nat].
  apply last_Some_elem_of, list_elem_of_filter in E as [E _].
  apply Is_true_eq_true in E. flags. unfold audible in *. flags.
  destruct (retire_boundaries_heard played (boundary_first_sample_index confirmed) (boundaries c)
              (last_applied_boundary_sample_index c)) as (k & Hk & Ha); [done|].
  destruct (retire_boundaries _ _ _) as [bs a]. simpl in *. eauto.
Qed.

Lemma advance_unpaused_track : forall r c, c.(pause) = None -> advance_paused_track r c = c.
Proof. intros r c H. unfold advance_paused_track. rewrite H. by destruct (stream_start c). Qed.

(** Boundaries that were heard may go. *)
Lemma keeps_drop : forall (f : TrackBoundary -> bool) all kept j, keeps_newest all kept ->
  Forall (fun b => f b = true) (take j kept) ->
  keeps_newest (map (fun '(b, heard) => (b, heard || f b)) all) (drop j kept).
Proof.
  intros f all kept j (k & -> & Hk & Hroom) Hf. set (g := fun '(b, heard) => _).
  assert ((map g all).*1 = all.*1) as Hfst by (rewrite map_map; by apply map_ext; intros []).
  exists (Nat.min (k + j) (length all)). rewrite Hfst, length_map, drop_drop. split_and!; [|lia|].
  - destruct (decide (k + j <= length all)%nat); [by rewrite Nat.min_l by lia|].
    rewrite Nat.min_r, !drop_ge by (rewrite ?length_fmap; lia). done.
  - intros i b Hi Hlt. change (map g all) with (g <$> all) in Hi.
    rewrite list_lookup_fmap, fmap_Some in Hi. destruct Hi as ([b' h] & Hi & [= <- Hh]). symmetry in Hh.
    apply orb_false_iff in Hh as [-> Hb].
    destruct (decide (i < k)%nat); [eauto|exfalso].
    rewrite Forall_lookup in Hf. specialize (Hf (i - k)%nat b).
    rewrite Hf in Hb; [done|]. rewrite lookup_take by lia. rewrite lookup_drop, list_lookup_fmap.
    replace (k + (i - k))%nat with i by lia. rewrite Hi. by rewrite decide_True by lia.
Qed.

Lemma keeps_snoc : forall all kept b, keeps_newest all kept ->
  keeps_newest (all ++ [(b, false)])
    (drop (length (kept ++ [b]) - Z.to_nat MAX_CACHED_TRACK_BOUNDARIES) (kept ++ [b])).
Proof.
  intros all kept b (k & -> & Hk & Hroom). set (n := (length _ - _)%nat).
  exists (k + n)%nat.
  assert (drop k all.*1 ++ [b] = drop k (all ++ [(b, false)]).*1) as E.
  { rewrite fmap_app, drop_app_le by (rewrite length_fmap; lia). done. }
  assert (n = (length all - k + 1 - Z.to_nat MAX_CACHED_TRACK_BOUNDARIES)%nat) as Hn.
  { unfold n. rewrite length_app, length_drop, length_fmap. done. }
  rewrite E, drop_drop, length_app. unfold MAX_CACHED_TRACK_BOUNDARIES in *. cbn [length].
  split_and!; [done|lia|]. intros i b' Hi Hlt. rewrite Nat2Z.inj_add.
  apply lookup_app_Some in Hi as [Hi|[? Hi]].
  - destruct (decide (i < k)%nat) as [Hik|]; [specialize (Hroom _ _ Hi Hik)|]; lia.
  - apply list_lookup_singleton_Some in Hi as [? _]. lia.
Qed.

Lemma carried_over_keeps : forall r c g, follows_log c (Some g) ->
  keeps_newest (carried_over g) (advance_paused_track r c).(boundaries).
Proof.
  intros r c g [Hst Hg]. destruct (Hg g eq_refl) as [Hp Hk]. unfold carried_over.
  destruct (on_pause g) as [p|] eqn:Eg; [|by rewrite advance_unpaused_track].
  destruct (advance_paused_track_heard r c (on_start g) p Hst Hp) as (j & -> & Ha). by apply keeps_drop.
Qed.

Lemma start_follows : forall st c c' log, update_start st c = (true, c') -> follows_log c log ->
  follows_log c' (log_event log (Control (CStreamStart st))).
Proof.
  intros st c c' log H Hf. unfold update_start in H. early_returns H ltac:(discriminate).
  assert (forall st', follows_log (begin_stream st' c) (Some (mkProgramme st' [] None))) as Hnew.
  { intros st'. split; [done|]. intros g [= <-]. split; [done|]. exists 0%nat. split_and!; [done|lia|].
    intros i b Hi. discriminate Hi. }
  destruct log as [g|].
  - pose proof (proj1 Hf) as Hs. simpl in Hs. cbn [log_event].
    unfold is_active in H at 1. rewrite Hs in H. cbn [is_some_and] in H.
    destruct (same_stream _ _ _); injection H as <-; [|done].
    split; [done|]. intros g' [= <-]. split; [done|]. by apply carried_over_keeps.
  - pose proof (proj1 Hf) as Hs. simpl in Hs. unfold is_active in H at 1. rewrite Hs in H. cbn in H.
    injection H as <-. apply Hnew.
Qed.

Lemma offer_follows : forall e ok c c' log, offer e c = (ok, c') -> follows_log c log ->
  follows_log c' (if ok then log_event log e else log).
Proof.
  intros [m|p] ok c c' log H Hf; simpl in H; cycle 1.
  { assert (follows_log c' log) as Hc by (by destruct (permits_audio_state _ _ _ _ H) as [-> | (_ & n & ->)]).
    by destruct ok. }
  destruct ok; [|by apply update_refused in H as ->].
  destruct m; simpl in H; try (injection H as <-; exact Hf); try (case_match eqn:Hact; [|discriminate]).
  - by eapply start_follows.
  - apply is_active_start in Hact as (st & Hst & _). destruct Hf as [Hs Hg].
    destruct log as [g|]; [|rewrite Hst in Hs; discriminate Hs]. destruct (Hg g eq_refl) as [Hp Hk].
    unfold update_boundary in H. case_match; [discriminate|]. injection H as <-.
    split; [done|]. intros g' [= <-]. split; [done|]. by apply keeps_snoc.
  - apply is_active_start in Hact as (st & Hst & _). destruct Hf as [Hs Hg].
    destruct log as [g|]; [|rewrite Hst in Hs; discriminate Hs]. destruct (Hg g eq_refl) as [Hp Hk].
    unfold update_pause in H. early_returns H ltac:(discriminate). injection H as <-.
    split; [done|]. intros g' [= <-]. by split.
  - unfold update_stop in H. early_returns H ltac:(discriminate). injection H as <-.
    cbn [log_event]. by destruct (stream_start c).
Qed.

Lemma relay_follows : forall es c log, follows_log c log ->
  follows_log (relay es c).2 (fold_left log_event (relay es c).1 log).
Proof.
  induction es as [|e es IH]; intros c log Hf; [done|]. simpl.
  destruct (offer e c) as [ok c1] eqn:E. specialize (IH c1 _ (offer_follows _ _ _ _ _ E Hf)).
  destruct (relay es c1) as [out c2]. by destruct ok.
Qed.

(** The start with the track that is on: the last boundary that is audible. *)
Definition on_air (played : Z) (bs : list TrackBoundary) (st : StreamStart) : StreamStart :=
  match last (filter (audible played) bs) with Some b => at_track b st | None => st end.

Lemma split_boundaries_on_air : forall played bs st,
  split_boundaries played bs st = (on_air played bs st, filter (fun b => ~ audible played b) bs).
Proof.
  intros played bs. unfold on_air. induction bs as [|b bs IH]; intros st; [done|]. cbn [split_boundaries].
  rewrite !filter_cons. destruct (audible played b) eqn:E; rewrite IH; cbn [Is_true].
  - rewrite decide_True by done. rewrite decide_False by naive_solver. rewrite last_cons. by destruct (last _).
  - rewrite decide_False by naive_solver. by rewrite decide_True by naive_solver.
Qed.

(** C8. A listener that joins late is told what is on.  Whatever history of
    controls and packets the host went through, what it replays at [now] is
    determined by what it relayed: nothing when the latest start was stopped;
    else that start, naming the last track whose boundary has been reached at
    the position of [now] or of the pause, then in order the boundaries that
    have not been reached, then the pause if the stream has not been started
    since.  Of the boundaries relayed since the stream began none is missing,
    except ones heard before a pause from which the stream was resumed and ones
    with a hundred newer ones. *)
Theorem late_joiner_is_told_what_is_on : forall es now,
  let '(out, host) := relay es PlaybackControls_default in
  match programme out with
  | None => snapshot_at now host = []
  | Some g =>
      let played := played_at now g.(on_pause) g.(on_start) in
      exists kept, keeps_newest g.(announced) kept /\ StronglySorted earlier kept
        /\ snapshot_at now host =
           CStreamStart (on_air played kept g.(on_start))
           :: map CTrackBoundary (filter (fun b => ~ audible played b) kept)
           ++ match g.(on_pause) with Some p => [CPause p] | None => [] end
  end.
Proof.
  intros es now. pose proof (relay_follows es PlaybackControls_default None) as Hf.
  pose proof (relay_controls_ok es PlaybackControls_default) as Hok.
  destruct (relay es PlaybackControls_default) as [out host]. unfold programme. simpl in Hf, Hok.
  destruct Hf as [Hst Hg]; [split; done|]. destruct Hok as [Hs _ _]; [split; [constructor|done|done]|].
  unfold snapshot_at. rewrite Hst. destruct (fold_left _ _ _) as [g|]; [|done]. cbn [fmap option_fmap option_map].
  destruct (Hg g eq_refl) as [Hp Hk]. exists (boundaries host). split_and!; [done..|].
  rewrite Hp, split_boundaries_on_air. done.
Qed.

(** ** Witnesses *)

Module PlaybackExample.
Definition start_at (t : Z) : event :=
  Control (CStreamStart (mkStreamStart [1] [2] t 48000 2 480 None None)).
Definition packet_at (n t : Z) : event :=
  Audio (mkAudioDatagram [1] [2] n PcmS16Le 48000 2 480 (n * 480) t []).
Definition stop_at (t : Z) : Stop := mkStop [1] [2] t.
Definition boundary_at (n : Z) : event := Control (CTrackBoundary (mkTrackBoundary [1] [2] n [3] [4])).
Definition pause_at (t : Z) : event := Control (CPause (mkPause [1] [2] t)).

(** A stream that is stopped and played again while its old packets and its old
    start still arrive. *)
Definition history : list event :=
  [start_at 1000; packet_at 0 1000; Control (CStop (stop_at 1500)); start_at 1200; packet_at 1 1010;
   start_at 2000; packet_at 1 2010; packet_at 0 2000; packet_at 1 2010; Control (CStop (stop_at 1400));
   boundary_at 4800; boundary_at 480000; pause_at 2500].
End PlaybackExample.

Lemma stop_retires_its_past_witness :
  length (relay PlaybackExample.history PlaybackControls_default).1 = 9%nat /\
  ForallOrdPairs after_stop (relay PlaybackExample.history PlaybackControls_default).1.
Proof. split; [vm_compute; reflexivity|]. apply (stop_retires_its_past [1]). repeat constructor. Defined.

Lemma replayed_generation_is_whole_witness :
  let c := (relay (take 2 PlaybackExample.history) PlaybackControls_default).2 in
  let g := generation (drop 3 PlaybackExample.history)
             (update (CStop (PlaybackExample.stop_at 1500)) c).2 ([], None) in
  length g.1 = 2%nat /\ whole_generation g.1.
Proof.
  split; [vm_compute; reflexivity|].
  exact (proj1 (replayed_generation_is_whole (PlaybackExample.stop_at 1500) (drop 3 PlaybackExample.history)
           (relay (take 2 PlaybackExample.history) PlaybackControls_default).2 _ eq_refl)).
Defined.

(** Both boundaries of the history are on in its pause, one reached and one to
    come. *)
Example history_replayed :
  let '(out, host) := relay PlaybackExample.history PlaybackControls_default in
  (fun g => map snd g.(announced)) <$> programme out = Some [false; false]
  /\ map (fun m => match m with
       | CStreamStart st => (1, st.(start_current_entry_id))
       | CTrackBoundary b => (2, Some b.(boundary_entry_id))
       | CPause _ => (3, None)
       | _ => (4, None) end) (snapshot_at 2400 host) = [(1, Some [3]); (2, Some [3]); (3, None)].
Proof. vm_compute. split; reflexivity. Qed.
