(* ===== verification/ClockSync.v ===== *)
(** The listener's clock synchronization (src/rust/silent-disco-core/src/sync):
    the four-timestamp sample of types.rs and the bounded estimator of
    estimator.rs.  Every operation takes the estimator's state and returns the
    new state with its result, failures included; the maps and deques are
    those of the code, and [f64] arithmetic is IEEE binary64. *)
From Stdlib Require Import ZArith Lia Sorting.Sorted.
From stdpp Require Import numbers list prelude.
From S2P Require Import Prelude BTreeMap Float64 Domain.

(** ** One exchange *)

Record SyncExchange : Type := mkSyncExchange {
exchange_correlation_id : Z;
t1_local_send : Z;
t2_host_receive : Z;
t3_host_send : Z;
t4_local_receive : Z
}.

Record SyncSample : Type := mkSyncSample {
sample_correlation_id : Z;
sample_local_receive_time : Z;
sample_round_trip_time_ms : f64;
sample_offset_ms : f64
}.

Inductive SyncTimestampError : Type :=
| ExchangeLocalClockMovedBackwards
| HostClockMovedBackwards
| HostProcessingExceedsRoundTrip.

(** [checked_elapsed_since], for both clock types. *)
Definition checked_elapsed_since (later earlier : Z) : option Z := checked_sub later earlier.

Definition from_exchange (x : SyncExchange) : result SyncSample SyncTimestampError :=
  let? local_round_trip :=
    ok_or (checked_elapsed_since x.(t4_local_receive) x.(t1_local_send))
      ExchangeLocalClockMovedBackwards in
  let? host_processing :=
    ok_or (checked_elapsed_since x.(t3_host_send) x.(t2_host_receive))
      HostClockMovedBackwards in
  let? network_round_trip :=
    ok_or (checked_sub local_round_trip host_processing) HostProcessingExceedsRoundTrip in
  let offset_twice :=
    (x.(t2_host_receive) - x.(t1_local_send)) + (x.(t3_host_send) - x.(t4_local_receive)) in
  Ok {| sample_correlation_id := x.(exchange_correlation_id);
        sample_local_receive_time := x.(t4_local_receive);
        sample_round_trip_time_ms := f64_of_Z network_round_trip;
        sample_offset_ms := f64_div (f64_of_Z offset_twice) (f64_of_Z 2) |}.

(** ** Configuration and state *)

Definition MAX_PENDING_PROBES : Z := 64.
Definition MAX_ESTIMATOR_SAMPLES : Z := 128.
Definition MAX_DRIFT_HISTORY_SAMPLES : Z := 256.
Definition PENDING_PROBE_MAX_AGE_MS : Z := 5000.
Definition ACQUISITION_ADAPT_AFTER_REJECTIONS : Z := 3.
Definition ACQUISITION_ADAPT_AFTER_MS : Z := 750.
Definition ACQUISITION_ADAPTIVE_CEILING_MS : f64 := f64_of_Z 600.
Definition ACQUISITION_HARD_CEILING_AFTER_MS : Z := 2000.
Definition ACQUISITION_HARD_CEILING_MS : f64 := f64_of_Z 1000.
Definition ACQUISITION_REJECTED_RTT_HISTORY : Z := 12.

Record SyncEstimatorConfig : Type := mkSyncEstimatorConfig {
max_samples : Z;
max_accepted_rtt_ms : f64;
cadence_ms : Z;
drift_threshold_ms : f64;
drift_history_size : Z
}.

Definition SyncEstimatorConfig_default : SyncEstimatorConfig :=
  mkSyncEstimatorConfig 12 (f64_of_Z 200) 2000 (f64_of_Z 18) 24.

Record SyncSnapshot : Type := mkSyncSnapshot {
snapshot_offset_ms : f64;
snapshot_round_trip_time_ms : f64;
snapshot_jitter_ms : f64;
snapshot_confidence : SyncConfidence;
snapshot_skew_ppm : f64;
accepted_sample_count : Z
}.

Definition SyncSnapshot_default : SyncSnapshot :=
  mkSyncSnapshot (f64_of_Z 0) (f64_of_Z 0) (f64_of_Z 0) Unknown (f64_of_Z 0) 0.

Record SyncAcquisitionStatus : Type := mkSyncAcquisitionStatus {
rejected_sample_count : Z;
status_elapsed_ms : Z;
status_effective_rtt_limit_ms : f64;
status_degraded_lock : bool
}.

Record SyncObservation : Type := mkSyncObservation {
observation_sample : SyncSample;
observation_accepted : bool;
observation_snapshot : SyncSnapshot;
observation_acquisition : SyncAcquisitionStatus
}.

Inductive SyncDecision : Type :=
| Wait | InitialProbeRequired | PeriodicProbeRequired | DriftProbeRequired.

Inductive SyncEstimatorError : Type :=
| InvalidConfiguration
| DuplicateCorrelationId (correlation_id : Z)
| PendingProbeLimitReached (maximum : Z)
| StaleCorrelationId (correlation_id : Z)
| CorrelationTimestampMismatch (correlation_id : Z)
| Timestamp (error : SyncTimestampError)
| LocalClockMovedBackwards.

Definition SyncEstimatorConfig_validate (c : SyncEstimatorConfig) :
  result SyncEstimatorConfig SyncEstimatorError :=
  if in_range 1 MAX_ESTIMATOR_SAMPLES c.(max_samples)
     && f64_is_finite c.(max_accepted_rtt_ms)
     && f64_leb (f64_of_Z 0) c.(max_accepted_rtt_ms)
     && (0 <? c.(cadence_ms))
     && f64_is_finite c.(drift_threshold_ms)
     && f64_leb (f64_of_Z 0) c.(drift_threshold_ms)
     && in_range 1 MAX_DRIFT_HISTORY_SAMPLES c.(drift_history_size)
  then Ok c else Err InvalidConfiguration.

Record ClockSyncEstimator : Type := mkClockSyncEstimator {
est_config : SyncEstimatorConfig;
pending : btmap Z;
accepted_samples : list SyncSample;
drift_history : list (Z * f64);
last_accepted_sync_at : option Z;
acquisition_started_at : option Z;
rejected_acquisition_rtts : list f64;
acquisition_rejected_count : Z;
degraded_lock : bool
}.

Definition ClockSyncEstimator_new (config : SyncEstimatorConfig) :
  result ClockSyncEstimator SyncEstimatorError :=
  let? config := SyncEstimatorConfig_validate config in
  Ok {| est_config := config; pending := bt_empty; accepted_samples := [];
        drift_history := []; last_accepted_sync_at := None; acquisition_started_at := None;
        rejected_acquisition_rtts := []; acquisition_rejected_count := 0;
        degraded_lock := false |}.

Definition is_empty {A : Type} (l : list A) : bool := match l with [] => true | _ => false end.

(** ** Probes *)

Definition set_pending (p : btmap Z) (e : ClockSyncEstimator) : ClockSyncEstimator :=
  {| est_config := e.(est_config); pending := p; accepted_samples := e.(accepted_samples);
     drift_history := e.(drift_history); last_accepted_sync_at := e.(last_accepted_sync_at);
     acquisition_started_at := e.(acquisition_started_at);
     rejected_acquisition_rtts := e.(rejected_acquisition_rtts);
     acquisition_rejected_count := e.(acquisition_rejected_count);
     degraded_lock := e.(degraded_lock) |}.

Definition set_acquisition_started_at (t : option Z) (e : ClockSyncEstimator) :
  ClockSyncEstimator :=
  {| est_config := e.(est_config); pending := e.(pending);
     accepted_samples := e.(accepted_samples);
     drift_history := e.(drift_history); last_accepted_sync_at := e.(last_accepted_sync_at);
     acquisition_started_at := t;
     rejected_acquisition_rtts := e.(rejected_acquisition_rtts);
     acquisition_rejected_count := e.(acquisition_rejected_count);
     degraded_lock := e.(degraded_lock) |}.

Definition evict_stale_pending_probes (now : Z) (e : ClockSyncEstimator) : ClockSyncEstimator :=
  set_pending
    (bt_retain (fun _ sent_at => saturating_sub now sent_at <? PENDING_PROBE_MAX_AGE_MS)
       e.(pending)) e.

Definition begin_probe (correlation_id local_send_time : Z) (e : ClockSyncEstimator) :
  result unit SyncEstimatorError * ClockSyncEstimator :=
  if bt_contains_key correlation_id e.(pending) then
    (Err (DuplicateCorrelationId correlation_id), e)
  else
    let e := evict_stale_pending_probes local_send_time e in
    if MAX_PENDING_PROBES <=? len e.(pending) then
      (Err (PendingProbeLimitReached MAX_PENDING_PROBES), e)
    else
      let e :=
        if is_empty e.(accepted_samples)
           && match e.(acquisition_started_at) with None => true | Some _ => false end
        then set_acquisition_started_at (Some local_send_time) e else e in
      (Ok tt, set_pending (bt_insert correlation_id local_send_time e.(pending)) e).

(** ** The acceptance gate *)

Definition acquisition_elapsed_ms (now : Z) (e : ClockSyncEstimator) : Z :=
  match e.(acquisition_started_at) with
  | None => 0
  | Some started => saturating_sub now started
  end.

(** [measured[measured.len() / 2]] of the non-empty, sorted rejected RTTs. *)
Definition median_rejected_rtt (e : ClockSyncEstimator) : f64 :=
  let measured := sort_by f64_total_leb e.(rejected_acquisition_rtts) in
  List.nth (Nat.div (length measured) 2) measured SpecFloat.S754_nan.

Definition effective_rtt_limit_ms (now : Z) (e : ClockSyncEstimator) : f64 :=
  let max_accepted := e.(est_config).(max_accepted_rtt_ms) in
  if negb (is_empty e.(accepted_samples)) then max_accepted
  else
    let elapsed_ms := acquisition_elapsed_ms now e in
    if ACQUISITION_HARD_CEILING_AFTER_MS <=? elapsed_ms then
      f64_max max_accepted ACQUISITION_HARD_CEILING_MS
    else if (elapsed_ms <? ACQUISITION_ADAPT_AFTER_MS)
            || (e.(acquisition_rejected_count) <? ACQUISITION_ADAPT_AFTER_REJECTIONS)
            || is_empty e.(rejected_acquisition_rtts)
    then max_accepted
    else
      f64_min
        (f64_max
           (f64_mul (median_rejected_rtt e) (f64_div (f64_of_Z 3) (f64_of_Z 2)))
           max_accepted)
        (f64_max ACQUISITION_ADAPTIVE_CEILING_MS max_accepted).

Definition acquisition_status (now : Z) (e : ClockSyncEstimator) : SyncAcquisitionStatus :=
  {| rejected_sample_count := e.(acquisition_rejected_count);
     status_elapsed_ms := acquisition_elapsed_ms now e;
     status_effective_rtt_limit_ms := effective_rtt_limit_ms now e;
     status_degraded_lock := e.(degraded_lock) |}.

(** ** Snapshots and decisions *)

Definition classify_confidence (round_trip_time_ms jitter_ms : f64) : SyncConfidence :=
  if f64_leb round_trip_time_ms (f64_of_Z 20) && f64_leb jitter_ms (f64_of_Z 2) then Excellent
  else if f64_leb round_trip_time_ms (f64_of_Z 50) && f64_leb jitter_ms (f64_of_Z 5) then Good
  else if f64_leb round_trip_time_ms (f64_of_Z 90) && f64_leb jitter_ms (f64_of_Z 12) then Fair
  else Poor.

Definition estimate_skew_ppm (history : list (Z * f64)) : f64 :=
  if len history <? 3 then f64_of_Z 0
  else match history with
  | [] => f64_of_Z 0
  | (origin, _) :: _ =>
      let points := map (fun '(time, offset) => (f64_of_Z (saturating_sub time origin), offset))
                      history in
      let divisor := f64_of_Z (len points) in
      let x_mean := f64_div (f64_sum (map fst points)) divisor in
      let y_mean := f64_div (f64_sum (map snd points)) divisor in
      let numerator :=
        f64_sum (map (fun '(x, y) => f64_mul (f64_sub x x_mean) (f64_sub y y_mean)) points) in
      let denominator :=
        f64_sum (map (fun '(x, _) => f64_mul (f64_sub x x_mean) (f64_sub x x_mean)) points) in
      if f64_eqb denominator (f64_of_Z 0) then f64_of_Z 0
      else f64_mul (f64_div numerator denominator) (f64_of_Z 1000000)
  end.

Definition rtt_leb (left right : SyncSample) : bool :=
  f64_total_leb left.(sample_round_trip_time_ms) right.(sample_round_trip_time_ms).

(** The samples kept for the estimate: the half with the lowest round trips. *)
Definition selected_samples (samples : list SyncSample) : list SyncSample :=
  let selected := sort_by rtt_leb samples in
  take (Nat.max (Nat.div (length selected) 2) 1) selected.

Definition snapshot (e : ClockSyncEstimator) : SyncSnapshot :=
  if is_empty e.(accepted_samples) then SyncSnapshot_default
  else
    let selected := selected_samples e.(accepted_samples) in
    let sample_count := len selected in
    let divisor := f64_of_Z sample_count in
    let offset_ms := f64_div (f64_sum (map sample_offset_ms selected)) divisor in
    let round_trip_time_ms :=
      f64_div (f64_sum (map sample_round_trip_time_ms selected)) divisor in
    let jitter_ms :=
      if sample_count =? 1 then f64_of_Z 0
      else f64_div
             (f64_sum (map (fun s => f64_abs (f64_sub s.(sample_offset_ms) offset_ms)) selected))
             divisor in
    {| snapshot_offset_ms := offset_ms;
       snapshot_round_trip_time_ms := round_trip_time_ms;
       snapshot_jitter_ms := jitter_ms;
       snapshot_confidence := classify_confidence round_trip_time_ms jitter_ms;
       snapshot_skew_ppm := estimate_skew_ppm e.(drift_history);
       accepted_sample_count := len e.(accepted_samples) |}.

Definition decision (now : Z) (s : SyncSnapshot) (e : ClockSyncEstimator) :
  result SyncDecision SyncEstimatorError :=
  match e.(last_accepted_sync_at) with
  | None => Ok InitialProbeRequired
  | Some last_sync =>
      let? elapsed := ok_or (checked_elapsed_since now last_sync) LocalClockMovedBackwards in
      if f64_ltb e.(est_config).(drift_threshold_ms) (f64_abs s.(snapshot_offset_ms))
      then Ok DriftProbeRequired
      else if e.(est_config).(cadence_ms) <=? elapsed then Ok PeriodicProbeRequired
      else Ok Wait
  end.

(** ** Responses *)

(** The branch of [observe_response] for an accepted sample. *)
Definition record_accepted (sample : SyncSample) (e : ClockSyncEstimator) : ClockSyncEstimator :=
  {| est_config := e.(est_config); pending := e.(pending);
     accepted_samples :=
       push_bounded e.(est_config).(max_samples) sample e.(accepted_samples);
     drift_history :=
       push_bounded e.(est_config).(drift_history_size)
         (sample.(sample_local_receive_time), sample.(sample_offset_ms)) e.(drift_history);
     last_accepted_sync_at := Some sample.(sample_local_receive_time);
     acquisition_started_at := e.(acquisition_started_at);
     rejected_acquisition_rtts := e.(rejected_acquisition_rtts);
     acquisition_rejected_count := e.(acquisition_rejected_count);
     degraded_lock :=
       if is_empty e.(accepted_samples)
          && f64_ltb e.(est_config).(max_accepted_rtt_ms) sample.(sample_round_trip_time_ms)
       then true else e.(degraded_lock) |}.

(** The branch for a sample rejected during acquisition. *)
Definition record_rejected (sample : SyncSample) (e : ClockSyncEstimator) : ClockSyncEstimator :=
  {| est_config := e.(est_config); pending := e.(pending);
     accepted_samples := e.(accepted_samples); drift_history := e.(drift_history);
     last_accepted_sync_at := e.(last_accepted_sync_at);
     acquisition_started_at := e.(acquisition_started_at);
     rejected_acquisition_rtts :=
       push_bounded ACQUISITION_REJECTED_RTT_HISTORY sample.(sample_round_trip_time_ms)
         e.(rejected_acquisition_rtts);
     acquisition_rejected_count := saturating_add u64_max e.(acquisition_rejected_count) 1;
     degraded_lock := e.(degraded_lock) |}.

Definition observe_response (correlation_id echoed_local_send_time host_receive_time
  host_send_time local_receive_time : Z) (e : ClockSyncEstimator) :
  result SyncObservation SyncEstimatorError * ClockSyncEstimator :=
  match bt_get correlation_id e.(pending) with
  | None => (Err (StaleCorrelationId correlation_id), e)
  | Some registered_send_time =>
      let e := set_pending (bt_remove correlation_id e.(pending)) e in
      if negb (registered_send_time =? echoed_local_send_time) then
        (Err (CorrelationTimestampMismatch correlation_id), e)
      else
        match from_exchange
                (mkSyncExchange correlation_id registered_send_time host_receive_time
                   host_send_time local_receive_time) with
        | Err error => (Err (Timestamp error), e)
        | Ok sample =>
            let limit := effective_rtt_limit_ms local_receive_time e in
            let accepted := f64_leb sample.(sample_round_trip_time_ms) limit in
            let e :=
              if accepted then record_accepted sample e
              else if is_empty e.(accepted_samples) then record_rejected sample e
              else e in
            (Ok {| observation_sample := sample;
                   observation_accepted := accepted;
                   observation_snapshot := snapshot e;
                   observation_acquisition :=
                     {| rejected_sample_count := e.(acquisition_rejected_count);
                        status_elapsed_ms := acquisition_elapsed_ms local_receive_time e;
                        status_effective_rtt_limit_ms := limit;
                        status_degraded_lock := e.(degraded_lock) |} |}, e)
        end
  end.

(** ** Invariant *)

(** What holds of every estimator the code can build: the configuration passed
    validation, every collection is within its bound, the rejection history is
    the last twelve rejections, and a lock state exists only after an accepted
    sample. *)
Record estimator_ok (e : ClockSyncEstimator) : Prop := {
ok_config : SyncEstimatorConfig_validate e.(est_config) = Ok e.(est_config);
ok_pending : bt_ok e.(pending);
ok_pending_len : len e.(pending) <= MAX_PENDING_PROBES;
ok_accepted_len : len e.(accepted_samples) <= e.(est_config).(max_samples);
ok_drift_len : len e.(drift_history) <= e.(est_config).(drift_history_size);
ok_rejected_count : 0 <= e.(acquisition_rejected_count) <= u64_max;
ok_rejected_len : len e.(rejected_acquisition_rtts)
                  = Z.min e.(acquisition_rejected_count) ACQUISITION_REJECTED_RTT_HISTORY;
ok_last_sync : e.(last_accepted_sync_at) = None <-> e.(accepted_samples) = [];
ok_degraded : e.(degraded_lock) = true -> e.(accepted_samples) <> []
}.

Lemma validate_same (c c' : SyncEstimatorConfig) :
  SyncEstimatorConfig_validate c = Ok c' -> c' = c.
Proof. unfold SyncEstimatorConfig_validate. destruct (_ && _); congruence. Qed.

Lemma validate_bounds (c c' : SyncEstimatorConfig) :
  SyncEstimatorConfig_validate c = Ok c' ->
  1 <= c.(max_samples) <= MAX_ESTIMATOR_SAMPLES
  /\ 1 <= c.(drift_history_size) <= MAX_DRIFT_HISTORY_SAMPLES
  /\ f64_is_nan c.(max_accepted_rtt_ms) = false.
Proof.
  unfold SyncEstimatorConfig_validate. destruct (_ && _) eqn:E; [|done]. intros _.
  to_prop. repeat match goal with H : in_range _ _ _ = true |- _ => apply in_range_iff in H end.
  split_and!; try lia. by destruct (max_accepted_rtt_ms c).
Qed.

Lemma is_empty_true {A : Type} (l : list A) : is_empty l = true <-> l = [].
Proof. by destruct l. Qed.

Lemma is_empty_false {A : Type} (l : list A) : is_empty l = false <-> l <> [].
Proof. by destruct l. Qed.

Lemma new_ok (c : SyncEstimatorConfig) (e : ClockSyncEstimator) :
  ClockSyncEstimator_new c = Ok e -> estimator_ok e.
Proof.
  unfold ClockSyncEstimator_new. destruct (SyncEstimatorConfig_validate c) as [c'|] eqn:E; [|done].
  intros [= <-]. pose proof (validate_same _ _ E) as ->. pose proof (validate_bounds _ _ E).
  split; cbn; try done; try apply bt_ok_empty; unfold len, MAX_PENDING_PROBES, u64_max; simpl; lia.
Qed.

Lemma set_pending_ok (p : btmap Z) (e : ClockSyncEstimator) :
  estimator_ok e -> bt_ok p -> len p <= MAX_PENDING_PROBES -> estimator_ok (set_pending p e).
Proof. intros [] ? ?. by split. Qed.

Lemma len_remove_le {V : Type} (k : Z) (m : btmap V) : len (bt_remove k m) <= len m.
Proof.
  destruct (bt_get k m) eqn:E; [rewrite (bt_len_remove_present _ _ _ E); lia|].
  rewrite bt_remove_absent by done. lia.
Qed.

Lemma remove_pending_ok (k : Z) (e : ClockSyncEstimator) :
  estimator_ok e -> estimator_ok (set_pending (bt_remove k e.(pending)) e).
Proof.
  intros H. pose proof (len_remove_le k e.(pending)). destruct H eqn:?.
  apply set_pending_ok; [done|auto with rust|lia].
Qed.

Lemma evict_ok (now : Z) (e : ClockSyncEstimator) :
  estimator_ok e -> estimator_ok (evict_stale_pending_probes now e).
Proof.
  intros H. apply set_pending_ok; [done|apply bt_ok_retain, H|].
  etransitivity; [apply bt_len_retain_le|apply H].
Qed.

Lemma begin_probe_ok (id t : Z) (e : ClockSyncEstimator) :
  estimator_ok e -> estimator_ok (begin_probe id t e).2.
Proof.
  intros H. unfold begin_probe. destruct (bt_contains_key id e.(pending)); [done|].
  apply (evict_ok t) in H. destruct (MAX_PENDING_PROBES <=? _) eqn:E; [done|]. to_prop.
  set (e1 := evict_stale_pending_probes t e) in *.
  assert (len (bt_insert id t e1.(pending)) <= MAX_PENDING_PROBES) as Hlen
    by (etransitivity; [apply bt_len_insert_le|lia]).
  assert (bt_ok (bt_insert id t e1.(pending))) as Hok by (apply bt_ok_insert, H).
  destruct (is_empty _ && _); cbn [snd]; apply set_pending_ok; try done.
  destruct H. by split.
Qed.

Lemma record_accepted_ok (s : SyncSample) (e : ClockSyncEstimator) :
  estimator_ok e -> estimator_ok (record_accepted s e).
Proof.
  intros []. pose proof (validate_bounds _ _ ok_config0) as (? & ? & _).
  split; cbn; try done.
  - apply len_push_bounded; lia.
  - apply len_push_bounded; lia.
  - split; [done|]. intros Hp. by apply push_bounded_not_nil in Hp.
  - intros _. apply push_bounded_not_nil.
Qed.

Lemma record_rejected_ok (s : SyncSample) (e : ClockSyncEstimator) :
  estimator_ok e -> estimator_ok (record_rejected s e).
Proof.
  intros []. split; cbn; try done; unfold saturating_add.
  - lia.
  - unfold push_bounded. rewrite len_app, len_cons, len_nil.
    destruct (len _ =? _) eqn:E; to_prop; unfold ACQUISITION_REJECTED_RTT_HISTORY, u64_max in *;
      [|lia].
    destruct (rejected_acquisition_rtts e) as [|x l] eqn:El; [done|].
    rewrite len_cons in *. cbn [tail]. lia.
Qed.

Lemma observe_response_ok (id echoed t2 t3 t4 : Z) (e : ClockSyncEstimator) :
  estimator_ok e -> estimator_ok (observe_response id echoed t2 t3 t4 e).2.
Proof.
  intros H. unfold observe_response. destruct (bt_get id e.(pending)) as [sent|] eqn:Eg; [|done].
  apply (remove_pending_ok id) in H. destruct (negb _); [done|].
  destruct (from_exchange _) as [s|]; [|done]. cbn [snd].
  repeat case_match; auto using record_accepted_ok, record_rejected_ok.
Qed.

(** ** Histories *)

(** The operations that change an estimator, in the order the session calls them. *)
Inductive SyncEvent : Type :=
| BeginProbe (id send_time : Z)
| ObserveResponse (id echoed t2 t3 t4 : Z).

Definition sync_step (e : ClockSyncEstimator) (event : SyncEvent) : ClockSyncEstimator :=
  match event with
  | BeginProbe id t => (begin_probe id t e).2
  | ObserveResponse id echoed t2 t3 t4 => (observe_response id echoed t2 t3 t4 e).2
  end.

Definition sync_run (e : ClockSyncEstimator) (events : list SyncEvent) : ClockSyncEstimator :=
  fold_left sync_step events e.

Lemma sync_run_ok (events : list SyncEvent) (e : ClockSyncEstimator) :
  estimator_ok e -> estimator_ok (sync_run e events).
Proof.
  revert e. induction events as [|ev events IH]; intros e H; [done|]. apply IH.
  destruct ev; [by apply begin_probe_ok|by apply observe_response_ok].
Qed.

(** ** Properties of the sample *)

(** The exchange seen by a listener whose host clock runs [theta] ahead, with
    outbound delay [d1], host processing [p] and return delay [d2]. *)
Definition physical_exchange (id t1 theta d1 p d2 : Z) : SyncExchange :=
  mkSyncExchange id t1 (t1 + d1 + theta) (t1 + d1 + p + theta) (t1 + d1 + p + d2).

Lemma from_exchange_physical (id t1 theta d1 p d2 : Z) :
  0 <= d1 -> 0 <= p -> 0 <= d2 ->
  from_exchange (physical_exchange id t1 theta d1 p d2)
  = Ok (mkSyncSample id (t1 + d1 + p + d2) (f64_of_Z (d1 + d2))
          (f64_div (f64_of_Z (2 * theta + (d1 - d2))) (f64_of_Z 2))).
Proof.
  intros H1 H2 H3. unfold from_exchange, checked_elapsed_since, checked_sub. cbn.
  rewrite (proj2 (Z.leb_le _ _)) by lia. cbn. rewrite (proj2 (Z.leb_le _ _)) by lia. cbn.
  rewrite (proj2 (Z.leb_le _ _)) by lia. cbn. do 2 f_equal; [f_equal; lia|].
  do 2 f_equal. lia.
Qed.

(** Four-timestamp estimate: for a host clock [theta] ms ahead of the
    listener's and any non-negative path delays, the sample's round trip is
    the two delays without the host's processing time, its offset is half an
    integer within [d1 + d2] of [2 * theta] (so the offset error is at most
    half the round trip), and on a symmetric path the offset is exactly
    [theta]. *)
Lemma sample_recovers_offset (id t1 theta d1 p d2 : Z) :
  0 <= d1 -> 0 <= p -> 0 <= d2 -> Z.abs (2 * theta) < 2 ^ 53 ->
  exists s twice,
    from_exchange (physical_exchange id t1 theta d1 p d2) = Ok s
    /\ s.(sample_local_receive_time) = t1 + d1 + p + d2
    /\ s.(sample_round_trip_time_ms) = f64_of_Z (d1 + d2)
    /\ s.(sample_offset_ms) = f64_div (f64_of_Z twice) (f64_of_Z 2)
    /\ Z.abs (twice - 2 * theta) <= d1 + d2
    /\ (d1 = d2 -> s.(sample_offset_ms) = f64_of_Z theta).
Proof.
  intros H1 H2 H3 Ht. do 2 eexists. split; [by apply from_exchange_physical|]. cbn.
  split_and!; [done..|lia|]. intros ->.
  replace (2 * theta + (d2 - d2)) with (theta * 2) by lia. apply f64_div_of_Z; lia.
Qed.

(** Rejected exchanges: each timestamp error is reported exactly when the
    corresponding clock runs backwards or the host claims more processing time
    than the whole exchange took, in that order of precedence. *)
Lemma exchange_errors (x : SyncExchange) :
  (from_exchange x = Err ExchangeLocalClockMovedBackwards
   <-> x.(t4_local_receive) < x.(t1_local_send))
  /\ (from_exchange x = Err HostClockMovedBackwards
      <-> x.(t1_local_send) <= x.(t4_local_receive) /\ x.(t3_host_send) < x.(t2_host_receive))
  /\ (from_exchange x = Err HostProcessingExceedsRoundTrip
      <-> x.(t1_local_send) <= x.(t4_local_receive) /\ x.(t2_host_receive) <= x.(t3_host_send)
          /\ x.(t4_local_receive) - x.(t1_local_send) < x.(t3_host_send) - x.(t2_host_receive)).
Proof.
  unfold from_exchange, checked_elapsed_since, checked_sub.
  destruct (_ <=? _) eqn:E1; cbn; [|to_prop; split_and!; split; try done; lia].
  destruct (_ <=? t3_host_send x) eqn:E2; cbn; [|to_prop; split_and!; split; try done; lia].
  destruct (_ <=? _ - _) eqn:E3; cbn; to_prop; split_and!; split; try done; lia.
Qed.

(** ** Properties of the estimator *)

(** Bounded memory: from a validated configuration, no sequence of probes
    and responses, in any order and with any timestamps, takes the estimator
    out of its invariant: at most 64 pending probes with distinct ids, at most
    [max_samples] samples, [drift_history_size] drift points and 12 rejected
    round trips; a degraded lock only after an accepted sample. *)
Lemma estimator_invariant (c : SyncEstimatorConfig) (e : ClockSyncEstimator)
  (events : list SyncEvent) :
  ClockSyncEstimator_new c = Ok e -> estimator_ok (sync_run e events).
Proof. intros H. by apply sync_run_ok, (new_ok c). Qed.

(** A correlation id is consumed at most once: after a response with that
    id, whatever came of it, the next response with the same id is reported
    stale and changes nothing. *)
Lemma correlation_consumed_once (id a b c d a' b' c' d' : Z) (e : ClockSyncEstimator) :
  estimator_ok e ->
  let e' := (observe_response id a b c d e).2 in
  observe_response id a' b' c' d' e' = (Err (StaleCorrelationId id), e').
Proof.
  intros H e'. assert (bt_get id e'.(pending) = None) as Hn.
  { subst e'. unfold observe_response. destruct (bt_get id e.(pending)) as [sent|] eqn:Eg; [|done].
    pose proof (bt_get_remove_eq id e.(pending) (ok_pending _ H)) as Hr.
    destruct (negb _); [done|]. destruct (from_exchange _) as [s|]; [|done]. cbn [snd].
    by repeat case_match. }
  unfold observe_response at 1. by rewrite Hn.
Qed.

Lemma bt_retain_none {V : Type} (f : Z -> V -> bool) (m : btmap V) :
  bt_forall (fun k v => f k v = false) m -> bt_retain f m = [].
Proof.
  induction 1 as [|[k v] m H Hm IH]; [done|]. unfold bt_retain in *. simpl in *. by rewrite H.
Qed.

(** Recovery from response loss: however many responses were lost, once
    every pending probe is at least five seconds old a probe with a fresh id
    is admitted, and it is then the only pending one. *)
Lemma probing_recovers (id now : Z) (e : ClockSyncEstimator) :
  bt_get id e.(pending) = None ->
  bt_forall (fun _ sent_at => sent_at + PENDING_PROBE_MAX_AGE_MS <= now) e.(pending) ->
  (begin_probe id now e).1 = Ok tt
  /\ (begin_probe id now e).2.(pending) = [(id, now)].
Proof.
  intros Hf Hold. unfold begin_probe, bt_contains_key. rewrite Hf.
  set (e1 := evict_stale_pending_probes now e).
  assert (e1.(pending) = []) as Hp.
  { cbn. apply bt_retain_none. eapply bt_forall_impl; [|exact Hold].
    intros k v Hv. cbn in *. unfold saturating_sub. apply Z.ltb_ge.
    unfold PENDING_PROBE_MAX_AGE_MS in *. lia. }
  rewrite Hp. destruct (is_empty _ && _); cbn [fst snd pending set_pending].
  - cbn [pending set_acquisition_started_at]. by rewrite Hp.
  - by rewrite Hp.
Qed.

Lemma ceiling_not_nan (a b : f64) :
  f64_is_nan a = false -> f64_is_nan b = false ->
  f64_leb a (f64_max a b) = true /\ f64_leb b (f64_max a b) = true.
Proof. intros Ha Hb. split; [by apply f64_max_ge_l|by apply f64_max_ge_r]. Qed.

(** The acceptance gate: it never drops below the configured limit, never
    exceeds the larger of that limit and the one-second ceiling, equals the
    configured limit as soon as one sample locked the timeline, and before two
    seconds of acquisition stays below the larger of the limit and 600 ms. *)
Lemma gate_bounds (now : Z) (e : ClockSyncEstimator) :
  estimator_ok e ->
  let base := e.(est_config).(max_accepted_rtt_ms) in
  let gate := effective_rtt_limit_ms now e in
  f64_leb base gate = true
  /\ f64_leb gate (f64_max base ACQUISITION_HARD_CEILING_MS) = true
  /\ (e.(accepted_samples) <> [] -> gate = base)
  /\ (acquisition_elapsed_ms now e < ACQUISITION_HARD_CEILING_AFTER_MS ->
      f64_leb gate (f64_max ACQUISITION_ADAPTIVE_CEILING_MS base) = true).
Proof.
  intros H base gate. pose proof (validate_bounds _ _ (ok_config _ H)) as (_ & _ & Hn).
  fold base in Hn. pose proof (f64_leb_refl _ Hn) as Hrefl.
  destruct (ceiling_not_nan base ACQUISITION_HARD_CEILING_MS Hn) as [Hb Hc]; [done|].
  destruct (ceiling_not_nan ACQUISITION_ADAPTIVE_CEILING_MS base) as [Ha Hb']; [done..|].
  unfold gate, effective_rtt_limit_ms. fold base.
  destruct (is_empty e.(accepted_samples)) eqn:Ee; cbn [negb]; [|split_and!; done].
  apply is_empty_true in Ee.
  destruct (_ <=? _) eqn:E1; to_prop.
  { split_and!; [done| |done|lia]. by apply f64_leb_refl, f64_max_not_nan. }
  destruct (_ || _); [split_and!; done|]. set (m := f64_mul _ _).
  assert (f64_leb (f64_max ACQUISITION_ADAPTIVE_CEILING_MS base)
            (f64_max base ACQUISITION_HARD_CEILING_MS) = true) as Hceil.
  { apply f64_max_lub; [|done]. by apply (f64_leb_trans _ ACQUISITION_HARD_CEILING_MS). }
  assert (f64_leb (f64_min (f64_max m base) (f64_max ACQUISITION_ADAPTIVE_CEILING_MS base))
            (f64_max ACQUISITION_ADAPTIVE_CEILING_MS base) = true) as Hmin
    by (apply f64_min_le_r, f64_max_not_nan; done).
  split_and!; [|by eapply f64_leb_trans|done|done].
  apply f64_min_glb; [by apply f64_max_ge_r|done].
Qed.

(** Steady state: once the timeline is locked and the configured limit is
    a whole number [L] of milliseconds, a correlated, well-ordered response is
    accepted exactly when its network round trip is at most [L]; a rejected
    one leaves samples, drift history and rejection counters alone. *)
Lemma steady_state_acceptance (id sent t2 t3 t4 L : Z) (e : ClockSyncEstimator) :
  bt_get id e.(pending) = Some sent -> e.(accepted_samples) <> [] ->
  e.(est_config).(max_accepted_rtt_ms) = f64_of_Z L ->
  t2 <= t3 -> 0 <= (t4 - sent) - (t3 - t2) < 2 ^ 53 -> 0 <= L < 2 ^ 53 ->
  exists s e',
    from_exchange (mkSyncExchange id sent t2 t3 t4) = Ok s
    /\ observe_response id sent t2 t3 t4 e
       = (Ok (mkSyncObservation s ((t4 - sent) - (t3 - t2) <=? L) (snapshot e')
               (mkSyncAcquisitionStatus e.(acquisition_rejected_count)
                  (acquisition_elapsed_ms t4 e) (f64_of_Z L) e.(degraded_lock))), e')
    /\ e' = (if (t4 - sent) - (t3 - t2) <=? L
             then record_accepted s (set_pending (bt_remove id e.(pending)) e)
             else set_pending (bt_remove id e.(pending)) e).
Proof.
  intros Hg Hl HL Ht Hr HL'. unfold observe_response. rewrite Hg, Z.eqb_refl. cbn [negb].
  assert (from_exchange (mkSyncExchange id sent t2 t3 t4)
    = Ok (mkSyncSample id t4 (f64_of_Z ((t4 - sent) - (t3 - t2)))
            (f64_div (f64_of_Z ((t2 - sent) + (t3 - t4))) (f64_of_Z 2)))) as Hs.
  { unfold from_exchange, checked_elapsed_since, checked_sub. cbn.
    rewrite (proj2 (Z.leb_le _ _)) by lia. cbn. rewrite (proj2 (Z.leb_le _ _)) by lia. cbn.
    by rewrite (proj2 (Z.leb_le _ _)) by lia. }
  rewrite Hs. do 2 eexists. split; [done|]. split; [|done].
  unfold effective_rtt_limit_ms. cbn [est_config accepted_samples set_pending].
  rewrite HL. apply is_empty_false in Hl. rewrite Hl. cbn [negb sample_round_trip_time_ms].
  rewrite f64_leb_of_Z by lia. destruct (_ <=? L); [|done].
  cbn [record_accepted accepted_samples set_pending acquisition_rejected_count degraded_lock].
  rewrite Hl. done.
Qed.

Lemma selected_split (l : list SyncSample) :
  exists rest, selected_samples l ++ rest ≡ₚ l
    /\ (forall a b, In a (selected_samples l) -> In b rest -> rtt_leb a b = true)
    /\ len (selected_samples l) = Z.min (len l) (Z.max (len l / 2) 1).
Proof.
  unfold selected_samples. set (n := Nat.max _ _). exists (drop n (sort_by rtt_leb l)). split_and!.
  - rewrite take_drop. apply sort_by_perm.
  - intros a b. apply sort_by_take_smallest; unfold rtt_leb.
    + intros x y. apply f64_total_leb_total.
    + intros x y z. apply f64_total_leb_trans.
  - subst n. unfold len. rewrite length_take, (Permutation_length (sort_by_perm rtt_leb l)).
    rewrite <- (Nat2Z.inj_div _ 2). lia.
Qed.

(** The snapshot is the mean over the half of the accepted samples (at
    least one) with the smallest round trips: those samples and the discarded
    ones are together the accepted samples, and no discarded one is faster. *)
Lemma snapshot_uses_fastest_half (e : ClockSyncEstimator) :
  e.(accepted_samples) <> [] ->
  exists fast slow,
    fast ++ slow ≡ₚ e.(accepted_samples)
    /\ len fast = Z.max (len e.(accepted_samples) / 2) 1
    /\ (forall a b, In a fast -> In b slow ->
          f64_total_leb a.(sample_round_trip_time_ms) b.(sample_round_trip_time_ms) = true)
    /\ (snapshot e).(snapshot_offset_ms)
       = f64_div (f64_sum (map sample_offset_ms fast)) (f64_of_Z (len fast))
    /\ (snapshot e).(snapshot_round_trip_time_ms)
       = f64_div (f64_sum (map sample_round_trip_time_ms fast)) (f64_of_Z (len fast))
    /\ (snapshot e).(accepted_sample_count) = len e.(accepted_samples).
Proof.
  intros Hne. destruct (selected_split e.(accepted_samples)) as (rest & Hp & Hle & Hlen).
  exists (selected_samples e.(accepted_samples)), rest. unfold snapshot.
  rewrite (proj2 (is_empty_false _) Hne). split_and!; try done. rewrite Hlen.
  assert (1 <= len e.(accepted_samples)).
  { destruct e.(accepted_samples); [done|]. rewrite len_cons. pose proof (len_nonneg l). lia. }
  assert (len e.(accepted_samples) / 2 <= len e.(accepted_samples)) by (apply Z.div_le_upper_bound; lia).
  lia.
Qed.

(** ** Exact estimation over symmetric paths *)

(** Responses produced over a path with equal delays in both directions; the
    delay and the host's processing time vary freely from probe to probe. *)
Definition symmetric_event (theta : Z) (event : SyncEvent) : Prop :=
  match event with
  | BeginProbe _ _ => True
  | ObserveResponse _ echoed t2 t3 t4 =>
      exists d p, 0 <= d /\ 0 <= p /\ t2 = echoed + d + theta /\ t3 = echoed + d + p + theta
                  /\ t4 = echoed + d + p + d
  end.

Definition offsets_are (theta : Z) (e : ClockSyncEstimator) : Prop :=
  Forall (fun s => s.(sample_offset_ms) = f64_of_Z theta) e.(accepted_samples).

Lemma symmetric_step (theta : Z) (event : SyncEvent) (e : ClockSyncEstimator) :
  Z.abs (2 * theta) < 2 ^ 53 -> symmetric_event theta event -> offsets_are theta e ->
  offsets_are theta (sync_step e event).
Proof.
  intros Ht Hev He. destruct event as [id t|id echoed t2 t3 t4]; cbn [sync_step].
  - unfold begin_probe. by repeat case_match.
  - destruct Hev as (d & p & Hd & Hp & -> & -> & ->). unfold observe_response.
    destruct (bt_get id _) as [sent|]; [|done]. destruct (negb _) eqn:E; [done|].
    to_prop. subst sent.
    change (mkSyncExchange id echoed _ _ _) with (physical_exchange id echoed theta d p d).
    rewrite from_exchange_physical by done. cbn [snd].
    replace (2 * theta + (d - d)) with (theta * 2) by lia. rewrite f64_div_of_Z by lia.
    repeat case_match; try done. by apply Forall_push_bounded.
Qed.

Lemma symmetric_run (theta : Z) (events : list SyncEvent) (e : ClockSyncEstimator) :
  Z.abs (2 * theta) < 2 ^ 53 -> Forall (symmetric_event theta) events -> offsets_are theta e ->
  offsets_are theta (sync_run e events).
Proof.
  intros Ht Hev. revert e. induction Hev as [|ev events H _ IH]; intros e He; [done|].
  by apply IH, symmetric_step.
Qed.

Lemma map_const {A B : Type} (f : A -> B) (b : B) (l : list A) :
  Forall (fun a => f a = b) l -> map f l = replicate (length l) b.
Proof. induction 1 as [|a l Ha _ IH]; simpl; [done|]. by rewrite Ha, IH. Qed.

(** The mean of [n] copies of an integer is that integer. *)
Lemma mean_const (z : Z) (n : nat) :
  (0 < n)%nat -> Z.of_nat n < 2 ^ 53 -> Z.abs z * Z.of_nat n < 2 ^ 53 ->
  f64_div (f64_sum (replicate n (f64_of_Z z))) (f64_of_Z (Z.of_nat n)) = f64_of_Z z.
Proof.
  intros Hn Hn' Hz.
  assert (foldr Z.add 0 (replicate n z) = z * Z.of_nat n) as Hs by (clear; induction n; simpl; lia).
  assert (foldr (fun x s => Z.abs x + s) 0 (replicate n z) = Z.abs z * Z.of_nat n) as Ha
    by (clear; induction n; simpl; lia).
  replace (replicate n (f64_of_Z z)) with (map f64_of_Z (replicate n z))
    by (clear; induction n; simpl; congruence).
  rewrite f64_sum_of_Z, Hs; [apply f64_div_of_Z; lia| |lia]. destruct n; [lia|done].
Qed.

(** C29. The estimator is exact on symmetric paths: after any history of probes
    and responses (lost, repeated, out of order, rejected or not) over a path
    with equal delays each way to a host clock [theta] ms ahead, the snapshot
    reports offset [theta] and no jitter as soon as a sample was accepted. *)
Theorem symmetric_path_is_exact (c : SyncEstimatorConfig) (e0 : ClockSyncEstimator)
  (theta : Z) (events : list SyncEvent) :
  ClockSyncEstimator_new c = Ok e0 -> Forall (symmetric_event theta) events ->
  Z.abs theta < 2 ^ 40 -> (sync_run e0 events).(accepted_samples) <> [] ->
  (snapshot (sync_run e0 events)).(snapshot_offset_ms) = f64_of_Z theta
  /\ (snapshot (sync_run e0 events)).(snapshot_jitter_ms) = f64_of_Z 0.
Proof.
  intros Hnew Hev Ht Hne.
  assert (offsets_are theta (sync_run e0 events)) as Hoff.
  { apply symmetric_run; [lia|done|]. unfold ClockSyncEstimator_new in Hnew.
    destruct (SyncEstimatorConfig_validate c); [|done]. injection Hnew as <-. constructor. }
  assert (estimator_ok (sync_run e0 events)) as Hok by (by apply sync_run_ok, (new_ok c)).
  set (e := sync_run e0 events) in *.
  destruct (selected_split e.(accepted_samples)) as (rest & Hp & _ & Hlen).
  pose proof (validate_bounds _ _ (ok_config _ Hok)) as (Hmax & _). destruct Hok.
  assert (1 <= len e.(accepted_samples)) as H1.
  { destruct e.(accepted_samples); [done|]. rewrite len_cons. pose proof (len_nonneg l). lia. }
  unfold snapshot. rewrite (proj2 (is_empty_false _) Hne). cbn [snapshot_offset_ms snapshot_jitter_ms].
  assert (Forall (fun s => s.(sample_offset_ms) = f64_of_Z theta)
            (selected_samples e.(accepted_samples))) as Hsel.
  { unfold offsets_are in Hoff. rewrite <- Hp in Hoff. by apply Forall_app in Hoff as [? _]. }
  set (sel := selected_samples e.(accepted_samples)) in *. unfold MAX_ESTIMATOR_SAMPLES in *.
  assert (1 <= len sel <= 128) as Hsl by lia. unfold len in Hsl.
  assert (forall z f, Forall (fun s => f s = f64_of_Z z) sel -> Z.abs z < 2 ^ 40 ->
            f64_div (f64_sum (map f sel)) (f64_of_Z (len sel)) = f64_of_Z z) as Hmean.
  { intros z f Hf Hz. rewrite (map_const f (f64_of_Z z)) by done.
    unfold len. apply mean_const; nia. }
  rewrite (Hmean theta) by done. split; [done|]. destruct (len sel =? 1); [done|].
  apply (Hmean 0); [|lia]. eapply Forall_impl; [exact Hsel|]. intros s ->.
  rewrite f64_sub_of_Z, Z.sub_diag by lia. done.
Qed.

(** ** Witnesses *)

Definition sample_estimator : ClockSyncEstimator :=
  match ClockSyncEstimator_new SyncEstimatorConfig_default with
  | Ok e => e
  | Err _ => mkClockSyncEstimator SyncEstimatorConfig_default [] [] [] None None [] 0 false
  end.

(** Three probes; the second response is lost and the first one repeated; the
    host clock is 5000 ms ahead. *)
Definition sample_history : list SyncEvent :=
  [BeginProbe 1 100; BeginProbe 2 150; ObserveResponse 1 100 5110 5112 122;
   BeginProbe 3 200; ObserveResponse 1 100 5110 5112 122; ObserveResponse 3 200 5207 5208 215].

Lemma sample_history_symmetric : Forall (symmetric_event 5000) sample_history.
Proof.
  repeat (apply List.Forall_cons; [first [exact I | by exists 10, 2 | by exists 7, 1]|]).
  apply List.Forall_nil.
Defined.

Lemma sample_recovers_offset_witness :
  exists s twice,
    from_exchange (physical_exchange 7 2000 5 10 2 10) = Ok s
    /\ s.(sample_local_receive_time) = 2000 + 10 + 2 + 10
    /\ s.(sample_round_trip_time_ms) = f64_of_Z (10 + 10)
    /\ s.(sample_offset_ms) = f64_div (f64_of_Z twice) (f64_of_Z 2)
    /\ Z.abs (twice - 2 * 5) <= 10 + 10
    /\ (10 = 10 -> s.(sample_offset_ms) = f64_of_Z 5).
Proof. apply sample_recovers_offset; lia. Defined.

Lemma estimator_invariant_witness : estimator_ok (sync_run sample_estimator sample_history).
Proof. apply (estimator_invariant SyncEstimatorConfig_default). vm_compute. reflexivity. Defined.

Lemma sample_estimator_ok : estimator_ok sample_estimator.
Proof. apply (new_ok SyncEstimatorConfig_default). vm_compute. reflexivity. Defined.

Lemma correlation_consumed_once_witness :
  let e := sync_run sample_estimator [BeginProbe 1 100] in
  let e' := (observe_response 1 100 5110 5112 122 e).2 in
  observe_response 1 100 5110 5112 130 e' = (Err (StaleCorrelationId 1), e').
Proof.
  apply (correlation_consumed_once 1 100 5110 5112 122 100 5110 5112 130).
  apply sync_run_ok. exact sample_estimator_ok.
Defined.

Lemma probing_recovers_witness :
  let e := sync_run sample_estimator [BeginProbe 1 100; BeginProbe 2 150] in
  (begin_probe 3 6000 e).1 = Ok tt /\ (begin_probe 3 6000 e).2.(pending) = [(3, 6000)].
Proof.
  apply probing_recovers.
  - vm_compute. reflexivity.
  - repeat (apply List.Forall_cons; [cbn; unfold PENDING_PROBE_MAX_AGE_MS; lia|]).
    apply List.Forall_nil.
Defined.

Lemma gate_bounds_witness :
  let e := sync_run sample_estimator [BeginProbe 1 100] in
  f64_leb (f64_of_Z 200) (effective_rtt_limit_ms 2500 e) = true
  /\ f64_leb (effective_rtt_limit_ms 2500 e) (f64_max (f64_of_Z 200) (f64_of_Z 1000)) = true
  /\ (e.(accepted_samples) <> [] -> effective_rtt_limit_ms 2500 e = f64_of_Z 200)
  /\ (acquisition_elapsed_ms 2500 e < ACQUISITION_HARD_CEILING_AFTER_MS ->
      f64_leb (effective_rtt_limit_ms 2500 e) (f64_max (f64_of_Z 600) (f64_of_Z 200)) = true).
Proof.
  apply (gate_bounds 2500 (sync_run sample_estimator [BeginProbe 1 100])).
  apply sync_run_ok. exact sample_estimator_ok.
Defined.

(** A locked estimator with probe 4 in flight. *)
Definition locked_estimator : ClockSyncEstimator :=
  sync_run sample_estimator (sample_history ++ [BeginProbe 4 300]).

Lemma steady_state_acceptance_witness :
  exists s e',
    from_exchange (mkSyncExchange 4 300 5310 5311 700) = Ok s
    /\ observe_response 4 300 5310 5311 700 locked_estimator
       = (Ok (mkSyncObservation s ((700 - 300) - (5311 - 5310) <=? 200) (snapshot e')
               (mkSyncAcquisitionStatus locked_estimator.(acquisition_rejected_count)
                  (acquisition_elapsed_ms 700 locked_estimator) (f64_of_Z 200)
                  locked_estimator.(degraded_lock))), e')
    /\ e' = (if (700 - 300) - (5311 - 5310) <=? 200
             then record_accepted s (set_pending (bt_remove 4 locked_estimator.(pending))
                                       locked_estimator)
             else set_pending (bt_remove 4 locked_estimator.(pending)) locked_estimator).
Proof. apply steady_state_acceptance; [by vm_compute..|lia|lia|lia]. Defined.

Lemma snapshot_uses_fastest_half_witness :
  exists fast slow,
    fast ++ slow ≡ₚ locked_estimator.(accepted_samples)
    /\ len fast = Z.max (len locked_estimator.(accepted_samples) / 2) 1
    /\ (forall a b, In a fast -> In b slow ->
          f64_total_leb a.(sample_round_trip_time_ms) b.(sample_round_trip_time_ms) = true)
    /\ (snapshot locked_estimator).(snapshot_offset_ms)
       = f64_div (f64_sum (map sample_offset_ms fast)) (f64_of_Z (len fast))
    /\ (snapshot locked_estimator).(snapshot_round_trip_time_ms)
       = f64_div (f64_sum (map sample_round_trip_time_ms fast)) (f64_of_Z (len fast))
    /\ (snapshot locked_estimator).(accepted_sample_count)
       = len locked_estimator.(accepted_samples).
Proof. apply snapshot_uses_fastest_half. by vm_compute. Defined.

Lemma symmetric_path_is_exact_witness :
  (snapshot (sync_run sample_estimator sample_history)).(snapshot_offset_ms) = f64_of_Z 5000
  /\ (snapshot (sync_run sample_estimator sample_history)).(snapshot_jitter_ms) = f64_of_Z 0.
Proof.
  apply (symmetric_path_is_exact SyncEstimatorConfig_default).
  - vm_compute. reflexivity.
  - exact sample_history_symmetric.
  - lia.
  - by vm_compute.
Defined.
