(* ===== verification/Ramp.v ===== *)
(** Amplitude shaping of interleaved PCM
    (src/rust/silent-disco-core/src/audio/ramp.rs): linear blends and fades
    over the edge frames of a buffer.  Samples are [i16] values as [Z]; the
    intermediate [i64] arithmetic wraps as in the code, and division
    truncates towards zero. *)
From Stdlib Require Import ZArith Lia.
From stdpp Require Import numbers list prelude.
From S2P Require Import Prelude.

(** ** Operations *)

(** The [i64] value of a 64-bit pattern. *)
Definition i64_wrap (x : Z) : Z := (x + 2 ^ 63) mod 2 ^ 64 - 2 ^ 63.

(** [value as i64]. *)
Definition to_i64 (value : nat) : Z := i64_wrap (Z.of_nat value).

Definition clamp_to_i16 (value : Z) : Z :=
  if 32767 <? value then 32767 else if value <? -32768 then -32768 else value.

Definition scale_sample (sample : Z) (numerator denominator : nat) : Z :=
  if Nat.eqb denominator 0 then 0
  else clamp_to_i16 (Z.quot (i64_wrap (sample * to_i64 numerator)) (to_i64 denominator)).

Definition blend_sample (toward from : Z) (position ramp : nat) : Z :=
  if Nat.eqb ramp 0 then toward
  else
    let weighted :=
      i64_wrap (i64_wrap (toward * to_i64 position)
                + i64_wrap (from * to_i64 (ramp - Nat.min position ramp))) in
    clamp_to_i16 (Z.quot weighted (to_i64 ramp)).

Definition last_frame (samples : list Z) (channels : nat) : option (list Z) :=
  if Nat.eqb channels 0 then None
  else
    let frames := Nat.div (length samples) channels in
    if Nat.eqb frames 0 then None
    else Some (take channels (drop ((frames - 1) * channels) samples)).

(** [for frame in lo..hi { for channel in 0..channels { body } }]. *)
Definition for_frames (lo hi channels : nat) (body : nat -> nat -> list Z -> list Z)
  (samples : list Z) : list Z :=
  fold_left
    (fun samples frame =>
       fold_left (fun samples channel => body frame channel samples) (seq 0 channels) samples)
    (seq lo (hi - lo)) samples.

(** [ramp_frames.clamp(1, total_frames)]. *)
Definition clamp_ramp (ramp_frames total_frames : nat) : nat :=
  Nat.min (Nat.max ramp_frames 1) total_frames.

Definition apply_blend_in (samples : list Z) (channels ramp_frames : nat) (from : list Z) :
  list Z :=
  if Nat.eqb channels 0 then samples
  else
    let total_frames := Nat.div (length samples) channels in
    if Nat.eqb total_frames 0 then samples
    else
      let ramp := clamp_ramp ramp_frames total_frames in
      let continues_from := if Nat.eqb (length from) channels then Some from else None in
      for_frames 0 ramp channels
        (fun frame channel samples =>
           let index := (frame * channels + channel)%nat in
           alter (fun sample =>
                    match continues_from with
                    | Some tail => blend_sample sample (List.nth channel tail 0) frame ramp
                    | None => scale_sample sample frame ramp
                    end) index samples)
        samples.

Definition apply_fade_out_tail (samples : list Z) (channels ramp_frames : nat) : list Z :=
  if Nat.eqb channels 0 then samples
  else
    let total_frames := Nat.div (length samples) channels in
    if Nat.eqb total_frames 0 then samples
    else
      let ramp := clamp_ramp ramp_frames total_frames in
      for_frames (total_frames - ramp) total_frames channels
        (fun frame channel samples =>
           let remaining := (total_frames - 1 - frame)%nat in
           let index := (frame * channels + channel)%nat in
           alter (fun sample => scale_sample sample remaining ramp) index samples)
        samples.

(** ** Sample arithmetic *)

(** A ramp of at most a million frames, twenty seconds at 48 kHz: the
    geometry every scheduler configuration stays far below. *)
Definition ramp_fits (n : nat) : Prop := Z.of_nat n <= 1000000.

Lemma i64_wrap_small (x : Z) : - 2 ^ 63 <= x < 2 ^ 63 -> i64_wrap x = x.
Proof. intros H. unfold i64_wrap. rewrite Z.mod_small; lia. Qed.

Lemma to_i64_small (n : nat) : ramp_fits n -> to_i64 n = Z.of_nat n.
Proof. unfold ramp_fits. intros H. apply i64_wrap_small. lia. Qed.

Lemma clamp_i16 (x : Z) : is_i16 (clamp_to_i16 x).
Proof. unfold is_i16, clamp_to_i16. repeat case_match; to_prop; lia. Qed.

Lemma clamp_id (x : Z) : is_i16 x -> clamp_to_i16 x = x.
Proof. unfold is_i16, clamp_to_i16. intros. repeat case_match; to_prop; lia. Qed.

(** Truncated division of a value between two multiples stays between them. *)
Lemma quot_between (a b x d : Z) : 0 < d -> a * d <= x <= b * d -> a <= Z.quot x d <= b.
Proof.
  intros Hd [Ha Hb]. split.
  - rewrite <- (Z.quot_mul a d) by lia. by apply Z.quot_le_mono.
  - rewrite <- (Z.quot_mul b d) by lia. by apply Z.quot_le_mono.
Qed.

Lemma product_bound (sample n : Z) :
  is_i16 sample -> 0 <= n <= 1000000 -> -32768000000 <= sample * n <= 32768000000.
Proof. unfold is_i16. nia. Qed.

Lemma blend_sample_eq (toward from : Z) (position ramp : nat) :
  is_i16 toward -> is_i16 from -> (position <= ramp)%nat -> (0 < ramp)%nat -> ramp_fits ramp ->
  blend_sample toward from position ramp
  = Z.quot (toward * Z.of_nat position + from * (Z.of_nat ramp - Z.of_nat position))
      (Z.of_nat ramp).
Proof.
  unfold is_i16, ramp_fits. intros Ht Hf Hp Hr Hfit. unfold blend_sample.
  replace (Nat.eqb ramp 0) with false by (symmetry; apply Nat.eqb_neq; lia).
  rewrite !to_i64_small by (unfold ramp_fits; lia).
  replace (Z.of_nat (ramp - Nat.min position ramp)) with (Z.of_nat ramp - Z.of_nat position) by lia.
  pose proof (product_bound toward (Z.of_nat position) Ht ltac:(lia)).
  pose proof (product_bound from (Z.of_nat ramp - Z.of_nat position) Hf ltac:(lia)).
  rewrite (i64_wrap_small (toward * _)), (i64_wrap_small (from * _)), i64_wrap_small by lia.
  apply clamp_id. unfold is_i16.
  apply quot_between; [lia|nia].
Qed.

(** A blend lies between its two ends. *)
Lemma blend_sample_between (toward from : Z) (position ramp : nat) :
  is_i16 toward -> is_i16 from -> (position <= ramp)%nat -> (0 < ramp)%nat -> ramp_fits ramp ->
  Z.min toward from <= blend_sample toward from position ramp <= Z.max toward from.
Proof.
  intros Ht Hf Hp Hr Hfit. rewrite blend_sample_eq by done. apply quot_between; [lia|].
  split; nia.
Qed.

Lemma blend_sample_start (toward from : Z) (ramp : nat) :
  is_i16 toward -> is_i16 from -> (0 < ramp)%nat -> ramp_fits ramp ->
  blend_sample toward from 0 ramp = from.
Proof.
  intros Ht Hf Hr Hfit. rewrite blend_sample_eq by (done || lia).
  replace (toward * Z.of_nat 0 + from * (Z.of_nat ramp - Z.of_nat 0)) with (from * Z.of_nat ramp) by lia.
  apply Z.quot_mul. lia.
Qed.

Lemma blend_sample_end (toward from : Z) (ramp : nat) :
  is_i16 toward -> is_i16 from -> (0 < ramp)%nat -> ramp_fits ramp ->
  blend_sample toward from ramp ramp = toward.
Proof.
  intros Ht Hf Hr Hfit. rewrite blend_sample_eq by (done || lia).
  replace (toward * Z.of_nat ramp + from * (Z.of_nat ramp - Z.of_nat ramp))
    with (toward * Z.of_nat ramp) by lia.
  apply Z.quot_mul. lia.
Qed.

Lemma scale_sample_eq (sample : Z) (numerator denominator : nat) :
  is_i16 sample -> (numerator <= denominator)%nat -> (0 < denominator)%nat ->
  ramp_fits denominator ->
  scale_sample sample numerator denominator
  = Z.quot (sample * Z.of_nat numerator) (Z.of_nat denominator).
Proof.
  unfold is_i16, ramp_fits. intros Hs Hn Hd Hfit. unfold scale_sample.
  replace (Nat.eqb denominator 0) with false by (symmetry; apply Nat.eqb_neq; lia).
  rewrite !to_i64_small by (unfold ramp_fits; lia).
  pose proof (product_bound sample (Z.of_nat numerator) Hs ltac:(lia)).
  rewrite i64_wrap_small by lia.
  apply clamp_id. unfold is_i16. apply quot_between; [lia|nia].
Qed.

Lemma scale_sample_zero (sample : Z) (denominator : nat) :
  scale_sample sample 0 denominator = 0.
Proof.
  unfold scale_sample. destruct (Nat.eqb denominator 0); [done|].
  change (to_i64 0) with 0. by rewrite Z.mul_0_r.
Qed.

Lemma blend_sample_i16 (toward from : Z) (position ramp : nat) :
  is_i16 toward -> is_i16 (blend_sample toward from position ramp).
Proof. intros H. unfold blend_sample. destruct (Nat.eqb ramp 0); [done|apply clamp_i16]. Qed.

Lemma scale_sample_i16 (sample : Z) (n d : nat) : is_i16 (scale_sample sample n d).
Proof. unfold scale_sample. destruct (Nat.eqb d 0); [unfold is_i16; lia|apply clamp_i16]. Qed.

(** ** Loops over frames *)

Section Loop.
Context (c : nat) (Hc : (0 < c)%nat) (g : nat -> nat -> Z -> Z).

Definition frame_update (frame channel : nat) (samples : list Z) : list Z :=
  alter (g frame channel) (frame * c + channel)%nat samples.

Lemma row_length (frame n : nat) (samples : list Z) :
  length (fold_left (fun s ch => frame_update frame ch s) (seq 0 n) samples) = length samples.
Proof.
  induction n as [|n IH]; [done|]. rewrite seq_S, fold_left_app. cbn.
  unfold frame_update at 1. by rewrite length_alter.
Qed.

Lemma row_lookup (frame n i : nat) (samples : list Z) :
  fold_left (fun s ch => frame_update frame ch s) (seq 0 n) samples !! i
  = if decide (frame * c <= i < frame * c + n)%nat
    then g frame (i - frame * c) <$> samples !! i else samples !! i.
Proof.
  induction n as [|n IH].
  - cbn. rewrite decide_False by lia. done.
  - rewrite seq_S, fold_left_app. cbn. unfold frame_update at 1.
    destruct (decide (i = frame * c + n)%nat) as [->|Hne].
    + rewrite list_lookup_alter_eq, IH. rewrite decide_False, decide_True by lia.
      do 2 f_equal. lia.
    + rewrite list_lookup_alter_ne, IH by done.
      destruct (decide (_ <= i < _ + n)%nat) as [?|?];
        destruct (decide (_ <= i < _ + S n)%nat) as [?|?]; (done || lia).
Qed.

Lemma loop_length (lo n : nat) (samples : list Z) :
  length (fold_left (fun s f => fold_left (fun s ch => frame_update f ch s) (seq 0 c) s)
            (seq lo n) samples) = length samples.
Proof.
  revert samples. induction n as [|n IH]; intros samples; [done|].
  rewrite seq_S, fold_left_app. cbn. by rewrite row_length, IH.
Qed.

Lemma loop_lookup (lo n i : nat) (samples : list Z) :
  fold_left (fun s f => fold_left (fun s ch => frame_update f ch s) (seq 0 c) s)
    (seq lo n) samples !! i
  = if decide (lo * c <= i < (lo + n) * c)%nat
    then g (i / c) (i mod c) <$> samples !! i else samples !! i.
Proof.
  induction n as [|n IH].
  - cbn. rewrite decide_False by lia. done.
  - rewrite seq_S, fold_left_app. cbn. rewrite row_lookup, IH.
    destruct (decide ((lo + n) * c <= i < (lo + n) * c + c)%nat) as [Hin|Hout].
    + rewrite decide_False, decide_True by nia.
      replace (i / c)%nat with (lo + n)%nat
        by (apply (Nat.div_unique i c _ (i - (lo + n) * c)); lia).
      replace (i mod c)%nat with (i - (lo + n) * c)%nat
        by (apply (Nat.mod_unique i c (lo + n)); lia). done.
    + destruct (decide (lo * c <= i < (lo + n) * c)%nat) as [?|?];
        destruct (decide (lo * c <= i < (lo + S n) * c)%nat) as [?|?]; (done || nia).
Qed.
End Loop.

Lemma for_frames_alter_length (c lo hi : nat) (g : nat -> nat -> Z -> Z) (samples : list Z) :
  length (for_frames lo hi c (fun f ch s => alter (g f ch) (f * c + ch)%nat s) samples)
  = length samples.
Proof. apply (loop_length c g). Qed.

Lemma for_frames_alter_lookup (c lo hi i : nat) (g : nat -> nat -> Z -> Z) (samples : list Z) :
  (0 < c)%nat -> (lo <= hi)%nat ->
  for_frames lo hi c (fun f ch s => alter (g f ch) (f * c + ch)%nat s) samples !! i
  = if decide (lo * c <= i < hi * c)%nat
    then g (i / c)%nat (i mod c)%nat <$> samples !! i else samples !! i.
Proof.
  intros Hc Hle. unfold for_frames. rewrite (loop_lookup c Hc g).
  by replace (lo + (hi - lo))%nat with hi by lia.
Qed.

(** ** Shaped buffers *)

Section Shaping.
Context (samples : list Z) (channels ramp_frames : nat).

Definition total_frames : nat := Nat.div (length samples) channels.
Definition effective_ramp : nat := clamp_ramp ramp_frames total_frames.

Lemma effective_ramp_le : (effective_ramp <= total_frames)%nat.
Proof. unfold effective_ramp, clamp_ramp. lia. Qed.

Lemma effective_ramp_pos : (0 < total_frames)%nat -> (0 < effective_ramp)%nat.
Proof. unfold effective_ramp, clamp_ramp. lia. Qed.

Lemma total_frames_length : (0 < channels)%nat -> (total_frames * channels <= length samples)%nat.
Proof. intros H. unfold total_frames. rewrite Nat.mul_comm. apply Nat.Div0.mul_div_le. Qed.

Lemma apply_blend_in_length (from : list Z) :
  length (apply_blend_in samples channels ramp_frames from) = length samples.
Proof.
  unfold apply_blend_in. destruct (Nat.eqb channels 0); [done|].
  destruct (Nat.eqb _ 0); [done|].
  apply (for_frames_alter_length channels 0 _ (fun f ch s =>
    match (if Nat.eqb (length from) channels then Some from else None) with
    | Some tail => blend_sample s (List.nth ch tail 0) f _ | None => scale_sample s f _ end)).
Qed.

Lemma apply_blend_in_lookup (from : list Z) (i : nat) :
  (0 < channels)%nat ->
  apply_blend_in samples channels ramp_frames from !! i
  = if decide (i < effective_ramp * channels)%nat
    then (fun s => if Nat.eqb (length from) channels
                   then blend_sample s (List.nth (i mod channels) from 0) (i / channels) effective_ramp
                   else scale_sample s (i / channels) effective_ramp) <$> samples !! i
    else samples !! i.
Proof.
  intros Hc. unfold apply_blend_in. fold total_frames.
  destruct (Nat.eqb channels 0) eqn:Ec; [apply Nat.eqb_eq in Ec; lia|].
  destruct (Nat.eqb total_frames 0) eqn:Et.
  - apply Nat.eqb_eq in Et. rewrite decide_False; [done|].
    pose proof effective_ramp_le. nia.
  - fold effective_ramp. cbv zeta.
    rewrite (for_frames_alter_lookup channels 0 effective_ramp i (fun f ch s =>
      match (if Nat.eqb (length from) channels then Some from else None) with
      | Some tail => blend_sample s (List.nth ch tail 0) f effective_ramp
      | None => scale_sample s f effective_ramp end)) by lia.
    destruct (decide _) as [H|H], (decide _) as [H'|H']; try lia; try done.
    by destruct (Nat.eqb (length from) channels).
Qed.

Lemma apply_fade_out_tail_length :
  length (apply_fade_out_tail samples channels ramp_frames) = length samples.
Proof.
  unfold apply_fade_out_tail. destruct (Nat.eqb channels 0); [done|].
  destruct (Nat.eqb _ 0); [done|].
  apply (for_frames_alter_length channels _ _ (fun f _ s => scale_sample s _ _)).
Qed.

Lemma apply_fade_out_tail_lookup (i : nat) :
  (0 < channels)%nat ->
  apply_fade_out_tail samples channels ramp_frames !! i
  = if decide ((total_frames - effective_ramp) * channels <= i < total_frames * channels)%nat
    then (fun s => scale_sample s (total_frames - 1 - i / channels) effective_ramp) <$> samples !! i
    else samples !! i.
Proof.
  intros Hc. unfold apply_fade_out_tail. fold total_frames.
  destruct (Nat.eqb channels 0) eqn:Ec; [apply Nat.eqb_eq in Ec; lia|].
  destruct (Nat.eqb total_frames 0) eqn:Et.
  - apply Nat.eqb_eq in Et. rewrite decide_False; [done|lia].
  - fold effective_ramp. cbv zeta.
    rewrite (for_frames_alter_lookup channels _ _ i
      (fun f _ s => scale_sample s (total_frames - 1 - f) effective_ramp)) by lia. done.
Qed.

Lemma last_frame_lookup (tail : list Z) (channel : nat) :
  last_frame samples channels = Some tail -> (channel < channels)%nat ->
  length tail = channels /\ (0 < total_frames)%nat
  /\ tail !! channel = samples !! ((total_frames - 1) * channels + channel)%nat.
Proof.
  unfold last_frame. fold total_frames. destruct (Nat.eqb channels 0) eqn:Ec; [done|].
  apply Nat.eqb_neq in Ec. destruct (Nat.eqb total_frames 0) eqn:Et; [done|].
  apply Nat.eqb_neq in Et. intros [= <-] Hch. pose proof (total_frames_length ltac:(lia)).
  split_and!; [|lia|].
  - rewrite length_take, length_drop. nia.
  - rewrite lookup_take by done. rewrite decide_True by done. by rewrite lookup_drop.
Qed.

Lemma last_frame_Some :
  (0 < channels)%nat -> (0 < total_frames)%nat -> exists tail, last_frame samples channels = Some tail.
Proof.
  intros Hc Ht. unfold last_frame. fold total_frames.
  rewrite (proj2 (Nat.eqb_neq _ _)) by lia. rewrite (proj2 (Nat.eqb_neq _ _)) by lia. eauto.
Qed.
End Shaping.

Lemma Forall_lookup_alter_like (P : Z -> Prop) (l k : list Z) :
  (forall i x, k !! i = Some x -> exists y, l !! i = Some y /\ (P y -> P x)) ->
  Forall P l -> Forall P k.
Proof.
  intros H Hl. apply Forall_lookup. intros i x Hx. destruct (H i x Hx) as (y & Hy & HP).
  apply HP. eapply Forall_lookup_1; eauto.
Qed.

Lemma apply_blend_in_i16 (samples : list Z) (channels ramp_frames : nat) (from : list Z) :
  Forall is_i16 samples -> Forall is_i16 (apply_blend_in samples channels ramp_frames from).
Proof.
  intros Hs. destruct (Nat.eq_dec channels 0%nat) as [->|Hc]; [done|].
  eapply Forall_lookup_alter_like; [|exact Hs]. intros i x.
  rewrite apply_blend_in_lookup by lia. destruct (decide _); [|eauto].
  destruct (samples !! i) as [y|]; [|done]. intros [= <-]. exists y. split; [done|].
  intros Hy. destruct (Nat.eqb _ _); [by apply blend_sample_i16|apply scale_sample_i16].
Qed.

Lemma apply_fade_out_tail_i16 (samples : list Z) (channels ramp_frames : nat) :
  Forall is_i16 samples -> Forall is_i16 (apply_fade_out_tail samples channels ramp_frames).
Proof.
  intros Hs. destruct (Nat.eq_dec channels 0%nat) as [->|Hc]; [done|].
  eapply Forall_lookup_alter_like; [|exact Hs]. intros i x.
  rewrite apply_fade_out_tail_lookup by lia. destruct (decide _); [|eauto].
  destruct (samples !! i) as [y|]; [|done]. intros [= <-]. exists y. split; [done|].
  intros Hy. apply scale_sample_i16.
Qed.

Lemma last_frame_index (c ch n : nat) :
  (ch < c)%nat -> (0 < n)%nat ->
  (((n - 1) * c + ch) / c = n - 1 /\ ((n - 1) * c + ch) mod c = ch
   /\ (n - 1) * c + ch < n * c)%nat.
Proof.
  intros Hch Hn. split_and!.
  - rewrite (Nat.mul_comm _ c), Nat.mul_comm, Nat.div_add_l, Nat.div_small; lia.
  - by rewrite Nat.add_comm, Nat.Div0.mod_add, Nat.mod_small.
  - nia.
Qed.

(** The last complete frame of a faded buffer is silent. *)
Lemma fade_out_last_frame (samples : list Z) (channels ramp_frames : nat) (tail : list Z) :
  last_frame (apply_fade_out_tail samples channels ramp_frames) channels = Some tail ->
  tail = replicate channels 0.
Proof.
  set (faded := apply_fade_out_tail _ _ _). intros Hl.
  destruct (Nat.eq_dec channels 0%nat) as [->|Hc]; [done|].
  destruct (last_frame_lookup faded channels tail 0%nat Hl ltac:(lia)) as (Hlen & Htot & _).
  assert (total_frames faded channels = total_frames samples channels) as Ht
    by (unfold total_frames, faded; by rewrite apply_fade_out_tail_length).
  apply list_eq. intros ch. destruct (Nat.lt_ge_cases ch channels) as [Hch|Hch].
  - destruct (last_frame_lookup faded channels tail ch Hl Hch) as (_ & _ & ->).
    rewrite Ht in *. destruct (last_frame_index channels ch _ Hch Htot) as (Hd & _ & Hlt).
    pose proof (total_frames_length samples channels ltac:(lia)).
    pose proof (effective_ramp_pos samples channels ramp_frames Htot).
    pose proof (effective_ramp_le samples channels ramp_frames).
    unfold faded. rewrite apply_fade_out_tail_lookup by lia. rewrite decide_True by nia.
    rewrite Hd, Nat.sub_diag. destruct (lookup_lt_is_Some_2 samples
      ((total_frames samples channels - 1) * channels + ch)) as [y ->]; [lia|].
    cbn. rewrite scale_sample_zero. by rewrite lookup_replicate_2.
  - rewrite !lookup_ge_None_2; [done| |lia]. by rewrite length_replicate.
Qed.

Lemma i16_lookup (l : list Z) (i : nat) (x : Z) : Forall is_i16 l -> l !! i = Some x -> is_i16 x.
Proof. intros Hl Hx. by apply (Forall_lookup_1 _ _ _ _ Hl Hx). Qed.

Lemma ramp_fits_le (m n : nat) : (m <= n)%nat -> ramp_fits n -> ramp_fits m.
Proof. unfold ramp_fits. lia. Qed.

(** The facts about the effective ramp that the shaping proofs share. *)
Lemma ramp_facts (samples : list Z) (channels ramp_frames : nat) :
  (0 < channels)%nat -> (channels <= length samples)%nat -> ramp_fits (length samples) ->
  (0 < effective_ramp samples channels ramp_frames <= total_frames samples channels)%nat
  /\ (total_frames samples channels * channels <= length samples)%nat
  /\ ramp_fits (effective_ramp samples channels ramp_frames).
Proof.
  intros Hc Hs Hfit.
  assert (0 < total_frames samples channels)%nat as Ht
    by (unfold total_frames; apply Nat.div_str_pos; lia).
  pose proof (effective_ramp_pos samples channels ramp_frames Ht) as Hr.
  pose proof (effective_ramp_le samples channels ramp_frames) as Hrle.
  pose proof (total_frames_length samples channels Hc) as Htl.
  split_and!; [lia|lia|lia|]. eapply ramp_fits_le; [|exact Hfit]. nia.
Qed.

(** A blended buffer starts on the values it continues from. *)
Lemma blend_in_start (samples from : list Z) (channels ramp_frames : nat) :
  (0 < channels)%nat -> length from = channels -> (channels <= length samples)%nat ->
  Forall is_i16 samples -> Forall is_i16 from -> ramp_fits (length samples) ->
  forall ch, (ch < channels)%nat ->
    apply_blend_in samples channels ramp_frames from !! ch = from !! ch.
Proof.
  intros Hc Hf Hs Hi16 Hf16 Hfit ch Hch.
  destruct (ramp_facts samples channels ramp_frames Hc Hs Hfit) as ([Hr _] & _ & Hrf).
  rewrite apply_blend_in_lookup by done. rewrite decide_True by nia.
  rewrite (proj2 (Nat.eqb_eq _ _) Hf). rewrite Nat.mod_small, Nat.div_small by done.
  destruct (lookup_lt_is_Some_2 samples ch) as [y Hy]; [lia|].
  destruct (lookup_lt_is_Some_2 from ch) as [f Hlk]; [lia|].
  rewrite Hy, Hlk, (nth_lookup_Some _ _ _ _ Hlk). cbn. f_equal.
  apply blend_sample_start; [exact (i16_lookup _ _ _ Hi16 Hy)|exact (i16_lookup _ _ _ Hf16 Hlk)|done|done].
Qed.

(** ** Properties *)

(** Continuity of a resumed buffer: blended in from the values the
    previous frame ended on, a buffer keeps its length, starts on exactly
    those values, moves only within the span between them and its own content
    (so it overshoots neither), and is untouched after the ramp. *)
Lemma blend_in_is_continuous (samples from : list Z) (channels ramp_frames : nat) :
  (0 < channels)%nat -> length from = channels -> (channels <= length samples)%nat ->
  Forall is_i16 samples -> Forall is_i16 from -> ramp_fits (length samples) ->
  let shaped := apply_blend_in samples channels ramp_frames from in
  length shaped = length samples
  /\ (forall ch, (ch < channels)%nat -> shaped !! ch = from !! ch)
  /\ (forall i x, shaped !! i = Some x ->
        exists y f, samples !! i = Some y /\ from !! (i mod channels)%nat = Some f
                    /\ Z.min y f <= x <= Z.max y f)
  /\ (forall i, (Nat.max ramp_frames 1 * channels <= i)%nat -> shaped !! i = samples !! i).
Proof.
  intros Hc Hf Hs Hi16 Hf16 Hfit shaped.
  destruct (ramp_facts samples channels ramp_frames Hc Hs Hfit) as ([Hr Hrle] & Htl & Hrf).
  assert (forall i, exists f, from !! (i mod channels)%nat = Some f
            /\ List.nth (i mod channels) from 0 = f /\ is_i16 f) as Hfrom.
  { intros i. destruct (lookup_lt_is_Some_2 from (i mod channels)) as [f Hlk];
      [rewrite Hf; apply Nat.mod_upper_bound; lia|].
    exists f. split_and!; [done| |exact (i16_lookup _ _ _ Hf16 Hlk)]. by apply nth_lookup_Some. }
  subst shaped. split_and!.
  - apply apply_blend_in_length.
  - by apply blend_in_start.
  - intros i x. rewrite apply_blend_in_lookup by done. rewrite (proj2 (Nat.eqb_eq _ _) Hf).
    destruct (Hfrom i) as (f & Hlk & -> & Hff). destruct (decide _) as [Hi|Hi].
    + destruct (samples !! i) as [y|] eqn:Hy; [|done]. intros [= <-]. exists y, f.
      split_and!; [done..| |];
        (apply blend_sample_between; [exact (i16_lookup _ _ _ Hi16 Hy)|done| |done|done]);
        (apply Nat.lt_le_incl, Nat.Div0.div_lt_upper_bound; lia).
    + intros Hx. exists x, f. split_and!; [done..|lia|lia].
  - intros i Hi. rewrite apply_blend_in_lookup by done. rewrite decide_False; [done|].
    unfold effective_ramp, clamp_ramp in *. nia.
Qed.

(** A faded buffer ends in silence: its last complete frame is zero on
    every channel, no sample grows in magnitude or changes sign, and frames
    before the ramp are untouched. *)
Lemma fade_out_reaches_silence (samples : list Z) (channels ramp_frames : nat) :
  (0 < channels)%nat -> (channels <= length samples)%nat -> Forall is_i16 samples ->
  ramp_fits (length samples) ->
  let shaped := apply_fade_out_tail samples channels ramp_frames in
  length shaped = length samples
  /\ last_frame shaped channels = Some (replicate channels 0)
  /\ (forall i x, shaped !! i = Some x ->
        exists y, samples !! i = Some y /\ Z.min y 0 <= x <= Z.max y 0)
  /\ (forall i, (i + Nat.max ramp_frames 1 * channels < length samples / channels * channels)%nat ->
        shaped !! i = samples !! i).
Proof.
  intros Hc Hs Hi16 Hfit shaped. fold (total_frames samples channels).
  destruct (ramp_facts samples channels ramp_frames Hc Hs Hfit) as ([Hr Hrle] & Htl & Hrf).
  subst shaped. split_and!.
  - apply apply_fade_out_tail_length.
  - destruct (last_frame_Some (apply_fade_out_tail samples channels ramp_frames) channels Hc)
      as [tail Hl]; [unfold total_frames; rewrite apply_fade_out_tail_length; fold (total_frames samples channels); lia|].
    rewrite Hl. f_equal. by eapply fade_out_last_frame.
  - intros i x. rewrite apply_fade_out_tail_lookup by done. destruct (decide _) as [Hi|Hi].
    + destruct (samples !! i) as [y|] eqn:Hy; [|done]. intros [= <-]. exists y. split; [done|].
      assert (total_frames samples channels - effective_ramp samples channels ramp_frames
              <= i / channels)%nat as Hd by (apply Nat.div_le_lower_bound; lia).
      rewrite scale_sample_eq by (done || lia || exact (i16_lookup _ _ _ Hi16 Hy)).
      apply quot_between; [lia|]. nia.
    + intros Hx. exists x. split; [done|lia].
  - intros i Hi. rewrite apply_fade_out_tail_lookup by done. rewrite decide_False; [done|].
    unfold effective_ramp, clamp_ramp in *. nia.
Qed.

(** ** Witnesses *)

Ltac i16_list :=
  repeat (apply List.Forall_cons; [unfold is_i16; lia|]); apply List.Forall_nil.

Lemma blend_in_is_continuous_witness :
  length (apply_blend_in [1000; -1000; 2000; -2000; 30000; 7] 2 2 [-500; 500]) = 6%nat
  /\ apply_blend_in [1000; -1000; 2000; -2000; 30000; 7] 2 2 [-500; 500] !! 0%nat = Some (-500)
  /\ apply_blend_in [1000; -1000; 2000; -2000; 30000; 7] 2 2 [-500; 500] !! 4%nat = Some 30000.
Proof.
  destruct (blend_in_is_continuous [1000; -1000; 2000; -2000; 30000; 7] [-500; 500] 2 2)
    as (Hlen & Hfirst & _ & Hrest).
  - lia.
  - reflexivity.
  - simpl. lia.
  - i16_list.
  - i16_list.
  - unfold ramp_fits. simpl. lia.
  - split; [exact Hlen|]. split; [apply (Hfirst 0%nat); lia|apply (Hrest 4%nat); simpl; lia].
Defined.

Lemma fade_out_reaches_silence_witness :
  last_frame (apply_fade_out_tail [1000; -1000; 2000; -2000; 30000; 7] 2 2) 2 = Some [0; 0].
Proof.
  destruct (fade_out_reaches_silence [1000; -1000; 2000; -2000; 30000; 7] 2 2)
    as (_ & Hlast & _).
  - lia.
  - simpl. lia.
  - i16_list.
  - unfold ramp_fits. simpl. lia.
  - exact Hlast.
Defined.
