(* ===== verification/Concealment.v ===== *)
(** Concealment of missing packets
    (src/rust/silent-disco-core/src/audio/concealment.rs): decaying repetition
    of the last real packet, bounded in length, with continuous seams. *)
From Stdlib Require Import ZArith Lia.
From stdpp Require Import numbers list prelude.
From S2P Require Import Prelude Ramp.

(** ** State *)

Definition DEFAULT_MAX_CONSECUTIVE_CONCEALED_PACKETS : Z := 25.
Definition MAX_CONSECUTIVE_CONCEALED_PACKETS_LIMIT : Z := 200.
Definition DEFAULT_CONCEALMENT_RAMP_MS : Z := 1.
Definition MAX_CONCEALMENT_RAMP_FRAMES : Z := 4800.
Definition MAX_ATTENUATION_SHIFT : Z := 8.

Inductive ConcealmentConfigErrorKind : Type :=
| ConsecutiveBoundOutOfRange
| RampFramesOutOfRange.

Inductive ConcealmentOutcome : Type :=
| Concealed
| ConcealHardResyncRequired.

Record ConcealmentStatistics : Type := mkConcealmentStatistics {
total_concealed_packets : Z;
consecutive_concealed_packets : Z;
hard_resync_signals : Z
}.

Record ConcealmentPolicy : Type := mkConcealmentPolicy {
policy_max_consecutive : Z;
policy_ramp_frames : nat;
policy_statistics : ConcealmentStatistics;
last_real_samples : list Z;
previous_tail : list Z
}.

Definition ConcealmentPolicy_new (max_consecutive_concealed_packets ramp_frames : Z) :
  result ConcealmentPolicy ConcealmentConfigErrorKind :=
  if (max_consecutive_concealed_packets =? 0)
     || (MAX_CONSECUTIVE_CONCEALED_PACKETS_LIMIT <? max_consecutive_concealed_packets)
  then Err ConsecutiveBoundOutOfRange
  else if (ramp_frames =? 0) || (MAX_CONCEALMENT_RAMP_FRAMES <? ramp_frames)
  then Err RampFramesOutOfRange
  else Ok {| policy_max_consecutive := max_consecutive_concealed_packets;
             policy_ramp_frames := Z.to_nat ramp_frames;
             policy_statistics := mkConcealmentStatistics 0 0 0;
             last_real_samples := []; previous_tail := [] |}.

(** ** Synthesis *)

Section Synthesis.
Context {t : target}.

Definition build_payload (p : ConcealmentPolicy) (frame_count channel_count : nat)
  (attenuation_shift : Z) : list Z :=
  let samples :=
    replicate
      (Z.to_nat (saturating_mul usize_max (Z.of_nat frame_count) (Z.of_nat channel_count))) 0 in
  if Nat.eqb channel_count 0 || Nat.eqb frame_count 0 then samples
  else
    let ramp := clamp_ramp p.(policy_ramp_frames) frame_count in
    let source_frames := Nat.div (length p.(last_real_samples)) channel_count in
    let has_tail := Nat.eqb (length p.(previous_tail)) channel_count in
    for_frames 0 frame_count channel_count
      (fun frame channel samples =>
         let index := (frame * channel_count + channel)%nat in
         let value :=
           if Nat.ltb frame source_frames
           then Z.shiftr (List.nth index p.(last_real_samples) 0) attenuation_shift else 0 in
         let value :=
           if Nat.ltb frame ramp && has_tail
           then blend_sample value (List.nth channel p.(previous_tail) 0) frame ramp
           else value in
         alter (fun _ => value) index samples)
      samples.

Definition tail_of (samples : list Z) (channels : nat) : list Z :=
  match last_frame samples channels with Some tail => tail | None => [] end.

Definition conceal (samples_per_packet channels : Z) (p : ConcealmentPolicy) :
  (list Z * ConcealmentOutcome) * ConcealmentPolicy :=
  let channel_count := Z.to_nat channels in
  let frame_count := Z.to_nat samples_per_packet in
  let s := p.(policy_statistics) in
  let attenuation_shift := Z.min s.(consecutive_concealed_packets) MAX_ATTENUATION_SHIFT in
  let samples := build_payload p frame_count channel_count attenuation_shift in
  let consecutive := wrapping_add 32 s.(consecutive_concealed_packets) 1 in
  let bound_reached := p.(policy_max_consecutive) <=? consecutive in
  let samples :=
    if p.(policy_max_consecutive) <=? wrapping_add 32 consecutive 1
    then apply_fade_out_tail samples channel_count p.(policy_ramp_frames) else samples in
  ((samples, if bound_reached then ConcealHardResyncRequired else Concealed),
   {| policy_max_consecutive := p.(policy_max_consecutive);
      policy_ramp_frames := p.(policy_ramp_frames);
      policy_statistics :=
        {| total_concealed_packets := wrapping_add 64 s.(total_concealed_packets) 1;
           consecutive_concealed_packets := consecutive;
           hard_resync_signals :=
             if bound_reached then wrapping_add 64 s.(hard_resync_signals) 1
             else s.(hard_resync_signals) |};
      last_real_samples := p.(last_real_samples);
      previous_tail := tail_of samples channel_count |}).
End Synthesis.

Definition reset_consecutive_count (p : ConcealmentPolicy) : ConcealmentPolicy :=
  {| policy_max_consecutive := p.(policy_max_consecutive);
     policy_ramp_frames := p.(policy_ramp_frames);
     policy_statistics :=
       {| total_concealed_packets := p.(policy_statistics).(total_concealed_packets);
          consecutive_concealed_packets := 0;
          hard_resync_signals := p.(policy_statistics).(hard_resync_signals) |};
     last_real_samples := p.(last_real_samples);
     previous_tail := p.(previous_tail) |}.

Definition record_delivery (samples : list Z) (channels : Z) (p : ConcealmentPolicy) :
  ConcealmentPolicy :=
  {| policy_max_consecutive := p.(policy_max_consecutive);
     policy_ramp_frames := p.(policy_ramp_frames);
     policy_statistics :=
       {| total_concealed_packets := p.(policy_statistics).(total_concealed_packets);
          consecutive_concealed_packets := 0;
          hard_resync_signals := p.(policy_statistics).(hard_resync_signals) |};
     last_real_samples := samples;
     previous_tail := tail_of samples (Z.to_nat channels) |}.

(** ** Invariant *)

Record policy_ok (p : ConcealmentPolicy) : Prop := {
ok_max : 1 <= p.(policy_max_consecutive) <= MAX_CONSECUTIVE_CONCEALED_PACKETS_LIMIT;
ok_ramp : 1 <= Z.of_nat p.(policy_ramp_frames) <= MAX_CONCEALMENT_RAMP_FRAMES;
ok_consecutive : is_u32 p.(policy_statistics).(consecutive_concealed_packets);
ok_real : Forall is_i16 p.(last_real_samples);
ok_tail : Forall is_i16 p.(previous_tail)
}.

Lemma ConcealmentPolicy_new_ok (m r : Z) (p : ConcealmentPolicy) :
  is_u32 m -> is_u32 r -> ConcealmentPolicy_new m r = Ok p -> policy_ok p.
Proof.
  unfold is_u32, is_uint. intros Hm Hr. unfold ConcealmentPolicy_new.
  destruct (_ || _) eqn:E1; [done|]. destruct (_ || _) eqn:E2 in |- *; [done|]. intros [= <-].
  to_prop. split; cbn; try constructor; unfold is_u32, is_uint; lia.
Qed.

Lemma tail_of_i16 (samples : list Z) (channels : nat) :
  Forall is_i16 samples -> Forall is_i16 (tail_of samples channels).
Proof.
  intros Hs. unfold tail_of, last_frame. repeat case_match; simplify_eq; try constructor.
  by apply Forall_take, Forall_drop.
Qed.

Lemma record_delivery_ok (samples : list Z) (channels : Z) (p : ConcealmentPolicy) :
  policy_ok p -> Forall is_i16 samples -> policy_ok (record_delivery samples channels p).
Proof.
  intros [] Hs. split; cbn; try done; try (by apply tail_of_i16).
Qed.

Lemma reset_ok (p : ConcealmentPolicy) : policy_ok p -> policy_ok (reset_consecutive_count p).
Proof. intros []. by split. Qed.

(** ** The synthesized frame *)

Lemma shiftr_i16 (x k : Z) : 0 <= k -> is_i16 x -> is_i16 (Z.shiftr x k).
Proof.
  unfold is_i16. intros Hk Hx. rewrite Z.shiftr_div_pow2 by done.
  assert (0 < 2 ^ k) by (apply Z.pow_pos_nonneg; lia). split.
  - apply Z.div_le_lower_bound; nia.
  - apply Z.div_le_upper_bound; nia.
Qed.

Lemma nth_i16 (l : list Z) (i : nat) : Forall is_i16 l -> is_i16 (List.nth i l 0).
Proof.
  intros H. destruct (nth_in_or_default i l 0) as [Hin| ->]; [|unfold is_i16; lia].
  rewrite List.Forall_forall in H. auto.
Qed.

Section Frame.
Context {t : target} (p : ConcealmentPolicy) (frames channels : nat) (shift : Z).
Context (Hp : policy_ok p) (Hshift : 0 <= shift) (Hc : (0 < channels)%nat).
Context (Hfit : Z.of_nat frames * Z.of_nat channels <= usize_max).

(** The value of sample [i] before the blend. *)
Definition source_value (i : nat) : Z :=
  if Nat.ltb (i / channels) (length p.(last_real_samples) / channels)
  then Z.shiftr (List.nth i p.(last_real_samples) 0) shift else 0.

Definition payload_value (i : nat) : Z :=
  let ramp := clamp_ramp p.(policy_ramp_frames) frames in
  if Nat.ltb (i / channels) ramp && Nat.eqb (length p.(previous_tail)) channels
  then blend_sample (source_value i) (List.nth (i mod channels) p.(previous_tail) 0)
         (i / channels) ramp
  else source_value i.

Lemma source_value_i16 (i : nat) : is_i16 (source_value i).
Proof.
  unfold source_value. destruct (Nat.ltb _ _); [|unfold is_i16; lia].
  apply shiftr_i16; [done|]. apply nth_i16, Hp.
Qed.

Lemma saturating_mul_fits :
  Z.to_nat (saturating_mul usize_max (Z.of_nat frames) (Z.of_nat channels)) = (frames * channels)%nat.
Proof. unfold saturating_mul. rewrite Z.min_l by done. lia. Qed.

Lemma build_payload_length : length (build_payload p frames channels shift) = (frames * channels)%nat.
Proof.
  unfold build_payload. rewrite saturating_mul_fits.
  destruct (_ || _); [by rewrite length_replicate|].
  rewrite (for_frames_alter_length channels 0 frames (fun _ _ _ => _)).
  by rewrite length_replicate.
Qed.

Lemma build_payload_lookup (i : nat) :
  (i < frames * channels)%nat -> build_payload p frames channels shift !! i = Some (payload_value i).
Proof.
  intros Hi. unfold build_payload. rewrite saturating_mul_fits.
  rewrite (proj2 (Nat.eqb_neq channels 0)), (proj2 (Nat.eqb_neq frames 0)) by nia. cbn [orb].
  cbv zeta.
  rewrite (for_frames_alter_lookup channels 0 frames i (fun frame channel _ =>
    if Nat.ltb frame (clamp_ramp p.(policy_ramp_frames) frames)
       && Nat.eqb (length p.(previous_tail)) channels
    then blend_sample
           (if Nat.ltb frame (Nat.div (length p.(last_real_samples)) channels)
            then Z.shiftr (List.nth (frame * channels + channel) p.(last_real_samples) 0) shift
            else 0)
           (List.nth channel p.(previous_tail) 0) frame (clamp_ramp p.(policy_ramp_frames) frames)
    else if Nat.ltb frame (Nat.div (length p.(last_real_samples)) channels)
         then Z.shiftr (List.nth (frame * channels + channel) p.(last_real_samples) 0) shift
         else 0)) by lia.
  rewrite decide_True by lia. rewrite lookup_replicate_2 by lia. cbn.
  replace (i / channels * channels + i mod channels)%nat with i
    by (rewrite Nat.mul_comm; apply Nat.div_mod; lia).
  done.
Qed.

Lemma payload_value_i16 (i : nat) : is_i16 (payload_value i).
Proof.
  unfold payload_value. destruct (_ && _); [apply blend_sample_i16|]; apply source_value_i16.
Qed.

Lemma build_payload_i16 : Forall is_i16 (build_payload p frames channels shift).
Proof.
  apply Forall_lookup. intros i x Hx. pose proof (lookup_lt_Some _ _ _ Hx) as Hi.
  rewrite build_payload_length in Hi. rewrite build_payload_lookup in Hx by done.
  injection Hx as <-. apply payload_value_i16.
Qed.
End Frame.

(** The geometry under which a policy serves a stream: at least one channel,
    packets longer than the ramp (the scheduler rejects others), and packets
    below a million samples. *)
Record geometry_ok (p : ConcealmentPolicy) (samples_per_packet channels : Z) : Prop := {
geo_channels : 0 < channels;
geo_ramp : Z.of_nat p.(policy_ramp_frames) < samples_per_packet;
geo_size : samples_per_packet * channels <= 1000000
}.

Section Conceal.
Context {t : target} (p : ConcealmentPolicy) (spp channels : Z).
Context (Hp : policy_ok p) (Hg : geometry_ok p spp channels).

Definition concealed_samples : list Z := (conceal spp channels p).1.1.
Definition raw_payload : list Z :=
  build_payload p (Z.to_nat spp) (Z.to_nat channels)
    (Z.min p.(policy_statistics).(consecutive_concealed_packets) MAX_ATTENUATION_SHIFT).

Lemma geometry_usize : Z.of_nat (Z.to_nat spp) * Z.of_nat (Z.to_nat channels) <= usize_max.
Proof.
  destruct Hg, Hp. pose proof usize_max_lower. unfold u32_max in *. rewrite !Z2Nat.id by lia. lia.
Qed.

Lemma shift_nonneg :
  0 <= Z.min p.(policy_statistics).(consecutive_concealed_packets) MAX_ATTENUATION_SHIFT.
Proof. destruct Hp. unfold is_u32, is_uint, MAX_ATTENUATION_SHIFT in *. lia. Qed.

Lemma raw_payload_length : length raw_payload = (Z.to_nat spp * Z.to_nat channels)%nat.
Proof. apply build_payload_length; try apply geometry_usize; destruct Hg; (done || lia). Qed.

Lemma concealed_samples_cases :
  concealed_samples = raw_payload
  \/ concealed_samples
     = apply_fade_out_tail raw_payload (Z.to_nat channels) p.(policy_ramp_frames).
Proof. unfold concealed_samples, conceal. cbn. destruct (_ <=? _); auto. Qed.

Lemma concealed_samples_length :
  length concealed_samples = (Z.to_nat spp * Z.to_nat channels)%nat.
Proof.
  destruct concealed_samples_cases as [-> | ->]; [|rewrite apply_fade_out_tail_length];
    apply raw_payload_length.
Qed.

Lemma concealed_samples_i16 : Forall is_i16 concealed_samples.
Proof.
  assert (Forall is_i16 raw_payload) as H.
  { apply build_payload_i16; [done|apply shift_nonneg|destruct Hg; lia|apply geometry_usize]. }
  destruct concealed_samples_cases as [-> | ->]; [done|by apply apply_fade_out_tail_i16].
Qed.

Lemma raw_payload_frames : total_frames raw_payload (Z.to_nat channels) = Z.to_nat spp.
Proof.
  unfold total_frames. rewrite raw_payload_length. apply Nat.div_mul. destruct Hg; lia.
Qed.

(** Only the last [ramp_frames] frames of the payload are ever faded. *)
Lemma concealed_samples_head (i : nat) :
  (i < (Z.to_nat spp - policy_ramp_frames p) * Z.to_nat channels)%nat ->
  concealed_samples !! i = raw_payload !! i.
Proof.
  intros Hi. destruct concealed_samples_cases as [-> | ->]; [done|].
  rewrite apply_fade_out_tail_lookup by (destruct Hg; lia). rewrite decide_False; [done|].
  unfold effective_ramp, clamp_ramp. rewrite raw_payload_frames. destruct Hp, Hg.
  unfold MAX_CONCEALMENT_RAMP_FRAMES in *. nia.
Qed.

Lemma clamp_ramp_geometry : clamp_ramp p.(policy_ramp_frames) (Z.to_nat spp) = p.(policy_ramp_frames).
Proof. destruct Hp, Hg. unfold clamp_ramp. lia. Qed.

Lemma concealed_samples_start (ch : nat) :
  length p.(previous_tail) = Z.to_nat channels -> (ch < Z.to_nat channels)%nat ->
  concealed_samples !! ch = p.(previous_tail) !! ch.
Proof.
  intros Ht Hch. pose proof Hp as []. pose proof Hg as [].
  unfold MAX_CONCEALMENT_RAMP_FRAMES in *.
  rewrite concealed_samples_head by nia. unfold raw_payload.
  rewrite build_payload_lookup by (apply geometry_usize || nia).
  unfold payload_value. rewrite clamp_ramp_geometry, Ht, Nat.eqb_refl, Nat.div_small by done.
  rewrite (proj2 (Nat.ltb_lt _ _)) by lia. cbn [andb]. rewrite Nat.mod_small by done.
  destruct (lookup_lt_is_Some_2 p.(previous_tail) ch) as [f Hf]; [lia|].
  rewrite Hf, (nth_lookup_Some _ _ _ _ Hf). f_equal. apply blend_sample_start.
  - apply source_value_i16; (done || apply shift_nonneg || lia).
  - exact (i16_lookup _ _ _ ok_tail0 Hf).
  - lia.
  - unfold ramp_fits. lia.
Qed.

Lemma concealed_samples_body (i : nat) :
  (policy_ramp_frames p * Z.to_nat channels <= i)%nat ->
  (i < (Z.to_nat spp - policy_ramp_frames p) * Z.to_nat channels)%nat ->
  length p.(last_real_samples) = (Z.to_nat spp * Z.to_nat channels)%nat ->
  concealed_samples !! i
  = (fun x => Z.shiftr x (Z.min p.(policy_statistics).(consecutive_concealed_packets) 8))
      <$> p.(last_real_samples) !! i.
Proof.
  intros Hlo Hhi Hreal. pose proof Hp as []. pose proof Hg as [].
  unfold MAX_CONCEALMENT_RAMP_FRAMES in *.
  rewrite concealed_samples_head by done. unfold raw_payload.
  rewrite build_payload_lookup by (apply geometry_usize || nia).
  unfold payload_value. rewrite clamp_ramp_geometry.
  replace (Nat.ltb (i / Z.to_nat channels) (policy_ramp_frames p)) with false
    by (symmetry; apply Nat.ltb_ge, Nat.div_le_lower_bound; lia).
  cbn [andb]. unfold source_value. rewrite Hreal, Nat.div_mul by lia.
  rewrite (proj2 (Nat.ltb_lt _ _)) by (apply Nat.Div0.div_lt_upper_bound; nia).
  destruct (lookup_lt_is_Some_2 p.(last_real_samples) i) as [x Hx]; [nia|].
  by rewrite Hx, (nth_lookup_Some _ _ _ _ Hx).
Qed.

Lemma conceal_ok : policy_ok (conceal spp channels p).2.
Proof.
  pose proof Hp as []. split; cbn; try done.
  - apply wrap_range. lia.
  - apply tail_of_i16, concealed_samples_i16.
Qed.

Lemma conceal_geometry : geometry_ok (conceal spp channels p).2 spp channels.
Proof. by destruct Hg. Qed.

Lemma conceal_tail : previous_tail (conceal spp channels p).2 = tail_of concealed_samples (Z.to_nat channels).
Proof. done. Qed.

Lemma conceal_tail_length : length (previous_tail (conceal spp channels p).2) = Z.to_nat channels.
Proof.
  rewrite conceal_tail. pose proof Hp as []. pose proof Hg as [].
  destruct (last_frame_Some concealed_samples (Z.to_nat channels)) as [tail Ht].
  - lia.
  - unfold total_frames. rewrite concealed_samples_length, Nat.div_mul by lia. lia.
  - unfold tail_of. rewrite Ht. by apply (last_frame_lookup _ _ _ 0%nat) in Ht as [-> _]; [|lia].
Qed.
End Conceal.

(** ** Runs of lost packets *)

(** [n] consecutive concealments: the frames with their outcomes, oldest
    first, and the resulting policy. *)
Fixpoint conceal_run {t : target} (n : nat) (spp channels : Z) (p : ConcealmentPolicy) :
  list (list Z * ConcealmentOutcome) * ConcealmentPolicy :=
  match n with
  | O => ([], p)
  | S n' =>
      let '(frame, p) := conceal spp channels p in
      let '(frames, p) := conceal_run n' spp channels p in
      (frame :: frames, p)
  end.

(** Neighbouring frames join without a step: each starts on the values its
    predecessor ended on. *)
Fixpoint seamless (channels : nat) (tail : list Z) (frames : list (list Z)) : Prop :=
  match frames with
  | [] => True
  | f :: frames => take channels f = tail /\ seamless channels (tail_of f channels) frames
  end.

Lemma concealed_take {t : target} (p : ConcealmentPolicy) (spp channels : Z) :
  policy_ok p -> geometry_ok p spp channels -> length p.(previous_tail) = Z.to_nat channels ->
  take (Z.to_nat channels) (concealed_samples p spp channels) = p.(previous_tail).
Proof.
  intros Hp Hg Ht. apply list_eq. intros ch.
  destruct (Nat.lt_ge_cases ch (Z.to_nat channels)) as [Hch|Hch].
  - rewrite lookup_take by done. rewrite decide_True by done. by apply concealed_samples_start.
  - rewrite !lookup_ge_None_2; [done|lia|]. rewrite length_take. lia.
Qed.

(** What one conceal call produces when [k] packets in a row were already
    concealed. *)
Definition concealed_frame_spec (p : ConcealmentPolicy) (spp channels k : Z)
  (frame : list Z * ConcealmentOutcome) : Prop :=
  length frame.1 = (Z.to_nat spp * Z.to_nat channels)%nat
  /\ Forall is_i16 frame.1
  /\ frame.2 = (if k + 1 <? p.(policy_max_consecutive) then Concealed else ConcealHardResyncRequired)
  /\ (p.(policy_max_consecutive) <= k + 2 ->
      tail_of frame.1 (Z.to_nat channels) = replicate (Z.to_nat channels) 0)
  /\ (forall i, (policy_ramp_frames p * Z.to_nat channels <= i)%nat ->
        (i < (Z.to_nat spp - policy_ramp_frames p) * Z.to_nat channels)%nat ->
        length p.(last_real_samples) = (Z.to_nat spp * Z.to_nat channels)%nat ->
        frame.1 !! i = (fun x => Z.shiftr x (Z.min k 8)) <$> p.(last_real_samples) !! i).

Lemma conceal_spec {t : target} (p : ConcealmentPolicy) (spp channels : Z) :
  policy_ok p -> geometry_ok p spp channels ->
  p.(policy_statistics).(consecutive_concealed_packets) + 2 < 2 ^ 32 ->
  concealed_frame_spec p spp channels p.(policy_statistics).(consecutive_concealed_packets)
    (conceal spp channels p).1.
Proof.
  intros Hp Hg Hk. set (k := consecutive_concealed_packets _) in *.
  pose proof (ok_consecutive _ Hp) as Hu. fold k in Hu. unfold is_u32, is_uint in Hu.
  assert (wrapping_add 32 k 1 = k + 1) as E1 by (apply wrap_small; lia).
  assert (wrapping_add 32 (k + 1) 1 = k + 1 + 1) as E2 by (apply wrap_small; lia).
  split_and!.
  - by apply concealed_samples_length.
  - by apply concealed_samples_i16.
  - unfold conceal. cbn [fst snd]. fold k. rewrite E1.
    destruct (_ <=? _) eqn:Ea, (_ <? _) eqn:Eb; to_prop; (done || lia).
  - intros Hmax. unfold conceal. cbn [fst snd]. fold k. rewrite E1, E2.
    rewrite (proj2 (Z.leb_le _ _)) by lia. unfold tail_of.
    destruct (last_frame _ _) as [tail|] eqn:El; [by apply fade_out_last_frame in El|].
    exfalso. destruct (last_frame_Some (apply_fade_out_tail (raw_payload p spp channels)
      (Z.to_nat channels) (policy_ramp_frames p)) (Z.to_nat channels)) as [tail Ht].
    + destruct Hg; lia.
    + unfold total_frames. rewrite apply_fade_out_tail_length.
      fold (total_frames (raw_payload p spp channels) (Z.to_nat channels)).
      rewrite raw_payload_frames by done. destruct Hg; lia.
    + unfold raw_payload in Ht. fold k in Ht. congruence.
  - intros i Hlo Hhi Hreal. by apply concealed_samples_body.
Qed.

Lemma conceal_consecutive {t : target} (p : ConcealmentPolicy) (spp channels : Z) :
  policy_ok p -> p.(policy_statistics).(consecutive_concealed_packets) + 1 < 2 ^ 32 ->
  (conceal spp channels p).2.(policy_statistics).(consecutive_concealed_packets)
  = p.(policy_statistics).(consecutive_concealed_packets) + 1.
Proof.
  intros Hp Hk. pose proof (ok_consecutive _ Hp) as Hu. unfold is_u32, is_uint in Hu.
  apply wrap_small. lia.
Qed.

Lemma conceal_run_spec {t : target} (n : nat) (p : ConcealmentPolicy) (spp channels : Z) :
  policy_ok p -> geometry_ok p spp channels ->
  p.(policy_statistics).(consecutive_concealed_packets) + Z.of_nat n + 1 < 2 ^ 32 ->
  length (conceal_run n spp channels p).1 = n
  /\ forall j frame, (conceal_run n spp channels p).1 !! j = Some frame ->
       concealed_frame_spec p spp channels
         (p.(policy_statistics).(consecutive_concealed_packets) + Z.of_nat j) frame.
Proof.
  revert p. induction n as [|n IH]; intros p Hp Hg Hk; [done|]. cbn [conceal_run].
  pose proof (conceal_ok p spp channels Hp Hg) as Hp'.
  pose proof (conceal_geometry p spp channels Hg) as Hg'.
  pose proof (conceal_consecutive p spp channels Hp ltac:(lia)) as Hc.
  pose proof (conceal_spec p spp channels Hp Hg ltac:(lia)) as Hs.
  assert (forall k f, concealed_frame_spec (conceal spp channels p).2 spp channels k f ->
            concealed_frame_spec p spp channels k f) as Hsame by done.
  destruct (conceal spp channels p) as [frame p'] eqn:E. cbn [snd fst] in *.
  destruct (IH p' Hp' Hg' ltac:(lia)) as [Hlen Hall].
  destruct (conceal_run n spp channels p') as [frames p''] eqn:E'. cbn [fst] in *.
  split; [simpl; lia|]. intros [|j] f; cbn [lookup list_lookup].
  - intros [= <-]. by rewrite Z.add_0_r.
  - intros Hf. apply Hsame. replace (_ + Z.of_nat (S j))
      with (p'.(policy_statistics).(consecutive_concealed_packets) + Z.of_nat j) by lia.
    by apply Hall.
Qed.

Lemma conceal_run_seamless {t : target} (n : nat) (p : ConcealmentPolicy) (spp channels : Z) :
  policy_ok p -> geometry_ok p spp channels -> length p.(previous_tail) = Z.to_nat channels ->
  seamless (Z.to_nat channels) p.(previous_tail) (map fst (conceal_run n spp channels p).1).
Proof.
  revert p. induction n as [|n IH]; intros p Hp Hg Ht; [done|]. cbn [conceal_run].
  pose proof (concealed_take p spp channels Hp Hg Ht) as Htake.
  pose proof (IH _ (conceal_ok p spp channels Hp Hg) (conceal_geometry p spp channels Hg)
                (conceal_tail_length p spp channels Hp Hg)) as Hrun.
  rewrite conceal_tail in Hrun. unfold concealed_samples in Htake, Hrun.
  destruct (conceal spp channels p) as [frame p'] eqn:E. cbn [snd fst] in *.
  destruct (conceal_run n spp channels p') as [frames p'']. done.
Qed.

(** ** Properties *)

(** A run of concealed packets is one continuous waveform: after a real
    packet, the first concealed frame starts on the values that packet ended
    on and every further one on the values of its predecessor, and each frame
    is a full packet of 16-bit samples. *)
Lemma concealment_is_seamless {t : target} (n : nat) (p : ConcealmentPolicy)
  (real : list Z) (spp channels : Z) :
  policy_ok p -> geometry_ok p spp channels -> Forall is_i16 real ->
  length real = (Z.to_nat spp * Z.to_nat channels)%nat -> Z.of_nat n < 2 ^ 31 ->
  let frames := (conceal_run n spp channels (record_delivery real channels p)).1 in
  length frames = n
  /\ seamless (Z.to_nat channels) (tail_of real (Z.to_nat channels)) (map fst frames)
  /\ Forall (fun f => length f.1 = length real /\ Forall is_i16 f.1) frames.
Proof.
  intros Hp Hg Hreal Hlen Hn frames.
  pose proof (record_delivery_ok real channels p Hp Hreal) as Hp'.
  assert (geometry_ok (record_delivery real channels p) spp channels) as Hg' by (by destruct Hg).
  destruct (conceal_run_spec n _ spp channels Hp' Hg' ltac:(cbn; lia)) as [Hfl Hall].
  split_and!; [done| |].
  - apply (conceal_run_seamless n _ spp channels Hp' Hg'). cbn. destruct Hg.
    destruct (last_frame_Some real (Z.to_nat channels)) as [tail Ht].
    + lia.
    + unfold total_frames. rewrite Hlen, Nat.div_mul by lia. lia.
    + unfold tail_of. rewrite Ht. by apply (last_frame_lookup _ _ _ 0%nat) in Ht as [-> _]; [|lia].
  - apply Forall_lookup. intros j f Hf. destruct (Hall j f Hf) as (-> & Hi & _). done.
Qed.

(** A run of concealed packets decays and is bounded: the [j]-th frame
    repeats the last real packet halved [min j 8] times between its ramps, the
    hard-resync signal comes exactly with the configured number of frames, and
    the last two frames up to that signal end in silence on every channel. *)
Lemma concealment_decays_to_silence {t : target} (n : nat) (p : ConcealmentPolicy)
  (real : list Z) (spp channels : Z) (j : nat) (frame : list Z) (outcome : ConcealmentOutcome) :
  policy_ok p -> geometry_ok p spp channels -> Forall is_i16 real ->
  length real = (Z.to_nat spp * Z.to_nat channels)%nat -> Z.of_nat n < 2 ^ 31 ->
  (conceal_run n spp channels (record_delivery real channels p)).1 !! j = Some (frame, outcome) ->
  (outcome = ConcealHardResyncRequired <-> p.(policy_max_consecutive) <= Z.of_nat j + 1)
  /\ (p.(policy_max_consecutive) <= Z.of_nat j + 2 ->
      tail_of frame (Z.to_nat channels) = replicate (Z.to_nat channels) 0)
  /\ (forall i, (policy_ramp_frames p * Z.to_nat channels <= i)%nat ->
        (i < (Z.to_nat spp - policy_ramp_frames p) * Z.to_nat channels)%nat ->
        frame !! i = (fun x => Z.shiftr x (Z.min (Z.of_nat j) 8)) <$> real !! i).
Proof.
  intros Hp Hg Hreal Hlen Hn Hj.
  pose proof (record_delivery_ok real channels p Hp Hreal) as Hp'.
  assert (geometry_ok (record_delivery real channels p) spp channels) as Hg' by (by destruct Hg).
  destruct (conceal_run_spec n _ spp channels Hp' Hg' ltac:(cbn; lia)) as [_ Hall].
  destruct (Hall j _ Hj) as (_ & _ & Ho & Htail & Hbody). cbn in Ho, Htail, Hbody.
  split_and!.
  - rewrite Ho. destruct (_ <? _) eqn:E; to_prop; split; (done || lia).
  - done.
  - intros i Hlo Hhi. by apply Hbody.
Qed.

(** ** Witnesses *)

(** Three concealments allowed, ramps of one frame, packets of four stereo frames. *)
Definition sample_policy : ConcealmentPolicy :=
  mkConcealmentPolicy 3 1 (mkConcealmentStatistics 0 0 0) [] [].

Definition sample_packet : list Z := [100; -100; 2000; -2000; 3000; -3000; 4001; -4001].

Lemma sample_policy_ok : policy_ok sample_policy.
Proof.
  apply (ConcealmentPolicy_new_ok 3 1); [unfold is_u32, is_uint; lia..|reflexivity].
Defined.

Lemma sample_geometry_ok : geometry_ok sample_policy 4 2.
Proof. split; cbn; lia. Defined.

Lemma sample_packet_i16 : Forall is_i16 sample_packet.
Proof. i16_list. Defined.

Lemma concealment_is_seamless_witness :
  let frames := (conceal_run (t := Target64) 3 4 2 (record_delivery sample_packet 2 sample_policy)).1 in
  length frames = 3%nat
  /\ seamless 2 [4001; -4001] (map fst frames)
  /\ Forall (fun f => length f.1 = 8%nat /\ Forall is_i16 f.1) frames.
Proof.
  apply (concealment_is_seamless (t := Target64) 3 sample_policy sample_packet 4 2).
  - exact sample_policy_ok.
  - exact sample_geometry_ok.
  - exact sample_packet_i16.
  - reflexivity.
  - lia.
Defined.

Lemma concealment_decays_to_silence_witness :
  exists frame,
    (conceal_run (t := Target64) 3 4 2 (record_delivery sample_packet 2 sample_policy)).1 !! 2%nat
    = Some (frame, ConcealHardResyncRequired)
    /\ tail_of frame 2 = [0; 0] /\ frame !! 2%nat = Some 500.
Proof.
  eexists. split; [vm_compute; reflexivity|].
  match goal with |- tail_of ?f _ = _ /\ _ =>
    destruct (concealment_decays_to_silence (t := Target64) 3 sample_policy sample_packet 4 2 2 f
      ConcealHardResyncRequired sample_policy_ok sample_geometry_ok sample_packet_i16)
      as (_ & Htail & Hbody); [reflexivity|lia|vm_compute; reflexivity|]
  end.
  split; [apply Htail; cbn; lia|apply (Hbody 2%nat); cbn; lia].
Defined.
