(* ===== verification/JitterBuffer.v ===== *)
(** The listener's jitter buffer
    (src/rust/silent-disco-core/src/audio/jitter_buffer.rs): bounded reordering
    of one stream's audio packets, with recovery when the stream has moved
    beyond the reorder window. *)
From Stdlib Require Import ZArith Lia Sorting.Sorted Strings.String.
From stdpp Require Import numbers list prelude.
From S2P Require Import Prelude BTreeMap Utf8 ProtocolTypes.

(** ** State *)

Definition DEFAULT_MAX_REORDER_WINDOW : Z := 64.
Definition MAX_REORDER_WINDOW_LIMIT : Z := 4096.
Definition DEFAULT_MAX_BUFFERED_DURATION_MS : Z := 2000.
Definition MAX_BUFFERED_DURATION_LIMIT_MS : Z := 60000.
Definition FAR_FUTURE_RESYNC_PACKETS : Z := 3.

Record JitterBufferConfig : Type := mkJitterBufferConfig {
jb_session_id : rstr;
jb_stream_id : rstr;
jb_first_sequence : Z;
jb_max_reorder_window : Z;
jb_max_buffered_duration_ms : Z
}.

Definition JitterBufferConfig_new (session_id stream_id : rstr) : JitterBufferConfig :=
  mkJitterBufferConfig session_id stream_id 0 DEFAULT_MAX_REORDER_WINDOW
    DEFAULT_MAX_BUFFERED_DURATION_MS.

Inductive JitterBufferConfigErrorKind : Type :=
| ReorderWindowTooLarge
| BufferedDurationOutOfRange.

Inductive JitterBufferRejectionKind : Type :=
| WrongSession
| WrongStream
| Duplicate
| AlreadyEmitted
| ReorderWindowExceeded
| BufferedDurationExceeded.

Record JitterBufferStatistics : Type := mkJitterBufferStatistics {
stat_accepted : Z;
wrong_session_rejections : Z;
wrong_stream_rejections : Z;
duplicate_rejections : Z;
late_rejections : Z;
reorder_window_rejections : Z;
buffered_duration_rejections : Z;
stat_emitted : Z;
stat_skipped : Z;
resynchronisations : Z
}.

Definition JitterBufferStatistics_default : JitterBufferStatistics :=
  mkJitterBufferStatistics 0 0 0 0 0 0 0 0 0 0.

Record JitterBuffer : Type := mkJitterBuffer {
jb_config : JitterBufferConfig;
jb_packets : btmap AudioDatagram;
next_expected_sequence : Z;
jb_statistics : JitterBufferStatistics;
far_future_candidates : btmap AudioDatagram
}.

Definition JitterBuffer_new (config : JitterBufferConfig) :
  result JitterBuffer JitterBufferConfigErrorKind :=
  if MAX_REORDER_WINDOW_LIMIT <? config.(jb_max_reorder_window) then Err ReorderWindowTooLarge
  else if (config.(jb_max_buffered_duration_ms) =? 0)
          || (MAX_BUFFERED_DURATION_LIMIT_MS <? config.(jb_max_buffered_duration_ms))
  then Err BufferedDurationOutOfRange
  else Ok (mkJitterBuffer config bt_empty config.(jb_first_sequence)
             JitterBufferStatistics_default bt_empty).

(** ** Counters: [statistics.field += n] *)

Definition inc (n x : Z) : Z := wrapping_add 64 x n.

Definition count_accepted (n : Z) (s : JitterBufferStatistics) : JitterBufferStatistics :=
  let 'mkJitterBufferStatistics a b c d e f g h i j := s in
  mkJitterBufferStatistics (inc n a) b c d e f g h i j.
Definition count_wrong_session (s : JitterBufferStatistics) : JitterBufferStatistics :=
  let 'mkJitterBufferStatistics a b c d e f g h i j := s in
  mkJitterBufferStatistics a (inc 1 b) c d e f g h i j.
Definition count_wrong_stream (s : JitterBufferStatistics) : JitterBufferStatistics :=
  let 'mkJitterBufferStatistics a b c d e f g h i j := s in
  mkJitterBufferStatistics a b (inc 1 c) d e f g h i j.
Definition count_duplicate (s : JitterBufferStatistics) : JitterBufferStatistics :=
  let 'mkJitterBufferStatistics a b c d e f g h i j := s in
  mkJitterBufferStatistics a b c (inc 1 d) e f g h i j.
Definition count_late (s : JitterBufferStatistics) : JitterBufferStatistics :=
  let 'mkJitterBufferStatistics a b c d e f g h i j := s in
  mkJitterBufferStatistics a b c d (inc 1 e) f g h i j.
Definition count_reorder (s : JitterBufferStatistics) : JitterBufferStatistics :=
  let 'mkJitterBufferStatistics a b c d e f g h i j := s in
  mkJitterBufferStatistics a b c d e (inc 1 f) g h i j.
Definition count_duration (s : JitterBufferStatistics) : JitterBufferStatistics :=
  let 'mkJitterBufferStatistics a b c d e f g h i j := s in
  mkJitterBufferStatistics a b c d e f (inc 1 g) h i j.
Definition count_emitted (s : JitterBufferStatistics) : JitterBufferStatistics :=
  let 'mkJitterBufferStatistics a b c d e f g h i j := s in
  mkJitterBufferStatistics a b c d e f g (inc 1 h) i j.
Definition count_skipped (n : Z) (s : JitterBufferStatistics) : JitterBufferStatistics :=
  let 'mkJitterBufferStatistics a b c d e f g h i j := s in
  mkJitterBufferStatistics a b c d e f g h (inc n i) j.
Definition count_resync (s : JitterBufferStatistics) : JitterBufferStatistics :=
  let 'mkJitterBufferStatistics a b c d e f g h i j := s in
  mkJitterBufferStatistics a b c d e f g h i (inc 1 j).
(** The saturating updates of [drain_all]. *)
Definition count_drained (skipped emitted : Z) (s : JitterBufferStatistics) :
  JitterBufferStatistics :=
  let 'mkJitterBufferStatistics a b c d e f g h i j := s in
  mkJitterBufferStatistics a b c d e f g (saturating_add u64_max h emitted)
    (saturating_add u64_max i skipped) j.

Definition with_statistics (f : JitterBufferStatistics -> JitterBufferStatistics)
  (b : JitterBuffer) : JitterBuffer :=
  mkJitterBuffer b.(jb_config) b.(jb_packets) b.(next_expected_sequence) (f b.(jb_statistics))
    b.(far_future_candidates).

(** ** Arrival *)

(** The far-future branch of [accept]. *)
Definition accept_far_future (datagram : AudioDatagram) (b : JitterBuffer) :
  result unit JitterBufferRejectionKind * JitterBuffer :=
  let sequence := datagram.(audio_sequence) in
  let stats := count_reorder b.(jb_statistics) in
  if bt_contains_key sequence b.(far_future_candidates) then
    (Err ReorderWindowExceeded,
     mkJitterBuffer b.(jb_config) b.(jb_packets) b.(next_expected_sequence) stats
       b.(far_future_candidates))
  else
    let min := bt_first_key b.(far_future_candidates) in
    let max := bt_last_key b.(far_future_candidates) in
    let candidates :=
      if match min with Some first => 2 <? saturating_sub sequence first | None => false end
         || match max with Some last => 2 <? saturating_sub last sequence | None => false end
      then bt_empty else b.(far_future_candidates) in
    let candidates := bt_insert sequence datagram candidates in
    if len candidates <? FAR_FUTURE_RESYNC_PACKETS then
      (Err ReorderWindowExceeded,
       mkJitterBuffer b.(jb_config) b.(jb_packets) b.(next_expected_sequence) stats candidates)
    else
      let next := match bt_first_key candidates with Some k => k | None => sequence end in
      (Ok tt,
       mkJitterBuffer b.(jb_config) candidates next
         (count_accepted 3 (count_skipped (try_from_or_max u64_max (len b.(jb_packets)))
            (count_resync stats)))
         bt_empty).

Definition accept (datagram : AudioDatagram) (b : JitterBuffer) :
  result unit JitterBufferRejectionKind * JitterBuffer :=
  let sequence := datagram.(audio_sequence) in
  if negb (bool_decide (datagram.(audio_session_id) = b.(jb_config).(jb_session_id))) then
    (Err WrongSession, with_statistics count_wrong_session b)
  else if negb (bool_decide (datagram.(audio_stream_id) = b.(jb_config).(jb_stream_id))) then
    (Err WrongStream, with_statistics count_wrong_stream b)
  else if sequence <? b.(next_expected_sequence) then
    (Err AlreadyEmitted, with_statistics count_late b)
  else if bt_contains_key sequence b.(jb_packets) then
    (Err Duplicate, with_statistics count_duplicate b)
  else if b.(jb_config).(jb_max_reorder_window) <? sequence - b.(next_expected_sequence) then
    accept_far_future datagram b
  else if match bt_first_value b.(jb_packets) with
          | Some earliest =>
              b.(jb_config).(jb_max_buffered_duration_ms)
              <? abs_diff earliest.(audio_host_presentation_time_ms)
                   datagram.(audio_host_presentation_time_ms)
          | None => false
          end
  then (Err BufferedDurationExceeded, with_statistics count_duration b)
  else
    (Ok tt,
     mkJitterBuffer b.(jb_config) (bt_insert sequence datagram b.(jb_packets))
       b.(next_expected_sequence) (count_accepted 1 b.(jb_statistics)) bt_empty).

(** ** Departure *)

Definition advance (packets : btmap AudioDatagram)
  (f : JitterBufferStatistics -> JitterBufferStatistics) (b : JitterBuffer) : JitterBuffer :=
  mkJitterBuffer b.(jb_config) packets (wrapping_add 64 b.(next_expected_sequence) 1)
    (f b.(jb_statistics)) b.(far_future_candidates).

Definition pop_in_order (b : JitterBuffer) : option AudioDatagram * JitterBuffer :=
  match bt_get b.(next_expected_sequence) b.(jb_packets) with
  | None => (None, b)
  | Some datagram =>
      (Some datagram,
       advance (bt_remove b.(next_expected_sequence) b.(jb_packets)) count_emitted b)
  end.

Definition discard_in_order (b : JitterBuffer) : bool * JitterBuffer :=
  match bt_get b.(next_expected_sequence) b.(jb_packets) with
  | None => (false, b)
  | Some _ =>
      (true, advance (bt_remove b.(next_expected_sequence) b.(jb_packets)) (count_skipped 1) b)
  end.

Definition skip_expected_sequence (b : JitterBuffer) : JitterBuffer :=
  advance b.(jb_packets) (count_skipped 1) b.

Definition missing_sequence_count (b : JitterBuffer) : Z :=
  match bt_first_key b.(jb_packets) with
  | Some lowest =>
      if b.(next_expected_sequence) <? lowest then lowest - b.(next_expected_sequence) else 0
  | None => 0
  end.

Definition skip_to_earliest_buffered (b : JitterBuffer) : Z * JitterBuffer :=
  let skipped := missing_sequence_count b in
  (skipped,
   if 0 <? skipped then
     mkJitterBuffer b.(jb_config) b.(jb_packets)
       (wrapping_add 64 b.(next_expected_sequence) skipped)
       (count_skipped skipped b.(jb_statistics)) b.(far_future_candidates)
   else b).

(** The loop of [drain_all] over the drained packets. *)
Definition drain_scan (drained : list AudioDatagram) (expected skipped : Z) : Z * Z :=
  fold_left
    (fun '(expected, skipped) datagram =>
       let sequence := datagram.(audio_sequence) in
       (saturating_add u64_max sequence 1,
        saturating_add u64_max skipped (saturating_sub sequence expected)))
    drained (expected, skipped).

Definition drain_all (b : JitterBuffer) : list AudioDatagram * JitterBuffer :=
  let drained := bt_values b.(jb_packets) in
  let '(expected, skipped) := drain_scan drained b.(next_expected_sequence) 0 in
  (drained,
   mkJitterBuffer b.(jb_config) bt_empty
     (match drained with [] => b.(next_expected_sequence) | _ => expected end)
     (count_drained skipped (try_from_or_max u64_max (len drained)) b.(jb_statistics))
     b.(far_future_candidates)).

(** ** Inspection *)

Definition buffered_span_ms (b : JitterBuffer) : Z :=
  match map audio_host_presentation_time_ms (bt_values b.(jb_packets)) with
  | [] => 0
  | first :: times =>
      let '(min, max) :=
        fold_left (fun '(min, max) time => (Z.min min time, Z.max max time)) times (first, first) in
      max - min
  end.

Definition peek_next_sequence (b : JitterBuffer) : option Z := bt_first_key b.(jb_packets).
Definition jb_len (b : JitterBuffer) : Z := len b.(jb_packets).
Definition jb_is_empty (b : JitterBuffer) : bool := bt_is_empty b.(jb_packets).

(** ** Invariant *)

(** An entry of the buffer or of its candidates belongs to the configured
    stream and is filed under its own sequence number. *)
Definition entry_ok (c : JitterBufferConfig) (k : Z) (d : AudioDatagram) : Prop :=
  d.(audio_sequence) = k /\ d.(audio_session_id) = c.(jb_session_id)
  /\ d.(audio_stream_id) = c.(jb_stream_id) /\ is_u64 k.

(** How far ahead of the expected sequence a buffered packet can be: the
    reorder window, or the two packets behind a promoted one. *)
Definition reach (c : JitterBufferConfig) : Z := Z.max c.(jb_max_reorder_window) 2.

Record jb_ok (b : JitterBuffer) : Prop := {
jb_ok_window : 0 <= b.(jb_config).(jb_max_reorder_window) <= MAX_REORDER_WINDOW_LIMIT;
jb_ok_next : is_u64 b.(next_expected_sequence);
jb_ok_sorted : bt_ok b.(jb_packets);
jb_ok_entries : bt_forall (entry_ok b.(jb_config)) b.(jb_packets);
jb_ok_keys : forall k, In k (bt_keys b.(jb_packets)) ->
  b.(next_expected_sequence) <= k <= b.(next_expected_sequence) + reach b.(jb_config);
jb_ok_cand_sorted : bt_ok b.(far_future_candidates);
jb_ok_cand_entries : bt_forall (entry_ok b.(jb_config)) b.(far_future_candidates);
jb_ok_cand_len : len b.(far_future_candidates) <= 2;
jb_ok_cand_span : forall k k', In k (bt_keys b.(far_future_candidates)) ->
  In k' (bt_keys b.(far_future_candidates)) -> k' - k <= 2
}.

Lemma JitterBuffer_new_ok (c : JitterBufferConfig) (b : JitterBuffer) :
  is_u32 c.(jb_max_reorder_window) -> is_u64 c.(jb_first_sequence) ->
  JitterBuffer_new c = Ok b -> jb_ok b.
Proof.
  intros Hw Hf. unfold JitterBuffer_new. destruct (_ <? _) eqn:E; [done|].
  destruct (_ || _); [done|]. intros [= <-]. to_prop. unfold is_u32, is_uint in Hw.
  split; cbn; try done; try apply bt_ok_empty; try constructor; lia.
Qed.

Lemma with_statistics_ok (f : JitterBufferStatistics -> JitterBufferStatistics) (b : JitterBuffer) :
  jb_ok b -> jb_ok (with_statistics f b).
Proof. intros []. by split. Qed.

Lemma entry_ok_u64 (c : JitterBufferConfig) (m : btmap AudioDatagram) (k : Z) :
  bt_forall (entry_ok c) m -> In k (bt_keys m) -> is_u64 k.
Proof.
  intros Hm. apply (bt_forall_keys (fun k => is_u64 k)).
  eapply bt_forall_impl; [|exact Hm]. by intros k' v (_ & _ & _ & ?).
Qed.

(** The candidates after filing one more far-future packet. *)
Definition next_candidates (d : AudioDatagram) (m : btmap AudioDatagram) : btmap AudioDatagram :=
  bt_insert d.(audio_sequence) d
    (if match bt_first_key m with
        | Some first => 2 <? saturating_sub d.(audio_sequence) first | None => false end
        || match bt_last_key m with
           | Some last => 2 <? saturating_sub last d.(audio_sequence) | None => false end
     then bt_empty else m).

Section Candidates.
Context (c : JitterBufferConfig) (m : btmap AudioDatagram) (d : AudioDatagram).
Context (Hok : bt_ok m) (Hent : bt_forall (entry_ok c) m) (Hlen : len m <= 2).
Context (Hspan : forall k k', In k (bt_keys m) -> In k' (bt_keys m) -> k' - k <= 2).
Context (Hd : entry_ok c d.(audio_sequence) d).

Lemma next_candidates_sorted : bt_ok (next_candidates d m).
Proof. unfold next_candidates. apply bt_ok_insert. destruct (_ || _); [apply bt_ok_empty|done]. Qed.

Lemma next_candidates_entries : bt_forall (entry_ok c) (next_candidates d m).
Proof. unfold next_candidates. apply bt_forall_insert; [done|]. destruct (_ || _); [constructor|done]. Qed.

Lemma next_candidates_len : len (next_candidates d m) <= 3.
Proof.
  unfold next_candidates. etransitivity; [apply bt_len_insert_le|].
  destruct (_ || _); [|lia]. unfold bt_empty. rewrite len_nil. lia.
Qed.

Lemma next_candidates_in (k : Z) :
  In k (bt_keys (next_candidates d m)) -> k = d.(audio_sequence) \/ In k (bt_keys m).
Proof.
  unfold next_candidates. intros H. apply bt_keys_insert in H as [->|H]; [by left|].
  destruct (_ || _); [done|by right].
Qed.

(** All candidates lie within three neighbouring sequence numbers. *)
Lemma next_candidates_span (k k' : Z) :
  In k (bt_keys (next_candidates d m)) -> In k' (bt_keys (next_candidates d m)) -> k' - k <= 2.
Proof.
  unfold next_candidates. destruct (_ || _) eqn:E; intros Hk Hk';
    apply bt_keys_insert in Hk, Hk'.
  - destruct Hk as [->|[]], Hk' as [->|[]]. lia.
  - apply orb_false_iff in E as [Emin Emax]. unfold saturating_sub in *.
    destruct Hk as [->|Hk], Hk' as [->|Hk'].
    + lia.
    + destruct (bt_last_key m) as [l|] eqn:El.
      * pose proof (bt_last_key_max m l k' Hok El Hk'). to_prop. lia.
      * unfold bt_last_key in El. apply last_None in El. by rewrite El in Hk'.
    + destruct (bt_first_key m) as [f|] eqn:Ef.
      * pose proof (bt_first_key_min m f k Hok Ef Hk). to_prop. lia.
      * apply bt_first_key_None in Ef. by rewrite Ef in Hk.
    + by apply Hspan.
Qed.

(** Three candidates are three consecutive sequence numbers. *)
Lemma next_candidates_triple :
  ~ (len (next_candidates d m) < 3) ->
  exists n, bt_keys (next_candidates d m) = [n; n + 1; n + 2].
Proof.
  intros Hge. pose proof next_candidates_len as Hle. pose proof next_candidates_sorted as Hs.
  pose proof next_candidates_span as Hsp. revert Hge Hle Hs Hsp.
  generalize (next_candidates d m) as l. clear. intros l Hge Hle Hs Hsp.
  destruct l as [|[a va] [|[b vb] [|[e ve] [|x l]]]];
    try (unfold len in *; simpl in *; lia).
  unfold bt_ok in Hs. cbn in *. inversion_clear Hs as [|? ? Hs' Ha]. inversion_clear Hs' as [|? ? _ Hb].
  inversion_clear Ha as [|? ? Hab _]. inversion_clear Hb as [|? ? Hbe _].
  specialize (Hsp a e ltac:(auto) ltac:(auto)).
  exists a. do 2 f_equal; [lia|f_equal; lia].
Qed.
End Candidates.

Lemma accept_far_future_eq (d : AudioDatagram) (b : JitterBuffer) :
  accept_far_future d b
  = (let stats := count_reorder b.(jb_statistics) in
     if bt_contains_key d.(audio_sequence) b.(far_future_candidates) then
       (Err ReorderWindowExceeded,
        mkJitterBuffer b.(jb_config) b.(jb_packets) b.(next_expected_sequence) stats
          b.(far_future_candidates))
     else
       let candidates := next_candidates d b.(far_future_candidates) in
       if len candidates <? FAR_FUTURE_RESYNC_PACKETS then
         (Err ReorderWindowExceeded,
          mkJitterBuffer b.(jb_config) b.(jb_packets) b.(next_expected_sequence) stats candidates)
       else
         (Ok tt,
          mkJitterBuffer b.(jb_config) candidates
            (match bt_first_key candidates with Some k => k | None => d.(audio_sequence) end)
            (count_accepted 3 (count_skipped (try_from_or_max u64_max (len b.(jb_packets)))
               (count_resync stats)))
            bt_empty)).
Proof. done. Qed.

(** What [accept] does, as one disjunction: a rejection that touches neither
    the packets nor the position, an insertion, or a promotion. *)
Inductive accept_effect (d : AudioDatagram) (b : JitterBuffer) :
  result unit JitterBufferRejectionKind -> JitterBuffer -> Prop :=
| effect_rejected kind stats :
    kind <> ReorderWindowExceeded ->
    accept_effect d b (Err kind)
      (mkJitterBuffer b.(jb_config) b.(jb_packets) b.(next_expected_sequence) stats
         b.(far_future_candidates))
| effect_provisional stats candidates :
    entry_ok b.(jb_config) d.(audio_sequence) d ->
    b.(jb_config).(jb_max_reorder_window) < d.(audio_sequence) - b.(next_expected_sequence) ->
    candidates = b.(far_future_candidates)
    \/ candidates = next_candidates d b.(far_future_candidates) /\ len candidates < 3 ->
    accept_effect d b (Err ReorderWindowExceeded)
      (mkJitterBuffer b.(jb_config) b.(jb_packets) b.(next_expected_sequence) stats candidates)
| effect_inserted stats :
    entry_ok b.(jb_config) d.(audio_sequence) d ->
    bt_get d.(audio_sequence) b.(jb_packets) = None ->
    0 <= d.(audio_sequence) - b.(next_expected_sequence)
      <= b.(jb_config).(jb_max_reorder_window) ->
    accept_effect d b (Ok tt)
      (mkJitterBuffer b.(jb_config) (bt_insert d.(audio_sequence) d b.(jb_packets))
         b.(next_expected_sequence) stats bt_empty)
| effect_promoted stats n :
    entry_ok b.(jb_config) d.(audio_sequence) d ->
    b.(jb_config).(jb_max_reorder_window) < d.(audio_sequence) - b.(next_expected_sequence) ->
    bt_keys (next_candidates d b.(far_future_candidates)) = [n; n + 1; n + 2] ->
    accept_effect d b (Ok tt)
      (mkJitterBuffer b.(jb_config) (next_candidates d b.(far_future_candidates)) n stats bt_empty).

Lemma accept_cases (d : AudioDatagram) (b : JitterBuffer) :
  jb_ok b -> is_u64 d.(audio_sequence) -> accept_effect d b (accept d b).1 (accept d b).2.
Proof.
  intros Hb Hu. unfold accept.
  destruct (negb _) eqn:E1; [by constructor|].
  destruct (negb _) eqn:E2 in |- *; [by constructor|].
  destruct (_ <? next_expected_sequence b) eqn:E3; [by constructor|].
  destruct (bt_contains_key _ (jb_packets b)) eqn:E4; [by constructor|].
  to_prop. apply bt_contains_key_false, bt_get_None_keys in E4.
  assert (entry_ok b.(jb_config) d.(audio_sequence) d) as He by done.
  destruct (_ <? _ - _) eqn:E5; to_prop.
  - rewrite accept_far_future_eq. cbv zeta.
    destruct (bt_contains_key _ (far_future_candidates b)); [by apply effect_provisional; auto|].
    destruct (_ <? FAR_FUTURE_RESYNC_PACKETS) eqn:E6; to_prop; unfold FAR_FUTURE_RESYNC_PACKETS in E6.
    + apply effect_provisional; auto.
    + destruct Hb. destruct (next_candidates_triple (far_future_candidates b) d)
        as [n Hn]; [done..|lia|].
      unfold bt_first_key. rewrite Hn. by apply effect_promoted.
  - destruct (match bt_first_value _ with Some _ => _ | None => _ end); [by constructor|].
    apply effect_inserted; [done|done|lia].
Qed.

Lemma accept_ok (d : AudioDatagram) (b : JitterBuffer) :
  jb_ok b -> is_u64 d.(audio_sequence) -> jb_ok (accept d b).2.
Proof.
  intros Hb Hu. pose proof (accept_cases d b Hb Hu) as H. destruct Hb.
  inversion H as [kind stats _ Hr Hb'|stats cand He Hfar Hc Hr Hb'
                 |stats He Hg Hw Hr Hb'|stats n He Hfar Hk Hr Hb']; clear H Hr Hb'.
  - by split.
  - destruct Hc as [->|[-> Hl]]; [by split|]. split; cbn; try done.
    + by apply next_candidates_sorted.
    + by apply next_candidates_entries.
    + lia.
    + intros k k'. by apply next_candidates_span.
  - split; cbn; try done; try (by constructor).
    + by apply bt_ok_insert.
    + by apply bt_forall_insert.
    + intros k Hin. apply bt_keys_insert in Hin as [->|Hin]; [unfold reach; lia|].
      by apply jb_ok_keys0.
  - assert (bt_forall (entry_ok (jb_config b)) (next_candidates d (far_future_candidates b))) as Hent
      by (by apply next_candidates_entries).
    assert (forall k, In k (bt_keys (next_candidates d (far_future_candidates b))) ->
              n <= k <= n + reach (jb_config b)) as Hkeys
      by (rewrite Hk; unfold reach; intros k [<-|[<-|[<-|[]]]]; lia).
    split; cbn; try done; try (by constructor).
    + eapply (entry_ok_u64 _ _ n Hent). rewrite Hk. by left.
    + by apply next_candidates_sorted.
Qed.

Lemma advance_ok (packets : btmap AudioDatagram)
  (f : JitterBufferStatistics -> JitterBufferStatistics) (b : JitterBuffer) :
  jb_ok b -> bt_ok packets -> bt_forall (entry_ok b.(jb_config)) packets ->
  (forall k, In k (bt_keys packets) ->
     b.(next_expected_sequence) < k <= b.(next_expected_sequence) + reach b.(jb_config)) ->
  jb_ok (advance packets f b).
Proof.
  intros [] Hs He Hk. split; cbn; try done; [by apply wrap_range|].
  intros k Hin. pose proof (entry_ok_u64 _ _ k He Hin) as Hu. apply Hk in Hin.
  unfold is_u64, is_uint in *. unfold wrapping_add. rewrite wrap_small; lia.
Qed.

Lemma remove_expected_keys (b : JitterBuffer) (k : Z) :
  jb_ok b -> In k (bt_keys (bt_remove b.(next_expected_sequence) b.(jb_packets))) ->
  b.(next_expected_sequence) < k <= b.(next_expected_sequence) + reach b.(jb_config).
Proof.
  intros [] Hk. destruct (jb_ok_keys0 k (bt_keys_remove_incl _ _ _ Hk)).
  assert (k <> b.(next_expected_sequence)); [|lia]. intros ->.
  apply bt_keys_get in Hk as [v Hv]. by rewrite bt_get_remove_eq in Hv.
Qed.

Lemma absent_expected_keys (b : JitterBuffer) (k : Z) :
  jb_ok b -> bt_get b.(next_expected_sequence) b.(jb_packets) = None ->
  In k (bt_keys b.(jb_packets)) ->
  b.(next_expected_sequence) < k <= b.(next_expected_sequence) + reach b.(jb_config).
Proof.
  intros [] Hn Hk. destruct (jb_ok_keys0 k Hk).
  assert (k <> b.(next_expected_sequence)); [|lia]. intros ->. by apply bt_get_None_keys in Hn.
Qed.

Lemma pop_in_order_ok (b : JitterBuffer) : jb_ok b -> jb_ok (pop_in_order b).2.
Proof.
  intros Hb. unfold pop_in_order. destruct (bt_get _ _) eqn:E; [|done].
  apply advance_ok; [done|apply bt_ok_remove, Hb|apply bt_forall_remove, Hb|].
  intros k. by apply remove_expected_keys.
Qed.

Lemma discard_in_order_ok (b : JitterBuffer) : jb_ok b -> jb_ok (discard_in_order b).2.
Proof.
  intros Hb. unfold discard_in_order. destruct (bt_get _ _) eqn:E; [|done].
  apply advance_ok; [done|apply bt_ok_remove, Hb|apply bt_forall_remove, Hb|].
  intros k. by apply remove_expected_keys.
Qed.

Lemma skip_expected_ok (b : JitterBuffer) :
  jb_ok b -> bt_get b.(next_expected_sequence) b.(jb_packets) = None ->
  jb_ok (skip_expected_sequence b).
Proof.
  intros Hb Hn. apply advance_ok; [done|apply Hb|apply Hb|].
  intros k. by apply absent_expected_keys.
Qed.

(** [skip_to_earliest_buffered] lands on the earliest buffered packet. *)
Lemma skip_to_earliest_next (b : JitterBuffer) (k : Z) :
  jb_ok b -> bt_first_key b.(jb_packets) = Some k ->
  (skip_to_earliest_buffered b).2.(next_expected_sequence) = k.
Proof.
  intros Hb Hk. pose proof (bt_first_key_in _ _ Hk) as Hin.
  pose proof (jb_ok_keys _ Hb k Hin). pose proof (entry_ok_u64 _ _ _ (jb_ok_entries _ Hb) Hin) as Hu.
  unfold skip_to_earliest_buffered, missing_sequence_count. rewrite Hk.
  destruct (_ <? k) eqn:E; to_prop; [|cbn; lia].
  cbn [snd]. rewrite (proj2 (Z.ltb_lt _ _)) by lia. cbn.
  unfold wrapping_add. rewrite wrap_small; unfold is_u64, is_uint in Hu; lia.
Qed.

Lemma skip_to_earliest_ok (b : JitterBuffer) : jb_ok b -> jb_ok (skip_to_earliest_buffered b).2.
Proof.
  intros Hb. destruct (bt_first_key b.(jb_packets)) as [k|] eqn:Hk.
  - pose proof (skip_to_earliest_next b k Hb Hk) as Hn.
    pose proof (bt_first_key_in _ _ Hk) as Hin. pose proof Hb as [].
    unfold skip_to_earliest_buffered in *. destruct (0 <? _) eqn:E; [|done]. cbn [snd] in *.
    cbn [next_expected_sequence] in Hn. rewrite Hn. split; cbn; try done.
    + by apply (entry_ok_u64 _ _ k jb_ok_entries0).
    + intros k' Hk'. pose proof (bt_first_key_min _ _ _ jb_ok_sorted0 Hk Hk').
      pose proof (jb_ok_keys0 k Hin). pose proof (jb_ok_keys0 k' Hk'). lia.
  - unfold skip_to_earliest_buffered, missing_sequence_count. rewrite Hk. done.
Qed.

(** Drained sequences never exceed the position the scan ends on. *)
Lemma drain_scan_last (l : list AudioDatagram) (d : AudioDatagram) (expected skipped : Z) :
  (drain_scan (l ++ [d]) expected skipped).1 = saturating_add u64_max d.(audio_sequence) 1.
Proof. unfold drain_scan. rewrite fold_left_app. cbn. by destruct (fold_left _ _ _). Qed.

Lemma drain_all_ok (b : JitterBuffer) :
  jb_ok b -> jb_ok (drain_all b).2.
Proof.
  intros Hb. pose proof Hb as []. unfold drain_all.
  destruct (drain_scan _ _ _) as [expected skipped] eqn:E. cbn [snd].
  split; cbn; try done; try (by constructor).
  destruct (bt_values b.(jb_packets)) as [|v l] eqn:Ev; [done|].
  destruct (@exists_last _ (v :: l)) as (l' & d & El); [done|]. rewrite El in E.
  pose proof (f_equal fst E) as E'. rewrite drain_scan_last in E'. cbn in E'. subst expected.
  assert (In d (bt_values b.(jb_packets))) as Hin
    by (rewrite Ev, El; apply in_app_iff; right; by left).
  unfold bt_values in Hin. apply in_map_iff in Hin as ([k d'] & <- & Hkd).
  unfold bt_forall in jb_ok_entries0. rewrite List.Forall_forall in jb_ok_entries0.
  destruct (jb_ok_entries0 _ Hkd) as (Hs & _ & _ & Hu). cbn in *.
  unfold is_u64, is_uint, saturating_add, u64_max in *. lia.
Qed.
#[export] Hint Resolve accept_ok pop_in_order_ok discard_in_order_ok skip_expected_ok
  skip_to_earliest_ok drain_all_ok : rust.

(** The buffer holds at most one packet per sequence number it can reach. *)
Lemma jb_len_bound (b : JitterBuffer) : jb_ok b -> jb_len b <= reach b.(jb_config) + 1.
Proof.
  intros []. unfold jb_len.
  pose proof (bt_len_range (jb_packets b) (next_expected_sequence b)
    (next_expected_sequence b + reach (jb_config b)) jb_ok_sorted0 jb_ok_keys0).
  unfold reach in *. lia.
Qed.

(** ** Histories *)

(** One operation of a client, with the packets it submitted and those it got
    back for playback.  The expected sequence is skipped only while it is
    missing, which is how the scheduler calls it, and no sequence number
    reaches [u64::MAX], where [+= 1] would wrap. *)
Inductive jb_step : JitterBuffer -> list AudioDatagram -> list AudioDatagram -> JitterBuffer -> Prop :=
| step_accept b d :
    0 <= d.(audio_sequence) < u64_max -> jb_step b [d] [] (accept d b).2
| step_pop b d b' :
    pop_in_order b = (Some d, b') -> jb_step b [] [d] b'
| step_discard b :
    jb_step b [] [] (discard_in_order b).2
| step_skip b :
    bt_get b.(next_expected_sequence) b.(jb_packets) = None ->
    b.(next_expected_sequence) < u64_max ->
    jb_step b [] [] (skip_expected_sequence b)
| step_skip_to_earliest b :
    jb_step b [] [] (skip_to_earliest_buffered b).2
| step_drain b :
    jb_step b [] (drain_all b).1 (drain_all b).2.

Inductive jb_run (b0 : JitterBuffer) :
  list AudioDatagram -> list AudioDatagram -> JitterBuffer -> Prop :=
| run_start : jb_run b0 [] [] b0
| run_step submitted emitted b s e b' :
    jb_run b0 submitted emitted b -> jb_step b s e b' ->
    jb_run b0 (submitted ++ s) (emitted ++ e) b'.

(** Everything held came from the submitted packets. *)
Definition holds_only (submitted : list AudioDatagram) (b : JitterBuffer) : Prop :=
  forall d, In d (bt_values b.(jb_packets)) \/ In d (bt_values b.(far_future_candidates)) ->
    In d submitted /\ 0 <= d.(audio_sequence) < u64_max.

Lemma bt_values_insert {V : Type} (k : Z) (v x : V) (m : btmap V) :
  In x (bt_values (bt_insert k v m)) -> x = v \/ In x (bt_values m).
Proof.
  induction m as [|[k1 v1] m IH]; simpl; [intuition|].
  destruct (k <? k1); simpl; [intuition|]. destruct (k =? k1); simpl; intuition.
Qed.

Lemma bt_values_remove {V : Type} (k : Z) (x : V) (m : btmap V) :
  In x (bt_values (bt_remove k m)) -> In x (bt_values m).
Proof.
  induction m as [|[k1 v1] m IH]; simpl; [done|]. destruct (k =? k1); simpl; intuition.
Qed.

Lemma next_candidates_values (d x : AudioDatagram) (m : btmap AudioDatagram) :
  In x (bt_values (next_candidates d m)) -> x = d \/ In x (bt_values m).
Proof.
  unfold next_candidates. intros H. apply bt_values_insert in H as [->|H]; [by left|].
  destruct (_ || _); [done|by right].
Qed.

Lemma accept_config (d : AudioDatagram) (b : JitterBuffer) :
  (accept d b).2.(jb_config) = b.(jb_config).
Proof. unfold accept, accept_far_future. by repeat case_match. Qed.

Lemma accept_holds (submitted : list AudioDatagram) (d : AudioDatagram) (b : JitterBuffer) :
  jb_ok b -> holds_only submitted b -> 0 <= d.(audio_sequence) < u64_max ->
  holds_only (submitted ++ [d]) (accept d b).2.
Proof.
  intros Hb Hh Hd. assert (is_u64 d.(audio_sequence)) as Hu
    by (unfold is_u64, is_uint, u64_max in *; lia).
  assert (forall x, In x (bt_values b.(jb_packets)) \/ In x (bt_values b.(far_future_candidates)) ->
            In x (submitted ++ [d]) /\ 0 <= x.(audio_sequence) < u64_max) as Hold
    by (intros x Hx; destruct (Hh x Hx); split; [apply in_app_iff; by left|done]).
  assert (In d (submitted ++ [d]) /\ 0 <= d.(audio_sequence) < u64_max) as Hnew
    by (split; [apply in_app_iff; right; by left|done]).
  pose proof (accept_cases d b Hb Hu) as H.
  inversion H as [kind stats _ Hr Hb'|stats cand He Hfar Hc Hr Hb'
                 |stats He Hg Hw Hr Hb'|stats n He Hfar Hk Hr Hb']; clear H Hr Hb'; intros x; cbn.
  - auto.
  - destruct Hc as [->|[-> _]]; [auto|]. intros [Hx|Hx]; [auto|].
    apply next_candidates_values in Hx as [->|Hx]; auto.
  - intros [Hx|[]]. apply bt_values_insert in Hx as [->|Hx]; auto.
  - intros [Hx|[]]. apply next_candidates_values in Hx as [->|Hx]; auto.
Qed.

(** The position never moves back. *)
Lemma accept_next_le (d : AudioDatagram) (b : JitterBuffer) :
  jb_ok b -> 1 <= b.(jb_config).(jb_max_reorder_window) -> is_u64 d.(audio_sequence) ->
  b.(next_expected_sequence) <= (accept d b).2.(next_expected_sequence).
Proof.
  intros Hb Hw Hu. pose proof (accept_cases d b Hb Hu) as H.
  inversion H as [kind stats _ Hr Hb'|stats cand He Hfar Hc Hr Hb'
                 |stats He Hg Hw' Hr Hb'|stats n He Hfar Hk Hr Hb']; clear H Hr Hb'; cbn; try lia.
  pose proof Hb as [].
  assert (In (audio_sequence d) (bt_keys (next_candidates d (far_future_candidates b)))) as Hin
    by (unfold next_candidates; apply bt_keys_insert; by left).
  rewrite Hk in Hin. destruct Hin as [E|[E|[E|[]]]]; lia.
Qed.

Lemma pop_facts (b b' : JitterBuffer) (d : AudioDatagram) :
  jb_ok b -> pop_in_order b = (Some d, b') ->
  d.(audio_sequence) = b.(next_expected_sequence) /\ In d (bt_values b.(jb_packets))
  /\ entry_ok b.(jb_config) b.(next_expected_sequence) d
  /\ b' = advance (bt_remove b.(next_expected_sequence) b.(jb_packets)) count_emitted b.
Proof.
  intros [] H. unfold pop_in_order in H. destruct (bt_get _ _) as [v|] eqn:E; [|done].
  injection H as -> <-. pose proof (bt_forall_get _ _ _ _ jb_ok_entries0 E) as He.
  split_and!; [apply He|by eapply bt_get_values|done|done].
Qed.

Lemma values_sequences (c : JitterBufferConfig) (m : btmap AudioDatagram) :
  bt_forall (entry_ok c) m -> map audio_sequence (bt_values m) = bt_keys m.
Proof.
  unfold bt_values, bt_keys, bt_forall. rewrite map_map. intros H. apply map_ext_in.
  intros [k v] Hin. rewrite List.Forall_forall in H. by destruct (H _ Hin).
Qed.

(** After a drain every drained sequence lies below the position. *)
Lemma drain_facts (b : JitterBuffer) :
  jb_ok b -> (forall d, In d (bt_values b.(jb_packets)) -> d.(audio_sequence) < u64_max) ->
  b.(next_expected_sequence) <= (drain_all b).2.(next_expected_sequence)
  /\ (forall d, In d (drain_all b).1 ->
        b.(next_expected_sequence) <= d.(audio_sequence)
        < (drain_all b).2.(next_expected_sequence)).
Proof.
  intros [] Hmax. unfold drain_all.
  destruct (drain_scan _ _ _) as [expected skipped] eqn:E. cbn [fst snd next_expected_sequence].
  assert (forall d, In d (bt_values b.(jb_packets)) -> In d.(audio_sequence) (bt_keys b.(jb_packets)))
    as Hseq by (intros d Hd; rewrite <- (values_sequences _ _ jb_ok_entries0); by apply in_map).
  destruct (bt_values b.(jb_packets)) as [|v l] eqn:Ev; [split; [lia|done]|].
  destruct (@exists_last _ (v :: l)) as (l' & d & El); [done|]. rewrite El in *.
  pose proof (f_equal fst E) as E'. rewrite drain_scan_last in E'. cbn in E'. subst expected.
  assert (In d (l' ++ [d])) as Hd by (apply in_app_iff; right; by left).
  pose proof (Hmax d Hd). unfold saturating_add. rewrite Z.min_l by lia.
  pose proof (jb_ok_keys0 _ (Hseq d Hd)). split; [lia|].
  intros x Hx. pose proof (jb_ok_keys0 _ (Hseq x Hx)). split; [lia|].
  assert (bt_last_key b.(jb_packets) = Some d.(audio_sequence)) as Hlast.
  { unfold bt_last_key. rewrite <- (values_sequences _ _ jb_ok_entries0), Ev, map_app. cbn.
    apply last_snoc. }
  pose proof (bt_last_key_max _ _ _ jb_ok_sorted0 Hlast (Hseq x Hx)). lia.
Qed.

Record step_facts (submitted : list AudioDatagram) (b : JitterBuffer)
  (emitted : list AudioDatagram) (b' : JitterBuffer) : Prop := {
sf_ok : jb_ok b';
sf_config : b'.(jb_config) = b.(jb_config);
sf_holds : holds_only submitted b';
sf_next : b.(next_expected_sequence) <= b'.(next_expected_sequence);
sf_sorted : StronglySorted Z.lt (map audio_sequence emitted);
sf_emitted : forall d, In d emitted ->
  b.(next_expected_sequence) <= d.(audio_sequence) < b'.(next_expected_sequence)
  /\ In d submitted /\ entry_ok b.(jb_config) d.(audio_sequence) d
}.

Lemma advance_next (packets : btmap AudioDatagram)
  (f : JitterBufferStatistics -> JitterBufferStatistics) (b : JitterBuffer) :
  jb_ok b -> b.(next_expected_sequence) < u64_max ->
  (advance packets f b).(next_expected_sequence) = b.(next_expected_sequence) + 1.
Proof.
  intros [] Hlt. apply wrap_small. unfold is_u64, is_uint, u64_max in *. lia.
Qed.

Lemma holds_expected (submitted : list AudioDatagram) (b : JitterBuffer) (d : AudioDatagram) :
  jb_ok b -> holds_only submitted b -> bt_get b.(next_expected_sequence) b.(jb_packets) = Some d ->
  b.(next_expected_sequence) < u64_max.
Proof.
  intros Hb Hh Hg. pose proof (bt_forall_get _ _ _ _ (jb_ok_entries _ Hb) Hg) as (Hs & _).
  destruct (Hh d) as [_ Hlt]; [left; by eapply bt_get_values|]. lia.
Qed.

Lemma advance_holds (submitted : list AudioDatagram) (packets : btmap AudioDatagram)
  (f : JitterBufferStatistics -> JitterBufferStatistics) (b : JitterBuffer) :
  holds_only submitted b -> (forall x, In x (bt_values packets) -> In x (bt_values b.(jb_packets))) ->
  holds_only submitted (advance packets f b).
Proof. intros Hh Hp x [Hx|Hx]; apply Hh; cbn in *; auto. Qed.

Lemma quiet_step (submitted : list AudioDatagram) (b b' : JitterBuffer) :
  jb_ok b' -> b'.(jb_config) = b.(jb_config) -> holds_only submitted b' ->
  b.(next_expected_sequence) <= b'.(next_expected_sequence) -> step_facts submitted b [] b'.
Proof. intros. split; try done. constructor. Qed.

Lemma jb_step_facts (submitted s e : list AudioDatagram) (b b' : JitterBuffer) :
  jb_step b s e b' -> jb_ok b -> 1 <= b.(jb_config).(jb_max_reorder_window) ->
  holds_only submitted b -> step_facts (submitted ++ s) b e b'.
Proof.
  intros Hstep Hb Hw Hh. destruct Hstep as [b d Hd|b d b' Hp|b|b Hn Hlt|b|b];
    rewrite ?app_nil_r; pose proof Hb as [].
  - assert (is_u64 d.(audio_sequence)) by (unfold is_u64, is_uint, u64_max in *; lia).
    apply quiet_step; [by apply accept_ok|apply accept_config|by apply accept_holds|].
    by apply accept_next_le.
  - pose proof (pop_in_order_ok b Hb) as Hok'. rewrite Hp in Hok'.
    destruct (pop_facts b b' d Hb Hp) as (Hs & Hin & He & ->).
    destruct (Hh d (or_introl Hin)) as [Hsub Hlt].
    assert (b.(next_expected_sequence) < u64_max) as Hmax by lia.
    pose proof (advance_next (bt_remove b.(next_expected_sequence) b.(jb_packets)) count_emitted
      b Hb Hmax) as Hn.
    split; try done.
    + apply advance_holds; [done|]. intros x. apply bt_values_remove.
    + lia.
    + repeat constructor.
    + intros x [<-|[]]. split_and!; [lia|lia|done|]. by rewrite Hs.
  - unfold discard_in_order. destruct (bt_get _ _) as [v|] eqn:E; [|by apply quiet_step].
    pose proof (holds_expected _ _ _ Hb Hh E) as Hmax. apply quiet_step.
    + pose proof (discard_in_order_ok b Hb) as H. unfold discard_in_order in H. by rewrite E in H.
    + done.
    + apply advance_holds; [done|]. intros x. apply bt_values_remove.
    + cbn [snd]. rewrite advance_next by done. lia.
  - apply quiet_step; [by apply skip_expected_ok|done|by apply advance_holds|].
    unfold skip_expected_sequence. rewrite advance_next by done. lia.
  - apply quiet_step; [by apply skip_to_earliest_ok|..].
    + unfold skip_to_earliest_buffered. by destruct (0 <? _).
    + unfold skip_to_earliest_buffered. by destruct (0 <? _).
    + destruct (bt_first_key b.(jb_packets)) as [k|] eqn:Hk.
      * rewrite (skip_to_earliest_next b k) by done. by apply jb_ok_keys0, bt_first_key_in.
      * unfold skip_to_earliest_buffered, missing_sequence_count. rewrite Hk. cbn. lia.
  - destruct (drain_facts b Hb) as [Hle Hin]; [intros d Hd; apply Hh; by left|].
    assert ((drain_all b).1 = bt_values b.(jb_packets)) as Hd
      by (unfold drain_all; by destruct (drain_scan _ _ _)).
    split; [by apply drain_all_ok|unfold drain_all; by destruct (drain_scan _ _ _)| |done|..].
    + intros x. unfold drain_all. destruct (drain_scan _ _ _). cbn. intros [[]|Hx].
      apply Hh. by right.
    + rewrite Hd, (values_sequences _ _ jb_ok_entries0). done.
    + intros d Hd'. split; [by apply Hin|]. rewrite Hd in Hd'.
      split; [apply Hh; by left|].
      unfold bt_values in Hd'. apply in_map_iff in Hd' as ([k d'] & <- & Hkd). cbn.
      unfold bt_forall in jb_ok_entries0. rewrite List.Forall_forall in jb_ok_entries0.
      destruct (jb_ok_entries0 _ Hkd) as (Hs & He). cbn in *. by rewrite Hs.
Qed.

Record run_facts (b0 : JitterBuffer) (submitted emitted : list AudioDatagram) (b : JitterBuffer) :
  Prop := {
rf_ok : jb_ok b;
rf_config : b.(jb_config) = b0.(jb_config);
rf_holds : holds_only submitted b;
rf_next : b0.(next_expected_sequence) <= b.(next_expected_sequence);
rf_sorted : StronglySorted Z.lt (map audio_sequence emitted);
rf_emitted : forall d, In d emitted ->
  b0.(next_expected_sequence) <= d.(audio_sequence) < b.(next_expected_sequence)
  /\ In d submitted /\ entry_ok b0.(jb_config) d.(audio_sequence) d
}.

Lemma StronglySorted_app (l k : list Z) :
  StronglySorted Z.lt l -> StronglySorted Z.lt k ->
  (forall x y, In x l -> In y k -> x < y) -> StronglySorted Z.lt (l ++ k).
Proof.
  intros Hl Hk H. induction Hl as [|x l Hl IH Hx]; [done|]. cbn. constructor.
  - apply IH. intros a b Ha. apply H. by right.
  - apply Forall_app. split; [done|]. apply List.Forall_forall. intros y Hy. apply H; [by left|done].
Qed.

Lemma jb_run_facts (b0 b : JitterBuffer) (submitted emitted : list AudioDatagram) :
  jb_run b0 submitted emitted b -> jb_ok b0 -> holds_only [] b0 ->
  1 <= b0.(jb_config).(jb_max_reorder_window) -> run_facts b0 submitted emitted b.
Proof.
  intros Hrun H0 Hh0 Hw. induction Hrun as [|submitted emitted b s e b' Hrun IH Hstep].
  - split; try done. constructor.
  - destruct IH. destruct (jb_step_facts submitted s e b b' Hstep) as [? Hc ? ? ? He]; try done.
    { by rewrite rf_config0. }
    split; try done; [by rewrite Hc|lia| |].
    + rewrite map_app. apply StronglySorted_app; [done..|]. intros x y Hx Hy.
      apply in_map_iff in Hx as (dx & <- & Hx), Hy as (dy & <- & Hy).
      apply rf_emitted0 in Hx as [? _]. apply He in Hy as [? _]. lia.
    + intros d Hd. apply in_app_iff in Hd as [Hd|Hd].
      * destruct (rf_emitted0 d Hd) as (? & ? & ?). split_and!; [lia|lia| |done].
        apply in_app_iff. by left.
      * destruct (He d Hd) as (? & ? & ?). rewrite rf_config0 in *. split_and!; [lia|lia|done|done].
Qed.

(** ** Properties *)

Lemma new_holds (c : JitterBufferConfig) (b : JitterBuffer) :
  JitterBuffer_new c = Ok b ->
  holds_only [] b /\ b.(jb_config) = c /\ b.(next_expected_sequence) = c.(jb_first_sequence).
Proof.
  unfold JitterBuffer_new. repeat case_match; try done. intros [= <-].
  split_and!; [|done|done]. by intros d [[]|[]].
Qed.

(** In-order, at-most-once delivery: whatever packets arrive, in whatever
    order, duplicated, lost or from other streams, and however pops, skips,
    discards and drains are interleaved with them, the packets handed to
    playback have strictly increasing sequence numbers from the first expected
    one on, each was submitted, and each belongs to the configured session
    and stream. *)
Lemma jitter_delivers_in_order (c : JitterBufferConfig) (b0 b : JitterBuffer)
  (submitted emitted : list AudioDatagram) :
  JitterBuffer_new c = Ok b0 -> is_u32 c.(jb_max_reorder_window) -> is_u64 c.(jb_first_sequence) ->
  1 <= c.(jb_max_reorder_window) -> jb_run b0 submitted emitted b ->
  StronglySorted Z.lt (map audio_sequence emitted)
  /\ (forall d, In d emitted ->
        In d submitted /\ c.(jb_first_sequence) <= d.(audio_sequence)
        /\ d.(audio_session_id) = c.(jb_session_id) /\ d.(audio_stream_id) = c.(jb_stream_id)).
Proof.
  intros Hnew Hw Hf Hw1 Hrun. destruct (new_holds c b0 Hnew) as (Hh & Hc & Hn).
  destruct (jb_run_facts b0 b submitted emitted Hrun) as [? ? ? ? Hs He]; [|done|by rewrite Hc|].
  - by apply (JitterBuffer_new_ok c).
  - split; [done|]. intros d Hd. destruct (He d Hd) as (Hr & Hin & _ & H1 & H2 & _).
    rewrite Hn in Hr. rewrite Hc in H1, H2. split_and!; [done|lia|done|done].
Qed.

(** Bounded memory: no sequence of arrivals and departures makes the
    buffer hold more than one packet per sequence number of its reorder window
    (never more than 4097) or more than two unconfirmed far-future packets,
    and all held packets are at or ahead of the expected sequence. *)
Lemma jitter_memory_is_bounded (c : JitterBufferConfig) (b0 b : JitterBuffer)
  (submitted emitted : list AudioDatagram) :
  JitterBuffer_new c = Ok b0 -> is_u32 c.(jb_max_reorder_window) -> is_u64 c.(jb_first_sequence) ->
  1 <= c.(jb_max_reorder_window) -> jb_run b0 submitted emitted b ->
  jb_len b <= Z.max c.(jb_max_reorder_window) 2 + 1
  /\ jb_len b <= 4097
  /\ len b.(far_future_candidates) <= 2
  /\ (forall k, In k (bt_keys b.(jb_packets)) ->
        b.(next_expected_sequence) <= k
        <= b.(next_expected_sequence) + Z.max c.(jb_max_reorder_window) 2).
Proof.
  intros Hnew Hw Hf Hw1 Hrun. destruct (new_holds c b0 Hnew) as (Hh & Hc & _).
  destruct (jb_run_facts b0 b submitted emitted Hrun) as [Hok Hcfg _ _ _ _]; [|done|by rewrite Hc|].
  - by apply (JitterBuffer_new_ok c).
  - pose proof (jb_len_bound b Hok) as Hlen. pose proof Hok as []. rewrite Hcfg, Hc in *.
    unfold reach, MAX_REORDER_WINDOW_LIMIT in *. split_and!; [lia|lia|done|done].
Qed.

(** A stray packet cannot strand playback: one arrival moves the position
    only when two corroborating candidates were already held, and then the
    buffer restarts on exactly three consecutive sequence numbers, all with
    their audio, beyond the reorder window of the old position. *)
Lemma resync_needs_three_consecutive (d : AudioDatagram) (b : JitterBuffer) :
  jb_ok b -> is_u64 d.(audio_sequence) ->
  (accept d b).2.(next_expected_sequence) <> b.(next_expected_sequence) ->
  exists n, bt_keys (accept d b).2.(jb_packets) = [n; n + 1; n + 2]
    /\ (accept d b).2.(next_expected_sequence) = n
    /\ n <= d.(audio_sequence) <= n + 2
    /\ b.(next_expected_sequence) + b.(jb_config).(jb_max_reorder_window) < d.(audio_sequence)
    /\ len b.(far_future_candidates) = 2.
Proof.
  intros Hb Hu. pose proof (accept_cases d b Hb Hu) as H.
  inversion H as [kind stats _ Hr Hb'|stats cand He Hfar Hc Hr Hb'
                 |stats He Hg Hw' Hr Hb'|stats n He Hfar Hk Hr Hb']; clear H Hr Hb'; cbn; try done.
  intros _. exists n.
  assert (In (audio_sequence d) (bt_keys (next_candidates d (far_future_candidates b)))) as Hin
    by (unfold next_candidates; apply bt_keys_insert; by left).
  rewrite Hk in Hin. split_and!; [done|done| | |lia|].
  - destruct Hin as [E|[E|[E|[]]]]; lia.
  - destruct Hin as [E|[E|[E|[]]]]; lia.
  - pose proof (jb_ok_cand_len _ Hb).
    assert (len (next_candidates d (far_future_candidates b)) = 3) as Hl
      by (unfold len; rewrite <- (length_map fst); fold (bt_keys (next_candidates d (far_future_candidates b)));
          by rewrite Hk).
    pose proof (bt_len_insert_le d.(audio_sequence) d (far_future_candidates b)).
    unfold next_candidates in Hl. destruct (_ || _); [done|]. lia.
Qed.

(** A packet of the configured stream beyond the window takes the far-future path. *)
Lemma accept_far (d : AudioDatagram) (b : JitterBuffer) :
  jb_ok b -> entry_ok b.(jb_config) d.(audio_sequence) d ->
  b.(next_expected_sequence) + reach b.(jb_config) < d.(audio_sequence) ->
  accept d b = accept_far_future d b.
Proof.
  intros [] (_ & Hs & Ht & _) Hfar. unfold accept, reach in *.
  rewrite !bool_decide_eq_true_2 by done. cbn [negb].
  rewrite (proj2 (Z.ltb_ge _ _)) by lia.
  assert (bt_contains_key d.(audio_sequence) b.(jb_packets) = false) as ->.
  { apply bt_contains_key_false. intros Hin. apply jb_ok_keys0 in Hin. lia. }
  by rewrite (proj2 (Z.ltb_lt _ _)) by lia.
Qed.

Ltac decide_ltb :=
  repeat match goal with
  | |- context [?a <? ?b] =>
      first [rewrite (proj2 (Z.ltb_lt a b)) by lia | rewrite (proj2 (Z.ltb_ge a b)) by lia]
  | |- context [?a =? ?b] =>
      first [rewrite (proj2 (Z.eqb_eq a b)) by lia | rewrite (proj2 (Z.eqb_neq a b)) by lia]
  end.

(** Three far-future packets within three neighbouring sequence numbers. *)
Definition corroborating (x y z : Z) : Prop :=
  x <> y /\ x <> z /\ y <> z
  /\ Z.abs (x - y) <= 2 /\ Z.abs (x - z) <= 2 /\ Z.abs (y - z) <= 2.

(** Recovery after an outage: when the stream has moved beyond the reorder
    window, any three consecutive packets of it, in any order, bring the
    buffer to their lowest sequence number with all three packets buffered. *)
Lemma three_packets_resync (b : JitterBuffer) (d1 d2 d3 : AudioDatagram) :
  jb_ok b -> b.(far_future_candidates) = [] ->
  entry_ok b.(jb_config) d1.(audio_sequence) d1 ->
  entry_ok b.(jb_config) d2.(audio_sequence) d2 ->
  entry_ok b.(jb_config) d3.(audio_sequence) d3 ->
  corroborating d1.(audio_sequence) d2.(audio_sequence) d3.(audio_sequence) ->
  b.(next_expected_sequence) + reach b.(jb_config)
    < Z.min (Z.min d1.(audio_sequence) d2.(audio_sequence)) d3.(audio_sequence) ->
  let b3 := (accept d3 (accept d2 (accept d1 b).2).2).2 in
  (accept d3 (accept d2 (accept d1 b).2).2).1 = Ok tt
  /\ b3.(next_expected_sequence)
     = Z.min (Z.min d1.(audio_sequence) d2.(audio_sequence)) d3.(audio_sequence)
  /\ (forall d, In d [d1; d2; d3] -> bt_get d.(audio_sequence) b3.(jb_packets) = Some d).
Proof.
  intros Hb Hc H1 H2 H3 (Hxy & Hxz & Hyz & Axy & Axz & Ayz) Hfar.
  assert ((accept d1 b).2 = mkJitterBuffer b.(jb_config) b.(jb_packets) b.(next_expected_sequence)
            (count_reorder b.(jb_statistics)) [(d1.(audio_sequence), d1)]) as E1.
  { rewrite accept_far by (done || lia). rewrite accept_far_future_eq, Hc. done. }
  assert (jb_ok (accept d1 b).2) as Hb1 by (apply accept_ok; [done|apply H1]).
  rewrite E1 in *. clear E1. set (b1 := mkJitterBuffer _ _ _ _ _) in *.
  set (x := d1.(audio_sequence)) in *. set (y := d2.(audio_sequence)) in *.
  set (z := d3.(audio_sequence)) in *.
  assert (exists cand, (accept d2 b1).2
            = mkJitterBuffer b.(jb_config) b.(jb_packets) b.(next_expected_sequence)
                (count_reorder b1.(jb_statistics)) cand
          /\ cand = (if y <? x then [(y, d2); (x, d1)] else [(x, d1); (y, d2)])) as (cand & E2 & Hcand).
  { eexists. split; [|done]. rewrite accept_far by (done || fold y; cbn; lia).
    rewrite accept_far_future_eq. unfold next_candidates. fold y. cbn. fold x.
    unfold bt_contains_key, saturating_sub, bt_last_key. cbn. fold x.
    rewrite (proj2 (Z.eqb_neq y x)) by lia. decide_ltb. cbn [orb bt_insert].
    destruct (y <? x) eqn:El; [done|]. by rewrite (proj2 (Z.eqb_neq y x)) by lia. }
  assert (jb_ok (accept d2 b1).2) as Hb2 by (apply accept_ok; [done|apply H2]).
  rewrite E2 in *. clear E2. set (b2 := mkJitterBuffer _ _ _ _ cand) in *.
  rewrite accept_far by (done || fold z; cbn; lia). rewrite accept_far_future_eq. fold z.
  unfold next_candidates, bt_contains_key, saturating_sub, bt_last_key, bt_first_key. fold z.
  cbn [far_future_candidates b2 b1]. rewrite Hcand. clear Hcand.
  destruct (y <? x) eqn:El; to_prop; cbn [bt_get bt_keys map fst head hd_error last];
    decide_ltb; cbn [orb bt_insert];
    (destruct (Z.lt_trichotomy z x) as [?|[?|?]]; [|lia|];
     destruct (Z.lt_trichotomy z y) as [?|[?|?]]; try lia; decide_ltb;
     change (len [?a; ?b; ?c] <? FAR_FUTURE_RESYNC_PACKETS) with false;
     (split_and!; [done|cbn [fst snd next_expected_sequence map bt_keys head]; lia|]; intros d [<-|[<-|[<-|[]]]]; cbn; fold x y z; decide_ltb; done)).
Qed.

(** The buffered span is not bounded by the configured duration: the check
    compares an arrival with the earliest buffered packet only, so packets
    arriving in reverse order stretch the span past the limit (here 3000 ms
    buffered under a 2000 ms limit). *)
Theorem buffered_span_exceeds_limit :
  exists c b0 d1 d2 d3,
    JitterBuffer_new c = Ok b0 /\ c.(jb_max_buffered_duration_ms) = 2000
    /\ (accept d1 b0).1 = Ok tt /\ (accept d2 (accept d1 b0).2).1 = Ok tt
    /\ (accept d3 (accept d2 (accept d1 b0).2).2).1 = Ok tt
    /\ buffered_span_ms (accept d3 (accept d2 (accept d1 b0).2).2).2 = 3000.
Proof.
  pose (packet := fun sequence time =>
    mkAudioDatagram (lit "s") (lit "t") sequence PcmS16Le 48000 1 960 (sequence * 960) time [0; 0]).
  exists (mkJitterBufferConfig (lit "s") (lit "t") 0 4096 2000). eexists.
  exists (packet 150 3000), (packet 75 1500), (packet 0 0).
  split; [reflexivity|]. by vm_compute.
Qed.

(** ** A reordered burst *)

(** Packets arriving one after another, with the outcome of each. *)
Fixpoint accept_all (l : list AudioDatagram) (b : JitterBuffer) :
  list (result unit JitterBufferRejectionKind) * JitterBuffer :=
  match l with
  | [] => ([], b)
  | d :: l => let '(r, b) := accept d b in let '(rs, b) := accept_all l b in (r :: rs, b)
  end.

(** [n] pops, with the packets they deliver. *)
Fixpoint pop_all (n : nat) (b : JitterBuffer) : list AudioDatagram * JitterBuffer :=
  match n with
  | O => ([], b)
  | S n =>
      match pop_in_order b with
      | (Some d, b) => let '(ds, b) := pop_all n b in (d :: ds, b)
      | (None, b) => ([], b)
      end
  end.

Section Burst.
Context (c : JitterBufferConfig) (ds : list AudioDatagram).
Hypothesis Hids : forall d, In d ds ->
  d.(audio_session_id) = c.(jb_session_id) /\ d.(audio_stream_id) = c.(jb_stream_id)
  /\ c.(jb_first_sequence) <= d.(audio_sequence)
     <= c.(jb_first_sequence) + c.(jb_max_reorder_window).
Hypothesis Hspan : forall d d', In d ds -> In d' ds ->
  abs_diff d.(audio_host_presentation_time_ms) d'.(audio_host_presentation_time_ms)
  <= c.(jb_max_buffered_duration_ms).

(** The buffer holds exactly the packets of [arrived], all from the burst. *)
Record holds_burst (arrived : list AudioDatagram) (b : JitterBuffer) : Prop := {
hb_config : b.(jb_config) = c;
hb_next : b.(next_expected_sequence) = c.(jb_first_sequence);
hb_sorted : bt_ok b.(jb_packets);
hb_values : forall d, In d (bt_values b.(jb_packets)) -> In d ds;
hb_get : forall k d, bt_get k b.(jb_packets) = Some d <-> In d arrived /\ d.(audio_sequence) = k
}.

Lemma accept_burst (arrived : list AudioDatagram) (d : AudioDatagram) (b : JitterBuffer) :
  holds_burst arrived b -> In d ds -> ~ In d.(audio_sequence) (map audio_sequence arrived) ->
  (accept d b).1 = Ok tt /\ holds_burst (d :: arrived) (accept d b).2.
Proof.
  intros [Hc Hn Hs Hv Hg] Hd Hnew. destruct (Hids d Hd) as (H1 & H2 & H3 & H4).
  assert (bt_contains_key d.(audio_sequence) b.(jb_packets) = false) as Hck.
  { unfold bt_contains_key. destruct (bt_get _ _) as [x|] eqn:E; [|done].
    apply Hg in E as [Hx Hq]. destruct Hnew. rewrite <- Hq. by apply in_map. }
  unfold accept. rewrite Hc, Hn, Hck, !bool_decide_eq_true_2 by done. cbn [negb].
  rewrite !(proj2 (Z.ltb_ge _ _)) by lia.
  replace (match bt_first_value _ with Some _ => _ | None => _ end) with false.
  2:{ destruct (bt_first_value _) as [e|] eqn:E; [|done]. symmetry. apply Z.ltb_ge.
      apply Hspan; [|done]. apply Hv. unfold bt_first_value in E.
      destruct (bt_values (jb_packets b)); [done|]. injection E as ->. by left. }
  split; [done|]. split; cbn; try done; [by apply bt_ok_insert| |].
  - intros x Hx. apply bt_values_insert in Hx as [->|Hx]; auto.
  - intros k x. destruct (Z.eq_dec k d.(audio_sequence)) as [->|Hne].
    + rewrite bt_get_insert_eq. split; [intros [= ->]; auto|]. intros [[->|Hx] Hq]; [done|].
      destruct Hnew. rewrite <- Hq. by apply in_map.
    + rewrite bt_get_insert_ne, Hg by congruence. split; [intuition|]. intros [[->|Hx] Hq]; [done|auto].
Qed.

Lemma accept_all_burst (l arrived : list AudioDatagram) (b : JitterBuffer) :
  holds_burst arrived b -> (forall d, In d l -> In d ds) ->
  NoDup (map audio_sequence (l ++ arrived)) ->
  exists b', accept_all l b = (map (fun _ => Ok tt) l, b') /\ holds_burst (rev l ++ arrived) b'.
Proof.
  revert arrived b. induction l as [|d l IH]; intros arrived b Hb Hin Hnd; [by exists b|].
  cbn [app map] in Hnd. apply NoDup_cons in Hnd as [Hnot Hnd].
  assert (~ In d.(audio_sequence) (map audio_sequence arrived)) as Hfresh.
  { intros H. apply Hnot. rewrite map_app, elem_of_app. right. by apply list_elem_of_In. }
  destruct (accept_burst arrived d b Hb (Hin d (or_introl eq_refl)) Hfresh) as [Hr Hb'].
  destruct (IH (d :: arrived) (accept d b).2 Hb') as (b' & Hrun & Hfin).
  - intros x Hx. apply Hin. by right.
  - rewrite map_app. cbn [map]. rewrite <- Permutation_middle, <- map_app. by apply NoDup_cons.
  - exists b'. cbn [accept_all]. destruct (accept d b) as [r b1]. cbn [fst snd] in *. subst r.
    rewrite Hrun. split; [done|]. cbn [rev]. by rewrite <- app_assoc.
Qed.
End Burst.

Lemma bt_get_all_None {V : Type} (m : btmap V) : (forall k, bt_get k m = None) -> m = [].
Proof.
  destruct m as [|[k v] m]; [done|]. intros H. specialize (H k). cbn in H. by rewrite Z.eqb_refl in H.
Qed.

Lemma pop_all_consecutive (ds : list AudioDatagram) (b : JitterBuffer) :
  bt_ok b.(jb_packets) -> 0 <= b.(next_expected_sequence) ->
  b.(next_expected_sequence) + len ds <= u64_max ->
  (forall k d, bt_get k b.(jb_packets) = Some d <->
     exists i : nat, ds !! i = Some d /\ k = b.(next_expected_sequence) + Z.of_nat i) ->
  exists b', pop_all (length ds) b = (ds, b') /\ b'.(jb_packets) = []
    /\ b'.(next_expected_sequence) = b.(next_expected_sequence) + len ds.
Proof.
  revert b. induction ds as [|d ds IH]; intros b Hs H0 Hmax Hg.
  - exists b. split_and!; [done| |rewrite (len_nil (A := AudioDatagram)); lia].
    apply bt_get_all_None. intros k. destruct (bt_get k _) eqn:E; [|done]. by apply Hg in E as (i & Hi & _).
  - rewrite len_cons in *. pose proof (len_nonneg ds). set (n := next_expected_sequence b) in *.
    assert (bt_get n b.(jb_packets) = Some d) as Hd by (apply Hg; exists 0%nat; split; [done|lia]).
    cbn [length pop_all]. unfold pop_in_order. fold n. rewrite Hd.
    set (b1 := advance _ _ b).
    assert (next_expected_sequence b1 = n + 1) as Hn1
      by (cbn; unfold wrapping_add; fold n; apply wrap_small; unfold u64_max in *; lia).
    destruct (IH b1) as (b' & Hrun & Hem & Hnx).
    + by apply bt_ok_remove.
    + lia.
    + lia.
    + intros k x. cbn [b1 advance jb_packets]. rewrite Hn1. destruct (Z.eq_dec k n) as [->|Hne].
      * rewrite bt_get_remove_eq by done. split; [done|]. intros (i & _ & Hi). lia.
      * rewrite bt_get_remove_ne, Hg by congruence. split.
        -- intros ([|i] & Hi & ->); [lia|]. exists i. split; [done|lia].
        -- intros (i & Hi & ->). exists (S i). split; [done|lia].
    + exists b'. rewrite Hrun. split_and!; [done|done|lia].
Qed.

(** C7. Network reordering is undone: a burst of consecutive packets no longer
    than the reorder window, spanning no more than the buffered duration, may
    arrive in any order; every packet is accepted, and popping returns the
    burst in its original order and leaves the buffer empty at the next
    sequence number. *)
Theorem reordered_burst_is_restored (c : JitterBufferConfig) (b0 : JitterBuffer)
  (ds arrival : list AudioDatagram) :
  JitterBuffer_new c = Ok b0 -> 0 <= c.(jb_first_sequence) ->
  c.(jb_first_sequence) + len ds <= u64_max -> len ds <= c.(jb_max_reorder_window) + 1 ->
  (forall i d, ds !! i = Some d ->
     d.(audio_session_id) = c.(jb_session_id) /\ d.(audio_stream_id) = c.(jb_stream_id)
     /\ d.(audio_sequence) = c.(jb_first_sequence) + Z.of_nat i) ->
  (forall d d', In d ds -> In d' ds ->
     abs_diff d.(audio_host_presentation_time_ms) d'.(audio_host_presentation_time_ms)
     <= c.(jb_max_buffered_duration_ms)) ->
  Permutation arrival ds ->
  exists b1 b2,
    accept_all arrival b0 = (map (fun _ => Ok tt) arrival, b1)
    /\ pop_all (length ds) b1 = (ds, b2)
    /\ jb_len b2 = 0
    /\ b2.(next_expected_sequence) = c.(jb_first_sequence) + len ds.
Proof.
  intros Hnew H0 Hmax Hwin Hseq Hspan Hperm.
  assert (forall d, In d ds -> exists i : nat, ds !! i = Some d /\ (i < length ds)%nat) as Hidx.
  { intros d Hd. apply list_elem_of_In, list_elem_of_lookup_1 in Hd as [i Hi].
    exists i. split; [done|]. by apply lookup_lt_Some in Hi. }
  assert (holds_burst c ds [] b0) as Hb0.
  { unfold JitterBuffer_new in Hnew. repeat case_match; try done. injection Hnew as <-.
    split; cbn; try done; try (by constructor). intros k d. split; [done|by intros [[] _]]. }
  assert (NoDup (map audio_sequence ds)) as Hnd.
  { change (NoDup (audio_sequence <$> ds)). apply NoDup_alt. intros i j s Hi Hj.
    apply list_lookup_fmap_Some in Hi as (x & -> & Hx), Hj as (y & Hxy & Hy).
    destruct (Hseq i x Hx) as (_ & _ & E1), (Hseq j y Hy) as (_ & _ & E2). lia. }
  destruct (accept_all_burst c ds) with (l := arrival) (arrived := @nil AudioDatagram) (b := b0)
    as (b1 & Hrun & Hb1); try done.
  - intros d Hd. destruct (Hidx d Hd) as (i & Hi & Hlt). destruct (Hseq i d Hi) as (E1 & E2 & ->).
    unfold len in *. split_and!; [done|done|lia|lia].
  - intros d Hd. by rewrite <- Hperm.
  - by rewrite app_nil_r, Hperm.
  - rewrite app_nil_r in Hb1. destruct Hb1 as [_ Hn Hs _ Hg].
    destruct (pop_all_consecutive ds b1) as (b2 & Hpop & Hem & Hnx); rewrite ?Hn; try done.
    + intros k d. rewrite Hg, <- in_rev, Hperm. split.
      * intros [Hd <-]. destruct (Hidx d Hd) as (i & Hi & _). exists i. split; [done|]. by apply Hseq.
      * intros (i & Hi & ->). split; [|by apply Hseq].
        apply list_elem_of_In. by apply list_elem_of_lookup_2 in Hi.
    + exists b1, b2. unfold jb_len. rewrite Hem. split_and!; try done. by rewrite Hnx, Hn.
Qed.

(** ** Witnesses *)

Definition sample_datagram (sequence : Z) : AudioDatagram :=
  mkAudioDatagram (lit "session") (lit "stream") sequence PcmS16Le 48000 1 960
    (sequence * 960) (sequence * 20) [1; 0; 2; 0].

Definition sample_jb_config : JitterBufferConfig :=
  mkJitterBufferConfig (lit "session") (lit "stream") 0 64 2000.

Definition sample_jb : JitterBuffer :=
  mkJitterBuffer sample_jb_config bt_empty 0 JitterBufferStatistics_default bt_empty.

Definition sample_jb_two : JitterBuffer :=
  (accept (sample_datagram 0) (accept (sample_datagram 1) sample_jb).2).2.

Lemma sample_run :
  jb_run sample_jb [sample_datagram 1; sample_datagram 0] [sample_datagram 0]
    (pop_in_order sample_jb_two).2.
Proof.
  apply (run_step _ [sample_datagram 1; sample_datagram 0] [] sample_jb_two [] [sample_datagram 0]).
  - apply (run_step _ [sample_datagram 1] [] (accept (sample_datagram 1) sample_jb).2
             [sample_datagram 0] []).
    + apply (run_step _ [] [] sample_jb [sample_datagram 1] []).
      * apply run_start.
      * apply step_accept. cbn. unfold u64_max. lia.
    + apply step_accept. cbn. unfold u64_max. lia.
  - apply step_pop. vm_compute. reflexivity.
Defined.

Lemma jitter_delivers_in_order_witness :
  StronglySorted Z.lt (map audio_sequence [sample_datagram 0])
  /\ (forall d, In d [sample_datagram 0] ->
        In d [sample_datagram 1; sample_datagram 0] /\ 0 <= d.(audio_sequence)
        /\ d.(audio_session_id) = lit "session" /\ d.(audio_stream_id) = lit "stream").
Proof.
  apply (jitter_delivers_in_order sample_jb_config sample_jb (pop_in_order sample_jb_two).2).
  - reflexivity.
  - cbn. unfold is_u32, is_uint. lia.
  - cbn. unfold is_u64, is_uint. lia.
  - cbn. lia.
  - exact sample_run.
Defined.

Lemma jitter_memory_is_bounded_witness : jb_len (pop_in_order sample_jb_two).2 <= 65.
Proof.
  destruct (jitter_memory_is_bounded sample_jb_config sample_jb (pop_in_order sample_jb_two).2
              [sample_datagram 1; sample_datagram 0] [sample_datagram 0]) as (H & _).
  - reflexivity.
  - cbn. unfold is_u32, is_uint. lia.
  - cbn. unfold is_u64, is_uint. lia.
  - cbn. lia.
  - exact sample_run.
  - exact H.
Defined.

Lemma sample_jb_ok : jb_ok sample_jb.
Proof.
  apply (JitterBuffer_new_ok sample_jb_config); [..|reflexivity];
    cbn; unfold is_u32, is_u64, is_uint; lia.
Defined.

Lemma sample_entry_ok (k : Z) :
  0 <= k < 2 ^ 64 -> entry_ok sample_jb_config k (sample_datagram k).
Proof. intros H. repeat split; cbn; try reflexivity; lia. Defined.

(** The buffer after two far-future packets. *)
Definition sample_jb_waiting : JitterBuffer :=
  (accept (sample_datagram 202) (accept (sample_datagram 200) sample_jb).2).2.

Lemma resync_needs_three_consecutive_witness :
  exists n, bt_keys (accept (sample_datagram 201) sample_jb_waiting).2.(jb_packets) = [n; n + 1; n + 2]
    /\ (accept (sample_datagram 201) sample_jb_waiting).2.(next_expected_sequence) = n
    /\ n <= 201 <= n + 2 /\ 0 + 64 < 201 /\ len sample_jb_waiting.(far_future_candidates) = 2.
Proof.
  apply (resync_needs_three_consecutive (sample_datagram 201) sample_jb_waiting).
  - apply accept_ok; [apply accept_ok; [exact sample_jb_ok|]|];
      cbn; unfold is_u64, is_uint; lia.
  - cbn. unfold is_u64, is_uint. lia.
  - vm_compute. discriminate.
Defined.

Lemma three_packets_resync_witness :
  let b3 := (accept (sample_datagram 201) sample_jb_waiting).2 in
  (accept (sample_datagram 201) sample_jb_waiting).1 = Ok tt
  /\ b3.(next_expected_sequence) = Z.min (Z.min 200 202) 201
  /\ (forall d, In d [sample_datagram 200; sample_datagram 202; sample_datagram 201] ->
        bt_get d.(audio_sequence) b3.(jb_packets) = Some d).
Proof.
  apply (three_packets_resync sample_jb (sample_datagram 200) (sample_datagram 202)
           (sample_datagram 201)).
  - exact sample_jb_ok.
  - reflexivity.
  - apply sample_entry_ok. cbn. lia.
  - apply sample_entry_ok. cbn. lia.
  - apply sample_entry_ok. cbn. lia.
  - unfold corroborating. cbn. lia.
  - vm_compute. reflexivity.
Defined.

Lemma reordered_burst_is_restored_witness :
  exists b1 b2,
    accept_all [sample_datagram 2; sample_datagram 0; sample_datagram 1] sample_jb
      = ([Ok tt; Ok tt; Ok tt], b1)
    /\ pop_all 3 b1 = ([sample_datagram 0; sample_datagram 1; sample_datagram 2], b2)
    /\ jb_len b2 = 0 /\ b2.(next_expected_sequence) = 3.
Proof.
  apply (reordered_burst_is_restored sample_jb_config sample_jb
    [sample_datagram 0; sample_datagram 1; sample_datagram 2]
    [sample_datagram 2; sample_datagram 0; sample_datagram 1]).
  - reflexivity.
  - vm_compute; discriminate.
  - vm_compute; discriminate.
  - vm_compute; discriminate.
  - intros [|[|[|i]]] d Hd; try discriminate Hd; injection Hd as <-; repeat split.
  - intros d d' [<-|[<-|[<-|[]]]] [<-|[<-|[<-|[]]]]; vm_compute; discriminate.
  - exact (Permutation_cons_append [sample_datagram 0; sample_datagram 1] (sample_datagram 2)).
Defined.
