(* ===== verification/Scheduler.v ===== *)
(** The playback scheduler
    (src/rust/silent-disco-core/src/audio/scheduler): maps the jitter buffer
    and the concealment policy onto the host's presentation timeline and
    yields one frame per tick.  The state machine of engine.rs is modelled
    operation by operation; [poll_with_release_horizon] is [poll]'s two-clock
    form, and the loop of [discard_already_late_head] runs on a fuel that is
    proved sufficient. *)
From Stdlib Require Import ZArith Lia Sorting.Sorted Strings.String.
From stdpp Require Import numbers list prelude.
From S2P Require Import Prelude BTreeMap Utf8 Float64 ProtocolTypes Ramp Concealment JitterBuffer.

(** ** Configuration (config.rs) *)

Definition DEFAULT_STARTUP_BUFFER_TARGET_MS : Z := 400.
Definition DEFAULT_REBUFFER_TARGET_MS : Z := 400.
Definition DEFAULT_LOW_WATER_MS : Z := 200.
Definition DEFAULT_HIGH_WATER_MS : Z := 700.
Definition DEFAULT_HARD_RESYNC_THRESHOLD_MS : f64 := f64_of_Z 120.
Definition DEFAULT_CONCEALMENT_BRIDGE_MS : Z := 500.
Definition DEFAULT_CONCEALMENT_SKIP_THRESHOLD_MS : Z := 200.
Definition DEFAULT_REORDER_WINDOW_MS : Z := 1280.
(** packetizer.rs *)
Definition MIN_PACKET_DURATION_MS : Z := 1.
Definition MAX_PACKET_DURATION_MS : Z := 1000.

Definition packets_spanning (duration_ms sample_rate samples_per_packet : Z) : Z :=
  if (sample_rate =? 0) || (samples_per_packet =? 0) then 1
  else
    let numerator := wrap 64 (duration_ms * sample_rate) in
    let denominator := wrap 64 (samples_per_packet * 1000) in
    let packets := numerator / denominator in
    if packets =? 0 then 1 else if u32_max <? packets then u32_max else packets.

Record SchedulerConfig : Type := mkSchedulerConfig {
cfg_session_id : rstr;
cfg_stream_id : rstr;
cfg_sample_rate : Z;
cfg_host_start_time_ms : Z;
cfg_first_sequence : Z;
cfg_samples_per_packet : Z;
cfg_channels : Z;
cfg_startup_buffer_target_ms : Z;
cfg_rebuffer_target_ms : Z;
cfg_low_water_ms : Z;
cfg_high_water_ms : Z;
cfg_hard_resync_threshold_ms : f64;
cfg_max_consecutive_concealed_packets : Z;
cfg_concealment_ramp_ms : Z;
cfg_concealment_skip_threshold_packets : Z;
cfg_max_reorder_window : Z;
cfg_max_buffered_duration_ms : Z
}.

Definition SchedulerConfig_new (session_id stream_id : rstr) (sample_rate host_start_time_ms
  samples_per_packet channels : Z) : SchedulerConfig :=
  {| cfg_session_id := session_id; cfg_stream_id := stream_id; cfg_sample_rate := sample_rate;
     cfg_host_start_time_ms := host_start_time_ms; cfg_first_sequence := 0;
     cfg_samples_per_packet := samples_per_packet; cfg_channels := channels;
     cfg_startup_buffer_target_ms := DEFAULT_STARTUP_BUFFER_TARGET_MS;
     cfg_rebuffer_target_ms := DEFAULT_REBUFFER_TARGET_MS;
     cfg_low_water_ms := DEFAULT_LOW_WATER_MS; cfg_high_water_ms := DEFAULT_HIGH_WATER_MS;
     cfg_hard_resync_threshold_ms := DEFAULT_HARD_RESYNC_THRESHOLD_MS;
     cfg_max_consecutive_concealed_packets :=
       packets_spanning DEFAULT_CONCEALMENT_BRIDGE_MS sample_rate samples_per_packet;
     cfg_concealment_ramp_ms := DEFAULT_CONCEALMENT_RAMP_MS;
     cfg_concealment_skip_threshold_packets :=
       packets_spanning DEFAULT_CONCEALMENT_SKIP_THRESHOLD_MS sample_rate samples_per_packet;
     cfg_max_reorder_window :=
       packets_spanning DEFAULT_REORDER_WINDOW_MS sample_rate samples_per_packet;
     cfg_max_buffered_duration_ms := DEFAULT_MAX_BUFFERED_DURATION_MS |}.

Inductive SchedulerConfigErrorKind : Type :=
| InvalidPacketDuration
| InvalidSamplesPerPacket
| InvalidWaterMarks
| InvalidHardResyncThreshold
| InvalidJitterBufferBounds
| InvalidConcealmentBound
| InvalidConcealmentSkipThreshold
| InvalidConcealmentRamp.

(** ** Outputs and state (types.rs) *)

Inductive PlaybackPhase : Type := PhaseBuffering | PhasePlaying | PhaseAwaitingRebuffer | PhaseStopped.

Inductive BufferHealth : Type := Low | Normal | High.

Record ScheduledFrame : Type := mkScheduledFrame {
frame_sequence : Z;
frame_first_sample_index : Z;
frame_host_presentation_time_ms : Z;
frame_samples : list Z;
frame_concealed : bool
}.

Inductive SchedulerPoll : Type :=
| PollBuffering (buffered_ms : Z)
| PollFrame (frame : ScheduledFrame) (buffer_health : BufferHealth)
| PollWaiting (buffer_health : BufferHealth)
| PollAwaitingRebuffer
| PollStopped.

Inductive OffsetUpdateOutcome : Type := SoftCorrected | HardResyncRequired.

Inductive SchedulerState : Type := SBuffering | SPlaying | SAwaitingRebuffer | SStopped.

Inductive BufferTargetProgress : Type := Accumulating | Satisfied.

#[export] Instance SchedulerState_eq_dec : EqDecision SchedulerState.
Proof. solve_decision. Defined.
#[export] Instance BufferTargetProgress_eq_dec : EqDecision BufferTargetProgress.
Proof. solve_decision. Defined.

Record PlaybackScheduler : Type := mkPlaybackScheduler {
sch_config : SchedulerConfig;
jitter_buffer : JitterBuffer;
concealment : ConcealmentPolicy;
sch_state : SchedulerState;
offset_ms : f64;
ramp_frames : nat;
fade_in_next_real_frame : bool;
last_emitted_tail : list Z;
resume_from_silence : bool;
has_played : bool;
buffer_target_progress : BufferTargetProgress
}.

(** ** Construction *)

Definition validate_scheduler_config (c : SchedulerConfig) : result unit SchedulerConfigErrorKind :=
  if c.(cfg_sample_rate) =? 0 then Err InvalidPacketDuration
  else if c.(cfg_samples_per_packet) =? 0 then Err InvalidSamplesPerPacket
  else
    let packet_time_numerator := c.(cfg_samples_per_packet) * 1000 in
    let minimum_time_numerator := MIN_PACKET_DURATION_MS * c.(cfg_sample_rate) in
    let maximum_time_numerator := MAX_PACKET_DURATION_MS * c.(cfg_sample_rate) in
    if (packet_time_numerator <? minimum_time_numerator)
       || (maximum_time_numerator <? packet_time_numerator)
    then Err InvalidPacketDuration
    else if c.(cfg_high_water_ms) <=? c.(cfg_low_water_ms) then Err InvalidWaterMarks
    else if f64_leb c.(cfg_hard_resync_threshold_ms) (f64_of_Z 0) then Err InvalidHardResyncThreshold
    else if c.(cfg_max_reorder_window) <=? c.(cfg_concealment_skip_threshold_packets)
    then Err InvalidConcealmentSkipThreshold
    else Ok tt.

(** The ramp of [new], in frames. *)
Definition config_ramp_frames (c : SchedulerConfig) : Z :=
  Z.max (try_from_or_max u32_max (c.(cfg_sample_rate) * c.(cfg_concealment_ramp_ms) / 1000)) 1.

Definition PlaybackScheduler_new (config : SchedulerConfig) (initial_offset_ms : f64) :
  result PlaybackScheduler SchedulerConfigErrorKind :=
  let? _ := validate_scheduler_config config in
  let? jitter_buffer :=
    map_err (fun _ => InvalidJitterBufferBounds)
      (JitterBuffer_new
         {| jb_session_id := config.(cfg_session_id); jb_stream_id := config.(cfg_stream_id);
            jb_first_sequence := config.(cfg_first_sequence);
            jb_max_reorder_window := config.(cfg_max_reorder_window);
            jb_max_buffered_duration_ms := config.(cfg_max_buffered_duration_ms) |}) in
  let ramp_frames := config_ramp_frames config in
  if config.(cfg_samples_per_packet) <=? ramp_frames then Err InvalidConcealmentRamp
  else
    let? concealment :=
      map_err (fun _ => InvalidConcealmentBound)
        (ConcealmentPolicy_new config.(cfg_max_consecutive_concealed_packets) ramp_frames) in
    Ok {| sch_config := config; jitter_buffer := jitter_buffer; concealment := concealment;
          sch_state := SBuffering; offset_ms := initial_offset_ms;
          ramp_frames := Z.to_nat ramp_frames; fade_in_next_real_frame := true;
          last_emitted_tail := []; resume_from_silence := true; has_played := false;
          buffer_target_progress := Accumulating |}.

(** ** Field updates *)

Definition set_jitter (b : JitterBuffer) (s : PlaybackScheduler) : PlaybackScheduler :=
  {| sch_config := s.(sch_config); jitter_buffer := b; concealment := s.(concealment);
     sch_state := s.(sch_state); offset_ms := s.(offset_ms); ramp_frames := s.(ramp_frames);
     fade_in_next_real_frame := s.(fade_in_next_real_frame);
     last_emitted_tail := s.(last_emitted_tail); resume_from_silence := s.(resume_from_silence);
     has_played := s.(has_played); buffer_target_progress := s.(buffer_target_progress) |}.
Definition set_concealment (p : ConcealmentPolicy) (s : PlaybackScheduler) : PlaybackScheduler :=
  {| sch_config := s.(sch_config); jitter_buffer := s.(jitter_buffer); concealment := p;
     sch_state := s.(sch_state); offset_ms := s.(offset_ms); ramp_frames := s.(ramp_frames);
     fade_in_next_real_frame := s.(fade_in_next_real_frame);
     last_emitted_tail := s.(last_emitted_tail); resume_from_silence := s.(resume_from_silence);
     has_played := s.(has_played); buffer_target_progress := s.(buffer_target_progress) |}.
Definition set_state (st : SchedulerState) (s : PlaybackScheduler) : PlaybackScheduler :=
  {| sch_config := s.(sch_config); jitter_buffer := s.(jitter_buffer);
     concealment := s.(concealment); sch_state := st; offset_ms := s.(offset_ms);
     ramp_frames := s.(ramp_frames);
     fade_in_next_real_frame := s.(fade_in_next_real_frame);
     last_emitted_tail := s.(last_emitted_tail); resume_from_silence := s.(resume_from_silence);
     has_played := s.(has_played); buffer_target_progress := s.(buffer_target_progress) |}.
Definition set_offset (o : f64) (s : PlaybackScheduler) : PlaybackScheduler :=
  {| sch_config := s.(sch_config); jitter_buffer := s.(jitter_buffer);
     concealment := s.(concealment); sch_state := s.(sch_state); offset_ms := o;
     ramp_frames := s.(ramp_frames);
     fade_in_next_real_frame := s.(fade_in_next_real_frame);
     last_emitted_tail := s.(last_emitted_tail); resume_from_silence := s.(resume_from_silence);
     has_played := s.(has_played); buffer_target_progress := s.(buffer_target_progress) |}.
(** The three fields that describe how the next real frame is spliced. *)
Definition set_splice (fade_in : bool) (tail : list Z) (from_silence : bool)
  (s : PlaybackScheduler) : PlaybackScheduler :=
  {| sch_config := s.(sch_config); jitter_buffer := s.(jitter_buffer);
     concealment := s.(concealment); sch_state := s.(sch_state); offset_ms := s.(offset_ms);
     ramp_frames := s.(ramp_frames); fade_in_next_real_frame := fade_in;
     last_emitted_tail := tail; resume_from_silence := from_silence;
     has_played := s.(has_played); buffer_target_progress := s.(buffer_target_progress) |}.
Definition set_progress (played : bool) (progress : BufferTargetProgress)
  (s : PlaybackScheduler) : PlaybackScheduler :=
  {| sch_config := s.(sch_config); jitter_buffer := s.(jitter_buffer);
     concealment := s.(concealment); sch_state := s.(sch_state); offset_ms := s.(offset_ms);
     ramp_frames := s.(ramp_frames);
     fade_in_next_real_frame := s.(fade_in_next_real_frame);
     last_emitted_tail := s.(last_emitted_tail); resume_from_silence := s.(resume_from_silence);
     has_played := played; buffer_target_progress := progress |}.
Definition set_fade_in (s : PlaybackScheduler) : PlaybackScheduler :=
  set_splice true s.(last_emitted_tail) s.(resume_from_silence) s.

(** ** Time base *)

Definition host_to_local_ms (host_time_ms : Z) (offset : f64) : Z :=
  let local_ms := f64_sub (f64_of_Z host_time_ms) offset in
  if f64_leb local_ms (f64_of_Z 0) then 0 else f64_to_u64 (f64_round local_ms).

Definition expected_host_presentation_time_ms (s : PlaybackScheduler) (sequence : Z) : Z :=
  let sample_index := sequence * s.(sch_config).(cfg_samples_per_packet) in
  let elapsed_ms := sample_index * 1000 / s.(sch_config).(cfg_sample_rate) in
  let elapsed_ms := try_from_or_max u64_max elapsed_ms in
  saturating_add u64_max s.(sch_config).(cfg_host_start_time_ms) elapsed_ms.

Definition expected_first_sample_index (s : PlaybackScheduler) (sequence : Z) : Z :=
  saturating_mul u64_max sequence s.(sch_config).(cfg_samples_per_packet).

(** The local deadline of a sequence number. *)
Definition local_deadline_ms (s : PlaybackScheduler) (sequence : Z) : Z :=
  host_to_local_ms (expected_host_presentation_time_ms s sequence) s.(offset_ms).

Definition local_time_for_host_ms (s : PlaybackScheduler) (host_time_ms : Z) : Z :=
  host_to_local_ms host_time_ms s.(offset_ms).

(** [i16::from_le_bytes] of one pair. *)
Definition i16_from_le_bytes (b0 b1 : Z) : Z :=
  let u := b0 + 256 * b1 in if u <? 32768 then u else u - 65536.

(** [payload.chunks_exact(2).map(i16::from_le_bytes)]. *)
Fixpoint decode_payload_samples (payload : list Z) : list Z :=
  match payload with
  | b0 :: b1 :: rest => i16_from_le_bytes b0 b1 :: decode_payload_samples rest
  | _ => []
  end.

(** ** Operations *)

Definition submit_packet (d : AudioDatagram) (s : PlaybackScheduler) :
  result unit JitterBufferRejectionKind * PlaybackScheduler :=
  let '(r, b) := accept d s.(jitter_buffer) in (r, set_jitter b s).

Definition buffer_health (s : PlaybackScheduler) : BufferHealth :=
  let span := buffered_span_ms s.(jitter_buffer) in
  if span <? s.(sch_config).(cfg_low_water_ms) then Low
  else if s.(sch_config).(cfg_high_water_ms) <? span then High
  else Normal.

(** One iteration of the loop of [discard_already_late_head]; [None] when the
    loop exits. *)
Definition discard_iteration (local_now_ms : Z) (s : PlaybackScheduler) : option PlaybackScheduler :=
  if jb_is_empty s.(jitter_buffer) then None
  else
    let sequence := s.(jitter_buffer).(next_expected_sequence) in
    if local_now_ms <=? local_deadline_ms s sequence then None
    else
      let b :=
        if match peek_next_sequence s.(jitter_buffer) with
           | Some k => k =? sequence | None => false end
        then (discard_in_order s.(jitter_buffer)).2
        else skip_expected_sequence s.(jitter_buffer) in
      Some (set_fade_in (set_jitter b s)).

Fixpoint discard_loop (fuel : nat) (local_now_ms : Z) (s : PlaybackScheduler) : PlaybackScheduler :=
  match fuel with
  | O => s
  | S fuel' =>
      match discard_iteration local_now_ms s with
      | None => s
      | Some s' => discard_loop fuel' local_now_ms s'
      end
  end.

(** The loop advances the position by one per iteration and stops at the
    latest when it has passed the last buffered packet. *)
Definition discard_fuel (b : JitterBuffer) : nat :=
  match bt_last_key b.(jb_packets) with
  | Some last => Z.to_nat (last + 1 - b.(next_expected_sequence))
  | None => 0
  end.

Definition discard_already_late_head (local_now_ms : Z) (s : PlaybackScheduler) : PlaybackScheduler :=
  discard_loop (discard_fuel s.(jitter_buffer)) local_now_ms s.

Definition realign_to_now (local_now_ms : Z) (s : PlaybackScheduler) : PlaybackScheduler :=
  let s := discard_already_late_head local_now_ms s in
  let s := set_concealment (reset_consecutive_count s.(concealment)) s in
  set_splice true [] true s.

(** The presentation span that ends the current buffering phase. *)
Definition buffer_target (s : PlaybackScheduler) : Z :=
  if s.(has_played)
  then Z.min s.(sch_config).(cfg_rebuffer_target_ms) s.(sch_config).(cfg_startup_buffer_target_ms)
  else s.(sch_config).(cfg_startup_buffer_target_ms).

Definition advance_buffering (local_now_ms : Z) (s : PlaybackScheduler) :
  option SchedulerPoll * PlaybackScheduler :=
  let buffered_ms := buffered_span_ms s.(jitter_buffer) in
  let target := buffer_target s in
  if bool_decide (s.(buffer_target_progress) = Accumulating) && (buffered_ms <? target)
  then (Some (PollBuffering buffered_ms), s)
  else
    let s := set_progress s.(has_played) Satisfied s in
    let s := discard_already_late_head local_now_ms s in
    if (0 <? target) && jb_is_empty s.(jitter_buffer) then (Some (PollBuffering 0), s)
    else (None, set_progress true Accumulating (set_state SPlaying s)).

Definition remember_emitted_tail (samples : list Z) (channels : nat) (s : PlaybackScheduler) :
  PlaybackScheduler :=
  set_splice s.(fade_in_next_real_frame) (tail_of samples channels) s.(resume_from_silence) s.

Section Poll.
Context {t : target}.

(** The part of [poll_with_release_horizon] that delivers [datagram]. *)
Definition deliver_real (d : AudioDatagram) (s : PlaybackScheduler) : SchedulerPoll * PlaybackScheduler :=
  let samples := decode_payload_samples d.(audio_payload) in
  let s := set_concealment (record_delivery samples s.(sch_config).(cfg_channels) s.(concealment)) s in
  let channels := Z.to_nat s.(sch_config).(cfg_channels) in
  let '(samples, s) :=
    if s.(fade_in_next_real_frame) then
      let continues_from := if s.(resume_from_silence) then [] else s.(last_emitted_tail) in
      (apply_blend_in samples channels s.(ramp_frames) continues_from,
       set_splice false s.(last_emitted_tail) false s)
    else (samples, s) in
  let s := remember_emitted_tail samples channels s in
  (PollFrame
     {| frame_sequence := d.(audio_sequence);
        frame_first_sample_index := d.(audio_first_sample_index);
        frame_host_presentation_time_ms := d.(audio_host_presentation_time_ms);
        frame_samples := samples; frame_concealed := false |} (buffer_health s), s).

(** The part that conceals the missing [next_sequence]. *)
Definition deliver_concealed (next_sequence host_deadline_ms : Z) (s : PlaybackScheduler) :
  SchedulerPoll * PlaybackScheduler :=
  let '((samples, outcome), p) :=
    conceal s.(sch_config).(cfg_samples_per_packet) s.(sch_config).(cfg_channels) s.(concealment) in
  let s := set_concealment p s in
  let s := set_jitter (skip_expected_sequence s.(jitter_buffer)) s in
  let s := set_fade_in s in
  let s := remember_emitted_tail samples (Z.to_nat s.(sch_config).(cfg_channels)) s in
  match outcome with
  | Concealed =>
      (PollFrame
         {| frame_sequence := next_sequence;
            frame_first_sample_index := expected_first_sample_index s next_sequence;
            frame_host_presentation_time_ms := host_deadline_ms;
            frame_samples := samples; frame_concealed := true |} (buffer_health s), s)
  | ConcealHardResyncRequired =>
      let s := set_state SAwaitingRebuffer s in
      (PollAwaitingRebuffer, set_splice s.(fade_in_next_real_frame) s.(last_emitted_tail) true s)
  end.

(** The rest of the tick once its slot is due. *)
Definition deliver_slot (s : PlaybackScheduler) : SchedulerPoll * PlaybackScheduler :=
  let next_sequence := s.(jitter_buffer).(next_expected_sequence) in
  let host_deadline_ms := expected_host_presentation_time_ms s next_sequence in
  let '(popped, b) := pop_in_order s.(jitter_buffer) in
  match popped with
  | Some datagram => deliver_real datagram (set_jitter b s)
  | None => deliver_concealed next_sequence host_deadline_ms s
  end.

(** Giving up a gap too wide to conceal. *)
Definition skip_wide_gap (s : PlaybackScheduler) : PlaybackScheduler :=
  let s := set_jitter (skip_to_earliest_buffered s.(jitter_buffer)).2 s in
  let s := set_concealment (reset_consecutive_count s.(concealment)) s in
  set_fade_in s.

Definition playing_tick (local_release_horizon_ms : Z) (s : PlaybackScheduler) :
  SchedulerPoll * PlaybackScheduler :=
  if local_release_horizon_ms <? local_deadline_ms s s.(jitter_buffer).(next_expected_sequence)
  then (PollWaiting (buffer_health s), s)
  else if s.(sch_config).(cfg_concealment_skip_threshold_packets)
          <? missing_sequence_count s.(jitter_buffer)
  then
    let s := skip_wide_gap s in
    if local_release_horizon_ms <? local_deadline_ms s s.(jitter_buffer).(next_expected_sequence)
    then (PollWaiting (buffer_health s), s)
    else deliver_slot s
  else deliver_slot s.

Definition poll_with_release_horizon (local_now_ms local_release_horizon_ms : Z)
  (s : PlaybackScheduler) : SchedulerPoll * PlaybackScheduler :=
  let local_release_horizon_ms := Z.max local_release_horizon_ms local_now_ms in
  match s.(sch_state) with
  | SStopped => (PollStopped, s)
  | SAwaitingRebuffer => (PollAwaitingRebuffer, s)
  | SBuffering =>
      match advance_buffering local_now_ms s with
      | (Some poll, s) => (poll, s)
      | (None, s) => playing_tick local_release_horizon_ms s
      end
  | SPlaying => playing_tick local_release_horizon_ms s
  end.

Definition poll (local_now_ms : Z) (s : PlaybackScheduler) : SchedulerPoll * PlaybackScheduler :=
  poll_with_release_horizon local_now_ms local_now_ms s.
End Poll.

(** ** Draining a stopping stream *)

(** [if let Some(last) = frames.last_mut() { f(last) }]. *)
Fixpoint modify_last {A : Type} (f : A -> A) (l : list A) : list A :=
  match l with
  | [] => []
  | [x] => [f x]
  | x :: l' => x :: modify_last f l'
  end.

Definition fade_frame (channels ramp : nat) (f : ScheduledFrame) : ScheduledFrame :=
  {| frame_sequence := f.(frame_sequence);
     frame_first_sample_index := f.(frame_first_sample_index);
     frame_host_presentation_time_ms := f.(frame_host_presentation_time_ms);
     frame_samples := apply_fade_out_tail f.(frame_samples) channels ramp;
     frame_concealed := f.(frame_concealed) |}.

Record DrainState : Type := mkDrainState {
drain_frames : list ScheduledFrame;
drain_expected_next : Z;
drain_fade_in_next : bool;
drain_blend_from : list Z
}.

Definition drain_step (channels ramp : nat) (st : DrainState) (d : AudioDatagram) : DrainState :=
  let sequence := d.(audio_sequence) in
  let '(frames, fade_in_next, blend_from) :=
    if st.(drain_expected_next) <? sequence
    then (modify_last (fade_frame channels ramp) st.(drain_frames), true, [])
    else (st.(drain_frames), st.(drain_fade_in_next), st.(drain_blend_from)) in
  let samples := decode_payload_samples d.(audio_payload) in
  let '(samples, fade_in_next, blend_from) :=
    if fade_in_next then (apply_blend_in samples channels ramp blend_from, false, [])
    else (samples, fade_in_next, blend_from) in
  {| drain_frames :=
       frames ++ [mkScheduledFrame sequence d.(audio_first_sample_index)
                    d.(audio_host_presentation_time_ms) samples false];
     drain_expected_next := wrapping_add 64 sequence 1;
     drain_fade_in_next := fade_in_next;
     drain_blend_from := blend_from |}.

Definition drain_remaining (s : PlaybackScheduler) : list ScheduledFrame * PlaybackScheduler :=
  let channels := Z.to_nat s.(sch_config).(cfg_channels) in
  let ramp := s.(ramp_frames) in
  let '(drained, b) := drain_all s.(jitter_buffer) in
  let st :=
    fold_left (drain_step channels ramp) drained
      {| drain_frames := [];
         drain_expected_next := s.(jitter_buffer).(next_expected_sequence);
         drain_fade_in_next := s.(fade_in_next_real_frame);
         drain_blend_from := if s.(resume_from_silence) then [] else s.(last_emitted_tail) |} in
  (modify_last (fade_frame channels ramp) st.(drain_frames),
   set_splice true [] true (set_jitter b s)).

(** ** Clock offset and lifecycle *)

Definition apply_offset_update (new_offset_ms : f64) (s : PlaybackScheduler) :
  OffsetUpdateOutcome * PlaybackScheduler :=
  let delta_ms := f64_abs (f64_sub new_offset_ms s.(offset_ms)) in
  let s := set_offset new_offset_ms s in
  if f64_ltb s.(sch_config).(cfg_hard_resync_threshold_ms) delta_ms
  then (HardResyncRequired, set_state SAwaitingRebuffer s)
  else (SoftCorrected, s).

Definition rebuffer (new_offset_ms : f64) (s : PlaybackScheduler) : PlaybackScheduler :=
  let s := set_offset new_offset_ms s in
  let s := set_concealment (reset_consecutive_count s.(concealment)) s in
  let s := set_state SBuffering s in
  let s := set_progress s.(has_played) Accumulating s in
  set_splice true s.(last_emitted_tail) true s.

Definition set_host_start_time_ms (host_start_time_ms : Z) (s : PlaybackScheduler) :
  PlaybackScheduler :=
  let c := s.(sch_config) in
  {| sch_config :=
       {| cfg_session_id := c.(cfg_session_id); cfg_stream_id := c.(cfg_stream_id);
          cfg_sample_rate := c.(cfg_sample_rate); cfg_host_start_time_ms := host_start_time_ms;
          cfg_first_sequence := c.(cfg_first_sequence);
          cfg_samples_per_packet := c.(cfg_samples_per_packet); cfg_channels := c.(cfg_channels);
          cfg_startup_buffer_target_ms := c.(cfg_startup_buffer_target_ms);
          cfg_rebuffer_target_ms := c.(cfg_rebuffer_target_ms);
          cfg_low_water_ms := c.(cfg_low_water_ms); cfg_high_water_ms := c.(cfg_high_water_ms);
          cfg_hard_resync_threshold_ms := c.(cfg_hard_resync_threshold_ms);
          cfg_max_consecutive_concealed_packets := c.(cfg_max_consecutive_concealed_packets);
          cfg_concealment_ramp_ms := c.(cfg_concealment_ramp_ms);
          cfg_concealment_skip_threshold_packets := c.(cfg_concealment_skip_threshold_packets);
          cfg_max_reorder_window := c.(cfg_max_reorder_window);
          cfg_max_buffered_duration_ms := c.(cfg_max_buffered_duration_ms) |};
     jitter_buffer := s.(jitter_buffer); concealment := s.(concealment);
     sch_state := s.(sch_state); offset_ms := s.(offset_ms); ramp_frames := s.(ramp_frames);
     fade_in_next_real_frame := s.(fade_in_next_real_frame);
     last_emitted_tail := s.(last_emitted_tail); resume_from_silence := s.(resume_from_silence);
     has_played := s.(has_played); buffer_target_progress := s.(buffer_target_progress) |}.

Definition stop (s : PlaybackScheduler) : PlaybackScheduler := set_state SStopped s.

Definition is_stopped (s : PlaybackScheduler) : bool := bool_decide (s.(sch_state) = SStopped).
Definition is_awaiting_rebuffer (s : PlaybackScheduler) : bool :=
  bool_decide (s.(sch_state) = SAwaitingRebuffer).

Definition phase (s : PlaybackScheduler) : PlaybackPhase :=
  match s.(sch_state) with
  | SBuffering => PhaseBuffering
  | SPlaying => PhasePlaying
  | SAwaitingRebuffer => PhaseAwaitingRebuffer
  | SStopped => PhaseStopped
  end.

(** ** Invariant *)

Record sched_ok (s : PlaybackScheduler) : Prop := {
so_jb : jb_ok s.(jitter_buffer);
so_window : 1 <= s.(jitter_buffer).(jb_config).(jb_max_reorder_window);
so_rate : 0 < s.(sch_config).(cfg_sample_rate);
so_spp : 0 < s.(sch_config).(cfg_samples_per_packet)
}.

(** The ranges the field types of a configuration guarantee. *)
Definition config_typed (c : SchedulerConfig) : Prop :=
  is_u32 c.(cfg_sample_rate) /\ is_u32 c.(cfg_samples_per_packet) /\ is_u16 c.(cfg_channels)
  /\ is_u32 c.(cfg_max_reorder_window) /\ is_u32 c.(cfg_concealment_skip_threshold_packets)
  /\ is_u64 c.(cfg_first_sequence) /\ is_u32 c.(cfg_max_consecutive_concealed_packets)
  /\ is_u32 c.(cfg_concealment_ramp_ms) /\ is_u64 c.(cfg_host_start_time_ms).

(** Everything [new] guarantees about an accepted configuration. *)
Lemma PlaybackScheduler_new_facts (c : SchedulerConfig) (o : f64) (s : PlaybackScheduler) :
  PlaybackScheduler_new c o = Ok s -> config_typed c ->
  sched_ok s /\ policy_ok s.(concealment) /\ s.(sch_config) = c /\ s.(offset_ms) = o
  /\ s.(sch_state) = SBuffering /\ holds_only [] s.(jitter_buffer)
  /\ s.(jitter_buffer).(next_expected_sequence) = c.(cfg_first_sequence)
  /\ s.(ramp_frames) = s.(concealment).(policy_ramp_frames)
  /\ Z.of_nat s.(ramp_frames) < c.(cfg_samples_per_packet).
Proof.
  intros H (Hr & Hspp & Hch & Hw & Hsk & Hf & Hm & Hrm & Hst). unfold PlaybackScheduler_new in H.
  destruct (validate_scheduler_config c) as [[]|] eqn:Ev; [|done].
  set (jc := mkJitterBufferConfig _ _ _ _ _) in H.
  destruct (JitterBuffer_new jc) as [b|] eqn:Eb; [|done]. cbn [map_err] in H.
  destruct (_ <=? config_ramp_frames c) eqn:Er; [done|].
  destruct (ConcealmentPolicy_new _ _) as [p|] eqn:Ep; [|done]. injection H as <-. cbn.
  unfold validate_scheduler_config in Ev. repeat case_match; try done. to_prop.
  unfold is_u32, is_u16, is_u64, is_uint in *.
  assert (is_u32 (config_ramp_frames c)) as Hramp.
  { unfold config_ramp_frames, try_from_or_max, is_u32, is_uint, u32_max.
    assert (0 <= cfg_sample_rate c * cfg_concealment_ramp_ms c / 1000) by (apply Z.div_pos; nia).
    destruct (_ <=? _) eqn:E; to_prop; lia. }
  destruct (new_holds jc b Eb) as (Hh & Hc & Hn).
  assert (policy_ok p) as Hp by (by apply (ConcealmentPolicy_new_ok _ _ p Hm Hramp)).
  split_and!; try done.
  - split; cbn; try lia; [by apply (JitterBuffer_new_ok jc)|]. rewrite Hc. cbn. lia.
  - unfold ConcealmentPolicy_new in Ep. repeat case_match; try done. by injection Ep as <-.
  - unfold config_ramp_frames in *. lia.
Qed.

(** Jitter-buffer moves that emit nothing. *)
Definition quiet (submitted : list AudioDatagram) (b b' : JitterBuffer) : Prop :=
  step_facts submitted b [] b'.

Lemma quiet_refl (submitted : list AudioDatagram) (b : JitterBuffer) :
  jb_ok b -> holds_only submitted b -> quiet submitted b b.
Proof. intros Hb Hh. by apply quiet_step. Qed.

Lemma quiet_trans (submitted e : list AudioDatagram) (a b c : JitterBuffer) :
  quiet submitted a b -> step_facts submitted b e c -> step_facts submitted a e c.
Proof.
  intros [Ha1 Ha2 Ha3 Ha4 Ha5 Ha6] [Hb1 Hb2 Hb3 Hb4 Hb5 Hb6]. split; try done; [congruence|lia|].
  intros d Hd. destruct (Hb6 d Hd) as (? & ? & ?). rewrite Ha2 in *. split_and!; [lia|lia|done|done].
Qed.

Lemma quiet_of_step (submitted : list AudioDatagram) (b b' : JitterBuffer) :
  jb_step b [] [] b' -> jb_ok b -> 1 <= b.(jb_config).(jb_max_reorder_window) ->
  holds_only submitted b -> quiet submitted b b'.
Proof.
  intros Hs Hb Hw Hh. pose proof (jb_step_facts submitted [] [] b b' Hs Hb Hw Hh) as H.
  by rewrite app_nil_r in H.
Qed.

Lemma quiet_ok (submitted : list AudioDatagram) (s : PlaybackScheduler) (s' : PlaybackScheduler) :
  sched_ok s -> quiet submitted s.(jitter_buffer) s'.(jitter_buffer) ->
  s'.(sch_config) = s.(sch_config) -> sched_ok s'.
Proof. intros [] [? Hc] E. split; rewrite ?E; try done. by rewrite Hc. Qed.

(** ** Discarding the late head *)

Lemma first_key_absent (b : JitterBuffer) (k : Z) :
  jb_ok b -> bt_first_key b.(jb_packets) = Some k -> k <> b.(next_expected_sequence) ->
  bt_get b.(next_expected_sequence) b.(jb_packets) = None.
Proof.
  intros [] Hk Hne. apply bt_get_None_keys. intros Hin.
  pose proof (bt_first_key_min _ _ _ jb_ok_sorted Hk Hin).
  pose proof (jb_ok_keys _ (bt_first_key_in _ _ Hk)). lia.
Qed.

(** An iteration is one quiet step of the jitter buffer that moves the
    position by one and keeps no new packet. *)
Lemma discard_iteration_facts (submitted : list AudioDatagram) (now : Z)
  (s s' : PlaybackScheduler) :
  sched_ok s -> holds_only submitted s.(jitter_buffer) -> discard_iteration now s = Some s' ->
  quiet submitted s.(jitter_buffer) s'.(jitter_buffer)
  /\ s'.(jitter_buffer).(next_expected_sequence) = s.(jitter_buffer).(next_expected_sequence) + 1
  /\ (forall k, In k (bt_keys s'.(jitter_buffer).(jb_packets)) ->
        In k (bt_keys s.(jitter_buffer).(jb_packets)))
  /\ (exists k, In k (bt_keys s.(jitter_buffer).(jb_packets)))
  /\ s' = set_fade_in (set_jitter s'.(jitter_buffer) s).
Proof.
  intros [] Hh. unfold discard_iteration, jb_is_empty, peek_next_sequence.
  destruct (bt_is_empty _) eqn:Ee; [done|]. destruct (_ <=? _); [done|]. intros [= <-]. cbn.
  set (b := s.(jitter_buffer)) in *.
  destruct (bt_first_key b.(jb_packets)) as [k|] eqn:Hk;
    [|apply bt_first_key_None in Hk; by rewrite Hk in Ee].
  pose proof (bt_first_key_in _ _ Hk) as Hin.
  assert (exists d, bt_get k b.(jb_packets) = Some d) as [d Hd] by (by apply bt_keys_get).
  assert (k < u64_max) as Hmax.
  { pose proof (bt_forall_get _ _ _ _ (jb_ok_entries _ so_jb0) Hd) as (Hs & _).
    destruct (Hh d) as [_ Hlt]; [left; by eapply bt_get_values|]. lia. }
  pose proof (jb_ok_keys _ so_jb0 k Hin).
  destruct (k =? b.(next_expected_sequence)) eqn:E; to_prop.
  - subst k. pose proof (step_discard b) as Hstep. unfold discard_in_order in *.
    rewrite Hd in *. cbn [snd] in *.
    split_and!; [by apply quiet_of_step| | |by eauto|done].
    + apply advance_next; [done|lia].
    + intros k. apply bt_keys_remove_incl.
  - assert (bt_get b.(next_expected_sequence) b.(jb_packets) = None) as Hn
      by (by apply (first_key_absent b k)).
    split_and!; [apply quiet_of_step; try done; by apply step_skip; [|lia]| |done|by eauto|done].
    apply advance_next; [done|lia].
Qed.

Lemma discard_loop_facts (submitted : list AudioDatagram) (fuel : nat) (now : Z)
  (s : PlaybackScheduler) :
  sched_ok s -> holds_only submitted s.(jitter_buffer) ->
  (forall k, In k (bt_keys s.(jitter_buffer).(jb_packets)) ->
     k < s.(jitter_buffer).(next_expected_sequence) + Z.of_nat fuel) ->
  let s' := discard_loop fuel now s in
  discard_iteration now s' = None
  /\ quiet submitted s.(jitter_buffer) s'.(jitter_buffer)
  /\ s'.(jitter_buffer).(next_expected_sequence)
     <= s.(jitter_buffer).(next_expected_sequence) + Z.of_nat fuel
  /\ exists fade, s' = set_splice fade s.(last_emitted_tail) s.(resume_from_silence)
                         (set_jitter s'.(jitter_buffer) s).
Proof.
  revert s. induction fuel as [|fuel IH]; intros s Hs Hh Hk; cbn [discard_loop].
  - split_and!; [|by apply quiet_refl; [apply Hs|]|lia|].
    + unfold discard_iteration, jb_is_empty.
      destruct (jb_packets s.(jitter_buffer)) as [|[k v] m] eqn:E; [done|]. exfalso.
      pose proof Hs as [Hb _ _ _]. pose proof (jb_ok_keys _ Hb k) as Hk'. rewrite E in *.
      specialize (Hk k ltac:(by left)). specialize (Hk' ltac:(by left)). lia.
    + exists s.(fade_in_next_real_frame). by destruct s.
  - destruct (discard_iteration now s) as [s1|] eqn:E.
    + destruct (discard_iteration_facts submitted now s s1 Hs Hh E) as (Hq & Hn & Hsub & [k Hin] & Hs1).
      destruct (IH s1) as (IH1 & IH2 & IH3 & [fade IH4]).
      * apply (quiet_ok submitted s); [done|done|by rewrite Hs1].
      * apply Hq.
      * intros k' Hk'. rewrite Hn. specialize (Hk k' (Hsub k' Hk')). lia.
      * split_and!; [done|by eapply quiet_trans|lia|]. exists fade.
        rewrite IH4 at 1. by rewrite Hs1.
    + split_and!; [done|by apply quiet_refl; [apply Hs|]|lia|].
      exists s.(fade_in_next_real_frame). by destruct s.
Qed.

Lemma discard_fuel_covers (b : JitterBuffer) :
  jb_ok b ->
  (forall k, In k (bt_keys b.(jb_packets)) ->
     k < b.(next_expected_sequence) + Z.of_nat (discard_fuel b))
  /\ Z.of_nat (discard_fuel b) <= reach b.(jb_config) + 1.
Proof.
  intros []. unfold discard_fuel. destruct (bt_last_key b.(jb_packets)) as [l|] eqn:El.
  - pose proof (bt_last_key_in _ _ El) as Hin. pose proof (jb_ok_keys l Hin).
    split; [|lia]. intros k Hk. pose proof (bt_last_key_max _ _ _ jb_ok_sorted El Hk). lia.
  - unfold bt_last_key in El. apply last_None in El. rewrite El.
    split; [done|unfold reach; lia].
Qed.

(** The loop has really ended, and what it did to the scheduler. *)
Lemma discard_head_facts (submitted : list AudioDatagram) (now : Z) (s : PlaybackScheduler) :
  sched_ok s -> holds_only submitted s.(jitter_buffer) ->
  let s' := discard_already_late_head now s in
  discard_iteration now s' = None
  /\ quiet submitted s.(jitter_buffer) s'.(jitter_buffer)
  /\ s'.(jitter_buffer).(next_expected_sequence)
     <= s.(jitter_buffer).(next_expected_sequence) + reach s.(jitter_buffer).(jb_config) + 1
  /\ exists fade, s' = set_splice fade s.(last_emitted_tail) s.(resume_from_silence)
                         (set_jitter s'.(jitter_buffer) s).
Proof.
  intros Hs Hh s'. destruct (discard_fuel_covers s.(jitter_buffer) (so_jb _ Hs)) as [Hc Hle].
  destruct (discard_loop_facts submitted _ now s Hs Hh Hc) as (H1 & H2 & H3 & H4).
  split_and!; [done|done|subst s'; unfold discard_already_late_head; lia|done].
Qed.

Lemma discard_done (now : Z) (s : PlaybackScheduler) :
  discard_iteration now s = None ->
  s.(jitter_buffer).(jb_packets) = []
  \/ now <= local_deadline_ms s s.(jitter_buffer).(next_expected_sequence).
Proof.
  unfold discard_iteration, jb_is_empty. destruct (bt_is_empty _) eqn:Ee.
  - intros _. left. by apply bt_is_empty_true.
  - destruct (_ <=? _) eqn:E; [|done]. to_prop. by right.
Qed.

(** ** Ticks *)

(** The frame a scheduler in state [s] makes of datagram [d]. *)
Definition real_frame (s : PlaybackScheduler) (d : AudioDatagram) : ScheduledFrame :=
  let samples := decode_payload_samples d.(audio_payload) in
  {| frame_sequence := d.(audio_sequence);
     frame_first_sample_index := d.(audio_first_sample_index);
     frame_host_presentation_time_ms := d.(audio_host_presentation_time_ms);
     frame_samples :=
       if s.(fade_in_next_real_frame)
       then apply_blend_in samples (Z.to_nat s.(sch_config).(cfg_channels)) s.(ramp_frames)
              (if s.(resume_from_silence) then [] else s.(last_emitted_tail))
       else samples;
     frame_concealed := false |}.

Section Ticks.
Context {t : target}.

Lemma deliver_real_facts (d : AudioDatagram) (s : PlaybackScheduler) :
  exists h s', deliver_real d s = (PollFrame (real_frame s d) h, s')
    /\ s'.(jitter_buffer) = s.(jitter_buffer) /\ s'.(sch_config) = s.(sch_config)
    /\ s'.(offset_ms) = s.(offset_ms) /\ s'.(sch_state) = s.(sch_state).
Proof.
  unfold deliver_real, real_frame. cbn [fade_in_next_real_frame set_concealment].
  destruct (fade_in_next_real_frame s); eexists _, _; (split; [reflexivity|by split_and!]).
Qed.

(** Outcome of a due slot: the next sequence number is consumed, by the
    datagram buffered for it or by concealment. *)
Inductive slot_outcome (s : PlaybackScheduler) : SchedulerPoll -> list AudioDatagram -> Prop :=
| slot_real d h :
    bt_get s.(jitter_buffer).(next_expected_sequence) s.(jitter_buffer).(jb_packets) = Some d ->
    slot_outcome s (PollFrame (real_frame s d) h) [d]
| slot_concealed f h :
    bt_get s.(jitter_buffer).(next_expected_sequence) s.(jitter_buffer).(jb_packets) = None ->
    f.(frame_sequence) = s.(jitter_buffer).(next_expected_sequence) ->
    f.(frame_concealed) = true ->
    f.(frame_host_presentation_time_ms)
      = expected_host_presentation_time_ms s s.(jitter_buffer).(next_expected_sequence) ->
    slot_outcome s (PollFrame f h) []
| slot_gave_up :
    bt_get s.(jitter_buffer).(next_expected_sequence) s.(jitter_buffer).(jb_packets) = None ->
    slot_outcome s PollAwaitingRebuffer [].

Lemma deliver_slot_facts (submitted : list AudioDatagram) (s : PlaybackScheduler) :
  sched_ok s -> holds_only submitted s.(jitter_buffer) ->
  s.(jitter_buffer).(next_expected_sequence) < u64_max ->
  let r := deliver_slot s in
  exists e, slot_outcome s r.1 e
    /\ step_facts submitted s.(jitter_buffer) e r.2.(jitter_buffer)
    /\ r.2.(jitter_buffer).(next_expected_sequence)
       = s.(jitter_buffer).(next_expected_sequence) + 1
    /\ r.2.(sch_config) = s.(sch_config) /\ r.2.(offset_ms) = s.(offset_ms).
Proof.
  intros Hs Hh Hmax r. pose proof Hs as []. set (b := s.(jitter_buffer)) in *.
  subst r. unfold deliver_slot. fold b. destruct (pop_in_order b) as [popped b'] eqn:Ep.
  destruct popped as [d|].
  - exists [d]. destruct (deliver_real_facts d (set_jitter b' s)) as (h & s' & E & Hj & Hc & Ho & _).
    rewrite E. cbn [fst snd]. rewrite Hj. cbn.
    pose proof (jb_step_facts submitted [] [d] b b' (step_pop b d b' Ep) so_jb0 so_window0 Hh) as Hf.
    rewrite app_nil_r in Hf. destruct (pop_facts b b' d so_jb0 Ep) as (_ & _ & _ & Eb').
    split_and!; [|done| |by rewrite Hc|by rewrite Ho].
    + change (real_frame (set_jitter b' s) d) with (real_frame s d). apply slot_real.
      fold b. unfold pop_in_order in Ep. destruct (bt_get _ _) eqn:Eg; [|done]. by injection Ep as ->.
    + rewrite Eb'. by apply advance_next.
  - assert (bt_get b.(next_expected_sequence) b.(jb_packets) = None) as Hn
      by (unfold pop_in_order in Ep; by destruct (bt_get _ _)).
    assert (quiet submitted b (skip_expected_sequence b)) as Hq
      by (apply quiet_of_step; try done; by apply step_skip).
    assert ((skip_expected_sequence b).(next_expected_sequence) = b.(next_expected_sequence) + 1)
      as Hnext by (by apply advance_next).
    exists []. unfold deliver_concealed. destruct (conceal _ _ _) as [[samples outcome] p] eqn:Ec.
    destruct outcome; cbn [fst snd]; (split_and!; [|done..]);
      [by apply slot_concealed|by apply slot_gave_up].
Qed.

Lemma skip_wide_gap_facts (submitted : list AudioDatagram) (s : PlaybackScheduler) :
  sched_ok s -> holds_only submitted s.(jitter_buffer) ->
  quiet submitted s.(jitter_buffer) (skip_wide_gap s).(jitter_buffer)
  /\ sched_ok (skip_wide_gap s).
Proof.
  intros Hs Hh. pose proof Hs as [].
  assert (quiet submitted s.(jitter_buffer) (skip_wide_gap s).(jitter_buffer)) as Hq
    by (apply quiet_of_step; try done; apply step_skip_to_earliest).
  split; [done|]. by apply (quiet_ok submitted s).
Qed.

(** What a tick of a playing scheduler does: wait, or consume a slot whose
    local deadline has been reached. *)
Inductive tick_outcome (submitted : list AudioDatagram) (horizon : Z) (s : PlaybackScheduler) :
  SchedulerPoll -> PlaybackScheduler -> Prop :=
| tick_waits h s' :
    quiet submitted s.(jitter_buffer) s'.(jitter_buffer) ->
    s'.(sch_config) = s.(sch_config) -> s'.(offset_ms) = s.(offset_ms) ->
    horizon < local_deadline_ms s' s'.(jitter_buffer).(next_expected_sequence) ->
    tick_outcome submitted horizon s (PollWaiting h) s'
| tick_delivers s1 p e s' :
    s1 = s \/ s1 = skip_wide_gap s ->
    slot_outcome s1 p e ->
    step_facts submitted s.(jitter_buffer) e s'.(jitter_buffer) ->
    s'.(jitter_buffer).(next_expected_sequence)
      = s1.(jitter_buffer).(next_expected_sequence) + 1 ->
    s.(jitter_buffer).(next_expected_sequence) <= s1.(jitter_buffer).(next_expected_sequence) ->
    s'.(sch_config) = s.(sch_config) -> s'.(offset_ms) = s.(offset_ms) ->
    local_deadline_ms s s1.(jitter_buffer).(next_expected_sequence) <= horizon ->
    tick_outcome submitted horizon s p s'.

Lemma playing_tick_facts (submitted : list AudioDatagram) (horizon : Z) (s : PlaybackScheduler) :
  sched_ok s -> holds_only submitted s.(jitter_buffer) ->
  s.(jitter_buffer).(next_expected_sequence) + reach s.(jitter_buffer).(jb_config) < u64_max ->
  tick_outcome submitted horizon s (playing_tick horizon s).1 (playing_tick horizon s).2.
Proof.
  intros Hs Hh Hmax. pose proof Hs as [].
  assert (s.(jitter_buffer).(next_expected_sequence) < u64_max) as Hmax'
    by (unfold reach in Hmax; lia).
  unfold playing_tick. destruct (_ <? _) eqn:E1; to_prop.
  { apply tick_waits; [by apply quiet_refl|done..]. }
  destruct (cfg_concealment_skip_threshold_packets _ <? _) eqn:E2; to_prop.
  - destruct (skip_wide_gap_facts submitted s Hs Hh) as [Hq Hs1].
    assert ((skip_wide_gap s).(jitter_buffer).(next_expected_sequence)
            <= s.(jitter_buffer).(next_expected_sequence) + reach s.(jitter_buffer).(jb_config)) as Hle.
    { change ((skip_wide_gap s).(jitter_buffer))
        with (skip_to_earliest_buffered s.(jitter_buffer)).2.
      destruct (bt_first_key (jb_packets s.(jitter_buffer))) as [k|] eqn:Hk.
      - rewrite (skip_to_earliest_next _ k) by done.
        by apply (jb_ok_keys _ so_jb0), bt_first_key_in.
      - unfold skip_to_earliest_buffered, missing_sequence_count. rewrite Hk. cbn. unfold reach. lia. }
    destruct (_ <? _) eqn:E3; to_prop.
    + by apply tick_waits.
    + destruct (deliver_slot_facts submitted (skip_wide_gap s) Hs1) as (e & Ho & Hf & Hn & Hc & Hof);
        [apply Hq|lia|].
      apply (tick_delivers _ _ _ (skip_wide_gap s) _ e); auto; [|apply Hq].
      by eapply quiet_trans.
  - destruct (deliver_slot_facts submitted s Hs Hh Hmax') as (e & Ho & Hf & Hn & Hc & Hof).
    apply (tick_delivers _ _ _ s _ e); auto. lia.
Qed.

(** Startup: nothing is played before the buffer target is reached, and then
    playback starts on a slot that can still be met. *)
Lemma advance_buffering_facts (submitted : list AudioDatagram) (now : Z) (s : PlaybackScheduler) :
  sched_ok s -> holds_only submitted s.(jitter_buffer) ->
  let r := advance_buffering now s in
  quiet submitted s.(jitter_buffer) r.2.(jitter_buffer)
  /\ r.2.(jitter_buffer).(next_expected_sequence)
     <= s.(jitter_buffer).(next_expected_sequence) + reach s.(jitter_buffer).(jb_config) + 1
  /\ r.2.(sch_config) = s.(sch_config) /\ r.2.(offset_ms) = s.(offset_ms)
  /\ match r.1 with
     | Some p => exists n, p = PollBuffering n
     | None =>
         (s.(buffer_target_progress) = Satisfied
          \/ buffer_target s <= buffered_span_ms s.(jitter_buffer))
         /\ r.2.(sch_state) = SPlaying
         /\ (0 < buffer_target s ->
             r.2.(jitter_buffer).(jb_packets) <> []
             /\ now <= local_deadline_ms r.2 r.2.(jitter_buffer).(next_expected_sequence))
     end.
Proof.
  intros Hs Hh r. subst r. unfold advance_buffering. pose proof Hs as [].
  destruct (bool_decide _ && _) eqn:E1.
  { cbn [fst snd]. split_and!; [by apply quiet_refl|unfold reach; lia|done|done|by eauto]. }
  set (s1 := set_progress (has_played s) Satisfied s).
  assert (sched_ok s1) as Hs1 by done.
  destruct (discard_head_facts submitted now s1 Hs1 Hh) as (Hd & Hq & Hn & [fade Hs2]).
  set (s2 := discard_already_late_head now s1) in *.
  assert (s2.(sch_config) = s.(sch_config) /\ s2.(offset_ms) = s.(offset_ms)) as [Hc Ho]
    by (by rewrite Hs2).
  destruct ((0 <? buffer_target s) && _) eqn:E2; cbn [fst snd].
  { split_and!; [done|done|done|done|by eauto]. }
  split_and!; [done|done|done|done| |done|..].
  - destruct (s.(buffer_target_progress)) eqn:Ep; [|by left]. right.
    rewrite bool_decide_eq_true_2 in E1 by done. cbn in E1. by to_prop.
  - intros Ht. rewrite (proj2 (Z.ltb_lt _ _) Ht) in E2. cbn [andb] in E2. unfold jb_is_empty in E2.
    assert (s2.(jitter_buffer).(jb_packets) <> []) as Hne by (intros Hem; by rewrite Hem in E2).
    split; [done|]. by apply discard_done in Hd as [Hem|Hle].
Qed.
End Ticks.

(** ** Draining *)

(** What a frame says about itself, apart from its samples. *)
Definition frame_meta (f : ScheduledFrame) : Z * Z * Z * bool :=
  (f.(frame_sequence), f.(frame_first_sample_index), f.(frame_host_presentation_time_ms),
   f.(frame_concealed)).

Definition datagram_meta (d : AudioDatagram) : Z * Z * Z * bool :=
  (d.(audio_sequence), d.(audio_first_sample_index), d.(audio_host_presentation_time_ms), false).

Lemma modify_last_map {A B : Type} (g : A -> B) (f : A -> A) (l : list A) :
  (forall x, g (f x) = g x) -> map g (modify_last f l) = map g l.
Proof.
  intros H. induction l as [|x l IH]; [done|]. cbn. destruct l as [|y l]; cbn in *; [by rewrite H|].
  by rewrite IH.
Qed.

Lemma modify_last_snoc {A : Type} (f : A -> A) (l : list A) (x : A) :
  modify_last f (l ++ [x]) = l ++ [f x].
Proof.
  induction l as [|y l IH]; [done|]. cbn. rewrite IH. by destruct (l ++ [x]) eqn:E; [destruct l|].
Qed.

Lemma drain_step_meta (channels ramp : nat) (st : DrainState) (d : AudioDatagram) :
  map frame_meta (drain_step channels ramp st d).(drain_frames)
  = map frame_meta st.(drain_frames) ++ [datagram_meta d].
Proof.
  unfold drain_step. destruct (_ <? _).
  - cbn. rewrite map_app. cbn. f_equal. by apply modify_last_map.
  - destruct (drain_fade_in_next st); cbn; by rewrite map_app.
Qed.

Lemma drain_fold_meta (channels ramp : nat) (l : list AudioDatagram) (st : DrainState) :
  map frame_meta (fold_left (drain_step channels ramp) l st).(drain_frames)
  = map frame_meta st.(drain_frames) ++ map datagram_meta l.
Proof.
  revert st. induction l as [|d l IH]; intros st; [by rewrite app_nil_r|]. cbn [fold_left map].
  by rewrite IH, drain_step_meta, <- app_assoc.
Qed.

Lemma drain_remaining_meta (s : PlaybackScheduler) :
  map frame_meta (drain_remaining s).1 = map datagram_meta (bt_values s.(jitter_buffer).(jb_packets))
  /\ (drain_remaining s).2.(jitter_buffer) = (drain_all s.(jitter_buffer)).2
  /\ (drain_all s.(jitter_buffer)).1 = bt_values s.(jitter_buffer).(jb_packets).
Proof.
  assert ((drain_all s.(jitter_buffer)).1 = bt_values s.(jitter_buffer).(jb_packets)) as Hd
    by (unfold drain_all; by destruct (drain_scan _ _ _)).
  unfold drain_remaining. destruct (drain_all s.(jitter_buffer)) as [drained b]. cbn [fst snd] in *.
  split_and!; [|done|done]. rewrite modify_last_map by done. rewrite drain_fold_meta. by rewrite Hd.
Qed.

(** ** Histories *)

Definition frames_of_poll (p : SchedulerPoll) : list ScheduledFrame :=
  match p with PollFrame f _ => [f] | _ => [] end.

(** One call of a client: the packets it submits, the frames it receives.
    Ticks are taken while sequence numbers are still ten thousand below
    [u64::MAX], where [next_expected_sequence += 1] would wrap. *)
Inductive sched_step {t : target} :
  PlaybackScheduler -> list AudioDatagram -> list ScheduledFrame -> PlaybackScheduler -> Prop :=
| ss_submit s d :
    0 <= d.(audio_sequence) < u64_max -> sched_step s [d] [] (submit_packet d s).2
| ss_poll s now horizon :
    s.(jitter_buffer).(next_expected_sequence) + 10000 < u64_max ->
    sched_step s [] (frames_of_poll (poll_with_release_horizon now horizon s).1)
      (poll_with_release_horizon now horizon s).2
| ss_realign s now : sched_step s [] [] (realign_to_now now s)
| ss_offset s o : sched_step s [] [] (apply_offset_update o s).2
| ss_rebuffer s o : sched_step s [] [] (rebuffer o s)
| ss_host_start s h : sched_step s [] [] (set_host_start_time_ms h s)
| ss_stop s : sched_step s [] [] (stop s)
| ss_drain s : sched_step s [] (drain_remaining s).1 (drain_remaining s).2.

Inductive sched_run {t : target} (s0 : PlaybackScheduler) :
  list AudioDatagram -> list ScheduledFrame -> PlaybackScheduler -> Prop :=
| sched_start : sched_run s0 [] [] s0
| sched_next submitted frames s sub fr s' :
    sched_run s0 submitted frames s -> sched_step s sub fr s' ->
    sched_run s0 (submitted ++ sub) (frames ++ fr) s'.

(** A real frame comes from a submitted datagram of the configured stream. *)
Definition frame_from (submitted : list AudioDatagram) (c : JitterBufferConfig)
  (f : ScheduledFrame) : Prop :=
  f.(frame_concealed) = false ->
  exists d, In d submitted /\ datagram_meta d = frame_meta f
    /\ d.(audio_session_id) = c.(jb_session_id) /\ d.(audio_stream_id) = c.(jb_stream_id).

Record sched_facts (submitted : list AudioDatagram) (s : PlaybackScheduler)
  (frames : list ScheduledFrame) (s' : PlaybackScheduler) : Prop := {
cf_ok : sched_ok s';
cf_config : s'.(jitter_buffer).(jb_config) = s.(jitter_buffer).(jb_config);
cf_holds : holds_only submitted s'.(jitter_buffer);
cf_next : s.(jitter_buffer).(next_expected_sequence) <= s'.(jitter_buffer).(next_expected_sequence);
cf_sorted : StronglySorted Z.lt (map frame_sequence frames);
cf_frames : forall f, In f frames ->
  s.(jitter_buffer).(next_expected_sequence) <= f.(frame_sequence)
  < s'.(jitter_buffer).(next_expected_sequence)
  /\ frame_from submitted s.(jitter_buffer).(jb_config) f
}.

Lemma silent_facts (submitted : list AudioDatagram) (s s' : PlaybackScheduler) :
  sched_ok s -> quiet submitted s.(jitter_buffer) s'.(jitter_buffer) ->
  s'.(sch_config).(cfg_sample_rate) = s.(sch_config).(cfg_sample_rate) ->
  s'.(sch_config).(cfg_samples_per_packet) = s.(sch_config).(cfg_samples_per_packet) ->
  sched_facts submitted s [] s'.
Proof.
  intros [] [Hok Hc Hh Hn _ _] Hr Hs. split; try done; [|constructor].
  split; [done|by rewrite Hc|by rewrite Hr|by rewrite Hs].
Qed.

Section Steps.
Context {t : target}.

Lemma tick_sched_facts (submitted : list AudioDatagram) (horizon : Z) (s : PlaybackScheduler)
  (p : SchedulerPoll) (s' : PlaybackScheduler) :
  sched_ok s -> tick_outcome submitted horizon s p s' ->
  sched_facts submitted s (frames_of_poll p) s'.
Proof.
  intros Hs [h s1 Hq Hc Ho Hd|s1 p' e s1' H1 Hso Hf Hn Hle Hc Ho Hd].
  - apply silent_facts; [done|done|by rewrite Hc..].
  - assert (sched_ok s1') as Hs'.
    { pose proof Hs as []. destruct Hf as [Hok Hcf _ _ _ _].
      split; rewrite ?Hcf, ?Hc; done. }
    destruct Hf as [Hok Hcf Hh Hnx Hsort He].
    destruct Hso as [d h Hg|f h Hg Hseq Hcon Htime|Hg]; cbn [frames_of_poll].
    + assert (d.(audio_sequence) = s1.(jitter_buffer).(next_expected_sequence)) as Hseq.
      { destruct (He d ltac:(by left)) as ((Ha & Hb) & _ & _).
        assert (sched_ok s1) as [Hj1 _ _ _].
        { destruct H1 as [-> | ->]; [done|]. pose proof Hs as [].
          split; try done; cbn; [by apply skip_to_earliest_ok|].
          unfold skip_to_earliest_buffered. by destruct (0 <? _). }
        by destruct (bt_forall_get _ _ _ _ (jb_ok_entries _ Hj1) Hg) as (Hsq & _). }
      split; try done; try (by repeat constructor). intros f [<-|[]]. cbn [frame_sequence real_frame].
      split; [lia|]. intros _. exists d. destruct (He d ltac:(by left)) as (_ & Hin & _ & Hss & Hst & _).
      done.
    + split; try done; try (by repeat constructor). intros f' [<-|[]]. split; [lia|].
      intros Hf. congruence.
    + split; try done; by constructor.
Qed.

Lemma sched_facts_trans (submitted : list AudioDatagram) (a b c : PlaybackScheduler)
  (fr : list ScheduledFrame) :
  sched_facts submitted a [] b -> sched_facts submitted b fr c -> sched_facts submitted a fr c.
Proof.
  intros [Ha1 Ha2 Ha3 Ha4 _ _] [Hb1 Hb2 Hb3 Hb4 Hb5 Hb6]. split; try done; [congruence|lia|].
  intros f Hf. destruct (Hb6 f Hf) as (? & Hfrom). split; [lia|]. by rewrite Ha2 in Hfrom.
Qed.

Lemma poll_facts (submitted : list AudioDatagram) (now horizon : Z) (s : PlaybackScheduler) :
  sched_ok s -> holds_only submitted s.(jitter_buffer) ->
  s.(jitter_buffer).(next_expected_sequence) + 10000 < u64_max ->
  let r := poll_with_release_horizon now horizon s in
  sched_facts submitted s (frames_of_poll r.1) r.2.
Proof.
  intros Hs Hh Hmax r. subst r. pose proof Hs as [].
  pose proof (jb_ok_window _ so_jb0) as Hw. unfold MAX_REORDER_WINDOW_LIMIT in Hw.
  unfold poll_with_release_horizon. destruct (sch_state s) eqn:Est;
    try (apply silent_facts; [done|by apply quiet_refl|done|done]).
  - destruct (advance_buffering_facts submitted now s Hs Hh) as (Hq & Hn & Hc & Ho & Hcase).
    destruct (advance_buffering now s) as [[p|] s1]; cbn [fst snd] in *.
    + destruct Hcase as [n ->]. apply silent_facts; [done|done|by rewrite Hc..].
    + assert (sched_facts submitted s [] s1) as Hf by (apply silent_facts; [done|done|by rewrite Hc..]).
      eapply sched_facts_trans; [exact Hf|]. apply (tick_sched_facts _ (Z.max horizon now)); [apply Hf|].
      apply playing_tick_facts; [apply Hf|apply Hf|]. destruct Hf as [_ -> _ _ _ _].
      unfold reach in *. lia.
  - apply (tick_sched_facts _ (Z.max horizon now)); [done|].
    apply playing_tick_facts; [done|done|]. unfold reach. lia.
Qed.

Lemma drain_remaining_facts (submitted : list AudioDatagram) (s : PlaybackScheduler) :
  sched_ok s -> holds_only submitted s.(jitter_buffer) ->
  sched_facts submitted s (drain_remaining s).1 (drain_remaining s).2.
Proof.
  intros Hs Hh. pose proof Hs as [].
  destruct (drain_remaining_meta s) as (Hm & Hj & Hd).
  pose proof (jb_step_facts submitted [] _ _ _ (step_drain s.(jitter_buffer)) so_jb0 so_window0 Hh) as Hf.
  rewrite app_nil_r, Hd, <- Hj in Hf. destruct Hf as [Hok Hc Hh' Hn Hsort He].
  assert (map frame_sequence (drain_remaining s).1
          = map audio_sequence (bt_values s.(jitter_buffer).(jb_packets))) as Hseq.
  { apply (f_equal (map (fun m : Z * Z * Z * bool => m.1.1.1))) in Hm. rewrite !map_map in Hm.
    exact Hm. }
  assert ((drain_remaining s).2.(sch_config) = s.(sch_config)) as Hcfg
    by (unfold drain_remaining; by destruct (drain_all _)).
  split; [|done|done|done|by rewrite Hseq|].
  - split; rewrite ?Hc, ?Hcfg; done.
  - intros f Hf. assert (In (frame_meta f) (map frame_meta (drain_remaining s).1)) as Hin
      by (by apply in_map).
    rewrite Hm in Hin. apply in_map_iff in Hin as (d & Hmd & Hind).
    destruct (He d Hind) as (Hr & Hsub & _ & Hss & Hst & _).
    assert (f.(frame_sequence) = d.(audio_sequence)) as Hfs
      by (unfold datagram_meta, frame_meta in Hmd; congruence).
    split; [lia|]. intros _. by exists d.
Qed.

Lemma sched_step_facts (submitted sub : list AudioDatagram) (fr : list ScheduledFrame)
  (s s' : PlaybackScheduler) :
  sched_step s sub fr s' -> sched_ok s -> holds_only submitted s.(jitter_buffer) ->
  sched_facts (submitted ++ sub) s fr s'.
Proof.
  intros Hstep Hs Hh. pose proof Hs as [].
  assert (forall r, r.(jitter_buffer) = s.(jitter_buffer) ->
            r.(sch_config).(cfg_sample_rate) = s.(sch_config).(cfg_sample_rate) ->
            r.(sch_config).(cfg_samples_per_packet) = s.(sch_config).(cfg_samples_per_packet) ->
            sched_facts submitted s [] r) as Hsame.
  { intros r Hj Hr Hp. apply silent_facts; [done|rewrite Hj; by apply quiet_refl|done|done]. }
  destruct Hstep as [s d Hd|s now hz Hmax|s now|s o|s o|s h|s|s]; rewrite ?app_nil_r;
    try (by apply Hsame).
  - unfold submit_packet. pose proof (step_accept s.(jitter_buffer) d Hd) as Hj.
    pose proof (jb_step_facts submitted [d] [] _ _ Hj so_jb0 so_window0 Hh) as Hf.
    destruct (accept d s.(jitter_buffer)) as [r b]. cbn [snd] in *. by apply silent_facts.
  - by apply poll_facts.
  - destruct (discard_head_facts submitted now s Hs Hh) as (_ & Hq & _ & [fade Hs2]).
    assert ((realign_to_now now s).(sch_config) = s.(sch_config)) as Hc
      by (unfold realign_to_now; by rewrite Hs2).
    apply silent_facts; [done|done|by rewrite Hc..].
  - apply Hsame; unfold apply_offset_update; by destruct (f64_ltb _ _).
  - by apply drain_remaining_facts.
Qed.

Lemma sched_run_facts (s0 s : PlaybackScheduler) (submitted : list AudioDatagram)
  (frames : list ScheduledFrame) :
  sched_run s0 submitted frames s -> sched_ok s0 -> holds_only [] s0.(jitter_buffer) ->
  sched_facts submitted s0 frames s.
Proof.
  intros Hrun H0 Hh0. induction Hrun as [|submitted frames s sub fr s' Hrun IH Hstep].
  - apply silent_facts; [done|by apply quiet_refl; [apply H0|]|done|done].
  - destruct IH as [Hok Hc Hh Hn Hs Hf].
    destruct (sched_step_facts submitted sub fr s s' Hstep Hok Hh) as [? Hc' ? ? Hs' Hf'].
    split; try done; [congruence|lia| |].
    + rewrite map_app. apply StronglySorted_app; [done..|]. intros x y Hx Hy.
      apply in_map_iff in Hx as (fx & <- & Hx), Hy as (fy & <- & Hy).
      apply Hf in Hx as [? _]. apply Hf' in Hy as [? _]. lia.
    + intros f Hin. apply in_app_iff in Hin as [Hin|Hin].
      * destruct (Hf f Hin) as [? Hfrom]. split; [lia|]. intros Hreal.
        destruct (Hfrom Hreal) as (d & Hd & Hrest). exists d. split; [|done].
        apply in_app_iff. by left.
      * destruct (Hf' f Hin) as [? Hfrom]. split; [lia|]. by rewrite Hc in Hfrom.
Qed.
End Steps.

(** ** The samples of a real frame *)

(** [f] plays the samples of [d]: as they are, or spliced by a blend at their
    start, a fade at their end, or both. *)
Definition carries_pcm (channels ramp : nat) (d : AudioDatagram) (f : ScheduledFrame) : Prop :=
  exists (blend : option (list Z)) (faded : bool),
    let pcm := decode_payload_samples d.(audio_payload) in
    let opened := match blend with
                  | Some from => apply_blend_in pcm channels ramp from
                  | None => pcm
                  end in
    f.(frame_samples) = if faded then apply_fade_out_tail opened channels ramp else opened.

(** [f] is the frame of a buffered datagram. *)
Definition frame_of_buffered (s : PlaybackScheduler) (f : ScheduledFrame) : Prop :=
  exists d, In d (bt_values s.(jitter_buffer).(jb_packets)) /\ datagram_meta d = frame_meta f
    /\ carries_pcm (Z.to_nat s.(sch_config).(cfg_channels)) s.(ramp_frames) d f.

(** The parameters of a splice, which nothing changes. *)
Definition splice_of (s : PlaybackScheduler) : Z * nat := (s.(sch_config).(cfg_channels), s.(ramp_frames)).

Lemma real_frame_carries (s : PlaybackScheduler) (d : AudioDatagram) :
  carries_pcm (Z.to_nat s.(sch_config).(cfg_channels)) s.(ramp_frames) d (real_frame s d).
Proof.
  unfold carries_pcm, real_frame. cbn. destruct (fade_in_next_real_frame s).
  - eexists (Some _), false. reflexivity.
  - by exists None, false.
Qed.

(** While draining, the last frame has no fade at its end yet. *)
Definition drained_frame (channels ramp : nat) (faded : bool) (d : AudioDatagram) (f : ScheduledFrame) :
  Prop :=
  datagram_meta d = frame_meta f
  /\ exists blend, let pcm := decode_payload_samples d.(audio_payload) in
       let opened := match blend with
                     | Some from => apply_blend_in pcm channels ramp from
                     | None => pcm
                     end in
       f.(frame_samples) = if faded then apply_fade_out_tail opened channels ramp else opened.

Definition drain_ok (channels ramp : nat) (l : list AudioDatagram) (frames : list ScheduledFrame) : Prop :=
  frames = []
  \/ exists frames' f d, frames = frames' ++ [f] /\ In d l /\ drained_frame channels ramp false d f
      /\ forall g, In g frames' -> exists e faded, In e l /\ drained_frame channels ramp faded e g.

Lemma drain_ok_fade (channels ramp : nat) (l : list AudioDatagram) (frames : list ScheduledFrame)
  (f : ScheduledFrame) (faded : bool) :
  drain_ok channels ramp l frames ->
  In f (if faded then modify_last (fade_frame channels ramp) frames else frames) ->
  exists d faded', In d l /\ drained_frame channels ramp faded' d f.
Proof.
  intros [-> | (frames' & x & d & -> & Hd & [Hm (blend & Hx)] & Hrest)] Hf; [by destruct faded|].
  destruct faded; [rewrite modify_last_snoc in Hf|]; apply in_app_iff in Hf as [Hf|[<-|[]]];
    try (by apply Hrest); exists d.
  - exists true. split; [done|]. split; [exact Hm|]. exists blend. cbn. by rewrite Hx.
  - exists false. split; [done|]. split; [exact Hm|]. by exists blend.
Qed.

Lemma drain_step_ok (channels ramp : nat) (l : list AudioDatagram) (st : DrainState) (d : AudioDatagram) :
  drain_ok channels ramp l st.(drain_frames) ->
  drain_ok channels ramp (l ++ [d]) (drain_step channels ramp st d).(drain_frames).
Proof.
  intros Hok. right. unfold drain_step.
  set (gap := drain_expected_next st <? audio_sequence d).
  exists (if gap then modify_last (fade_frame channels ramp) st.(drain_frames) else st.(drain_frames)).
  assert (forall g, In g (if gap then modify_last (fade_frame channels ramp) (drain_frames st)
            else drain_frames st) ->
          exists e faded, In e (l ++ [d]) /\ drained_frame channels ramp faded e g) as Hrest.
  { intros g Hg. destruct (drain_ok_fade _ _ _ _ _ _ Hok Hg) as (e & faded & He & H).
    exists e, faded. split; [apply in_app_iff; by left|done]. }
  assert (In d (l ++ [d])) as Hd by (apply in_app_iff; right; by left).
  destruct gap.
  - eexists _, d. split_and!; [reflexivity|done| |exact Hrest]. split; [done|]. by exists (Some []).
  - destruct (drain_fade_in_next st); eexists _, d; (split_and!; [reflexivity|done| |exact Hrest]);
      (split; [done|]); [by exists (Some (drain_blend_from st))|by exists None].
Qed.

Lemma drain_fold_ok (channels ramp : nat) (done l : list AudioDatagram) (st : DrainState) :
  drain_ok channels ramp done st.(drain_frames) ->
  drain_ok channels ramp (done ++ l) (fold_left (drain_step channels ramp) l st).(drain_frames).
Proof.
  revert done st. induction l as [|d l IH]; intros done st Hok; [by rewrite app_nil_r|]. cbn [fold_left].
  replace (done ++ d :: l) with ((done ++ [d]) ++ l) by (by rewrite <- app_assoc).
  by apply IH, drain_step_ok.
Qed.

Lemma drain_remaining_carries (s : PlaybackScheduler) (f : ScheduledFrame) :
  In f (drain_remaining s).1 -> frame_of_buffered s f.
Proof.
  destruct (drain_remaining_meta s) as (_ & _ & Hd). unfold drain_remaining.
  destruct (drain_all _) as [drained b]. cbn [fst] in *. subst drained. set (st := fold_left _ _ _).
  assert (drain_ok (Z.to_nat (cfg_channels (sch_config s))) (ramp_frames s)
    (bt_values (jb_packets (jitter_buffer s))) (drain_frames st)) as Hok.
  { apply (drain_fold_ok _ _ []). by left. }
  intros Hf. destruct (drain_ok_fade _ _ _ _ _ true Hok Hf) as (d & faded & Hin & Hm & blend & Hs).
  exists d. split_and!; [done|done|]. by exists blend, faded.
Qed.

(** What a call hands out and what it leaves of the splice parameters. *)
Definition plays_buffered (s : PlaybackScheduler) (fr : list ScheduledFrame) (s' : PlaybackScheduler) :
  Prop :=
  splice_of s' = splice_of s
  /\ forall f, In f fr -> f.(frame_concealed) = false -> frame_of_buffered s f.

Section Carried.
Context {t : target}.

Lemma deliver_slot_carries (s : PlaybackScheduler) :
  plays_buffered s (frames_of_poll (deliver_slot s).1) (deliver_slot s).2.
Proof.
  unfold deliver_slot, pop_in_order.
  destruct (bt_get (next_expected_sequence (jitter_buffer s)) (jb_packets (jitter_buffer s))) as [d|] eqn:E.
  - set (s1 := set_jitter _ s). destruct (deliver_real_facts d s1) as (h & s' & Ed & _ & Hc & _).
    assert (ramp_frames s' = ramp_frames s) as Hr.
    { apply (f_equal (fun p => ramp_frames p.2)) in Ed. cbn [snd] in Ed. rewrite <- Ed. unfold deliver_real.
      cbn [set_concealment fade_in_next_real_frame]. by destruct (fade_in_next_real_frame s1). }
    rewrite Ed. cbn [fst snd frames_of_poll]. split; [unfold splice_of; by rewrite Hc, Hr|].
    intros f [<-|[]] _. exists d. split_and!; [by eapply bt_get_values|done|].
    exact (real_frame_carries s1 d).
  - unfold deliver_concealed. destruct (conceal _ _ _) as [[samples []] pol]; (split; [done|]).
    + intros f [<-|[]]. cbn. discriminate.
    + intros f [].
Qed.

Lemma skip_keeps_packets (s : PlaybackScheduler) (d : AudioDatagram) :
  In d (bt_values (skip_wide_gap s).(jitter_buffer).(jb_packets)) ->
  In d (bt_values s.(jitter_buffer).(jb_packets)).
Proof. cbn. unfold skip_to_earliest_buffered. by destruct (0 <? _). Qed.

Lemma plays_from (s s1 s' : PlaybackScheduler) (fr : list ScheduledFrame) :
  splice_of s1 = splice_of s ->
  (forall d, In d (bt_values s1.(jitter_buffer).(jb_packets)) ->
             In d (bt_values s.(jitter_buffer).(jb_packets))) ->
  plays_buffered s1 fr s' -> plays_buffered s fr s'.
Proof.
  intros He Hd [Hs Hf]. split; [congruence|]. intros f Hin Hc.
  destruct (Hf f Hin Hc) as (d & Hin' & Hm & Hp). exists d. split_and!; [by apply Hd|done|].
  unfold splice_of in He. injection He as <- <-. exact Hp.
Qed.

Lemma playing_tick_carries (horizon : Z) (s : PlaybackScheduler) :
  plays_buffered s (frames_of_poll (playing_tick horizon s).1) (playing_tick horizon s).2.
Proof.
  unfold playing_tick. destruct (_ <? _); [by split; [|intros ? []]|].
  destruct (_ <? _); [|apply deliver_slot_carries]. destruct (_ <? _); [by split; [|intros ? []]|].
  eapply (plays_from s (skip_wide_gap s)); [done|apply skip_keeps_packets|apply deliver_slot_carries].
Qed.

Lemma discard_loop_keeps (fuel : nat) (now : Z) (s : PlaybackScheduler) :
  splice_of (discard_loop fuel now s) = splice_of s
  /\ forall d, In d (bt_values (discard_loop fuel now s).(jitter_buffer).(jb_packets)) ->
              In d (bt_values s.(jitter_buffer).(jb_packets)).
Proof.
  revert s. induction fuel as [|fuel IH]; intros s; cbn [discard_loop]; [done|].
  destruct (discard_iteration now s) as [s1|] eqn:E; [|done].
  destruct (IH s1) as [IH1 IH2]. unfold discard_iteration in E. destruct (jb_is_empty _); [done|].
  destruct (_ <=? _); [done|]. injection E as E. split; [by rewrite IH1, <- E|].
  intros d Hd. apply IH2 in Hd. rewrite <- E in Hd. cbn in Hd.
  destruct (match peek_next_sequence _ with Some _ => _ | None => _ end); [|exact Hd].
  unfold discard_in_order in Hd. destruct (bt_get _ _); [|exact Hd]. exact (bt_values_remove _ _ _ Hd).
Qed.

Lemma poll_carries (now horizon : Z) (s : PlaybackScheduler) :
  plays_buffered s (frames_of_poll (poll_with_release_horizon now horizon s).1)
    (poll_with_release_horizon now horizon s).2.
Proof.
  unfold poll_with_release_horizon. destruct (sch_state s); try (by split; [|intros ? []]);
    [|apply playing_tick_carries].
  unfold advance_buffering. destruct (_ && _); [by split; [|intros ? []]|]. cbv zeta.
  set (s1 := set_progress _ _ s).
  destruct (discard_loop_keeps (discard_fuel (jitter_buffer s1)) now s1) as [H1 H2].
  change (discard_loop (discard_fuel (jitter_buffer s1)) now s1) with (discard_already_late_head now s1) in *.
  destruct (_ && _); [split; [exact H1|intros ? []]|].
  apply (plays_from s (set_progress true Accumulating (set_state SPlaying (discard_already_late_head now s1))));
    [exact H1|exact H2|apply playing_tick_carries].
Qed.

Lemma sched_step_carries (s s' : PlaybackScheduler) (sub : list AudioDatagram) (fr : list ScheduledFrame) :
  sched_step s sub fr s' -> plays_buffered s fr s'.
Proof.
  intros [s1 d Hd|s1 now hz Hmax|s1 now|s1 o|s1 o|s1 h|s1|s1]; try (by split; [|intros ? []]).
  - split; [|intros ? []]. unfold submit_packet. by destruct (accept _ _).
  - apply poll_carries.
  - split; [|intros ? []]. exact (proj1 (discard_loop_keeps _ now s1)).
  - split; [|intros ? []]. unfold apply_offset_update. by destruct (f64_ltb _ _).
  - split; [|intros f Hf _; by apply drain_remaining_carries].
    unfold drain_remaining. by destruct (drain_all _).
Qed.

(** Every real frame of a run plays a submitted datagram of the stream. *)
Lemma sched_run_carries (s0 s : PlaybackScheduler) (submitted : list AudioDatagram)
  (frames : list ScheduledFrame) :
  sched_run s0 submitted frames s -> sched_ok s0 -> holds_only [] s0.(jitter_buffer) ->
  splice_of s = splice_of s0
  /\ forall f, In f frames -> f.(frame_concealed) = false ->
     exists d, In d submitted /\ datagram_meta d = frame_meta f
       /\ d.(audio_session_id) = s0.(jitter_buffer).(jb_config).(jb_session_id)
       /\ d.(audio_stream_id) = s0.(jitter_buffer).(jb_config).(jb_stream_id)
       /\ carries_pcm (Z.to_nat s0.(sch_config).(cfg_channels)) s0.(ramp_frames) d f.
Proof.
  intros Hrun H0 Hh0. induction Hrun as [|submitted frames s sub fr s' Hrun [IH1 IH2] Hstep]; [done|].
  destruct (sched_run_facts _ _ _ _ Hrun H0 Hh0) as [Hok Hc Hh _ _ _].
  destruct (sched_step_carries _ _ _ _ Hstep) as [Hs Hf]. split; [congruence|].
  intros f Hin Hreal. apply in_app_iff in Hin as [Hin|Hin].
  - destruct (IH2 f Hin Hreal) as (d & Hd & Hrest). exists d. split; [apply in_app_iff; by left|done].
  - destruct (Hf f Hin Hreal) as (d & Hd & Hm & Hp). exists d.
    destruct (Hh d ltac:(by left)) as [Hsub _]. apply in_map_iff in Hd as ([k d'] & <- & Hk).
    pose proof (proj1 (List.Forall_forall _ _) (jb_ok_entries _ (so_jb _ Hok)) _ Hk) as (_ & Hse & Hst & _).
    rewrite Hc in Hse, Hst. unfold splice_of in IH1. injection IH1 as E1 E2. rewrite E1, E2 in Hp.
    split_and!; try done. apply in_app_iff. by left.
Qed.
End Carried.

(** ** What is discarded *)

Lemma discard_iteration_exact (now : Z) (s s' : PlaybackScheduler) :
  discard_iteration now s = Some s' ->
  local_deadline_ms s s.(jitter_buffer).(next_expected_sequence) < now
  /\ (forall k, k <> s.(jitter_buffer).(next_expected_sequence) ->
        bt_get k s'.(jitter_buffer).(jb_packets) = bt_get k s.(jitter_buffer).(jb_packets))
  /\ (forall k, local_deadline_ms s' k = local_deadline_ms s k).
Proof.
  unfold discard_iteration. destruct (jb_is_empty _); [done|]. destruct (_ <=? _) eqn:E; [done|].
  to_prop. intros [= <-]. split_and!; [done| |done]. intros k Hk. cbn.
  destruct (match peek_next_sequence _ with Some _ => _ | None => _ end); [|done].
  unfold discard_in_order. destruct (bt_get (next_expected_sequence _) _); [|done]. cbn. by rewrite bt_get_remove_ne.
Qed.

(** Only slots whose deadline has passed are dropped; everything at or after
    the new position stays buffered. *)
Lemma discard_loop_exact (submitted : list AudioDatagram) (fuel : nat) (now : Z)
  (s : PlaybackScheduler) :
  sched_ok s -> holds_only submitted s.(jitter_buffer) ->
  let s' := discard_loop fuel now s in
  (forall k, s.(jitter_buffer).(next_expected_sequence) <= k
             < s'.(jitter_buffer).(next_expected_sequence) -> local_deadline_ms s k < now)
  /\ (forall k, s'.(jitter_buffer).(next_expected_sequence) <= k ->
        bt_get k s'.(jitter_buffer).(jb_packets) = bt_get k s.(jitter_buffer).(jb_packets))
  /\ s.(jitter_buffer).(next_expected_sequence) <= s'.(jitter_buffer).(next_expected_sequence).
Proof.
  revert s. induction fuel as [|fuel IH]; intros s Hs Hh; cbn [discard_loop].
  - split_and!; [lia|done|lia].
  - destruct (discard_iteration now s) as [s1|] eqn:E; [|split_and!; [lia|done|lia]].
    destruct (discard_iteration_facts submitted now s s1 Hs Hh E) as (Hq & Hn & _ & _ & Hs1).
    destruct (discard_iteration_exact now s s1 E) as (Hlate & Hget & Hdl).
    destruct (IH s1) as (IH1 & IH2 & IH3).
    + apply (quiet_ok submitted s); [done|done|by rewrite Hs1].
    + apply Hq.
    + rewrite Hn in *. split_and!; [| |lia].
      * intros k Hk. destruct (Z.eq_dec k s.(jitter_buffer).(next_expected_sequence)) as [->|Hne];
          [done|]. rewrite <- Hdl. apply IH1. lia.
      * intros k Hk. rewrite IH2 by done. apply Hget. lia.
Qed.

(** ** Properties *)

Section Properties.
Context {t : target}.
Context (c : SchedulerConfig) (o : f64) (s0 : PlaybackScheduler).
Context (Hnew : PlaybackScheduler_new c o = Ok s0) (Htyped : config_typed c).
Context (submitted : list AudioDatagram) (frames : list ScheduledFrame) (s : PlaybackScheduler).
Context (Hrun : sched_run s0 submitted frames s).

Lemma reachable_facts : sched_facts submitted s0 frames s.
Proof.
  destruct (PlaybackScheduler_new_facts c o s0 Hnew Htyped) as (Hs & _ & _ & _ & _ & Hh & _).
  by apply sched_run_facts.
Qed.

Lemma new_identity :
  s0.(jitter_buffer).(jb_config).(jb_session_id) = c.(cfg_session_id)
  /\ s0.(jitter_buffer).(jb_config).(jb_stream_id) = c.(cfg_stream_id).
Proof.
  unfold PlaybackScheduler_new in Hnew. destruct (validate_scheduler_config c); [|done].
  destruct (JitterBuffer_new _) as [b|] eqn:Eb; [|done]. apply new_holds in Eb as (_ & Hc & _).
  cbn [map_err] in Hnew. destruct (_ <=? _); [done|].
  destruct (ConcealmentPolicy_new _ _); [|done]. injection Hnew as <-. cbn. by rewrite Hc.
Qed.

(** C3. Ordered, faithful playback: over any history of arrivals, ticks, clock
    corrections, rebuffers, drains and stops, the frames produced have strictly
    increasing sequence numbers from the configured first one on, and every
    frame not marked concealed carries the sequence, sample index and
    presentation time of a datagram that was submitted for this session and
    stream. *)
Theorem playback_is_ordered :
  StronglySorted Z.lt (map frame_sequence frames)
  /\ (forall f, In f frames -> c.(cfg_first_sequence) <= f.(frame_sequence))
  /\ (forall f, In f frames -> f.(frame_concealed) = false ->
        exists d, In d submitted /\ datagram_meta d = frame_meta f
          /\ d.(audio_session_id) = c.(cfg_session_id)
          /\ d.(audio_stream_id) = c.(cfg_stream_id)).
Proof.
  destruct reachable_facts as [_ _ _ _ Hsort Hf]. destruct new_identity as [Hse Hst].
  destruct (PlaybackScheduler_new_facts c o s0 Hnew Htyped) as (_ & _ & _ & _ & _ & _ & Hn & _).
  rewrite <- Hn, <- Hse, <- Hst.
  split_and!; [done|intros f Hin; apply Hf in Hin as [? _]; lia|].
  intros f Hin. by apply Hf in Hin as [_ Hfrom].
Qed.

(** No frame is early: whenever a tick yields a frame, the local deadline
    of its sequence number (its host presentation time under the current clock
    offset) is not after the release horizon of the tick. *)
Lemma no_frame_before_deadline (now horizon : Z) (f : ScheduledFrame) (h : BufferHealth)
  (s' : PlaybackScheduler) :
  s.(jitter_buffer).(next_expected_sequence) + 10000 < u64_max ->
  poll_with_release_horizon now horizon s = (PollFrame f h, s') ->
  local_deadline_ms s f.(frame_sequence) <= Z.max horizon now.
Proof.
  intros Hmax Hpoll. destruct reachable_facts as [Hs _ Hh _ _ _]. pose proof Hs as [].
  pose proof (jb_ok_window _ so_jb0) as Hw. unfold MAX_REORDER_WINDOW_LIMIT in Hw.
  assert (forall s1, sched_facts submitted s [] s1 -> s1.(sch_config) = s.(sch_config) ->
            s1.(offset_ms) = s.(offset_ms) ->
            s1.(jitter_buffer).(next_expected_sequence) + reach s1.(jitter_buffer).(jb_config) < u64_max ->
            playing_tick (Z.max horizon now) s1 = (PollFrame f h, s') ->
            local_deadline_ms s f.(frame_sequence) <= Z.max horizon now) as Htick.
  { intros s1 [Hs1 _ Hh1 _ _ _] Hc Ho Hmax1 Ht.
    pose proof (playing_tick_facts submitted (Z.max horizon now) s1 Hs1 Hh1 Hmax1) as Hout.
    rewrite Ht in Hout. cbn [fst snd] in Hout.
    inversion Hout as [|s2 p e s2' H2 Hso Hsf Hn Hle Hc' Ho' Hd]; subst.
    assert (f.(frame_sequence) = s2.(jitter_buffer).(next_expected_sequence)) as ->.
    { inversion Hso as [d h' Hg|f' h' Hg Hseq Hcon Htime|]; subst; [|done]. cbn.
      assert (jb_ok s2.(jitter_buffer)) as Hj2.
      { destruct H2 as [->| ->]; [apply Hs1|]. apply skip_to_earliest_ok, Hs1. }
      by destruct (bt_forall_get _ _ _ _ (jb_ok_entries _ Hj2) Hg). }
    unfold local_deadline_ms, expected_host_presentation_time_ms in *. by rewrite <- Hc, <- Ho. }
  unfold poll_with_release_horizon in Hpoll. destruct (sch_state s) eqn:Est; try done.
  - destruct (advance_buffering_facts submitted now s Hs Hh) as (Hq & Hn & Hc & Ho & Hcase).
    destruct (advance_buffering now s) as [[p|] s1]; cbn [fst snd] in *;
      [destruct Hcase as [n ->]; done|].
    apply (Htick s1); try done; [apply silent_facts; [done|done|by rewrite Hc..]|].
    destruct Hq as [_ Hqc _ _ _ _]. rewrite Hqc. unfold reach in *. lia.
  - apply (Htick s); try done; [apply silent_facts; [done|by apply quiet_refl|done|done]|].
    unfold reach. lia.
Qed.

(** Playback starts on time: when the buffering phase ends, the buffer
    target had been reached, packets are buffered, and the first slot to play
    is still reachable: its local deadline is not in the past. *)
Lemma playback_starts_on_time (now : Z) (s' : PlaybackScheduler) :
  advance_buffering now s = (None, s') -> 0 < buffer_target s ->
  (s.(buffer_target_progress) = Satisfied
   \/ buffer_target s <= buffered_span_ms s.(jitter_buffer))
  /\ s'.(sch_state) = SPlaying
  /\ s'.(jitter_buffer).(jb_packets) <> []
  /\ now <= local_deadline_ms s' s'.(jitter_buffer).(next_expected_sequence).
Proof.
  intros Hadv Ht. destruct reachable_facts as [Hs _ Hh _ _ _].
  destruct (advance_buffering_facts submitted now s Hs Hh) as (_ & _ & _ & _ & Hcase).
  rewrite Hadv in Hcase. cbn [fst snd] in Hcase. destruct Hcase as (Hp & Hst & Hhead).
  destruct (Hhead Ht). done.
Qed.

(** Realignment after an underrun terminates and is exact: exactly the
    head slots whose deadline has passed are dropped, every later packet stays
    buffered, and what remains is empty or starts with a reachable slot. *)
Lemma realign_drops_only_late (now : Z) :
  let s' := realign_to_now now s in
  (s'.(jitter_buffer).(jb_packets) = []
   \/ now <= local_deadline_ms s s'.(jitter_buffer).(next_expected_sequence))
  /\ (forall k, s.(jitter_buffer).(next_expected_sequence) <= k
                < s'.(jitter_buffer).(next_expected_sequence) -> local_deadline_ms s k < now)
  /\ (forall k, s'.(jitter_buffer).(next_expected_sequence) <= k ->
        bt_get k s'.(jitter_buffer).(jb_packets) = bt_get k s.(jitter_buffer).(jb_packets)).
Proof.
  intros s'. destruct reachable_facts as [Hs _ Hh _ _ _].
  destruct (discard_head_facts submitted now s Hs Hh) as (Hd & _ & _ & [fade Hs2]).
  destruct (discard_loop_exact submitted (discard_fuel s.(jitter_buffer)) now s Hs Hh)
    as (Hlate & Hkeep & _).
  split_and!; [|done|done]. apply discard_done in Hd. rewrite Hs2 in Hd at 2. exact Hd.
Qed.
End Properties.

(** ** Progress, seams, draining and the clock *)

Section MoreProperties.
Context {t : target}.

Lemma deliver_slot_not_waiting (s : PlaybackScheduler) (h : BufferHealth) :
  (deliver_slot s).1 <> PollWaiting h.
Proof. unfold deliver_slot, deliver_real, deliver_concealed. by repeat case_match. Qed.

(** No stall: a playing scheduler whose next slot is due never sits on it:
    the tick moves the position forward, by yielding a frame for the slot it
    consumed, by giving up to rebuffering, or by abandoning a gap wider than
    the skip threshold up to the earliest buffered packet. *)
Lemma due_slot_makes_progress (submitted : list AudioDatagram) (now horizon : Z)
  (s : PlaybackScheduler) :
  sched_ok s -> holds_only submitted s.(jitter_buffer) -> s.(sch_state) = SPlaying ->
  0 <= s.(sch_config).(cfg_concealment_skip_threshold_packets) ->
  s.(jitter_buffer).(next_expected_sequence) + 10000 < u64_max ->
  local_deadline_ms s s.(jitter_buffer).(next_expected_sequence) <= Z.max horizon now ->
  let r := poll_with_release_horizon now horizon s in
  s.(jitter_buffer).(next_expected_sequence) < r.2.(jitter_buffer).(next_expected_sequence)
  /\ match r.1 with
     | PollFrame f _ => r.2.(jitter_buffer).(next_expected_sequence) = f.(frame_sequence) + 1
     | PollAwaitingRebuffer => True
     | PollWaiting _ =>
         s.(sch_config).(cfg_concealment_skip_threshold_packets)
           < missing_sequence_count s.(jitter_buffer)
         /\ bt_first_key s.(jitter_buffer).(jb_packets)
            = Some r.2.(jitter_buffer).(next_expected_sequence)
     | _ => False
     end.
Proof.
  intros Hs Hh Hst Hsk Hmax Hdue r. subst r. unfold poll_with_release_horizon. rewrite Hst.
  pose proof Hs as []. pose proof (jb_ok_window _ so_jb0) as Hw. unfold MAX_REORDER_WINDOW_LIMIT in Hw.
  pose proof (playing_tick_facts submitted (Z.max horizon now) s Hs Hh
    ltac:(unfold reach; lia)) as Hout.
  inversion Hout as [h s' Hq Hc Ho Hlate Ep Es|s1 p e s' H1 Hso Hf Hn Hle Hc Ho Hd Ep Es].
  - unfold playing_tick in *. rewrite (proj2 (Z.ltb_ge _ _)) in * by done.
    destruct (cfg_concealment_skip_threshold_packets _ <? _) eqn:E2; to_prop.
    + destruct (Z.max horizon now <? _) eqn:E3; to_prop.
      * cbn [fst snd]. unfold missing_sequence_count in E2 |- *.
        change ((skip_wide_gap s).(jitter_buffer))
          with (skip_to_earliest_buffered s.(jitter_buffer)).2.
        destruct (bt_first_key (jb_packets s.(jitter_buffer))) as [k|] eqn:Hk; [|lia].
        rewrite (skip_to_earliest_next _ k) by done. destruct (_ <? k) eqn:E4; to_prop; [|lia].
        split_and!; (done || lia).
      * by destruct (deliver_slot_not_waiting (skip_wide_gap s) h).
    + by destruct (deliver_slot_not_waiting s h).
  - split; [lia|]. destruct Hso as [d h Hg|f h Hg Hseq Hcon Htime|Hg]; [|lia|done]. cbn.
    assert (jb_ok s1.(jitter_buffer)) as Hj1.
    { destruct H1 as [->| ->]; [done|]. by apply skip_to_earliest_ok. }
    destruct (bt_forall_get _ _ _ _ (jb_ok_entries _ Hj1) Hg). lia.
Qed.

Lemma i16_from_le_bytes_i16 (b0 b1 : Z) : is_u8 b0 -> is_u8 b1 -> is_i16 (i16_from_le_bytes b0 b1).
Proof.
  unfold is_u8, is_uint, is_i16, i16_from_le_bytes. change (2 ^ 8) with 256. intros H0 H1.
  destruct (_ <? _) eqn:E; to_prop; lia.
Qed.

Lemma decode_payload_i16 (payload : list Z) :
  Forall is_u8 payload -> Forall is_i16 (decode_payload_samples payload).
Proof.
  revert payload. fix IH 1. intros [|b0 [|b1 rest]] H; cbn; [constructor..|].
  inversion_clear H as [|? ? H0 Hr]. inversion_clear Hr as [|? ? H1 Hrest].
  constructor; [by apply i16_from_le_bytes_i16|by apply IH].
Qed.

(** Real audio is delivered as sent: without a preceding interruption a
    frame's samples are exactly the datagram's PCM; after concealed or skipped
    audio the frame starts on the values the last emitted frame ended on, so
    the splice has no step, and has the datagram's length. *)
Lemma real_audio_is_spliced_seamlessly (d : AudioDatagram) (s s' : PlaybackScheduler)
  (f : ScheduledFrame) (h : BufferHealth) :
  deliver_real d s = (PollFrame f h, s') -> Forall is_u8 d.(audio_payload) ->
  ramp_fits (length (decode_payload_samples d.(audio_payload))) ->
  let channels := Z.to_nat s.(sch_config).(cfg_channels) in
  let pcm := decode_payload_samples d.(audio_payload) in
  length f.(frame_samples) = length pcm
  /\ (s.(fade_in_next_real_frame) = false -> f.(frame_samples) = pcm)
  /\ (s.(fade_in_next_real_frame) = true -> s.(resume_from_silence) = false ->
      (0 < channels)%nat -> length s.(last_emitted_tail) = channels ->
      (channels <= length pcm)%nat -> Forall is_i16 s.(last_emitted_tail) ->
      take channels f.(frame_samples) = s.(last_emitted_tail)).
Proof.
  intros Hd Hu Hfit channels pcm.
  destruct (deliver_real_facts d s) as (h' & s'' & E & _). rewrite E in Hd. injection Hd as <- _ _.
  cbn [frame_samples real_frame]. fold pcm channels. split_and!.
  - destruct (fade_in_next_real_frame s); [apply apply_blend_in_length|done].
  - by intros ->.
  - intros -> -> Hc Ht Hl Ht16.
    pose proof (decode_payload_i16 _ Hu) as Hi16. fold pcm in Hi16.
    pose proof (blend_in_start pcm s.(last_emitted_tail) channels s.(ramp_frames)
      Hc Ht Hl Hi16 Ht16 Hfit) as Hstart.
    apply list_eq. intros ch. destruct (Nat.lt_ge_cases ch channels) as [Hch|Hch].
    + rewrite lookup_take by done. rewrite decide_True by done. by apply Hstart.
    + rewrite !lookup_ge_None_2; [done|lia|]. rewrite length_take. lia.
Qed.

(** A stopping stream is drained whole and ends in silence: every buffered
    packet becomes a frame, in sequence order and with its own sequence, index
    and time; the buffer is then empty; and the last complete sample frame of
    the last frame is zero on every channel. *)
Lemma drain_is_complete (s : PlaybackScheduler) :
  map frame_meta (drain_remaining s).1 = map datagram_meta (bt_values s.(jitter_buffer).(jb_packets))
  /\ (drain_remaining s).2.(jitter_buffer).(jb_packets) = []
  /\ (forall f tail, last (drain_remaining s).1 = Some f ->
        last_frame f.(frame_samples) (Z.to_nat s.(sch_config).(cfg_channels)) = Some tail ->
        tail = replicate (Z.to_nat s.(sch_config).(cfg_channels)) 0).
Proof.
  destruct (drain_remaining_meta s) as (Hm & Hj & Hd). split_and!; [done| |].
  - rewrite Hj. unfold drain_all. by destruct (drain_scan _ _ _).
  - intros f tail Hlast Ht. clear Hm Hj Hd. unfold drain_remaining in Hlast.
    destruct (drain_all _) as [drained b]. cbn [fst] in Hlast.
    destruct (drain_frames _) as [|x l] using rev_ind; [done|].
    rewrite modify_last_snoc, last_snoc in Hlast. injection Hlast as <-.
    by apply fade_out_last_frame in Ht.
Qed.

(** Exact time mapping: for whole-millisecond offsets and times below
    [2^52] ms, host time maps to local time by subtraction, clamped at zero. *)
Lemma host_to_local_exact (host offset : Z) :
  0 <= host < 2 ^ 52 -> Z.abs offset < 2 ^ 52 ->
  host_to_local_ms host (f64_of_Z offset) = Z.max 0 (host - offset).
Proof.
  intros Hh Ho. unfold host_to_local_ms. rewrite f64_sub_of_Z, f64_leb_of_Z by lia.
  destruct (_ <=? 0) eqn:E; to_prop; [lia|]. rewrite f64_round_to_u64_of_Z; lia.
Qed.

(** Clock corrections: for whole-millisecond offsets and threshold, an
    update by at most the threshold is applied in place and keeps the playback
    phase; a larger one stops playback until a rebuffer, and no tick before
    the rebuffer changes anything. *)
Lemma offset_update_threshold (a b threshold : Z) (s : PlaybackScheduler) :
  s.(offset_ms) = f64_of_Z a -> s.(sch_config).(cfg_hard_resync_threshold_ms) = f64_of_Z threshold ->
  Z.abs a < 2 ^ 52 -> Z.abs b < 2 ^ 52 -> 0 <= threshold < 2 ^ 52 ->
  let '(outcome, s') := apply_offset_update (f64_of_Z b) s in
  s'.(offset_ms) = f64_of_Z b
  /\ if Z.abs (b - a) <=? threshold
     then outcome = SoftCorrected /\ s'.(sch_state) = s.(sch_state)
     else outcome = HardResyncRequired
          /\ forall now horizon, poll_with_release_horizon now horizon s' = (PollAwaitingRebuffer, s').
Proof.
  intros Ha Ht Hra Hrb Hrt. unfold apply_offset_update. cbn [sch_config set_offset].
  rewrite Ha, Ht, f64_sub_of_Z, f64_abs_of_Z, f64_ltb_of_Z by lia.
  rewrite Z.ltb_antisym. destruct (_ <=? threshold); by split_and!.
Qed.

(** A stopped scheduler comes back to life: [rebuffer] (like a clock jump
    reported to [apply_offset_update]) overwrites the stopped state. *)
Theorem rebuffer_revives_stopped (o : f64) (s : PlaybackScheduler) :
  is_stopped (stop s) = true /\ is_stopped (rebuffer o (stop s)) = false
  /\ phase (rebuffer o (stop s)) = PhaseBuffering.
Proof. done. Qed.
End MoreProperties.

(** ** Witnesses *)

(** Four-frame mono packets at 1 kHz, played from host time 1000. *)
Definition sample_config : SchedulerConfig :=
  mkSchedulerConfig (lit "session") (lit "stream") 1000 1000 0 4 1 4 4 1 10 (f64_of_Z 120) 3 1 1 4 2000.

Definition sample_scheduler : PlaybackScheduler :=
  match PlaybackScheduler_new sample_config (f64_of_Z 0) with
  | Ok s => s
  | Err _ =>
      mkPlaybackScheduler sample_config sample_jb sample_policy SStopped (f64_of_Z 0) 0 true [] true
        true Satisfied
  end.

Definition sample_pcm (sequence : Z) : AudioDatagram :=
  mkAudioDatagram (lit "session") (lit "stream") sequence PcmS16Le 1000 1 4 (sequence * 4)
    (1000 + sequence * 4) [16; 39; 32; 3; 1; 0; 255; 255].

(** Packets 1 and 0 submitted, nothing played yet. *)
Definition sample_buffered : PlaybackScheduler :=
  (submit_packet (sample_pcm 0) (submit_packet (sample_pcm 1) sample_scheduler).2).2.

(** The first tick, at local time 1000. *)
Definition sample_played : PlaybackScheduler :=
  (poll_with_release_horizon (t := Target64) 1000 1000 sample_buffered).2.

Definition sample_frames : list ScheduledFrame :=
  frames_of_poll (poll_with_release_horizon (t := Target64) 1000 1000 sample_buffered).1.

Lemma sample_new : PlaybackScheduler_new sample_config (f64_of_Z 0) = Ok sample_scheduler.
Proof. vm_compute. reflexivity. Defined.

Lemma sample_typed : config_typed sample_config.
Proof. unfold config_typed, is_u16, is_u32, is_u64, is_uint. cbn. lia. Defined.

Lemma sample_buffered_run :
  sched_run (t := Target64) sample_scheduler [sample_pcm 1; sample_pcm 0] [] sample_buffered.
Proof.
  apply (sched_next _ [sample_pcm 1] [] (submit_packet (sample_pcm 1) sample_scheduler).2
           [sample_pcm 0] []).
  - apply (sched_next _ [] [] sample_scheduler [sample_pcm 1] []).
    + apply sched_start.
    + apply ss_submit. cbn. unfold u64_max. lia.
  - apply ss_submit. cbn. unfold u64_max. lia.
Defined.

Lemma sample_played_run :
  sched_run (t := Target64) sample_scheduler [sample_pcm 1; sample_pcm 0] sample_frames sample_played.
Proof.
  apply (sched_next _ [sample_pcm 1; sample_pcm 0] [] sample_buffered [] sample_frames).
  - exact sample_buffered_run.
  - apply ss_poll. vm_compute. reflexivity.
Defined.

Lemma playback_is_ordered_witness :
  StronglySorted Z.lt (map frame_sequence sample_frames)
  /\ (forall f, In f sample_frames -> 0 <= f.(frame_sequence))
  /\ (forall f, In f sample_frames -> f.(frame_concealed) = false ->
        exists d, In d [sample_pcm 1; sample_pcm 0] /\ datagram_meta d = frame_meta f
          /\ d.(audio_session_id) = lit "session" /\ d.(audio_stream_id) = lit "stream").
Proof.
  exact (playback_is_ordered (t := Target64) sample_config (f64_of_Z 0) sample_scheduler
           sample_new sample_typed _ _ sample_played sample_played_run).
Defined.

Lemma no_frame_before_deadline_witness :
  exists f h, poll_with_release_horizon (t := Target64) 1000 1000 sample_buffered
              = (PollFrame f h, sample_played)
    /\ local_deadline_ms sample_buffered f.(frame_sequence) <= Z.max 1000 1000.
Proof.
  eexists _, _. split; [vm_compute; reflexivity|].
  eapply (no_frame_before_deadline (t := Target64) sample_config (f64_of_Z 0) sample_scheduler
            sample_new sample_typed _ _ sample_buffered sample_buffered_run).
  - vm_compute. reflexivity.
  - vm_compute. reflexivity.
Defined.

Lemma playback_starts_on_time_witness :
  let s' := (advance_buffering 1000 sample_buffered).2 in
  (sample_buffered.(buffer_target_progress) = Satisfied
   \/ buffer_target sample_buffered <= buffered_span_ms sample_buffered.(jitter_buffer))
  /\ s'.(sch_state) = SPlaying
  /\ s'.(jitter_buffer).(jb_packets) <> []
  /\ 1000 <= local_deadline_ms s' s'.(jitter_buffer).(next_expected_sequence).
Proof.
  apply (playback_starts_on_time (t := Target64) sample_config (f64_of_Z 0) sample_scheduler
           sample_new sample_typed _ _ sample_buffered sample_buffered_run).
  - vm_compute. reflexivity.
  - vm_compute. reflexivity.
Defined.

Lemma realign_drops_only_late_witness :
  let s' := realign_to_now 1003 sample_buffered in
  (s'.(jitter_buffer).(jb_packets) = []
   \/ 1003 <= local_deadline_ms sample_buffered s'.(jitter_buffer).(next_expected_sequence))
  /\ (forall k, sample_buffered.(jitter_buffer).(next_expected_sequence) <= k
                < s'.(jitter_buffer).(next_expected_sequence) ->
        local_deadline_ms sample_buffered k < 1003)
  /\ (forall k, s'.(jitter_buffer).(next_expected_sequence) <= k ->
        bt_get k s'.(jitter_buffer).(jb_packets) = bt_get k sample_buffered.(jitter_buffer).(jb_packets)).
Proof.
  exact (realign_drops_only_late (t := Target64) sample_config (f64_of_Z 0) sample_scheduler
           sample_new sample_typed _ _ sample_buffered sample_buffered_run 1003).
Defined.

Lemma due_slot_makes_progress_witness :
  sample_played.(jitter_buffer).(next_expected_sequence)
  < (poll_with_release_horizon (t := Target64) 1004 1004 sample_played).2
      .(jitter_buffer).(next_expected_sequence).
Proof.
  destruct (reachable_facts (t := Target64) sample_config (f64_of_Z 0) sample_scheduler
              sample_new sample_typed _ _ sample_played sample_played_run) as [Hok _ Hh _ _ _].
  destruct (due_slot_makes_progress (t := Target64) _ 1004 1004 sample_played Hok Hh) as [H _].
  - vm_compute. reflexivity.
  - vm_compute. discriminate.
  - vm_compute. reflexivity.
  - vm_compute. discriminate.
  - exact H.
Defined.

(** A scheduler that has just concealed a packet, ending on the value 500. *)
Definition sample_after_gap : PlaybackScheduler := set_splice true [500] false sample_played.

Lemma real_audio_is_spliced_seamlessly_witness :
  exists f h s', deliver_real (sample_pcm 1) sample_after_gap = (PollFrame f h, s')
    /\ take 1 f.(frame_samples) = [500].
Proof.
  eexists _, _, _. split; [vm_compute; reflexivity|].
  match goal with |- take 1 (frame_samples ?f) = _ =>
    destruct (real_audio_is_spliced_seamlessly (sample_pcm 1) sample_after_gap
      (deliver_real (sample_pcm 1) sample_after_gap).2 f
      (buffer_health (deliver_real (sample_pcm 1) sample_after_gap).2)) as (_ & _ & H)
  end.
  - vm_compute. reflexivity.
  - repeat (apply List.Forall_cons; [unfold is_u8, is_uint; lia|]). apply List.Forall_nil.
  - unfold ramp_fits. cbn. lia.
  - apply H; [reflexivity|reflexivity|vm_compute; lia|reflexivity|vm_compute; lia|].
    change (Forall is_i16 [500]).
    apply List.Forall_cons; [unfold is_i16; lia|apply List.Forall_nil].
Defined.

Lemma host_to_local_exact_witness : host_to_local_ms 5000 (f64_of_Z 1200) = Z.max 0 (5000 - 1200).
Proof. apply host_to_local_exact; lia. Defined.

Lemma offset_update_threshold_witness :
  let '(outcome, s') := apply_offset_update (f64_of_Z 121) sample_played in
  s'.(offset_ms) = f64_of_Z 121
  /\ if Z.abs (121 - 0) <=? 120
     then outcome = SoftCorrected /\ s'.(sch_state) = sample_played.(sch_state)
     else outcome = HardResyncRequired
          /\ forall now horizon,
               poll_with_release_horizon (t := Target64) now horizon s' = (PollAwaitingRebuffer, s').
Proof.
  apply (offset_update_threshold (t := Target64) 0 121 120 sample_played);
    [vm_compute; reflexivity|vm_compute; reflexivity|lia|lia|lia].
Defined.
