(* ===== verification/Packetizer.v ===== *)
(** The host's packetizer
    (src/rust/silent-disco-core/src/audio/packetizer.rs, with the PCM chunk
    types of audio/types.rs): cuts decoded PCM into full-width audio datagrams,
    carrying less than one packet between chunks. *)
From Stdlib Require Import ZArith Lia Sorting.Sorted Strings.String.
From stdpp Require Import numbers list prelude.
From S2P Require Import Prelude Utf8 ProtocolTypes Ramp Scheduler.

(** ** Data (audio/types.rs) *)

Inductive AudioSampleFormat : Type := SamplePcmS16Le.

Record AudioFormat : Type := mkAudioFormat {
sample_rate_hz : Z;
format_channels : Z;
sample_format : AudioSampleFormat
}.

#[export] Instance AudioSampleFormat_eq_dec : EqDecision AudioSampleFormat.
Proof. solve_decision. Defined.
#[export] Instance AudioFormat_eq_dec : EqDecision AudioFormat.
Proof. solve_decision. Defined.

Definition CANONICAL : AudioFormat := mkAudioFormat 48000 2 SamplePcmS16Le.

(** [samples_per_frame]: interleaved samples in one frame. *)
Definition samples_per_frame (f : AudioFormat) : Z := f.(format_channels).

Record DecodedPcmChunk : Type := mkDecodedPcmChunk {
chunk_format : AudioFormat;
chunk_first_sample_index : Z;
chunk_frames : list Z;
chunk_end_of_stream : bool
}.

Definition frame_count (c : DecodedPcmChunk) : Z :=
  len c.(chunk_frames) / samples_per_frame c.(chunk_format).

(** ** State *)

Definition FIXED_AUDIO_DATAGRAM_FIELD_BYTES : Z := 8 + 1 + 4 + 2 + 4 + 8 + 8 + 2 + 4.
Definition IDENTIFIER_LENGTH_PREFIX_BYTES : Z := 2.
Definition DEFAULT_PACKET_DURATION_MS : Z := 5.

Inductive PacketizerErrorKind : Type :=
| InvalidConfiguration
| FormatMismatch
| AlreadyFinished.

Record PacketizeOutcome : Type := mkPacketizeOutcome {
outcome_frames : list ProtocolFrame;
outcome_end_of_stream : bool
}.

Record Packetizer : Type := mkPacketizer {
pk_session_id : rstr;
pk_stream_id : rstr;
pk_format : AudioFormat;
pk_samples_per_packet : Z;
pk_host_start_time_ms : Z;
pk_next_sequence : Z;
pk_carry : list Z;
pk_carry_first_sample_index : option Z;
pk_contiguous_sample_cursor : Z;
pk_expected_chunk_sample_index : option Z;
pk_finished : bool
}.

(** [samples_per_packet] of [new], from the nominal duration. *)
Definition packet_samples (sample_rate packet_duration_ms : Z) : Z :=
  try_from_or_max u32_max (sample_rate * packet_duration_ms / 1000).

Definition Packetizer_new {t : target} (session_id stream_id : rstr) (format : AudioFormat)
  (packet_duration_ms host_start_time_ms : Z) : result Packetizer PacketizerErrorKind :=
  if negb (in_range MIN_PACKET_DURATION_MS MAX_PACKET_DURATION_MS packet_duration_ms)
  then Err InvalidConfiguration
  else if samples_per_frame format =? 0 then Err InvalidConfiguration
  else
    let samples_per_packet := packet_samples format.(sample_rate_hz) packet_duration_ms in
    if samples_per_packet =? 0 then Err InvalidConfiguration
    else
      let? payload_bytes :=
        ok_or (match checked_mul usize_max samples_per_packet (samples_per_frame format) with
               | Some samples => checked_mul usize_max samples 2
               | None => None
               end) InvalidConfiguration in
      let identifier_overhead :=
        2 * IDENTIFIER_LENGTH_PREFIX_BYTES + str_len session_id + str_len stream_id in
      let? encoded_bytes :=
        ok_or (match checked_add usize_max FIXED_AUDIO_DATAGRAM_FIELD_BYTES identifier_overhead with
               | Some overhead => checked_add usize_max overhead payload_bytes
               | None => None
               end) InvalidConfiguration in
      let maximum_encoded_bytes := MAX_AUDIO_DATAGRAM_BYTES - FRAME_HEADER_BYTES in
      if maximum_encoded_bytes <? encoded_bytes then Err InvalidConfiguration
      else Ok (mkPacketizer session_id stream_id format samples_per_packet host_start_time_ms
                 0 [] None 0 None false).

Definition stream_start_message (p : Packetizer) : ProtocolFrame :=
  FControl (CStreamStart
    (mkStreamStart p.(pk_session_id) p.(pk_stream_id) p.(pk_host_start_time_ms)
       p.(pk_format).(sample_rate_hz) p.(pk_format).(format_channels) p.(pk_samples_per_packet)
       None None)).

(** ** Datagrams *)

(** [i16::to_le_bytes]. *)
Definition i16_to_le_bytes (sample : Z) : list Z := [sample mod 256; sample / 256 mod 256].

Definition encode_samples (samples : list Z) : list Z := flat_map i16_to_le_bytes samples.

Definition presentation_time_ms (p : Packetizer) (sequence : Z) : Z :=
  let sample_offset_ms :=
    (sequence * p.(pk_samples_per_packet) * 1000 + p.(pk_format).(sample_rate_hz) / 2)
    / p.(pk_format).(sample_rate_hz) in
  saturating_add u64_max p.(pk_host_start_time_ms) (try_from_or_max u64_max sample_offset_ms).

Definition build_datagram (payload_samples : list Z) (p : Packetizer) : AudioDatagram * Packetizer :=
  let sequence := p.(pk_next_sequence) in
  let first_sample_index :=
    match p.(pk_carry_first_sample_index) with Some i => i | None => 0 end in
  (mkAudioDatagram p.(pk_session_id) p.(pk_stream_id) sequence PcmS16Le
     p.(pk_format).(sample_rate_hz) p.(pk_format).(format_channels) p.(pk_samples_per_packet)
     first_sample_index (presentation_time_ms p sequence) (encode_samples payload_samples),
   mkPacketizer p.(pk_session_id) p.(pk_stream_id) p.(pk_format) p.(pk_samples_per_packet)
     p.(pk_host_start_time_ms) (wrapping_add 64 sequence 1) p.(pk_carry)
     p.(pk_carry_first_sample_index) p.(pk_contiguous_sample_cursor)
     p.(pk_expected_chunk_sample_index) p.(pk_finished)).

Definition advance_carry_start (samples_per_packet : Z) (p : Packetizer) : Packetizer :=
  mkPacketizer p.(pk_session_id) p.(pk_stream_id) p.(pk_format) p.(pk_samples_per_packet)
    p.(pk_host_start_time_ms) p.(pk_next_sequence) p.(pk_carry)
    (match p.(pk_carry_first_sample_index) with
     | Some start => Some (wrapping_add 64 start samples_per_packet)
     | None => None
     end)
    p.(pk_contiguous_sample_cursor) p.(pk_expected_chunk_sample_index) p.(pk_finished).

Definition set_carry (carry : list Z) (p : Packetizer) : Packetizer :=
  mkPacketizer p.(pk_session_id) p.(pk_stream_id) p.(pk_format) p.(pk_samples_per_packet)
    p.(pk_host_start_time_ms) p.(pk_next_sequence) carry p.(pk_carry_first_sample_index)
    p.(pk_contiguous_sample_cursor) p.(pk_expected_chunk_sample_index) p.(pk_finished).

Definition set_carry_start (start : option Z) (p : Packetizer) : Packetizer :=
  mkPacketizer p.(pk_session_id) p.(pk_stream_id) p.(pk_format) p.(pk_samples_per_packet)
    p.(pk_host_start_time_ms) p.(pk_next_sequence) p.(pk_carry) start
    p.(pk_contiguous_sample_cursor) p.(pk_expected_chunk_sample_index) p.(pk_finished).

Definition set_finished (finished : bool) (expected : option Z) (p : Packetizer) : Packetizer :=
  mkPacketizer p.(pk_session_id) p.(pk_stream_id) p.(pk_format) p.(pk_samples_per_packet)
    p.(pk_host_start_time_ms) p.(pk_next_sequence) p.(pk_carry) p.(pk_carry_first_sample_index)
    p.(pk_contiguous_sample_cursor) expected finished.

Definition set_cursor (cursor : Z) (p : Packetizer) : Packetizer :=
  mkPacketizer p.(pk_session_id) p.(pk_stream_id) p.(pk_format) p.(pk_samples_per_packet)
    p.(pk_host_start_time_ms) p.(pk_next_sequence) p.(pk_carry) p.(pk_carry_first_sample_index)
    cursor p.(pk_expected_chunk_sample_index) p.(pk_finished).

(** [samples_per_full_packet] of [push_chunk]. *)
Definition full_packet (p : Packetizer) : nat :=
  Z.to_nat (p.(pk_samples_per_packet) * samples_per_frame p.(pk_format)).

(** [while self.carry.len() >= samples_per_full_packet { ... }]; each
    iteration shortens the carry, so its length is enough fuel. *)
Fixpoint emit_full_packets (fuel : nat) (p : Packetizer) : list AudioDatagram * Packetizer :=
  match fuel with
  | O => ([], p)
  | S fuel' =>
      if Nat.leb (full_packet p) (length p.(pk_carry)) then
        let payload_samples := take (full_packet p) p.(pk_carry) in
        let p := set_carry (drop (full_packet p) p.(pk_carry)) p in
        let '(d, p) := build_datagram payload_samples p in
        let p := advance_carry_start p.(pk_samples_per_packet) p in
        let '(ds, p) := emit_full_packets fuel' p in
        (d :: ds, p)
      else ([], p)
  end.

(** [Vec::resize]. *)
Definition resize (n : nat) (l : list Z) : list Z := take n l ++ replicate (n - length l) 0.

(** The padded last packet at the end of the stream. *)
Definition flush_carry (p : Packetizer) : list AudioDatagram * Packetizer :=
  match p.(pk_carry) with
  | [] => ([], p)
  | carry =>
      let p := set_carry [] p in
      let '(d, p) := build_datagram (resize (full_packet p) carry) p in ([d], p)
  end.

Definition validate_chunk (c : DecodedPcmChunk) (p : Packetizer) : result unit PacketizerErrorKind :=
  if p.(pk_finished) then Err AlreadyFinished
  else if negb (bool_decide (c.(chunk_format) = p.(pk_format))) then Err FormatMismatch
  else if negb (len c.(chunk_frames) mod samples_per_frame p.(pk_format) =? 0)
  then Err InvalidConfiguration
  else Ok tt.

Definition push_chunk (c : DecodedPcmChunk) (p : Packetizer) :
  result PacketizeOutcome PacketizerErrorKind * Packetizer :=
  match validate_chunk c p with
  | Err e => (Err e, p)
  | Ok _ =>
      let first := c.(chunk_first_sample_index) in
      if match p.(pk_expected_chunk_sample_index) with
         | Some next => negb (first =? next) | None => false end
      then (Err InvalidConfiguration, p)
      else
        match checked_add u64_max first (frame_count c) with
        | None => (Err InvalidConfiguration, p)
        | Some next_sample_index =>
            let p := if bool_decide (p.(pk_carry) = []) then set_carry_start (Some first) p else p in
            let p := set_carry (p.(pk_carry) ++ c.(chunk_frames)) p in
            let '(full, p) := emit_full_packets (length p.(pk_carry)) p in
            let '(padded, p) := if c.(chunk_end_of_stream) then flush_carry p else ([], p) in
            let finished := p.(pk_finished) || c.(chunk_end_of_stream) in
            (Ok (mkPacketizeOutcome (map FAudio (full ++ padded)) c.(chunk_end_of_stream)),
             set_finished finished (Some next_sample_index) p)
        end
  end.

Definition push_contiguous_chunk (c : DecodedPcmChunk) (p : Packetizer) :
  result PacketizeOutcome PacketizerErrorKind * Packetizer :=
  match validate_chunk c p with
  | Err e => (Err e, p)
  | Ok _ =>
      match checked_add u64_max p.(pk_contiguous_sample_cursor) (frame_count c) with
      | None => (Err InvalidConfiguration, p)
      | Some next_cursor =>
          let c := mkDecodedPcmChunk c.(chunk_format) p.(pk_contiguous_sample_cursor)
                     c.(chunk_frames) c.(chunk_end_of_stream) in
          match push_chunk c p with
          | (Err e, p) => (Err e, p)
          | (Ok outcome, p) => (Ok outcome, set_cursor next_cursor p)
          end
      end
  end.

(** ** Samples and bytes *)

Lemma i16_le_roundtrip (s : Z) :
  is_i16 s -> i16_from_le_bytes (s mod 256) (s / 256 mod 256) = s.
Proof.
  unfold is_i16, i16_from_le_bytes. intros H. cbv zeta.
  destruct (_ <? _) eqn:E; to_prop; Z.div_mod_to_equations; lia.
Qed.

Lemma decode_encode_samples (l : list Z) :
  Forall is_i16 l -> decode_payload_samples (encode_samples l) = l.
Proof.
  induction 1 as [|s l Hs Hl IH]; [done|]. cbn. fold (encode_samples l). rewrite IH.
  f_equal. by apply i16_le_roundtrip.
Qed.

Lemma encode_samples_u8 (l : list Z) : Forall is_u8 (encode_samples l).
Proof.
  induction l as [|s l IH]; [constructor|]. cbn.
  repeat constructor; try apply IH; unfold is_u8, is_uint; apply Z.mod_pos_bound; lia.
Qed.

Lemma encode_samples_length (l : list Z) : length (encode_samples l) = (2 * length l)%nat.
Proof. induction l as [|s l IH]; [done|]. cbn. fold (encode_samples l). rewrite IH. lia. Qed.

Lemma decode_length (n : nat) (payload : list Z) :
  length payload = (2 * n)%nat -> length (decode_payload_samples payload) = n.
Proof.
  revert payload. induction n as [|n IH]; intros payload H.
  - by destruct payload.
  - destruct payload as [|a [|b payload]]; cbn in *; try lia. rewrite IH; lia.
Qed.

(** The PCM carried by a list of datagrams. *)
Definition pcm_of (ds : list AudioDatagram) : list Z :=
  ds ≫= fun d => decode_payload_samples d.(audio_payload).

Lemma pcm_of_app (a b : list AudioDatagram) : pcm_of (a ++ b) = pcm_of a ++ pcm_of b.
Proof. apply bind_app. Qed.

(** ** The loop in closed form *)

(** Packet [i] of the packets waiting in the carry, whose first sample has
    index [start]. *)
Definition packet_at (p : Packetizer) (start : Z) (i : nat) : AudioDatagram :=
  mkAudioDatagram p.(pk_session_id) p.(pk_stream_id) (p.(pk_next_sequence) + Z.of_nat i) PcmS16Le
    p.(pk_format).(sample_rate_hz) p.(pk_format).(format_channels) p.(pk_samples_per_packet)
    (start + Z.of_nat i * p.(pk_samples_per_packet))
    (presentation_time_ms p (p.(pk_next_sequence) + Z.of_nat i))
    (encode_samples (take (full_packet p) (drop (i * full_packet p) p.(pk_carry)))).

(** The packetizer after [n] full packets. *)
Definition after_packets (p : Packetizer) (start : Z) (n : nat) : Packetizer :=
  mkPacketizer p.(pk_session_id) p.(pk_stream_id) p.(pk_format) p.(pk_samples_per_packet)
    p.(pk_host_start_time_ms) (p.(pk_next_sequence) + Z.of_nat n)
    (drop (n * full_packet p) p.(pk_carry))
    (Some (start + Z.of_nat n * p.(pk_samples_per_packet)))
    p.(pk_contiguous_sample_cursor) p.(pk_expected_chunk_sample_index) p.(pk_finished).

Lemma packet_at_shift (p : Packetizer) (start : Z) (i : nat) :
  packet_at (after_packets p start 1) (start + p.(pk_samples_per_packet)) i = packet_at p start (S i).
Proof.
  unfold packet_at, after_packets, presentation_time_ms, full_packet. cbn -[Z.of_nat Nat.mul Nat.add].
  rewrite drop_drop.
  replace (pk_next_sequence p + Z.of_nat 1 + Z.of_nat i) with (pk_next_sequence p + Z.of_nat (S i)) by lia.
  replace (start + pk_samples_per_packet p + Z.of_nat i * pk_samples_per_packet p)
    with (start + Z.of_nat (S i) * pk_samples_per_packet p) by nia.
  do 4 f_equal. lia.
Qed.

Lemma after_packets_shift (p : Packetizer) (start : Z) (n : nat) :
  after_packets (after_packets p start 1) (start + p.(pk_samples_per_packet)) n
  = after_packets p start (S n).
Proof.
  unfold after_packets, full_packet. cbn -[Z.of_nat Nat.mul Nat.add]. rewrite drop_drop.
  f_equal; [lia|f_equal; lia|f_equal; nia].
Qed.

Lemma after_packets_0 (p : Packetizer) (start : Z) :
  p.(pk_carry_first_sample_index) = Some start -> after_packets p start 0 = p.
Proof.
  intros H. unfold after_packets. cbn. rewrite !Z.add_0_r. destruct p; cbn in *. by subst.
Qed.

(** One iteration of the loop emits packet 0. *)
Lemma emit_iteration (p : Packetizer) (start : Z) :
  p.(pk_carry_first_sample_index) = Some start ->
  0 <= p.(pk_next_sequence) -> p.(pk_next_sequence) + 1 < 2 ^ 64 ->
  0 <= start + p.(pk_samples_per_packet) < 2 ^ 64 ->
  let '(d, p1) := build_datagram (take (full_packet p) p.(pk_carry))
                    (set_carry (drop (full_packet p) p.(pk_carry)) p) in
  (d, advance_carry_start p1.(pk_samples_per_packet) p1)
  = (packet_at p start 0, after_packets p start 1).
Proof.
  intros Hst Hn0 Hn Hs. cbn. unfold advance_carry_start, packet_at, after_packets. cbn.
  rewrite Hst. unfold wrapping_add. rewrite !wrap_small by lia.
  rewrite Nat.add_0_r, !Z.add_0_r. f_equal. f_equal. f_equal. lia.
Qed.

Lemma emit_full_packets_closed (fuel : nat) (p : Packetizer) (start : Z) :
  let n := (length p.(pk_carry) / full_packet p)%nat in
  (0 < full_packet p)%nat -> (length p.(pk_carry) <= fuel)%nat ->
  p.(pk_carry_first_sample_index) = Some start ->
  0 <= p.(pk_next_sequence) -> p.(pk_next_sequence) + Z.of_nat n < 2 ^ 64 ->
  0 <= start -> 0 <= p.(pk_samples_per_packet) ->
  start + Z.of_nat n * p.(pk_samples_per_packet) < 2 ^ 64 ->
  emit_full_packets fuel p = (map (packet_at p start) (seq 0 n), after_packets p start n).
Proof.
  cbv zeta. revert p start. induction fuel as [|fuel IH]; intros p start Hf Hlen Hst Hn0 Hn Hs0 Hspp Hs.
  - assert (p.(pk_carry) = []) as Hc by (by apply length_zero_iff_nil, Nat.le_0_r).
    rewrite Hc. cbn [length]. rewrite Nat.Div0.div_0_l. cbn [emit_full_packets seq map].
    by rewrite after_packets_0.
  - cbn [emit_full_packets]. destruct (Nat.leb _ _) eqn:E.
    + apply Nat.leb_le in E. set (full := full_packet p) in *.
      set (m := ((length p.(pk_carry) - full) / full)%nat).
      assert (length p.(pk_carry) / full = S m)%nat as Em.
      { subst m. replace (length (pk_carry p)) with (1 * full + (length (pk_carry p) - full))%nat at 1 by lia.
        rewrite Nat.div_add_l by lia. lia. }
      rewrite Em in *. pose proof (emit_iteration p start Hst Hn0 ltac:(lia) ltac:(nia)) as Hit.
      fold full in Hit. destruct (build_datagram _ _) as [d p1].
      apply pair_equal_spec in Hit as [-> Hp1]. rewrite Hp1. clear p1 Hp1.
      assert (length (after_packets p start 1).(pk_carry) = length p.(pk_carry) - full)%nat as Hl
        by (cbn; rewrite length_drop; fold full; lia).
      assert (length (after_packets p start 1).(pk_carry) / full_packet (after_packets p start 1) = m)%nat
        as Hm by (by rewrite Hl).
      rewrite (IH (after_packets p start 1) (start + p.(pk_samples_per_packet))); rewrite ?Hm, ?Hl;
        try done; cbn -[Z.of_nat]; try lia; try nia.
      * cbn [seq map]. rewrite <- seq_shift, map_map, (map_ext _ _ (packet_at_shift p start)).
        by rewrite after_packets_shift.
      * do 2 f_equal. lia.
    + apply Nat.leb_gt in E. rewrite Nat.div_small by done. cbn [seq map]. by rewrite after_packets_0.
Qed.

(** ** Invariant *)

(** Frames of PCM waiting in the carry. *)
Definition carry_frames (p : Packetizer) : Z :=
  len p.(pk_carry) / samples_per_frame p.(pk_format).

(** The carry is shorter than one packet and holds whole frames; the sample
    timeline is consistent: the packets sent and the frames carried do not
    exceed the next expected sample index, and the carry ends there. *)
Record pk_ok (p : Packetizer) : Prop := {
pk_rate : 0 < p.(pk_format).(sample_rate_hz);
pk_channels : 0 < p.(pk_format).(format_channels);
pk_spp : 0 < p.(pk_samples_per_packet);
pk_seq : 0 <= p.(pk_next_sequence);
pk_carry_i16 : Forall is_i16 p.(pk_carry);
pk_carry_len : (length p.(pk_carry) < full_packet p)%nat;
pk_carry_whole : len p.(pk_carry) mod p.(pk_format).(format_channels) = 0;
pk_timeline :
  match p.(pk_expected_chunk_sample_index) with
  | None => p.(pk_carry) = [] /\ p.(pk_next_sequence) = 0
  | Some e =>
      0 <= e <= u64_max
      /\ (p.(pk_finished) = false ->
          p.(pk_next_sequence) * p.(pk_samples_per_packet) + carry_frames p <= e)
      /\ (p.(pk_carry) <> [] -> p.(pk_carry_first_sample_index) = Some (e - carry_frames p))
  end
}.

Lemma packet_samples_pos (rate duration : Z) :
  0 <= rate -> 0 <= duration -> packet_samples rate duration <> 0 ->
  0 < rate /\ 0 < packet_samples rate duration.
Proof.
  intros Hr Hd Hne. split.
  - destruct (Z.eq_dec rate 0) as [->|]; [|lia]. destruct Hne. by unfold packet_samples.
  - revert Hne. unfold packet_samples, try_from_or_max.
    assert (0 <= rate * duration / 1000) by (apply Z.div_pos; nia).
    unfold u32_max. destruct (_ <=? _); lia.
Qed.

Lemma Packetizer_new_ok {t : target} (session stream : rstr) (format : AudioFormat)
  (duration start : Z) (p : Packetizer) :
  is_u32 format.(sample_rate_hz) -> is_u16 format.(format_channels) ->
  Packetizer_new session stream format duration start = Ok p -> pk_ok p.
Proof.
  intros Hr Hc. unfold Packetizer_new. destruct (negb _) eqn:Ed; [done|].
  destruct (_ =? 0) eqn:Ec; [done|]. destruct (packet_samples _ _ =? 0) eqn:Es; [done|].
  destruct (ok_or _ _); [|done]. destruct (ok_or _ _) in |- *; [|done]. destruct (_ <? _); [done|].
  intros [= <-]. to_prop. apply in_range_iff in Ed. unfold MIN_PACKET_DURATION_MS in Ed.
  unfold is_u32, is_u16, is_uint, samples_per_frame in *.
  destruct (packet_samples_pos (sample_rate_hz format) duration) as [Hrate Hspp]; [lia|lia|done|].
  set (spp := packet_samples _ _) in *. clearbody spp. split.
  - done.
  - cbn [pk_format]. lia.
  - done.
  - done.
  - constructor.
  - unfold full_packet, samples_per_frame. cbn [pk_samples_per_packet pk_format pk_carry length]. nia.
  - cbn [pk_carry pk_format]. change (len []) with 0. apply Z.mod_0_l. lia.
  - done.
Qed.

(** The chunk values the decoder's types guarantee. *)
Definition chunk_typed (c : DecodedPcmChunk) : Prop :=
  0 <= c.(chunk_first_sample_index) /\ Forall is_i16 c.(chunk_frames).

(** The first sample index of the joined carry. *)
Definition joined_start (c : DecodedPcmChunk) (p : Packetizer) : Z :=
  c.(chunk_first_sample_index) - carry_frames p.

(** The packetizer with the chunk appended to its carry. *)
Definition joined (c : DecodedPcmChunk) (p : Packetizer) : Packetizer :=
  mkPacketizer p.(pk_session_id) p.(pk_stream_id) p.(pk_format) p.(pk_samples_per_packet)
    p.(pk_host_start_time_ms) p.(pk_next_sequence) (p.(pk_carry) ++ c.(chunk_frames))
    (Some (joined_start c p))
    p.(pk_contiguous_sample_cursor) p.(pk_expected_chunk_sample_index) p.(pk_finished).

Definition packet_count (c : DecodedPcmChunk) (p : Packetizer) : nat :=
  (length (p.(pk_carry) ++ c.(chunk_frames)) / full_packet p)%nat.

Lemma div_whole (a b c : Z) : 0 < c -> a mod c = 0 -> b mod c = 0 -> (a + b) / c = a / c + b / c.
Proof. intros Hc Ha Hb. Z.div_mod_to_equations. nia. Qed.

Lemma div_sub_mul (a b c : Z) : 0 < c -> (a - b * c) / c = a / c - b.
Proof. intros Hc. replace (a - b * c) with (a + - b * c) by ring. rewrite Z.div_add by lia. lia. Qed.

Lemma full_packet_Z (p : Packetizer) :
  pk_ok p -> Z.of_nat (full_packet p) = p.(pk_samples_per_packet) * p.(pk_format).(format_channels).
Proof. intros []. unfold full_packet, samples_per_frame. nia. Qed.

(** What a successful [push_chunk] computes, in closed form. *)
Lemma push_chunk_inv (c : DecodedPcmChunk) (p p' : Packetizer) (out : PacketizeOutcome) :
  pk_ok p -> chunk_typed c -> push_chunk c p = (Ok out, p') ->
  let q := joined c p in
  let n := packet_count c p in
  let start := joined_start c p in
  let e := c.(chunk_first_sample_index) + frame_count c in
  let r := if c.(chunk_end_of_stream) then flush_carry (after_packets q start n)
           else ([], after_packets q start n) in
  out = mkPacketizeOutcome (map FAudio (map (packet_at q start) (seq 0 n) ++ r.1)) c.(chunk_end_of_stream)
  /\ p' = set_finished (r.2.(pk_finished) || c.(chunk_end_of_stream)) (Some e) r.2
  /\ p.(pk_finished) = false /\ c.(chunk_format) = p.(pk_format)
  /\ len c.(chunk_frames) mod p.(pk_format).(format_channels) = 0
  /\ 0 <= e <= u64_max /\ 0 <= start
  /\ start + (len p.(pk_carry) + len c.(chunk_frames)) / p.(pk_format).(format_channels) = e
  /\ p.(pk_next_sequence) * p.(pk_samples_per_packet) <= start
  /\ (Z.of_nat n * p.(pk_samples_per_packet)
      <= (len p.(pk_carry) + len c.(chunk_frames)) / p.(pk_format).(format_channels)).
Proof.
  intros Hp [Hf Hfr] H q n start e r. pose proof Hp as []. unfold push_chunk in H.
  destruct (validate_chunk c p) as [[]|] eqn:Ev; [|done]. unfold validate_chunk in Ev.
  destruct (pk_finished p) eqn:Efin; [done|]. destruct (negb (bool_decide _)) eqn:Efmt; [done|].
  destruct (negb (_ =? 0)) eqn:Ewhole; [done|]. to_prop.
  destruct (match pk_expected_chunk_sample_index p with Some _ => _ | None => _ end) eqn:Eexp; [done|].
  unfold checked_add in H. fold e in H. destruct (e <=? u64_max) eqn:Ee; [|done]. to_prop.
  unfold samples_per_frame in *.
  assert (frame_count c = len c.(chunk_frames) / p.(pk_format).(format_channels)) as Efc
    by (unfold frame_count; by rewrite Efmt).
  assert (0 <= frame_count c) by (rewrite Efc; apply Z.div_pos; [apply len_nonneg|done]).
  assert (0 <= carry_frames p) by (apply Z.div_pos; [apply len_nonneg|done]).
  assert (start + (len p.(pk_carry) + len c.(chunk_frames)) / p.(pk_format).(format_channels) = e) as Hstart.
  { rewrite div_whole by done. subst start e. unfold joined_start, carry_frames, samples_per_frame. lia. }
  assert (p.(pk_next_sequence) * p.(pk_samples_per_packet) <= start
          /\ (p.(pk_carry) <> [] -> p.(pk_carry_first_sample_index) = Some start)) as [Hseq Hfirst].
  { subst start. unfold joined_start. destruct (pk_expected_chunk_sample_index p) as [x|].
    - to_prop. subst x. destruct pk_timeline0 as (_ & Hle & Hsome). specialize (Hle eq_refl).
      split; [lia|done].
    - destruct pk_timeline0 as [Hc Hn]. unfold carry_frames, samples_per_frame.
      rewrite Hc, Hn, (len_nil (A := Z)), Z.div_0_l by lia.
      split; [lia|done]. }
  assert (0 <= start) as Hs0 by nia.
  assert (Z.of_nat n * p.(pk_samples_per_packet)
          <= (len p.(pk_carry) + len c.(chunk_frames)) / p.(pk_format).(format_channels)) as Hnle.
  { apply Z.div_le_lower_bound; [lia|]. subst n. unfold packet_count.
    pose proof (Nat.Div0.mul_div_le (length (pk_carry p ++ chunk_frames c)) (full_packet p)) as Hm.
    apply Nat2Z.inj_le in Hm. rewrite Nat2Z.inj_mul in Hm. rewrite length_app in *.
    rewrite full_packet_Z in Hm by done. unfold len. nia. }
  set (p1 := set_carry _ _) in H.
  assert (p1 = q) as E1.
  { subst p1 q. unfold joined. fold start. destruct (bool_decide (pk_carry p = [])) eqn:Eb; to_prop.
    - unfold set_carry, set_carry_start. cbn. do 2 f_equal. subst start. unfold joined_start, carry_frames, samples_per_frame.
      rewrite Eb, (len_nil (A := Z)), Z.div_0_l by lia. lia.
    - unfold set_carry. by rewrite (Hfirst Eb). }
  rewrite E1 in H. clear p1 E1.
  rewrite (emit_full_packets_closed _ q start) in H; try done.
  - change (length (pk_carry q) / full_packet q)%nat with n in H. fold r in H.
    destruct r as [padded p2]. injection H as <- <-. split_and!; try done. lia.
  - change (full_packet q) with (full_packet p). lia.
  - change (length (pk_carry q) / full_packet q)%nat with n.
    change (pk_next_sequence q) with (pk_next_sequence p). unfold u64_max in *. nia.
  - change (pk_samples_per_packet q) with (pk_samples_per_packet p). lia.
  - change (length (pk_carry q) / full_packet q)%nat with n.
    change (pk_samples_per_packet q) with (pk_samples_per_packet p). unfold u64_max in *. lia.
Qed.

(** ** One chunk *)

Lemma pcm_of_packets (q : Packetizer) (start : Z) (n : nat) :
  Forall is_i16 q.(pk_carry) ->
  pcm_of (map (packet_at q start) (seq 0 n)) = take (n * full_packet q) q.(pk_carry).
Proof.
  intros Hi. induction n as [|n IH]; [done|].
  rewrite seq_S, map_app, pcm_of_app, IH. cbn [map pcm_of mbind list_bind app].
  unfold packet_at. cbn [audio_payload]. rewrite app_nil_r, decode_encode_samples.
  - rewrite take_take_drop. f_equal. lia.
  - by apply Forall_take, Forall_drop.
Qed.

(** What the padded last packet holds. *)
Lemma flush_carry_facts (p : Packetizer) :
  Forall is_i16 p.(pk_carry) -> (length p.(pk_carry) < full_packet p)%nat ->
  exists pad, pcm_of (flush_carry p).1 = p.(pk_carry) ++ replicate pad 0
    /\ (pad < full_packet p)%nat
    /\ (length (flush_carry p).1 <= 1)%nat
    /\ (length p.(pk_carry) + pad = length (flush_carry p).1 * full_packet p)%nat
    /\ (flush_carry p).2.(pk_carry) = []
    /\ (forall d, In d (flush_carry p).1 ->
          d = mkAudioDatagram p.(pk_session_id) p.(pk_stream_id) p.(pk_next_sequence) PcmS16Le
                p.(pk_format).(sample_rate_hz) p.(pk_format).(format_channels)
                p.(pk_samples_per_packet)
                (match p.(pk_carry_first_sample_index) with Some i => i | None => 0 end)
                (presentation_time_ms p p.(pk_next_sequence)) (encode_samples (resize (full_packet p) p.(pk_carry)))).
Proof.
  intros Hi Hl. unfold flush_carry. destruct (pk_carry p) as [|x l] eqn:Ec.
  - exists 0%nat. cbn. split_and!; try done; lia.
  - exists (full_packet p - length (x :: l))%nat. cbn [fst snd build_datagram pcm_of mbind list_bind].
    assert (resize (full_packet p) (x :: l) = (x :: l) ++ replicate (full_packet p - length (x :: l)) 0) as Hr
      by (unfold resize; by rewrite take_ge by lia).
    change (full_packet (set_carry [] p)) with (full_packet p).
    split_and!; try done.
    + cbn [audio_payload]. rewrite app_nil_r, decode_encode_samples; [done|]. rewrite Hr.
      apply Forall_app. split; [done|]. apply Forall_replicate. unfold is_i16. lia.
    + cbn [length] in *. lia.
    + cbn [length] in *. lia.
    + intros d [<-|[]]. done.
Qed.

Section Push.
Context (c : DecodedPcmChunk) (p p' : Packetizer) (out : PacketizeOutcome).
Context (Hp : pk_ok p) (Hc : chunk_typed c) (Hpush : push_chunk c p = (Ok out, p')).

Definition pushed_packets : list AudioDatagram :=
  map (packet_at (joined c p) (joined_start c p)) (seq 0 (packet_count c p)).

Lemma joined_i16 : Forall is_i16 (joined c p).(pk_carry).
Proof. apply Forall_app. split; [apply Hp|apply Hc]. Qed.

Lemma leftover_length :
  (length (drop (packet_count c p * full_packet p) (p.(pk_carry) ++ c.(chunk_frames)))
   < full_packet p)%nat.
Proof.
  rewrite length_drop. unfold packet_count. set (m := length (pk_carry p ++ chunk_frames c)).
  pose proof (full_packet_Z p Hp). destruct Hp.
  assert (full_packet p <> 0)%nat as Hf by nia.
  pose proof (Nat.div_mod m (full_packet p) Hf). pose proof (Nat.mod_upper_bound m (full_packet p) Hf).
  lia.
Qed.

Lemma leftover_whole :
  len c.(chunk_frames) mod p.(pk_format).(format_channels) = 0 ->
  len (drop (packet_count c p * full_packet p) (p.(pk_carry) ++ c.(chunk_frames)))
    = len p.(pk_carry) + len c.(chunk_frames)
      - Z.of_nat (packet_count c p) * p.(pk_samples_per_packet) * p.(pk_format).(format_channels)
  /\ len (drop (packet_count c p * full_packet p) (p.(pk_carry) ++ c.(chunk_frames)))
       mod p.(pk_format).(format_channels) = 0.
Proof.
  intros Hw. pose proof (full_packet_Z p Hp) as Hfz. pose proof Hp as [].
  assert (packet_count c p * full_packet p <= length (pk_carry p ++ chunk_frames c))%nat as Hle.
  { unfold packet_count. rewrite Nat.mul_comm. apply Nat.Div0.mul_div_le. }
  assert (len (drop (packet_count c p * full_packet p) (p.(pk_carry) ++ c.(chunk_frames)))
    = len p.(pk_carry) + len c.(chunk_frames)
      - Z.of_nat (packet_count c p) * p.(pk_samples_per_packet) * p.(pk_format).(format_channels)) as E.
  { unfold len. rewrite length_drop, Nat2Z.inj_sub, Nat2Z.inj_mul, Hfz, length_app, Nat2Z.inj_add by done.
    ring. }
  split; [done|]. rewrite E.
  rewrite Zminus_mod, Z_mod_mult, Z.sub_0_r, Z.mod_mod by lia.
  rewrite Z.add_mod, Hw, pk_carry_whole0 by lia. apply Z.mod_0_l. lia.
Qed.

Lemma push_chunk_ok : pk_ok p'.
Proof.
  destruct (push_chunk_inv c p p' out Hp Hc Hpush)
    as (_ & -> & Hfin & Hfmt & Hw & He & Hs & Hse & Hseq & Hn).
  destruct (leftover_whole Hw) as [Hll Hlw]. pose proof leftover_length as Hlt.
  pose proof joined_i16 as Hi. pose proof Hp as [].
  set (q := after_packets (joined c p) (joined_start c p) (packet_count c p)).
  assert (Forall is_i16 q.(pk_carry)) as Hqi by (by apply Forall_drop).
  assert (full_packet q = full_packet p) as Hqf by done.
  destruct (chunk_end_of_stream c).
  - destruct (flush_carry_facts q Hqi) as (pad & _ & _ & _ & _ & Hnil & _); [done|].
    assert (pk_format (flush_carry q).2 = pk_format p
            /\ pk_samples_per_packet (flush_carry q).2 = pk_samples_per_packet p
            /\ 0 <= pk_next_sequence (flush_carry q).2) as (Hf & Hsp & Hsq).
    { unfold flush_carry. destruct (pk_carry q); cbn; split_and!; try done; [lia|].
      apply Z.mod_pos_bound. lia. }
    split; cbn [set_finished pk_format pk_samples_per_packet pk_next_sequence pk_carry
      pk_expected_chunk_sample_index pk_finished]; rewrite ?Hf, ?Hsp, ?Hnil; try done.
    + unfold full_packet, samples_per_frame in *.
      cbn [set_finished pk_format pk_samples_per_packet]. rewrite Hf, Hsp. cbn [length]. nia.
    + split_and!; [lia|lia| |done]. rewrite orb_true_r. done.
  - cbn [snd]. split; try done.
    + cbn. lia.
    + cbn [set_finished pk_expected_chunk_sample_index]. split_and!; [lia|lia| |].
      * intros _. unfold carry_frames, samples_per_frame. cbn [set_finished pk_next_sequence pk_samples_per_packet
          pk_carry pk_format q after_packets joined]. change (full_packet (joined c p)) with (full_packet p).
        rewrite Hll, div_sub_mul by done. nia.
      * intros _. unfold carry_frames, samples_per_frame. cbn [set_finished pk_carry_first_sample_index
          pk_carry pk_format q after_packets joined pk_samples_per_packet].
        change (full_packet (joined c p)) with (full_packet p). rewrite Hll, div_sub_mul by done.
        f_equal. lia.
Qed.
End Push.

(** The datagram of slot [i] of a push: the fields that do not depend on the audio. *)
Definition numbered (p : Packetizer) (start : Z) (i : nat) (d : AudioDatagram) : Prop :=
  d.(audio_session_id) = p.(pk_session_id) /\ d.(audio_stream_id) = p.(pk_stream_id)
  /\ d.(audio_sequence) = p.(pk_next_sequence) + Z.of_nat i
  /\ d.(audio_first_sample_index) = start + Z.of_nat i * p.(pk_samples_per_packet)
  /\ d.(audio_host_presentation_time_ms) = presentation_time_ms p d.(audio_sequence)
  /\ d.(audio_sample_rate) = p.(pk_format).(sample_rate_hz)
  /\ d.(audio_channels) = p.(pk_format).(format_channels)
  /\ d.(audio_samples_per_packet) = p.(pk_samples_per_packet)
  /\ length d.(audio_payload) = (2 * full_packet p)%nat /\ Forall is_u8 d.(audio_payload).

Lemma pcm_of_length (p : Packetizer) (start : Z) (ds : list AudioDatagram) :
  (forall i d, ds !! i = Some d -> numbered p start i d) ->
  len (pcm_of ds) = Z.of_nat (length ds) * Z.of_nat (full_packet p).
Proof.
  intros Hnum.
  assert (forall d, In d ds -> length (decode_payload_samples d.(audio_payload)) = full_packet p) as Hd.
  { intros d Hd. apply list_elem_of_In, list_elem_of_lookup_1 in Hd as [i Hd].
    destruct (Hnum i d Hd) as (_ & _ & _ & _ & _ & _ & _ & _ & Hl & _). by apply decode_length. }
  clear Hnum. induction ds as [|d ds IH]; [done|].
  unfold pcm_of in *. cbn [mbind list_bind]. rewrite len_app, IH by (intros x Hx; apply Hd; by right).
  unfold len at 1. rewrite Hd by (by left). cbn [length]. lia.
Qed.

Record push_facts (c : DecodedPcmChunk) (p p' : Packetizer) (out : PacketizeOutcome)
  (ds : list AudioDatagram) (pad : nat) : Prop := {
pf_frames : out = mkPacketizeOutcome (map FAudio ds) c.(chunk_end_of_stream);
pf_pcm : pcm_of ds ++ p'.(pk_carry) = p.(pk_carry) ++ c.(chunk_frames) ++ replicate pad 0;
pf_pad : (pad < full_packet p)%nat /\ (c.(chunk_end_of_stream) = false -> pad = 0%nat);
pf_flushed : c.(chunk_end_of_stream) = true -> p'.(pk_carry) = [];
pf_numbered : forall i d, ds !! i = Some d -> numbered p (joined_start c p) i d;
pf_next : c.(chunk_end_of_stream) = false ->
  p'.(pk_next_sequence) = p.(pk_next_sequence) + Z.of_nat (length ds);
pf_finished : p'.(pk_finished) = c.(chunk_end_of_stream);
pf_expected : p'.(pk_expected_chunk_sample_index)
  = Some (c.(chunk_first_sample_index) + frame_count c);
pf_same : p'.(pk_session_id) = p.(pk_session_id) /\ p'.(pk_stream_id) = p.(pk_stream_id)
  /\ p'.(pk_format) = p.(pk_format) /\ p'.(pk_samples_per_packet) = p.(pk_samples_per_packet)
  /\ p'.(pk_host_start_time_ms) = p.(pk_host_start_time_ms)
  /\ p'.(pk_contiguous_sample_cursor) = p.(pk_contiguous_sample_cursor)
}.

Lemma resize_length (n : nat) (l : list Z) : length (resize n l) = n.
Proof. unfold resize. rewrite length_app, length_take, length_replicate. lia. Qed.

Lemma packet_at_numbered (c : DecodedPcmChunk) (p : Packetizer) (i : nat) :
  (i < packet_count c p)%nat ->
  numbered p (joined_start c p) i (packet_at (joined c p) (joined_start c p) i).
Proof.
  intros Hi. unfold numbered, packet_at. cbn [audio_session_id audio_stream_id audio_sequence
    audio_first_sample_index audio_host_presentation_time_ms audio_sample_rate audio_channels
    audio_samples_per_packet audio_payload].
  split_and!; try done; [|apply encode_samples_u8].
  rewrite encode_samples_length, length_take, length_drop.
  change (full_packet (joined c p)) with (full_packet p). cbn [joined pk_carry].
  unfold packet_count in Hi. set (m := length (pk_carry p ++ chunk_frames c)) in *.
  assert (full_packet p * (m / full_packet p) <= m)%nat by apply Nat.Div0.mul_div_le.
  assert (S i * full_packet p <= m)%nat by nia. lia.
Qed.

Lemma push_chunk_facts (c : DecodedPcmChunk) (p p' : Packetizer) (out : PacketizeOutcome) :
  pk_ok p -> chunk_typed c -> push_chunk c p = (Ok out, p') ->
  exists ds pad, push_facts c p p' out ds pad.
Proof.
  intros Hp Hc Hpush. pose proof (joined_i16 c p Hp Hc) as Hi. pose proof (leftover_length c p Hp) as Hlt.
  destruct (push_chunk_inv c p p' out Hp Hc Hpush) as (-> & -> & Hfin & _).
  set (n := packet_count c p) in *. set (start := joined_start c p) in *.
  set (q := after_packets (joined c p) start n).
  set (ds0 := map (packet_at (joined c p) start) (seq 0 n)).
  assert (pcm_of ds0 ++ q.(pk_carry) = p.(pk_carry) ++ c.(chunk_frames)) as Hpcm.
  { subst ds0. rewrite pcm_of_packets by done. apply take_drop. }
  assert (length ds0 = n) as Hlen by (subst ds0; by rewrite length_map, length_seq).
  assert (forall i d, ds0 !! i = Some d -> numbered p start i d) as Hnum.
  { intros i d Hd. pose proof (lookup_lt_Some _ _ _ Hd) as Hlt'. rewrite Hlen in Hlt'.
    subst ds0. rewrite list_lookup_fmap, lookup_seq_lt in Hd by done. injection Hd as <-.
    by apply packet_at_numbered. }
  destruct (chunk_end_of_stream c) eqn:Eeos.
  - destruct (flush_carry_facts q) as (pad & Hfp & Hpad & Hfl & _ & Hnil & Hfd);
      [by apply Forall_drop|done|].
    exists (ds0 ++ (flush_carry q).1), pad. split; rewrite ?Eeos; try done.
    + cbn [set_finished pk_carry]. rewrite pcm_of_app, Hfp, Hnil, app_nil_r, !app_assoc. by rewrite Hpcm.
    + intros i d Hd. apply lookup_app_Some in Hd as [Hd|[Hge Hd]]; [by apply Hnum|].
      assert (i = n) as ->.
      { apply lookup_lt_Some in Hd. lia. }
      apply list_elem_of_lookup_2 in Hd. apply list_elem_of_In, Hfd in Hd. subst d.
      split_and!; try done; cbn [audio_payload]; [|apply encode_samples_u8].
      by rewrite encode_samples_length, resize_length.
    + cbn [set_finished pk_finished]. by rewrite orb_true_r.
    + unfold flush_carry. by destruct (pk_carry q).
  - exists ds0, 0%nat. split; rewrite ?Eeos; cbn [fst snd set_finished pk_carry pk_next_sequence pk_finished]; try done.
    + by rewrite app_nil_r.
    + by rewrite Hpcm, app_nil_r.
    + split; [lia|done].
    + intros _. cbn [q after_packets pk_next_sequence joined]. by rewrite Hlen.
    + cbn [q after_packets pk_finished joined]. by rewrite Hfin.
Qed.

(** ** Whole tracks *)

(** The host's loop over the chunks of a playlist: one continuous stream. *)
Fixpoint push_track (chunks : list DecodedPcmChunk) (p : Packetizer) :
  result (list ProtocolFrame) PacketizerErrorKind * Packetizer :=
  match chunks with
  | [] => (Ok [], p)
  | c :: chunks =>
      match push_contiguous_chunk c p with
      | (Err e, p) => (Err e, p)
      | (Ok out, p) =>
          match push_track chunks p with
          | (Err e, p) => (Err e, p)
          | (Ok frames, p) => (Ok (out.(outcome_frames) ++ frames), p)
          end
      end
  end.

(** A packetizer in the middle of a continuous stream: the cursor counts the
    frames sent and carried. *)
Record contiguous (p : Packetizer) : Prop := {
ct_ok : pk_ok p;
ct_open : p.(pk_finished) = false;
ct_cursor : p.(pk_contiguous_sample_cursor)
  = p.(pk_next_sequence) * p.(pk_samples_per_packet) + carry_frames p;
ct_expected : p.(pk_expected_chunk_sample_index) = None
  \/ p.(pk_expected_chunk_sample_index) = Some p.(pk_contiguous_sample_cursor)
}.

(** A chunk this packetizer accepts in format. *)
Definition chunk_fits (p : Packetizer) (c : DecodedPcmChunk) : Prop :=
  c.(chunk_format) = p.(pk_format) /\ Forall is_i16 c.(chunk_frames)
  /\ len c.(chunk_frames) mod p.(pk_format).(format_channels) = 0.

Lemma frame_count_nonneg (p : Packetizer) (c : DecodedPcmChunk) :
  pk_ok p -> chunk_fits p c -> 0 <= frame_count c.
Proof.
  intros [] (Hf & _). unfold frame_count, samples_per_frame. rewrite Hf.
  apply Z.div_pos; [apply len_nonneg|done].
Qed.

Lemma contiguous_cursor_nonneg (p : Packetizer) : contiguous p -> 0 <= p.(pk_contiguous_sample_cursor).
Proof.
  intros [Hp _ -> _]. pose proof Hp as []. unfold carry_frames, samples_per_frame.
  assert (0 <= len p.(pk_carry) / p.(pk_format).(format_channels))
    by (apply Z.div_pos; [apply len_nonneg|done]). nia.
Qed.

Lemma push_contiguous_facts (c : DecodedPcmChunk) (p : Packetizer) :
  contiguous p -> chunk_fits p c ->
  p.(pk_contiguous_sample_cursor) + frame_count c <= u64_max ->
  exists ds pad p',
    push_contiguous_chunk c p
      = (Ok (mkPacketizeOutcome (map FAudio ds) c.(chunk_end_of_stream)), p')
    /\ pcm_of ds ++ p'.(pk_carry) = p.(pk_carry) ++ c.(chunk_frames) ++ replicate pad 0
    /\ (pad < full_packet p)%nat /\ (c.(chunk_end_of_stream) = false -> pad = 0%nat)
    /\ (c.(chunk_end_of_stream) = true -> p'.(pk_carry) = [])
    /\ p'.(pk_finished) = c.(chunk_end_of_stream)
    /\ (forall i d, ds !! i = Some d ->
          numbered p (p.(pk_next_sequence) * p.(pk_samples_per_packet)) i d)
    /\ (c.(chunk_end_of_stream) = false ->
        contiguous p' /\ p'.(pk_next_sequence) = p.(pk_next_sequence) + Z.of_nat (length ds)
        /\ p'.(pk_contiguous_sample_cursor) = p.(pk_contiguous_sample_cursor) + frame_count c
        /\ p'.(pk_session_id) = p.(pk_session_id) /\ p'.(pk_stream_id) = p.(pk_stream_id)
        /\ p'.(pk_format) = p.(pk_format) /\ p'.(pk_samples_per_packet) = p.(pk_samples_per_packet)
        /\ p'.(pk_host_start_time_ms) = p.(pk_host_start_time_ms)).
Proof.
  intros Hct Hfit Hmax. pose proof Hct as [Hp Hopen Hcur Hexp]. pose proof Hfit as (Hf & Hi & Hw).
  pose proof (frame_count_nonneg p c Hp Hfit). pose proof (contiguous_cursor_nonneg p Hct) as Hc0.
  set (c' := mkDecodedPcmChunk c.(chunk_format) p.(pk_contiguous_sample_cursor) c.(chunk_frames)
               c.(chunk_end_of_stream)).
  assert (validate_chunk c p = Ok tt) as Hv.
  { unfold validate_chunk, samples_per_frame. rewrite Hopen, bool_decide_eq_true_2, Hw by done. done. }
  assert (exists out p', push_chunk c' p = (Ok out, p')) as (out & p' & Hpush).
  { unfold push_chunk. change (validate_chunk c' p) with (validate_chunk c p). rewrite Hv.
    unfold checked_add. change (frame_count c') with (frame_count c). cbn [chunk_first_sample_index c'].
    rewrite (proj2 (Z.leb_le _ _)) by lia.
    destruct Hexp as [-> | ->]; [|rewrite Z.eqb_refl; cbn [negb]];
      destruct (emit_full_packets _ _); destruct (if chunk_end_of_stream c' then _ else _); eauto. }
  assert (chunk_typed c') as Hty by done.
  destruct (push_chunk_facts c' p p' out Hp Hty Hpush) as (ds & pad & Hfacts).
  pose proof (push_chunk_ok c' p p' out Hp Hty Hpush) as Hok'.
  destruct Hfacts as [-> Hpcm [Hpad Hpad0] Hfl Hnum Hnext Hfin Hexp' (Hs1 & Hs2 & Hs3 & Hs4 & Hs5 & Hs6)].
  assert (joined_start c' p = p.(pk_next_sequence) * p.(pk_samples_per_packet)) as Hst
    by (unfold joined_start; cbn [chunk_first_sample_index c']; lia).
  rewrite Hst in Hnum.
  exists ds, pad, (set_cursor (p.(pk_contiguous_sample_cursor) + frame_count c) p').
  split_and!; try done.
  - unfold push_contiguous_chunk. rewrite Hv. unfold checked_add.
    rewrite (proj2 (Z.leb_le _ _)) by lia. fold c'. by rewrite Hpush.
  - intros He. specialize (Hnext He). specialize (Hpad0 He). subst pad. split_and!; try done.
    split; [|by rewrite <- He| |by right].
    + destruct Hok'. by split.
    + cbn [set_cursor pk_contiguous_sample_cursor pk_next_sequence pk_samples_per_packet].
      rewrite Hnext, Hs4, Hcur. unfold carry_frames. cbn [set_cursor pk_carry pk_format]. rewrite Hs3.
      assert (len p'.(pk_carry) = len p.(pk_carry) + len c.(chunk_frames)
              - Z.of_nat (length ds) * p.(pk_samples_per_packet) * p.(pk_format).(format_channels)) as Hl.
      { apply (f_equal len) in Hpcm. cbn [chunk_frames c' replicate] in Hpcm.
        rewrite app_nil_r, !len_app in Hpcm.
        rewrite (pcm_of_length p _ ds Hnum), full_packet_Z in Hpcm by done. lia. }
      unfold samples_per_frame. rewrite Hl, div_sub_mul by apply Hp.
      rewrite div_whole by (apply Hp || done).
      unfold frame_count, samples_per_frame. rewrite Hf. lia.
Qed.

(** The frames of PCM in a list of chunks. *)
Definition total_frames_of (chunks : list DecodedPcmChunk) : Z :=
  foldr (fun c n => frame_count c + n) 0 chunks.

Lemma numbered_shift (p q : Packetizer) (start : Z) (k i : nat) (d : AudioDatagram) :
  q.(pk_session_id) = p.(pk_session_id) -> q.(pk_stream_id) = p.(pk_stream_id) ->
  q.(pk_format) = p.(pk_format) -> q.(pk_samples_per_packet) = p.(pk_samples_per_packet) ->
  q.(pk_host_start_time_ms) = p.(pk_host_start_time_ms) ->
  q.(pk_next_sequence) = p.(pk_next_sequence) + Z.of_nat k ->
  numbered q (start + Z.of_nat k * p.(pk_samples_per_packet)) i d -> numbered p start (k + i) d.
Proof.
  unfold numbered, presentation_time_ms, full_packet. intros -> -> -> -> -> ->.
  intros (H1 & H2 & H3 & H4 & H5 & H6 & H7 & H8 & H9 & H10).
  split_and!; try done; [rewrite H3; lia|rewrite H4; nia].
Qed.

Lemma push_track_facts (chunks : list DecodedPcmChunk) (final : DecodedPcmChunk) (p : Packetizer) :
  contiguous p -> Forall (fun c => chunk_fits p c /\ c.(chunk_end_of_stream) = false) chunks ->
  chunk_fits p final -> final.(chunk_end_of_stream) = true ->
  p.(pk_contiguous_sample_cursor) + total_frames_of (chunks ++ [final]) <= u64_max ->
  exists ds pad p',
    push_track (chunks ++ [final]) p = (Ok (map FAudio ds), p')
    /\ pcm_of ds = p.(pk_carry) ++ ((chunks ++ [final]) ≫= chunk_frames) ++ replicate pad 0
    /\ (pad < full_packet p)%nat /\ p'.(pk_finished) = true
    /\ (forall i d, ds !! i = Some d ->
          numbered p (p.(pk_next_sequence) * p.(pk_samples_per_packet)) i d).
Proof.
  revert p. induction chunks as [|c chunks IH]; intros p Hct Hall Hfit Heos Hmax; cbn [app] in *.
  - cbn [total_frames_of foldr] in Hmax.
    destruct (push_contiguous_facts final p Hct Hfit ltac:(lia))
      as (ds & pad & p' & Hpush & Hpcm & Hpad & _ & Hnil & Hfin & Hnum & _).
    exists ds, pad, p'. cbn [push_track]. rewrite Hpush. cbn [outcome_frames]. rewrite app_nil_r.
    rewrite (Hnil Heos), app_nil_r in Hpcm. cbn [mbind list_bind]. rewrite app_nil_r.
    split_and!; try done. by rewrite Hfin.
  - apply Forall_cons in Hall as [[Hc Hce] Hrest]. cbn [total_frames_of foldr] in Hmax.
    fold (total_frames_of (chunks ++ [final])) in Hmax.
    assert (0 <= total_frames_of (chunks ++ [final])) as H0.
    { assert (Forall (chunk_fits p) (chunks ++ [final])) as Hff
        by (apply Forall_app; split; [eapply Forall_impl; [exact Hrest|by intros ? []]|by constructor]).
      clear -Hff Hct. induction Hff as [|x l Hx Hl IH]; [done|]. cbn [total_frames_of foldr].
      fold (total_frames_of l). pose proof (frame_count_nonneg p x (ct_ok _ Hct) Hx). lia. }
    destruct (push_contiguous_facts c p Hct Hc ltac:(lia))
      as (ds & pad & p1 & Hpush & Hpcm & _ & Hpad0 & _ & _ & Hnum & Hcont).
    destruct (Hcont Hce) as (Hct1 & Hn1 & Hcur1 & Hs1 & Hs2 & Hs3 & Hs4 & Hs5).
    assert (forall x, chunk_fits p x -> chunk_fits p1 x) as Hsame
      by (intros x; unfold chunk_fits; by rewrite Hs3).
    destruct (IH p1 Hct1) as (ds' & pad' & p' & Hrun & Hpcm' & Hpad' & Hfin & Hnum');
      [eapply Forall_impl; [exact Hrest|]; intros x [? ?]; auto|auto|done|rewrite Hcur1; lia|].
    exists (ds ++ ds'), pad', p'. cbn [push_track]. rewrite Hpush, Hrun. cbn [outcome_frames].
    split_and!; try done.
    + by rewrite map_app.
    + rewrite (Hpad0 Hce) in Hpcm. cbn [replicate] in Hpcm. rewrite app_nil_r in Hpcm.
      cbn [mbind list_bind]. rewrite pcm_of_app, Hpcm', app_assoc, Hpcm, <- !app_assoc. done.
    + unfold full_packet in *. by rewrite Hs3, Hs4 in Hpad'.
    + intros i d Hd. apply lookup_app_Some in Hd as [Hd|[Hge Hd]]; [by apply Hnum|].
      replace i with (length ds + (i - length ds))%nat by lia.
      apply (numbered_shift p p1); try done.
      specialize (Hnum' _ _ Hd). rewrite Hn1, Hs4 in Hnum'.
      by replace (_ * _ + _) with ((pk_next_sequence p + Z.of_nat (length ds)) * pk_samples_per_packet p)
        by nia.
Qed.

(** A new packetizer is at the start of its timeline with nothing carried. *)
Lemma new_contiguous {t : target} (session stream : rstr) (format : AudioFormat)
  (duration start : Z) (p0 : Packetizer) :
  is_u32 format.(sample_rate_hz) -> is_u16 format.(format_channels) ->
  Packetizer_new session stream format duration start = Ok p0 ->
  contiguous p0 /\ p0.(pk_next_sequence) = 0 /\ p0.(pk_carry) = [].
Proof.
  intros Hr Hch Hnew.
  pose proof (Packetizer_new_ok session stream format duration start p0 Hr Hch Hnew) as Hok.
  assert (p0.(pk_next_sequence) = 0 /\ p0.(pk_carry) = [] /\ p0.(pk_contiguous_sample_cursor) = 0
          /\ p0.(pk_expected_chunk_sample_index) = None /\ p0.(pk_finished) = false)
    as (Hn & Hcar & Hcur & Hexp & Hfin).
  { unfold Packetizer_new in Hnew. repeat case_match; try done. by injection Hnew as <-. }
  split_and!; try done. split; [done|done| |by left].
  unfold carry_frames, samples_per_frame. pose proof Hok as [].
  rewrite Hcur, Hn, Hcar, (len_nil (A := Z)), Z.div_0_l by lia. lia.
Qed.

(** A new packetizer runs a whole track from sequence 0. *)
Lemma new_track {t : target} (session stream : rstr) (format : AudioFormat)
  (duration start : Z) (p0 : Packetizer) (chunks : list DecodedPcmChunk) (final : DecodedPcmChunk) :
  is_u32 format.(sample_rate_hz) -> is_u16 format.(format_channels) ->
  Packetizer_new session stream format duration start = Ok p0 ->
  Forall (fun c => chunk_fits p0 c /\ c.(chunk_end_of_stream) = false) chunks ->
  chunk_fits p0 final -> final.(chunk_end_of_stream) = true ->
  total_frames_of (chunks ++ [final]) <= u64_max ->
  exists ds pad p',
    pk_ok p0 /\ push_track (chunks ++ [final]) p0 = (Ok (map FAudio ds), p')
    /\ pcm_of ds = ((chunks ++ [final]) ≫= chunk_frames) ++ replicate pad 0
    /\ (pad < full_packet p0)%nat /\ p0.(pk_next_sequence) = 0
    /\ (forall i d, ds !! i = Some d -> numbered p0 0 i d).
Proof.
  intros Hr Hch Hnew Hall Hfit Heos Hmax.
  pose proof (Packetizer_new_ok session stream format duration start p0 Hr Hch Hnew) as Hok.
  destruct (new_contiguous session stream format duration start p0 Hr Hch Hnew) as (Hct & Hn & Hcar).
  assert (p0.(pk_contiguous_sample_cursor) = 0) as Hcur.
  { rewrite (ct_cursor _ Hct), Hn. unfold carry_frames, samples_per_frame. pose proof Hok as [].
    rewrite Hcar, (len_nil (A := Z)), Z.div_0_l by lia. lia. }
  destruct (push_track_facts chunks final p0 Hct Hall Hfit Heos) as (ds & pad & p' & Hrun & Hpcm & Hpad & _ & Hnum);
    [lia|].
  rewrite Hcar in Hpcm. rewrite Hn in Hnum. exists ds, pad, p'. by split_and!.
Qed.

(** ** Properties *)

(** No audio is lost, repeated or reordered by packetization: the PCM of
    the datagrams a chunk completes, followed by the new carry, is the old
    carry followed by the chunk, with less than one packet of silence appended
    only at the end of the stream, where nothing is left in the carry. *)
Lemma push_conserves_pcm (c : DecodedPcmChunk) (p p' : Packetizer) (out : PacketizeOutcome) :
  pk_ok p -> chunk_typed c -> push_chunk c p = (Ok out, p') ->
  exists ds pad, out.(outcome_frames) = map FAudio ds
    /\ pcm_of ds ++ p'.(pk_carry) = p.(pk_carry) ++ c.(chunk_frames) ++ replicate pad 0
    /\ (pad < full_packet p)%nat
    /\ (c.(chunk_end_of_stream) = false -> pad = 0%nat)
    /\ (c.(chunk_end_of_stream) = true -> p'.(pk_carry) = [])
    /\ (length p'.(pk_carry) < full_packet p')%nat.
Proof.
  intros Hp Hc Hpush. destruct (push_chunk_facts c p p' out Hp Hc Hpush) as (ds & pad & Hf).
  pose proof (push_chunk_ok c p p' out Hp Hc Hpush) as Hok.
  destruct Hf as [-> Hpcm [Hpad Hpad0] Hfl _ _ _ _ _]. exists ds, pad. split_and!; try done. apply Hok.
Qed.

(** A rejected chunk changes nothing: after any error of [push_chunk] or
    [push_contiguous_chunk] the packetizer is as it was, and once the stream
    has ended every further chunk is refused as already finished. *)
Lemma rejected_chunk_changes_nothing (c : DecodedPcmChunk) (p : Packetizer) :
  (forall e p', push_chunk c p = (Err e, p') -> p' = p)
  /\ (forall e p', push_contiguous_chunk c p = (Err e, p') -> p' = p)
  /\ (p.(pk_finished) = true ->
      push_chunk c p = (Err AlreadyFinished, p)
      /\ push_contiguous_chunk c p = (Err AlreadyFinished, p)).
Proof.
  assert (forall c e p', push_chunk c p = (Err e, p') -> p' = p) as H.
  { intros c0 e p'. unfold push_chunk. repeat case_match; try done; by intros [= _ <-]. }
  split_and!; [by apply H| |].
  - intros e p'. unfold push_contiguous_chunk.
    destruct (validate_chunk c p); [|by intros [= _ <-]].
    destruct (checked_add _ _ _); [|by intros [= _ <-]].
    destruct (push_chunk _ p) as [[out|e'] p1] eqn:E; [done|]. intros [= _ <-]. by apply H in E.
  - intros Hf. unfold push_contiguous_chunk, push_chunk, validate_chunk. by rewrite Hf.
Qed.

(** A whole playlist becomes one continuous stream: pushing any chunks of
    the right format, the last one marked end-of-stream, succeeds; the
    datagrams carry exactly the concatenated PCM plus less than one packet of
    silence, are numbered 0, 1, 2, ... without gap, packet [i] starts at sample
    [i * samples_per_packet], and each is full-width. *)
Lemma track_is_packetized_whole {t : target} (session stream : rstr) (format : AudioFormat)
  (duration start : Z) (p0 : Packetizer) (chunks : list DecodedPcmChunk) (final : DecodedPcmChunk) :
  is_u32 format.(sample_rate_hz) -> is_u16 format.(format_channels) ->
  Packetizer_new session stream format duration start = Ok p0 ->
  Forall (fun c => chunk_fits p0 c /\ c.(chunk_end_of_stream) = false) chunks ->
  chunk_fits p0 final -> final.(chunk_end_of_stream) = true ->
  total_frames_of (chunks ++ [final]) <= u64_max ->
  exists ds pad p',
    push_track (chunks ++ [final]) p0 = (Ok (map FAudio ds), p')
    /\ pcm_of ds = ((chunks ++ [final]) ≫= chunk_frames) ++ replicate pad 0
    /\ (pad < full_packet p0)%nat
    /\ (forall i d, ds !! i = Some d ->
          d.(audio_sequence) = Z.of_nat i
          /\ d.(audio_first_sample_index) = Z.of_nat i * p0.(pk_samples_per_packet)
          /\ length d.(audio_payload) = (2 * full_packet p0)%nat
          /\ d.(audio_host_presentation_time_ms) = presentation_time_ms p0 (Z.of_nat i)).
Proof.
  intros Hr Hch Hnew Hall Hfit Heos Hmax.
  destruct (new_track session stream format duration start p0 chunks final)
    as (ds & pad & p' & _ & Hrun & Hpcm & Hpad & Hn & Hnum); try done.
  exists ds, pad, p'. split_and!; try done.
  intros i d Hd. destruct (Hnum i d Hd) as (_ & _ & Hs & Hi & Ht & _ & _ & _ & Hl & _).
  rewrite Hn in *. split_and!; [lia|lia|done|]. by rewrite Ht, Hs.
Qed.

(** ** Witnesses *)

Definition sample_pk_format : AudioFormat := mkAudioFormat 1000 2 SamplePcmS16Le.

(** Stereo packets of three frames. *)
Definition sample_packetizer : Packetizer :=
  match Packetizer_new (t := Target64) (lit "session") (lit "stream") sample_pk_format 3 500 with
  | Ok p => p
  | Err _ => mkPacketizer [] [] sample_pk_format 0 0 0 [] None 0 None true
  end.

Definition sample_chunk : DecodedPcmChunk :=
  mkDecodedPcmChunk sample_pk_format 0 [1; -1; 2; -2; 3; -3; 4; -4] false.
Definition sample_final : DecodedPcmChunk :=
  mkDecodedPcmChunk sample_pk_format 0 [5; -5; 6; -6; 7; -7] true.

Lemma sample_packetizer_new :
  Packetizer_new (t := Target64) (lit "session") (lit "stream") sample_pk_format 3 500
  = Ok sample_packetizer.
Proof. vm_compute. reflexivity. Defined.

Lemma sample_packetizer_ok : pk_ok sample_packetizer.
Proof.
  apply (Packetizer_new_ok (t := Target64) (lit "session") (lit "stream") sample_pk_format 3 500);
    [unfold is_u32, is_uint; cbn; lia|unfold is_u16, is_uint; cbn; lia|exact sample_packetizer_new].
Defined.

Lemma push_conserves_pcm_witness :
  exists ds pad,
    map FAudio ds
    = match push_chunk sample_chunk sample_packetizer with
      | (Ok out, _) => out.(outcome_frames) | (Err _, _) => [] end
    /\ pcm_of ds ++ (push_chunk sample_chunk sample_packetizer).2.(pk_carry)
       = [] ++ [1; -1; 2; -2; 3; -3; 4; -4] ++ replicate pad 0
    /\ pad = 0%nat.
Proof.
  destruct (push_conserves_pcm sample_chunk sample_packetizer
              (push_chunk sample_chunk sample_packetizer).2
              (match push_chunk sample_chunk sample_packetizer with
               | (Ok out, _) => out | (Err _, _) => mkPacketizeOutcome [] false end))
    as (ds & pad & Hf & Hpcm & _ & Hpad & _).
  - exact sample_packetizer_ok.
  - split; [cbn; lia|i16_list].
  - vm_compute. reflexivity.
  - exists ds, pad. split; [rewrite <- Hf; vm_compute; reflexivity|].
    split; [exact Hpcm|apply Hpad; reflexivity].
Defined.

Lemma track_is_packetized_whole_witness :
  exists ds pad p',
    push_track ([sample_chunk] ++ [sample_final]) sample_packetizer = (Ok (map FAudio ds), p')
    /\ pcm_of ds = (([sample_chunk] ++ [sample_final]) ≫= chunk_frames) ++ replicate pad 0
    /\ (pad < full_packet sample_packetizer)%nat
    /\ (forall i d, ds !! i = Some d ->
          d.(audio_sequence) = Z.of_nat i
          /\ d.(audio_first_sample_index) = Z.of_nat i * sample_packetizer.(pk_samples_per_packet)
          /\ length d.(audio_payload) = (2 * full_packet sample_packetizer)%nat
          /\ d.(audio_host_presentation_time_ms)
             = presentation_time_ms sample_packetizer (Z.of_nat i)).
Proof.
  apply (track_is_packetized_whole (t := Target64) (lit "session") (lit "stream") sample_pk_format 3 500).
  - unfold is_u32, is_uint. cbn. lia.
  - unfold is_u16, is_uint. cbn. lia.
  - exact sample_packetizer_new.
  - apply List.Forall_cons; [|apply List.Forall_nil].
    split; [|reflexivity]. split; [reflexivity|]. split; [i16_list|reflexivity].
  - split; [reflexivity|]. split; [i16_list|reflexivity].
  - reflexivity.
  - vm_compute. discriminate.
Defined.
