(* ===== verification/Pipeline.v ===== *)
(** Host to listener, end to end: the packetizer's datagrams go through the
    frame codec to the playback scheduler.  These theorems compose the
    components' lemmas; they hold on both pointer widths. *)
From Stdlib Require Import ZArith Lia Sorting.Sorted Strings.String.
From stdpp Require Import numbers list prelude.
From S2P Require Import Prelude BTreeMap Utf8 Float64 Domain ProtocolTypes Crc32 Codec CodecProofs.
From S2P Require Import Ramp Concealment JitterBuffer Scheduler Packetizer.

(** Every element through a fallible conversion, in order. *)
Fixpoint try_map {A B E : Type} (f : A -> result B E) (l : list A) : result (list B) E :=
  match l with
  | [] => Ok []
  | x :: l => let? y := f x in let? ys := try_map f l in Ok (y :: ys)
  end.

(** The PCM a listener reads out of a list of frames; only audio carries any. *)
Definition received_pcm (frames : list ProtocolFrame) : list Z :=
  frames ≫= fun f => match f with
                     | FAudio d => decode_payload_samples d.(audio_payload)
                     | _ => []
                     end.

Lemma received_pcm_audio (ds : list AudioDatagram) : received_pcm (map FAudio ds) = pcm_of ds.
Proof.
  unfold received_pcm, pcm_of. induction ds as [|d ds IH]; [done|].
  cbn [map mbind list_bind]. by rewrite IH.
Qed.

(** ** Every datagram of the packetizer fits the codec *)

Section Encodable.
Context {t : target}.

(** What the codec asks of the stream a packetizer serves. *)
Record streamable (p : Packetizer) : Prop := {
st_session : wf_str p.(pk_session_id) /\ validate_identifier IdSession p.(pk_session_id) = Ok tt;
st_stream : wf_str p.(pk_stream_id) /\ validate_identifier IdStream p.(pk_stream_id) = Ok tt;
st_rate : 8000 <= p.(pk_format).(sample_rate_hz) <= 384000;
st_channels : 1 <= p.(pk_format).(format_channels) <= 8;
st_start : is_u64 p.(pk_host_start_time_ms);
st_spp : is_u32 p.(pk_samples_per_packet) /\ 0 < p.(pk_samples_per_packet);
st_size : FIXED_AUDIO_DATAGRAM_FIELD_BYTES + 2 * IDENTIFIER_LENGTH_PREFIX_BYTES
  + str_len p.(pk_session_id) + str_len p.(pk_stream_id)
  + p.(pk_samples_per_packet) * p.(pk_format).(format_channels) * 2
  <= MAX_AUDIO_DATAGRAM_BYTES - FRAME_HEADER_BYTES
}.

Lemma put_identifier (e : list Z) (field : string) (kind : IdentifierKind) (v : rstr) :
  validate_identifier kind v = Ok tt ->
  put_string e field v MAX_IDENTIFIER_BYTES false = Ok (e ++ be_bytes 2 (str_len v) ++ as_bytes v).
Proof.
  intros H. apply validate_identifier_ok in H as (Hne & Hlen & Htrim & Hctl).
  unfold put_string, validate_text. rewrite (bool_decide_eq_false_2 _ Hne), bool_decide_eq_true_2 by done.
  rewrite (proj2 (Z.ltb_ge _ _)) by done. cbn [negb orb andb]. rewrite Hctl.
  rewrite (proj2 (Z.ltb_ge _ _)) by (unfold u16_max, MAX_IDENTIFIER_BYTES in *; lia).
  unfold put_bytes, put_u16. by rewrite <- app_assoc.
Qed.

Lemma presentation_time_u64 (p : Packetizer) (n : Z) :
  streamable p -> 0 <= n -> is_u64 (presentation_time_ms p n).
Proof.
  intros [_ _ Hr _ Hs [Hu _] _] Hn. unfold presentation_time_ms, saturating_add, try_from_or_max.
  unfold is_u64, is_u32, is_uint, u64_max in *.
  assert (0 <= (n * pk_samples_per_packet p * 1000 + sample_rate_hz (pk_format p) / 2)
               / sample_rate_hz (pk_format p))
    by (apply Z.div_pos; [assert (0 <= sample_rate_hz (pk_format p) / 2) by (apply Z.div_pos; lia); nia|lia]).
  repeat case_match; to_prop; lia.
Qed.

Lemma numbered_wf (p : Packetizer) (start : Z) (i : nat) (d : AudioDatagram) :
  streamable p -> numbered p start i d ->
  0 <= p.(pk_next_sequence) -> p.(pk_next_sequence) + Z.of_nat i <= u64_max ->
  0 <= start -> start + Z.of_nat i * p.(pk_samples_per_packet) <= u64_max -> wf_audio d.
Proof.
  intros Hst (H1 & H2 & H3 & H4 & H5 & H6 & H7 & H8 & _ & H10) Hn Hn' Hs Hs'.
  pose proof (presentation_time_u64 p d.(audio_sequence) Hst ltac:(lia)) as Ht. rewrite <- H5 in Ht.
  destruct Hst as [[Hw1 _] [Hw2 _] Hr Hc _ [Hu Hpos] _].
  unfold wf_audio. rewrite H1, H2, H3, H4, H6, H7, H8.
  split_and!; try done; unfold is_u64, is_u32, is_u16, is_uint, u64_max in *; lia || nia.
Qed.

Lemma numbered_encodes (p : Packetizer) (start : Z) (i : nat) (d : AudioDatagram) :
  streamable p -> numbered p start i d -> wf_audio d ->
  exists bytes, encode_frame (FAudio d) = Ok bytes /\ len bytes <= MAX_AUDIO_DATAGRAM_BYTES.
Proof.
  intros [[_ Hid1] [_ Hid2] Hr Hc _ [Hu Hpos] Hsize] (H1 & H2 & _ & _ & _ & H6 & H7 & H8 & H9 & _) Hwf.
  assert (len d.(audio_payload) = p.(pk_samples_per_packet) * p.(pk_format).(format_channels) * 2) as Hpl.
  { unfold len. rewrite H9. unfold full_packet, samples_per_frame. nia. }
  pose proof (usize_max_lower (t := t)) as Hus.
  assert (0 <= str_len p.(pk_session_id) /\ 0 <= str_len p.(pk_stream_id)) as [Hl1 Hl2]
    by (split; apply len_nonneg).
  unfold FIXED_AUDIO_DATAGRAM_FIELD_BYTES, IDENTIFIER_LENGTH_PREFIX_BYTES, MAX_AUDIO_DATAGRAM_BYTES,
    FRAME_HEADER_BYTES in Hsize.
  assert (exists out, encode_audio d = Ok out /\ len out <= 4 * 1024 - 16) as (out & He & Hout).
  { unfold encode_audio, validate_audio_parameters. rewrite H6, H7, H8.
    rewrite (proj2 (in_range_iff _ _ _)), (proj2 (in_range_iff _ _ _)) by lia. cbn [negb].
    rewrite (proj2 (Z.eqb_neq _ _)) by lia. unfold checked_mul.
    rewrite (proj2 (Z.leb_le _ _)) by (unfold u32_max in *; lia). rewrite (proj2 (Z.leb_le _ _)) by (unfold u32_max in *; lia).
    cbn [ok_or]. rewrite Hpl, Z.eqb_refl. cbn [negb]. unfold put_session_id, put_stream_id.
    rewrite H1, H2, (put_identifier _ _ IdSession), (put_identifier _ _ IdStream) by done.
    rewrite (proj2 (Z.ltb_ge _ _)) by (unfold u16_max; lia).
    match goal with |- context [_ <? len ?b] => set (bytes := b) end.
    assert (len bytes <= 4 * 1024 - 16) as Hb.
    { subst bytes. unfold put_bytes, put_u64, put_u32, put_u16, put_u8.
      rewrite !len_app, Hpl, !len_be_bytes, len_cons, !(len_nil (A := Z)). unfold str_len in *. lia. }
    rewrite (proj2 (Z.ltb_ge _ _)) by (unfold MAX_AUDIO_DATAGRAM_BYTES, FRAME_HEADER_BYTES; lia).
    eauto. }
  eexists. split.
  - apply encode_frame_eq; [cbn; by rewrite He|done].
  - rewrite len_app. unfold MAX_AUDIO_DATAGRAM_BYTES.
    assert (forall k fl n, len (header_bytes k fl n) = 16) as -> by done. lia.
Qed.
End Encodable.

(** ** A whole track *)

Section Track.
Context {t : target}.

Lemma Packetizer_new_streamable (session stream : rstr) (format : AudioFormat)
  (duration start : Z) (p : Packetizer) :
  wf_str session -> validate_identifier IdSession session = Ok tt ->
  wf_str stream -> validate_identifier IdStream stream = Ok tt ->
  8000 <= format.(sample_rate_hz) <= 384000 -> 1 <= format.(format_channels) <= 8 ->
  is_u64 start -> Packetizer_new session stream format duration start = Ok p -> streamable p.
Proof.
  intros Hw1 Hv1 Hw2 Hv2 Hr Hc Hs H. unfold Packetizer_new in H.
  destruct (negb _) eqn:Ed; [done|]. destruct (samples_per_frame format =? 0) eqn:Ec; [done|].
  destruct (packet_samples _ _ =? 0) eqn:Es; [done|].
  destruct (ok_or _ _) as [payload|] eqn:Ep in H; [|done].
  destruct (ok_or _ _) as [encoded|] eqn:Ee in H; [|done].
  destruct (_ <? encoded) eqn:El; [done|]. injection H as <-. to_prop.
  apply in_range_iff in Ed. unfold MIN_PACKET_DURATION_MS in Ed.
  destruct (packet_samples_pos (sample_rate_hz format) duration) as [_ Hspp]; [lia|lia|done|].
  assert (packet_samples (sample_rate_hz format) duration <= u32_max) as Hmax
    by (unfold packet_samples, try_from_or_max; split_match; to_prop; unfold u32_max in *; lia).
  unfold checked_mul, checked_add, samples_per_frame in *.
  repeat (case_match; try done). to_prop. cbn [ok_or] in *. injection Ep as <-. injection Ee as <-. simplify_eq.
  split; cbn [pk_session_id pk_stream_id pk_format pk_samples_per_packet pk_host_start_time_ms];
    try done; [|lia].
  unfold is_u32, is_uint, u32_max in *. lia.
Qed.

(** The samples of a list of fitting chunks are whole frames. *)
Lemma total_frames_samples (p : Packetizer) (chunks : list DecodedPcmChunk) :
  0 < p.(pk_format).(format_channels) -> Forall (chunk_fits p) chunks ->
  len (chunks ≫= chunk_frames) = total_frames_of chunks * p.(pk_format).(format_channels).
Proof.
  intros Hc. induction 1 as [|c l (Hf & _ & Hm) Hl IH]; [done|].
  cbn [mbind list_bind total_frames_of foldr]. fold (total_frames_of l).
  rewrite len_app, IH. unfold frame_count, samples_per_frame. rewrite Hf.
  apply Z.div_exact in Hm; [|lia]. lia.
Qed.

(** No packet of a track starts beyond its last frame. *)
Lemma packet_start_bound (p : Packetizer) (start : Z) (chunks : list DecodedPcmChunk)
  (ds : list AudioDatagram) (pad i : nat) (d : AudioDatagram) :
  pk_ok p -> Forall (chunk_fits p) chunks ->
  (forall i d, ds !! i = Some d -> numbered p start i d) ->
  pcm_of ds = (chunks ≫= chunk_frames) ++ replicate pad 0 -> (pad < full_packet p)%nat ->
  ds !! i = Some d -> Z.of_nat i * p.(pk_samples_per_packet) <= total_frames_of chunks.
Proof.
  intros Hp Hfit Hnum Hpcm Hpad Hd. pose proof Hp as [_ Hc Hspp _ _ _ _ _].
  apply (f_equal len) in Hpcm. rewrite (pcm_of_length p start ds Hnum), len_app in Hpcm.
  rewrite (total_frames_samples p chunks Hc Hfit) in Hpcm.
  assert (len (replicate pad 0) = Z.of_nat pad) as Hr by (unfold len; by rewrite length_replicate).
  rewrite Hr, full_packet_Z in Hpcm by done.
  pose proof (full_packet_Z p Hp) as Hfz. apply lookup_lt_Some in Hd.
  assert (Z.of_nat i + 1 <= Z.of_nat (length ds)) as Hi by lia.
  assert (Z.of_nat pad < p.(pk_samples_per_packet) * p.(pk_format).(format_channels)) as Hpz by lia.
  clear - Hpcm Hi Hpz Hc Hspp. nia.
Qed.

(** Frames that encode and decode back one by one do so as a list. *)
Lemma try_map_codec (ds : list AudioDatagram) :
  (forall i d, ds !! i = Some d ->
     wf_audio d /\ exists b, encode_frame (FAudio d) = Ok b /\ len b <= MAX_AUDIO_DATAGRAM_BYTES) ->
  exists bytes, try_map encode_frame (map FAudio ds) = Ok bytes
    /\ Forall (fun b => len b <= MAX_AUDIO_DATAGRAM_BYTES) bytes
    /\ try_map decode_frame bytes = Ok (map FAudio ds).
Proof.
  induction ds as [|d ds IH]; intros H; [by exists []|].
  destruct (H 0%nat d eq_refl) as (Hwf & b & Hb & Hlen).
  destruct IH as (bytes & He & Hl & Hd); [intros i x Hx; by apply (H (S i))|].
  exists (b :: bytes). cbn [map try_map]. rewrite Hb, He.
  destruct (frame_roundtrip (FAudio d) b Hwf Hb) as [-> _]. rewrite Hd. split_and!; try done. by constructor.
Qed.
End Track.

(** ** The shared timeline *)

(** A scheduler configured from the geometry a packetizer announces. *)
Definition follows (s : PlaybackScheduler) (p : Packetizer) : Prop :=
  s.(sch_config).(cfg_sample_rate) = p.(pk_format).(sample_rate_hz)
  /\ s.(sch_config).(cfg_samples_per_packet) = p.(pk_samples_per_packet)
  /\ s.(sch_config).(cfg_host_start_time_ms) = p.(pk_host_start_time_ms).

(** Rounding to the nearest millisecond against truncating. *)
Lemma round_vs_floor (a r : Z) :
  0 <= a -> 0 < r -> a / r <= (a + r / 2) / r <= a / r + 1
  /\ 2 * Z.abs ((a + r / 2) / r * r - a) <= r.
Proof.
  intros Ha Hr. pose proof (Z.div_mod a r ltac:(lia)). pose proof (Z.mod_pos_bound a r Hr).
  pose proof (Z.div_mod (a + r / 2) r ltac:(lia)). pose proof (Z.mod_pos_bound (a + r / 2) r Hr).
  pose proof (Z.div_mod r 2 ltac:(lia)). pose proof (Z.mod_pos_bound r 2 ltac:(lia)). nia.
Qed.

(** ** Properties *)

Section Properties.
Context {t : target}.

(** C1. A track reaches the listener intact: for a stream the codec supports
    (valid identifiers, 8-384 kHz, 1-8 channels) every chunk of a track is
    packetized, every datagram encodes into at most [MAX_AUDIO_DATAGRAM_BYTES]
    bytes, the listener decodes exactly the frames the host built, and the PCM
    it reads out of them is the track's PCM followed by less than one packet of
    silence. *)
Theorem listener_recovers_track (session stream : rstr) (format : AudioFormat)
  (duration start : Z) (p0 : Packetizer) (chunks : list DecodedPcmChunk) (final : DecodedPcmChunk) :
  wf_str session -> validate_identifier IdSession session = Ok tt ->
  wf_str stream -> validate_identifier IdStream stream = Ok tt ->
  8000 <= format.(sample_rate_hz) <= 384000 -> 1 <= format.(format_channels) <= 8 -> is_u64 start ->
  Packetizer_new session stream format duration start = Ok p0 ->
  Forall (fun c => chunk_fits p0 c /\ c.(chunk_end_of_stream) = false) chunks ->
  chunk_fits p0 final -> final.(chunk_end_of_stream) = true ->
  total_frames_of (chunks ++ [final]) <= u64_max ->
  exists frames datagrams pad p',
    push_track (chunks ++ [final]) p0 = (Ok frames, p')
    /\ try_map encode_frame frames = Ok datagrams
    /\ Forall (fun b => len b <= MAX_AUDIO_DATAGRAM_BYTES) datagrams
    /\ try_map decode_frame datagrams = Ok frames
    /\ received_pcm frames = ((chunks ++ [final]) ≫= chunk_frames) ++ replicate pad 0
    /\ (pad < full_packet p0)%nat.
Proof.
  intros Hw1 Hv1 Hw2 Hv2 Hr Hc Hs Hnew Hall Hfit Heos Hmax.
  pose proof (Packetizer_new_streamable session stream format duration start p0 Hw1 Hv1 Hw2 Hv2 Hr Hc Hs Hnew) as Hst.
  destruct (new_track session stream format duration start p0 chunks final)
    as (ds & pad & p' & Hok & Hrun & Hpcm & Hpad & Hn & Hnum); try done;
    [unfold is_u32, is_uint; lia|unfold is_u16, is_uint; lia|].
  assert (Forall (chunk_fits p0) (chunks ++ [final])) as Hff
    by (apply Forall_app; split; [eapply Forall_impl; [exact Hall|by intros ? []]|by constructor]).
  destruct (try_map_codec ds) as (bytes & He & Hl & Hd).
  { intros i d Hi. specialize (Hnum i d Hi) as Hni.
    pose proof (packet_start_bound p0 _ (chunks ++ [final]) ds pad i d Hok Hff Hnum Hpcm Hpad Hi) as Hb.
    pose proof (st_spp _ Hst) as [_ Hspp].
    assert (wf_audio d) as Hwf by (apply (numbered_wf p0 _ i d Hst Hni); rewrite ?Hn; nia).
    split; [done|]. exact (numbered_encodes p0 _ i d Hst Hni Hwf). }
  exists (map FAudio ds), bytes, pad, p'. rewrite received_pcm_audio. by split_and!.
Qed.

(** Host and listener share one timeline: the presentation time the host
    stamps on packet [n] is the listener's expectation or one millisecond
    later, within half a millisecond of the exact sample position however long
    the stream runs, and the first sample index is the one the listener
    derives. *)
Lemma timelines_agree (s : PlaybackScheduler) (p : Packetizer) (n : Z) :
  follows s p -> 0 < p.(pk_format).(sample_rate_hz) -> 0 <= p.(pk_samples_per_packet) ->
  0 <= p.(pk_host_start_time_ms) -> 0 <= n ->
  expected_host_presentation_time_ms s n <= presentation_time_ms p n
    <= expected_host_presentation_time_ms s n + 1
  /\ (presentation_time_ms p n < u64_max ->
      2 * Z.abs ((presentation_time_ms p n - p.(pk_host_start_time_ms)) * p.(pk_format).(sample_rate_hz)
                 - n * p.(pk_samples_per_packet) * 1000) <= p.(pk_format).(sample_rate_hz))
  /\ (n * p.(pk_samples_per_packet) <= u64_max ->
      expected_first_sample_index s n = n * p.(pk_samples_per_packet)).
Proof.
  intros (E1 & E2 & E3) Hr Hspp Hst Hn.
  unfold expected_host_presentation_time_ms, presentation_time_ms, expected_first_sample_index.
  rewrite E1, E2, E3.
  assert (0 <= n * p.(pk_samples_per_packet) * 1000) as Ha by nia.
  destruct (round_vs_floor _ _ Ha Hr) as [Hrf Hexact].
  set (b := (_ + _ / 2) / _) in *. set (a := _ * 1000 / _) in *.
  unfold saturating_add, saturating_mul, try_from_or_max. split_and!.
  - repeat split_match; to_prop; lia.
  - repeat split_match; to_prop; lia.
  - intros H. repeat split_match; to_prop; lia.
  - intros H. repeat split_match; to_prop; lia.
Qed.

(** Which canonical packet durations both ends support: for 48 kHz stereo
    packets of 1 to 20 ms the packetizer accepts every duration, but a listener
    with the default configuration refuses 1 ms packets (shorter than its
    ramp) and 2 ms packets (its concealment bridge spans more packets than the
    policy allows), and accepts all others. *)
Lemma short_packets_are_refused (session stream : rstr) (duration start : Z) (offset : f64) :
  1 <= duration <= 20 -> str_len session + str_len stream <= 195 ->
  (exists p, Packetizer_new session stream CANONICAL duration start = Ok p)
  /\ match PlaybackScheduler_new
             (SchedulerConfig_new session stream 48000 start (packet_samples 48000 duration) 2) offset with
     | Ok _ => 3 <= duration
     | Err e => (duration = 1 /\ e = InvalidConcealmentRamp)
                \/ (duration = 2 /\ e = InvalidConcealmentBound)
     end.
Proof.
  intros Hd Hids. split.
  - unfold Packetizer_new. rewrite (proj2 (in_range_iff _ _ _)) by (unfold MIN_PACKET_DURATION_MS, MAX_PACKET_DURATION_MS; lia).
    assert (packet_samples 48000 duration = 48 * duration) as Hs.
    { unfold packet_samples, try_from_or_max, u32_max.
      replace (48000 * duration) with (48 * duration * 1000) by lia. rewrite Z.div_mul by lia.
      by rewrite (proj2 (Z.leb_le _ _)) by lia. }
    cbn [negb CANONICAL samples_per_frame sample_rate_hz format_channels]. rewrite Hs.
    pose proof (usize_max_lower (t := t)). pose proof (len_nonneg (as_bytes session)).
    pose proof (len_nonneg (as_bytes stream)). fold (str_len session) (str_len stream) in *.
    rewrite (proj2 (Z.eqb_neq _ _)) by lia. unfold checked_mul, checked_add, u32_max in *.
    unfold samples_per_frame, CANONICAL, format_channels, FIXED_AUDIO_DATAGRAM_FIELD_BYTES, IDENTIFIER_LENGTH_PREFIX_BYTES, MAX_AUDIO_DATAGRAM_BYTES, FRAME_HEADER_BYTES.
    rewrite (proj2 (Z.eqb_neq _ _)) by lia.
    rewrite !(proj2 (Z.leb_le _ _)) by lia. cbn [ok_or].
    rewrite !(proj2 (Z.leb_le _ _)) by lia. cbn [ok_or].
    rewrite (proj2 (Z.ltb_ge _ _)) by lia. eauto.
  - assert (In duration (map Z.of_nat (seq 1 20))) as Hin
      by (apply in_map_iff; exists (Z.to_nat duration); rewrite in_seq; lia).
    cbn in Hin. repeat (destruct Hin as [<-|Hin]; [vm_compute; intuition (discriminate || auto)|]). done.
Qed.
End Properties.

(** ** Witnesses *)

Definition wire_format : AudioFormat := mkAudioFormat 8000 2 SamplePcmS16Le.

(** Stereo packets of eight frames. *)
Definition wire_packetizer : Packetizer :=
  mkPacketizer (lit "session") (lit "stream") wire_format 8 500 0 [] None 0 None false.

Definition wire_chunk : DecodedPcmChunk :=
  mkDecodedPcmChunk wire_format 0 (flat_map (fun n => [Z.of_nat n; - Z.of_nat n]) (seq 1 10)) false.
Definition wire_final : DecodedPcmChunk :=
  mkDecodedPcmChunk wire_format 0 [32767; -32768] true.

Lemma listener_recovers_track_witness :
  exists frames datagrams pad p',
    push_track ([wire_chunk] ++ [wire_final]) wire_packetizer = (Ok frames, p')
    /\ try_map (encode_frame (t := Target32)) frames = Ok datagrams
    /\ Forall (fun b => len b <= MAX_AUDIO_DATAGRAM_BYTES) datagrams
    /\ try_map (decode_frame (t := Target32)) datagrams = Ok frames
    /\ received_pcm frames = (([wire_chunk] ++ [wire_final]) ≫= chunk_frames) ++ replicate pad 0
    /\ (pad < full_packet wire_packetizer)%nat.
Proof.
  apply (listener_recovers_track (t := Target32) (lit "session") (lit "stream") wire_format 1 500).
  - apply wf_str_lit.
  - vm_compute. reflexivity.
  - apply wf_str_lit.
  - vm_compute. reflexivity.
  - cbn. lia.
  - cbn. lia.
  - unfold is_u64, is_uint. lia.
  - vm_compute. reflexivity.
  - apply List.Forall_cons; [|apply List.Forall_nil].
    split; [|reflexivity]. split; [reflexivity|]. split; [i16_list|reflexivity].
  - split; [reflexivity|]. split; [i16_list|reflexivity].
  - reflexivity.
  - vm_compute. discriminate.
Defined.

Lemma wire_scheduler_new :
  exists s, PlaybackScheduler_new
    (SchedulerConfig_new (lit "session") (lit "stream") 48000 500 240 2) (f64_of_Z 0) = Ok s
  /\ follows s (mkPacketizer (lit "session") (lit "stream") CANONICAL 240 500 0 [] None 0 None false).
Proof. eexists. split; [vm_compute; reflexivity|]. repeat split. Defined.

Lemma timelines_agree_witness :
  exists s, follows s (mkPacketizer (lit "session") (lit "stream") CANONICAL 240 500 0 [] None 0 None false)
    /\ expected_first_sample_index s 7 = 7 * 240.
Proof.
  destruct wire_scheduler_new as (s & _ & Hf). exists s. split; [exact Hf|].
  apply (timelines_agree s _ 7 Hf); vm_compute; try reflexivity; discriminate.
Defined.

Lemma short_packets_are_refused_witness :
  exists p, Packetizer_new (t := Target64) (lit "session") (lit "stream") CANONICAL 2 500 = Ok p.
Proof.
  assert (str_len (lit "session") + str_len (lit "stream") <= 195) as H by (vm_compute; discriminate).
  exact (proj1 (short_packets_are_refused (t := Target64) (lit "session") (lit "stream") 2 500
                  (f64_of_Z 0) ltac:(lia) H)).
Defined.
