(* ===== verification/Interleaving.v ===== *)
(** Workers that run beside other threads.

    A worker is a program over a state with three outcomes: it returned, it
    returned an error, or it is still running when the observation ends. The
    state of a concurrent worker is a schedule and the shared world: every
    access of the worker to shared memory (an atomic, a channel, a locked
    section) takes one entry of the schedule, the list of actions the other
    threads performed since the worker's previous access, applies them, and
    then performs the access. A theorem about every schedule is therefore a
    theorem about every interleaving, and the end of the schedule is an
    arbitrary point at which the run is observed. *)
From Stdlib Require Import ZArith Lia.
From stdpp Require Import list prelude.
From S2P Require Import Prelude.

(** ** Outcomes and programs *)

Inductive outcome (A E : Type) : Type :=
| Done (value : A)
| Raised (error : E)
| Suspended.
Arguments Done {A E} value.
Arguments Raised {A E} error.
Arguments Suspended {A E}.

Definition prog (S E A : Type) : Type := S -> outcome A E * S.

#[export] Instance prog_ret {S E : Type} : MRet (prog S E) := fun _ a s => (Done a, s).

#[export] Instance prog_bind {S E : Type} : MBind (prog S E) := fun _ _ k m s =>
  match m s with
  | (Done a, s) => k a s
  | (Raised e, s) => (Raised e, s)
  | (Suspended, s) => (Suspended, s)
  end.

Definition raise {S E A : Type} (e : E) : prog S E A := fun s => (Raised e, s).

(** The [?] operator on a pure [Result]. *)
Definition lift {S E A : Type} (r : result A E) : prog S E A :=
  match r with Ok a => mret a | Err e => raise e end.

Definition get {S E : Type} : prog S E S := fun s => (Done s, s).
Definition modify {S E : Type} (f : S -> S) : prog S E unit := fun s => (Done tt, f s).

(** A program on one half of the state: a closure over its captured variables. *)
Definition on_snd {R S E A : Type} (m : prog S E A) : prog (R * S) E A :=
  fun '(r, s) => let '(o, s) := m s in (o, (r, s)).

(** [match m { ... }] on the result of a program that may fail. *)
Definition attempt {S E A : Type} (m : prog S E A) : prog S E (result A E) := fun s =>
  match m s with
  | (Done a, s) => (Done (Ok a), s)
  | (Raised e, s) => (Done (Err e), s)
  | (Suspended, s) => (Suspended, s)
  end.

(** [for x in l { f(x)?; }]. *)
Fixpoint for_each {S E X : Type} (f : X -> prog S E unit) (l : list X) : prog S E unit :=
  match l with
  | [] => mret tt
  | x :: l => _ ← f x; for_each f l
  end.

(** [loop { ... }] with at most [fuel] iterations; [inl] continues with new
    locals, [inr] leaves the loop. *)
Fixpoint loop_n {S E L A : Type} (fuel : nat) (body : L -> prog S E (L + A)) (l : L) :
  prog S E A :=
  match fuel with
  | O => fun s => (Suspended, s)
  | Datatypes.S fuel =>
      r ← body l;
      match r with
      | inl l => loop_n fuel body l
      | inr a => mret a
      end
  end.

(** ** Shared state *)

Section Shared.
Context {W Act E : Type} (env : Act -> W -> W).

Definition scheduled : Type := list (list Act) * W.

(** The actions of the other threads, in order. *)
Definition env_run (acts : list Act) (w : W) : W := fold_left (fun w a => env a w) acts w.

(** One access to the shared world. *)
Definition atomic {A : Type} (f : W -> A * W) : prog scheduled E A := fun '(sched, w) =>
  match sched with
  | [] => (Suspended, ([], w))
  | acts :: sched =>
      let '(a, w) := f (env_run acts w) in (Done a, (sched, w))
  end.

(** A loop of a worker: each iteration accesses the shared world at least
    once, so the length of the schedule bounds the iterations. *)
Definition worker_loop {L A : Type} (body : L -> prog scheduled E (L + A)) (l : L) :
  prog scheduled E A :=
  fun s => loop_n (Datatypes.S (length s.1)) body l s.

(** A property no other thread can falsify. *)
Definition stable (P : W -> Prop) : Prop := forall a w, P w -> P (env a w).

Lemma env_run_stable (P : W -> Prop) (acts : list Act) (w : W) :
  stable P -> P w -> P (env_run acts w).
Proof.
  intros Hst. revert w. induction acts as [|a acts IH]; intros w Hw; [done|].
  apply IH, Hst, Hw.
Qed.
End Shared.

Create HintDb interleave.

(** ** Reasoning *)

(** [wpc m Q X U s]: from [s] the program returns with [Q], fails with [X], or
    is observed while it runs with [U]. *)
Definition wpc {S E A : Type} (m : prog S E A) (Q : A -> S -> Prop) (X : E -> S -> Prop)
  (U : S -> Prop) (s : S) : Prop :=
  match m s with
  | (Done a, s) => Q a s
  | (Raised e, s) => X e s
  | (Suspended, s) => U s
  end.

Section Rules.
Context {S E : Type}.
Implicit Types (U : S -> Prop) (X : E -> S -> Prop).

Lemma wpc_ret {A} (a : A) (Q : A -> S -> Prop) X U (s : S) :
  Q a s -> wpc (mret a : prog S E A) Q X U s.
Proof. done. Qed.

Lemma wpc_raise {A} (e : E) (Q : A -> S -> Prop) X U (s : S) :
  X e s -> wpc (raise e) Q X U s.
Proof. done. Qed.

Lemma wpc_lift {A} (r : result A E) (Q : A -> S -> Prop) X U (s : S) :
  match r with Ok a => Q a s | Err e => X e s end -> wpc (lift r) Q X U s.
Proof. by destruct r. Qed.

Lemma wpc_get (Q : S -> S -> Prop) X U (s : S) : Q s s -> wpc (get : prog S E S) Q X U s.
Proof. done. Qed.

Lemma wpc_modify (f : S -> S) (Q : unit -> S -> Prop) X U (s : S) :
  Q tt (f s) -> wpc (modify f : prog S E unit) Q X U s.
Proof. done. Qed.

Lemma wpc_bind {A B} (m : prog S E A) (k : A -> prog S E B) Q X U (s : S) :
  wpc m (fun a s => wpc (k a) Q X U s) X U s -> wpc (m ≫= k) Q X U s.
Proof. unfold wpc, mbind, prog_bind. by destruct (m s) as [[] ?]. Qed.

Lemma wpc_mono {A} (m : prog S E A) (Q Q' : A -> S -> Prop) X X' U U' (s : S) :
  wpc m Q X U s ->
  (forall a s, Q a s -> Q' a s) -> (forall e s, X e s -> X' e s) -> (forall s, U s -> U' s) ->
  wpc m Q' X' U' s.
Proof. unfold wpc. destruct (m s) as [[] ?]; eauto. Qed.

Lemma wpc_attempt {A} (m : prog S E A) (Q : result A E -> S -> Prop) X U (s : S) :
  wpc m (fun a s => Q (Ok a) s) (fun e s => Q (Err e) s) U s -> wpc (attempt m) Q X U s.
Proof. unfold wpc, attempt. by destruct (m s) as [[] ?]. Qed.

Lemma wpc_on_snd {R A} (m : prog S E A) (Q : A -> S -> Prop) X U (r : R) (s : S) :
  wpc m Q X U s ->
  wpc (on_snd m) (fun a rs => rs.1 = r /\ Q a rs.2) (fun e rs => X e rs.2) (fun rs => U rs.2) (r, s).
Proof. unfold wpc, on_snd. by destruct (m s) as [[] ?]. Qed.

(** A loop over a list, with the processed prefix as its progress. *)
Lemma wpc_for_each {B} (f : B -> prog S E unit) (I : list B -> S -> Prop) X U (l done : list B) (s : S) :
  I done s ->
  (forall pre x post s, l = pre ++ x :: post -> I (done ++ pre) s ->
     wpc (f x) (fun _ s => I (done ++ pre ++ [x]) s) X U s) ->
  wpc (for_each f l) (fun _ s => I (done ++ l) s) X U s.
Proof.
  revert done s. induction l as [|x l IH]; intros done s HI Hf.
  - cbn [for_each]. apply wpc_ret. by rewrite app_nil_r.
  - cbn [for_each]. apply wpc_bind.
    eapply wpc_mono; [apply (Hf [] x l); [done|by rewrite app_nil_r]|..]; cbn; try done.
    intros _ s1 H1. replace (done ++ x :: l) with ((done ++ [x]) ++ l) by (by rewrite <- app_assoc).
    apply IH; [done|]. intros pre y post s2 -> H2.
    pose proof (Hf (x :: pre) y post s2 eq_refl) as H3. rewrite <- !app_assoc in *. cbn in *. auto.
Qed.

Lemma wpc_loop_n {L A} (n : nat) (body : L -> prog S E (L + A)) (I : L -> S -> Prop)
  (Q : A -> S -> Prop) X U (l : L) (s : S) :
  I l s -> (forall l s, I l s -> U s) ->
  (forall l s, I l s ->
     wpc (body l) (fun r s => match r with inl l => I l s | inr a => Q a s end) X U s) ->
  wpc (loop_n n body l) Q X U s.
Proof.
  intros HI HU Hb. revert l s HI. induction n as [|n IH]; intros l s HI; cbn [loop_n].
  - by apply (HU l).
  - apply wpc_bind. eapply wpc_mono; [by apply Hb|..]; try done.
    intros [l'|a] s' H; [by apply IH|by apply wpc_ret].
Qed.

(** A loop with a measure that every continuing iteration decreases: with
    more fuel than the measure it never stops early. *)
Lemma wpc_loop_total {L A} (n fuel : nat) (body : L -> prog S E (L + A)) (I : nat -> L -> S -> Prop)
  (Q : A -> S -> Prop) X U (l : L) (s : S) :
  I n l s -> (n < fuel)%nat ->
  (forall n l s, I n l s ->
     wpc (body l) (fun r s => match r with
                             | inl l => exists m, n = Datatypes.S m /\ I m l s
                             | inr a => Q a s end) X U s) ->
  wpc (loop_n fuel body l) Q X U s.
Proof.
  intros HI Hlt Hb. revert n l s HI Hlt. induction fuel as [|fuel IH]; intros n l s HI Hlt; [lia|].
  cbn [loop_n]. apply wpc_bind. eapply wpc_mono; [by apply Hb|..]; try done.
  intros [l'|a] s' H; [|by apply wpc_ret]. destruct H as (m & -> & H). apply (IH m); [done|lia].
Qed.
End Rules.

Section SharedRules.
Context {W Act E : Type} (env : Act -> W -> W).
Implicit Types (U : @scheduled W Act -> Prop) (X : E -> @scheduled W Act -> Prop).

(** An access made under a stable precondition. *)
Lemma wpc_atomic {A} (P : W -> Prop) (f : W -> A * W) (Q : A -> scheduled -> Prop) X U
  (sched : list (list Act)) (w : W) :
  stable env P -> P w -> (P w -> U ([], w)) ->
  (forall sched' w, P w -> let '(a, w) := f w in Q a (sched', w)) ->
  wpc (atomic env f) Q X U (sched, w).
Proof.
  intros Hst Hw HU HQ. unfold wpc, atomic. destruct sched as [|acts sched]; [auto|].
  pose proof (HQ sched (env_run env acts w) (env_run_stable env P acts w Hst Hw)).
  by destruct (f (env_run env acts w)).
Qed.

Lemma wpc_worker_loop {L A} (body : L -> prog scheduled E (L + A)) (I : L -> scheduled -> Prop)
  (Q : A -> scheduled -> Prop) X U (l : L) (s : scheduled) :
  I l s -> (forall l s, I l s -> U s) ->
  (forall l s, I l s ->
     wpc (body l) (fun r s => match r with inl l => I l s | inr a => Q a s end) X U s) ->
  wpc (worker_loop body l) Q X U s.
Proof. intros. unfold wpc, worker_loop. by apply (wpc_loop_n (Datatypes.S (length s.1)) body I Q X U). Qed.
End SharedRules.
