(* ===== verification/BoundedChannel.v ===== *)
(** The bounded channel between a worker and its consumer, with the shared
    counters around it: [sync_channel], the [SharedStatistics] of
    src/rust/silent-disco-core/src/audio/packetizer_worker.rs and
    audio/decoder.rs, and the receiving methods of their handles. The
    producer takes a queue slot in the counter before it sends; the consumer
    takes the item first and returns the slot afterwards, so the counter and
    the channel disagree for a moment on either side. *)
From Stdlib Require Import ZArith Lia.
From stdpp Require Import numbers list prelude.
From S2P Require Import Prelude Interleaving.

(** ** State *)

Record Channel (A : Type) : Type := mkChannel {
ch_capacity : Z;
(** items in the channel, oldest first *)
ch_items : list A;
(** items the consumer has taken, oldest first *)
ch_delivered : list A;
(** [queued_packets] / [queued_chunks] *)
ch_queued : Z;
(** items taken whose slot the consumer has not given back yet *)
ch_unaccounted : nat;
(** [backpressure_events] *)
ch_backpressure : Z;
(** [emitted_packets] / [emitted_frames] *)
ch_emitted : Z;
(** the shared [cancellation] flag *)
ch_cancelled : bool;
(** whether the receiver is still alive *)
ch_connected : bool
}.
Arguments mkChannel {A}.
Arguments ch_capacity {A}. Arguments ch_items {A}. Arguments ch_delivered {A}.
Arguments ch_queued {A}. Arguments ch_unaccounted {A}. Arguments ch_backpressure {A}.
Arguments ch_emitted {A}. Arguments ch_cancelled {A}. Arguments ch_connected {A}.

(** [sync_channel(capacity)] with zeroed statistics. *)
Definition new_channel {A : Type} (capacity : Z) : Channel A :=
  mkChannel capacity [] [] 0 0 0 0 false true.

Section Operations.
Context {A : Type}.
Implicit Type c : Channel A.

Definition set_queued (queued : Z) c : Channel A :=
  mkChannel c.(ch_capacity) c.(ch_items) c.(ch_delivered) queued c.(ch_unaccounted)
    c.(ch_backpressure) c.(ch_emitted) c.(ch_cancelled) c.(ch_connected).

Definition set_items (items delivered : list A) (unaccounted : nat) c : Channel A :=
  mkChannel c.(ch_capacity) items delivered c.(ch_queued) unaccounted
    c.(ch_backpressure) c.(ch_emitted) c.(ch_cancelled) c.(ch_connected).

(** [backpressure_events.fetch_add(1)]. *)
Definition count_backpressure c : Channel A :=
  mkChannel c.(ch_capacity) c.(ch_items) c.(ch_delivered) c.(ch_queued) c.(ch_unaccounted)
    (wrapping_add 64 c.(ch_backpressure) 1) c.(ch_emitted) c.(ch_cancelled) c.(ch_connected).

(** [emitted_packets.fetch_add(1)] / [emitted_frames.fetch_add(frames)]. *)
Definition count_emitted (n : Z) c : Channel A :=
  mkChannel c.(ch_capacity) c.(ch_items) c.(ch_delivered) c.(ch_queued) c.(ch_unaccounted)
    c.(ch_backpressure) (wrapping_add 64 c.(ch_emitted) n) c.(ch_cancelled) c.(ch_connected).

(** [cancellation.store(true)]. *)
Definition cancel c : Channel A :=
  mkChannel c.(ch_capacity) c.(ch_items) c.(ch_delivered) c.(ch_queued) c.(ch_unaccounted)
    c.(ch_backpressure) c.(ch_emitted) true c.(ch_connected).

(** The receiver is dropped; what is still queued is never taken. *)
Definition disconnect c : Channel A :=
  mkChannel c.(ch_capacity) c.(ch_items) c.(ch_delivered) c.(ch_queued) c.(ch_unaccounted)
    c.(ch_backpressure) c.(ch_emitted) c.(ch_cancelled) false.

(** The producer's [fetch_update(|queued| (queued < capacity).then_some(queued + 1))]:
    whether a slot was reserved. *)
Definition reserve_slot (capacity : Z) c : bool * Channel A :=
  if c.(ch_queued) <? capacity then (true, set_queued (c.(ch_queued) + 1) c) else (false, c).

(** [queued.fetch_sub(1)]. *)
Definition release_slot c : Channel A := set_queued (c.(ch_queued) - 1) c.

(** [queued.fetch_update(|value| value.checked_sub(1))]. *)
Definition decrement_queued c : Channel A :=
  if 1 <=? c.(ch_queued) then set_queued (c.(ch_queued) - 1) c else c.

Inductive send_result : Type := Sent | Full | Disconnected.

(** [SyncSender::try_send]. *)
Definition try_send (x : A) c : send_result * Channel A :=
  if negb c.(ch_connected) then (Disconnected, c)
  else if c.(ch_capacity) <=? len c.(ch_items) then (Full, c)
  else (Sent, set_items (c.(ch_items) ++ [x]) c.(ch_delivered) c.(ch_unaccounted) c).

(** The two halves of [recv_timeout] and [try_recv] of a handle: the
    receiver's own [recv], then the slot's return. *)
Definition recv_take c : option A * Channel A :=
  match c.(ch_items) with
  | x :: items =>
      if c.(ch_connected)
      then (Some x, set_items items (c.(ch_delivered) ++ [x]) (S c.(ch_unaccounted)) c)
      else (None, c)
  | [] => (None, c)
  end.

Definition recv_account c : Channel A :=
  match c.(ch_unaccounted) with
  | S n => set_items c.(ch_items) c.(ch_delivered) n (release_slot c)
  | O => c
  end.

(** One whole [try_recv] with nothing in between. *)
Definition try_recv c : option A * Channel A :=
  let '(x, c) := recv_take c in
  match x with
  | Some x => (Some x, recv_account c)
  | None => (None, c)
  end.

(** [statistics]: queued, capacity, backpressure events, emitted. *)
Definition statistics c : Z * Z * Z * Z :=
  (c.(ch_queued), c.(ch_capacity), c.(ch_backpressure), c.(ch_emitted)).
End Operations.

(** ** The other threads *)

(** What the consumer, the owner of the handle and, for a worker with more
    shared state [U], the users of that state may do at any moment. *)
Inductive chan_act (B : Type) : Type :=
| Take
| Account
| Cancel
| DropReceiver
| Act (b : B).
Arguments Take {B}. Arguments Account {B}. Arguments Cancel {B}.
Arguments DropReceiver {B}. Arguments Act {B} b.

Section Env.
Context {A U B : Type} (uenv : B -> U -> U).

Definition chan_env (a : chan_act B) (w : Channel A * U) : Channel A * U :=
  match a with
  | Take => ((recv_take w.1).2, w.2)
  | Account => (recv_account w.1, w.2)
  | Cancel => (cancel w.1, w.2)
  | DropReceiver => (disconnect w.1, w.2)
  | Act b => (w.1, uenv b w.2)
  end.
End Env.

(** An operation on the channel, as an access to the whole shared world. *)
Definition on_channel {C U A : Type} (f : Channel C -> A * Channel C) (w : Channel C * U) :
  A * (Channel C * U) :=
  let '(a, c) := f w.1 in (a, (c, w.2)).

(** ** The accounting invariant *)

Section Invariant.
Context {A : Type}.
Implicit Type c : Channel A.

(** Everything ever put into the channel, in order. *)
Definition history c : list A := c.(ch_delivered) ++ c.(ch_items).

(** The counter is exactly the items in the channel, the items taken but not
    yet given back, and the [held] slots the producer has reserved; it never
    passes the capacity. *)
Definition accounted (held : nat) c : Prop :=
  c.(ch_queued) = len c.(ch_items) + Z.of_nat c.(ch_unaccounted) + Z.of_nat held
  /\ c.(ch_queued) <= c.(ch_capacity).

Lemma accounted_new (capacity : Z) : 0 <= capacity -> accounted 0 (new_channel (A := A) capacity).
Proof. by split. Qed.

Lemma accounted_take (held : nat) c : accounted held c -> accounted held (recv_take c).2.
Proof.
  unfold recv_take. destruct (ch_items c) eqn:E; [done|]. destruct (ch_connected c); [|done].
  intros [H ?]. rewrite E, len_cons in H. split; cbn; [|done]. lia.
Qed.

Lemma history_take c : history (recv_take c).2 = history c.
Proof.
  unfold history, recv_take. destruct (ch_items c) eqn:E; cbn; [by rewrite E|].
  destruct (ch_connected c); cbn; [|by rewrite E]. by rewrite <- app_assoc.
Qed.

Lemma accounted_account (held : nat) c : accounted held c -> accounted held (recv_account c).
Proof.
  unfold recv_account. destruct (ch_unaccounted c) eqn:E; [done|].
  intros [H ?]. rewrite E in H. split; cbn; lia.
Qed.

Lemma history_account c : history (recv_account c) = history c.
Proof. unfold history, recv_account. by destruct (ch_unaccounted c). Qed.

Lemma capacity_take c : ch_capacity (recv_take c).2 = ch_capacity c.
Proof. unfold recv_take. destruct (ch_items c); [done|]. by destruct (ch_connected c). Qed.

Lemma capacity_account c : ch_capacity (recv_account c) = ch_capacity c.
Proof. unfold recv_account. by destruct (ch_unaccounted c). Qed.

Lemma accounted_reserve c :
  accounted 0 c ->
  let '(ok, c') := reserve_slot c.(ch_capacity) c in
  accounted (if ok then 1 else 0) c' /\ history c' = history c /\ ch_capacity c' = ch_capacity c
  /\ ch_emitted c' = ch_emitted c.
Proof.
  intros [H ?]. unfold reserve_slot. destruct (_ <? _) eqn:E; [|done]. to_prop.
  unfold accounted. cbn. split_and!; try done; lia.
Qed.

(** With a slot in hand the channel has room: [Full] cannot be returned. *)
Lemma try_send_reserved (x : A) c :
  accounted 1 c ->
  (try_send x c = (Disconnected, c) /\ c.(ch_connected) = false)
  \/ exists c', try_send x c = (Sent, c') /\ accounted 0 c' /\ history c' = history c ++ [x]
       /\ ch_capacity c' = ch_capacity c /\ ch_emitted c' = ch_emitted c.
Proof.
  intros [H Hq]. unfold try_send. destruct (ch_connected c) eqn:Ec; cbn [negb]; [right|by left].
  rewrite (proj2 (Z.leb_gt _ _)) by lia. eexists. split; [done|].
  unfold accounted, history. cbn. rewrite len_app, len_cons, len_nil, app_assoc.
  split_and!; try done; lia.
Qed.

Lemma accounted_release c : accounted 1 c -> accounted 0 (release_slot c).
Proof. unfold accounted. cbn. lia. Qed.

(** The checked decrement agrees with the plain one while a slot is out. *)
Lemma decrement_queued_held (held : nat) c :
  accounted (S held) c -> decrement_queued c = release_slot c.
Proof.
  intros [H ?]. unfold decrement_queued. pose proof (len_nonneg (ch_items c)).
  rewrite (proj2 (Z.leb_le _ _)) by lia. done.
Qed.

(** The counter the diagnostics read is a queue length, never negative. *)
Lemma accounted_bounds (held : nat) c :
  accounted held c -> 0 <= c.(ch_queued) <= c.(ch_capacity) /\ len c.(ch_items) <= c.(ch_capacity).
Proof. intros [H ?]. pose proof (len_nonneg (ch_items c)). lia. Qed.
End Invariant.

(** The worker was told to stop or lost its consumer. *)
Definition halted {A : Type} (c : Channel A) : Prop :=
  c.(ch_cancelled) = true \/ c.(ch_connected) = false.

(** ** Stable assertions *)

Section Stable.
Context {A U B : Type} (uenv : B -> U -> U).

(** The producer's view: its reserved slots, what it has sent, and what it
    knows of the remaining shared state. *)
Definition sending (capacity : Z) (held : nat) (h : list A) (R : U -> Prop)
  (w : Channel A * U) : Prop :=
  accounted held w.1 /\ history w.1 = h /\ w.1.(ch_capacity) = capacity /\ R w.2.

Lemma sending_stable (capacity : Z) (held : nat) (h : list A) (R : U -> Prop) :
  stable uenv R -> stable (chan_env uenv) (sending capacity held h R).
Proof.
  intros HR [| | | |b] [c u] (Ha & Hh & Hc & Hu); unfold sending; cbn [chan_env fst snd].
  - rewrite history_take, capacity_take. auto using accounted_take.
  - rewrite history_account, capacity_account. auto using accounted_account.
  - done.
  - done.
  - auto.
Qed.

(** The same, with the value of the emitted counter. *)
Definition sending_emitted (capacity : Z) (held : nat) (h : list A) (emitted : Z) (R : U -> Prop)
  (w : Channel A * U) : Prop :=
  sending capacity held h R w /\ w.1.(ch_emitted) = emitted.

Lemma sending_emitted_stable (capacity : Z) (held : nat) (h : list A) (emitted : Z) (R : U -> Prop) :
  stable uenv R -> stable (chan_env uenv) (sending_emitted capacity held h emitted R).
Proof.
  intros HR a w [Hs He]. split; [by apply sending_stable|].
  destruct a, w as [c u]; cbn in *; try done.
  - unfold recv_take. destruct (ch_items c); [done|]. by destruct (ch_connected c).
  - unfold recv_account. by destruct (ch_unaccounted c).
Qed.

(** Nobody takes a stop back. *)
Lemma halted_stable : stable (chan_env uenv) (fun w : Channel A * U => halted w.1).
Proof.
  intros a [c u] H. unfold halted in *. destruct a; cbn in *; try done; try (by left); try (by right).
  - unfold recv_take. destruct (ch_items c); [exact H|].
    destruct (ch_connected c) eqn:E; cbn; rewrite ?E; exact H.
  - unfold recv_account. destruct (ch_unaccounted c); exact H.
Qed.

Lemma stable_and (P Q : Channel A * U -> Prop) :
  stable (chan_env uenv) P -> stable (chan_env uenv) Q -> stable (chan_env uenv) (fun w => P w /\ Q w).
Proof. intros HP HQ a w [H1 H2]. split; [by apply HP|by apply HQ]. Qed.
End Stable.

#[export] Hint Resolve sending_stable sending_emitted_stable : interleave.
