(* ===== verification/DecodeTypes.v ===== *)
(** The decoder's data (src/rust/silent-disco-core/src/audio/types.rs): the
    resource bounds of one streaming decode, its lifecycle, counters and typed
    failures. The PCM format and chunk of the same file are in Packetizer. *)
From Stdlib Require Import ZArith Lia Strings.String.
From stdpp Require Import numbers list prelude.
From S2P Require Import Prelude Utf8 Packetizer.

Definition CANONICAL_SAMPLE_RATE_HZ : Z := 48000.
Definition CANONICAL_CHANNELS : Z := 2.
Definition DEFAULT_DECODE_CHUNK_FRAMES : Z := 960.
Definition DEFAULT_DECODE_QUEUE_CHUNKS : Z := 8.
Definition MAX_DECODE_CHUNK_FRAMES : Z := 48000.
Definition MAX_DECODE_QUEUE_CHUNKS : Z := 64.
Definition MAX_SOURCE_BYTES : Z := 8 * 1024 * 1024 * 1024.
Definition MIN_SOURCE_SAMPLE_RATE_HZ : Z := 8000.
Definition MAX_SOURCE_SAMPLE_RATE_HZ : Z := 192000.
Definition MAX_SOURCE_CHANNELS : Z := 2.

(** ** Failures *)

Inductive DecodeErrorKind : Type :=
| DecodeInvalidConfiguration
| DecodeIo
| DecodeUnsupportedFormat
| DecodeCorruptInput
| DecodeInvalidMetadata
| DecodeEmptySource
| DecodeResourceLimit
| DecodeFormatChanged
| DecodeCancelled
| DecodeWorkerPanicked.

#[export] Instance DecodeErrorKind_eq_dec : EqDecision DecodeErrorKind.
Proof. solve_decision. Defined.

Record DecodeError : Type := mkDecodeError {
decode_kind : DecodeErrorKind;
decode_message : rstr
}.

(** [DecodeError::new] on a literal message. *)
Definition decode_error (kind : DecodeErrorKind) (message : string) : DecodeError :=
  mkDecodeError kind (lit message).

(** ** Configuration *)

Record StreamingDecodeConfig : Type := mkStreamingDecodeConfig {
dc_chunk_frames : Z;
dc_queue_chunks : Z;
dc_max_source_bytes : Z
}.

Definition StreamingDecodeConfig_default : StreamingDecodeConfig :=
  mkStreamingDecodeConfig DEFAULT_DECODE_CHUNK_FRAMES DEFAULT_DECODE_QUEUE_CHUNKS MAX_SOURCE_BYTES.

Definition StreamingDecodeConfig_validate (c : StreamingDecodeConfig) :
  result StreamingDecodeConfig DecodeError :=
  if (c.(dc_chunk_frames) =? 0) || (MAX_DECODE_CHUNK_FRAMES <? c.(dc_chunk_frames)) then
    Err (decode_error DecodeInvalidConfiguration
           "decoder chunk frame count is outside the supported range")
  else if (c.(dc_queue_chunks) =? 0) || (MAX_DECODE_QUEUE_CHUNKS <? c.(dc_queue_chunks)) then
    Err (decode_error DecodeInvalidConfiguration
           "decoder queue chunk count is outside the supported range")
  else if (c.(dc_max_source_bytes) =? 0) || (MAX_SOURCE_BYTES <? c.(dc_max_source_bytes)) then
    Err (decode_error DecodeInvalidConfiguration
           "decoder source byte limit is outside the supported range")
  else Ok c.

Definition maximum_queued_duration_ms (c : StreamingDecodeConfig) : Z :=
  let chunk_frames := try_from_or_max u64_max c.(dc_chunk_frames) in
  let queue_chunks := try_from_or_max u64_max c.(dc_queue_chunks) in
  saturating_mul u64_max (saturating_mul u64_max chunk_frames queue_chunks) 1000
  / CANONICAL_SAMPLE_RATE_HZ.

(** ** Facts, lifecycle and counters *)

Record DecodeStreamInfo : Type := mkDecodeStreamInfo {
si_format : AudioFormat;
si_source_sample_rate_hz : option Z;
si_source_channels : option Z;
si_source_duration_ms : option Z;
si_source_byte_length : Z
}.

Inductive DecodeWorkerState : Type :=
| DecodeRunning
| DecodeCompleted
| DecodeWorkerCancelled
| DecodeFailed.

Record DecodeStatistics : Type := mkDecodeStatistics {
ds_state : DecodeWorkerState;
ds_queued_chunks : Z;
ds_queue_capacity_chunks : Z;
ds_maximum_queued_duration_ms : Z;
ds_backpressure_events : Z;
ds_emitted_frames : Z
}.

Record DecodeSummary : Type := mkDecodeSummary {
decoded_state : DecodeWorkerState;
decoded_emitted_frames : Z;
decoded_backpressure_events : Z
}.

(** The state as the atomic of [SharedStatistics] stores it (decoder.rs). *)
Definition state_to_usize (s : DecodeWorkerState) : Z :=
  match s with
  | DecodeRunning => 0 | DecodeCompleted => 1 | DecodeWorkerCancelled => 2 | DecodeFailed => 3
  end.

Definition usize_to_state (v : Z) : DecodeWorkerState :=
  if v =? 1 then DecodeCompleted else if v =? 2 then DecodeWorkerCancelled
  else if v =? 3 then DecodeFailed else DecodeRunning.

Lemma state_usize_roundtrip (s : DecodeWorkerState) : usize_to_state (state_to_usize s) = s.
Proof. by destruct s. Qed.

(** What an accepted configuration guarantees the worker. *)
Lemma validated_config (c c' : StreamingDecodeConfig) :
  0 <= c.(dc_chunk_frames) -> 0 <= c.(dc_queue_chunks) -> 0 <= c.(dc_max_source_bytes) ->
  StreamingDecodeConfig_validate c = Ok c' ->
  c' = c /\ 1 <= c.(dc_chunk_frames) <= MAX_DECODE_CHUNK_FRAMES
  /\ 1 <= c.(dc_queue_chunks) <= MAX_DECODE_QUEUE_CHUNKS
  /\ maximum_queued_duration_ms c = c.(dc_chunk_frames) * c.(dc_queue_chunks) * 1000 / 48000
  /\ maximum_queued_duration_ms c <= 64000.
Proof.
  intros H1 H2 H3. unfold StreamingDecodeConfig_validate. split_match; [done|].
  split_match; [done|]. split_match; [done|]. intros [= <-]. to_prop.
  unfold MAX_DECODE_CHUNK_FRAMES, MAX_DECODE_QUEUE_CHUNKS in *.
  assert (maximum_queued_duration_ms c = dc_chunk_frames c * dc_queue_chunks c * 1000 / 48000) as Hd.
  { unfold maximum_queued_duration_ms, try_from_or_max, saturating_mul, u64_max.
    rewrite !(proj2 (Z.leb_le _ _)) by lia. rewrite !Z.min_l by nia. done. }
  split_and!; try done; try lia. rewrite Hd. apply Z.div_le_upper_bound; nia.
Qed.
