(* ===== verification/Resampler.v ===== *)
(** The incremental stereo resampler
    (src/rust/silent-disco-core/src/audio/resampler.rs): linear interpolation
    to the canonical 48 kHz, keeping one source frame between the batches the
    decoder hands it. *)
From Stdlib Require Import ZArith Lia SpecFloat Strings.String.
From stdpp Require Import numbers list prelude.
From S2P Require Import Prelude Float64 Utf8 Interleaving Packetizer DecodeTypes.

(** ** Single-precision arithmetic the source uses *)

Definition f32_add : f32 -> f32 -> f32 := SFadd 24 128.
Definition f32_sub : f32 -> f32 -> f32 := SFsub 24 128.

Definition u128_max : Z := 2 ^ 128 - 1.

(** One stereo frame, [[f32; 2]]. *)
Definition frame : Type := f32 * f32.

(** ** State *)

Record StereoResampler : Type := mkStereoResampler {
rs_source_rate_hz : Z;
rs_next_output_frame : Z;
rs_source_frames_seen : Z;
rs_previous_frame : option frame
}.

Definition StereoResampler_new (source_rate_hz : Z) : result StereoResampler DecodeError :=
  if negb (in_range MIN_SOURCE_SAMPLE_RATE_HZ MAX_SOURCE_SAMPLE_RATE_HZ source_rate_hz) then
    Err (decode_error DecodeUnsupportedFormat
           "source sample rate is outside the supported 8 kHz to 192 kHz range")
  else Ok (mkStereoResampler source_rate_hz 0 0 None).

Definition set_next_output (n : Z) (r : StereoResampler) : StereoResampler :=
  mkStereoResampler r.(rs_source_rate_hz) n r.(rs_source_frames_seen) r.(rs_previous_frame).

Definition end_batch (last : option frame) (batch_end : Z) (r : StereoResampler) : StereoResampler :=
  mkStereoResampler r.(rs_source_rate_hz) r.(rs_next_output_frame) batch_end
    (match last with Some f => Some f | None => r.(rs_previous_frame) end).

(** ** Operations *)

Definition resource_limit (message : string) : DecodeError := decode_error DecodeResourceLimit message.

Definition frame_at {t : target} (r : StereoResampler) (absolute_index batch_start : Z)
  (frames : list frame) : result frame DecodeError :=
  if absolute_index <? batch_start then
    if bool_decide (checked_add u64_max absolute_index 1 = Some batch_start) then
      ok_or r.(rs_previous_frame)
        (decode_error DecodeCorruptInput "resampler is missing the previous source frame")
    else Err (resource_limit "resampler requested source data outside the bounded window")
  else if usize_max <? absolute_index - batch_start then
    Err (resource_limit "resampler local source index exceeded the supported range")
  else
    ok_or (frames !! Z.to_nat (absolute_index - batch_start))
      (decode_error DecodeCorruptInput "resampler requested a missing decoded source frame").

Definition interpolate (base_frame next_frame : frame) (fraction : f32) : frame :=
  (f32_add base_frame.1 (f32_mul (f32_sub next_frame.1 base_frame.1) fraction),
   f32_add base_frame.2 (f32_mul (f32_sub next_frame.2 base_frame.2) fraction)).

(** [(position_numerator % target_rate) as f32 / CANONICAL_SAMPLE_RATE_HZ as f32]. *)
Definition fraction_of (position_numerator : Z) : f32 :=
  f32_div (f32_of_Z (position_numerator mod CANONICAL_SAMPLE_RATE_HZ))
    (f32_of_Z CANONICAL_SAMPLE_RATE_HZ).

Section Push.
Context {t : target} {S : Type}.
(** The caller's [output] closure over its own state. *)
Context (output : frame -> prog S DecodeError unit).
Context (frames : list frame) (end_of_stream : bool) (batch_start batch_end : Z).

(** Whether the loop is left at this position. *)
Definition batch_exhausted (position_numerator next : Z) : result bool DecodeError :=
  if end_of_stream then
    let? stream_numerator :=
      ok_or (checked_mul u128_max batch_end CANONICAL_SAMPLE_RATE_HZ)
        (resource_limit "resampler stream duration arithmetic overflowed") in
    Ok ((batch_end =? 0) || (stream_numerator <=? position_numerator))
  else Ok (batch_end <=? next).

(** One iteration of the loop of [push]. *)
Definition resample_step (_ : unit) : prog (StereoResampler * S) DecodeError (unit + unit) :=
  rs ← get;
  position_numerator ← lift (ok_or
    (checked_mul u128_max rs.1.(rs_next_output_frame) rs.1.(rs_source_rate_hz))
    (resource_limit "resampler position arithmetic overflowed"));
  base ← lift (let base := position_numerator / CANONICAL_SAMPLE_RATE_HZ in
               if base <=? u64_max then Ok base
               else Err (resource_limit "resampler source position exceeded the supported range"));
  next ← lift (ok_or (checked_add u64_max base 1)
                 (resource_limit "resampler interpolation index overflowed"));
  stop ← lift (batch_exhausted position_numerator next);
  if (stop : bool) then mret (inr tt)
  else
    base_frame ← lift (frame_at rs.1 base batch_start frames);
    next_frame ← lift (if next <? batch_end then frame_at rs.1 next batch_start frames
                       else Ok base_frame);
    _ ← on_snd (output (interpolate base_frame next_frame (fraction_of position_numerator)));
    following ← lift (ok_or (checked_add u64_max rs.1.(rs_next_output_frame) 1)
                        (resource_limit "canonical output frame index overflowed"));
    _ ← modify (fun rs => (set_next_output following rs.1, rs.2));
    mret (inl tt).
End Push.

(** Output positions the loop can still reach; the loop of [push] runs at
    most this often. *)
Definition output_bound (r : StereoResampler) (batch_end : Z) : nat :=
  Z.to_nat (batch_end * CANONICAL_SAMPLE_RATE_HZ / r.(rs_source_rate_hz) + 1
            - r.(rs_next_output_frame)).

Definition resampler_push {t : target} {S : Type} (frames : list frame) (end_of_stream : bool)
  (output : frame -> prog S DecodeError unit) : prog (StereoResampler * S) DecodeError unit :=
  rs ← get;
  let batch_start := rs.1.(rs_source_frames_seen) in
  batch_frames ← lift (if len frames <=? u64_max then Ok (len frames)
    else Err (resource_limit "decoded source frame count does not fit the supported index range"));
  batch_end ← lift (ok_or (checked_add u64_max batch_start batch_frames)
                      (resource_limit "decoded source frame index overflowed"));
  _ ← loop_n (Datatypes.S (output_bound rs.1 batch_end))
        (resample_step output frames end_of_stream batch_start batch_end) tt;
  modify (fun rs => (end_batch (last frames) batch_end rs.1, rs.2)).

(** ** Reference

    The whole source at once: output frame [k] lies at source position
    [k * rate / 48000], between two neighbouring source frames; past the last
    one there is nothing to interpolate towards. *)

Definition source_position (rate k : Z) : Z := k * rate / CANONICAL_SAMPLE_RATE_HZ.

Definition silent_frame : frame := (S754_zero false, S754_zero false).

Definition source_frame (source : list frame) (i : Z) : frame :=
  default silent_frame (source !! Z.to_nat i).

Definition resampled_frame (rate : Z) (source : list frame) (k : nat) : frame :=
  let base := source_position rate (Z.of_nat k) in
  let base_frame := source_frame source base in
  let next_frame := if base + 1 <? len source then source_frame source (base + 1) else base_frame in
  interpolate base_frame next_frame (fraction_of (Z.of_nat k * rate)).

(** Frames of a source of [n] frames at the canonical rate: its duration,
    rounded up. *)
Definition resampled_length (rate n : Z) : nat :=
  Z.to_nat ((n * CANONICAL_SAMPLE_RATE_HZ + rate - 1) / rate).

Definition resample (rate : Z) (source : list frame) : list frame :=
  map (resampled_frame rate source) (seq 0 (resampled_length rate (len source))).

(** The decoder's use of the resampler: the batches in order, then the end of
    the stream, the output collected in order. *)
Definition collect (f : frame) : prog (list frame) DecodeError unit := modify (fun out => out ++ [f]).

Definition push_batches {t : target} {S : Type} (output : frame -> prog S DecodeError unit)
  (batches : list (list frame)) : prog (StereoResampler * S) DecodeError unit :=
  _ ← for_each (fun batch => resampler_push batch false output) batches;
  resampler_push [] true output.

(** ** Positions *)

Section Positions.
Context (rate : Z) (Hrate : MIN_SOURCE_SAMPLE_RATE_HZ <= rate <= MAX_SOURCE_SAMPLE_RATE_HZ).

Lemma source_position_mono (a b : Z) : a <= b -> source_position rate a <= source_position rate b.
Proof.
  intros H. unfold source_position, MIN_SOURCE_SAMPLE_RATE_HZ, CANONICAL_SAMPLE_RATE_HZ in *.
  apply Z.div_le_mono; nia.
Qed.

Lemma source_position_nonneg (k : Z) : 0 <= k -> 0 <= source_position rate k.
Proof.
  intros H. unfold source_position, MIN_SOURCE_SAMPLE_RATE_HZ, CANONICAL_SAMPLE_RATE_HZ in *.
  apply Z.div_pos; nia.
Qed.

(** Position [k] falls inside a source of [n] frames exactly when [k] is an
    output frame of that source. *)
Lemma source_position_lt (k n : Z) :
  0 <= n -> source_position rate k < n <-> k * rate < n * CANONICAL_SAMPLE_RATE_HZ.
Proof.
  intros Hn. unfold source_position, CANONICAL_SAMPLE_RATE_HZ. split; intros H.
  - pose proof (Z.mul_succ_div_gt (k * rate) 48000 ltac:(lia)). nia.
  - apply Z.div_lt_upper_bound; lia.
Qed.

Lemma resampled_length_spec (k n : Z) :
  0 <= n -> 0 <= k ->
  k < Z.of_nat (resampled_length rate n) <-> source_position rate k < n.
Proof.
  intros Hn Hk. rewrite source_position_lt by done. unfold resampled_length.
  unfold MIN_SOURCE_SAMPLE_RATE_HZ, CANONICAL_SAMPLE_RATE_HZ in *.
  rewrite Z2Nat.id by (apply Z.div_pos; nia). split; intros H.
  - assert (k + 1 <= (n * 48000 + rate - 1) / rate) as H1 by lia.
    pose proof (Z.mul_div_le (n * 48000 + rate - 1) rate ltac:(lia)). nia.
  - assert (k + 1 <= (n * 48000 + rate - 1) / rate); [|lia].
    apply Z.div_le_lower_bound; nia.
Qed.

(** An output frame that does not touch the end of the source does not change
    when the source grows. *)
Lemma resampled_frame_prefix (source more : list frame) (k : nat) :
  source_position rate (Z.of_nat k) + 1 < len source ->
  resampled_frame rate (source ++ more) k = resampled_frame rate source k.
Proof.
  intros H. pose proof (source_position_nonneg (Z.of_nat k) ltac:(lia)) as H0.
  pose proof (len_nonneg more).
  assert (forall i, 0 <= i < len source -> source_frame (source ++ more) i = source_frame source i) as Hs.
  { intros i Hi. unfold source_frame. rewrite lookup_app_l; [done|]. unfold len in Hi. lia. }
  unfold resampled_frame. rewrite len_app.
  rewrite !(proj2 (Z.ltb_lt _ _)) by lia. by rewrite !Hs by lia.
Qed.

Lemma output_bound_left (k batch_end : Z) :
  0 <= k -> 0 <= batch_end -> source_position rate k < batch_end ->
  k <= batch_end * CANONICAL_SAMPLE_RATE_HZ / rate.
Proof.
  intros Hk Hb H. apply source_position_lt in H; [|done].
  unfold MIN_SOURCE_SAMPLE_RATE_HZ in *. apply Z.div_le_lower_bound; lia.
Qed.
End Positions.

(** ** Correctness of one batch *)

(** After the frames of [source]: every output frame that needs nothing
    beyond [source] has been produced, the next one has not. *)
Record resampled_upto (rate : Z) (source : list frame) (r : StereoResampler) : Prop := {
ru_rate : r.(rs_source_rate_hz) = rate;
ru_seen : r.(rs_source_frames_seen) = len source;
ru_previous : r.(rs_previous_frame) = last source;
ru_next : 0 <= r.(rs_next_output_frame);
ru_before : forall k, 0 <= k < r.(rs_next_output_frame) -> source_position rate k + 1 < len source;
ru_after : len source <= source_position rate r.(rs_next_output_frame) + 1
}.

(** The frames produced so far. *)
Definition produced (rate : Z) (source : list frame) (n : Z) : list frame :=
  map (resampled_frame rate source) (seq 0 (Z.to_nat n)).

Lemma produced_snoc (rate : Z) (source : list frame) (n : Z) :
  0 <= n ->
  produced rate source (n + 1) = produced rate source n ++ [resampled_frame rate source (Z.to_nat n)].
Proof.
  intros H. unfold produced. replace (Z.to_nat (n + 1)) with (Z.to_nat n + 1)%nat by lia.
  by rewrite seq_app, map_app.
Qed.

Lemma resampler_new_upto (rate : Z) (r : StereoResampler) :
  StereoResampler_new rate = Ok r ->
  MIN_SOURCE_SAMPLE_RATE_HZ <= rate <= MAX_SOURCE_SAMPLE_RATE_HZ /\ resampled_upto rate [] r
  /\ r.(rs_next_output_frame) = 0.
Proof.
  unfold StereoResampler_new. destruct (in_range _ _ _) eqn:E; [|done]. intros [= <-].
  apply in_range_iff in E. split_and!; try done; try lia.
  split; cbn; try done; lia.
Qed.

Lemma frame_at_ok {t : target} (rate : Z) (source frames : list frame) (r : StereoResampler) (i : Z) :
  resampled_upto rate source r -> len (source ++ frames) < u64_max -> len frames <= usize_max ->
  0 <= i -> len source - 1 <= i < len (source ++ frames) ->
  frame_at r i (len source) frames = Ok (source_frame (source ++ frames) i).
Proof.
  intros Hr Hmax Hus Hi Hrange. rewrite len_app in *. unfold frame_at, source_frame.
  destruct (i <? len source) eqn:E; to_prop.
  - assert (i + 1 = len source) as Hl by lia.
    unfold checked_add. rewrite (proj2 (Z.leb_le _ _)) by (pose proof (len_nonneg frames); lia).
    rewrite Hl, bool_decide_eq_true_2 by done. rewrite (ru_previous _ _ _ Hr), last_lookup.
    unfold len in Hl. rewrite lookup_app_l by lia.
    replace (Z.to_nat i) with (pred (length source)) by lia.
    destruct (source !! pred (length source)) eqn:El; [done|].
    apply lookup_ge_None in El. lia.
  - unfold len in *. rewrite (proj2 (Z.ltb_ge _ _)) by lia. rewrite lookup_app_r by lia.
    replace (Z.to_nat i - length source)%nat with (Z.to_nat (i - Z.of_nat (length source))) by lia.
    destruct (frames !! _) eqn:El; [done|]. apply lookup_ge_None in El. lia.
Qed.

Section Batch.
Context {t : target} {S : Type} (rate : Z).
Context (Hrate : MIN_SOURCE_SAMPLE_RATE_HZ <= rate <= MAX_SOURCE_SAMPLE_RATE_HZ).
(** What the caller's sink holds after the frames [fs], and what happens when
    it fails or is observed halfway. *)
Context (output : frame -> prog S DecodeError unit) (J : list frame -> S -> Prop).
Context (X : DecodeError -> S -> Prop) (U : S -> Prop).
Context (goal : list frame).
Context (Houtput : forall fs f s, J fs s -> fs ++ [f] `prefix_of` goal ->
           wpc (output f) (fun _ s => J (fs ++ [f]) s) X U s).
Context (source frames : list frame) (end_of_stream : bool) (r : StereoResampler).
Context (Hr : resampled_upto rate source r).
Context (Hlen : 6 * len (source ++ frames) + 2 <= u64_max) (Hus : len frames <= usize_max).

(** Whether output frame [k] is produced by this batch. *)
Definition batch_needs (k : Z) : Prop :=
  source_position rate k + (if end_of_stream then 0 else 1) < len (source ++ frames).

(** What the batch produces is part of the whole output. *)
Context (Hgoal : forall k, 0 <= k -> batch_needs k ->
           produced rate (source ++ frames) (k + 1) `prefix_of` goal).

Lemma batch_exhausted_spec (k : Z) :
  0 <= k -> k * rate <= u128_max -> exists stop,
  batch_exhausted end_of_stream (len (source ++ frames)) (k * rate) (source_position rate k + 1) = Ok stop
  /\ (stop = false <-> batch_needs k).
Proof.
  intros Hk Hm. pose proof (len_nonneg (source ++ frames)) as H0.
  unfold batch_exhausted, batch_needs. destruct end_of_stream.
  - unfold checked_mul. rewrite (proj2 (Z.leb_le _ _)) by (unfold u128_max, u64_max, CANONICAL_SAMPLE_RATE_HZ in *; lia).
    cbn [ok_or]. eexists. split; [done|]. rewrite Z.add_0_r, source_position_lt by done.
    rewrite orb_false_iff, Z.eqb_neq, Z.leb_gt.
    unfold MIN_SOURCE_SAMPLE_RATE_HZ, CANONICAL_SAMPLE_RATE_HZ in *. nia.
  - eexists. split; [done|]. rewrite Z.leb_gt. lia.
Qed.

Definition loop_state (n : nat) (_ : unit) (rs : StereoResampler * S) : Prop :=
  exists k, rs.1 = set_next_output k r /\ r.(rs_next_output_frame) <= k
    /\ n = output_bound rs.1 (len (source ++ frames))
    /\ (forall j, 0 <= j < k -> batch_needs j)
    /\ J (produced rate (source ++ frames) k) rs.2.

Lemma batch_needs_bound (k : Z) :
  0 <= k -> batch_needs k -> k <= 6 * len (source ++ frames)
  /\ output_bound (set_next_output k r) (len (source ++ frames))
     = Datatypes.S (output_bound (set_next_output (k + 1) r) (len (source ++ frames))).
Proof.
  intros Hk Hn. pose proof (len_nonneg (source ++ frames)) as H0.
  assert (source_position rate k < len (source ++ frames)) as Hp
    by (unfold batch_needs in Hn; destruct end_of_stream; lia).
  pose proof (output_bound_left rate Hrate k _ Hk H0 Hp) as Hb.
  unfold output_bound. cbn [set_next_output rs_source_rate_hz rs_next_output_frame].
  rewrite (ru_rate _ _ _ Hr). split; [|lia].
  apply source_position_lt in Hp; [|done].
  unfold MIN_SOURCE_SAMPLE_RATE_HZ, CANONICAL_SAMPLE_RATE_HZ in *. nia.
Qed.

(** No counter of the loop overflows while only needed frames were produced. *)
Lemma position_fits (k : Z) :
  0 <= k -> (forall j, 0 <= j < k -> batch_needs j) ->
  k <= 6 * len (source ++ frames) + 1 /\ k * rate <= u128_max
  /\ 0 <= source_position rate k /\ source_position rate k + 1 <= u64_max.
Proof.
  intros Hk0 Hbefore. pose proof (len_nonneg (source ++ frames)) as H0.
  assert (k <= 6 * len (source ++ frames) + 1 /\ k * rate < u64_max * CANONICAL_SAMPLE_RATE_HZ) as [Hkb Hm].
  { unfold MAX_SOURCE_SAMPLE_RATE_HZ, MIN_SOURCE_SAMPLE_RATE_HZ, CANONICAL_SAMPLE_RATE_HZ, u64_max in *.
    destruct (decide (k = 0)) as [->|]; [lia|].
    destruct (batch_needs_bound (k - 1)) as [Hkb _]; [lia|apply Hbefore; lia|]. split; [lia|].
    assert (source_position rate (k - 1) < len (source ++ frames)) as Hp.
    { pose proof (Hbefore (k - 1) ltac:(lia)) as Hn. unfold batch_needs in Hn.
      destruct end_of_stream; lia. }
    apply source_position_lt in Hp; [|done]. unfold CANONICAL_SAMPLE_RATE_HZ in *. nia. }
  split_and!; [done| |by apply source_position_nonneg|].
  - unfold u128_max, u64_max, CANONICAL_SAMPLE_RATE_HZ in *. lia.
  - assert (source_position rate k < u64_max); [|lia]. by apply source_position_lt.
Qed.

Lemma resample_step_spec (n : nat) (l : unit) (rs : StereoResampler * S) :
  loop_state n l rs ->
  wpc (resample_step output frames end_of_stream (len source) (len (source ++ frames)) l)
    (fun o rs => match o with
                 | inl l => exists m, n = Datatypes.S m /\ loop_state m l rs
                 | inr _ => (exists m, loop_state m tt rs) /\ ~ batch_needs rs.1.(rs_next_output_frame)
                 end)
    (fun e rs => X e rs.2) (fun rs => U rs.2) rs.
Proof.
  destruct rs as [q s]. intros (k & Hq & Hk & Hn & Hbefore & HJ). cbn [fst snd] in *.
  assert (0 <= k) as Hk0 by (pose proof (ru_next _ _ _ Hr); lia).
  assert (q.(rs_next_output_frame) = k /\ q.(rs_source_rate_hz) = rate) as [Hqn Hqr]
    by (subst q; split; [done|apply Hr]).
  destruct (position_fits k Hk0 Hbefore) as (Hkb & Hm & Hp0 & Hp1).
  unfold resample_step. apply wpc_bind, wpc_get. apply wpc_bind, wpc_lift. cbn [fst].
  rewrite Hqn, Hqr. unfold checked_mul at 1. rewrite (proj2 (Z.leb_le _ _)) by done. cbn [ok_or].
  apply wpc_bind, wpc_lift. fold (source_position rate k). rewrite (proj2 (Z.leb_le _ _)) by lia.
  apply wpc_bind, wpc_lift. unfold checked_add at 1. rewrite (proj2 (Z.leb_le _ _)) by lia. cbn [ok_or].
  destruct (batch_exhausted_spec k Hk0 Hm) as (stop & Hstop & Hneeds).
  apply wpc_bind, wpc_lift. rewrite Hstop. destruct stop.
  - apply wpc_ret. split; [by exists n, k|]. cbn [fst]. rewrite Hqn. intros Hc. by apply Hneeds in Hc.
  - pose proof (proj1 Hneeds eq_refl) as Hnd. destruct (batch_needs_bound k Hk0 Hnd) as [Hkb' Hob].
    assert (source_position rate k < len (source ++ frames)) as Hpl
      by (unfold batch_needs in Hnd; destruct end_of_stream; lia).
    assert (len source - 1 <= source_position rate k) as Hps.
    { pose proof (ru_after _ _ _ Hr).
      pose proof (source_position_mono rate Hrate (rs_next_output_frame r) k Hk). lia. }
    assert (forall i, frame_at q i (len source) frames = frame_at r i (len source) frames) as Hfr
      by (intros; subst q; done).
    apply wpc_bind, wpc_lift. rewrite Hfr, (frame_at_ok rate source) by (done || lia).
    apply wpc_bind, wpc_lift.
    assert ((if source_position rate k + 1 <? len (source ++ frames)
             then frame_at q (source_position rate k + 1) (len source) frames
             else Ok (source_frame (source ++ frames) (source_position rate k)))
            = Ok (if source_position rate k + 1 <? len (source ++ frames)
                  then source_frame (source ++ frames) (source_position rate k + 1)
                  else source_frame (source ++ frames) (source_position rate k))) as ->.
    { destruct (_ <? _) eqn:E; [|done]. to_prop. rewrite Hfr. apply (frame_at_ok rate source); done || lia. }
    pose proof (Hgoal k Hk0 Hnd) as Hpre. rewrite produced_snoc in Hpre by done.
    unfold resampled_frame in Hpre. rewrite Z2Nat.id in Hpre by done.
    apply wpc_bind. eapply wpc_mono; [exact (wpc_on_snd _ _ _ _ q s (Houtput _ _ s HJ Hpre))|..]; try done.
    cbn beta. intros _ [q' s'] [Hq' HJ']. cbn [fst snd] in Hq', HJ'. subst q'.
    apply wpc_bind, wpc_lift. unfold checked_add. rewrite (proj2 (Z.leb_le _ _)) by lia. cbn [ok_or].
    apply wpc_bind, wpc_modify, wpc_ret. cbn [fst snd]. rewrite Hn, Hq, Hob. eexists. split; [done|].
    exists (k + 1). subst q. cbn [fst snd]. split_and!; try done; [lia| |].
    + intros j Hj. destruct (decide (j = k)) as [->|]; [done|]. apply Hbefore. lia.
    + rewrite produced_snoc by done. unfold resampled_frame. rewrite Z2Nat.id by done. exact HJ'.
Qed.

(** One call of [push]: it hands the sink exactly the frames this batch makes
    computable and no call of it fails by itself. *)
Lemma resampler_push_spec (s : S) :
  J (produced rate (source ++ frames) r.(rs_next_output_frame)) s ->
  wpc (resampler_push frames end_of_stream output)
    (fun _ rs => exists k, rs.1 = end_batch (last frames) (len (source ++ frames)) (set_next_output k r)
       /\ r.(rs_next_output_frame) <= k /\ (forall j, 0 <= j < k -> batch_needs j) /\ ~ batch_needs k
       /\ J (produced rate (source ++ frames) k) rs.2)
    (fun e rs => X e rs.2) (fun rs => U rs.2) (r, s).
Proof.
  intros HJ. pose proof (len_nonneg source) as Hl. pose proof (len_nonneg frames) as Hl'.
  pose proof Hlen as Hlen'. rewrite len_app in Hlen'.
  unfold resampler_push. apply wpc_bind, wpc_get. apply wpc_bind, wpc_lift. cbn [fst].
  rewrite (proj2 (Z.leb_le _ _)) by lia. apply wpc_bind, wpc_lift. unfold checked_add.
  rewrite (ru_seen _ _ _ Hr), (proj2 (Z.leb_le _ _)) by lia. cbn [ok_or]. rewrite <- len_app.
  apply wpc_bind.
  eapply wpc_mono;
    [eapply (wpc_loop_total (output_bound r (len (source ++ frames))) _ _ loop_state);
       [|apply Nat.lt_succ_diag_r|exact resample_step_spec]
    |..]; cbn beta; try done.
  - exists r.(rs_next_output_frame). cbn [fst snd].
    split_and!; try done; [by destruct r|].
    + intros j Hj. pose proof (ru_before _ _ _ Hr j Hj). unfold batch_needs. rewrite len_app.
      destruct end_of_stream; lia.
  - intros _ [q s'] ((m & k & Hq & Hk & _ & Hbefore & HJ') & Hnot). cbn [fst snd] in *. subst q.
    apply wpc_modify. exists k. by split_and!.
Qed.
End Batch.

Lemma last_app_default {A : Type} (l k : list A) :
  last (l ++ k) = match last k with Some x => Some x | None => last l end.
Proof.
  destruct (decide (k = [])) as [->|Hk]; [by rewrite app_nil_r|].
  rewrite last_app. by destruct (last k).
Qed.

Section Prefix.
Context (rate : Z) (Hrate : MIN_SOURCE_SAMPLE_RATE_HZ <= rate <= MAX_SOURCE_SAMPLE_RATE_HZ).

Lemma produced_prefix (source more : list frame) (n : Z) :
  (forall k, 0 <= k < n -> source_position rate k + 1 < len source) ->
  produced rate (source ++ more) n = produced rate source n.
Proof.
  intros H. unfold produced. apply map_ext_in. intros k Hk. apply in_seq in Hk.
  apply resampled_frame_prefix; [done|]. apply H. lia.
Qed.

Lemma produced_resample (total source : list frame) (k : Z) :
  source `prefix_of` total -> 0 <= k ->
  source_position rate k + 1 < len source \/ (source = total /\ source_position rate k < len source) ->
  produced rate source (k + 1) `prefix_of` resample rate total.
Proof.
  intros [more ->] Hk Hpos. pose proof (len_nonneg source). pose proof (len_nonneg more).
  assert (source_position rate k < len (source ++ more)) as Hlt
    by (rewrite len_app; lia).
  apply (resampled_length_spec rate Hrate) in Hlt; [|apply len_nonneg|done].
  assert (produced rate source (k + 1) = produced rate (source ++ more) (k + 1)) as ->.
  { destruct Hpos as [Hpos|[<- _]]; [|done].
    rewrite produced_prefix; [done|]. intros j Hj.
    pose proof (source_position_mono rate Hrate j k ltac:(lia)). lia. }
  unfold produced, resample.
  replace (resampled_length rate (len (source ++ more)))
    with (Z.to_nat (k + 1) + (resampled_length rate (len (source ++ more)) - Z.to_nat (k + 1)))%nat by lia.
  rewrite seq_app, map_app. by apply prefix_app_r.
Qed.
End Prefix.

Section Stream.
Context {t : target} {S : Type} (rate : Z).
Context (Hrate : MIN_SOURCE_SAMPLE_RATE_HZ <= rate <= MAX_SOURCE_SAMPLE_RATE_HZ).
Context (output : frame -> prog S DecodeError unit) (J : list frame -> S -> Prop).
Context (X : DecodeError -> S -> Prop) (U : S -> Prop).
Context (total : list frame).
Context (Houtput : forall fs f s, J fs s -> fs ++ [f] `prefix_of` resample rate total ->
           wpc (output f) (fun _ s => J (fs ++ [f]) s) X U s).

(** The resampler and its sink between two batches. *)
Definition streaming (source : list frame) (rs : StereoResampler * S) : Prop :=
  resampled_upto rate source rs.1 /\ J (produced rate source rs.1.(rs_next_output_frame)) rs.2.

Lemma push_batch_spec (source frames : list frame) (rs : StereoResampler * S) :
  streaming source rs -> source ++ frames `prefix_of` total ->
  6 * len (source ++ frames) + 2 <= u64_max -> len frames <= usize_max ->
  wpc (resampler_push frames false output) (fun _ rs => streaming (source ++ frames) rs)
    (fun e rs => X e rs.2) (fun rs => U rs.2) rs.
Proof.
  destruct rs as [r s]. intros [Hr HJ] Hpre Hlen Hus. cbn [fst snd] in *.
  eapply wpc_mono; [eapply (resampler_push_spec rate Hrate output J X U _ Houtput source frames false r Hr)|..];
    try done.
  - intros k Hk Hn. apply (produced_resample rate Hrate); try done. by left.
  - rewrite (produced_prefix rate Hrate); [done|apply Hr].
  - intros _ [q s'] (k & Hq & Hk & Hbefore & Hnot & HJ'). cbn [fst snd] in *. subst q.
    pose proof (ru_next _ _ _ Hr). unfold batch_needs in *.
    split; cbn [fst snd]; [|done]. split; cbn; try done; try lia; [apply Hr|].
    rewrite last_app_default, (ru_previous _ _ _ Hr). done.
Qed.

Lemma push_end_spec (rs : StereoResampler * S) :
  streaming total rs -> 6 * len total + 2 <= u64_max ->
  wpc (resampler_push [] true output) (fun _ rs => J (resample rate total) rs.2)
    (fun e rs => X e rs.2) (fun rs => U rs.2) rs.
Proof.
  destruct rs as [r s]. intros [Hr HJ] Hlen. cbn [fst snd] in *.
  rewrite <- (app_nil_r total) in HJ, Hlen at 1.
  eapply wpc_mono; [eapply (resampler_push_spec rate Hrate output J X U _ Houtput total [] true r Hr)|..];
    try done; [cbn; unfold usize_max; by destruct t| |].
  { intros k Hk Hn. unfold batch_needs in Hn. rewrite app_nil_r in *.
    apply (produced_resample rate Hrate); try done. right. split; [done|lia]. }
  intros _ [q s'] (k & Hq & Hk & Hbefore & Hnot & HJ'). cbn [fst snd] in *.
  pose proof (ru_next _ _ _ Hr). unfold batch_needs in *. rewrite app_nil_r in *.
  pose proof (len_nonneg total) as Hl.
  unfold resample. replace (resampled_length rate (len total)) with (Z.to_nat k); [done|].
  destruct (decide (k < Z.of_nat (resampled_length rate (len total)))) as [Hc|Hc].
  - apply resampled_length_spec in Hc; lia.
  - destruct (decide (k = 0)) as [->|]; [lia|].
    pose proof (Hbefore (k - 1) ltac:(lia)) as Hb. rewrite Z.add_0_r in Hb.
    apply (resampled_length_spec rate Hrate) in Hb; lia.
Qed.

(** Whatever batches the decoder cuts the source into, the sink receives
    exactly the resampled source. *)
Lemma push_batches_spec (batches : list (list frame)) (rs : StereoResampler * S) :
  concat batches = total -> streaming [] rs -> 6 * len (concat batches) + 2 <= u64_max ->
  Forall (fun b => len b <= usize_max) batches ->
  wpc (push_batches output batches) (fun _ rs => J (resample rate total) rs.2)
    (fun e rs => X e rs.2) (fun rs => U rs.2) rs.
Proof.
  intros Htot Hs Hlen Hus. unfold push_batches. apply wpc_bind.
  eapply wpc_mono;
    [apply (wpc_for_each _ (fun done rs => streaming (concat done) rs)
              (fun e rs => X e rs.2) (fun rs => U rs.2) batches [] rs Hs)|..];
    cbn beta; try done.
  - intros pre b post s' -> Hst. rewrite concat_app in *. cbn [app concat] in *.
    rewrite concat_app. cbn [concat]. rewrite app_nil_r.
    apply Forall_app in Hus as [_ Hus]. apply Forall_cons in Hus as [Hb _].
    apply push_batch_spec; try done.
    + rewrite <- Htot, app_assoc. by apply prefix_app_r.
    + rewrite app_assoc, len_app in Hlen. pose proof (len_nonneg (concat post)). lia.
  - intros _ rs' Hst. cbn [app] in Hst. rewrite Htot in Hst, Hlen. by apply push_end_spec.
Qed.
End Stream.

Lemma collect_spec (X : DecodeError -> list frame -> Prop) (U : list frame -> Prop)
  (fs : list frame) (f : frame) (out : list frame) :
  out = fs -> wpc (collect f) (fun _ out => out = fs ++ [f]) X U out.
Proof. by intros ->. Qed.

(** ** Properties *)

(** C30. Resampling does not depend on how the source is cut: for every accepted
    source rate and every division of the source into batches, the
    incremental resampler succeeds and produces exactly the frames of the
    one-shot reference, one for every canonical sample instant inside the
    source's duration, each interpolated between its two source neighbours. *)
Theorem resampling_ignores_batching {t : target} (rate : Z) (r : StereoResampler)
  (batches : list (list frame)) :
  StereoResampler_new rate = Ok r -> 6 * len (concat batches) + 2 <= u64_max ->
  Forall (fun b => len b <= usize_max) batches ->
  exists r', push_batches collect batches (r, []) = (Done tt, (r', resample rate (concat batches))).
Proof.
  intros Hnew Hlen Hus. apply resampler_new_upto in Hnew as (Hrate & Hr & Hn).
  pose proof (push_batches_spec rate Hrate collect (fun fs out => out = fs) (fun _ _ => False)
                (fun _ => False) (concat batches) (fun fs f s H _ => collect_spec _ _ fs f s H)
                batches (r, []) eq_refl) as H.
  unfold wpc in H. destruct (push_batches collect batches (r, [])) as [[[]| |] [r' out]];
    cbn in H; try (exfalso; apply H; try done; split; [done|]; cbn; by rewrite Hn).
  exists r'. rewrite H; try done. split; [done|]. cbn. by rewrite Hn.
Qed.

(** ** Witness *)

(** Three mono-ish frames at 24 kHz in two batches: six frames at 48 kHz. *)
Definition half_up (n : Z) : frame := (f32_div (f32_of_Z n) (f32_of_Z 2), f32_of_Z n).

Lemma resampling_ignores_batching_witness :
  exists r', push_batches (t := Target32) collect [[half_up 0; half_up 1]; []; [half_up 2]]
    (mkStereoResampler 24000 0 0 None, [])
  = (Done tt, (r', map (fun n => (f32_div (f32_of_Z n) (f32_of_Z 4), f32_div (f32_of_Z n) (f32_of_Z 2)))
                     [0; 1; 2; 3; 4; 4])).
Proof.
  destruct (resampling_ignores_batching (t := Target32) 24000 (mkStereoResampler 24000 0 0 None)
              [[half_up 0; half_up 1]; []; [half_up 2]]) as [r' H].
  - reflexivity.
  - vm_compute. discriminate.
  - repeat apply List.Forall_cons; try apply List.Forall_nil; vm_compute; discriminate.
  - exists r'. rewrite H. vm_compute. reflexivity.
Defined.
