(* ===== verification/MediaSource.v ===== *)
(** Opening a media source
    (src/rust/silent-disco-core/src/audio/source.rs): the checks made before a
    decode worker starts and the classification of the media library's
    errors. The file system and the media library (symphonia) are data of the
    model: what they answer is recorded in a [SourceFile]. *)
From Stdlib Require Import ZArith Lia Strings.String.
From stdpp Require Import numbers list prelude.
From S2P Require Import Prelude Utf8 Packetizer DecodeTypes Resampler.

Definition MAX_DECODED_PACKET_FRAMES : Z := 65536.
Definition MAX_ID3V2_METADATA_BYTES : Z := 16 * 1024 * 1024.

(** ** Errors of the environment *)

Record IoError : Type := mkIoError {
io_unexpected_eof : bool;
io_display : rstr
}.

Inductive SymphoniaError : Type :=
| SymphoniaIo (error : IoError)
| SymphoniaDecode (detail : rstr)
| SymphoniaUnsupported (detail : rstr)
| SymphoniaLimit (detail : rstr)
| SymphoniaResetRequired
| SymphoniaOther (display : rstr).

Definition map_io_error (error : IoError) (operation : string) : DecodeError :=
  mkDecodeError (if error.(io_unexpected_eof) then DecodeCorruptInput else DecodeIo)
    (lit "could not " ++ lit operation ++ lit ": " ++ error.(io_display)).

Definition map_symphonia_error (error : SymphoniaError) (metadata_prefixed : bool) : DecodeError :=
  match error with
  | SymphoniaIo e =>
      if metadata_prefixed && e.(io_unexpected_eof)
      then mkDecodeError DecodeInvalidMetadata (lit "invalid source metadata: " ++ e.(io_display))
      else map_io_error e "decode source"
  | SymphoniaDecode detail =>
      mkDecodeError DecodeCorruptInput (lit "corrupt audio source: " ++ detail)
  | SymphoniaUnsupported detail =>
      mkDecodeError DecodeUnsupportedFormat (lit "unsupported audio source: " ++ detail)
  | SymphoniaLimit detail =>
      mkDecodeError DecodeResourceLimit (lit "audio source exceeded a decoder limit: " ++ detail)
  | SymphoniaResetRequired =>
      decode_error DecodeFormatChanged
        "audio source requested an unsupported mid-stream decoder reset"
  | SymphoniaOther display =>
      mkDecodeError DecodeCorruptInput (lit "audio source could not be decoded: " ++ display)
  end.

(** ** Format and metadata checks *)

Definition validate_declared_format (sample_rate_hz channels : option Z) : result unit DecodeError :=
  let? _ := match sample_rate_hz with
            | Some rate => map_ok (fun _ => tt) (StereoResampler_new rate)
            | None => Ok tt
            end in
  if match channels with
     | Some value => (value =? 0) || (MAX_SOURCE_CHANNELS <? value) | None => false end
  then Err (decode_error DecodeUnsupportedFormat "only mono and stereo sources are supported")
  else Ok tt.

(** [b"ID3"]. *)
Definition ID3_MAGIC : list Z := [73; 68; 51].

(** The sync-safe size: [value << 7 | byte] over four bytes. *)
Definition id3_payload_length (size_bytes : list Z) : Z :=
  fold_left (fun value byte => Z.lor (Z.shiftl value 7) byte) size_bytes 0.

(** [header] is what one [read] into a ten-byte buffer returned. *)
Definition inspect_id3v2_prefix (header : result (list Z) IoError) (source_length : Z) :
  result bool DecodeError :=
  let? header := map_err (fun e => map_io_error e "inspect metadata prefix") header in
  if (len header <? 3) || negb (bool_decide (take 3 header = ID3_MAGIC)) then Ok false
  else if len header <? 10 then
    Err (decode_error DecodeInvalidMetadata "ID3v2 metadata header is truncated")
  else
    let byte i := default 0 (header !! i) in
    if negb (in_range 2 4 (byte 3%nat)) || (byte 4%nat =? 255) then
      Err (decode_error DecodeInvalidMetadata "ID3v2 metadata version is invalid")
    else
      let size_bytes := take 4 (drop 6 header) in
      if existsb (fun b => negb (Z.land b 128 =? 0)) size_bytes then
        Err (decode_error DecodeInvalidMetadata "ID3v2 metadata size is not sync-safe")
      else
        let payload_length := id3_payload_length size_bytes in
        if MAX_ID3V2_METADATA_BYTES <? payload_length then
          Err (resource_limit "ID3v2 metadata exceeds the bounded metadata limit")
        else
          let? total_length := ok_or (checked_add u64_max payload_length 10)
                                 (resource_limit "ID3v2 metadata length overflowed") in
          if source_length <? total_length then
            Err (decode_error DecodeInvalidMetadata "ID3v2 metadata extends beyond the source file")
          else Ok true.

(** ** Opening *)

(** What the container declares about its audio track. *)
Record AudioParameters : Type := mkAudioParameters {
ap_sample_rate : option Z;
ap_channels : option Z;
ap_max_frames_per_packet : option Z
}.

(** One probed container: its default audio track, if any, with the audio
    parameters it carries and whether a decoder could be made for them. *)
Record ProbedTrack : Type := mkProbedTrack {
pt_id : Z;
pt_parameters : option AudioParameters;
pt_make_decoder : result unit SymphoniaError
}.

Record SourceFile : Type := mkSourceFile {
sf_metadata : result (bool * Z) IoError;
sf_header : result (list Z) IoError;
sf_open : result unit IoError;
sf_probe : result (option ProbedTrack) SymphoniaError
}.

Record OpenedSource : Type := mkOpenedSource {
os_track_id : Z;
os_stream_info : DecodeStreamInfo;
os_metadata_prefixed : bool
}.

Definition OpenedDecoder_open {t : target} (file : SourceFile) (config : StreamingDecodeConfig) :
  result OpenedSource DecodeError :=
  let? '(is_file, length) := map_err (fun e => map_io_error e "inspect source") file.(sf_metadata) in
  if negb (is_file : bool) then Err (decode_error DecodeIo "decoder source is not a regular file")
  else if length =? 0 then Err (decode_error DecodeEmptySource "decoder source is empty")
  else if config.(dc_max_source_bytes) <? length then
    Err (resource_limit "decoder source exceeds the configured byte limit")
  else
    let? metadata_prefixed := inspect_id3v2_prefix file.(sf_header) length in
    let? _ := map_err (fun e => map_io_error e "open source") file.(sf_open) in
    let? probed := map_err (fun e => map_symphonia_error e metadata_prefixed) file.(sf_probe) in
    let? track := ok_or probed
      (decode_error DecodeUnsupportedFormat "decoder source has no supported audio track") in
    let? parameters := ok_or track.(pt_parameters)
      (decode_error DecodeUnsupportedFormat "decoder source has no audio codec parameters") in
    let? _ := validate_declared_format parameters.(ap_sample_rate) parameters.(ap_channels) in
    if match parameters.(ap_max_frames_per_packet) with
       | Some frames => (usize_max <? frames) || (MAX_DECODED_PACKET_FRAMES <? frames)
       | None => false
       end
    then Err (resource_limit "declared decoded packet size exceeds the bounded source-frame limit")
    else
      let? _ := map_err (fun e => map_symphonia_error e metadata_prefixed) track.(pt_make_decoder) in
      let? source_channels :=
        match parameters.(ap_channels) with
        | Some value =>
            if value <=? u16_max then Ok (Some value)
            else Err (decode_error DecodeUnsupportedFormat
                        "source channel count exceeds the supported range")
        | None => Ok None
        end in
      Ok (mkOpenedSource track.(pt_id)
            (mkDecodeStreamInfo CANONICAL parameters.(ap_sample_rate) source_channels None length)
            metadata_prefixed).

(** ** Facts *)

(** A declared format that passes is one the decoder can convert. *)
Lemma declared_format_accepted (rate channels : option Z) :
  validate_declared_format rate channels = Ok tt <->
  (forall r, rate = Some r -> MIN_SOURCE_SAMPLE_RATE_HZ <= r <= MAX_SOURCE_SAMPLE_RATE_HZ)
  /\ (forall c, channels = Some c -> c <> 0 /\ c <= MAX_SOURCE_CHANNELS).
Proof.
  unfold validate_declared_format, StereoResampler_new. split.
  - intros H. ok_steps H; split; intros ? [= ->]; repeat split_match; simplify_eq; to_prop;
      rewrite ?in_range_iff in *; try done; lia.
  - intros [Hr Hc].
    assert (forall r, rate = Some r ->
      in_range MIN_SOURCE_SAMPLE_RATE_HZ MAX_SOURCE_SAMPLE_RATE_HZ r = true) as Hr'
      by (intros; apply in_range_iff; auto).
    assert (forall c, channels = Some c -> (c =? 0) || (MAX_SOURCE_CHANNELS <? c) = false) as Hc'.
    { intros c E. destruct (Hc c E). apply orb_false_iff. split; [by apply Z.eqb_neq|by apply Z.ltb_ge]. }
    destruct rate as [r|]; [rewrite (Hr' r eq_refl)|];
      (destruct channels as [c|]; [rewrite (Hc' c eq_refl)|]; reflexivity).
Qed.

Lemma sync_safe_step (value byte : Z) :
  0 <= value -> 0 <= byte < 128 -> Z.lor (Z.shiftl value 7) byte = value * 128 + byte.
Proof.
  intros Hv Hb. rewrite Z.shiftl_mul_pow2 by lia. change (2 ^ 7) with 128.
  assert (Z.land (value * 128) byte = 0) as Hl.
  { change 128 with (2 ^ 7). rewrite <- Z.shiftl_mul_pow2 by lia. apply Z.bits_inj'. intros i Hi.
    rewrite Z.land_spec, Z.bits_0. destruct (decide (i < 7)).
    - by rewrite Z.shiftl_spec_low.
    - rewrite (Z.bits_above_log2 byte), andb_false_r; [done|lia|].
      destruct (decide (byte = 0)) as [->|]; [cbn; lia|].
      assert (Z.log2 byte < 7); [|lia]. apply Z.log2_lt_pow2; lia. }
  rewrite Z.add_nocarry_lxor by done. by rewrite Z.lxor_lor.
Qed.

(** The tag size in base 128. *)
Lemma id3_payload_value (a b c d : Z) :
  0 <= a < 128 -> 0 <= b < 128 -> 0 <= c < 128 -> 0 <= d < 128 ->
  id3_payload_length [a; b; c; d] = ((a * 128 + b) * 128 + c) * 128 + d.
Proof.
  intros. unfold id3_payload_length. cbn [fold_left]. rewrite (sync_safe_step 0 a), (sync_safe_step _ b), (sync_safe_step _ c), (sync_safe_step _ d) by lia. lia.
Qed.

(** A tag that is accepted lies inside the file, header included. *)
Lemma id3_prefix_in_file (header : list Z) (source_length : Z) :
  inspect_id3v2_prefix (Ok header) source_length = Ok true ->
  take 3 header = ID3_MAGIC
  /\ id3_payload_length (take 4 (drop 6 header)) + 10 <= source_length
  /\ id3_payload_length (take 4 (drop 6 header)) <= MAX_ID3V2_METADATA_BYTES.
Proof.
  unfold inspect_id3v2_prefix. cbn [map_err]. unfold checked_add. intros H.
  repeat (ok_step H || (cbv zeta in H)); simplify_eq; to_prop; cbn [ok_or] in *.
  repeat split_match; simplify_eq; to_prop; cbn [ok_or] in *; simplify_eq. split_and!; try done; lia.
Qed.

(** An opened source respects every bound of its configuration. *)
Lemma opened_source_bounds {t : target} (file : SourceFile) (config : StreamingDecodeConfig)
  (opened : OpenedSource) :
  OpenedDecoder_open file config = Ok opened ->
  opened.(os_stream_info).(si_format) = CANONICAL
  /\ opened.(os_stream_info).(si_source_byte_length) <> 0
  /\ opened.(os_stream_info).(si_source_byte_length) <= config.(dc_max_source_bytes)
  /\ (forall r, opened.(os_stream_info).(si_source_sample_rate_hz) = Some r ->
        MIN_SOURCE_SAMPLE_RATE_HZ <= r <= MAX_SOURCE_SAMPLE_RATE_HZ)
  /\ (forall c, opened.(os_stream_info).(si_source_channels) = Some c ->
        c <> 0 /\ c <= MAX_SOURCE_CHANNELS).
Proof.
  unfold OpenedDecoder_open. intros H. repeat ok_step H. injection H as <-. cbn.
  match goal with E : validate_declared_format _ _ = Ok _ |- _ => rename E into Hv end.
  repeat match goal with u : unit |- _ => destruct u end.
  apply declared_format_accepted in Hv as [Hr Hc]. to_prop.
  repeat split_match; simplify_eq; split_and!; try done; try lia; intros ? E; simplify_eq; auto.
Qed.
