(* ===== verification/DecodeWorker.v ===== *)
(** The streaming decode worker
    (src/rust/silent-disco-core/src/audio/decoder.rs): decoded packets are
    converted to stereo, resampled to 48 kHz, quantised to signed 16-bit PCM
    and cut into chunks that pass through a bounded channel to the consumer.
    The media library is data of the model: the packets it yields and the
    buffers it decodes are recorded in an [OpenedDecoder]. *)
From Stdlib Require Import ZArith Lia SpecFloat Strings.String.
From stdpp Require Import numbers list prelude.
From S2P Require Import Prelude Float64 Utf8 Interleaving BoundedChannel Packetizer DecodeTypes Resampler MediaSource.

(** ** Sample conversion *)

(** [f32::round]: ties away from zero. *)
Definition f32_round (x : f32) : f32 :=
  match x with
  | S754_finite s m e =>
      if 0 <=? e then x
      else binary_normalize 24 128 (cond_Zopp s (round_half_away (Zpos m) e)) 0 s
  | _ => x
  end.

(** [x as i16]: truncation towards zero, saturating; NaN becomes zero. *)
Definition f32_to_i16 (x : f32) : Z :=
  match x with
  | S754_finite s m e =>
      Z.max (-32768) (Z.min 32767
        (cond_Zopp s (if 0 <=? e then Zpos m * 2 ^ e else Zpos m / 2 ^ (- e))))
  | S754_infinity s => if s then -32768 else 32767
  | _ => 0
  end.

Definition float_to_i16 (sample : f32) : Z :=
  let scaled := f32_mul (f64_clamp sample (f32_of_Z (-1)) (f32_of_Z 1)) (f32_of_Z 32767) in
  f32_to_i16 (f32_round scaled).

(** [samples.chunks_exact(2)]: the whole pairs and the remainder. *)
Fixpoint pairs_exact (samples : list f32) : list frame * list f32 :=
  match samples with
  | a :: b :: rest => let '(frames, remainder) := pairs_exact rest in ((a, b) :: frames, remainder)
  | remainder => ([], remainder)
  end.

Definition map_to_stereo (samples : list f32) (channels : Z) : result (list frame) DecodeError :=
  if channels =? 1 then Ok (map (fun sample => (sample, sample)) samples)
  else if channels =? 2 then
    match pairs_exact samples with
    | (stereo, []) => Ok stereo
    | _ => Err (decode_error DecodeCorruptInput "decoded stereo packet ended with a partial frame")
    end
  else Err (decode_error DecodeUnsupportedFormat "only mono and stereo sources are supported").

(** ** The media library's answers *)

(** One decoded buffer: its declared format and frame count, and its
    interleaved samples. *)
Record DecodedBuffer : Type := mkDecodedBuffer {
db_rate : Z;
db_channels : Z;
db_frames : Z;
db_samples : list f32
}.

Inductive packet_event : Type :=
| PacketError (error : SymphoniaError)
| Packet (track_id : Z) (decoded : result DecodedBuffer SymphoniaError).

Record OpenedDecoder : Type := mkOpenedDecoder {
od_packets : list packet_event;
od_verify_ok : option bool;
od_source : OpenedSource
}.

(** ** The shared world *)

(** The chunk channel and the worker state atomic. *)
Definition decode_world : Type := Channel DecodedPcmChunk * Z.

(** No other thread writes the state while the worker runs. *)
Definition decode_uenv (b : Empty_set) (state : Z) : Z := state.
Definition decode_env : chan_act Empty_set -> decode_world -> decode_world := chan_env decode_uenv.
Definition decode_state : Type := @scheduled decode_world (chan_act Empty_set).
Definition dprog (A : Type) : Type := prog decode_state DecodeError A.

Definition access {A : Type} (f : Channel DecodedPcmChunk -> A * Channel DecodedPcmChunk) : dprog A :=
  atomic decode_env (on_channel f).

(** ** Sending *)

Definition cancelled_error : DecodeError :=
  decode_error DecodeCancelled "streaming decode was cancelled".
Definition disconnected_error : DecodeError :=
  decode_error DecodeCancelled "decoded PCM consumer disconnected".

Definition ensure_not_cancelled : dprog unit :=
  cancelled ← access (fun c => (c.(ch_cancelled), c));
  if (cancelled : bool) then raise cancelled_error else mret tt.

Definition record_backpressure (recorded : bool) : dprog bool :=
  if recorded then mret true
  else _ ← access (fun c => (tt, count_backpressure c)); mret true.

(** One iteration of the loop of [send_with_backpressure]. *)
Definition send_step (chunk : DecodedPcmChunk) (capacity : Z) (recorded : bool) :
  dprog (bool + unit) :=
  _ ← ensure_not_cancelled;
  reserved ← access (reserve_slot capacity);
  if negb reserved then
    recorded ← record_backpressure recorded; mret (inl recorded)
  else
    sent ← access (try_send chunk);
    match sent with
    | Sent => mret (inr tt)
    | Full =>
        _ ← access (fun c => (tt, decrement_queued c));
        recorded ← record_backpressure recorded; mret (inl recorded)
    | Disconnected =>
        _ ← access (fun c => (tt, decrement_queued c));
        raise disconnected_error
    end.

Definition send_with_backpressure (chunk : DecodedPcmChunk) (capacity : Z) : dprog unit :=
  worker_loop (send_step chunk capacity) false.

(** ** The chunker *)

Record Chunker : Type := mkChunker {
ck_chunk_frames : Z;
ck_queue_capacity_chunks : Z;
ck_first_sample_index : Z;
ck_current : list Z;
ck_pending_full : option (list Z)
}.

Definition Chunker_new (chunk_frames queue_capacity_chunks : Z) : Chunker :=
  mkChunker chunk_frames queue_capacity_chunks 0 [] None.

Definition ck_set (current : list Z) (pending : option (list Z)) (c : Chunker) : Chunker :=
  mkChunker c.(ck_chunk_frames) c.(ck_queue_capacity_chunks) c.(ck_first_sample_index) current pending.

Definition ck_advance (first : Z) (c : Chunker) : Chunker :=
  mkChunker c.(ck_chunk_frames) c.(ck_queue_capacity_chunks) first c.(ck_current) c.(ck_pending_full).

Definition cprog (A : Type) : Type := prog (Chunker * decode_state) DecodeError A.

Definition get_chunker : cprog Chunker := s ← get; mret s.1.
Definition set_chunker (f : Chunker -> Chunker) : cprog unit := modify (fun s => (f s.1, s.2)).

Definition send_frames (frames : list Z) (end_of_stream : bool) : cprog unit :=
  c ← get_chunker;
  let frame_count := len frames / samples_per_frame CANONICAL in
  frame_count ← lift (if frame_count <=? u64_max then Ok frame_count
    else Err (resource_limit "canonical chunk frame count exceeded the supported range"));
  next_sample_index ← lift (ok_or (checked_add u64_max c.(ck_first_sample_index) frame_count)
                              (resource_limit "canonical sample index overflowed"));
  _ ← on_snd (send_with_backpressure
                (mkDecodedPcmChunk CANONICAL c.(ck_first_sample_index) frames end_of_stream)
                c.(ck_queue_capacity_chunks));
  _ ← set_chunker (ck_advance next_sample_index);
  on_snd (access (fun c => (tt, count_emitted frame_count c))).

Definition send_pending (end_of_stream : bool) : cprog unit :=
  c ← get_chunker;
  frames ← lift (ok_or c.(ck_pending_full)
    (decode_error DecodeWorkerPanicked "decoder chunker lost its pending bounded chunk"));
  _ ← set_chunker (fun c => ck_set c.(ck_current) None c);
  send_frames frames end_of_stream.

Definition chunker_push {t : target} (f : frame) : cprog unit :=
  c ← get_chunker;
  _ ← match c.(ck_pending_full) with Some _ => send_pending false | None => mret tt end;
  _ ← set_chunker (fun c => ck_set (c.(ck_current) ++ [float_to_i16 f.1; float_to_i16 f.2])
                              c.(ck_pending_full) c);
  c ← get_chunker;
  maximum_samples ← lift (ok_or
    (checked_mul usize_max c.(ck_chunk_frames) (samples_per_frame CANONICAL))
    (resource_limit "canonical chunk sample count overflowed"));
  if len c.(ck_current) =? maximum_samples
  then set_chunker (fun c => ck_set [] (Some c.(ck_current)) c)
  else mret tt.

Definition chunker_finish : cprog unit :=
  c ← get_chunker;
  match c.(ck_current) with
  | [] =>
      match c.(ck_pending_full) with Some _ => send_pending true | None => mret tt end
  | _ :: _ =>
      _ ← match c.(ck_pending_full) with Some _ => send_pending false | None => mret tt end;
      c ← get_chunker;
      _ ← set_chunker (fun c => ck_set [] c.(ck_pending_full) c);
      send_frames c.(ck_current) true
  end.

(** ** The worker *)

Record decode_locals : Type := mkDecodeLocals {
dl_source_spec : option (Z * Z);
dl_resampler : option StereoResampler;
dl_decoded_any : bool
}.

(** A call that borrows the local [resampler] mutably. *)
Definition with_resampler {S E A : Type} (r : StereoResampler) (m : prog (StereoResampler * S) E A) :
  prog S E StereoResampler := fun s =>
  match m (r, s) with
  | (Done _, (r, s)) => (Done r, s)
  | (Raised e, (_, s)) => (Raised e, s)
  | (Suspended, (_, s)) => (Suspended, s)
  end.

(** The body of the packet loop after [next_packet]. *)
Definition decode_packet {t : target} (opened : OpenedSource) (event : packet_event)
  (l : decode_locals) : cprog decode_locals :=
  match event with
  | PacketError e => raise (map_symphonia_error e opened.(os_metadata_prefixed))
  | Packet track_id decoded =>
      if negb (track_id =? opened.(os_track_id)) then mret l
      else
        decoded ← lift (map_err (fun e => map_symphonia_error e opened.(os_metadata_prefixed)) decoded);
        let spec := (decoded.(db_rate), decoded.(db_channels)) in
        _ ← lift (validate_declared_format (Some spec.1) (Some spec.2));
        if match l.(dl_source_spec) with
           | Some current => negb (bool_decide (current = spec)) | None => false end
        then raise (decode_error DecodeFormatChanged
                      "decoder source changed sample rate or channel count mid-stream")
        else
          let source_spec := match l.(dl_source_spec) with Some s => Some s | None => Some spec end in
          let frame_count := decoded.(db_frames) in
          if MAX_DECODED_PACKET_FRAMES <? frame_count then
            raise (resource_limit "one decoded packet exceeded the bounded source-frame limit")
          else
            expected_samples ← lift (ok_or (checked_mul usize_max frame_count spec.2)
              (resource_limit "decoded packet sample count overflowed"));
            if negb (len decoded.(db_samples) =? expected_samples) then
              raise (decode_error DecodeCorruptInput
                       "decoded packet reported an inconsistent frame and sample count")
            else
              stereo ← lift (map_to_stereo decoded.(db_samples) spec.2);
              active ← lift (match l.(dl_resampler) with
                             | Some r => Ok r | None => StereoResampler_new spec.1 end);
              active ← with_resampler active (resampler_push stereo false chunker_push);
              mret (mkDecodeLocals source_spec (Some active)
                      (l.(dl_decoded_any) || (0 <? frame_count)))
  end.

(** The packet loop: the cancellation check, then the next packet or the end. *)
Fixpoint decode_packets {t : target} (opened : OpenedSource) (packets : list packet_event)
  (l : decode_locals) : cprog decode_locals :=
  _ ← on_snd ensure_not_cancelled;
  match packets with
  | [] => mret l
  | event :: packets =>
      l ← decode_packet opened event l;
      decode_packets opened packets l
  end.

Definition decode_stream {t : target} (opened : OpenedDecoder) : cprog DecodeSummary :=
  l ← decode_packets opened.(od_source) opened.(od_packets) (mkDecodeLocals None None false);
  if negb l.(dl_decoded_any) then
    raise (decode_error DecodeEmptySource "decoder reached end-of-stream without PCM frames")
  else if bool_decide (opened.(od_verify_ok) = Some false) then
    raise (decode_error DecodeCorruptInput "decoded source failed its codec integrity verification")
  else
    _ ← match l.(dl_resampler) with
        | Some r => _ ← with_resampler r (resampler_push [] true chunker_push); mret tt
        | None => mret tt
        end;
    _ ← chunker_finish;
    emitted ← on_snd (access (fun c => (c.(ch_emitted), c)));
    backpressure ← on_snd (access (fun c => (c.(ch_backpressure), c)));
    mret (mkDecodeSummary DecodeCompleted emitted backpressure).

(** [decode_stream] with its locals. *)
Definition run_decode_stream {t : target} (opened : OpenedDecoder) (config : StreamingDecodeConfig) :
  dprog DecodeSummary := fun s =>
  let '(o, (_, s)) :=
    decode_stream opened (Chunker_new config.(dc_chunk_frames) config.(dc_queue_chunks), s) in (o, s).

Definition set_state (state : DecodeWorkerState) : dprog unit :=
  atomic decode_env (fun w => (tt, (w.1, state_to_usize state))).

Definition run_decoder_worker {t : target} (opened : OpenedDecoder) (config : StreamingDecodeConfig) :
  dprog DecodeSummary :=
  result ← attempt (run_decode_stream opened config);
  _ ← match result with
      | Ok summary => set_state summary.(decoded_state)
      | Err error =>
          set_state (if bool_decide (error.(decode_kind) = DecodeCancelled)
                     then DecodeWorkerCancelled else DecodeFailed)
      end;
  lift result.

(** What [StreamingDecodeHandle::open] shares with its new worker. *)
Definition decode_world_new (config : StreamingDecodeConfig) : decode_world :=
  (new_channel config.(dc_queue_chunks), state_to_usize DecodeRunning).

(** [SharedStatistics::snapshot]. *)
Definition decode_snapshot (w : decode_world) (config : StreamingDecodeConfig) : DecodeStatistics :=
  mkDecodeStatistics (usize_to_state w.2) w.1.(ch_queued) config.(dc_queue_chunks)
    (maximum_queued_duration_ms config) w.1.(ch_backpressure) w.1.(ch_emitted).

(** The handle's [join]: [None] once it was taken, [Err tt] a panicked thread. *)
Definition decode_joined : Type := option (result (result DecodeSummary DecodeError) unit).

Definition decode_join_worker (join : decode_joined) (w : decode_world) :
  result DecodeSummary DecodeError * (decode_joined * decode_world) :=
  match join with
  | None =>
      (Err (decode_error DecodeWorkerPanicked "streaming decoder worker was already joined"), (None, w))
  | Some (Ok result) => (result, (None, w))
  | Some (Err _) =>
      (Err (decode_error DecodeWorkerPanicked "streaming decoder worker panicked"),
       (None, (w.1, state_to_usize DecodeFailed)))
  end.

Definition record_join_outcome (joined : result (result DecodeSummary DecodeError) unit)
  (w : decode_world) : decode_world :=
  match joined with
  | Ok _ => w
  | Err _ => (w.1, state_to_usize DecodeFailed)
  end.

(** [Drop] of the handle: cancel, then record a worker that was not joined. *)
Definition decode_handle_drop (join : decode_joined) (w : decode_world) : decode_joined * decode_world :=
  let w := (cancel w.1, w.2) in
  match join with
  | None => (None, w)
  | Some joined => (None, record_join_outcome joined w)
  end.

(** Joining explicitly and dropping record the same worker state. *)
Lemma drop_records_like_join (join : decode_joined) (w : decode_world) (config : StreamingDecodeConfig) :
  (decode_snapshot (decode_handle_drop join w).2 config).(ds_state)
  = (decode_snapshot (decode_join_worker join w).2.2 config).(ds_state).
Proof. by destruct join as [[r|]|]. Qed.

(** ** Reference *)

(** The PCM of a stereo signal. *)
Definition quantised (fs : list frame) : list Z :=
  fs ≫= fun f => [float_to_i16 f.1; float_to_i16 f.2].

(** The stereo batches of the packets on the chosen track. *)
Definition track_batches (opened : OpenedDecoder) : list (list frame) :=
  opened.(od_packets) ≫= fun event =>
    match event with
    | Packet id (Ok b) =>
        if id =? opened.(od_source).(os_track_id) then
          match map_to_stereo b.(db_samples) b.(db_channels) with Ok s => [s] | Err _ => [] end
        else []
    | _ => []
    end.

(** A packet of another track, or one that decodes to whole frames of the
    given format. *)
Definition clean_packet (track rate channels : Z) (event : packet_event) : Prop :=
  match event with
  | Packet id (Ok b) =>
      id = track -> b.(db_rate) = rate /\ b.(db_channels) = channels
        /\ 0 <= b.(db_frames) <= MAX_DECODED_PACKET_FRAMES
        /\ len b.(db_samples) = b.(db_frames) * channels
  | Packet id (Err _) => id <> track
  | PacketError _ => False
  end.

(** A source that decodes without error to at least one frame. *)
Record clean_source (opened : OpenedDecoder) (rate channels : Z) : Prop := {
cs_rate : MIN_SOURCE_SAMPLE_RATE_HZ <= rate <= MAX_SOURCE_SAMPLE_RATE_HZ;
cs_channels : channels = 1 \/ channels = 2;
cs_packets : Forall (clean_packet opened.(od_source).(os_track_id) rate channels) opened.(od_packets);
cs_verified : opened.(od_verify_ok) <> Some false;
cs_nonempty : concat (track_batches opened) <> [];
cs_length : 6 * len (concat (track_batches opened)) + 2 <= u64_max
}.

(** The PCM a consumer is owed. *)
Definition decoded_pcm (opened : OpenedDecoder) (rate : Z) : list Z :=
  quantised (resample rate (concat (track_batches opened))).

(** A stream cut into chunks of [n] frames: nothing lost, every chunk but the
    last exactly [n] frames, the last one not empty, each at its sample
    index, and the end of the stream marked on the last chunk only. *)
Record well_chunked (n : Z) (pcm : list Z) (chunks : list DecodedPcmChunk) : Prop := {
wc_pcm : chunks ≫= chunk_frames = pcm;
wc_chunk : forall i c, chunks !! i = Some c ->
  c.(chunk_format) = CANONICAL /\ c.(chunk_first_sample_index) = Z.of_nat i * n
  /\ 0 < len c.(chunk_frames) <= 2 * n /\ len c.(chunk_frames) mod 2 = 0
  /\ ((S i < length chunks)%nat -> len c.(chunk_frames) = 2 * n)
  /\ c.(chunk_end_of_stream) = bool_decide (S i = length chunks)
}.

(** ** Sample conversion lemmas *)

Lemma f32_to_i16_range (x : f32) : is_i16 (f32_to_i16 x).
Proof.
  unfold is_i16, f32_to_i16. destruct x as [s|s| |s m e]; [lia|destruct s; lia|lia|].
  set (v := cond_Zopp _ _). lia.
Qed.

Lemma quantised_i16 (fs : list frame) : Forall is_i16 (quantised fs).
Proof.
  induction fs as [|f fs IH]; [constructor|]. cbn.
  repeat constructor; try apply IH; apply f32_to_i16_range.
Qed.

Lemma quantised_app (a b : list frame) : quantised (a ++ b) = quantised a ++ quantised b.
Proof. apply bind_app. Qed.

Lemma len_quantised (fs : list frame) : len (quantised fs) = 2 * len fs.
Proof.
  induction fs as [|f fs IH]; [done|]. change (quantised (f :: fs)) with
    ([float_to_i16 f.1; float_to_i16 f.2] ++ quantised fs). rewrite len_app, IH, (len_cons f).
  change (len [float_to_i16 f.1; float_to_i16 f.2]) with 2. lia.
Qed.

Lemma quantised_prefix (a b : list frame) : a `prefix_of` b -> quantised a `prefix_of` quantised b.
Proof. intros [k ->]. rewrite quantised_app. by apply prefix_app_r. Qed.

Lemma pairs_exact_even (n : nat) (samples : list f32) :
  length samples = (2 * n)%nat -> exists frames, pairs_exact samples = (frames, []) /\ length frames = n.
Proof.
  revert samples. induction n as [|n IH]; intros samples H.
  - destruct samples; [by exists []|done].
  - destruct samples as [|a [|b samples]]; cbn in H; try lia.
    destruct (IH samples) as (frames & E & Hl); [lia|]. exists ((a, b) :: frames).
    cbn. rewrite E, Hl. done.
Qed.

(** Whole frames convert, one stereo frame per source frame. *)
Lemma map_to_stereo_ok (samples : list f32) (frames channels : Z) :
  channels = 1 \/ channels = 2 -> 0 <= frames -> len samples = frames * channels ->
  exists stereo, map_to_stereo samples channels = Ok stereo /\ len stereo = frames.
Proof.
  unfold map_to_stereo. intros [-> | ->] Hf Hl; cbn [Z.eqb Pos.eqb].
  - eexists. split; [done|]. rewrite len_map. lia.
  - destruct (pairs_exact_even (Z.to_nat frames) samples) as (stereo & E & Hs); [unfold len in Hl; lia|].
    rewrite E. eexists. split; [done|]. unfold len. lia.
Qed.

(** ** Sending one chunk *)

Definition chunk_pcm (h : list DecodedPcmChunk) : list Z := h ≫= chunk_frames.

Lemma chunk_pcm_snoc (h : list DecodedPcmChunk) (c : DecodedPcmChunk) :
  chunk_pcm (h ++ [c]) = chunk_pcm h ++ c.(chunk_frames).
Proof. unfold chunk_pcm. rewrite bind_app. cbn. by rewrite app_nil_r. Qed.

(** The worker is running. *)
Definition running (state : Z) : Prop := state = state_to_usize DecodeRunning.

Lemma running_stable : stable decode_uenv running.
Proof. by intros []. Qed.

Section Worker.
Context {t : target} (capacity : Z) (goal : list Z).

(** What holds of the channel at every moment: the accounting is exact and
    what was sent is a prefix of the PCM owed to the consumer. *)
Definition decoding (w : decode_world) : Prop :=
  exists held h, (held <= 1)%nat /\ sending capacity held h running w /\ chunk_pcm h `prefix_of` goal.

(** The only failure of a clean source: cancellation or a lost consumer. *)
Definition decode_stopped (e : DecodeError) (w : decode_world) : Prop :=
  e.(decode_kind) = DecodeCancelled /\ halted w.1 /\ decoding w.

Definition ready (h : list DecodedPcmChunk) (emitted : Z) : decode_world -> Prop :=
  sending_emitted capacity 0 h emitted running.

Lemma ready_decoding (h : list DecodedPcmChunk) (emitted : Z) (w : decode_world) :
  ready h emitted w -> chunk_pcm h `prefix_of` goal -> decoding w.
Proof. intros [? _] ?. exists 0%nat, h. auto. Qed.

Section Access.
Context (held : nat) (h : list DecodedPcmChunk) (emitted : Z).
Context (Hheld : (held <= 1)%nat) (Hpre : chunk_pcm h `prefix_of` goal).

Lemma wpc_access {A} (f : Channel DecodedPcmChunk -> A * Channel DecodedPcmChunk)
  (Q : A -> decode_state -> Prop) (X : DecodeError -> decode_state -> Prop) (s : decode_state) :
  sending_emitted capacity held h emitted running s.2 ->
  (forall sched c u, sending_emitted capacity held h emitted running (c, u) ->
     let '(a, c') := f c in Q a (sched, (c', u))) ->
  wpc (access f) Q X (fun s => decoding s.2) s.
Proof.
  destruct s as [sched w]. cbn [snd]. intros Hw HQ. unfold access.
  eapply (wpc_atomic decode_env (sending_emitted capacity held h emitted running));
    [apply sending_emitted_stable, running_stable|done| |].
  - intros [? _]. exists held, h. auto.
  - intros sched' [c u] Hc. pose proof (HQ sched' c u Hc) as H. unfold on_channel. cbn [fst snd].
    by destruct (f c).
Qed.

(** The same for a worker that has seen its consumer gone. *)
Lemma wpc_decode_halted_access {A} (f : Channel DecodedPcmChunk -> A * Channel DecodedPcmChunk)
  (Q : A -> decode_state -> Prop) (X : DecodeError -> decode_state -> Prop) (s : decode_state) :
  sending_emitted capacity held h emitted running s.2 -> halted s.2.1 ->
  (forall sched c u, sending_emitted capacity held h emitted running (c, u) -> halted c ->
     let '(a, c') := f c in Q a (sched, (c', u))) ->
  wpc (access f) Q X (fun s => decoding s.2) s.
Proof.
  destruct s as [sched w]. cbn [snd]. intros Hw Hh HQ. unfold access.
  eapply (wpc_atomic decode_env
            (fun w => sending_emitted capacity held h emitted running w /\ halted w.1));
    [apply stable_and; [apply sending_emitted_stable, running_stable|apply halted_stable]|done| |].
  - intros [[? _] _]. exists held, h. auto.
  - intros sched' [c u] [Hc Hh']. pose proof (HQ sched' c u Hc Hh') as H. unfold on_channel.
    cbn [fst snd]. by destruct (f c).
Qed.
End Access.

Lemma decode_ensure_spec (h : list DecodedPcmChunk) (emitted : Z) (s : decode_state) :
  ready h emitted s.2 -> chunk_pcm h `prefix_of` goal ->
  wpc ensure_not_cancelled (fun _ s => ready h emitted s.2) (fun e s => decode_stopped e s.2)
    (fun s => decoding s.2) s.
Proof.
  intros Hs Hpre. unfold ensure_not_cancelled. apply wpc_bind.
  eapply (wpc_access 0 h emitted); [lia|done..|]. intros sched c u Hc.
  destruct (ch_cancelled c) eqn:Ec.
  - apply wpc_raise. split; [done|]. split; [by left|]. by apply (ready_decoding h emitted).
  - by apply wpc_ret.
Qed.

Lemma backpressure_spec (recorded : bool) (h : list DecodedPcmChunk) (emitted : Z) (s : decode_state) :
  ready h emitted s.2 -> chunk_pcm h `prefix_of` goal ->
  wpc (record_backpressure recorded) (fun _ s => ready h emitted s.2)
    (fun e s => decode_stopped e s.2) (fun s => decoding s.2) s.
Proof.
  intros Hs Hpre. unfold record_backpressure. destruct recorded; [by apply wpc_ret|].
  apply wpc_bind. eapply (wpc_access 0 h emitted); [lia|done..|]. intros sched c u Hc. by apply wpc_ret.
Qed.

Lemma decode_send_spec (chunk : DecodedPcmChunk) (h : list DecodedPcmChunk) (emitted : Z) (s : decode_state) :
  ready h emitted s.2 -> chunk_pcm (h ++ [chunk]) `prefix_of` goal ->
  wpc (send_with_backpressure chunk capacity) (fun _ s => ready (h ++ [chunk]) emitted s.2)
    (fun e s => decode_stopped e s.2) (fun s => decoding s.2) s.
Proof.
  intros Hs Hgoal. assert (chunk_pcm h `prefix_of` goal) as Hpre.
  { rewrite chunk_pcm_snoc in Hgoal. by eapply prefix_app_l. }
  unfold send_with_backpressure.
  apply (wpc_worker_loop _ (fun _ s => ready h emitted s.2)); [done| |].
  { intros _ s' H. by apply (ready_decoding h emitted). }
  clear s Hs. intros recorded s Hs. unfold send_step. apply wpc_bind.
  eapply wpc_mono; [by apply (decode_ensure_spec h emitted)|..]; try done. cbn beta. clear s Hs. intros _ s Hs.
  apply wpc_bind. eapply (wpc_access 0 h emitted); [lia|done..|]. intros sched c u [(Ha & Hh & Hc & Hu) He].
  cbn [fst snd] in *. pose proof (accounted_reserve c Ha) as Hr. rewrite Hc in Hr.
  destruct (reserve_slot capacity c) as [[] c1]; destruct Hr as (Ha1 & Hh1 & Hc1 & He1); cbn [negb].
  - apply wpc_bind.
    eapply (wpc_access 1 h emitted); [lia|done| |].
    { unfold sending_emitted, sending. cbn [fst snd]. split_and!; congruence || done. }
    clear sched c c1 u Ha Hh Hc Hu He Ha1 Hh1 Hc1 He1.
    intros sched c u [(Ha & Hh & Hc & Hu) He]. cbn [fst snd] in *.
    destruct (try_send_reserved chunk c Ha) as [[-> Hd]|(c' & -> & Ha' & Hh' & Hc' & He')].
    + apply wpc_bind. eapply (wpc_decode_halted_access 1 h emitted); [lia|done| |by right|].
      { unfold sending_emitted, sending. cbn [fst snd]. split_and!; congruence || done. }
      clear sched c u Ha Hh Hc Hu He Hd. intros sched c u [(Ha & Hh & Hc & Hu) He] Hhalt. cbn [fst snd] in *.
      apply wpc_raise. split; [done|]. rewrite (decrement_queued_held 0) by done. split; [done|].
      exists 0%nat, h.
      split_and!; [lia| |done]. unfold sending. cbn [fst snd]. split_and!; try done.
      by apply accounted_release.
    + apply wpc_ret. unfold ready, sending_emitted, sending. cbn [fst snd].
      split_and!; congruence || done.
  - apply wpc_bind. eapply wpc_mono; [apply (backpressure_spec recorded h emitted)|..]; try done.
    unfold ready, sending_emitted, sending. cbn [fst snd]. split_and!; congruence || done.
Qed.

(** ** The chunker *)

Context (n : Z) (Hn : 1 <= n <= MAX_DECODE_CHUNK_FRAMES) (Hmax : len goal <= 2 * u64_max).

(** Chunks before the end of the stream. *)
Definition full_chunks (h : list DecodedPcmChunk) : Prop :=
  forall i c, h !! i = Some c ->
    c.(chunk_format) = CANONICAL /\ c.(chunk_first_sample_index) = Z.of_nat i * n
    /\ len c.(chunk_frames) = 2 * n /\ c.(chunk_end_of_stream) = false.

(** The chunker after the frames [fs]: full chunks sent, at most one full
    chunk held back and a partial one growing. *)
Definition chunking (fs : list frame) (s : Chunker * decode_state) : Prop :=
  exists h,
    s.1.(ck_chunk_frames) = n /\ s.1.(ck_queue_capacity_chunks) = capacity
    /\ s.1.(ck_first_sample_index) = len h * n
    /\ full_chunks h
    /\ chunk_pcm h ++ default [] s.1.(ck_pending_full) ++ s.1.(ck_current) = quantised fs
    /\ (forall p, s.1.(ck_pending_full) = Some p -> len p = 2 * n)
    /\ len s.1.(ck_current) < 2 * n /\ len s.1.(ck_current) mod 2 = 0
    /\ ready h (wrap 64 (len h * n)) s.2.2.

(** Between two frames the last samples are always still in the chunker, so
    that its last chunk can carry the end-of-stream mark. *)
Definition retaining (fs : list frame) (s : Chunker * decode_state) : Prop :=
  chunking fs s /\ (fs <> [] -> default [] s.1.(ck_pending_full) ++ s.1.(ck_current) <> []).

Lemma full_chunks_len (h : list DecodedPcmChunk) : full_chunks h -> len (chunk_pcm h) = 2 * n * len h.
Proof.
  induction h as [|c h IH] using rev_ind; intros H; [unfold len; cbn; lia|].
  rewrite chunk_pcm_snoc, !len_app, len_cons, len_nil, IH.
  - destruct (H (length h) c) as (_ & _ & -> & _); [|lia].
    rewrite lookup_app_r, Nat.sub_diag; done.
  - intros i c' Hi. apply H. by apply lookup_app_l_Some.
Qed.

Lemma full_chunks_snoc (h : list DecodedPcmChunk) (frames : list Z) :
  full_chunks h -> len frames = 2 * n ->
  full_chunks (h ++ [mkDecodedPcmChunk CANONICAL (len h * n) frames false]).
Proof.
  intros H Hl i c Hi. apply lookup_app_Some in Hi as [Hi|[Hge Hi]]; [by apply H|].
  destruct (i - length h)%nat as [|k] eqn:E; [|by destruct k].
  injection Hi as <-. cbn. split_and!; try done. unfold len. f_equal. lia.
Qed.

(** [frames] still fit into the stream's index range. *)
Lemma index_fits (h : list DecodedPcmChunk) (frames : list Z) :
  full_chunks h -> chunk_pcm h ++ frames `prefix_of` goal -> len h * n + len frames / 2 <= u64_max.
Proof.
  intros Hf [k ->]. rewrite !len_app, full_chunks_len in Hmax by done.
  pose proof (len_nonneg k). pose proof (len_nonneg frames).
  assert (len frames / 2 <= (2 * u64_max - 2 * n * len h) / 2) as Hd by (apply Z.div_le_mono; lia).
  replace (2 * u64_max - 2 * n * len h) with ((u64_max - n * len h) * 2) in Hd by lia.
  rewrite Z.div_mul in Hd by lia. lia.
Qed.

Lemma send_frames_spec (frames : list Z) (eos : bool) (h : list DecodedPcmChunk) (emitted : Z)
  (c : Chunker) (s : decode_state) :
  ready h emitted s.2 -> full_chunks h -> chunk_pcm h ++ frames `prefix_of` goal ->
  c.(ck_queue_capacity_chunks) = capacity -> c.(ck_first_sample_index) = len h * n ->
  wpc (send_frames frames eos)
    (fun _ s => s.1 = ck_advance (len h * n + len frames / 2) c
       /\ ready (h ++ [mkDecodedPcmChunk CANONICAL (len h * n) frames eos])
            (wrapping_add 64 emitted (len frames / 2)) s.2.2)
    (fun e s => decode_stopped e s.2.2) (fun s => decoding s.2.2) (c, s).
Proof.
  intros Hs Hf Hpre Hcap Hfirst. pose proof (index_fits h frames Hf Hpre) as Hfit.
  pose proof (len_nonneg frames) as H0. pose proof (len_nonneg h).
  assert (0 <= len frames / 2) as H0' by (apply Z.div_pos; lia).
  unfold send_frames. apply wpc_bind, wpc_bind, wpc_get, wpc_ret. apply wpc_bind, wpc_lift. cbn [fst].
  change (samples_per_frame CANONICAL) with 2. rewrite (proj2 (Z.leb_le _ _)) by nia.
  apply wpc_bind, wpc_lift. rewrite Hfirst. unfold checked_add.
  rewrite (proj2 (Z.leb_le _ _)) by done. cbn [ok_or]. apply wpc_bind. rewrite Hcap.
  set (chunk := mkDecodedPcmChunk CANONICAL (len h * n) frames eos).
  assert (chunk_pcm (h ++ [chunk]) `prefix_of` goal) as Hpre' by (by rewrite chunk_pcm_snoc).
  eapply wpc_mono; [apply (wpc_on_snd _ _ _ _ c s (decode_send_spec chunk h emitted s Hs Hpre'))|..];
    cbn beta; try done.
  intros _ [c' s'] [Hc' Hs']. cbn [fst snd] in *. subst c'. apply wpc_bind, wpc_modify. cbn [fst snd].
  assert (wpc (access (fun c => (tt, count_emitted (len frames / 2) c)))
            (fun _ s => ready (h ++ [chunk]) (wrapping_add 64 emitted (len frames / 2)) s.2)
            (fun e s => decode_stopped e s.2) (fun s => decoding s.2) s') as Hacc.
  { eapply (wpc_access 0 (h ++ [chunk]) emitted); [lia|done|exact Hs'|].
    intros sched c' u [Hsend He]. cbn [fst snd] in *. split; [done|]. cbn. by rewrite He. }
  eapply wpc_mono; [exact (wpc_on_snd _ _ _ _ _ s' Hacc)|done..].
Qed.

Lemma send_pending_spec (p : list Z) (eos : bool) (h : list DecodedPcmChunk) (emitted : Z)
  (c : Chunker) (s : decode_state) :
  ready h emitted s.2 -> full_chunks h -> chunk_pcm h ++ p `prefix_of` goal ->
  c.(ck_queue_capacity_chunks) = capacity -> c.(ck_first_sample_index) = len h * n ->
  c.(ck_pending_full) = Some p -> len p = 2 * n ->
  wpc (send_pending eos)
    (fun _ s => s.1 = ck_advance (len h * n + n) (ck_set c.(ck_current) None c)
       /\ ready (h ++ [mkDecodedPcmChunk CANONICAL (len h * n) p eos]) (wrapping_add 64 emitted n) s.2.2)
    (fun e s => decode_stopped e s.2.2) (fun s => decoding s.2.2) (c, s).
Proof.
  intros Hs Hf Hpre Hcap Hfirst Hp Hl. unfold send_pending.
  apply wpc_bind, wpc_bind, wpc_get, wpc_ret. cbn [fst]. apply wpc_bind, wpc_lift. rewrite Hp. cbn [ok_or].
  apply wpc_bind, wpc_modify. cbn [fst snd].
  assert (len p / 2 = n) as Hd by (rewrite Hl, Z.mul_comm; apply Z.div_mul; lia).
  pose proof (send_frames_spec p eos h emitted (ck_set c.(ck_current) None c) s Hs Hf Hpre Hcap Hfirst) as H.
  by rewrite Hd in H.
Qed.

(** Flushing the held-back chunk before more samples arrive. *)
Lemma flush_pending_spec (fs : list frame) (s : Chunker * decode_state) :
  chunking fs s -> quantised fs `prefix_of` goal ->
  wpc (match s.1.(ck_pending_full) with Some _ => send_pending false | None => mret tt end)
    (fun _ s' => chunking fs s' /\ s'.1.(ck_pending_full) = None /\ s'.1.(ck_current) = s.1.(ck_current))
    (fun e s => decode_stopped e s.2.2) (fun s => decoding s.2.2) s.
Proof.
  destruct s as [c s]. intros (h & Hcn & Hcap & Hfirst & Hf & Hpcm & Hpl & Hlt & Hev & Hs) Hpre.
  cbn [fst snd] in *. destruct (ck_pending_full c) as [p|] eqn:Hp.
  - assert (chunk_pcm h ++ p `prefix_of` goal) as Hpp.
    { rewrite <- Hpcm, app_assoc in Hpre. by eapply prefix_app_l. }
    eapply wpc_mono; [by apply (send_pending_spec p false h _ c s Hs Hf Hpp Hcap Hfirst Hp (Hpl p eq_refl))|..];
      cbn beta; try done.
    intros _ [c' s'] [Hc' Hs']. cbn [fst snd] in *. subst c'. split; [|done].
    exists (h ++ [mkDecodedPcmChunk CANONICAL (len h * n) p false]). cbn [ck_advance ck_set ck_chunk_frames ck_queue_capacity_chunks ck_first_sample_index
      ck_pending_full ck_current fst snd].
    split_and!; [done|done| |apply full_chunks_snoc; auto| |done|done|done| ].
    + rewrite len_app, len_cons, len_nil. lia.
    + rewrite chunk_pcm_snoc, <- Hpcm. cbn. by rewrite <- app_assoc.
    + assert (wrap 64 (len (h ++ [mkDecodedPcmChunk CANONICAL (len h * n) p false]) * n)
              = wrapping_add 64 (wrap 64 (len h * n)) n) as ->; [|done].
      unfold wrapping_add, wrap. rewrite len_app, len_cons, len_nil, Zplus_mod_idemp_l. f_equal. lia.
  - apply wpc_ret. split; [|done]. exists h. cbn [fst snd]. rewrite Hp. by split_and!.
Qed.

Lemma chunker_push_spec (fs : list frame) (f : frame) (s : Chunker * decode_state) :
  retaining fs s -> quantised (fs ++ [f]) `prefix_of` goal ->
  wpc (chunker_push f) (fun _ s => retaining (fs ++ [f]) s)
    (fun e s => decode_stopped e s.2.2) (fun s => decoding s.2.2) s.
Proof.
  intros [Hck _] Hpre. assert (quantised fs `prefix_of` goal) as Hpre0
    by (rewrite quantised_app in Hpre; by eapply prefix_app_l).
  unfold chunker_push. apply wpc_bind, wpc_bind, wpc_get, wpc_ret. apply wpc_bind.
  eapply wpc_mono; [by apply (flush_pending_spec fs s)|..]; try done. cbn beta.
  intros _ [c s'] ((h & Hcn & Hcap & Hfirst & Hf & Hpcm & _ & Hlt & Hev & Hs) & Hp & _).
  cbn [fst snd] in *. rewrite Hp in Hpcm. cbn [default app] in Hpcm.
  apply wpc_bind, wpc_modify. apply wpc_bind, wpc_bind, wpc_get, wpc_ret. apply wpc_bind, wpc_lift. cbn [fst snd].
  cbn [ck_set ck_chunk_frames]. change (samples_per_frame CANONICAL) with 2. unfold checked_mul.
  rewrite Hcn, (proj2 (Z.leb_le _ _))
    by (pose proof (usize_max_lower (t := t)); unfold MAX_DECODE_CHUNK_FRAMES, u32_max in *; lia).
  cbn [ok_or ck_current]. set (pair := [float_to_i16 f.1; float_to_i16 f.2]).
  assert (len (c.(ck_current) ++ pair) = len c.(ck_current) + 2) as Hl by (by rewrite len_app).
  assert (len (c.(ck_current) ++ pair) mod 2 = 0) as Hev' by (rewrite Hl, Zplus_mod, Hev; done).
  assert (chunk_pcm h ++ c.(ck_current) ++ pair = quantised (fs ++ [f])) as Hq.
  { rewrite quantised_app, <- Hpcm, <- app_assoc. done. }
  assert (len c.(ck_current) + 2 <= 2 * n) as Hle.
  { apply Z.mod_divide in Hev as [q Hq']; [lia|done]. }
  cbn [ck_set ck_current]. destruct (_ =? _) eqn:E; to_prop.
  - apply wpc_modify. split; [|cbn; by destruct (ck_current c)].
    exists h. cbn -[Z.mul len]. rewrite len_nil. split_and!; try done; [by rewrite app_nil_r| |lia].
    intros p [= <-]. lia.
  - apply wpc_ret. split; [|cbn; rewrite Hp; cbn; by destruct (ck_current c)].
    exists h. cbn -[Z.mul len]. rewrite Hp. split_and!; try done. lia.
Qed.

Lemma full_chunks_finished (h : list DecodedPcmChunk) (frames : list Z) :
  full_chunks h -> 0 < len frames <= 2 * n -> len frames mod 2 = 0 ->
  well_chunked n (chunk_pcm h ++ frames)
    (h ++ [mkDecodedPcmChunk CANONICAL (len h * n) frames true]).
Proof.
  intros Hf Hl Hev. split; [apply chunk_pcm_snoc|].
  intros i c Hi. rewrite length_app. cbn [length].
  apply lookup_app_Some in Hi as [Hi|[Hge Hi]].
  - destruct (Hf i c Hi) as (-> & -> & Hcl & ->). apply lookup_lt_Some in Hi. rewrite Hcl.
    split_and!; try done; try lia; [rewrite Z.mul_comm; apply Z.mod_mul; lia|].
    symmetry. apply bool_decide_eq_false. lia.
  - destruct (i - length h)%nat as [|k] eqn:E; [|by destruct k]. injection Hi as <-. cbn.
    split_and!; try done; try lia; [unfold len; f_equal; lia|].
    symmetry. apply bool_decide_eq_true. lia.
Qed.

Lemma chunker_finish_spec (fs : list frame) (s : Chunker * decode_state) :
  retaining fs s -> quantised fs = goal -> fs <> [] ->
  wpc chunker_finish
    (fun _ s => exists h, well_chunked n goal h /\ ready h (wrap 64 (len fs)) s.2.2)
    (fun e s => decode_stopped e s.2.2) (fun s => decoding s.2.2) s.
Proof.
  intros [Hck Hret] Hgoal Hne. specialize (Hret Hne). assert (quantised fs `prefix_of` goal) as Hpre by (by rewrite Hgoal).
  assert (2 * len fs = len goal) as Hlen by (by rewrite <- Hgoal, len_quantised).
  pose proof Hck as (h & Hcn & Hcap & Hfirst & Hf & Hpcm & Hpl & Hlt & Hev & Hs).
  unfold chunker_finish. apply wpc_bind, wpc_bind, wpc_get, wpc_ret.
  assert (forall h frames, full_chunks h -> chunk_pcm h ++ frames = goal -> len frames mod 2 = 0 ->
    wrapping_add 64 (wrap 64 (len h * n)) (len frames / 2) = wrap 64 (len fs)) as Hem.
  { intros h0 frames Hf0 Hg Hev0. unfold wrapping_add, wrap. rewrite Zplus_mod_idemp_l. f_equal.
    apply (f_equal len) in Hg. rewrite len_app, full_chunks_len in Hg by done.
    pose proof (Z.div_exact (len frames) 2 ltac:(lia)) as [_ Hde]. specialize (Hde Hev0). lia. }
  destruct (ck_current s.1) as [|x cur] eqn:Ecur.
  - destruct (ck_pending_full s.1) as [p|] eqn:Ep; cbn [default] in Hpcm; unfold id in Hpcm;
      rewrite app_nil_r in Hpcm.
    + specialize (Hpl p eq_refl). destruct s as [c s]. cbn [fst snd] in *.
      eapply wpc_mono; [apply (send_pending_spec p true h _ c s Hs Hf)|..]; try done; cbn beta.
      * by rewrite Hpcm.
      * intros _ s' [_ Hs']. exists (h ++ [mkDecodedPcmChunk CANONICAL (len h * n) p true]).
        assert (len p mod 2 = 0) as Hpe by (rewrite Hpl, Z.mul_comm; apply Z.mod_mul; lia).
        rewrite <- (Hem h p); [|done|congruence|done].
        assert (len p / 2 = n) as -> by (rewrite Hpl, Z.mul_comm; apply Z.div_mul; lia).
        split; [|done]. rewrite <- Hgoal, <- Hpcm. apply full_chunks_finished; try done. lia.
    + done.
  - apply wpc_bind. eapply wpc_mono; [by apply (flush_pending_spec fs s)|..]; try done. cbn beta.
    intros _ [c s'] ((h' & _ & Hcap' & Hfirst' & Hf' & Hpcm' & _ & Hlt' & Hev' & Hs') & Hp' & Hcur').
    cbn [fst snd] in *. rewrite Hp', Hcur', Ecur in *. cbn [default app] in Hpcm'.
    apply wpc_bind, wpc_bind, wpc_get, wpc_ret. apply wpc_bind, wpc_modify. cbn [fst snd]. rewrite Hcur'.
    eapply wpc_mono; [apply (send_frames_spec (x :: cur) true h' _ _ s' Hs' Hf')|..]; try done; cbn beta.
    + by rewrite Hpcm'.
    + intros _ s'' [_ Hs'']. exists (h' ++ [mkDecodedPcmChunk CANONICAL (len h' * n) (x :: cur) true]).
      rewrite (Hem h' (x :: cur)) in Hs''; [|done|congruence|done].
      split; [|done]. rewrite <- Hgoal, <- Hpcm'. apply full_chunks_finished; try done.
      rewrite len_cons in *. pose proof (len_nonneg cur). lia.
Qed.
End Worker.

(** ** The packet loop *)

Lemma wpc_with_resampler {S E A : Type} (r : StereoResampler) (m : prog (StereoResampler * S) E A)
  (Q : A -> StereoResampler * S -> Prop) (X : E -> S -> Prop) (U : S -> Prop) (s : S) :
  wpc m Q (fun e rs => X e rs.2) (fun rs => U rs.2) (r, s) ->
  wpc (with_resampler r m) (fun r s => exists a, Q a (r, s)) X U s.
Proof. unfold wpc, with_resampler. destruct (m (r, s)) as [[] [? ?]]; eauto. Qed.

Section Packets.
Context {t : target} (opened : OpenedDecoder) (config : StreamingDecodeConfig) (rate channels : Z).
Context (Hclean : clean_source opened rate channels).
Context (Hchunk : 1 <= config.(dc_chunk_frames) <= MAX_DECODE_CHUNK_FRAMES).

Let total : list frame := concat (track_batches opened).
Let goal : list Z := decoded_pcm opened rate.
Let n : Z := config.(dc_chunk_frames).
Let capacity : Z := config.(dc_queue_chunks).
Let J := retaining capacity n.
Let X := fun (e : DecodeError) (s : Chunker * decode_state) => decode_stopped capacity goal e s.2.2.
Let U := fun (s : Chunker * decode_state) => decoding capacity goal s.2.2.

Lemma resampled_length_bound (m : Z) :
  0 <= m -> Z.of_nat (resampled_length rate m) <= 6 * m.
Proof.
  intros Hm. destruct (cs_rate _ _ _ Hclean). unfold resampled_length.
  unfold MIN_SOURCE_SAMPLE_RATE_HZ, CANONICAL_SAMPLE_RATE_HZ in *.
  rewrite Z2Nat.id by (apply Z.div_pos; nia).
  assert ((m * 48000 + rate - 1) / rate < 6 * m + 1); [|lia]. apply Z.div_lt_upper_bound; nia.
Qed.

Lemma goal_fits : len goal <= 2 * u64_max.
Proof.
  unfold goal, decoded_pcm. rewrite len_quantised. unfold resample. rewrite len_map.
  unfold len at 1. rewrite length_seq.
  pose proof (resampled_length_bound _ (len_nonneg (concat (track_batches opened)))).
  pose proof (cs_length _ _ _ Hclean). lia.
Qed.

Lemma chunker_sink (fs : list frame) (f : frame) (s : Chunker * decode_state) :
  J fs s -> fs ++ [f] `prefix_of` resample rate total ->
  wpc (chunker_push f) (fun _ s => J (fs ++ [f]) s) X U s.
Proof.
  intros HJ Hpre. apply chunker_push_spec; try done; [apply goal_fits|]. by apply quantised_prefix.
Qed.

Lemma ensure_sink (fs : list frame) (s : Chunker * decode_state) :
  J fs s -> fs `prefix_of` resample rate total -> wpc (on_snd ensure_not_cancelled) (fun _ s => J fs s) X U s.
Proof.
  destruct s as [c s]. intros [(h & H1 & H2 & H3 & H4 & Hpcm & H5 & H6 & H7 & Hs) Hret] Hpre.
  cbn [fst snd] in *. assert (chunk_pcm h `prefix_of` goal) as Hp.
  { apply quantised_prefix in Hpre. rewrite <- Hpcm in Hpre. by eapply prefix_app_l. }
  eapply wpc_mono;
    [exact (wpc_on_snd _ _ _ _ c s (decode_ensure_spec capacity goal h _ s Hs Hp))|..]; try done.
  cbn beta. intros _ [c' s'] [Hc Hs']. cbn [fst snd] in *. subst c'. split; [|done].
  exists h. cbn [fst snd]. by split_and!.
Qed.

(** The batches of one packet. *)
Definition event_batches (event : packet_event) : list (list frame) :=
  match event with
  | Packet id (Ok b) =>
      if id =? opened.(od_source).(os_track_id) then
        match map_to_stereo b.(db_samples) b.(db_channels) with Ok s => [s] | Err _ => [] end
      else []
  | _ => []
  end.

(** The locals of [decode_stream] after the batches [bs]. *)
Definition locals_ok (bs : list (list frame)) (l : decode_locals) (s : Chunker * decode_state) : Prop :=
  (l = mkDecodeLocals None None false /\ concat bs = [] /\ J [] s)
  \/ exists r, l = mkDecodeLocals (Some (rate, channels)) (Some r) (0 <? len (concat bs))
       /\ streaming rate J (concat bs) (r, s).

(** What the sink holds is part of the whole output. *)
Lemma locals_sink (bs : list (list frame)) (l : decode_locals) (s : Chunker * decode_state) :
  locals_ok bs l s -> concat bs `prefix_of` total ->
  exists fs, J fs s /\ fs `prefix_of` resample rate total
    /\ forall s', J fs s' -> locals_ok bs l s'.
Proof.
  intros [(-> & Hbs & HJ)|(r & -> & Hr & HJ)] Hpre.
  - exists []. split_and!; [done|apply prefix_nil|]. intros s' HJ'. by left.
  - eexists. split_and!; [exact HJ| |].
    + cbn [fst snd] in *. destruct (decide (rs_next_output_frame r = 0)) as [->|]; [apply prefix_nil|].
      pose proof (ru_next _ _ _ Hr).
      replace (rs_next_output_frame r) with (rs_next_output_frame r - 1 + 1) by lia.
      apply (produced_resample rate (cs_rate _ _ _ Hclean)); try done; [lia|].
      left. apply (ru_before _ _ _ Hr). lia.
    + intros s' HJ'. right. exists r. by split.
Qed.

Lemma locals_resampler (bs : list (list frame)) (l : decode_locals) (s : Chunker * decode_state) :
  locals_ok bs l s ->
  exists r, match l.(dl_resampler) with Some r => Ok r | None => StereoResampler_new rate end = Ok r
    /\ streaming rate J (concat bs) (r, s)
    /\ match l.(dl_source_spec) with Some c => negb (bool_decide (c = (rate, channels))) | None => false end
       = false
    /\ match l.(dl_source_spec) with Some c => Some c | None => Some (rate, channels) end
       = Some (rate, channels)
    /\ l.(dl_decoded_any) = (0 <? len (concat bs)).
Proof.
  intros [(-> & -> & HJ)|(r & -> & Hst)]; cbn [dl_resampler dl_source_spec dl_decoded_any].
  - unfold StereoResampler_new.
    rewrite (proj2 (in_range_iff _ _ _) (cs_rate _ _ _ Hclean)). cbn [negb]. eexists. split; [done|].
    split_and!; try done. split; [|done]. split; cbn; try done; lia.
  - exists r. split_and!; try done. by rewrite bool_decide_eq_true_2.
Qed.

Lemma decode_packet_spec (bs : list (list frame)) (event : packet_event) (l : decode_locals)
  (s : Chunker * decode_state) :
  locals_ok bs l s -> clean_packet opened.(od_source).(os_track_id) rate channels event ->
  concat (bs ++ event_batches event) `prefix_of` total ->
  wpc (decode_packet opened.(od_source) event l) (fun l s => locals_ok (bs ++ event_batches event) l s) X U s.
Proof.
  intros Hl Hev Hpre. destruct event as [e|id [b|e]]; cbn [clean_packet event_batches decode_packet] in *;
    [done| |by destruct (id =? _) eqn:E; to_prop; cbn [negb];
      [|rewrite app_nil_r; apply wpc_ret]].
  destruct (id =? _) eqn:E; to_prop; cbn [negb]; [|by rewrite app_nil_r; apply wpc_ret].
  destruct (Hev E) as (Hr & Hc & Hf & Hs). apply wpc_bind, wpc_lift. cbn [map_err]. rewrite Hr, Hc in *.
  pose proof (cs_rate _ _ _ Hclean) as Hrate. pose proof (cs_channels _ _ _ Hclean) as Hch.
  apply wpc_bind, wpc_lift. cbn [fst snd].
  assert (validate_declared_format (Some rate) (Some channels) = Ok tt) as ->.
  { apply declared_format_accepted. split; intros ? [= <-]; [done|].
    unfold MAX_SOURCE_CHANNELS. lia. }
  destruct (locals_resampler bs l s Hl) as (r & Hres & Hst & -> & -> & Hany).
  rewrite (proj2 (Z.ltb_ge _ _)) by lia. apply wpc_bind, wpc_lift. unfold checked_mul.
  rewrite (proj2 (Z.leb_le _ _))
    by (pose proof (usize_max_lower (t := t)); unfold MAX_DECODED_PACKET_FRAMES, u32_max in *; nia).
  cbn [ok_or]. rewrite Hs, Z.eqb_refl. cbn [negb].
  destruct (map_to_stereo_ok _ _ _ Hch (proj1 Hf) Hs) as (stereo & Hstereo & Hlen).
  rewrite Hstereo in *. apply wpc_bind, wpc_lift. apply wpc_bind, wpc_lift. rewrite Hres.
  rewrite concat_app in Hpre. cbn [concat] in Hpre. rewrite app_nil_r in Hpre.
  assert (len (concat bs ++ stereo) <= len total) as Hle
    by (destruct Hpre as [k Hk]; rewrite Hk, (len_app _ k); pose proof (len_nonneg k); lia).
  pose proof (cs_length _ _ _ Hclean) as Hcs. fold total in Hcs.
  apply wpc_bind. eapply wpc_mono;
    [apply wpc_with_resampler, (push_batch_spec rate Hrate chunker_push J X U total chunker_sink
       (concat bs) stereo (r, s) Hst Hpre)|..]; cbn beta; try done.
  - lia.
  - pose proof (usize_max_lower (t := t)). unfold MAX_DECODED_PACKET_FRAMES, u32_max in *. lia.
  - intros r' s' [_ Hst']. apply wpc_ret. right. exists r'.
    rewrite concat_app. cbn [concat]. rewrite app_nil_r. split; [|done]. f_equal.
    rewrite Hany, len_app, Hlen. pose proof (len_nonneg (concat bs)).
    destruct (Z.ltb_spec 0 (len (concat bs))), (Z.ltb_spec 0 (db_frames b)); cbn [orb];
      symmetry; (apply Z.ltb_lt; lia) || (apply Z.ltb_ge; lia).
Qed.

Lemma decode_packets_spec (packets : list packet_event) (bs : list (list frame)) (l : decode_locals)
  (s : Chunker * decode_state) :
  locals_ok bs l s -> Forall (clean_packet opened.(od_source).(os_track_id) rate channels) packets ->
  concat (bs ++ (packets ≫= event_batches)) `prefix_of` total ->
  wpc (decode_packets opened.(od_source) packets l)
    (fun l s => locals_ok (bs ++ (packets ≫= event_batches)) l s) X U s.
Proof.
  revert bs l s. induction packets as [|event packets IH]; intros bs l s Hl Hall Hpre;
    cbn [decode_packets mbind list_bind] in *.
  all: assert (concat bs `prefix_of` total) as Hbs
    by (etrans; [|exact Hpre]; rewrite concat_app; by apply prefix_app_r).
  all: destruct (locals_sink bs l s Hl Hbs) as (fs & HJ & Hfs & Hback).
  all: apply wpc_bind; eapply wpc_mono; [by apply (ensure_sink fs)|..]; try done; cbn beta.
  - intros _ s' HJ'. apply wpc_ret. rewrite app_nil_r. auto.
  - apply Forall_cons in Hall as [Hev Hall]. intros _ s' HJ'. apply wpc_bind.
    rewrite app_assoc in *.
    eapply wpc_mono; [apply (decode_packet_spec bs event l s' (Hback s' HJ') Hev)|..]; try done; cbn beta.
    + etrans; [|exact Hpre]. rewrite (concat_app (bs ++ _)). by apply prefix_app_r.
    + intros l' s'' Hl'. by apply IH.
Qed.

Lemma total_nonempty : resample rate total <> [].
Proof.
  assert (0 < len total) as Hpos.
  { pose proof (cs_nonempty _ _ _ Hclean) as Hne. fold total in Hne.
    destruct total; [done|]. rewrite len_cons. pose proof (len_nonneg l). lia. }
  assert (source_position rate 0 < len total) as Hp by done.
  apply (resampled_length_spec rate (cs_rate _ _ _ Hclean)) in Hp; [|lia|lia].
  unfold resample. intros Hm. apply (f_equal length) in Hm.
  rewrite length_map, length_seq in Hm. cbn in Hm. lia.
Qed.

Lemma emitted_exact : wrap 64 (len (resample rate total)) = len goal / 2.
Proof.
  unfold goal, decoded_pcm. fold total. rewrite len_quantised, Z.mul_comm, Z.div_mul by lia.
  apply wrap_small. pose proof goal_fits as Hg. unfold goal, decoded_pcm in Hg. fold total in Hg.
  rewrite len_quantised in Hg. pose proof (len_nonneg (resample rate total)).
  unfold u64_max in *. lia.
Qed.

Lemma decode_stream_spec (s : Chunker * decode_state) :
  J [] s ->
  wpc (decode_stream opened)
    (fun summary s => exists h, well_chunked n goal h /\ ready capacity h (len goal / 2) s.2.2
       /\ summary.(decoded_state) = DecodeCompleted /\ summary.(decoded_emitted_frames) = len goal / 2)
    X U s.
Proof.
  intros HJ. pose proof (cs_rate _ _ _ Hclean) as Hrate.
  assert (track_batches opened = od_packets opened ≫= event_batches) as Htb by done.
  unfold decode_stream. apply wpc_bind.
  eapply wpc_mono; [apply (decode_packets_spec opened.(od_packets) [])|..]; cbn beta; try done.
  { by left. } { apply (cs_packets _ _ _ Hclean). }
  rewrite app_nil_l, <- Htb. fold total. clear s HJ. intros l s Hl.
  destruct Hl as [(_ & Hbs & _)|(r & -> & Hst)]; [by destruct (cs_nonempty _ _ _ Hclean)|].
  fold total in Hst |- *. cbn [dl_decoded_any dl_resampler].
  assert ((0 <? len total) = true) as ->.
  { apply Z.ltb_lt. pose proof (cs_nonempty _ _ _ Hclean) as Hne. fold total in Hne.
    destruct total; [done|]. rewrite len_cons. pose proof (len_nonneg l). lia. }
  cbn [negb]. rewrite bool_decide_eq_false_2 by apply (cs_verified _ _ _ Hclean).
  apply wpc_bind. apply wpc_bind.
  eapply wpc_mono;
    [apply wpc_with_resampler, (push_end_spec rate Hrate chunker_push J X U total chunker_sink (r, s) Hst);
     exact (cs_length _ _ _ Hclean)|..]; cbn beta; try done.
  intros r' s1 [a Hret]. cbn [snd] in Hret. apply wpc_ret. clear s Hst a. rename s1 into s.
  apply wpc_bind. eapply wpc_mono; [apply (chunker_finish_spec capacity goal n Hchunk goal_fits _ s Hret)|..];
    cbn beta; try done; [apply total_nonempty|].
  intros _ [c s1] (h & Hwc & Hs). cbn [snd] in Hs. clear s Hret. rename s1 into s. rewrite emitted_exact in Hs.
  assert (chunk_pcm h `prefix_of` goal) as Hpre by (by rewrite <- (wc_pcm _ _ _ Hwc)).
  assert (forall (c : Chunker) (s : decode_state) (A : Type) (f : Channel DecodedPcmChunk -> A),
    ready capacity h (len goal / 2) s.2 ->
    wpc (on_snd (access (fun c => (f c, c))))
      (fun a s => ready capacity h (len goal / 2) s.2.2
         /\ exists ch, ready capacity h (len goal / 2) (ch, s.2.2.2) /\ a = f ch) X U (c, s)) as Hread.
  { intros c0 s0 A f Hs0. eapply wpc_mono; [apply (wpc_on_snd _ (fun a s => ready capacity h (len goal / 2) s.2
      /\ exists ch, ready capacity h (len goal / 2) (ch, s.2.2) /\ a = f ch)
      (fun e s => decode_stopped capacity goal e s.2) (fun s => decoding capacity goal s.2))|..]; try done.
    - eapply (wpc_access capacity goal 0 h (len goal / 2)); [lia|done..|].
      intros sched ch u Hc. split; [done|]. by exists ch.
    - intros a [c1 s1] [_ H]. exact H. }
  apply wpc_bind. eapply wpc_mono; [apply Hread, Hs|..]; cbn beta; try done.
  clear c s Hs. intros emitted [c s] (Hs & ch & [_ He] & ->). cbn [fst snd] in *.
  apply wpc_bind. eapply wpc_mono; [apply Hread, Hs|..]; cbn beta; try done.
  clear c s Hs. intros bp [c s] (Hs & _). apply wpc_ret. exists h. by split_and!.
Qed.
End Packets.

(** ** Properties *)

(** What a consumer may rely on at every moment, whatever the schedule. *)
Definition decode_safe (opened : OpenedDecoder) (rate : Z) (config : StreamingDecodeConfig)
  (w : decode_world) : Prop :=
  0 <= w.1.(ch_queued) <= config.(dc_queue_chunks)
  /\ len w.1.(ch_items) <= config.(dc_queue_chunks)
  /\ chunk_pcm (history w.1) `prefix_of` decoded_pcm opened rate.

Lemma decoding_safe (opened : OpenedDecoder) (rate : Z) (config : StreamingDecodeConfig)
  (w : decode_world) :
  decoding config.(dc_queue_chunks) (decoded_pcm opened rate) w -> decode_safe opened rate config w.
Proof.
  intros (held & h & _ & (Ha & Hh & Hc & _) & Hpre). apply accounted_bounds in Ha.
  rewrite Hc in Ha. unfold decode_safe. rewrite Hh. split_and!; done || lia.
Qed.

Lemma decoding_stable (capacity : Z) (goal : list Z) : stable decode_env (decoding capacity goal).
Proof.
  intros a w (held & h & Hheld & Hs & Hpre). exists held, h. split_and!; try done.
  by apply sending_stable; [apply running_stable|].
Qed.

(** The terminal state is recorded; the channel stays as it was. *)
Lemma set_state_spec (state : DecodeWorkerState) (P : decode_world -> Prop)
  (Q : unit -> decode_state -> Prop) (X : DecodeError -> decode_state -> Prop)
  (U : decode_state -> Prop) (s : decode_state) :
  stable decode_env P -> P s.2 -> (forall w, P w -> U ([], w)) ->
  (forall sched c u, P (c, u) -> Q tt (sched, (c, state_to_usize state))) ->
  wpc (set_state state) Q X U s.
Proof.
  destruct s as [sched w]. intros Hst HP HU HQ. unfold set_state.
  eapply (wpc_atomic decode_env P); auto. intros sched' [c u] HP'. by apply (HQ sched' c u).
Qed.

(** A fresh worker has sent nothing and holds nothing back. *)
Lemma new_retaining (config : StreamingDecodeConfig) (sched : list (list (chan_act Empty_set))) :
  1 <= config.(dc_chunk_frames) <= MAX_DECODE_CHUNK_FRAMES -> 0 <= config.(dc_queue_chunks) ->
  retaining config.(dc_queue_chunks) config.(dc_chunk_frames) []
    (Chunker_new config.(dc_chunk_frames) config.(dc_queue_chunks), (sched, decode_world_new config)).
Proof.
  intros Hn Hq. split; [|done]. exists []. cbn -[Z.mul len].
  split_and!; try done. change (len []) with 0. lia.
Qed.

Lemma run_decoder_spec {t : target} (opened : OpenedDecoder) (config : StreamingDecodeConfig)
  (rate channels : Z) (sched : list (list (chan_act Empty_set))) :
  clean_source opened rate channels -> 1 <= config.(dc_chunk_frames) <= MAX_DECODE_CHUNK_FRAMES ->
  0 <= config.(dc_queue_chunks) ->
  wpc (run_decoder_worker opened config)
    (fun summary s => decode_safe opened rate config s.2
       /\ well_chunked config.(dc_chunk_frames) (decoded_pcm opened rate) (history s.2.1)
       /\ summary.(decoded_state) = DecodeCompleted
       /\ summary.(decoded_emitted_frames) = len (decoded_pcm opened rate) / 2
       /\ (decode_snapshot s.2 config).(ds_state) = DecodeCompleted)
    (fun e s => e.(decode_kind) = DecodeCancelled /\ halted s.2.1 /\ decode_safe opened rate config s.2
       /\ s.2.2 = state_to_usize DecodeWorkerCancelled)
    (fun s => decode_safe opened rate config s.2) (sched, decode_world_new config).
Proof.
  intros Hclean Hn Hq. set (goal := decoded_pcm opened rate).
  pose proof (decode_stream_spec opened config rate channels Hclean Hn
    (Chunker_new config.(dc_chunk_frames) config.(dc_queue_chunks), (sched, decode_world_new config))) as Hds.
  unfold run_decoder_worker. apply wpc_bind, wpc_attempt.
  unfold wpc at 1 in Hds. unfold wpc at 1, run_decode_stream.
  destruct (decode_stream _ _) as [[summary|e|] [c s]]; cbn [snd] in Hds.
  - destruct Hds as (h & Hwc & Hs & Hst & Hem).
    { by apply new_retaining. }
    assert (chunk_pcm h = goal) as Hpcm by apply Hwc.
    apply wpc_bind. rewrite Hst.
    eapply (set_state_spec _ (ready config.(dc_queue_chunks) h (len goal / 2))); try done.
    + apply sending_emitted_stable, running_stable.
    + intros w Hw. apply decoding_safe, (ready_decoding _ _ h (len goal / 2)); [done|].
      by rewrite Hpcm.
    + intros sched' ch u [(Ha & Hh & Hc & Hu) He]. apply wpc_lift. cbn [fst snd] in *.
      split_and!; try done; [|by rewrite Hh].
      apply accounted_bounds in Ha. rewrite Hc in Ha. unfold decode_safe. cbn [fst].
      rewrite Hh, Hpcm. split_and!; done || lia.
  - destruct Hds as (Hk & Hhalt & Hd).
    { by apply new_retaining. }
    apply wpc_bind. rewrite Hk, bool_decide_eq_true_2 by done.
    eapply (set_state_spec _ (fun w => decoding config.(dc_queue_chunks) goal w /\ halted w.1)); try done.
    + apply stable_and; [apply decoding_stable|apply halted_stable].
    + intros w [Hw _]. by apply decoding_safe.
    + intros sched' ch u [Hd' Hh']. apply wpc_lift. split_and!; try done.
      apply decoding_safe in Hd'. done.
  - by apply decoding_safe, Hds, new_retaining.
Qed.

(** C9. Decoding delivers the source and nothing else, under every interleaving
    with the consumer: for a source whose packets decode cleanly, what has
    entered the bounded channel is at every moment a prefix of the resampled,
    quantised source and the queue counter stays within the configured
    capacity; when the worker completes, all of it was delivered, in chunks of
    the configured size at consecutive sample indices with the end of the
    stream marked on the last one only; and it fails only with a cancellation,
    while its cancellation flag is set or its receiver is dropped. *)
Theorem decoded_stream_is_exact {t : target} (opened : OpenedDecoder) (config : StreamingDecodeConfig)
  (rate channels : Z) (sched : list (list (chan_act Empty_set))) :
  0 <= config.(dc_chunk_frames) -> 0 <= config.(dc_queue_chunks) -> 0 <= config.(dc_max_source_bytes) ->
  StreamingDecodeConfig_validate config = Ok config -> clean_source opened rate channels ->
  let '(outcome, (_, w)) := run_decoder_worker opened config (sched, decode_world_new config) in
  decode_safe opened rate config w
  /\ match outcome with
     | Done summary =>
         well_chunked config.(dc_chunk_frames) (decoded_pcm opened rate) (history w.1)
         /\ summary.(decoded_state) = DecodeCompleted
         /\ summary.(decoded_emitted_frames) = len (decoded_pcm opened rate) / 2
         /\ (decode_snapshot w config).(ds_state) = DecodeCompleted
     | Raised e =>
         e.(decode_kind) = DecodeCancelled /\ halted w.1
         /\ (decode_snapshot w config).(ds_state) = DecodeWorkerCancelled
     | Suspended => True
     end.
Proof.
  intros H1 H2 H3 Hv Hclean. destruct (validated_config _ _ H1 H2 H3 Hv) as (_ & Hn & Hq & _).
  pose proof (run_decoder_spec opened config rate channels sched Hclean Hn ltac:(lia)) as H.
  unfold wpc in H. destruct (run_decoder_worker _ _ _) as [[summary|e|] [sched' w]]; cbn [snd] in H.
  - destruct H as (Hsafe & Hrest). done.
  - destruct H as (Hk & Hhalt & Hsafe & Hst). unfold decode_snapshot. cbn. by rewrite Hst.
  - done.
Qed.

(** ** Witness *)

(** Three mono samples in two packets of track 7, one packet of another track
    between them; chunks of two frames through a queue of one. *)
Definition sample_source : OpenedDecoder :=
  mkOpenedDecoder
    [Packet 7 (Ok (mkDecodedBuffer 48000 1 2 [f32_of_Z 0; f32_of_Z 1]));
     Packet 8 (Err SymphoniaResetRequired);
     Packet 7 (Ok (mkDecodedBuffer 48000 1 1 [f32_of_Z (-1)]))]
    None (mkOpenedSource 7 (mkDecodeStreamInfo CANONICAL None None None 1) false).
Definition sample_decode_config : StreamingDecodeConfig := mkStreamingDecodeConfig 2 1 1000.

(** A consumer that takes one chunk at a time. *)
Definition sample_consumer : list (list (chan_act Empty_set)) := replicate 30 [Take; Account].

Lemma sample_source_clean : clean_source sample_source 48000 1.
Proof.
  split.
  - split; vm_compute; discriminate.
  - left. reflexivity.
  - repeat apply List.Forall_cons; try apply List.Forall_nil; cbn.
    + intros _. split_and!; reflexivity || (vm_compute; discriminate).
    + discriminate.
    + intros _. split_and!; reflexivity || (vm_compute; discriminate).
  - discriminate.
  - vm_compute. discriminate.
  - vm_compute. discriminate.
Defined.

Lemma decoded_stream_is_exact_witness :
  match run_decoder_worker (t := Target64) sample_source sample_decode_config
          (sample_consumer, decode_world_new sample_decode_config) with
  | (Done summary, (_, w)) =>
      map chunk_frames (history w.1) = [[0; 0; 32767; 32767]; [-32767; -32767]]
      /\ summary.(decoded_emitted_frames) = 3
      /\ well_chunked 2 (decoded_pcm sample_source 48000) (history w.1)
  | _ => False
  end.
Proof.
  pose proof (decoded_stream_is_exact (t := Target64) sample_source sample_decode_config 48000 1
    sample_consumer ltac:(vm_compute; discriminate) ltac:(vm_compute; discriminate)
    ltac:(vm_compute; discriminate) eq_refl sample_source_clean) as H.
  destruct (run_decoder_worker _ _ _) as [o [sched w]] eqn:E.
  vm_compute in E. injection E as <- <- <-. destruct H as (_ & H & _ & He & _).
  split; [reflexivity|]. split; [exact He|exact H].
Defined.
