(* ===== verification/PacketizerWorker.v ===== *)
(** The packetizer worker of one stream
    (src/rust/silent-disco-core/src/audio/packetizer_worker.rs): a thread that
    takes decoded chunks, packetizes them and sends the datagrams through a
    bounded channel with a slot-reserving counter, with cooperative
    cancellation. The send loop is shared with the playlist worker, so the
    shared world has a second component [U] with its own users. *)
From Stdlib Require Import ZArith Lia Strings.String.
From stdpp Require Import numbers list prelude.
From S2P Require Import Prelude Utf8 ProtocolTypes Interleaving BoundedChannel Packetizer DecodeTypes.

(** ** Configuration, states and failures *)

Definition DEFAULT_PACKETIZER_QUEUE_CAPACITY : Z := 32.
Definition MAX_PACKETIZER_QUEUE_CAPACITY : Z := 256.

Record StreamingPacketizeConfig : Type := mkStreamingPacketizeConfig {
pc_packet_duration_ms : Z;
pc_queue_capacity : Z
}.

Definition StreamingPacketizeConfig_default : StreamingPacketizeConfig :=
  mkStreamingPacketizeConfig DEFAULT_PACKET_DURATION_MS DEFAULT_PACKETIZER_QUEUE_CAPACITY.

Inductive PacketizerWorkerState : Type :=
| WorkerRunning
| WorkerCompleted
| WorkerCancelled
| WorkerFailed.

Inductive PacketizerWorkerErrorKind : Type :=
| WorkerSource
| WorkerPacketize
| WorkerCancelledError
| WorkerPanicked.

#[export] Instance PacketizerWorkerErrorKind_eq_dec : EqDecision PacketizerWorkerErrorKind.
Proof. solve_decision. Defined.

Record PacketizerWorkerError : Type := mkPacketizerWorkerError {
worker_kind : PacketizerWorkerErrorKind;
worker_message : rstr
}.

(** [PacketizerWorkerError::new] on a literal message. *)
Definition worker_error (kind : PacketizerWorkerErrorKind) (message : string) : PacketizerWorkerError :=
  mkPacketizerWorkerError kind (lit message).

Definition StreamingPacketizeConfig_validate (c : StreamingPacketizeConfig) :
  result unit PacketizerWorkerError :=
  if negb (in_range 1 MAX_PACKETIZER_QUEUE_CAPACITY c.(pc_queue_capacity)) then
    Err (worker_error WorkerPacketize "packetizer queue capacity must be between 1 and 256 frames")
  else Ok tt.

(** [From<PacketizerError>]; the text of the packetizer's own error is kept as
    it is. *)
Definition from_packetizer_error (message : rstr) (kind : PacketizerErrorKind) : PacketizerWorkerError :=
  mkPacketizerWorkerError
    (match kind with InvalidConfiguration | FormatMismatch | AlreadyFinished => WorkerPacketize end)
    message.

Record PacketizerSummary : Type := mkPacketizerSummary {
summary_state : PacketizerWorkerState;
summary_emitted_packets : Z;
summary_backpressure_events : Z
}.

(** ** The decode handle as this worker uses it *)

(** What [recv_timeout] answered, in order; once exhausted the decoder is
    disconnected. *)
Inductive recv_response : Type :=
| RecvChunk (chunk : DecodedPcmChunk)
| RecvTimeout.

Record DecodeHandle : Type := mkDecodeHandle {
dh_format : AudioFormat;
dh_responses : list recv_response;
(** the terminal results of [join] and of [cancel_and_join] *)
dh_join : result DecodeSummary DecodeError;
dh_cancel_and_join : result DecodeSummary DecodeError
}.

Definition merge_decoder_shutdown_result (packetizer_result : result PacketizerSummary PacketizerWorkerError)
  (decoder_result : result DecodeSummary DecodeError) : result PacketizerSummary PacketizerWorkerError :=
  match decoder_result with
  | Ok _ => packetizer_result
  | Err error =>
      if bool_decide (error.(decode_kind) = DecodeCancelled) then packetizer_result
      else
        let decoder_kind := if bool_decide (error.(decode_kind) = DecodeWorkerPanicked)
                            then WorkerPanicked else WorkerSource in
        let decoder_message := lit "streaming decoder worker failed: " ++ error.(decode_message) in
        match packetizer_result with
        | Ok _ => Err (mkPacketizerWorkerError decoder_kind decoder_message)
        | Err primary =>
            if bool_decide (primary.(worker_kind) = WorkerCancelledError)
            then Err (mkPacketizerWorkerError decoder_kind decoder_message)
            else Err (mkPacketizerWorkerError primary.(worker_kind)
                        (primary.(worker_message) ++ lit "; " ++ decoder_message))
        end
  end.

(** What [Drop] of the handle reports about the joined worker; [Err tt] is a
    panicked thread, [Some] fails loudly. *)
Definition drop_failure (joined : result (result PacketizerSummary PacketizerWorkerError) unit) :
  option rstr :=
  match joined with
  | Ok (Ok _) => None
  | Ok (Err error) =>
      if bool_decide (error.(worker_kind) = WorkerCancelledError) then None
      else Some (lit "streaming packetizer worker failed during implicit shutdown: "
                 ++ error.(worker_message))
  | Err _ => Some (lit "streaming packetizer worker panicked during implicit shutdown")
  end.

(** [join_worker]: the handle's [join] is taken, so a second call reports it. *)
Definition join_worker (join : option (result (result PacketizerSummary PacketizerWorkerError) unit)) :
  result PacketizerSummary PacketizerWorkerError *
  option (result (result PacketizerSummary PacketizerWorkerError) unit) :=
  match join with
  | None => (Err (worker_error WorkerPanicked "streaming packetizer worker was already joined"), None)
  | Some (Ok result) => (result, None)
  | Some (Err _) => (Err (worker_error WorkerPanicked "streaming packetizer worker panicked"), None)
  end.

(** ** Programs over the shared world *)

Definition is_audio (f : ProtocolFrame) : bool := match f with FAudio _ => true | _ => false end.

Section Send.
Context {U B : Type} (uenv : B -> U -> U).

Definition packet_world : Type := Channel ProtocolFrame * U.
Definition packet_state : Type := @scheduled packet_world (chan_act B).
Definition wprog (A : Type) : Type := prog packet_state PacketizerWorkerError A.

Definition channel_access {A : Type} (f : Channel ProtocolFrame -> A * Channel ProtocolFrame) : wprog A :=
  atomic (chan_env uenv) (on_channel f).

(** An access to the other shared state. *)
Definition shared_access {A : Type} (f : U -> A * U) : wprog A :=
  atomic (chan_env uenv) (fun w => let '(a, u) := f w.2 in (a, (w.1, u))).

Definition ensure_not_cancelled : wprog unit :=
  cancelled ← channel_access (fun c => (c.(ch_cancelled), c));
  if (cancelled : bool)
  then raise (worker_error WorkerCancelledError "streaming packetizer worker was cancelled")
  else mret tt.

(** One iteration of the loop of [send_with_backpressure]. *)
Definition send_step (frame : ProtocolFrame) (capacity : Z) (recorded : bool) : wprog (bool + unit) :=
  _ ← ensure_not_cancelled;
  reserved ← channel_access (reserve_slot capacity);
  if negb reserved then
    _ ← (if recorded then mret tt else channel_access (fun c => (tt, count_backpressure c)));
    mret (inl true)
  else
    sent ← channel_access (try_send frame);
    match sent with
    | Sent =>
        _ ← (if is_audio frame then channel_access (fun c => (tt, count_emitted 1 c)) else mret tt);
        mret (inr tt)
    | Full =>
        _ ← channel_access (fun c => (tt, release_slot c));
        mret (inl recorded)
    | Disconnected =>
        _ ← channel_access (fun c => (tt, release_slot c));
        raise (worker_error WorkerCancelledError "packetizer output receiver disconnected")
    end.

Definition send_with_backpressure (frame : ProtocolFrame) (capacity : Z) : wprog unit :=
  worker_loop (send_step frame capacity) false.

(** The summary of a completed worker. *)
Definition completed_summary : wprog PacketizerSummary :=
  emitted ← channel_access (fun c => (c.(ch_emitted), c));
  backpressure ← channel_access (fun c => (c.(ch_backpressure), c));
  mret (mkPacketizerSummary WorkerCompleted emitted backpressure).

(** The packetizer's errors as the worker reports them. *)
Definition lift_packetizer {A : Type} (message : rstr) (r : result A PacketizerErrorKind) : wprog A :=
  lift (map_err (from_packetizer_error message) r).
End Send.

(** ** The single-stream worker *)

Section Worker.
(** The text of a packetizer error is not interpreted. *)
Context (message : rstr).

Definition no_user (b : Empty_set) (u : unit) : unit := u.
Definition stream_world : Type := @packet_world unit.
Definition sprog (A : Type) : Type := @wprog unit Empty_set A.

(** The loop of [packetize_stream]; the recursion follows the decoder's
    answers. *)
Fixpoint packetize_stream (responses : list recv_response) (p : Packetizer) (capacity : Z) :
  sprog PacketizerSummary :=
  _ ← ensure_not_cancelled no_user;
  _ ← channel_access no_user (fun c => (tt, c));
  match responses with
  | [] => raise (worker_error WorkerSource "streaming decode worker disconnected before end-of-stream")
  | RecvTimeout :: responses => packetize_stream responses p capacity
  | RecvChunk chunk :: responses =>
      let '(pushed, p) := push_chunk chunk p in
      outcome ← lift_packetizer message pushed;
      _ ← for_each (fun frame => send_with_backpressure no_user frame capacity) outcome.(outcome_frames);
      if outcome.(outcome_end_of_stream) then completed_summary no_user
      else packetize_stream responses p capacity
  end.

Definition run_packetizer_worker (decoder : DecodeHandle) (p : Packetizer) (config : StreamingPacketizeConfig) :
  sprog PacketizerSummary :=
  result ← attempt (packetize_stream decoder.(dh_responses) p config.(pc_queue_capacity));
  lift (merge_decoder_shutdown_result result decoder.(dh_cancel_and_join)).

(** What [spawn] prepares for the new thread: the packetizer, its
    [StreamStart] and the shared world. *)
Definition spawn {t : target} (decoder : DecodeHandle) (session_id stream_id : rstr)
  (host_start_time_ms : Z) (config : StreamingPacketizeConfig) :
  result (Packetizer * ProtocolFrame * stream_world) PacketizerWorkerError :=
  let? _ := StreamingPacketizeConfig_validate config in
  let? packetizer := map_err (from_packetizer_error message)
    (Packetizer_new session_id stream_id decoder.(dh_format) config.(pc_packet_duration_ms)
       host_start_time_ms) in
  Ok (packetizer, stream_start_message packetizer, (new_channel config.(pc_queue_capacity), tt)).

(** ** Reference

    The packetizer alone: the frames of the decoder's chunks in order, and how
    the stream ends. *)
Fixpoint packetized (responses : list recv_response) (p : Packetizer) :
  list ProtocolFrame * result unit PacketizerWorkerError :=
  match responses with
  | [] =>
      ([], Err (worker_error WorkerSource "streaming decode worker disconnected before end-of-stream"))
  | RecvTimeout :: responses => packetized responses p
  | RecvChunk chunk :: responses =>
      match push_chunk chunk p with
      | (Err e, _) => ([], Err (from_packetizer_error message e))
      | (Ok out, p) =>
          if out.(outcome_end_of_stream) then (out.(outcome_frames), Ok tt)
          else let '(frames, r) := packetized responses p in (out.(outcome_frames) ++ frames, r)
      end
  end.
End Worker.

(** ** Sending one frame *)

(** The value of [emitted_packets] after the frames [h]. *)
Definition emitted_after (h : list ProtocolFrame) : Z := wrap 64 (len (List.filter is_audio h)).

Lemma emitted_after_snoc (h : list ProtocolFrame) (f : ProtocolFrame) :
  emitted_after (h ++ [f])
  = if is_audio f then wrapping_add 64 (emitted_after h) 1 else emitted_after h.
Proof.
  unfold emitted_after, wrapping_add, wrap. rewrite List.filter_app. cbn [List.filter].
  destruct (is_audio f); [|by rewrite app_nil_r].
  by rewrite len_app, len_cons, len_nil, Zplus_mod_idemp_l.
Qed.

Section SendSpec.
Context {U B : Type} (uenv : B -> U -> U).
Context (capacity : Z) (R : U -> Prop) (HR : stable uenv R).

(** The producer between two sends. *)
Definition idle (h : list ProtocolFrame) : packet_world -> Prop :=
  sending_emitted capacity 0 h (emitted_after h) R.

(** The producer anywhere, with the frames of [h] sent. *)
Definition in_flight (h : list ProtocolFrame) (w : packet_world) : Prop :=
  exists held, (held <= 1)%nat /\ sending capacity held h R w.

Lemma idle_in_flight (h : list ProtocolFrame) (w : packet_world) : idle h w -> in_flight h w.
Proof. intros [? _]. exists 0%nat. auto. Qed.

Lemma idle_new (u : U) : 0 <= capacity -> R u -> idle [] (new_channel capacity, u).
Proof. intros Hc Hu. split; [|done]. by split; [apply accounted_new|]. Qed.

(** The two ways a worker is stopped from outside: the failure reports a
    cancellation, and the flag was set or the receiver dropped. *)
Definition stopped (e : PacketizerWorkerError) (c : Channel ProtocolFrame) : Prop :=
  e.(worker_kind) = WorkerCancelledError /\ halted c.

Context (X : PacketizerWorkerError -> @packet_state U B -> Prop) (V : @packet_state U B -> Prop).

Section Access.
Context (held : nat) (h : list ProtocolFrame) (emitted : Z) (Hheld : (held <= 1)%nat).
Context (HV : forall s, in_flight h s.2 -> V s).

Lemma wpc_channel_access {A} (f : Channel ProtocolFrame -> A * Channel ProtocolFrame)
  (Q : A -> packet_state -> Prop) (s : packet_state) :
  sending_emitted capacity held h emitted R s.2 ->
  (forall sched c u, sending_emitted capacity held h emitted R (c, u) ->
     let '(a, c') := f c in Q a (sched, (c', u))) ->
  wpc (channel_access uenv f) Q X V s.
Proof.
  destruct s as [sched w]. cbn [snd]. intros Hw HQ. unfold channel_access.
  eapply (wpc_atomic (chan_env uenv) (sending_emitted capacity held h emitted R));
    [by apply sending_emitted_stable|done| |].
  - intros [? _]. apply HV. by exists held.
  - intros sched' [c u] Hc. pose proof (HQ sched' c u Hc) as H. unfold on_channel. cbn [fst snd].
    by destruct (f c).
Qed.

(** The same for a worker that has seen its consumer gone. *)
Lemma wpc_halted_access {A} (f : Channel ProtocolFrame -> A * Channel ProtocolFrame)
  (Q : A -> packet_state -> Prop) (s : packet_state) :
  sending_emitted capacity held h emitted R s.2 -> halted s.2.1 ->
  (forall sched c u, sending_emitted capacity held h emitted R (c, u) -> halted c ->
     let '(a, c') := f c in Q a (sched, (c', u))) ->
  wpc (channel_access uenv f) Q X V s.
Proof.
  destruct s as [sched w]. cbn [snd]. intros Hw Hh HQ. unfold channel_access.
  eapply (wpc_atomic (chan_env uenv)
            (fun w => sending_emitted capacity held h emitted R w /\ halted w.1));
    [apply stable_and; [by apply sending_emitted_stable|apply halted_stable]|done| |].
  - intros [[? _] _]. apply HV. by exists held.
  - intros sched' [c u] [Hc Hh']. pose proof (HQ sched' c u Hc Hh') as H. unfold on_channel.
    cbn [fst snd]. by destruct (f c).
Qed.
End Access.

Context (h : list ProtocolFrame).
Context (HX : forall e s, stopped e s.2.1 -> in_flight h s.2 -> X e s).
Context (HV : forall s, in_flight h s.2 -> V s).

Lemma ensure_spec (s : packet_state) :
  idle h s.2 -> wpc (ensure_not_cancelled uenv) (fun _ s => idle h s.2) X V s.
Proof.
  intros Hs. unfold ensure_not_cancelled. apply wpc_bind.
  eapply (wpc_channel_access 0 h); [lia|done..|]. intros sched c u Hc.
  destruct (ch_cancelled c) eqn:Ec.
  - apply wpc_raise, HX; [split; [done|by left]|]. by apply idle_in_flight.
  - by apply wpc_ret.
Qed.

(** A frame is sent exactly once, or not at all when the worker is stopped;
    [Full] is never answered. *)
Lemma send_spec (frame : ProtocolFrame) (s : packet_state) :
  (forall s, in_flight (h ++ [frame]) s.2 -> V s) ->
  idle h s.2 ->
  wpc (send_with_backpressure uenv frame capacity) (fun _ s => idle (h ++ [frame]) s.2) X V s.
Proof.
  intros HV' Hs. unfold send_with_backpressure.
  apply (wpc_worker_loop _ (fun _ s => idle h s.2)); [done|by intros _ s' ?; apply HV, idle_in_flight|].
  clear s Hs. intros recorded s Hs. unfold send_step. apply wpc_bind.
  eapply wpc_mono; [by apply ensure_spec|..]; try done. cbn beta. clear s Hs. intros _ s Hs.
  apply wpc_bind. eapply (wpc_channel_access 0 h); [lia|done..|].
  intros sched c u [(Ha & Hh & Hc & Hu) He]. cbn [fst snd] in *.
  pose proof (accounted_reserve c Ha) as Hr. rewrite Hc in Hr.
  destruct (reserve_slot capacity c) as [[] c1]; destruct Hr as (Ha1 & Hh1 & Hc1 & He1); cbn [negb].
  - apply wpc_bind. eapply (wpc_channel_access 1 h (emitted_after h)); [lia|done| |].
    { unfold sending_emitted, sending. cbn [fst snd]. split_and!; congruence || done. }
    clear sched c c1 u Ha Hh Hc Hu He Ha1 Hh1 Hc1 He1.
    intros sched c u [(Ha & Hh & Hc & Hu) He]. cbn [fst snd] in *.
    destruct (try_send_reserved frame c Ha) as [[-> Hd]|(c' & -> & Ha' & Hh' & Hc' & He')].
    + apply wpc_bind. eapply (wpc_halted_access 1 h (emitted_after h)); [lia|done| |by right|].
      { unfold sending_emitted, sending. cbn [fst snd]. split_and!; congruence || done. }
      intros sched' c2 u2 [(Ha2 & Hh2 & Hc2 & Hu2) He2] Hhalt. apply wpc_raise, HX; [done|]. exists 0%nat.
      split; [lia|]. unfold sending. cbn [fst snd] in *. split_and!; try done. by apply accounted_release.
    + assert (sending_emitted capacity 0 (h ++ [frame]) (emitted_after h) R (c', u)) as Hsent
        by (unfold sending_emitted, sending; cbn [fst snd]; split_and!; congruence || done).
      apply wpc_bind. pose proof (emitted_after_snoc h frame) as Hem. destruct (is_audio frame).
      * eapply (wpc_channel_access 0 (h ++ [frame]) (emitted_after h)); [lia|done..|].
        intros sched' c2 u2 [Hs2 He2]. apply wpc_ret. split; [done|]. cbn [fst snd] in *.
        rewrite Hem. cbn. by rewrite He2.
      * apply wpc_ret, wpc_ret. unfold idle. by rewrite Hem.
  - assert (idle h (c1, u)) as Hi
      by (unfold idle, sending_emitted, sending; cbn [fst snd]; split_and!; congruence || done).
    apply wpc_bind. destruct recorded; [by apply wpc_ret, wpc_ret|].
    eapply (wpc_channel_access 0 h (emitted_after h)); [lia|done..|]. intros sched' c2 u2 Hs2.
    by apply wpc_ret.
Qed.
End SendSpec.

(** ** Sending several frames *)

Section SendAll.
Context {U B : Type} (uenv : B -> U -> U).
Context (capacity : Z) (R : U -> Prop) (HR : stable uenv R).
Context (X : PacketizerWorkerError -> @packet_state U B -> Prop) (V : @packet_state U B -> Prop).

Lemma send_all_spec (h frames : list ProtocolFrame) (s : packet_state) :
  (forall k e s, k `prefix_of` frames -> stopped e s.2.1 -> in_flight capacity R (h ++ k) s.2 -> X e s) ->
  (forall k s, k `prefix_of` frames -> in_flight capacity R (h ++ k) s.2 -> V s) ->
  idle capacity R h s.2 ->
  wpc (for_each (fun frame => send_with_backpressure uenv frame capacity) frames)
    (fun _ s => idle capacity R (h ++ frames) s.2) X V s.
Proof.
  intros HX HV Hs.
  apply (wpc_for_each _ (fun k s => idle capacity R k s.2) X V frames h s Hs).
  intros pre x post s' -> Hi. rewrite app_assoc.
  assert (pre `prefix_of` pre ++ x :: post /\ pre ++ [x] `prefix_of` pre ++ x :: post) as [Hp1 Hp2].
  { split; [by apply prefix_app_r|]. exists post. by rewrite <- app_assoc. }
  apply (send_spec uenv capacity R HR); try done.
  - intros e s1 He H1. by apply (HX pre).
  - intros s1 H1. by apply (HV pre).
  - intros s1 H1. apply (HV (pre ++ [x])); [done|]. by rewrite app_assoc.
Qed.

Lemma summary_spec (h : list ProtocolFrame) (s : packet_state) :
  (forall s, in_flight capacity R h s.2 -> V s) -> idle capacity R h s.2 ->
  wpc (completed_summary uenv)
    (fun summary s => idle capacity R h s.2 /\ summary.(summary_state) = WorkerCompleted
       /\ summary.(summary_emitted_packets) = emitted_after h) X V s.
Proof.
  intros HV Hs. unfold completed_summary. apply wpc_bind.
  eapply (wpc_channel_access uenv capacity R HR X V 0 h); [lia|done..|].
  intros sched c u [Hc He]. apply wpc_bind.
  eapply (wpc_channel_access uenv capacity R HR X V 0 h (emitted_after h)); [lia|done|by split|].
  intros sched' c' u' Hc'. apply wpc_ret. done.
Qed.
End SendAll.

(** ** The worker computes the packetizer *)

Section Refinement.
Context (message : rstr) (capacity : Z).
Let R : unit -> Prop := fun _ => True.

Lemma no_user_stable : stable no_user R.
Proof. by intros []. Qed.

(** From a producer that has sent [h], a stream whose reference output is
    [frames] ending in [r]. *)
Definition stream_running (h frames : list ProtocolFrame) (s : @packet_state unit Empty_set) : Prop :=
  exists k, k `prefix_of` frames /\ in_flight capacity R (h ++ k) s.2.

Definition stream_failed (h frames : list ProtocolFrame) (r : result unit PacketizerWorkerError)
  (e : PacketizerWorkerError) (s : @packet_state unit Empty_set) : Prop :=
  (stopped e s.2.1 /\ stream_running h frames s) \/ (r = Err e /\ in_flight capacity R (h ++ frames) s.2).

Lemma stream_running_app (h a b : list ProtocolFrame) (s : @packet_state unit Empty_set) :
  stream_running (h ++ a) b s -> stream_running h (a ++ b) s.
Proof. intros (k & Hk & Hs). exists (a ++ k). split; [by apply prefix_app|]. by rewrite app_assoc. Qed.

Lemma running_early (h frames : list ProtocolFrame) (s : @packet_state unit Empty_set) :
  in_flight capacity R h s.2 -> stream_running h frames s.
Proof. intros Hs. exists []. rewrite app_nil_r. split; [apply prefix_nil|done]. Qed.

Lemma stopped_early (h frames : list ProtocolFrame) (r : result unit PacketizerWorkerError)
  (e : PacketizerWorkerError) (s : @packet_state unit Empty_set) :
  stopped e s.2.1 -> in_flight capacity R h s.2 -> stream_failed h frames r e s.
Proof. intros He Hs. left. split; [done|]. by apply running_early. Qed.

Lemma packetize_stream_spec (responses : list recv_response) (p : Packetizer) (h : list ProtocolFrame)
  (s : @packet_state unit Empty_set) :
  idle capacity R h s.2 ->
  wpc (packetize_stream message responses p capacity)
    (fun summary s => idle capacity R (h ++ (packetized message responses p).1) s.2
       /\ (packetized message responses p).2 = Ok tt
       /\ summary.(summary_state) = WorkerCompleted
       /\ summary.(summary_emitted_packets) = emitted_after (h ++ (packetized message responses p).1))
    (stream_failed h (packetized message responses p).1 (packetized message responses p).2)
    (stream_running h (packetized message responses p).1) s.
Proof.
  revert p h s. induction responses as [|r responses IH]; intros p h s Hs; cbn [packetize_stream].
  all: match goal with |- wpc _ _ ?X ?V _ => apply wpc_bind; eapply wpc_mono;
         [apply (ensure_spec no_user capacity R no_user_stable X V h)|..] end; try done;
    [by intros; apply stopped_early|by intros; apply running_early|].
  all: clear s Hs; cbn beta; intros _ s Hs; apply wpc_bind;
    eapply (wpc_channel_access no_user capacity R no_user_stable _ _ 0 h);
      [lia|by intros; apply running_early|done|].
  all: clear s Hs; intros sched c u Hs.
  - apply wpc_raise. right. cbn [packetized fst snd]. split; [done|]. rewrite app_nil_r.
    by apply idle_in_flight.
  - destruct r as [chunk|]; [|by apply IH]. cbn [packetized].
    destruct (push_chunk chunk p) as [[out|e] p'].
    + unfold lift_packetizer. cbn [map_err]. apply wpc_bind, wpc_lift. apply wpc_bind.
      set (all := packetized message responses p').
      assert (out.(outcome_frames) `prefix_of`
        (if out.(outcome_end_of_stream) then (out.(outcome_frames), Ok tt)
         else let '(frames, r) := all in (out.(outcome_frames) ++ frames, r)).1) as Hpre.
      { destruct (outcome_end_of_stream out); [done|]. destruct all. by apply prefix_app_r. }
      match goal with |- wpc _ _ ?X ?V _ => eapply wpc_mono;
        [apply (send_all_spec no_user capacity R no_user_stable X V h)|..] end; try done.
      * intros k e s' Hk He Hf. left. split; [done|]. exists k. split; [by etrans|done].
      * intros k s' Hk Hf. exists k. split; [by etrans|done].
      * cbn beta. intros _ s' Hs'. destruct (outcome_end_of_stream out) eqn:Ee.
        -- match goal with |- wpc _ _ ?X ?V _ => eapply wpc_mono;
             [apply (summary_spec no_user capacity R no_user_stable X V (h ++ outcome_frames out))|..] end;
             try done.
           ++ intros s1 Hf. by exists (outcome_frames out).
           ++ cbn. intros summary s1 (Hi & Hst & Hem). by split_and!.
        -- specialize (IH p' (h ++ outcome_frames out) s' Hs'). fold all in IH.
           destruct all as [frames r]. cbn [fst snd] in *.
           eapply wpc_mono; [exact IH|..]; cbn beta.
           ++ intros summary s1 (Hi & Hr & Hst & Hem). rewrite <- app_assoc in *. by split_and!.
           ++ intros e s1 [[He Hrun]|[Hr Hf]]; [left; split; [done|by apply stream_running_app]|].
              right. by rewrite <- app_assoc in Hf.
           ++ intros s1. apply stream_running_app.
    + unfold lift_packetizer. cbn [map_err]. apply wpc_bind, wpc_lift. right. cbn [fst snd].
      split; [done|]. rewrite app_nil_r. by apply idle_in_flight.
Qed.
End Refinement.

(** ** Progress with a prompt consumer *)

Section Progress.
Context {U B : Type} (uenv : B -> U -> U).

(** The consumer takes one item between any two steps of the worker. *)
Definition prompt : list (chan_act B) := [Take; Account].

(** A channel that such a consumer keeps nearly empty. *)
Definition live (u : U) (h : list ProtocolFrame) (w : packet_world) : Prop :=
  exists capacity d bp em,
    1 <= capacity /\ w.2 = u
    /\ ((w.1 = mkChannel capacity [] d 0 0 bp em false true /\ h = d)
        \/ exists f, w.1 = mkChannel capacity [f] d 1 0 bp em false true /\ h = d ++ [f]).

(** [m] returns within [k] accesses. *)
Definition completes {A : Type} (k : nat) (P : packet_world -> Prop) (m : wprog (U := U) (B := B) A)
  (Q : A -> packet_world -> Prop) : Prop :=
  forall sched w, P w -> (k <= length sched)%nat -> Forall (eq prompt) sched ->
  exists a sched' w', m (sched, w) = (Done a, (sched', w')) /\ Q a w'
    /\ (length sched <= length sched' + k)%nat /\ Forall (eq prompt) sched'.

Lemma completes_ret {A} (a : A) (P : packet_world -> Prop) : completes 0 P (mret a) (fun b w => b = a /\ P w).
Proof. intros sched w HP _ Hs. exists a, sched, w. split_and!; done || lia. Qed.

Lemma completes_bind {A C} (j k : nat) (P : packet_world -> Prop) (m : wprog A) (f : A -> wprog C)
  (Q : A -> packet_world -> Prop) (Q' : C -> packet_world -> Prop) :
  completes j P m Q -> (forall a, completes k (Q a) (f a) Q') -> completes (j + k) P (m ≫= f) Q'.
Proof.
  intros Hm Hf sched w HP Hlen Hs.
  destruct (Hm sched w HP) as (a & s1 & w1 & E1 & HQ & Hl1 & Hs1); [lia|done|].
  destruct (Hf a s1 w1 HQ) as (c & s2 & w2 & E2 & HQ' & Hl2 & Hs2); [lia|done|].
  exists c, s2, w2. unfold mbind, prog_bind. rewrite E1. split_and!; done || lia.
Qed.

Lemma completes_mono {A} (j k : nat) (P : packet_world -> Prop) (m : wprog A)
  (Q Q' : A -> packet_world -> Prop) :
  completes j P m Q -> (j <= k)%nat -> (forall a w, Q a w -> Q' a w) -> completes k P m Q'.
Proof.
  intros Hm Hk HQ sched w HP Hlen Hs.
  destruct (Hm sched w HP) as (a & s1 & w1 & E1 & HQa & Hl1 & Hs1); [lia|done|].
  exists a, s1, w1. split_and!; auto; lia.
Qed.

(** Before every access of the worker the channel is drained. *)
Lemma live_prompt_capacity (cap : Z) (u : U) (h : list ProtocolFrame) (w : packet_world) :
  live u h w -> w.1.(ch_capacity) = cap ->
  exists bp em, 1 <= cap
    /\ env_run (chan_env uenv) prompt w = (mkChannel cap [] h 0 0 bp em false true, u).
Proof.
  intros (capacity & d & bp & em & Hc & Hu & [[Hw ->]|(f & Hw & ->)]); destruct w as [c v];
    cbn [fst snd] in *; subst c v; intros <-; exists bp, em; done.
Qed.

Lemma live_drained (u : U) (h : list ProtocolFrame) (capacity bp em : Z) :
  1 <= capacity -> live u h (mkChannel capacity [] h 0 0 bp em false true, u).
Proof. intros. exists capacity, h, bp, em. split_and!; auto. Qed.

Lemma send_completes (u : U) (h : list ProtocolFrame) (frame : ProtocolFrame) (cap : Z) (sched : list (list (chan_act B)))
  (w : packet_world) :
  live u h w -> w.1.(ch_capacity) = cap -> (4 <= length sched)%nat -> Forall (eq prompt) sched ->
  exists sched' w', send_with_backpressure uenv frame cap (sched, w) = (Done tt, (sched', w'))
    /\ live u (h ++ [frame]) w' /\ w'.1.(ch_capacity) = cap
    /\ (length sched <= length sched' + 4)%nat /\ Forall (eq prompt) sched'.
Proof.
  intros Hw Hcap Hlen Hs. do 4 (destruct sched as [|? sched]; [cbn in Hlen; lia|];
    apply Forall_cons in Hs as [<- Hs]).
  destruct (live_prompt_capacity cap u h w Hw Hcap) as (bp & em & Hc1 & E).
  destruct cap as [|cap|cap]; [lia| |lia].
  unfold send_with_backpressure, worker_loop. cbn [length fst loop_n].
  unfold send_step, ensure_not_cancelled, channel_access, atomic, mbind, prog_bind. rewrite E.
  destruct (is_audio frame); cbn; eexists _, _; split_and!; try done; try lia.
  - by apply live_drained.
  - exists (Zpos cap), h, bp, em. split_and!; try done. right. by exists frame.
  - cbn. lia.
  - by constructor.
Qed.

(** The channel of a live world keeps its capacity. *)
Definition live_in (cap : Z) (u : U) (h : list ProtocolFrame) (w : packet_world) : Prop :=
  live u h w /\ w.1.(ch_capacity) = cap.

Lemma send_all_completes (cap : Z) (u : U) (frames h : list ProtocolFrame) :
  completes (4 * length frames) (live_in cap u h)
    (for_each (fun frame => send_with_backpressure uenv frame cap) frames)
    (fun _ => live_in cap u (h ++ frames)).
Proof.
  revert h. induction frames as [|f frames IH]; intros h; cbn [for_each].
  - eapply completes_mono; [apply completes_ret|cbn; lia|]. cbn beta.
    intros _ w [_ Hw]. by rewrite app_nil_r.
  - replace (4 * length (f :: frames))%nat with (4 + 4 * length frames)%nat by (cbn; lia).
    eapply completes_bind with (Q := fun _ => live_in cap u (h ++ [f])).
    + intros sched w [Hw Hc] Hlen Hs.
      destruct (send_completes u h f cap sched w Hw Hc Hlen Hs) as (s' & w' & E & Hw' & Hc' & Hl' & Hs').
      exists tt, s', w'. by split_and!.
    + intros _. specialize (IH (h ++ [f])). by rewrite <- app_assoc in IH.
Qed.

Lemma completes_access_in {A} (cap : Z) (u : U) (h : list ProtocolFrame)
  (f : Channel ProtocolFrame -> A * Channel ProtocolFrame) (Q : A -> Prop) :
  (forall bp em, let '(a, c) := f (mkChannel cap [] h 0 0 bp em false true) in
                 Q a /\ c = mkChannel cap [] h 0 0 bp em false true) ->
  completes 1 (live_in cap u h) (channel_access uenv f) (fun a w => Q a /\ live_in cap u h w).
Proof.
  intros HQ sched w [Hw Hc] Hlen Hs. destruct sched as [|acts sched]; [cbn in Hlen; lia|].
  apply Forall_cons in Hs as [<- Hs].
  destruct (live_prompt_capacity cap u h w Hw Hc) as (bp & em & Hc1 & E).
  unfold channel_access, atomic. rewrite E. unfold on_channel. cbn [fst snd].
  pose proof (HQ bp em) as Ha. destruct (f _) as [a c]. destruct Ha as [Ha ->].
  eexists a, sched, _. split; [done|]. split; [split; [done|split; [by apply live_drained|done]]|].
  cbn [length]. split; [lia|done].
Qed.

Lemma ensure_completes (cap : Z) (u : U) (h : list ProtocolFrame) :
  completes 1 (live_in cap u h) (ensure_not_cancelled uenv) (fun _ => live_in cap u h).
Proof.
  unfold ensure_not_cancelled. change 1%nat with (1 + 0)%nat.
  eapply completes_bind; [by apply (completes_access_in cap u h _ (fun a => a = false))|].
  intros [] sched w [Hb Hw] _ Hs; [done|]. exists tt, sched, w. split_and!; done || lia.
Qed.

Lemma summary_completes (cap : Z) (u : U) (h : list ProtocolFrame) :
  completes 2 (live_in cap u h) (completed_summary uenv)
    (fun summary w => summary.(summary_state) = WorkerCompleted /\ live_in cap u h w).
Proof.
  unfold completed_summary. change 2%nat with (1 + (1 + 0))%nat.
  eapply completes_bind; [by apply (completes_access_in cap u h _ (fun _ => True))|]. intros em.
  eapply completes_bind with (Q := fun _ => live_in cap u h).
  - eapply completes_mono; [|done|].
    + intros sched w [_ Hw]. by apply (completes_access_in cap u h _ (fun _ => True)).
    + by intros a w [_ Hw].
  - intros bp. eapply completes_mono; [apply completes_ret|done|]. by intros ? w [-> Hw].
Qed.
End Progress.

Lemma packetize_stream_completes (message : rstr) (cap : Z) (responses : list recv_response)
  (p : Packetizer) (h frames : list ProtocolFrame) :
  packetized message responses p = (frames, Ok tt) ->
  completes (2 * length responses + 4 * length frames + 2) (live_in cap tt h)
    (packetize_stream message responses p cap)
    (fun summary w => summary.(summary_state) = WorkerCompleted /\ live_in cap tt (h ++ frames) w).
Proof.
  revert p h frames. induction responses as [|r responses IH]; intros p h frames Hp; [done|].
  cbn [packetize_stream]. cbn [packetized] in Hp.
  replace (2 * length (r :: responses) + 4 * length frames + 2)%nat
    with (1 + (1 + (2 * length responses + 4 * length frames + 2)))%nat by (cbn [length]; lia).
  eapply completes_bind; [apply ensure_completes|]. cbn beta. intros _.
  eapply completes_bind with (Q := fun _ => live_in cap tt h);
    [eapply completes_mono; [by apply (completes_access_in no_user cap tt h _ (fun _ => True))|done|
       by intros ? ? [_ ?]]|].
  cbn beta. intros _. destruct r as [chunk|]; [|by apply IH].
  destruct (push_chunk chunk p) as [[out|e] p']; [|done].
  unfold lift_packetizer. cbn [map_err lift].
  destruct (outcome_end_of_stream out) eqn:Ee.
  - injection Hp as <-. change (mret out ≫= ?f) with (f out).
    eapply completes_mono with (j := (4 * length (outcome_frames out) + 2)%nat); [|lia|intros ? ? HQ; exact HQ].
    eapply completes_bind; [apply send_all_completes|]. cbn beta. intros _. rewrite Ee.
    apply summary_completes.
  - destruct (packetized message responses p') as [frames' r'] eqn:Er. injection Hp as <- ->.
    change (mret out ≫= ?f) with (f out).
    eapply completes_mono with
      (j := (4 * length (outcome_frames out) + (2 * length responses + 4 * length frames' + 2))%nat);
      [|rewrite length_app; lia|intros ? ? HQ; exact HQ].
    eapply completes_bind; [apply send_all_completes|]. cbn beta. intros _. rewrite Ee, app_assoc.
    by apply IH.
Qed.

(** ** Properties *)

(** C14. The worker is the packetizer behind a bounded queue, under every
    interleaving with its consumer and its owner: what has entered the channel
    is at every moment a prefix of the packetized stream, in order, and the
    queue counter is between zero and the configured capacity; the worker
    completes only when every frame of the stream was sent, and fails only
    with the packetizer's or decoder's own failure after every frame before it
    was sent, or with a cancellation while its cancellation flag is set or its
    receiver is dropped. *)
Theorem worker_sends_packetized_stream {t : target} (message session stream : rstr) (start : Z)
  (decoder : DecodeHandle) (config : StreamingPacketizeConfig) (p : Packetizer) (hello : ProtocolFrame)
  (w0 : stream_world) (sched : list (list (chan_act Empty_set))) :
  spawn message decoder session stream start config = Ok (p, hello, w0) ->
  let '(frames, ending) := packetized message decoder.(dh_responses) p in
  let '(outcome, (_, w)) := run_packetizer_worker message decoder p config (sched, w0) in
  0 <= w.1.(ch_queued) <= config.(pc_queue_capacity)
  /\ history w.1 `prefix_of` frames
  /\ match outcome with
     | Done summary =>
         history w.1 = frames /\ ending = Ok tt /\ summary.(summary_emitted_packets) = emitted_after frames
     | Raised e => exists r, merge_decoder_shutdown_result r decoder.(dh_cancel_and_join) = Err e
         /\ match r with
            | Ok _ => history w.1 = frames /\ ending = Ok tt
            | Err raw => stopped raw w.1 \/ (history w.1 = frames /\ ending = Err raw)
            end
     | Suspended => True
     end.
Proof.
  unfold spawn, StreamingPacketizeConfig_validate. destruct (in_range _ _ _) eqn:Ecap; [|done].
  cbn [negb]. intros H. ok_steps H. injection H as -> <- <-. apply in_range_iff in Ecap.
  set (cap := config.(pc_queue_capacity)) in *.
  pose proof (packetize_stream_spec message cap decoder.(dh_responses) p [] (sched, (new_channel cap, tt)))
    as Hwp.
  unfold run_packetizer_worker, attempt, mbind, prog_bind. fold cap.
  destruct (packetized message (dh_responses decoder) p) as [frames ending]. cbn [fst snd app] in Hwp.
  assert (forall h (w : stream_world), in_flight cap (fun _ => True) h w ->
            0 <= w.1.(ch_queued) <= cap /\ history w.1 = h) as Hin.
  { intros h w (held & _ & Ha & Hh & Hc & _). apply accounted_bounds in Ha. rewrite Hc in Ha. split; [lia|done]. }
  unfold wpc in Hwp. destruct (packetize_stream _ _ _ _ _) as [[summary|e|] [sched' w]]; cbn [snd] in Hwp.
  - destruct Hwp as (Hi & Hr & Hst & Hem); [by apply idle_new; [lia|]|].
    destruct (Hin _ _ (idle_in_flight _ _ _ _ Hi)) as [Hb Hh].
    destruct (merge_decoder_shutdown_result (Ok summary) _) as [summary'|e] eqn:Em; cbn [lift mret prog_ret].
    + rewrite Hh. split_and!; try done; try lia.
      assert (summary' = summary) as ->; [|done].
      unfold merge_decoder_shutdown_result in Em. by repeat case_match; simplify_eq.
    + cbn. rewrite Hh. split; [lia|]. split; [done|]. by exists (Ok summary).
  - assert (stream_failed cap [] frames ending e (sched', w)) as Hf.
    { by apply Hwp, idle_new; [lia|]. }
    assert (exists k, k `prefix_of` frames /\ in_flight cap (fun _ => True) k w
              /\ (stopped e w.1 \/ (k = frames /\ ending = Err e))) as (k & Hk & Hfl & Hwhy).
    { destruct Hf as [[He (k & Hk & Hfl)]|[Hr Hfl]]; [exists k; auto|exists frames; auto]. }
    destruct (Hin _ _ Hfl) as [Hb Hh].
    destruct (merge_decoder_shutdown_result (Err e) _) as [summary'|e'] eqn:Em; cbn [lift mret prog_ret].
    + unfold merge_decoder_shutdown_result in Em. repeat case_match; simplify_eq.
    + cbn. rewrite Hh. split; [lia|]. split; [done|]. exists (Err e). split; [done|]. naive_solver.
  - destruct Hwp as (k & Hk & Hfl); [by apply idle_new; [lia|]|].
    destruct (Hin _ _ Hfl) as [Hb Hh]. cbn [snd] in Hh, Hb. rewrite Hh. by split; [lia|].
Qed.

(** C37. A consumer that keeps up receives the whole stream in bounded time: if the
    decoder's chunks packetize to the end of the stream and the consumer takes
    an item between any two steps of the worker, the worker completes within
    two steps per decoder answer and four per frame, whatever the queue
    capacity, having sent every frame. *)
Theorem prompt_consumer_gets_the_stream {t : target} (message session stream : rstr) (start : Z)
  (decoder : DecodeHandle) (config : StreamingPacketizeConfig) (p : Packetizer) (hello : ProtocolFrame)
  (w0 : stream_world) (frames : list ProtocolFrame) (n : nat) :
  spawn message decoder session stream start config = Ok (p, hello, w0) ->
  packetized message decoder.(dh_responses) p = (frames, Ok tt) ->
  is_ok decoder.(dh_cancel_and_join) = true ->
  (2 * length decoder.(dh_responses) + 4 * length frames + 2 <= n)%nat ->
  exists summary sched' w,
    run_packetizer_worker message decoder p config (replicate n prompt, w0) = (Done summary, (sched', w))
    /\ summary.(summary_state) = WorkerCompleted /\ history w.1 = frames /\ w.1.(ch_queued) <= 1.
Proof.
  intros Hspawn Hp Hj Hn.
  assert (w0 = (new_channel config.(pc_queue_capacity), tt) /\ 1 <= config.(pc_queue_capacity)) as [-> Hcap].
  { revert Hspawn. unfold spawn, StreamingPacketizeConfig_validate.
    destruct (in_range _ _ _) eqn:Ecap; [|done]. cbn [negb]. intros H. ok_steps H.
    injection H as -> <- <-. apply in_range_iff in Ecap. split; [done|lia]. }
  set (cap := config.(pc_queue_capacity)) in *.
  destruct (packetize_stream_completes message cap decoder.(dh_responses) p [] frames Hp
              (replicate n prompt) (new_channel cap, tt))
    as (summary & sched' & w & E & [Hst [Hl Hc]] & _).
  - split; [|done]. exists cap, [], 0, 0. split_and!; try done. by left.
  - rewrite length_replicate. lia.
  - by apply Forall_replicate.
  - exists summary, sched', w. unfold run_packetizer_worker, attempt, mbind, prog_bind. unfold stream_world.
    fold cap. rewrite E.
    destruct (dh_cancel_and_join decoder) as [d|]; [|done]. cbn [merge_decoder_shutdown_result lift].
    split_and!; try done.
    + destruct w as [c u]. destruct Hl as (? & d' & ? & ? & _ & _ & [[Hw Hd]|(f & Hw & Hd)]);
        cbn in Hw, Hd; subst c; unfold history; cbn; by rewrite ?app_nil_r.
    + destruct w as [c u]. destruct Hl as (? & d' & ? & ? & _ & _ & [[Hw Hd]|(f & Hw & Hd)]);
        cbn in Hw; subst c; cbn; lia.
Qed.

(** ** Witnesses *)

Definition sample_handle : DecodeHandle :=
  mkDecodeHandle sample_pk_format
    [RecvTimeout; RecvChunk sample_chunk;
     RecvChunk (mkDecodedPcmChunk sample_pk_format 4 [5; -5; 6; -6; 7; -7] true)]
    (Ok (mkDecodeSummary DecodeCompleted 7 0)) (Ok (mkDecodeSummary DecodeCompleted 7 0)).
Definition sample_packetize_config : StreamingPacketizeConfig := mkStreamingPacketizeConfig 3 2.

(** A consumer that stops after the first datagram and is then cancelled. *)
Definition slow_consumer : list (list (chan_act Empty_set)) :=
  replicate 12 [] ++ [[Take]] ++ replicate 9 [] ++ [[Cancel]] ++ replicate 5 [].

Lemma worker_sends_packetized_stream_witness :
  match spawn (t := Target64) [] sample_handle (lit "session") (lit "stream") 500 sample_packetize_config with
  | Ok (p, _, w0) =>
      let '(outcome, (_, w)) := run_packetizer_worker [] sample_handle p sample_packetize_config (slow_consumer, w0) in
      outcome = Raised (worker_error WorkerCancelledError "streaming packetizer worker was cancelled")
      /\ w.1.(ch_cancelled) = true
      /\ 0 <= w.1.(ch_queued) <= 2
      /\ length (history w.1) = 2%nat
      /\ history w.1 `prefix_of` (packetized [] sample_handle.(dh_responses) p).1
  | Err _ => False
  end.
Proof.
  destruct (spawn (t := Target64) [] sample_handle (lit "session") (lit "stream") 500 sample_packetize_config)
    as [[[p hello] w0]|] eqn:E; [|vm_compute in E; discriminate].
  pose proof (worker_sends_packetized_stream (t := Target64) [] (lit "session") (lit "stream") 500
    sample_handle sample_packetize_config p hello w0 slow_consumer E) as H.
  vm_compute in E. injection E as <- <- <-.
  destruct (packetized _ _ _) as [frames ending].
  match type of H with context [run_packetizer_worker ?a ?b ?c ?d ?e] =>
    destruct (run_packetizer_worker a b c d e) as [o [sched w]] eqn:Er end.
  vm_compute in Er. injection Er as <- <- <-. destruct H as (Hb & Hp & _).
  split; [reflexivity|]. split; [reflexivity|]. split; [exact Hb|]. split; [reflexivity|exact Hp].
Defined.

Lemma prompt_consumer_gets_the_stream_witness :
  match spawn (t := Target64) [] sample_handle (lit "session") (lit "stream") 500 sample_packetize_config with
  | Ok (p, _, w0) =>
      exists summary sched' w,
        run_packetizer_worker [] sample_handle p sample_packetize_config (replicate 20 prompt, w0)
        = (Done summary, (sched', w))
        /\ history w.1 = (packetized [] sample_handle.(dh_responses) p).1
  | Err _ => False
  end.
Proof.
  destruct (spawn (t := Target64) [] sample_handle (lit "session") (lit "stream") 500 sample_packetize_config)
    as [[[p hello] w0]|] eqn:E; [|vm_compute in E; discriminate].
  pose proof (prompt_consumer_gets_the_stream (t := Target64) [] (lit "session") (lit "stream") 500
    sample_handle sample_packetize_config p hello w0
    (packetized [] sample_handle.(dh_responses) p).1 20 E) as H.
  vm_compute in E. injection E as <- <- <-.
  destruct H as (summary & sched' & w & Hr & _ & Hh & _).
  - vm_compute. reflexivity.
  - reflexivity.
  - vm_compute. lia.
  - exists summary, sched', w. split; [exact Hr|exact Hh].
Defined.
