(* ===== verification/Replay.v ===== *)
(** Replay protection of authenticated datagrams
    (src/rust/silent-disco-core/src/transport/secure_replay.rs): a 128-packet
    sliding window per peer and traffic purpose, fenced by key generations.
    The window's bitmap is proved to implement the set of committed sequence
    numbers, and the registry to accept no datagram twice. *)
From Stdlib Require Import ZArith Lia.
From stdpp Require Import numbers list prelude gmap.
From S2P Require Import Prelude.

(** ** Data *)

Definition REPLAY_BITS : Z := 128.
Definition MAX_PEER_CHANNELS : Z := 512.

Inductive DatagramPurpose : Type := PurposeAudio | PurposeSynchronization.

(** A fingerprint is a [[u8; 32]]. *)
Record ReplayKey : Type := mkReplayKey {
peer_fingerprint : list Z;
generation : Z;
purpose : DatagramPurpose
}.

Inductive ReplayError : Type :=
| ReplayInvalidIdentity
| ReplayInvalidGeneration
| ReplayTooManyPeers
| ReplayUnknownKey
| ReplayRetiredKey
| ReplayWrongGeneration
| ReplayDuplicate
| ReplayTooOld.

Record ReplayWindow : Type := mkReplayWindow {
highest : option Z;
seen : Z
}.

Definition ReplayWindow_default : ReplayWindow := mkReplayWindow None 0.

Record PeerChannel : Type := mkPeerChannel {
channel_generation : Z;
channel_active : bool;
channel_window : ReplayWindow
}.

#[export] Instance DatagramPurpose_eq_dec : EqDecision DatagramPurpose.
Proof. solve_decision. Defined.
#[export] Instance ReplayKey_eq_dec : EqDecision ReplayKey.
Proof. solve_decision. Defined.
#[export] Instance DatagramPurpose_countable : Countable DatagramPurpose.
Proof.
  apply (inj_countable' (fun p => match p with PurposeAudio => true | PurposeSynchronization => false end)
    (fun b : bool => if b then PurposeAudio else PurposeSynchronization)). by intros [].
Defined.

(** The registry's map, keyed by peer and purpose. *)
Abbreviation slot := (list Z * DatagramPurpose)%type.
Abbreviation SecureDatagramReplay := (gmap slot PeerChannel).

Definition slot_of (key : ReplayKey) : slot := (key.(peer_fingerprint), key.(purpose)).

(** ** The window *)

Definition window_check (sequence : Z) (w : ReplayWindow) : result unit ReplayError :=
  match w.(highest) with
  | None => Ok tt
  | Some highest =>
      if highest <? sequence then Ok tt
      else
        let distance := highest - sequence in
        if REPLAY_BITS <=? distance then Err ReplayTooOld
        else if negb (Z.land w.(seen) (Z.shiftl 1 distance) =? 0) then Err ReplayDuplicate
        else Ok tt
  end.

Definition window_commit (sequence : Z) (w : ReplayWindow) : result unit ReplayError * ReplayWindow :=
  match window_check sequence w with
  | Err e => (Err e, w)
  | Ok _ =>
      (Ok tt,
       match w.(highest) with
       | Some highest =>
           if highest <? sequence then
             let distance := sequence - highest in
             mkReplayWindow (Some sequence)
               (if REPLAY_BITS <=? distance then 1
                else Z.lor (wrap 128 (Z.shiftl w.(seen) distance)) 1)
           else mkReplayWindow (Some highest) (Z.lor w.(seen) (Z.shiftl 1 (highest - sequence)))
       | None => mkReplayWindow (Some sequence) 1
       end)
  end.

(** ** The registry *)

Definition SecureDatagramReplay_new : SecureDatagramReplay := ∅.

Definition activate (key : ReplayKey) (r : SecureDatagramReplay) :
  result unit ReplayError * SecureDatagramReplay :=
  if bool_decide (key.(peer_fingerprint) = replicate 32 0) then (Err ReplayInvalidIdentity, r)
  else if key.(generation) =? 0 then (Err ReplayInvalidGeneration, r)
  else
    let channel := mkPeerChannel key.(generation) true ReplayWindow_default in
    match r !! slot_of key with
    | Some previous =>
        if key.(generation) <=? previous.(channel_generation) then (Err ReplayWrongGeneration, r)
        else (Ok tt, <[slot_of key := channel]> r)
    | None =>
        if MAX_PEER_CHANNELS <=? Z.of_nat (size r) then (Err ReplayTooManyPeers, r)
        else (Ok tt, <[slot_of key := channel]> r)
    end.

Definition check_candidate (key : ReplayKey) (sequence : Z) (r : SecureDatagramReplay) :
  result unit ReplayError :=
  match r !! slot_of key with
  | None => Err ReplayUnknownKey
  | Some channel =>
      if negb (key.(generation) =? channel.(channel_generation)) then Err ReplayWrongGeneration
      else if negb channel.(channel_active) then Err ReplayRetiredKey
      else window_check sequence channel.(channel_window)
  end.

Definition commit_verified (key : ReplayKey) (sequence : Z) (r : SecureDatagramReplay) :
  result unit ReplayError * SecureDatagramReplay :=
  match check_candidate key sequence r with
  | Err e => (Err e, r)
  | Ok _ =>
      match r !! slot_of key with
      | None => (Err ReplayUnknownKey, r)
      | Some channel =>
          let '(outcome, w) := window_commit sequence channel.(channel_window) in
          (outcome, <[slot_of key := mkPeerChannel channel.(channel_generation)
                                       channel.(channel_active) w]> r)
      end
  end.

Definition retire (key : ReplayKey) (r : SecureDatagramReplay) : bool * SecureDatagramReplay :=
  match r !! slot_of key with
  | None => (false, r)
  | Some channel =>
      if negb (channel.(channel_generation) =? key.(generation)) || negb channel.(channel_active)
      then (false, r)
      else (true, <[slot_of key := mkPeerChannel channel.(channel_generation) false
                                     channel.(channel_window)]> r)
  end.

Definition replay_len (r : SecureDatagramReplay) : Z := Z.of_nat (size r).
Definition replay_is_empty (r : SecureDatagramReplay) : bool := Nat.eqb (size r) 0.

(** ** What the window promises: the set of committed sequence numbers *)

(** The largest committed sequence. *)
Fixpoint newest (committed : list Z) : option Z :=
  match committed with
  | [] => None
  | s :: rest => Some (match newest rest with Some top => Z.max s top | None => s end)
  end.

Definition spec_check (sequence : Z) (committed : list Z) : result unit ReplayError :=
  match newest committed with
  | None => Ok tt
  | Some top =>
      if top <? sequence then Ok tt
      else if top - sequence <? REPLAY_BITS
      then if bool_decide (sequence ∈ committed) then Err ReplayDuplicate else Ok tt
      else Err ReplayTooOld
  end.

Definition spec_commit (sequence : Z) (committed : list Z) : result unit ReplayError * list Z :=
  match spec_check sequence committed with
  | Err e => (Err e, committed)
  | Ok _ => (Ok tt, sequence :: committed)
  end.

(** A sequence of commits, with their outcomes. *)
Fixpoint commits {W : Type} (commit : Z -> W -> result unit ReplayError * W) (l : list Z) (w : W) :
  list (result unit ReplayError) * W :=
  match l with
  | [] => ([], w)
  | s :: l => let '(o, w) := commit s w in let '(os, w) := commits commit l w in (o :: os, w)
  end.

(** The bitmap represents the committed sequences: bit [d] stands for the
    newest sequence minus [d]. *)
Record represents (w : ReplayWindow) (committed : list Z) : Prop := {
rep_highest : w.(highest) = newest committed;
rep_seen : forall d, 0 <= d < REPLAY_BITS ->
  Z.testbit w.(seen) d = match newest committed with
                         | Some top => bool_decide (top - d ∈ committed)
                         | None => false
                         end
}.

Lemma newest_None (committed : list Z) : newest committed = None -> committed = [].
Proof. by destruct committed. Qed.

Lemma newest_bound (committed : list Z) (top s : Z) :
  newest committed = Some top -> s ∈ committed -> s <= top.
Proof.
  revert top. induction committed as [|x rest IH]; intros top Ht Hs; [by apply elem_of_nil in Hs|].
  cbn [newest] in Ht. injection Ht as <-. apply elem_of_cons in Hs as [->|Hs].
  - destruct (newest rest); lia.
  - destruct (newest rest) as [t|] eqn:E; [specialize (IH t eq_refl Hs); lia|].
    apply newest_None in E as ->. by apply elem_of_nil in Hs.
Qed.

Lemma testbit_one (k : Z) : Z.testbit 1 k = (k =? 0).
Proof.
  destruct (Z.lt_trichotomy k 0) as [H|[->|H]]; [rewrite Z.testbit_neg_r by lia|done|
    rewrite Z.bits_above_log2 by (cbn; lia)]; symmetry; apply Z.eqb_neq; lia.
Qed.

Lemma land_bit (a d : Z) : 0 <= d -> (Z.land a (Z.shiftl 1 d) =? 0) = negb (Z.testbit a d).
Proof.
  intros Hd. destruct (Z.testbit a d) eqn:E.
  - apply Z.eqb_neq. intros H. apply (f_equal (fun z => Z.testbit z d)) in H.
    rewrite Z.land_spec, Z.shiftl_spec, E, Z.sub_diag, Z.bits_0 in H by done. done.
  - apply Z.eqb_eq, Z.bits_inj'. intros n Hn. rewrite Z.land_spec, Z.shiftl_spec, Z.bits_0 by done.
    rewrite testbit_one. destruct (Z.eq_dec n d) as [->|Hne]; [by rewrite E|].
    rewrite (proj2 (Z.eqb_neq _ _)) by lia. by rewrite andb_false_r.
Qed.

Lemma window_check_refines (w : ReplayWindow) (committed : list Z) (s : Z) :
  represents w committed -> window_check s w = spec_check s committed.
Proof.
  intros [Hh Hs]. unfold window_check, spec_check. rewrite Hh.
  destruct (newest committed) as [top|]; [|done]. destruct (top <? s) eqn:E; [done|]. to_prop.
  rewrite Z.leb_antisym. destruct (top - s <? REPLAY_BITS) eqn:Ed; [|done]. to_prop. cbn [negb].
  rewrite land_bit, Hs by lia. replace (top - (top - s)) with s by lia. by destruct (bool_decide _).
Qed.

Lemma represents_default : represents ReplayWindow_default [].
Proof. split; [done|]. intros d Hd. apply Z.bits_0. Qed.

(** Membership of a position in the extended set, as the new bitmap computes it. *)
Lemma bool_decide_cons (x s : Z) (l : list Z) :
  bool_decide (x ∈ s :: l) = (x =? s) || bool_decide (x ∈ l).
Proof.
  destruct (x =? s) eqn:E; to_prop; cbn [orb].
  - subst. by apply bool_decide_eq_true_2, elem_of_cons; left.
  - apply bool_decide_ext. rewrite elem_of_cons. split; [by intros [->|?]|by right].
Qed.

Lemma bool_decide_beyond (committed : list Z) (top x : Z) :
  newest committed = Some top -> top < x -> bool_decide (x ∈ committed) = false.
Proof.
  intros Ht Hx. apply bool_decide_eq_false_2. intros Hin.
  pose proof (newest_bound committed top x Ht Hin). lia.
Qed.

Lemma commit_newer_bits (w : ReplayWindow) (committed : list Z) (top s d : Z) :
  represents w committed -> newest committed = Some top -> top < s -> 0 <= d < REPLAY_BITS ->
  Z.testbit (if REPLAY_BITS <=? s - top then 1
             else Z.lor (wrap 128 (Z.shiftl w.(seen) (s - top))) 1) d
  = bool_decide (s - d ∈ s :: committed).
Proof.
  intros [_ Hs] Ht Hlt Hd. rewrite Ht in Hs. unfold REPLAY_BITS in *.
  rewrite bool_decide_cons. replace (s - d =? s) with (d =? 0)
    by (destruct (d =? 0) eqn:E; to_prop; symmetry; [apply Z.eqb_eq|apply Z.eqb_neq]; lia).
  destruct (128 <=? s - top) eqn:Ed; to_prop.
  - rewrite testbit_one, (bool_decide_beyond committed top) by (done || lia). by rewrite orb_false_r.
  - rewrite Z.lor_spec, testbit_one. unfold wrap. rewrite Z.mod_pow2_bits_low, Z.shiftl_spec by lia.
    rewrite orb_comm. f_equal. destruct (Z.lt_ge_cases d (s - top)) as [Hlt'|Hge].
    + rewrite Z.testbit_neg_r, (bool_decide_beyond committed top) by (done || lia). done.
    + rewrite Hs by lia. f_equal. by replace (top - (d - (s - top))) with (s - d) by lia.
Qed.

Lemma window_commit_refines (w : ReplayWindow) (committed : list Z) (s : Z) :
  represents w committed ->
  (window_commit s w).1 = (spec_commit s committed).1
  /\ represents (window_commit s w).2 (spec_commit s committed).2.
Proof.
  intros Hw. unfold window_commit, spec_commit. rewrite (window_check_refines w committed s Hw).
  destruct (spec_check s committed) as [[]|]; [|done]. split; [done|]. cbn [fst snd].
  pose proof Hw as [Hh Hs]. rewrite Hh. destruct (newest committed) as [top|] eqn:Ht.
  - destruct (top <? s) eqn:E; to_prop.
    + split; cbn [highest seen newest]; rewrite Ht; [f_equal; lia|]. intros d Hd.
      rewrite Z.max_l by lia. by apply (commit_newer_bits w committed top).
    + split; cbn [highest seen newest]; rewrite Ht; rewrite Z.max_r by lia; [done|]. intros d Hd.
      rewrite Z.lor_spec, Hs, Z.shiftl_spec, testbit_one, bool_decide_cons by lia. rewrite orb_comm.
      f_equal. destruct (d - (top - s) =? 0) eqn:Ed; to_prop; symmetry;
        [apply Z.eqb_eq|apply Z.eqb_neq]; lia.
  - apply newest_None in Ht as ->. split; cbn [highest seen newest]; [done|]. intros d Hd.
    rewrite testbit_one, bool_decide_cons. rewrite (bool_decide_eq_false_2 (_ ∈ [])) by apply not_elem_of_nil.
    rewrite orb_false_r. destruct (d =? 0) eqn:Ed; to_prop; symmetry; [apply Z.eqb_eq|apply Z.eqb_neq]; lia.
Qed.

(** ** Histories of the registry *)

Inductive ReplayOp : Type :=
| OpActivate (key : ReplayKey)
| OpCommit (key : ReplayKey) (sequence : Z)
| OpRetire (key : ReplayKey).

(** The accepted datagrams, newest first, and the registry. *)
Definition replay_step (st : list (ReplayKey * Z) * SecureDatagramReplay) (op : ReplayOp) :
  list (ReplayKey * Z) * SecureDatagramReplay :=
  let '(accepted, r) := st in
  match op with
  | OpActivate key => (accepted, (activate key r).2)
  | OpCommit key sequence =>
      match commit_verified key sequence r with
      | (Ok _, r) => ((key, sequence) :: accepted, r)
      | (Err _, r) => (accepted, r)
      end
  | OpRetire key => (accepted, (retire key r).2)
  end.

Definition replay_run (ops : list ReplayOp) (st : list (ReplayKey * Z) * SecureDatagramReplay) :
  list (ReplayKey * Z) * SecureDatagramReplay := fold_left replay_step ops st.

(** The sequences accepted under one key. *)
Definition sequences_of (key : ReplayKey) (accepted : list (ReplayKey * Z)) : list Z :=
  map snd (List.filter (fun a => bool_decide (a.1 = key)) accepted).

Definition key_of (sl : slot) (ch : PeerChannel) : ReplayKey :=
  mkReplayKey sl.1 ch.(channel_generation) sl.2.

Record registry_ok (accepted : list (ReplayKey * Z)) (r : SecureDatagramReplay) : Prop := {
ro_size : replay_len r <= MAX_PEER_CHANNELS;
ro_nodup : NoDup accepted;
ro_fence : forall key s, (key, s) ∈ accepted ->
  exists ch, r !! slot_of key = Some ch /\ key.(generation) <= ch.(channel_generation);
ro_window : forall sl ch, r !! sl = Some ch ->
  represents ch.(channel_window) (sequences_of (key_of sl ch) accepted)
}.

Lemma elem_of_sequences (key : ReplayKey) (accepted : list (ReplayKey * Z)) (s : Z) :
  s ∈ sequences_of key accepted <-> (key, s) ∈ accepted.
Proof.
  unfold sequences_of. rewrite !list_elem_of_In, in_map_iff. split.
  - intros ([k x] & <- & Hin). apply filter_In in Hin as [Hin Hk].
    apply bool_decide_eq_true in Hk. cbn in Hk. by subst.
  - intros Hin. exists (key, s). split; [done|]. apply filter_In. split; [done|].
    by apply bool_decide_eq_true_2.
Qed.

Lemma spec_check_fresh (s : Z) (committed : list Z) (u : unit) :
  spec_check s committed = Ok u -> s ∉ committed.
Proof.
  unfold spec_check. destruct (newest committed) as [top|] eqn:Ht.
  - destruct (top <? s) eqn:E; to_prop.
    + intros _ Hin. pose proof (newest_bound committed top s Ht Hin). lia.
    + destruct (_ <? _); [|done]. by case_bool_decide.
  - apply newest_None in Ht as ->. intros _. apply not_elem_of_nil.
Qed.

(** Nothing was accepted yet under a generation newer than the fence. *)
Lemma sequences_of_fresh (accepted : list (ReplayKey * Z)) (key : ReplayKey) :
  (forall s, (key, s) ∉ accepted) -> sequences_of key accepted = [].
Proof.
  intros H. destruct (sequences_of key accepted) as [|s l] eqn:E; [done|].
  destruct (H s). apply elem_of_sequences. rewrite E. by left.
Qed.

Lemma key_of_slot (key : ReplayKey) (ch : PeerChannel) :
  ch.(channel_generation) = key.(generation) -> key_of (slot_of key) ch = key.
Proof. unfold key_of. intros ->. by destruct key. Qed.

Lemma activate_ok (accepted : list (ReplayKey * Z)) (key : ReplayKey) (r : SecureDatagramReplay) :
  registry_ok accepted r -> registry_ok accepted (activate key r).2.
Proof.
  intros Hr. unfold activate. case_bool_decide; [done|]. destruct (_ =? 0); [done|].
  set (channel := mkPeerChannel _ _ _).
  assert (forall previous_below : (forall ch, r !! slot_of key = Some ch ->
                                   ch.(channel_generation) < key.(generation)),
          replay_len (<[slot_of key := channel]> r) <= MAX_PEER_CHANNELS ->
          registry_ok accepted (<[slot_of key := channel]> r)) as Hins.
  { intros Hbelow Hsize. destruct Hr as [_ Hnd Hf Hw]. split; [done|done| |].
    - intros k s Hk. destruct (Hf k s Hk) as (ch & Hch & Hle).
      destruct (decide (slot_of key = slot_of k)) as [E|E].
      + exists channel. rewrite E, lookup_insert_eq. split; [done|].
        rewrite <- E in Hch. specialize (Hbelow ch Hch). cbn. lia.
      + exists ch. by rewrite lookup_insert_ne.
    - intros sl ch Hch. destruct (decide (slot_of key = sl)) as [<-|E].
      + rewrite lookup_insert_eq in Hch. injection Hch as <-. rewrite key_of_slot by done.
        rewrite sequences_of_fresh; [apply represents_default|]. intros s Hs.
        destruct (Hf key s Hs) as (ch & Hch & Hle). specialize (Hbelow ch Hch). lia.
      + rewrite lookup_insert_ne in Hch by done. by apply Hw. }
  destruct (r !! slot_of key) as [previous|] eqn:Ep.
  - destruct (_ <=? _) eqn:E; [done|]. to_prop. apply Hins; [intros ch [= <-]; lia|].
    unfold replay_len. rewrite map_size_insert_Some by eauto. apply Hr.
  - destruct (_ <=? Z.of_nat (size r)) eqn:E; [done|]. to_prop. apply Hins; [done|].
    unfold replay_len. rewrite map_size_insert_None by done. lia.
Qed.

Lemma retire_ok (accepted : list (ReplayKey * Z)) (key : ReplayKey) (r : SecureDatagramReplay) :
  registry_ok accepted r -> registry_ok accepted (retire key r).2.
Proof.
  intros Hr. unfold retire. destruct (r !! slot_of key) as [ch|] eqn:Ec; [|done].
  destruct (_ || _); [done|]. destruct Hr as [Hsize Hnd Hf Hw]. split; [|done| |].
  - unfold replay_len. cbn [snd]. by rewrite map_size_insert_Some by eauto.
  - intros k s Hk. destruct (Hf k s Hk) as (c & Hc & Hle). cbn [snd].
    destruct (decide (slot_of key = slot_of k)) as [E|E].
    + rewrite <- E, Ec in Hc. injection Hc as <-. rewrite <- E, lookup_insert_eq. eauto.
    + exists c. by rewrite lookup_insert_ne.
  - intros sl c Hc. cbn [snd] in Hc. destruct (decide (slot_of key = sl)) as [<-|E].
    + rewrite lookup_insert_eq in Hc. injection Hc as <-. exact (Hw _ _ Ec).
    + rewrite lookup_insert_ne in Hc by done. by apply Hw.
Qed.

Lemma sequences_of_cons_eq (key : ReplayKey) (s : Z) (accepted : list (ReplayKey * Z)) :
  sequences_of key ((key, s) :: accepted) = s :: sequences_of key accepted.
Proof. unfold sequences_of. cbn [List.filter fst]. by rewrite bool_decide_eq_true_2. Qed.

Lemma sequences_of_cons_ne (key key' : ReplayKey) (s : Z) (accepted : list (ReplayKey * Z)) :
  key <> key' -> sequences_of key' ((key, s) :: accepted) = sequences_of key' accepted.
Proof. intros H. unfold sequences_of. cbn [List.filter fst]. by rewrite bool_decide_eq_false_2. Qed.

(** A commit succeeds exactly for the current, active generation and a
    sequence its set does not hold; then the window takes it in. *)
Lemma commit_verified_cases (key : ReplayKey) (s : Z) (r : SecureDatagramReplay) :
  (exists e, commit_verified key s r = (Err e, r))
  \/ exists ch, r !! slot_of key = Some ch /\ ch.(channel_generation) = key.(generation)
     /\ ch.(channel_active) = true /\ (window_commit s ch.(channel_window)).1 = Ok tt
     /\ commit_verified key s r
        = (Ok tt, <[slot_of key := mkPeerChannel ch.(channel_generation) ch.(channel_active)
                                     (window_commit s ch.(channel_window)).2]> r).
Proof.
  unfold commit_verified, check_candidate. destruct (r !! slot_of key) as [ch|] eqn:Ec; [|eauto].
  destruct (negb (_ =? _)) eqn:Eg; [eauto|]. destruct (negb (channel_active ch)) eqn:Ea; [eauto|]. to_prop.
  destruct (window_check s (channel_window ch)) as [[]|] eqn:Ew; [|eauto]. right. exists ch.
  unfold window_commit. rewrite Ew. by split_and!.
Qed.

Lemma commit_ok (accepted : list (ReplayKey * Z)) (key : ReplayKey) (s : Z) (r : SecureDatagramReplay) :
  registry_ok accepted r ->
  let '(accepted', r') := replay_step (accepted, r) (OpCommit key s) in registry_ok accepted' r'.
Proof.
  intros Hr. cbn [replay_step].
  destruct (commit_verified_cases key s r) as [[e ->]|(ch & Hch & Hg & Ha & Hok & ->)]; [done|].
  destruct Hr as [Hsize Hnd Hf Hw]. pose proof (Hw _ _ Hch) as Hrep. rewrite key_of_slot in Hrep by done.
  destruct (window_commit_refines _ _ s Hrep) as [Hout Hrep']. rewrite Hok in Hout.
  unfold spec_commit in Hout, Hrep'.
  destruct (spec_check s (sequences_of key accepted)) as [u|] eqn:Es; [|done]. cbn [snd] in Hrep'.
  split.
  - unfold replay_len. by rewrite map_size_insert_Some by eauto.
  - apply NoDup_cons. split; [|done]. rewrite <- elem_of_sequences. by apply (spec_check_fresh _ _ u).
  - intros k x Hk. destruct (decide (slot_of key = slot_of k)) as [E|E].
    + rewrite <- E, lookup_insert_eq. eexists. split; [done|]. cbn [channel_generation].
      apply elem_of_cons in Hk as [[= -> ->]|Hk]; [lia|]. destruct (Hf k x Hk) as (c & Hc & Hle).
      rewrite <- E, Hch in Hc. by injection Hc as <-.
    + rewrite lookup_insert_ne by done. apply elem_of_cons in Hk as [[= -> ->]|Hk]; [done|]. eauto.
  - intros sl c Hc. destruct (decide (slot_of key = sl)) as [<-|E].
    + rewrite lookup_insert_eq in Hc. injection Hc as <-. rewrite key_of_slot by done.
      by rewrite sequences_of_cons_eq.
    + rewrite lookup_insert_ne in Hc by done. rewrite sequences_of_cons_ne; [by apply Hw|].
      intros ->. destruct sl. by apply E.
Qed.

Lemma replay_run_ok (ops : list ReplayOp) (accepted : list (ReplayKey * Z)) (r : SecureDatagramReplay) :
  registry_ok accepted r -> registry_ok (replay_run ops (accepted, r)).1 (replay_run ops (accepted, r)).2.
Proof.
  revert accepted r. induction ops as [|op ops IH]; intros accepted r Hr; [done|].
  cbn [replay_run fold_left]. destruct (replay_step (accepted, r) op) as [a r'] eqn:E. apply IH.
  destruct op as [key|key s|key].
  - injection E as <- <-. by apply activate_ok.
  - pose proof (commit_ok accepted key s r Hr) as H. by rewrite E in H.
  - injection E as <- <-. by apply retire_ok.
Qed.

Lemma registry_ok_new : registry_ok [] SecureDatagramReplay_new.
Proof.
  split; [done|constructor|intros ? ? H; by apply elem_of_nil in H|].
  intros sl ch H. unfold SecureDatagramReplay_new in H. by rewrite lookup_empty in H.
Qed.

(** ** Generations *)

(** [key] can no longer be used: its slot has moved on or retired it. *)
Definition fenced (key : ReplayKey) (r : SecureDatagramReplay) : Prop :=
  exists ch, r !! slot_of key = Some ch
    /\ (key.(generation) < ch.(channel_generation)
        \/ key.(generation) = ch.(channel_generation) /\ ch.(channel_active) = false).

Lemma fenced_commit (key : ReplayKey) (s : Z) (r : SecureDatagramReplay) :
  fenced key r -> exists e, commit_verified key s r = (Err e, r).
Proof.
  intros (ch & Hch & H). destruct (commit_verified_cases key s r) as [?|(c & Hc & Hg & Ha & _)]; [done|].
  rewrite Hch in Hc. injection Hc as <-. destruct H as [H|[_ H]]; [lia|congruence].
Qed.

Lemma fenced_activate (key : ReplayKey) (r : SecureDatagramReplay) :
  fenced key r -> exists e, activate key r = (Err e, r).
Proof.
  intros (ch & Hch & H). unfold activate. case_bool_decide; [eauto|]. destruct (_ =? 0); [eauto|].
  rewrite Hch. rewrite (proj2 (Z.leb_le _ _)) by lia. eauto.
Qed.

(** Updating a slot keeps a key fenced when it keeps or raises the slot's fence. *)
Lemma fenced_insert (key : ReplayKey) (sl : slot) (c : PeerChannel) (r : SecureDatagramReplay) :
  fenced key r ->
  (forall ch, r !! sl = Some ch ->
     ch.(channel_generation) < c.(channel_generation)
     \/ c.(channel_generation) = ch.(channel_generation)
        /\ (ch.(channel_active) = false -> c.(channel_active) = false)) ->
  fenced key (<[sl := c]> r).
Proof.
  intros (ch & Hch & H) Hup. destruct (decide (sl = slot_of key)) as [->|E].
  - exists c. rewrite lookup_insert_eq. split; [done|]. specialize (Hup ch Hch).
    destruct Hup as [?|[? Hact]], H as [?|[? ?]]; [left; lia|left; lia|left; lia|right; split; [lia|auto]].
  - exists ch. by rewrite lookup_insert_ne.
Qed.

Lemma fenced_step (key : ReplayKey) (op : ReplayOp) (accepted : list (ReplayKey * Z))
  (r : SecureDatagramReplay) :
  fenced key r ->
  fenced key (replay_step (accepted, r) op).2
  /\ forall s, (key, s) ∈ (replay_step (accepted, r) op).1 -> (key, s) ∈ accepted.
Proof.
  intros Hf. destruct op as [k|k x|k]; cbn [replay_step].
  - split; [|done]. cbn [snd]. unfold activate. case_bool_decide; [done|]. destruct (_ =? 0); [done|].
    destruct (r !! slot_of k) as [p|] eqn:Ep; destruct (_ <=? _) eqn:E; try done; to_prop;
      apply fenced_insert; try done; rewrite Ep; [|done]. intros ch [= <-]. left. cbn. lia.
  - destruct (commit_verified_cases k x r) as [[e ->]|(ch & Hch & Hg & Ha & Hok & Hc)]; [done|]. rewrite Hc.
    split.
    + apply fenced_insert; [done|]. rewrite Hch. intros c [= <-]. right. done.
    + intros s Hs. apply elem_of_cons in Hs as [[= <- <-]|Hs]; [|done].
      destruct (fenced_commit key s r Hf) as [e He]. by rewrite Hc in He.
  - split; [|done]. cbn [snd]. unfold retire. destruct (r !! slot_of k) as [c|] eqn:Ec; [|done].
    destruct (_ || _); [done|]. apply fenced_insert; [done|]. rewrite Ec. intros ch [= <-]. right. done.
Qed.

Lemma fenced_run (key : ReplayKey) (ops : list ReplayOp) (accepted : list (ReplayKey * Z))
  (r : SecureDatagramReplay) :
  fenced key r ->
  fenced key (replay_run ops (accepted, r)).2
  /\ forall s, (key, s) ∈ (replay_run ops (accepted, r)).1 -> (key, s) ∈ accepted.
Proof.
  revert accepted r. induction ops as [|op ops IH]; intros accepted r Hf; [done|].
  cbn [replay_run fold_left]. destruct (fenced_step key op accepted r Hf) as [Hf' Hin].
  destruct (replay_step (accepted, r) op) as [a r']. destruct (IH a r' Hf') as [Hf'' Hin'].
  split; [done|]. intros s Hs. auto.
Qed.

(** ** Properties *)

(** C31. The 128-bit window implements a set: over any sequence of commits, in
    any order and with any repetitions and jumps, every outcome is the one of a
    recorder that remembers all committed sequence numbers and refuses those
    it holds and those 128 or more behind the newest. *)
Theorem window_implements_set (l : list Z) :
  (commits window_commit l ReplayWindow_default).1 = (commits spec_commit l []).1
  /\ represents (commits window_commit l ReplayWindow_default).2 (commits spec_commit l []).2.
Proof.
  generalize represents_default. generalize ReplayWindow_default as w. generalize (@nil Z) as committed.
  induction l as [|s l IH]; intros committed w Hw; [done|]. cbn [commits].
  destruct (window_commit_refines w committed s Hw) as [Ho Hr].
  destruct (window_commit s w) as [o w'], (spec_commit s committed) as [o' committed']. cbn [fst snd] in *.
  subst o'. destruct (IH committed' w' Hr) as [Hos Hfin].
  destruct (commits window_commit l w') as [os w2], (commits spec_commit l committed') as [os' c2].
  cbn [fst snd] in *. by subst.
Qed.

(** No datagram is accepted twice: over any history of activations,
    commits and retirements of any keys, the accepted pairs of traffic key and
    sequence are all distinct, and the registry never exceeds 512 channels. *)
Lemma no_datagram_accepted_twice (ops : list ReplayOp) :
  NoDup (replay_run ops ([], SecureDatagramReplay_new)).1
  /\ replay_len (replay_run ops ([], SecureDatagramReplay_new)).2 <= MAX_PEER_CHANNELS.
Proof. destruct (replay_run_ok ops [] _ registry_ok_new). done. Qed.

(** A retired traffic key stays dead: after a successful retirement no
    further history accepts a datagram under that key, and neither a commit
    nor a reactivation of it changes anything. *)
Lemma retired_key_stays_dead (key : ReplayKey) (r r' : SecureDatagramReplay) (ops : list ReplayOp) :
  retire key r = (true, r') ->
  let '(accepted, r'') := replay_run ops ([], r') in
  (forall s, (key, s) ∉ accepted)
  /\ (exists e, activate key r'' = (Err e, r''))
  /\ (forall s, exists e, commit_verified key s r'' = (Err e, r'')).
Proof.
  intros Hret. assert (fenced key r') as Hf.
  { unfold retire in Hret. destruct (r !! slot_of key) as [ch|] eqn:Ec; [|done].
    destruct (_ || _) eqn:E; [done|]. injection Hret as <-. to_prop.
    eexists. rewrite lookup_insert_eq. split; [done|]. right. done. }
  destruct (fenced_run key ops [] r' Hf) as [Hf' Hin].
  destruct (replay_run ops ([], r')) as [accepted r'']. cbn [fst snd] in *. split_and!.
  - intros s Hs. by apply Hin, elem_of_nil in Hs.
  - by apply fenced_activate.
  - intros s. by apply fenced_commit.
Qed.

(** ** Witnesses *)

Definition sample_key : ReplayKey := mkReplayKey (replicate 32 1) 5 PurposeAudio.

Definition sample_retired : SecureDatagramReplay :=
  (retire sample_key (activate sample_key SecureDatagramReplay_new).2).2.

Definition sample_after : SecureDatagramReplay :=
  (replay_run [OpActivate sample_key; OpCommit sample_key 8] ([], sample_retired)).2.

Lemma retired_key_stays_dead_witness :
  exists e, commit_verified sample_key 9 sample_after = (Err e, sample_after).
Proof.
  assert (retire sample_key (activate sample_key SecureDatagramReplay_new).2 = (true, sample_retired))
    as H by (vm_compute; reflexivity).
  pose proof (retired_key_stays_dead sample_key _ _ [OpActivate sample_key; OpCommit sample_key 8] H) as Hd.
  unfold sample_after. destruct (replay_run _ _) as [accepted r'']. apply Hd.
Defined.
