(* ===== verification/RenderRing.v ===== *)
(** The render ring (src/rust/silent-disco-core/src/audio/render_ring.rs): a
    preallocated single-producer single-consumer ring of stereo sample frames
    shared by the playback worker and the real-time audio callback.

    A sample is the bit pattern of its [f32], as in the slots. [push_frames] and
    [read_frames] are the operations run without interference; the concurrent
    semantics interleaves their atomic accesses one at a time. A load of the
    other side's index returns any value between the one last observed and the
    current one, which is what a coherent, possibly stale load can return; the
    release/acquire pairing makes the slots behind an observed index visible.
    The indices count frames and wrap at the width of [usize], as the unchecked
    [+] and [-] of the release profile do.  A slot is the index modulo the
    capacity, so across a wrap the slots of the queue overlap unless the
    capacity divides [2^32] or [2^64] ([wrapped_ring_repeats] shows it): the
    theorems bound the frames pushed, by a day of 48 kHz audio on a 32-bit
    target and twelve million years on a 64-bit one. *)
From Stdlib Require Import ZArith Lia.
From stdpp Require Import numbers list prelude.
From S2P Require Import Prelude.

(** ** Configuration *)

Definition RENDER_CHANNELS : Z := 2.
Definition DEFAULT_RING_CAPACITY_FRAMES : Z := 48000.
Definition DEFAULT_TARGET_FILL_FRAMES : Z := 19200.
Definition MIN_RING_CAPACITY_FRAMES : Z := 4800.
Definition MAX_RING_CAPACITY_FRAMES : Z := 480000.

Record RenderRingConfig : Type := mkRenderRingConfig {
  capacity_frames : Z;
  target_fill_frames : Z
}.

Definition RenderRingConfig_new : RenderRingConfig :=
  mkRenderRingConfig DEFAULT_RING_CAPACITY_FRAMES DEFAULT_TARGET_FILL_FRAMES.

Inductive RenderRingConfigErrorKind : Type :=
| CapacityOutOfRange | TargetFillOutOfRange | CapacityOverflowsAddressSpace.

(** ** State *)

Record RenderRingTelemetry : Type := mkRenderRingTelemetry {
  frames_produced : Z;
  frames_requested : Z;
  frames_supplied_from_ring : Z;
  silence_filled_frames : Z;
  underrun_callbacks : Z;
  ring_full_events : Z;
  callback_count : Z;
  contained_panic_count : Z
}.

Definition RenderRingTelemetry_default : RenderRingTelemetry :=
  mkRenderRingTelemetry 0 0 0 0 0 0 0 0.

Record RingInner : Type := mkRingInner {
  ring_capacity : Z;
  slots : list Z;
  write_index : Z;
  read_index : Z;
  ring_telemetry : RenderRingTelemetry
}.

Definition set_slots (v : list Z) (r : RingInner) : RingInner :=
  mkRingInner r.(ring_capacity) v r.(write_index) r.(read_index) r.(ring_telemetry).
Definition set_write_index (v : Z) (r : RingInner) : RingInner :=
  mkRingInner r.(ring_capacity) r.(slots) v r.(read_index) r.(ring_telemetry).
Definition set_read_index (v : Z) (r : RingInner) : RingInner :=
  mkRingInner r.(ring_capacity) r.(slots) r.(write_index) v r.(ring_telemetry).
Definition set_telemetry (v : RenderRingTelemetry) (r : RingInner) : RingInner :=
  mkRingInner r.(ring_capacity) r.(slots) r.(write_index) r.(read_index) v.

(** ** Machine arithmetic *)

Section Ring.
Context {t : target}.

(** Unchecked [usize] addition and subtraction. *)
Definition usize_add (a b : Z) : Z := (a + b) mod (usize_max + 1).
Definition usize_sub (a b : Z) : Z := (a - b) mod (usize_max + 1).

Lemma usize_add_small (a b : Z) : 0 <= a + b <= usize_max -> usize_add a b = a + b.
Proof. intros H. unfold usize_add. apply Z.mod_small. lia. Qed.

Lemma usize_sub_small (a b : Z) : 0 <= a - b <= usize_max -> usize_sub a b = a - b.
Proof. intros H. unfold usize_sub. apply Z.mod_small. lia. Qed.

Definition RenderRing_new (config : RenderRingConfig)
    : result RingInner RenderRingConfigErrorKind :=
  if negb (in_range MIN_RING_CAPACITY_FRAMES MAX_RING_CAPACITY_FRAMES config.(capacity_frames))
  then Err CapacityOutOfRange
  else if (config.(target_fill_frames) =? 0)
          || (config.(capacity_frames) <? config.(target_fill_frames))
  then Err TargetFillOutOfRange
  else
    let? slot_count := ok_or (checked_mul usize_max config.(capacity_frames) RENDER_CHANNELS)
                         CapacityOverflowsAddressSpace in
    Ok (mkRingInner config.(capacity_frames) (repeat 0 (Z.to_nat slot_count)) 0 0
          RenderRingTelemetry_default).

(** ** Slots *)

(** [slots[slot_frame * RENDER_CHANNELS + channel]] for the frame counted
    [frame + offset] since the start, where [k = offset * RENDER_CHANNELS + channel]. *)
Definition slot_at (capacity frame k : Z) : nat :=
  Z.to_nat (usize_add frame (k / RENDER_CHANNELS) mod capacity * RENDER_CHANNELS
            + k mod RENDER_CHANNELS).

(** [slots[..].store(frames[k].to_bits())]. *)
Definition store_sample (frames : list Z) (capacity frame k : Z) (slots : list Z) : list Z :=
  <[slot_at capacity frame k := nth (Z.to_nat k) frames 0]> slots.

(** [output[k] = f32::from_bits(slots[..].load())]. *)
Definition load_sample (slots : list Z) (capacity frame k : Z) (output : list Z) : list Z :=
  <[Z.to_nat k := nth (slot_at capacity frame k) slots 0]> output.

(** The two nested loops [for offset in 0..n { for channel in 0..2 { .. } }]. *)
Definition for_samples {A : Type} (n : Z) (body : Z -> A -> A) (a : A) : A :=
  fold_left (fun a k => body k a) (seqZ 0 (n * RENDER_CHANNELS)) a.

(** [output[2 * from .. 2 * to] = 0.0]. *)
Definition fill_silence (from to : Z) (output : list Z) : list Z :=
  fold_left (fun output k => <[Z.to_nat k := 0]> output)
    (seqZ (from * RENDER_CHANNELS) ((to - from) * RENDER_CHANNELS)) output.

(** ** Telemetry: [fetch_add] on [AtomicU64] wraps *)

Definition record_push_telemetry (written requested : Z) (t : RenderRingTelemetry)
    : RenderRingTelemetry :=
  mkRenderRingTelemetry (wrapping_add 64 t.(frames_produced) written) t.(frames_requested)
    t.(frames_supplied_from_ring) t.(silence_filled_frames) t.(underrun_callbacks)
    (if written <? requested then wrapping_add 64 t.(ring_full_events) 1 else t.(ring_full_events))
    t.(callback_count) t.(contained_panic_count).

Definition record_read_telemetry (requested supplied silence_filled : Z) (t : RenderRingTelemetry)
    : RenderRingTelemetry :=
  mkRenderRingTelemetry t.(frames_produced) (wrapping_add 64 t.(frames_requested) requested)
    (wrapping_add 64 t.(frames_supplied_from_ring) supplied)
    (wrapping_add 64 t.(silence_filled_frames) silence_filled)
    (if 0 <? silence_filled then wrapping_add 64 t.(underrun_callbacks) 1 else t.(underrun_callbacks))
    t.(ring_full_events) t.(callback_count) t.(contained_panic_count).

Definition record_callback_invocation (r : RingInner) : RingInner :=
  let t := r.(ring_telemetry) in
  set_telemetry (mkRenderRingTelemetry t.(frames_produced) t.(frames_requested)
    t.(frames_supplied_from_ring) t.(silence_filled_frames) t.(underrun_callbacks)
    t.(ring_full_events) (wrapping_add 64 t.(callback_count) 1) t.(contained_panic_count)) r.

Definition record_contained_panic (r : RingInner) : RingInner :=
  let t := r.(ring_telemetry) in
  set_telemetry (mkRenderRingTelemetry t.(frames_produced) t.(frames_requested)
    t.(frames_supplied_from_ring) t.(silence_filled_frames) t.(underrun_callbacks)
    t.(ring_full_events) t.(callback_count) (wrapping_add 64 t.(contained_panic_count) 1)) r.

(** ** The operations without interference *)

Record RenderReadOutcome : Type := mkRenderReadOutcome {
  frames_supplied : Z;
  frames_silence_filled : Z
}.

Definition free_frames (r : RingInner) : Z :=
  usize_sub r.(ring_capacity) (usize_sub r.(write_index) r.(read_index)).
Definition available_frames (r : RingInner) : Z := usize_sub r.(write_index) r.(read_index).

Definition push_frames (frames : list Z) (r : RingInner) : RingInner * Z :=
  let available := len frames / RENDER_CHANNELS in
  let write := r.(write_index) in
  let read := r.(read_index) in
  let free := usize_sub r.(ring_capacity) (usize_sub write read) in
  let frames_to_write := Z.min available free in
  let r := set_slots (for_samples frames_to_write
                        (store_sample frames r.(ring_capacity) write) r.(slots)) r in
  let r := if 0 <? frames_to_write then set_write_index (usize_add write frames_to_write) r else r in
  (set_telemetry (record_push_telemetry frames_to_write available r.(ring_telemetry)) r,
   frames_to_write).

Definition read_frames (output : list Z) (r : RingInner) : RingInner * list Z * RenderReadOutcome :=
  let requested := len output / RENDER_CHANNELS in
  let write := r.(write_index) in
  let read := r.(read_index) in
  let available := usize_sub write read in
  let frames_to_supply := Z.min requested available in
  let output := for_samples frames_to_supply (load_sample r.(slots) r.(ring_capacity) read) output in
  let output := fill_silence frames_to_supply requested output in
  let r := if 0 <? frames_to_supply then set_read_index (usize_add read frames_to_supply) r else r in
  let silence_filled := requested - frames_to_supply in
  (set_telemetry (record_read_telemetry requested frames_to_supply silence_filled r.(ring_telemetry)) r,
   output, mkRenderReadOutcome frames_to_supply silence_filled).

(** ** Concurrent semantics *)

(** Where the producer is in [push_frames]. *)
Inductive Producer : Type :=
| ProdIdle
| ProdStarted (frames : list Z) (write : Z)            (* own index loaded *)
| ProdStoring (frames : list Z) (write n k : Z)        (* [k] of [2 n] samples stored *)
| ProdCounting (frames : list Z) (n : Z).              (* index published, telemetry to record *)

(** Where the consumer is in [read_frames]. *)
Inductive Consumer : Type :=
| ConsIdle
| ConsStarted (output : list Z) (write : Z)            (* producer's index loaded *)
| ConsLoading (output : list Z) (read n k : Z)         (* [k] of [2 n] samples loaded *)
| ConsCounting (output : list Z) (n : Z).              (* index published, telemetry to record *)

(** The shared ring, both threads, and the value of the other's index each last
    observed. *)
Record Conc : Type := mkConc {
  ring : RingInner;
  producer : Producer;
  consumer : Consumer;
  seen_read : Z;
  seen_write : Z
}.

(** What becomes visible: samples entering or leaving the queue, the end of a
    call. *)
Inductive RingEvent : Type :=
| EvPush (samples : list Z)
| EvPop (samples output : list Z)
| EvPushed (count : Z)
| EvReturned (outcome : RenderReadOutcome).

(** The producer's next atomic access; [observed] is what a load of the
    consumer's index returns. *)
Definition producer_step (observed : Z) (c : Conc) : option (Conc * list RingEvent) :=
  let r := c.(ring) in
  match c.(producer) with
  | ProdIdle => None
  | ProdStarted frames write =>
      let n := Z.min (len frames / RENDER_CHANNELS) 
                 (usize_sub r.(ring_capacity) (usize_sub write observed)) in
      Some (mkConc r (ProdStoring frames write n 0) c.(consumer) observed c.(seen_write), [])
  | ProdStoring frames write n k =>
      if k <? n * RENDER_CHANNELS then
        Some (mkConc (set_slots (store_sample frames r.(ring_capacity) write k r.(slots)) r)
                (ProdStoring frames write n (k + 1)) c.(consumer) c.(seen_read) c.(seen_write), [])
      else
        Some (mkConc (if 0 <? n then set_write_index (usize_add write n) r else r)
                (ProdCounting frames n) c.(consumer) c.(seen_read) c.(seen_write),
              [EvPush (take (Z.to_nat (n * RENDER_CHANNELS)) frames)])
  | ProdCounting frames n =>
      Some (mkConc (set_telemetry (record_push_telemetry n (len frames / RENDER_CHANNELS)
                                     r.(ring_telemetry)) r)
              ProdIdle c.(consumer) c.(seen_read) c.(seen_write), [EvPushed n])
  end.

Definition consumer_step (c : Conc) : option (Conc * list RingEvent) :=
  let r := c.(ring) in
  match c.(consumer) with
  | ConsIdle => None
  | ConsStarted output write =>
      let read := r.(read_index) in
      let n := Z.min (len output / RENDER_CHANNELS) (usize_sub write read) in
      Some (mkConc r c.(producer) (ConsLoading output read n 0) c.(seen_read) c.(seen_write), [])
  | ConsLoading output read n k =>
      if k <? n * RENDER_CHANNELS then
        Some (mkConc r c.(producer)
                (ConsLoading (load_sample r.(slots) r.(ring_capacity) read k output) read n (k + 1))
                c.(seen_read) c.(seen_write), [])
      else
        Some (mkConc (if 0 <? n then set_read_index (usize_add read n) r else r) c.(producer)
                (ConsCounting (fill_silence n (len output / RENDER_CHANNELS) output) n)
                c.(seen_read) c.(seen_write),
              [EvPop (take (Z.to_nat (n * RENDER_CHANNELS)) output)
                 (fill_silence n (len output / RENDER_CHANNELS) output)])
  | ConsCounting output n =>
      let requested := len output / RENDER_CHANNELS in
      Some (mkConc (set_telemetry (record_read_telemetry requested n (requested - n)
                                     r.(ring_telemetry)) r)
              c.(producer) ConsIdle c.(seen_read) c.(seen_write), [EvReturned (mkRenderReadOutcome n (requested - n))])
  end.

(** What a load of an index can return: a value it has had since the one last
    seen. *)
Definition fresh_load (seen current observed : Z) : Prop :=
  0 <= observed <= usize_max /\ usize_sub observed seen <= usize_sub current seen.

(** Any interleaving of the two threads' accesses. *)
Inductive ring_step : Conc -> list RingEvent -> Conc -> Prop :=
| StepPushCall c frames :
    c.(producer) = ProdIdle ->
    ring_step c [] (mkConc c.(ring) (ProdStarted frames c.(ring).(write_index)) c.(consumer)
                      c.(seen_read) c.(seen_write))
| StepProducer c c' observed events :
    fresh_load c.(seen_read) c.(ring).(read_index) observed ->
    producer_step observed c = Some (c', events) -> ring_step c events c'
| StepReadCall c output observed :
    c.(consumer) = ConsIdle ->
    fresh_load c.(seen_write) c.(ring).(write_index) observed ->
    ring_step c [] (mkConc c.(ring) c.(producer) (ConsStarted output observed) c.(seen_read) observed)
| StepConsumer c c' events :
    consumer_step c = Some (c', events) -> ring_step c events c'
| StepCallback c :
    ring_step c [] (mkConc (record_callback_invocation c.(ring)) c.(producer) c.(consumer)
                      c.(seen_read) c.(seen_write))
| StepContainedPanic c :
    ring_step c [] (mkConc (record_contained_panic c.(ring)) c.(producer) c.(consumer)
                      c.(seen_read) c.(seen_write)).

Inductive ring_run (c0 : Conc) : list RingEvent -> Conc -> Prop :=
| RunStart : ring_run c0 [] c0
| RunStep c c' events new :
    ring_run c0 events c -> ring_step c new c' -> ring_run c0 (events ++ new) c'.

(** [split]: both handles on the fresh ring. *)
Definition split (r : RingInner) : Conc := mkConc r ProdIdle ConsIdle 0 0.

(** ** The abstract queue *)

(** A bounded first-in first-out queue of samples. A read takes samples off the
    front and returns them followed by silence; at most one sample of the
    caller's buffer, the half of an incomplete frame, is left as it was. *)
Inductive fifo_step (bound : Z) (q : list Z) : RingEvent -> list Z -> Prop :=
| FifoPush samples : len (q ++ samples) <= bound -> fifo_step bound q (EvPush samples) (q ++ samples)
| FifoPop samples silence rest q' :
    q = samples ++ q' -> len rest < RENDER_CHANNELS ->
    fifo_step bound q (EvPop samples (samples ++ repeat 0 silence ++ rest)) q'
| FifoPushed count : fifo_step bound q (EvPushed count) q
| FifoReturned outcome : fifo_step bound q (EvReturned outcome) q.

Inductive fifo_run (bound : Z) (q0 : list Z) : list RingEvent -> list Z -> Prop :=
| FifoStart : fifo_run bound q0 [] q0
| FifoStep q q' events e :
    fifo_run bound q0 events q -> fifo_step bound q e q' -> fifo_run bound q0 (events ++ [e]) q'.

(** The samples that entered and left the queue over a run. *)
Definition pushed_samples (events : list RingEvent) : list Z :=
  concat (map (fun e => match e with EvPush samples => samples | _ => [] end) events).
Definition popped_samples (events : list RingEvent) : list Z :=
  concat (map (fun e => match e with EvPop samples _ => samples | _ => [] end) events).

(** ** The simulation invariant *)

Lemma fresh_load_linear (seen current observed : Z) :
  0 <= seen <= current -> current <= usize_max ->
  fresh_load seen current observed <-> seen <= observed <= current.
Proof.
  intros Hs Hc. unfold fresh_load. rewrite (usize_sub_small current seen) by lia. unfold usize_sub.
  destruct (Z.le_gt_cases seen observed) as [H|H].
  - split; [intros [Ho E]; rewrite Z.mod_small in E by lia; lia|].
    intros. rewrite Z.mod_small by lia. lia.
  - split; [|lia]. intros [Ho E]. exfalso.
    rewrite <- (Z.mod_add _ 1), Z.mod_small in E by lia. lia.
Qed.

(** A load may always return the current value. *)
Lemma fresh_load_current (seen current : Z) : 0 <= current <= usize_max -> fresh_load seen current current.
Proof. by split. Qed.

Definition slot_value (r : RingInner) (position : Z) : Z :=
  nth (Z.to_nat (position mod (r.(ring_capacity) * RENDER_CHANNELS))) r.(slots) 0.

Definition producer_ok (c : Conc) : Prop :=
  match c.(producer) with
  | ProdIdle | ProdCounting _ _ => True
  | ProdStarted _ write => write = c.(ring).(write_index)
  | ProdStoring frames write n k =>
      write = c.(ring).(write_index) /\ 0 <= n /\ n * 2 <= len frames /\ 0 <= k <= n * 2
      /\ write + n <= c.(seen_read) + c.(ring).(ring_capacity) /\ write + n <= usize_max
      /\ forall j, 0 <= j < k -> slot_value c.(ring) (write * 2 + j) = nth (Z.to_nat j) frames 0
  end.

Definition consumer_ok (c : Conc) (q : list Z) : Prop :=
  match c.(consumer) with
  | ConsIdle | ConsCounting _ _ => True
  | ConsStarted _ write => write = c.(seen_write)
  | ConsLoading output read n k =>
      read = c.(ring).(read_index) /\ 0 <= n /\ n * 2 <= len output /\ 0 <= k <= n * 2
      /\ read + n <= c.(seen_write)
      /\ forall j, 0 <= j < k -> nth (Z.to_nat j) output 0 = nth (Z.to_nat j) q 0
  end.

Record ring_ok (c : Conc) (q : list Z) : Prop := mkRingOk {
  ro_capacity : 0 < c.(ring).(ring_capacity) <= usize_max;
  ro_range : c.(ring).(write_index) <= usize_max;
  ro_slots : len c.(ring).(slots) = c.(ring).(ring_capacity) * 2;
  ro_seen_read : 0 <= c.(seen_read) <= c.(ring).(read_index);
  ro_seen_write : c.(ring).(read_index) <= c.(seen_write) <= c.(ring).(write_index);
  ro_room : c.(ring).(write_index) <= c.(seen_read) + c.(ring).(ring_capacity);
  ro_length : len q = (c.(ring).(write_index) - c.(ring).(read_index)) * 2;
  ro_content : forall j, 0 <= j < len q ->
    slot_value c.(ring) (c.(ring).(read_index) * 2 + j) = nth (Z.to_nat j) q 0;
  ro_producer : producer_ok c;
  ro_consumer : consumer_ok c q
}.

Lemma slot_at_position (capacity frame k : Z) :
  0 < capacity -> 0 <= frame -> 0 <= k -> frame + k / 2 <= usize_max ->
  slot_at capacity frame k = Z.to_nat ((frame * 2 + k) mod (capacity * RENDER_CHANNELS)).
Proof.
  intros Hc Hf Hk Hm. pose proof (Z.div_pos k 2 Hk ltac:(lia)).
  unfold slot_at, RENDER_CHANNELS. rewrite usize_add_small by lia. f_equal.
  rewrite (Z.mul_comm capacity 2), Z.rem_mul_r by lia.
  replace (frame * 2 + k) with (k + frame * 2) by lia.
  rewrite Z.mod_add, Z.div_add, (Z.add_comm (k / 2)) by lia. lia.
Qed.

Lemma slot_in_range (capacity position : Z) (l : list Z) :
  0 < capacity -> len l = capacity * 2 ->
  (Z.to_nat (position mod (capacity * RENDER_CHANNELS)) < length l)%nat.
Proof.
  intros Hc Hl. unfold RENDER_CHANNELS, len in *.
  pose proof (Z.mod_pos_bound position (capacity * 2) ltac:(lia)). lia.
Qed.

(** Positions less than one lap apart have different slots. *)
Lemma slots_differ (capacity p p' : Z) :
  0 < capacity -> p < p' -> p' < p + capacity * 2 ->
  Z.to_nat (p mod (capacity * RENDER_CHANNELS)) <> Z.to_nat (p' mod (capacity * RENDER_CHANNELS)).
Proof.
  intros Hc Hlt Hlap. unfold RENDER_CHANNELS. remember (capacity * 2) as m.
  pose proof (Z.mod_pos_bound p m ltac:(lia)). pose proof (Z.mod_pos_bound p' m ltac:(lia)).
  intros E. assert (p mod m = p' mod m) as E' by lia.
  pose proof (Z.div_mod p m ltac:(lia)). pose proof (Z.div_mod p' m ltac:(lia)).
  assert (m * (p' / m - p / m) = p' - p) by lia.
  destruct (Z.le_gt_cases (p' / m - p / m) 0); nia.
Qed.

Lemma nth_insert (l : list Z) (i j : nat) (x : Z) :
  nth j (<[i := x]> l) 0 = if decide (i = j /\ (j < length l)%nat) then x else nth j l 0.
Proof.
  rewrite !nth_lookup. destruct (decide (i = j)) as [<-|Hne].
  - destruct (decide (i < length l)%nat) as [Hlt|Hge].
    + rewrite list_lookup_insert_eq by done. rewrite decide_True by done. done.
    + rewrite list_insert_ge by lia. rewrite decide_False by tauto. done.
  - rewrite list_lookup_insert_ne by done. rewrite decide_False by tauto. done.
Qed.

Lemma slot_value_store (r : RingInner) (frames : list Z) (write k position : Z) :
  0 < r.(ring_capacity) -> len r.(slots) = r.(ring_capacity) * 2 -> 0 <= write -> 0 <= k ->
  write + k / 2 <= usize_max -> position <= write * 2 + k -> write * 2 + k < position + r.(ring_capacity) * 2 ->
  slot_value (set_slots (store_sample frames r.(ring_capacity) write k r.(slots)) r) position
  = if decide (position = write * 2 + k) then nth (Z.to_nat k) frames 0 else slot_value r position.
Proof.
  intros Hc Hl Hw Hk Hm Hle Hlap. unfold slot_value, store_sample, set_slots. cbn [slots ring_capacity].
  rewrite nth_insert, slot_at_position by done. case_decide as E; case_decide as E'; try done.
  - destruct E as [E _]. apply eq_sym, slots_differ in E; [done|done|lia|lia].
  - subst. destruct E. split; [done|by apply slot_in_range].
Qed.

Lemma len_store (frames : list Z) (capacity frame k : Z) (l : list Z) :
  len (store_sample frames capacity frame k l) = len l.
Proof. unfold len, store_sample. by rewrite length_insert. Qed.

Lemma len_load (l : list Z) (capacity frame k : Z) (output : list Z) :
  len (load_sample l capacity frame k output) = len output.
Proof. unfold len, load_sample. by rewrite length_insert. Qed.

Lemma nth_app (l k : list Z) (j : nat) :
  nth j (l ++ k) 0 = if decide (j < length l)%nat then nth j l 0 else nth (j - length l) k 0.
Proof. case_decide; [by apply app_nth1|apply app_nth2; lia]. Qed.

Lemma nth_take (l : list Z) (n j : nat) :
  (j < n)%nat -> nth j (take n l) 0 = nth j l 0.
Proof. intros H. rewrite !nth_lookup. by rewrite lookup_take_lt. Qed.

Lemma nth_drop (l : list Z) (n j : nat) : nth j (drop n l) 0 = nth (n + j) l 0.
Proof. by rewrite !nth_lookup, lookup_drop. Qed.

(** Lists with the same samples are equal. *)
Lemma list_eq_nth (l k : list Z) :
  length l = length k -> (forall j, (j < length l)%nat -> nth j l 0 = nth j k 0) -> l = k.
Proof. intros H1 H2. by eapply nth_ext. Qed.

(** Half of a sample position is its frame. *)
Lemma half_below (k n : Z) : 0 <= k < n * 2 -> 0 <= k / 2 < n.
Proof. intros H. split; [apply Z.div_pos; lia|apply Z.div_lt_upper_bound; lia]. Qed.

(** What the events of an access add to the samples pushed. *)
Definition pushes (c c' : Conc) (events : list RingEvent) : Prop :=
  c'.(ring).(write_index) * 2 = c.(ring).(write_index) * 2 + len (pushed_samples events).

Lemma pushes_none (c c' : Conc) (events : list RingEvent) :
  c'.(ring).(write_index) = c.(ring).(write_index) -> pushed_samples events = [] -> pushes c c' events.
Proof. unfold pushes. intros -> ->. rewrite len_nil. lia. Qed.

Lemma step_producer_ok (c c' : Conc) (observed : Z) (events : list RingEvent) (q : list Z) :
  ring_ok c q -> c.(seen_read) <= observed <= c.(ring).(read_index) ->
  c.(ring).(write_index) + c.(ring).(ring_capacity) <= usize_max ->
  producer_step observed c = Some (c', events) ->
  pushes c c' events
  /\ exists q', fifo_run (c.(ring).(ring_capacity) * 2) q events q' /\ ring_ok c' q'.
Proof.
  intros [Hc Hmax Hl Hsr Hsw Hroom Hlen Hcont Hp Hk] Hobs Hfar. unfold producer_step, producer_ok in *.
  destruct (producer c) as [|frames write|frames write n k|frames n] eqn:Ep; [done| | |].
  - subst write. rewrite (usize_sub_small (write_index (ring c))), usize_sub_small by lia.
    intros [= <- <-]. split; [by apply pushes_none|]. exists q. split; [constructor|].
    assert (0 <= len frames / 2 /\ len frames / 2 * 2 <= len frames) as [H1 H2].
    { pose proof (len_nonneg frames). split; [apply Z.div_pos; lia|].
      pose proof (Z.mul_div_le (len frames) 2 ltac:(lia)). lia. }
    unfold RENDER_CHANNELS. split; cbn; try done; try lia.
    unfold producer_ok. cbn. split_and!; try lia.
  - destruct Hp as (-> & Hn & Hnf & Hkn & Hfit & Hrange & Hst). unfold RENDER_CHANNELS.
    destruct (k <? n * 2) eqn:E.
    + to_prop. pose proof (half_below k n ltac:(lia)).
      intros [= <- <-]. split; [by apply pushes_none|]. exists q. split; [constructor|].
      split; cbn [ring seen_read seen_write set_slots ring_capacity slots read_index write_index]; try done;
        try lia.
      * by rewrite len_store.
      * intros j Hj. rewrite slot_value_store by (try done; lia). rewrite decide_False by lia. auto.
      * unfold producer_ok. cbn [producer ring write_index set_slots seen_read ring_capacity].
        split_and!; try done; try lia. intros j Hj. rewrite slot_value_store by (try done; lia).
        case_decide as Ej; [|apply Hst; lia]. f_equal. lia.
    + to_prop. assert (k = n * 2) as -> by lia. rewrite usize_add_small by lia. intros [= <- <-].
      assert (len (take (Z.to_nat (n * 2)) frames) = n * 2) as Ht.
      { unfold len in *. rewrite length_take. lia. }
      split; [unfold pushes, pushed_samples; cbn [map concat]; rewrite app_nil_r, Ht;
              destruct (0 <? n) eqn:En; cbn [ring set_write_index write_index]; to_prop; lia|].
      exists (q ++ take (Z.to_nat (n * 2)) frames).
      assert (ring_ok (mkConc (set_write_index (write_index (ring c) + n) (ring c))
        (ProdCounting frames n) (consumer c) (seen_read c) (seen_write c))
        (q ++ take (Z.to_nat (n * 2)) frames)) as Hok.
      { split; cbn [ring seen_read seen_write set_write_index ring_capacity slots read_index write_index];
          try done; try lia.
        - rewrite len_app. lia.
        - intros j Hj. rewrite len_app in Hj. rewrite nth_app. unfold len in *. case_decide.
          + apply Hcont. lia.
          + rewrite nth_take by lia.
            transitivity (slot_value (ring c) (write_index (ring c) * 2 + (j - Z.of_nat (length q)))).
            * unfold slot_value. cbn [ring_capacity slots set_write_index]. do 3 f_equal. lia.
            * rewrite Hst by lia. f_equal. lia.
        - unfold consumer_ok in *. cbn [consumer ring read_index set_write_index seen_write].
          destruct (consumer c); try done.
          destruct Hk as (Hr & ? & ? & ? & ? & Hload). split_and!; try done; try lia.
          intros j Hj. rewrite nth_app. rewrite Hload by lia. rewrite decide_True; [done|].
          unfold len in *. lia. }
      split.
      * eapply (FifoStep _ _ q _ []); [constructor|]. constructor. rewrite len_app. lia.
      * destruct (0 <? n) eqn:En; [exact Hok|]. to_prop. assert (n = 0) as -> by lia.
        rewrite Z.add_0_r in Hok. by destruct (ring c).
  - intros [= <- <-]. split; [by apply pushes_none|]. exists q. split; [|split; try done; cbn; lia].
    eapply (FifoStep _ _ q _ []); constructor.
Qed.

Lemma nth_fill (from : Z) (n j : nat) (l : list Z) :
  0 <= from -> from + Z.of_nat n <= len l ->
  nth j (fold_left (fun l k => <[Z.to_nat k := 0]> l) (seqZ from (Z.of_nat n)) l) 0
  = if decide (from <= Z.of_nat j < from + Z.of_nat n) then 0 else nth j l 0.
Proof.
  intros Hf. induction n as [|n IH]; intros Hl.
  - cbn. by rewrite decide_False by lia.
  - rewrite Nat2Z.inj_succ, <- Z.add_1_r, seqZ_app, fold_left_app by lia.
    change (seqZ (from + Z.of_nat n) 1) with [from + Z.of_nat n].
    cbn [fold_left]. rewrite nth_insert.
    assert (forall ks (k : list Z), length (fold_left (fun l k => <[Z.to_nat k := 0]> l) ks k) = length k)
      as Hlen.
    { induction ks as [|x ks IH']; intros k; cbn; [done|]. by rewrite IH', length_insert. }
    rewrite Hlen, IH by lia. unfold len in *. repeat case_decide; try done; lia.
Qed.

Lemma fill_silence_eq (from to : Z) (output : list Z) :
  0 <= from <= to -> to * 2 <= len output ->
  fill_silence from to output
  = take (Z.to_nat (from * 2)) output ++ repeat 0 (Z.to_nat ((to - from) * 2))
    ++ drop (Z.to_nat (to * 2)) output.
Proof.
  intros Hft Hl. unfold fill_silence, RENDER_CHANNELS, len in *.
  assert (forall ks (k : list Z), length (fold_left (fun l k => <[Z.to_nat k := 0]> l) ks k) = length k)
    as Hlen.
  { induction ks as [|x ks IH']; intros k; cbn; [done|]. by rewrite IH', length_insert. }
  apply list_eq_nth.
  - rewrite Hlen, !length_app, length_take, repeat_length, length_drop. lia.
  - intros j Hj. rewrite Hlen in Hj. rewrite <- (Z2Nat.id ((to - from) * 2)) at 1 by lia.
    rewrite nth_fill by (unfold len; lia). rewrite !nth_app, length_take, repeat_length.
    case_decide; case_decide; try case_decide; try lia; try done.
    + symmetry. apply nth_repeat.
    + by rewrite nth_take by lia.
    + rewrite nth_drop. f_equal. lia.
Qed.

Lemma step_consumer_ok (c c' : Conc) (events : list RingEvent) (q : list Z) :
  ring_ok c q -> consumer_step c = Some (c', events) ->
  pushes c c' events /\ exists q', fifo_run (c.(ring).(ring_capacity) * 2) q events q' /\ ring_ok c' q'.
Proof.
  intros [Hc Hmax Hl Hsr Hsw Hroom Hlen Hcont Hp Hk]. unfold consumer_step, consumer_ok in *.
  destruct (consumer c) as [|output write|output read n k|output n] eqn:Ek; [done| | |].
  - subst write. rewrite usize_sub_small by lia.
    intros [= <- <-]. split; [by apply pushes_none|]. exists q. split; [constructor|].
    assert (0 <= len output / 2 /\ len output / 2 * 2 <= len output) as [H1 H2].
    { pose proof (len_nonneg output). split; [apply Z.div_pos; lia|].
      pose proof (Z.mul_div_le (len output) 2 ltac:(lia)). lia. }
    unfold RENDER_CHANNELS. split; cbn; try done; try lia.
    unfold consumer_ok. cbn. split_and!; try lia.
  - destruct Hk as (-> & Hn & Hno & Hkn & Hfit & Hload). unfold RENDER_CHANNELS. destruct (k <? n * 2) eqn:E.
    + to_prop. pose proof (half_below k n ltac:(lia)).
      intros [= <- <-]. split; [by apply pushes_none|]. exists q. split; [constructor|].
      split; cbn [ring seen_read seen_write]; try done; try lia.
      unfold consumer_ok. cbn [consumer ring seen_write]. rewrite len_load.
      split_and!; try done; try lia. intros j Hj. unfold load_sample. rewrite nth_insert.
      case_decide as Ej.
      * destruct Ej as [Ej _]. assert (j = k) as -> by lia.
        rewrite <- Hcont by lia. unfold slot_value. rewrite slot_at_position by lia. done.
      * apply Hload. enough (j <> k) by lia. intros ->. destruct Ej. split; [done|].
        unfold len in *. lia.
    + to_prop. assert (k = n * 2) as -> by lia. rewrite usize_add_small by lia. intros [= <- <-].
      split; [apply pushes_none; [by destruct (0 <? n)|done]|].
      exists (drop (Z.to_nat (n * 2)) q).
      assert (len (drop (Z.to_nat (n * 2)) q) = len q - n * 2) as Hd.
      { unfold len in *. rewrite length_drop. lia. }
      assert (ring_ok (mkConc (set_read_index (read_index (ring c) + n) (ring c)) (producer c)
        (ConsCounting (fill_silence n (len output / 2) output) n) (seen_read c) (seen_write c))
        (drop (Z.to_nat (n * 2)) q)) as Hok.
      { split; cbn [ring seen_read seen_write set_read_index ring_capacity slots read_index write_index];
          try done; try lia.
        intros j Hj. rewrite nth_drop.
        transitivity (slot_value (ring c) (read_index (ring c) * 2 + (n * 2 + j))).
        - unfold slot_value. cbn [ring_capacity slots set_read_index]. do 3 f_equal. lia.
        - rewrite Hcont by lia. f_equal. lia. }
      split.
      * eapply (FifoStep _ _ q _ []); [constructor|].
        pose proof (Z.mul_div_le (len output) 2 ltac:(lia)).
        pose proof (Z.mod_pos_bound (len output) 2 ltac:(lia)).
        pose proof (Z.div_mod (len output) 2 ltac:(lia)).
        rewrite fill_silence_eq by lia. constructor; [|unfold len; rewrite length_drop;
          unfold len, RENDER_CHANNELS in *; lia].
        rewrite <- (take_drop (Z.to_nat (n * 2)) q) at 1. f_equal. unfold len in *. apply list_eq_nth.
        -- rewrite !length_take. lia.
        -- intros j Hj. rewrite length_take in Hj. rewrite !nth_take by lia.
           specialize (Hload (Z.of_nat j) ltac:(lia)). by rewrite Nat2Z.id in Hload.
      * destruct (0 <? n) eqn:En; [exact Hok|]. to_prop. assert (n = 0) as -> by lia.
        rewrite Z.add_0_r in Hok. by destruct (ring c).
  - intros [= <- <-]. split; [by apply pushes_none|]. exists q. split; [|split; try done; cbn; lia].
    eapply (FifoStep _ _ q _ []); constructor.
Qed.

Lemma fifo_run_app (bound : Z) (q0 q q' : list Z) (events new : list RingEvent) :
  fifo_run bound q0 events q -> fifo_run bound q new q' -> fifo_run bound q0 (events ++ new) q'.
Proof.
  intros H H'. induction H' as [|q1 q2 new e H' IH]; [by rewrite app_nil_r|].
  rewrite (assoc_L (++)). by econstructor.
Qed.

(** One access of either thread keeps the invariant, and what becomes visible
    is a move of the abstract queue. *)
Lemma ring_step_ok (c c' : Conc) (events : list RingEvent) (q : list Z) :
  ring_ok c q -> c.(ring).(write_index) + c.(ring).(ring_capacity) <= usize_max ->
  ring_step c events c' ->
  c'.(ring).(ring_capacity) = c.(ring).(ring_capacity) /\ pushes c c' events
  /\ exists q', fifo_run (c.(ring).(ring_capacity) * 2) q events q' /\ ring_ok c' q'.
Proof.
  intros Hok Hfar Hstep. pose proof (ro_range _ _ Hok) as Hmax. pose proof (ro_seen_read _ _ Hok) as Hsr.
  pose proof (ro_seen_write _ _ Hok) as Hsw.
  destruct Hstep as [c frames Hi|c c' obs events Hobs Hs|c output obs Hi Hobs|c c' events Hs|c|c].
  - split; [done|]. split; [by apply pushes_none|]. exists q. split; [constructor|]. destruct Hok. by split.
  - split; [|apply fresh_load_linear in Hobs; [by eapply step_producer_ok|lia|lia]]. unfold producer_step in Hs.
    destruct (producer c); simplify_eq/=; try done. destruct (_ <? _); simplify_eq/=; [done|].
    by destruct (_ <? _).
  - apply fresh_load_linear in Hobs; [|lia..]. split; [done|]. split; [by apply pushes_none|].
    exists q. split; [constructor|]. destruct Hok. split; cbn in *; try done; lia.
  - split; [|by eapply step_consumer_ok]. unfold consumer_step in Hs.
    destruct (consumer c); simplify_eq/=; try done. destruct (_ <? _); simplify_eq/=; [done|].
    by destruct (_ <? _).
  - split; [done|]. split; [by apply pushes_none|]. exists q. split; [constructor|]. destruct Hok. by split.
  - split; [done|]. split; [by apply pushes_none|]. exists q. split; [constructor|]. destruct Hok. by split.
Qed.

Lemma pushed_samples_app (events new : list RingEvent) :
  pushed_samples (events ++ new) = pushed_samples events ++ pushed_samples new.
Proof. unfold pushed_samples. by rewrite map_app, concat_app. Qed.

Lemma ring_run_ok (c0 c : Conc) (events : list RingEvent) (q0 : list Z) :
  ring_ok c0 q0 -> ring_run c0 events c ->
  c0.(ring).(write_index) * 2 + len (pushed_samples events) + c0.(ring).(ring_capacity) * 2 <= usize_max * 2 ->
  c.(ring).(ring_capacity) = c0.(ring).(ring_capacity) /\ pushes c0 c events
  /\ exists q, fifo_run (c0.(ring).(ring_capacity) * 2) q0 events q /\ ring_ok c q.
Proof.
  intros Hok. induction 1 as [|c c' events new Hrun IH Hstep].
  - intros _. split; [done|]. split; [by apply pushes_none|]. exists q0. split; [constructor|done].
  - rewrite pushed_samples_app, len_app. intros Hb. pose proof (len_nonneg (pushed_samples new)).
    destruct IH as (Hcap & Hpush & q & Hq & IH); [lia|]. unfold pushes in Hpush.
    apply (ring_step_ok _ _ _ q) in Hstep as (Hcap' & Hpush' & q' & Hq' & Hok'); [|done|lia].
    split; [congruence|]. split; [unfold pushes in *; rewrite pushed_samples_app, len_app; lia|].
    exists q'. split; [|done]. rewrite Hcap in Hq'. by eapply fifo_run_app.
Qed.

Lemma RenderRing_new_ok (config : RenderRingConfig) (r : RingInner) :
  RenderRing_new config = Ok r ->
  r.(ring_capacity) = config.(capacity_frames) /\ ring_ok (split r) [].
Proof.
  unfold RenderRing_new. destruct (in_range _ _ _) eqn:Hr; [|done]. cbn [negb].
  apply in_range_iff in Hr. destruct (_ || _); [done|]. intros H0. ok_step H0. injection H0 as <-.
  split; [done|]. pose proof usize_max_lower as Hu. unfold u32_max, MAX_RING_CAPACITY_FRAMES in *.
  unfold checked_mul in Heqr0. destruct (_ <=? _); [|done].
  simpl in Heqr0. injection Heqr0 as <-. unfold MIN_RING_CAPACITY_FRAMES, RENDER_CHANNELS in *.
  split; cbn; try done; try lia.
  - unfold len. rewrite repeat_length. lia.
  - unfold len. cbn. lia.
Qed.

Lemma RenderRing_new_fresh (config : RenderRingConfig) (r : RingInner) :
  RenderRing_new config = Ok r ->
  r.(write_index) = 0 /\ r.(ring_capacity) <= MAX_RING_CAPACITY_FRAMES.
Proof.
  unfold RenderRing_new. destruct (in_range _ _ _) eqn:Hr; [|done]. cbn [negb].
  apply in_range_iff in Hr. destruct (_ || _); [done|]. intros H0. ok_step H0. injection H0 as <-.
  cbn. lia.
Qed.

(** ** The operations are runs of their accesses *)

Lemma storing_run (c : Conc) (frames : list Z) (write n k : Z) (ks : nat) :
  c.(producer) = ProdStoring frames write n k -> 0 <= c.(ring).(read_index) <= usize_max ->
  k + Z.of_nat ks <= n * 2 ->
  ring_run c [] (mkConc
    (set_slots (fold_left (fun s k => store_sample frames c.(ring).(ring_capacity) write k s)
                  (seqZ k (Z.of_nat ks)) c.(ring).(slots)) c.(ring))
    (ProdStoring frames write n (k + Z.of_nat ks)) c.(consumer) c.(seen_read) c.(seen_write)).
Proof.
  intros Hp Hs. induction ks as [|ks IH]; intros Hk.
  - rewrite Z.add_0_r, <- Hp. destruct c as [[]]. constructor.
  - rewrite <- (app_nil_r []). econstructor; [apply IH; lia|].
    apply (StepProducer _ _ (read_index (ring c))); [apply fresh_load_current; cbn; lia|].
    unfold producer_step. cbn [producer ring consumer seen_read seen_write].
    assert (k + Z.of_nat ks <? n * RENDER_CHANNELS = true) as -> by (unfold RENDER_CHANNELS; lia).
    do 2 f_equal. rewrite Nat2Z.inj_succ, <- Z.add_1_r. rewrite seqZ_app, fold_left_app by lia.
    cbn. rewrite Z.add_assoc. done.
Qed.

Lemma ring_run_trans (c0 c c' : Conc) (events new : list RingEvent) :
  ring_run c0 events c -> ring_run c new c' -> ring_run c0 (events ++ new) c'.
Proof.
  intros H H'. induction H' as [|c1 c2 new e H' IH Hs]; [by rewrite app_nil_r|].
  rewrite (assoc_L (++)). by econstructor.
Qed.

(** [push_frames] is what the producer's accesses do when the consumer does not
    interfere: the concurrent semantics is that of the code. *)
Lemma push_frames_run (c : Conc) (frames : list Z) (q : list Z) :
  ring_ok c q -> c.(producer) = ProdIdle ->
  let '(r, n) := push_frames frames c.(ring) in
  ring_run c [EvPush (take (Z.to_nat (n * 2)) frames); EvPushed n]
    (mkConc r ProdIdle c.(consumer) c.(ring).(read_index) c.(seen_write)).
Proof.
  intros Hok Hi. unfold push_frames. cbv zeta.
  set (n := Z.min _ _). set (write := write_index (ring c)).
  assert (0 <= n) as Hn.
  { unfold n, RENDER_CHANNELS. destruct Hok. pose proof (len_nonneg frames).
    rewrite (usize_sub_small (write_index (ring c))), usize_sub_small by lia.
    pose proof (Z.div_pos (len frames) 2 ltac:(lia) ltac:(lia)). lia. }
  pose proof (ro_seen_read _ _ Hok) as Hsr. pose proof (ro_seen_write _ _ Hok) as Hsw.
  pose proof (ro_range _ _ Hok) as Hmax.
  set (c1 := mkConc (ring c) (ProdStarted frames write) (consumer c) (seen_read c) (seen_write c)).
  set (c2 := mkConc (ring c) (ProdStoring frames write n 0) (consumer c) (read_index (ring c)) (seen_write c)).
  assert (ring_run c [] c2) as H2.
  { apply (RunStep c c1 c2 [] []); [apply (RunStep c c c1 [] []); [constructor|by apply StepPushCall]|].
    eapply (StepProducer c1 c2 (read_index (ring c))); [apply fresh_load_current; cbn; lia|done]. }
  pose proof (storing_run c2 frames write n 0 (Z.to_nat (n * 2)) eq_refl ltac:(cbn; lia) ltac:(lia)) as H3.
  rewrite Z2Nat.id, Z.add_0_l in H3 by lia. pose proof (ring_run_trans _ _ _ _ _ H2 H3) as H4.
  eapply (RunStep _ _ _ [_] [_]); [eapply (RunStep _ _ _ [] [_]); [exact H4|]|].
  - apply (StepProducer _ _ (read_index (ring c))); [apply fresh_load_current; cbn; lia|].
    unfold producer_step. cbn [producer ring consumer seen_read seen_write].
    rewrite (proj2 (Z.ltb_ge _ _)) by (unfold RENDER_CHANNELS; lia). reflexivity.
  - apply (StepProducer _ _ (read_index (ring c))); [destruct (0 <? n); apply fresh_load_current; cbn; lia|].
    unfold producer_step. cbn [producer]. by destruct (0 <? n).
Qed.

Lemma loading_run (c : Conc) (output : list Z) (read n k : Z) (ks : nat) :
  c.(consumer) = ConsLoading output read n k -> k + Z.of_nat ks <= n * 2 ->
  ring_run c [] (mkConc c.(ring) c.(producer)
    (ConsLoading (fold_left (fun o k => load_sample c.(ring).(slots) c.(ring).(ring_capacity) read k o)
                    (seqZ k (Z.of_nat ks)) output) read n (k + Z.of_nat ks))
    c.(seen_read) c.(seen_write)).
Proof.
  intros Hp. induction ks as [|ks IH]; intros Hk.
  - rewrite Z.add_0_r. destruct c. cbn in Hp. subst. constructor.
  - rewrite <- (app_nil_r []). econstructor; [apply IH; lia|].
    apply StepConsumer. unfold consumer_step. cbn [producer ring consumer seen_read seen_write].
    assert (k + Z.of_nat ks <? n * RENDER_CHANNELS = true) as -> by (unfold RENDER_CHANNELS; lia).
    do 2 f_equal. rewrite Nat2Z.inj_succ, <- Z.add_1_r. rewrite seqZ_app, fold_left_app by lia.
    cbn. rewrite Z.add_assoc. done.
Qed.

(** The same for [read_frames]; the samples popped are those the call returns
    ahead of the silence. *)
Lemma read_frames_run (c : Conc) (output : list Z) (q : list Z) :
  ring_ok c q -> c.(consumer) = ConsIdle ->
  exists popped, let '(r, output', outcome) := read_frames output c.(ring) in
  ring_run c [EvPop popped output'; EvReturned outcome]
    (mkConc r c.(producer) ConsIdle c.(seen_read) c.(ring).(write_index)).
Proof.
  intros Hok Hi. unfold read_frames. cbv zeta.
  set (n := Z.min _ _). set (read := read_index (ring c)).
  pose proof (ro_seen_read _ _ Hok) as Hsr. pose proof (ro_seen_write _ _ Hok) as Hsw.
  pose proof (ro_range _ _ Hok) as Hmax.
  assert (0 <= n) as Hn.
  { unfold n, RENDER_CHANNELS. pose proof (len_nonneg output). rewrite usize_sub_small by lia.
    pose proof (Z.div_pos (len output) 2 ltac:(lia) ltac:(lia)). lia. }
  set (write := write_index (ring c)).
  set (c1 := mkConc (ring c) (producer c) (ConsStarted output write) (seen_read c) write).
  set (c2 := mkConc (ring c) (producer c) (ConsLoading output read n 0) (seen_read c) write).
  assert (ring_run c [] c2) as H2.
  { apply (RunStep c c1 c2 [] []); [apply (RunStep c c c1 [] []); [constructor|]|].
    - apply StepReadCall; [done|]. apply fresh_load_current. unfold write. lia.
    - by apply StepConsumer. }
  pose proof (loading_run c2 output read n 0 (Z.to_nat (n * 2)) eq_refl ltac:(lia)) as H3.
  rewrite Z2Nat.id, Z.add_0_l in H3 by lia. pose proof (ring_run_trans _ _ _ _ _ H2 H3) as H4.
  cbn [c2 ring producer seen_read seen_write] in H4. cbn [app] in H4. fold read in H4.
  assert (forall l : list Z, len (for_samples n (load_sample (slots (ring c)) (ring_capacity (ring c)) read) l)
    = len l) as Hlen.
  { intros l. unfold for_samples. generalize (seqZ 0 (n * RENDER_CHANNELS)). intros ks. revert l.
    induction ks as [|k ks IH]; intros l; cbn; [done|]. by rewrite IH, len_load. }
  assert (forall (m : Z) (l : list Z), len (fill_silence n m l) = len l) as Hfill.
  { intros m l. unfold fill_silence. generalize (seqZ (n * RENDER_CHANNELS) ((m - n) * RENDER_CHANNELS)).
    intros ks. revert l. induction ks as [|k ks IH]; intros l; cbn; [done|].
    rewrite IH. unfold len. by rewrite length_insert. }
  change (fold_left (fun o k => load_sample (slots (ring c)) (ring_capacity (ring c)) read k o)
    (seqZ 0 (n * 2)) output) with
    (for_samples n (load_sample (slots (ring c)) (ring_capacity (ring c)) read) output) in H4.
  eexists. eapply (RunStep _ _ _ [_] [_]); [eapply (RunStep _ _ _ [] [_]); [exact H4|]|].
  - apply StepConsumer. unfold consumer_step. cbn [producer ring consumer seen_read seen_write].
    rewrite (proj2 (Z.ltb_ge _ _)) by (unfold RENDER_CHANNELS; lia). rewrite Hlen. reflexivity.
  - apply StepConsumer. unfold consumer_step. cbn [consumer]. rewrite Hfill, Hlen. by destruct (0 <? n).
Qed.

Lemma sublist_full {A : Type} (l l' : list A) :
  l `sublist_of` l' -> (length l' <= length l)%nat -> l = l'.
Proof.
  induction 1 as [|x l l' H IH|x l l' H IH]; cbn; intros Hl; [done|f_equal; apply IH; lia|].
  apply sublist_length in H. lia.
Qed.

(** ** The ring between calls *)

(** A ring no call is in progress on, holding [q]. *)
Definition ring_holds (r : RingInner) (q : list Z) : Prop :=
  exists seen_read seen_write, ring_ok (mkConc r ProdIdle ConsIdle seen_read seen_write) q.

Lemma fifo_run_snoc (bound : Z) (q0 q : list Z) (events : list RingEvent) (e : RingEvent) :
  fifo_run bound q0 (events ++ [e]) q ->
  exists q1, fifo_run bound q0 events q1 /\ fifo_step bound q1 e q.
Proof.
  intros H. inversion H as [E|q1 q2 ev e' Hr Hs E]; subst.
  - by destruct events.
  - apply app_inj_tail in E as [-> ->]. by exists q1.
Qed.

Lemma fifo_run_two (bound : Z) (q0 q : list Z) (e e' : RingEvent) :
  fifo_run bound q0 [e; e'] q ->
  exists q1, fifo_step bound q0 e q1 /\ fifo_step bound q1 e' q.
Proof.
  intros H. apply (fifo_run_snoc _ _ _ [e]) in H as (q1 & H & H').
  apply (fifo_run_snoc _ _ _ []) in H as (q2 & H & H''). inversion H as [|? ? ev ? ? ? E]; subst.
  - by exists q1.
  - by destruct ev.
Qed.

(** The indices stay clear of the wrap over the next call. *)
Definition ring_room (r : RingInner) : Prop := r.(write_index) + r.(ring_capacity) <= usize_max.

Lemma push_holds (frames : list Z) (r r' : RingInner) (n : Z) (q : list Z) :
  ring_holds r q -> push_frames frames r = (r', n) ->
  r.(write_index) * 2 + len (take (Z.to_nat (n * RENDER_CHANNELS)) frames) + r.(ring_capacity) * 2
  <= usize_max * 2 ->
  ring_holds r' (q ++ take (Z.to_nat (n * RENDER_CHANNELS)) frames)
  /\ r'.(write_index) * 2 = r.(write_index) * 2 + len (take (Z.to_nat (n * RENDER_CHANNELS)) frames)
  /\ r'.(ring_capacity) = r.(ring_capacity).
Proof.
  intros (sr & sw & Hok) Hp Hroom. pose proof (push_frames_run _ frames q Hok eq_refl) as Hrun.
  cbn [ring] in Hrun. rewrite Hp in Hrun. unfold RENDER_CHANNELS in *.
  assert (pushed_samples [EvPush (take (Z.to_nat (n * 2)) frames); EvPushed n]
          = take (Z.to_nat (n * 2)) frames) as Ep by (unfold pushed_samples; cbn; by rewrite app_nil_r).
  destruct (ring_run_ok _ _ _ _ Hok Hrun) as (Hcap & Hpush & q' & Hq & Hok').
  { rewrite Ep. cbn [ring]. lia. }
  unfold pushes in Hpush. rewrite Ep in Hpush. cbn [ring] in Hpush, Hcap.
  apply fifo_run_two in Hq as (q1 & H1 & H2). inversion H1; subst. inversion H2; subst.
  split; [by eexists _, _|]. by split.
Qed.

Lemma read_holds (output output' : list Z) (r r' : RingInner) (outcome : RenderReadOutcome)
  (q : list Z) :
  ring_holds r q -> ring_room r -> read_frames output r = (r', output', outcome) ->
  exists q', q = take (Z.to_nat (outcome.(frames_supplied) * RENDER_CHANNELS)) output' ++ q'
             /\ ring_holds r' q'.
Proof.
  intros (sr & sw & Hok) Hroom Hr. destruct (read_frames_run _ output q Hok eq_refl) as (popped & Hrun).
  cbn [ring] in Hrun. rewrite Hr in Hrun.
  destruct (ring_run_ok _ _ _ _ Hok Hrun) as (_ & _ & q' & Hq & Hok').
  { unfold pushed_samples, ring_room in *. cbn [map concat ring app]. rewrite len_nil. lia. }
  apply fifo_run_two in Hq as (q1 & H1 & H2). inversion H1 as [|? silence rest ? Eq Hrest| |]; subst.
  inversion H2; subst. exists q'. split; [|by eexists _, _].
  assert (outcome.(frames_supplied) * RENDER_CHANNELS = len popped) as ->.
  { pose proof (ro_length _ _ Hok) as L. pose proof (ro_length _ _ Hok') as L'.
    pose proof (ro_seen_write _ _ Hok) as Hw. pose proof (ro_seen_read _ _ Hok) as Hs.
    pose proof (ro_range _ _ Hok) as Hmax. cbn [ring seen_write seen_read] in *. unfold len in *.
    rewrite length_app in L. unfold read_frames in Hr. injection Hr as <- _ <-.
    cbn [frames_supplied]. rewrite (usize_sub_small (write_index r)) in * by lia.
    pose proof (Z.div_pos (Z.of_nat (length output)) 2 ltac:(lia) ltac:(lia)).
    unfold RENDER_CHANNELS, len in *.
    destruct (0 <? _) eqn:E; cbn [set_read_index set_telemetry write_index read_index] in L'.
    - rewrite usize_add_small in L' by lia. lia.
    - apply Z.ltb_ge in E. lia. }
  unfold len. rewrite Nat2Z.id. by rewrite take_app_length.
Qed.

Lemma read_keeps (output output' : list Z) (r r' : RingInner) (outcome : RenderReadOutcome) :
  read_frames output r = (r', output', outcome) ->
  r'.(write_index) = r.(write_index) /\ r'.(ring_capacity) = r.(ring_capacity).
Proof. unfold read_frames. intros [= <- _ _]. by destruct (0 <? _). Qed.

Lemma push_keeps (frames : list Z) (r r' : RingInner) (n : Z) :
  push_frames frames r = (r', n) -> r'.(ring_capacity) = r.(ring_capacity).
Proof. unfold push_frames. intros [= <- _]. by destruct (0 <? _). Qed.

(** The samples in the ring, oldest first, as the slots hold them. *)
Definition ring_contents (r : RingInner) : list Z :=
  map (fun k => nth (slot_at r.(ring_capacity) r.(read_index) k) r.(slots) 0)
    (seqZ 0 (available_frames r * RENDER_CHANNELS)).

Lemma ring_ok_contents (c : Conc) (q : list Z) : ring_ok c q -> ring_contents c.(ring) = q.
Proof.
  intros [Hc Hmax Hl Hsr Hsw Hroom Hlen Hcont _ _].
  unfold ring_contents, available_frames, RENDER_CHANNELS. rewrite usize_sub_small by lia.
  rewrite <- Hlen. apply list_eq_nth.
  - unfold len. rewrite length_map, length_seqZ. lia.
  - intros j Hj. rewrite length_map, length_seqZ in Hj. unfold len in Hj.
    rewrite nth_lookup. rewrite list_lookup_fmap, lookup_seqZ_lt by (unfold len; lia).
    cbn [fmap option_fmap option_map default]. rewrite Z.add_0_l.
    pose proof (half_below (Z.of_nat j) (write_index (ring c) - read_index (ring c))
                  ltac:(unfold len in Hlen; lia)).
    rewrite slot_at_position by lia. change (nth _ (slots (ring c)) 0) with (slot_value (ring c)
      (read_index (ring c) * 2 + Z.of_nat j)). rewrite Hcont by (unfold len; lia). by rewrite Nat2Z.id.
Qed.

Lemma ring_holds_contents (r : RingInner) (q : list Z) : ring_holds r q -> ring_contents r = q.
Proof. intros (sr & sw & H). exact (ring_ok_contents _ _ H). Qed.

Lemma ring_holds_telemetry (r : RingInner) (tele : RenderRingTelemetry) (q : list Z) :
  ring_holds r q -> ring_holds (set_telemetry tele r) q.
Proof. intros (sr & sw & []). exists sr, sw. by split. Qed.

Lemma ring_holds_length (r : RingInner) (q : list Z) :
  ring_holds r q -> len q = available_frames r * RENDER_CHANNELS.
Proof.
  intros (sr & sw & Hok). pose proof (ro_length _ _ Hok) as L. destruct Hok. cbn in *.
  unfold available_frames, RENDER_CHANNELS. rewrite usize_sub_small; lia.
Qed.

Lemma ring_holds_bound (r : RingInner) (q : list Z) :
  ring_holds r q -> 0 <= available_frames r <= r.(ring_capacity).
Proof.
  intros (sr & sw & []). cbn in *. unfold available_frames. rewrite usize_sub_small; lia.
Qed.

(** ** Properties *)

Lemma fifo_conserves (bound : Z) (events : list RingEvent) (q0 q : list Z) :
  fifo_run bound q0 events q -> q0 ++ pushed_samples events = popped_samples events ++ q.
Proof.
  unfold pushed_samples, popped_samples. induction 1 as [|q q' events e Hrun IH Hstep].
  { by rewrite app_nil_r. }
  rewrite !map_app, !concat_app, (assoc_L (++)), IH, <- (assoc_L (++)). cbn [map concat].
  destruct Hstep; subst; by rewrite ?app_nil_r, ?(assoc_L (++)).
Qed.

(** C12. The ring is a bounded queue under concurrency: however the accesses of
    the playback worker and the audio callback interleave, and however stale the
    index each side observes, as long as at most [usize::MAX - capacity] frames
    have been pushed the run is one of a first-in first-out queue of at most
    [capacity_frames] stereo frames, whose content is what the slots hold.
    Every sample handed out was pushed, in the order it was pushed, none lost,
    repeated or overwritten; a read returns them followed only by silence. *)
Theorem ring_implements_fifo (config : RenderRingConfig) (r : RingInner)
    (events : list RingEvent) (c : Conc) :
  RenderRing_new config = Ok r -> ring_run (split r) events c ->
  len (pushed_samples events) <= (usize_max - config.(capacity_frames)) * RENDER_CHANNELS ->
  fifo_run (config.(capacity_frames) * RENDER_CHANNELS) [] events (ring_contents c.(ring))
  /\ pushed_samples events = popped_samples events ++ ring_contents c.(ring)
  /\ len (ring_contents c.(ring)) = available_frames c.(ring) * RENDER_CHANNELS
  /\ available_frames c.(ring) + free_frames c.(ring) = config.(capacity_frames).
Proof.
  intros Hnew Hrun Hb. destruct (RenderRing_new_ok _ _ Hnew) as [Hcap Hok].
  destruct (RenderRing_new_fresh _ _ Hnew) as [Hz _]. unfold RENDER_CHANNELS in *.
  destruct (ring_run_ok _ _ _ _ Hok Hrun) as (Hcap' & _ & q & Hq & Hc).
  { cbn [split ring] in *. rewrite Hcap, Hz. lia. }
  rewrite (ring_ok_contents _ _ Hc). cbn [split ring] in *. rewrite <- Hcap.
  split; [exact Hq|]. split; [by rewrite <- (fifo_conserves _ _ _ _ Hq)|].
  destruct Hc. unfold available_frames, free_frames. rewrite (usize_sub_small (write_index (ring c))) by lia.
  rewrite usize_sub_small by lia. split; lia.
Qed.
End Ring.

(** ** Witnesses *)

Section Schedules.
Context {t : target}.

Definition load_allowed (seen current observed : Z) : bool :=
  in_range 0 usize_max observed && (usize_sub observed seen <=? usize_sub current seen).

Lemma load_allowed_true (seen current observed : Z) :
  load_allowed seen current observed = true -> fresh_load seen current observed.
Proof. unfold load_allowed. intros [H%in_range_iff H'%Z.leb_le]%andb_prop. by split. Qed.

(** One access chosen by a schedule. *)
Inductive RingAction : Type :=
| ActPush (frames : list Z)
| ActProducer (observed : Z)
| ActRead (output : list Z) (observed : Z)
| ActConsumer.

Definition ring_exec_step (a : RingAction) (c : Conc) : option (Conc * list RingEvent) :=
  match a with
  | ActPush frames =>
      match c.(producer) with
      | ProdIdle => Some (mkConc c.(ring) (ProdStarted frames c.(ring).(write_index)) c.(consumer)
                            c.(seen_read) c.(seen_write), [])
      | _ => None
      end
  | ActProducer observed =>
      if load_allowed c.(seen_read) c.(ring).(read_index) observed then producer_step observed c else None
  | ActRead output observed =>
      match c.(consumer) with
      | ConsIdle =>
          if load_allowed c.(seen_write) c.(ring).(write_index) observed
          then Some (mkConc c.(ring) c.(producer) (ConsStarted output observed) c.(seen_read) observed, [])
          else None
      | _ => None
      end
  | ActConsumer => consumer_step c
  end.

Fixpoint ring_exec (schedule : list RingAction) (c : Conc) : option (Conc * list RingEvent) :=
  match schedule with
  | [] => Some (c, [])
  | a :: rest =>
      match ring_exec_step a c with
      | Some (c', events) =>
          match ring_exec rest c' with
          | Some (final, more) => Some (final, events ++ more)
          | None => None
          end
      | None => None
      end
  end.

Lemma ring_exec_step_sound (a : RingAction) (c c' : Conc) (events : list RingEvent) :
  ring_exec_step a c = Some (c', events) -> ring_step c events c'.
Proof.
  destruct a as [frames|observed|output observed|]; cbn [ring_exec_step].
  - destruct (producer c) eqn:E; intros [= <- <-]. by apply StepPushCall.
  - destruct (load_allowed _ _ _) eqn:E; [|done]. apply load_allowed_true in E. by apply StepProducer.
  - destruct (consumer c) eqn:Ec; [|done..]. destruct (load_allowed _ _ _) eqn:E; [|done].
    apply load_allowed_true in E. intros [= <- <-]. by apply StepReadCall.
  - apply StepConsumer.
Qed.

Lemma ring_exec_sound (schedule : list RingAction) (c c' : Conc) (events : list RingEvent) :
  ring_exec schedule c = Some (c', events) -> ring_run c events c'.
Proof.
  revert c events. induction schedule as [|a rest IH]; intros c events; cbn [ring_exec].
  { intros [= <- <-]. constructor. }
  destruct (ring_exec_step a c) as [[c1 ev]|] eqn:E; [|done].
  destruct (ring_exec rest c1) as [[final more]|] eqn:E'; [|done]. intros [= <- <-].
  eapply ring_run_trans; [|by eapply IH]. apply (RunStep c c c1 [] ev); [constructor|].
  by eapply ring_exec_step_sound.
Qed.

End Schedules.

Definition sample_ring_config : RenderRingConfig := mkRenderRingConfig MIN_RING_CAPACITY_FRAMES 1.
Definition sample_ring : RingInner :=
  mkRingInner MIN_RING_CAPACITY_FRAMES (repeat 0 9600) 0 0 RenderRingTelemetry_default.

(** The worker has stored half of its first frame when the callback reads three
    samples: it gets silence. The frame is published, and the next read, still
    on the stale index, gets silence again before the third returns it. *)
Definition sample_schedule : list RingAction :=
  [ActPush [7; 9]; ActProducer 0; ActProducer 0; ActRead [5; 5; 5] 0; ActConsumer; ActConsumer;
   ActProducer 0; ActConsumer; ActProducer 0; ActRead [5; 5] 0; ActConsumer; ActConsumer; ActConsumer;
   ActRead [5; 5; 5; 5] 1; ActConsumer; ActConsumer; ActConsumer; ActConsumer].

Definition sample_events : list RingEvent :=
  [EvPop [] [0; 0; 5]; EvReturned (mkRenderReadOutcome 0 1); EvPush [7; 9];
   EvPop [] [0; 0]; EvReturned (mkRenderReadOutcome 0 1); EvPop [7; 9] [7; 9; 0; 0]].

Lemma ring_implements_fifo_witness :
  exists c, ring_run (t := Target32) (split sample_ring) sample_events c
            /\ fifo_run 9600 [] sample_events (ring_contents (t := Target32) c.(ring))
            /\ ring_contents (t := Target32) c.(ring) = [].
Proof.
  destruct (ring_exec (t := Target32) sample_schedule (split sample_ring)) as [[c events]|] eqn:E;
    [|vm_compute in E; discriminate E].
  assert (events = sample_events) as -> by (vm_compute in E; by injection E).
  apply ring_exec_sound in E. exists c. split; [exact E|].
  destruct (ring_implements_fifo (t := Target32) sample_ring_config sample_ring sample_events c)
    as (Hq & Hp & _); [vm_compute; reflexivity|exact E|vm_compute; discriminate|].
  split; [exact Hq|].
  assert (length (pushed_samples sample_events)
          = length (popped_samples sample_events ++ ring_contents (t := Target32) c.(ring))) as Hl
    by (by rewrite <- Hp).
  rewrite length_app in Hl. destruct (ring_contents c.(ring)); [done|]. vm_compute in Hl. discriminate Hl.
Defined.

(** Beyond the bound the queue breaks: on a 32-bit target an empty ring of three
    frames whose indices are about to wrap takes three frames and gives back the
    second twice and the first not at all, because the indices [2^32 - 1] and
    [0] share a slot.  The default capacity of 48000 does not divide [2^32]
    either. *)
Lemma wrapped_ring_repeats :
  let r := mkRingInner 3 (repeat 0 6) u32_max u32_max RenderRingTelemetry_default in
  let '(r, written) := push_frames (t := Target32) [1; 1; 2; 2; 3; 3] r in
  written = 3 /\ (read_frames (t := Target32) (repeat 0 6) r).1.2 = [2; 2; 2; 2; 3; 3].
Proof. vm_compute. by split. Qed.
