(* ===== verification/PlaybackPump.v ===== *)
(** The playback pump (src/rust/silent-disco-core/src/audio/playback_pump):
    the worker between the scheduler and the render ring.  On every tick it
    takes at most one scheduled frame, converts it to [f32] and queues it into
    the ring, keeping what does not fit; it also gates playback on the first
    clock offset and slews later ones.

    The ring is the state shared with the audio callback: between two calls of
    the pump the callback may read from it.  Within one call the ring's own
    theorem covers the interleaving of the two sides' accesses.  The optional
    debug recorder (recording.rs) only observes frames and is left out. *)
From Stdlib Require Import ZArith Lia Sorting.Sorted SpecFloat Strings.String.
From stdpp Require Import numbers list prelude.
From S2P Require Import Prelude BTreeMap Utf8 Float64 ProtocolTypes Concealment JitterBuffer.
From S2P Require Import Scheduler RenderRing.

(** ** Configuration (config.rs) *)

Definition DEFAULT_WRITE_LEAD_MS : Z := 400.
Definition DEFAULT_MAX_PREFILL_MS : Z := 800.

Record PlaybackPumpConfig : Type := mkPlaybackPumpConfig {
volume : f32;
write_lead_ms : Z;
max_prefill_ms : Z;
target_depth_frames : Z
}.

Definition PlaybackPumpConfig_default : PlaybackPumpConfig :=
  mkPlaybackPumpConfig (f32_of_Z 1) DEFAULT_WRITE_LEAD_MS DEFAULT_MAX_PREFILL_MS
    DEFAULT_TARGET_FILL_FRAMES.

Inductive PlaybackPumpConfigErrorKind : Type :=
| InvalidVolume | ChannelCountMismatch | InvalidTargetDepth.

(** ** State and construction (pump.rs) *)

Record PlaybackPump : Type := mkPlaybackPump {
scheduler : PlaybackScheduler;
pump_ring : RingInner;
pump_config : PlaybackPumpConfig;
pending : list Z;
awaiting_prefill : bool;
prefill_frames : Z;
sync_locked : bool;
pump_offset_ms : f64;
peak_queued_frames : Z;
dropped_before_sync : Z;
last_observed_underrun_callbacks : Z;
timeline_started : bool;
offset_driven_rebuffers : Z
}.

(** [!volume.is_finite() || volume < 0.0 || volume > 1.0]. *)
Definition volume_is_invalid (v : f32) : bool :=
  negb (f32_is_finite v) || SFltb v (f32_of_Z 0) || SFltb (f32_of_Z 1) v.

Definition PlaybackPump_new (scheduler : PlaybackScheduler) (ring : RingInner)
  (config : PlaybackPumpConfig) : result PlaybackPump PlaybackPumpConfigErrorKind :=
  if volume_is_invalid config.(volume) then Err InvalidVolume
  else if negb (scheduler.(sch_config).(cfg_channels) =? RENDER_CHANNELS) then Err ChannelCountMismatch
  else if (config.(target_depth_frames) =? 0)
          || (ring.(ring_capacity) <? config.(target_depth_frames))
  then Err InvalidTargetDepth
  else
    let last_observed_underrun_callbacks := ring.(ring_telemetry).(underrun_callbacks) in
    Ok (mkPlaybackPump scheduler ring config [] true 0 false (f64_of_Z 0) 0 0
          last_observed_underrun_callbacks false 0).

(** ** Field updates *)

Definition set_scheduler (s : PlaybackScheduler) (p : PlaybackPump) : PlaybackPump :=
  mkPlaybackPump s p.(pump_ring) p.(pump_config) p.(pending) p.(awaiting_prefill)
    p.(prefill_frames) p.(sync_locked) p.(pump_offset_ms) p.(peak_queued_frames)
    p.(dropped_before_sync) p.(last_observed_underrun_callbacks) p.(timeline_started)
    p.(offset_driven_rebuffers).
Definition set_ring (r : RingInner) (p : PlaybackPump) : PlaybackPump :=
  mkPlaybackPump p.(scheduler) r p.(pump_config) p.(pending) p.(awaiting_prefill)
    p.(prefill_frames) p.(sync_locked) p.(pump_offset_ms) p.(peak_queued_frames)
    p.(dropped_before_sync) p.(last_observed_underrun_callbacks) p.(timeline_started)
    p.(offset_driven_rebuffers).
Definition set_pump_config (c : PlaybackPumpConfig) (p : PlaybackPump) : PlaybackPump :=
  mkPlaybackPump p.(scheduler) p.(pump_ring) c p.(pending) p.(awaiting_prefill)
    p.(prefill_frames) p.(sync_locked) p.(pump_offset_ms) p.(peak_queued_frames)
    p.(dropped_before_sync) p.(last_observed_underrun_callbacks) p.(timeline_started)
    p.(offset_driven_rebuffers).
Definition set_pending (l : list Z) (p : PlaybackPump) : PlaybackPump :=
  mkPlaybackPump p.(scheduler) p.(pump_ring) p.(pump_config) l p.(awaiting_prefill)
    p.(prefill_frames) p.(sync_locked) p.(pump_offset_ms) p.(peak_queued_frames)
    p.(dropped_before_sync) p.(last_observed_underrun_callbacks) p.(timeline_started)
    p.(offset_driven_rebuffers).
Definition set_prefill (awaiting : bool) (frames : Z) (p : PlaybackPump) : PlaybackPump :=
  mkPlaybackPump p.(scheduler) p.(pump_ring) p.(pump_config) p.(pending) awaiting
    frames p.(sync_locked) p.(pump_offset_ms) p.(peak_queued_frames)
    p.(dropped_before_sync) p.(last_observed_underrun_callbacks) p.(timeline_started)
    p.(offset_driven_rebuffers).
Definition set_sync (locked : bool) (offset : f64) (p : PlaybackPump) : PlaybackPump :=
  mkPlaybackPump p.(scheduler) p.(pump_ring) p.(pump_config) p.(pending) p.(awaiting_prefill)
    p.(prefill_frames) locked offset p.(peak_queued_frames)
    p.(dropped_before_sync) p.(last_observed_underrun_callbacks) p.(timeline_started)
    p.(offset_driven_rebuffers).
Definition set_peak_queued (frames : Z) (p : PlaybackPump) : PlaybackPump :=
  mkPlaybackPump p.(scheduler) p.(pump_ring) p.(pump_config) p.(pending) p.(awaiting_prefill)
    p.(prefill_frames) p.(sync_locked) p.(pump_offset_ms) frames
    p.(dropped_before_sync) p.(last_observed_underrun_callbacks) p.(timeline_started)
    p.(offset_driven_rebuffers).
Definition set_dropped_before_sync (n : Z) (p : PlaybackPump) : PlaybackPump :=
  mkPlaybackPump p.(scheduler) p.(pump_ring) p.(pump_config) p.(pending) p.(awaiting_prefill)
    p.(prefill_frames) p.(sync_locked) p.(pump_offset_ms) p.(peak_queued_frames)
    n p.(last_observed_underrun_callbacks) p.(timeline_started) p.(offset_driven_rebuffers).
Definition set_observed_underruns (n : Z) (p : PlaybackPump) : PlaybackPump :=
  mkPlaybackPump p.(scheduler) p.(pump_ring) p.(pump_config) p.(pending) p.(awaiting_prefill)
    p.(prefill_frames) p.(sync_locked) p.(pump_offset_ms) p.(peak_queued_frames)
    p.(dropped_before_sync) n p.(timeline_started) p.(offset_driven_rebuffers).
Definition set_timeline_started (p : PlaybackPump) : PlaybackPump :=
  mkPlaybackPump p.(scheduler) p.(pump_ring) p.(pump_config) p.(pending) p.(awaiting_prefill)
    p.(prefill_frames) p.(sync_locked) p.(pump_offset_ms) p.(peak_queued_frames)
    p.(dropped_before_sync) p.(last_observed_underrun_callbacks) true p.(offset_driven_rebuffers).
Definition set_offset_rebuffers (n : Z) (p : PlaybackPump) : PlaybackPump :=
  mkPlaybackPump p.(scheduler) p.(pump_ring) p.(pump_config) p.(pending) p.(awaiting_prefill)
    p.(prefill_frames) p.(sync_locked) p.(pump_offset_ms) p.(peak_queued_frames)
    p.(dropped_before_sync) p.(last_observed_underrun_callbacks) p.(timeline_started) n.

Section Pump.
Context {t : target}.

(** ** Accessors *)

(** [!(0.0..=1.0).contains(&volume)] is the negated conjunction, which a NaN
    fails as well. *)
Definition set_volume (v : f32) (p : PlaybackPump) :
  result unit PlaybackPumpConfigErrorKind * PlaybackPump :=
  if negb (f32_is_finite v) || negb (SFleb (f32_of_Z 0) v && SFleb v (f32_of_Z 1))
  then (Err InvalidVolume, p)
  else
    let c := p.(pump_config) in
    (Ok tt, set_pump_config (mkPlaybackPumpConfig v c.(write_lead_ms) c.(max_prefill_ms)
                               c.(target_depth_frames)) p).

Definition pending_frames (p : PlaybackPump) : Z := len p.(pending) / RENDER_CHANNELS.
Definition queued_frames (p : PlaybackPump) : Z :=
  usize_sub p.(pump_ring).(ring_capacity) (free_frames p.(pump_ring)).

(** ** Conversion (conversion.rs) *)

Definition PCM16_FULL_SCALE : f32 := f32_of_Z 32768.

(** The slot value of [f32::from(sample) / PCM16_FULL_SCALE * volume]. *)
Definition convert_sample (v : f32) (sample : Z) : Z :=
  f32_to_bits (f32_mul (f32_div (f32_of_Z sample) PCM16_FULL_SCALE) v).

(** ** Scheduling (scheduling.rs) *)

Definition flush_pending (p : PlaybackPump) : Z * PlaybackPump :=
  match p.(pending) with
  | [] => (0, p)
  | _ :: _ =>
      let '(r, written) := push_frames p.(pending) p.(pump_ring) in
      let p := set_ring r p in
      let p := if 0 <? written
               then set_pending (drop (Z.to_nat (written * RENDER_CHANNELS)) p.(pending)) p
               else p in
      let p := set_peak_queued (Z.max p.(peak_queued_frames) (queued_frames p)) p in
      (written, p)
  end.

Definition enqueue_frame (frame : ScheduledFrame) (p : PlaybackPump) : Z * PlaybackPump :=
  flush_pending
    (set_pending (p.(pending)
                  ++ map (convert_sample p.(pump_config).(volume)) frame.(frame_samples)) p).

Definition realign_after_output_underrun (local_now_ms : Z) (p : PlaybackPump) : PlaybackPump :=
  let underruns := p.(pump_ring).(ring_telemetry).(underrun_callbacks) in
  if negb p.(timeline_started) then set_observed_underruns underruns p
  else if underruns <=? p.(last_observed_underrun_callbacks) then p
  else
    let p := set_observed_underruns underruns p in
    let p := set_pending [] p in
    let p := set_prefill true 0 p in
    set_scheduler (realign_to_now local_now_ms p.(scheduler)) p.

Inductive PumpTick : Type :=
| TickBuffering (buffered_ms : Z)
| TickQueued (sequence frames : Z) (concealed : bool)
| TickFlushedPending (frames : Z)
| TickRingFull (pending_frames : Z)
| TickAtTargetDepth (queued_frames : Z)
| TickWaiting
| TickAwaitingSync
| TickAwaitingRebuffer
| TickStopped.

(** The frames of silence before the first frame: [lead_ms * sample_rate] is a
    [u64] product, converted with [usize::try_from(..).unwrap_or(usize::MAX)]. *)
Definition alignment_frames (lead_ms sample_rate : Z) : Z :=
  try_from_or_max usize_max (wrap 64 (lead_ms * sample_rate) / 1000).

Definition queue_alignment_prefill (frame : ScheduledFrame) (local_now_ms : Z) (p : PlaybackPump) :
  PlaybackPump :=
  if negb p.(awaiting_prefill) then p
  else
    let p := set_prefill false 0 p in
    let deadline_ms := local_time_for_host_ms p.(scheduler) frame.(frame_host_presentation_time_ms) in
    let lead_ms := Z.min (saturating_sub deadline_ms local_now_ms) p.(pump_config).(max_prefill_ms) in
    if lead_ms =? 0 then p
    else
      let frames := alignment_frames lead_ms p.(scheduler).(sch_config).(cfg_sample_rate) in
      let p := set_prefill false frames p in
      set_pending (p.(pending)
                   ++ repeat 0 (Z.to_nat ((frames * RENDER_CHANNELS) mod (usize_max + 1)))) p.

(** What [tick] does with the scheduler's answer. *)
Definition handle_poll (local_now_ms : Z) (r : SchedulerPoll) (p : PlaybackPump) :
  PumpTick * PlaybackPump :=
  match r with
  | PollBuffering buffered_ms => (TickBuffering buffered_ms, p)
  | PollWaiting _ => (TickWaiting, p)
  | PollAwaitingRebuffer =>
      let p := set_scheduler (rebuffer p.(pump_offset_ms) p.(scheduler)) p in
      (TickAwaitingRebuffer, set_prefill true p.(prefill_frames) p)
  | PollStopped => (TickStopped, p)
  | PollFrame frame _ =>
      let p := queue_alignment_prefill frame local_now_ms p in
      let '(frames, p) := enqueue_frame frame p in
      let p := set_timeline_started p in
      match p.(pending) with
      | [] => (TickQueued frame.(frame_sequence) frames frame.(frame_concealed), p)
      | _ :: _ => (TickRingFull (pending_frames p), p)
      end
  end.

(** [tick] once the sync gate and the underrun check are passed. *)
Definition tick_body (local_now_ms : Z) (p : PlaybackPump) : PumpTick * PlaybackPump :=
  match p.(pending) with
  | _ :: _ =>
      let '(flushed, p) := flush_pending p in
      match p.(pending) with
      | [] => (TickFlushedPending flushed, p)
      | _ :: _ => (TickRingFull (pending_frames p), p)
      end
  | [] =>
      let queued := queued_frames p in
      let p := set_peak_queued (Z.max p.(peak_queued_frames) queued) p in
      if p.(pump_config).(target_depth_frames) <=? queued then (TickAtTargetDepth queued, p)
      else
        let poll_time_ms := saturating_add u64_max local_now_ms p.(pump_config).(write_lead_ms) in
        let '(r, s) := poll_with_release_horizon local_now_ms poll_time_ms p.(scheduler) in
        handle_poll local_now_ms r (set_scheduler s p)
  end.

Definition tick (local_now_ms : Z) (p : PlaybackPump) : PumpTick * PlaybackPump :=
  if negb p.(sync_locked) then (TickAwaitingSync, p)
  else tick_body local_now_ms (realign_after_output_underrun local_now_ms p).

(** [for frame in &drained { written += self.enqueue_frame(frame) }]. *)
Fixpoint enqueue_all (frames : list ScheduledFrame) (written : Z) (p : PlaybackPump) :
  Z * PlaybackPump :=
  match frames with
  | [] => (written, p)
  | frame :: rest =>
      let '(n, p) := enqueue_frame frame p in enqueue_all rest (written + n) p
  end.

Definition finish (p : PlaybackPump) : Z * PlaybackPump :=
  let '(drained, s) := drain_remaining p.(scheduler) in
  let '(written, p) := enqueue_all drained 0 (set_scheduler s p) in
  (written, set_scheduler (stop p.(scheduler)) p).

(** ** The clock-offset gate (sync.rs) *)

Definition MAX_SOFT_OFFSET_STEP_MS : f64 := f64_of_Z 5.
Definition NEG_SOFT_OFFSET_STEP_MS : f64 := f64_of_Z (-5).

Inductive SyncApplyOutcome : Type :=
| SyncLocked | SyncSoftCorrected | SyncRebuffered | SyncRejectedNonFinite.

Definition apply_sync_offset (offset : f64) (p : PlaybackPump) : SyncApplyOutcome * PlaybackPump :=
  if negb (f64_is_finite offset) then (SyncRejectedNonFinite, p)
  else if negb p.(sync_locked) then
    let p := set_sync true offset p in
    let p := set_scheduler (rebuffer offset p.(scheduler)) p in
    (SyncLocked, set_prefill true p.(prefill_frames) p)
  else
    let delta_ms := f64_sub offset p.(pump_offset_ms) in
    if f64_ltb p.(scheduler).(sch_config).(cfg_hard_resync_threshold_ms) (f64_abs delta_ms) then
      let p := set_sync p.(sync_locked) offset p in
      let '(outcome, s) := apply_offset_update offset p.(scheduler) in
      let p := set_scheduler s p in
      match outcome with
      | SoftCorrected => (SyncSoftCorrected, p)
      | HardResyncRequired =>
          let p := set_scheduler (rebuffer offset p.(scheduler)) p in
          let p := set_prefill true 0 p in
          (SyncRebuffered,
           set_offset_rebuffers (saturating_add u64_max p.(offset_driven_rebuffers) 1) p)
      end
    else
      let applied_delta_ms := f64_clamp delta_ms NEG_SOFT_OFFSET_STEP_MS MAX_SOFT_OFFSET_STEP_MS in
      let p := set_sync p.(sync_locked) (f64_add p.(pump_offset_ms) applied_delta_ms) p in
      let '(_, s) := apply_offset_update p.(pump_offset_ms) p.(scheduler) in
      (SyncSoftCorrected, set_scheduler s p).

(** [PlaybackPump::submit_packet]. *)
Definition pump_submit (d : AudioDatagram) (p : PlaybackPump) :
  result unit JitterBufferRejectionKind * PlaybackPump :=
  if negb p.(sync_locked)
  then (Ok tt, set_dropped_before_sync (saturating_add u64_max p.(dropped_before_sync) 1) p)
  else let '(r, s) := submit_packet d p.(scheduler) in (r, set_scheduler s p).

(** ** Diagnostics (diagnostics.rs) *)

Record PlaybackDiagnostics : Type := mkPlaybackDiagnostics {
diag_phase : PlaybackPhase;
diag_sync_locked : bool;
diag_packets_accepted : Z;
diag_packets_emitted : Z;
diag_sequences_skipped : Z;
diag_wrong_session_rejections : Z;
diag_wrong_stream_rejections : Z;
diag_late_rejections : Z;
diag_duplicate_rejections : Z;
diag_reorder_window_rejections : Z;
diag_buffered_duration_rejections : Z;
diag_resynchronisations : Z;
diag_dropped_before_sync : Z;
diag_concealed_packets : Z;
diag_concealment_driven_rebuffers : Z;
diag_offset_driven_rebuffers : Z;
diag_hard_resync_signals : Z;
diag_buffered_span_ms : Z;
diag_ring_queued_frames : Z;
diag_ring_peak_queued_frames : Z;
diag_pending_frames : Z;
diag_prefill_frames : Z;
diag_ring_underruns : Z;
diag_ring_silence_filled_frames : Z;
diag_ring_full_events : Z
}.

Definition diagnostics (p : PlaybackPump) : PlaybackDiagnostics :=
  let jitter := p.(scheduler).(jitter_buffer).(jb_statistics) in
  let concealment := p.(scheduler).(concealment).(policy_statistics) in
  let ring := p.(pump_ring).(ring_telemetry) in
  {| diag_phase := phase p.(scheduler);
     diag_sync_locked := p.(sync_locked);
     diag_packets_accepted := jitter.(stat_accepted);
     diag_packets_emitted := jitter.(stat_emitted);
     diag_sequences_skipped := jitter.(stat_skipped);
     diag_wrong_session_rejections := jitter.(wrong_session_rejections);
     diag_wrong_stream_rejections := jitter.(wrong_stream_rejections);
     diag_late_rejections := jitter.(late_rejections);
     diag_duplicate_rejections := jitter.(duplicate_rejections);
     diag_reorder_window_rejections := jitter.(reorder_window_rejections);
     diag_buffered_duration_rejections := jitter.(buffered_duration_rejections);
     diag_resynchronisations := jitter.(resynchronisations);
     diag_dropped_before_sync := p.(dropped_before_sync);
     diag_concealed_packets := concealment.(total_concealed_packets);
     diag_concealment_driven_rebuffers := concealment.(hard_resync_signals);
     diag_offset_driven_rebuffers := p.(offset_driven_rebuffers);
     diag_hard_resync_signals :=
       saturating_add u64_max concealment.(hard_resync_signals) p.(offset_driven_rebuffers);
     diag_buffered_span_ms := buffered_span_ms p.(scheduler).(jitter_buffer);
     diag_ring_queued_frames := queued_frames p;
     diag_ring_peak_queued_frames := p.(peak_queued_frames);
     diag_pending_frames := pending_frames p;
     diag_prefill_frames := p.(prefill_frames);
     diag_ring_underruns := ring.(underrun_callbacks);
     diag_ring_silence_filled_frames := ring.(silence_filled_frames);
     diag_ring_full_events := ring.(ring_full_events) |}.

(** ** Histories *)

(** The audio callback: what [read_frames] supplies out of the ring. *)
Definition callback_read (output : list Z) (p : PlaybackPump) : list Z * PlaybackPump :=
  let '(r, output, outcome) := read_frames output p.(pump_ring) in
  (take (Z.to_nat (outcome.(frames_supplied) * RENDER_CHANNELS)) output, set_ring r p).

(** The samples a tick discards: those not yet in the ring when it notices that
    the output ran dry. *)
Definition output_underran (p : PlaybackPump) : bool :=
  p.(timeline_started)
  && (p.(last_observed_underrun_callbacks) <? p.(pump_ring).(ring_telemetry).(underrun_callbacks)).
Definition discarded_by_tick (p : PlaybackPump) : list Z :=
  if p.(sync_locked) && output_underran p then p.(pending) else [].

(** A scheduled frame on its way out: the samples of silence queued before it
    and the gain it is converted with. *)
Record Chunk : Type := mkChunk {
chunk_prefill : nat;
chunk_volume : f32;
chunk_frame : ScheduledFrame
}.

Definition render (c : Chunk) : list Z :=
  repeat 0 c.(chunk_prefill) ++ map (convert_sample c.(chunk_volume)) c.(chunk_frame).(frame_samples).
Definition rendered (plan : list Chunk) : list Z := concat (map render plan).

(** The alignment owed to [frame]: the silence up to its deadline. *)
Definition prefill_samples (frame : ScheduledFrame) (now : Z) (p : PlaybackPump) : nat :=
  if negb p.(awaiting_prefill) then 0%nat
  else
    let deadline := local_time_for_host_ms p.(scheduler) frame.(frame_host_presentation_time_ms) in
    let lead := Z.min (saturating_sub deadline now) p.(pump_config).(max_prefill_ms) in
    Z.to_nat ((alignment_frames lead p.(scheduler).(sch_config).(cfg_sample_rate) * RENDER_CHANNELS)
              mod (usize_max + 1)).

(** What a tick owes the listener for the scheduler's answer [r]: the frame it
    releases, if any, at the gain of that moment and behind its alignment. *)
Definition chunks_of_poll (now : Z) (r : SchedulerPoll) (p : PlaybackPump) : list Chunk :=
  map (fun frame => mkChunk (prefill_samples frame now p) p.(pump_config).(volume) frame)
    (frames_of_poll r).

(** The frames a tick takes from the scheduler. *)
Definition chunks_of_tick (now : Z) (p : PlaybackPump) : list Chunk :=
  if negb p.(sync_locked) then []
  else
    let p := realign_after_output_underrun now p in
    match p.(pending) with
    | _ :: _ => []
    | [] =>
        if p.(pump_config).(target_depth_frames) <=? queued_frames p then []
        else
          let '(r, s) := poll_with_release_horizon now
                           (saturating_add u64_max now p.(pump_config).(write_lead_ms)) p.(scheduler) in
          chunks_of_poll now r (set_scheduler s p)
    end.

(** The frames [finish] drains out of the scheduler. *)
Definition chunks_of_finish (p : PlaybackPump) : list Chunk :=
  map (mkChunk 0 p.(pump_config).(volume)) (drain_remaining p.(scheduler)).1.

(** One call on the pump or the ring's reading end: the packets it brings to the
    scheduler, the frames the scheduler answers with, the samples it takes out of
    the ring, the samples it discards. *)
Inductive pump_step :
  PlaybackPump -> list AudioDatagram -> list Chunk -> list Z -> list Z -> PlaybackPump -> Prop :=
| ps_submit p d :
    0 <= d.(audio_sequence) < u64_max ->
    pump_step p (if p.(sync_locked) then [d] else []) [] [] [] (pump_submit d p).2
| ps_tick p now :
    (realign_after_output_underrun now p).(scheduler).(jitter_buffer).(next_expected_sequence) + 10000
    < u64_max ->
    pump_step p [] (chunks_of_tick now p) [] (discarded_by_tick p) (tick now p).2
| ps_sync p offset : pump_step p [] [] [] [] (apply_sync_offset offset p).2
| ps_volume p v : pump_step p [] [] [] [] (set_volume v p).2
| ps_reanchor p h :
    pump_step p [] [] [] [] (set_scheduler (set_host_start_time_ms h p.(scheduler)) p)
| ps_finish p : pump_step p [] (chunks_of_finish p) [] [] (finish p).2
| ps_callback p output :
    pump_step p [] [] (callback_read output p).1 [] (callback_read output p).2.

Inductive pump_run (p0 : PlaybackPump) :
  list AudioDatagram -> list Chunk -> list Z -> list Z -> PlaybackPump -> Prop :=
| pump_start : pump_run p0 [] [] [] [] p0
| pump_next submitted plan heard discarded p sub chunks h d p' :
    pump_run p0 submitted plan heard discarded p -> pump_step p sub chunks h d p' ->
    pump_run p0 (submitted ++ sub) (plan ++ chunks) (heard ++ h) (discarded ++ d) p'.

(** ** What each operation moves *)

(** Samples given to the ring or waiting for it. *)
Definition position (p : PlaybackPump) : Z := p.(pump_ring).(write_index) * 2 + len p.(pending).

(** [n] more samples do not bring the ring's indices to the wrap. *)
Definition has_room (n : Z) (p : PlaybackPump) : Prop :=
  position p + n + p.(pump_ring).(ring_capacity) * 2 <= usize_max * 2.

(** [p'] has queued [xs] behind what [p] had in the ring and pending. *)
Definition delivers (p p' : PlaybackPump) (xs : list Z) : Prop :=
  p'.(pump_ring).(ring_capacity) = p.(pump_ring).(ring_capacity)
  /\ forall q, ring_holds p.(pump_ring) q -> has_room (len xs) p ->
     position p' = position p + len xs
     /\ exists q', ring_holds p'.(pump_ring) q' /\ q' ++ p'.(pending) = q ++ p.(pending) ++ xs.

Lemma delivers_same (p p' : PlaybackPump) :
  p'.(pump_ring) = p.(pump_ring) -> p'.(pending) = p.(pending) -> delivers p p' [].
Proof.
  intros Hr Hp. unfold delivers, position. rewrite Hr, Hp, len_nil. split; [done|]. intros q Hq _.
  split; [lia|]. exists q. by rewrite app_nil_r.
Qed.

Lemma delivers_trans (p1 p2 p3 : PlaybackPump) (xs ys : list Z) :
  delivers p1 p2 xs -> delivers p2 p3 ys -> delivers p1 p3 (xs ++ ys).
Proof.
  intros [C12 H12] [C23 H23]. split; [congruence|]. intros q Hq. unfold has_room in *. rewrite len_app.
  intros Hroom. pose proof (len_nonneg ys). destruct (H12 q Hq ltac:(lia)) as (P2 & q2 & Hq2 & E2).
  destruct (H23 q2 Hq2 ltac:(rewrite C12; lia)) as (P3 & q3 & Hq3 & E3). split; [lia|].
  exists q3. split; [done|]. rewrite E3, (assoc_L (++)), E2, <- !(assoc_L (++)). done.
Qed.

(** Everything but the queues and the depth statistics is as before. *)
Definition same_control (p p' : PlaybackPump) : Prop :=
  p'.(scheduler) = p.(scheduler) /\ p'.(pump_config) = p.(pump_config)
  /\ p'.(sync_locked) = p.(sync_locked) /\ p'.(pump_offset_ms) = p.(pump_offset_ms).

Lemma same_control_refl (p : PlaybackPump) : same_control p p.
Proof. by split_and!. Qed.

Lemma same_control_trans (p1 p2 p3 : PlaybackPump) :
  same_control p1 p2 -> same_control p2 p3 -> same_control p1 p3.
Proof. unfold same_control. naive_solver congruence. Qed.

Lemma flush_pending_facts (p : PlaybackPump) :
  delivers p (flush_pending p).2 [] /\ same_control p (flush_pending p).2.
Proof.
  unfold flush_pending. destruct (pending p) as [|x l] eqn:Ep.
  { split; [by apply delivers_same|apply same_control_refl]. }
  rewrite <- Ep. destruct (push_frames (pending p) (pump_ring p)) as [r n] eqn:E. cbn [snd].
  split; [|destruct (0 <? n); by split_and!]. set (n' := Z.to_nat (n * RENDER_CHANNELS)).
  set (p' := set_peak_queued _ _).
  assert (p'.(pump_ring) = r /\ p'.(pending) = drop n' p.(pending)) as [Er Ed].
  { unfold p', n'. destruct (0 <? n) eqn:Hn; cbn; [done|]. apply Z.ltb_ge in Hn. split; [done|].
    by rewrite Z2Nat.nonpos by (unfold RENDER_CHANNELS; lia). }
  assert (len (take n' (pending p)) + len (drop n' (pending p)) = len (pending p)) as Hl
    by (unfold len; rewrite length_take, length_drop; lia).
  pose proof (len_nonneg (drop n' (pending p))).
  split; [rewrite Er; exact (push_keeps _ _ _ _ E)|].
  intros q Hq Hroom. unfold has_room, position in *. rewrite len_nil in *.
  destruct (push_holds _ _ _ _ _ Hq E) as (Hh & Hw & _); [fold n'; lia|]. fold n' in Hh, Hw.
  rewrite Er, Ed. split; [lia|]. eexists. split; [exact Hh|].
  by rewrite app_nil_r, <- (assoc_L (++)), take_drop.
Qed.

Lemma enqueue_frame_facts (frame : ScheduledFrame) (p : PlaybackPump) :
  delivers p (enqueue_frame frame p).2
    (map (convert_sample p.(pump_config).(volume)) frame.(frame_samples))
  /\ same_control p (enqueue_frame frame p).2.
Proof.
  unfold enqueue_frame. destruct (flush_pending_facts
    (set_pending (pending p ++ map (convert_sample (volume (pump_config p))) (frame_samples frame)) p))
    as [Hd Hc]. split; [|by eapply same_control_trans; [|exact Hc]].
  destruct Hd as [Hcap Hd]. split; [exact Hcap|]. intros q Hq Hroom. unfold has_room, position in *.
  cbn [set_pending pump_ring pending] in *. rewrite len_app, len_nil in Hd.
  destruct (Hd q Hq ltac:(lia)) as (Hp & q' & Hq' & E). split; [lia|]. exists q'. split; [done|].
  by rewrite E, app_nil_r.
Qed.

Lemma alignment_frames_none (sample_rate : Z) : alignment_frames 0 sample_rate = 0.
Proof. unfold alignment_frames. rewrite Z.mul_0_l. by destruct t. Qed.

Lemma queue_alignment_prefill_facts (frame : ScheduledFrame) (now : Z) (p : PlaybackPump) :
  same_control p (queue_alignment_prefill frame now p)
  /\ delivers p (queue_alignment_prefill frame now p) (repeat 0 (prefill_samples frame now p)).
Proof.
  unfold queue_alignment_prefill, prefill_samples. destruct (awaiting_prefill p); cbn [negb].
  2: { split; [apply same_control_refl|by apply delivers_same]. }
  cbn [set_prefill scheduler pump_config].
  set (lead := Z.min _ _). destruct (Z.eqb_spec lead 0) as [->|_].
  { rewrite alignment_frames_none. split; [by split_and!|]. by apply delivers_same. }
  split; [by split_and!|]. split; [done|]. intros q Hq _.
  unfold position. cbn [set_pending set_prefill pump_ring pending]. rewrite len_app. split; [lia|].
  exists q. by split.
Qed.

Lemma enqueue_all_facts (frames : list ScheduledFrame) (written : Z) (p : PlaybackPump) :
  delivers p (enqueue_all frames written p).2
    (rendered (map (mkChunk 0 p.(pump_config).(volume)) frames))
  /\ same_control p (enqueue_all frames written p).2.
Proof.
  revert written p. induction frames as [|f frames IH]; intros written p; cbn [enqueue_all map].
  { split; [by apply delivers_same|apply same_control_refl]. }
  pose proof (enqueue_frame_facts f p) as [Hd Hc].
  destruct (enqueue_frame f p) as [n p1]. cbn [snd] in *. destruct (IH (written + n) p1) as [Hd' Hc'].
  split; [|by eapply same_control_trans]. rewrite <- (proj1 (proj2 Hc)).
  eapply delivers_trans; [rewrite (proj1 (proj2 Hc)); exact Hd|exact Hd'].
Qed.

(** ** The scheduler's part of a step *)

Section Runs.

Definition reaches (s : PlaybackScheduler) (sub : list AudioDatagram) (fr : list ScheduledFrame)
  (s' : PlaybackScheduler) : Prop :=
  forall s0 submitted frames, sched_run s0 submitted frames s ->
  sched_run s0 (submitted ++ sub) (frames ++ fr) s'.

Lemma reaches_refl (s : PlaybackScheduler) : reaches s [] [] s.
Proof. intros s0 submitted frames H. by rewrite !app_nil_r. Qed.

Lemma reaches_step (s s' : PlaybackScheduler) (sub : list AudioDatagram) (fr : list ScheduledFrame) :
  sched_step s sub fr s' -> reaches s sub fr s'.
Proof. intros H s0 submitted frames Hr. by eapply sched_next. Qed.

Lemma reaches_silent (s s1 s2 : PlaybackScheduler) (sub : list AudioDatagram)
  (fr : list ScheduledFrame) :
  reaches s sub fr s1 -> sched_step s1 [] [] s2 -> reaches s sub fr s2.
Proof.
  intros H1 H2 s0 submitted frames Hr. rewrite <- (app_nil_r (submitted ++ sub)), <- (app_nil_r (frames ++ fr)).
  eapply sched_next; [|done]. by apply H1.
Qed.

Lemma handle_poll_facts (now : Z) (r : SchedulerPoll) (p : PlaybackPump) :
  let p' := (handle_poll now r p).2 in
  (p'.(scheduler) = p.(scheduler) \/ p'.(scheduler) = rebuffer p.(pump_offset_ms) p.(scheduler))
  /\ delivers p p' (rendered (chunks_of_poll now r p)).
Proof.
  destruct r as [b|frame h|h| |]; cbn [handle_poll];
    try (split; [by (left + right)|by apply delivers_same]).
  destruct (queue_alignment_prefill_facts frame now p) as [Hc Hd].
  pose proof (enqueue_frame_facts frame (queue_alignment_prefill frame now p)) as [Hd' Hc'].
  destruct (enqueue_frame frame _) as [m p1]. cbn [snd] in *.
  pose proof (delivers_trans _ _ _ _ _ Hd Hd') as Hd''.
  pose proof (same_control_trans _ _ _ Hc Hc') as [Hs _].
  assert (forall out, ((let p2 := set_timeline_started p1 in
    match pending p2 with [] => (out, p2) | _ :: _ => (TickRingFull (pending_frames p2), p2) end).2
    = set_timeline_started p1)) as E by (intros out; cbn; by destruct (pending p1)).
  cbv zeta in E. rewrite E. split; [left; exact Hs|].
  unfold rendered, render, chunks_of_poll. cbn. rewrite app_nil_r.
  destruct Hc as (_ & Ec & _). rewrite Ec in Hd''. exact Hd''.
Qed.

Lemma tick_unfold (now : Z) (p : PlaybackPump) :
  p.(sync_locked) = true -> tick now p = tick_body now (realign_after_output_underrun now p).
Proof. intros H. unfold tick. by rewrite H. Qed.

Lemma chunks_of_poll_frames (now : Z) (r : SchedulerPoll) (p : PlaybackPump) :
  map chunk_frame (chunks_of_poll now r p) = frames_of_poll r.
Proof. unfold chunks_of_poll. by rewrite map_map, map_id. Qed.

(** A tick that has passed the clock gate takes its chunks from the scheduler and
    delivers them. *)
Lemma tick_facts (now : Z) (p : PlaybackPump) :
  p.(sync_locked) = true ->
  let p1 := realign_after_output_underrun now p in
  p1.(scheduler).(jitter_buffer).(next_expected_sequence) + 10000 < u64_max ->
  reaches p1.(scheduler) [] (map chunk_frame (chunks_of_tick now p)) (tick now p).2.(scheduler)
  /\ delivers p1 (tick now p).2 (rendered (chunks_of_tick now p)).
Proof.
  intros Hl p1 Hmax. rewrite (tick_unfold _ _ Hl). unfold chunks_of_tick. rewrite Hl. cbn [negb].
  fold p1. clearbody p1. clear p Hl. rename p1 into p. unfold tick_body.
  destruct (pending p) as [|x l] eqn:Ep.
  - cbn [set_peak_queued pump_config scheduler]. destruct (_ <=? _).
    { split; [apply reaches_refl|by apply delivers_same]. }
    set (horizon := saturating_add _ _ _).
    pose proof (ss_poll p.(scheduler) now horizon Hmax) as Hs.
    destruct (poll_with_release_horizon now horizon (scheduler p)) as [r s]. cbn [fst snd] in Hs.
    destruct (handle_poll_facts now r (set_scheduler s (set_peak_queued
      (Z.max (peak_queued_frames p) (queued_frames p)) p))) as [Hsch Hd].
    rewrite chunks_of_poll_frames. split; [|exact Hd]. apply reaches_step in Hs.
    destruct Hsch as [-> | ->]; [exact Hs|]. eapply reaches_silent; [exact Hs|]. apply ss_rebuffer.
  - pose proof (flush_pending_facts p) as [Hd [Hs _]]. destruct (flush_pending p) as [n p1]. cbn [snd] in *.
    assert (p1 = (match pending p1 with [] => (TickFlushedPending n, p1)
                  | _ :: _ => (TickRingFull (pending_frames p1), p1) end).2) as <-
      by (by destruct (pending p1)).
    rewrite Hs. split; [apply reaches_refl|exact Hd].
Qed.

(** ** The invariant of a run *)

Context (s0 : PlaybackScheduler) (capacity : Z).

(** The plan of a run is what the scheduler yielded; while it is short of the
    wrap, what was heard, the ring and the pending samples are the plan less what
    was discarded. *)
Definition pump_ok (submitted : list AudioDatagram) (plan : list Chunk) (heard discarded : list Z)
  (p : PlaybackPump) : Prop :=
  sched_run s0 submitted (map chunk_frame plan) p.(scheduler)
  /\ p.(pump_ring).(ring_capacity) = capacity
  /\ (len (rendered plan) + capacity * 2 <= usize_max * 2 ->
      position p <= len (rendered plan)
      /\ exists queue, ring_holds p.(pump_ring) queue
         /\ (heard ++ queue ++ p.(pending)) `sublist_of` rendered plan
         /\ len (rendered plan) = len (heard ++ queue ++ p.(pending)) + len discarded).

Lemma rendered_app (plan plan' : list Chunk) : rendered (plan ++ plan') = rendered plan ++ rendered plan'.
Proof. unfold rendered. by rewrite map_app, concat_app. Qed.

Lemma pump_ok_extend (submitted sub : list AudioDatagram) (plan chunks : list Chunk)
  (heard discarded : list Z) (p p' : PlaybackPump) :
  pump_ok submitted plan heard discarded p ->
  reaches p.(scheduler) sub (map chunk_frame chunks) p'.(scheduler) ->
  delivers p p' (rendered chunks) ->
  pump_ok (submitted ++ sub) (plan ++ chunks) heard discarded p'.
Proof.
  intros (Hrun & Hcap & Hok) Hr [Hc Hd]. unfold pump_ok. rewrite map_app, rendered_app, len_app.
  split; [by apply Hr|]. split; [congruence|]. intros Hroom. pose proof (len_nonneg (rendered chunks)).
  destruct (Hok ltac:(lia)) as (Hpos & q & Hq & Hsub & Hlen).
  destruct (Hd q Hq) as (Hpos' & q' & Hq' & E); [unfold has_room; lia|]. split; [lia|].
  exists q'. rewrite E, !(assoc_L (++)) in *. split; [done|]. split; [by apply sublist_app|].
  unfold len in *. rewrite !length_app in *. lia.
Qed.

Lemma pump_ok_same (submitted sub : list AudioDatagram) (plan : list Chunk) (heard discarded : list Z)
  (p p' : PlaybackPump) :
  pump_ok submitted plan heard discarded p ->
  reaches p.(scheduler) sub [] p'.(scheduler) ->
  p'.(pump_ring) = p.(pump_ring) -> p'.(pending) = p.(pending) ->
  pump_ok (submitted ++ sub) plan heard discarded p'.
Proof.
  intros H Hr Hring Hp. rewrite <- (app_nil_r plan).
  eapply pump_ok_extend; [done|done|by apply delivers_same].
Qed.

Lemma pump_ok_realign (submitted : list AudioDatagram) (plan : list Chunk) (heard discarded : list Z)
  (now : Z) (p : PlaybackPump) :
  p.(sync_locked) = true -> pump_ok submitted plan heard discarded p ->
  pump_ok submitted plan heard (discarded ++ discarded_by_tick p) (realign_after_output_underrun now p).
Proof.
  intros Hl Hok. unfold discarded_by_tick, output_underran, realign_after_output_underrun. rewrite Hl.
  cbn [andb]. destruct (timeline_started p); cbn [negb andb]; [|by rewrite app_nil_r].
  rewrite Z.leb_antisym. destruct (_ <? _); cbn [negb]; [|by rewrite app_nil_r].
  destruct Hok as (Hrun & Hcap & Hok). split; [|split; [exact Hcap|]].
  - rewrite <- (app_nil_r submitted), <- (app_nil_r (map chunk_frame plan)).
    eapply sched_next; [done|apply ss_realign].
  - intros Hroom. destruct (Hok Hroom) as (Hpos & q & Hq & Hsub & Hlen).
    unfold position in *. cbn [set_scheduler set_prefill set_pending set_observed_underruns pump_ring pending].
    rewrite len_nil. pose proof (len_nonneg (pending p)). split; [lia|]. exists q. split_and!; [done| |].
    + etrans; [|exact Hsub]. apply sublist_app; [done|]. apply sublist_app; [done|]. apply sublist_nil_l.
    + unfold len in *. rewrite !length_app in *. cbn. lia.
Qed.

Lemma apply_sync_offset_facts (offset : f64) (p : PlaybackPump) :
  let p' := (apply_sync_offset offset p).2 in
  reaches p.(scheduler) [] [] p'.(scheduler)
  /\ p'.(pump_ring) = p.(pump_ring) /\ p'.(pending) = p.(pending).
Proof.
  unfold apply_sync_offset. destruct (f64_is_finite offset); cbn [negb].
  2: { split_and!; [apply reaches_refl|done|done]. }
  destruct (sync_locked p); cbn [negb].
  2: { split_and!; [apply reaches_step, ss_rebuffer|done|done]. }
  destruct (f64_ltb _ _).
  - pose proof (ss_offset (scheduler p) offset) as Hs. cbn [set_sync scheduler].
    destruct (apply_offset_update offset (scheduler p)) as [[] s]; cbn [snd] in *;
      split_and!; try done; [by apply reaches_step|].
    eapply reaches_silent; [by apply reaches_step|apply ss_rebuffer].
  - cbn [set_sync scheduler pump_offset_ms].
    set (o := f64_add _ _). pose proof (ss_offset (scheduler p) o) as Hs.
    destruct (apply_offset_update o (scheduler p)) as [oc s]. cbn [snd] in *.
    split_and!; [by apply reaches_step|done|done].
Qed.

Lemma finish_facts (p : PlaybackPump) :
  reaches p.(scheduler) [] (map chunk_frame (chunks_of_finish p)) (finish p).2.(scheduler)
  /\ delivers p (finish p).2 (rendered (chunks_of_finish p)).
Proof.
  unfold finish, chunks_of_finish. pose proof (ss_drain (scheduler p)) as Hs.
  destruct (drain_remaining (scheduler p)) as [drained s]. cbn [fst snd] in *.
  pose proof (enqueue_all_facts drained 0 (set_scheduler s p)) as [Hd [Hc _]].
  destruct (enqueue_all drained 0 (set_scheduler s p)) as [w p1]. cbn [snd] in *.
  split; [|exact Hd]. rewrite map_map, map_id. cbn [set_scheduler scheduler] in *. rewrite Hc.
  eapply reaches_silent; [by apply reaches_step|apply ss_stop].
Qed.

Lemma callback_ok (submitted : list AudioDatagram) (plan : list Chunk) (heard discarded output : list Z)
  (p : PlaybackPump) :
  pump_ok submitted plan heard discarded p ->
  pump_ok submitted plan (heard ++ (callback_read output p).1) discarded (callback_read output p).2.
Proof.
  intros (Hrun & Hcap & Hok). unfold callback_read.
  destruct (read_frames output (pump_ring p)) as [[r out] outcome] eqn:E.
  destruct (read_keeps _ _ _ _ _ E) as [Hw Hc]. split; [done|]. split; [cbn; congruence|].
  intros Hroom. destruct (Hok Hroom) as (Hpos & q & Hq & Hsub & Hlen).
  pose proof (len_nonneg (pending p)). unfold position in *.
  destruct (read_holds _ _ _ _ _ _ Hq ltac:(unfold ring_room; lia) E) as (q' & -> & Hq').
  cbn [fst snd set_ring pump_ring pending]. rewrite Hw. split; [exact Hpos|]. exists q'.
  rewrite <- !(assoc_L (++)) in *. done.
Qed.

Lemma pump_step_ok (submitted sub : list AudioDatagram) (plan chunks : list Chunk)
  (heard h discarded d : list Z) (p p' : PlaybackPump) :
  pump_ok submitted plan heard discarded p -> pump_step p sub chunks h d p' ->
  pump_ok (submitted ++ sub) (plan ++ chunks) (heard ++ h) (discarded ++ d) p'.
Proof.
  intros Hok Hstep. destruct Hstep as [p dg Hdg|p now Hmax|p o|p v|p hs|p|p output];
    try rewrite (app_nil_r heard); try rewrite (app_nil_r discarded); try rewrite (app_nil_r plan).
  - unfold pump_submit. destruct (sync_locked p); cbn [negb].
    + pose proof (ss_submit (scheduler p) dg Hdg) as Hs.
      destruct (submit_packet dg (scheduler p)) as [r s]. cbn [snd] in *.
      eapply pump_ok_same; [done|by apply reaches_step|done|done].
    + eapply pump_ok_same; [done|apply reaches_refl|done|done].
  - destruct (sync_locked p) eqn:Hl.
    + destruct (tick_facts now p Hl Hmax) as [Hr Hd].
      eapply pump_ok_extend; [by apply pump_ok_realign|exact Hr|exact Hd].
    + unfold tick, discarded_by_tick, chunks_of_tick. rewrite Hl. cbn [negb snd andb]. by rewrite !app_nil_r.
  - destruct (apply_sync_offset_facts o p) as (Hr & Hring & Hp). by eapply pump_ok_same.
  - unfold set_volume. destruct (_ || _); (eapply pump_ok_same; [done|apply reaches_refl|done|done]).
  - eapply pump_ok_same; [done|apply reaches_step, ss_host_start|done|done].
  - destruct (finish_facts p) as [Hr Hd]. by eapply pump_ok_extend.
  - rewrite (app_nil_r submitted). by apply callback_ok.
Qed.

Lemma pump_run_ok (p0 p : PlaybackPump) (submitted : list AudioDatagram) (plan : list Chunk)
  (heard discarded : list Z) :
  pump_ok [] [] [] [] p0 -> pump_run p0 submitted plan heard discarded p ->
  pump_ok submitted plan heard discarded p.
Proof.
  intros H0. induction 1 as [|submitted plan heard discarded p sub chunks h d p' Hrun IH Hs]; [done|].
  by eapply pump_step_ok.
Qed.
End Runs.

(** ** Before synchronization *)

(** Nothing of the stream has been touched. *)
Record untouched (heard : list Z) (p : PlaybackPump) : Prop := mkUntouched {
ut_heard : heard = [];
ut_pending : p.(pending) = [];
ut_ring : ring_holds p.(pump_ring) [];
ut_room : ring_room p.(pump_ring);
ut_packets : p.(scheduler).(jitter_buffer).(jb_packets) = []
}.

Lemma drain_empty (s : PlaybackScheduler) :
  s.(jitter_buffer).(jb_packets) = [] ->
  (drain_remaining s).1 = [] /\ (drain_remaining s).2.(jitter_buffer).(jb_packets) = [].
Proof.
  intros Hp. destruct (drain_remaining_meta s) as (Hm & Hj & _). split.
  - rewrite Hp in Hm. by destruct (drain_remaining s).1.
  - rewrite Hj. unfold drain_all. by destruct (drain_scan _ _ _).
Qed.

Lemma finish_untouched (heard : list Z) (p : PlaybackPump) :
  untouched heard p -> untouched heard (finish p).2 /\ (finish p).2.(sync_locked) = p.(sync_locked).
Proof.
  intros [Hh Hp Hr Hroom Hj]. destruct (drain_empty _ Hj) as [Hd Hj']. unfold finish.
  destruct (drain_remaining (scheduler p)) as [drained s]. cbn [fst snd] in *. subst drained.
  cbn [enqueue_all snd]. by split.
Qed.

(** The clock gate is moved by [apply_sync_offset] only. *)
Definition same_clock (p p' : PlaybackPump) : Prop :=
  p'.(sync_locked) = p.(sync_locked) /\ p'.(pump_offset_ms) = p.(pump_offset_ms).

Lemma same_control_clock (p p' : PlaybackPump) : same_control p p' -> same_clock p p'.
Proof. by intros (_ & _ & ? & ?). Qed.

Lemma realign_clock (now : Z) (p : PlaybackPump) : same_clock p (realign_after_output_underrun now p).
Proof. unfold realign_after_output_underrun. destruct (negb _); [done|]. by destruct (_ <=? _). Qed.

Lemma tick_clock (now : Z) (p : PlaybackPump) : same_clock p (tick now p).2.
Proof.
  unfold tick. destruct (sync_locked p) eqn:E; cbn [negb]; [|by split].
  pose proof (realign_clock now p) as [H1 H2]. set (p1 := realign_after_output_underrun now p) in *.
  enough (same_clock p1 (tick_body now p1).2) as [H3 H4] by (split; congruence). clear H1 H2.
  unfold tick_body. destruct (pending p1).
  - destruct (_ <=? _); [done|]. destruct (poll_with_release_horizon _ _ _) as [r s'].
    destruct r as [| frame h | | |]; try done. cbn [handle_poll].
    set (p2 := set_scheduler _ _).
    destruct (queue_alignment_prefill_facts frame now p2) as [H1 _].
    pose proof (enqueue_frame_facts frame (queue_alignment_prefill frame now p2)) as [_ H2].
    destruct (enqueue_frame _ _) as [n p3]. cbn [snd] in *.
    pose proof (same_control_clock _ _ (same_control_trans _ _ _ H1 H2)) as [H3 H4].
    cbn [set_timeline_started pending]. by destruct (pending p3).
  - pose proof (flush_pending_facts p1) as [_ H]. destruct (flush_pending p1) as [n p2].
    apply same_control_clock in H. cbn [snd] in H. by destruct (pending p2).
Qed.

Lemma finish_clock (p : PlaybackPump) : same_clock p (finish p).2.
Proof.
  unfold finish. destruct (drain_remaining _) as [drained s].
  pose proof (enqueue_all_facts drained 0 (set_scheduler s p)) as [_ H].
  destruct (enqueue_all _ _ _) as [w p1]. by apply same_control_clock in H.
Qed.

Lemma callback_untouched (heard output : list Z) (p : PlaybackPump) :
  untouched heard p -> untouched (heard ++ (callback_read output p).1) (callback_read output p).2.
Proof.
  intros [-> Hp Hr Hroom Hj]. unfold callback_read.
  destruct (read_frames output (pump_ring p)) as [[r out] outcome] eqn:E.
  destruct (read_holds _ _ _ _ _ _ Hr Hroom E) as (q' & Hq & Hr'). symmetry in Hq.
  destruct (read_keeps _ _ _ _ _ E) as [Ew Ec].
  apply app_eq_nil in Hq as [Hq ->]. cbn [fst snd app]. rewrite Hq. split; try done.
  unfold ring_room in *. cbn. by rewrite Ew, Ec.
Qed.

Lemma sync_step (p p' : PlaybackPump) (sub : list AudioDatagram) (chunks : list Chunk)
  (heard h d : list Z) :
  pump_step p sub chunks h d p' -> p'.(sync_locked) = false ->
  p.(sync_locked) = false /\ (untouched heard p -> untouched (heard ++ h) p').
Proof.
  intros Hstep Hl. destruct Hstep as [p dg Hdg|p now Hmax|p o|p v|p hs|p|p output];
    rewrite ?app_nil_r.
  - unfold pump_submit in *. destruct (sync_locked p) eqn:E; cbn [negb] in *.
    + destruct (submit_packet dg (scheduler p)). cbn in Hl. congruence.
    + split; [done|]. by intros [].
  - pose proof (tick_clock now p) as [E _]. rewrite Hl in E. split; [done|].
    unfold tick. by rewrite <- E.
  - unfold apply_sync_offset in *. destruct (f64_is_finite o); cbn [negb] in *; [|done].
    destruct (sync_locked p) eqn:E; cbn [negb] in *; [|done]. exfalso.
    destruct (f64_ltb _ _); [|by destruct (apply_offset_update _ _)].
    by destruct (apply_offset_update _ _) as [[] s'].
  - unfold set_volume in *. destruct (_ || _); cbn in *; (split; [done|]); by intros [].
  - split; [done|]. by intros [].
  - split; [|by intros [H _]%finish_untouched]. by rewrite <- (proj1 (finish_clock p)).
  - split; [|by apply callback_untouched]. revert Hl. unfold callback_read.
    by destruct (read_frames _ _) as [[] ?].
Qed.

Lemma unlocked_untouched (p0 p : PlaybackPump) (submitted : list AudioDatagram) (plan : list Chunk)
  (heard discarded : list Z) :
  untouched [] p0 -> pump_run p0 submitted plan heard discarded p -> p.(sync_locked) = false ->
  untouched heard p.
Proof.
  intros H0. induction 1 as [|submitted plan heard discarded p sub chunks h d p' Hrun IH Hs]; intros Hl; [done|].
  destruct (sync_step _ _ _ _ heard _ _ Hs Hl) as [Hl' Hu]. by apply Hu, IH.
Qed.

(** ** The two copies of the clock offset *)

Lemma discard_head_offset (now : Z) (s : PlaybackScheduler) :
  (discard_already_late_head now s).(offset_ms) = s.(offset_ms).
Proof.
  unfold discard_already_late_head. generalize (discard_fuel (jitter_buffer s)). intros fuel.
  revert s. induction fuel as [|fuel IH]; intros s; cbn [discard_loop]; [done|].
  destruct (discard_iteration now s) as [s'|] eqn:E; [|done]. rewrite IH.
  unfold discard_iteration in E. destruct (jb_is_empty _); [done|]. destruct (_ <=? _); [done|].
  by injection E as <-.
Qed.

Lemma realign_offset (now : Z) (s : PlaybackScheduler) : (realign_to_now now s).(offset_ms) = s.(offset_ms).
Proof. exact (discard_head_offset now s). Qed.


Lemma deliver_slot_offset (s : PlaybackScheduler) : (deliver_slot s).2.(offset_ms) = s.(offset_ms).
Proof.
  unfold deliver_slot. destruct (pop_in_order _) as [[d|] b].
  - unfold deliver_real. cbn [set_jitter set_concealment fade_in_next_real_frame].
    by destruct (fade_in_next_real_frame s).
  - unfold deliver_concealed. destruct (conceal _ _ _) as [[samples []] pol]; done.
Qed.

Lemma playing_tick_offset (horizon : Z) (s : PlaybackScheduler) :
  (playing_tick horizon s).2.(offset_ms) = s.(offset_ms).
Proof.
  unfold playing_tick. destruct (_ <? _); [done|]. destruct (_ <? _); [|apply deliver_slot_offset].
  destruct (_ <? _); [done|]. by rewrite deliver_slot_offset.
Qed.

Lemma poll_offset (now horizon : Z) (s : PlaybackScheduler) :
  (poll_with_release_horizon now horizon s).2.(offset_ms) = s.(offset_ms).
Proof.
  unfold poll_with_release_horizon. destruct (sch_state s); try done; [|apply playing_tick_offset].
  unfold advance_buffering. destruct (_ && _); [done|]. cbv zeta.
  destruct (_ && _); cbn [snd]; [by rewrite discard_head_offset|].
  rewrite playing_tick_offset. cbn. by rewrite discard_head_offset.
Qed.

Definition offsets_agree (p : PlaybackPump) : Prop :=
  p.(sync_locked) = true -> p.(scheduler).(offset_ms) = p.(pump_offset_ms).

Lemma tick_offsets (now : Z) (p : PlaybackPump) : offsets_agree p -> offsets_agree (tick now p).2.
Proof.
  intros Ha Hl. destruct (tick_clock now p) as [El Eo]. rewrite El in Hl. rewrite Eo. specialize (Ha Hl).
  rewrite (tick_unfold _ _ Hl).
  destruct (realign_clock now p) as [_ Eo1]. rewrite <- Eo1. rewrite <- Eo1 in Ha.
  assert ((realign_after_output_underrun now p).(scheduler).(offset_ms) = p.(scheduler).(offset_ms)) as Hs.
  { unfold realign_after_output_underrun. destruct (negb _); [done|]. destruct (_ <=? _); [done|].
    apply realign_offset. }
  rewrite <- Hs in Ha. clear Hs Eo1 Eo El Hl. set (p1 := realign_after_output_underrun now p) in *.
  unfold tick_body. destruct (pending p1).
  - destruct (_ <=? _); [exact Ha|]. cbn [set_peak_queued scheduler pump_config].
    set (horizon := saturating_add _ _ _). pose proof (poll_offset now horizon (scheduler p1)) as Hp.
    destruct (poll_with_release_horizon now horizon (scheduler p1)) as [r s']. cbn [snd] in Hp.
    destruct (handle_poll_facts now r (set_scheduler s' (set_peak_queued
      (Z.max (peak_queued_frames p1) (queued_frames p1)) p1))) as [[-> | ->] _]; [|done].
    cbn [set_scheduler scheduler]. congruence.
  - pose proof (flush_pending_facts p1) as [_ [H _]]. destruct (flush_pending p1) as [n p2].
    cbn [snd] in H. rewrite <- H in Ha. by destruct (pending p2).
Qed.

Lemma sync_offsets (offset : f64) (p : PlaybackPump) : offsets_agree (apply_sync_offset offset p).2
  \/ (apply_sync_offset offset p).2 = p.
Proof.
  unfold apply_sync_offset, offsets_agree. destruct (f64_is_finite offset); cbn [negb]; [|by right].
  left. destruct (sync_locked p); cbn [negb]; [|done].
  destruct (f64_ltb _ _); cbn [set_sync scheduler]; unfold apply_offset_update; by destruct (f64_ltb _ _).
Qed.

Lemma step_offsets (p p' : PlaybackPump) (sub : list AudioDatagram) (chunks : list Chunk)
  (h d : list Z) :
  pump_step p sub chunks h d p' -> offsets_agree p -> offsets_agree p'.
Proof.
  intros Hstep Ha. destruct Hstep as [p dg Hdg|p now Hmax|p o|p v|p hs|p|p output].
  - unfold pump_submit. destruct (sync_locked p) eqn:E; cbn [negb]; [|exact Ha].
    unfold submit_packet. by destruct (accept _ _).
  - by apply tick_offsets.
  - destruct (sync_offsets o p) as [H| ->]; done.
  - unfold set_volume. by destruct (_ || _).
  - exact Ha.
  - intros Hl. destruct (finish_clock p) as [El Eo]. rewrite El in Hl. rewrite Eo, <- (Ha Hl).
    unfold finish. assert ((drain_remaining (scheduler p)).2.(offset_ms) = (scheduler p).(offset_ms)) as Hd.
    { unfold drain_remaining. by destruct (drain_all _). }
    destruct (drain_remaining _) as [drained s].
    pose proof (enqueue_all_facts drained 0 (set_scheduler s p)) as [_ [H _]].
    destruct (enqueue_all _ _ _) as [w p1]. cbn in *. by rewrite H.
  - unfold callback_read. by destruct (read_frames _ _) as [[] ?].
Qed.

Lemma run_offsets (p0 p : PlaybackPump) (submitted : list AudioDatagram) (plan : list Chunk)
  (heard discarded : list Z) :
  p0.(sync_locked) = false -> pump_run p0 submitted plan heard discarded p -> offsets_agree p.
Proof.
  intros H0. induction 1 as [|submitted plan heard discarded p sub chunks h d p' Hrun IH Hs].
  - unfold offsets_agree. congruence.
  - by eapply step_offsets.
Qed.
End Pump.

(** ** Properties *)

Section PumpProperties.
Context {t : target}.
Context (c : SchedulerConfig) (o : f64) (s0 : PlaybackScheduler).
Context (Hnew : PlaybackScheduler_new c o = Ok s0) (Htyped : config_typed c).
Context (rc : RenderRingConfig) (r0 : RingInner) (Hring : RenderRing_new rc = Ok r0).
Context (pc : PlaybackPumpConfig) (p0 : PlaybackPump) (Hpump : PlaybackPump_new s0 r0 pc = Ok p0).
Context (submitted : list AudioDatagram) (plan : list Chunk) (heard discarded : list Z).
Context (p : PlaybackPump) (Hrun : pump_run p0 submitted plan heard discarded p).

Lemma new_pump_facts :
  pump_ok s0 rc.(capacity_frames) [] [] [] [] p0 /\ untouched [] p0 /\ p0.(sync_locked) = false.
Proof.
  destruct (RenderRing_new_ok rc r0 Hring) as [Hcap Hr]. destruct (RenderRing_new_fresh _ _ Hring) as [Hz Hm].
  destruct (PlaybackScheduler_new_facts c o s0 Hnew Htyped) as (_ & _ & _ & _ & _ & Hh & _).
  unfold PlaybackPump_new in Hpump. destruct (volume_is_invalid _); [done|].
  destruct (negb _); [done|]. destruct (_ || _); [done|]. injection Hpump as <-.
  assert (ring_holds r0 []) as Hq by (by exists 0, 0).
  split_and!; [|split; cbn; try done|done].
  - split; [constructor|]. split; [exact Hcap|]. intros _. unfold position. cbn. rewrite Hz.
    split; [lia|]. by exists [].
  - unfold ring_room, MAX_RING_CAPACITY_FRAMES in *. rewrite Hz.
    assert (480000 <= usize_max) by (by destruct t). lia.
  - destruct (jb_packets (jitter_buffer s0)) as [|[k d] l] eqn:E; [done|].
    destruct (Hh d) as [[] _]. left. rewrite E. by left.
Qed.

(** C2. From the network to the loudspeaker: let [plan] be the frames the pump's
    ticks and [finish] take out of the scheduler, in the order it yields them,
    each with the gain of that moment and the alignment silence owed before it.
    Whatever packets, ticks, clock corrections, gain changes, callbacks and stops
    follow each other, as long as the plan renders to at most
    [usize::MAX - capacity] stereo frames, the samples the audio callback has
    taken out of the ring, then those in its slots, then those still pending, are
    what the plan renders to, in order, less what the pump discarded when it
    found that the output had run dry: if that never happened, nothing is
    missing.  The planned frames have strictly increasing sequence numbers, and
    each not concealed one carries the PCM of a packet submitted for this session
    and stream, as it is or spliced at its ends by the configured ramp. *)
Theorem heard_audio_is_the_stream :
  len (rendered plan) <= (usize_max - rc.(capacity_frames)) * RENDER_CHANNELS ->
  let audible := heard ++ ring_contents p.(pump_ring) ++ p.(pending) in
  sched_run s0 submitted (map chunk_frame plan) p.(scheduler)
  /\ StronglySorted Z.lt (map frame_sequence (map chunk_frame plan))
  /\ (forall k, In k plan -> k.(chunk_frame).(frame_concealed) = false ->
        exists d, In d submitted /\ datagram_meta d = frame_meta k.(chunk_frame)
          /\ d.(audio_session_id) = c.(cfg_session_id) /\ d.(audio_stream_id) = c.(cfg_stream_id)
          /\ carries_pcm (Z.to_nat c.(cfg_channels)) s0.(ramp_frames) d k.(chunk_frame))
  /\ audible `sublist_of` rendered plan
  /\ len (rendered plan) = len audible + len discarded
  /\ (discarded = [] -> audible = rendered plan).
Proof.
  intros Hroom. unfold RENDER_CHANNELS in Hroom. cbv zeta. destruct new_pump_facts as (Hok & _ & _).
  apply (pump_run_ok s0 (capacity_frames rc) p0 p) in Hrun; [|exact Hok]. destruct Hrun as (Hs & _ & Hpump').
  destruct (Hpump' ltac:(lia)) as (_ & q & Hq & Hsub & Hlen). rewrite (ring_holds_contents _ _ Hq).
  destruct (reachable_facts c o s0 Hnew Htyped _ _ _ Hs) as [_ _ _ _ Hsort _].
  destruct (new_identity c o s0 Hnew _ _ _ Hs) as [Hse Hst].
  destruct (PlaybackScheduler_new_facts c o s0 Hnew Htyped) as (Hs0 & _ & Hc & _ & _ & Hh & _).
  destruct (sched_run_carries _ _ _ _ Hs Hs0 Hh) as [_ Hf].
  split_and!; [done|done| |done|done|].
  - intros k Hk Hreal. rewrite <- Hse, <- Hst, <- Hc. apply Hf; [by apply in_map|done].
  - intros ->. apply sublist_full; [done|]. unfold len in Hlen. cbn in Hlen. lia.
Qed.

(** Nothing plays before synchronization: as long as no clock offset has
    been accepted, the audio callback gets silence only, and no packet, frame or
    sample is held anywhere, whatever arrived meanwhile. *)
Lemma nothing_plays_before_sync :
  p.(sync_locked) = false ->
  heard = [] /\ available_frames p.(pump_ring) = 0 /\ p.(pending) = []
  /\ p.(scheduler).(jitter_buffer).(jb_packets) = [] /\ submitted = [].
Proof.
  intros Hl. destruct new_pump_facts as (_ & Hu & _).
  destruct (unlocked_untouched _ _ _ _ _ _ Hu Hrun Hl) as [Hh Hp Hr _ Hj].
  split_and!; try done.
  - apply ring_holds_length in Hr. rewrite len_nil in Hr. unfold RENDER_CHANNELS in Hr. lia.
  - clear - Hrun Hl. induction Hrun as [|sub pl he di p1 sub' ch h d p2 Hr IH Hs]; [done|].
    destruct (sync_step _ _ _ _ he _ _ Hs Hl) as [Hl' _]. rewrite (IH Hr Hl').
    destruct Hs; try done. cbn. by rewrite Hl'.
Qed.

(** The pump and its scheduler keep one clock: once synchronized, both hold
    the same offset after every operation, so a correction beyond the threshold
    always rebuffers, at the new offset and with the alignment to be redone,
    and is never taken for a small one. *)
Lemma clock_is_shared (offset : f64) :
  p.(sync_locked) = true -> f64_is_finite offset = true ->
  let delta := f64_abs (f64_sub offset p.(pump_offset_ms)) in
  let p' := (apply_sync_offset offset p).2 in
  p.(scheduler).(offset_ms) = p.(pump_offset_ms)
  /\ p'.(scheduler).(offset_ms) = p'.(pump_offset_ms)
  /\ (f64_ltb p.(scheduler).(sch_config).(cfg_hard_resync_threshold_ms) delta = true ->
      (apply_sync_offset offset p).1 = SyncRebuffered /\ p'.(pump_offset_ms) = offset
      /\ p'.(scheduler).(sch_state) = SBuffering /\ p'.(awaiting_prefill) = true).
Proof.
  intros Hl Hf. cbv zeta. destruct new_pump_facts as (_ & _ & H0).
  pose proof (run_offsets p0 p _ _ _ _ H0 Hrun) as Ha. split; [by apply Ha|]. split.
  - destruct (sync_offsets offset p) as [H|E]; [|rewrite E; by apply Ha]. apply H.
    unfold apply_sync_offset. rewrite Hf, Hl. cbn [negb].
    destruct (f64_ltb _ _); destruct (apply_offset_update _ _) as [[] ?]; done.
  - intros Hd. unfold apply_sync_offset. rewrite Hf, Hl, Hd. cbn [negb set_sync scheduler].
    unfold apply_offset_update. cbn [set_offset sch_config]. rewrite (Ha Hl), Hd. done.
Qed.
End PumpProperties.

(** ** Corrections of the clock *)

(** Offsets on a common grid of [2^-g] ms, on which the arithmetic is exact: [a]
    stands for [a * 2^-g] ms. *)
Section Slew.
Context (g : Z) (Hg : 0 <= g <= 50).

(** Five milliseconds. *)
Definition soft_step : Z := 5 * 2 ^ g.

Lemma slew_grid : grid g.
Proof. unfold grid. lia. Qed.

Lemma soft_step_bounds : 5 <= soft_step < 2 ^ 53.
Proof.
  unfold soft_step. pose proof (Z.pow_le_mono_r 2 g 50 ltac:(lia) ltac:(lia)).
  pose proof (Z.pow_pos_nonneg 2 g ltac:(lia) ltac:(lia)). change (2 ^ 50) with 1125899906842624 in *.
  change (2 ^ 53) with 9007199254740992. lia.
Qed.

Lemma soft_steps_dyadic :
  MAX_SOFT_OFFSET_STEP_MS = f64_dyadic g soft_step
  /\ NEG_SOFT_OFFSET_STEP_MS = f64_dyadic g (- soft_step).
Proof.
  pose proof slew_grid as Hgrid. unfold soft_step.
  pose proof (fun z => f64_dyadic_refine 0 g z grid_0 ltac:(lia)) as Hr. rewrite Z.add_0_r in Hr.
  specialize (fun z => Hr z Hgrid) as Hr. split; symmetry; [exact (Hr 5 ltac:(done))|].
  rewrite <- Z.mul_opp_l. exact (Hr (-5) ltac:(done)).
Qed.

(** One correction towards [b]. *)
Definition slewed (a b : Z) : Z := a + Z.max (- soft_step) (Z.min soft_step (b - a)).

Lemma clamp_soft (d : Z) :
  Z.abs d < 2 ^ 53 ->
  f64_clamp (f64_dyadic g d) NEG_SOFT_OFFSET_STEP_MS MAX_SOFT_OFFSET_STEP_MS
  = f64_dyadic g (Z.max (- soft_step) (Z.min soft_step d)).
Proof.
  intros Hd. destruct soft_steps_dyadic as [-> ->]. pose proof soft_step_bounds. pose proof slew_grid.
  unfold f64_clamp. rewrite !f64_ltb_dyadic by (done || lia).
  destruct (Z.ltb_spec d (- soft_step)); [by rewrite Z.max_l by lia|].
  destruct (Z.ltb_spec soft_step d); f_equal; lia.
Qed.

(** A pump synchronized at [a]. *)
Record synced_at (a : Z) (p : PlaybackPump) : Prop := mkSyncedAt {
sy_locked : p.(sync_locked) = true;
sy_pump : p.(pump_offset_ms) = f64_dyadic g a;
sy_scheduler : p.(scheduler).(offset_ms) = f64_dyadic g a
}.

(** [d] is not beyond the threshold. *)
Definition within_threshold (d : Z) (p : PlaybackPump) : Prop :=
  f64_ltb p.(scheduler).(sch_config).(cfg_hard_resync_threshold_ms) (f64_dyadic g (Z.abs d)) = false.

Lemma within_less (d d' : Z) (p : PlaybackPump) :
  within_threshold d p -> Z.abs d' <= Z.abs d < 2 ^ 53 -> within_threshold d' p.
Proof.
  intros H Hd. pose proof slew_grid. eapply f64_ltb_below; [| |exact H].
  - apply f64_dyadic_not_nan; [done|lia].
  - rewrite f64_leb_dyadic by (done || lia). apply Z.leb_le. lia.
Qed.

Lemma slew_step (a b : Z) (p : PlaybackPump) :
  synced_at a p -> Z.abs a < 2 ^ 53 -> Z.abs b < 2 ^ 53 -> Z.abs (b - a) < 2 ^ 53 ->
  within_threshold (b - a) p ->
  apply_sync_offset (f64_dyadic g b) p
  = (SyncSoftCorrected,
     set_scheduler (set_offset (f64_dyadic g (slewed a b)) p.(scheduler))
       (set_sync true (f64_dyadic g (slewed a b)) p)).
Proof.
  intros [Hl Hp Hs] Ha Hb Hd Hth. pose proof slew_grid. pose proof soft_step_bounds.
  assert (within_threshold (slewed a b - a) p) as Hth'
    by (eapply within_less; [exact Hth|unfold slewed; lia]).
  unfold within_threshold in *. unfold apply_sync_offset.
  rewrite f64_dyadic_finite, Hl, Hp, f64_sub_dyadic, f64_abs_dyadic, Hth by (done || lia). cbn [negb].
  rewrite clamp_soft, f64_add_dyadic by (done || lia). fold (slewed a b).
  cbn [set_sync pump_offset_ms scheduler]. unfold apply_offset_update. cbn [set_offset sch_config].
  rewrite Hs, f64_sub_dyadic, f64_abs_dyadic, Hth' by (done || (unfold slewed; lia)). done.
Qed.

(** After [k] samples of the estimate [b]. *)
Definition slewed_by (k : nat) (a b : Z) : Z :=
  a + Z.max (- (Z.of_nat k * soft_step)) (Z.min (Z.of_nat k * soft_step) (b - a)).

Definition corrected (b : Z) (k : nat) (p : PlaybackPump) : PlaybackPump :=
  Nat.iter k (fun p => (apply_sync_offset (f64_dyadic g b) p).2) p.

Lemma corrected_spec (b : Z) (k : nat) (a : Z) (p : PlaybackPump) :
  synced_at a p -> Z.abs a < 2 ^ 53 -> Z.abs b < 2 ^ 53 -> Z.abs (b - a) < 2 ^ 53 ->
  within_threshold (b - a) p ->
  corrected b k p
  = match k with
    | O => p
    | _ => set_scheduler (set_offset (f64_dyadic g (slewed_by k a b)) p.(scheduler))
             (set_sync true (f64_dyadic g (slewed_by k a b)) p)
    end.
Proof.
  intros Hs Ha Hb Hd Hth. pose proof soft_step_bounds. unfold corrected.
  induction k as [|k IH]; [done|]. rewrite Nat.iter_succ, IH.
  set (a' := slewed_by k a b). set (p' := match k with O => p | _ => _ end).
  assert (synced_at a' p' /\ within_threshold (b - a') p') as [Hs' Hth'].
  { split.
    - unfold p'. destruct k; [|by split]. replace a' with a by (unfold a', slewed_by; lia). done.
    - assert (within_threshold (b - a') p) as Hw
        by (eapply within_less; [exact Hth|unfold a', slewed_by; nia]).
      unfold p'. by destruct k. }
  rewrite (slew_step a' b p') by (done || unfold a', slewed_by; nia). cbn [snd].
  replace (slewed a' b) with (slewed_by (S k) a b) by (unfold slewed, a', slewed_by; nia).
  unfold p'. by destruct k.
Qed.
End Slew.

(** C35. Small clock corrections are slewed and converge: let the offset in use and
    the estimate be multiples [a] and [b] of [2^-g] ms for some [g] up to 50, of
    which binary64 represents [a], [b] and [b - a] (below [2^53]), and let the
    estimate lie within the threshold, any value, of the offset.  Then every
    sample of that estimate is a soft correction that moves the offset of pump and
    scheduler by at most 5 ms towards it and touches nothing else: not the
    playback state, the buffered packets, the pending samples or the ring.  After
    [k] samples with [|b - a| <= 5 k] ms the offset is exactly the estimate. *)
Theorem slew_converges (g a b : Z) (k : nat) (p : PlaybackPump) :
  0 <= g <= 50 -> synced_at g a p ->
  Z.abs a < 2 ^ 53 -> Z.abs b < 2 ^ 53 -> Z.abs (b - a) < 2 ^ 53 -> within_threshold g (b - a) p ->
  let p' := corrected g b k p in
  (apply_sync_offset (f64_dyadic g b) p').1 = SyncSoftCorrected
  /\ synced_at g (slewed_by g k a b) p'
  /\ p' = set_scheduler (set_offset p'.(pump_offset_ms) p.(scheduler)) (set_sync true p'.(pump_offset_ms) p)
  /\ (Z.abs (b - a) <= Z.of_nat k * (5 * 2 ^ g) -> p'.(pump_offset_ms) = f64_dyadic g b).
Proof.
  intros Hg Hs Ha Hb Hd Hth. cbv zeta. pose proof (soft_step_bounds g Hg) as Hst.
  pose proof (corrected_spec g Hg b k a p Hs Ha Hb Hd Hth) as E.
  assert (synced_at g (slewed_by g k a b) (corrected g b k p)) as Hs'.
  { rewrite E. destruct k; [|by split]. replace (slewed_by g 0 a b) with a by (unfold slewed_by; lia). done. }
  assert (within_threshold g (b - slewed_by g k a b) (corrected g b k p)) as Hth'.
  { assert (within_threshold g (b - slewed_by g k a b) p) as Hw
      by (eapply within_less; [done|exact Hth|unfold slewed_by; nia]).
    rewrite E. by destruct k. }
  split_and!; [|done| |].
  - rewrite (slew_step g Hg (slewed_by g k a b) b) by (done || unfold slewed_by; nia). done.
  - rewrite E. destruct k; [|done]. destruct Hs as [H1 H2 H3]. rewrite H2, <- H3 at 1. rewrite <- H1.
    by destruct p as [[] ? ? ? ? ? ? ? ? ? ? ? ?].
  - intros Hk. rewrite (sy_pump _ _ _ Hs'). f_equal. unfold slewed_by, soft_step. lia.
Qed.

(** ** Alignment of the first frame *)

Section Alignment.
Context {t : target}.

Lemma alignment_frames_exact (lead rate : Z) :
  0 <= lead -> 0 <= rate -> lead * rate < 2 ^ 32 ->
  let n := alignment_frames lead rate in
  1000 * n <= lead * rate < 1000 * (n + 1) /\ 0 <= n
  /\ (n * RENDER_CHANNELS) mod (usize_max + 1) = n * RENDER_CHANNELS.
Proof.
  intros Hl Hr Hb. cbv zeta. unfold alignment_frames, try_from_or_max, RENDER_CHANNELS.
  assert (wrap 64 (lead * rate) = lead * rate) as -> by (unfold wrap; rewrite Z.mod_small; nia).
  pose proof (Z.div_mod (lead * rate) 1000 ltac:(lia)).
  pose proof (Z.mod_pos_bound (lead * rate) 1000 ltac:(lia)).
  assert (0 <= lead * rate) by nia. assert (u32_max <= usize_max) by (by destruct t).
  unfold u32_max in *. rewrite (proj2 (Z.leb_le _ _)) by lia. rewrite Z.mod_small; lia.
Qed.

Lemma realign_noop (now : Z) (p : PlaybackPump) :
  output_underran p = false ->
  exists n, realign_after_output_underrun now p = set_observed_underruns n p.
Proof.
  unfold output_underran, realign_after_output_underrun. destruct (timeline_started p); cbn [negb andb].
  - rewrite Z.leb_antisym. intros ->. cbn [negb]. exists (last_observed_underrun_callbacks p).
    by destruct p.
  - intros _. by eexists.
Qed.

(** Flushing after [xs] was appended to an empty pending queue. *)
Lemma enqueue_delivers (frame : ScheduledFrame) (p : PlaybackPump) (q : list Z) :
  ring_holds p.(pump_ring) q -> has_room (len frame.(frame_samples)) p ->
  exists q', ring_holds (enqueue_frame frame p).2.(pump_ring) q'
    /\ q' ++ (enqueue_frame frame p).2.(pending)
       = q ++ p.(pending) ++ map (convert_sample p.(pump_config).(volume)) frame.(frame_samples).
Proof.
  intros Hq Hroom. destruct (enqueue_frame_facts frame p) as [[_ Hd] _]. apply (Hd q Hq).
  unfold has_room, len in *. by rewrite length_map.
Qed.

Lemma flush_keeps_prefill (p : PlaybackPump) :
  (flush_pending p).2.(prefill_frames) = p.(prefill_frames)
  /\ (flush_pending p).2.(awaiting_prefill) = p.(awaiting_prefill).
Proof.
  unfold flush_pending. destruct (pending p) eqn:E; [done|]. rewrite <- E.
  destruct (push_frames _ _) as [r n]. by destruct (0 <? n).
Qed.

Lemma handle_frame (now : Z) (f : ScheduledFrame) (h : BufferHealth) (p : PlaybackPump) :
  (handle_poll now (PollFrame f h) p).2
  = set_timeline_started (enqueue_frame f (queue_alignment_prefill f now p)).2.
Proof.
  cbn [handle_poll]. destruct (enqueue_frame _ _) as [n p1]. cbn [snd set_timeline_started pending].
  by destruct (pending p1).
Qed.

(** The first frame is placed on the timeline: when the pump owes the
    alignment and the scheduler releases a frame, the tick queues behind what the
    ring holds first the silence that fills the time to the frame's deadline, to
    within one frame and capped by [max_prefill_ms], and then the frame.  On an
    empty ring the frame is therefore heard at its deadline; what the ring still
    holds, for instance after a rebuffer, delays it by its own duration. *)
Lemma first_frame_is_aligned (now : Z) (p : PlaybackPump) (q : list Z) (f : ScheduledFrame)
  (h : BufferHealth) (s' : PlaybackScheduler) :
  p.(sync_locked) = true -> p.(awaiting_prefill) = true -> p.(pending) = [] ->
  output_underran p = false -> queued_frames p < p.(pump_config).(target_depth_frames) ->
  poll_with_release_horizon now
    (saturating_add u64_max now p.(pump_config).(write_lead_ms)) p.(scheduler) = (PollFrame f h, s') ->
  ring_holds p.(pump_ring) q ->
  0 <= p.(pump_config).(max_prefill_ms) -> 0 <= s'.(sch_config).(cfg_sample_rate) ->
  p.(pump_config).(max_prefill_ms) * s'.(sch_config).(cfg_sample_rate) < 2 ^ 32 ->
  has_room (len f.(frame_samples) + p.(pump_config).(max_prefill_ms) * s'.(sch_config).(cfg_sample_rate)) p ->
  let deadline := local_time_for_host_ms s' f.(frame_host_presentation_time_ms) in
  let lead := Z.min (Z.max 0 (deadline - now)) p.(pump_config).(max_prefill_ms) in
  let p' := (tick now p).2 in
  exists n q',
    1000 * n <= lead * s'.(sch_config).(cfg_sample_rate) < 1000 * (n + 1)
    /\ p'.(prefill_frames) = n /\ p'.(awaiting_prefill) = false
    /\ ring_holds p'.(pump_ring) q'
    /\ q' ++ p'.(pending)
       = q ++ repeat 0 (Z.to_nat (n * RENDER_CHANNELS))
           ++ map (convert_sample p.(pump_config).(volume)) f.(frame_samples).
Proof.
  intros Hl Haw Hp Hu Hq Hpoll Hh Hm Hr Hb Hroom. cbv zeta.
  rewrite (tick_unfold _ _ Hl). destruct (realign_noop now p Hu) as [u ->].
  unfold tick_body. cbn [set_observed_underruns pending]. rewrite Hp.
  change (queued_frames (set_observed_underruns u p)) with (queued_frames p).
  cbn [set_peak_queued set_observed_underruns pump_config scheduler peak_queued_frames].
  rewrite (proj2 (Z.leb_gt _ _)) by done. rewrite Hpoll.
  set (p1 := set_scheduler _ _). rewrite handle_frame.
  set (lead := Z.min _ _). set (rate := cfg_sample_rate (sch_config s')) in *.
  assert (0 <= lead /\ lead * rate < 2 ^ 32) as [Hl0 Hl1] by (unfold lead; nia).
  destruct (alignment_frames_exact lead rate Hl0 Hr Hl1) as (Hn & Hn0 & Hwrap).
  exists (alignment_frames lead rate).
  assert (exists p2, queue_alignment_prefill f now p1 = p2 /\ p2.(pump_ring) = p.(pump_ring)
    /\ p2.(pending) = repeat 0 (Z.to_nat (alignment_frames lead rate * RENDER_CHANNELS))
    /\ p2.(prefill_frames) = alignment_frames lead rate /\ p2.(awaiting_prefill) = false
    /\ p2.(pump_config) = p.(pump_config)) as (p2 & -> & Hh2 & Hp2 & Hf2 & Ha2 & Hc2).
  { eexists. split; [reflexivity|]. unfold queue_alignment_prefill.
    change (awaiting_prefill p1) with (awaiting_prefill p). rewrite Haw. cbn [negb].
    change (scheduler (set_prefill false 0 p1)) with s'.
    change (pump_config (set_prefill false 0 p1)) with (pump_config p).
    unfold saturating_sub. fold lead. destruct (Z.eqb_spec lead 0) as [E|E].
    - assert (alignment_frames lead rate = 0) as -> by (rewrite E in *; lia). by split_and!.
    - cbn [set_pending set_prefill pump_ring pending prefill_frames awaiting_prefill pump_config].
      change (scheduler (set_prefill false 0 p1)) with s'. fold rate. rewrite Hwrap.
      change (pending p1) with (pending p). rewrite Hp. by split_and!. }
  destruct (enqueue_delivers f p2 q) as (q' & Hq' & E); [by rewrite Hh2| |].
  { unfold has_room, position in *. rewrite Hh2, Hp2. rewrite Hp, len_nil in Hroom.
    unfold len. rewrite repeat_length. unfold len, RENDER_CHANNELS, lead in *. nia. }
  exists q'.
  pose proof (flush_keeps_prefill (set_pending (p2.(pending)
    ++ map (convert_sample p2.(pump_config).(volume)) f.(frame_samples)) p2)) as [F1 F2].
  fold (enqueue_frame f p2) in F1, F2. rewrite Hp2, Hc2 in E. cbn [set_timeline_started
    prefill_frames awaiting_prefill pump_ring pending]. rewrite F1, F2.
  split_and!; [lia|lia|exact Hf2|exact Ha2|exact Hq'|exact E].
Qed.
End Alignment.

(** ** Witnesses *)

(** Four-frame stereo packets at 1 kHz, played from host time 1000. *)
Definition stereo_config : SchedulerConfig :=
  mkSchedulerConfig (lit "session") (lit "stream") 1000 1000 0 4 2 4 4 1 10 (f64_of_Z 120) 3 1 1 4 2000.
Definition stereo_scheduler : PlaybackScheduler :=
  match PlaybackScheduler_new stereo_config (f64_of_Z 0) with Ok s => s | Err _ => sample_scheduler end.
Definition stereo_packet (sequence : Z) : AudioDatagram :=
  mkAudioDatagram (lit "session") (lit "stream") sequence PcmS16Le 1000 2 4 (sequence * 4)
    (1000 + sequence * 4) [16; 39; 32; 3; 1; 0; 255; 255; 16; 39; 32; 3; 1; 0; 255; 255].
Definition stereo_pump_config : PlaybackPumpConfig := mkPlaybackPumpConfig (f32_of_Z 1) 10 20 100.
Definition stereo_pump : PlaybackPump :=
  mkPlaybackPump stereo_scheduler sample_ring stereo_pump_config [] true 0 false (f64_of_Z 0) 0 0 0 false 0.

Lemma stereo_new : PlaybackScheduler_new stereo_config (f64_of_Z 0) = Ok stereo_scheduler.
Proof. vm_compute. reflexivity. Defined.
Lemma stereo_typed : config_typed stereo_config.
Proof. unfold config_typed, is_u16, is_u32, is_u64, is_uint. cbn. lia. Defined.
Lemma stereo_ring_new : RenderRing_new (t := Target64) sample_ring_config = Ok sample_ring.
Proof. vm_compute. reflexivity. Defined.
Lemma stereo_pump_new : PlaybackPump_new stereo_scheduler sample_ring stereo_pump_config = Ok stereo_pump.
Proof. vm_compute. reflexivity. Defined.

(** Synchronized; then two packets arrive; ticked ten milliseconds before the
    first deadline; and the callback asks for twelve frames. *)
Definition stereo_synced : PlaybackPump := (apply_sync_offset (f64_of_Z 0) stereo_pump).2.
Definition stereo_fed : PlaybackPump :=
  (pump_submit (stereo_packet 0) (pump_submit (stereo_packet 1) stereo_synced).2).2.
Definition stereo_ticked : PlaybackPump := (tick (t := Target64) 990 stereo_fed).2.
Definition stereo_heard : list Z := (callback_read (t := Target64) (repeat 7 24) stereo_ticked).1.
Definition stereo_read : PlaybackPump := (callback_read (t := Target64) (repeat 7 24) stereo_ticked).2.

(** The frame the tick takes from the scheduler, behind ten frames of silence. *)
Definition stereo_plan : list Chunk :=
  [mkChunk 20 (f32_of_Z 1) (mkScheduledFrame 0 0 1000 [0; 0; 1; -1; 10000; 800; 1; -1] false)].

Lemma pump_then {t : target} (p0 p p' : PlaybackPump) (submitted sub all : list AudioDatagram)
  (plan chunks plan' : list Chunk) (heard h heard' discarded d discarded' : list Z) :
  pump_run p0 submitted plan heard discarded p -> pump_step p sub chunks h d p' ->
  all = submitted ++ sub -> plan' = plan ++ chunks -> heard' = heard ++ h -> discarded' = discarded ++ d ->
  pump_run p0 all plan' heard' discarded' p'.
Proof. intros Hr Hs -> -> -> ->. by eapply pump_next. Defined.

Lemma stereo_fed_run :
  pump_run (t := Target64) stereo_pump [stereo_packet 1; stereo_packet 0] [] [] [] stereo_fed.
Proof.
  eapply pump_then; [eapply pump_then; [eapply pump_then;
    [apply pump_start|apply (ps_sync stereo_pump (f64_of_Z 0))|reflexivity..]
    |apply (ps_submit stereo_synced (stereo_packet 1))|reflexivity..]
    |apply (ps_submit (pump_submit (stereo_packet 1) stereo_synced).2 (stereo_packet 0))|reflexivity..].
  all: cbn; unfold u64_max; lia.
Defined.

Lemma stereo_run :
  pump_run (t := Target64) stereo_pump [stereo_packet 1; stereo_packet 0] stereo_plan stereo_heard []
    stereo_read.
Proof.
  assert (pump_run (t := Target64) stereo_pump [stereo_packet 1; stereo_packet 0] stereo_plan [] []
    stereo_ticked) as Hticked.
  { eapply pump_then; [exact stereo_fed_run|apply (ps_tick stereo_fed 990)|reflexivity| |reflexivity|].
    - vm_compute. reflexivity.
    - vm_compute. reflexivity.
    - vm_compute. reflexivity. }
  unfold stereo_heard, stereo_read.
  pose proof (pump_next _ _ _ _ _ _ _ _ _ _ _ Hticked (ps_callback stereo_ticked (repeat 7 24))) as H.
  rewrite !app_nil_r, app_nil_l in H. exact H.
Defined.

(** Ten frames of silence and two of audio have been heard; the rest waits. *)
Lemma heard_audio_is_the_stream_witness :
  stereo_heard = repeat 0 20 ++ map (convert_sample (f32_of_Z 1)) [0; 0; 1; -1]
  /\ ring_contents (t := Target64) stereo_read.(pump_ring)
     = map (convert_sample (f32_of_Z 1)) [10000; 800; 1; -1]
  /\ stereo_heard ++ ring_contents (t := Target64) stereo_read.(pump_ring) ++ stereo_read.(pending)
     = rendered stereo_plan.
Proof.
  split; [vm_compute; reflexivity|]. split; [vm_compute; reflexivity|].
  destruct (heard_audio_is_the_stream (t := Target64) stereo_config (f64_of_Z 0) stereo_scheduler
    stereo_new stereo_typed sample_ring_config sample_ring stereo_ring_new stereo_pump_config
    stereo_pump stereo_pump_new _ _ _ _ stereo_read stereo_run)
    as (_ & _ & _ & _ & _ & Heq); [vm_compute; discriminate|].
  by apply Heq.
Defined.

(** A packet arrives before the first clock offset. *)
Definition stereo_early : PlaybackPump := (pump_submit (stereo_packet 0) stereo_pump).2.

Lemma nothing_plays_before_sync_witness :
  stereo_early.(dropped_before_sync) = 1 /\ available_frames (t := Target64) stereo_early.(pump_ring) = 0
  /\ stereo_early.(scheduler).(jitter_buffer).(jb_packets) = [].
Proof.
  assert (pump_run (t := Target64) stereo_pump [] [] [] [] stereo_early) as Hrun.
  { eapply pump_then; [apply pump_start|apply (ps_submit stereo_pump (stereo_packet 0))|reflexivity..].
    cbn. unfold u64_max. lia. }
  destruct (nothing_plays_before_sync (t := Target64) stereo_config (f64_of_Z 0) stereo_scheduler
    stereo_new stereo_typed sample_ring_config sample_ring stereo_ring_new stereo_pump_config
    stereo_pump stereo_pump_new _ _ _ _ stereo_early Hrun) as (_ & Ha & _ & Hj & _); [reflexivity|].
  split; [reflexivity|]. by split.
Defined.

(** A clock offset half a second away from the one in use. *)
Lemma clock_is_shared_witness :
  stereo_fed.(scheduler).(offset_ms) = stereo_fed.(pump_offset_ms)
  /\ (apply_sync_offset (f64_of_Z 500) stereo_fed).1 = SyncRebuffered.
Proof.
  destruct (clock_is_shared (t := Target64) stereo_config (f64_of_Z 0) stereo_scheduler
    stereo_new stereo_typed sample_ring_config sample_ring stereo_ring_new stereo_pump_config
    stereo_pump stereo_pump_new _ _ _ _ stereo_fed stereo_fed_run (f64_of_Z 500)) as (Ha & _ & Hr);
    [reflexivity|vm_compute; reflexivity|].
  split; [exact Ha|]. apply Hr. vm_compute. reflexivity.
Defined.

(** From 0 to 12.375 ms in three samples. *)
Lemma slew_converges_witness :
  (corrected 3 99 3 stereo_synced).(pump_offset_ms) = f64_div (f64_of_Z 99) (f64_of_Z 8)
  /\ (corrected 3 99 2 stereo_synced).(pump_offset_ms) = f64_of_Z 10.
Proof.
  split; [|vm_compute; reflexivity].
  destruct (slew_converges 3 0 99 3 stereo_synced) as (_ & _ & _ & H); try lia.
  - by split.
  - vm_compute. reflexivity.
  - rewrite H by lia. vm_compute. reflexivity.
Defined.

Lemma first_frame_is_aligned_witness :
  exists n q', n = 10 /\ ring_holds (t := Target64) stereo_ticked.(pump_ring) q'
    /\ q' ++ stereo_ticked.(pending)
       = repeat 0 20 ++ map (convert_sample (f32_of_Z 1)) [0; 0; 1; -1; 10000; 800; 1; -1].
Proof.
  destruct (first_frame_is_aligned (t := Target64) 990 stereo_fed []
    (mkScheduledFrame 0 0 1000 [0; 0; 1; -1; 10000; 800; 1; -1] false) Low
    (poll_with_release_horizon (t := Target64) 990 1000 stereo_fed.(scheduler)).2)
    as (n & q' & Hn & Hf & _ & Hr & E).
  - reflexivity.
  - reflexivity.
  - reflexivity.
  - reflexivity.
  - vm_compute. reflexivity.
  - vm_compute. reflexivity.
  - exists 0, 0. exact (proj2 (RenderRing_new_ok (t := Target64) _ _ stereo_ring_new)).
  - vm_compute. discriminate.
  - vm_compute. discriminate.
  - vm_compute. reflexivity.
  - vm_compute. discriminate.
  - exists n, q'. assert (n = 10) as -> by (rewrite <- Hf; vm_compute; reflexivity).
    split; [reflexivity|]. split; [exact Hr|exact E].
Defined.

(** A hard resync does not restart from an empty ring: with the default lead of
    400 ms, a clock correction of 130 ms arriving while the ring holds 400 ms of
    audio leaves 270 ms of it in front of the realigned stream, whose first frame
    is queued to be heard at 1408 although its deadline is 1134. *)
Definition lead_pump : PlaybackPump :=
  mkPlaybackPump stereo_scheduler sample_ring (mkPlaybackPumpConfig (f32_of_Z 1) 400 800 450) [] true 0
    false (f64_of_Z 0) 0 0 0 false 0.
Definition lead_playing : PlaybackPump :=
  let p := (apply_sync_offset (f64_of_Z 0) lead_pump).2 in
  let p := (pump_submit (stereo_packet 0) (pump_submit (stereo_packet 1) (pump_submit (stereo_packet 2) p).2).2).2 in
  (tick (t := Target64) 600 p).2.
(** The correction, and the 134 ms until the next frame is released. *)
Definition lead_resynced : PlaybackPump :=
  let p := (apply_sync_offset (f64_of_Z (-130)) lead_playing).2 in
  (callback_read (t := Target64) (repeat 0 268) p).2.

Lemma resync_keeps_the_ring :
  (apply_sync_offset (f64_of_Z (-130)) lead_playing).1 = SyncRebuffered
  /\ queued_frames (t := Target64) lead_resynced = 270
  /\ let '(outcome, p) := tick (t := Target64) 734 lead_resynced in
     outcome = TickQueued 1 404 false
     /\ p.(prefill_frames) = 400
     /\ local_time_for_host_ms p.(scheduler) 1004 = 1134.
Proof. vm_compute. repeat split; reflexivity. Qed.
