(* ===== verification/AudioAbi.v ===== *)
(** The real-time audio boundary of the FFI crate
    (src/rust/silent-disco-ffi/src): the registry of render rings behind the C
    functions the native audio callback uses (audio_abi.rs), the capture tap of
    its output (callback_capture.rs) and the output handle of the platform
    (audio_output.rs).

    A ring is shared by its producer (a playback pump or an output handle) and
    the registry's consumer, and a tap by the registry and the thread draining
    it, so both live in a store of their own and are referred to by key.
    Registry operations run under its mutex; the callback only tries to take it,
    and [contended] says that it failed.  The panic containment around a read has
    nothing to contain here: no modelled operation panics. *)
From Stdlib Require Import ZArith Lia Sorting.Sorted.
From stdpp Require Import numbers list prelude.
From S2P Require Import Prelude BTreeMap RenderRing.

(** ** The capture tap (callback_capture.rs) *)

Definition MIN_CAPTURE_FRAMES : Z := 4800.
Definition MAX_CAPTURE_FRAMES : Z := 480000.

Record CallbackCaptureTap : Type := mkCallbackCaptureTap {
tap_slots : list Z;
tap_capacity : Z;
tap_written : Z;
tap_read : Z;
tap_lost : Z;
tap_callbacks : Z
}.

Definition CallbackCaptureTap_new (capacity : Z) : option CallbackCaptureTap :=
  if negb (in_range MIN_CAPTURE_FRAMES MAX_CAPTURE_FRAMES capacity) then None
  else Some (mkCallbackCaptureTap (repeat 0 (Z.to_nat (capacity * RENDER_CHANNELS))) capacity 0 0 0 0).

Definition record_callback {t : target} (samples : list Z) (tap : CallbackCaptureTap) : CallbackCaptureTap :=
  let frames := len samples / RENDER_CHANNELS in
  let write := tap.(tap_written) in
  let read := tap.(tap_read) in
  let available := saturating_sub tap.(tap_capacity) (saturating_sub write read) in
  let accepted := Z.min frames available in
  mkCallbackCaptureTap
    (for_samples accepted (store_sample samples tap.(tap_capacity) write) tap.(tap_slots))
    tap.(tap_capacity) (usize_add write accepted) read
    (wrapping_add 64 tap.(tap_lost) (frames - accepted))
    (wrapping_add 64 tap.(tap_callbacks) 1).

Definition tap_drain {t : target} (max_frames : Z) (tap : CallbackCaptureTap) :
  list Z * CallbackCaptureTap :=
  let frames := Z.min (usize_sub tap.(tap_written) tap.(tap_read)) max_frames in
  (map (fun k => nth (slot_at tap.(tap_capacity) tap.(tap_read) k) tap.(tap_slots) 0)
     (seqZ 0 (frames * RENDER_CHANNELS)),
   mkCallbackCaptureTap tap.(tap_slots) tap.(tap_capacity) tap.(tap_written)
     (usize_add tap.(tap_read) frames) tap.(tap_lost) tap.(tap_callbacks)).

Definition counters (tap : CallbackCaptureTap) : Z * Z * Z :=
  (try_from_or_max u64_max tap.(tap_written), tap.(tap_lost), tap.(tap_callbacks)).

(** ** The registry (audio_abi.rs) *)

Inductive SilentDiscoAudioStatus : Type :=
| StatusOk | StatusPartial | StatusStopping
| StatusInvalidArgument | StatusInvalidState | StatusPanicContained.

Definition status_code (s : SilentDiscoAudioStatus) : Z :=
  match s with
  | StatusOk => 0 | StatusPartial => 1 | StatusStopping => 2
  | StatusInvalidArgument => -1 | StatusInvalidState => -2 | StatusPanicContained => -3
  end.

(** A registered consumer: the key of its ring and of its tap, if any. *)
Inductive AudioEngineEntry : Type :=
| Active (consumer : Z) (capture : option Z).

Record AudioEngineRegistry : Type := mkAudioEngineRegistry {
next_token : Z;
entries : btmap AudioEngineEntry
}.

Definition AudioEngineRegistry_default : AudioEngineRegistry := mkAudioEngineRegistry 1 [].

Definition was_issued (token : Z) (r : AudioEngineRegistry) : bool :=
  negb (token =? 0) && ((r.(next_token) =? 0) || (token <? r.(next_token))).

Inductive AudioAbiError : Type :=
| AbiConfig (error : RenderRingConfigErrorKind) | TokenSpaceExhausted | UnknownToken | AlreadyReleased.

(** The registry with the rings and taps it shares. *)
Record AudioWorld : Type := mkAudioWorld {
registry : AudioEngineRegistry;
rings : btmap RingInner;
taps : btmap CallbackCaptureTap
}.

Definition AudioWorld_default : AudioWorld := mkAudioWorld AudioEngineRegistry_default [] [].

Definition set_registry (r : AudioEngineRegistry) (w : AudioWorld) : AudioWorld :=
  mkAudioWorld r w.(rings) w.(taps).
Definition set_rings (r : btmap RingInner) (w : AudioWorld) : AudioWorld :=
  mkAudioWorld w.(registry) r w.(taps).
Definition set_taps (t : btmap CallbackCaptureTap) (w : AudioWorld) : AudioWorld :=
  mkAudioWorld w.(registry) w.(rings) t.

(** Access to a ring or tap through its key. *)
Definition modify_ring (k : Z) (f : RingInner -> RingInner) (w : AudioWorld) : AudioWorld :=
  match bt_get k w.(rings) with
  | Some r => set_rings (bt_insert k (f r) w.(rings)) w
  | None => w
  end.
Definition modify_tap (k : Z) (f : CallbackCaptureTap -> CallbackCaptureTap) (w : AudioWorld) :
  AudioWorld :=
  match bt_get k w.(taps) with
  | Some tap => set_taps (bt_insert k (f tap) w.(taps)) w
  | None => w
  end.

Section Abi.
Context {t : target}.

(** The token also keys the ring, of which it is the only registration. *)
Definition register_render_ring (config : RenderRingConfig) (w : AudioWorld) :
  result Z AudioAbiError * AudioWorld :=
  match RenderRing_new config with
  | Err e => (Err (AbiConfig e), w)
  | Ok ring =>
      let token := w.(registry).(next_token) in
      if token =? 0 then (Err TokenSpaceExhausted, w)
      else
        let next := match checked_add u64_max token 1 with Some n => n | None => 0 end in
        (Ok token,
         mkAudioWorld
           (mkAudioEngineRegistry next (bt_insert token (Active token None) w.(registry).(entries)))
           (bt_insert token ring w.(rings)) w.(taps))
  end.

Definition release_render_ring (token : Z) (w : AudioWorld) : result unit AudioAbiError * AudioWorld :=
  let r := w.(registry) in
  let w' := set_registry (mkAudioEngineRegistry r.(next_token) (bt_remove token r.(entries))) w in
  match bt_get token r.(entries) with
  | Some (Active _ _) => (Ok tt, w')
  | None => if was_issued token r then (Err AlreadyReleased, w') else (Err UnknownToken, w')
  end.

Definition attach_callback_capture (token tap : Z) (w : AudioWorld) :
  result unit AudioAbiError * AudioWorld :=
  let r := w.(registry) in
  match bt_get token r.(entries) with
  | Some (Active consumer None) =>
      (Ok tt,
       set_registry (mkAudioEngineRegistry r.(next_token)
                       (bt_insert token (Active consumer (Some tap)) r.(entries))) w)
  | Some (Active _ (Some _)) => (Err AlreadyReleased, w)
  | None => (Err UnknownToken, w)
  end.

Definition detach_callback_capture (token : Z) (w : AudioWorld) : AudioWorld :=
  let r := w.(registry) in
  match bt_get token r.(entries) with
  | Some (Active consumer _) =>
      set_registry (mkAudioEngineRegistry r.(next_token)
                      (bt_insert token (Active consumer None) r.(entries))) w
  | None => w
  end.

(** [with_active_consumer]: [f] on the ring of an active token, else [default]. *)
Definition with_active_consumer {A : Type} (contended : bool) (token : Z) (default : A)
  (f : RingInner -> A) (w : AudioWorld) : A :=
  if contended then default
  else match bt_get token w.(registry).(entries) with
       | Some (Active consumer _) =>
           match bt_get consumer w.(rings) with Some r => f r | None => default end
       | None => default
       end.

(** [read_interleaved_f32_impl]: the status, the frames taken from the ring and
    the output. *)
Definition read_interleaved_f32_impl (contended : bool) (token : Z) (output : list Z)
  (w : AudioWorld) : SilentDiscoAudioStatus * Z * list Z * AudioWorld :=
  let silence := repeat 0 (length output) in
  if contended then (StatusStopping, 0, silence, w)
  else
    match bt_get token w.(registry).(entries) with
    | Some (Active consumer capture) =>
        match bt_get consumer w.(rings) with
        | Some ring =>
            let ring := record_callback_invocation ring in
            let '(ring, output, outcome) := read_frames output ring in
            let w := set_rings (bt_insert consumer ring w.(rings)) w in
            let w := match capture with
                     | Some tap => modify_tap tap (record_callback output) w
                     | None => w
                     end in
            let frames_from_ring := try_from_or_max u32_max outcome.(frames_supplied) in
            let status := if 0 <? outcome.(frames_silence_filled) then StatusPartial else StatusOk in
            (status, frames_from_ring, output, w)
        | None => (StatusInvalidState, 0, silence, w)
        end
    | None =>
        let status := if was_issued token w.(registry) then StatusStopping else StatusInvalidState in
        (status, 0, silence, w)
    end.

(** [silent_disco_audio_read_interleaved_f32]: a null pointer is [None]; the
    caller's buffer is written from its start, the frame count through its
    pointer. *)
Definition silent_disco_audio_read_interleaved_f32 (contended : bool) (engine : Z)
  (output : option (list Z)) (requested_frames output_channels : Z) (frames_from_ring : option Z)
  (w : AudioWorld) : Z * option (list Z) * option Z * AudioWorld :=
  let invalid := (status_code StatusInvalidArgument, output, frames_from_ring, w) in
  match output, frames_from_ring with
  | Some buffer, Some _ =>
      if requested_frames =? 0 then invalid
      else if negb (output_channels =? RENDER_CHANNELS) then invalid
      else
        match checked_mul usize_max requested_frames output_channels with
        | None => invalid
        | Some total_samples =>
            let n := Z.to_nat total_samples in
            let '(status, supplied, filled, w) :=
              read_interleaved_f32_impl contended engine (take n buffer) w in
            (status_code status, Some (filled ++ drop n buffer), Some supplied, w)
        end
  | _, _ => invalid
  end.

(** The telemetry queries, instances of [telemetry_query_export!]. *)
Definition silent_disco_audio_available_frames (contended : bool) (engine : Z) (w : AudioWorld) : Z :=
  with_active_consumer contended engine 0
    (fun r => try_from_or_max u32_max (available_frames r)) w.
Definition silent_disco_audio_underrun_count (contended : bool) (engine : Z) (w : AudioWorld) : Z :=
  with_active_consumer contended engine 0 (fun r => r.(ring_telemetry).(underrun_callbacks)) w.
Definition silent_disco_audio_frames_rendered (contended : bool) (engine : Z) (w : AudioWorld) : Z :=
  with_active_consumer contended engine 0 (fun r => r.(ring_telemetry).(frames_supplied_from_ring)) w.
Definition silent_disco_audio_silence_filled_frames (contended : bool) (engine : Z) (w : AudioWorld) :
  Z :=
  with_active_consumer contended engine 0 (fun r => r.(ring_telemetry).(silence_filled_frames)) w.
Definition silent_disco_audio_ring_full_events (contended : bool) (engine : Z) (w : AudioWorld) : Z :=
  with_active_consumer contended engine 0 (fun r => r.(ring_telemetry).(ring_full_events)) w.
Definition silent_disco_audio_callback_count (contended : bool) (engine : Z) (w : AudioWorld) : Z :=
  with_active_consumer contended engine 0 (fun r => r.(ring_telemetry).(callback_count)) w.
Definition silent_disco_audio_contained_panic_count (contended : bool) (engine : Z) (w : AudioWorld) :
  Z :=
  with_active_consumer contended engine 0 (fun r => r.(ring_telemetry).(contained_panic_count)) w.

(** ** The output handle (audio_output.rs) *)

Inductive FfiAudioOutputError : Type := OutputInvalidConfiguration | OutputClosed.

(** The handle's token while it is open, which names its producer's ring too. *)
Definition FfiAudioOutputHandle : Type := option Z.

Definition FfiAudioOutputHandle_open (capacity_frames target_fill_frames : Z) (w : AudioWorld) :
  result FfiAudioOutputHandle FfiAudioOutputError * AudioWorld :=
  let config := mkRenderRingConfig (try_from_or_max usize_max capacity_frames)
                  (try_from_or_max usize_max target_fill_frames) in
  match register_render_ring config w with
  | (Ok token, w) => (Ok (Some token), w)
  | (Err _, w) => (Err OutputInvalidConfiguration, w)
  end.

(** [f32::is_finite] of a bit pattern: the exponent is not all ones. *)
Definition bits_are_finite (bits : Z) : bool := negb (Z.land (Z.shiftr bits 23) 255 =? 255).

Definition output_push_frames (samples : list Z) (h : FfiAudioOutputHandle) (w : AudioWorld) :
  result Z FfiAudioOutputError * AudioWorld :=
  match h with
  | None => (Err OutputClosed, w)
  | Some token =>
      if negb (len samples mod 2 =? 0) then (Err OutputInvalidConfiguration, w)
      else if negb (forallb bits_are_finite samples) then (Err OutputInvalidConfiguration, w)
      else
        match bt_get token w.(rings) with
        | Some r =>
            let '(r, n) := push_frames samples r in
            (Ok (try_from_or_max u32_max n), set_rings (bt_insert token r w.(rings)) w)
        | None => (Ok 0, w)
        end
  end.

Definition output_engine_token (h : FfiAudioOutputHandle) : result Z FfiAudioOutputError :=
  match h with None => Err OutputClosed | Some token => Ok (try_from_or_max (2 ^ 63 - 1) token) end.

Definition output_queued_frames (h : FfiAudioOutputHandle) (w : AudioWorld) :
  result Z FfiAudioOutputError :=
  match h with
  | None => Err OutputClosed
  | Some token =>
      match bt_get token w.(rings) with
      | Some r => Ok (try_from_or_max u32_max (saturating_sub r.(ring_capacity) (free_frames r)))
      | None => Ok 0
      end
  end.

(** [release], which [drop] runs as well. *)
Definition output_release (h : FfiAudioOutputHandle) (w : AudioWorld) :
  FfiAudioOutputHandle * AudioWorld :=
  match h with
  | None => (None, w)
  | Some token => (None, (release_render_ring token w).2)
  end.

(** ** Histories *)

(** A call on the boundary: from the control plane, a producer, the callback, or
    the thread draining a tap. *)
Inductive AbiCall : Type :=
| CallRegister (config : RenderRingConfig)
| CallRelease (token : Z)
| CallPush (token : Z) (frames : list Z)
| CallRead (contended : bool) (token : Z) (output : list Z)
| CallNewTap (key capacity : Z)
| CallAttach (token key : Z)
| CallDetach (token : Z)
| CallDrain (key max_frames : Z).

(** What a call does that is visible outside. *)
Inductive AbiEvent : Type :=
| EvIssued (token : Z)
| EvReleased (token : Z)
| EvRingPush (token : Z) (samples : list Z)
| EvRingPop (token : Z) (samples : list Z).

Definition abi_exec (call : AbiCall) (w : AudioWorld) : AudioWorld * list AbiEvent :=
  match call with
  | CallRegister config =>
      match register_render_ring config w with
      | (Ok token, w) => (w, [EvIssued token])
      | (Err _, w) => (w, [])
      end
  | CallRelease token =>
      match release_render_ring token w with
      | (Ok _, w) => (w, [EvReleased token])
      | (Err _, w) => (w, [])
      end
  | CallPush token frames =>
      match bt_get token w.(rings) with
      | Some r =>
          let '(r, n) := push_frames frames r in
          (set_rings (bt_insert token r w.(rings)) w,
           [EvRingPush token (take (Z.to_nat (n * RENDER_CHANNELS)) frames)])
      | None => (w, [])
      end
  | CallRead contended token output =>
      let '(_, supplied, filled, w) := read_interleaved_f32_impl contended token output w in
      (w, [EvRingPop token (take (Z.to_nat (supplied * RENDER_CHANNELS)) filled)])
  | CallNewTap key capacity =>
      match bt_get key w.(taps), CallbackCaptureTap_new capacity with
      | None, Some tap => (set_taps (bt_insert key tap w.(taps)) w, [])
      | _, _ => (w, [])
      end
  | CallAttach token key => ((attach_callback_capture token key w).2, [])
  | CallDetach token => (detach_callback_capture token w, [])
  | CallDrain key max_frames => (modify_tap key (fun tap => (tap_drain max_frames tap).2) w, [])
  end.

Fixpoint abi_run (calls : list AbiCall) (w : AudioWorld) : AudioWorld * list AbiEvent :=
  match calls with
  | [] => (w, [])
  | call :: rest =>
      let '(w, events) := abi_exec call w in
      let '(w, more) := abi_run rest w in
      (w, events ++ more)
  end.

Lemma abi_run_app (calls calls' : list AbiCall) (w : AudioWorld) :
  abi_run (calls ++ calls') w
  = ((abi_run calls' (abi_run calls w).1).1,
     (abi_run calls w).2 ++ (abi_run calls' (abi_run calls w).1).2).
Proof.
  revert w. induction calls as [|call rest IH]; intros w; cbn [app abi_run fst snd].
  { by destruct (abi_run calls' w). }
  destruct (abi_exec call w) as [w1 ev]. rewrite IH. destruct (abi_run rest w1) as [w2 more]. cbn.
  by rewrite (assoc_L (++)).
Qed.

(** ** The registry's invariant *)

Record abi_ok (w : AudioWorld) : Prop := mkAbiOk {
ab_next : 0 <= w.(registry).(next_token) <= u64_max;
ab_sorted : bt_ok w.(registry).(entries);
ab_entries : forall token e, bt_get token w.(registry).(entries) = Some e ->
  (exists capture, e = Active token capture) /\ exists r, bt_get token w.(rings) = Some r;
ab_rings : forall token r, bt_get token w.(rings) = Some r -> was_issued token w.(registry) = true
}.

Lemma was_issued_iff (token : Z) (r : AudioEngineRegistry) :
  was_issued token r = true <-> token <> 0 /\ (r.(next_token) = 0 \/ token < r.(next_token)).
Proof. unfold was_issued. rewrite andb_true_iff, negb_true_iff, orb_true_iff. lia. Qed.

Lemma register_facts (config : RenderRingConfig) (w : AudioWorld) :
  w.(registry).(next_token) <= u64_max ->
  match register_render_ring config w with
  | (Ok token, w') =>
      token = w.(registry).(next_token) /\ token <> 0
      /\ (exists r, RenderRing_new config = Ok r
                     /\ w' = mkAudioWorld
                                (mkAudioEngineRegistry
                                   (if token =? u64_max then 0 else token + 1)
                                   (bt_insert token (Active token None) w.(registry).(entries)))
                                (bt_insert token r w.(rings)) w.(taps))
  | (Err _, w') => w' = w
  end.
Proof.
  intros Hmax. unfold register_render_ring. destruct (RenderRing_new config) as [r|e]; [|done].
  destruct (Z.eqb_spec (next_token (registry w)) 0) as [E|E]; [done|].
  split_and!; [done|done|]. exists r. split; [done|]. unfold checked_add. do 2 f_equal.
  destruct (Z.leb_spec (next_token (registry w) + 1) u64_max), (Z.eqb_spec (next_token (registry w)) u64_max);
    try reflexivity; lia.
Qed.

Lemma read_impl_facts (contended : bool) (token : Z) (output : list Z) (w : AudioWorld) :
  abi_ok w ->
  match read_interleaved_f32_impl contended token output w with
  | (status, supplied, filled, w') =>
      w'.(registry) = w.(registry)
      /\ ((w' = w /\ supplied = 0 /\ filled = repeat 0 (length output))
          \/ exists r r' outcome,
               contended = false /\ bt_get token w.(rings) = Some r
               /\ read_frames output (record_callback_invocation r) = (r', filled, outcome)
               /\ w'.(rings) = bt_insert token r' w.(rings)
               /\ supplied = try_from_or_max u32_max outcome.(frames_supplied))
  end.
Proof.
  intros Hok. unfold read_interleaved_f32_impl. destruct contended; [split; [done|by left]|].
  destruct (bt_get token (entries (registry w))) as [[consumer capture]|] eqn:E; [|split; [done|by left]].
  destruct (ab_entries _ Hok _ _ E) as [(cap & Ee) (r & Hr)]. injection Ee as -> _. rewrite Hr.
  destruct (read_frames output (record_callback_invocation r)) as [[r' filled] outcome] eqn:Er.
  assert (forall w', registry match capture with
    | Some tap => modify_tap tap (record_callback filled) w' | None => w' end = registry w'
    /\ rings match capture with
    | Some tap => modify_tap tap (record_callback filled) w' | None => w' end = rings w') as Hm.
  { intros w'. destruct capture as [tap|]; [|done]. unfold modify_tap.
    destruct (bt_get tap (taps w')); split; reflexivity. }
  split; [by rewrite (proj1 (Hm _))|]. right. exists r, r', outcome.
  split_and!; try done. by rewrite (proj2 (Hm _)).
Qed.

(** A change that only touches rings that exist. *)
Lemma abi_ok_ring (w w' : AudioWorld) (token : Z) (r r' : RingInner) :
  abi_ok w -> bt_get token w.(rings) = Some r ->
  w'.(registry) = w.(registry) -> w'.(rings) = bt_insert token r' w.(rings) -> abi_ok w'.
Proof.
  intros Hok Hr Hreg Hrings. split; rewrite ?Hreg, ?Hrings; try apply Hok.
  - intros k e He. destruct (ab_entries _ Hok k e He) as [Hc (rk & Hk)]. split; [done|].
    destruct (decide (token = k)) as [->|Hne]; [exists r'; apply bt_get_insert_eq|].
    exists rk. by rewrite bt_get_insert_ne.
  - intros k rk Hk. destruct (decide (token = k)) as [->|Hne]; [by apply (ab_rings _ Hok k r)|].
    rewrite bt_get_insert_ne in Hk by done. by apply (ab_rings _ Hok k rk).
Qed.

(** A change of the entry of one registered token. *)
Lemma abi_ok_entry (w : AudioWorld) (token : Z) (capture capture' : option Z) :
  abi_ok w -> bt_get token w.(registry).(entries) = Some (Active token capture) ->
  abi_ok (set_registry (mkAudioEngineRegistry w.(registry).(next_token)
            (bt_insert token (Active token capture') w.(registry).(entries))) w).
Proof.
  intros Hok He. split; cbn; try apply Hok.
  - apply bt_ok_insert, Hok.
  - intros k e Hk. destruct (decide (token = k)) as [->|Hne].
    + rewrite bt_get_insert_eq in Hk. injection Hk as <-. split; [by eexists|]. by apply (ab_entries _ Hok k _ He).
    + rewrite bt_get_insert_ne in Hk by done. by apply (ab_entries _ Hok).
Qed.

Lemma abi_exec_ok (call : AbiCall) (w : AudioWorld) : abi_ok w -> abi_ok (abi_exec call w).1.
Proof.
  intros Hok. destruct call as [config|token|token frames|contended token output|key capacity|token key
    |token|key n]; cbn [abi_exec].
  - pose proof (register_facts config w ltac:(apply Hok)) as H.
    destruct (register_render_ring config w) as [[token|e] w']; [|by rewrite H].
    destruct H as (-> & Hne & r & _ & ->). set (token := next_token (registry w)) in *.
    pose proof (ab_next _ Hok) as Hn. fold token in Hn.
    assert (forall k, was_issued k (registry w) = true -> was_issued k (mkAudioEngineRegistry
      (if token =? u64_max then 0 else token + 1)
      (bt_insert token (Active token None) (entries (registry w)))) = true) as Hmono.
    { intros k Hk. apply was_issued_iff in Hk as [Hk0 Hk]. apply was_issued_iff. cbn [next_token].
      fold token in Hk. split; [done|]. destruct (token =? u64_max); lia. }
    assert (was_issued token (mkAudioEngineRegistry (if token =? u64_max then 0 else token + 1)
      (bt_insert token (Active token None) (entries (registry w)))) = true) as Hself.
    { apply was_issued_iff. cbn. destruct (token =? u64_max); lia. }
    split; cbn [fst registry rings entries next_token].
    + destruct (Z.eqb_spec token u64_max); lia.
    + apply bt_ok_insert, Hok.
    + intros k e Hk. destruct (decide (token = k)) as [->|Hkn].
      * rewrite bt_get_insert_eq in Hk. injection Hk as <-. split; [by eexists|].
        exists r. apply bt_get_insert_eq.
      * rewrite bt_get_insert_ne in Hk by done. destruct (ab_entries _ Hok k e Hk) as [Hc (rk & Hr)].
        split; [done|]. exists rk. by rewrite bt_get_insert_ne.
    + intros k rk Hk. destruct (decide (token = k)) as [->|Hkn]; [done|].
      rewrite bt_get_insert_ne in Hk by done. apply Hmono. by apply (ab_rings _ Hok k rk).
  - assert (abi_ok (set_registry (mkAudioEngineRegistry (next_token (registry w))
      (bt_remove token (entries (registry w)))) w)) as H.
    { split; cbn; try apply Hok; [apply bt_ok_remove, Hok|]. intros k e Hk.
      destruct (decide (token = k)) as [->|Hne];
        [by rewrite bt_get_remove_eq in Hk by apply Hok|].
      rewrite bt_get_remove_ne in Hk by done. by apply (ab_entries _ Hok). }
    unfold release_render_ring. destruct (bt_get token _) as [[]|]; [done|].
    by destruct (was_issued token _).
  - destruct (bt_get token (rings w)) as [r|] eqn:Hr; [|done].
    destruct (push_frames frames r) as [r' n]. by eapply abi_ok_ring.
  - pose proof (read_impl_facts contended token output w Hok) as H.
    destruct (read_interleaved_f32_impl contended token output w) as [[[status supplied] filled] w'].
    destruct H as [Hreg [(-> & _ & _)|(r & r' & outcome & _ & Hr & _ & Hrings & _)]]; [done|].
    by eapply abi_ok_ring.
  - destruct (bt_get key (taps w)); [done|]. destruct (CallbackCaptureTap_new capacity); [|done].
    destruct Hok. by split.
  - unfold attach_callback_capture. destruct (bt_get token _) as [[consumer []]|] eqn:E; try done.
    destruct (ab_entries _ Hok _ _ E) as [(cap & Ee) _]. injection Ee as -> _. by eapply abi_ok_entry.
  - unfold detach_callback_capture. destruct (bt_get token _) as [[consumer cap']|] eqn:E; try done.
    destruct (ab_entries _ Hok _ _ E) as [(cap & Ee) _]. injection Ee as -> _. by eapply abi_ok_entry.
  - unfold modify_tap. destruct (bt_get key (taps w)); [|done]. destruct Hok. by split.
Qed.

Lemma abi_run_ok (calls : list AbiCall) (w : AudioWorld) : abi_ok w -> abi_ok (abi_run calls w).1.
Proof.
  revert w. induction calls as [|call rest IH]; intros w Hok; cbn [abi_run]; [done|].
  pose proof (abi_exec_ok call w Hok) as H. destruct (abi_exec call w) as [w1 ev]. cbn [fst] in H.
  specialize (IH w1 H). by destruct (abi_run rest w1).
Qed.

Lemma abi_ok_default : abi_ok AudioWorld_default.
Proof. split; cbn; try done. constructor. Qed.

(** ** Tokens *)

Definition issued (events : list AbiEvent) : list Z :=
  concat (map (fun e => match e with EvIssued token => [token] | _ => [] end) events).

Lemma issued_app (l l' : list AbiEvent) : issued (l ++ l') = issued l ++ issued l'.
Proof. unfold issued. by rewrite map_app, concat_app. Qed.

(** Where the registry stands after a call: the next token, [0] once they are
    used up, only moves forward. *)
Lemma abi_exec_tokens (call : AbiCall) (w : AudioWorld) :
  abi_ok w ->
  let w' := (abi_exec call w).1 in
  (issued (abi_exec call w).2 = [] /\ w'.(registry).(next_token) = w.(registry).(next_token))
  \/ (issued (abi_exec call w).2 = [w.(registry).(next_token)] /\ w.(registry).(next_token) <> 0
      /\ (w'.(registry).(next_token) = 0
          \/ w'.(registry).(next_token) = w.(registry).(next_token) + 1)).
Proof.
  intros Hok. destruct call as [config|token|token frames|contended token output|key capacity|token key
    |token|key n]; cbn [abi_exec].
  - pose proof (register_facts config w ltac:(apply Hok)) as H.
    destruct (register_render_ring config w) as [[token|e] w']; [|left; by rewrite H].
    destruct H as (-> & Hne & r & _ & ->). right. split_and!; [done|done|].
    cbn. destruct (_ =? u64_max); [by left|by right].
  - left. unfold release_render_ring. destruct (bt_get token _) as [[]|]; [done|].
    by destruct (was_issued token _).
  - left. destruct (bt_get token (rings w)); [|done]. by destruct (push_frames _ _).
  - left. pose proof (read_impl_facts contended token output w Hok) as H.
    destruct (read_interleaved_f32_impl contended token output w) as [[[status supplied] filled] w'].
    destruct H as [Hreg _]. cbn. by rewrite Hreg.
  - left. destruct (bt_get key (taps w)); [done|]. by destruct (CallbackCaptureTap_new capacity).
  - left. unfold attach_callback_capture. by destruct (bt_get token _) as [[? []]|].
  - left. unfold detach_callback_capture. by destruct (bt_get token _) as [[]|].
  - left. unfold modify_tap. by destruct (bt_get key (taps w)).
Qed.

Lemma issued_increasing (calls : list AbiCall) (w : AudioWorld) :
  abi_ok w ->
  StronglySorted Z.lt (issued (abi_run calls w).2)
  /\ Forall (fun token => w.(registry).(next_token) <> 0
                          /\ w.(registry).(next_token) <= token <= u64_max)
       (issued (abi_run calls w).2).
Proof.
  revert w. induction calls as [|call rest IH]; intros w Hok; cbn [abi_run]; [by repeat constructor|].
  pose proof (abi_exec_ok call w Hok) as H1. pose proof (abi_exec_tokens call w Hok) as H2.
  destruct (abi_exec call w) as [w1 ev]. cbn [fst snd] in *. destruct (IH w1 H1) as [Hs Hf].
  destruct (abi_run rest w1) as [w2 more]. cbn [snd] in *. rewrite issued_app.
  destruct H2 as [[-> E]|(-> & Hne & E)]; [by rewrite E in Hf|].
  pose proof (ab_next _ Hok) as Hn. cbn [app].
  assert (Forall (Z.lt (next_token (registry w))) (issued more)) as Hlt.
  { eapply Forall_impl; [exact Hf|]. intros token Ht. cbn in Ht. lia. }
  split; [by constructor|]. constructor; [lia|]. eapply Forall_impl; [exact Hf|].
  intros token Ht. cbn in Ht. lia.
Qed.

(** ** A released token *)

Definition retired (token : Z) (w : AudioWorld) : Prop :=
  was_issued token w.(registry) = true /\ bt_get token w.(registry).(entries) = None.

Lemma retired_read (contended : bool) (token : Z) (output : list Z) (w : AudioWorld) :
  retired token w ->
  read_interleaved_f32_impl contended token output w = (StatusStopping, 0, repeat 0 (length output), w).
Proof.
  intros [Hi He]. unfold read_interleaved_f32_impl. destruct contended; [done|]. by rewrite He, Hi.
Qed.

Lemma abi_exec_retired (call : AbiCall) (token : Z) (w : AudioWorld) :
  abi_ok w -> retired token w -> retired token (abi_exec call w).1.
Proof.
  intros Hok Hr. destruct Hr as [Hi He].
  destruct call as [config|k|k frames|contended k output|key capacity|k key|k|key n]; cbn [abi_exec].
  - pose proof (register_facts config w ltac:(apply Hok)) as H.
    destruct (register_render_ring config w) as [[k|e] w']; [|by rewrite H].
    destruct H as (-> & Hne & r & _ & ->). apply was_issued_iff in Hi as [Hi0 Hi]. split.
    + apply was_issued_iff. cbn. destruct (_ =? u64_max); lia.
    + cbn. rewrite bt_get_insert_ne; [done|]. lia.
  - assert (retired token (set_registry (mkAudioEngineRegistry (next_token (registry w))
      (bt_remove k (entries (registry w)))) w)) as H.
    { split; [done|]. cbn. destruct (decide (k = token)) as [->|Hne].
      - apply bt_get_remove_eq, Hok.
      - by rewrite bt_get_remove_ne. }
    unfold release_render_ring. destruct (bt_get k _) as [[]|]; [done|]. by destruct (was_issued k _).
  - destruct (bt_get k (rings w)); [|done]. by destruct (push_frames _ _).
  - pose proof (read_impl_facts contended k output w Hok) as H.
    destruct (read_interleaved_f32_impl contended k output w) as [[[status supplied] filled] w'].
    destruct H as [Hreg _]. unfold retired. cbn. by rewrite Hreg.
  - destruct (bt_get key (taps w)); [done|]. by destruct (CallbackCaptureTap_new capacity).
  - unfold attach_callback_capture. destruct (bt_get k _) as [[c []]|] eqn:E; try done.
    split; [done|]. cbn. rewrite bt_get_insert_ne; [done|]. congruence.
  - unfold detach_callback_capture. destruct (bt_get k _) as [[c cap]|] eqn:E; try done.
    split; [done|]. cbn. rewrite bt_get_insert_ne; [done|]. congruence.
  - unfold modify_tap. by destruct (bt_get key (taps w)).
Qed.

Lemma abi_run_retired (calls : list AbiCall) (token : Z) (w : AudioWorld) :
  abi_ok w -> retired token w -> retired token (abi_run calls w).1.
Proof.
  revert w. induction calls as [|call rest IH]; intros w Hok Hr; cbn [abi_run]; [done|].
  pose proof (abi_exec_ok call w Hok) as H. pose proof (abi_exec_retired call token w Hok Hr) as H'.
  destruct (abi_exec call w) as [w1 ev]. cbn [fst] in *. specialize (IH w1 H H').
  by destruct (abi_run rest w1).
Qed.

(** ** The audio of each stream *)

Definition pushed_to (token : Z) (events : list AbiEvent) : list Z :=
  concat (map (fun e => match e with
                        | EvRingPush k samples => if k =? token then samples else [] | _ => [] end) events).
Definition popped_from (token : Z) (events : list AbiEvent) : list Z :=
  concat (map (fun e => match e with
                        | EvRingPop k samples => if k =? token then samples else [] | _ => [] end) events).

Lemma pushed_to_app (token : Z) (l l' : list AbiEvent) :
  pushed_to token (l ++ l') = pushed_to token l ++ pushed_to token l'.
Proof. unfold pushed_to. by rewrite map_app, concat_app. Qed.
Lemma popped_from_app (token : Z) (l l' : list AbiEvent) :
  popped_from token (l ++ l') = popped_from token l ++ popped_from token l'.
Proof. unfold popped_from. by rewrite map_app, concat_app. Qed.

(** What the ring of [token] holds and how many samples it was given; a token
    without a ring has given none. *)
Definition stream (token : Z) (w : AudioWorld) (q : list Z) (given : Z) : Prop :=
  match bt_get token w.(rings) with
  | Some r => ring_holds r q /\ r.(ring_capacity) <= MAX_RING_CAPACITY_FRAMES
              /\ r.(write_index) * 2 = given
  | None => q = [] /\ given = 0
  end.

(** One call moves the queue of a stream by what it shows of it. *)
Definition moves (token : Z) (w w' : AudioWorld) (events : list AbiEvent) : Prop :=
  forall q given, stream token w q given ->
    given + len (pushed_to token events) <= (usize_max - MAX_RING_CAPACITY_FRAMES) * RENDER_CHANNELS ->
  exists q', stream token w' q' (given + len (pushed_to token events))
    /\ q ++ pushed_to token events = popped_from token events ++ q'.

Lemma moves_same (token : Z) (w w' : AudioWorld) (events : list AbiEvent) :
  bt_get token w'.(rings) = bt_get token w.(rings) ->
  pushed_to token events = [] -> popped_from token events = [] -> moves token w w' events.
Proof.
  intros Hr Hp Hq' q given Hq _. exists q. rewrite Hp, Hq', len_nil, Z.add_0_r, app_nil_r. split; [|done].
  unfold stream. by rewrite Hr.
Qed.

Lemma moves_read (k : Z) (contended : bool) (token : Z) (output : list Z) (w : AudioWorld) :
  abi_ok w -> moves k w (abi_exec (CallRead contended token output) w).1
                (abi_exec (CallRead contended token output) w).2.
Proof.
  intros Hok. cbn [abi_exec]. pose proof (read_impl_facts contended token output w Hok) as H.
  destruct (read_interleaved_f32_impl contended token output w) as [[[status supplied] filled] w'].
  destruct H as [Hreg [(-> & -> & ->)|(r & r' & outcome & _ & Hr & Hread & Hrings & ->)]].
  { apply moves_same; [done|done|]. unfold popped_from. cbn. by destruct (_ =? k). }
  destruct (Z.eqb_spec token k) as [->|Hne].
  2: { apply moves_same; [cbn; by rewrite Hrings, bt_get_insert_ne|done|].
       unfold popped_from. cbn. by rewrite (proj2 (Z.eqb_neq _ _)). }
  intros q given Hq Hroom. unfold stream in Hq. rewrite Hr in Hq. destruct Hq as (Hh & Hcap & Hg).
  change (pushed_to k _) with (@nil Z) in *. rewrite len_nil, Z.add_0_r, app_nil_r in *.
  apply (ring_holds_telemetry r (ring_telemetry (record_callback_invocation r))) in Hh.
  destruct (read_keeps _ _ _ _ _ Hread) as [Hw' Hc']. cbn in Hw', Hc'.
  unfold RENDER_CHANNELS in Hroom.
  destruct (read_holds _ _ _ _ _ _ Hh ltac:(unfold ring_room; cbn; lia) Hread) as (q' & Hsplit & Hh').
  assert (try_from_or_max u32_max outcome.(frames_supplied) = outcome.(frames_supplied)) as ->.
  { assert (outcome.(frames_supplied) <= available_frames r) as Hle
      by (unfold read_frames in Hread; injection Hread as _ _ <-; cbn; unfold available_frames; lia).
    pose proof (ring_holds_bound _ _ Hh) as Hb. unfold available_frames in Hb, Hle. cbn in Hb.
    unfold try_from_or_max, u32_max, MAX_RING_CAPACITY_FRAMES in *.
    by rewrite (proj2 (Z.leb_le _ _)) by lia. }
  exists q'. split.
  - unfold stream. cbn [fst]. rewrite Hrings, bt_get_insert_eq. split_and!; [done|lia|lia].
  - unfold popped_from. cbn. by rewrite Z.eqb_refl, app_nil_r.
Qed.

Lemma moves_push (k token : Z) (frames : list Z) (w : AudioWorld) :
  moves k w (abi_exec (CallPush token frames) w).1 (abi_exec (CallPush token frames) w).2.
Proof.
  cbn [abi_exec]. destruct (bt_get token (rings w)) as [r|] eqn:Hr; [|by apply moves_same].
  destruct (push_frames frames r) as [r' n] eqn:E. cbn [fst snd]. destruct (Z.eqb_spec token k) as [->|Hne].
  2: { apply moves_same; [by apply bt_get_insert_ne| |done].
       unfold pushed_to. cbn. by rewrite (proj2 (Z.eqb_neq _ _)). }
  intros q given Hq. unfold stream in Hq. rewrite Hr in Hq. destruct Hq as (Hh & Hcap & Hg).
  assert (pushed_to k [EvRingPush k (take (Z.to_nat (n * RENDER_CHANNELS)) frames)]
          = take (Z.to_nat (n * RENDER_CHANNELS)) frames) as ->
    by (unfold pushed_to; cbn; by rewrite Z.eqb_refl, app_nil_r).
  intros Hroom. destruct (push_holds _ _ _ _ _ Hh E) as (Hh' & Hw' & Hc').
  { unfold RENDER_CHANNELS in *. lia. }
  eexists. split; [|reflexivity]. unfold stream. cbn [set_rings rings]. rewrite bt_get_insert_eq.
  split_and!; [exact Hh'|lia|lia].
Qed.

Lemma moves_register (k : Z) (config : RenderRingConfig) (w : AudioWorld) :
  abi_ok w ->
  moves k w (abi_exec (CallRegister config) w).1 (abi_exec (CallRegister config) w).2.
Proof.
  intros Hok. cbn [abi_exec]. pose proof (register_facts config w ltac:(apply Hok)) as H.
  destruct (register_render_ring config w) as [[token|e] w']; [|rewrite H; by apply moves_same].
  destruct H as (-> & Hne & r & Hr & ->). set (token := next_token (registry w)) in *.
  destruct (Z.eqb_spec token k) as [<-|Hk]; [|apply moves_same; [by apply bt_get_insert_ne|done|done]].
  destruct (RenderRing_new_ok config r Hr) as [_ Hro]. destruct (RenderRing_new_fresh _ _ Hr) as [Hz Hcap].
  intros q given Hq _. unfold stream in Hq. destruct (bt_get token (rings w)) as [r'|] eqn:E.
  { apply (ab_rings _ Hok), was_issued_iff in E. fold token in E. lia. }
  destruct Hq as [-> ->]. exists []. split; [|done]. unfold stream. cbn [fst snd rings].
  rewrite bt_get_insert_eq. split_and!; [by exists 0, 0|done|by rewrite Hz].
Qed.

Lemma abi_exec_moves (k : Z) (call : AbiCall) (w : AudioWorld) :
  abi_ok w -> moves k w (abi_exec call w).1 (abi_exec call w).2.
Proof.
  intros Hok. destruct call as [config|token|token frames|contended token output|key capacity|token key
    |token|key n]; [by apply moves_register| |apply moves_push|by apply moves_read| | | |]; cbn [abi_exec].
  - apply moves_same; unfold release_render_ring; destruct (bt_get token _) as [[]|]; try done;
      by destruct (was_issued token _).
  - apply moves_same; destruct (bt_get key (taps w)); try done; by destruct (CallbackCaptureTap_new capacity).
  - apply moves_same; [|done|done]. unfold attach_callback_capture. by destruct (bt_get token _) as [[? []]|].
  - apply moves_same; [|done|done]. unfold detach_callback_capture. by destruct (bt_get token _) as [[]|].
  - apply moves_same; [|done|done]. unfold modify_tap. by destruct (bt_get key (taps w)).
Qed.

Lemma abi_run_moves (k : Z) (calls : list AbiCall) (w : AudioWorld) :
  abi_ok w -> moves k w (abi_run calls w).1 (abi_run calls w).2.
Proof.
  revert w. induction calls as [|call rest IH]; intros w Hok; cbn [abi_run]; [by apply moves_same|].
  pose proof (abi_exec_ok call w Hok) as H. pose proof (abi_exec_moves k call w Hok) as Hm.
  destruct (abi_exec call w) as [w1 ev]. cbn [fst snd] in *. specialize (IH w1 H).
  destruct (abi_run rest w1) as [w2 more]. cbn [fst snd] in *. intros q given Hq.
  rewrite pushed_to_app, len_app. intros Hroom. pose proof (len_nonneg (pushed_to k more)).
  destruct (Hm q given Hq ltac:(lia)) as (q1 & Hq1 & E1).
  destruct (IH q1 _ Hq1 ltac:(lia)) as (q2 & Hq2 & E2). exists q2. rewrite Z.add_assoc. split; [done|].
  rewrite popped_from_app, (assoc_L (++)), E1, <- (assoc_L (++)), E2. by rewrite (assoc_L (++)).
Qed.

(** ** Properties *)

(** A released stream is silent for good: once the control plane has released
    a token, no later call (registrations included, since a token is never issued
    twice) makes it audible again: every read through it fills the whole buffer
    with silence, reports that the stream is stopping and changes nothing. *)
Lemma released_token_stays_silent (before after : list AbiCall) (token : Z) (contended : bool)
  (output : list Z) :
  let w := (abi_run before AudioWorld_default).1 in
  (release_render_ring token w).1 = Ok tt ->
  let w' := (abi_run after (release_render_ring token w).2).1 in
  read_interleaved_f32_impl contended token output w'
  = (StatusStopping, 0, repeat 0 (length output), w').
Proof.
  cbv zeta. intros Hrel. set (w := (abi_run before AudioWorld_default).1) in *.
  assert (abi_ok w) as Hok by (apply abi_run_ok, abi_ok_default).
  assert (bt_get token (entries (registry w)) <> None) as Ha.
  { unfold release_render_ring in Hrel. destruct (bt_get token _); [done|].
    by destruct (was_issued token _). }
  destruct (bt_get token (entries (registry w))) as [e|] eqn:E; [|done].
  destruct (ab_entries _ Hok _ _ E) as [_ (r & Hr)].
  pose proof (abi_exec_ok (CallRelease token) w Hok) as Hok'. cbn [abi_exec] in Hok'.
  assert (retired token (release_render_ring token w).2) as Hret.
  { unfold release_render_ring. rewrite E. destruct e. split.
    - exact (ab_rings _ Hok token r Hr).
    - apply bt_get_remove_eq, Hok. }
  apply retired_read, abi_run_retired; [|done].
  destruct (release_render_ring token w) as [[[]|err] w1]; [exact Hok'|done].
Qed.

(** C28. Streams do not mix: over any history of registrations, releases, pushes,
    callback reads and capture operations on any number of streams, the samples a
    stream's callback received from its ring, followed by those the slots of that
    ring still hold, are exactly the samples pushed into the same stream, in order,
    as long as the stream was given at most [usize::MAX - 480000] frames (a day of
    audio on a 32-bit target); and the tokens issued are positive and strictly
    increasing, so no two streams share one. *)
Theorem streams_do_not_mix (calls : list AbiCall) (w : AudioWorld) (events : list AbiEvent)
  (token : Z) :
  abi_run calls AudioWorld_default = (w, events) ->
  len (pushed_to token events) <= (usize_max - MAX_RING_CAPACITY_FRAMES) * RENDER_CHANNELS ->
  StronglySorted Z.lt (0 :: issued events)
  /\ pushed_to token events
     = popped_from token events
       ++ match bt_get token w.(rings) with Some r => ring_contents r | None => [] end.
Proof.
  intros E Hroom. destruct (issued_increasing calls _ abi_ok_default) as [Hs Hf].
  pose proof (abi_run_moves token calls _ abi_ok_default [] 0) as Hm. rewrite E in *. cbn [fst snd] in *.
  split; [constructor; [done|]; eapply Forall_impl; [exact Hf|]; cbn; lia|].
  destruct Hm as (q & Hq & Hmv); [by split|done|]. cbn [app] in Hmv. rewrite Hmv.
  f_equal. unfold stream in Hq. destruct (bt_get token (rings w)); [|apply Hq].
  symmetry. apply ring_holds_contents, Hq.
Qed.
End Abi.

(** ** The capture is exact *)

Section Capture.
Context {t : target}.

(** A tap is a ring without telemetry. *)
Definition ring_of_tap (tap : CallbackCaptureTap) : RingInner :=
  mkRingInner tap.(tap_capacity) tap.(tap_slots) tap.(tap_written) tap.(tap_read)
    RenderRingTelemetry_default.

Definition tap_holds (tap : CallbackCaptureTap) (q : list Z) : Prop := ring_holds (ring_of_tap tap) q.

Lemma record_callback_holds (samples q : list Z) (tap : CallbackCaptureTap) :
  tap_holds tap q ->
  tap.(tap_written) * 2 + len samples + tap.(tap_capacity) * 2 <= usize_max * 2 ->
  exists n, 0 <= n <= len samples / RENDER_CHANNELS
    /\ (record_callback samples tap).(tap_written) = tap.(tap_written) + n
    /\ tap_holds (record_callback samples tap) (q ++ take (Z.to_nat (n * RENDER_CHANNELS)) samples)
    /\ (record_callback samples tap).(tap_lost)
       = wrapping_add 64 tap.(tap_lost) (len samples / RENDER_CHANNELS - n).
Proof.
  intros Hh Hroom. destruct (push_frames samples (ring_of_tap tap)) as [r n] eqn:E.
  assert (len (take (Z.to_nat (n * RENDER_CHANNELS)) samples) <= len samples) as Ht
    by (unfold len; rewrite length_take; lia).
  destruct (push_holds _ _ _ _ _ Hh E) as (Hh' & _ & _); [cbn; unfold RENDER_CHANNELS in *; lia|].
  destruct Hh as (sr & sw & Hro). pose proof (ro_room _ _ Hro). pose proof (ro_range _ _ Hro).
  pose proof (ro_capacity _ _ Hro).
  pose proof (ro_seen_write _ _ Hro). pose proof (ro_seen_read _ _ Hro).
  cbn [ring seen_read seen_write ring_of_tap ring_capacity read_index write_index] in *.
  unfold push_frames in E. cbn [ring_of_tap ring_capacity read_index write_index slots] in E.
  rewrite (usize_sub_small (tap_written tap)), usize_sub_small in E by lia.
  set (m := Z.min _ _) in E. injection E as <- <-. pose proof (len_nonneg samples).
  pose proof (Z.div_pos (len samples) RENDER_CHANNELS ltac:(lia) ltac:(done)).
  pose proof (Z.div_mod (len samples) 2 ltac:(lia)).
  pose proof (Z.mod_pos_bound (len samples) 2 ltac:(lia)).
  assert (Z.min (len samples / RENDER_CHANNELS)
    (saturating_sub (tap_capacity tap) (saturating_sub (tap_written tap) (tap_read tap))) = m) as Em
    by (unfold m, saturating_sub; lia).
  assert (0 <= m <= len samples / RENDER_CHANNELS) as Hm by lia.
  assert (usize_add (tap_written tap) m = tap_written tap + m) as Ew
    by (apply usize_add_small; unfold RENDER_CHANNELS in *; lia).
  exists m. split; [exact Hm|]. unfold record_callback. rewrite Em. split; [exact Ew|]. split; [|done].
  apply (ring_holds_telemetry _ RenderRingTelemetry_default) in Hh'.
  unfold tap_holds, ring_of_tap. cbn [tap_capacity tap_slots tap_written tap_read].
  destruct (Z.ltb_spec 0 m) as [Hp|Hp]; [exact Hh'|].
  rewrite Ew. replace (tap_written tap + m) with (tap_written tap) by lia. exact Hh'.
Qed.

Lemma map_seqZ_take (f : Z -> Z) (n : nat) (q : list Z) :
  (n <= length q)%nat -> (forall j, 0 <= j < Z.of_nat n -> f j = nth (Z.to_nat j) q 0) ->
  map f (seqZ 0 (Z.of_nat n)) = take n q.
Proof.
  induction n as [|n IH]; intros Hl Hf; [done|]. rewrite Nat2Z.inj_succ, <- Z.add_1_r, seqZ_app, map_app by lia.
  rewrite IH by (lia || intros j Hj; apply Hf; lia). cbn [map seqZ].
  destruct (lookup_lt_is_Some_2 q n ltac:(lia)) as [x Hx]. rewrite (take_S_r _ _ x Hx). f_equal.
  change (map f (seqZ (0 + Z.of_nat n) 1)) with [f (0 + (0 + Z.of_nat n))].
  rewrite Hf by lia. rewrite !Z.add_0_l, Nat2Z.id. f_equal. by apply nth_lookup_Some.
Qed.

Lemma tap_drain_holds (n : Z) (q : list Z) (tap : CallbackCaptureTap) :
  0 <= n -> tap_holds tap q -> tap.(tap_written) + tap.(tap_capacity) <= usize_max ->
  exists q', q = (tap_drain n tap).1 ++ q' /\ tap_holds (tap_drain n tap).2 q'.
Proof.
  intros Hn Hh Hroom. pose proof Hh as (sr & sw & Hro). pose proof (ro_range _ _ Hro) as Hmax.
  pose proof (ro_seen_write _ _ Hro) as Hw. pose proof (ro_seen_read _ _ Hro) as Hr.
  cbn [ring seen_read seen_write ring_of_tap ring_capacity read_index write_index slots] in Hmax, Hw, Hr.
  unfold tap_drain. rewrite usize_sub_small by lia. set (m := Z.min _ _). cbn [fst snd].
  destruct (read_frames (repeat 0 (Z.to_nat (m * 2))) (ring_of_tap tap)) as [[r out] outcome] eqn:E.
  destruct (read_holds _ _ _ _ _ _ Hh Hroom E) as (q' & Hq & Hh').
  pose proof (ro_capacity _ _ Hro) as Hcap.
  pose proof (ro_length _ _ Hro) as Hl. pose proof (ro_content _ _ Hro) as Hc.
  cbn [ring seen_read seen_write ring_of_tap ring_capacity read_index write_index slots] in *.
  assert (0 <= m <= tap_written tap - tap_read tap) as Hm by lia.
  unfold read_frames in E. cbn [ring_of_tap ring_capacity read_index write_index slots] in E.
  assert (len (repeat 0 (Z.to_nat (m * 2))) / RENDER_CHANNELS = m) as El.
  { unfold len, RENDER_CHANNELS. rewrite repeat_length, Z2Nat.id by lia. apply Z.div_mul. lia. }
  rewrite El, usize_sub_small, Z.min_l, usize_add_small in E by lia. rewrite usize_add_small by lia.
  injection E as <- _ <-. cbn [frames_supplied] in Hq.
  assert (len q = m * 2 + len q') as Hlq.
  { apply ring_holds_length in Hh'. unfold available_frames, RENDER_CHANNELS in Hh'.
    destruct (Z.ltb_spec 0 m); cbn in Hh', Hl; rewrite usize_sub_small in Hh' by lia; lia. }
  exists q'. split.
  - assert (map (fun k => nth (slot_at (tap_capacity tap) (tap_read tap) k) (tap_slots tap) 0)
      (seqZ 0 (m * RENDER_CHANNELS)) = take (Z.to_nat (m * 2)) q) as ->.
    { replace (m * RENDER_CHANNELS) with (Z.of_nat (Z.to_nat (m * 2))) by (unfold RENDER_CHANNELS; lia).
      apply map_seqZ_take; [unfold len in *; lia|]. intros j Hj. pose proof (half_below j m ltac:(lia)).
      rewrite slot_at_position by lia.
      rewrite <- (Hc j) by (unfold len in *; lia). done. }
    rewrite <- (take_drop (Z.to_nat (m * 2)) q) at 1. f_equal. rewrite Hq.
    apply (f_equal length) in Hq as Hl2. rewrite length_app in Hl2. unfold len in *.
    by rewrite drop_app_length' by lia.
  - apply (ring_holds_telemetry _ RenderRingTelemetry_default) in Hh'.
    unfold tap_holds, ring_of_tap. cbn [tap_capacity tap_slots tap_written tap_read].
    destruct (Z.ltb_spec 0 m) as [Hp|Hp]; [exact Hh'|].
    replace (tap_read tap + m) with (tap_read tap) by lia. exact Hh'.
Qed.

(** The life of a tap: callbacks recorded and parts drained. *)
Inductive TapOp : Type :=
| TapRecord (samples : list Z)
| TapDrain (max_frames : Z).

Fixpoint tap_run (ops : list TapOp) (tap : CallbackCaptureTap) : CallbackCaptureTap * list Z :=
  match ops with
  | [] => (tap, [])
  | TapRecord samples :: rest => tap_run rest (record_callback samples tap)
  | TapDrain n :: rest =>
      let '(out, tap) := tap_drain n tap in
      let '(tap, more) := tap_run rest tap in (tap, out ++ more)
  end.

Definition recorded (ops : list TapOp) : list Z :=
  concat (map (fun op => match op with TapRecord samples => samples | TapDrain _ => [] end) ops).

(** Callbacks deliver whole frames; a drain asks for a number of frames. *)
Definition tap_op_ok (op : TapOp) : Prop :=
  match op with TapRecord samples => len samples mod 2 = 0 | TapDrain n => 0 <= n end.

Lemma tap_run_exact (ops : list TapOp) (tap : CallbackCaptureTap) (q : list Z) :
  tap_holds tap q -> Forall tap_op_ok ops ->
  tap.(tap_written) * 2 + len (recorded ops) + tap.(tap_capacity) * 2 <= usize_max * 2 ->
  exists held lost,
    tap_holds (tap_run ops tap).1 held /\ 0 <= lost
    /\ ((tap_run ops tap).2 ++ held) `sublist_of` (q ++ recorded ops)
    /\ len (q ++ recorded ops) = len ((tap_run ops tap).2 ++ held) + 2 * lost
    /\ wrap 64 (tap_run ops tap).1.(tap_lost) = wrap 64 (tap.(tap_lost) + lost).
Proof.
  revert tap q. induction ops as [|[samples|n] rest IH]; intros tap q Hh Hok Hroom; cbn [tap_run].
  - exists q, 0. change (recorded []) with (@nil Z). cbn [fst snd app]. rewrite app_nil_r.
    split_and!; [done|lia|done|lia|f_equal; lia].
  - apply Forall_cons in Hok as [Hev Hok]. cbn in Hev.
    change (recorded (TapRecord samples :: rest)) with (samples ++ recorded rest) in *.
    rewrite len_app in Hroom. pose proof (len_nonneg (recorded rest)).
    destruct (record_callback_holds samples q tap Hh ltac:(lia)) as (n & Hn & Hw & Hh' & Hlost).
    pose proof (Z.div_mod (len samples) 2 ltac:(lia)).
    destruct (IH _ _ Hh' Hok) as (held & lost & H1 & H2 & H3 & H4 & H5).
    { rewrite Hw. change (tap_capacity (record_callback samples tap)) with (tap_capacity tap).
      unfold RENDER_CHANNELS in *. lia. }
    exists held, (len samples / 2 - n + lost). unfold RENDER_CHANNELS in *.
    split_and!; [done|lia| | |].
    + etrans; [exact H3|]. rewrite <- (assoc_L (++)).
      apply sublist_app; [reflexivity|]. apply sublist_app; [apply sublist_take|reflexivity].
    + unfold len in *. rewrite !length_app, length_take in *.
      pose proof (Z.div_mod (Z.of_nat (length samples)) 2 ltac:(lia)). lia.
    + rewrite H5, Hlost. unfold wrapping_add, wrap. rewrite Zplus_mod_idemp_l. f_equal. lia.
  - apply Forall_cons in Hok as [Hn Hok]. change (recorded (TapDrain n :: rest)) with (recorded rest) in *. pose proof (len_nonneg (recorded rest)).
    destruct (tap_drain_holds n q tap Hn Hh ltac:(lia)) as (q' & -> & Hh').
    destruct (IH _ _ Hh' Hok Hroom) as (held & lost & H1 & H2 & H3 & H4 & H5). exists held, lost.
    assert ((tap_drain n tap).2.(tap_lost) = tap.(tap_lost)) as Hl by done.
    destruct (tap_drain n tap) as [out tap']. cbn [fst snd] in *.
    destruct (tap_run rest tap') as [tap'' more]. cbn [fst snd] in *.
    rewrite <- !(assoc_L (++)). split_and!; [done|done|by apply sublist_app| |congruence].
    unfold len in *. rewrite !length_app in *. lia.
Qed.

(** The capture is exact: what was drained from a tap followed by what it still
    holds is what the callback output, in order, less the frames counted as lost;
    with none lost it is the callback's output sample for sample. *)
Lemma capture_is_exact (capacity : Z) (tap : CallbackCaptureTap) (ops : list TapOp) :
  CallbackCaptureTap_new capacity = Some tap -> Forall tap_op_ok ops ->
  len (recorded ops) <= (usize_max - capacity) * RENDER_CHANNELS ->
  let '(tap', drained) := tap_run ops tap in
  exists held lost,
    tap_holds tap' held /\ (drained ++ held) `sublist_of` recorded ops
    /\ len (recorded ops) = len (drained ++ held) + 2 * lost
    /\ wrap 64 tap'.(tap_lost) = wrap 64 lost
    /\ (lost = 0 -> drained ++ held = recorded ops).
Proof.
  intros Hnew Hok Hroom. unfold CallbackCaptureTap_new in Hnew. destruct (in_range _ _ _) eqn:Hr; [|done].
  cbn [negb] in Hnew. injection Hnew as <-. apply in_range_iff in Hr. unfold MIN_CAPTURE_FRAMES in Hr.
  pose proof (len_nonneg (recorded ops)). unfold RENDER_CHANNELS in Hroom.
  set (tap := mkCallbackCaptureTap _ _ _ _ _ _).
  assert (tap_holds tap []) as Hh.
  { exists 0, 0. unfold tap, RENDER_CHANNELS. split; cbn; try done; try lia.
    - unfold len. rewrite repeat_length. lia.
    - unfold len. cbn. lia. }
  destruct (tap_run_exact ops tap [] Hh Hok) as (held & lost & H1 & H2 & H3 & H4 & H5);
    [cbn; lia|].
  destruct (tap_run ops tap) as [tap' drained]. cbn [fst snd app] in *. exists held, lost.
  split_and!; try done. intros ->. apply sublist_full; [done|]. unfold len in H4. lia.
Qed.
End Capture.

(** ** Witnesses *)

(** Two streams are opened, the first plays half of what it was given and is
    released. *)
Definition sample_calls : list AbiCall :=
  [CallRegister sample_ring_config; CallRegister sample_ring_config; CallPush 1 [7; 8; 9; 10];
   CallPush 2 [5; 6]; CallRead false 1 [0; 0]; CallRead true 2 [0; 0]].

Lemma released_token_stays_silent_witness :
  read_interleaved_f32_impl (t := Target64) false 1 [3; 3; 3]
    (abi_run (t := Target64) [CallRegister sample_ring_config; CallPush 1 [4; 4]]
       (release_render_ring 1 (abi_run (t := Target64) sample_calls AudioWorld_default).1).2).1
  = (StatusStopping, 0, repeat 0 3,
     (abi_run (t := Target64) [CallRegister sample_ring_config; CallPush 1 [4; 4]]
       (release_render_ring 1 (abi_run (t := Target64) sample_calls AudioWorld_default).1).2).1).
Proof.
  apply (released_token_stays_silent (t := Target64) sample_calls
           [CallRegister sample_ring_config; CallPush 1 [4; 4]] 1 false [3; 3; 3]).
  vm_compute. reflexivity.
Defined.

Lemma streams_do_not_mix_witness :
  let events := [EvIssued 1; EvIssued 2; EvRingPush 1 [7; 8; 9; 10]; EvRingPush 2 [5; 6];
                 EvRingPop 1 [7; 8]; EvRingPop 2 []] in
  exists w, abi_run (t := Target32) sample_calls AudioWorld_default = (w, events)
    /\ exists r, bt_get 1 w.(rings) = Some r /\ ring_contents (t := Target32) r = [9; 10].
Proof.
  cbv zeta. destruct (abi_run (t := Target32) sample_calls AudioWorld_default) as [w events] eqn:E.
  assert (events = [EvIssued 1; EvIssued 2; EvRingPush 1 [7; 8; 9; 10]; EvRingPush 2 [5; 6];
    EvRingPop 1 [7; 8]; EvRingPop 2 []]) as -> by (vm_compute in E; by injection E).
  exists w. split; [reflexivity|].
  destruct (streams_do_not_mix (t := Target32) sample_calls w _ 1 E) as [_ H];
    [vm_compute; discriminate|].
  destruct (bt_get 1 (rings w)) as [r|] eqn:Er; [|vm_compute in H; discriminate H].
  exists r. split; [reflexivity|]. cbn in H. by injection H.
Defined.
