(* ===== verification/ListenerPlayback.v ===== *)
(** The listener's playback runtime of the FFI crate
    (src/rust/silent-disco-ffi/src/listener_playback, files runtime.rs and
    pump.rs): the clock estimator and the playback pump behind one handle, the
    thread that drives the pump, and the stop sequence.

    The render ring is the one of the runtime's token in the shared store of
    [AudioAbi], where the callback reads it.  Operations that run under the pump's
    or the estimator's mutex are single steps; [observe_sync_response], the pump
    thread and [stop] take several, and other calls may come in between.  A panic
    of the pump thread, which its containment turns into a terminal failure, is a
    step of its own.  Error messages and the debug capture are not modelled. *)
From Stdlib Require Import ZArith Lia Strings.String.
From stdpp Require Import numbers list prelude.
From S2P Require Import Prelude BTreeMap Utf8 Float64 Domain ProtocolTypes ClockSync Concealment.
From S2P Require Import JitterBuffer Scheduler RenderRing PlaybackPump AudioAbi.

(** ** Pump thread internals (pump.rs) *)

Definition MAX_FRAMES_PER_TICK : nat := 512.
Definition RING_DRAIN_POLL_INTERVAL_MS : Z := 5.
Definition RING_DRAIN_TIMEOUT_MS : Z := 2000.
Definition RING_DRAIN_STALL_LIMIT_MS : Z := 150.

Inductive ListenerPlaybackError : Type :=
| PlaybackInvalidConfiguration | PlaybackStopped | PlaybackPumpThread | PlaybackSync.

Section Listener.
Context {t : target}.

(** The loop [for _ in 0..n], which stops at the first tick that moves nothing. *)
Fixpoint drain_ticks (n : nat) (now_ms released : Z) (p : PlaybackPump) : Z * PlaybackPump :=
  match n with
  | O => (released, p)
  | S n =>
      let '(outcome, p) := tick now_ms p in
      match outcome with
      | TickQueued _ _ _ | TickFlushedPending _ => drain_ticks n now_ms (released + 1) p
      | _ => (released, p)
      end
  end.

Definition drain_due_frames (now_ms : Z) (p : PlaybackPump) : Z * PlaybackPump :=
  drain_ticks MAX_FRAMES_PER_TICK now_ms 0 p.

(** ** The runtime (runtime.rs) *)

(** [Shared] and the handle; the store stands for the process-wide registry. *)
Record ListenerPlaybackRuntime : Type := mkListenerPlaybackRuntime {
shared_pump : PlaybackPump;
shared_estimator : ClockSyncEstimator;
running : bool;
tick_count : Z;
last_tick_ms : Z;
contained_panics : Z;
terminal_failure : bool;
engine_token : Z;
stopped : bool;
last_diagnostics : option PlaybackDiagnostics;
world : AudioWorld
}.

Definition set_shared_pump (p : PlaybackPump) (l : ListenerPlaybackRuntime) : ListenerPlaybackRuntime :=
  mkListenerPlaybackRuntime p l.(shared_estimator) l.(running) l.(tick_count) l.(last_tick_ms)
    l.(contained_panics) l.(terminal_failure) l.(engine_token) l.(stopped) l.(last_diagnostics)
    l.(world).
Definition set_estimator (e : ClockSyncEstimator) (l : ListenerPlaybackRuntime) :
  ListenerPlaybackRuntime :=
  mkListenerPlaybackRuntime l.(shared_pump) e l.(running) l.(tick_count) l.(last_tick_ms)
    l.(contained_panics) l.(terminal_failure) l.(engine_token) l.(stopped) l.(last_diagnostics)
    l.(world).
Definition set_lifecycle (running stopped failure : bool) (panics : Z) (l : ListenerPlaybackRuntime) :
  ListenerPlaybackRuntime :=
  mkListenerPlaybackRuntime l.(shared_pump) l.(shared_estimator) running l.(tick_count)
    l.(last_tick_ms) panics failure l.(engine_token) stopped l.(last_diagnostics) l.(world).
Definition set_ticks (count now_ms : Z) (l : ListenerPlaybackRuntime) : ListenerPlaybackRuntime :=
  mkListenerPlaybackRuntime l.(shared_pump) l.(shared_estimator) l.(running) count now_ms
    l.(contained_panics) l.(terminal_failure) l.(engine_token) l.(stopped) l.(last_diagnostics)
    l.(world).
Definition set_last_diagnostics (d : PlaybackDiagnostics) (l : ListenerPlaybackRuntime) :
  ListenerPlaybackRuntime :=
  mkListenerPlaybackRuntime l.(shared_pump) l.(shared_estimator) l.(running) l.(tick_count)
    l.(last_tick_ms) l.(contained_panics) l.(terminal_failure) l.(engine_token) l.(stopped) (Some d)
    l.(world).
Definition set_world (w : AudioWorld) (l : ListenerPlaybackRuntime) : ListenerPlaybackRuntime :=
  mkListenerPlaybackRuntime l.(shared_pump) l.(shared_estimator) l.(running) l.(tick_count)
    l.(last_tick_ms) l.(contained_panics) l.(terminal_failure) l.(engine_token) l.(stopped)
    l.(last_diagnostics) w.

(** The pump as it is now: its producer end refers to the ring in the store. *)
Definition lock_pump (l : ListenerPlaybackRuntime) : PlaybackPump :=
  match bt_get l.(engine_token) l.(world).(rings) with
  | Some r => set_ring r l.(shared_pump)
  | None => l.(shared_pump)
  end.

(** [f] run on the locked pump. *)
Definition with_pump {A : Type} (f : PlaybackPump -> A * PlaybackPump) (l : ListenerPlaybackRuntime) :
  A * ListenerPlaybackRuntime :=
  let '(a, p) := f (lock_pump l) in
  (a, set_world (modify_ring l.(engine_token) (fun _ => p.(pump_ring)) l.(world)) (set_shared_pump p l)).

(** [start]; [spawned] says whether the pump thread could be created. *)
Definition start (scheduler_config : SchedulerConfig) (ring_config : RenderRingConfig)
  (pump_config : PlaybackPumpConfig) (initial_offset_ms : f64) (spawned : bool) (w : AudioWorld) :
  result ListenerPlaybackRuntime ListenerPlaybackError * AudioWorld :=
  match PlaybackScheduler_new scheduler_config initial_offset_ms with
  | Err _ => (Err PlaybackInvalidConfiguration, w)
  | Ok scheduler =>
      match register_render_ring ring_config w with
      | (Err _, w) => (Err PlaybackInvalidConfiguration, w)
      | (Ok token, w) =>
          match bt_get token w.(rings) with
          | None => (Err PlaybackInvalidConfiguration, w)
          | Some producer =>
              match PlaybackPump_new scheduler producer pump_config with
              | Err _ => (Err PlaybackInvalidConfiguration, (release_render_ring token w).2)
              | Ok pump =>
                  match ClockSyncEstimator_new SyncEstimatorConfig_default with
                  | Err _ => (Err PlaybackInvalidConfiguration, (release_render_ring token w).2)
                  | Ok estimator =>
                      if negb spawned
                      then (Err PlaybackPumpThread, (release_render_ring token w).2)
                      else (Ok (mkListenerPlaybackRuntime pump estimator true 0 0 0 false token false
                                  None w), w)
                  end
              end
          end
      end
  end.

Definition ensure_running (l : ListenerPlaybackRuntime) : result unit ListenerPlaybackError :=
  if l.(terminal_failure) then Err PlaybackPumpThread
  else if negb l.(stopped) && l.(running) then Ok tt
  else Err PlaybackStopped.

(** A call that takes the pump's lock, checks the runtime and then runs [f]. *)
Definition guarded {A : Type} (f : PlaybackPump -> result A ListenerPlaybackError * PlaybackPump)
  (l : ListenerPlaybackRuntime) : result A ListenerPlaybackError * ListenerPlaybackRuntime :=
  match ensure_running l with
  | Err e => (Err e, l)
  | Ok _ => with_pump f l
  end.

(** A rejected packet is not a failure of the runtime. *)
Definition runtime_submit_packet (d : AudioDatagram) (l : ListenerPlaybackRuntime) :
  result unit ListenerPlaybackError * ListenerPlaybackRuntime :=
  guarded (fun p => (Ok tt, (pump_submit d p).2)) l.

Definition reanchor_presentation_time (host_start_time_ms : Z) (l : ListenerPlaybackRuntime) :
  result unit ListenerPlaybackError * ListenerPlaybackRuntime :=
  guarded (fun p => (Ok tt, set_scheduler (set_host_start_time_ms host_start_time_ms p.(scheduler)) p)) l.

(** [local_now_ms] is the pump clock sampled before the lock is taken. *)
Definition lock_same_process_host_clock (host_monotonic_now_ms local_now_ms : Z)
  (l : ListenerPlaybackRuntime) : result unit ListenerPlaybackError * ListenerPlaybackRuntime :=
  let offset := f64_sub (f64_of_Z host_monotonic_now_ms) (f64_of_Z local_now_ms) in
  guarded (fun p => (Ok tt, (apply_sync_offset offset p).2)) l.

Definition runtime_set_volume (v : f32) (l : ListenerPlaybackRuntime) :
  result unit ListenerPlaybackError * ListenerPlaybackRuntime :=
  guarded (fun p => let '(r, p) := set_volume v p in
                    (map_err (fun _ => PlaybackInvalidConfiguration) r, p)) l.

Definition begin_sync_probe (correlation_id local_send_time_ms : Z) (l : ListenerPlaybackRuntime) :
  result unit ListenerPlaybackError * ListenerPlaybackRuntime :=
  match ensure_running l with
  | Err e => (Err e, l)
  | Ok _ =>
      let '(r, e) := begin_probe correlation_id local_send_time_ms l.(shared_estimator) in
      (map_err (fun _ => PlaybackSync) r, set_estimator e l)
  end.

(** The first half of [observe_sync_response], under the estimator's lock. *)
Definition observe_estimate (correlation_id echoed_local_send_time_ms host_receive_time_ms
  host_send_time_ms local_receive_time_ms : Z) (l : ListenerPlaybackRuntime) :
  result SyncObservation ListenerPlaybackError * ListenerPlaybackRuntime :=
  match ensure_running l with
  | Err e => (Err e, l)
  | Ok _ =>
      let '(r, e) := observe_response correlation_id echoed_local_send_time_ms host_receive_time_ms
                       host_send_time_ms local_receive_time_ms l.(shared_estimator) in
      (map_err (fun _ => PlaybackSync) r, set_estimator e l)
  end.

Record SyncSampleOutcome : Type := mkSyncSampleOutcome {
outcome_accepted : bool;
outcome_offset_ms : f64;
outcome_skew_ppm : f64;
outcome_round_trip_time_ms : f64;
outcome_jitter_ms : f64;
outcome_confidence : SyncConfidence;
outcome_accepted_sample_count : Z;
outcome_sync_locked : bool;
outcome_rejected_sample_count : Z;
outcome_elapsed_ms : Z;
outcome_rtt_limit_ms : f64;
outcome_degraded_lock : bool
}.

Definition sample_outcome (o : SyncObservation) (locked : bool) : SyncSampleOutcome :=
  let s := o.(observation_snapshot) in
  let a := o.(observation_acquisition) in
  mkSyncSampleOutcome o.(observation_accepted) s.(snapshot_offset_ms) s.(snapshot_skew_ppm)
    s.(snapshot_round_trip_time_ms) s.(snapshot_jitter_ms) s.(snapshot_confidence)
    s.(accepted_sample_count) locked a.(rejected_sample_count) a.(status_elapsed_ms)
    a.(status_effective_rtt_limit_ms) a.(status_degraded_lock).

(** The second half, under the pump's lock: only an accepted sample reaches the
    playback timeline. *)
Definition observe_apply (o : SyncObservation) (l : ListenerPlaybackRuntime) :
  result SyncSampleOutcome ListenerPlaybackError * ListenerPlaybackRuntime :=
  if o.(observation_accepted)
  then guarded (fun p => let p := (apply_sync_offset o.(observation_snapshot).(snapshot_offset_ms) p).2 in
                         (Ok (sample_outcome o p.(sync_locked)), p)) l
  else (Ok (sample_outcome o (lock_pump l).(sync_locked)), l).

(** One wake-up of [run_pump] after its check of [running]. *)
Definition pump_wake (now_ms : Z) (l : ListenerPlaybackRuntime) : ListenerPlaybackRuntime :=
  set_ticks (wrapping_add 64 l.(tick_count) 1) now_ms l.
Definition pump_drain (now_ms : Z) (l : ListenerPlaybackRuntime) : ListenerPlaybackRuntime :=
  (with_pump (drain_due_frames now_ms) l).2.

(** What [run_pump_contained] does with a panic. *)
Definition contain_panic (l : ListenerPlaybackRuntime) : ListenerPlaybackRuntime :=
  set_lifecycle false l.(stopped) true (wrapping_add 64 l.(contained_panics) 1) l.

(** ** Stopping *)

(** [await_ring_drain] between two iterations. *)
Record DrainWait : Type := mkDrainWait {
wait_deadline : Z;
wait_last_queued : Z;
wait_stalled_for : Z
}.

Definition drain_wait_start (instant : Z) : DrainWait :=
  mkDrainWait (instant + RING_DRAIN_TIMEOUT_MS) usize_max 0.

(** What an iteration decides once it has read the ring's depth: [None] when the
    loop returns, else the state in which it sleeps. *)
Definition drain_decision (queued instant : Z) (s : DrainWait) : option DrainWait :=
  if queued =? 0 then None
  else
    let stalled := if queued <? s.(wait_last_queued) then 0
                   else s.(wait_stalled_for) + RING_DRAIN_POLL_INTERVAL_MS in
    if negb (queued <? s.(wait_last_queued)) && (RING_DRAIN_STALL_LIMIT_MS <=? stalled) then None
    else if s.(wait_deadline) <=? instant then None
    else Some (mkDrainWait s.(wait_deadline) queued stalled).

Definition drain_iteration (now_ms instant : Z) (s : DrainWait) (l : ListenerPlaybackRuntime) :
  option DrainWait * ListenerPlaybackRuntime :=
  let l := pump_drain now_ms l in
  (drain_decision (diagnostics (lock_pump l)).(diag_ring_queued_frames) instant s, l).

(** [append_failure]: what is reported when cleaning up fails as well. *)
Definition append_failure (primary : option ListenerPlaybackError) (cleanup : ListenerPlaybackError) :
  option ListenerPlaybackError :=
  match primary with Some _ => Some PlaybackPumpThread | None => Some cleanup end.

(** The end of [stop], once the thread is joined: the ring is released and the
    failures are collected. *)
Definition stop_release (l : ListenerPlaybackRuntime) :
  result unit ListenerPlaybackError * ListenerPlaybackRuntime :=
  let '(released, w) := release_render_ring l.(engine_token) l.(world) in
  let failure := if l.(terminal_failure) then Some PlaybackPumpThread else None in
  let failure := match released with
                 | Ok _ => failure
                 | Err _ => append_failure failure PlaybackInvalidConfiguration
                 end in
  (match failure with Some e => Err e | None => Ok tt end, set_world w l).

(** ** All threads together *)

Inductive StopPc : Type :=
| StopNotCalled                    (* no call of [stop] has claimed the runtime *)
| StopMarked                       (* [stopped] is set *)
| StopCleared                      (* [running] is cleared *)
| StopWaiting (wait : DrainWait)   (* the scheduler is finished, the ring drains *)
| StopDrained                      (* [await_ring_drain] has returned *)
| StopSummarized                   (* the last diagnostics are stored *)
| StopDone (r : result unit ListenerPlaybackError).

Inductive PumpPc : Type := PumpChecking | PumpAwake (now_ms : Z) | PumpExited.

Record System : Type := mkSystem {
sys_runtime : ListenerPlaybackRuntime;
sys_stop : StopPc;
sys_pump : PumpPc;
sys_observed : list SyncObservation
}.

(** A call of the platform that is one critical section. *)
Inductive ListenerCall : Type :=
| CallSubmit (d : AudioDatagram)
| CallReanchor (host_start_time_ms : Z)
| CallLockClock (host_monotonic_now_ms local_now_ms : Z)
| CallVolume (v : f32)
| CallProbe (correlation_id local_send_time_ms : Z).

Definition listener_exec (call : ListenerCall) (l : ListenerPlaybackRuntime) :
  result unit ListenerPlaybackError * ListenerPlaybackRuntime :=
  match call with
  | CallSubmit d => runtime_submit_packet d l
  | CallReanchor h => reanchor_presentation_time h l
  | CallLockClock h n => lock_same_process_host_clock h n l
  | CallVolume v => runtime_set_volume v l
  | CallProbe id at_ms => begin_sync_probe id at_ms l
  end.

(** What the rest of the process does to the shared store: the callback reads any
    stream, other streams come, play and go. *)
Definition foreign (token : Z) (call : AbiCall) : bool :=
  match call with
  | CallRelease k | CallPush k _ => negb (k =? token)
  | _ => true
  end.

Inductive sys_step : System -> System -> Prop :=
| st_call l s p obs call : sys_step (mkSystem l s p obs) (mkSystem (listener_exec call l).2 s p obs)
| st_estimate l s p obs id t1 t2 t3 t4 r l' :
    observe_estimate id t1 t2 t3 t4 l = (r, l') ->
    sys_step (mkSystem l s p obs) (mkSystem l' s p (match r with Ok o => obs ++ [o] | Err _ => obs end))
| st_apply l s p before o after :
    sys_step (mkSystem l s p (before ++ o :: after)) (mkSystem (observe_apply o l).2 s p (before ++ after))
| st_check l s obs now_ms :
    sys_step (mkSystem l s PumpChecking obs)
      (if l.(running) then mkSystem (pump_wake now_ms l) s (PumpAwake now_ms) obs
       else mkSystem l s PumpExited obs)
| st_drain l s obs now_ms :
    sys_step (mkSystem l s (PumpAwake now_ms) obs) (mkSystem (pump_drain now_ms l) s PumpChecking obs)
| st_panic l s obs now_ms n :
    sys_step (mkSystem l s (PumpAwake now_ms) obs)
      (mkSystem (contain_panic (with_pump (drain_ticks n now_ms 0) l).2) s PumpExited obs)
| st_stop_call l p obs :
    l.(stopped) = false ->
    sys_step (mkSystem l StopNotCalled p obs)
      (mkSystem (set_lifecycle l.(running) true l.(terminal_failure) l.(contained_panics) l)
         StopMarked p obs)
| st_stop_clear l p obs :
    sys_step (mkSystem l StopMarked p obs)
      (mkSystem (set_lifecycle false l.(stopped) l.(terminal_failure) l.(contained_panics) l)
         StopCleared p obs)
| st_stop_finish l p obs instant :
    sys_step (mkSystem l StopCleared p obs)
      (mkSystem (with_pump finish l).2 (StopWaiting (drain_wait_start instant)) p obs)
| st_stop_wait l wait p obs now_ms instant next l' :
    drain_iteration now_ms instant wait l = (next, l') ->
    sys_step (mkSystem l (StopWaiting wait) p obs)
      (mkSystem l' (match next with Some wait => StopWaiting wait | None => StopDrained end) p obs)
| st_stop_summary l p obs :
    sys_step (mkSystem l StopDrained p obs)
      (mkSystem (set_last_diagnostics (diagnostics (lock_pump l)) l) StopSummarized p obs)
| st_stop_join l obs r l' :
    stop_release l = (r, l') ->
    sys_step (mkSystem l StopSummarized PumpExited obs) (mkSystem l' (StopDone r) PumpExited obs)
| st_foreign l s p obs call :
    foreign l.(engine_token) call = true ->
    sys_step (mkSystem l s p obs) (mkSystem (set_world (abi_exec call l.(world)).1 l) s p obs).

Inductive sys_run (s0 : System) : System -> Prop :=
| sys_start : sys_run s0 s0
| sys_next s s' : sys_run s0 s -> sys_step s s' -> sys_run s0 s'.

(** ** What a locked operation leaves alone *)

Definition same_frame (l l' : ListenerPlaybackRuntime) : Prop :=
  l'.(running) = l.(running) /\ l'.(stopped) = l.(stopped)
  /\ l'.(terminal_failure) = l.(terminal_failure) /\ l'.(engine_token) = l.(engine_token)
  /\ l'.(world).(registry) = l.(world).(registry).

(** The store's invariant and the ring of this runtime in it. *)
Definition store_ok (l : ListenerPlaybackRuntime) : Prop :=
  abi_ok l.(world) /\ exists r, bt_get l.(engine_token) l.(world).(rings) = Some r.

Lemma with_pump_facts {A : Type} (f : PlaybackPump -> A * PlaybackPump) (l : ListenerPlaybackRuntime) :
  same_frame l (with_pump f l).2
  /\ (with_pump f l).2.(shared_pump) = (f (lock_pump l)).2
  /\ (store_ok l -> store_ok (with_pump f l).2).
Proof.
  unfold with_pump. destruct (f (lock_pump l)) as [a p]. cbn [snd].
  assert (registry (modify_ring (engine_token l) (fun _ => pump_ring p) (world l)) = registry (world l)) as Hr
    by (unfold modify_ring; by destruct (bt_get _ _)).
  split; [by split_and!|]. split; [done|]. intros [Hok (r & Hring)]. unfold store_ok.
  cbn [set_world set_shared_pump world engine_token]. unfold modify_ring. rewrite Hring. split.
  - by eapply abi_ok_ring.
  - eexists. apply bt_get_insert_eq.
Qed.

Lemma lock_pump_scheduler (l : ListenerPlaybackRuntime) :
  (lock_pump l).(scheduler) = l.(shared_pump).(scheduler).
Proof. unfold lock_pump. by destruct (bt_get _ _). Qed.

(** ** A finished scheduler *)

Definition finished (p : PlaybackPump) : Prop :=
  p.(scheduler).(sch_state) = SStopped /\ p.(scheduler).(jitter_buffer).(jb_packets) = [].

Lemma realign_finished (now : Z) (s : PlaybackScheduler) :
  s.(sch_state) = SStopped -> s.(jitter_buffer).(jb_packets) = [] ->
  (realign_to_now now s).(sch_state) = SStopped
  /\ (realign_to_now now s).(jitter_buffer).(jb_packets) = [].
Proof.
  intros Hs Hp. unfold realign_to_now, discard_already_late_head, discard_fuel. rewrite Hp. cbn. by split.
Qed.

Lemma tick_finished (now : Z) (p : PlaybackPump) : finished p -> finished (tick now p).2.
Proof.
  intros [Hs Hp]. destruct (sync_locked p) eqn:El; [|unfold tick; rewrite El; by split].
  rewrite (tick_unfold _ _ El). set (p1 := realign_after_output_underrun now p).
  assert (finished p1) as [Hs1 Hp1].
  { unfold p1, realign_after_output_underrun. destruct (negb _); [by split|]. destruct (_ <=? _); [by split|].
    by apply realign_finished. }
  unfold tick_body. destruct (pending p1).
  - destruct (_ <=? _); [by split|]. cbn [set_peak_queued scheduler].
    unfold poll_with_release_horizon. rewrite Hs1. by split.
  - pose proof (flush_pending_facts p1) as [_ [H _]]. destruct (flush_pending p1) as [n p2].
    cbn [snd] in H. unfold finished. destruct (pending p2); cbn; by rewrite H.
Qed.

Lemma drain_ticks_finished (n : nat) (now released : Z) (p : PlaybackPump) :
  finished p -> finished (drain_ticks n now released p).2.
Proof.
  revert released p. induction n as [|n IH]; intros released p H; cbn [drain_ticks]; [done|].
  pose proof (tick_finished now p H) as Ht. destruct (tick now p) as [outcome p1]. cbn [snd] in Ht.
  destruct outcome; try done; by apply IH.
Qed.

Lemma finish_finished (p : PlaybackPump) : finished (finish p).2.
Proof.
  unfold finish. destruct (drain_remaining_meta (scheduler p)) as (_ & Hj & _).
  destruct (drain_remaining (scheduler p)) as [drained s]. cbn [snd] in Hj.
  pose proof (enqueue_all_facts drained 0 (set_scheduler s p)) as [_ [H _]].
  destruct (enqueue_all drained 0 (set_scheduler s p)) as [w p1]. cbn in *. split; cbn; [done|].
  rewrite H, Hj. unfold drain_all. by destruct (drain_scan _ _ _).
Qed.

(** ** The store under foreign calls *)

Lemma abi_exec_keeps_ring (call : AbiCall) (token : Z) (w : AudioWorld) (r : RingInner) :
  abi_ok w -> bt_get token w.(rings) = Some r ->
  exists r', bt_get token (abi_exec call w).1.(rings) = Some r'.
Proof.
  intros Hok Hr.
  assert (forall k x, exists r', bt_get token (bt_insert k x (rings w)) = Some r') as Hins.
  { intros k x. destruct (decide (k = token)) as [->|Hne]; [exists x; apply bt_get_insert_eq|].
    exists r. by rewrite bt_get_insert_ne. }
  destruct call as [config|k|k frames|contended k output|key capacity|k key|k|key n]; cbn [abi_exec].
  - pose proof (register_facts config w ltac:(apply Hok)) as H.
    destruct (register_render_ring config w) as [[k|e] w']; [|rewrite H; by exists r].
    destruct H as (_ & _ & r' & _ & ->). apply Hins.
  - exists r. unfold release_render_ring. destruct (bt_get k (entries _)) as [[]|]; [done|].
    by destruct (was_issued k _).
  - destruct (bt_get k (rings w)) as [rk|]; [|by exists r]. destruct (push_frames frames rk). apply Hins.
  - pose proof (read_impl_facts contended k output w Hok) as H.
    destruct (read_interleaved_f32_impl contended k output w) as [[[status supplied] filled] w'].
    destruct H as [_ [(-> & _ & _)|(r0 & r' & outcome & _ & _ & _ & Hrings & _)]]; [by exists r|].
    cbn [fst]. rewrite Hrings. apply Hins.
  - exists r. destruct (bt_get key (taps w)); [done|]. by destruct (CallbackCaptureTap_new capacity).
  - exists r. unfold attach_callback_capture. by destruct (bt_get k (entries _)) as [[? []]|].
  - exists r. unfold detach_callback_capture. by destruct (bt_get k (entries _)) as [[]|].
  - exists r. unfold modify_tap. by destruct (bt_get key (taps w)).
Qed.

Lemma foreign_keeps_entry (call : AbiCall) (token : Z) (w : AudioWorld) :
  abi_ok w -> foreign token call = true -> bt_get token w.(registry).(entries) <> None ->
  bt_get token (abi_exec call w).1.(registry).(entries) <> None.
Proof.
  intros Hok Hf He.
  assert (forall k x, bt_get token (bt_insert k x (entries (registry w))) <> None) as Hins.
  { intros k x. destruct (decide (k = token)) as [->|Hne]; [by rewrite bt_get_insert_eq|].
    by rewrite bt_get_insert_ne. }
  destruct call as [config|k|k frames|contended k output|key capacity|k key|k|key n]; cbn [abi_exec].
  - pose proof (register_facts config w ltac:(apply Hok)) as H.
    destruct (register_render_ring config w) as [[k|e] w']; [|by rewrite H].
    destruct H as (_ & _ & r' & _ & ->). apply Hins.
  - cbn in Hf. assert (k <> token) as Hne by (intros ->; by rewrite Z.eqb_refl in Hf).
    assert (bt_get token (bt_remove k (entries (registry w))) <> None) as H by (by rewrite bt_get_remove_ne).
    unfold release_render_ring. destruct (bt_get k (entries _)) as [[]|]; [done|].
    by destruct (was_issued k _).
  - destruct (bt_get k (rings w)); [|done]. by destruct (push_frames _ _).
  - pose proof (read_impl_facts contended k output w Hok) as H.
    destruct (read_interleaved_f32_impl contended k output w) as [[[status supplied] filled] w'].
    destruct H as [Hreg _]. cbn [fst]. by rewrite Hreg.
  - destruct (bt_get key (taps w)); [done|]. by destruct (CallbackCaptureTap_new capacity).
  - unfold attach_callback_capture. destruct (bt_get k (entries _)) as [[? []]|]; try done. apply Hins.
  - unfold detach_callback_capture. destruct (bt_get k (entries _)) as [[]|]; try done. apply Hins.
  - unfold modify_tap. by destruct (bt_get key (taps w)).
Qed.

(** ** The invariant *)

Definition stop_result (l : ListenerPlaybackRuntime) : result unit ListenerPlaybackError :=
  if l.(terminal_failure) then Err PlaybackPumpThread else Ok tt.

Record sys_ok (s : System) : Prop := mkSysOk {
so_store : store_ok s.(sys_runtime);
so_stopped : s.(sys_stop) <> StopNotCalled -> s.(sys_runtime).(stopped) = true;
so_finished :
  match s.(sys_stop) with
  | StopWaiting _ | StopDrained | StopSummarized | StopDone _ => finished s.(sys_runtime).(shared_pump)
  | _ => True
  end;
so_registered :
  match s.(sys_stop) with
  | StopDone r =>
      retired s.(sys_runtime).(engine_token) s.(sys_runtime).(world)
      /\ s.(sys_pump) = PumpExited /\ r = stop_result s.(sys_runtime)
  | _ => bt_get s.(sys_runtime).(engine_token) s.(sys_runtime).(world).(registry).(entries) <> None
  end
}.

Lemma guarded_stopped {A : Type} (f : PlaybackPump -> result A ListenerPlaybackError * PlaybackPump)
  (l : ListenerPlaybackRuntime) :
  l.(stopped) = true -> exists e, guarded f l = (Err e, l).
Proof.
  intros Hs. unfold guarded, ensure_running. rewrite Hs. destruct (terminal_failure l); by eexists.
Qed.

Lemma exec_stopped (call : ListenerCall) (l : ListenerPlaybackRuntime) :
  l.(stopped) = true -> exists e, listener_exec call l = (Err e, l).
Proof.
  intros Hs. destruct call; try (by apply guarded_stopped). cbn. unfold begin_sync_probe, ensure_running.
  rewrite Hs. destruct (terminal_failure l); by eexists.
Qed.

Lemma estimate_stopped (id t1 t2 t3 t4 : Z) (l : ListenerPlaybackRuntime) :
  l.(stopped) = true -> exists e, observe_estimate id t1 t2 t3 t4 l = (Err e, l).
Proof.
  intros Hs. unfold observe_estimate, ensure_running. rewrite Hs.
  destruct (terminal_failure l); by eexists.
Qed.

Lemma apply_stopped (o : SyncObservation) (l : ListenerPlaybackRuntime) :
  l.(stopped) = true -> (observe_apply o l).2 = l.
Proof.
  intros Hs. unfold observe_apply. destruct (observation_accepted o); [|done].
  match goal with |- (guarded ?f l).2 = _ => destruct (guarded_stopped f l Hs) as [e ->] end. done.
Qed.

(** A change that keeps the frame and the store keeps the invariant; a finished
    pump has to stay finished. *)
Lemma sys_ok_frame (l l' : ListenerPlaybackRuntime) (s : StopPc) (p p' : PumpPc)
  (obs obs' : list SyncObservation) :
  sys_ok (mkSystem l s p obs) -> same_frame l l' -> store_ok l' ->
  (p = PumpExited -> p' = PumpExited) ->
  (finished l.(shared_pump) -> finished l'.(shared_pump)) ->
  sys_ok (mkSystem l' s p' obs').
Proof.
  intros [Hst Hsd Hfin Hreg] (Hr & Hs & Hf & Ht & Hw) Hst' Hp Hfin'. split; cbn in *.
  - done.
  - by rewrite Hs.
  - destruct s; auto.
  - destruct s as [| | | | | |r]; try (by rewrite Ht, Hw).
    destruct Hreg as ([Hi He] & Hp0 & ->). split_and!; [|by apply Hp|unfold stop_result; by rewrite Hf].
    split; by rewrite Ht, Hw.
Qed.

Lemma same_frame_refl (l : ListenerPlaybackRuntime) : same_frame l l.
Proof. by split_and!. Qed.

(** A call that is refused once the runtime is stopped. *)
Lemma sys_ok_call (l l' : ListenerPlaybackRuntime) (s : StopPc) (p : PumpPc)
  (obs obs' : list SyncObservation) :
  sys_ok (mkSystem l s p obs) -> (l.(stopped) = true -> l' = l) -> same_frame l l' -> store_ok l' ->
  sys_ok (mkSystem l' s p obs').
Proof.
  intros Hok Hstop Hf Hst. destruct (decide (l.(stopped) = true)) as [E|E].
  - rewrite (Hstop E). eapply sys_ok_frame; [exact Hok|apply same_frame_refl|apply Hok|done|done].
  - destruct Hok as [Hst0 Hsd Hfin Hreg]. cbn in *.
    assert (s = StopNotCalled) as -> by (destruct s; try done; exfalso; apply E; by apply Hsd).
    destruct Hf as (Hr & Hs & Hfl & Ht & Hw). split; cbn; try done. by rewrite Ht, Hw.
Qed.

Lemma guarded_facts {A : Type} (f : PlaybackPump -> result A ListenerPlaybackError * PlaybackPump)
  (l : ListenerPlaybackRuntime) :
  store_ok l -> same_frame l (guarded f l).2 /\ store_ok (guarded f l).2
  /\ (l.(stopped) = true -> (guarded f l).2 = l).
Proof.
  intros Hst. split_and!.
  - unfold guarded. destruct (ensure_running l); [apply with_pump_facts|apply same_frame_refl].
  - unfold guarded. destruct (ensure_running l); [by apply with_pump_facts|done].
  - intros Hs. by destruct (guarded_stopped f l Hs) as [e ->].
Qed.

Lemma exec_facts (call : ListenerCall) (l : ListenerPlaybackRuntime) :
  store_ok l -> same_frame l (listener_exec call l).2 /\ store_ok (listener_exec call l).2
  /\ (l.(stopped) = true -> (listener_exec call l).2 = l).
Proof.
  intros Hst. destruct call; try (by apply guarded_facts). split_and!.
  - cbn. unfold begin_sync_probe. destruct (ensure_running l); [|apply same_frame_refl].
    destruct (begin_probe _ _ _). by split_and!.
  - cbn. unfold begin_sync_probe. destruct (ensure_running l); [|done]. by destruct (begin_probe _ _ _).
  - intros Hs. by destruct (exec_stopped (CallProbe correlation_id local_send_time_ms) l Hs) as [e ->].
Qed.

Lemma pump_drain_ok (n : nat) (now_ms : Z) (l : ListenerPlaybackRuntime) :
  let l' := (with_pump (drain_ticks n now_ms 0) l).2 in
  same_frame l l' /\ (store_ok l -> store_ok l')
  /\ (finished l.(shared_pump) -> finished l'.(shared_pump)).
Proof.
  destruct (with_pump_facts (drain_ticks n now_ms 0) l) as (Hf & Hp & Hs). split_and!; [done|done|].
  intros H. rewrite Hp. apply drain_ticks_finished. unfold finished. by rewrite lock_pump_scheduler.
Qed.

Lemma pump_drain_facts (now_ms : Z) (l : ListenerPlaybackRuntime) :
  same_frame l (pump_drain now_ms l) /\ (store_ok l -> store_ok (pump_drain now_ms l))
  /\ (finished l.(shared_pump) -> finished (pump_drain now_ms l).(shared_pump)).
Proof. unfold pump_drain, drain_due_frames. apply pump_drain_ok. Qed.

Lemma drain_iteration_runtime (now instant : Z) (wait : DrainWait) (l l' : ListenerPlaybackRuntime)
  (next : option DrainWait) :
  drain_iteration now instant wait l = (next, l') -> l' = pump_drain now l.
Proof.
  unfold drain_iteration. generalize (pump_drain now l). intros l1. cbv zeta. by intros [= _ <-].
Qed.

Lemma sys_step_ok (s s' : System) : sys_step s s' -> sys_ok s -> sys_ok s'.
Proof.
  intros Hstep Hok. pose proof (so_store _ Hok) as Hst.
  destruct Hstep as [l sp p obs call|l sp p obs id t1 t2 t3 t4 r l' E|l sp p before o after
    |l sp obs now|l sp obs now|l sp obs now n|l p obs Hs|l p obs|l p obs instant
    |l wait p obs now instant next l' E|l p obs|l obs r l' E|l sp p obs call Hf]; cbn [sys_runtime] in Hst.
  - destruct (exec_facts call l Hst) as (Hf & Hst' & Hstop). by eapply sys_ok_call.
  - assert (same_frame l l' /\ store_ok l' /\ (l.(stopped) = true -> l' = l)) as (Hf & Hst' & Hstop).
    { split_and!.
      - unfold observe_estimate in E. destruct (ensure_running l); [|injection E as _ <-; apply same_frame_refl].
        destruct (observe_response _ _ _ _ _ _). injection E as _ <-. by split_and!.
      - unfold observe_estimate in E. destruct (ensure_running l); [|by injection E as _ <-].
        destruct (observe_response _ _ _ _ _ _). by injection E as _ <-.
      - intros Hs. destruct (estimate_stopped id t1 t2 t3 t4 l Hs) as [e He]. rewrite He in E.
        by injection E as _ <-. }
    by eapply sys_ok_call.
  - assert (same_frame l (observe_apply o l).2 /\ store_ok (observe_apply o l).2) as [Hf Hst'].
    { unfold observe_apply. destruct (observation_accepted o); [|split; [apply same_frame_refl|done]].
      match goal with |- context [guarded ?f l] => destruct (guarded_facts f l Hst) as (? & ? & _) end. done. }
    eapply sys_ok_call; [exact Hok|apply apply_stopped|done|done].
  - destruct (running l); (eapply sys_ok_frame; [exact Hok|by split_and!|done|done|done]).
  - destruct (pump_drain_facts now l) as (Hf & Hst' & Hfin).
    eapply sys_ok_frame; [exact Hok|exact Hf|by apply Hst'|done|exact Hfin].
  - destruct (pump_drain_ok n now l) as ((Hr & Hs & Hfl & Ht & Hw) & Hst' & Hfin).
    destruct Hok as [_ Hsd Hfi Hreg]. cbn [sys_runtime sys_stop sys_pump] in *.
    set (l' := (with_pump (drain_ticks n now 0) l).2) in *.
    split; cbn [sys_runtime sys_stop sys_pump contain_panic set_lifecycle stopped shared_pump engine_token world].
    + exact (Hst' Hst).
    + by rewrite Hs.
    + destruct sp; auto.
    + destruct sp; try (by rewrite Ht, Hw). destruct Hreg as (_ & Hx & _). done.
  - destruct Hok as [_ Hsd Hfi Hreg]. by split.
  - destruct Hok as [_ Hsd Hfi Hreg]. cbn in *. split; cbn; try done. intros _. by apply Hsd.
  - destruct (with_pump_facts finish l) as ((Hr & Hs & Hfl & Ht & Hw) & Hp & Hst').
    destruct Hok as [_ Hsd Hfi Hreg]. cbn in *. split; cbn.
    + by apply Hst'.
    + intros _. rewrite Hs. by apply Hsd.
    + rewrite Hp. apply finish_finished.
    + by rewrite Ht, Hw.
  - assert (l' = pump_drain now l) as -> by exact (drain_iteration_runtime _ _ _ _ _ _ E).
    destruct (pump_drain_facts now l) as (Hf & Hst' & Hfin).
    specialize (Hst' Hst). clear E. generalize dependent (pump_drain now l). intros l' Hf Hst' Hfin.
    pose proof (sys_ok_frame l l' (StopWaiting wait) p p obs obs Hok Hf Hst' (fun H => H) Hfin)
      as [H1 H2 H3 H4]. destruct next; split; cbn in *; try done; intros _; by apply H2.
  - destruct Hok as [_ Hsd Hfi Hreg]. split; cbn in *; try done. intros _. by apply Hsd.
  - destruct Hok as [_ Hsd Hfi Hreg]. cbn in *. destruct Hst as [Hab (ring & Hring)].
    unfold stop_release in E. pose proof (abi_exec_ok (CallRelease (engine_token l)) (world l) Hab) as Hab'.
    cbn [abi_exec] in Hab'. unfold release_render_ring in E, Hab'.
    destruct (bt_get (engine_token l) (entries (registry (world l)))) as [[c cap]|] eqn:Ee; [|done].
    cbn [fst] in Hab'. injection E as <- <-. split; cbn.
    + split; [exact Hab'|]. by exists ring.
    + intros _. by apply Hsd.
    + exact Hfi.
    + split_and!; [|done|unfold stop_result; cbn; by destruct (terminal_failure l)].
      split; cbn; [by apply (ab_rings _ Hab _ ring)|apply bt_get_remove_eq, Hab].
  - destruct Hok as [_ Hsd Hfi Hreg]. destruct Hst as [Hab (ring & Hring)].
    cbn [sys_runtime sys_stop sys_pump] in *.
    split; cbn [sys_runtime sys_stop sys_pump set_world stopped shared_pump engine_token world]; try done.
    + split; [by apply abi_exec_ok|]. by eapply abi_exec_keeps_ring.
    + destruct sp; try (by apply foreign_keeps_entry).
      destruct Hreg as (Hr & Hp & Hres). split_and!; [by apply abi_exec_retired|done|done].
Qed.

Lemma sys_run_ok (s0 s : System) : sys_ok s0 -> sys_run s0 s -> sys_ok s.
Proof. intros H0. induction 1 as [|s s' Hrun IH Hs]; [done|]. by eapply sys_step_ok. Qed.

(** ** Properties *)

Lemma start_ok (sc : SchedulerConfig) (rc : RenderRingConfig) (pc : PlaybackPumpConfig) (o : f64)
  (spawned : bool) (w w' : AudioWorld) (l : ListenerPlaybackRuntime) :
  abi_ok w -> start sc rc pc o spawned w = (Ok l, w') ->
  sys_ok (mkSystem l StopNotCalled PumpChecking []).
Proof.
  intros Hok Hs. unfold start in Hs. destruct (PlaybackScheduler_new sc o); [|done].
  pose proof (abi_exec_ok (CallRegister rc) w Hok) as Hok'. cbn [abi_exec] in Hok'.
  pose proof (register_facts rc w ltac:(apply Hok)) as H.
  destruct (register_render_ring rc w) as [[token|e] w1]; [|done]. cbn [fst] in Hok'.
  destruct H as (_ & _ & r & _ & ->). cbn [rings] in Hs.
  destruct (bt_get token (bt_insert token r (rings w))) as [producer|] eqn:Er; [|done].
  destruct (PlaybackPump_new _ _ _); [|done]. destruct (ClockSyncEstimator_new _); [|done].
  destruct spawned; [|done]. cbn [negb] in Hs. injection Hs as <- _. split; try done.
  - split; [done|]. by exists producer.
  - cbn. by rewrite bt_get_insert_eq.
Qed.

(** The runtime's [stop] has finished the scheduler. *)
Definition past_finish (s : StopPc) : Prop :=
  match s with StopWaiting _ | StopDrained | StopSummarized | StopDone _ => True | _ => False end.

(** C21. Stopping is final: however platform calls, sync observations already
    under way, the pump thread, its possible panic, the audio callback and other
    streams interleave with [stop], once it has drained the scheduler nothing
    revives it: the scheduler stays stopped and empty, every call is refused and
    an observation made before cannot move the clock.  When [stop] returns, it
    reports a failure exactly if the pump thread panicked, and the callback gets
    only silence through the runtime's token. *)
Theorem stop_is_final (calls : list AbiCall) (sc : SchedulerConfig) (rc : RenderRingConfig)
  (pc : PlaybackPumpConfig) (o : f64) (w : AudioWorld) (l : ListenerPlaybackRuntime) (s : System) :
  start sc rc pc o true (abi_run calls AudioWorld_default).1 = (Ok l, w) ->
  sys_run (mkSystem l StopNotCalled PumpChecking []) s -> past_finish s.(sys_stop) ->
  let rt := s.(sys_runtime) in
  phase rt.(shared_pump).(scheduler) = PhaseStopped
  /\ rt.(shared_pump).(scheduler).(jitter_buffer).(jb_packets) = []
  /\ (forall call, exists e, listener_exec call rt = (Err e, rt))
  /\ (forall obs, (observe_apply obs rt).2 = rt)
  /\ (forall r, s.(sys_stop) = StopDone r ->
        r = (if rt.(terminal_failure) then Err PlaybackPumpThread else Ok tt)
        /\ forall contended output,
             read_interleaved_f32_impl contended rt.(engine_token) output rt.(world)
             = (StatusStopping, 0, repeat 0 (length output), rt.(world))).
Proof.
  intros Hs Hrun Hpast. cbv zeta.
  pose proof (start_ok _ _ _ _ _ _ _ _ (abi_run_ok calls _ abi_ok_default) Hs) as H0.
  destruct (sys_run_ok _ _ H0 Hrun) as [Hst Hsd Hfin Hreg]. destruct s as [rt stop pump obs].
  cbn [sys_runtime sys_stop sys_pump] in *.
  assert (stopped rt = true) as Hstop by (apply Hsd; by destruct stop).
  assert (finished (shared_pump rt)) as [Hss Hjb] by (by destruct stop).
  split_and!.
  - unfold phase. by rewrite Hss.
  - done.
  - intros call. by apply exec_stopped.
  - intros x. by apply apply_stopped.
  - intros r ->. destruct Hreg as (Hret & _ & ->). split; [done|]. intros contended output.
    by apply retired_read.
Qed.

(** A failed start leaves nothing behind: when the scheduler, the ring, the
    pump or the thread is refused, every token of the registry stands as before,
    so no ring stays registered for a runtime that does not exist. *)
Lemma failed_start_leaves_nothing (sc : SchedulerConfig) (rc : RenderRingConfig)
  (pc : PlaybackPumpConfig) (o : f64) (spawned : bool) (calls : list AbiCall)
  (e : ListenerPlaybackError) (w' : AudioWorld) (token : Z) :
  let w := (abi_run calls AudioWorld_default).1 in
  start sc rc pc o spawned w = (Err e, w') ->
  bt_get token w'.(registry).(entries) = bt_get token w.(registry).(entries).
Proof.
  cbv zeta. set (w := (abi_run calls AudioWorld_default).1).
  assert (abi_ok w) as Hok by (apply abi_run_ok, abi_ok_default). intros Hs. unfold start in Hs.
  destruct (PlaybackScheduler_new sc o); [|by injection Hs as _ <-].
  pose proof (abi_exec_ok (CallRegister rc) w Hok) as Hok'. cbn [abi_exec] in Hok'.
  pose proof (register_facts rc w ltac:(apply Hok)) as H.
  destruct (register_render_ring rc w) as [[k|err] w1]; [|injection Hs as _ <-; by rewrite H].
  cbn [fst] in Hok'. destruct H as (-> & Hne & r & _ & ->). set (k := next_token (registry w)) in *.
  cbn [rings] in Hs. rewrite bt_get_insert_eq in Hs.
  assert (bt_get k (entries (registry w)) = None) as Hfresh.
  { destruct (bt_get k (entries (registry w))) as [x|] eqn:E; [|done].
    destruct (ab_entries _ Hok k x E) as [_ (r0 & Hr0)]. apply (ab_rings _ Hok), was_issued_iff in Hr0.
    fold k in Hr0. lia. }
  set (w1 := mkAudioWorld _ _ _) in *.
  assert (bt_get token (entries (registry (release_render_ring k w1).2)) = bt_get token (entries (registry w)))
    as Hback.
  { unfold release_render_ring, w1. cbn [registry entries]. rewrite bt_get_insert_eq. cbn.
    destruct (decide (k = token)) as [->|Hkt].
    - rewrite bt_get_remove_eq; [done|]. apply bt_ok_insert, Hok.
    - by rewrite bt_get_remove_ne, bt_get_insert_ne. }
  destruct (PlaybackPump_new _ _ _); [|by injection Hs as _ <-].
  destruct (ClockSyncEstimator_new _); [|by injection Hs as _ <-].
  destruct spawned; cbn [negb] in Hs; [done|]. by injection Hs as _ <-.
Qed.

(** ** The wait for the ring is bounded *)

(** The rounds of [await_ring_drain], each with the instant it ends at and the
    depth it finds: that of the ring as the other threads left it. *)
Fixpoint wait_run (rounds : list (Z * Z)) (s : DrainWait) : option DrainWait :=
  match rounds with
  | [] => Some s
  | (instant, queued) :: rest =>
      match drain_decision queued instant s with
      | Some s => wait_run rest s
      | None => None
      end
  end.

Lemma drain_decision_continues (queued instant : Z) (s s' : DrainWait) :
  drain_decision queued instant s = Some s' ->
  instant < s.(wait_deadline) /\ s'.(wait_deadline) = s.(wait_deadline)
  /\ (s'.(wait_last_queued) < s.(wait_last_queued)
      \/ s'.(wait_stalled_for) = s.(wait_stalled_for) + RING_DRAIN_POLL_INTERVAL_MS
         /\ s'.(wait_stalled_for) < RING_DRAIN_STALL_LIMIT_MS).
Proof.
  unfold drain_decision. destruct (queued =? 0); [done|].
  destruct (Z.ltb_spec queued (wait_last_queued s)) as [Hq|Hq]; cbn [negb andb].
  - destruct (Z.leb_spec (wait_deadline s) instant); [done|]. intros [= <-]. cbn. lia.
  - destruct (Z.leb_spec RING_DRAIN_STALL_LIMIT_MS (wait_stalled_for s + RING_DRAIN_POLL_INTERVAL_MS)); [done|].
    destruct (Z.leb_spec (wait_deadline s) instant); [done|]. intros [= <-]. cbn. lia.
Qed.

(** One round of a run that goes on. *)
Lemma wait_run_cons (instant queued : Z) (rest : list (Z * Z)) (s s' : DrainWait) :
  wait_run ((instant, queued) :: rest) s = Some s' ->
  exists s1, (forall rounds, wait_run ((instant, queued) :: rounds) s = wait_run rounds s1)
    /\ wait_run rest s1 = Some s' /\ instant < s.(wait_deadline)
    /\ s1.(wait_deadline) = s.(wait_deadline)
    /\ (s1.(wait_last_queued) < s.(wait_last_queued)
        \/ s1.(wait_stalled_for) = s.(wait_stalled_for) + RING_DRAIN_POLL_INTERVAL_MS
           /\ s1.(wait_stalled_for) < RING_DRAIN_STALL_LIMIT_MS).
Proof.
  intros H. cbn [wait_run] in *. destruct (drain_decision queued instant s) as [s1|] eqn:E; [|done].
  exists s1. apply drain_decision_continues in E as (H1 & H2 & H3). done.
Qed.

Lemma wait_run_deadline (rounds : list (Z * Z)) (s s' : DrainWait) (i : nat)
  (instant queued : Z) :
  wait_run rounds s = Some s' -> rounds !! i = Some (instant, queued) -> instant < s.(wait_deadline).
Proof.
  revert s i. induction rounds as [|[i1 q1] rest IH]; intros s i Hr Hi; [done|].
  apply wait_run_cons in Hr as (s1 & _ & Hr & Hlt & Hd & _). destruct i as [|i]; cbn in Hi.
  - by injection Hi as -> ->.
  - rewrite <- Hd. by eapply IH.
Qed.

(** The ring shrank from one round to the next. *)
Definition shrinks (rounds : list (Z * Z)) (s : DrainWait) : Prop :=
  exists i before after,
    wait_run (take i rounds) s = Some before /\ wait_run (take (S i) rounds) s = Some after
    /\ after.(wait_last_queued) < before.(wait_last_queued).

Lemma wait_run_stalls (rounds : list (Z * Z)) (s s' : DrainWait) :
  wait_run rounds s = Some s' ->
  shrinks rounds s
  \/ s'.(wait_stalled_for) = s.(wait_stalled_for) + RING_DRAIN_POLL_INTERVAL_MS * len rounds
     /\ (rounds <> [] -> s'.(wait_stalled_for) < RING_DRAIN_STALL_LIMIT_MS).
Proof.
  revert s. induction rounds as [|[instant queued] rest IH]; intros s Hr.
  { injection Hr as <-. right. unfold len. cbn. split; [lia|done]. }
  apply wait_run_cons in Hr as (s1 & Hstep & Hr & _ & _ & Hcase).
  destruct Hcase as [Hlt|[Hst Hlim]].
  { left. exists 0%nat, s, s1. split_and!; [done| |done]. cbn [take]. by rewrite Hstep. }
  destruct (IH s1 Hr) as [(i & before & after & H1 & H2 & H3)|[Hs' Hl']].
  - left. exists (S i), before, after. cbn [take] in *. by rewrite !Hstep.
  - right. unfold len in *. cbn [length]. split; [lia|]. intros _.
    destruct rest; [injection Hr as <-; done|by apply Hl'].
Qed.

(** C34. Stopping does not hang on an output that is not consuming: since every
    round of [await_ring_drain] sleeps at least 5 ms, it has returned by its
    401st round whatever depth of the ring it finds in each round, and it does not go on for 30 rounds without the ring shrinking. *)
Theorem stop_wait_is_bounded (rounds : list (Z * Z)) (begun : Z) :
  (forall i instant queued, rounds !! i = Some (instant, queued) ->
     begun + RING_DRAIN_POLL_INTERVAL_MS * Z.of_nat i <= instant) ->
  ((401 <= length rounds)%nat -> wait_run rounds (drain_wait_start begun) = None)
  /\ (forall s, (30 <= length rounds)%nat -> 0 <= s.(wait_stalled_for) ->
        wait_run rounds s = None \/ shrinks rounds s).
Proof.
  intros Hclock. split.
  - intros Hlen. destruct (wait_run rounds (drain_wait_start begun)) as [s'|] eqn:E; [|done].
    destruct (lookup_lt_is_Some_2 rounds 400 ltac:(lia)) as [[instant queued] Hi].
    apply (wait_run_deadline _ _ _ _ _ _ E) in Hi as Hlt. apply Hclock in Hi.
    unfold drain_wait_start, RING_DRAIN_TIMEOUT_MS, RING_DRAIN_POLL_INTERVAL_MS in *. cbn in Hlt. lia.
  - intros s Hlen Hs. destruct (wait_run rounds s) as [s'|] eqn:E; [right|by left].
    destruct (wait_run_stalls _ _ _ E) as [H|[H1 H2]]; [done|].
    assert (rounds <> []) as Hne by (destruct rounds; [cbn in Hlen; lia|done]). specialize (H2 Hne).
    unfold RING_DRAIN_POLL_INTERVAL_MS, RING_DRAIN_STALL_LIMIT_MS, len in *. lia.
Qed.
End Listener.

(** ** Witnesses *)

(** A runtime for the stereo stream of [PlaybackPump], the second stream of the
    process. *)
Definition sample_start : result ListenerPlaybackRuntime ListenerPlaybackError * AudioWorld :=
  start (t := Target64) stereo_config sample_ring_config stereo_pump_config (f64_of_Z 0) true
    (abi_run (t := Target64) [CallRegister sample_ring_config] AudioWorld_default).1.

(** Stopped before anything was played. *)
Lemma stop_reaches_cleared {t : target} (l : ListenerPlaybackRuntime) :
  l.(stopped) = false ->
  exists rt, sys_run (mkSystem l StopNotCalled PumpChecking []) (mkSystem rt StopCleared PumpChecking []).
Proof.
  intros Hs. eexists. eapply sys_next; [eapply sys_next; [apply sys_start|by apply st_stop_call]|].
  apply st_stop_clear.
Qed.

Lemma stop_is_final_witness :
  exists l w s, sample_start = (Ok l, w)
    /\ sys_run (t := Target64) (mkSystem l StopNotCalled PumpChecking []) s
    /\ past_finish s.(sys_stop)
    /\ phase s.(sys_runtime).(shared_pump).(scheduler) = PhaseStopped
    /\ forall call, exists e,
         listener_exec call s.(sys_runtime) = (Err e, s.(sys_runtime)).
Proof.
  destruct sample_start as [[l|e] w] eqn:E; [|vm_compute in E; discriminate E].
  assert (stopped l = false) as Hs.
  { apply (f_equal (fun r => match r.1 with Ok l => stopped l | Err _ => true end)) in E.
    cbn [fst] in E. rewrite <- E. vm_compute. reflexivity. }
  destruct (stop_reaches_cleared (t := Target64) l Hs) as (rt & Hrun).
  pose proof (sys_next _ _ _ Hrun (st_stop_finish rt PumpChecking [] 0)) as Hrun'.
  eexists l, w, _. split; [reflexivity|]. split; [exact Hrun'|]. split; [exact I|].
  destruct (stop_is_final (t := Target64) [CallRegister sample_ring_config] stereo_config
    sample_ring_config stereo_pump_config (f64_of_Z 0) w l _ E Hrun' I) as (Hp & _ & Hc & _).
  split; [exact Hp|exact Hc].
Defined.

Lemma failed_start_leaves_nothing_witness :
  let w' := (start (t := Target64) stereo_config sample_ring_config stereo_pump_config (f64_of_Z 0) false
               (abi_run (t := Target64) [CallRegister sample_ring_config] AudioWorld_default).1).2 in
  bt_get 2 w'.(registry).(entries) = None.
Proof.
  cbv zeta. destruct (start (t := Target64) stereo_config sample_ring_config stereo_pump_config
    (f64_of_Z 0) false (abi_run (t := Target64) [CallRegister sample_ring_config] AudioWorld_default).1)
    as [[l|e] w'] eqn:E; [vm_compute in E; discriminate E|]. cbn [snd].
  rewrite (failed_start_leaves_nothing (t := Target64) _ _ _ _ _ _ _ _ 2 E). vm_compute. reflexivity.
Defined.

(** An output that never takes a frame. *)
Definition stuck_rounds : list (Z * Z) := map (fun i => (5 * Z.of_nat i, 100)) (seq 0 40).

Lemma stop_wait_is_bounded_witness :
  wait_run stuck_rounds (mkDrainWait 2000 100 0) = None \/ shrinks stuck_rounds (mkDrainWait 2000 100 0).
Proof.
  destruct (stop_wait_is_bounded (t := Target64) stuck_rounds 0) as [_ H].
  - intros i instant queued Hi. unfold stuck_rounds in Hi.
    apply list_lookup_fmap_Some in Hi as (k & Hp & Hk). injection Hp as -> _.
    apply lookup_seq in Hk as [-> _].
    unfold RING_DRAIN_POLL_INTERVAL_MS. lia.
  - apply (H (mkDrainWait 2000 100 0)); cbn; lia.
Defined.
