(* ===== verification/RuntimeTypes.v ===== *)
(** Validated records of the runtime actor
    (src/rust/silent-disco-core/src/runtime/types.rs): audio source
    descriptors, the host draft and its patches, tuning patches, endpoints,
    advertisements, join requests, delivery reports, synchronization and
    listener summaries, diagnostics and snapshot revisions. *)
From Stdlib Require Import ZArith Lia Strings.String.
From stdpp Require Import numbers list prelude.
From S2P Require Import Prelude Utf8 Float64 Domain Decimal CoreErrors ProtocolTypes.

Definition MAX_AUDIO_SOURCE_ID_BYTES : Z := 128.
Definition MAX_AUDIO_SOURCE_DISPLAY_NAME_BYTES : Z := 256.
Definition MAX_DIAGNOSTIC_EVENT_NAME_BYTES : Z := 96.
Definition MAX_DIAGNOSTIC_FIELDS : Z := 16.
Definition MAX_DIAGNOSTIC_FIELD_KEY_BYTES : Z := 64.
Definition MAX_DIAGNOSTIC_FIELD_VALUE_BYTES : Z := 256.

Inductive RuntimeRecordValidationError : Type :=
| RecRevisionOverflow | RecAudioSourceId | RecAudioSourceDisplayName | RecAudioSourceLength
| RecAudioSourceRequired | RecSessionName | RecInviteCode | RecInviteCodeRequired
| RecUnexpectedInviteCode | RecTuningSettings | RecNetworkPort | RecProtocolVersion
| RecDeviceDisplayName | RecDeliveryCount | RecSynchronizationSummary | RecDiagnosticName
| RecDiagnosticFieldKey | RecDiagnosticFieldValue | RecDiagnosticFieldLimit.

(** [impl Display for RuntimeRecordValidationError]. *)
Definition record_error_text (e : RuntimeRecordValidationError) : rstr :=
  match e with
  | RecRevisionOverflow => lit "snapshot revision overflow"
  | RecAudioSourceId => lit "audio source ID is invalid"
  | RecAudioSourceDisplayName => lit "audio source display name is invalid"
  | RecAudioSourceLength => lit "audio source byte length must be greater than zero"
  | RecAudioSourceRequired => lit "a staged audio source is required"
  | RecSessionName => lit "session name is invalid"
  | RecInviteCode => lit "invite code is invalid"
  | RecInviteCodeRequired => lit "invite-code approval requires an invite code"
  | RecUnexpectedInviteCode => lit "invite code is not allowed for this approval mode"
  | RecTuningSettings => lit "tuning patch produces invalid settings"
  | RecNetworkPort => lit "network service ports must be nonzero"
  | RecProtocolVersion => lit "protocol version must be nonzero"
  | RecDeviceDisplayName => lit "device display name is invalid"
  | RecDeliveryCount => lit "delivery counts are inconsistent"
  | RecSynchronizationSummary => lit "synchronization summary is invalid"
  | RecDiagnosticName => lit "diagnostic event name is invalid"
  | RecDiagnosticFieldKey => lit "diagnostic field key is invalid"
  | RecDiagnosticFieldValue => lit "diagnostic field value is invalid"
  | RecDiagnosticFieldLimit => lit "diagnostic field count exceeds the supported limit"
  end.

(** ** Text rules

    The three rules recur in [types.rs], [effects.rs] and [records/errors.rs]
    with different error types, which are the parameter [error]. *)

Definition is_human_text (value : rstr) (maximum_bytes : Z) : bool :=
  negb (bool_decide (value = []) || negb (bool_decide (trim value = value))
        || (maximum_bytes <? str_len value) || existsb is_control value).

Definition validate_human_text {E : Type} (value : rstr) (maximum_bytes : Z) (error : E)
    : result unit E :=
  if is_human_text value maximum_bytes then Ok tt else Err error.

Definition is_token (value : rstr) (maximum_bytes : Z) : bool :=
  negb (bool_decide (value = []) || negb (bool_decide (trim value = value))
        || (maximum_bytes <? str_len value)
        || existsb (fun character => is_control character || is_whitespace character) value).

Definition validate_token {E : Type} (value : rstr) (maximum_bytes : Z) (error : E)
    : result unit E :=
  if is_token value maximum_bytes then Ok tt else Err error.

Definition validate_bounded_text {E : Type} (value : rstr) (maximum_bytes : Z) (error : E)
    : result unit E :=
  if bool_decide (value = []) || (maximum_bytes <? str_len value)
     || existsb (fun character => character =? 0) value
  then Err error else Ok tt.

(** ** Revisions *)

Definition checked_next (revision : Z) : result Z RuntimeRecordValidationError :=
  ok_or (checked_add u64_max revision 1) RecRevisionOverflow.

(** ** Audio sources *)

Record AudioSourceDescriptor : Type := mkAudioSourceDescriptor {
  source_id : rstr;
  source_display_name : rstr;
  byte_length : option Z;
  duration_ms : option Z
}.

#[export] Instance AudioSourceDescriptor_eq_dec : EqDecision AudioSourceDescriptor.
Proof. solve_decision. Defined.

Definition AudioSourceDescriptor_new (source_id display_name : rstr)
    (byte_length duration_ms : option Z)
    : result AudioSourceDescriptor RuntimeRecordValidationError :=
  let? _ := validate_token source_id MAX_AUDIO_SOURCE_ID_BYTES RecAudioSourceId in
  let? _ := validate_human_text display_name MAX_AUDIO_SOURCE_DISPLAY_NAME_BYTES
              RecAudioSourceDisplayName in
  if bool_decide (byte_length = Some 0) then Err RecAudioSourceLength
  else Ok (mkAudioSourceDescriptor source_id display_name byte_length duration_ms).

(** ** The host draft *)

Inductive InviteCodePatch : Type := InviteUnchanged | InviteSet (code : rstr) | InviteClear.
Inductive AudioSourcePatch : Type :=
| SourceUnchanged | SourceSet (source : AudioSourceDescriptor) | SourceClear.

Record HostDraftPatch : Type := mkHostDraftPatch {
  patch_session_name : option rstr;
  patch_approval_mode : option ApprovalMode;
  patch_invite_code : InviteCodePatch;
  patch_audio_source : AudioSourcePatch;
  patch_remember_approved_devices : option bool
}.

Record HostDraft : Type := mkHostDraft {
  draft_session_name : rstr;
  draft_approval_mode : ApprovalMode;
  draft_invite_code : option rstr;
  draft_audio_source : option AudioSourceDescriptor;
  draft_remember_approved_devices : bool
}.

Definition HostDraft_default : HostDraft := mkHostDraft [] Manual None None false.

Definition validate_consistency (d : HostDraft) : result unit RuntimeRecordValidationError :=
  match d.(draft_approval_mode), d.(draft_invite_code) with
  | InviteCode, Some code => validate_token code MAX_INVITE_CODE_BYTES RecInviteCode
  | InviteCode, None => Err RecInviteCodeRequired
  | (Manual | TrustedDevices), Some _ => Err RecUnexpectedInviteCode
  | (Manual | TrustedDevices), None => Ok tt
  end.

Definition patched (self : HostDraft) (patch : HostDraftPatch)
    : result HostDraft RuntimeRecordValidationError :=
  let? session_name :=
    match patch.(patch_session_name) with
    | Some session_name =>
        let? _ := validate_human_text session_name MAX_SESSION_NAME_BYTES RecSessionName in
        Ok session_name
    | None => Ok self.(draft_session_name)
    end in
  let approval_mode := default self.(draft_approval_mode) patch.(patch_approval_mode) in
  let? invite_code :=
    match patch.(patch_invite_code) with
    | InviteUnchanged => Ok self.(draft_invite_code)
    | InviteSet code =>
        let? _ := validate_token code MAX_INVITE_CODE_BYTES RecInviteCode in Ok (Some code)
    | InviteClear => Ok None
    end in
  let audio_source :=
    match patch.(patch_audio_source) with
    | SourceUnchanged => self.(draft_audio_source)
    | SourceSet source => Some source
    | SourceClear => None
    end in
  let remember := default self.(draft_remember_approved_devices)
                    patch.(patch_remember_approved_devices) in
  let next := mkHostDraft session_name approval_mode invite_code audio_source remember in
  let? _ := validate_consistency next in
  Ok next.

Definition validate_for_creation (d : HostDraft) : result unit RuntimeRecordValidationError :=
  let? _ := validate_human_text d.(draft_session_name) MAX_SESSION_NAME_BYTES RecSessionName in
  if bool_decide (d.(draft_audio_source) = None) then Err RecAudioSourceRequired
  else validate_consistency d.

(** ** Tuning patches *)

Record TuningPatch : Type := mkTuningPatch {
  patch_sync_sample_window : option Z;
  patch_sync_cadence_ms : option Z;
  patch_startup_buffer_ms : option Z;
  patch_late_packet_threshold_ms : option Z;
  patch_hard_resync_threshold_ms : option Z;
  patch_sync_drift_threshold_ms : option f64;
  patch_scan_window_ms : option Z
}.

Definition apply_to (patch : TuningPatch) (current : TuningSettings)
    : result TuningSettings RuntimeRecordValidationError :=
  let next := mkTuningSettings
    (default current.(sync_sample_window) patch.(patch_sync_sample_window))
    (default current.(sync_cadence_ms) patch.(patch_sync_cadence_ms))
    (default current.(startup_buffer_ms) patch.(patch_startup_buffer_ms))
    (default current.(late_packet_threshold_ms) patch.(patch_late_packet_threshold_ms))
    (default current.(hard_resync_threshold_ms_setting) patch.(patch_hard_resync_threshold_ms))
    (default current.(sync_drift_threshold_ms) patch.(patch_sync_drift_threshold_ms))
    (default current.(scan_window_ms) patch.(patch_scan_window_ms)) in
  let? _ := map_err (fun _ => RecTuningSettings) (TuningSettings_validate next) in
  Ok next.

(** [PartialEq for TuningSettings]: the drift threshold compares as a float. *)
Definition TuningSettings_eqb (a b : TuningSettings) : bool :=
  (a.(sync_sample_window) =? b.(sync_sample_window))
  && (a.(sync_cadence_ms) =? b.(sync_cadence_ms))
  && (a.(startup_buffer_ms) =? b.(startup_buffer_ms))
  && (a.(late_packet_threshold_ms) =? b.(late_packet_threshold_ms))
  && (a.(hard_resync_threshold_ms_setting) =? b.(hard_resync_threshold_ms_setting))
  && f64_eqb a.(sync_drift_threshold_ms) b.(sync_drift_threshold_ms)
  && (a.(scan_window_ms) =? b.(scan_window_ms)).

(** ** Endpoints, advertisements and requests *)

(** [std::net::IpAddr]: four octets or eight 16-bit segments. *)
Inductive IpAddr : Type :=
| IpV4 (a b c d : Z)
| IpV6 (a b c d e f g h : Z).

Record NetworkEndpoint : Type := mkNetworkEndpoint {
  endpoint_address : IpAddr;
  control_port : Z;
  sync_port : Z;
  audio_port : Z
}.

Definition NetworkEndpoint_new (address : IpAddr) (control_port sync_port audio_port : Z)
    : result NetworkEndpoint RuntimeRecordValidationError :=
  if (control_port =? 0) || (sync_port =? 0) || (audio_port =? 0) then Err RecNetworkPort
  else Ok (mkNetworkEndpoint address control_port sync_port audio_port).

Record CapabilitySnapshot : Type := mkCapabilitySnapshot {
  nearby_discovery_available : bool;
  nearby_advertising_available : bool;
  local_network_available : bool;
  audio_source_selection_available : bool;
  audio_output_available : bool;
  secure_store_available : bool
}.

Definition CapabilitySnapshot_default : CapabilitySnapshot :=
  mkCapabilitySnapshot false false false false false false.

Record SessionAdvertisement : Type := mkSessionAdvertisement {
  ad_session_id : rstr;
  ad_host_device_id : rstr;
  ad_session_name : rstr;
  ad_approval_mode : ApprovalMode;
  ad_protocol_version : Z;
  ad_endpoint : option NetworkEndpoint
}.

Definition SessionAdvertisement_new (session_id host_device_id session_name : rstr)
    (approval_mode : ApprovalMode) (protocol_version : Z) (endpoint : option NetworkEndpoint)
    : result SessionAdvertisement RuntimeRecordValidationError :=
  let? _ := validate_human_text session_name MAX_SESSION_NAME_BYTES RecSessionName in
  if protocol_version =? 0 then Err RecProtocolVersion
  else Ok (mkSessionAdvertisement session_id host_device_id session_name approval_mode
             protocol_version endpoint).

Record JoinRequestSummary : Type := mkJoinRequestSummary {
  jr_request_id : rstr;
  jr_device_id : rstr;
  jr_display_name : rstr;
  jr_trust_state : TrustState;
  jr_invite_code_valid : bool;
  jr_received_at : Z
}.

#[export] Instance JoinRequestSummary_eq_dec : EqDecision JoinRequestSummary.
Proof. solve_decision. Defined.
#[export] Instance IpAddr_eq_dec : EqDecision IpAddr.
Proof. solve_decision. Defined.
#[export] Instance NetworkEndpoint_eq_dec : EqDecision NetworkEndpoint.
Proof. solve_decision. Defined.
#[export] Instance CapabilitySnapshot_eq_dec : EqDecision CapabilitySnapshot.
Proof. solve_decision. Defined.
#[export] Instance SessionAdvertisement_eq_dec : EqDecision SessionAdvertisement.
Proof. solve_decision. Defined.

Definition JoinRequestSummary_new (request_id device_id display_name : rstr)
    (trust_state : TrustState) (invite_code_valid : bool) (received_at : Z)
    : result JoinRequestSummary RuntimeRecordValidationError :=
  let? _ := validate_human_text display_name MAX_DISPLAY_NAME_BYTES RecDeviceDisplayName in
  Ok (mkJoinRequestSummary request_id device_id display_name trust_state invite_code_valid
        received_at).

(** ** Delivery accounting *)

Record DeliveryReport : Type := mkDeliveryReport {
  intended_peers : Z;
  successful_peers : Z;
  failed_peers : Z;
  delivery_severity : DeliverySeverity
}.

Definition DeliveryReport_new (intended_peers successful_peers failed_peers : Z)
    : result DeliveryReport RuntimeRecordValidationError :=
  match checked_add u32_max successful_peers failed_peers with
  | None => Err RecDeliveryCount
  | Some accounted =>
      if negb (accounted =? intended_peers) then Err RecDeliveryCount
      else
        let severity :=
          if intended_peers =? 0 then ZeroPeers
          else if failed_peers =? 0 then DeliveryOk
          else PartialFailure in
        Ok (mkDeliveryReport intended_peers successful_peers failed_peers severity)
  end.

(** ** Listener state *)

Record SynchronizationSummary : Type := mkSynchronizationSummary {
  sync_confidence : SyncConfidence;
  sync_offset_ms : f64;
  sync_round_trip_ms : f64;
  sync_drift_ppm : f64
}.

Definition SynchronizationSummary_new (confidence : SyncConfidence)
    (offset_ms round_trip_ms drift_ppm : f64)
    : result SynchronizationSummary RuntimeRecordValidationError :=
  if negb (f64_is_finite offset_ms) || negb (f64_is_finite round_trip_ms)
     || f64_ltb round_trip_ms (f64_of_Z 0) || negb (f64_is_finite drift_ppm)
  then Err RecSynchronizationSummary
  else Ok (mkSynchronizationSummary confidence offset_ms round_trip_ms drift_ppm).

Record ListenerSummary : Type := mkListenerSummary {
  ls_device_id : rstr;
  ls_display_name : rstr;
  ls_trust_state : TrustState;
  ls_transport_state : TransportState;
  ls_synchronization : option SynchronizationSummary;
  ls_last_contact : option Z;
  ls_last_error : option CoreError
}.

Definition ListenerSummary_new (device_id display_name : rstr) (trust_state : TrustState)
    (transport_state : TransportState) : result ListenerSummary RuntimeRecordValidationError :=
  let? _ := validate_human_text display_name MAX_DISPLAY_NAME_BYTES RecDeviceDisplayName in
  Ok (mkListenerSummary device_id display_name trust_state transport_state None None None).

(** ** Diagnostics *)

Record DiagnosticField : Type := mkDiagnosticField {
  field_key : rstr;
  field_value : rstr
}.

Definition DiagnosticField_new (key value : rstr)
    : result DiagnosticField RuntimeRecordValidationError :=
  let? _ := validate_token key MAX_DIAGNOSTIC_FIELD_KEY_BYTES RecDiagnosticFieldKey in
  let? _ := validate_bounded_text value MAX_DIAGNOSTIC_FIELD_VALUE_BYTES RecDiagnosticFieldValue in
  Ok (mkDiagnosticField key value).

Record CoreDiagnostic : Type := mkCoreDiagnostic {
  diagnostic_name : rstr;
  diagnostic_fields : list DiagnosticField
}.

Definition CoreDiagnostic_new (name : rstr) (fields : list DiagnosticField)
    : result CoreDiagnostic RuntimeRecordValidationError :=
  let? _ := validate_token name MAX_DIAGNOSTIC_EVENT_NAME_BYTES RecDiagnosticName in
  if MAX_DIAGNOSTIC_FIELDS <? len fields then Err RecDiagnosticFieldLimit
  else Ok (mkCoreDiagnostic name fields).

(** ** Lemmas *)

Lemma is_token_human (value : rstr) (maximum_bytes : Z) :
  is_token value maximum_bytes = true -> is_human_text value maximum_bytes = true.
Proof.
  unfold is_token, is_human_text. intros H. apply negb_true_iff in H. apply negb_true_iff.
  apply orb_false_iff in H as [H Hc]. rewrite H. cbn [orb].
  clear H. induction value as [|c value IH]; [done|]. simpl in Hc |- *.
  apply orb_false_iff in Hc as [Hc Hv]. apply orb_false_iff in Hc as [Hc _].
  rewrite Hc. by apply IH.
Qed.

(** A non-empty visible ASCII string within the bound is a token. *)
Lemma is_token_visible (value : rstr) (maximum_bytes : Z) :
  Forall is_visible value -> 1 <= len value <= maximum_bytes -> is_token value maximum_bytes = true.
Proof.
  intros Hv Hl. unfold is_token. rewrite trim_visible, str_len_visible by done.
  rewrite !bool_decide_false, bool_decide_true by (try done; intros ->; rewrite (len_nil (A := Z)) in Hl; lia).
  rewrite (proj2 (Z.ltb_ge _ _)) by lia. cbn [negb orb].
  rewrite existsb_visible; [done| |done].
  intros c Hc. by rewrite visible_not_control, visible_not_whitespace.
Qed.

(** What a draft that passed validation guarantees about the invite code. *)
Definition draft_consistent (d : HostDraft) : Prop :=
  match d.(draft_approval_mode) with
  | InviteCode => exists code, d.(draft_invite_code) = Some code
                               /\ is_token code MAX_INVITE_CODE_BYTES = true
  | _ => d.(draft_invite_code) = None
  end.

Lemma validate_consistency_ok (d : HostDraft) :
  validate_consistency d = Ok tt <-> draft_consistent d.
Proof.
  unfold validate_consistency, draft_consistent, validate_token.
  destruct (draft_approval_mode d), (draft_invite_code d) as [code|]; try (split; congruence).
  - destruct (is_token code _) eqn:E; split; try done; [eauto|].
    intros (? & [= <-] & H). congruence.
  - split; [done|]. intros (? & ? & ?). done.
Qed.

(** A successful patch leaves a consistent draft, whose name, if the patch
    set one, obeys the text rule. *)
Lemma patched_consistent (d d' : HostDraft) (patch : HostDraftPatch) :
  patched d patch = Ok d' -> draft_consistent d'.
Proof.
  unfold patched. intros H. apply validate_consistency_ok.
  ok_step H. ok_step H. ok_step H. injection H as <-. repeat match goal with u : unit |- _ => destruct u end. done.
Qed.

Lemma checked_next_ok (r r' : Z) : checked_next r = Ok r' -> r' = r + 1 /\ r + 1 <= u64_max.
Proof.
  unfold checked_next, checked_add. destruct (r + 1 <=? u64_max) eqn:E; [|done].
  to_prop. intros [= <-]. lia.
Qed.

(** The severity of an accepted report is decided by its counts, and every
    peer is accounted for. *)
Lemma DeliveryReport_new_ok (i s f : Z) (r : DeliveryReport) :
  DeliveryReport_new i s f = Ok r ->
  r.(intended_peers) = s + f /\ r.(successful_peers) = s /\ r.(failed_peers) = f.
Proof.
  unfold DeliveryReport_new, checked_add. destruct (s + f <=? u32_max); [|done].
  destruct (s + f =? i) eqn:E; [|done]. to_prop. intros [= <-]. simpl. lia.
Qed.
