(* ===== verification/TransportTypes.v ===== *)
(** The vocabulary of the transport
    (src/rust/silent-disco-core/src/transport/types.rs, socket/counters.rs,
    socket/event_delivery_class.rs and the shared helpers of
    socket/shared.rs): channels, errors, configurations, events, delivery
    reports and the counters the socket workers share. *)
From Stdlib Require Import ZArith Lia Strings.String.
From stdpp Require Import numbers list prelude.
From S2P Require Import Prelude Utf8 Domain Decimal ProtocolTypes Codec RuntimeTypes.

(** ** Limits; durations are in nanoseconds *)

Definition from_millis (ms : Z) : Z := ms * 1000000.
Definition as_millis (duration : Z) : Z := duration / 1000000.
Definition from_secs (s : Z) : Z := s * 1000000000.

Definition DEFAULT_TRANSPORT_QUEUE_CAPACITY : Z := 64.
Definition DEFAULT_TRANSPORT_EVENT_CAPACITY : Z := 256.
Definition DEFAULT_MAX_TRANSPORT_PEERS : Z := 64.
Definition MAX_TRANSPORT_QUEUE_CAPACITY : Z := 4096.
Definition MAX_TRANSPORT_EVENT_CAPACITY : Z := 8192.
Definition MAX_TRANSPORT_PEERS : Z := 1024.
Definition DEFAULT_IO_TIMEOUT : Z := from_millis 100.
Definition DEFAULT_OPERATION_TIMEOUT : Z := from_secs 3.
Definition DEFAULT_MAX_CONSECUTIVE_FAILURES : Z := 3.
Definition DEFAULT_PEER_INBOUND_SILENCE_TIMEOUT : Z := from_secs 8.

(** ** Channels and errors *)

Inductive TransportChannel : Type := ChControl | ChSynchronization | ChAudio | ChRuntime.

#[export] Instance TransportChannel_eq_dec : EqDecision TransportChannel.
Proof. solve_decision. Defined.

Definition channel_stable_name (c : TransportChannel) : rstr :=
  match c with
  | ChControl => lit "control"
  | ChSynchronization => lit "synchronization"
  | ChAudio => lit "audio"
  | ChRuntime => lit "runtime"
  end.

Inductive TransportErrorKind : Type :=
| TkInvalidConfiguration
| TkBind
| TkListen
| TkConnect
| TkIo
| TkProtocol
| TkUnauthorized
| TkQueueFull
| TkTimeout
| TkPeerNotFound
| TkDelivery
| TkShuttingDown
| TkWorkerPanicked.

#[export] Instance TransportErrorKind_eq_dec : EqDecision TransportErrorKind.
Proof. solve_decision. Defined.

Record TransportError : Type := mkTransportError {
  te_kind : TransportErrorKind;
  te_channel : TransportChannel;
  te_message : rstr
}.

#[export] Instance TransportError_eq_dec : EqDecision TransportError.
Proof. solve_decision. Defined.

(** [TransportError::new] with a literal message. *)
Definition transport_error (kind : TransportErrorKind) (channel : TransportChannel) (message : string) :
  TransportError := mkTransportError kind channel (lit message).

Definition transport_timeout (channel : TransportChannel) (message : string) : TransportError :=
  transport_error TkTimeout channel message.

(** [TransportError::io]; the text of a [std::io::Error] is the platform's. *)
Definition transport_io (kind : TransportErrorKind) (channel : TransportChannel) (context : string)
  (error : rstr) : TransportError :=
  mkTransportError kind channel (lit context ++ lit ": " ++ error).

(** [{:04x}] of a 16-bit value. *)
Definition hex_digit (n : Z) : Z := if n <? 10 then 48 + n else 87 + n.
Definition hex4 (n : Z) : rstr :=
  [hex_digit (n / 4096 mod 16); hex_digit (n / 256 mod 16); hex_digit (n / 16 mod 16); hex_digit (n mod 16)].

(** [impl Display for ProtocolError]. *)
Definition protocol_error_text (e : ProtocolError) : rstr :=
  match e with
  | Truncated => lit "protocol input is truncated"
  | TrailingBytes => lit "protocol input contains trailing bytes"
  | InvalidMagic => lit "protocol magic is invalid"
  | UnsupportedVersion version =>
      lit "protocol version " ++ to_decimal version ++ lit " is unsupported"
  | UnsupportedMessageKind kind =>
      lit "protocol message kind " ++ to_decimal kind ++ lit " is unsupported"
  | UnsupportedFlags flags => lit "protocol flags 0x" ++ hex4 flags ++ lit " are unsupported"
  | InvalidHeaderLength length =>
      lit "protocol header length " ++ to_decimal length ++ lit " is invalid"
  | PayloadTooLarge actual maximum =>
      lit "protocol payload is " ++ to_decimal actual ++ lit " bytes; maximum is "
      ++ to_decimal maximum ++ lit " bytes"
  | LengthMismatch declared actual =>
      lit "protocol payload length declares " ++ to_decimal declared ++ lit " bytes but "
      ++ to_decimal actual ++ lit " bytes are present"
  | InvalidBoolean value => lit "protocol boolean value " ++ to_decimal value ++ lit " is invalid"
  | InvalidUtf8 => lit "protocol text is not valid UTF-8"
  | InvalidIdentifier => lit "protocol identifier is invalid"
  | InvalidField field => lit "protocol field " ++ lit field ++ lit " is invalid"
  | UnsupportedAudioCodec codec => lit "audio codec " ++ to_decimal codec ++ lit " is unsupported"
  | IntegrityMismatch => lit "audio payload integrity check failed"
  | UnauthorizedSession => lit "protocol frame belongs to an unauthorized session"
  | StaleAudioSequence => lit "audio frame sequence is stale"
  end.

(** [TransportError::protocol]. *)
Definition transport_protocol (channel : TransportChannel) (error : ProtocolError) : TransportError :=
  mkTransportError (match error with UnauthorizedSession => TkUnauthorized | _ => TkProtocol end)
    channel (protocol_error_text error).

(** ** Configurations *)

Record HostTransportConfig : Type := mkHostTransportConfig {
  host_session_id : rstr;
  host_bind_address : IpAddr;
  host_control_port : Z;
  host_sync_port : Z;
  host_audio_port : Z;
  host_outbound_queue_capacity : Z;
  host_event_queue_capacity : Z;
  host_max_peers : Z;
  host_io_timeout : Z;
  host_operation_timeout : Z;
  host_max_consecutive_failures : Z;
  host_peer_inbound_silence_timeout : Z
}.

Definition LOCALHOST : IpAddr := IpV4 127 0 0 1.

Definition HostTransportConfig_loopback (session_id : rstr) : HostTransportConfig :=
  mkHostTransportConfig session_id LOCALHOST 0 0 0 DEFAULT_TRANSPORT_QUEUE_CAPACITY
    DEFAULT_TRANSPORT_EVENT_CAPACITY DEFAULT_MAX_TRANSPORT_PEERS DEFAULT_IO_TIMEOUT
    DEFAULT_OPERATION_TIMEOUT DEFAULT_MAX_CONSECUTIVE_FAILURES DEFAULT_PEER_INBOUND_SILENCE_TIMEOUT.

Definition invalid_configuration (message : string) : TransportError :=
  transport_error TkInvalidConfiguration ChRuntime message.

Definition validate_common (outbound_queue_capacity event_queue_capacity io_timeout operation_timeout : Z) :
  result unit TransportError :=
  if (outbound_queue_capacity =? 0) || (MAX_TRANSPORT_QUEUE_CAPACITY <? outbound_queue_capacity) then
    Err (invalid_configuration "outbound queue capacity is outside the supported range")
  else if (event_queue_capacity =? 0) || (MAX_TRANSPORT_EVENT_CAPACITY <? event_queue_capacity) then
    Err (invalid_configuration "event queue capacity is outside the supported range")
  else if (io_timeout =? 0) || (operation_timeout =? 0) then
    Err (invalid_configuration "transport timeouts must be nonzero")
  else Ok tt.

Definition HostTransportConfig_validate (c : HostTransportConfig) : result unit TransportError :=
  let? _ := validate_common c.(host_outbound_queue_capacity) c.(host_event_queue_capacity)
              c.(host_io_timeout) c.(host_operation_timeout) in
  if (c.(host_max_peers) =? 0) || (MAX_TRANSPORT_PEERS <? c.(host_max_peers)) then
    Err (invalid_configuration "max_peers is outside the supported range")
  else if c.(host_max_consecutive_failures) =? 0 then
    Err (invalid_configuration "max_consecutive_failures must be nonzero")
  else if c.(host_peer_inbound_silence_timeout) =? 0 then
    Err (invalid_configuration "peer_inbound_silence_timeout must be nonzero")
  else Ok tt.

Record ListenerTransportConfig : Type := mkListenerTransportConfig {
  listener_session_id : rstr;
  listener_device_id : rstr;
  listener_endpoint : NetworkEndpoint;
  listener_local_address : IpAddr;
  listener_outbound_queue_capacity : Z;
  listener_event_queue_capacity : Z;
  listener_io_timeout : Z;
  listener_operation_timeout : Z
}.

Definition ListenerTransportConfig_loopback (session_id device_id : rstr) (endpoint : NetworkEndpoint) :
  ListenerTransportConfig :=
  mkListenerTransportConfig session_id device_id endpoint LOCALHOST DEFAULT_TRANSPORT_QUEUE_CAPACITY
    DEFAULT_TRANSPORT_EVENT_CAPACITY DEFAULT_IO_TIMEOUT DEFAULT_OPERATION_TIMEOUT.

Definition ListenerTransportConfig_validate (c : ListenerTransportConfig) : result unit TransportError :=
  validate_common c.(listener_outbound_queue_capacity) c.(listener_event_queue_capacity)
    c.(listener_io_timeout) c.(listener_operation_timeout).

(** ** Peers and events *)

(** [std::net::SocketAddr]. *)
Record SocketAddr : Type := mkSocketAddr { addr_ip : IpAddr; addr_port : Z }.

#[export] Instance SocketAddr_eq_dec : EqDecision SocketAddr.
Proof. solve_decision. Defined.

Record ListenerDatagramRoutes : Type := mkListenerDatagramRoutes {
  route_synchronization : SocketAddr;
  route_audio : SocketAddr
}.

Record TransportPeer : Type := mkTransportPeer {
  peer_device_id : option rstr;
  peer_control_address : SocketAddr
}.

Inductive TransportEvent : Type :=
| PeerAccepted (peer : TransportPeer) (received_at : Z)
| PeerAuthorized (peer : TransportPeer) (routes : ListenerDatagramRoutes) (received_at : Z)
| FrameReceived (channel : TransportChannel) (peer : TransportPeer) (frame : ProtocolFrame) (received_at : Z)
| PeerDisconnected (peer : TransportPeer) (error : option TransportError) (received_at : Z)
| Rejected (channel : TransportChannel) (source : SocketAddr) (error : TransportError) (received_at : Z).

Definition is_best_effort_event (event : TransportEvent) : bool :=
  match event with
  | Rejected _ _ _ _ => true
  | FrameReceived (ChAudio | ChSynchronization) _ _ _ => true
  | FrameReceived ChControl _ (FControl (CHeartbeat _ | CSynchronizationReport _)) _ => true
  | _ => false
  end.

(** ** Delivery reports *)

Record DatagramSendFailures : Type := mkDatagramSendFailures {
  would_block : Z;
  other_io : Z;
  partial_write : Z
}.

Definition DatagramSendFailures_default : DatagramSendFailures := mkDatagramSendFailures 0 0 0.

Record TransportDelivery : Type := mkTransportDelivery {
  delivery_report : DeliveryReport;
  delivery_bytes_sent : Z;
  datagram_send_failures : option DatagramSendFailures
}.

Definition TransportDelivery_new (intended successful failed bytes_sent : Z) :
  result TransportDelivery TransportError :=
  let? report := map_err (fun error => mkTransportError TkDelivery ChRuntime (record_error_text error))
                   (DeliveryReport_new intended successful failed) in
  Ok (mkTransportDelivery report bytes_sent None).

Definition TransportDelivery_new_with_datagram_send_failures
  (intended successful failed bytes_sent : Z) (failures : DatagramSendFailures) :
  result TransportDelivery TransportError :=
  let categorized_failures :=
    match checked_add u32_max failures.(would_block) failures.(other_io) with
    | Some count => checked_add u32_max count failures.(partial_write)
    | None => None
    end in
  if negb (bool_decide (categorized_failures = Some failed)) then
    Err (transport_error TkDelivery ChRuntime "datagram send failure categories do not match failed peer count")
  else
    let? delivery := TransportDelivery_new intended successful failed bytes_sent in
    Ok (mkTransportDelivery delivery.(delivery_report) delivery.(delivery_bytes_sent) (Some failures)).

(** ** Counters *)

Inductive counter : Type :=
| accepted_control_connections
| closed_control_connections
| control_frames_sent
| control_frames_received
| sync_datagrams_sent
| sync_datagrams_received
| audio_datagrams_sent
| audio_datagrams_received
| bytes_sent
| bytes_received
| malformed_frames
| oversized_frames
| unauthorized_frames
| queue_overflows
| delivery_failures
| best_effort_event_drops
| busy_admission_refusals
| duplicate_join_suppressions
| authoritative_event_failures.

#[export] Instance counter_eq_dec : EqDecision counter.
Proof. solve_decision. Defined.

(** The atomics by name, and the panic flag. *)
Record CounterState : Type := mkCounterState {
  counter_value : counter -> Z;
  worker_panicked : bool
}.

Definition CounterState_default : CounterState := mkCounterState (fun _ => 0) false.

(** [fetch_add], which wraps. *)
Definition fetch_add (k : counter) (n : Z) (c : CounterState) : CounterState :=
  mkCounterState (fun k' => if decide (k' = k) then (c.(counter_value) k + n) mod 2 ^ 64
                            else c.(counter_value) k') c.(worker_panicked).

Definition count (k : counter) (c : CounterState) : CounterState := fetch_add k 1 c.

Definition saturating_u64 (value : Z) : Z := if u64_max <? value then u64_max else value.
Definition add_sent (bytes : Z) : CounterState -> CounterState := fetch_add bytes_sent (saturating_u64 bytes).
Definition add_received (bytes : Z) : CounterState -> CounterState :=
  fetch_add bytes_received (saturating_u64 bytes).

Definition frame_sent (bytes : Z) (c : CounterState) : CounterState := add_sent bytes (count control_frames_sent c).
Definition frame_received (bytes : Z) (c : CounterState) : CounterState :=
  add_received bytes (count control_frames_received c).

Definition datagram_sent (channel : TransportChannel) (bytes : Z) (c : CounterState) : CounterState :=
  add_sent bytes match channel with
                 | ChSynchronization => count sync_datagrams_sent c
                 | ChAudio => count audio_datagrams_sent c
                 | ChControl | ChRuntime => c
                 end.

Definition datagram_received (channel : TransportChannel) (bytes : Z) (c : CounterState) : CounterState :=
  add_received bytes match channel with
                     | ChSynchronization => count sync_datagrams_received c
                     | ChAudio => count audio_datagrams_received c
                     | ChControl | ChRuntime => c
                     end.

Definition mark_worker_panicked (c : CounterState) : CounterState := mkCounterState c.(counter_value) true.

(** ** Rejections *)

(** [str::contains]. *)
Fixpoint contains (needle haystack : rstr) : bool :=
  bool_decide (needle `prefix_of` haystack)
  || match haystack with [] => false | _ :: rest => contains needle rest end.

Definition classify_rejection (error : TransportError) (c : CounterState) : CounterState :=
  match error.(te_kind) with
  | TkUnauthorized => count unauthorized_frames c
  | TkProtocol =>
      if contains (lit "large") error.(te_message) || contains (lit "maximum") error.(te_message)
      then count oversized_frames c
      else count malformed_frames c
  | _ => c
  end.

(** ** Validation and classification *)

(** A validated host configuration has room for a peer, an event and a frame,
    and every wait it bounds is finite and nonzero. *)
Lemma HostTransportConfig_validated (c : HostTransportConfig) :
  HostTransportConfig_validate c = Ok tt ->
  c.(host_outbound_queue_capacity) <> 0 /\ c.(host_outbound_queue_capacity) <= MAX_TRANSPORT_QUEUE_CAPACITY
  /\ c.(host_event_queue_capacity) <> 0 /\ c.(host_event_queue_capacity) <= MAX_TRANSPORT_EVENT_CAPACITY
  /\ c.(host_max_peers) <> 0 /\ c.(host_max_peers) <= MAX_TRANSPORT_PEERS
  /\ c.(host_io_timeout) <> 0 /\ c.(host_operation_timeout) <> 0
  /\ c.(host_max_consecutive_failures) <> 0 /\ c.(host_peer_inbound_silence_timeout) <> 0.
Proof.
  unfold HostTransportConfig_validate, validate_common. intros H.
  repeat match type of H with
  | context [if ?b then _ else _] => destruct b eqn:?; [discriminate|]
  end. to_prop. lia.
Qed.

(** The default configurations are accepted. *)
Lemma loopback_configurations_validate (s d : rstr) (e : NetworkEndpoint) :
  HostTransportConfig_validate (HostTransportConfig_loopback s) = Ok tt
  /\ ListenerTransportConfig_validate (ListenerTransportConfig_loopback s d e) = Ok tt.
Proof. done. Qed.

(** An accepted datagram report categorizes every failed peer. *)
Lemma categorized_delivery (i s f b : Z) (failures : DatagramSendFailures) (d : TransportDelivery) :
  TransportDelivery_new_with_datagram_send_failures i s f b failures = Ok d ->
  failures.(would_block) + failures.(other_io) + failures.(partial_write) = f /\ i = s + f
  /\ d.(datagram_send_failures) = Some failures /\ d.(delivery_bytes_sent) = b.
Proof.
  unfold TransportDelivery_new_with_datagram_send_failures, TransportDelivery_new, checked_add.
  case_bool_decide as Hc; cbn [negb]; [|discriminate].
  destruct (DeliveryReport_new i s f) as [r|] eqn:E; [|discriminate]. intros [= <-]. cbn.
  unfold DeliveryReport_new, checked_add in E. repeat case_match; simplify_eq; to_prop; split_and!; done || lia.
Qed.

Lemma prefix_sep {A : Type} (needle a b : list A) (d : A) :
  ~ In d needle -> needle `prefix_of` a ++ d :: b <-> needle `prefix_of` a.
Proof.
  intros Hd. split; [|intros H; by apply prefix_app_r]. intros [k Hk].
  destruct (decide (length needle <= length a)%nat) as [Hl|Hl].
  - exists (firstn (length a - length needle) k). apply (f_equal (firstn (length a))) in Hk.
    rewrite take_app_length, take_app, (take_ge needle) in Hk by lia. exact Hk.
  - exfalso. apply Hd. assert (needle !! length a = Some d) as Hn.
    { rewrite <-(lookup_app_l needle k) by lia. rewrite <-Hk. by apply list_lookup_middle. }
    apply list_elem_of_In. by eapply list_elem_of_lookup_2.
Qed.

(** A text without a separator's characters is not found across it. *)
Lemma contains_sep (needle a b : rstr) (d : Z) :
  needle <> [] -> ~ In d needle -> contains needle (a ++ d :: b) = contains needle a || contains needle b.
Proof.
  intros Hne Hd. induction a as [|x a IH]; cbn [contains app].
  - rewrite bool_decide_false; [|by intros H%(prefix_sep needle [] b d)%prefix_nil_inv].
    rewrite (bool_decide_false (needle `prefix_of` [])); [done|]. by intros H%prefix_nil_inv.
  - rewrite IH, <-orb_assoc. f_equal. apply bool_decide_ext. exact (prefix_sep needle (x :: a) b d Hd).
Qed.

Lemma contains_skip (needle ds b : rstr) :
  needle <> [] -> Forall (fun d => ~ In d needle) ds -> contains needle (ds ++ b) = contains needle b.
Proof.
  intros Hne H. induction H as [|d ds Hd H IH]; [done|]. cbn [app].
  rewrite <-IH. rewrite <-(app_nil_l (d :: _)), contains_sep by done.
  replace (contains needle []) with false; [done|]. cbn. rewrite orb_false_r.
  rewrite bool_decide_false; [done|]. by intros ?%prefix_nil_inv.
Qed.

Lemma contains_sep_list (needle a ds b : rstr) :
  needle <> [] -> ds <> [] -> Forall (fun d => ~ In d needle) ds ->
  contains needle (a ++ ds ++ b) = contains needle a || contains needle b.
Proof.
  intros Hne Hds H. destruct H as [|d ds Hd H]; [done|]. cbn [app].
  by rewrite contains_sep, contains_skip.
Qed.

Lemma contains_decimal (needle a b : rstr) (n : Z) :
  needle <> [] -> forallb (fun c => 57 <? c) needle = true -> 0 <= n ->
  contains needle (a ++ to_decimal n ++ b) = contains needle a || contains needle b.
Proof.
  intros Hne Hn H0. apply contains_sep_list; [done| |].
  - intros E. pose proof (to_decimal_length n) as Hl. rewrite E in Hl. change (len []) with 0 in Hl. lia.
  - eapply Forall_impl; [exact (to_decimal_digits n H0)|]. intros d Hd Hin.
    apply forallb_forall with (x := d) in Hn; [|done]. unfold is_digit in Hd. cbn beta in Hn. apply Z.ltb_lt in Hn. lia.
Qed.

Lemma contains_head (c d : Z) (needle b : rstr) :
  d <> c -> contains (c :: needle) (d :: b) = contains (c :: needle) b.
Proof.
  intros Hd. cbn [contains]. rewrite bool_decide_false; [done|]. by intros ?%prefix_cons_inv_1.
Qed.

Lemma hex_digit_range (n : Z) : 0 <= n < 16 -> hex_digit n <= 102.
Proof. unfold hex_digit. case_match; to_prop; lia. Qed.

Lemma contains_hex4 (c n : Z) (needle : rstr) :
  102 < c < 120 -> ~ In 48 (c :: needle) ->
  contains (c :: needle) (lit "protocol flags 0x" ++ hex4 n ++ lit " are unsupported")
  = contains (c :: needle) (lit "protocol flags ") || contains (c :: needle) (lit " are unsupported").
Proof.
  intros Hc Hx. change (lit "protocol flags 0x") with (lit "protocol flags " ++ [48; 120]).
  rewrite <-app_assoc. cbn [app]. rewrite contains_sep by done. unfold hex4. cbn [app].
  f_equal. assert (forall k, hex_digit (k mod 16) <> c) as Hh.
  { intros k. pose proof (hex_digit_range (k mod 16) (Z.mod_pos_bound k 16 ltac:(lia))). lia. }
  rewrite contains_head by lia. by rewrite !contains_head.
Qed.

(** What the decoder reports: unsigned numbers, and one of the field names of
    the codec. *)
Definition reported (e : ProtocolError) : Prop :=
  match e with
  | UnsupportedVersion n | UnsupportedMessageKind n | InvalidHeaderLength n | InvalidBoolean n
  | UnsupportedAudioCodec n => 0 <= n
  | PayloadTooLarge a m => 0 <= a /\ 0 <= m
  | LengthMismatch d a => 0 <= d /\ 0 <= a
  | InvalidField field => contains (lit "large") (protocol_error_text e) = false
      /\ contains (lit "maximum") (protocol_error_text e) = false
  | _ => True
  end.

(** The counter a failure class belongs to. *)
Definition rejection_counter (class : ParseFailureClass) : counter :=
  match class with
  | Unauthorized => unauthorized_frames
  | Oversized => oversized_frames
  | _ => malformed_frames
  end.

(** The rejection counters, which search the message for a word, agree with the
    decoder's own classification. *)
Lemma rejections_are_classified (channel : TransportChannel) (e : ProtocolError) (c : CounterState) :
  reported e ->
  classify_rejection (transport_protocol channel e) c = count (rejection_counter (classification e)) c.
Proof.
  intros He. unfold classify_rejection, transport_protocol. cbn [te_kind te_message].
  destruct e; cbn [classification rejection_counter reported] in *; try reflexivity;
    try (destruct He as [H1 H2]; rewrite H1, H2; reflexivity);
    unfold protocol_error_text.
  all: try by rewrite !contains_decimal by (done || lia).
  change (lit "large") with (108 :: lit "arge"). change (lit "maximum") with (109 :: lit "aximum").
  rewrite !contains_hex4; [reflexivity|lia| |lia|]; intros H; cbn in H;
    repeat (destruct H as [H|H]; [discriminate|]); exact H.
Qed.
