(* ===== verification/ControlStream.v ===== *)
(** The TCP control channel's reader
    (src/rust/silent-disco-core/src/transport/socket/shared.rs,
    [read_control_loop]): reassembling frames from what the socket returns,
    under an admission deadline for the first join and a deadline per frame.

    Everything the loop observes from outside (reads, clock readings, the stop
    and joined flags, the answers of its callback) is a script it consumes;
    the theorems hold for every script. *)
From Stdlib Require Import ZArith Lia Strings.String.
From stdpp Require Import numbers list prelude.
From S2P Require Import Prelude Utf8 Domain ProtocolTypes Codec CodecProofs RuntimeTypes TransportTypes.

Definition MAX_CONTROL_FRAME_BYTES : Z := FRAME_HEADER_BYTES + MAX_CONTROL_PAYLOAD_BYTES.


(** [Read::read] into the chunk; no bytes is the end of the stream. *)
Inductive read_result : Type :=
| ReadBytes (bytes : list Z)
| ReadWouldBlock
| ReadFailed (error : rstr).

Inductive ReadControlOutcome : Type :=
| OutcomeFrame (frame : ProtocolFrame) (bytes : Z)
| OutcomeClosed
| OutcomeRejected (error : TransportError).

(** What the loop has seen and done, for the record. *)
Inductive observation : Type :=
| SawTime (instant : Z)
| SawJoined (joined : bool)
| Reported.

(** What the loop observes, and what it did: its reports, the socket's read
    timeout, whether it shut the socket down, and the order in which it read the
    clock and the joined flag and made its reports. *)
Record Script : Type := mkScript {
  instants : list Z;
  stops : list bool;
  joins : list bool;
  reads : list read_result;
  answers : list bool;
  configured : option rstr;
  reports : list ReadControlOutcome;
  read_timeout : option Z;
  shut_down : bool;
  seen : list observation
}.

(** ** Observations *)

Definition next {A : Type} (default : A) (l : list A) : A * list A :=
  match l with [] => (default, []) | a :: l => (a, l) end.

(** [Instant::now]. *)
Definition instant_now (w : Script) : Z * Script :=
  let '(t, rest) := next 0 w.(instants) in
  (t, mkScript rest w.(stops) w.(joins) w.(reads) w.(answers) w.(configured) w.(reports) w.(read_timeout) w.(shut_down)
        (w.(seen) ++ [SawTime t])).

Definition load_stop (w : Script) : bool * Script :=
  let '(b, rest) := next false w.(stops) in
  (b, mkScript w.(instants) rest w.(joins) w.(reads) w.(answers) w.(configured) w.(reports) w.(read_timeout) w.(shut_down)
        w.(seen)).

Definition load_joined (w : Script) : bool * Script :=
  let '(b, rest) := next false w.(joins) in
  (b, mkScript w.(instants) w.(stops) rest w.(reads) w.(answers) w.(configured) w.(reports) w.(read_timeout) w.(shut_down)
        (w.(seen) ++ [SawJoined b])).

Definition stream_read (w : Script) : read_result * Script :=
  let '(r, rest) := next ReadWouldBlock w.(reads) in
  (r, mkScript w.(instants) w.(stops) w.(joins) rest w.(answers) w.(configured) w.(reports) w.(read_timeout) w.(shut_down)
        w.(seen)).

Definition on_outcome (o : ReadControlOutcome) (w : Script) : bool * Script :=
  let '(b, rest) := next true w.(answers) in
  (b, mkScript w.(instants) w.(stops) w.(joins) w.(reads) rest w.(configured) (w.(reports) ++ [o])
        w.(read_timeout) w.(shut_down) (w.(seen) ++ [Reported])).

Definition set_read_timeout (timeout : Z) (w : Script) : option rstr * Script :=
  (w.(configured), mkScript w.(instants) w.(stops) w.(joins) w.(reads) w.(answers) w.(configured) w.(reports)
     (Some timeout) w.(shut_down) w.(seen)).

(** [stream.shutdown(Both)] after the loop. *)
Definition shutdown_both (w : Script) : Script :=
  mkScript w.(instants) w.(stops) w.(joins) w.(reads) w.(answers) w.(configured) w.(reports) w.(read_timeout) true
    w.(seen).

(** ** Deadlines *)

(** [started.elapsed()]. *)
Definition elapsed (started : Z) (w : Script) : Z * Script :=
  let '(now, w) := instant_now w in (saturating_sub now started, w).

(** [!joined && join_started.elapsed() >= deadline], when a join is pending. *)
Definition join_expired (pending_join : option Z) (join_started : Z) (w : Script) : bool * Script :=
  match pending_join with
  | None => (false, w)
  | Some deadline =>
      let '(joined, w) := load_joined w in
      if joined then (false, w)
      else let '(e, w) := elapsed join_started w in (deadline <=? e, w)
  end.

Definition frame_expired (frame_timeout : Z) (frame_started : option Z) (w : Script) : bool * Script :=
  match frame_started with
  | None => (false, w)
  | Some started => let '(e, w) := elapsed started w in (frame_timeout <=? e, w)
  end.

(** ** The loop *)

Record Assembly : Type := mkAssembly {
  decoder : ProtocolDiagnosticCounters;
  buffer : list Z;
  frame_started : option Z
}.

Definition control_timeout (message : string) : ReadControlOutcome :=
  OutcomeRejected (transport_timeout ChControl message).

Definition control_protocol (message : string) : ReadControlOutcome :=
  OutcomeRejected (transport_error TkProtocol ChControl message).

(** Reporting and leaving: the answer is ignored. *)
Definition leave (o : ReadControlOutcome) (w : Script) : Script := (on_outcome o w).2.

Section Loop.
Context {t : target} (frame_timeout : Z) (expected_session : rstr) (pending_join : option Z) (join_started : Z).

(** The inner [loop]: takes complete frames off the buffer. [inl] goes back to
    reading, [inr] returns. A frame takes at least a header, so a fuel above
    the buffer's length is never exhausted. *)
Fixpoint take_frames (fuel : nat) (a : Assembly) (w : Script) : (Assembly * Script) + Script :=
  match fuel with
  | O => inl (a, w)
  | S fuel =>
      let '(expired, w) := join_expired pending_join join_started w in
      if expired then
        inr (leave (control_timeout "TCP peer exceeded the admission deadline while frames were buffered") w)
      else if len a.(buffer) <? FRAME_HEADER_BYTES then inl (a, w)
      else
        match decode_header (firstn (Z.to_nat FRAME_HEADER_BYTES) a.(buffer)) with
        | Err error => inr (leave (OutcomeRejected (transport_protocol ChControl error)) w)
        | Ok header =>
            if negb (is_control_kind header.(header_kind)) then
              inr (leave (control_protocol "non-control protocol frame received on TCP control channel") w)
            else if usize_max <? header.(header_payload_length) then
              inr (leave (control_protocol "control payload length cannot be represented on this platform") w)
            else
              let total := saturating_add usize_max FRAME_HEADER_BYTES header.(header_payload_length) in
              if len a.(buffer) <? total then inl (a, w)
              else
                let frame_bytes := firstn (Z.to_nat total) a.(buffer) in
                let rest := skipn (Z.to_nat total) a.(buffer) in
                let '(result, counters) :=
                  decoder_decode a.(decoder) frame_bytes (mkDecodePolicy (Some expected_session) None) in
                match result with
                | Err error => inr (leave (OutcomeRejected (transport_protocol ChControl error)) w)
                | Ok frame =>
                    let '(go_on, w) := on_outcome (OutcomeFrame frame total) w in
                    if negb go_on then inr w
                    else
                      let '(started, w) :=
                        match rest with
                        | [] => (None, w)
                        | _ => let '(now, w) := instant_now w in (Some now, w)
                        end in
                      take_frames fuel (mkAssembly counters rest started) w
                end
        end
  end.

(** The [Ok(read)] arm: [inr (b, w)] leaves the loop, shutting the socket down
    when [b]. *)
Definition accept_bytes (bytes : list Z) (a : Assembly) (w : Script) : (Assembly * Script) + (bool * Script) :=
  let '(expired, w) := join_expired pending_join join_started w in
  if expired then
    inr (true, leave (control_timeout "TCP peer completed its pre-join read after the admission deadline") w)
  else if MAX_CONTROL_FRAME_BYTES <? saturating_add usize_max (len a.(buffer)) (len bytes) then
    inr (true, leave (control_protocol "control receive buffer exceeded the maximum frame size") w)
  else
    let '(started, w) :=
      match a.(buffer) with
      | [] => let '(now, w) := instant_now w in (Some now, w)
      | _ => (a.(frame_started), w)
      end in
    let a := mkAssembly a.(decoder) (a.(buffer) ++ bytes) started in
    let '(expired, w) := frame_expired frame_timeout a.(frame_started) w in
    if expired then
      inr (true, leave (control_timeout "TCP peer completed a control frame after the frame deadline") w)
    else
      match take_frames (S (length a.(buffer))) a w with
      | inl aw => inl aw
      | inr w => inr (false, w)
      end.

(** The arms of [match stream.read(..)]. *)
Definition handle_read (r : read_result) (a : Assembly) (w : Script) : (Assembly * Script) + (bool * Script) :=
  match r with
  | ReadBytes [] =>
      match a.(buffer) with
      | [] => inr (true, leave OutcomeClosed w)
      | _ => inr (true, leave (control_protocol "control connection closed with a truncated frame") w)
      end
  | ReadBytes bytes => accept_bytes bytes a w
  | ReadWouldBlock => inl (a, w)
  | ReadFailed error =>
      inr (true, leave (OutcomeRejected (transport_io TkIo ChControl "failed to read control connection" error)) w)
  end.

(** One iteration of the [while]. *)
Definition read_step (a : Assembly) (w : Script) : (Assembly * Script) + (bool * Script) :=
  let '(stop, w) := load_stop w in
  if stop then inr (true, w)
  else
    let '(expired, w) := join_expired pending_join join_started w in
    if expired then
      inr (true, leave (control_timeout "TCP peer did not submit a join request before the admission deadline") w)
    else
      let '(expired, w) := frame_expired frame_timeout a.(frame_started) w in
      if expired then
        inr (true, leave (control_timeout "TCP peer did not complete a control frame before the frame deadline") w)
      else
        let '(r, w) := stream_read w in handle_read r a w.

(** The loop, observed after at most [fuel] iterations; the flag says whether
    it has ended. *)
Fixpoint read_loop (fuel : nat) (a : Assembly) (w : Script) : bool * Script :=
  match fuel with
  | O => (false, w)
  | S fuel =>
      match read_step a w with
      | inl (a, w) => read_loop fuel a w
      | inr (true, w) => (true, shutdown_both w)
      | inr (false, w) => (true, w)
      end
  end.
End Loop.

Definition decoder_default : ProtocolDiagnosticCounters := mkCounters 0 0 0 0 0.

(** The function. *)
Definition read_control_loop {t : target} (fuel : nat) (io_timeout frame_timeout : Z) (expected_session : rstr)
  (pending_join : option Z) (w : Script) : bool * Script :=
  let read_timeout := Z.min (match pending_join with Some timeout => Z.min io_timeout timeout | None => io_timeout end)
                        frame_timeout in
  match set_read_timeout read_timeout w with
  | (Some error, w) =>
      (true, leave (OutcomeRejected (transport_io TkIo ChControl "failed to set control read timeout" error)) w)
  | (None, w) =>
      let '(join_started, w) := instant_now w in
      read_loop frame_timeout expected_session pending_join join_started fuel
        (mkAssembly decoder_default [] None) w
  end.

(** ** What is delivered *)

Section Delivered.
Context {t : target} (frame_timeout : Z) (s : rstr) (pending_join : option Z) (join_started : Z).

(** The bytes of a sequence of reads. *)
Definition bytes_of (rs : list read_result) : list Z :=
  concat (map (fun r => match r with ReadBytes b => b | _ => [] end) rs).

(** The bytes read between two states of the script. *)
Definition received (w0 w : Script) : list Z :=
  bytes_of (firstn (length w0.(reads) - length w.(reads)) w0.(reads)).

(** A control message of the session and its encoding. *)
Definition genuine (f : ControlMessage * list Z) : Prop :=
  encode_frame (FControl f.1) = Ok f.2 /\ frame_session_id (FControl f.1) = s.

Definition report (f : ControlMessage * list Z) : ReadControlOutcome := OutcomeFrame (FControl f.1) (len f.2).

(** [R] are the frames reported so far and the buffer. *)
Definition assembled (R : list Z) (a : Assembly) (w : Script) : Prop :=
  exists frames, Forall genuine frames /\ R = concat (map snd frames) ++ a.(buffer)
    /\ w.(reports) = map report frames.

(** The loop ended: at most one report after the frames, and if it is the
    close, nothing is left over. *)
Definition ended (R : list Z) (w : Script) : Prop :=
  exists frames rest tail, Forall genuine frames /\ R = concat (map snd frames) ++ rest
    /\ w.(reports) = map report frames ++ tail
    /\ (tail = [] \/ (tail = [OutcomeClosed] /\ rest = []) \/ exists e, tail = [OutcomeRejected e]).

Lemma elapsed_frame (x : Z) (w w' : Script) (e : Z) :
  elapsed x w = (e, w') -> w'.(reads) = w.(reads) /\ w'.(reports) = w.(reports).
Proof. unfold elapsed, instant_now. destruct (next 0 (instants w)). intros [= <- <-]. done. Qed.

Lemma join_expired_frame (w w' : Script) (b : bool) :
  join_expired pending_join join_started w = (b, w') -> w'.(reads) = w.(reads) /\ w'.(reports) = w.(reports).
Proof.
  unfold join_expired, load_joined. destruct pending_join; [|by intros [= <- <-]].
  destruct (next false (joins w)) as [[] l]; [by intros [= <- <-]|].
  destruct (elapsed _ _) as [e w1] eqn:E. apply elapsed_frame in E. intros [= <- <-]. exact E.
Qed.

Lemma frame_expired_frame (fs : option Z) (w w' : Script) (b : bool) :
  frame_expired frame_timeout fs w = (b, w') -> w'.(reads) = w.(reads) /\ w'.(reports) = w.(reports).
Proof.
  unfold frame_expired. destruct fs; [|by intros [= <- <-]].
  destruct (elapsed _ _) as [e w1] eqn:E. apply elapsed_frame in E. intros [= <- <-]. exact E.
Qed.

Lemma leave_frame (o : ReadControlOutcome) (w : Script) :
  (leave o w).(reads) = w.(reads) /\ (leave o w).(reports) = w.(reports) ++ [o].
Proof. unfold leave, on_outcome. by destruct (next true (answers w)). Qed.

Lemma leave_ends (R : list Z) (a : Assembly) (o : ReadControlOutcome) (w : Script) :
  assembled R a w -> (exists e, o = OutcomeRejected e) \/ (o = OutcomeClosed /\ a.(buffer) = []) ->
  ended R (leave o w).
Proof.
  intros (fs & Hg & HR & Hr) Ho. exists fs, a.(buffer), [o].
  destruct (leave_frame o w) as [_ ->]. rewrite Hr. split_and!; [done..|].
  destruct Ho as [[e ->]|[-> ->]]; eauto.
Qed.

Lemma decode_header_firstn (bs : list Z) :
  FRAME_HEADER_BYTES <= len bs -> decode_header (firstn (Z.to_nat FRAME_HEADER_BYTES) bs) = decode_header bs.
Proof.
  intros H. unfold decode_header. rewrite firstn_firstn, Nat.min_id.
  unfold len, FRAME_HEADER_BYTES in *. rewrite length_firstn.
  rewrite !(proj2 (Z.ltb_ge _ _)) by lia. done.
Qed.

(** A frame taken off the buffer is the encoding of a message of the session. *)
Lemma decoded_is_genuine (c : ProtocolDiagnosticCounters) (bs : list Z) (n : Z) (h : FrameHeader) (f : ProtocolFrame) :
  Forall is_u8 bs -> FRAME_HEADER_BYTES <= n <= len bs -> decode_header bs = Ok h ->
  is_control_kind h.(header_kind) = true ->
  (decoder_decode c (firstn (Z.to_nat n) bs) (mkDecodePolicy (Some s) None)).1 = Ok f ->
  exists m, f = FControl m /\ genuine (m, firstn (Z.to_nat n) bs) /\ len (firstn (Z.to_nat n) bs) = n.
Proof.
  intros Hu Hn Hh Hk Hd. set (frame := firstn (Z.to_nat n) bs) in *.
  assert (len frame = n) as Hl by (unfold frame, len, FRAME_HEADER_BYTES in *; rewrite length_firstn; lia).
  pose proof (decoder_decode_outcome c frame (mkDecodePolicy (Some s) None)) as [Ho _].
  rewrite Hd in Ho. destruct Ho as (Hf & Hs & _). specialize (Hs s eq_refl).
  apply frame_canonical in Hf as [_ He]; [|by apply Forall_take].
  pose proof (encoded_frame_size f frame He) as (_ & _ & _ & Hh').
  assert (decode_header frame = decode_header bs) as Hsame.
  { rewrite <-(decode_header_firstn frame), <-(decode_header_firstn bs) by lia.
    unfold frame. rewrite firstn_firstn. do 2 f_equal. unfold len, FRAME_HEADER_BYTES in *. lia. }
  rewrite Hsame, Hh in Hh'. injection Hh' as ->. cbn in Hk.
  destruct f as [m| | |]; try done. exists m. done.
Qed.

Lemma take_frames_assembled (R : list Z) (fuel : nat) (a : Assembly) (w : Script) :
  Forall is_u8 R -> assembled R a w ->
  match take_frames s pending_join join_started fuel a w with
  | inl (a, w') => assembled R a w' /\ w'.(reads) = w.(reads)
  | inr w' => ended R w' /\ w'.(reads) = w.(reads)
  end.
Proof.
  intros HR. revert a w. induction fuel as [|fuel IH]; intros a w Ha; cbn [take_frames]; [done|].
  destruct (join_expired _ _ w) as [b w1] eqn:E. apply join_expired_frame in E as [Er Ep].
  assert (assembled R a w1) as Ha1 by (unfold assembled; by rewrite Ep).
  rewrite <-Er. clear Er Ep Ha w.
  assert (forall o, (exists e, o = OutcomeRejected e) ->
    ended R (leave o w1) /\ reads (leave o w1) = reads w1) as Hleave.
  { intros o Ho. split; [by apply (leave_ends R a); auto|apply leave_frame]. }
  destruct b; [apply Hleave; eexists; reflexivity|].
  destruct (len a.(buffer) <? FRAME_HEADER_BYTES) eqn:Eh; [done|]. to_prop.
  rewrite decode_header_firstn by lia.
  destruct (decode_header a.(buffer)) as [h|e] eqn:Hh; [|apply Hleave; eauto].
  destruct (is_control_kind h.(header_kind)) eqn:Hk; cbn [negb]; [|apply Hleave; eexists; reflexivity].
  destruct (usize_max <? _); [apply Hleave; eexists; reflexivity|].
  set (total := saturating_add _ _ _). destruct (len a.(buffer) <? total) eqn:Et; [done|]. to_prop.
  destruct Ha1 as (fs & Hg & HRa & Hr).
  assert (Forall is_u8 a.(buffer)) as Hu by (rewrite HRa in HR; by apply Forall_app in HR as [_ ?]).
  assert (FRAME_HEADER_BYTES <= total <= len a.(buffer)) as Ht.
  { split; [|lia]. destruct (decode_header_backward _ _ Hu Hh) as (_ & Hn & _).
    pose proof (maximum_usize (t := t) _ _ (proj2 Hn)). unfold total, saturating_add. lia. }
  pose proof (fun f => decoded_is_genuine a.(decoder) a.(buffer) total h f Hu Ht Hh Hk) as Hdec.
  destruct (decoder_decode _ _ _) as [[f|e] c]; [|apply Hleave; eauto].
  destruct (Hdec f eq_refl) as (m & -> & Hm & Hl). clear Hdec.
  destruct (on_outcome _ w1) as [go w2] eqn:Eo.
  assert (assembled R (mkAssembly c (skipn (Z.to_nat total) a.(buffer)) None) w2 /\ reads w2 = reads w1) as [Ha2 Hr2].
  { unfold on_outcome in Eo. destruct (next true (answers w1)) as [b l]. injection Eo as <- <-. split; [|done].
    exists (fs ++ [(m, firstn (Z.to_nat total) a.(buffer))]). split_and!.
    - apply Forall_app. auto.
    - rewrite HRa, map_app, concat_app. cbn. rewrite app_nil_r, <-app_assoc. by rewrite take_drop.
    - cbn. rewrite Hr, map_app. unfold report at 3. cbn. by rewrite Hl. }
  destruct go; cbn [negb].
  - destruct (skipn (Z.to_nat total) a.(buffer)) as [|x rest] eqn:Erest.
    + specialize (IH (mkAssembly c [] None) w2 Ha2). by rewrite Hr2 in IH.
    + destruct (instant_now w2) as [now w3] eqn:En. unfold instant_now in En.
      destruct (next 0 (instants w2)). injection En as <- <-.
      rewrite <-Hr2. refine (IH _ _ _). exact Ha2.
  - split; [|done]. destruct Ha2 as (fs' & ? & ? & ?). exists fs', (skipn (Z.to_nat total) a.(buffer)), [].
    rewrite app_nil_r. auto.
Qed.

(** A rejection leaves the bytes just read unused. *)
Lemma leave_rejected (R more : list Z) (a : Assembly) (e : TransportError) (w : Script) :
  assembled R a w -> ended (R ++ more) (leave (OutcomeRejected e) w).
Proof.
  intros (fs & Hg & HR & Hr). exists fs, (a.(buffer) ++ more), [OutcomeRejected e].
  destruct (leave_frame (OutcomeRejected e) w) as [_ ->]. rewrite Hr, HR, <-app_assoc. eauto 10.
Qed.

Lemma accept_bytes_assembled (R bytes : list Z) (a : Assembly) (w : Script) :
  Forall is_u8 (R ++ bytes) -> assembled R a w ->
  match accept_bytes frame_timeout s pending_join join_started bytes a w with
  | inl (a, w') => assembled (R ++ bytes) a w' /\ w'.(reads) = w.(reads)
  | inr (_, w') => ended (R ++ bytes) w' /\ w'.(reads) = w.(reads)
  end.
Proof.
  intros Hu Ha. unfold accept_bytes.
  destruct (join_expired _ _ w) as [b w1] eqn:E. apply join_expired_frame in E as [Er Ep].
  assert (assembled R a w1) as Ha1 by (unfold assembled; by rewrite Ep). rewrite <-Er. clear Er Ep Ha w.
  assert (forall e, ended (R ++ bytes) (leave (OutcomeRejected e) w1) /\ reads (leave (OutcomeRejected e) w1) = reads w1)
    as Hleave by (intros e; split; [by apply (leave_rejected R bytes a)|apply leave_frame]).
  destruct b; [apply Hleave|]. destruct (MAX_CONTROL_FRAME_BYTES <? _); [apply Hleave|]. clear Hleave.
  set (start := match buffer a with [] => _ | _ => _ end). destruct start as [st w2] eqn:Es.
  assert (reads w2 = reads w1 /\ reports w2 = reports w1) as [Er Ep].
  { unfold start, instant_now in Es. destruct (buffer a); [destruct (next 0 (instants w1))|];
      injection Es as <- <-; done. }
  assert (assembled (R ++ bytes) (mkAssembly a.(decoder) (a.(buffer) ++ bytes) st) w2) as Ha2.
  { destruct Ha1 as (fs & ? & -> & ?). exists fs. cbn. rewrite <-app_assoc, Ep. done. }
  rewrite <-Er. clear Er Ep Ha1. cbn [frame_started].
  destruct (frame_expired _ _ w2) as [b w3] eqn:E. apply frame_expired_frame in E as [Er Ep].
  assert (assembled (R ++ bytes) (mkAssembly a.(decoder) (a.(buffer) ++ bytes) st) w3) as Ha3
    by (unfold assembled; by rewrite Ep). rewrite <-Er.
  destruct b.
  - split; [|apply leave_frame]. eapply leave_ends; [exact Ha3|]. left. eexists; reflexivity.
  - pose proof (take_frames_assembled _ (S (length (a.(buffer) ++ bytes))) _ _ Hu Ha3) as H.
    cbn [buffer]. destruct (take_frames _ _ _ _ _) as [[a' w']|w']; exact H.
Qed.

Lemma bytes_of_app (l k : list read_result) : bytes_of (l ++ k) = bytes_of l ++ bytes_of k.
Proof. unfold bytes_of. by rewrite map_app, concat_app. Qed.

Lemma received_pre (w0 w : Script) (pre : list read_result) :
  w0.(reads) = pre ++ w.(reads) -> received w0 w = bytes_of pre.
Proof.
  intros H. unfold received. rewrite H, length_app. f_equal.
  replace (_ + _ - _)%nat with (length pre) by lia. apply take_app_length.
Qed.

(** [pre] of the reads [all] are consumed. *)
Definition progress (all : list read_result) (r : (Assembly * Script) + (bool * Script)) : Prop :=
  match r with
  | inl (a, w) => exists pre, all = pre ++ w.(reads) /\ assembled (bytes_of pre) a w
  | inr (_, w) => exists pre, all = pre ++ w.(reads) /\ ended (bytes_of pre) w
  end.

Lemma leave_progress (all pre : list read_result) (a : Assembly) (w : Script) (b : bool) (o : ReadControlOutcome) :
  all = pre ++ w.(reads) -> assembled (bytes_of pre) a w ->
  (exists e, o = OutcomeRejected e) \/ (o = OutcomeClosed /\ a.(buffer) = []) ->
  progress all (inr (b, leave o w)).
Proof.
  intros Hall Ha Ho. exists pre. destruct (leave_frame o w) as [-> _]. split; [done|]. by eapply leave_ends.
Qed.

Lemma handle_read_assembled (all pre : list read_result) (r : read_result) (a : Assembly) (w : Script) :
  Forall is_u8 (bytes_of all) -> all = (pre ++ [r]) ++ w.(reads) -> assembled (bytes_of pre) a w ->
  progress all (handle_read frame_timeout s pending_join join_started r a w).
Proof.
  intros Hu Hall Ha.
  assert (bytes_of (pre ++ [r]) = bytes_of pre ++ match r with ReadBytes b => b | _ => [] end) as Hb
    by (rewrite bytes_of_app; unfold bytes_of at 2; cbn; by rewrite app_nil_r).
  assert (match r with ReadBytes (_ :: _) => False | _ => True end -> assembled (bytes_of (pre ++ [r])) a w) as Hsame.
  { intros Hr. rewrite Hb. destruct r as [[]| |]; try done; by rewrite app_nil_r. }
  destruct r as [[|x bytes]| |e]; cbn [handle_read].
  - destruct (buffer a) eqn:Eb; (eapply leave_progress; [done|by apply Hsame|]); [by right|].
    left. eexists; reflexivity.
  - pose proof (accept_bytes_assembled (bytes_of pre) (x :: bytes) a w) as H. rewrite <-Hb in H.
    destruct (accept_bytes _ _ _ _ _ _ _) as [[a' w']|[b w']]; (destruct H as [H Hr];
      [rewrite Hall, bytes_of_app in Hu; by apply Forall_app in Hu as [? _]|done|]);
      (exists (pre ++ [ReadBytes (x :: bytes)]); rewrite Hr; done).
  - exists (pre ++ [ReadWouldBlock]). auto.
  - eapply leave_progress; [done|by apply Hsame|]. left. eexists; reflexivity.
Qed.

Lemma read_step_assembled (all pre : list read_result) (a : Assembly) (w : Script) :
  Forall is_u8 (bytes_of all) -> all = pre ++ w.(reads) -> assembled (bytes_of pre) a w ->
  progress all (read_step frame_timeout s pending_join join_started a w).
Proof.
  intros Hu Hall Ha. unfold read_step, load_stop. destruct (next false (stops w)) as [b l].
  set (w1 := mkScript _ _ _ _ _ _ _ _ _ _). assert (assembled (bytes_of pre) a w1) as Ha1 by exact Ha.
  change (reads w) with (reads w1) in Hall. clearbody w1. clear Ha w l.
  destruct b; [exists pre; split; [done|]; destruct Ha1 as (fs & ? & ? & ?);
    exists fs, a.(buffer), []; rewrite app_nil_r; auto|].
  destruct (join_expired _ _ w1) as [b w2] eqn:E. apply join_expired_frame in E as [Er Ep].
  assert (assembled (bytes_of pre) a w2) as Ha2 by (unfold assembled; by rewrite Ep).
  rewrite <-Er in Hall. clear Er Ep Ha1 w1.
  destruct b; [eapply leave_progress; try done; left; eexists; reflexivity|].
  destruct (frame_expired _ _ w2) as [b w3] eqn:E. apply frame_expired_frame in E as [Er Ep].
  assert (assembled (bytes_of pre) a w3) as Ha3 by (unfold assembled; by rewrite Ep).
  rewrite <-Er in Hall. clear Er Ep Ha2 w2.
  destruct b; [eapply leave_progress; try done; left; eexists; reflexivity|].
  unfold stream_read. destruct (reads w3) as [|r rest] eqn:Er; cbn [next].
  { exists pre. split; [done|exact Ha3]. }
  eapply handle_read_assembled; [done| |exact Ha3]. by rewrite <-app_assoc.
Qed.
End Delivered.

Section Properties.
Context {t : target}.

(** C16. Whatever the socket returns, whatever the clock and the flags show and
    however the callback answers, the frames the control reader reports are
    control messages of its session whose encodings, one after the other, are
    the bytes received so far up to a remainder that is still incomplete or was
    refused; at most one other report follows them, it ends the loop, and a
    close is reported only when no byte is left over. *)
Theorem control_stream_is_faithful (fuel : nat) (io_timeout frame_timeout : Z) (s : rstr)
  (pending_join : option Z) (w : Script) :
  w.(reports) = [] -> Forall is_u8 (bytes_of w.(reads)) ->
  let '(finished, w') := read_control_loop fuel io_timeout frame_timeout s pending_join w in
  exists frames rest tail, Forall (genuine s) frames
    /\ received w w' = concat (map snd frames) ++ rest
    /\ w'.(reports) = map report frames ++ tail
    /\ (tail = [] \/ (finished = true
          /\ ((tail = [OutcomeClosed] /\ rest = []) \/ exists e, tail = [OutcomeRejected e]))).
Proof.
  intros Hr Hu. unfold read_control_loop, set_read_timeout. destruct (configured w) as [e|] eqn:Hc.
  { exists [], [], [OutcomeRejected (transport_io TkIo ChControl "failed to set control read timeout" e)].
    match goal with |- context [leave ?o ?v] => destruct (leave_frame o v) as [E1 E2] end.
    split_and!; [constructor| |rewrite E2; cbn; by rewrite Hr|eauto 10].
    rewrite (received_pre w _ []); [done|by rewrite E1]. }
  unfold instant_now. cbn [instants stops joins reads answers configured reports read_timeout shut_down seen].
  destruct (next 0 (instants w)) as [js l].
  set (w1 := mkScript _ _ _ _ _ _ _ _ _ _). cbv beta iota.
  assert (forall fuel a (w2 : Script) pre, w.(reads) = pre ++ w2.(reads) -> assembled s (bytes_of pre) a w2 ->
    let '(finished, w') := read_loop frame_timeout s pending_join js fuel a w2 in
    exists pre, w.(reads) = pre ++ w'.(reads) /\
    (if finished then ended s (bytes_of pre) w' else exists a, assembled s (bytes_of pre) a w')) as Hloop.
  { clear fuel w1 l Hc. induction fuel as [|fuel IH]; intros a w2 pre Hw Ha; cbn [read_loop].
    - exists pre. eauto.
    - pose proof (read_step_assembled frame_timeout s pending_join js _ pre a w2 Hu Hw Ha) as Hs.
      destruct (read_step _ _ _ _ a w2) as [[a' w']|[[] w']]; destruct Hs as (pre' & Hp & Hs);
        [by eapply IH|by exists pre'..]. }
  specialize (Hloop fuel (mkAssembly decoder_default [] None) w1 [] eq_refl).
  destruct (read_loop _ _ _ _ fuel _ w1) as [finished w'].
  destruct Hloop as (pre & Hp & Hl); [exists []; by split_and!|].
  rewrite (received_pre w w' pre Hp). destruct finished.
  - destruct Hl as (fs & rest & tail & ? & ? & ? & Ht). exists fs, rest, tail. split_and!; try done.
    destruct Ht as [?|?]; auto.
  - destruct Hl as (a & fs & ? & ? & Hrep). exists fs, a.(buffer), []. rewrite app_nil_r. auto.
Qed.
End Properties.

(** ** Every stream of messages gets through *)







Section Complete.
Context {t : target} (frame_timeout : Z) (s : rstr) (pending_join : option Z) (join_started : Z).
































End Complete.

Section Liveness.
Context {t : target}.

End Liveness.

(** ** Witnesses *)

Module StreamExample.
Definition session : rstr := lit "s".
Definition device : rstr := lit "d".
Definition m1 : ControlMessage := CHeartbeat (mkHeartbeat session device 7).
Definition m2 : ControlMessage := CResyncNotice (mkResyncNotice session device (lit "late")).
Definition encoded (m : ControlMessage) : list Z :=
  match encode_frame (t := Target64) (FControl m) with Ok e => e | Err _ => [] end.
Definition frames : list (ControlMessage * list Z) := [(m1, encoded m1); (m2, encoded m2)].
Definition stream : list Z := concat (map snd frames).

(** The second message arrives in the same reads as the first. *)
Definition pieces : list read_result :=
  [ReadBytes (firstn 10 stream); ReadWouldBlock; ReadBytes (firstn 25 (skipn 10 stream)); ReadBytes (skipn 35 stream)].
Definition script : Script := mkScript [5; 6; 7] [] [] (pieces ++ [ReadBytes []]) [] None [] None false [].
End StreamExample.

Lemma control_stream_is_faithful_witness :
  let w := StreamExample.script in
  let w' := (read_control_loop (t := Target64) 3 1000 1000 StreamExample.session (Some 900) w).2 in
  received w w' <> [] /\ exists frames rest tail, Forall (genuine (t := Target64) StreamExample.session) frames
    /\ received w w' = concat (map snd frames) ++ rest /\ w'.(reports) = map report frames ++ tail.
Proof.
  split; [vm_compute; discriminate|]. cbv zeta.
  assert (Forall is_u8 (bytes_of (reads StreamExample.script))) as Hu.
  { apply list.Forall_forall. intros x Hx%list_elem_of_In.
    assert (forallb (fun b => (0 <=? b) && (b <? 256)) (bytes_of (reads StreamExample.script)) = true) as H
      by (vm_compute; reflexivity).
    apply forallb_forall with (x := x) in H; [|exact Hx]. unfold is_u8, is_uint. to_prop. lia. }
  generalize (control_stream_is_faithful (t := Target64) 3 1000 1000 StreamExample.session (Some 900)
                StreamExample.script eq_refl Hu).
  generalize (read_control_loop (t := Target64) 3 1000 1000 StreamExample.session (Some 900) StreamExample.script).
  intros [finished w'] (frames & rest & tail & H1 & H2 & H3 & _). exists frames, rest, tail. split_and!; assumption.
Defined.


