(* ===== verification/HostWorkers.v ===== *)
(** The worker threads of the socket host
    (src/rust/silent-disco-core/src/transport/socket/host_workers.rs,
    host_worker_startup.rs, host_join_delivery.rs, host/peer.rs,
    host/terminal_mailbox.rs and the event delivery of shared.rs): the accept
    loop, a reader per TCP peer, the datagram receivers and the application
    that collects events, over the state they share.

    A peer is shared by reference between the registry, the routes and its
    threads, so the peers live in a heap by their number. Every step of a
    thread is one access to the shared state, or a few that no other thread
    can tell apart; [worker_step] performs one. What the network and the clocks
    say is part of the step or of the scripts [h_clock], [h_instants],
    [h_sends] and [h_udp]. *)
From Stdlib Require Import ZArith Lia Strings.String.
From stdpp Require Import numbers gmap list prelude.
From S2P Require Import Prelude Utf8 Domain ProtocolTypes Codec RuntimeTypes TransportTypes PlaybackControls.

(** ** Peers *)

(** [ps_sent] is what the peer's writer acknowledged, in order. *)
Record PeerState : Type := mkPeerState {
  ps_number : Z;
  ps_remote : SocketAddr;
  ps_identity : option rstr;
  ps_authorized : bool;
  ps_admission_denied : bool;
  ps_join_forwarded : bool;
  ps_active : bool;
  ps_consecutive_failures : Z;
  ps_stop : bool;
  ps_last_inbound_millis : Z;
  ps_silence_armed : bool;
  ps_sent : list ControlMessage
}.

Definition set_ps_identity (v : option rstr) (p : PeerState) : PeerState :=
  mkPeerState
    p.(ps_number) p.(ps_remote) v p.(ps_authorized) p.(ps_admission_denied) p.(ps_join_forwarded)
    p.(ps_active) p.(ps_consecutive_failures) p.(ps_stop) p.(ps_last_inbound_millis) p.(ps_silence_armed)
    p.(ps_sent).
Definition set_ps_authorized (v : bool) (p : PeerState) : PeerState :=
  mkPeerState
    p.(ps_number) p.(ps_remote) p.(ps_identity) v p.(ps_admission_denied) p.(ps_join_forwarded)
    p.(ps_active) p.(ps_consecutive_failures) p.(ps_stop) p.(ps_last_inbound_millis) p.(ps_silence_armed)
    p.(ps_sent).
Definition set_ps_admission_denied (v : bool) (p : PeerState) : PeerState :=
  mkPeerState
    p.(ps_number) p.(ps_remote) p.(ps_identity) p.(ps_authorized) v p.(ps_join_forwarded) p.(ps_active)
    p.(ps_consecutive_failures) p.(ps_stop) p.(ps_last_inbound_millis) p.(ps_silence_armed) p.(ps_sent).
Definition set_ps_join_forwarded (v : bool) (p : PeerState) : PeerState :=
  mkPeerState
    p.(ps_number) p.(ps_remote) p.(ps_identity) p.(ps_authorized) p.(ps_admission_denied) v p.(ps_active)
    p.(ps_consecutive_failures) p.(ps_stop) p.(ps_last_inbound_millis) p.(ps_silence_armed) p.(ps_sent).
Definition set_ps_active (v : bool) (p : PeerState) : PeerState :=
  mkPeerState
    p.(ps_number) p.(ps_remote) p.(ps_identity) p.(ps_authorized) p.(ps_admission_denied)
    p.(ps_join_forwarded) v p.(ps_consecutive_failures) p.(ps_stop) p.(ps_last_inbound_millis)
    p.(ps_silence_armed) p.(ps_sent).
Definition set_ps_consecutive_failures (v : Z) (p : PeerState) : PeerState :=
  mkPeerState
    p.(ps_number) p.(ps_remote) p.(ps_identity) p.(ps_authorized) p.(ps_admission_denied)
    p.(ps_join_forwarded) p.(ps_active) v p.(ps_stop) p.(ps_last_inbound_millis) p.(ps_silence_armed)
    p.(ps_sent).
Definition set_ps_stop (v : bool) (p : PeerState) : PeerState :=
  mkPeerState
    p.(ps_number) p.(ps_remote) p.(ps_identity) p.(ps_authorized) p.(ps_admission_denied)
    p.(ps_join_forwarded) p.(ps_active) p.(ps_consecutive_failures) v p.(ps_last_inbound_millis)
    p.(ps_silence_armed) p.(ps_sent).
Definition set_ps_last_inbound_millis (v : Z) (p : PeerState) : PeerState :=
  mkPeerState
    p.(ps_number) p.(ps_remote) p.(ps_identity) p.(ps_authorized) p.(ps_admission_denied)
    p.(ps_join_forwarded) p.(ps_active) p.(ps_consecutive_failures) p.(ps_stop) v p.(ps_silence_armed)
    p.(ps_sent).
Definition set_ps_silence_armed (v : bool) (p : PeerState) : PeerState :=
  mkPeerState
    p.(ps_number) p.(ps_remote) p.(ps_identity) p.(ps_authorized) p.(ps_admission_denied)
    p.(ps_join_forwarded) p.(ps_active) p.(ps_consecutive_failures) p.(ps_stop) p.(ps_last_inbound_millis)
    v p.(ps_sent).
Definition set_ps_sent (v : list ControlMessage) (p : PeerState) : PeerState :=
  mkPeerState
    p.(ps_number) p.(ps_remote) p.(ps_identity) p.(ps_authorized) p.(ps_admission_denied)
    p.(ps_join_forwarded) p.(ps_active) p.(ps_consecutive_failures) p.(ps_stop) p.(ps_last_inbound_millis)
    p.(ps_silence_armed) v.

Definition transport_peer (p : PeerState) : TransportPeer := mkTransportPeer p.(ps_identity) p.(ps_remote).

(** [close]: the socket's shutdown is the network's. *)
Definition close (p : PeerState) : PeerState := set_ps_stop true (set_ps_active false p).

Definition mark_inbound_activity (at_ms : Z) (p : PeerState) : PeerState := set_ps_last_inbound_millis at_ms p.
Definition mark_inbound_datagram (at_ms : Z) (p : PeerState) : PeerState :=
  set_ps_silence_armed true (mark_inbound_activity at_ms p).
Definition arm_silence_clock (at_ms : Z) (p : PeerState) : PeerState :=
  set_ps_silence_armed true (mark_inbound_activity at_ms p).
Definition disarm_silence_clock (p : PeerState) : PeerState := set_ps_silence_armed false p.

Definition is_inbound_silent (now timeout : Z) (p : PeerState) : bool :=
  if negb p.(ps_silence_armed) then false
  else saturating_u64 (as_millis timeout) <=? saturating_sub now p.(ps_last_inbound_millis).

(** ** Threads *)

(** Where the accept loop is; the flag of a wait is its [congested]. *)
Inductive accept_pc : Type :=
| AcceptIdle
| AcceptCounted (current_count : Z)
| Announcing (number : Z) (event : TransportEvent) (congested : bool)
| Spawning (number : Z)
| RollingBack (number : Z) (error : TransportError) (event : TransportEvent) (congested : bool)
| AcceptEnded.

(** Where a peer's reader is. *)
Inductive reader_pc : Type :=
| Reading
| Delivering (event : TransportEvent) (congested : bool)
| Leaving (terminal_error : option TransportError)
| Closing (terminal_error : option TransportError)
| Unrouted (terminal_error : option TransportError)
| Reported
| Gone.

(** Where the application's [recv_event] is. *)
Inductive app_pc : Type := AppIdle | AppEmpty | AppWaiting.

(** [send_to]: the whole datagram, part of it, a timeout or another failure. *)
Inductive datagram_result : Type := DatagramSent | DatagramPartial | DatagramTimeout | DatagramFailed (error : rstr).

(** [h_heap] holds every peer there has been, [h_peers] the numbers in the
    registry, [h_datagrams] what went out over UDP, [h_taken] what the
    application received. [None] among [h_sends] is an acknowledged write. *)
Record Host : Type := mkHost {
  h_config : HostTransportConfig;
  h_stop : bool;
  h_counters : CounterState;
  h_heap : gmap Z PeerState;
  h_peers : gset Z;
  h_mailbox : list TransportEvent;
  h_routes : gmap rstr (Z * ListenerDatagramRoutes);
  h_playback : PlaybackControls;
  h_queue : list TransportEvent;
  h_next_peer : Z;
  h_accept : accept_pc;
  h_readers : gmap Z reader_pc;
  h_app : app_pc;
  h_taken : list TransportEvent;
  h_datagrams : list (SocketAddr * ProtocolFrame);
  h_clock : list Z;
  h_instants : list Z;
  h_sends : list (option TransportError);
  h_udp : list datagram_result
}.

Definition set_h_stop (v : bool) (h : Host) : Host :=
  mkHost
    h.(h_config) v h.(h_counters) h.(h_heap) h.(h_peers) h.(h_mailbox) h.(h_routes) h.(h_playback)
    h.(h_queue) h.(h_next_peer) h.(h_accept) h.(h_readers) h.(h_app) h.(h_taken) h.(h_datagrams)
    h.(h_clock) h.(h_instants) h.(h_sends) h.(h_udp).
Definition set_h_counters (v : CounterState) (h : Host) : Host :=
  mkHost
    h.(h_config) h.(h_stop) v h.(h_heap) h.(h_peers) h.(h_mailbox) h.(h_routes) h.(h_playback) h.(h_queue)
    h.(h_next_peer) h.(h_accept) h.(h_readers) h.(h_app) h.(h_taken) h.(h_datagrams) h.(h_clock)
    h.(h_instants) h.(h_sends) h.(h_udp).
Definition set_h_heap (v : gmap Z PeerState) (h : Host) : Host :=
  mkHost
    h.(h_config) h.(h_stop) h.(h_counters) v h.(h_peers) h.(h_mailbox) h.(h_routes) h.(h_playback)
    h.(h_queue) h.(h_next_peer) h.(h_accept) h.(h_readers) h.(h_app) h.(h_taken) h.(h_datagrams)
    h.(h_clock) h.(h_instants) h.(h_sends) h.(h_udp).
Definition set_h_peers (v : gset Z) (h : Host) : Host :=
  mkHost
    h.(h_config) h.(h_stop) h.(h_counters) h.(h_heap) v h.(h_mailbox) h.(h_routes) h.(h_playback)
    h.(h_queue) h.(h_next_peer) h.(h_accept) h.(h_readers) h.(h_app) h.(h_taken) h.(h_datagrams)
    h.(h_clock) h.(h_instants) h.(h_sends) h.(h_udp).
Definition set_h_mailbox (v : list TransportEvent) (h : Host) : Host :=
  mkHost
    h.(h_config) h.(h_stop) h.(h_counters) h.(h_heap) h.(h_peers) v h.(h_routes) h.(h_playback) h.(h_queue)
    h.(h_next_peer) h.(h_accept) h.(h_readers) h.(h_app) h.(h_taken) h.(h_datagrams) h.(h_clock)
    h.(h_instants) h.(h_sends) h.(h_udp).
Definition set_h_routes (v : gmap rstr (Z * ListenerDatagramRoutes)) (h : Host) : Host :=
  mkHost
    h.(h_config) h.(h_stop) h.(h_counters) h.(h_heap) h.(h_peers) h.(h_mailbox) v h.(h_playback)
    h.(h_queue) h.(h_next_peer) h.(h_accept) h.(h_readers) h.(h_app) h.(h_taken) h.(h_datagrams)
    h.(h_clock) h.(h_instants) h.(h_sends) h.(h_udp).
Definition set_h_playback (v : PlaybackControls) (h : Host) : Host :=
  mkHost
    h.(h_config) h.(h_stop) h.(h_counters) h.(h_heap) h.(h_peers) h.(h_mailbox) h.(h_routes) v h.(h_queue)
    h.(h_next_peer) h.(h_accept) h.(h_readers) h.(h_app) h.(h_taken) h.(h_datagrams) h.(h_clock)
    h.(h_instants) h.(h_sends) h.(h_udp).
Definition set_h_queue (v : list TransportEvent) (h : Host) : Host :=
  mkHost
    h.(h_config) h.(h_stop) h.(h_counters) h.(h_heap) h.(h_peers) h.(h_mailbox) h.(h_routes) h.(h_playback)
    v h.(h_next_peer) h.(h_accept) h.(h_readers) h.(h_app) h.(h_taken) h.(h_datagrams) h.(h_clock)
    h.(h_instants) h.(h_sends) h.(h_udp).
Definition set_h_next_peer (v : Z) (h : Host) : Host :=
  mkHost
    h.(h_config) h.(h_stop) h.(h_counters) h.(h_heap) h.(h_peers) h.(h_mailbox) h.(h_routes) h.(h_playback)
    h.(h_queue) v h.(h_accept) h.(h_readers) h.(h_app) h.(h_taken) h.(h_datagrams) h.(h_clock)
    h.(h_instants) h.(h_sends) h.(h_udp).
Definition set_h_accept (v : accept_pc) (h : Host) : Host :=
  mkHost
    h.(h_config) h.(h_stop) h.(h_counters) h.(h_heap) h.(h_peers) h.(h_mailbox) h.(h_routes) h.(h_playback)
    h.(h_queue) h.(h_next_peer) v h.(h_readers) h.(h_app) h.(h_taken) h.(h_datagrams) h.(h_clock)
    h.(h_instants) h.(h_sends) h.(h_udp).
Definition set_h_readers (v : gmap Z reader_pc) (h : Host) : Host :=
  mkHost
    h.(h_config) h.(h_stop) h.(h_counters) h.(h_heap) h.(h_peers) h.(h_mailbox) h.(h_routes) h.(h_playback)
    h.(h_queue) h.(h_next_peer) h.(h_accept) v h.(h_app) h.(h_taken) h.(h_datagrams) h.(h_clock)
    h.(h_instants) h.(h_sends) h.(h_udp).
Definition set_h_app (v : app_pc) (h : Host) : Host :=
  mkHost
    h.(h_config) h.(h_stop) h.(h_counters) h.(h_heap) h.(h_peers) h.(h_mailbox) h.(h_routes) h.(h_playback)
    h.(h_queue) h.(h_next_peer) h.(h_accept) h.(h_readers) v h.(h_taken) h.(h_datagrams) h.(h_clock)
    h.(h_instants) h.(h_sends) h.(h_udp).
Definition set_h_taken (v : list TransportEvent) (h : Host) : Host :=
  mkHost
    h.(h_config) h.(h_stop) h.(h_counters) h.(h_heap) h.(h_peers) h.(h_mailbox) h.(h_routes) h.(h_playback)
    h.(h_queue) h.(h_next_peer) h.(h_accept) h.(h_readers) h.(h_app) v h.(h_datagrams) h.(h_clock)
    h.(h_instants) h.(h_sends) h.(h_udp).
Definition set_h_datagrams (v : list (SocketAddr * ProtocolFrame)) (h : Host) : Host :=
  mkHost
    h.(h_config) h.(h_stop) h.(h_counters) h.(h_heap) h.(h_peers) h.(h_mailbox) h.(h_routes) h.(h_playback)
    h.(h_queue) h.(h_next_peer) h.(h_accept) h.(h_readers) h.(h_app) h.(h_taken) v h.(h_clock)
    h.(h_instants) h.(h_sends) h.(h_udp).
Definition set_h_clock (v : list Z) (h : Host) : Host :=
  mkHost
    h.(h_config) h.(h_stop) h.(h_counters) h.(h_heap) h.(h_peers) h.(h_mailbox) h.(h_routes) h.(h_playback)
    h.(h_queue) h.(h_next_peer) h.(h_accept) h.(h_readers) h.(h_app) h.(h_taken) h.(h_datagrams) v
    h.(h_instants) h.(h_sends) h.(h_udp).
Definition set_h_instants (v : list Z) (h : Host) : Host :=
  mkHost
    h.(h_config) h.(h_stop) h.(h_counters) h.(h_heap) h.(h_peers) h.(h_mailbox) h.(h_routes) h.(h_playback)
    h.(h_queue) h.(h_next_peer) h.(h_accept) h.(h_readers) h.(h_app) h.(h_taken) h.(h_datagrams)
    h.(h_clock) v h.(h_sends) h.(h_udp).
Definition set_h_sends (v : list (option TransportError)) (h : Host) : Host :=
  mkHost
    h.(h_config) h.(h_stop) h.(h_counters) h.(h_heap) h.(h_peers) h.(h_mailbox) h.(h_routes) h.(h_playback)
    h.(h_queue) h.(h_next_peer) h.(h_accept) h.(h_readers) h.(h_app) h.(h_taken) h.(h_datagrams)
    h.(h_clock) h.(h_instants) v h.(h_udp).
Definition set_h_udp (v : list datagram_result) (h : Host) : Host :=
  mkHost
    h.(h_config) h.(h_stop) h.(h_counters) h.(h_heap) h.(h_peers) h.(h_mailbox) h.(h_routes) h.(h_playback)
    h.(h_queue) h.(h_next_peer) h.(h_accept) h.(h_readers) h.(h_app) h.(h_taken) h.(h_datagrams)
    h.(h_clock) h.(h_instants) h.(h_sends) v.

Definition on_peer (n : Z) (f : PeerState -> PeerState) (h : Host) : Host := set_h_heap (alter f n h.(h_heap)) h.
Definition on_counters (f : CounterState -> CounterState) (h : Host) : Host := set_h_counters (f h.(h_counters)) h.
Definition count_h (k : counter) : Host -> Host := on_counters (count k).
Definition set_reader (n : Z) (pc : reader_pc) (h : Host) : Host := set_h_readers (<[n := pc]> h.(h_readers)) h.

(** The transport as [bind] leaves it. *)
Definition bound (config : HostTransportConfig) (clock instants : list Z) (sends : list (option TransportError))
  (udp : list datagram_result) : Host :=
  mkHost config false CounterState_default ∅ ∅ [] ∅ PlaybackControls_default [] 1 AcceptIdle ∅ AppIdle [] []
    clock instants sends udp.

(** ** Event delivery *)

(** [try_send] on the event channel; its receiver lives as long as the host. *)
Definition event_try_send (e : TransportEvent) (h : Host) : bool * Host :=
  if h.(h_config).(host_event_queue_capacity) <=? len h.(h_queue) then (false, h)
  else (true, set_h_queue (h.(h_queue) ++ [e]) h).

(** [send_event]; its assertion on the class of [e] holds at every call. *)
Definition send_event (e : TransportEvent) (h : Host) : Host :=
  let '(sent, h) := event_try_send e h in
  if sent then h else count_h best_effort_event_drops (count_h queue_overflows h).

(** One round of [send_authoritative_event_until]. *)
Inductive delivery_round : Type := RoundSent | RoundStopped | RoundFull.

Definition event_failed (h : Host) : Host := count_h authoritative_event_failures (count_h delivery_failures h).

Definition authoritative_round (stop congested : bool) (e : TransportEvent) (h : Host) : delivery_round * Host :=
  if stop then (RoundStopped, event_failed h)
  else
    let '(sent, h) := event_try_send e h in
    if sent then (RoundSent, h)
    else (RoundFull, if congested then h else count_h queue_overflows h).

(** [TerminalEventMailbox::push] and [pop]. *)
Definition mailbox_push (e : TransportEvent) (capacity : Z) (h : Host) : bool * Host :=
  if capacity <=? len h.(h_mailbox) then (false, h) else (true, set_h_mailbox (h.(h_mailbox) ++ [e]) h).

Definition mailbox_pop (h : Host) : option TransportEvent * Host :=
  match h.(h_mailbox) with [] => (None, h) | e :: rest => (Some e, set_h_mailbox rest h) end.

Definition remove_route_if_current (device_id : rstr) (peer_number : Z) (h : Host) : bool * Host :=
  match h.(h_routes) !! device_id with
  | Some (n, _) => if n =? peer_number then (true, set_h_routes (delete device_id h.(h_routes)) h) else (false, h)
  | None => (false, h)
  end.

(** ** Validation *)

Definition require_authorized_identity (device_id : rstr) (p : PeerState) : result unit TransportError :=
  if negb p.(ps_authorized) || negb (bool_decide (p.(ps_identity) = Some device_id)) then
    Err (transport_error TkUnauthorized ChControl "control frame was not sent by the authorized peer identity")
  else Ok tt.

(** [validate_host_frame] returns the peer it updates. *)
Definition validate_host_frame (frame : ProtocolFrame) (p : PeerState) : result PeerState TransportError :=
  match frame with
  | FControl message =>
      let authorized device_id := let? _ := require_authorized_identity device_id p in Ok p in
      match message with
      | CJoinRequest request =>
          let claimed := request.(join_device).(device_id) in
          if is_some_and (fun current => negb (bool_decide (current = claimed))) p.(ps_identity) then
            Err (transport_error TkUnauthorized ChControl "control peer attempted to change device identity")
          else Ok (set_ps_identity (Some claimed) p)
      | CHeartbeat value => authorized value.(heartbeat_listener_id)
      | CDisconnect value => authorized value.(disconnect_listener_id)
      | CResyncNotice value => authorized value.(resync_listener_id)
      | CSynchronizationReport value => authorized value.(report_listener_id)
      | CHello _ | CJoinApproval _ | CJoinRejection _ | CStreamStart _ | CTrackBoundary _ | CPause _ | CStop _ =>
          Err (transport_error TkUnauthorized ChControl "listener sent a host-only control message")
      end
  | _ => Err (transport_error TkProtocol ChControl "non-control frame reached host control validation")
  end.

Definition datagram_matches_channel (channel : TransportChannel) (frame : ProtocolFrame) : bool :=
  match channel, frame with
  | ChSynchronization, FSyncRequest _ | ChAudio, FAudio _ => true
  | _, _ => false
  end.

(** ** The accept loop *)

(** [register_peer] up to the announcement. The 64-bit peer number is taken not
    to wrap, which needs 2^64 connections. *)
Definition register_peer (remote : SocketAddr) (now announced_at : Z) (h : Host) : Host :=
  let number := h.(h_next_peer) in
  let peer := mkPeerState number remote None false false false true 0 false now false [] in
  let h := set_h_next_peer (number + 1) h in
  let h := set_h_heap (<[number := peer]> h.(h_heap)) h in
  let h := set_h_peers ({[number]} ∪ h.(h_peers)) h in
  set_h_accept (Announcing number (PeerAccepted (transport_peer peer) announced_at) false)
    (count_h accepted_control_connections h).

(** The socket is over the limit of peers and uncollected terminals: the
    refusal thread owns it from here. *)
Definition accept_pending (remote : SocketAddr) (now announced_at : Z) (h : Host) : Host :=
  match h.(h_accept) with
  | AcceptCounted current_count =>
      if h.(h_config).(host_max_peers) <=? saturating_add u64_max current_count (len h.(h_mailbox)) then
        set_h_accept AcceptIdle (count_h delivery_failures (count_h busy_admission_refusals h))
      else register_peer remote now announced_at h
  | _ => h
  end.

(** The registration failed before any worker started. *)
Definition abandon_announcement (number : Z) (h : Host) : Host :=
  let h := on_peer number close h in
  let h := set_h_peers (h.(h_peers) ∖ {[number]}) h in
  set_h_accept AcceptIdle (count_h closed_control_connections h).

Definition announcement_error : TransportError :=
  transport_error TkQueueFull ChControl "host event queue could not accept the new peer; connection refused".

(** The [Rejected] event of a failed [register_peer]. *)
Definition refuse_registration (number : Z) (error : TransportError) (now : Z) (h : Host) : Host :=
  match h.(h_heap) !! number with
  | Some p => send_event (Rejected ChControl p.(ps_remote) error now) h
  | None => h
  end.

Definition accept_announce (now : Z) (h : Host) : Host :=
  match h.(h_accept) with
  | Announcing number event congested =>
      match authoritative_round h.(h_stop) congested event h with
      | (RoundSent, h) => set_h_accept (Spawning number) h
      | (RoundStopped, h) => refuse_registration number announcement_error now (abandon_announcement number h)
      | (RoundFull, h) => set_h_accept (Announcing number event true) h
      end
  | _ => h
  end.

(** The bounded wait is over: only a full queue is waited for. *)
Definition accept_give_up (now : Z) (h : Host) : Host :=
  match h.(h_accept) with
  | Announcing number event true =>
      refuse_registration number announcement_error now (abandon_announcement number (event_failed h))
  | _ => h
  end.

(** Both workers of the peer run. *)
Definition accept_spawned (h : Host) : Host :=
  match h.(h_accept) with
  | Spawning number =>
      let h := set_h_accept AcceptIdle (set_reader number Reading h) in
      if h.(h_stop) then on_peer number close h else h
  | _ => h
  end.

(** [rollback_failed_peer_start]: a worker could not be spawned. *)
Definition accept_spawn_failed (error : TransportError) (now : Z) (h : Host) : Host :=
  match h.(h_accept) with
  | Spawning number =>
      let h := on_peer number close h in
      match h.(h_heap) !! number with
      | Some p => set_h_accept (RollingBack number error (PeerDisconnected (transport_peer p) (Some error) now) false) h
      | None => h
      end
  | _ => h
  end.

Definition finish_rollback (number : Z) (error : TransportError) (now : Z) (h : Host) : Host :=
  let h := set_h_peers (h.(h_peers) ∖ {[number]}) h in
  refuse_registration number error now (set_h_accept AcceptIdle (count_h closed_control_connections h)).

Definition accept_rollback (now : Z) (h : Host) : Host :=
  match h.(h_accept) with
  | RollingBack number error event congested =>
      match authoritative_round h.(h_stop) congested event h with
      | (RoundFull, h) => set_h_accept (RollingBack number error event true) h
      | (_, h) => finish_rollback number error now h
      end
  | _ => h
  end.

Definition accept_rollback_timeout (now : Z) (h : Host) : Host :=
  match h.(h_accept) with
  | RollingBack number error event true => finish_rollback number error now (event_failed h)
  | _ => h
  end.

(** ** Readers *)

Definition delivery_timed_out : TransportError :=
  transport_error TkQueueFull ChControl "host control event delivery timed out; peer disconnected".

(** [forward_join_or_refuse]: [refusal] is what the writer says of the busy
    answer. *)
Definition forward_join_or_refuse {t : target} (n : Z) (listener_id : rstr) (event : TransportEvent)
  (refusal : option TransportError) (h : Host) : Host :=
  let '(sent, h) := event_try_send event h in
  if sent then set_reader n Reading h
  else
    let h := count_h busy_admission_refusals (count_h delivery_failures (count_h queue_overflows h)) in
    let message := CJoinRejection (mkJoinRejection h.(h_config).(host_session_id) listener_id
                     (lit "Host busy: join queue full; reconnect and retry")) in
    let answer := match encode_frame (FControl message) with
                  | Err error => Some (transport_protocol ChControl error)
                  | Ok _ => refusal
                  end in
    match answer with
    | None =>
        set_reader n (Leaving (Some (transport_error TkQueueFull ChControl
          "host join queue full; busy rejection delivered")))
          (on_peer n (fun p => set_ps_sent (p.(ps_sent) ++ [message]) p) h)
    | Some failure =>
        set_reader n (Leaving (Some (mkTransportError TkDelivery ChControl
          (lit "failed to deliver join busy refusal: " ++ failure.(te_message)))))
          (count_h delivery_failures h)
    end.

(** A rejection by the reader: counted, reported, and the connection ends. *)
Definition reader_rejects (n : Z) (p : PeerState) (error : TransportError) (now : Z) (h : Host) : Host :=
  set_reader n (Leaving (Some error))
    (send_event (Rejected ChControl p.(ps_remote) error now) (on_counters (classify_rejection error) h)).

(** The callback on a frame of [bytes] bytes. *)
Definition reader_frame {t : target} (n : Z) (frame : ProtocolFrame) (bytes now : Z)
  (refusal : option TransportError) (h : Host) : Host :=
  match h.(h_readers) !! n, h.(h_heap) !! n with
  | Some Reading, Some p =>
      let h := on_counters (frame_received bytes) h in
      match validate_host_frame frame p with
      | Err error => reader_rejects n p error now h
      | Ok p' =>
          let p' := mark_inbound_activity now p' in
          let event := FrameReceived ChControl (transport_peer p') frame now in
          match frame with
          | FControl (CJoinRequest request) =>
              let forwarded := p'.(ps_join_forwarded) in
              let h := on_peer n (fun _ => set_ps_join_forwarded true p') h in
              if forwarded then count_h duplicate_join_suppressions h
              else forward_join_or_refuse n request.(join_device).(device_id) event refusal h
          | _ =>
              let h := on_peer n (fun _ => p') h in
              if is_best_effort_event event then send_event event h
              else set_reader n (Delivering event false) h
          end
      end
  | _, _ => h
  end.

Definition reader_deliver (n : Z) (h : Host) : Host :=
  match h.(h_readers) !! n, h.(h_heap) !! n with
  | Some (Delivering event congested), Some p =>
      match authoritative_round p.(ps_stop) congested event h with
      | (RoundSent, h) => set_reader n Reading h
      | (RoundStopped, h) => set_reader n (Leaving (Some delivery_timed_out)) h
      | (RoundFull, h) => set_reader n (Delivering event true) h
      end
  | _, _ => h
  end.

Definition reader_give_up (n : Z) (h : Host) : Host :=
  match h.(h_readers) !! n with
  | Some (Delivering event true) => set_reader n (Leaving (Some delivery_timed_out)) (event_failed h)
  | _ => h
  end.

(** The reader's other outcomes; a stop flag ends the loop without one. *)
Definition reader_ends (n : Z) (error : option TransportError) (now : Z) (h : Host) : Host :=
  match h.(h_readers) !! n, h.(h_heap) !! n with
  | Some Reading, Some p =>
      match error with
      | Some error => reader_rejects n p error now h
      | None => set_reader n (Leaving None) h
      end
  | _, _ => h
  end.

(** What follows the loop, one access at a time. *)
Definition reader_exit (n : Z) (now : Z) (h : Host) : Host :=
  match h.(h_readers) !! n, h.(h_heap) !! n with
  | Some (Leaving error), Some p => set_reader n (Closing error) (on_peer n close h)
  | Some (Closing error), Some p =>
      let h := match p.(ps_identity) with
               | Some device_id => (remove_route_if_current device_id n h).2
               | None => h
               end in
      set_reader n (Unrouted error) (count_h closed_control_connections h)
  | Some (Unrouted error), Some p =>
      let '(pushed, h) := mailbox_push (PeerDisconnected (transport_peer p) error now)
                            h.(h_config).(host_max_peers) h in
      set_reader n Reported
        (if pushed then h else set_h_stop true (on_counters mark_worker_panicked (event_failed h)))
  | Some Reported, Some p => set_reader n Gone (set_h_peers (h.(h_peers) ∖ {[n]}) h)
  | _, _ => h
  end.

(** ** Datagram receivers *)

(** The authorized peer whose route on [channel] is [source]. *)
Definition route_of (channel : TransportChannel) (source : SocketAddr) (h : Host) : option (rstr * Z) :=
  head (omap (fun '(device_id, (n, routes)) =>
    let expected := match channel with ChSynchronization => Some routes.(route_synchronization)
                                  | ChAudio => Some routes.(route_audio) | _ => None end in
    p ← h.(h_heap) !! n;
    if bool_decide (expected = Some source) && p.(ps_active) && p.(ps_authorized)
    then Some (device_id, n) else None) (map_to_list h.(h_routes))).

Definition datagram_in {t : target} (channel : TransportChannel) (source : SocketAddr) (bytes : list Z) (now : Z)
  (h : Host) : Host :=
  let reject error h := send_event (Rejected channel source error now) h in
  match match channel with
        | ChAudio => Some MAX_AUDIO_DATAGRAM_BYTES
        | ChSynchronization => Some 4096
        | ChControl | ChRuntime => None
        end with
  | None => h
  | Some capacity =>
      if capacity <? len bytes then
        reject (transport_error TkProtocol channel "datagram exceeded the maximum supported size")
          (count_h oversized_frames h)
      else match route_of channel source h with
      | None =>
          reject (transport_error TkUnauthorized channel "datagram source is not an authorized peer route")
            (count_h unauthorized_frames h)
      | Some (device_id, n) =>
          match (decoder_decode (mkCounters 0 0 0 0 0) bytes
                   (mkDecodePolicy (Some h.(h_config).(host_session_id)) None)).1 with
          | Err error =>
              let error := transport_protocol channel error in
              reject error (on_counters (classify_rejection error) h)
          | Ok frame =>
              if datagram_matches_channel channel frame then
                let h := on_counters (datagram_received channel (len bytes)) h in
                let h := on_peer n (mark_inbound_datagram now) h in
                match h.(h_heap) !! n with
                | Some p => send_event (FrameReceived channel (mkTransportPeer (Some device_id) p.(ps_remote)) frame now) h
                | None => h
                end
              else reject (transport_error TkProtocol channel "protocol frame arrived on the wrong datagram channel")
                     (count_h malformed_frames h)
          end
      end
  end.

(** ** The application's [recv_event] *)

Definition take_queued (next : app_pc) (h : Host) : Host :=
  match h.(h_queue) with
  | e :: rest => set_h_app AppIdle (set_h_taken (h.(h_taken) ++ [e]) (set_h_queue rest h))
  | [] => set_h_app next h
  end.

Definition app_step (h : Host) : Host :=
  match h.(h_app) with
  | AppIdle => take_queued AppEmpty h
  | AppEmpty =>
      match mailbox_pop h with
      | (Some e, h) => set_h_app AppIdle (set_h_taken (h.(h_taken) ++ [e]) h)
      | (None, h) => set_h_app AppWaiting h
      end
  | AppWaiting => take_queued AppIdle h
  end.

(** ** Steps *)

Inductive worker_act : Type :=
| AcceptLen
| AcceptPending (remote : SocketAddr) (now announced_at : Z)
| AcceptAnnounce (now : Z)
| AcceptGiveUp (now : Z)
| AcceptSpawned
| AcceptSpawnFailed (error : TransportError) (now : Z)
| AcceptRollback (now : Z)
| AcceptRollbackTimeout (now : Z)
| AcceptStops
| ReaderFrame (n : Z) (frame : ProtocolFrame) (bytes now : Z) (refusal : option TransportError)
| ReaderDeliver (n : Z)
| ReaderGiveUp (n : Z)
| ReaderEnds (n : Z) (error : option TransportError) (now : Z)
| ReaderExit (n now : Z)
| DatagramIn (channel : TransportChannel) (source : SocketAddr) (bytes : list Z) (now : Z)
| AppStep.

Definition worker_step {t : target} (a : worker_act) (h : Host) : Host :=
  match a with
  | AcceptLen =>
      match h.(h_accept) with
      | AcceptIdle => set_h_accept (AcceptCounted (Z.of_nat (size h.(h_peers)))) h
      | _ => h
      end
  | AcceptPending remote now announced_at => accept_pending remote now announced_at h
  | AcceptAnnounce now => accept_announce now h
  | AcceptGiveUp now => accept_give_up now h
  | AcceptSpawned => accept_spawned h
  | AcceptSpawnFailed error now => accept_spawn_failed error now h
  | AcceptRollback now => accept_rollback now h
  | AcceptRollbackTimeout now => accept_rollback_timeout now h
  | AcceptStops => match h.(h_accept) with
                   | AcceptIdle => if h.(h_stop) then set_h_accept AcceptEnded h else h
                   | _ => h
                   end
  | ReaderFrame n frame bytes now refusal => reader_frame n frame bytes now refusal h
  | ReaderDeliver n => reader_deliver n h
  | ReaderGiveUp n => reader_give_up n h
  | ReaderEnds n error now => reader_ends n error now h
  | ReaderExit n now => reader_exit n now h
  | DatagramIn channel source bytes now => datagram_in channel source bytes now h
  | AppStep => app_step h
  end.
