(* ===== verification/HostTransport.v ===== *)
(** The socket host's operations
    (src/rust/silent-disco-core/src/transport/socket/host/: lookup.rs,
    authorization.rs, broadcast.rs, node.rs): admission, targeted and broadcast
    delivery and disconnection, as programs that run beside the worker threads
    of HostWorkers.v.

    The operations that deliver or admit hold [control_delivery], so they run
    one after the other while the workers' steps fall between any two of their
    accesses; [authorize_peer] chooses its peer before it takes the lock. An
    acknowledged or failed write of a peer's [ControlSender] and the outcome of
    a [send_to] are the next entries of the scripts [h_sends] and [h_udp]; the
    failure counters the sender keeps for itself are not in this model. *)
From Stdlib Require Import ZArith Lia Strings.String.
From stdpp Require Import numbers gmap list prelude.
From S2P Require Import Prelude Utf8 Domain ProtocolTypes Codec RuntimeTypes Interleaving TransportTypes PlaybackControls HostWorkers.

Section Operations.
Context {t : target}.

(** A program of the host: what it has left of the schedule, and the host. *)
Definition host_prog (A : Type) : Type := prog (@scheduled Host worker_act) TransportError A.

Definition access {A : Type} (f : Host -> A * Host) : host_prog A := atomic worker_step f.
Definition update_host (f : Host -> Host) : host_prog unit := access (fun h => (tt, f h)).
Definition read_host {A : Type} (f : Host -> A) : host_prog A := access (fun h => (f h, h)).

(** [self.clock.now()]. *)
Definition clock_now (h : Host) : Z * Host :=
  match h.(h_clock) with [] => (0, h) | now :: rest => (now, set_h_clock rest h) end.

(** [Instant::now]. *)
Definition host_instant (h : Host) : Z * Host :=
  match h.(h_instants) with [] => (0, h) | now :: rest => (now, set_h_instants rest h) end.

(** ** lookup.rs *)

Definition is_pending (device_id : rstr) (p : PeerState) : bool :=
  p.(ps_active) && negb p.(ps_authorized) && negb p.(ps_admission_denied)
  && bool_decide (p.(ps_identity) = Some device_id).

(** The registered peers a test holds of. *)
Definition registered (test : PeerState -> bool) (h : Host) : list Z :=
  filter (fun n => is_some_and test (h.(h_heap) !! n) = true) (elements h.(h_peers)).

Definition pending_peer_for_device (device_id : rstr) (h : Host) : result Z TransportError :=
  match registered (is_pending device_id) h with
  | [] => Err (transport_error TkPeerNotFound ChControl "identified pending control peer is not connected")
  | [n] => Ok n
  | _ => Err (transport_error TkUnauthorized ChControl
                "multiple pending TCP peers claim the same device ID; admission is ambiguous")
  end.

Definition active_peer (n : Z) (h : Host) : bool := is_some_and ps_active (h.(h_heap) !! n).

Definition not_connected : TransportError :=
  transport_error TkPeerNotFound ChControl "authorized peer is not connected".

Definition peer_for_device (device_id : rstr) (h : Host) : result Z TransportError :=
  match h.(h_routes) !! device_id with
  | Some (n, _) => if active_peer n h then Ok n else Err not_connected
  | None => Err not_connected
  end.

(** The filter of [authorized_routes], which closes the silent peers. *)
Fixpoint live_routes (now : Z) (rs : list (rstr * (Z * ListenerDatagramRoutes))) (h : Host) :
  list (rstr * (Z * ListenerDatagramRoutes)) * Host :=
  match rs with
  | [] => ([], h)
  | (device_id, (n, routes)) :: rs =>
      match h.(h_heap) !! n with
      | Some p =>
          if negb p.(ps_active) then live_routes now rs h
          else if is_inbound_silent now h.(h_config).(host_peer_inbound_silence_timeout) p
          then live_routes now rs (on_peer n close h)
          else let '(live, h) := live_routes now rs h in ((device_id, (n, routes)) :: live, h)
      | None => live_routes now rs h
      end
  end.

Definition authorized_routes (h : Host) : list (rstr * (Z * ListenerDatagramRoutes)) * Host :=
  let '(now, h) := clock_now h in live_routes now (map_to_list h.(h_routes)) h.

Definition is_authoritative (message : ControlMessage) : bool :=
  match message with
  | CHello _ | CJoinApproval _ | CJoinRejection _ | CDisconnect _ | CResyncNotice _
  | CStreamStart _ | CTrackBoundary _ | CPause _ | CStop _ => true
  | _ => false
  end.

Definition retire_on_failed_playback_delivery (n : Z) (message : ControlMessage) (h : Host) : Host :=
  if is_authoritative message then on_peer n close h else h.

Definition update_silence_clock (n : Z) (message : ControlMessage) (h : Host) : Host :=
  match message with
  | CStreamStart _ => let '(now, h) := clock_now h in on_peer n (arm_silence_clock now) h
  | CStop _ => on_peer n disarm_silence_clock h
  | _ => h
  end.

Definition record_peer_result (n : Z) (failed : bool) (h : Host) : Host :=
  match h.(h_heap) !! n with
  | None => h
  | Some p =>
      if negb failed then on_peer n (set_ps_consecutive_failures 0) h
      else
        let previous := p.(ps_consecutive_failures) in
        let h := on_peer n (set_ps_consecutive_failures ((previous + 1) mod 2 ^ 32)) h in
        if h.(h_config).(host_max_consecutive_failures) <=? saturating_add u32_max previous 1
        then on_peer n close h else h
  end.

(** ** Control writes *)

(** [peer.sender.send]. *)
Definition sender_send (n : Z) (message : ControlMessage) (bytes : list Z) : host_prog (result Z TransportError) :=
  access (fun h =>
    let '(outcome, h) := match h.(h_sends) with [] => (None, h) | o :: rest => (o, set_h_sends rest h) end in
    match outcome with
    | None => (Ok (len bytes), on_counters (frame_sent (len bytes))
                 (on_peer n (fun p => set_ps_sent (p.(ps_sent) ++ [message]) p) h))
    | Some error => (Err error, h)
    end).

Definition is_err {A E : Type} (r : result A E) : bool := match r with Ok _ => false | Err _ => true end.

(** [send] and [record_peer_result]. *)
Definition send_recorded (n : Z) (message : ControlMessage) (bytes : list Z) : host_prog (result Z TransportError) :=
  r ← sender_send n message bytes;
  _ ← update_host (record_peer_result n (is_err r));
  mret r.

Definition encode_control_frame (message : ControlMessage) : result (list Z) TransportError :=
  map_err (transport_protocol ChControl) (encode_frame (FControl message)).

(** ** authorization.rs *)

(** The loop of [send_cached_playback_controls]. *)
Fixpoint replay_controls (n : Z) (total_bytes : Z) (controls : list ControlMessage) : host_prog Z :=
  match controls with
  | [] => mret total_bytes
  | message :: controls =>
      bytes ← lift (encode_control_frame message);
      r ← send_recorded n message bytes;
      _ ← (if is_err r then update_host (retire_on_failed_playback_delivery n message) else mret tt);
      written ← lift r;
      _ ← update_host (update_silence_clock n message);
      replay_controls n (saturating_add u64_max total_bytes written) controls
  end.

Definition send_cached_playback_controls (n : Z) (include_terminal_stop : bool) : host_prog Z :=
  controls ← access (fun h =>
    let '(now, h) := clock_now h in
    (if include_terminal_stop then recovery_snapshot_at now h.(h_playback) else snapshot_at now h.(h_playback), h));
  replay_controls n 0 controls.

(** [send_authoritative_event_bounded] with the host's stop flag. *)
Definition publish_round (started : Z) (event : TransportEvent) (congested : bool) : host_prog (bool + bool) :=
  r ← access (fun h => authoritative_round h.(h_stop) congested event h);
  match r with
  | RoundSent => mret (inr true)
  | RoundStopped => mret (inr false)
  | RoundFull =>
      access (fun h =>
        let '(now, h) := host_instant h in
        if h.(h_config).(host_operation_timeout) <=? saturating_sub now started
        then (inr false, event_failed h) else (inl true, h))
  end.

Definition publish (event : TransportEvent) : host_prog bool :=
  started ← access host_instant;
  worker_loop (publish_round started event) false.

Definition shutting_down_error : TransportError :=
  transport_error TkShuttingDown ChRuntime "transport runtime is shutting down".

(** What [authorize_peer_with_routes] does before it takes the lock. *)
Definition select_peer (device_id : rstr) (routes : ListenerDatagramRoutes) (h : Host) : result Z TransportError :=
  if h.(h_stop) then Err shutting_down_error
  else
    let? n := pending_peer_for_device device_id h in
    match h.(h_heap) !! n with
    | Some p =>
        if negb (bool_decide (routes.(route_synchronization).(addr_ip) = p.(ps_remote).(addr_ip)))
           || negb (bool_decide (routes.(route_audio).(addr_ip) = p.(ps_remote).(addr_ip)))
        then Err (transport_error TkUnauthorized ChRuntime
                    "datagram routes must use the authenticated control peer address")
        else Ok n
    | None => Err (transport_error TkPeerNotFound ChControl "identified pending control peer is not connected")
    end.

(** What [authorize_peer_ports] does before that. *)
Definition select_routes (device_id : rstr) (sync_port audio_port : Z) (h : Host) :
  result ListenerDatagramRoutes TransportError :=
  if h.(h_stop) then Err shutting_down_error
  else if (sync_port =? 0) || (audio_port =? 0) then
    Err (transport_error TkInvalidConfiguration ChRuntime "listener UDP routes must use nonzero ports")
  else
    let? n := pending_peer_for_device device_id h in
    match h.(h_heap) !! n with
    | Some p => Ok (mkListenerDatagramRoutes (mkSocketAddr p.(ps_remote).(addr_ip) sync_port)
                      (mkSocketAddr p.(ps_remote).(addr_ip) audio_port))
    | None => Err (transport_error TkPeerNotFound ChControl "identified pending control peer is not connected")
    end.

(** The route and the flag change under one lock. *)
Definition insert_route (device_id : rstr) (n : Z) (routes : ListenerDatagramRoutes) (h : Host) :
  option (Z * ListenerDatagramRoutes) * Host :=
  (h.(h_routes) !! device_id,
   on_peer n (set_ps_authorized true) (set_h_routes (<[device_id := (n, routes)]> h.(h_routes)) h)).

(** The rollback of a failed admission. *)
Definition restore_route (device_id : rstr) (n : Z) (previous : option (Z * ListenerDatagramRoutes)) (h : Host) : Host :=
  match h.(h_routes) !! device_id with
  | Some (m, _) =>
      if m =? n then
        set_h_routes
          match previous with
          | Some old => if active_peer old.1 h then <[device_id := old]> h.(h_routes)
                        else delete device_id h.(h_routes)
          | None => delete device_id h.(h_routes)
          end h
      else h
  | None => h
  end.

Definition peer_not_found (message : string) : TransportError := transport_error TkPeerNotFound ChControl message.

Definition require_active (n : Z) (message : string) : host_prog unit :=
  active ← read_host (active_peer n);
  if negb active then raise (peer_not_found message) else mret tt.

(** [authorize_peer_with_routes] under the lock, for the peer [n] chosen
    before. *)
Definition authorize_locked (device_id : rstr) (routes : ListenerDatagramRoutes) (n : Z) : host_prog unit :=
  current ← read_host (pending_peer_for_device device_id);
  current ← lift current;
  if negb (current =? n) then
    raise (transport_error TkUnauthorized ChControl "pending TCP generation changed during authorization")
  else
  _ ← require_active n "pending control peer disconnected before authorization";
  _ ← send_cached_playback_controls n false;
  _ ← require_active n "pending control peer disconnected during playback replay";
  previous ← access (insert_route device_id n routes);
  event ← access (fun h =>
    let '(now, h) := clock_now h in
    (match h.(h_heap) !! n with
     | Some p => PeerAuthorized (transport_peer p) routes now
     | None => PeerAuthorized (mkTransportPeer None (mkSocketAddr LOCALHOST 0)) routes now
     end, h));
  published ← publish event;
  active ← read_host (active_peer n);
  if negb published || negb active then
    _ ← update_host (on_peer n (set_ps_authorized false));
    _ ← update_host (restore_route device_id n previous);
    _ ← update_host (on_peer n close);
    raise (if published
           then peer_not_found "pending control peer disconnected while authorization was queued"
           else transport_error TkQueueFull ChRuntime
                  "host admission event could not be delivered; listener authorization rolled back")
  else
    match previous with
    | Some (old, _) =>
        _ ← update_host (on_peer old (set_ps_authorized false));
        update_host (on_peer old close)
    | None => mret tt
    end.

(** ** node.rs *)

Definition addressed_listener (message : ControlMessage) : option rstr :=
  match message with
  | CJoinApproval value => Some value.(approval_listener_id)
  | CJoinRejection value => Some value.(rejection_listener_id)
  | CDisconnect value => Some value.(disconnect_listener_id)
  | CResyncNotice value => Some value.(resync_listener_id)
  | _ => None
  end.

Definition unauthorized_control (message : string) : TransportError :=
  transport_error TkUnauthorized ChControl message.

Definition check_control_recipient (device_id : rstr) (message : ControlMessage) : result unit TransportError :=
  if is_some_and (fun recipient => negb (bool_decide (recipient = device_id))) (addressed_listener message)
  then Err (unauthorized_control "listener-specific control is addressed to a different device")
  else Ok tt.

Definition grants_trust (message : ControlMessage) : bool :=
  match message with CJoinApproval approval => approval.(approval_trusted_for_future) | _ => false end.

Definition check_trust (message : ControlMessage) : result unit TransportError :=
  if grants_trust message
  then Err (unauthorized_control "legacy v3 cannot grant durable trust without verified cryptographic identity")
  else Ok tt.

Definition check_session (message : ControlMessage) (error : string) (h : Host) : result unit TransportError :=
  if bool_decide (control_session_id message = h.(h_config).(host_session_id)) then Ok tt
  else Err (unauthorized_control error).

(** One recipient was reached. *)
Definition delivered_one (written : Z) : result TransportDelivery TransportError :=
  TransportDelivery_new 1 1 0 (saturating_u64 written).

Definition disconnect_peer (device_id : rstr) : host_prog unit :=
  route ← access (fun h => (h.(h_routes) !! device_id, set_h_routes (delete device_id h.(h_routes)) h));
  match route with
  | None => raise not_connected
  | Some (n, _) => update_host (on_peer n close)
  end.

Definition send_disconnect (device_id : rstr) (message : ControlMessage) : host_prog TransportDelivery :=
  session ← read_host (check_session message "targeted disconnect must belong to this session");
  _ ← lift (match message with
            | CDisconnect _ => session
            | _ => Err (unauthorized_control "targeted disconnect must belong to this session")
            end);
  _ ← lift (check_control_recipient device_id message);
  peer ← read_host (peer_for_device device_id);
  n ← lift peer;
  bytes ← lift (encode_control_frame message);
  r ← send_recorded n message bytes;
  match r with
  | Err error =>
      _ ← update_host (count_h delivery_failures);
      _ ← update_host (on_peer n close);
      raise error
  | Ok written =>
      _ ← update_host (fun h => (remove_route_if_current device_id n h).2);
      _ ← update_host (on_peer n close);
      lift (delivered_one written)
  end.

Definition is_admission (message : ControlMessage) : bool :=
  match message with CHello _ | CJoinApproval _ | CJoinRejection _ | CDisconnect _ => true | _ => false end.

Definition is_refusal (message : ControlMessage) : bool :=
  match message with CJoinRejection _ | CDisconnect _ => true | _ => false end.

Definition send_pending_control (device_id : rstr) (message : ControlMessage) : host_prog TransportDelivery :=
  session ← read_host (check_session message "outbound pending control message belongs to a different session");
  _ ← lift session;
  _ ← lift (check_control_recipient device_id message);
  _ ← lift (if is_admission message then Ok tt
            else Err (unauthorized_control "pending TCP peers may receive admission controls only"));
  _ ← lift (check_trust message);
  peer ← read_host (pending_peer_for_device device_id);
  n ← lift peer;
  bytes ← lift (encode_control_frame message);
  r ← send_recorded n message bytes;
  match r with
  | Ok written =>
      _ ← (if is_refusal message then update_host (on_peer n (set_ps_admission_denied true)) else mret tt);
      _ ← update_host (update_silence_clock n message);
      lift (delivered_one written)
  | Err error =>
      _ ← update_host (count_h delivery_failures);
      _ ← update_host (on_peer n (set_ps_admission_denied true));
      _ ← update_host (on_peer n close);
      raise error
  end.

Definition reject_pending_peer_at (control_address : SocketAddr) (device_id : rstr) (message : ControlMessage) :
  host_prog TransportDelivery :=
  let invalid := "pending refusal requires a same-session JoinRejection"%string in
  session ← read_host (check_session message invalid);
  _ ← lift (match message with CJoinRejection _ => session | _ => Err (unauthorized_control invalid) end);
  _ ← lift (check_control_recipient device_id message);
  candidates ← read_host (registered (fun p =>
    bool_decide (p.(ps_remote) = control_address) && p.(ps_active) && negb p.(ps_authorized)
    && bool_decide (p.(ps_identity) = Some device_id)));
  n ← lift (ok_or (head candidates) (peer_not_found "matching pending TCP generation is not connected"));
  bytes ← lift (encode_control_frame message);
  r ← send_recorded n message bytes;
  _ ← update_host (on_peer n (set_ps_admission_denied true));
  _ ← update_host (on_peer n close);
  written ← lift r;
  lift (delivered_one written).

Definition send_control (device_id : rstr) (message : ControlMessage) : host_prog TransportDelivery :=
  session ← read_host (check_session message "outbound control message belongs to a different session");
  _ ← lift session;
  _ ← lift (check_control_recipient device_id message);
  _ ← lift (check_trust message);
  peer ← read_host (peer_for_device device_id);
  n ← lift peer;
  bytes ← lift (encode_control_frame message);
  r ← send_recorded n message bytes;
  match r with
  | Ok written =>
      _ ← update_host (update_silence_clock n message);
      lift (delivered_one written)
  | Err error =>
      _ ← update_host (count_h delivery_failures);
      _ ← update_host (retire_on_failed_playback_delivery n message);
      raise error
  end.

Definition replay_cached_playback_to_peer (device_id : rstr) : host_prog TransportDelivery :=
  stop ← read_host h_stop;
  _ ← (if stop : bool then raise shutting_down_error else mret tt : host_prog unit);
  peer ← read_host (peer_for_device device_id);
  n ← lift peer;
  bytes ← send_cached_playback_controls n true;
  lift (if bytes =? 0 then TransportDelivery_new 0 0 0 0 else TransportDelivery_new 1 1 0 bytes).

(** The counts of a broadcast. *)
Record tally : Type := mkTally { successful : Z; failed : Z; sent_bytes : Z }.

(** The loop of [broadcast_control]. *)
Fixpoint broadcast_to (message : ControlMessage) (bytes : list Z) (peers : list Z) (counts : tally) : host_prog tally :=
  match peers with
  | [] => mret counts
  | n :: peers =>
      r ← send_recorded n message bytes;
      match r with
      | Ok written =>
          _ ← update_host (update_silence_clock n message);
          broadcast_to message bytes peers
            (mkTally (saturating_add u32_max counts.(successful) 1) counts.(failed)
               (saturating_add u64_max counts.(sent_bytes) (saturating_u64 written)))
      | Err _ =>
          _ ← update_host (count_h delivery_failures);
          _ ← update_host (retire_on_failed_playback_delivery n message);
          broadcast_to message bytes peers
            (mkTally counts.(successful) (saturating_add u32_max counts.(failed) 1) counts.(sent_bytes))
      end
  end.

(** [u32::try_from(routes.len())]. *)
Definition intended_peers_of {A : Type} (channel : TransportChannel) (l : list A) : result Z TransportError :=
  if u32_max <? len l then Err (transport_error TkDelivery channel "peer count exceeds delivery accounting range")
  else Ok (len l).

Definition broadcast_control (message : ControlMessage) : host_prog TransportDelivery :=
  session ← read_host (check_session message "outbound control message belongs to a different session");
  _ ← lift session;
  _ ← lift (check_trust message);
  _ ← lift (match addressed_listener message with
            | Some _ => Err (unauthorized_control "listener-specific control requires a targeted TCP route")
            | None => Ok tt
            end);
  bytes ← lift (encode_control_frame message);
  accepted ← access (fun h => let '(accepted, c) := update message h.(h_playback) in (accepted, set_h_playback c h));
  if negb accepted then lift (TransportDelivery_new 0 0 0 0)
  else
    routes ← access authorized_routes;
    let peers := map (fun r => r.2.1) routes in
    intended ← lift (intended_peers_of ChControl peers);
    counts ← broadcast_to message bytes peers (mkTally 0 0 0);
    lift (TransportDelivery_new intended counts.(successful) counts.(failed) counts.(sent_bytes)).

(** ** broadcast.rs *)

(** [socket.send_to]; the datagram is on the wire when it was sent whole. *)
Definition send_to (destination : SocketAddr) (frame : ProtocolFrame) (h : Host) : datagram_result * Host :=
  let '(r, h) := match h.(h_udp) with [] => (DatagramSent, h) | r :: rest => (r, set_h_udp rest h) end in
  (r, match r with
      | DatagramSent => set_h_datagrams (h.(h_datagrams) ++ [(destination, frame)]) h
      | _ => h
      end).

Definition send_targeted_sync (device_id : rstr) (frame : ProtocolFrame) : host_prog TransportDelivery :=
  let channel := ChSynchronization in
  session ← read_host (fun h => bool_decide (frame_session_id frame = h.(h_config).(host_session_id)));
  _ ← lift (match frame with
            | FSyncResponse _ => if session : bool then Ok tt
                                 else Err (transport_error TkUnauthorized channel
                                             "targeted synchronization belongs to another session")
            | _ => Err (transport_error TkProtocol channel "targeted synchronization requires a SyncResponse")
            end);
  bytes ← lift (map_err (transport_protocol channel) (encode_frame frame));
  routes ← access authorized_routes;
  match list_find (fun r => r.1 = device_id) routes with
  | None => raise (transport_error TkPeerNotFound channel "targeted synchronization listener is not authorized")
  | Some (_, (_, (n, route))) =>
      r ← access (send_to route.(route_synchronization) frame);
      match r with
      | DatagramSent =>
          _ ← update_host (fun h => on_peer n (set_ps_consecutive_failures 0)
                             (on_counters (datagram_sent channel (len bytes)) h));
          lift (TransportDelivery_new 1 1 0 (saturating_u64 (len bytes)))
      | DatagramPartial =>
          _ ← update_host (fun h => record_peer_result n true (count_h delivery_failures h));
          lift (TransportDelivery_new_with_datagram_send_failures 1 0 1 0 (mkDatagramSendFailures 0 0 1))
      | DatagramTimeout =>
          _ ← update_host (count_h delivery_failures);
          lift (TransportDelivery_new_with_datagram_send_failures 1 0 1 0 (mkDatagramSendFailures 1 0 0))
      | DatagramFailed _ =>
          _ ← update_host (fun h => record_peer_result n true (count_h delivery_failures h));
          lift (TransportDelivery_new_with_datagram_send_failures 1 0 1 0 (mkDatagramSendFailures 0 1 0))
      end
  end.

(** The loop of [broadcast_datagram]. *)
Fixpoint datagram_to (channel : TransportChannel) (frame : ProtocolFrame) (bytes : list Z)
  (routes : list (rstr * (Z * ListenerDatagramRoutes))) (counts : tally) (failures : DatagramSendFailures) :
  host_prog (tally * DatagramSendFailures) :=
  match routes with
  | [] => mret (counts, failures)
  | (_, (n, route)) :: routes =>
      let destination := match channel with ChSynchronization => route.(route_synchronization) | _ => route.(route_audio) end in
      let more := saturating_add u32_max in
      let failure := mkTally counts.(successful) (more counts.(failed) 1) counts.(sent_bytes) in
      r ← access (send_to destination frame);
      match r with
      | DatagramSent =>
          _ ← update_host (fun h => on_peer n (set_ps_consecutive_failures 0)
                             (on_counters (datagram_sent channel (len bytes)) h));
          datagram_to channel frame bytes routes
            (mkTally (more counts.(successful) 1) counts.(failed)
               (saturating_add u64_max counts.(sent_bytes) (saturating_u64 (len bytes)))) failures
      | DatagramPartial =>
          _ ← update_host (fun h => record_peer_result n true (count_h delivery_failures h));
          datagram_to channel frame bytes routes failure
            (mkDatagramSendFailures failures.(would_block) failures.(other_io) (more failures.(partial_write) 1))
      | DatagramTimeout =>
          _ ← update_host (count_h delivery_failures);
          datagram_to channel frame bytes routes failure
            (mkDatagramSendFailures (more failures.(would_block) 1) failures.(other_io) failures.(partial_write))
      | DatagramFailed _ =>
          _ ← update_host (fun h => record_peer_result n true (count_h delivery_failures h));
          datagram_to channel frame bytes routes failure
            (mkDatagramSendFailures failures.(would_block) (more failures.(other_io) 1) failures.(partial_write))
      end
  end.

(** The frames a channel may broadcast. *)
Definition check_datagram (channel : TransportChannel) (frame : ProtocolFrame) : result unit TransportError :=
  match channel, frame with
  | ChSynchronization, FSyncResponse _ =>
      Err (transport_error TkUnauthorized channel "host synchronization responses require a targeted authorized route")
  | ChSynchronization, FSyncRequest _ | ChAudio, FAudio _ => Ok tt
  | _, _ => Err (transport_error TkProtocol channel "protocol frame does not belong on the requested datagram channel")
  end.

Definition broadcast_datagram (channel : TransportChannel) (frame : ProtocolFrame) : host_prog TransportDelivery :=
  _ ← lift (check_datagram channel frame);
  session ← read_host (fun h => bool_decide (frame_session_id frame = h.(h_config).(host_session_id)));
  _ ← lift (if session : bool then Ok tt
            else Err (transport_error TkUnauthorized channel "outbound datagram belongs to a different session"));
  bytes ← lift (map_err (transport_protocol channel) (encode_frame frame));
  allowed ← access (fun h =>
    match frame with
    | FAudio packet => let '(allowed, c) := permits_audio packet h.(h_playback) in (allowed, set_h_playback c h)
    | _ => (true, h)
    end);
  if negb allowed then lift (TransportDelivery_new 0 0 0 0)
  else
    routes ← access authorized_routes;
    intended ← lift (intended_peers_of channel routes);
    r ← datagram_to channel frame bytes routes (mkTally 0 0 0) DatagramSendFailures_default;
    let '(counts, failures) := r : tally * DatagramSendFailures in
    lift (TransportDelivery_new_with_datagram_send_failures intended counts.(successful) counts.(failed)
            counts.(sent_bytes) failures).
End Operations.

(** ** Histories *)

(** The operations that hold the delivery lock; [OpAuthorize] continues a
    selection made before. [broadcast_sync] takes no lock: it refuses the sync
    responses, and the host never broadcasts the other frame it would accept, a
    sync request. *)
Inductive host_op : Type :=
| OpAuthorize (device_id : rstr) (routes : ListenerDatagramRoutes) (n : Z)
| OpDisconnect (device_id : rstr)
| OpSendDisconnect (device_id : rstr) (message : ControlMessage)
| OpSendPending (device_id : rstr) (message : ControlMessage)
| OpReject (control_address : SocketAddr) (device_id : rstr) (message : ControlMessage)
| OpSendControl (device_id : rstr) (message : ControlMessage)
| OpReplay (device_id : rstr)
| OpBroadcast (message : ControlMessage)
| OpAudio (frame : ProtocolFrame)
| OpSync (device_id : rstr) (frame : ProtocolFrame).

Definition discard {A : Type} (m : host_prog A) : host_prog unit := _ ← m; mret tt.

Definition run_op {t : target} (op : host_op) : host_prog unit :=
  match op with
  | OpAuthorize device_id routes n => authorize_locked device_id routes n
  | OpDisconnect device_id => disconnect_peer device_id
  | OpSendDisconnect device_id message => discard (send_disconnect device_id message)
  | OpSendPending device_id message => discard (send_pending_control device_id message)
  | OpReject control_address device_id message => discard (reject_pending_peer_at control_address device_id message)
  | OpSendControl device_id message => discard (send_control device_id message)
  | OpReplay device_id => discard (replay_cached_playback_to_peer device_id)
  | OpBroadcast message => discard (broadcast_control message)
  | OpAudio frame => discard (broadcast_datagram ChAudio frame)
  | OpSync device_id frame => discard (send_targeted_sync device_id frame)
  end.

(** [shutdown] up to joining the workers: the stop flag, then every registered
    peer. *)
Definition begin_shutdown (h : Host) : Host :=
  fold_right (fun n => on_peer n close) (set_h_stop true h) (elements h.(h_peers)).

(** The transport, the selections made so far, the authorizations that succeeded, and
    whether an operation that holds the lock is still under way. *)
Record System : Type := mkSystem {
  sys_host : Host;
  sys_selected : list (rstr * ListenerDatagramRoutes * Z);
  sys_granted : list (rstr * ListenerDatagramRoutes * Z);
  sys_busy : bool
}.

Inductive sys_act : Type :=
| SysWorker (a : worker_act)
| SysSelect (device_id : rstr) (routes : ListenerDatagramRoutes)
| SysAuthorize (k : nat) (schedule : list (list worker_act))
| SysOp (op : host_op) (schedule : list (list worker_act))
| SysShutdown.

(** One operation with the workers' steps that fall within it. *)
Definition run_locked {t : target} (op : host_op) (schedule : list (list worker_act)) (s : System) : System :=
  let '(outcome, (_, h)) := run_op op (schedule, s.(sys_host)) in
  mkSystem h s.(sys_selected)
    match op, outcome with OpAuthorize d r n, Done _ => s.(sys_granted) ++ [(d, r, n)] | _, _ => s.(sys_granted) end
    match outcome with Suspended => true | _ => false end.

Definition sys_step {t : target} (a : sys_act) (s : System) : System :=
  match a with
  | SysWorker a => mkSystem (worker_step a s.(sys_host)) s.(sys_selected) s.(sys_granted) s.(sys_busy)
  | SysSelect device_id routes =>
      match select_peer device_id routes s.(sys_host) with
      | Ok n => mkSystem s.(sys_host) (s.(sys_selected) ++ [(device_id, routes, n)]) s.(sys_granted) s.(sys_busy)
      | Err _ => s
      end
  | SysAuthorize k schedule =>
      match s.(sys_busy), s.(sys_selected) !! k with
      | false, Some (device_id, routes, n) => run_locked (OpAuthorize device_id routes n) schedule s
      | _, _ => s
      end
  | SysOp op schedule =>
      match s.(sys_busy), op with
      | true, _ | _, OpAuthorize _ _ _ => s
      | false, _ => run_locked op schedule s
      end
  | SysShutdown => mkSystem (begin_shutdown s.(sys_host)) s.(sys_selected) s.(sys_granted) s.(sys_busy)
  end.

Definition sys_run {t : target} (acts : list sys_act) (s : System) : System :=
  fold_left (fun s a => sys_step a s) acts s.

Definition sys_start (h : Host) : System := mkSystem h [] [] false.
