(* ===== verification/HostWorkersProofs.v ===== *)
(** The worker threads of the socket host (HostWorkers.v): the admission budget
    that keeps room in the terminal mailbox, and what the workers leave to the
    operations. *)
From Stdlib Require Import ZArith Lia Strings.String.
From stdpp Require Import numbers gmap sets list prelude.
From S2P Require Import Prelude Utf8 Domain ProtocolTypes Codec RuntimeTypes TransportTypes PlaybackControls HostWorkers.

(** ** Frames *)

(** Nothing but counters, the event queue and the scripts changed. *)
Record same_core (h h' : Host) : Prop := {
  sc_config : h'.(h_config) = h.(h_config);
  sc_heap : h'.(h_heap) = h.(h_heap);
  sc_peers : h'.(h_peers) = h.(h_peers);
  sc_mailbox : h'.(h_mailbox) = h.(h_mailbox);
  sc_routes : h'.(h_routes) = h.(h_routes);
  sc_playback : h'.(h_playback) = h.(h_playback);
  sc_next : h'.(h_next_peer) = h.(h_next_peer);
  sc_accept : h'.(h_accept) = h.(h_accept);
  sc_readers : h'.(h_readers) = h.(h_readers);
  sc_taken : h'.(h_taken) = h.(h_taken);
  sc_datagrams : h'.(h_datagrams) = h.(h_datagrams);
  sc_panicked : h'.(h_counters).(worker_panicked) = h.(h_counters).(worker_panicked)
}.

Create HintDb host.

Lemma same_core_refl (h : Host) : same_core h h.
Proof. by split. Qed.

Lemma same_core_trans (h1 h2 h3 : Host) : same_core h1 h2 -> same_core h2 h3 -> same_core h1 h3.
Proof. intros [] []. split; congruence. Qed.

Lemma same_core_counters (f : CounterState -> CounterState) (h : Host) :
  (forall c, (f c).(worker_panicked) = c.(worker_panicked)) -> same_core h (on_counters f h).
Proof. intros Hf. split; try done. apply Hf. Qed.

Lemma same_core_count (k : counter) (h : Host) : same_core h (count_h k h).
Proof. by apply same_core_counters. Qed.

Lemma same_core_failed (h : Host) : same_core h (event_failed h).
Proof. eapply same_core_trans; apply same_core_count. Qed.

Lemma same_core_try_send (e : TransportEvent) (h : Host) : same_core h (event_try_send e h).2.
Proof. unfold event_try_send. by case_match. Qed.

Lemma same_core_send_event (e : TransportEvent) (h : Host) : same_core h (send_event e h).
Proof.
  unfold send_event. pose proof (same_core_try_send e h) as Hs. destruct (event_try_send e h) as [[] h1]; [done|].
  eapply same_core_trans; [exact Hs|]. eapply same_core_trans; apply same_core_count.
Qed.

Lemma same_core_round (stop congested : bool) (e : TransportEvent) (h : Host) :
  same_core h (authoritative_round stop congested e h).2.
Proof.
  unfold authoritative_round. destruct stop; [apply same_core_failed|].
  pose proof (same_core_try_send e h) as Hs. destruct (event_try_send e h) as [[] h1]; [done|].
  destruct congested; [done|]. eapply same_core_trans; [exact Hs|apply same_core_count].
Qed.

Lemma classify_rejection_panicked (e : TransportError) (c : CounterState) :
  (classify_rejection e c).(worker_panicked) = c.(worker_panicked).
Proof. unfold classify_rejection. by repeat case_match. Qed.

#[export] Hint Resolve same_core_refl same_core_count same_core_failed same_core_send_event same_core_counters
  classify_rejection_panicked : host.

(** Follows a chain of counters and events back to where it starts. *)
Ltac core_chain :=
  repeat first
    [ eassumption | apply same_core_refl
    | eapply same_core_trans; [|first [apply same_core_count | apply same_core_failed | apply same_core_send_event
        | apply same_core_counters; intros; apply classify_rejection_panicked | by apply same_core_counters]] ].

(** ** The admission budget *)

Definition is_reported (pc : option reader_pc) : bool := match pc with Some Reported => true | _ => false end.

(** The registered peers whose terminal event is still to be reported. *)
Definition unreported (h : Host) : gset Z :=
  filter (fun n => is_reported (h.(h_readers) !! n) = false) h.(h_peers).

(** What the accept loop knows at its point. *)
Definition accept_ok (pc : accept_pc) (h : Host) : Prop :=
  match pc with
  | AcceptIdle | AcceptEnded => True
  | AcceptCounted k => Z.of_nat (size (unreported h)) <= k
  | Announcing n _ _ | Spawning n | RollingBack n _ _ _ => n ∈ h.(h_peers) /\ h.(h_readers) !! n = None
  end.

(** The terminal of the peer is with the application or in the mailbox. *)
Definition terminal_reported (n : Z) (h : Host) : Prop :=
  exists p error at_ms, h.(h_heap) !! n = Some p
    /\ PeerDisconnected (transport_peer p) error at_ms ∈ h.(h_taken) ++ h.(h_mailbox).

Definition finished (pc : reader_pc) : Prop := pc = Reported \/ pc = Gone.

Record workers_ok (h : Host) : Prop := {
  w_number : forall n p, h.(h_heap) !! n = Some p -> n < h.(h_next_peer);
  w_peers : forall n, n ∈ h.(h_peers) -> is_Some (h.(h_heap) !! n);
  w_readers : forall n pc, h.(h_readers) !! n = Some pc ->
    is_Some (h.(h_heap) !! n) /\ (pc <> Gone -> n ∈ h.(h_peers)) /\ (finished pc -> terminal_reported n h);
  w_identity : forall n p, h.(h_heap) !! n = Some p -> h.(h_readers) !! n = None -> p.(ps_identity) = None;
  w_accept : accept_ok h.(h_accept) h;
  w_budget : Z.of_nat (size (unreported h)) + len h.(h_mailbox) <= h.(h_config).(host_max_peers);
  w_panicked : h.(h_counters).(worker_panicked) = false;
  w_max : h.(h_config).(host_max_peers) <= MAX_TRANSPORT_PEERS
}.

(** A step that leaves the peers, their readers, the mailbox and the taken
    events alone and only sharpens what is known of a peer. *)
Record heap_step (h h' : Host) : Prop := {
  hs_config : h'.(h_config) = h.(h_config);
  hs_peers : h'.(h_peers) = h.(h_peers);
  hs_mailbox : h'.(h_mailbox) = h.(h_mailbox);
  hs_next : h'.(h_next_peer) = h.(h_next_peer);
  hs_readers : h'.(h_readers) = h.(h_readers);
  hs_taken : h'.(h_taken) = h.(h_taken);
  hs_panicked : h'.(h_counters).(worker_panicked) = h.(h_counters).(worker_panicked);
  hs_heap : forall n, match h.(h_heap) !! n, h'.(h_heap) !! n with
    | Some p, Some p' => p'.(ps_remote) = p.(ps_remote) /\ (p'.(ps_identity) = p.(ps_identity)
        \/ exists pc, h.(h_readers) !! n = Some pc /\ ~ finished pc)
    | None, None => True
    | _, _ => False
    end
}.

Lemma heap_step_core (h h' : Host) : same_core h h' -> heap_step h h'.
Proof. intros []. split; try done. intros n. rewrite sc_heap0. destruct (h_heap h !! n); auto. Qed.

Lemma heap_step_trans (h1 h2 h3 : Host) : heap_step h1 h2 -> heap_step h2 h3 -> heap_step h1 h3.
Proof.
  intros [C1 P1 M1 N1 R1 T1 K1 H1] [C2 P2 M2 N2 R2 T2 K2 H2]. split; try congruence.
  intros n. specialize (H1 n). specialize (H2 n).
  destruct (h_heap h1 !! n), (h_heap h2 !! n), (h_heap h3 !! n); try done.
  destruct H1 as [H1 I1], H2 as [H2 I2]. rewrite R1 in I2. split; [congruence|].
  destruct I1 as [I1|?], I2 as [I2|?]; [left; congruence|auto..].
Qed.

Lemma heap_step_on_peer (f : PeerState -> PeerState) (n : Z) (h : Host) :
  (forall p, (f p).(ps_identity) = p.(ps_identity) /\ (f p).(ps_remote) = p.(ps_remote)) ->
  heap_step h (on_peer n f h).
Proof.
  intros Hf. split; try done. intros m. cbn. destruct (decide (n = m)) as [->|Hne].
  - rewrite lookup_alter_eq. destruct (h_heap h !! m) as [p|]; cbn; [|done]. destruct (Hf p). auto.
  - rewrite lookup_alter_ne by done. destruct (h_heap h !! m); auto.
Qed.

Lemma heap_step_some (h h' : Host) (n : Z) : heap_step h h' ->
  is_Some (h'.(h_heap) !! n) <-> is_Some (h.(h_heap) !! n).
Proof.
  intros [? ? ? ? ? ? ? H]. specialize (H n). destruct (h_heap h !! n), (h_heap h' !! n); try done.
Qed.

Lemma terminal_heap_step (h h' : Host) (n : Z) (pc : reader_pc) : heap_step h h' ->
  h.(h_readers) !! n = Some pc -> finished pc -> terminal_reported n h -> terminal_reported n h'.
Proof.
  intros [? ? Hm ? ? Ht ? H] Hr Hf (p & e & tm & Hp & Hin). specialize (H n). rewrite Hp in H.
  destruct (h_heap h' !! n) as [p'|] eqn:E; [|done]. destruct H as [H2 [H1|(pc' & Hr' & Hn)]]; [|congruence].
  exists p', e, tm. split; [done|]. unfold transport_peer in *. rewrite H1, H2, Hm, Ht. done.
Qed.

Lemma unreported_heap_step (h h' : Host) : heap_step h h' -> unreported h' = unreported h.
Proof. intros [? Hp ? ? Hr ? ? ?]. unfold unreported. by rewrite Hp, Hr. Qed.

Lemma accept_ok_heap_step (pc : accept_pc) (h h' : Host) : heap_step h h' -> accept_ok pc h -> accept_ok pc h'.
Proof.
  intros Hc. destruct pc; cbn; rewrite ?(unreported_heap_step h h' Hc);
    destruct Hc as [? Hp ? ? Hr ? ? ?]; rewrite ?Hp, ?Hr; done.
Qed.

Lemma workers_ok_heap_step (h h' : Host) :
  heap_step h h' -> accept_ok h'.(h_accept) h' -> workers_ok h -> workers_ok h'.
Proof.
  intros Hs Ha [W1 W2 W3 W4 W5 W6 W7 W8]. pose proof (fun n => heap_step_some h h' n Hs) as Hsome.
  pose proof (fun n pc => terminal_heap_step h h' n pc Hs) as Hterm. pose proof (unreported_heap_step h h' Hs) as Hu.
  destruct Hs as [C P M N R T K H]. split; rewrite ?Hu, ?C, ?P, ?M, ?N, ?R, ?K; auto.
  - intros n p Hp. destruct (proj1 (Hsome n) ltac:(eauto)) as [q Hq]. eauto.
  - intros n Hn. apply Hsome. auto.
  - intros n pc Hpc. destruct (W3 n pc Hpc) as (? & ? & ?). split_and!; [by apply Hsome|done|]. intros Hf. eauto.
  - intros n p Hp Hr. specialize (H n). rewrite Hp in H. destruct (h_heap h !! n) as [q|] eqn:E; [|done].
    destruct H as [_ [->|(pc & ? & _)]]; [eauto|congruence].
Qed.

Lemma heap_step_accept (pc : accept_pc) (h h' : Host) : heap_step h h' -> heap_step h (set_h_accept pc h').
Proof. intros []. by split. Qed.

Lemma heap_step_routes (r : gmap rstr (Z * ListenerDatagramRoutes)) (h h' : Host) :
  heap_step h h' -> heap_step h (set_h_routes r h').
Proof. intros []. by split. Qed.

Lemma workers_ok_accept (pc : accept_pc) (h h' : Host) :
  heap_step h h' -> accept_ok pc h -> workers_ok h -> workers_ok (set_h_accept pc h').
Proof.
  intros Hs Ha. apply workers_ok_heap_step; [by apply heap_step_accept|].
  by apply (accept_ok_heap_step pc h); [apply heap_step_accept|].
Qed.

Lemma heap_step_close (n : Z) (h : Host) : heap_step h (on_peer n close h).
Proof. by apply heap_step_on_peer. Qed.

#[export] Hint Resolve heap_step_close heap_step_accept heap_step_core : host.

(** A peer without a reader leaves the registry. *)
Lemma workers_ok_unregister (n : Z) (h h' : Host) : heap_step h h' -> h'.(h_accept) = AcceptIdle ->
  h.(h_readers) !! n = None -> workers_ok h -> workers_ok (set_h_peers (h'.(h_peers) ∖ {[n]}) h').
Proof.
  intros Hs Ha Hr W. apply (workers_ok_heap_step h h') in W; [|done|by rewrite Ha].
  rewrite <-(hs_readers h h' Hs) in Hr. clear Hs h. destruct W as [W1 W2 W3 W4 W5 W6 W7 W8].
  assert (unreported (set_h_peers (h_peers h' ∖ {[n]}) h') ⊆ unreported h') as Hsub.
  { unfold unreported. cbn. set_solver. }
  apply subseteq_size in Hsub. split; cbn; try done.
  - intros m Hm. apply W2. set_solver.
  - intros m pc Hm. destruct (W3 m pc Hm) as (? & Hin & Ht). split_and!; [done| |exact Ht].
    intros Hg. apply elem_of_difference. split; [auto|]. intros ->%elem_of_singleton. congruence.
  - by rewrite Ha.
  - lia.
Qed.

Lemma unreported_insert (n : Z) (pc : reader_pc) (h : Host) :
  unreported (set_reader n pc h)
  = filter (fun m => is_reported (<[n := pc]> h.(h_readers) !! m) = false) h.(h_peers).
Proof. done. Qed.

Lemma not_finished_reported (pc : reader_pc) : ~ finished pc -> is_reported (Some pc) = false.
Proof. destruct pc; try done. intros []. by left. Qed.

(** A reader moves on without reporting its terminal. *)
Lemma workers_ok_reader (n : Z) (pc : reader_pc) (h h' : Host) : heap_step h h' -> h'.(h_accept) = h.(h_accept) ->
  n ∈ h.(h_peers) -> (forall pc0, h.(h_readers) !! n = Some pc0 -> ~ finished pc0) ->
  match h.(h_accept) with Announcing m _ _ | Spawning m | RollingBack m _ _ _ => m <> n | _ => True end ->
  ~ finished pc -> workers_ok h -> workers_ok (set_reader n pc h').
Proof.
  intros Hs Hacc Hn Hold Hm Hpc W.
  apply (workers_ok_heap_step h h') in W as W'; [|done|rewrite Hacc; apply (accept_ok_heap_step _ h); [done|apply W]].
  rewrite <-Hacc in Hm. rewrite <-(hs_peers h h' Hs) in Hn. rewrite <-(hs_readers h h' Hs) in Hold.
  clear W Hs Hacc. destruct W' as [W1 W2 W3 W4 W5 W6 W7 W8].
  assert (unreported (set_reader n pc h') = unreported h') as Hu.
  { rewrite unreported_insert. unfold unreported. apply set_eq. intros m. rewrite !elem_of_filter.
    destruct (decide (n = m)) as [->|Hne]; [|by rewrite lookup_insert_ne].
    rewrite lookup_insert_eq. replace (is_reported (Some pc)) with (is_reported (h_readers h' !! m)); [done|].
    transitivity false; [|symmetry; apply not_finished_reported, Hpc].
    destruct (h_readers h' !! m) as [pc0|]; [|done]. by apply not_finished_reported, Hold. }
  split; rewrite ?Hu; cbn; try done.
  - intros m pc0 Hl. destruct (decide (n = m)) as [->|Hne].
    + rewrite lookup_insert_eq in Hl. injection Hl as <-. split_and!; [by apply W2|done|done].
    + rewrite lookup_insert_ne in Hl by done. apply W3, Hl.
  - intros m p Hp Hl. destruct (decide (n = m)) as [->|Hne]; [by rewrite lookup_insert_eq in Hl|].
    rewrite lookup_insert_ne in Hl by done. by apply (W4 m).
  - destruct (h_accept h'); cbn in *; try done; try (rewrite Hu; done);
      (destruct W5; rewrite lookup_insert_ne by done; done).
Qed.

Lemma workers_ok_register (remote : SocketAddr) (now announced_at k : Z) (h : Host) : workers_ok h ->
  h.(h_accept) = AcceptCounted k -> k + len h.(h_mailbox) < h.(h_config).(host_max_peers) ->
  workers_ok (register_peer remote now announced_at h).
Proof.
  intros [W1 W2 W3 W4 W5 W6 W7 W8] Ha Hk. rewrite Ha in W5. cbn in W5.
  set (n := h_next_peer h). assert (h.(h_heap) !! n = None) as Hfresh.
  { destruct (h_heap h !! n) eqn:E; [|done]. specialize (W1 n _ E). lia. }
  assert (h.(h_readers) !! n = None) as Hnr.
  { destruct (h_readers h !! n) eqn:E; [|done]. destruct (W3 n _ E) as [[? ?] _]. congruence. }
  assert (n ∉ h.(h_peers)) as Hnp by (intros Hn%W2; rewrite Hfresh in Hn; by destruct Hn).
  assert (unreported (register_peer remote now announced_at h) = {[n]} ∪ unreported h) as Hu.
  { unfold unreported. change (h_readers (register_peer remote now announced_at h)) with (h_readers h).
    change (h_peers (register_peer remote now announced_at h)) with ({[n]} ∪ h_peers h).
    apply set_eq. intros m. rewrite elem_of_union, !elem_of_filter, elem_of_union, elem_of_singleton.
    clear -Hnr. split; [tauto|]. intros [->|[? ?]]; [rewrite Hnr|]; auto. }
  split; rewrite ?Hu; cbn; try done.
  - intros m p. destruct (decide (n = m)) as [<-|Hne]; [rewrite lookup_insert_eq; unfold n; lia|].
    rewrite lookup_insert_ne by done. intros Hp%W1. lia.
  - intros m [->%elem_of_singleton|Hm%W2]%elem_of_union; [fold n; rewrite lookup_insert_eq; eauto|].
    apply lookup_insert_is_Some'. auto.
  - intros m pc Hm. destruct (W3 m pc Hm) as (? & Hin & Ht). split_and!.
    + apply lookup_insert_is_Some'. auto.
    + intros Hg. apply elem_of_union. auto.
    + intros Hf. destruct (Ht Hf) as (p & e & tm & Hp & He). exists p, e, tm. split; [|done].
      cbn. rewrite lookup_insert_ne; [done|]. intros E. fold n in E. congruence.
  - intros m p. destruct (decide (n = m)) as [<-|Hne]; fold n.
    + rewrite lookup_insert_eq. intros [= <-]. done.
    + rewrite lookup_insert_ne by done. apply W4.
  - fold n. split; [by apply elem_of_union_l, elem_of_singleton|done].
  - rewrite size_union; [rewrite size_singleton; lia|]. intros m ->%elem_of_singleton. unfold unreported.
    rewrite elem_of_filter. intros [_ ?]. done.
Qed.

(** The budget leaves room for the terminal of every reader. *)
Lemma mailbox_has_room (n : Z) (h : Host) : workers_ok h -> n ∈ h.(h_peers) -> h.(h_readers) !! n <> Some Reported ->
  len h.(h_mailbox) < h.(h_config).(host_max_peers).
Proof.
  intros W Hn Hr. pose proof (w_budget h W). assert (n ∈ unreported h) as Hu.
  { unfold unreported. apply elem_of_filter. split; [|done]. destruct (h_readers h !! n) as [[]|]; done. }
  assert (size (unreported h) <> 0%nat); [|lia]. intros E%size_empty_inv. set_solver.
Qed.

Lemma workers_ok_report (n now : Z) (error : option TransportError) (p : PeerState) (h : Host) : workers_ok h ->
  h.(h_readers) !! n = Some (Unrouted error) -> h.(h_heap) !! n = Some p ->
  workers_ok (set_reader n Reported
    (set_h_mailbox (h.(h_mailbox) ++ [PeerDisconnected (transport_peer p) error now]) h)).
Proof.
  intros [W1 W2 W3 W4 W5 W6 W7 W8] Hr Hp.
  assert (n ∈ h.(h_peers)) as Hn by (by apply (W3 n _ Hr)).
  set (h' := set_reader n Reported _). assert (unreported h' = unreported h ∖ {[n]}) as Hu.
  { unfold unreported. change (h_readers h') with (<[n := Reported]> (h_readers h)). change (h_peers h') with (h_peers h).
    apply set_eq. intros m. rewrite elem_of_difference, !elem_of_filter, elem_of_singleton. clear -Hr.
    destruct (decide (n = m)) as [<-|Hne]; [rewrite lookup_insert_eq; cbn; split; [intros [? ?]; discriminate|tauto]|].
    rewrite lookup_insert_ne by done. split; [|tauto]. intros [? ?]. split; [auto|congruence]. }
  assert (size (unreported h) = S (size (unreported h'))) as Hsz.
  { rewrite Hu. change (S ?k) with (1 + k)%nat. rewrite <-(size_singleton (C := gset Z) n).
    rewrite <-size_union by set_solver. f_equal. apply set_eq. intros m.
    rewrite elem_of_union, elem_of_difference, elem_of_singleton. destruct (decide (m = n)) as [->|?]; [|tauto].
    unfold unreported. rewrite elem_of_filter, Hr. cbn. tauto. }
  split; cbn [h_heap h_next_peer h_peers h_readers h_accept h_mailbox h_config h_counters h' set_reader set_h_readers set_h_mailbox]; try done.
  - intros m pc. destruct (decide (n = m)) as [<-|Hne].
    + rewrite lookup_insert_eq. intros [= <-]. split_and!; [by apply W2|done|]. intros _. exists p, error, now.
      split; [done|]. cbn. set_solver.
    + rewrite lookup_insert_ne by done. intros Hm. destruct (W3 m pc Hm) as (? & ? & Ht). split_and!; [done..|].
      intros Hf. destruct (Ht Hf) as (q & e & tm & Hq & Hin). exists q, e, tm. split; [done|]. cbn.
      rewrite app_assoc. apply elem_of_app. auto.
  - intros m q Hq. destruct (decide (n = m)) as [<-|Hne]; [by rewrite lookup_insert_eq|].
    rewrite lookup_insert_ne by done. by apply W4.
  - destruct (h_accept h) eqn:Ea; cbn in *; try done; [lia|..];
      (destruct W5; rewrite lookup_insert_ne by congruence; done).
  - rewrite len_app. change (len [_]) with 1. lia.
Qed.

Lemma workers_ok_gone (n : Z) (h : Host) : workers_ok h -> h.(h_readers) !! n = Some Reported ->
  workers_ok (set_reader n Gone (set_h_peers (h.(h_peers) ∖ {[n]}) h)).
Proof.
  intros [W1 W2 W3 W4 W5 W6 W7 W8] Hr. set (h' := set_reader n Gone _). assert (unreported h' = unreported h) as Hu.
  { unfold unreported. change (h_readers h') with (<[n := Gone]> (h_readers h)).
    change (h_peers h') with (h_peers h ∖ {[n]}).
    apply set_eq. intros m. rewrite !elem_of_filter, elem_of_difference, elem_of_singleton. clear -Hr.
    destruct (decide (n = m)) as [<-|Hne]; [rewrite lookup_insert_eq, Hr; cbn; intuition congruence|].
    rewrite lookup_insert_ne by done. split; [tauto|]. intros [? ?]. split; [|split]; congruence. }
  split; rewrite ?Hu; cbn; try done.
  - intros m Hm. apply W2. set_solver.
  - intros m pc. destruct (decide (n = m)) as [<-|Hne].
    + rewrite lookup_insert_eq. intros [= <-]. destruct (W3 n _ Hr) as (? & ? & Ht). split_and!; [done..|].
      intros _. apply Ht. by left.
    + rewrite lookup_insert_ne by done. intros Hm. destruct (W3 m pc Hm) as (? & ? & Ht). split_and!; [done| |exact Ht].
      intros Hg. set_solver.
  - intros m q Hq. destruct (decide (n = m)) as [<-|Hne]; [by rewrite lookup_insert_eq|].
    rewrite lookup_insert_ne by done. by apply W4.
  - destruct (h_accept h) eqn:Ea; cbn in *; try done; [by rewrite Hu|..];
      (destruct W5 as [W5 W5']; assert (number <> n) by congruence; rewrite lookup_insert_ne by done; set_solver).
Qed.

Lemma workers_ok_app (h : Host) : workers_ok h -> workers_ok (app_step h).
Proof.
  assert (forall pc h, workers_ok h -> workers_ok (set_h_app pc h)) as Happ by (intros pc h' []; by split).
  assert (forall e q h, workers_ok h -> workers_ok (set_h_app AppIdle (set_h_taken (h.(h_taken) ++ [e]) (set_h_queue q h)))) as Htake.
  { intros e q h' [W1 W2 W3 W4 W5 W6 W7 W8]. split; try done. cbn. intros n pc Hpc.
    destruct (W3 n pc Hpc) as (? & ? & Ht). split_and!; [done..|]. intros Hf.
    destruct (Ht Hf) as (p & er & tm & ? & Hin). exists p, er, tm. split; [done|]. cbn. set_solver. }
  intros W. unfold app_step, take_queued. destruct (h_app h).
  - destruct (h_queue h); auto.
  - unfold mailbox_pop. destruct (h_mailbox h) as [|e rest] eqn:E; [auto|].
    destruct W as [W1 W2 W3 W4 W5 W6 W7 W8]. split; try done; cbn.
    + intros n pc Hpc. destruct (W3 n pc Hpc) as (? & ? & Ht). split_and!; [done..|]. intros Hf.
      destruct (Ht Hf) as (p & er & tm & ? & Hin). exists p, er, tm. split; [done|]. rewrite E in Hin. cbn. set_solver.
    + rewrite E, len_cons in W6. change (unreported _) with (unreported h). lia.
  - destruct (h_queue h); auto.
Qed.

Lemma heap_step_refuse (n : Z) (e : TransportError) (now : Z) (h : Host) : same_core h (refuse_registration n e now h).
Proof. unfold refuse_registration. destruct (h_heap h !! n); auto with host. Qed.

Lemma workers_ok_core (h h' : Host) : same_core h h' -> workers_ok h -> workers_ok h'.
Proof.
  intros Hs W. apply (workers_ok_heap_step h); [auto with host| |done].
  rewrite (sc_accept h h' Hs). apply (accept_ok_heap_step _ h); [auto with host|]. apply W.
Qed.

(** The accept loop gives a registration up. *)
Lemma workers_ok_abandon (n : Z) (h h' : Host) : heap_step h h' -> h.(h_readers) !! n = None -> workers_ok h ->
  workers_ok (set_h_accept AcceptIdle (count_h closed_control_connections (set_h_peers (h'.(h_peers) ∖ {[n]}) h'))).
Proof.
  intros Hs Hr W. pose proof (workers_ok_unregister n h (set_h_accept AcceptIdle h')) as H.
  apply (workers_ok_core (set_h_peers ((set_h_accept AcceptIdle h').(h_peers) ∖ {[n]}) (set_h_accept AcceptIdle h'))).
  - by split.
  - apply H; auto with host.
Qed.

Lemma heap_step_frame (n : Z) (p p' : PeerState) (h : Host) : h.(h_heap) !! n = Some p ->
  h.(h_readers) !! n = Some Reading -> p'.(ps_remote) = p.(ps_remote) -> heap_step h (on_peer n (fun _ => p') h).
Proof.
  intros Hp Hr Hrem. split; try done. intros m. cbn. destruct (decide (n = m)) as [<-|Hne].
  - rewrite lookup_alter_eq, Hp. cbn. split; [done|]. right. exists Reading. split; [done|]. by intros [?|?].
  - rewrite lookup_alter_ne by done. destruct (h_heap h !! m); auto.
Qed.

Lemma validate_host_frame_remote (f : ProtocolFrame) (p p' : PeerState) :
  validate_host_frame f p = Ok p' -> p' = p \/ (exists r, f = FControl (CJoinRequest r) /\
    p' = set_ps_identity (Some r.(join_device).(device_id)) p /\
    (p.(ps_identity) = None \/ p.(ps_identity) = Some r.(join_device).(device_id))).
Proof.
  unfold validate_host_frame, require_authorized_identity. destruct f as [m| | |]; try done.
  destruct m; try done; intros H;
    try (repeat match type of H with context [if ?b then _ else _] => destruct b end; simplify_eq; auto; fail).
  destruct (is_some_and _ _) eqn:E; [done|]. injection H as <-. right. eexists. split_and!; [done..|].
  destruct (ps_identity p) as [d|]; [|auto]. cbn in E. apply negb_false_iff, bool_decide_eq_true in E. subst. auto.
Qed.

Definition is_playback (m : ControlMessage) : bool :=
  match m with CStreamStart _ | CTrackBoundary _ | CPause _ | CStop _ => true | _ => false end.

(** The playback controls among the messages a peer was sent. *)
Definition told (sent : list ControlMessage) : list ControlMessage := filter (fun m => is_playback m = true) sent.

(** What a worker may do to a peer: never admit or refuse it, revive it, move
    it or tell it about playback, and name it at most once. *)
Record worker_peer (p p' : PeerState) : Prop := {
  wp_remote : p'.(ps_remote) = p.(ps_remote);
  wp_authorized : p'.(ps_authorized) = p.(ps_authorized);
  wp_denied : p'.(ps_admission_denied) = p.(ps_admission_denied);
  wp_active : p'.(ps_active) = true -> p.(ps_active) = true;
  wp_identity : p.(ps_identity) = None \/ p'.(ps_identity) = p.(ps_identity);
  wp_told : told p'.(ps_sent) = told p.(ps_sent)
}.

Lemma worker_peer_refl (p : PeerState) : worker_peer p p.
Proof. split; auto. Qed.

Lemma worker_peer_trans (p q r : PeerState) : worker_peer p q -> worker_peer q r -> worker_peer p r.
Proof.
  intros [R1 A1 D1 C1 I1 T1] [R2 A2 D2 C2 I2 T2]. split; try congruence; [auto|].
  destruct I1 as [?|I1]; [auto|]. destruct I2 as [?|I2]; [left; congruence|right; congruence].
Qed.

Lemma same_core_set_reader (n : Z) (pc : reader_pc) (h h' : Host) :
  same_core h h' -> same_core (set_reader n pc h) (set_reader n pc h').
Proof. intros []. split; try done. cbn. congruence. Qed.

Lemma same_core_on_peer (n : Z) (f : PeerState -> PeerState) (h h' : Host) :
  same_core h h' -> same_core (on_peer n f h) (on_peer n f h').
Proof. intros []. split; try done. cbn. congruence. Qed.

Lemma same_core_reading (n : Z) (pc : reader_pc) (h : Host) :
  h.(h_readers) !! n = Some pc -> same_core (set_reader n pc h) h.
Proof. intros H. split; try done. cbn. by rewrite insert_id. Qed.

Lemma on_peer_twice (n : Z) (p : PeerState) (f : PeerState -> PeerState) (h : Host) :
  same_core (on_peer n (fun _ => f p) h) (on_peer n f (on_peer n (fun _ => p) h)).
Proof.
  split; try done. cbn. apply map_eq. intros m. destruct (decide (n = m)) as [<-|Hne].
  - rewrite !lookup_alter_eq. by destruct (h_heap h !! n).
  - by rewrite !lookup_alter_ne.
Qed.

#[export] Hint Resolve same_core_set_reader same_core_on_peer on_peer_twice worker_peer_refl : host.

(** A reader's callback: its peer may change, and the reader goes on or
    leaves. *)
Definition frame_effect (n : Z) (h h' : Host) : Prop :=
  exists p p' pc, h.(h_readers) !! n = Some Reading /\ h.(h_heap) !! n = Some p /\ ~ finished pc
    /\ worker_peer p p' /\ same_core (set_reader n pc (on_peer n (fun _ => p') h)) h'.

Lemma forward_join_effect {t : target} (n : Z) (d : rstr) (e : TransportEvent) (refusal : option TransportError)
  (p p' : PeerState) (h : Host) : h.(h_readers) !! n = Some Reading -> h.(h_heap) !! n = Some p -> worker_peer p p' ->
  frame_effect n h (forward_join_or_refuse n d e refusal (on_peer n (fun _ => p') h)).
Proof.
  intros Hr Hp Hw. unfold forward_join_or_refuse.
  pose proof (same_core_try_send e (on_peer n (fun _ => p') h)) as Hs.
  destruct (event_try_send e _) as [[] h1]; cbn [snd] in Hs.
  - exists p, p', Reading. split_and!; auto with host. by intros [?|?].
  - set (h2 := count_h _ _). assert (same_core (on_peer n (fun _ => p') h) h2) as H2 by (unfold h2; core_chain).
    set (m := CJoinRejection _). destruct (match encode_frame _ with Ok _ => _ | Err _ => _ end) as [failure|].
    + eexists p, p', _. split_and!; [done..| | |]; [|done|apply same_core_set_reader; core_chain].
      by intros [?|?].
    + eexists p, (set_ps_sent (p'.(ps_sent) ++ [m]) p'), _. split_and!; [done..| | |].
      2: { eapply worker_peer_trans; [exact Hw|]. split; auto. cbn. unfold told. rewrite filter_app. cbn.
           by rewrite app_nil_r. }
      2: { apply same_core_set_reader. eapply same_core_trans; [|apply same_core_on_peer; exact H2].
           apply (on_peer_twice n p' (fun q => set_ps_sent (q.(ps_sent) ++ [m]) q)). }
      by intros [?|?].
Qed.

Lemma reader_rejects_effect (n now : Z) (p q : PeerState) (e : TransportError) (h h1 : Host) :
  h.(h_readers) !! n = Some Reading -> h.(h_heap) !! n = Some p -> same_core h h1 ->
  frame_effect n h (reader_rejects n q e now h1).
Proof.
  intros Hr Hp Hs. exists p, p, (Leaving (Some e)). split_and!; auto with host; [by intros [?|?]|].
  unfold reader_rejects. apply same_core_set_reader.
  eapply same_core_trans; [|eapply same_core_trans; [exact Hs|core_chain]].
  split; try done. cbn. symmetry. apply map_eq. intros m. destruct (decide (n = m)) as [<-|Hne].
  - by rewrite lookup_alter_eq, Hp.
  - by rewrite lookup_alter_ne.
Qed.

Lemma reader_frame_effect {t : target} (n bytes now : Z) (f : ProtocolFrame) (refusal : option TransportError) (h : Host) :
  reader_frame n f bytes now refusal h = h \/ frame_effect n h (reader_frame n f bytes now refusal h).
Proof.
  unfold reader_frame. destruct (h_readers h !! n) as [[]|] eqn:Hr; auto.
  destruct (h_heap h !! n) as [p|] eqn:Hp; [right|auto].
  set (h1 := on_counters _ h). assert (same_core h h1) as H1 by (unfold h1; auto with host).
  destruct (validate_host_frame f p) as [p1|e] eqn:Hv; [|by apply reader_rejects_effect with p].
  assert (worker_peer p (mark_inbound_activity now p1)) as Hw.
  { destruct (validate_host_frame_remote _ _ _ Hv) as [->|(r & -> & -> & Hi)]; [split; auto|].
    split; auto. cbn. destruct Hi as [->| ->]; auto. }
  set (q := mark_inbound_activity now p1) in *.
  assert (forall pc q', ~ finished pc -> worker_peer p q' -> forall h2, same_core (set_reader n pc (on_peer n (fun _ => q') h1)) h2 ->
    frame_effect n h h2) as Hdone.
  { intros pc q' Hf Hq h2 Hs. exists p, q', pc. split_and!; auto.
    eapply same_core_trans; [|exact Hs]. auto with host. }
  assert (forall q', worker_peer p q' -> forall h2, same_core (on_peer n (fun _ => q') h1) h2 -> frame_effect n h h2) as Hstay.
  { intros q' Hq h2 Hs. apply (Hdone Reading q'); [by intros [?|?]|done|].
    eapply same_core_trans; [|exact Hs]. by apply same_core_reading. }
  assert (forall e, frame_effect n h (if is_best_effort_event e then send_event e (on_peer n (fun _ => q) h1)
    else set_reader n (Delivering e false) (on_peer n (fun _ => q) h1))) as Hother.
  { intros e. case_match; [apply (Hstay q Hw); auto with host|].
    apply (Hdone (Delivering e false) q); auto with host. by intros [?|?]. }
  destruct f as [m| | |]; try apply Hother. destruct m; try apply Hother.
  assert (worker_peer p (set_ps_join_forwarded true q)) as Hj by (eapply worker_peer_trans; [exact Hw|]; split; auto).
  destruct (ps_join_forwarded q); [apply (Hstay _ Hj); auto with host|].
  destruct (forward_join_effect n (device_id (join_device value)) (FrameReceived ChControl (transport_peer q)
    (FControl (CJoinRequest value)) now) refusal p _ h1 Hr Hp Hj) as (p0 & p' & pc & ? & ? & ? & ? & ?).
  assert (p0 = p) as -> by (cbn in *; congruence).
  by apply (Hdone pc p').
Qed.

Lemma accept_not_reader (n : Z) (pc : reader_pc) (h : Host) : workers_ok h -> h.(h_readers) !! n = Some pc ->
  match h.(h_accept) with Announcing m _ _ | Spawning m | RollingBack m _ _ _ => m <> n | _ => True end.
Proof.
  intros W Hr. pose proof (w_accept h W) as Ha. destruct (h_accept h); try done; cbn in Ha; destruct Ha; congruence.
Qed.

(** A reader that has not finished goes on. *)
Lemma workers_ok_move (n : Z) (pc pc' : reader_pc) (h h' : Host) : workers_ok h -> heap_step h h' ->
  h'.(h_accept) = h.(h_accept) -> h.(h_readers) !! n = Some pc -> ~ finished pc -> ~ finished pc' ->
  workers_ok (set_reader n pc' h').
Proof.
  intros W Hs Ha Hr Hf Hf'. eapply (workers_ok_reader n pc' h h'); try done.
  - apply (w_readers h W n pc Hr). intros ->. apply Hf. by right.
  - intros pc0 E. congruence.
  - by eapply accept_not_reader.
Qed.

Lemma workers_ok_effect (n : Z) (h h' : Host) : workers_ok h -> frame_effect n h h' -> workers_ok h'.
Proof.
  intros W (p & p' & pc & Hr & Hp & Hf & Hw & Hs). eapply workers_ok_core; [exact Hs|].
  eapply (workers_ok_move n Reading pc h); try done; [|by intros [?|?]].
  eapply heap_step_frame; [done..|]. apply Hw.
Qed.

Lemma remove_route_heap_step (d : rstr) (n : Z) (h : Host) : heap_step h (remove_route_if_current d n h).2.
Proof.
  unfold remove_route_if_current. destruct (h_routes h !! d) as [[m r]|]; [|apply heap_step_core, same_core_refl].
  case_match; [apply heap_step_routes|]; apply heap_step_core, same_core_refl.
Qed.

Lemma remove_route_accept (d : rstr) (n : Z) (h : Host) :
  (remove_route_if_current d n h).2.(h_accept) = h.(h_accept)
  /\ (remove_route_if_current d n h).2.(h_config) = h.(h_config).
Proof. unfold remove_route_if_current. by repeat case_match. Qed.

Lemma workers_ok_exit (n now : Z) (h : Host) : workers_ok h -> workers_ok (reader_exit n now h).
Proof.
  intros W. unfold reader_exit. destruct (h_readers h !! n) as [pc|] eqn:Hr; [|done].
  destruct (h_heap h !! n) as [p|] eqn:Hp; [|by destruct pc].
  assert (n ∈ h_peers h \/ pc = Gone) as Hn.
  { destruct (w_readers h W n pc Hr) as (_ & Hn & _). destruct pc; auto; left; by apply Hn. }
  destruct pc as [|? ?|e|e|e| |]; try done.
  - eapply workers_ok_move; eauto with host; by intros [?|?].
  - eapply workers_ok_move; [exact W| | |exact Hr|by intros [?|?]..].
    + eapply heap_step_trans; [|apply heap_step_core, same_core_count].
      destruct (ps_identity p); [apply remove_route_heap_step|apply heap_step_core, same_core_refl].
    + cbn. destruct (ps_identity p); [apply remove_route_accept|done].
  - destruct Hn as [Hn|?]; [|done]. unfold mailbox_push. pose proof (mailbox_has_room n h W Hn ltac:(congruence)).
    rewrite (proj2 (Z.leb_gt _ _)) by lia. by apply workers_ok_report.
  - by apply workers_ok_gone.
Qed.

Lemma workers_ok_announce (now : Z) (h : Host) : workers_ok h -> workers_ok (accept_announce now h).
Proof.
  intros W. unfold accept_announce. destruct (h_accept h) as [|k|n e c|n|n e ev c|] eqn:Ha; try done.
  pose proof (w_accept h W) as Wa. rewrite Ha in Wa. pose proof (same_core_round (h_stop h) c e h) as Hs.
  destruct (authoritative_round _ _ _ _) as [[] h1]; cbn [snd] in Hs.
  - apply (workers_ok_accept _ h); auto with host.
  - eapply workers_ok_core; [apply heap_step_refuse|]. unfold abandon_announcement.
    apply (workers_ok_abandon n h); [|apply Wa|done]. eapply heap_step_trans; auto with host.
  - apply (workers_ok_accept _ h); auto with host.
Qed.

Lemma workers_ok_rollback (now n : Z) (e : TransportError) (h h1 : Host) : workers_ok h -> same_core h h1 ->
  h.(h_readers) !! n = None -> workers_ok (finish_rollback n e now h1).
Proof.
  intros W Hs Hr. unfold finish_rollback. eapply workers_ok_core; [apply heap_step_refuse|].
  apply (workers_ok_abandon n h); auto with host.
Qed.

Lemma datagram_in_effect {t : target} (channel : TransportChannel) (source : SocketAddr) (bytes : list Z) (now : Z) (h : Host) :
  same_core h (datagram_in channel source bytes now h)
  \/ exists n, same_core (on_peer n (mark_inbound_datagram now) h) (datagram_in channel source bytes now h).
Proof.
  unfold datagram_in. destruct (match channel with ChControl => _ | _ => _ end) as [capacity|]; [|auto with host].
  destruct (capacity <? len bytes); [left; core_chain|]. destruct (route_of _ _ _) as [[d n]|]; [|left; core_chain].
  destruct (decoder_decode _ _ _) as [[f|e] c]; cbn [fst]; [|left; core_chain].
  destruct (datagram_matches_channel _ _); [|left; core_chain]. right. exists n.
  assert (same_core (on_peer n (mark_inbound_datagram now) h)
    (on_peer n (mark_inbound_datagram now) (on_counters (datagram_received channel (len bytes)) h))) as Hs.
  { apply same_core_on_peer, same_core_counters. intros k. unfold datagram_received. by destruct channel. }
  destruct (h_heap _ !! n); [|done]. eapply same_core_trans; [exact Hs|apply same_core_send_event].
Qed.

Lemma step_accept_len {t : target} (h : Host) : workers_ok h -> workers_ok (worker_step (AcceptLen) h).
Proof.
  intros W. pose proof (w_accept h W) as Wa. cbn [worker_step].
  destruct (h_accept h) eqn:Ha; try done. apply (workers_ok_accept _ h); auto with host. cbn.
  apply inj_le, subseteq_size. unfold unreported. intros m. rewrite elem_of_filter. by intros [_ ?].
Qed.

Lemma step_accept_pending {t : target} (remote : SocketAddr) (now announced_at : Z) (h : Host) : workers_ok h -> workers_ok (worker_step (AcceptPending remote now announced_at) h).
Proof.
  intros W. pose proof (w_accept h W) as Wa. cbn [worker_step].
  unfold accept_pending. destruct (h_accept h) eqn:Ha; try done. case_match eqn:Hk.
  + apply (workers_ok_accept _ h); [|done..]. apply heap_step_core. core_chain.
  + eapply workers_ok_register; [done..|]. apply Z.leb_gt in Hk. unfold saturating_add in Hk.
    pose proof (w_max h W). assert (MAX_TRANSPORT_PEERS < u64_max) by reflexivity. lia.
Qed.

Lemma step_announce_act {t : target} (now : Z) (h : Host) : workers_ok h -> workers_ok (worker_step (AcceptAnnounce now) h).
Proof.
  intros W. pose proof (w_accept h W) as Wa. cbn [worker_step].
  by apply workers_ok_announce.
Qed.

Lemma step_give_up {t : target} (now : Z) (h : Host) : workers_ok h -> workers_ok (worker_step (AcceptGiveUp now) h).
Proof.
  intros W. pose proof (w_accept h W) as Wa. cbn [worker_step].
  unfold accept_give_up. destruct (h_accept h) as [|k|n e []|n|n e ev c|] eqn:Ha; try done.
  eapply workers_ok_core; [apply heap_step_refuse|]. unfold abandon_announcement.
  apply (workers_ok_abandon n h); [|apply Wa|done]. eapply heap_step_trans; auto with host.
Qed.

Lemma step_spawned {t : target} (h : Host) : workers_ok h -> workers_ok (worker_step (AcceptSpawned) h).
Proof.
  intros W. pose proof (w_accept h W) as Wa. cbn [worker_step].
  unfold accept_spawned. destruct (h_accept h) as [|k|n e c|n|n e ev c|] eqn:Ha; try done. destruct Wa as [Hn Hr].
  set (h1 := set_h_accept AcceptIdle (set_reader n Reading h)). assert (workers_ok h1) as W1.
  { change h1 with (set_reader n Reading (set_h_accept AcceptIdle h)).
    assert (workers_ok (set_h_accept AcceptIdle h)) as W0 by (apply (workers_ok_accept _ h); [auto with host|done|done]).
    eapply (workers_ok_reader n Reading _ _ (heap_step_core _ _ (same_core_refl _))); try done; [|by intros [?|?]].
    cbn. intros pc0 E. congruence. }
  destruct (h_stop h1); [|done]. eapply workers_ok_heap_step; [apply heap_step_close|done|done].
Qed.

Lemma step_spawn_failed {t : target} (error : TransportError) (now : Z) (h : Host) : workers_ok h -> workers_ok (worker_step (AcceptSpawnFailed error now) h).
Proof.
  intros W. pose proof (w_accept h W) as Wa. cbn [worker_step].
  unfold accept_spawn_failed. destruct (h_accept h) as [|k|n e c|n|n e ev c|] eqn:Ha; try done.
  case_match; [by apply (workers_ok_accept _ h); auto with host|].
  apply (workers_ok_heap_step h); [auto with host| |done]. cbn. rewrite Ha. done.
Qed.

Lemma step_rollback_act {t : target} (now : Z) (h : Host) : workers_ok h -> workers_ok (worker_step (AcceptRollback now) h).
Proof.
  intros W. pose proof (w_accept h W) as Wa. cbn [worker_step].
  unfold accept_rollback. destruct (h_accept h) as [|k|n e c|n|n e ev c|] eqn:Ha; try done.
  pose proof (same_core_round (h_stop h) c ev h) as Hs. destruct (authoritative_round _ _ _ _) as [[] h1]; cbn [snd] in Hs.
  + eapply workers_ok_rollback; [done..|apply Wa].
  + eapply workers_ok_rollback; [done..|apply Wa].
  + apply (workers_ok_accept _ h); auto with host.
Qed.

Lemma step_rollback_timeout {t : target} (now : Z) (h : Host) : workers_ok h -> workers_ok (worker_step (AcceptRollbackTimeout now) h).
Proof.
  intros W. pose proof (w_accept h W) as Wa. cbn [worker_step].
  unfold accept_rollback_timeout. destruct (h_accept h) as [|k|n e c|n|n e ev []|] eqn:Ha; try done.
  eapply workers_ok_rollback; [done|apply same_core_failed|apply Wa].
Qed.

Lemma step_stops {t : target} (h : Host) : workers_ok h -> workers_ok (worker_step (AcceptStops) h).
Proof.
  intros W. pose proof (w_accept h W) as Wa. cbn [worker_step].
  destruct (h_accept h) eqn:Ha; try done. case_match; [|done]. by apply (workers_ok_accept _ h); auto with host.
Qed.

Lemma step_frame {t : target} (n : Z) (frame : ProtocolFrame) (bytes now : Z) (refusal : option TransportError) (h : Host) : workers_ok h -> workers_ok (worker_step (ReaderFrame n frame bytes now refusal) h).
Proof.
  intros W. pose proof (w_accept h W) as Wa. cbn [worker_step].
  destruct (reader_frame_effect n bytes now frame refusal h) as [->|He]; [done|]. by eapply workers_ok_effect.
Qed.

Lemma step_deliver {t : target} (n : Z) (h : Host) : workers_ok h -> workers_ok (worker_step (ReaderDeliver n) h).
Proof.
  intros W. pose proof (w_accept h W) as Wa. cbn [worker_step].
  unfold reader_deliver. destruct (h_readers h !! n) as [[]|] eqn:Hr; try done. case_match; [|done].
  match goal with |- context [authoritative_round ?s ?c ?e h] => pose proof (same_core_round s c e h) as Hs end.
  destruct (authoritative_round _ _ _ _) as [[] h1]; cbn [snd] in Hs;
    (eapply (workers_ok_move n); [exact W|by apply heap_step_core|apply Hs|exact Hr|by intros [?|?]..]).
Qed.

Lemma step_reader_give_up {t : target} (n : Z) (h : Host) : workers_ok h -> workers_ok (worker_step (ReaderGiveUp n) h).
Proof.
  intros W. pose proof (w_accept h W) as Wa. cbn [worker_step].
  unfold reader_give_up. destruct (h_readers h !! n) as [[| ? [] | | | | |]|] eqn:Hr; try done.
  eapply (workers_ok_move n); [exact W|apply heap_step_core, same_core_failed|done|exact Hr|by intros [?|?]..].
Qed.

Lemma step_ends {t : target} (n : Z) (error : option TransportError) (now : Z) (h : Host) : workers_ok h -> workers_ok (worker_step (ReaderEnds n error now) h).
Proof.
  intros W. pose proof (w_accept h W) as Wa. cbn [worker_step].
  unfold reader_ends. destruct (h_readers h !! n) as [[]|] eqn:Hr; try done.
  destruct (h_heap h !! n) as [p|] eqn:Hp; [|done]. destruct error as [e|].
  + eapply workers_ok_effect; [exact W|]. eapply reader_rejects_effect; [done..|apply same_core_refl].
  + eapply (workers_ok_move n); [exact W|apply heap_step_core, same_core_refl|done|exact Hr|by intros [?|?]..].
Qed.

Lemma step_exit_act {t : target} (n now : Z) (h : Host) : workers_ok h -> workers_ok (worker_step (ReaderExit n now) h).
Proof.
  intros W. pose proof (w_accept h W) as Wa. cbn [worker_step].
  by apply workers_ok_exit.
Qed.

Lemma step_datagram {t : target} (channel : TransportChannel) (source : SocketAddr) (bytes : list Z) (now : Z) (h : Host) : workers_ok h -> workers_ok (worker_step (DatagramIn channel source bytes now) h).
Proof.
  intros W. pose proof (w_accept h W) as Wa. cbn [worker_step].
  destruct (datagram_in_effect channel source bytes now h) as [Hs|[n Hs]]; (eapply workers_ok_core; [exact Hs|]); [done|].
  apply (workers_ok_heap_step h); [by apply heap_step_on_peer| |done].
  apply (accept_ok_heap_step _ h); [by apply heap_step_on_peer|done].
Qed.

Lemma step_app_act {t : target} (h : Host) : workers_ok h -> workers_ok (worker_step (AppStep) h).
Proof.
  intros W. pose proof (w_accept h W) as Wa. cbn [worker_step].
  by apply workers_ok_app.
Qed.

(** The workers keep the budget, whatever they do. *)
Lemma workers_ok_step {t : target} (a : worker_act) (h : Host) : workers_ok h -> workers_ok (worker_step a h).
Proof.
  intros W. destruct a; [by apply step_accept_len|by apply step_accept_pending|by apply step_announce_act
    |by apply step_give_up|by apply step_spawned|by apply step_spawn_failed|by apply step_rollback_act
    |by apply step_rollback_timeout|by apply step_stops|by apply step_frame|by apply step_deliver
    |by apply step_reader_give_up|by apply step_ends|by apply step_exit_act|by apply step_datagram|by apply step_app_act].
Qed.

(** ** What the workers leave alone *)

(** A worker admits nobody, refuses nobody, sends no datagram and changes no
    playback control; routes may go. *)
Record worker_frame (h h' : Host) : Prop := {
  wf_config : h'.(h_config) = h.(h_config);
  wf_peers : forall n p, h.(h_heap) !! n = Some p -> exists p', h'.(h_heap) !! n = Some p' /\ worker_peer p p';
  wf_routes : h'.(h_routes) ⊆ h.(h_routes);
  wf_datagrams : h'.(h_datagrams) = h.(h_datagrams);
  wf_playback : h'.(h_playback) = h.(h_playback)
}.

Lemma wf_same (h h' : Host) : h'.(h_config) = h.(h_config) -> h'.(h_heap) = h.(h_heap) ->
  h'.(h_routes) = h.(h_routes) -> h'.(h_datagrams) = h.(h_datagrams) -> h'.(h_playback) = h.(h_playback) ->
  worker_frame h h'.
Proof. intros ? Hh Hr ? ?. split; try done; [|by rewrite Hr]. intros n p Hp. rewrite Hh. eauto with host. Qed.

Lemma wf_core (h h' : Host) : same_core h h' -> worker_frame h h'.
Proof. intros []. by apply wf_same. Qed.

Lemma wf_trans (h1 h2 h3 : Host) : worker_frame h1 h2 -> worker_frame h2 h3 -> worker_frame h1 h3.
Proof.
  intros [C1 P1 R1 D1 K1] [C2 P2 R2 D2 K2]. split; try congruence; [|by etrans].
  intros n p Hp. destruct (P1 n p Hp) as (q & Hq & Hw). destruct (P2 n q Hq) as (r & Hr & Hw').
  exists r. split; [done|by eapply worker_peer_trans].
Qed.

Lemma wf_on_peer (n : Z) (f : PeerState -> PeerState) (h : Host) :
  (forall p, h.(h_heap) !! n = Some p -> worker_peer p (f p)) -> worker_frame h (on_peer n f h).
Proof.
  intros Hf. split; try done. intros m p Hp. cbn. destruct (decide (n = m)) as [<-|Hne].
  - rewrite lookup_alter_eq, Hp. cbn. eauto.
  - rewrite lookup_alter_ne by done. eauto with host.
Qed.

Lemma wf_close (n : Z) (h : Host) : worker_frame h (on_peer n close h).
Proof. apply wf_on_peer. intros p _. by split; auto. Qed.

Lemma wf_refuse (n : Z) (e : TransportError) (now : Z) (h : Host) : worker_frame h (refuse_registration n e now h).
Proof. apply wf_core, heap_step_refuse. Qed.

Lemma wf_remove_route (d : rstr) (n : Z) (h : Host) : worker_frame h (remove_route_if_current d n h).2.
Proof.
  unfold remove_route_if_current. destruct (h_routes h !! d) as [[m r]|]; [|by apply wf_same].
  case_match; [|by apply wf_same]. split; try done; [|apply delete_subseteq]. cbn. eauto with host.
Qed.

Lemma wf_effect (n : Z) (h h' : Host) : frame_effect n h h' -> worker_frame h h'.
Proof.
  intros (p & p' & pc & Hr & Hp & Hf & Hw & Hs). eapply wf_trans; [|by apply wf_core].
  eapply wf_trans; [apply (wf_on_peer n (fun _ => p'))|by apply wf_same].
  intros q Hq. replace q with p by congruence. done.
Qed.

Lemma wf_abandon (n : Z) (h : Host) : worker_frame h (abandon_announcement n h).
Proof. eapply wf_trans; [apply wf_close|by apply wf_same]. Qed.

Lemma wf_register (remote : SocketAddr) (now at_ms : Z) (h : Host) : workers_ok h ->
  worker_frame h (register_peer remote now at_ms h).
Proof.
  intros W. split; try done. intros n p Hp. cbn. pose proof (w_number h W n p Hp).
  rewrite lookup_insert_ne by lia. eauto with host.
Qed.

#[export] Hint Resolve wf_core wf_close wf_refuse wf_remove_route wf_abandon : host.

Lemma wf_exit (n now : Z) (h : Host) : worker_frame h (reader_exit n now h).
Proof.
  unfold reader_exit. destruct (h_readers h !! n) as [pc|]; [|auto with host].
  destruct (h_heap h !! n) as [p|] eqn:Hp; [|destruct pc; auto with host].
  destruct pc; auto with host.
  - eapply wf_trans; [apply (wf_close n)|by apply wf_same].
  - destruct (ps_identity p) as [d|]; [eapply wf_trans; [apply (wf_remove_route d n)|]|]; by apply wf_same.
  - unfold mailbox_push. destruct (_ <=? _); by apply wf_same.
  - by apply wf_same.
Qed.

Lemma wf_app (h : Host) : worker_frame h (app_step h).
Proof. unfold app_step, take_queued, mailbox_pop. repeat case_match; simplify_eq; by apply wf_same. Qed.

Lemma wf_deliver (n : Z) (h : Host) : worker_frame h (reader_deliver n h).
Proof.
  unfold reader_deliver. destruct (h_readers h !! n) as [[]|]; auto with host.
  destruct (h_heap h !! n) as [p|]; [|auto with host]. pose proof (same_core_round (ps_stop p) congested event h) as Hs.
  destruct (authoritative_round _ _ _ _) as [[] h1]; (eapply wf_trans; [apply wf_core, Hs|by apply wf_same]).
Qed.

Lemma wf_accepting (now : Z) (h : Host) : worker_frame h (accept_announce now h) /\ worker_frame h (accept_rollback now h).
Proof.
  split.
  - unfold accept_announce. destruct (h_accept h) as [|k|n e c|n|n e ev c|]; auto with host.
    pose proof (same_core_round (h_stop h) c e h) as Hs.
    destruct (authoritative_round _ _ _ _) as [[] h1]; (eapply wf_trans; [apply wf_core, Hs|]); [by apply wf_same| |by apply wf_same].
    eapply wf_trans; [apply wf_abandon|auto with host].
  - unfold accept_rollback. destruct (h_accept h) as [|k|n e c|n|n e ev c|]; auto with host.
    pose proof (same_core_round (h_stop h) c ev h) as Hs.
    destruct (authoritative_round _ _ _ _) as [[] h1]; (eapply wf_trans; [apply wf_core, Hs|]); try (by apply wf_same);
      (eapply wf_trans; [|apply wf_refuse]; by apply wf_same).
Qed.

Lemma wf_step {t : target} (a : worker_act) (h : Host) : workers_ok h -> worker_frame h (worker_step a h).
Proof.
  intros W. destruct a; cbn [worker_step].
  - case_match; by apply wf_same.
  - unfold accept_pending. case_match; auto with host. case_match; [by apply wf_same|by apply wf_register].
  - apply wf_accepting.
  - unfold accept_give_up. destruct (h_accept h) as [|k|n e []|n|n e ev c|]; auto with host.
    eapply wf_trans; [|apply wf_refuse]. eapply wf_trans; [|apply wf_abandon]. auto with host.
  - unfold accept_spawned. destruct (h_accept h) as [|k|n e c|n|n e ev c|]; auto with host.
    case_match; [eapply wf_trans; [|apply wf_close]|]; by apply wf_same.
  - unfold accept_spawn_failed. destruct (h_accept h) as [|k|n e c|n|n e ev c|]; auto with host.
    case_match; [eapply wf_trans; [apply wf_close|by apply wf_same]|auto with host].
  - apply wf_accepting.
  - unfold accept_rollback_timeout. destruct (h_accept h) as [|k|n e c|n|n e ev []|]; auto with host.
    eapply wf_trans; [|apply wf_refuse]. by apply wf_same.
  - repeat case_match; by apply wf_same.
  - destruct (reader_frame_effect n bytes now frame refusal h) as [->|H]; [auto with host|by eapply wf_effect].
  - apply wf_deliver.
  - unfold reader_give_up. repeat case_match; by apply wf_same.
  - unfold reader_ends. destruct (h_readers h !! n) as [[]|] eqn:Hr; auto with host.
    destruct (h_heap h !! n) as [p|] eqn:Hp; auto with host. destruct error as [e|]; [|by apply wf_same].
    eapply wf_effect, (reader_rejects_effect n now p p e h h); auto with host.
  - apply wf_exit.
  - destruct (datagram_in_effect channel source bytes now h) as [Hs|[n Hs]]; [auto with host|].
    eapply wf_trans; [|by apply wf_core]. apply wf_on_peer. intros p _. by split; auto.
  - apply wf_app.
Qed.
