(* ===== verification/HostTransportProofs.v ===== *)
(** Theorems about the socket host: no disconnection is lost, which order the
    application sees, and who receives datagrams. Invariants of the workers are
    carried through the operations, whose accesses the workers' steps fall
    between. *)
From Stdlib Require Import ZArith Lia Strings.String.
From stdpp Require Import numbers gmap sets list prelude.
From S2P Require Import Prelude Utf8 Domain ProtocolTypes Codec RuntimeTypes Interleaving TransportTypes PlaybackControls HostWorkers HostTransport HostWorkersProofs.

(** ** Programs *)

Section Keeps.
Context {t : target}.

(** A program that keeps an invariant at every point, however it ends. *)
Definition keeps {A : Type} (P : Host -> Prop) (m : host_prog A) : Prop :=
  forall s, P s.2 -> wpc m (fun _ s => P s.2) (fun _ s => P s.2) (fun s => P s.2) s.

Definition steady (P : Host -> Prop) : Prop := stable worker_step P.

Lemma keeps_ret {A} P (a : A) : keeps P (mret a : host_prog A).
Proof. by intros s Hs. Qed.

Lemma keeps_raise {A} P (e : TransportError) : keeps P (raise e : host_prog A).
Proof. by intros s Hs. Qed.

Lemma keeps_lift {A} P (r : result A TransportError) : keeps P (lift r : host_prog A).
Proof. intros s Hs. apply wpc_lift. by destruct r. Qed.

Lemma keeps_bind {A B} P (m : host_prog A) (k : A -> host_prog B) :
  keeps P m -> (forall a, keeps P (k a)) -> keeps P (m ≫= k).
Proof.
  intros Hm Hk s Hs. apply wpc_bind. eapply wpc_mono; [by apply Hm|..]; cbn; [|done..].
  intros a s' Hs'. by apply Hk.
Qed.

Lemma keeps_access {A} P (f : Host -> A * Host) : steady P -> (forall h, P h -> P (f h).2) -> keeps P (access f).
Proof.
  intros HP Hf [sched h] Hs. eapply (wpc_atomic worker_step P); [done..|]. intros sched' w Hw.
  specialize (Hf w Hw). by destruct (f w).
Qed.

Lemma keeps_update P (f : Host -> Host) : steady P -> (forall h, P h -> P (f h)) -> keeps P (update_host f).
Proof. intros HP Hf. by apply keeps_access. Qed.

Lemma keeps_read {A} P (f : Host -> A) : steady P -> keeps P (read_host f).
Proof. intros HP. by apply keeps_access. Qed.

Lemma keeps_loop {L A} P (body : L -> host_prog (L + A)) (l : L) :
  (forall l, keeps P (body l)) -> keeps P (worker_loop body l).
Proof.
  intros Hb s Hs. apply (wpc_worker_loop body (fun _ s => P s.2)); [done..|]. intros l' s' Hs'.
  eapply wpc_mono; [by apply Hb|..]; cbn; [|done..]. by intros [].
Qed.

(** As [keeps], of a program that never fails. *)
Definition calm {A : Type} (P : Host -> Prop) (m : host_prog A) : Prop :=
  forall s, P s.2 -> wpc m (fun _ s => P s.2) (fun _ _ => False) (fun s => P s.2) s.

Lemma calm_keeps {A} P (m : host_prog A) : calm P m -> keeps P m.
Proof. intros Hm s Hs. eapply wpc_mono; [by apply Hm|..]; cbn; try done. Qed.

Lemma calm_ret {A} P (a : A) : calm P (mret a : host_prog A).
Proof. by intros s Hs. Qed.

Lemma calm_bind {A B} P (m : host_prog A) (k : A -> host_prog B) :
  calm P m -> (forall a, calm P (k a)) -> calm P (m ≫= k).
Proof.
  intros Hm Hk s Hs. apply wpc_bind. eapply wpc_mono; [by apply Hm|..]; cbn; [|done..].
  intros a s' Hs'. by apply Hk.
Qed.

Lemma calm_access {A} P (f : Host -> A * Host) : steady P -> (forall h, P h -> P (f h).2) -> calm P (access f).
Proof.
  intros HP Hf [sched h] Hs. eapply (wpc_atomic worker_step P); [done..|]. intros sched' w Hw.
  specialize (Hf w Hw). by destruct (f w).
Qed.

Lemma calm_loop {L A} P (body : L -> host_prog (L + A)) (l : L) :
  (forall l, calm P (body l)) -> calm P (worker_loop body l).
Proof.
  intros Hb s Hs. apply (wpc_worker_loop body (fun _ s => P s.2)); [done..|]. intros l' s' Hs'.
  eapply wpc_mono; [by apply Hb|..]; cbn; [|done..]. by intros [].
Qed.

(** What is read is known to the rest of the program. *)
Lemma wpc_host_access {A} P (f : Host -> A * Host) (Q : A -> scheduled -> Prop) X U s : steady P -> P s.2 ->
  (forall h, P h -> U ([], h)) -> (forall h sched, P h -> Q (f h).1 (sched, (f h).2)) -> wpc (access f) Q X U s.
Proof.
  destruct s as [sched h]. intros HP Hs HU Hf. eapply (wpc_atomic worker_step P); [done|done|auto|]. intros sched' w Hw.
  specialize (Hf w sched' Hw). by destruct (f w).
Qed.

Lemma keeps_access_bind {A B} P (f : Host -> A * Host) (k : A -> host_prog B) : steady P ->
  (forall h, P h -> P (f h).2 /\ keeps P (k (f h).1)) -> keeps P (access f ≫= k).
Proof.
  intros HP Hf s Hs. apply wpc_bind. apply (wpc_host_access P); [done..|]. intros h sched' Hh.
  destruct (Hf h Hh) as [Hh' Hk]. by apply Hk.
Qed.

Lemma keeps_read_bind {A B} P (f : Host -> A) (k : A -> host_prog B) : steady P ->
  (forall h, P h -> keeps P (k (f h))) -> keeps P (read_host f ≫= k).
Proof. intros HP Hf. apply keeps_access_bind; [done|]. intros h Hh. split; [done|by apply Hf]. Qed.

Lemma keeps_lift_bind {A B} P (r : result A TransportError) (k : A -> host_prog B) :
  (forall a, r = Ok a -> keeps P (k a)) -> keeps P (lift r ≫= k).
Proof. intros Hk s Hs. apply wpc_bind, wpc_lift. destruct r as [a|e]; [by apply Hk|done]. Qed.
End Keeps.

(** What an operation may do to the shared state without the workers noticing. *)
Definition quiet_step (h h' : Host) : Prop := heap_step h h' /\ h'.(h_accept) = h.(h_accept).

Lemma workers_ok_quiet (h h' : Host) : quiet_step h h' -> workers_ok h -> workers_ok h'.
Proof.
  intros [Hs Ha] W. apply (workers_ok_heap_step h); [done| |done]. rewrite Ha.
  apply (accept_ok_heap_step _ h); [done|apply W].
Qed.

Lemma quiet_core (h h' : Host) : same_core h h' -> quiet_step h h'.
Proof. intros Hs. split; [by apply heap_step_core|apply Hs]. Qed.

Lemma quiet_on_peer (n : Z) (f : PeerState -> PeerState) (h : Host) :
  (forall p, (f p).(ps_identity) = p.(ps_identity) /\ (f p).(ps_remote) = p.(ps_remote)) -> quiet_step h (on_peer n f h).
Proof. intros Hf. split; [by apply heap_step_on_peer|done]. Qed.

Lemma quiet_routes (r : gmap rstr (Z * ListenerDatagramRoutes)) (h : Host) : quiet_step h (set_h_routes r h).
Proof. split; [apply heap_step_routes, heap_step_core, same_core_refl|done]. Qed.

Lemma quiet_step_trans (h1 h2 h3 : Host) : quiet_step h1 h2 -> quiet_step h2 h3 -> quiet_step h1 h3.
Proof. intros [H1 A1] [H2 A2]. split; [by eapply heap_step_trans|congruence]. Qed.

Lemma quiet_send_to (a : SocketAddr) (f : ProtocolFrame) (h : Host) : quiet_step h (send_to a f h).2.
Proof.
  unfold send_to. destruct (h_udp h) as [|[] rest]; cbn; (split; [|done]); split; try done; cbn; intros n;
    destruct (h_heap h !! n); auto.
Qed.

(** What most steps of the operations do to a peer: they neither admit nor
    refuse it, and may tell it something or close it. *)
Record api_peer (p p' : PeerState) : Prop := {
  ap_identity : p'.(ps_identity) = p.(ps_identity);
  ap_remote : p'.(ps_remote) = p.(ps_remote);
  ap_authorized : p'.(ps_authorized) = p.(ps_authorized);
  ap_denied : p'.(ps_admission_denied) = p.(ps_admission_denied);
  ap_active : p'.(ps_active) = true -> p.(ps_active) = true
}.

(** They create no route and send no datagram either. *)
Record api_step (h h' : Host) : Prop := {
  as_quiet : quiet_step h h';
  as_peers : forall n p, h.(h_heap) !! n = Some p -> exists p', h'.(h_heap) !! n = Some p' /\ api_peer p p';
  as_routes : h'.(h_routes) ⊆ h.(h_routes);
  as_datagrams : h'.(h_datagrams) = h.(h_datagrams)
}.

Lemma api_peer_refl (p : PeerState) : api_peer p p.
Proof. by split. Qed.

Lemma api_step_trans (h1 h2 h3 : Host) : api_step h1 h2 -> api_step h2 h3 -> api_step h1 h3.
Proof.
  intros [Q1 P1 R1 D1] [Q2 P2 R2 D2]. split; [by eapply quiet_step_trans| |by etrans|congruence].
  intros n p Hp. destruct (P1 n p Hp) as (q & Hq & []). destruct (P2 n q Hq) as (r & Hr & []).
  exists r. split; [done|]. split; try congruence. auto.
Qed.

Lemma api_step_same (h h' : Host) : quiet_step h h' -> h'.(h_heap) = h.(h_heap) -> h'.(h_routes) ⊆ h.(h_routes) ->
  h'.(h_datagrams) = h.(h_datagrams) -> api_step h h'.
Proof. intros Hq Hh Hr Hd. split; try done. intros n p Hp. rewrite Hh. eauto using api_peer_refl. Qed.

Lemma api_step_core (h h' : Host) : same_core h h' -> api_step h h'.
Proof. intros Hs. apply api_step_same; [by apply quiet_core|apply Hs|by rewrite (sc_routes _ _ Hs)|apply Hs]. Qed.

Lemma api_step_refl (h : Host) : api_step h h.
Proof. apply api_step_core, same_core_refl. Qed.

Lemma api_step_on_peer (n : Z) (f : PeerState -> PeerState) (h : Host) :
  (forall p, api_peer p (f p)) -> api_step h (on_peer n f h).
Proof.
  intros Hf. split; try done; [apply quiet_on_peer; intros p; destruct (Hf p); done|].
  intros m p Hp. cbn. destruct (decide (n = m)) as [<-|Hne].
  - rewrite lookup_alter_eq, Hp. cbn. eauto.
  - rewrite lookup_alter_ne by done. eauto using api_peer_refl.
Qed.

Lemma api_step_close (n : Z) (h : Host) : api_step h (on_peer n close h).
Proof. by apply api_step_on_peer. Qed.

Lemma api_step_unroute (d : rstr) (h : Host) : api_step h (set_h_routes (delete d h.(h_routes)) h).
Proof. apply api_step_same; [apply quiet_routes|done|apply delete_subseteq|done]. Qed.

Lemma api_step_playback (c : PlaybackControls) (h : Host) : api_step h (set_h_playback c h).
Proof.
  apply api_step_same; try done. split; [|done]. split; try done. cbn. intros n. destruct (h_heap h !! n); auto.
Qed.

Lemma api_step_clock (h : Host) : api_step h (clock_now h).2.
Proof. unfold clock_now. destruct (h_clock h); [apply api_step_refl|]. by apply api_step_core. Qed.

Lemma api_step_instant (h : Host) : api_step h (host_instant h).2.
Proof. unfold host_instant. destruct (h_instants h); [apply api_step_refl|]. by apply api_step_core. Qed.

Lemma api_step_live (now : Z) (rs : list (rstr * (Z * ListenerDatagramRoutes))) (h : Host) :
  api_step h (live_routes now rs h).2.
Proof.
  revert h. induction rs as [|[d [n r]] rs IH]; intros h; cbn [live_routes]; [apply api_step_refl|].
  destruct (h_heap h !! n) as [p|]; [|apply IH]. destruct (negb (ps_active p)); [apply IH|].
  destruct (is_inbound_silent _ _ _); [eapply api_step_trans; [|apply IH]; apply api_step_close|].
  specialize (IH h). by destruct (live_routes now rs h).
Qed.

Lemma api_step_routes_read (h : Host) : api_step h (authorized_routes h).2.
Proof.
  unfold authorized_routes. pose proof (api_step_clock h). destruct (clock_now h) as [now h1].
  eapply api_step_trans; [done|apply api_step_live].
Qed.

Lemma live_routes_sub (now : Z) (rs : list (rstr * (Z * ListenerDatagramRoutes))) (h : Host) x :
  x ∈ (live_routes now rs h).1 -> x ∈ rs.
Proof.
  revert h. induction rs as [|[d [n r]] rs IH]; intros h; cbn [live_routes]; [done|]. rewrite elem_of_cons.
  destruct (h_heap h !! n) as [p|]; [|by intros ?%IH; right].
  destruct (negb (ps_active p)); [by intros ?%IH; right|].
  destruct (is_inbound_silent _ _ _); [by intros ?%IH; right|].
  specialize (IH h). destruct (live_routes now rs h) as [l h']. cbn in *. rewrite elem_of_cons.
  intros [->|H]; [by left|right; by apply IH].
Qed.

Lemma authorized_routes_sub (h : Host) (d : rstr) (n : Z) (r : ListenerDatagramRoutes) :
  (d, (n, r)) ∈ (authorized_routes h).1 -> h.(h_routes) !! d = Some (n, r).
Proof.
  unfold authorized_routes. destruct (clock_now h) as [now h1] eqn:Hc.
  assert (h_routes h1 = h_routes h) as <- by (unfold clock_now in Hc; destruct (h_clock h); by simplify_eq).
  intros H%live_routes_sub. by apply elem_of_map_to_list.
Qed.

Lemma api_step_record (n : Z) (failed : bool) (h : Host) : api_step h (record_peer_result n failed h).
Proof.
  unfold record_peer_result. destruct (h_heap h !! n); [|apply api_step_refl]. destruct failed; cbn [negb].
  - case_match; [eapply api_step_trans; [|apply api_step_close]|]; by apply api_step_on_peer.
  - by apply api_step_on_peer.
Qed.

Lemma api_step_silence (n : Z) (m : ControlMessage) (h : Host) : api_step h (update_silence_clock n m h).
Proof.
  destruct m; try apply api_step_refl; cbn [update_silence_clock]; [|by apply api_step_on_peer].
  pose proof (api_step_clock h). destruct (clock_now h). eapply api_step_trans; [done|by apply api_step_on_peer].
Qed.

Lemma api_step_retire (n : Z) (m : ControlMessage) (h : Host) : api_step h (retire_on_failed_playback_delivery n m h).
Proof. unfold retire_on_failed_playback_delivery. case_match; [apply api_step_close|apply api_step_refl]. Qed.

Lemma api_step_sent (n bytes : Z) (c : TransportChannel) (h : Host) :
  api_step h (on_peer n (set_ps_consecutive_failures 0) (on_counters (datagram_sent c bytes) h)).
Proof.
  eapply api_step_trans; [|by apply api_step_on_peer]. apply api_step_core, same_core_counters.
  intros k. unfold datagram_sent. by destruct c.
Qed.

Lemma api_step_failed (n : Z) (h : Host) : api_step h (record_peer_result n true (count_h delivery_failures h)).
Proof. eapply api_step_trans; [apply api_step_core, same_core_count|apply api_step_record]. Qed.

Lemma api_step_remove_route (d : rstr) (n : Z) (h : Host) : api_step h (remove_route_if_current d n h).2.
Proof.
  unfold remove_route_if_current. repeat case_match; cbn; auto using api_step_refl, api_step_unroute.
Qed.

#[export] Hint Resolve api_peer_refl api_step_refl api_step_core api_step_close api_step_unroute api_step_clock
  api_step_instant api_step_routes_read api_step_record api_step_silence api_step_retire api_step_playback
  api_step_sent api_step_failed api_step_remove_route same_core_round same_core_try_send : host.

(** ** Operations keep what only the workers and the peers decide *)

(** A pending peer was there to be refused. *)
Lemma pending_is_unauthorized (d : rstr) (n : Z) (h : Host) : pending_peer_for_device d h = Ok n ->
  exists p, h.(h_heap) !! n = Some p /\ is_pending d p = true.
Proof.
  unfold pending_peer_for_device. destruct (registered (is_pending d) h) as [|m [|]] eqn:Hr; try done. intros [= <-].
  assert (m ∈ registered (is_pending d) h) as Hm by (rewrite Hr; by apply list_elem_of_singleton).
  unfold registered in Hm. apply list_elem_of_filter in Hm as [Hm _]. destruct (h_heap h !! m) as [p|]; [|done]. eauto.
Qed.

Section Generic.
Context {t : target} (P : Host -> Prop) (HP : steady P) (Hapi : forall h h', api_step h h' -> P h -> P h').

Definition sends_ok (a : SocketAddr) : Prop := forall f h, P h -> P (send_to a f h).2.
Definition deny_ok (n : Z) : Prop := forall h, P h -> P (on_peer n (set_ps_admission_denied true) h).

Lemma calm_api_access {A} (f : Host -> A * Host) : (forall h, api_step h (f h).2) -> calm P (access f).
Proof. intros Hf. apply calm_access; [done|]. intros h Hh. by eapply Hapi; [apply Hf|]. Qed.

Lemma calm_api_update (f : Host -> Host) : (forall h, api_step h (f h)) -> calm P (update_host f).
Proof. intros Hf. by apply calm_api_access. Qed.

Lemma keeps_api_access {A} (f : Host -> A * Host) : (forall h, api_step h (f h).2) -> keeps P (access f).
Proof. intros Hf. by apply calm_keeps, calm_api_access. Qed.

Lemma keeps_api_update (f : Host -> Host) : (forall h, api_step h (f h)) -> keeps P (update_host f).
Proof. intros Hf. by apply keeps_api_access. Qed.

Lemma keeps_send (n : Z) (m : ControlMessage) (bytes : list Z) : keeps P (send_recorded n m bytes).
Proof.
  apply keeps_bind; [|intros r; apply keeps_bind; [apply keeps_api_update; auto with host|intros _; apply keeps_ret]].
  apply keeps_api_access. intros h.
  destruct (h_sends h) as [|[e|] rest]; cbn; try (apply api_step_core; by split).
  - eapply api_step_trans; [|apply api_step_core; by apply same_core_counters]. by apply api_step_on_peer.
  - eapply api_step_trans; [|apply api_step_core; by apply same_core_counters].
    eapply api_step_trans; [|by apply api_step_on_peer]. apply api_step_core; by split.
Qed.

(** Steps through a program. *)
Ltac keep1 :=
  first
    [ apply keeps_ret | apply keeps_raise | apply keeps_lift | apply keeps_read; exact HP | apply keeps_send
    | apply keeps_api_update; auto with host; fail
    | apply keeps_api_update; intros; by apply api_step_on_peer
    | apply keeps_bind; [|intros ?]
    | progress cbv beta zeta
    | match goal with |- keeps _ (match ?x with _ => _ end) => destruct x end ].
Ltac keep := repeat keep1.

Lemma keeps_replay_controls (n total : Z) (ms : list ControlMessage) : keeps P (replay_controls n total ms).
Proof. revert total. induction ms as [|m ms IH]; intros total; cbn [replay_controls]; keep. apply IH. Qed.

Lemma keeps_cached (n : Z) (stop : bool) : keeps P (send_cached_playback_controls n stop).
Proof.
  unfold send_cached_playback_controls. apply keeps_bind; [|intros ms; apply keeps_replay_controls].
  apply keeps_api_access. intros h. pose proof (api_step_clock h). by destruct (clock_now h).
Qed.

Lemma calm_publish (e : TransportEvent) : calm P (publish e).
Proof.
  apply calm_bind; [apply calm_api_access; auto with host|]. intros started. apply calm_loop. intros c.
  unfold publish_round. apply calm_bind; [apply calm_api_access; auto with host|]. intros []; try apply calm_ret.
  apply calm_api_access. intros h. pose proof (api_step_instant h) as Hi. destruct (host_instant h) as [now h1].
  case_match; [|done]. eapply api_step_trans; [exact Hi|]. auto with host.
Qed.

Lemma keeps_broadcast_to (m : ControlMessage) (bytes : list Z) (ns : list Z) (c : tally) :
  keeps P (broadcast_to m bytes ns c).
Proof. revert c. induction ns as [|n ns IH]; intros c; cbn [broadcast_to]; keep; try apply IH. Qed.

Lemma keeps_datagram_to (c : TransportChannel) (f : ProtocolFrame) (bytes : list Z)
  (rs : list (rstr * (Z * ListenerDatagramRoutes))) (counts : tally) (fails : DatagramSendFailures) :
  (forall d n r, (d, (n, r)) ∈ rs -> sends_ok r.(route_synchronization) /\ sends_ok r.(route_audio)) ->
  keeps P (datagram_to c f bytes rs counts fails).
Proof.
  revert counts fails. induction rs as [|[d [n r]] rs IH]; intros counts fails Hs; cbn [datagram_to]; [apply keeps_ret|].
  assert (forall counts fails, keeps P (datagram_to c f bytes rs counts fails)) as IH'.
  { intros. apply IH. intros d' n' r' H. apply (Hs d' n'). by right. }
  destruct (Hs d n r (list_elem_of_here _ _)) as [H1 H2]. clear Hs IH.
  apply keeps_bind; [apply keeps_access; [done|]; intros h Hh; destruct c; auto|]. intros []; keep; apply IH'.
Qed.

Context (Hsend : forall h d n r, P h -> h.(h_routes) !! d = Some (n, r) ->
  sends_ok r.(route_synchronization) /\ sends_ok r.(route_audio)).
Context (Hdeny : forall h n p, P h -> h.(h_heap) !! n = Some p -> p.(ps_active) = true -> p.(ps_authorized) = false ->
  deny_ok n).

Lemma keeps_deny (n : Z) : deny_ok n -> keeps P (update_host (on_peer n (set_ps_admission_denied true))).
Proof. intros Hn. by apply keeps_update. Qed.

Lemma pending_deny_ok (d : rstr) (n : Z) (h : Host) : P h -> pending_peer_for_device d h = Ok n -> deny_ok n.
Proof.
  intros Hh (p & Hp & Hd)%pending_is_unauthorized. unfold is_pending in Hd. repeat apply andb_true_iff in Hd as [Hd ?].
  eapply (Hdeny h n p); try done. by apply negb_true_iff.
Qed.

Lemma keeps_send_pending (d : rstr) (m : ControlMessage) : keeps P (send_pending_control d m).
Proof.
  unfold send_pending_control. do 5 (apply keeps_bind; [keep|intros ?]).
  apply keeps_read_bind; [done|]. intros h Hh. apply keeps_lift_bind. intros n Hn.
  pose proof (keeps_deny n (pending_deny_ok d n h Hh Hn)) as Hk.
  repeat first [exact Hk|keep1].
Qed.

Lemma keeps_reject (a : SocketAddr) (d : rstr) (m : ControlMessage) : keeps P (reject_pending_peer_at a d m).
Proof.
  unfold reject_pending_peer_at. cbv zeta. do 3 (apply keeps_bind; [keep|intros ?]).
  apply keeps_read_bind; [done|]. intros h Hh. apply keeps_lift_bind. intros n Hn.
  match type of Hn with context [registered ?f h] => destruct (registered f h) as [|m' l] eqn:Hr; [done|] end.
  injection Hn as ->. pose proof (list_elem_of_here n l) as Hin. rewrite <- Hr in Hin. unfold registered in Hin.
  apply list_elem_of_filter in Hin as [Hp _]. destruct (h_heap h !! n) as [p|] eqn:E; [|done]. cbn in Hp.
  repeat apply andb_true_iff in Hp as [Hp ?].
  assert (deny_ok n) as Hd by (eapply (Hdeny h n p); try done; by apply negb_true_iff).
  pose proof (keeps_deny n Hd) as Hk. repeat first [exact Hk|keep1].
Qed.

Lemma keeps_broadcast_datagram (c : TransportChannel) (f : ProtocolFrame) : keeps P (broadcast_datagram c f).
Proof.
  unfold broadcast_datagram. do 4 (apply keeps_bind; [keep|intros ?]). apply keeps_bind; [|intros []; cbn [negb]; [|keep]].
  { apply keeps_api_access. intros h; repeat case_match; cbn; auto with host. }
  apply keeps_access_bind; [done|]. intros h Hh. split; [by eapply Hapi; [apply api_step_routes_read|]|].
  apply keeps_bind; [keep|]. intros intended. apply keeps_bind; [|intros []; keep].
  apply keeps_datagram_to. intros d n r Hin%authorized_routes_sub. by eapply Hsend.
Qed.

Lemma keeps_targeted_sync (d : rstr) (f : ProtocolFrame) : keeps P (send_targeted_sync d f).
Proof.
  unfold send_targeted_sync. cbv zeta. do 3 (apply keeps_bind; [keep|intros ?]).
  apply keeps_access_bind; [done|]. intros h Hh. split; [by eapply Hapi; [apply api_step_routes_read|]|].
  destruct (list_find _ _) as [[i [d' [n r]]]|] eqn:Hf; [|keep].
  apply list_find_Some in Hf as (Hl & _). apply list_elem_of_lookup_2, authorized_routes_sub in Hl.
  destruct (Hsend h d' n r Hh Hl) as [Hs _]. apply keeps_bind; [|intros []; keep].
  apply keeps_access; [done|]. auto.
Qed.

(** Every operation but an admission. *)
Lemma keeps_op (op : host_op) : match op with OpAuthorize _ _ _ => False | _ => True end -> keeps P (run_op op).
Proof.
  destruct op; cbn [run_op]; unfold discard; [done|intros _..].
  - apply keeps_bind; [apply keeps_api_access; intros h; apply api_step_unroute|]. intros [[]|]; keep.
  - unfold send_disconnect. keep.
  - apply keeps_bind; [apply keeps_send_pending|intros ?; keep].
  - apply keeps_bind; [apply keeps_reject|intros ?; keep].
  - unfold send_control. keep.
  - unfold replay_cached_playback_to_peer. repeat first [apply keeps_cached|keep1].
  - unfold broadcast_control. keep; try apply keeps_broadcast_to.
    + apply keeps_api_access. intros h. destruct (update message (h_playback h)). apply api_step_playback.
    + apply keeps_api_access; auto with host.
  - apply keeps_bind; [apply keeps_broadcast_datagram|intros ?; keep].
  - apply keeps_bind; [apply keeps_targeted_sync|intros ?; keep].
Qed.
End Generic.

Lemma keeps_require {t : target} (P : Host -> Prop) (n : Z) (message : string) : steady P ->
  keeps P (require_active n message).
Proof. intros HP. apply keeps_bind; [by apply keeps_read|]. intros []; [apply keeps_ret|apply keeps_raise]. Qed.

(** An admission, too, keeps what the workers do not notice. *)
Lemma keeps_authorize {t : target} (P : Host -> Prop) (d : rstr) (r : ListenerDatagramRoutes) (n : Z) : steady P ->
  (forall h h', quiet_step h h' -> P h -> P h') -> keeps P (authorize_locked d r n).
Proof.
  intros HP Hq. assert (forall h h', api_step h h' -> P h -> P h') as Hapi by (intros h h' []; by apply Hq).
  assert (forall n b, keeps P (update_host (on_peer n (set_ps_authorized b)))) as Hflag.
  { intros m b. apply keeps_update; [done|]. intros h. by apply Hq, quiet_on_peer. }
  assert (forall n, keeps P (update_host (on_peer n close))) as Hclose.
  { intros m. apply keeps_api_update; auto with host. }
  unfold authorize_locked. apply keeps_bind; [by apply keeps_read|intros current].
  apply keeps_bind; [apply keeps_lift|intros m]. case_match; [apply keeps_raise|].
  apply keeps_bind; [by apply keeps_require|intros _].
  apply keeps_bind; [by apply keeps_cached|intros _].
  apply keeps_bind; [by apply keeps_require|intros _].
  apply keeps_bind; [|intros previous].
  { apply keeps_access; [done|]. intros h. apply Hq. eapply quiet_step_trans; [|by apply quiet_on_peer]. apply quiet_routes. }
  apply keeps_bind; [|intros e].
  { apply keeps_api_access; [done..|]. intros h. pose proof (api_step_clock h). by destruct (clock_now h). }
  apply keeps_bind; [by apply calm_keeps, calm_publish|intros published].
  apply keeps_bind; [by apply keeps_read|intros active]. case_match.
  - apply keeps_bind; [done|intros _]. apply keeps_bind; [|intros _; apply keeps_bind; [done|intros _; apply keeps_raise]].
    apply keeps_update; [done|]. intros h. apply Hq. unfold restore_route.
    repeat case_match; try apply quiet_routes; by apply quiet_core.
  - destruct previous as [[old r']|]; [|apply keeps_ret]. by apply keeps_bind.
Qed.

(** ** Histories of the host *)

Lemma keeps_run {t : target} (P : Host -> Prop) (op : host_op) (schedule : list (list worker_act)) (s : System) :
  keeps P (run_op op) -> P (sys_host s) -> P (sys_host (run_locked op schedule s)).
Proof.
  intros Hk HP. specialize (Hk (schedule, sys_host s) HP). unfold wpc in Hk. unfold run_locked.
  by destruct (run_op op (schedule, sys_host s)) as [[] [rest h]].
Qed.

Lemma api_step_shutdown (h : Host) : api_step h (begin_shutdown h).
Proof.
  unfold begin_shutdown. induction (elements (h_peers h)) as [|n ns IH]; cbn [fold_right].
  - apply api_step_same; try done. split; [|done]. split; try done. cbn. intros n. destruct (h_heap h !! n); auto.
  - eapply api_step_trans; [exact IH|]. apply api_step_close.
Qed.

Lemma keeps_any_op {t : target} (P : Host -> Prop) (op : host_op) : steady P ->
  (forall h h', quiet_step h h' -> P h -> P h') -> keeps P (run_op op).
Proof.
  intros HP Hq. destruct op; try (by apply keeps_authorize); apply keeps_op; try done.
  all: first [intros h h' []; by apply Hq
    | intros h d n r _ _; split; intros f h' Hh; eapply Hq; eauto using quiet_send_to
    | intros h n p _ _ _ _ h' Hh; eapply Hq; [by apply quiet_on_peer|done]].
Qed.

(** What the workers keep and no operation can touch holds throughout. *)
Lemma sys_keeps {t : target} (P : Host -> Prop) (acts : list sys_act) (s : System) :
  steady P -> (forall h h', quiet_step h h' -> P h -> P h') -> P (sys_host s) -> P (sys_host (sys_run acts s)).
Proof.
  intros Hw Hq. unfold sys_run. revert s. induction acts as [|a acts IH]; intros s Hs; [done|].
  cbn [fold_left]. apply IH. destruct a as [a|d r|k schedule|op schedule|]; cbn [sys_step].
  - by apply Hw.
  - by case_match.
  - repeat case_match; try done. apply keeps_run; [by apply keeps_any_op|done].
  - repeat case_match; try done; (apply keeps_run; [by apply keeps_any_op|done]).
  - by eapply Hq; [apply api_step_shutdown|].
Qed.

Lemma validated_peers (c : HostTransportConfig) :
  HostTransportConfig_validate c = Ok tt -> c.(host_max_peers) <= MAX_TRANSPORT_PEERS.
Proof.
  unfold HostTransportConfig_validate. destruct (validate_common _ _ _ _); cbn; [|done].
  destruct (_ || _) eqn:Hm; [done|]. intros _. apply orb_false_iff in Hm as [_ Hm]. by apply Z.ltb_ge in Hm.
Qed.

Lemma workers_ok_bound (c : HostTransportConfig) clock instants sends udp :
  HostTransportConfig_validate c = Ok tt -> 0 <= c.(host_max_peers) -> workers_ok (bound c clock instants sends udp).
Proof.
  intros Hc H0. pose proof (validated_peers c Hc). split; cbn; try done.
Qed.

Lemma workers_ok_run {t : target} (c : HostTransportConfig) clock instants sends udp (acts : list sys_act) :
  HostTransportConfig_validate c = Ok tt -> 0 <= c.(host_max_peers) ->
  workers_ok (sys_host (sys_run acts (sys_start (bound c clock instants sends udp)))).
Proof.
  intros Hc H0. apply sys_keeps; [|apply workers_ok_quiet|by apply workers_ok_bound].
  intros a h. apply workers_ok_step.
Qed.

(** C11. No disconnection of a listener is ever lost. In every history of the
    host under a valid configuration, in which connections are accepted,
    announced, rolled back and read, operations run and the application
    collects its events in any order, the terminal mailbox together with the
    registered peers still to be reported never exceeds the limit of peers: no
    reader finds the mailbox full, so no worker ever declares itself broken,
    and each reader that has left has put its peer's [PeerDisconnected] where
    the application takes it. *)
Theorem no_disconnect_is_lost {t : target} (c : HostTransportConfig) (clock instants : list Z)
  (sends : list (option TransportError)) (udp : list datagram_result) (acts : list sys_act) (h : Host)
  (Hvalid : HostTransportConfig_validate c = Ok tt) (Hunsigned : 0 <= c.(host_max_peers))
  (Hrun : sys_host (sys_run acts (sys_start (bound c clock instants sends udp))) = h) :
  Z.of_nat (size (unreported h)) + len h.(h_mailbox) <= c.(host_max_peers)
  /\ h.(h_counters).(worker_panicked) = false
  /\ (forall n pc, h.(h_readers) !! n = Some pc -> pc = Reported \/ pc = Gone -> exists p error at_ms,
        h.(h_heap) !! n = Some p /\ PeerDisconnected (transport_peer p) error at_ms ∈ h.(h_taken) ++ h.(h_mailbox)).
Proof.
  pose proof (workers_ok_run c clock instants sends udp acts Hvalid Hunsigned) as W. rewrite Hrun in W.
  assert (Hconfig : h_config h = c).
  { rewrite <- Hrun. apply (sys_keeps (fun h => workers_ok h /\ h_config h = c)); [| |by split; [apply workers_ok_bound|]].
    - intros a w [Ww <-]. split; [by apply workers_ok_step|apply (wf_step a w Ww)].
    - intros h1 h2 Hq [W1 <-]. split; [by eapply workers_ok_quiet|apply Hq]. }
  split; [rewrite <- Hconfig; apply W|]. split; [apply W|].
  intros n pc Hr Hf. by apply (w_readers h W n pc Hr).
Qed.

(** ** Who receives datagrams *)

Notation grant := (rstr * ListenerDatagramRoutes * Z)%type.

(** The connection claims the device, and the routes lead to its address. *)
Definition matched (g : grant) (h : Host) : Prop :=
  let '(d, r, n) := g in exists p, h.(h_heap) !! n = Some p /\ p.(ps_identity) = Some d
    /\ r.(route_synchronization).(addr_ip) = p.(ps_remote).(addr_ip)
    /\ r.(route_audio).(addr_ip) = p.(ps_remote).(addr_ip).

Definition unrefused (n : Z) (h : Host) : Prop :=
  exists p, h.(h_heap) !! n = Some p /\ p.(ps_admission_denied) = false.

(** A connection that is not up for admission. *)
Definition decided (n : Z) (h : Host) : Prop :=
  forall p, h.(h_heap) !! n = Some p -> p.(ps_authorized) = true \/ p.(ps_active) = false.

(** What a peer may become: neither admitted nor refused, moved or renamed. *)
Definition same_standing (h h' : Host) : Prop :=
  (forall n p, h.(h_heap) !! n = Some p -> exists p', h'.(h_heap) !! n = Some p'
    /\ p'.(ps_remote) = p.(ps_remote) /\ p'.(ps_authorized) = p.(ps_authorized)
    /\ p'.(ps_admission_denied) = p.(ps_admission_denied) /\ (p'.(ps_active) = true -> p.(ps_active) = true)
    /\ (p.(ps_identity) = None \/ p'.(ps_identity) = p.(ps_identity)))
  /\ h'.(h_routes) ⊆ h.(h_routes) /\ h'.(h_datagrams) = h.(h_datagrams).

Lemma standing_api (h h' : Host) : api_step h h' -> same_standing h h'.
Proof. intros [_ Hp Hr Hd]. split_and!; try done. intros n p H. destruct (Hp n p H) as (p' & ? & []). eauto 10. Qed.

Lemma standing_worker (h h' : Host) : worker_frame h h' -> same_standing h h'.
Proof. intros [_ Hp Hr Hd _]. split_and!; try done. intros n p H. destruct (Hp n p H) as (p' & ? & []). eauto 10. Qed.

Lemma standing_matched (g : grant) (h h' : Host) : same_standing h h' -> matched g h -> matched g h'.
Proof.
  intros [Hs _]. destruct g as [[d r] n]. intros (p & Hp & Hi & H1 & H2).
  destruct (Hs n p Hp) as (p' & Hp' & Hr & _ & _ & _ & [?|Hi']); [congruence|]. exists p'. split_and!; congruence.
Qed.

Lemma standing_unrefused (n : Z) (h h' : Host) : same_standing h h' -> unrefused n h -> unrefused n h'.
Proof.
  intros [Hs _] (p & Hp & Hd). destruct (Hs n p Hp) as (p' & Hp' & _ & _ & Hd' & _). exists p'. split; congruence.
Qed.

Lemma standing_decided (n : Z) (h h' : Host) : same_standing h h' -> is_Some (h.(h_heap) !! n) -> decided n h -> decided n h'.
Proof.
  intros [Hs _] [p Hp] Hd q Hq. destruct (Hs n p Hp) as (p' & Hp' & _ & Ha & _ & Hact & _). simplify_eq.
  destruct (Hd p Hp) as [?|?]; [left; congruence|]. right. destruct (ps_active q); [naive_solver|done].
Qed.

(** What holds at any moment for the selections [S] and the grants [G]: no
    grant was refused, and every datagram went where a grant leads. *)
Record granted_ok (S G : list grant) (h : Host) : Prop := {
  gr_workers : workers_ok h;
  gr_selected : forall g, g ∈ S -> matched g h;
  gr_granted : forall g, g ∈ G -> matched g h /\ unrefused g.2 h;
  gr_datagrams : forall a f, (a, f) ∈ h.(h_datagrams) -> exists d r n, (d, r, n) ∈ G
    /\ (a = r.(route_synchronization) \/ a = r.(route_audio))
}.

(** What holds between operations. *)
Record routes_ok (S G : list grant) (h : Host) : Prop := {
  ro_granted : granted_ok S G h;
  ro_decided : forall g, g ∈ G -> decided g.2 h;
  ro_routes : forall d n r, h.(h_routes) !! d = Some (n, r) -> (d, r, n) ∈ G
}.

Lemma granted_some (S G : list grant) (h : Host) (g : grant) : granted_ok S G h -> g ∈ G -> is_Some (h.(h_heap) !! g.2).
Proof. intros [_ _ H _] Hg. destruct (H g Hg) as [_ (p & Hp & _)]. eauto. Qed.

Lemma granted_ok_standing (S G : list grant) (h h' : Host) : same_standing h h' -> workers_ok h' ->
  granted_ok S G h -> granted_ok S G h'.
Proof.
  intros Hs W [_ H1 H2 H3]. split; [done|..].
  - intros g Hg. eauto using standing_matched.
  - intros g Hg. destruct (H2 g Hg). eauto using standing_matched, standing_unrefused.
  - destruct Hs as (_ & _ & ->). done.
Qed.

Lemma routes_ok_standing (S G : list grant) (h h' : Host) : same_standing h h' -> workers_ok h' ->
  routes_ok S G h -> routes_ok S G h'.
Proof.
  intros Hs W [H1 H2 H3]. split; [by eapply granted_ok_standing|..].
  - intros g Hg. eapply standing_decided; eauto using granted_some.
  - intros d n r Hr. apply H3. destruct Hs as (_ & Hsub & _). by eapply lookup_weaken.
Qed.

(** An assertion about the peers that needs the workers' invariant. *)
Lemma standing_steady {t : target} (P : Host -> Prop) :
  (forall h, P h -> workers_ok h) -> (forall h h', same_standing h h' -> workers_ok h' -> P h -> P h') ->
  steady P /\ (forall h h', api_step h h' -> P h -> P h').
Proof.
  intros HW HP. split.
  - intros a h Hh. apply (HP h); [|by apply workers_ok_step; auto|done]. apply standing_worker, wf_step. auto.
  - intros h h' Ha Hh. apply (HP h); [by apply standing_api|eapply workers_ok_quiet; [apply Ha|auto]|done].
Qed.

Lemma granted_ok_steady {t : target} (S G : list grant) :
  steady (granted_ok S G) /\ (forall h h', api_step h h' -> granted_ok S G h -> granted_ok S G h').
Proof. apply standing_steady; [by intros h []|eauto using granted_ok_standing]. Qed.

Lemma routes_ok_steady {t : target} (S G : list grant) :
  steady (routes_ok S G) /\ (forall h h', api_step h h' -> routes_ok S G h -> routes_ok S G h').
Proof. apply standing_steady; [by intros h [[]]|eauto using routes_ok_standing]. Qed.

(** A datagram to a granted address. *)
Lemma routes_ok_send (S G : list grant) (h0 : Host) (d : rstr) (n : Z) (r : ListenerDatagramRoutes) :
  routes_ok S G h0 -> h0.(h_routes) !! d = Some (n, r) ->
  sends_ok (routes_ok S G) r.(route_synchronization) /\ sends_ok (routes_ok S G) r.(route_audio).
Proof.
  intros [_ _ H3] Hr%H3. assert (forall a, a = r.(route_synchronization) \/ a = r.(route_audio) ->
    sends_ok (routes_ok S G) a) as Hs; [|split; apply Hs; auto].
  intros a Ha f h [[W Hsel Hg Hd] Hdec Hro].
  assert (h_heap (send_to a f h).2 = h_heap h /\ h_routes (send_to a f h).2 = h_routes h
    /\ forall x, x ∈ h_datagrams (send_to a f h).2 -> x ∈ h_datagrams h \/ x = (a, f)) as (Eh & Er & Ed).
  { unfold send_to. destruct (h_udp h) as [|[] ?]; cbn; split_and!; try done; auto; intros x;
      rewrite elem_of_app, list_elem_of_singleton; done. }
  split; [split; [eapply workers_ok_quiet; [apply quiet_send_to|done]|..]|..].
  - intros [[d' r'] n'] Hin. unfold matched. rewrite Eh. apply (Hsel _ Hin).
  - intros [[d' r'] n'] Hin. unfold matched, unrefused. rewrite Eh. apply (Hg _ Hin).
  - intros a' f' [Hin|[= -> ->]]%Ed; [eauto|]. eauto 10.
  - intros g Hin. unfold decided. rewrite Eh. by apply Hdec.
  - rewrite Er. done.
Qed.

(** A refusal of a connection that was never granted. *)
Lemma on_peer_matched (n : Z) (f : PeerState -> PeerState) (h : Host) (g : grant) :
  (forall p, (f p).(ps_identity) = p.(ps_identity) /\ (f p).(ps_remote) = p.(ps_remote)) ->
  matched g h -> matched g (on_peer n f h).
Proof.
  intros Hf. destruct g as [[d r] m]. intros (p & Hp & Hi & H1 & H2). cbn. destruct (decide (n = m)) as [<-|Hne].
  - exists (f p). rewrite lookup_alter_eq, Hp. destruct (Hf p). cbn. split_and!; congruence.
  - exists p. by rewrite lookup_alter_ne.
Qed.

Lemma on_peer_other (n m : Z) (f : PeerState -> PeerState) (h : Host) : n <> m ->
  h_heap (on_peer n f h) !! m = h_heap h !! m.
Proof. intros. cbn. by rewrite lookup_alter_ne. Qed.

Lemma granted_ok_on_peer (S G : list grant) (n : Z) (f : PeerState -> PeerState) (h : Host) :
  (forall p, (f p).(ps_identity) = p.(ps_identity) /\ (f p).(ps_remote) = p.(ps_remote)) ->
  (forall g, g ∈ G -> g.2 <> n) \/ (forall p, (f p).(ps_admission_denied) = p.(ps_admission_denied)) ->
  granted_ok S G h -> granted_ok S G (on_peer n f h).
Proof.
  intros Hf Hor [W Hsel Hg Hd]. split; [eapply workers_ok_quiet; [by apply quiet_on_peer|done]|..|done].
  - intros g Hin. apply on_peer_matched; auto.
  - intros g Hin. destruct (Hg g Hin) as [Hm (p & Hp & Hd')]. split; [by apply on_peer_matched|].
    destruct (decide (n = g.2)) as [->|Hne]; [|exists p; rewrite on_peer_other; done].
    destruct Hor as [Hor|Hor]; [by destruct (Hor g Hin)|]. exists (f p). cbn. rewrite lookup_alter_eq, Hp. cbn.
    by rewrite Hor.
Qed.

Lemma decided_on_other (G : list grant) (n : Z) (f : PeerState -> PeerState) (h : Host) :
  (forall g, g ∈ G -> g.2 <> n) -> (forall g, g ∈ G -> decided g.2 h) -> forall g, g ∈ G -> decided g.2 (on_peer n f h).
Proof. intros Hn Hd g Hin p. rewrite on_peer_other by (symmetry; auto). by apply Hd. Qed.

(** A connection up for admission holds no grant. *)
Lemma undecided_ungranted (S G : list grant) (h : Host) (n : Z) (p : PeerState) : routes_ok S G h ->
  h.(h_heap) !! n = Some p -> p.(ps_active) = true -> p.(ps_authorized) = false -> forall g, g ∈ G -> g.2 <> n.
Proof. intros [_ Hd _] Hp Ha Hn g Hin <-. destruct (Hd g Hin p Hp); congruence. Qed.

Lemma routes_ok_deny (S G : list grant) (h0 : Host) (n : Z) (p : PeerState) : routes_ok S G h0 ->
  h0.(h_heap) !! n = Some p -> p.(ps_active) = true -> p.(ps_authorized) = false -> deny_ok (routes_ok S G) n.
Proof.
  intros H0 Hp Ha Hn. pose proof (undecided_ungranted S G h0 n p H0 Hp Ha Hn) as Hne.
  intros h [H1 H2 H3]. split; [|by apply decided_on_other|done]. apply granted_ok_on_peer; auto.
Qed.

(** ** An admission *)

Section Admission.
Context {t : target} (S G : list grant) (d : rstr) (r : ListenerDatagramRoutes) (n : Z) (Hsel : (d, r, n) ∈ S).

(** The peer was pending when the lock was taken. *)
Definition chosen (h : Host) : Prop := routes_ok S G h /\ unrefused n h.

(** The route is there for the length of the announcement. [keep] says which
    grants are decided, the new one with them or not. *)
Record announced (keep : Z -> Prop) (h : Host) : Prop := {
  an_granted : granted_ok S G h;
  an_unrefused : unrefused n h;
  an_decided : forall m, keep m -> m = n \/ (exists g, g ∈ G /\ g.2 = m) -> decided m h;
  an_routes : forall d' n' r', h.(h_routes) !! d' = Some (n', r') -> (d', r', n') ∈ G \/ (d' = d /\ n' = n /\ r' = r)
}.

Lemma chosen_steady : steady chosen /\ (forall h h', api_step h h' -> chosen h -> chosen h').
Proof.
  apply standing_steady; [by intros h [[[]]]|]. intros h h' Hs W [H1 H2].
  split; [by eapply routes_ok_standing|by eapply standing_unrefused].
Qed.

Lemma announced_steady (keep : Z -> Prop) :
  steady (announced keep) /\ (forall h h', api_step h h' -> announced keep h -> announced keep h').
Proof.
  apply standing_steady; [by intros h [[]]|]. intros h h' Hs W [H1 H2 H3 H4]. split.
  - by eapply granted_ok_standing.
  - by eapply standing_unrefused.
  - intros m Hk Hm. eapply standing_decided; [done| |auto]. destruct Hm as [->|(g & Hg & <-)].
    + destruct H2 as (p & Hp & _). eauto.
    + by eapply granted_some.
  - intros d' n' r' Hr. apply H4. destruct Hs as (_ & Hsub & _). by eapply lookup_weaken.
Qed.

Context (Hfresh : forall g, g ∈ G -> g.2 <> n).

Lemma insert_route_announced (h : Host) : chosen h ->
  announced (fun _ => True) (insert_route d n r h).2
  /\ (forall old, (insert_route d n r h).1 = Some old -> (d, old.2, old.1) ∈ G).
Proof.
  intros [[Hg Hd Hr] Hu]. split; [|intros [m r'] H; by apply Hr]. cbn [insert_route snd].
  set (h1 := set_h_routes _ h). assert (granted_ok S G h1) as Hg1.
  { destruct Hg. split; try done. eapply workers_ok_quiet; [apply quiet_routes|done]. }
  split.
  - apply granted_ok_on_peer; auto.
  - destruct Hu as (p & Hp & Hd'). exists (set_ps_authorized true p). cbn. by rewrite lookup_alter_eq, Hp.
  - intros m _ [->|(g & Hin & <-)].
    + intros p. cbn. rewrite lookup_alter_eq. destruct (h_heap h !! n); [|done]. intros [= <-]. by left.
    + intros p. rewrite on_peer_other by (symmetry; auto). by apply Hd.
  - cbn. intros d' n' r'. destruct (decide (d = d')) as [<-|Hne].
    + rewrite lookup_insert_eq. intros [= <- <-]. auto.
    + rewrite lookup_insert_ne by done. auto.
Qed.

(** The rollback leaves the routes as they were granted. *)
Lemma restore_route_ok (previous : option (Z * ListenerDatagramRoutes)) (h : Host) :
  (forall old, previous = Some old -> (d, old.2, old.1) ∈ G) ->
  announced (fun m => m <> n) h -> routes_ok S G (restore_route d n previous h).
Proof.
  intros Hold [Hg _ Hd Hr]. assert (forall g, g ∈ G -> decided g.2 h) as Hdec by (intros g Hin; apply Hd; eauto).
  assert (forall m, (forall d' n' r', m !! d' = Some (n', r') -> (d', r', n') ∈ G) ->
    routes_ok S G (set_h_routes m h)) as Hset.
  { intros m Hm. destruct Hg. split; try done. split; try done. eapply workers_ok_quiet; [apply quiet_routes|done]. }
  assert (forall d' n' r', d' <> d -> h_routes h !! d' = Some (n', r') -> (d', r', n') ∈ G) as Hother.
  { intros d' n' r' Hne H. destruct (Hr _ _ _ H) as [?|(? & _)]; done. }
  assert (routes_ok S G (set_h_routes (delete d (h_routes h)) h)) as Hdel.
  { apply Hset. intros d' n' r' H. apply lookup_delete_Some in H as [Hne H]. apply Hother; auto. }
  unfold restore_route. destruct (h_routes h !! d) as [[m r0]|] eqn:E.
  - destruct (m =? n) eqn:Em.
    + destruct previous as [old|]; [|done]. case_match; [|done]. apply Hset. intros d' n' r' H'.
      destruct (decide (d = d')) as [<-|Hne].
      * rewrite lookup_insert_eq in H'. injection H' as ->. by apply (Hold (n', r')).
      * rewrite lookup_insert_ne in H' by done. apply Hother; auto.
    + apply Z.eqb_neq in Em. split; [done..|]. intros d' n' r' H. destruct (Hr _ _ _ H) as [?|(-> & -> & ->)]; [done|].
      congruence.
  - split; [done..|]. intros d' n' r' H. destruct (Hr _ _ _ H) as [?|(-> & _)]; [done|congruence].
Qed.

Lemma announced_granted (h : Host) : matched (d, r, n) h -> announced (fun _ => True) h -> routes_ok S (G ++ [(d, r, n)]) h.
Proof.
  intros Hm [[W H1 H2 H3] Hu Hd Hr]. split; [split; [done..| |]| |].
  - intros g [?| ->%list_elem_of_singleton]%elem_of_app; [auto|]. done.
  - intros a f Hin. destruct (H3 a f Hin) as (d' & r' & n' & Hg & Ha). exists d', r', n'.
    split; [apply elem_of_app; by left|done].
  - intros g [?| ->%list_elem_of_singleton]%elem_of_app; apply Hd; eauto.
  - intros d' n' r' H. apply elem_of_app. destruct (Hr _ _ _ H) as [?|(-> & -> & ->)]; [by left|right].
    by apply list_elem_of_singleton.
Qed.

Lemma announced_on_peer (keep keep' : Z -> Prop) (m : Z) (f : PeerState -> PeerState) (h : Host) :
  (forall p, (f p).(ps_identity) = p.(ps_identity) /\ (f p).(ps_remote) = p.(ps_remote)
    /\ (f p).(ps_admission_denied) = p.(ps_admission_denied)) ->
  (forall k, keep' k -> keep k \/ k = m) -> (keep' m -> forall p, (f p).(ps_authorized) = true \/ (f p).(ps_active) = false) ->
  announced keep h -> announced keep' (on_peer m f h).
Proof.
  intros Hf Hk Hm [H1 H2 H3 H4]. split; [|..|done].
  - apply granted_ok_on_peer; [intros p; destruct (Hf p) as (? & ? & _); done|right; apply Hf|done].
  - destruct H2 as (p & Hp & Hd). destruct (decide (m = n)) as [->|Hne]; [|exists p; by rewrite on_peer_other].
    exists (f p). cbn. rewrite lookup_alter_eq, Hp. cbn. destruct (Hf p) as (_ & _ & ->). done.
  - intros k Hk' Hin p. destruct (decide (m = k)) as [->|Hne].
    + cbn. rewrite lookup_alter_eq. destruct (h_heap h !! k); [|done]. intros [= <-]. by apply Hm.
    + rewrite on_peer_other by done. apply H3; [|done]. destruct (Hk k Hk') as [?|?]; [done|congruence].
Qed.
End Admission.

Lemma wpc_keeps {t : target} {A} (P : Host -> Prop) (m : host_prog A) (Q : A -> scheduled -> Prop) X U s :
  keeps P m -> P s.2 -> (forall a s', P s'.2 -> Q a s') -> (forall e s', P s'.2 -> X e s') ->
  (forall s', P s'.2 -> U s') -> wpc m Q X U s.
Proof. intros Hm Hs HQ HX HU. eapply wpc_mono; [by apply Hm|..]; cbn; auto. Qed.

Lemma wpc_calm {t : target} {A} (P : Host -> Prop) (m : host_prog A) (Q : A -> scheduled -> Prop) X U s :
  calm P m -> P s.2 -> (forall a s', P s'.2 -> Q a s') -> (forall s', P s'.2 -> U s') -> wpc m Q X U s.
Proof. intros Hm Hs HQ HU. eapply wpc_mono; [by apply Hm|..]; cbn; auto. done. Qed.

Section Granting.
Context {t : target} (S G : list grant) (d : rstr) (r : ListenerDatagramRoutes) (n : Z) (Hsel : (d, r, n) ∈ S).

Local Notation admits m s := (wpc (m : host_prog unit) (fun _ s => routes_ok S (G ++ [(d, r, n)]) s.2)
  (fun _ s => routes_ok S G s.2) (fun s => granted_ok S G s.2) s).

Lemma announced_any (keep : Z -> Prop) (h : Host) : announced S G d r n keep h -> granted_ok S G h.
Proof. by intros []. Qed.

(** The announcement failed. *)
Lemma rollback_spec (previous : option (Z * ListenerDatagramRoutes)) (e : TransportError) s :
  (forall g, g ∈ G -> g.2 <> n) -> (forall old, previous = Some old -> (d, old.2, old.1) ∈ G) -> announced S G d r n (fun _ => True) s.2 ->
  admits (_ ← update_host (on_peer n (set_ps_authorized false)); _ ← update_host (restore_route d n previous);
          _ ← update_host (on_peer n close); raise e) s.
Proof.
  intros Hfresh Hold Hs. destruct (announced_steady S G d r n (fun _ => True)) as [St _].
  destruct (announced_steady S G d r n (fun m => m <> n)) as [St' _]. destruct (routes_ok_steady S G) as [St2 Ha2].
  apply wpc_bind. apply (wpc_host_access (announced S G d r n (fun _ => True))); [done..|intros; by eapply announced_any|].
  intros h sched Hh. cbn [fst snd]. apply wpc_bind.
  apply (wpc_host_access (announced S G d r n (fun m => m <> n))); [done| |intros; by eapply announced_any|].
  { cbn [snd]. eapply announced_on_peer; [..|exact Hh]; try done. by left. }
  clear h Hh sched. intros h sched Hh. cbn [fst snd]. apply wpc_bind.
  apply (wpc_host_access (routes_ok S G)); [done|by eapply (restore_route_ok S G d r n Hfresh)|by intros ? []|].
  clear h Hh sched. intros h sched Hh. cbn [fst snd]. eapply Ha2; [apply api_step_close|done].
Qed.

(** The announcement was queued: the previous connection goes. *)
Lemma replace_spec (previous : option (Z * ListenerDatagramRoutes)) s :
  (forall g, g ∈ G -> g.2 <> n) ->
  (forall old, previous = Some old -> (d, old.2, old.1) ∈ G) -> announced S G d r n (fun _ => True) s.2 ->
  admits (match previous with
          | Some (old, _) => _ ← update_host (on_peer old (set_ps_authorized false)); update_host (on_peer old close)
          | None => mret tt
          end) s.
Proof.
  intros Hfresh Hold Hs. destruct (announced_steady S G d r n (fun _ => True)) as [St _].
  assert (forall h, announced S G d r n (fun _ => True) h -> routes_ok S (G ++ [(d, r, n)]) h) as Hdone.
  { intros h Hh. apply announced_granted; [|done]. apply Hh. done. }
  destruct previous as [[old r']|]; [|by apply Hdone]. pose proof (Hfresh _ (Hold _ eq_refl)) as Hne. cbn in Hne.
  destruct (announced_steady S G d r n (fun m => m <> old)) as [St' _]. apply wpc_bind.
  apply (wpc_host_access (announced S G d r n (fun _ => True))); [done..|intros; by eapply announced_any|].
  intros h sched Hh. cbn [fst snd].
  apply (wpc_host_access (announced S G d r n (fun m => m <> old))); [done| |intros; by eapply announced_any|].
  { cbn [snd]. eapply announced_on_peer; [..|exact Hh]; try done. by left. }
  clear h Hh sched. intros h sched Hh. cbn [fst snd]. apply Hdone.
  eapply announced_on_peer; [..|exact Hh]; try done; [|by right].
  intros k _. destruct (decide (k = old)); auto.
Qed.

Lemma authorize_spec s : routes_ok S G s.2 -> admits (authorize_locked d r n) s.
Proof.
  intros Hs. destruct (routes_ok_steady S G) as [St1 _]. destruct (chosen_steady S G n) as [St2 Ha2].
  destruct (announced_steady S G d r n (fun _ => True)) as [St3 Ha3]. unfold authorize_locked.
  apply wpc_bind. apply (wpc_host_access (routes_ok S G)); [done..|by intros ? []|]. intros h sched Hh. cbn [fst snd].
  apply wpc_bind, wpc_lift. destruct (pending_peer_for_device d h) as [current|e] eqn:Hp; [|done].
  destruct (current =? n) eqn:Hc; cbn [negb]; [apply Z.eqb_eq in Hc as ->|done].
  destruct (pending_is_unauthorized d n h Hp) as (p & Hn & Hd). unfold is_pending in Hd.
  repeat apply andb_true_iff in Hd as [Hd ?]. rewrite !negb_true_iff in *.
  pose proof (undecided_ungranted S G h n p Hh Hn ltac:(done) ltac:(done)) as Hfresh.
  assert (chosen S G n h) as Hch by (split; [done|by exists p]). clear Hh Hp Hn Hs.
  apply wpc_bind. apply (wpc_keeps (chosen S G n)); [by apply keeps_require|done| |by intros ? ? []|by intros ? [[]]].
  intros _ s1 K1. apply wpc_bind. apply (wpc_keeps (chosen S G n)); [by apply keeps_cached|done| |by intros ? ? []|by intros ? [[]]].
  clear s1 K1. intros _ s1 K1. apply wpc_bind.
  apply (wpc_keeps (chosen S G n)); [by apply keeps_require|done| |by intros ? ? []|by intros ? [[]]].
  clear s1 K1. intros _ s1 K1. apply wpc_bind. apply (wpc_host_access (chosen S G n)); [done..|by intros ? [[]]|].
  clear h sched s1 K1 Hch. intros h sched Hch. destruct (insert_route_announced S G d r n Hfresh h Hch) as [Han Hold].
  generalize dependent (insert_route d n r h). intros [previous h1] Han Hold. cbn [fst snd] in *. apply wpc_bind.
  apply (wpc_calm (announced S G d r n (fun _ => True))); [|done| |intros; by eapply announced_any].
  { apply calm_api_access; [done..|]. intros h2. pose proof (api_step_clock h2). by destruct (clock_now h2). }
  intros event s2 K2. apply wpc_bind.
  apply (wpc_calm (announced S G d r n (fun _ => True))); [by apply calm_publish|done| |intros; by eapply announced_any].
  clear s2 K2. intros published s2 K2. apply wpc_bind.
  apply (wpc_host_access (announced S G d r n (fun _ => True))); [done..|intros; by eapply announced_any|].
  intros h3 sched3 K3. cbn [fst snd]. destruct (negb published || negb (active_peer n h3)).
  - by apply rollback_spec.
  - by apply replace_spec.
Qed.
End Granting.

(** ** Histories and grants *)

Definition system_ok (s : System) : Prop :=
  granted_ok s.(sys_selected) s.(sys_granted) s.(sys_host)
  /\ (s.(sys_busy) = false -> routes_ok s.(sys_selected) s.(sys_granted) s.(sys_host)).

Lemma select_matched (d : rstr) (r : ListenerDatagramRoutes) (n : Z) (h : Host) :
  select_peer d r h = Ok n -> matched (d, r, n) h.
Proof.
  unfold select_peer. destruct (h_stop h); [done|].
  destruct (pending_peer_for_device d h) as [m|e] eqn:Hp; cbn; [|done].
  destruct (pending_is_unauthorized d m h Hp) as (p & Hm & Hd). rewrite Hm. destruct (_ || _) eqn:Hor; [done|].
  intros [= <-]. apply orb_false_iff in Hor as [H1 H2]. apply negb_false_iff, bool_decide_eq_true in H1, H2.
  unfold is_pending in Hd. apply andb_true_iff in Hd as [_ Hd]. apply bool_decide_eq_true in Hd. by exists p.
Qed.

Lemma granted_ok_select (S G : list grant) (g : grant) (h : Host) :
  matched g h -> granted_ok S G h -> granted_ok (S ++ [g]) G h.
Proof. intros Hm []. split; try done. intros g' [?| ->%list_elem_of_singleton]%elem_of_app; auto. Qed.

Lemma system_ok_locked {t : target} (op : host_op) (schedule : list (list worker_act)) (s : System) :
  match op with OpAuthorize d r n => (d, r, n) ∈ sys_selected s | _ => True end ->
  routes_ok (sys_selected s) (sys_granted s) (sys_host s) -> system_ok (run_locked op schedule s).
Proof.
  intros Hop Hr. unfold run_locked. destruct (routes_ok_steady (sys_selected s) (sys_granted s)) as [St Ha].
  assert (match op with OpAuthorize _ _ _ => False | _ => True end ->
    keeps (routes_ok (sys_selected s) (sys_granted s)) (run_op op)) as Hk.
  { intros H. apply keeps_op; [done..|by apply routes_ok_send|by apply routes_ok_deny|done]. }
  destruct op as [d r n| | | | | | | | |].
  1: pose proof (authorize_spec _ (sys_granted s) d r n Hop (schedule, sys_host s) Hr) as H; unfold wpc in H;
    cbn [run_op]; destruct (authorize_locked d r n _) as [[] [rest h]]; cbn [snd] in H; split; cbn; try done; by destruct H.
  all: specialize (Hk I (schedule, sys_host s) Hr); unfold wpc in Hk;
    destruct (run_op _ _) as [[] [rest h]]; cbn [snd] in Hk; split; cbn; try done; by destruct Hk.
Qed.

Lemma system_ok_step {t : target} (a : sys_act) (s : System) : system_ok s -> system_ok (sys_step a s).
Proof.
  intros [Hg Hr]. destruct (granted_ok_steady (sys_selected s) (sys_granted s)) as [St1 Ha1].
  destruct (routes_ok_steady (sys_selected s) (sys_granted s)) as [St2 Ha2].
  destruct a as [a|d r|k schedule|op schedule|]; cbn [sys_step].
  - split; cbn; [by apply St1|]. intros Hb. by apply St2, Hr.
  - destruct (select_peer d r (sys_host s)) as [n|e] eqn:Hs; [|done]. apply select_matched in Hs.
    split; cbn; [by apply granted_ok_select|]. intros Hb. destruct (Hr Hb). split; try done. by apply granted_ok_select.
  - destruct (sys_busy s) eqn:Hb; [by split; rewrite ?Hb|]. destruct (sys_selected s !! k) as [[[d r] n]|] eqn:Hk; [|by split; rewrite ?Hb].
    apply system_ok_locked; [by eapply list_elem_of_lookup_2|auto].
  - destruct (sys_busy s) eqn:Hb; [by split; rewrite ?Hb|].
    destruct op; try (by apply system_ok_locked; auto). by split; rewrite ?Hb.
  - split; cbn; [eapply Ha1; [apply api_step_shutdown|done]|]. intros Hb. eapply Ha2; [apply api_step_shutdown|auto].
Qed.

Lemma system_ok_run {t : target} (acts : list sys_act) (s : System) : system_ok s -> system_ok (sys_run acts s).
Proof. revert s. induction acts as [|a acts IH]; intros s Hs; [done|]. apply IH, system_ok_step, Hs. Qed.

Lemma system_ok_bound (c : HostTransportConfig) clock instants sends udp :
  HostTransportConfig_validate c = Ok tt -> 0 <= c.(host_max_peers) ->
  system_ok (sys_start (bound c clock instants sends udp)).
Proof.
  intros Hc H0. assert (granted_ok [] [] (bound c clock instants sends udp)) as Hg.
  { split; [by apply workers_ok_bound|..]; intros *; by intros ?%elem_of_nil. }
  split; [done|]. intros _. split; [done|..]; [intros *; by intros ?%elem_of_nil|]. intros d n r. cbn. by rewrite lookup_empty.
Qed.

(** A sync response is never broadcast. *)
Lemma sync_responses_are_not_broadcast {t : target} (r : SyncResponse) s :
  broadcast_datagram ChSynchronization (FSyncResponse r) s
  = (Raised (transport_error TkUnauthorized ChSynchronization
       "host synchronization responses require a targeted authorized route"), s).
Proof. reflexivity. Qed.

(** C6. Audio and synchronization datagrams reach admitted listeners only. In
    every history of the host, whatever connects, claims to be somebody, sends
    frames or leaves while operations run, each datagram the host has sent went
    to an address of an authorization that had completed: to the IP address of
    a connection that had claimed that listener's device, still claims it, and
    was never refused admission. Rolled-back and refused admissions receive
    nothing. *)
Theorem datagrams_reach_admitted_listeners {t : target} (c : HostTransportConfig) (clock instants : list Z)
  (sends : list (option TransportError)) (udp : list datagram_result) (acts : list sys_act) (s : System)
  (destination : SocketAddr) (frame : ProtocolFrame)
  (Hvalid : HostTransportConfig_validate c = Ok tt) (Hunsigned : 0 <= c.(host_max_peers))
  (Hrun : sys_run acts (sys_start (bound c clock instants sends udp)) = s)
  (Hsent : (destination, frame) ∈ h_datagrams (sys_host s)) :
  exists d r n p, (d, r, n) ∈ sys_granted s
    /\ (destination = r.(route_synchronization) \/ destination = r.(route_audio))
    /\ h_heap (sys_host s) !! n = Some p /\ p.(ps_identity) = Some d
    /\ destination.(addr_ip) = p.(ps_remote).(addr_ip) /\ p.(ps_admission_denied) = false.
Proof.
  pose proof (system_ok_run acts _ (system_ok_bound c clock instants sends udp Hvalid Hunsigned)) as [Hg _].
  rewrite Hrun in Hg. destruct (gr_datagrams _ _ _ Hg _ _ Hsent) as (d & r & n & Hin & Ha).
  destruct (gr_granted _ _ _ Hg _ Hin) as [(p & Hp & Hi & H1 & H2) (q & Hq & Hd)]. cbn in Hq. simplify_eq.
  exists d, r, n, p. split_and!; try done. by destruct Ha as [->| ->].
Qed.

(** ** A history *)

Definition demo_config : HostTransportConfig := HostTransportConfig_loopback (lit "party").
Definition demo_remote : SocketAddr := mkSocketAddr LOCALHOST 40000.
Definition demo_join : ProtocolFrame :=
  FControl (CJoinRequest (mkJoinRequest (lit "party") (mkDeviceIdentity (lit "phone") (lit "Phone")) None 5001 5002)).

(** A listener connects, asks to join and leaves. *)
Definition demo_connects : list worker_act := [AcceptLen; AcceptPending demo_remote 9 10; AcceptAnnounce 10; AcceptSpawned].
Definition demo_leaves : list worker_act := [ReaderEnds 1 None 30; ReaderExit 1 30; ReaderExit 1 30; ReaderExit 1 30].

Definition demo_run (acts : list worker_act) : Host :=
  sys_host (sys_run (t := Target64) (map SysWorker acts) (sys_start (bound demo_config [] [] [] []))).

(** The listener's disconnection can reach the application before the last
    message it sent: [recv_event] finds the queue empty, the reader then queues
    the join request, leaves and reports, and the mailbox is looked at next. *)
Lemma terminal_can_overtake_last_frame :
  h_taken (demo_run (demo_connects ++ [AppStep; AppStep; ReaderFrame 1 demo_join 60 20 None] ++ demo_leaves
                       ++ [AppStep; AppStep]))
  = let peer := mkTransportPeer (Some (lit "phone")) demo_remote in
    [PeerAccepted (mkTransportPeer None demo_remote) 10; PeerDisconnected peer None 30;
     FrameReceived ChControl peer demo_join 20].
Proof. vm_compute. reflexivity. Qed.

Lemma no_disconnect_is_lost_witness :
  let h := demo_run (demo_connects ++ [ReaderFrame 1 demo_join 60 20 None] ++ demo_leaves) in
  h.(h_readers) !! 1 = Some Reported /\ exists p error at_ms,
    h.(h_heap) !! 1 = Some p /\ PeerDisconnected (transport_peer p) error at_ms ∈ h.(h_taken) ++ h.(h_mailbox).
Proof.
  split; [vm_compute; reflexivity|].
  destruct (no_disconnect_is_lost (t := Target64) demo_config [] [] [] []
    (map SysWorker (demo_connects ++ [ReaderFrame 1 demo_join 60 20 None] ++ demo_leaves)) _ eq_refl
    ltac:(vm_compute; discriminate) eq_refl) as (_ & _ & H).
  apply (H 1 Reported); [vm_compute; reflexivity|by left].
Defined.

(** The listener is admitted and hears the host. *)
Definition demo_routes : ListenerDatagramRoutes :=
  mkListenerDatagramRoutes (mkSocketAddr LOCALHOST 5001) (mkSocketAddr LOCALHOST 5002).
Definition demo_audio : ProtocolFrame :=
  FAudio (mkAudioDatagram (lit "party") (lit "stream") 0 PcmS16Le 48000 2 480 0 1000 (replicate 1920 7)).
Definition demo_admitted : list sys_act :=
  map SysWorker (demo_connects ++ [ReaderFrame 1 demo_join 60 20 None])
  ++ [SysSelect (lit "phone") demo_routes; SysAuthorize 0 (replicate 30 []);
      SysOp (OpAudio demo_audio) (replicate 30 [])].
Definition demo_system : System := sys_run (t := Target64) demo_admitted (sys_start (bound demo_config [] [] [] [])).

Lemma datagrams_reach_admitted_listeners_witness :
  h_datagrams (sys_host demo_system) = [(mkSocketAddr LOCALHOST 5002, demo_audio)]
  /\ exists d r n p, (d, r, n) ∈ sys_granted demo_system /\ h_heap (sys_host demo_system) !! n = Some p
       /\ p.(ps_identity) = Some d.
Proof.
  assert (h_datagrams (sys_host demo_system) = [(mkSocketAddr LOCALHOST 5002, demo_audio)]) as E
    by (vm_compute; reflexivity).
  split; [exact E|].
  destruct (datagrams_reach_admitted_listeners (t := Target64) demo_config [] [] [] [] demo_admitted demo_system
    (mkSocketAddr LOCALHOST 5002) demo_audio eq_refl ltac:(vm_compute; discriminate) eq_refl)
    as (d & r & n & p & H1 & _ & H2 & H3 & _).
  - rewrite E. apply list_elem_of_here.
  - exists d, r, n, p. split; [exact H1|split; [exact H2|exact H3]].
Defined.
