(* ===== verification/HostQueue.v ===== *)
(** The host playlist (src/rust/silent-disco-core/src/runtime/playlist.rs):
    an ordered queue of at most 100 entries with the current item in front,
    edited under optimistic revisions, each operation all-or-nothing. *)
From Stdlib Require Import ZArith Lia Strings.String.
From stdpp Require Import numbers list prelude.
From S2P Require Import Prelude Utf8 Domain Decimal RuntimeTypes.

Definition MAX_HOST_QUEUE_ENTRIES : Z := 100.
Definition MAX_HOST_QUEUE_SOURCE_BYTES : Z := 16 * 1024 * 1024 * 1024.
Definition MAX_QUEUE_ENTRY_ID_BYTES : Z := 128.
(** [crate::audio::MAX_SOURCE_BYTES]. *)
Definition MAX_SOURCE_BYTES : Z := 8 * 1024 * 1024 * 1024.

Inductive HostQueueError : Type :=
| InvalidEntryId
| DuplicateEntryId
| CapacityExceeded
| SourceCapacityExceeded
| InconsistentSourceMetadata
| InvalidOrder
| CurrentEntryLocked
| EntryNotFound
| StaleRevision (expected current : Z)
| RevisionExhausted.

(** [impl Display for HostQueueError]. *)
Definition queue_error_text (e : HostQueueError) : rstr :=
  match e with
  | InvalidEntryId => lit "queue entry ID is invalid"
  | DuplicateEntryId => lit "queue entry ID already exists"
  | CapacityExceeded => lit "host queue is at its entry limit"
  | SourceCapacityExceeded => lit "host queue sources exceed the total size limit"
  | InconsistentSourceMetadata => lit "queue entries disagree about a shared source"
  | InvalidOrder => lit "queue order does not match its entries"
  | CurrentEntryLocked => lit "the current queue entry is locked"
  | EntryNotFound => lit "queue entry was not found"
  | StaleRevision expected current =>
      lit "queue revision changed (expected " ++ to_decimal expected
      ++ lit ", current " ++ to_decimal current ++ lit ")"
  | RevisionExhausted => lit "queue revision is exhausted"
  end.

Record QueueEntry : Type := mkQueueEntry {
  entry_id : rstr;
  entry_source : AudioSourceDescriptor
}.

#[export] Instance QueueEntry_eq_dec : EqDecision QueueEntry.
Proof. solve_decision. Defined.

Definition QueueEntry_new (id : rstr) (source : AudioSourceDescriptor)
    : result QueueEntry HostQueueError :=
  if bool_decide (id = []) || (MAX_QUEUE_ENTRY_ID_BYTES <? str_len id)
     || negb (bool_decide (trim id = id)) || existsb is_control id
  then Err InvalidEntryId
  else Ok (mkQueueEntry id source).

Record HostQueue : Type := mkHostQueue {
  entries : list QueueEntry;
  queue_revision : Z
}.

Definition HostQueue_default : HostQueue := mkHostQueue [] 0.

Definition queue_current (q : HostQueue) : option QueueEntry := head q.(entries).

(** [self.entries.get(1..).unwrap_or_default()]. *)
Definition upcoming (q : HostQueue) : list QueueEntry := tail q.(entries).

Definition check_revision (q : HostQueue) (expected : Z) : result unit HostQueueError :=
  if expected =? q.(queue_revision) then Ok tt
  else Err (StaleRevision expected q.(queue_revision)).

Definition next_revision (q : HostQueue) : result Z HostQueueError :=
  ok_or (checked_add u64_max q.(queue_revision) 1) RevisionExhausted.

(** ** Source accounting

    [sources] is the vector of distinct source identifiers seen so far with
    the byte length first recorded for each. *)

Definition source_key (e : QueueEntry) : rstr * option Z :=
  (e.(entry_source).(source_id), e.(entry_source).(byte_length)).

(** One step of the loops that fill [sources]. *)
Definition note_source (sources : list (rstr * option Z)) (e : QueueEntry)
    : result (list (rstr * option Z)) HostQueueError :=
  match List.find (fun known => bool_decide (known.1 = e.(entry_source).(source_id))) sources with
  | Some (_, known_size) =>
      if negb (bool_decide (known_size = e.(entry_source).(byte_length)))
      then Err InconsistentSourceMetadata
      else Ok sources
  | None => Ok (sources ++ [source_key e])
  end.

Fixpoint collect_sources (sources : list (rstr * option Z)) (es : list QueueEntry)
    : result (list (rstr * option Z)) HostQueueError :=
  match es with
  | [] => Ok sources
  | e :: es' => let? sources := note_source sources e in collect_sources sources es'
  end.

Definition source_size (source : rstr * option Z) : Z := default MAX_SOURCE_BYTES source.2.

(** [sources.iter().try_fold(0_u64, ...)]. *)
Fixpoint try_total (total : Z) (sources : list (rstr * option Z)) : option Z :=
  match sources with
  | [] => Some total
  | source :: rest =>
      match checked_add u64_max total (source_size source) with
      | Some total => try_total total rest
      | None => None
      end
  end.

Definition validate_source_total (sources : list (rstr * option Z)) : result unit HostQueueError :=
  match try_total 0 sources with
  | Some total =>
      if MAX_HOST_QUEUE_SOURCE_BYTES <? total then Err SourceCapacityExceeded else Ok tt
  | None => Err SourceCapacityExceeded
  end.

(** ** Operations

    Every operation validates completely before it assigns, so an error leaves
    [self] as it was: the result carries the new queue only on success. *)

(** The second loop of [append], over the new entries. *)
Fixpoint append_scan (ids : list rstr) (sources : list (rstr * option Z)) (es : list QueueEntry)
    : result (list (rstr * option Z)) HostQueueError :=
  match es with
  | [] => Ok sources
  | e :: es' =>
      if bool_decide (e.(entry_id) ∈ ids) then Err DuplicateEntryId
      else
        let? sources := note_source sources e in
        append_scan (ids ++ [e.(entry_id)]) sources es'
  end.

Definition append (q : HostQueue) (expected_revision : Z) (new_entries : list QueueEntry)
    : result HostQueue HostQueueError :=
  let? _ := check_revision q expected_revision in
  if bool_decide (new_entries = []) then Ok q
  else if MAX_HOST_QUEUE_ENTRIES <? len q.(entries) + len new_entries then Err CapacityExceeded
  else
    let? sources := collect_sources [] q.(entries) in
    let? sources := append_scan (map entry_id q.(entries)) sources new_entries in
    let? _ := validate_source_total sources in
    let? revision := next_revision q in
    Ok (mkHostQueue (q.(entries) ++ new_entries) revision).

(** [for (index, entry) in entries.iter().enumerate()], comparing with [entries[..index]]. *)
Fixpoint duplicate_id_scan (previous es : list QueueEntry) : result unit HostQueueError :=
  match es with
  | [] => Ok tt
  | e :: es' =>
      if existsb (fun p => bool_decide (p.(entry_id) = e.(entry_id))) previous
      then Err DuplicateEntryId
      else duplicate_id_scan (previous ++ [e]) es'
  end.

Definition replace_all (q : HostQueue) (expected_revision : Z) (new_entries : list QueueEntry)
    : result HostQueue HostQueueError :=
  let? _ := check_revision q expected_revision in
  if MAX_HOST_QUEUE_ENTRIES <? len new_entries then Err CapacityExceeded
  else
    let? _ := duplicate_id_scan [] new_entries in
    let? sources := collect_sources [] new_entries in
    let? _ := validate_source_total sources in
    if bool_decide (new_entries = q.(entries)) then Ok q
    else
      let? revision := next_revision q in
      Ok (mkHostQueue new_entries revision).

(** [iter().position(f)]. *)
Fixpoint position {A : Type} (f : A -> bool) (l : list A) : option nat :=
  match l with
  | [] => None
  | x :: l' => if f x then Some O else option_map S (position f l')
  end.

(** The loop of [reorder]; [reordered] is the vector built so far. *)
Fixpoint reorder_scan (current : list QueueEntry) (reordered : list QueueEntry) (ids : list rstr)
    : result (list QueueEntry) HostQueueError :=
  match ids with
  | [] => Ok reordered
  | id :: ids' =>
      match position (fun e => bool_decide (e.(entry_id) = id)) current with
      | None => Err InvalidOrder
      | Some index =>
          if existsb (fun e => bool_decide (e.(entry_id) = id)) reordered then Err InvalidOrder
          else match current !! index with
          | Some e => reorder_scan current (reordered ++ [e]) ids'
          | None => Err InvalidOrder
          end
      end
  end.

Definition reorder (q : HostQueue) (expected_revision : Z) (ordered_entry_ids : list rstr)
    (current_locked : bool) : result HostQueue HostQueueError :=
  let? _ := check_revision q expected_revision in
  if negb (len ordered_entry_ids =? len q.(entries)) then Err InvalidOrder
  else if current_locked
          && match queue_current q with
             | Some current => negb (bool_decide (head ordered_entry_ids = Some current.(entry_id)))
             | None => false
             end
  then Err CurrentEntryLocked
  else
    let? reordered := reorder_scan q.(entries) [] ordered_entry_ids in
    if bool_decide (reordered = q.(entries)) then Ok q
    else
      let? revision := next_revision q in
      Ok (mkHostQueue reordered revision).

Definition remove (q : HostQueue) (expected_revision : Z) (id : rstr) (current_locked : bool)
    : result HostQueue HostQueueError :=
  let? _ := check_revision q expected_revision in
  match position (fun e => bool_decide (e.(entry_id) = id)) q.(entries) with
  | None => Err EntryNotFound
  | Some index =>
      if current_locked && (index =? 0)%nat then Err CurrentEntryLocked
      else
        let? revision := next_revision q in
        Ok (mkHostQueue (delete index q.(entries)) revision)
  end.

Definition complete_current (q : HostQueue) (expected_revision : Z)
    : result HostQueue HostQueueError :=
  let? _ := check_revision q expected_revision in
  if bool_decide (q.(entries) = []) then Err EntryNotFound
  else
    let? revision := next_revision q in
    Ok (mkHostQueue (delete 0%nat q.(entries)) revision).

Definition clear (q : HostQueue) (expected_revision : Z) (current_locked : bool)
    : result HostQueue HostQueueError :=
  let? _ := check_revision q expected_revision in
  let retained := if current_locked && negb (bool_decide (q.(entries) = [])) then 1%nat else O in
  if (length q.(entries) =? retained)%nat then Ok q
  else
    let? revision := next_revision q in
    Ok (mkHostQueue (take retained q.(entries)) revision).

(** ** The queue invariant *)

(** A [u64] byte length. *)
Definition entry_ok (e : QueueEntry) : Prop :=
  match e.(entry_source).(byte_length) with Some n => is_u64 n | None => True end.

(** Entries of one source agree about its size. *)
Definition sources_consistent (es : list QueueEntry) : Prop :=
  forall e1 e2, e1 ∈ es -> e2 ∈ es ->
    e1.(entry_source).(source_id) = e2.(entry_source).(source_id) ->
    e1.(entry_source).(byte_length) = e2.(entry_source).(byte_length).

Definition sum_sizes (sources : list (rstr * option Z)) : Z :=
  foldr (fun source total => source_size source + total) 0 sources.

(** The total size of the distinct sources; a source of unknown length counts
    as the largest source the decoder accepts. *)
Definition source_total (es : list QueueEntry) : Z :=
  sum_sizes (remove_dups (map source_key es)).

(** What the entries of a queue promise. *)
Record entries_wf (es : list QueueEntry) : Prop := mkEntriesWf {
  wf_capacity : len es <= MAX_HOST_QUEUE_ENTRIES;
  wf_ids : NoDup (map entry_id es);
  wf_consistent : sources_consistent es;
  wf_total : source_total es <= MAX_HOST_QUEUE_SOURCE_BYTES;
  wf_entries : Forall entry_ok es
}.

Definition queue_wf (q : HostQueue) : Prop := entries_wf q.(entries) /\ is_u64 q.(queue_revision).

(** ** Source accounting lemmas *)

Definition size_ok (source : rstr * option Z) : Prop := 0 <= source_size source.

Lemma source_key_ok (e : QueueEntry) : entry_ok e -> size_ok (source_key e).
Proof.
  unfold entry_ok, size_ok, source_size, source_key. simpl.
  destruct (byte_length _); simpl; [unfold is_u64, is_uint; lia|]. intros _. done.
Qed.

Lemma source_keys_ok (es : list QueueEntry) : Forall entry_ok es -> Forall size_ok (map source_key es).
Proof. intros H. apply Forall_map. eapply Forall_impl; [exact H|apply source_key_ok]. Qed.

Lemma sum_sizes_nonneg (l : list (rstr * option Z)) : Forall size_ok l -> 0 <= sum_sizes l.
Proof. unfold size_ok. induction 1; simpl; lia. Qed.

Lemma sum_sizes_app (l k : list (rstr * option Z)) : sum_sizes (l ++ k) = sum_sizes l + sum_sizes k.
Proof. induction l as [|x l IH]; simpl; [done|]. rewrite IH. lia. Qed.

Lemma sum_sizes_perm (l k : list (rstr * option Z)) : l ≡ₚ k -> sum_sizes l = sum_sizes k.
Proof. induction 1; simpl; lia. Qed.

Lemma sum_sizes_submseteq (l k : list (rstr * option Z)) :
  l ⊆+ k -> Forall size_ok k -> sum_sizes l <= sum_sizes k.
Proof.
  intros Hsub Hk. apply submseteq_Permutation in Hsub as [m Hm].
  rewrite (sum_sizes_perm k (l ++ m)) by done. rewrite Hm in Hk.
  apply Forall_app in Hk as [_ Hm']. rewrite sum_sizes_app.
  pose proof (sum_sizes_nonneg m Hm'). lia.
Qed.

(** Dropping or reordering entries does not raise the total. *)
Lemma source_total_mono (es es' : list QueueEntry) :
  (forall e, e ∈ es -> e ∈ es') -> Forall entry_ok es' -> source_total es <= source_total es'.
Proof.
  intros Hsub Hok. unfold source_total. apply sum_sizes_submseteq.
  - apply NoDup_submseteq; [apply NoDup_remove_dups|]. intros k.
    rewrite !elem_of_remove_dups. intros (e & -> & He)%list_elem_of_fmap.
    apply list_elem_of_fmap. eauto.
  - apply source_keys_ok in Hok. rewrite Forall_forall in Hok |- *. intros k Hk.
    apply Hok. by apply elem_of_remove_dups.
Qed.

Lemma try_total_Some (total : Z) (l : list (rstr * option Z)) :
  Forall size_ok l -> total + sum_sizes l <= u64_max -> try_total total l = Some (total + sum_sizes l).
Proof.
  intros Hl. revert total. induction Hl as [|x l Hx Hl IH]; intros total Ht; simpl in *.
  - by rewrite Z.add_0_r.
  - pose proof (sum_sizes_nonneg l Hl). unfold size_ok in Hx. unfold checked_add.
    rewrite (proj2 (Z.leb_le _ _)) by lia. rewrite IH by lia. f_equal. lia.
Qed.

Lemma try_total_value (total t : Z) (l : list (rstr * option Z)) :
  try_total total l = Some t -> t = total + sum_sizes l.
Proof.
  revert total. induction l as [|x l IH]; intros total; simpl; [intros [= <-]; lia|].
  unfold checked_add. destruct (_ <=? _); [|done]. intros H%IH. lia.
Qed.

Lemma validate_source_total_ok (l : list (rstr * option Z)) :
  Forall size_ok l ->
  validate_source_total l = Ok tt <-> sum_sizes l <= MAX_HOST_QUEUE_SOURCE_BYTES.
Proof.
  intros Hl. unfold validate_source_total. split.
  - destruct (try_total 0 l) as [t|] eqn:E; [|done]. apply try_total_value in E as ->.
    destruct (_ <? _) eqn:El; [done|]. to_prop. intros _. lia.
  - intros H. rewrite try_total_Some; [| done |].
    + rewrite (proj2 (Z.ltb_ge _ _)) by lia. done.
    + unfold MAX_HOST_QUEUE_SOURCE_BYTES, u64_max in *. lia.
Qed.

(** [find] by identifier in a list that has each identifier once. *)
Lemma find_source (sources : list (rstr * option Z)) (id : rstr) :
  match List.find (fun known => bool_decide (known.1 = id)) sources with
  | Some known => known ∈ sources /\ known.1 = id
  | None => id ∉ map fst sources
  end.
Proof.
  induction sources as [|k sources IH]; simpl; [apply not_elem_of_nil|].
  case_bool_decide as E; [split; [constructor|done]|].
  destruct (List.find _ sources) as [known|].
  - destruct IH. split; [by constructor|done].
  - rewrite not_elem_of_cons. done.
Qed.

(** What collecting the sources of [es] into [sources] decides: it succeeds
    exactly when nothing disagrees, with the distinct sources of both. *)
Definition keys_agree (ks : list (rstr * option Z)) : Prop :=
  forall k1 k2, k1 ∈ ks -> k2 ∈ ks -> k1.1 = k2.1 -> k1 = k2.

Lemma keys_agree_mono (ks ks' : list (rstr * option Z)) :
  (forall k, k ∈ ks -> k ∈ ks') -> keys_agree ks' -> keys_agree ks.
Proof. intros Hsub H k1 k2 H1 H2. apply H; by apply Hsub. Qed.

Lemma note_source_ok (sources sources' : list (rstr * option Z)) (e : QueueEntry) :
  NoDup (map fst sources) -> note_source sources e = Ok sources' ->
  NoDup (map fst sources') /\ (forall k, k ∈ sources' <-> k ∈ sources \/ k = source_key e).
Proof.
  intros Hnd. unfold note_source.
  pose proof (find_source sources (source_id (entry_source e))) as Hf.
  destruct (List.find _ sources) as [[id n]|].
  - destruct Hf as [Hin Hid]. simpl in Hid. case_bool_decide as E; [|done].
    intros [= <-]. split; [done|]. intros k. split; [by left|]. intros [?| ->]; [done|].
    unfold source_key. by rewrite <- E, <- Hid.
  - intros [= <-]. split.
    + rewrite map_app. apply NoDup_app. split_and!; [done| |apply NoDup_singleton].
      intros x Hx ->%list_elem_of_singleton. by apply Hf.
    + intros k. rewrite elem_of_app, list_elem_of_singleton. done.
Qed.

Lemma collect_sources_ok (es : list QueueEntry) (sources sources' : list (rstr * option Z)) :
  NoDup (map fst sources) -> collect_sources sources es = Ok sources' ->
  NoDup (map fst sources')
  /\ (forall k, k ∈ sources' <-> k ∈ sources \/ k ∈ map source_key es).
Proof.
  revert sources. induction es as [|e es IH]; intros sources Hnd; simpl.
  - intros [= <-]. split; [done|]. intros k. rewrite elem_of_nil. tauto.
  - destruct (note_source sources e) as [s1|] eqn:E; [|done].
    apply note_source_ok in E as [Hnd1 Hs1]; [|done]. intros H.
    apply IH in H as [Hnd' Hs']; [|done]. split; [done|]. intros k.
    rewrite Hs', Hs1, elem_of_cons. tauto.
Qed.

Lemma note_source_complete (sources : list (rstr * option Z)) (e : QueueEntry) :
  (forall k, k ∈ sources -> k.1 = (source_key e).1 -> k = source_key e) ->
  exists sources', note_source sources e = Ok sources'.
Proof.
  intros H. unfold note_source.
  pose proof (find_source sources (source_id (entry_source e))) as Hf.
  destruct (List.find _ sources) as [[id n]|]; [|eauto].
  destruct Hf as [Hin Hid]. specialize (H _ Hin Hid). unfold source_key in H.
  injection H as _ ->. rewrite bool_decide_true by done. simpl. eauto.
Qed.

Lemma collect_sources_complete (es : list QueueEntry) (sources : list (rstr * option Z)) :
  NoDup (map fst sources) -> keys_agree (sources ++ map source_key es) ->
  exists sources', collect_sources sources es = Ok sources'.
Proof.
  revert sources. induction es as [|e es IH]; intros sources Hnd Hag; simpl; [eauto|].
  destruct (note_source_complete sources e) as [s1 E].
  { intros k Hk Hid. apply Hag; [apply elem_of_app; by left| |done].
    apply elem_of_app. right. constructor. }
  rewrite E. apply note_source_ok in E as [Hnd1 Hs1]; [|done]. apply IH; [done|].
  eapply keys_agree_mono; [|exact Hag]. intros k. simpl.
  rewrite !elem_of_app, Hs1, elem_of_cons. tauto.
Qed.

Lemma keys_agree_consistent (es : list QueueEntry) :
  keys_agree (map source_key es) <-> sources_consistent es.
Proof.
  unfold keys_agree, sources_consistent, source_key. split.
  - intros H e1 e2 H1 H2 Hid.
    specialize (H (source_key e1) (source_key e2)
                  (list_elem_of_fmap_2 source_key es e1 H1)
                  (list_elem_of_fmap_2 source_key es e2 H2) Hid).
    by injection H.
  - intros H k1 k2 (e1 & -> & H1)%list_elem_of_fmap (e2 & -> & H2)%list_elem_of_fmap. simpl.
    intros Hid. by rewrite Hid, (H e1 e2).
Qed.

Lemma collect_sources_total (es : list QueueEntry) (sources : list (rstr * option Z)) :
  collect_sources [] es = Ok sources -> sum_sizes sources = source_total es.
Proof.
  intros H. apply collect_sources_ok in H as [Hnd Hs]; [|constructor]. unfold source_total.
  apply sum_sizes_perm, NoDup_Permutation; [by apply NoDup_fmap_1 in Hnd|apply NoDup_remove_dups|].
  intros k. rewrite Hs, elem_of_remove_dups, elem_of_nil. tauto.
Qed.

Lemma collect_sources_size_ok (es : list QueueEntry) (sources : list (rstr * option Z)) :
  Forall entry_ok es -> collect_sources [] es = Ok sources -> Forall size_ok sources.
Proof.
  intros Hes H. apply collect_sources_ok in H as [_ Hs]; [|constructor].
  apply source_keys_ok in Hes. rewrite Forall_forall in Hes |- *. intros k Hk. apply Hes.
  apply Hs in Hk as [Hk|Hk]; [by apply elem_of_nil in Hk|done].
Qed.

(** The two checks on sources together: every entry agrees, and the distinct
    sources fit. *)
Lemma accounting_exact (es : list QueueEntry) :
  Forall entry_ok es ->
  (let? sources := collect_sources [] es in validate_source_total sources) = Ok tt
  <-> sources_consistent es /\ source_total es <= MAX_HOST_QUEUE_SOURCE_BYTES.
Proof.
  intros Hok. split.
  - destruct (collect_sources [] es) as [s|] eqn:E; [|done]. intros H.
    pose proof (collect_sources_size_ok _ _ Hok E) as Hs.
    apply validate_source_total_ok in H; [|done].
    rewrite <- (collect_sources_total _ _ E). split; [|done].
    apply collect_sources_ok in E as [Hnd Hk]; [|constructor].
    apply keys_agree_consistent. intros k1 k2 H1 H2 Hid.
    assert (k1 ∈ s /\ k2 ∈ s) as [H1' H2'] by (split; apply Hk; by right).
    apply list_elem_of_lookup in H1' as [i Hi], H2' as [j Hj].
    assert (i = j) as ->; [|congruence].
    eapply NoDup_lookup; [exact Hnd| |]; rewrite list_lookup_fmap; [by rewrite Hi|].
    rewrite Hj. simpl. by rewrite Hid.
  - intros [Hc Ht]. destruct (collect_sources_complete es []) as [s E]; [constructor| |].
    { by apply keys_agree_consistent. }
    rewrite E. apply validate_source_total_ok; [by eapply collect_sources_size_ok|].
    by rewrite (collect_sources_total _ _ E).
Qed.

Lemma collect_sources_app (es1 es2 : list QueueEntry) (sources : list (rstr * option Z)) :
  collect_sources sources (es1 ++ es2)
  = (let? sources := collect_sources sources es1 in collect_sources sources es2).
Proof.
  revert sources. induction es1 as [|e es1 IH]; intros sources; simpl; [done|].
  destruct (note_source sources e); [apply IH|done].
Qed.

(** ** Identifier scans *)

Lemma append_scan_exact (ids : list rstr) (sources s : list (rstr * option Z))
    (es : list QueueEntry) :
  NoDup ids ->
  append_scan ids sources es = Ok s
  <-> collect_sources sources es = Ok s /\ NoDup (ids ++ map entry_id es).
Proof.
  revert ids sources. induction es as [|e es IH]; intros ids sources Hnd; simpl.
  - rewrite app_nil_r. tauto.
  - case_bool_decide as Hin.
    + split; [done|]. intros [_ H]. apply NoDup_app in H as (_ & H & _). exfalso.
      by apply (H (entry_id e)); [|constructor].
    + destruct (note_source sources e) as [s1|]; [|intuition discriminate].
      assert (NoDup (ids ++ [entry_id e])) as Hnd'.
      { apply NoDup_app. split_and!; [done| |apply NoDup_singleton].
        intros x Hx ->%list_elem_of_singleton. done. }
      rewrite IH by done. by rewrite <- (assoc_L (++)).
Qed.

(** [iter().any(|p| p.entry_id == id)]. *)
Lemma existsb_entry_id (l : list QueueEntry) (id : rstr) :
  existsb (fun p => bool_decide (entry_id p = id)) l = true <-> id ∈ map entry_id l.
Proof.
  rewrite existsb_exists. split.
  - intros (p & Hp & <-%bool_decide_eq_true). by apply list_elem_of_fmap_2, list_elem_of_In.
  - intros (p & -> & Hp)%list_elem_of_fmap. exists p. rewrite <- list_elem_of_In.
    split; [done|]. by apply bool_decide_eq_true.
Qed.

Lemma NoDup_snoc_id (l : list QueueEntry) (e : QueueEntry) :
  NoDup (map entry_id l) -> entry_id e ∉ map entry_id l -> NoDup (map entry_id (l ++ [e])).
Proof.
  intros Hl He. rewrite map_app. apply NoDup_app. split_and!; [done| |apply NoDup_singleton].
  intros x Hx ->%list_elem_of_singleton. done.
Qed.

Lemma duplicate_id_scan_exact (previous es : list QueueEntry) :
  NoDup (map entry_id previous) ->
  duplicate_id_scan previous es = Ok tt <-> NoDup (map entry_id (previous ++ es)).
Proof.
  revert previous. induction es as [|e es IH]; intros previous Hnd; simpl.
  - by rewrite app_nil_r.
  - pose proof (existsb_entry_id previous (entry_id e)) as Hex.
    destruct (existsb _ previous).
    + split; [done|]. rewrite map_app, NoDup_app. intros (_ & H & _). exfalso.
      apply (H (entry_id e)); [by apply Hex|]. simpl. constructor.
    + assert (NoDup (map entry_id (previous ++ [e]))) as Hnd'.
      { apply NoDup_snoc_id; [done|]. by intros ?%Hex. }
      rewrite IH by done. by rewrite <- (assoc_L (++)).
Qed.

Lemma position_spec (f : QueueEntry -> bool) (l : list QueueEntry) :
  match position f l with
  | Some i => exists e, l !! i = Some e /\ f e = true
  | None => forall e, e ∈ l -> f e = false
  end.
Proof.
  induction l as [|x l IH]; simpl; [intros e He; by apply elem_of_nil in He|].
  destruct (f x) eqn:E; [by exists x|]. destruct (position f l) as [i|]; simpl.
  - done.
  - intros e [->|He]%elem_of_cons; auto.
Qed.

(** The scan succeeds exactly when every identifier names an entry and none
    occurs twice; it then returns the named entries in the requested order. *)
Lemma reorder_scan_exact (current reordered r : list QueueEntry) (ids : list rstr) :
  NoDup (map entry_id current) -> NoDup (map entry_id reordered) ->
  reorder_scan current reordered ids = Ok r
  <-> exists picks, r = reordered ++ picks /\ map entry_id picks = ids
        /\ (forall p, p ∈ picks -> p ∈ current) /\ NoDup (map entry_id (reordered ++ picks)).
Proof.
  intros Hc. revert reordered. induction ids as [|id ids IH]; intros reordered Hr; simpl.
  - split.
    + intros [= <-]. exists []. rewrite app_nil_r. split_and!; [done|done| |done].
      intros p Hp. by apply elem_of_nil in Hp.
    + intros (picks & -> & Hp & _). apply map_eq_nil in Hp as ->. by rewrite app_nil_r.
  - pose proof (position_spec (fun e => bool_decide (entry_id e = id)) current) as Hpos.
    destruct (position _ current) as [i|].
    + destruct Hpos as (e & Hi & <-%bool_decide_eq_true).
      pose proof (existsb_entry_id reordered (entry_id e)) as Hex.
      destruct (existsb _ reordered).
      * split; [done|]. intros ([|p picks] & -> & Hp & _ & Hnd); [done|].
        simpl in Hp. injection Hp as Hp _. exfalso. rewrite map_app in Hnd.
        apply NoDup_app in Hnd as (_ & Hnd & _). apply (Hnd (entry_id e)); [by apply Hex|].
        simpl. rewrite Hp. constructor.
      * rewrite Hi. assert (NoDup (map entry_id (reordered ++ [e]))) as Hr'.
        { apply NoDup_snoc_id; [done|]. by intros ?%Hex. }
        rewrite IH by done. split.
        -- intros (picks & -> & Hp & Hin & Hnd). exists (e :: picks).
           rewrite <- (assoc_L (++)) in Hnd |- *. split_and!; [done|simpl; congruence| |done].
           intros p [->|?]%elem_of_cons; [by eapply list_elem_of_lookup_2|auto].
        -- intros ([|p picks] & -> & Hp & Hin & Hnd); [done|]. simpl in Hp.
           injection Hp as Hp Hps. assert (p = e) as ->.
           { assert (p ∈ current) as [j Hj]%list_elem_of_lookup by (apply Hin; constructor).
             assert (i = j) as ->; [|congruence].
             eapply NoDup_lookup; [exact Hc| |]; rewrite list_lookup_fmap; [by rewrite Hi|].
             rewrite Hj. simpl. by rewrite Hp. }
           exists picks. rewrite <- (assoc_L (++)). split_and!; try done.
           intros p Hp'. apply Hin. by constructor.
    + split; [done|]. intros ([|p picks] & -> & Hp & Hin & _); [done|]. simpl in Hp.
      injection Hp as Hp _. specialize (Hpos p (Hin p ltac:(constructor))).
      apply bool_decide_eq_false in Hpos. done.
Qed.

(** ** Operations preserve the invariant *)

Lemma entries_wf_sub (es es' : list QueueEntry) :
  entries_wf es' -> NoDup (map entry_id es) -> (forall e, e ∈ es -> e ∈ es') -> len es <= len es' ->
  entries_wf es.
Proof.
  intros [H1 H2 H3 H4 H5] Hnd Hsub Hlen. split.
  - lia.
  - done.
  - intros e1 e2 He1 He2. apply H3; auto.
  - etrans; [by apply source_total_mono|done].
  - rewrite Forall_forall in H5 |- *. auto.
Qed.

Lemma entries_wf_sublist (es es' : list QueueEntry) :
  entries_wf es' -> es `sublist_of` es' -> entries_wf es.
Proof.
  intros Hwf Hsub. eapply entries_wf_sub; [exact Hwf| | |].
  - eapply sublist_NoDup; [by apply wf_ids|]. by apply fmap_sublist.
  - intros e He. by eapply elem_of_submseteq, sublist_submseteq.
  - apply sublist_length in Hsub. unfold len. lia.
Qed.

Lemma entries_wf_perm (es es' : list QueueEntry) :
  entries_wf es' -> es ≡ₚ es' -> entries_wf es.
Proof.
  intros Hwf Hp. eapply entries_wf_sub; [exact Hwf| | |].
  - rewrite Hp. by apply wf_ids.
  - intros e. by rewrite Hp.
  - unfold len. by rewrite Hp.
Qed.

Lemma entries_wf_exact (es : list QueueEntry) :
  Forall entry_ok es ->
  entries_wf es <-> len es <= MAX_HOST_QUEUE_ENTRIES /\ NoDup (map entry_id es)
    /\ (let? sources := collect_sources [] es in validate_source_total sources) = Ok tt.
Proof.
  intros Hok. rewrite accounting_exact by done. split; [intros []|intros (? & ? & ? & ?)]; by split.
Qed.

Lemma check_revision_ok (q : HostQueue) (r : Z) :
  check_revision q r = Ok tt <-> r = q.(queue_revision).
Proof. unfold check_revision. destruct (_ =? _) eqn:E; to_prop; split; congruence. Qed.

Lemma next_revision_ok (q : HostQueue) (r : Z) :
  next_revision q = Ok r <-> r = q.(queue_revision) + 1 /\ q.(queue_revision) < u64_max.
Proof.
  unfold next_revision, checked_add. destruct (_ <=? _) eqn:E; simpl; to_prop.
  - split; [intros [= <-]; lia|]. by intros [-> _].
  - split; [done|]. lia.
Qed.

(** Every operation of the queue with its arguments, as the callers issue them. *)
Inductive QueueOp : Type :=
| OpAppend (expected : Z) (new_entries : list QueueEntry)
| OpReplaceAll (expected : Z) (new_entries : list QueueEntry)
| OpReorder (expected : Z) (ids : list rstr) (locked : bool)
| OpRemove (expected : Z) (id : rstr) (locked : bool)
| OpCompleteCurrent (expected : Z)
| OpClear (expected : Z) (locked : bool).

Definition queue_op (q : HostQueue) (op : QueueOp) : result HostQueue HostQueueError :=
  match op with
  | OpAppend expected new_entries => append q expected new_entries
  | OpReplaceAll expected new_entries => replace_all q expected new_entries
  | OpReorder expected ids locked => reorder q expected ids locked
  | OpRemove expected id locked => remove q expected id locked
  | OpCompleteCurrent expected => complete_current q expected
  | OpClear expected locked => clear q expected locked
  end.

Definition op_expected (op : QueueOp) : Z :=
  match op with
  | OpAppend expected _ | OpReplaceAll expected _ | OpReorder expected _ _
  | OpRemove expected _ _ | OpCompleteCurrent expected | OpClear expected _ => expected
  end.

(** The entries an operation brings in are [u64]-sized. *)
Definition op_ok (op : QueueOp) : Prop :=
  match op with
  | OpAppend _ es | OpReplaceAll _ es => Forall entry_ok es
  | _ => True
  end.

(** The queue after an operation: unchanged when it fails. *)
Definition queue_step (q : HostQueue) (op : QueueOp) : HostQueue :=
  match queue_op q op with Ok q' => q' | Err _ => q end.

Definition queue_run (ops : list QueueOp) : HostQueue := fold_left queue_step ops HostQueue_default.

(** *** Acceptance, operation by operation *)

Lemma append_exact (q q' : HostQueue) (r : Z) (es : list QueueEntry) :
  queue_wf q -> Forall entry_ok es ->
  append q r es = Ok q' <->
  r = q.(queue_revision)
  /\ (es = [] /\ q' = q
      \/ es <> [] /\ entries_wf (q.(entries) ++ es) /\ q.(queue_revision) < u64_max
         /\ q' = mkHostQueue (q.(entries) ++ es) (q.(queue_revision) + 1)).
Proof.
  intros [[Hc Hi Hs Ht Hok] _] Hes. unfold append.
  rewrite (entries_wf_exact (_ ++ _)) by (by apply Forall_app).
  rewrite <- check_revision_ok.
  destruct (check_revision q r) as [[]|]; [|intuition discriminate].
  case_bool_decide as Hnil; [naive_solver|].
  rewrite len_app, collect_sources_app, map_app.
  destruct (_ <? _) eqn:El; to_prop; [split; [done|]; intros (_ & [[]|(_ & (Hl & _) & _)]); [done|lia]|].
  destruct (collect_sources [] (entries q)) as [s1|]; [|split; [done|naive_solver]].
  assert (NoDup (map entry_id (entries q) ++ map entry_id es) /\
          (let? sources := collect_sources s1 es in validate_source_total sources) = Ok tt
          <-> (let? sources := append_scan (map entry_id (entries q)) s1 es in
               validate_source_total sources) = Ok tt) as Hscan.
  { split.
    - destruct (collect_sources s1 es) as [s|] eqn:E; [|naive_solver]. intros [Hnd Hv].
      rewrite (proj2 (append_scan_exact _ s1 s es Hi)) by done. done.
    - destruct (append_scan _ s1 es) as [s|] eqn:E; [|done]. intros Hv.
      apply append_scan_exact in E as [-> ?]; done. }
  destruct (append_scan _ s1 es) as [s|]; [|split; [done|]; naive_solver].
  destruct (validate_source_total s) as [[]|]; [|split; [done|]; naive_solver].
  pose proof (next_revision_ok q) as Hr.
  destruct (next_revision q) as [r'|]; simpl.
  - destruct (proj1 (Hr r') eq_refl) as [-> Hlt]. split.
    + intros [= <-]. split; [done|]. right. naive_solver.
    + intros (_ & [[]|(_ & _ & _ & ->)]); done.
  - split; [done|]. intros (_ & [[]|(_ & _ & Hlt & _)]); [done|].
    specialize (proj2 (Hr _) (conj eq_refl Hlt)). done.
Qed.

Lemma replace_all_exact (q q' : HostQueue) (r : Z) (es : list QueueEntry) :
  Forall entry_ok es ->
  replace_all q r es = Ok q' <->
  r = q.(queue_revision) /\ entries_wf es
  /\ (es = q.(entries) /\ q' = q
      \/ es <> q.(entries) /\ q.(queue_revision) < u64_max
         /\ q' = mkHostQueue es (q.(queue_revision) + 1)).
Proof.
  intros Hes. unfold replace_all. rewrite entries_wf_exact by done.
  rewrite <- check_revision_ok.
  destruct (check_revision q r) as [[]|]; [|intuition discriminate].
  destruct (_ <? _) eqn:El; to_prop; [split; [done|]; lia|].
  pose proof (duplicate_id_scan_exact [] es (NoDup_nil_2 (A := rstr))) as Hd. simpl in Hd.
  destruct (duplicate_id_scan [] es) as [[]|]; [|naive_solver].
  destruct (collect_sources [] es) as [s|]; [|naive_solver].
  destruct (validate_source_total s) as [[]|]; [|naive_solver].
  case_bool_decide as Heq; [naive_solver|].
  pose proof (next_revision_ok q) as Hr. destruct (next_revision q) as [r'|]; simpl.
  - destruct (proj1 (Hr r') eq_refl) as [-> Hlt]. naive_solver.
  - split; [done|]. intros (_ & _ & [[]|(_ & Hlt & _)]); [done|].
    specialize (proj2 (Hr _) (conj eq_refl Hlt)). done.
Qed.

(** A scan of as many identifiers as there are entries returns the one
    permutation of the entries in that order, if there is one. *)
Lemma reorder_scan_permutation (current es : list QueueEntry) (ids : list rstr) :
  NoDup (map entry_id current) -> len ids = len current ->
  es ≡ₚ current /\ map entry_id es = ids <-> reorder_scan current [] ids = Ok es.
Proof.
  intros Hc El. rewrite reorder_scan_exact by (done || constructor). split.
  - intros [Hp <-]. exists es. split_and!; [done|done| |].
    + intros p Hin. by rewrite <- Hp.
    + simpl. by rewrite Hp.
  - intros (picks & -> & <- & Hin & Hnd). simpl in *. split; [|done].
    apply submseteq_length_Permutation.
    + apply NoDup_submseteq; [by apply NoDup_fmap_1 in Hnd|done].
    + rewrite len_map in El. unfold len in El. lia.
Qed.

Lemma current_lock_exact (q : HostQueue) (ids : list rstr) (locked : bool) :
  len ids = len q.(entries) ->
  locked && match queue_current q with
            | Some current => negb (bool_decide (head ids = Some (entry_id current)))
            | None => false
            end = false
  <-> (locked = true -> head ids = option_map entry_id (queue_current q)).
Proof.
  intros El. destruct locked; simpl; [|naive_solver].
  destruct (queue_current q) as [c|] eqn:Ec; simpl.
  - case_bool_decide; naive_solver.
  - split; [|done]. intros _ _. unfold queue_current in Ec.
    destruct (entries q); [|done]. destruct ids; [done|]. rewrite len_cons in El.
    pose proof (len_nonneg ids). rewrite (len_nil (A := QueueEntry)) in El. lia.
Qed.

Lemma reorder_exact (q q' : HostQueue) (r : Z) (ids : list rstr) (locked : bool) :
  queue_wf q ->
  reorder q r ids locked = Ok q' <->
  r = q.(queue_revision)
  /\ (locked = true -> head ids = option_map entry_id (queue_current q))
  /\ exists es, es ≡ₚ q.(entries) /\ map entry_id es = ids
     /\ (es = q.(entries) /\ q' = q
         \/ es <> q.(entries) /\ q.(queue_revision) < u64_max
            /\ q' = mkHostQueue es (q.(queue_revision) + 1)).
Proof.
  intros [Hwf _]. unfold reorder. rewrite <- check_revision_ok.
  destruct (check_revision q r) as [[]|]; [|intuition discriminate].
  destruct (len ids =? len (entries q)) eqn:El; to_prop; simpl.
  2: { split; [done|]. intros (_ & _ & es & Hp & <- & _). exfalso. apply El.
       rewrite len_map. unfold len. by rewrite Hp. }
  pose proof (fun es => reorder_scan_permutation (entries q) es ids (wf_ids _ Hwf) El) as Hscan.
  pose proof (current_lock_exact q ids locked El) as Hlock.
  destruct (locked && _); [split; [done|]; naive_solver|].
  destruct (reorder_scan (entries q) [] ids) as [es|].
  2: { split; [done|]. intros (_ & _ & es & Hp & Hid & _).
       specialize (proj1 (Hscan es) (conj Hp Hid)). done. }
  destruct (proj2 (Hscan es) eq_refl) as [Hp Hid].
  assert (forall es', es' ≡ₚ entries q /\ map entry_id es' = ids -> es' = es) as Huniq.
  { intros es' H%Hscan. congruence. }
  case_bool_decide as Heq; [split; naive_solver|].
  pose proof (next_revision_ok q) as Hr. destruct (next_revision q) as [r'|]; simpl.
  - destruct (proj1 (Hr r') eq_refl) as [-> Hlt]. split; [naive_solver|].
    intros (_ & _ & es' & Hp' & Hid' & H). rewrite (Huniq es') in H by done. naive_solver.
  - split; [done|]. intros (_ & _ & es' & Hp' & Hid' & H). rewrite (Huniq es') in H by done.
    destruct H as [[]|(_ & Hlt & _)]; [done|].
    specialize (proj2 (Hr _) (conj eq_refl Hlt)). done.
Qed.

Lemma queue_op_expected (q q' : HostQueue) (op : QueueOp) :
  queue_op q op = Ok q' -> op_expected op = q.(queue_revision).
Proof.
  destruct op; cbn [queue_op op_expected]; unfold append, replace_all, reorder, remove, complete_current,
    clear; intros H; ok_step H; apply check_revision_ok; by destruct value.
Qed.

(** One successful operation: the new queue is well formed, and the revision
    moves by one exactly when the entries change. *)
Lemma queue_op_ok (q q' : HostQueue) (op : QueueOp) :
  queue_wf q -> op_ok op -> queue_op q op = Ok q' ->
  queue_wf q'
  /\ (q' = q \/ q'.(entries) <> q.(entries) /\ q'.(queue_revision) = q.(queue_revision) + 1).
Proof.
  intros Hwf Hok H. destruct Hwf as [Hes Hrev].
  assert (forall es, entries_wf es -> es <> q.(entries) -> q.(queue_revision) < u64_max ->
    q' = mkHostQueue es (q.(queue_revision) + 1) ->
    queue_wf q' /\ (q' = q \/ q'.(entries) <> q.(entries)
                             /\ q'.(queue_revision) = q.(queue_revision) + 1)) as Hstep.
  { intros es H1 H2 H3 ->. split; [split; [done|]|by right]. cbn [queue_revision].
    unfold is_u64, is_uint, u64_max in *. change (2 ^ 64) with 18446744073709551616 in *. lia. }
  assert (forall n r, next_revision q = Ok r -> delete n (entries q) <> entries q ->
    q' = mkHostQueue (delete n (entries q)) r ->
    queue_wf q' /\ (q' = q \/ q'.(entries) <> q.(entries)
                             /\ q'.(queue_revision) = q.(queue_revision) + 1)) as Hdel.
  { intros n r [-> Hlt]%next_revision_ok Hne ->. apply (Hstep (delete n (entries q))); try done.
    eapply entries_wf_sublist; [done|apply sublist_delete]. }
  destruct op as [r es|r es|r ids l|r id l|r|r l]; cbn [queue_op op_ok] in *.
  - apply append_exact in H as (_ & [[_ ->]|(Hne & Hw & Hlt & Hq)]); [by split; [|left]| |done|done].
    apply (Hstep _ Hw); [|done|done]. intros E. rewrite <- (app_nil_r (entries q)) in E at 2.
    by apply app_inv_head in E.
  - apply replace_all_exact in H as (_ & Hw & [[_ ->]|(Hne & Hlt & Hq)]); [by split; [|left]| |done].
    by apply (Hstep es).
  - apply reorder_exact in H as (_ & _ & es & Hp & _ & [[_ ->]|(Hne & Hlt & Hq)]);
      [by split; [|left]| |done].
    apply (Hstep es); try done. by eapply entries_wf_perm.
  - unfold remove in H. ok_step H.
    pose proof (position_spec (fun e => bool_decide (entry_id e = id)) (entries q)) as Hp.
    destruct (position _ _) as [i|]; [|done]. destruct Hp as (e & Hi & _).
    ok_step H. ok_step H. injection H as <-. eapply (Hdel i); [done| |done].
    intros E%(f_equal length). rewrite length_delete in E by eauto.
    apply lookup_lt_Some in Hi. lia.
  - unfold complete_current in H. ok_step H. case_bool_decide as Hn; [done|]. ok_step H.
    injection H as <-. eapply (Hdel 0%nat); [done| |done].
    destruct (entries q); [done|]. intros E%(f_equal length). simpl in E. lia.
  - unfold clear in H. ok_step H. destruct (_ =? _)%nat eqn:E.
    { injection H as <-. by split; [|left]. }
    apply Nat.eqb_neq in E. ok_step H. injection H as <-.
    apply next_revision_ok in Heqr1 as [-> Hlt]. eapply Hstep; [| |done|done].
    + eapply entries_wf_sublist; [done|apply sublist_take].
    + intros E'%(f_equal length). rewrite length_take in E'.
      destruct l, (entries q); simpl in *; lia.
Qed.

(** ** Properties *)

(** Playlist integrity: whatever sequence of edits the host's interface and
    the playback worker issue, with whatever revisions, the queue keeps at most
    100 entries with distinct identifiers, entries that share a source agree on
    its size, and the distinct sources total at most 16 GiB. *)
Lemma playlist_stays_well_formed (ops : list QueueOp) :
  Forall op_ok ops -> queue_wf (queue_run ops).
Proof.
  unfold queue_run. assert (queue_wf HostQueue_default) as H0.
  { split; [split|]; simpl; try done; try constructor. intros e1 e2 H. by apply elem_of_nil in H. }
  revert H0. generalize HostQueue_default as q. intros q Hq Hops. revert q Hq.
  induction Hops as [|op ops Hop Hops IH]; intros q Hq; [done|]. apply IH.
  unfold queue_step. destruct (queue_op q op) as [q'|] eqn:E; [|done].
  by apply queue_op_ok in E as [? _].
Qed.

(** Appending is exact: on a well-formed queue a batch is appended, at the
    end and in order with the revision moved by one, precisely when the
    revision is current and the combined queue is well formed (an empty batch
    changes nothing); every other batch is refused whole. *)
Lemma append_accepts_exactly (q q' : HostQueue) (expected : Z) (batch : list QueueEntry) :
  queue_wf q -> Forall entry_ok batch ->
  append q expected batch = Ok q' <->
  expected = q.(queue_revision)
  /\ (batch = [] /\ q' = q
      \/ batch <> [] /\ entries_wf (q.(entries) ++ batch) /\ q.(queue_revision) < u64_max
         /\ q' = mkHostQueue (q.(entries) ++ batch) (q.(queue_revision) + 1)).
Proof. apply append_exact. Qed.

(** Reordering is exact: on a well-formed queue an order is applied precisely
    when the revision is current, the identifiers are a permutation of the
    queue's, and the current entry stays in front while it is locked; the
    entries are then the same entries in the requested order. *)
Lemma reorder_accepts_exactly (q q' : HostQueue) (expected : Z) (ids : list rstr) (locked : bool) :
  queue_wf q ->
  reorder q expected ids locked = Ok q' <->
  expected = q.(queue_revision)
  /\ (locked = true -> head ids = option_map entry_id (queue_current q))
  /\ exists es, es ≡ₚ q.(entries) /\ map entry_id es = ids
     /\ (es = q.(entries) /\ q' = q
         \/ es <> q.(entries) /\ q.(queue_revision) < u64_max
            /\ q' = mkHostQueue es (q.(queue_revision) + 1)).
Proof. apply reorder_exact. Qed.

(** No lost update: when two editors prepare edits against the same revision
    and the first one changes the queue, the second is refused with the
    revision it expected and the one it met, and the queue keeps the first
    edit. *)
Lemma concurrent_edit_is_refused (q q1 : HostQueue) (first second : QueueOp) :
  queue_wf q -> op_ok first ->
  op_expected second = q.(queue_revision) ->
  queue_op q first = Ok q1 -> q1 <> q ->
  queue_op q1 second = Err (StaleRevision q.(queue_revision) (q.(queue_revision) + 1))
  /\ queue_step q1 second = q1.
Proof.
  intros Hq Hop Hexp H Hne. apply queue_op_ok in H as [_ [->|[_ Hr]]]; [done| |done|done].
  assert (queue_op q1 second = Err (StaleRevision (queue_revision q) (queue_revision q + 1))) as E.
  { assert (check_revision q1 (op_expected second)
            = Err (StaleRevision (queue_revision q) (queue_revision q + 1))) as Hc.
    { unfold check_revision. rewrite Hexp, Hr. by rewrite (proj2 (Z.eqb_neq _ _)) by lia. }
    destruct second; cbn [op_expected] in Hc; cbn [queue_op];
      unfold append, replace_all, reorder, remove, complete_current, clear; by rewrite Hc. }
  split; [done|]. unfold queue_step. by rewrite E.
Qed.

(** ** Witnesses *)

Definition sample_entry (id : Z) : QueueEntry :=
  mkQueueEntry [id] (mkAudioSourceDescriptor [id] [id] (Some 4096) None).

Definition sample_queue : HostQueue := mkHostQueue [sample_entry 97; sample_entry 98] 1.

Lemma sample_entries_ok (ids : list Z) : Forall entry_ok (map sample_entry ids).
Proof.
  induction ids as [|i ids IH]; simpl; [by constructor|]. apply Forall_cons. split; [|done].
  unfold entry_ok, is_u64, is_uint. simpl. lia.
Qed.

Lemma sample_queue_wf : queue_wf sample_queue.
Proof.
  split; [|done]. apply (entries_wf_exact _ (sample_entries_ok [97; 98])). split_and!.
  - done.
  - apply (bool_decide_unpack (NoDup (map entry_id (map sample_entry [97; 98])))).
    vm_compute. exact I.
  - vm_compute. reflexivity.
Qed.

Lemma playlist_stays_well_formed_witness :
  queue_wf (queue_run [OpAppend 0 (map sample_entry [97; 98; 99]); OpReorder 1 [[98]; [97]; [99]] false;
                       OpRemove 2 [97] true; OpCompleteCurrent 0; OpClear 3 true]).
Proof.
  apply playlist_stays_well_formed.
  apply List.Forall_cons; [apply sample_entries_ok|].
  repeat (apply List.Forall_cons; [exact I|]). apply List.Forall_nil.
Defined.

Lemma append_accepts_exactly_witness :
  append sample_queue 1 [sample_entry 99]
  = Ok (mkHostQueue (map sample_entry [97; 98; 99]) 2).
Proof.
  apply (append_accepts_exactly sample_queue _ 1 [sample_entry 99] sample_queue_wf
           (sample_entries_ok [99])).
  split; [reflexivity|]. right. split; [discriminate|].
  split; [|split; [vm_compute; reflexivity|reflexivity]].
  apply (entries_wf_exact _ (sample_entries_ok [97; 98; 99])). split; [vm_compute; discriminate|].
  split; [|vm_compute; reflexivity].
  apply (bool_decide_unpack (NoDup (map entry_id (map sample_entry [97; 98; 99])))).
  vm_compute. exact I.
Defined.

Lemma reorder_accepts_exactly_witness :
  reorder sample_queue 1 [[98]; [97]] false = Ok (mkHostQueue (map sample_entry [98; 97]) 2).
Proof.
  apply (reorder_accepts_exactly sample_queue _ 1 [[98]; [97]] false sample_queue_wf).
  split; [reflexivity|]. split; [discriminate|].
  exists (map sample_entry [98; 97]). split; [apply Permutation_swap|]. split; [reflexivity|].
  right. split; [discriminate|]. split; [vm_compute; reflexivity|reflexivity].
Defined.

Lemma concurrent_edit_is_refused_witness :
  queue_op (mkHostQueue [sample_entry 97] 2) (OpReorder 1 [[98]; [97]] false)
  = Err (StaleRevision 1 2).
Proof.
  exact (proj1 (concurrent_edit_is_refused sample_queue (mkHostQueue [sample_entry 97] 2)
    (OpRemove 1 [98] true) (OpReorder 1 [[98]; [97]] false) sample_queue_wf I eq_refl
    ltac:(vm_compute; reflexivity) ltac:(discriminate))).
Defined.
