(* ===== verification/PlaylistUpdates.v ===== *)
(** Live edits of a playing playlist
    (src/rust/silent-disco-core/src/audio/packetizer_worker.rs, the updater,
    and packetizer_worker/playlist_worker.rs, the worker's side): the state
    that the editor and the producer share under one lock. Each definition
    below is one critical section. A thread that panics while it holds the
    lock is not modelled, so [lock] always succeeds. *)
From Stdlib Require Import ZArith Lia Strings.String.
From stdpp Require Import numbers list gmap prelude.
From S2P Require Import Prelude Utf8 ProtocolTypes HostQueue DecodeTypes Interleaving BoundedChannel PacketizerWorker.

(** [crate::protocol::MAX_PROTOCOL_STRING_BYTES]. *)
Definition MAX_PROTOCOL_STRING_BYTES : Z := 256.

(** ** Upcoming tracks *)

(** [StreamingPlaylistTrackFactory]: [open] runs at most once, so its result is
    part of the factory. *)
Record Factory : Type := mkFactory {
pf_entry_id : rstr;
pf_display_name : rstr;
pf_open : result DecodeHandle DecodeError
}.

Definition validate_track_identity (entry_id display_name : rstr) : result unit PacketizerWorkerError :=
  if bool_decide (entry_id = [])
     || (MAX_QUEUE_ENTRY_ID_BYTES <? str_len entry_id)
     || (MAX_PROTOCOL_STRING_BYTES <? str_len entry_id)
     || negb (bool_decide (trim entry_id = entry_id))
     || existsb is_control entry_id
     || bool_decide (display_name = [])
     || (MAX_DISPLAY_NAME_BYTES <? str_len display_name)
  then Err (worker_error WorkerPacketize "playlist track identity exceeds protocol bounds")
  else Ok tt.

Definition Factory_new (entry_id display_name : rstr) (open : result DecodeHandle DecodeError) :
  result Factory PacketizerWorkerError :=
  let? _ := validate_track_identity entry_id display_name in
  Ok (mkFactory entry_id display_name open).

(** The [HashSet] walk of [validate_playlist_entries]. *)
Fixpoint insert_distinct (ids : gset rstr) (upcoming : list Factory) : result unit PacketizerWorkerError :=
  match upcoming with
  | [] => Ok tt
  | track :: upcoming =>
      if bool_decide (track.(pf_entry_id) ∈ ids)
      then Err (worker_error WorkerPacketize "playlist contains duplicate entry IDs")
      else insert_distinct ({[track.(pf_entry_id)]} ∪ ids) upcoming
  end.

Definition validate_playlist_entries (current_entry_id : option rstr) (upcoming : list Factory) :
  result unit PacketizerWorkerError :=
  if MAX_HOST_QUEUE_ENTRIES <=? len upcoming then
    Err (worker_error WorkerPacketize "playlist exceeds the 100-entry queue limit")
  else
    insert_distinct (match current_entry_id with Some current => {[current]} | None => ∅ end) upcoming.

(** ** The shared state *)

Record PlaylistUpdateState : Type := mkPlaylistUpdateState {
pu_current_entry_id : rstr;
pu_retired_entry_ids : gset rstr;
pu_reservation_shadow : option rstr;
pu_pending : option (list Factory);
pu_terminal : bool
}.

Definition new_updates (current_entry_id : rstr) : PlaylistUpdateState :=
  mkPlaylistUpdateState current_entry_id ∅ None None false.

Definition set_pending (pending : option (list Factory)) (u : PlaylistUpdateState) : PlaylistUpdateState :=
  mkPlaylistUpdateState u.(pu_current_entry_id) u.(pu_retired_entry_ids) u.(pu_reservation_shadow)
    pending u.(pu_terminal).

Definition set_terminal (u : PlaylistUpdateState) : PlaylistUpdateState :=
  mkPlaylistUpdateState u.(pu_current_entry_id) u.(pu_retired_entry_ids) u.(pu_reservation_shadow)
    u.(pu_pending) true.

Definition validate_playlist_update (u : PlaylistUpdateState) (upcoming : list Factory) :
  result unit PacketizerWorkerError :=
  let? _ := validate_playlist_entries (Some u.(pu_current_entry_id)) upcoming in
  if existsb (fun f => bool_decide (f.(pf_entry_id) ∈ u.(pu_retired_entry_ids))) upcoming
  then Err (worker_error WorkerPacketize
              "playlist contains duplicate entry IDs from already played tracks")
  else Ok tt.

(** The editor drops a leading copy of the reserved entry. *)
Definition strip_shadow (shadow : option rstr) (upcoming : list Factory) : list Factory :=
  match shadow, upcoming with
  | Some shadow, first :: rest =>
      if bool_decide (first.(pf_entry_id) = shadow) then rest else upcoming
  | _, _ => upcoming
  end.

(** [StreamingPlaylistUpdater::replace_upcoming]. *)
Definition replace_upcoming (upcoming : list Factory) (u : PlaylistUpdateState) :
  result unit PacketizerWorkerError * PlaylistUpdateState :=
  if u.(pu_terminal) then
    (Err (worker_error WorkerCancelledError "playlist packetizer has already terminated"), u)
  else
    let upcoming := strip_shadow u.(pu_reservation_shadow) upcoming in
    match validate_playlist_update u upcoming with
    | Err e => (Err e, u)
    | Ok _ => (Ok tt, set_pending (Some upcoming) u)
    end.

(** [apply_playlist_update]: the new upcoming queue. *)
Definition apply_playlist_update (upcoming : list Factory) (u : PlaylistUpdateState) :
  result (list Factory) PacketizerWorkerError * PlaylistUpdateState :=
  match u.(pu_pending) with
  | None => (Ok upcoming, u)
  | Some replacement =>
      let u := set_pending None u in
      match validate_playlist_update u replacement with
      | Err e => (Err e, u)
      | Ok _ => (Ok replacement, u)
      end
  end.

Definition has_update (u : PlaylistUpdateState) : bool * PlaylistUpdateState :=
  (bool_decide (is_Some u.(pu_pending)), u).

Definition seal_final_track_if_unmodified (u : PlaylistUpdateState) : bool * PlaylistUpdateState :=
  match u.(pu_pending) with
  | Some _ => (false, u)
  | None => (true, set_terminal u)
  end.

Definition promote_current_entry_if_unmodified (entry_id : rstr) (reserved : bool) (u : PlaylistUpdateState) :
  bool * PlaylistUpdateState :=
  match u.(pu_pending) with
  | Some _ => (false, u)
  | None =>
      let shadow := if reserved then Some entry_id else None in
      if bool_decide (u.(pu_current_entry_id) = entry_id)
      then (true, mkPlaylistUpdateState u.(pu_current_entry_id) u.(pu_retired_entry_ids) shadow None
                    u.(pu_terminal))
      else (true, mkPlaylistUpdateState entry_id
                    ({[u.(pu_current_entry_id)]} ∪ u.(pu_retired_entry_ids)) shadow None u.(pu_terminal))
  end.

(** [PlaylistTerminalGuard::drop]. *)
Definition terminal_guard_drop (u : PlaylistUpdateState) : unit * PlaylistUpdateState :=
  (tt, set_pending None (set_terminal u)).

(** ** Identities *)

Definition entry_ids (upcoming : list Factory) : list rstr := map pf_entry_id upcoming.

Lemma insert_distinct_ok (ids : gset rstr) (upcoming : list Factory) :
  insert_distinct ids upcoming = Ok tt <->
  NoDup (entry_ids upcoming) /\ Forall (fun id => id ∉ ids) (entry_ids upcoming).
Proof.
  revert ids. induction upcoming as [|f upcoming IH]; intros ids; cbn.
  - split; [split; constructor|done].
  - destruct (bool_decide _) eqn:E; to_prop.
    + split; [done|]. intros [_ Hall]. by apply Forall_cons in Hall as [Hn _].
    + rewrite IH. rewrite NoDup_cons, Forall_cons. unfold entry_ids in *. split.
      * intros [Hnd Hall]. rewrite Forall_forall in Hall. split_and!; try done.
        -- intros Hin. apply (Hall _ Hin). set_solver.
        -- apply Forall_forall. intros x Hx Hin. apply (Hall x Hx). set_solver.
      * intros [[Hni Hnd] [Hn Hall]]. split; [done|]. rewrite Forall_forall in Hall |- *.
        intros x Hx Hin. apply elem_of_union in Hin as [Hin|Hin]; [|by apply (Hall x)].
        apply elem_of_singleton in Hin. congruence.
Qed.

(** Identities that may be played after [u]: distinct, and none of them the
    current or a retired one. *)
Definition fresh_ids (u : PlaylistUpdateState) (ids : list rstr) : Prop :=
  NoDup ids /\ Forall (fun id => id <> u.(pu_current_entry_id) /\ id ∉ u.(pu_retired_entry_ids)) ids.

(** Exactly the plans an update may install. *)
Lemma validate_update_ok (u : PlaylistUpdateState) (upcoming : list Factory) :
  validate_playlist_update u upcoming = Ok tt <->
  fresh_ids u (entry_ids upcoming) /\ len upcoming < MAX_HOST_QUEUE_ENTRIES.
Proof.
  unfold validate_playlist_update, validate_playlist_entries.
  destruct (MAX_HOST_QUEUE_ENTRIES <=? len upcoming) eqn:El; to_prop; [split; [done|lia]|].
  pose proof (insert_distinct_ok {[pu_current_entry_id u]} upcoming) as Hd.
  assert (existsb (fun f => bool_decide (f.(pf_entry_id) ∈ u.(pu_retired_entry_ids))) upcoming = false
    <-> Forall (fun id => id ∉ u.(pu_retired_entry_ids)) (entry_ids upcoming)) as He.
  { clear. induction upcoming as [|f l IH]; cbn; [by split|].
    rewrite orb_false_iff, IH, Forall_cons, bool_decide_eq_false. done. }
  unfold fresh_ids. destruct (insert_distinct _ _) as [[]|e].
  - destruct (proj1 Hd eq_refl) as [Hnd Hcur]. destruct (existsb _ _) eqn:Ee.
    + split; [done|]. intros [[_ Hall] _].
      assert (true = false); [|done]. apply He. eapply Forall_impl; [exact Hall|]. naive_solver.
    + split; [intros _|done]. split; [|done]. split; [done|].
      apply Forall_and. split; [|by apply He]. eapply Forall_impl; [exact Hcur|].
      intros x Hx ->. apply Hx. set_solver.
  - split; [done|]. intros [[Hnd Hall] _]. exfalso. assert (Err e = Ok tt); [|done].
    apply Hd. split; [done|]. eapply Forall_impl; [exact Hall|]. intros x [Hx _] Hin.
    apply Hx. set_solver.
Qed.

(** ** The invariant of the shared state *)

(** An accepted edit stays applicable, and nothing is pending behind a seal. *)
Definition updates_ok (u : PlaylistUpdateState) : Prop :=
  u.(pu_current_entry_id) ∉ u.(pu_retired_entry_ids)
  /\ match u.(pu_pending) with
     | Some l => validate_playlist_update u l = Ok tt /\ u.(pu_terminal) = false
     | None => True
     end.

Lemma updates_ok_new (id : rstr) : updates_ok (new_updates id).
Proof. split; cbn; [set_solver|done]. Qed.

Lemma updates_ok_replace (l : list Factory) (u : PlaylistUpdateState) :
  updates_ok u -> updates_ok (replace_upcoming l u).2.
Proof.
  intros Hu. pose proof Hu as [Hc Hp]. unfold replace_upcoming. destruct (pu_terminal u) eqn:Et; [exact Hu|].
  destruct (validate_playlist_update u _) as [[]|e] eqn:Ev; [|exact Hu]. split; [done|].
  cbn. by split.
Qed.

(** An edit never touches what the producer owns. *)
Lemma replace_keeps (l : list Factory) (u : PlaylistUpdateState) :
  let u' := (replace_upcoming l u).2 in
  u'.(pu_current_entry_id) = u.(pu_current_entry_id)
  /\ u'.(pu_retired_entry_ids) = u.(pu_retired_entry_ids)
  /\ u'.(pu_reservation_shadow) = u.(pu_reservation_shadow) /\ u'.(pu_terminal) = u.(pu_terminal).
Proof. unfold replace_upcoming. by repeat case_match. Qed.

(** A pending edit is taken whole: consuming it cannot fail. *)
Lemma apply_ok (upcoming : list Factory) (u : PlaylistUpdateState) :
  updates_ok u ->
  apply_playlist_update upcoming u
  = (Ok (default upcoming u.(pu_pending)), set_pending None u)
  /\ updates_ok (set_pending None u)
  /\ (forall l, u.(pu_pending) = Some l -> fresh_ids u (entry_ids l)).
Proof.
  intros [Hc Hp]. unfold apply_playlist_update. destruct (pu_pending u) as [l|] eqn:Ep.
  - destruct Hp as [Hv _].
    assert (validate_playlist_update (set_pending None u) l = validate_playlist_update u l) as -> by done.
    rewrite Hv. split_and!; try done. intros ? [= <-]. by apply validate_update_ok in Hv as [? _].
  - split_and!; try done. destruct u; cbn in *; by subst.
Qed.

Lemma promote_ok (id : rstr) (reserved : bool) (u : PlaylistUpdateState) (rest : list rstr) :
  updates_ok u -> fresh_ids u (id :: rest) ->
  let '(b, u') := promote_current_entry_if_unmodified id reserved u in
  updates_ok u' /\
  (if b then u.(pu_pending) = None /\ u'.(pu_pending) = None /\ u'.(pu_current_entry_id) = id
             /\ u'.(pu_retired_entry_ids) = {[u.(pu_current_entry_id)]} ∪ u.(pu_retired_entry_ids)
             /\ fresh_ids u' rest /\ u'.(pu_terminal) = u.(pu_terminal)
   else u' = u).
Proof.
  intros [Hc Hp] [Hnd Hall]. unfold promote_current_entry_if_unmodified.
  destruct (pu_pending u) as [l|] eqn:Ep; [split; [|done]; split; [done|by rewrite Ep]|].
  apply NoDup_cons in Hnd as [Hni Hnd]. apply Forall_cons in Hall as [[Hne Hnr] Hall].
  rewrite bool_decide_eq_false_2 by congruence. split.
  - split; cbn; [|done]. set_solver.
  - split_and!; try done. split; cbn; [done|]. apply Forall_forall. intros x Hx.
    rewrite Forall_forall in Hall. destruct (Hall x Hx). split; [congruence|]. set_solver.
Qed.
