(* ===== verification/PlaylistWorker.v ===== *)
(** The continuous playlist producer
    (src/rust/silent-disco-core/src/audio/packetizer_worker/playlist_worker.rs
    and reservation.rs): one packetizer carried across tracks, the next track's
    decoder opened ahead of its boundary, and the queue edits of other threads
    applied at every step. *)
From Stdlib Require Import ZArith Lia Strings.String.
From stdpp Require Import numbers list gmap prelude.
From S2P Require Import Prelude Utf8 ProtocolTypes HostQueue Interleaving BoundedChannel Packetizer DecodeTypes PacketizerWorker PlaylistUpdates.

(** ** Staged tracks *)

(** [StagedPlaylistTrack]: the identity and the opened decoder. *)
Definition staged : Type := (rstr * rstr) * result DecodeHandle DecodeError.

Definition open_next_track (upcoming : list Factory) : option staged * list Factory :=
  match upcoming with
  | [] => (None, [])
  | f :: rest => (Some ((f.(pf_entry_id), f.(pf_display_name)), f.(pf_open)), rest)
  end.

Definition same_staged_identity (entry_id display_name : rstr) (candidate : Factory) : bool :=
  bool_decide (entry_id = candidate.(pf_entry_id)) && bool_decide (display_name = candidate.(pf_display_name)).

Definition map_playlist_decode_error (error : DecodeError) (display_name : rstr) : PacketizerWorkerError :=
  mkPacketizerWorkerError
    (if bool_decide (error.(decode_kind) = DecodeWorkerPanicked) then WorkerPanicked
     else if bool_decide (error.(decode_kind) = DecodeCancelled) then WorkerCancelledError
     else WorkerSource)
    (display_name ++ lit ": streaming playlist decoder failed: " ++ error.(decode_message)).

(** The producer's mutable view of the queue. *)
Record plan : Type := mkPlan {
pl_upcoming : list Factory;
pl_next : option staged;
pl_final_track : bool
}.

(** [next.as_ref().is_some_and(|(_, opened)| opened.is_ok())]. *)
Definition ready_successor (next : option staged) : bool :=
  match next with Some (_, Ok _) => true | _ => false end.

(** The plan after an edit installed [upcoming]: a staged decoder whose
    identity is still first is kept, any other is dropped and the first entry
    opened. *)
Definition replan (upcoming : list Factory) (next : option staged) : plan :=
  let '(next, upcoming) :=
    match next, upcoming with
    | Some ((id, name), Ok h), f :: rest =>
        if same_staged_identity id name f then (next, rest) else open_next_track upcoming
    | _, _ => open_next_track upcoming
    end in
  mkPlan upcoming next (match next with None => true | Some _ => false end).

(** ** The producer *)

Section Producer.
(** The edits other threads may submit carry factories of [Fac]. *)
Context (Fac : Factory -> Prop).

Definition edit : Type := { upcoming : list Factory | Forall Fac upcoming }.
Definition editor (e : edit) (u : PlaylistUpdateState) : PlaylistUpdateState :=
  (replace_upcoming (proj1_sig e) u).2.

Definition playlist_world : Type := @packet_world PlaylistUpdateState.
Definition playlist_state : Type := @packet_state PlaylistUpdateState edit.
Definition pprog (A : Type) : Type := @wprog PlaylistUpdateState edit A.

Definition locked {A : Type} (f : PlaylistUpdateState -> A * PlaylistUpdateState) : pprog A :=
  shared_access editor f.

(** The text of a packetizer error, the queue capacity and the optional
    synchronous boundary gate of this stream. *)
Context (message : rstr) (capacity : Z).
Context (reserver : option (TrackBoundary -> bool -> result unit PacketizerWorkerError)).

Definition send (frame : ProtocolFrame) : pprog unit := send_with_backpressure editor frame capacity.

Definition refresh_pending_playlist_update (pl : plan) : pprog plan :=
  has ← locked has_update;
  if negb has then mret pl
  else
    applied ← locked (apply_playlist_update pl.(pl_upcoming));
    upcoming ← lift applied;
    mret (replan upcoming pl.(pl_next)).

(** The loop that closes the updater before the last chunk. *)
Definition seal_step (pl : plan) : pprog (plan + plan) :=
  sealed ← locked seal_final_track_if_unmodified;
  if (sealed : bool) then mret (inr pl)
  else
    pl ← refresh_pending_playlist_update pl;
    if negb pl.(pl_final_track) then mret (inr pl) else mret (inl pl).

Definition with_end (chunk : DecodedPcmChunk) (end_of_stream : bool) : DecodedPcmChunk :=
  mkDecodedPcmChunk chunk.(chunk_format) chunk.(chunk_first_sample_index) chunk.(chunk_frames) end_of_stream.

(** One track; the recursion follows the decoder's answers. *)
Fixpoint packetize_playlist_track (responses : list recv_response) (p : Packetizer) (pl : plan)
  (pending_boundary : option ProtocolFrame) : pprog (PacketizerSummary * Packetizer * plan) :=
  _ ← ensure_not_cancelled editor;
  pl ← refresh_pending_playlist_update pl;
  _ ← channel_access editor (fun c => (tt, c));
  match responses with
  | [] => raise (worker_error WorkerSource "playlist decoder disconnected before its final chunk")
  | RecvTimeout :: responses => packetize_playlist_track responses p pl pending_boundary
  | RecvChunk chunk :: responses =>
      let input_finished := chunk.(chunk_end_of_stream) in
      _ ← match pending_boundary with Some boundary => send boundary | None => mret tt end;
      pl ← (if input_finished && pl.(pl_final_track) then worker_loop seal_step pl else mret pl);
      let '(pushed, p) :=
        push_contiguous_chunk (with_end chunk (input_finished && pl.(pl_final_track))) p in
      outcome ← lift_packetizer message pushed;
      _ ← for_each send outcome.(outcome_frames);
      if input_finished then
        if pl.(pl_final_track) && negb outcome.(outcome_end_of_stream) then
          raise (worker_error WorkerPacketize "final playlist track did not finish the packetizer stream")
        else
          summary ← completed_summary editor;
          mret (summary, p, pl)
      else packetize_playlist_track responses p pl None
  end.

(** The promotion loop: commit the staged successor unless an edit is pending. *)
Definition promote_step (pl : plan) : pprog (plan + plan) :=
  match pl.(pl_next) with
  | Some ((id, _), Ok _) =>
      promoted ← locked (promote_current_entry_if_unmodified id (bool_decide (is_Some reserver)));
      if (promoted : bool) then mret (inr pl)
      else pl ← refresh_pending_playlist_update pl; mret (inl pl)
  | _ => mret (inr pl)
  end.

(** The locals of the outer loop. *)
Record track_state : Type := mkTrackState {
ts_decoder : DecodeHandle;
ts_display_name : rstr;
ts_upcoming : list Factory;
ts_packetizer : Packetizer;
ts_boundary : option ProtocolFrame
}.

(** The empty last chunk that ends a stream whose successor was removed. *)
Definition end_chunk (format : AudioFormat) : DecodedPcmChunk := mkDecodedPcmChunk format 0 [] true.

Definition prefix_error (name : rstr) (e : PacketizerWorkerError) : PacketizerWorkerError :=
  mkPacketizerWorkerError e.(worker_kind) (name ++ lit ": " ++ e.(worker_message)).

(** After the outgoing track: promote the successor or end the stream. *)
Definition finish_track (ts : track_state) (p : Packetizer) (pl : plan) :
  pprog (track_state + PacketizerSummary) :=
  let had_successor := bool_decide (is_Some pl.(pl_next)) in
  pl ← (if had_successor then refresh_pending_playlist_update pl else mret pl);
  pl ← worker_loop promote_step pl;
  match pl.(pl_next) with
  | None =>
      if had_successor then
        if p.(pk_finished) then
          raise (worker_error WorkerPacketize
                   "cannot retarget a playlist whose packetizer already finished")
        else
          let '(pushed, _) := push_contiguous_chunk (end_chunk ts.(ts_decoder).(dh_format)) p in
          outcome ← lift_packetizer message pushed;
          _ ← for_each send outcome.(outcome_frames);
          summary ← completed_summary editor;
          mret (inr summary)
      else summary ← completed_summary editor; mret (inr summary)
  | Some ((_, name), Err error) => raise (map_playlist_decode_error error name)
  | Some ((id, name), Ok decoder) =>
      let boundary := mkTrackBoundary p.(pk_session_id) p.(pk_stream_id)
                        p.(pk_contiguous_sample_cursor) id name in
      let following := mkTrackState decoder name pl.(pl_upcoming) p
                         (Some (FControl (CTrackBoundary boundary))) in
      match reserver with
      | None => mret (inl following)
      | Some reserve =>
          cancelled ← channel_access editor (fun c => (c.(ch_cancelled), c));
          match reserve boundary cancelled with
          | Ok _ => mret (inl following)
          | Err error =>
              summary ← lift (merge_decoder_shutdown_result (Err error) decoder.(dh_cancel_and_join));
              mret (inr summary)
          end
      end
  end.

(** One iteration of the track loop. *)
Definition playlist_step (ts : track_state) : pprog (track_state + PacketizerSummary) :=
  _ ← ensure_not_cancelled editor;
  applied ← locked (apply_playlist_update ts.(ts_upcoming));
  upcoming ← lift applied;
  let '(next, upcoming) := open_next_track upcoming in
  result ← attempt (packetize_playlist_track ts.(ts_decoder).(dh_responses) ts.(ts_packetizer)
                      (mkPlan upcoming next (negb (ready_successor next))) ts.(ts_boundary));
  match result with
  | Err e =>
      match merge_decoder_shutdown_result (Err e) ts.(ts_decoder).(dh_cancel_and_join) with
      | Ok summary => mret (inr summary)
      | Err e => raise (prefix_error ts.(ts_display_name) e)
      end
  | Ok (summary, p, pl) =>
      match merge_decoder_shutdown_result (Ok summary) ts.(ts_decoder).(dh_join) with
      | Err e => raise (prefix_error ts.(ts_display_name) e)
      | Ok _ => finish_track ts p pl
      end
  end.

(** The whole worker, with the guard that closes the updater on every exit. *)
Definition run_playlist_packetizer_worker (ts : track_state) : pprog PacketizerSummary :=
  result ← attempt (worker_loop playlist_step ts);
  _ ← locked terminal_guard_drop;
  lift result.
End Producer.

(** What [spawn_playlist_inner] prepares: the first track's state, the
    [StreamStart] naming it, and the shared world. *)
Definition spawn_playlist {t : target} (message : rstr) (decoder : DecodeHandle)
  (current_entry_id current_display_name : rstr) (upcoming : list Factory) (session_id stream_id : rstr)
  (host_start_time_ms : Z) (config : StreamingPacketizeConfig) :
  result (track_state * ProtocolFrame * playlist_world) PacketizerWorkerError :=
  let? _ := StreamingPacketizeConfig_validate config in
  let? _ := validate_track_identity current_entry_id current_display_name in
  let? _ := validate_playlist_entries (Some current_entry_id) upcoming in
  let? packetizer := map_err (from_packetizer_error message)
    (Packetizer_new session_id stream_id decoder.(dh_format) config.(pc_packet_duration_ms)
       host_start_time_ms) in
  let stream_start :=
    match stream_start_message packetizer with
    | FControl (CStreamStart start) =>
        FControl (CStreamStart (mkStreamStart start.(start_session_id) start.(start_stream_id)
          start.(start_host_start_time_ms) start.(start_sample_rate) start.(start_channels)
          start.(start_samples_per_packet) (Some current_entry_id) (Some current_display_name)))
    | other => other
    end in
  Ok (mkTrackState decoder current_display_name upcoming packetizer None, stream_start,
      (new_channel config.(pc_queue_capacity), new_updates current_entry_id)).
