(* ===== verification/PlaylistProofs.v ===== *)
(** What the playlist producer guarantees while its queue is edited and its
    output is consumed concurrently (PlaylistWorker): one gapless sample
    timeline over all tracks, every track announced at its exact first sample,
    and no entry played twice. *)
From Stdlib Require Import ZArith Lia Strings.String.
From stdpp Require Import numbers list gmap prelude.
From S2P Require Import Prelude Utf8 ProtocolTypes HostQueue Interleaving BoundedChannel Packetizer DecodeTypes PacketizerWorker PlaylistUpdates PlaylistWorker.

(** ** Reading a history *)

Definition audio_of (h : list ProtocolFrame) : list AudioDatagram :=
  omap (fun f => match f with FAudio d => Some d | _ => None end) h.

Definition boundaries_of (h : list ProtocolFrame) : list TrackBoundary :=
  omap (fun f => match f with FControl (CTrackBoundary b) => Some b | _ => None end) h.

Lemma audio_of_app (a b : list ProtocolFrame) : audio_of (a ++ b) = audio_of a ++ audio_of b.
Proof. apply omap_app. Qed.
Lemma boundaries_of_app (a b : list ProtocolFrame) :
  boundaries_of (a ++ b) = boundaries_of a ++ boundaries_of b.
Proof. apply omap_app. Qed.
Lemma audio_of_map (ds : list AudioDatagram) : audio_of (map FAudio ds) = ds.
Proof. induction ds as [|d ds IH]; [done|]. cbn. by f_equal. Qed.
Lemma boundaries_of_map (ds : list AudioDatagram) : boundaries_of (map FAudio ds) = [].
Proof. induction ds as [|d ds IH]; [done|]. done. Qed.

(** The PCM of a decoder's answers up to its final chunk. *)
Fixpoint track_pcm (responses : list recv_response) : list Z :=
  match responses with
  | [] => []
  | RecvTimeout :: responses => track_pcm responses
  | RecvChunk c :: responses =>
      c.(chunk_frames) ++ (if c.(chunk_end_of_stream) then [] else track_pcm responses)
  end.

(** One played track: its identity, its decoder and the PCM taken from it. *)
Record track : Type := mkTrack {
tk_id : rstr;
tk_handle : DecodeHandle;
tk_pcm : list Z
}.

Definition all_pcm (tracks : list track) : list Z := tracks ≫= tk_pcm.
Definition played (tracks : list track) : list rstr := map tk_id tracks.

Lemma all_pcm_app (a b : list track) : all_pcm (a ++ b) = all_pcm a ++ all_pcm b.
Proof. apply bind_app. Qed.
Lemma all_pcm_one (t : track) : all_pcm [t] = tk_pcm t.
Proof. apply app_nil_r. Qed.

(** Rust's [i16] samples. *)
Definition typed_responses (responses : list recv_response) : Prop :=
  Forall (fun r => match r with RecvChunk c => Forall is_i16 c.(chunk_frames) | RecvTimeout => True end)
    responses.
Definition typed_factory (f : Factory) : Prop :=
  forall h, f.(pf_open) = Ok h -> typed_responses h.(dh_responses).

(** ** Views of the stream *)

Section Stream.
Context (Fac : Factory -> Prop).
(** The stream as it was started. *)
Context (p0 : Packetizer) (id0 : rstr) (d0 : DecodeHandle).
Let channels := p0.(pk_format).(format_channels).
Let spp := p0.(pk_samples_per_packet).

(** Where a track's decoder came from. *)
Definition from_queue (id : rstr) (handle : DecodeHandle) : Prop :=
  (id = id0 /\ handle = d0) \/ exists f, Fac f /\ f.(pf_entry_id) = id /\ f.(pf_open) = Ok handle.

(** Played tracks: distinct, each from the queue, all but the last complete. *)
Record tracks_ok (tracks : list track) : Prop := {
to_ids : NoDup (played tracks);
to_first : head (played tracks) = Some id0;
to_origin : forall tk, tk ∈ tracks -> from_queue tk.(tk_id) tk.(tk_handle);
to_pcm : forall i tk, tracks !! i = Some tk ->
  tk.(tk_pcm) `prefix_of` track_pcm tk.(tk_handle).(dh_responses)
  /\ ((S i < length tracks)%nat -> tk.(tk_pcm) = track_pcm tk.(tk_handle).(dh_responses))
}.

(** Boundary [i] announces track [i + 1] at its first sample. *)
Definition announces (tracks : list track) (bs : list TrackBoundary) : Prop :=
  forall i b, bs !! i = Some b -> exists tk, tracks !! S i = Some tk
    /\ b.(boundary_entry_id) = tk.(tk_id)
    /\ b.(boundary_first_sample_index) * channels = len (all_pcm (take (S i) tracks)).

(** A boundary comes right before the packet that holds its first sample. *)
Definition placed (h : list ProtocolFrame) : Prop :=
  forall h1 b h2, h = h1 ++ FControl (CTrackBoundary b) :: h2 ->
    len (audio_of h1) * spp <= b.(boundary_first_sample_index) < (len (audio_of h1) + 1) * spp.

(** What may have been sent of these tracks: consecutive full packets of
    their concatenated PCM, with silence only after all of it, and the
    boundaries of the tracks in order. *)
Record stream_view (tracks : list track) (h : list ProtocolFrame) : Prop := {
sv_numbered : forall i d, audio_of h !! i = Some d -> numbered p0 0 i d;
sv_pcm : exists pad, (pad < full_packet p0)%nat
  /\ pcm_of (audio_of h) `prefix_of` all_pcm tracks ++ replicate pad 0;
sv_announced : announces tracks (boundaries_of h);
sv_placed : placed h
}.

Lemma placed_prefix (h h' : list ProtocolFrame) : h `prefix_of` h' -> placed h' -> placed h.
Proof. intros [k ->] H h1 b h2 E. apply (H h1 b (h2 ++ k)). rewrite E, <- app_assoc. done. Qed.

(** Sending is incremental: a prefix of a good history is good. *)
Lemma stream_view_prefix (tracks : list track) (h h' : list ProtocolFrame) :
  h `prefix_of` h' -> stream_view tracks h' -> stream_view tracks h.
Proof.
  intros Hpre [Hn (pad & Hp & Hpcm) Ha Hpl]. split.
  - intros i d Hd. apply Hn. destruct Hpre as [k ->]. rewrite audio_of_app. by apply lookup_app_l_Some.
  - exists pad. split; [done|]. etrans; [|exact Hpcm]. destruct Hpre as [k ->].
    rewrite audio_of_app, pcm_of_app. by apply prefix_app_r.
  - intros i b Hb. apply Ha. destruct Hpre as [k ->]. rewrite boundaries_of_app. by apply lookup_app_l_Some.
  - by eapply placed_prefix.
Qed.

(** The producer in the middle of its current track: everything pushed is
    sent or in the carry. *)
Record at_track (before : list track) (cur : track) (p : Packetizer) (pending : option TrackBoundary)
  (h : list ProtocolFrame) : Prop := {
at_open : contiguous p;
at_same : p.(pk_session_id) = p0.(pk_session_id) /\ p.(pk_stream_id) = p0.(pk_stream_id)
  /\ p.(pk_format) = p0.(pk_format) /\ p.(pk_samples_per_packet) = p0.(pk_samples_per_packet)
  /\ p.(pk_host_start_time_ms) = p0.(pk_host_start_time_ms);
at_numbered : forall i d, audio_of h !! i = Some d -> numbered p0 0 i d;
at_sequence : p.(pk_next_sequence) = len (audio_of h);
at_pcm : pcm_of (audio_of h) ++ p.(pk_carry) = all_pcm (before ++ [cur]);
at_boundaries : announces (before ++ [cur])
  (boundaries_of h ++ match pending with Some b => [b] | None => [] end);
at_count : length (boundaries_of h ++ match pending with Some b => [b] | None => [] end) = length before;
at_pending : forall b, pending = Some b ->
  b.(boundary_first_sample_index) = p.(pk_contiguous_sample_cursor) /\ cur.(tk_pcm) = [];
at_placed : placed h
}.

Context (Hp0 : pk_ok p0) (Hseq0 : p0.(pk_next_sequence) = 0).

Lemma full_packet_same (p : Packetizer) :
  p.(pk_format) = p0.(pk_format) -> p.(pk_samples_per_packet) = p0.(pk_samples_per_packet) ->
  full_packet p = full_packet p0.
Proof. unfold full_packet. by intros -> ->. Qed.

Lemma at_track_view (before : list track) (cur : track) (p : Packetizer) (pending : option TrackBoundary)
  (h : list ProtocolFrame) :
  at_track before cur p pending h -> stream_view (before ++ [cur]) h.
Proof.
  intros []. split; try done.
  - exists 0%nat. split; [destruct Hp0; unfold full_packet, samples_per_frame; nia|].
    cbn. rewrite app_nil_r, <- at_pcm0. by apply prefix_app_r.
  - intros i b Hb. apply at_boundaries0. by apply lookup_app_l_Some.
Qed.

(** The cursor is the number of frames pushed. *)
Lemma cursor_frames (before : list track) (cur : track) (p : Packetizer) (pending : option TrackBoundary)
  (h : list ProtocolFrame) :
  at_track before cur p pending h ->
  p.(pk_contiguous_sample_cursor) * channels = len (all_pcm (before ++ [cur]))
  /\ len (audio_of h) * spp <= p.(pk_contiguous_sample_cursor) < (len (audio_of h) + 1) * spp.
Proof.
  intros []. destruct at_same0 as (_ & _ & Hf & Hs & _). destruct at_open0 as [Hok _ Hcur _].
  rewrite <- at_pcm0, len_app, (pcm_of_length p0 0) by done.
  rewrite Hcur, at_sequence0, Hs. unfold carry_frames, samples_per_frame. rewrite Hf. fold channels spp.
  pose proof (full_packet_Z p0 Hp0) as Hfp. fold channels spp in Hfp. rewrite Hfp.
  assert (full_packet p = full_packet p0) as Hfull by (by apply full_packet_same).
  assert (len (pk_carry p) mod channels = 0) as Hmod by (unfold channels; rewrite <- Hf; apply Hok).
  assert (len (pk_carry p) < spp * channels) as Hlt.
  { pose proof (pk_carry_len _ Hok) as Hl. rewrite Hfull in Hl. unfold len. lia. }
  assert (0 < channels) as Hch by apply Hp0.
  pose proof (proj2 (Z.div_exact (len (pk_carry p)) channels ltac:(lia)) Hmod) as Hde.
  pose proof (len_nonneg (pk_carry p)). change (Z.of_nat (length (audio_of h))) with (len (audio_of h)).
  assert (0 <= len (pk_carry p) / channels < spp) as Hq
    by (split; [apply Z.div_pos; lia|apply Z.div_lt_upper_bound; lia]).
  split; [rewrite Z.mul_add_distr_r|]; lia.
Qed.

(** ** Steps of the producer on its stream *)

Lemma placed_snoc_audio (h : list ProtocolFrame) (ds : list AudioDatagram) :
  placed h -> placed (h ++ map FAudio ds).
Proof.
  intros H h1 b h2 E. destruct (app_eq_app _ _ _ _ E) as (l & [[-> E1]|[-> E1]]).
  - destruct l as [|x l]; cbn in E1.
    + exfalso. destruct ds as [|d ds]; [|done]. done.
    + injection E1 as <- E1. by apply (H h1 b l).
  - exfalso. assert (FControl (CTrackBoundary b) ∈ map FAudio ds) as Hin by (rewrite E1; set_solver).
    apply list_elem_of_fmap in Hin as (d & Hd & _). done.
Qed.

Lemma placed_snoc_boundary (h : list ProtocolFrame) (b : TrackBoundary) :
  placed h ->
  len (audio_of h) * spp <= b.(boundary_first_sample_index) < (len (audio_of h) + 1) * spp ->
  placed (h ++ [FControl (CTrackBoundary b)]).
Proof.
  intros H Hb h1 b' h2 E. destruct (app_eq_app _ _ _ _ E) as (l & [[-> E1]|[-> E1]]).
  - destruct l as [|x l]; cbn in E1.
    + injection E1 as -> _. by rewrite app_nil_r in *.
    + injection E1 as <- E1. by apply (H h1 b' l).
  - destruct l as [|x l]; cbn in E1; [|by destruct l].
    injection E1 as <- _. by rewrite app_nil_r.
Qed.

(** The pending boundary is sent. *)
Lemma at_track_announce (before : list track) (cur : track) (p : Packetizer) (b : TrackBoundary)
  (h : list ProtocolFrame) :
  at_track before cur p (Some b) h ->
  at_track before cur p None (h ++ [FControl (CTrackBoundary b)]).
Proof.
  intros Hat. destruct (cursor_frames _ _ _ _ _ Hat) as [_ Hcur]. destruct Hat.
  destruct (at_pending0 b eq_refl) as [Hb _].
  assert (audio_of (h ++ [FControl (CTrackBoundary b)]) = audio_of h) as Ha
    by (rewrite audio_of_app; cbn; by rewrite app_nil_r).
  assert (boundaries_of (h ++ [FControl (CTrackBoundary b)]) ++ [] = boundaries_of h ++ [b]) as Hbs
    by (by rewrite app_nil_r, boundaries_of_app).
  split; rewrite ?Ha; try done.
  - by rewrite Hbs.
  - by rewrite Hbs.
  - apply placed_snoc_boundary; [done|]. by rewrite Hb.
Qed.

(** The current track grows; the boundaries stay where they are. *)
Lemma announces_grow (before : list track) (cur cur' : track) (bs : list TrackBoundary) :
  tk_id cur' = tk_id cur -> length bs = length before ->
  announces (before ++ [cur]) bs -> announces (before ++ [cur']) bs.
Proof.
  intros Hid Hlen H i b Hb. destruct (H i b Hb) as (tk & Htk & He & Hx).
  apply lookup_lt_Some in Hb as Hi. rewrite take_app_le in Hx |- * by lia.
  destruct (decide (S i < length before)%nat) as [Hlt|Hge].
  - rewrite lookup_app_l in Htk |- * by done. by exists tk.
  - rewrite lookup_app_r in Htk |- * by lia. replace (S i - length before)%nat with 0%nat in * by lia.
    injection Htk as <-. exists cur'. by rewrite Hid.
Qed.

Lemma push_accepts (c : DecodedPcmChunk) (p p' : Packetizer) (out : PacketizeOutcome) :
  Forall is_i16 c.(chunk_frames) -> push_contiguous_chunk c p = (Ok out, p') ->
  chunk_fits p c /\ p.(pk_contiguous_sample_cursor) + frame_count c <= u64_max.
Proof.
  intros Hi H. unfold push_contiguous_chunk, validate_chunk, checked_add in H.
  destruct (pk_finished p); [done|]. destruct (bool_decide _) eqn:Ef; [|done]. cbn [negb] in H.
  destruct (_ mod _ =? 0) eqn:Em; [|done]. cbn [negb] in H.
  destruct (_ <=? u64_max) eqn:El; [|done]. to_prop. split; [|done]. by split_and!.
Qed.

(** A chunk of the current track is pushed. *)
Lemma at_track_push (before : list track) (cur : track) (p p' : Packetizer) (h : list ProtocolFrame)
  (c : DecodedPcmChunk) (out : PacketizeOutcome) :
  at_track before cur p None h -> Forall is_i16 c.(chunk_frames) ->
  push_contiguous_chunk c p = (Ok out, p') ->
  let cur' := mkTrack cur.(tk_id) cur.(tk_handle) (cur.(tk_pcm) ++ c.(chunk_frames)) in
  exists ds, out = mkPacketizeOutcome (map FAudio ds) c.(chunk_end_of_stream)
    /\ p'.(pk_finished) = c.(chunk_end_of_stream)
    /\ stream_view (before ++ [cur']) (h ++ map FAudio ds)
    /\ (c.(chunk_end_of_stream) = false -> at_track before cur' p' None (h ++ map FAudio ds))
    /\ (c.(chunk_end_of_stream) = true -> exists pad, (pad < full_packet p0)%nat
         /\ pcm_of (audio_of (h ++ map FAudio ds)) = all_pcm (before ++ [cur']) ++ replicate pad 0).
Proof.
  intros Hat Hi Hpush cur'. pose proof Hat as [Hopen (S1 & S2 & S3 & S4 & S5) Hnum Hsq Hpcm Hbs Hcount _ Hpl].
  destruct (push_accepts c p p' out Hi Hpush) as [Hfit Hmax].
  destruct (push_contiguous_facts c p Hopen Hfit Hmax)
    as (ds & pad & p1 & E & Hpcm1 & Hpad & Hpad0 & Hcar & Hfin & Hn1 & Hnext).
  rewrite Hpush in E. injection E as -> ->. exists ds.
  assert (forall i d, audio_of (h ++ map FAudio ds) !! i = Some d -> numbered p0 0 i d) as Hnum'.
  { intros i d. rewrite audio_of_app, audio_of_map. intros Hd.
    apply lookup_app_Some in Hd as [Hd|[Hge Hd]]; [by apply Hnum|].
    replace i with (length (audio_of h) + (i - length (audio_of h)))%nat by lia.
    apply (numbered_shift p0 p); try done; [rewrite Hseq0, Hsq; done|].
    replace (0 + Z.of_nat (length (audio_of h)) * pk_samples_per_packet p0)
      with (p.(pk_next_sequence) * p.(pk_samples_per_packet)) by (rewrite Hsq, S4; unfold len; lia).
    by apply Hn1. }
  assert (all_pcm (before ++ [cur']) = all_pcm (before ++ [cur]) ++ c.(chunk_frames)) as Hall
    by (rewrite !all_pcm_app, !all_pcm_one; cbn; by rewrite app_assoc).
  assert (pcm_of (audio_of (h ++ map FAudio ds)) ++ p1.(pk_carry)
          = all_pcm (before ++ [cur']) ++ replicate pad 0) as Hpcm'.
  { rewrite audio_of_app, audio_of_map, pcm_of_app, <- app_assoc, Hpcm1, app_assoc, Hpcm, Hall.
    by rewrite <- app_assoc. }
  assert (boundaries_of (h ++ map FAudio ds) ++ [] = boundaries_of h ++ []) as Hbs'
    by (by rewrite boundaries_of_app, boundaries_of_map, app_nil_r).
  assert (announces (before ++ [cur']) (boundaries_of (h ++ map FAudio ds) ++ [])) as Hann
    by (rewrite Hbs'; by apply (announces_grow before cur)).
  rewrite (full_packet_same p S3 S4) in Hpad.
  split_and!; try done.
  - split; [done| | |by apply placed_snoc_audio].
    + exists pad. split; [done|]. rewrite <- Hpcm'. by apply prefix_app_r.
    + by rewrite app_nil_r in Hann.
  - intros He. destruct (Hnext He) as (Hct & Hns & Hcu & T1 & T2 & T3 & T4 & T5).
    rewrite (Hpad0 He) in Hpcm'. cbn [replicate] in Hpcm'. rewrite app_nil_r in Hpcm'.
    split; try done.
    + split_and!; congruence.
    + rewrite Hns, Hsq, audio_of_app, audio_of_map, len_app. done.
    + by rewrite Hbs'.
    + by apply placed_snoc_audio.
  - intros He. exists pad. split; [done|]. by rewrite (Hcar He), app_nil_r in Hpcm'.
Qed.

(** The next track is committed. *)
Lemma at_track_next (before : list track) (cur : track) (p : Packetizer) (h : list ProtocolFrame)
  (id name : rstr) (handle : DecodeHandle) :
  at_track before cur p None h ->
  at_track (before ++ [cur]) (mkTrack id handle [])  p
    (Some (mkTrackBoundary p.(pk_session_id) p.(pk_stream_id) p.(pk_contiguous_sample_cursor) id name)) h.
Proof.
  intros Hat. destruct (cursor_frames _ _ _ _ _ Hat) as [Hcur _]. destruct Hat.
  rewrite app_nil_r in at_boundaries0, at_count0. split; try done.
  - rewrite all_pcm_app, all_pcm_one. cbn. by rewrite app_nil_r.
  - intros i b Hb. apply lookup_app_Some in Hb as [Hb|[Hge Hb]].
    + destruct (at_boundaries0 i b Hb) as (tk & Htk & He & Hx). apply lookup_lt_Some in Htk as Hlt.
      exists tk. rewrite lookup_app_l by done. rewrite take_app_le by lia. done.
    + destruct (i - length (boundaries_of h))%nat as [|k] eqn:E; [|by destruct k].
      injection Hb as <-. assert (i = length before) as -> by lia. eexists. split.
      * rewrite lookup_app_r by (rewrite length_app; cbn; lia).
        rewrite length_app. cbn [length]. replace (S (length before) - (length before + 1))%nat with 0%nat by lia.
        done.
      * split; [done|]. cbn. rewrite Hcur. f_equal. f_equal.
        rewrite take_app_length'; [done|]. rewrite length_app. cbn. lia.
  - rewrite !length_app in *. cbn in *. lia.
  - by intros b [= <-].
Qed.
End Stream.

(** ** The shared queue state *)

Section Queue.
Context (Fac : Factory -> Prop).

(** The updater as the producer knows it: [ids] were played, the last of them
    is current, and the pending edit, if any, is applicable. *)
Definition shared (ids : list rstr) (terminal : bool) (u : PlaylistUpdateState) : Prop :=
  updates_ok u /\ last ids = Some u.(pu_current_entry_id)
  /\ (forall id, id ∈ ids <-> id = u.(pu_current_entry_id) \/ id ∈ u.(pu_retired_entry_ids))
  /\ u.(pu_terminal) = terminal
  /\ (forall l, u.(pu_pending) = Some l -> Forall Fac l).

Lemma strip_shadow_sub (shadow : option rstr) (l : list Factory) :
  Forall Fac l -> Forall Fac (strip_shadow shadow l).
Proof.
  intros H. unfold strip_shadow. destruct shadow, l as [|f l]; try done.
  case_match; [|done]. by apply Forall_cons in H as [_ H].
Qed.

Lemma shared_stable (ids : list rstr) (terminal : bool) : stable (editor Fac) (shared ids terminal).
Proof.
  intros [l Hl] u (Hok & Hlast & Hids & Ht & Hf). unfold editor. cbn [proj1_sig].
  pose proof (replace_keeps l u) as (K1 & K2 & _ & K4).
  split; [by apply updates_ok_replace|]. rewrite K1, K2, K4. split_and!; try done.
  intros l'. unfold replace_upcoming. repeat case_match; cbn; try by apply Hf.
  intros [= <-]. by apply strip_shadow_sub.
Qed.

(** Entries that may still be played. *)
Definition queued (ids : list rstr) (upcoming : list Factory) : Prop :=
  NoDup (entry_ids upcoming) /\ Forall (fun id => id ∉ ids) (entry_ids upcoming) /\ Forall Fac upcoming.

Definition next_ids (next : option staged) : list rstr :=
  match next with Some ((id, _), _) => [id] | None => [] end.

(** A plan: the staged track and the queue behind it are distinct and not yet
    played, and the final-track flag tells whether a successor is staged. *)
Record plan_ok (ids : list rstr) (pl : plan) : Prop := {
po_ids : NoDup (next_ids pl.(pl_next) ++ entry_ids pl.(pl_upcoming));
po_fresh : Forall (fun id => id ∉ ids) (next_ids pl.(pl_next) ++ entry_ids pl.(pl_upcoming));
po_upcoming : Forall Fac pl.(pl_upcoming);
po_next : forall id name o, pl.(pl_next) = Some ((id, name), o) ->
  exists f, Fac f /\ f.(pf_entry_id) = id /\ f.(pf_open) = o;
po_open : pl.(pl_final_track) = false -> is_Some pl.(pl_next);
po_final : pl.(pl_final_track) = true -> ready_successor pl.(pl_next) = false
}.

Lemma open_next_ok (ids : list rstr) (upcoming : list Factory) (final : option staged -> bool) :
  (forall next, final next = false -> is_Some next) ->
  (forall next, final next = true -> ready_successor next = false) ->
  queued ids upcoming ->
  let '(next, upcoming) := open_next_track upcoming in plan_ok ids (mkPlan upcoming next (final next)).
Proof.
  intros Hf Ht (Hnd & Hfr & Hfac). destruct upcoming as [|f l]; cbn.
  - split; cbn; auto; try done; constructor.
  - apply Forall_cons in Hfac as [Hff Hfac]. split; cbn; try done; auto.
    + intros id name o [= <- <- <-]. by exists f.
    + apply Ht.
Qed.

Lemma replan_ok (ids : list rstr) (upcoming : list Factory) (pl : plan) :
  queued ids upcoming -> plan_ok ids pl -> plan_ok ids (replan upcoming pl.(pl_next)).
Proof.
  intros Hq Hpl.
  pose proof (open_next_ok ids upcoming (fun next => match next with None => true | Some _ => false end))
    as Hopen.
  assert (plan_ok ids (let '(next, upcoming) := open_next_track upcoming in
    mkPlan upcoming next (match next with None => true | Some _ => false end))) as Hdef.
  { revert Hopen. destruct (open_next_track upcoming). intros Hopen. apply Hopen; try done.
    - intros []; [by eauto|done].
    - by intros []. }
  unfold replan. destruct (pl_next pl) as [[[id name] [h|e]]|] eqn:En; try exact Hdef.
  destruct upcoming as [|f rest]; [exact Hdef|].
  destruct (same_staged_identity id name f) eqn:Es; [|exact Hdef].
  unfold same_staged_identity in Es. to_prop. subst id name. destruct Hq as (Hnd & Hfr & Hfac).
  apply Forall_cons in Hfac as [_ Hfac]. split; cbn; try done.
  intros id name o [= <- <- <-]. apply (po_next _ _ Hpl _ _ _ En).
Qed.

Lemma queued_pending (ids : list rstr) (terminal : bool) (u : PlaylistUpdateState) (upcoming : list Factory) :
  shared ids terminal u -> queued ids upcoming -> queued ids (default upcoming u.(pu_pending)).
Proof.
  intros (Hok & _ & Hids & _ & Hf) Hq. destruct (pu_pending u) as [l|] eqn:Ep; [|done]. cbn.
  destruct (apply_ok upcoming u Hok) as (_ & _ & Hfresh). destruct (Hfresh l Ep) as [Hnd Hall].
  split_and!; [done| |by apply Hf]. eapply Forall_impl; [exact Hall|].
  intros id [H1 H2] Hin. apply Hids in Hin. tauto.
Qed.

Lemma plan_queued (ids : list rstr) (pl : plan) : plan_ok ids pl -> queued ids pl.(pl_upcoming).
Proof.
  intros [Hnd Hfr Hf _ _ _]. apply NoDup_app in Hnd as (_ & _ & Hnd). apply Forall_app in Hfr as [_ Hfr].
  by split_and!.
Qed.

(** Taking the pending edit. *)
Lemma shared_apply (ids : list rstr) (terminal : bool) (u : PlaylistUpdateState) (upcoming : list Factory) :
  shared ids terminal u -> queued ids upcoming ->
  exists l, apply_playlist_update upcoming u = (Ok l, set_pending None u) /\ queued ids l
    /\ shared ids terminal (set_pending None u).
Proof.
  intros Hs Hq. pose proof Hs as (Hok & Hl & Hids & Ht & Hf).
  destruct (apply_ok upcoming u Hok) as (Ha & Hok' & _). eexists. split; [exact Ha|].
  split; [by apply (queued_pending ids terminal)|]. by split_and!.
Qed.

Lemma shared_seal (ids : list rstr) (u : PlaylistUpdateState) :
  shared ids false u ->
  let '(b, u') := seal_final_track_if_unmodified u in shared ids b u'.
Proof.
  intros Hs. pose proof Hs as ((Hc & Hp) & Hl & Hids & Ht & Hf). unfold seal_final_track_if_unmodified.
  destruct (pu_pending u) as [l|] eqn:Ep; [done|].
  split; [split; [done|cbn; by rewrite Ep]|]. split_and!; try done. cbn. by rewrite Ep.
Qed.

(** After a promotion the new entry is current and everything played before is retired. *)
Lemma shared_promote (ids : list rstr) (u : PlaylistUpdateState) (id : rstr) (rest : list rstr) (reserved : bool) :
  shared ids false u -> NoDup (id :: rest) -> Forall (fun id => id ∉ ids) (id :: rest) ->
  let '(b, u') := promote_current_entry_if_unmodified id reserved u in
  if b then shared (ids ++ [id]) false u' else u' = u.
Proof.
  intros (Hok & Hl & Hids & Ht & Hf) Hnd Hfr.
  pose proof (promote_ok id reserved u rest Hok) as H.
  destruct (promote_current_entry_if_unmodified id reserved u) as [b u']. destruct H as [Hok' H].
  { split; [done|]. eapply Forall_impl; [exact Hfr|]. intros x Hx. split; [intros ->|intros Hin];
      apply Hx, Hids; auto. }
  destruct b; [|done]. destruct H as (_ & Hp & Hc & Hr & _ & Ht'). split; [done|].
  rewrite last_snoc, Hc, Hr. split_and!; try done; [|congruence|by rewrite Hp].
  intros x. rewrite elem_of_app, Hids. set_solver.
Qed.
End Queue.

(** ** The producer under every interleaving *)

Section Producer.
Context (Fac : Factory -> Prop) (Htyped : forall f, Fac f -> typed_factory f).
Context (message : rstr) (capacity : Z).
Context (reserver : option (TrackBoundary -> bool -> result unit PacketizerWorkerError)).
Context (p0 : Packetizer) (id0 : rstr) (d0 : DecodeHandle).
Context (Hp0 : pk_ok p0) (Hseq0 : p0.(pk_next_sequence) = 0) (Hd0 : typed_responses d0.(dh_responses)).

Let anything : PlaylistUpdateState -> Prop := fun _ => True.

(** What a consumer may rely on at every moment. *)
Definition playlist_safe (w : playlist_world) : Prop :=
  exists tracks h, in_flight capacity anything h w /\ tracks_ok Fac id0 d0 tracks
    /\ stream_view p0 tracks h.

Definition safe (s : playlist_state Fac) : Prop := playlist_safe s.2.
Definition failed_safe (e : PacketizerWorkerError) (s : playlist_state Fac) : Prop := playlist_safe s.2.

Lemma safe_intro (tracks : list track) (h : list ProtocolFrame) (R : PlaylistUpdateState -> Prop)
  (s : playlist_state Fac) :
  tracks_ok Fac id0 d0 tracks -> stream_view p0 tracks h -> in_flight capacity R h s.2 -> safe s.
Proof.
  intros Ht Hv (held & Hh & Ha & Hhist & Hc & _). exists tracks, h. split_and!; try done.
  exists held. by split_and!.
Qed.

Section Fixed.
Context (ids : list rstr) (terminal : bool) (h : list ProtocolFrame).
Context (Hsafe : forall t (s : playlist_state Fac), in_flight capacity (shared Fac ids t) h s.2 -> safe s).

Notation quiet := (idle capacity (shared Fac ids terminal) h).

Lemma wpc_locked {A} (f : PlaylistUpdateState -> A * PlaylistUpdateState)
  (Q : A -> playlist_state Fac -> Prop) (s : playlist_state Fac) :
  quiet s.2 ->
  (forall sched c u, quiet (c, u) -> let '(a, u') := f u in Q a (sched, (c, u'))) ->
  wpc (locked Fac f) Q failed_safe safe s.
Proof.
  destruct s as [sched w]. cbn [snd]. intros Hw HQ. unfold locked, shared_access.
  eapply (wpc_atomic (chan_env (editor Fac)) quiet).
  - apply sending_emitted_stable, shared_stable.
  - done.
  - intros Hi. eapply (Hsafe terminal). by apply idle_in_flight.
  - intros sched' [c u] Hc. cbn [fst snd]. pose proof (HQ sched' c u Hc) as H. by destruct (f u).
Qed.

(** Replacing what is known of the updater. *)
Lemma idle_shared (R : PlaylistUpdateState -> Prop) (c : Channel ProtocolFrame) (u u' : PlaylistUpdateState) :
  quiet (c, u) -> R u' -> idle capacity R h (c, u').
Proof. intros [(Ha & Hh & Hc & _) He] HR. by split; [split_and!|]. Qed.

Lemma quiet_shared (c : Channel ProtocolFrame) (u : PlaylistUpdateState) :
  quiet (c, u) -> shared Fac ids terminal u.
Proof. by intros [(_ & _ & _ & H) _]. Qed.

Lemma ensure_quiet (s : playlist_state Fac) :
  quiet s.2 -> wpc (ensure_not_cancelled (editor Fac)) (fun _ s => quiet s.2) failed_safe safe s.
Proof.
  apply (ensure_spec (editor Fac) capacity (shared Fac ids terminal) (shared_stable Fac ids terminal)
           failed_safe safe h); [intros e s' _|intros s']; apply (Hsafe terminal).
Qed.

Lemma read_quiet {A} (f : Channel ProtocolFrame -> A) (s : playlist_state Fac) :
  quiet s.2 -> wpc (channel_access (editor Fac) (fun c => (f c, c))) (fun _ s => quiet s.2) failed_safe safe s.
Proof.
  intros Hs. eapply (wpc_channel_access (editor Fac) capacity (shared Fac ids terminal)
    (shared_stable Fac ids terminal) failed_safe safe 0 h (emitted_after h)); try done; [lia|].
  intros s' Hf. by apply (Hsafe terminal).
Qed.

Lemma summary_quiet (s : playlist_state Fac) :
  quiet s.2 ->
  wpc (completed_summary (editor Fac))
    (fun summary s => quiet s.2 /\ summary.(summary_state) = WorkerCompleted) failed_safe safe s.
Proof.
  intros Hs. eapply wpc_mono; [apply (summary_spec (editor Fac) capacity (shared Fac ids terminal)
    (shared_stable Fac ids terminal) failed_safe safe h)|..]; try done.
  - intros s' Hf. by apply (Hsafe terminal).
  - cbn. intros summary s' (H1 & H2 & _). by split.
Qed.

Lemma refresh_quiet (pl : plan) (s : playlist_state Fac) :
  quiet s.2 -> plan_ok Fac ids pl ->
  wpc (refresh_pending_playlist_update Fac pl)
    (fun pl' s => quiet s.2 /\ plan_ok Fac ids pl' /\ (terminal = true -> pl' = pl)) failed_safe safe s.
Proof.
  intros Hs Hpl. unfold refresh_pending_playlist_update. apply wpc_bind.
  eapply wpc_locked; [done|]. intros sched c u Hu. cbn [has_update].
  destruct (bool_decide (is_Some (pu_pending u))) eqn:Ep; cbn [negb]; [|by apply wpc_ret].
  assert (terminal = false) as Hterm.
  { to_prop. destruct Ep as [l El]. destruct (quiet_shared c u Hu) as ([_ Hp] & _ & _ & Ht & _).
    rewrite El in Hp. destruct Hp. congruence. }
  apply wpc_bind. eapply wpc_locked; [done|]. clear sched c u Hu Ep. intros sched c u Hu.
  destruct (shared_apply Fac ids terminal u (pl_upcoming pl) (quiet_shared c u Hu) (plan_queued Fac ids pl Hpl))
    as (l & -> & Hq & Hsh).
  apply wpc_bind, wpc_lift, wpc_ret. split_and!; [by apply (idle_shared _ c u)|by apply replan_ok|congruence].
Qed.

Lemma send_quiet (frames : list ProtocolFrame) (s : playlist_state Fac) :
  (forall k s, k `prefix_of` frames -> in_flight capacity (shared Fac ids terminal) (h ++ k) s.2 -> safe s) ->
  quiet s.2 ->
  wpc (for_each (send Fac capacity) frames)
    (fun _ s => idle capacity (shared Fac ids terminal) (h ++ frames) s.2) failed_safe safe s.
Proof.
  intros HV Hs. apply (send_all_spec (editor Fac) capacity (shared Fac ids terminal)
    (shared_stable Fac ids terminal) failed_safe safe h frames s); try done.
  intros k e s' Hk _ Hf. by apply (HV k).
Qed.
End Fixed.

Section Sealing.
Context (ids : list rstr) (h : list ProtocolFrame).
Context (Hsafe : forall t (s : playlist_state Fac), in_flight capacity (shared Fac ids t) h s.2 -> safe s).

(** The seal either closes the updater or yields to an edit that staged a successor. *)
Lemma seal_quiet (pl : plan) (s : playlist_state Fac) :
  idle capacity (shared Fac ids false) h s.2 -> plan_ok Fac ids pl -> pl.(pl_final_track) = true ->
  wpc (worker_loop (seal_step Fac) pl)
    (fun pl' s => idle capacity (shared Fac ids pl'.(pl_final_track)) h s.2 /\ plan_ok Fac ids pl')
    failed_safe safe s.
Proof.
  intros Hs Hpl Hfin.
  apply (wpc_worker_loop _ (fun pl s => idle capacity (shared Fac ids false) h s.2 /\ plan_ok Fac ids pl
                                       /\ pl.(pl_final_track) = true)); [done| |].
  { intros ? s' [Hi _]. eapply (Hsafe false). by apply idle_in_flight. }
  clear pl s Hs Hpl Hfin. intros pl s (Hs & Hpl & Hfin). unfold seal_step. apply wpc_bind.
  eapply (wpc_locked ids false h Hsafe); [done|]. intros sched c u Hu.
  pose proof (shared_seal Fac ids u (quiet_shared ids false h c u Hu)) as Hseal.
  destruct (seal_final_track_if_unmodified u) as [[] u'].
  - apply wpc_ret. split; [|done]. rewrite Hfin. by apply (idle_shared ids false h _ c u).
  - apply wpc_bind.
    eapply wpc_mono; [apply (refresh_quiet ids false h Hsafe pl); [|done]|..]; try done.
    + by apply (idle_shared ids false h _ c u).
    + cbn. intros pl' s' (Hs' & Hpl' & _). destruct (pl_final_track pl') eqn:Ef; apply wpc_ret; cbn.
      * by split_and!.
      * by rewrite Ef.
Qed.
End Sealing.

(** ** One track *)

Lemma tracks_ok_grow (before : list track) (cur : track) (pcm : list Z) :
  tracks_ok Fac id0 d0 (before ++ [cur]) -> pcm `prefix_of` track_pcm cur.(tk_handle).(dh_responses) ->
  tracks_ok Fac id0 d0 (before ++ [mkTrack cur.(tk_id) cur.(tk_handle) pcm]).
Proof.
  intros [Hid Hfst Hor Hpcm] Hpre.
  assert (played (before ++ [mkTrack (tk_id cur) (tk_handle cur) pcm]) = played (before ++ [cur])) as Hpl
    by (unfold played; by rewrite !map_app).
  split; rewrite ?Hpl; try done.
  - intros tk. rewrite elem_of_app, list_elem_of_singleton. intros [Hin| ->]; [apply Hor; set_solver|].
    apply (Hor cur). set_solver.
  - intros i tk Hi. rewrite length_app. cbn [length].
    apply lookup_app_Some in Hi as [Hi|[Hge Hi]].
    + destruct (Hpcm i tk) as [H1 H2]; [by apply lookup_app_l_Some|].
      rewrite length_app in H2. done.
    + destruct (i - length before)%nat as [|k] eqn:E; [|by destruct k]. injection Hi as <-. cbn.
      split; [done|]. lia.
Qed.

(** A complete track is followed by the next one. *)
Lemma tracks_ok_next (before : list track) (cur : track) (id : rstr) (handle : DecodeHandle) :
  tracks_ok Fac id0 d0 (before ++ [cur]) -> cur.(tk_pcm) = track_pcm cur.(tk_handle).(dh_responses) ->
  id ∉ played (before ++ [cur]) -> from_queue Fac id0 d0 id handle ->
  tracks_ok Fac id0 d0 ((before ++ [cur]) ++ [mkTrack id handle []]).
Proof.
  intros [Hid Hfst Hor Hpcm] Hcur Hfresh Hq. split.
  - unfold played in *. rewrite map_app. apply NoDup_app. split_and!; [done| |apply NoDup_singleton].
    intros x Hx Hin. apply list_elem_of_singleton in Hin. cbn in Hin. by subst x.
  - unfold played in *. rewrite map_app. destruct (map tk_id (before ++ [cur])); [done|exact Hfst].
  - intros tk. rewrite elem_of_app, list_elem_of_singleton. intros [Hin| ->]; [by apply Hor|done].
  - intros i tk Hi. apply lookup_app_Some in Hi as [Hi|[Hge Hi]].
    + destruct (Hpcm i tk Hi) as [H1 H2]. split; [done|]. intros _.
      apply lookup_app_Some in Hi as [Hi|[Hge Hi]].
      * apply H2. apply lookup_lt_Some in Hi. rewrite length_app. cbn. lia.
      * destruct (i - length before)%nat as [|k] eqn:E; [|by destruct k]. by injection Hi as <-.
    + destruct (i - length (before ++ [cur]))%nat as [|k] eqn:E; [|by destruct k]. injection Hi as <-. cbn.
      split; [apply prefix_nil|]. rewrite !length_app. cbn. rewrite length_app in Hge. cbn in Hge. lia.
Qed.

(** The stream has ended with the last track. *)
Definition stream_ended (tracks : list track) (h : list ProtocolFrame) : Prop :=
  stream_view p0 tracks h /\ S (length (boundaries_of h)) = length tracks
  /\ exists pad, (pad < full_packet p0)%nat
       /\ pcm_of (audio_of h) = all_pcm tracks ++ replicate pad 0.

(** The producer after its track: finished with the sealed stream, or ready
    for a successor. *)
Definition after_track (before : list track) (cur : track) (p : Packetizer) (final : bool)
  (h : list ProtocolFrame) : Prop :=
  if final then p.(pk_finished) = true /\ stream_ended (before ++ [cur]) h
  else at_track p0 before cur p None h.

Definition boundary_frame (pending : option TrackBoundary) : option ProtocolFrame :=
  (fun b => FControl (CTrackBoundary b)) <$> pending.

Lemma announce_spec (before : list track) (cur : track) (p : Packetizer) (pending : option TrackBoundary)
  (h : list ProtocolFrame) (s : playlist_state Fac) :
  at_track p0 before cur p pending h -> tracks_ok Fac id0 d0 (before ++ [cur]) ->
  idle capacity (shared Fac (played (before ++ [cur])) false) h s.2 ->
  wpc (match boundary_frame pending with Some b => send Fac capacity b | None => mret tt end)
    (fun _ s => exists h', at_track p0 before cur p None h'
       /\ idle capacity (shared Fac (played (before ++ [cur])) false) h' s.2) failed_safe safe s.
Proof.
  intros Hat Htr Hs. destruct pending as [b|]; cbn [boundary_frame fmap option_fmap option_map].
  - pose proof (at_track_announce p0 Hp0 before cur p b h Hat) as Hat'.
    eapply wpc_mono; [apply (send_spec (editor Fac) capacity _
      (shared_stable Fac (played (before ++ [cur])) false) failed_safe safe h)|..];
      try done.
    + intros e s' _ Hf. eapply safe_intro; [exact Htr| |exact Hf]. by eapply at_track_view.
    + intros s' Hf. eapply safe_intro; [exact Htr| |exact Hf]. by eapply at_track_view.
    + intros s' Hf. eapply safe_intro; [exact Htr| |exact Hf]. by eapply at_track_view.
    + cbn beta. intros _ s' Hs'. by eexists.
  - apply wpc_ret. by exists h.
Qed.

Lemma packetize_track_spec (responses : list recv_response) (before : list track) (cur : track)
  (p : Packetizer) (pl : plan) (pending : option TrackBoundary) (h : list ProtocolFrame)
  (s : playlist_state Fac) :
  at_track p0 before cur p pending h -> tracks_ok Fac id0 d0 (before ++ [cur]) ->
  typed_responses responses ->
  cur.(tk_pcm) ++ track_pcm responses = track_pcm cur.(tk_handle).(dh_responses) ->
  plan_ok Fac (played (before ++ [cur])) pl ->
  idle capacity (shared Fac (played (before ++ [cur])) false) h s.2 ->
  wpc (packetize_playlist_track Fac message capacity responses p pl (boundary_frame pending))
    (fun '(_, p', pl') s => exists cur' h',
       cur'.(tk_id) = cur.(tk_id) /\ cur'.(tk_handle) = cur.(tk_handle)
       /\ cur'.(tk_pcm) = track_pcm cur.(tk_handle).(dh_responses)
       /\ tracks_ok Fac id0 d0 (before ++ [cur']) /\ plan_ok Fac (played (before ++ [cur'])) pl'
       /\ after_track before cur' p' pl'.(pl_final_track) h'
       /\ idle capacity (shared Fac (played (before ++ [cur'])) pl'.(pl_final_track)) h' s.2)
    failed_safe safe s.
Proof.
  revert cur p pl pending h s.
  induction responses as [|r responses IH]; intros cur p pl pending h s Hat Htr Hty Hrest Hpl Hs;
    cbn [packetize_playlist_track].
  all: pose proof (at_track_view p0 Hp0 _ _ _ _ _ Hat) as Hview.
  all: assert (forall t (s : playlist_state Fac),
         in_flight capacity (shared Fac (played (before ++ [cur])) t) h s.2 -> safe s) as Hsafe
    by (intros; by eapply safe_intro).
  all: apply wpc_bind; eapply wpc_mono; [by apply (ensure_quiet _ false h Hsafe)|..]; try done; cbn beta;
    clear s Hs; intros _ s Hs.
  all: apply wpc_bind; eapply wpc_mono; [by apply (refresh_quiet _ false h Hsafe pl)|..]; try done; cbn beta;
    clear s Hs; intros pl' s (Hs & Hpl' & _); clear pl Hpl; rename pl' into pl, Hpl' into Hpl.
  all: apply wpc_bind; eapply wpc_mono; [by apply (read_quiet _ false h Hsafe (fun _ => tt))|..]; try done;
    cbn beta; clear s Hs; intros _ s Hs.
  - apply wpc_raise. eapply (Hsafe false). by apply idle_in_flight.
  - apply Forall_cons in Hty as [Hr Hty]. destruct r as [c|]; [|by apply (IH cur p pl pending h s)].
    cbn [track_pcm] in Hrest. apply wpc_bind.
    eapply wpc_mono; [by apply (announce_spec before cur p pending h s)|..]; try done.
    clear s Hs Hview Hsafe Hat h. cbn beta. intros _ s (h & Hat & Hs).
    pose proof (at_track_view p0 Hp0 _ _ _ _ _ Hat) as Hview.
    assert (forall t (s : playlist_state Fac),
         in_flight capacity (shared Fac (played (before ++ [cur])) t) h s.2 -> safe s) as Hsafe
      by (intros; by eapply safe_intro).
    apply wpc_bind.
    eapply wpc_mono with (Q := fun pl' s => plan_ok Fac (played (before ++ [cur])) pl' /\
      idle capacity (shared Fac (played (before ++ [cur])) (chunk_end_of_stream c && pl_final_track pl')) h s.2);
      [|clear s Hs pl Hpl|done..].
    { destruct (chunk_end_of_stream c); cbn [andb]; [|by apply wpc_ret].
      destruct (pl_final_track pl) eqn:Ef; [|apply wpc_ret; by rewrite Ef].
      eapply wpc_mono; [by apply (seal_quiet _ h Hsafe pl)|..]; try done. cbn. tauto. }
    cbn beta. intros pl s (Hpl & Hs). set (e := chunk_end_of_stream c && pl_final_track pl) in *.
    destruct (push_contiguous_chunk (with_end c e) p) as [[out|err] p'] eqn:Epush; cbn [map_err].
    2: { apply wpc_bind, wpc_lift. cbn [map_err]. eapply (Hsafe e). by apply idle_in_flight. }
    unfold lift_packetizer. apply wpc_bind, wpc_lift. cbn [map_err].
    destruct (at_track_push p0 Hp0 Hseq0 before cur p p' h (with_end c e) out Hat Hr Epush)
      as (ds & -> & Hfin & Hview' & Hgo & Hend). cbn [with_end chunk_end_of_stream chunk_frames] in *.
    set (cur' := mkTrack (tk_id cur) (tk_handle cur) (tk_pcm cur ++ chunk_frames c)) in *.
    assert (tracks_ok Fac id0 d0 (before ++ [cur'])) as Htr'.
    { apply tracks_ok_grow; [done|]. rewrite <- Hrest, app_assoc. by apply prefix_app_r. }
    assert (played (before ++ [cur']) = played (before ++ [cur])) as Hplayed
      by (unfold played; by rewrite !map_app).
    apply wpc_bind. eapply wpc_mono; [apply (send_quiet (played (before ++ [cur])) e h)|..]; [|done|cbn beta|done..].
    { intros k s' Hk Hf. eapply safe_intro; [exact Htr'| |exact Hf].
      eapply stream_view_prefix; [|exact Hview']. by apply prefix_app. }
    clear s Hs. intros _ s Hs. rewrite <- Hplayed in Hs.
    assert (forall t (s : playlist_state Fac),
         in_flight capacity (shared Fac (played (before ++ [cur'])) t) (h ++ map FAudio ds) s.2 -> safe s) as Hsafe'
      by (intros; by eapply safe_intro).
    destruct (chunk_end_of_stream c) eqn:Ee; cbn [andb] in e.
    + cbn [outcome_end_of_stream]. rewrite andb_negb_r. apply wpc_bind.
      eapply wpc_mono; [by apply (summary_quiet _ e _ Hsafe')|..]; try done. cbn beta.
      intros summary s' [Hs' _]. apply wpc_ret. exists cur', (h ++ map FAudio ds).
      split_and!; try done.
      * cbn. rewrite <- Hrest, app_nil_r. done.
      * by rewrite Hplayed.
      * unfold after_track. subst e. destruct (pl_final_track pl); [|by apply Hgo].
        split; [done|]. split; [done|]. split; [|by apply Hend].
        rewrite boundaries_of_app, boundaries_of_map, app_nil_r, length_app. cbn.
        pose proof (at_count _ _ _ _ _ _ Hat) as Hcount. rewrite app_nil_r in Hcount. lia.
    + eapply wpc_mono; [apply (IH cur' p' pl None (h ++ map FAudio ds) s)|..]; try done.
      * by apply Hgo.
      * cbn. by rewrite <- Hrest, app_assoc.
      * by rewrite Hplayed.
Qed.

(** ** From one track to the next *)

(** The locals of the outer loop. *)
Definition loop_inv (ts : track_state) (s : playlist_state Fac) : Prop :=
  exists before cur pending h,
    at_track p0 before cur ts.(ts_packetizer) pending h
    /\ tracks_ok Fac id0 d0 (before ++ [cur])
    /\ cur.(tk_handle) = ts.(ts_decoder) /\ cur.(tk_pcm) = []
    /\ ts.(ts_boundary) = boundary_frame pending
    /\ queued Fac (played (before ++ [cur])) ts.(ts_upcoming)
    /\ idle capacity (shared Fac (played (before ++ [cur])) false) h s.2.

(** A completed stream. *)
Definition playlist_complete (w : playlist_world) : Prop :=
  exists tracks h, in_flight capacity anything h w /\ tracks_ok Fac id0 d0 tracks
    /\ (forall tk, tk ∈ tracks -> tk.(tk_pcm) = track_pcm tk.(tk_handle).(dh_responses))
    /\ stream_ended tracks h.

Definition step_post (r : track_state + PacketizerSummary) (s : playlist_state Fac) : Prop :=
  match r with inl ts => loop_inv ts s | inr _ => playlist_complete s.2 end.

Lemma tracks_complete (before : list track) (cur : track) :
  tracks_ok Fac id0 d0 (before ++ [cur]) -> cur.(tk_pcm) = track_pcm cur.(tk_handle).(dh_responses) ->
  forall tk, tk ∈ before ++ [cur] -> tk.(tk_pcm) = track_pcm tk.(tk_handle).(dh_responses).
Proof.
  intros Htr Hcur tk Htk. apply list_elem_of_lookup_1 in Htk as [i Hi].
  destruct (to_pcm _ _ _ _ Htr i tk Hi) as [_ Hc].
  apply lookup_app_Some in Hi as [Hi|[Hge Hi]].
  - apply Hc. apply lookup_lt_Some in Hi. rewrite length_app. cbn. lia.
  - destruct (i - length before)%nat as [|k]; [|by destruct k]. by injection Hi as <-.
Qed.

Lemma complete_intro (before : list track) (cur : track) (h : list ProtocolFrame)
  (R : PlaylistUpdateState -> Prop) (w : playlist_world) :
  tracks_ok Fac id0 d0 (before ++ [cur]) -> cur.(tk_pcm) = track_pcm cur.(tk_handle).(dh_responses) ->
  stream_ended (before ++ [cur]) h -> idle capacity R h w -> playlist_complete w.
Proof.
  intros Htr Hcur Hend [(Ha & Hh & Hc & _) _]. exists (before ++ [cur]), h. split_and!; try done.
  - exists 0%nat. split; [lia|]. by split_and!.
  - by apply tracks_complete.
Qed.

Section Between.
Context (before : list track) (cur : track) (p : Packetizer) (h : list ProtocolFrame).
Context (Htr : tracks_ok Fac id0 d0 (before ++ [cur])).
Context (Hcur : cur.(tk_pcm) = track_pcm cur.(tk_handle).(dh_responses)).
Context (Hat : at_track p0 before cur p None h).
Let ids := played (before ++ [cur]).

Lemma between_safe (t : bool) (s : playlist_state Fac) :
  in_flight capacity (shared Fac ids t) h s.2 -> safe s.
Proof. intros Hf. eapply safe_intro; [exact Htr| |exact Hf]. by eapply at_track_view. Qed.

(** The staged successor joins the played tracks. *)
Lemma successor_ok (pl : plan) (id name : rstr) (handle : DecodeHandle) :
  plan_ok Fac ids pl -> pl.(pl_next) = Some ((id, name), Ok handle) ->
  tracks_ok Fac id0 d0 ((before ++ [cur]) ++ [mkTrack id handle []])
  /\ queued Fac (ids ++ [id]) pl.(pl_upcoming) /\ typed_responses handle.(dh_responses).
Proof.
  intros Hpl Hn. destruct (po_next _ _ _ Hpl _ _ _ Hn) as (f & Hf & Hid & Hop).
  pose proof (po_ids _ _ _ Hpl) as Hnd. pose proof (po_fresh _ _ _ Hpl) as Hfr. rewrite Hn in Hnd, Hfr.
  cbn in Hnd, Hfr. apply NoDup_cons in Hnd as [Hni Hnd]. apply Forall_cons in Hfr as [Hfr1 Hfr].
  split; [apply tracks_ok_next; try done; right; by exists f|]. split; [|by apply (Htyped f)].
  split; [done|]. split; [|apply (po_upcoming _ _ _ Hpl)].
  rewrite Forall_forall in Hfr |- *. intros x Hx Hin. apply elem_of_app in Hin as [Hin|Hin].
  - by apply (Hfr x).
  - apply list_elem_of_singleton in Hin. by subst x.
Qed.

(** The promotion loop leaves with an unready successor, or with the
    successor made current in the same step that found no edit pending. *)
Lemma promote_spec (pl : plan) (s : playlist_state Fac) :
  plan_ok Fac ids pl -> idle capacity (shared Fac ids false) h s.2 ->
  wpc (worker_loop (promote_step Fac reserver) pl)
    (fun pl' s => plan_ok Fac ids pl' /\
       match pl'.(pl_next) with
       | Some ((id, _), Ok _) => idle capacity (shared Fac (ids ++ [id]) false) h s.2
       | _ => idle capacity (shared Fac ids false) h s.2
       end) failed_safe safe s.
Proof.
  intros Hpl Hs.
  apply (wpc_worker_loop _ (fun pl s => plan_ok Fac ids pl /\ idle capacity (shared Fac ids false) h s.2));
    [done| |].
  { intros ? s' [_ Hi]. eapply (between_safe false). by apply idle_in_flight. }
  clear pl s Hpl Hs. intros pl s [Hpl Hs]. unfold promote_step.
  destruct (pl_next pl) as [[[id name] [handle|e]]|] eqn:En;
    [|apply wpc_ret; split; [done|by rewrite En]..].
  apply wpc_bind. eapply (wpc_locked ids false h between_safe); [done|]. intros sched c u Hu.
  pose proof (shared_promote Fac ids u id (entry_ids (pl_upcoming pl)) (bool_decide (is_Some reserver))
    (quiet_shared ids false h c u Hu)) as Hpr.
  destruct (promote_current_entry_if_unmodified id _ u) as [[] u'].
  - apply wpc_ret. split; [done|]. rewrite En. apply (idle_shared ids false h _ c u); [done|].
    pose proof (po_ids _ _ _ Hpl) as Hnd. pose proof (po_fresh _ _ _ Hpl) as Hfr.
    rewrite En in Hnd, Hfr. by apply Hpr.
  - rewrite Hpr; [|pose proof (po_ids _ _ _ Hpl) as Hnd; by rewrite En in Hnd
                  |pose proof (po_fresh _ _ _ Hpl) as Hfr; by rewrite En in Hfr].
    apply wpc_bind. eapply wpc_mono; [by apply (refresh_quiet ids false h between_safe pl)|..]; try done.
    cbn beta. intros pl' s' (Hs' & Hpl' & _). by apply wpc_ret.
Qed.

(** A removed successor ends the stream without new samples. *)
Lemma retarget_end_spec (format : AudioFormat) (s : playlist_state Fac) :
  idle capacity (shared Fac ids false) h s.2 ->
  wpc (let '(pushed, _) := push_contiguous_chunk (end_chunk format) p in
      outcome ← lift_packetizer message pushed;
      _ ← for_each (send Fac capacity) outcome.(outcome_frames);
      summary ← completed_summary (editor Fac);
      mret (inr summary) : pprog Fac (track_state + PacketizerSummary))
    step_post failed_safe safe s.
Proof.
  intros Hs. destruct (push_contiguous_chunk (end_chunk format) p) as [[out|err] p'] eqn:Epush.
  2: { apply wpc_bind, wpc_lift. cbn [map_err]. eapply (between_safe false). by apply idle_in_flight. }
  unfold lift_packetizer. apply wpc_bind, wpc_lift. cbn [map_err].
  destruct (at_track_push p0 Hp0 Hseq0 before cur p p' h (end_chunk format) out Hat) as
    (ds & -> & _ & Hview & _ & Hend); [constructor|done|]. cbn [end_chunk chunk_frames] in *.
  rewrite app_nil_r in Hview, Hend.
  assert (mkTrack (tk_id cur) (tk_handle cur) (tk_pcm cur) = cur) as Hc by (by destruct cur).
  rewrite Hc in Hview, Hend.
  assert (forall k t (s : playlist_state Fac), k `prefix_of` map FAudio ds ->
    in_flight capacity (shared Fac ids t) (h ++ k) s.2 -> safe s) as Hsafe.
  { intros k t s' Hk Hf. eapply safe_intro; [exact Htr| |exact Hf].
    eapply stream_view_prefix; [|exact Hview]. by apply prefix_app. }
  apply wpc_bind. eapply wpc_mono; [apply (send_quiet ids false h)|..]; [|done|cbn beta|done..].
  { intros k s' Hk. by apply (Hsafe k false). }
  clear s Hs. intros _ s Hs. apply wpc_bind.
  eapply wpc_mono; [apply (summary_quiet ids false (h ++ map FAudio ds))|..]; [|done|cbn beta|done..].
  { intros t s'. by apply Hsafe. }
  intros summary s' [Hs' _]. apply wpc_ret. eapply complete_intro; [exact Htr|exact Hcur| |exact Hs'].
  split; [done|]. split; [|by apply Hend].
  rewrite boundaries_of_app, boundaries_of_map, app_nil_r, length_app. cbn.
  pose proof (at_count _ _ _ _ _ _ Hat) as Hcount. rewrite app_nil_r in Hcount. lia.
Qed.
End Between.

(** The end of a sealed stream. *)
Lemma finish_final_spec (ts : track_state) (before : list track) (cur : track) (p : Packetizer) (pl : plan)
  (h : list ProtocolFrame) (s : playlist_state Fac) :
  tracks_ok Fac id0 d0 (before ++ [cur]) -> cur.(tk_pcm) = track_pcm cur.(tk_handle).(dh_responses) ->
  plan_ok Fac (played (before ++ [cur])) pl -> pl.(pl_final_track) = true ->
  stream_ended (before ++ [cur]) h -> idle capacity (shared Fac (played (before ++ [cur])) true) h s.2 ->
  wpc (finish_track Fac message capacity reserver ts p pl) step_post failed_safe safe s.
Proof.
  intros Htr Hcur Hpl Hfin Hend Hs. set (ids := played (before ++ [cur])) in *.
  assert (forall t (s : playlist_state Fac), in_flight capacity (shared Fac ids t) h s.2 -> safe s) as Hsafe
    by (intros t s' Hf; eapply safe_intro; [exact Htr|apply Hend|exact Hf]).
  pose proof (po_final _ _ _ Hpl Hfin) as Hready.
  unfold finish_track. apply wpc_bind.
  eapply wpc_mono with (Q := fun pl' s => pl' = pl /\ idle capacity (shared Fac ids true) h s.2);
    [|clear s Hs; cbn beta|done..].
  { destruct (bool_decide _); [|by apply wpc_ret].
    eapply wpc_mono; [by apply (refresh_quiet ids true h Hsafe pl)|..]; try done.
    cbn. intros pl' s' (Hs' & _ & He). split; [by apply He|done]. }
  intros ? s [-> Hs]. apply wpc_bind.
  apply (wpc_worker_loop _ (fun pl' s => pl' = pl /\ idle capacity (shared Fac ids true) h s.2)); [done| |].
  { intros ? s' [_ Hi]. eapply (Hsafe true). by apply idle_in_flight. }
  clear s Hs. intros ? s [-> Hs]. unfold promote_step.
  destruct (pl_next pl) as [[[id name] [handle|e]]|] eqn:En; [done|..]; apply wpc_ret; rewrite En.
  - apply wpc_raise. eapply (Hsafe true). by apply idle_in_flight.
  - rewrite bool_decide_eq_false_2 by (by intros [? ?]). apply wpc_bind.
    eapply wpc_mono; [by apply (summary_quiet ids true h Hsafe)|..]; try done. cbn beta.
    intros summary s' [Hs' _]. apply wpc_ret. by eapply complete_intro.
Qed.

(** A successor takes over, or the stream ends because it was removed. *)
Lemma finish_open_spec (ts : track_state) (before : list track) (cur : track) (p : Packetizer) (pl : plan)
  (h : list ProtocolFrame) (s : playlist_state Fac) :
  tracks_ok Fac id0 d0 (before ++ [cur]) -> cur.(tk_pcm) = track_pcm cur.(tk_handle).(dh_responses) ->
  plan_ok Fac (played (before ++ [cur])) pl -> pl.(pl_final_track) = false ->
  at_track p0 before cur p None h -> idle capacity (shared Fac (played (before ++ [cur])) false) h s.2 ->
  wpc (finish_track Fac message capacity reserver ts p pl) step_post failed_safe safe s.
Proof.
  intros Htr Hcur Hpl Hfin Hat Hs. set (ids := played (before ++ [cur])) in *.
  pose proof (between_safe before cur p h Htr Hat) as Hsafe. fold ids in Hsafe.
  unfold finish_track. rewrite bool_decide_eq_true_2 by (by apply (po_open _ _ _ Hpl)).
  apply wpc_bind. eapply wpc_mono; [by apply (refresh_quiet ids false h Hsafe pl)|..]; try done. cbn beta.
  clear s Hs. intros pl1 s (Hs & Hpl1 & _). clear pl Hpl Hfin. rename pl1 into pl, Hpl1 into Hpl. apply wpc_bind.
  eapply wpc_mono; [by apply (promote_spec before cur p h Htr Hat pl)|..]; try done. cbn beta.
  clear s Hs. intros pl2 s [Hpl2 Hs]. clear pl Hpl. rename pl2 into pl, Hpl2 into Hpl. fold ids in Hpl, Hs.
  destruct (pl_next pl) as [[[id name] [handle|e]]|] eqn:En.
  - destruct (successor_ok before cur Htr Hcur pl id name handle Hpl En) as (Htr' & Hq & Hty).
    pose proof (at_track_next p0 Hp0 before cur p h id name handle Hat) as Hat'.
    assert (played ((before ++ [cur]) ++ [mkTrack id handle []]) = ids ++ [id]) as Hids
      by (unfold ids, played; by rewrite !map_app).
    set (b := mkTrackBoundary _ _ _ _ _) in *.
    assert (forall s, idle capacity (shared Fac (ids ++ [id]) false) h s.2 ->
      step_post (inl (mkTrackState handle name (pl_upcoming pl) p (Some (FControl (CTrackBoundary b))))) s)
      as Hnext.
    { intros s' Hs'. exists (before ++ [cur]), (mkTrack id handle []), (Some b), h.
      rewrite Hids. by split_and!. }
    destruct reserver as [reserve|]; [|by apply wpc_ret, Hnext].
    assert (forall t (s : playlist_state Fac),
      in_flight capacity (shared Fac (ids ++ [id]) t) h s.2 -> safe s) as Hsafe'.
    { intros t s' Hf. eapply safe_intro; [exact Htr'| |exact Hf]. by eapply at_track_view. }
    apply wpc_bind. eapply wpc_mono; [by apply (read_quiet (ids ++ [id]) false h Hsafe' ch_cancelled)|..]; try done.
    cbn beta. intros cancelled s' Hs'. destruct (reserve b cancelled); [by apply wpc_ret, Hnext|].
    assert (safe s') as Hsf by (eapply (Hsafe' false); by apply idle_in_flight).
    apply wpc_bind, wpc_lift. unfold merge_decoder_shutdown_result. by repeat case_match.
  - apply wpc_raise. eapply (Hsafe false). by apply idle_in_flight.
  - rewrite (ct_open _ (at_open _ _ _ _ _ _ Hat)). by apply (retarget_end_spec before cur p h Htr Hcur Hat).
Qed.

Lemma merge_err (e : PacketizerWorkerError) (d : result DecodeSummary DecodeError) :
  exists e', merge_decoder_shutdown_result (Err e) d = Err e'.
Proof. unfold merge_decoder_shutdown_result. repeat case_match; eauto. Qed.

Lemma from_queue_typed (id : rstr) (handle : DecodeHandle) :
  from_queue Fac id0 d0 id handle -> typed_responses handle.(dh_responses).
Proof. intros [[_ ->]|(f & Hf & _ & Ho)]; [done|]. by apply (Htyped f). Qed.

Lemma playlist_step_spec (ts : track_state) (s : playlist_state Fac) :
  loop_inv ts s ->
  wpc (playlist_step Fac message capacity reserver ts) step_post failed_safe safe s.
Proof.
  intros (before & cur & pending & h & Hat & Htr & Hh & Hpcm & Hb & Hq & Hs).
  assert (typed_responses ts.(ts_decoder).(dh_responses)) as Hty.
  { rewrite <- Hh. apply (from_queue_typed cur.(tk_id)), (to_origin _ _ _ _ Htr). set_solver. }
  set (ids := played (before ++ [cur])) in *.
  assert (forall t (s : playlist_state Fac), in_flight capacity (shared Fac ids t) h s.2 -> safe s) as Hsafe.
  { intros t s' Hf. eapply safe_intro; [exact Htr| |exact Hf]. by eapply at_track_view. }
  unfold playlist_step. apply wpc_bind.
  eapply wpc_mono; [by apply (ensure_quiet ids false h Hsafe)|..]; try done. cbn beta.
  clear s Hs. intros _ s Hs. apply wpc_bind. eapply (wpc_locked ids false h Hsafe); [done|].
  clear s Hs. intros sched c u Hu.
  destruct (shared_apply Fac ids false u (ts_upcoming ts) (quiet_shared ids false h c u Hu) Hq)
    as (upcoming & -> & Hq' & Hsh).
  apply wpc_bind, wpc_lift.
  pose proof (open_next_ok Fac ids upcoming (fun next => negb (ready_successor next))) as Hopen.
  destruct (open_next_track upcoming) as [next rest].
  assert (plan_ok Fac ids (mkPlan rest next (negb (ready_successor next)))) as Hpl.
  { apply Hopen; try done.
    - intros [x|]; [by eauto|done].
    - intros x Hx. by destruct (ready_successor x). }
  apply wpc_bind, wpc_attempt. rewrite Hb.
  eapply wpc_mono; [apply (packetize_track_spec ts.(ts_decoder).(dh_responses) before cur ts.(ts_packetizer) _
    pending h)|..]; try done.
  - by rewrite Hpcm, Hh.
  - by apply (idle_shared ids false h _ c u).
  - cbn beta. intros [[summary p'] pl'] s' (cur' & h' & Hid & Hh' & Hpcm' & Htr' & Hpl' & Hafter & Hs').
    assert (tk_pcm cur' = track_pcm (dh_responses (tk_handle cur'))) as Hc by (by rewrite Hpcm', Hh').
    assert (safe s') as Hsf.
    { eapply safe_intro; [exact Htr'| |by apply idle_in_flight]. unfold after_track in Hafter.
      destruct (pl_final_track pl'); [apply Hafter|by eapply at_track_view]. }
    destruct (merge_decoder_shutdown_result (Ok summary) _); [|by apply wpc_raise].
    unfold after_track in Hafter. destruct (pl_final_track pl') eqn:Ef.
    + eapply finish_final_spec; [exact Htr'|exact Hc|exact Hpl'|exact Ef|apply Hafter|exact Hs'].
    + eapply finish_open_spec; [exact Htr'|exact Hc|exact Hpl'|exact Ef|exact Hafter|exact Hs'].
  - cbn beta. intros e s' Hf. destruct (merge_err e (dh_cancel_and_join (ts_decoder ts))) as [e' ->].
    by apply wpc_raise.
Qed.

(** ** The whole worker *)

Lemma in_flight_stable (h : list ProtocolFrame) :
  stable (chan_env (editor Fac)) (in_flight capacity anything h).
Proof.
  intros a w (held & Hh & Hs). exists held. split; [done|]. by apply sending_stable.
Qed.

Lemma safe_stable : stable (chan_env (editor Fac)) playlist_safe.
Proof.
  intros a w (tracks & h & Hf & Hrest). exists tracks, h. split; [|done]. by apply in_flight_stable.
Qed.

Lemma complete_stable : stable (chan_env (editor Fac)) playlist_complete.
Proof.
  intros a w (tracks & h & Hf & Hrest). exists tracks, h. split; [|done]. by apply in_flight_stable.
Qed.

Lemma complete_safe (w : playlist_world) : playlist_complete w -> playlist_safe w.
Proof. intros (tracks & h & Hf & Htr & _ & [Hv _]). by exists tracks, h. Qed.

(** Only the updater changes when the guard closes it. *)
Lemma guard_spec (P : playlist_world -> Prop) (Q : unit -> playlist_state Fac -> Prop) (s : playlist_state Fac) :
  stable (chan_env (editor Fac)) P -> P s.2 -> (forall w, P w -> playlist_safe w) ->
  (forall sched c u, P (c, u) -> forall u', Q tt (sched, (c, u'))) ->
  wpc (locked Fac terminal_guard_drop) Q failed_safe safe s.
Proof.
  destruct s as [sched w]. intros Hst HP Hsafe HQ. unfold locked, shared_access.
  eapply (wpc_atomic (chan_env (editor Fac)) P); [done|done|intros H; by apply Hsafe|].
  intros sched' [c u] H. by apply (HQ sched' c u H).
Qed.

Lemma run_playlist_spec (ts : track_state) (s : playlist_state Fac) :
  loop_inv ts s ->
  wpc (run_playlist_packetizer_worker Fac message capacity reserver ts)
    (fun _ s => playlist_complete s.2) failed_safe safe s.
Proof.
  intros Hinv. unfold run_playlist_packetizer_worker. apply wpc_bind, wpc_attempt.
  apply (wpc_worker_loop _ loop_inv); [done| |].
  { intros ts' s' (before & cur & pending & h & Hat & Htr & _ & _ & _ & _ & Hs').
    eapply safe_intro; [exact Htr| |by apply idle_in_flight]. by eapply at_track_view. }
  intros ts' s' Hi. eapply wpc_mono; [by apply playlist_step_spec|..]; try done.
  - intros [ts''|summary] s'' Hpost; cbn in *; [done|]. apply wpc_bind.
    apply (guard_spec playlist_complete); [apply complete_stable|done|apply complete_safe|].
    intros sched c u Hc u'. exact Hc.
  - intros e s'' Hf. apply wpc_bind.
    apply (guard_spec playlist_safe); [apply safe_stable|done|done|].
    intros sched c u Hc u'. exact Hc.
Qed.
End Producer.

(** A spawned worker starts on its first track with nothing sent. *)
Lemma spawn_playlist_inv {t : target} (Fac : Factory -> Prop) (message : rstr) (decoder : DecodeHandle)
  (id name : rstr) (upcoming : list Factory) (session stream : rstr) (start : Z)
  (config : StreamingPacketizeConfig) (ts : track_state) (hello : ProtocolFrame) (w0 : playlist_world)
  (sched : list (list (chan_act (edit Fac)))) :
  is_u32 decoder.(dh_format).(sample_rate_hz) -> is_u16 decoder.(dh_format).(format_channels) ->
  Forall Fac upcoming ->
  spawn_playlist message decoder id name upcoming session stream start config = Ok (ts, hello, w0) ->
  pk_ok ts.(ts_packetizer) /\ ts.(ts_packetizer).(pk_next_sequence) = 0
  /\ loop_inv Fac config.(pc_queue_capacity) ts.(ts_packetizer) id decoder ts (sched, w0)
  /\ 1 <= config.(pc_queue_capacity).
Proof.
  intros Hr Hch Hfac H. unfold spawn_playlist, StreamingPacketizeConfig_validate in H.
  destruct (in_range _ _ _) eqn:Ecap; [|done]. cbn [negb] in H.
  destruct (validate_track_identity id name); [|done].
  destruct (validate_playlist_entries (Some id) upcoming) as [[]|] eqn:Eent; [|done].
  destruct (Packetizer_new session stream (dh_format decoder) (pc_packet_duration_ms config) start)
    as [p|e] eqn:Enew; [|done]. cbn [map_err] in H. injection H as <- <- <-.
  apply in_range_iff in Ecap. cbn [ts_packetizer].
  pose proof (Packetizer_new_ok session stream (dh_format decoder) (pc_packet_duration_ms config) start p
                Hr Hch Enew) as Hok.
  pose proof (new_contiguous session stream (dh_format decoder) (pc_packet_duration_ms config) start p
                Hr Hch Enew) as (Hct & Hn & Hcar).
  split_and!; try done; [|lia].
  exists [], (mkTrack id decoder []), None, []. cbn [app ts_packetizer ts_decoder ts_boundary ts_upcoming].
  assert (queued Fac [id] upcoming) as Hq.
  { unfold validate_playlist_entries in Eent. destruct (MAX_HOST_QUEUE_ENTRIES <=? len upcoming); [done|].
    apply insert_distinct_ok in Eent as [Hnd Hall]. split_and!; try done.
    eapply Forall_impl; [exact Hall|]. intros x Hx Hin. apply Hx. set_solver. }
  split_and!; try done.
  - split; try done. intros h1 b h2 E. by destruct h1.
  - split; try done; [apply NoDup_singleton| |].
    + intros tk Htk. apply list_elem_of_singleton in Htk as ->. by left.
    + intros i tk Hi. destruct i as [|i]; [|done]. injection Hi as <-. cbn. split; [apply prefix_nil|lia].
  - split; [|done]. split; [apply accounted_new; lia|]. split_and!; try done.
    split; [apply updates_ok_new|]. split_and!; try done. intros x. cbn. set_solver.
Qed.

(** ** Properties *)

(** C4. A playlist is one continuous stream, under every interleaving of its
    producer with the consumer and with edits of the queue: what has been
    sent is at every moment made of full packets numbered from zero without
    gap, carrying the concatenated PCM of the tracks played so far, with
    silence only after the last sample; each later track is announced, in
    order, by a boundary at its exact first sample, sent right before the
    packet that holds it; every track comes from the queue, none is played
    twice and each but the last is complete; and when the worker completes,
    every track was sent to its end and less than one packet of silence was
    added. *)
Theorem playlist_is_one_stream {t : target} (Fac : Factory -> Prop) (message : rstr)
  (decoder : DecodeHandle) (id name : rstr) (upcoming : list Factory) (session stream : rstr) (start : Z)
  (config : StreamingPacketizeConfig)
  (reserver : option (TrackBoundary -> bool -> result unit PacketizerWorkerError))
  (ts : track_state) (hello : ProtocolFrame) (w0 : playlist_world)
  (sched : list (list (chan_act (edit Fac)))) :
  is_u32 decoder.(dh_format).(sample_rate_hz) -> is_u16 decoder.(dh_format).(format_channels) ->
  typed_responses decoder.(dh_responses) -> (forall f, Fac f -> typed_factory f) -> Forall Fac upcoming ->
  spawn_playlist message decoder id name upcoming session stream start config = Ok (ts, hello, w0) ->
  let '(outcome, (_, w)) :=
    run_playlist_packetizer_worker Fac message config.(pc_queue_capacity) reserver ts (sched, w0) in
  0 <= w.1.(ch_queued) <= config.(pc_queue_capacity)
  /\ exists tracks,
       tracks_ok Fac id decoder tracks /\ stream_view ts.(ts_packetizer) tracks (history w.1)
       /\ match outcome with
          | Done _ =>
              (forall tk, tk ∈ tracks -> tk.(tk_pcm) = track_pcm tk.(tk_handle).(dh_responses))
              /\ stream_ended ts.(ts_packetizer) tracks (history w.1)
          | _ => True
          end.
Proof.
  intros Hr Hch Hty Hfty Hfac Hspawn.
  destruct (spawn_playlist_inv Fac message decoder id name upcoming session stream start config ts hello w0
              sched Hr Hch Hfac Hspawn) as (Hok & Hn & Hinv & Hcap).
  pose proof (run_playlist_spec Fac Hfty message config.(pc_queue_capacity) reserver ts.(ts_packetizer) id
                decoder Hok Hn Hty ts (sched, w0) Hinv) as Hwp.
  assert (forall h (w : playlist_world), in_flight config.(pc_queue_capacity) (fun _ => True) h w ->
            0 <= w.1.(ch_queued) <= config.(pc_queue_capacity) /\ history w.1 = h) as Hin.
  { intros h w (held & _ & Ha & Hh & Hc & _). apply accounted_bounds in Ha. rewrite Hc in Ha.
    split; [lia|done]. }
  unfold wpc in Hwp. destruct (run_playlist_packetizer_worker _ _ _ _ _ _) as [[summary|e|] [sched' w]].
  - destruct Hwp as (tracks & h & Hf & Htr & Hdone & Hend). destruct (Hin _ _ Hf) as [Hb Hh].
    cbn [snd] in Hb, Hh. split; [lia|]. exists tracks. rewrite Hh. split; [done|]. split; [apply Hend|done].
  - destruct Hwp as (tracks & h & Hf & Htr & Hv). destruct (Hin _ _ Hf) as [Hb Hh].
    cbn [snd] in Hb, Hh. split; [lia|]. exists tracks. by rewrite Hh.
  - destruct Hwp as (tracks & h & Hf & Htr & Hv). destruct (Hin _ _ Hf) as [Hb Hh].
    cbn [snd] in Hb, Hh. split; [lia|]. exists tracks. by rewrite Hh.
Qed.

(** ** Witness: an edit that replaces the staged successor *)

Definition short_track (base : Z) : DecodeHandle :=
  mkDecodeHandle sample_pk_format
    [RecvTimeout; RecvChunk (mkDecodedPcmChunk sample_pk_format 0 [base; base; base + 1; base + 1] false);
     RecvChunk (mkDecodedPcmChunk sample_pk_format 2 [base + 2; base + 2] true)]
    (Ok (mkDecodeSummary DecodeCompleted 3 0)) (Ok (mkDecodeSummary DecodeCompleted 3 0)).

Definition short_factory (id : string) (base : Z) : Factory :=
  mkFactory (lit id) (lit "Track") (Ok (short_track base)).

Definition short_tracks (f : Factory) : Prop :=
  f = short_factory "two" 20 \/ f = short_factory "three" 30.

Lemma short_track_typed (base : Z) :
  0 <= base <= 100 -> typed_responses (short_track base).(dh_responses).
Proof.
  intros Hb. repeat apply List.Forall_cons; try apply List.Forall_nil; try exact I;
    cbn; repeat apply List.Forall_cons; try apply List.Forall_nil; unfold is_i16; lia.
Qed.

Lemma short_tracks_typed (f : Factory) : short_tracks f -> typed_factory f.
Proof.
  intros [-> | ->] h [= <-]; apply short_track_typed; lia.
Qed.

(** The editor replaces the queue by track three alone. *)
Definition edit_three : edit short_tracks :=
  exist _ [short_factory "three" 30] (List.Forall_cons _ _ _ (or_intror eq_refl) (List.Forall_nil _)).

Definition sample_playlist : result (track_state * ProtocolFrame * playlist_world) PacketizerWorkerError :=
  spawn_playlist (t := Target64) [] (short_track 10) (lit "one") (lit "Track") [short_factory "two" 20]
    (lit "session") (lit "stream") 500 (mkStreamingPacketizeConfig 2 1).

(** A consumer that keeps up, and the edit while the first track plays. *)
Definition editing_schedule : list (list (chan_act (edit short_tracks))) :=
  replicate 8 [Take; Account] ++ [[Act edit_three]] ++ replicate 60 [Take; Account].

Lemma playlist_is_one_stream_witness :
  match sample_playlist with
  | Ok (ts, _, w0) =>
      let '(outcome, (_, w)) :=
        run_playlist_packetizer_worker short_tracks [] 1 None ts (editing_schedule, w0) in
      match outcome with Done _ => True | _ => False end
      /\ map boundary_entry_id (boundaries_of (history w.1)) = [lit "three"]
      /\ map boundary_first_sample_index (boundaries_of (history w.1)) = [3]
      /\ pcm_of (audio_of (history w.1)) = [10; 10; 11; 11; 12; 12; 30; 30; 31; 31; 32; 32]
      /\ exists tracks, tracks_ok short_tracks (lit "one") (short_track 10) tracks
           /\ stream_view ts.(ts_packetizer) tracks (history w.1)
  | Err _ => False
  end.
Proof.
  destruct sample_playlist as [[[ts hello] w0]|] eqn:E; [|vm_compute in E; discriminate].
  pose proof (playlist_is_one_stream (t := Target64) short_tracks [] (short_track 10) (lit "one") (lit "Track")
    [short_factory "two" 20] (lit "session") (lit "stream") 500 (mkStreamingPacketizeConfig 2 1) None
    ts hello w0 editing_schedule ltac:(split; vm_compute; done) ltac:(split; vm_compute; done)
    (short_track_typed 10 ltac:(lia)) short_tracks_typed
    (List.Forall_cons _ _ _ (or_introl eq_refl) (List.Forall_nil _)) E) as H.
  vm_compute in E. injection E as <- <- <-. cbn [pc_queue_capacity] in H.
  match type of H with context [run_playlist_packetizer_worker ?a ?b ?c ?d ?e ?f] =>
    destruct (run_playlist_packetizer_worker a b c d e f) as [o [sched w]] eqn:Er end.
  vm_compute in Er. injection Er as <- <- <-. destruct H as (_ & tracks & Htr & Hv & _).
  split; [exact I|]. split; [reflexivity|]. split; [reflexivity|]. split; [vm_compute; reflexivity|].
  exists tracks. split; [exact Htr|exact Hv].
Defined.

(** ** An accepted edit that is lost

    The updater is sealed before the last chunk of a track that is final when
    that chunk arrives. A track that becomes final later, because its staged
    successor was removed after the chunk was pushed, is flushed without the
    seal: an edit accepted during that flush is discarded by the terminal
    guard. *)

Definition clear_queue : edit short_tracks := exist _ [] (List.Forall_nil _).

(** The staged successor is removed while the last full packet is sent; the
    observation stops inside the flush that follows. *)
Definition flushing_schedule : list (list (chan_act (edit short_tracks))) :=
  replicate 16 [Take; Account] ++ [[Act clear_queue]] ++ replicate 5 [Take; Account].

Lemma retarget_end_loses_accepted_edit :
  match sample_playlist with
  | Ok (ts, _, w0) =>
      let run sched := run_playlist_packetizer_worker short_tracks [] 1 None ts (sched, w0) in
      (run flushing_schedule).1 = Suspended
      /\ (replace_upcoming (proj1_sig edit_three) (run flushing_schedule).2.2.2).1 = Ok tt
      /\ let '(outcome, (_, w)) :=
           run (flushing_schedule ++ [[Act edit_three]] ++ replicate 8 [Take; Account]) in
         match outcome with Done _ => True | _ => False end
         /\ boundaries_of (history w.1) = [] /\ w.2.(pu_pending) = None
  | Err _ => False
  end.
Proof. vm_compute. repeat split. Qed.
