(* ===== verification/Admission.v ===== *)
(** Host admission policy
    (src/rust/silent-disco-core/src/runtime/host_admission.rs): what a join
    request leads to under each approval mode, when an approval may promise
    durable trust, and when a delivery report commits a decision. *)
From Stdlib Require Import ZArith Lia Strings.String.
From stdpp Require Import numbers list prelude.
From S2P Require Import Prelude Utf8 Domain RuntimeTypes.

Inductive JoinRejectionReason : Type :=
| IncorrectInviteCode | DeviceNotApproved | HostRejected | HostUnavailable.

Definition rejection_stable_name (reason : JoinRejectionReason) : rstr :=
  match reason with
  | IncorrectInviteCode => lit "incorrect_invite_code"
  | DeviceNotApproved => lit "device_not_approved"
  | HostRejected => lit "host_rejected"
  | HostUnavailable => lit "host_unavailable"
  end.

Inductive JoinRequestDisposition : Type :=
| PendingManualDecision
| AutoApprove (trusted_for_future : bool)
| AutoReject (reason : JoinRejectionReason).

Record TrustPersistenceRequest : Type := mkTrustPersistenceRequest {
  tp_request_id : rstr;
  tp_device_id : rstr;
  tp_display_name : rstr
}.

Record ApprovalDelivery : Type := mkApprovalDelivery {
  del_request_id : rstr;
  del_device_id : rstr;
  del_trusted_for_future : bool;
  del_persistence_failed : bool
}.

Inductive ApprovalPreparation : Type :=
| PersistTrustFirst (persistence : TrustPersistenceRequest)
| Deliver (delivery : ApprovalDelivery).

Inductive TrustPersistenceOutcome : Type := TrustCommitted | TrustFailed.

Inductive DeliveryCommitDisposition : Type :=
| Delivered | DeliveredWithFailures | NoRecipients | DeliveryFailed.

#[export] Instance JoinRejectionReason_eq_dec : EqDecision JoinRejectionReason.
Proof. solve_decision. Defined.
#[export] Instance JoinRequestDisposition_eq_dec : EqDecision JoinRequestDisposition.
Proof. solve_decision. Defined.
#[export] Instance TrustPersistenceRequest_eq_dec : EqDecision TrustPersistenceRequest.
Proof. solve_decision. Defined.
#[export] Instance ApprovalDelivery_eq_dec : EqDecision ApprovalDelivery.
Proof. solve_decision. Defined.
#[export] Instance DeliveryCommitDisposition_eq_dec : EqDecision DeliveryCommitDisposition.
Proof. solve_decision. Defined.

Definition commits_domain_decision (d : DeliveryCommitDisposition) : bool :=
  match d with Delivered | DeliveredWithFailures => true | NoRecipients | DeliveryFailed => false end.

Definition classify_join_request (draft : HostDraft) (request : JoinRequestSummary)
    : JoinRequestDisposition :=
  if bool_decide (draft.(draft_approval_mode) = InviteCode)
     && negb request.(jr_invite_code_valid)
  then AutoReject IncorrectInviteCode
  else if bool_decide (draft.(draft_approval_mode) = TrustedDevices) then
    if bool_decide (request.(jr_trust_state) = Trusted) then AutoApprove true
    else AutoReject DeviceNotApproved
  else PendingManualDecision.

Definition prepare_explicit_approval (request : JoinRequestSummary) (remember_for_future : bool)
    : ApprovalPreparation :=
  if remember_for_future && negb (bool_decide (request.(jr_trust_state) = Trusted)) then
    PersistTrustFirst (mkTrustPersistenceRequest request.(jr_request_id) request.(jr_device_id)
                         request.(jr_display_name))
  else
    Deliver (mkApprovalDelivery request.(jr_request_id) request.(jr_device_id)
               (bool_decide (request.(jr_trust_state) = Trusted)) false).

Definition prepare_approval (draft : HostDraft) (request : JoinRequestSummary)
    : ApprovalPreparation :=
  prepare_explicit_approval request draft.(draft_remember_approved_devices).

Definition approval_after_persistence (persistence : TrustPersistenceRequest)
    (outcome : TrustPersistenceOutcome) : ApprovalDelivery :=
  mkApprovalDelivery persistence.(tp_request_id) persistence.(tp_device_id)
    (match outcome with TrustCommitted => true | TrustFailed => false end)
    (match outcome with TrustFailed => true | TrustCommitted => false end).

Definition classify_delivery (report : DeliveryReport) : DeliveryCommitDisposition :=
  if report.(intended_peers) =? 0 then NoRecipients
  else if report.(successful_peers) =? 0 then DeliveryFailed
  else if report.(failed_peers) =? 0 then Delivered
  else DeliveredWithFailures.

(** ** Lemmas *)

(** The only automatic approval is of a trusted device in the mode that asks
    for it. *)
Lemma classify_auto_approve (draft : HostDraft) (request : JoinRequestSummary) (b : bool) :
  classify_join_request draft request = AutoApprove b <->
  draft.(draft_approval_mode) = TrustedDevices /\ request.(jr_trust_state) = Trusted /\ b = true.
Proof.
  unfold classify_join_request.
  destruct (draft_approval_mode draft), (jr_trust_state request), (jr_invite_code_valid request);
    cbn; naive_solver.
Qed.

(** A decision is committed by an accepted report exactly when some peer
    received the message. *)
Lemma commits_exactly (i s f : Z) (report : DeliveryReport) :
  0 <= s -> 0 <= f -> DeliveryReport_new i s f = Ok report ->
  commits_domain_decision (classify_delivery report) = true <-> 0 < s.
Proof.
  intros Hs Hf H. apply DeliveryReport_new_ok in H as (Hi & Hss & Hff).
  unfold classify_delivery. rewrite Hi, Hss, Hff.
  destruct (s + f =? 0) eqn:E1; [to_prop; split; [done|]; lia|].
  destruct (s =? 0) eqn:E2; [to_prop; split; [done|]; lia|].
  to_prop. destruct (f =? 0); simpl; split; try done; lia.
Qed.
