(* ===== verification/SecureTrust.v ===== *)
(** Verified listener identity and host-owned trust: the single-use, channel
    bound possession proof (src/rust/silent-disco-core/src/transport/secure_identity.rs),
    the durable registry of enrolled keys (transport/secure_trust.rs) and the
    admission boundary that combines them (runtime/secure_host_admission.rs).

    The cryptography and the JSON library are not part of the repository: they
    are the parameters of the section below, with the documented behaviour the
    code relies on as its hypotheses. *)
From Stdlib Require Import ZArith Lia Strings.String Sorting.Sorted.
From stdpp Require Import numbers list prelude sorting.
From S2P Require Import Prelude BTreeMap Utf8 Domain Decimal RuntimeTypes Admission.

(** ** Identity proofs *)

(** [b"silent-disco-v4-listener-proof\0"]. *)
Definition PROOF_DOMAIN : list Z := lit "silent-disco-v4-listener-proof" ++ [0].

Inductive ListenerProofError : Type :=
| InvalidChallenge | InvalidPublicKey | InvalidSignatureEncoding | SignatureMismatch
| AlreadyConsumed.

(** A fingerprint, nonce or exporter binding is a [[u8; 32]]. *)
Definition is_bytes32 (b : list Z) : Prop := len b = 32 /\ Forall is_u8 b.

Definition zero32 : list Z := repeat 0 32.

Record PendingListenerProof : Type := mkPendingListenerProof {
  proof_session_id : rstr;
  proof_generation : Z;
  proof_host_fingerprint : list Z;
  proof_nonce : list Z;
  proof_exporter_binding : list Z;
  proof_consumed : bool
}.

Record VerifiedListenerKey : Type := mkVerifiedListenerKey {
  key_fingerprint : list Z;
  key_host_fingerprint : list Z
}.

Definition hex_digit (n : Z) : Z := if n <? 10 then 48 + n else 87 + n.

(** [format!("{byte:02x}")] for every byte. *)
Fixpoint hex_lower (bytes : list Z) : rstr :=
  match bytes with
  | [] => []
  | b :: rest => hex_digit (b / 16) :: hex_digit (b mod 16) :: hex_lower rest
  end.

(** The string handed to [DeviceId::new(..).expect(..)]. *)
Definition canonical_device_id (key : VerifiedListenerKey) : rstr :=
  lit "v4-" ++ hex_lower key.(key_fingerprint).

(** ** The trust registry *)

Definition TRUST_RECORD_VERSION : Z := 1.
Definition MAX_TRUSTED_LISTENERS : Z := 256.
Definition TRUST_MAX_DISPLAY_NAME_BYTES : Z := 128.
Definition MAX_SNAPSHOT_BYTES : Z := 131072.

Inductive HostTrustError : Type :=
| TrustInvalidHostKey | TrustInvalidSnapshot | TrustWrongHostIdentity | TrustUnsupportedVersion
| TrustTooManyListeners | TrustInvalidDisplayName.

Inductive VerifiedTrustDisposition : Type := KeyTrusted | KeyUnknown | KeyRevoked.

Record StoredListenerId : Type := mkStoredListenerId {
  stored_id_fingerprint : list Z;
  stored_id_host_fingerprint : list Z
}.

Record StoredListener : Type := mkStoredListener {
  stored_fingerprint : list Z;
  stored_display_name : rstr;
  stored_revoked : bool
}.

Record StoredListenerSummary : Type := mkStoredListenerSummary {
  summary_id : StoredListenerId;
  summary_display_name : rstr;
  summary_revoked : bool
}.

Record TrustSnapshot : Type := mkTrustSnapshot {
  snapshot_version : Z;
  snapshot_host_fingerprint : list Z;
  snapshot_listeners : list StoredListener
}.

(** [BTreeMap<[u8; 32], StoredListener>]: byte arrays of one length are ordered
    like the big-endian numbers they spell, which are the keys here. *)
Record HostVerifiedTrust : Type := mkHostVerifiedTrust {
  trust_host_fingerprint : list Z;
  trust_listeners : btmap StoredListener
}.

Definition fp_key (fingerprint : list Z) : Z := from_be_bytes fingerprint.

Definition valid_display_name (name : rstr) : bool :=
  negb (bool_decide (trim name = [])) && (str_len name <=? TRUST_MAX_DISPLAY_NAME_BYTES)
  && negb (existsb is_control name).

Definition disposition (self : HostVerifiedTrust) (key : VerifiedListenerKey)
    : VerifiedTrustDisposition :=
  if negb (bool_decide (key.(key_host_fingerprint) = self.(trust_host_fingerprint))) then KeyUnknown
  else match bt_get (fp_key key.(key_fingerprint)) self.(trust_listeners) with
  | Some record => if record.(stored_revoked) then KeyRevoked else KeyTrusted
  | None => KeyUnknown
  end.

Definition enroll (self : HostVerifiedTrust) (key : VerifiedListenerKey) (display_name : rstr)
    : result HostVerifiedTrust HostTrustError :=
  if negb (bool_decide (key.(key_host_fingerprint) = self.(trust_host_fingerprint))) then
    Err TrustWrongHostIdentity
  else if negb (valid_display_name display_name) then Err TrustInvalidDisplayName
  else if negb (bt_contains_key (fp_key key.(key_fingerprint)) self.(trust_listeners))
          && (MAX_TRUSTED_LISTENERS <=? len self.(trust_listeners)) then
    Err TrustTooManyListeners
  else Ok (mkHostVerifiedTrust self.(trust_host_fingerprint)
             (bt_insert (fp_key key.(key_fingerprint))
                (mkStoredListener key.(key_fingerprint) display_name false)
                self.(trust_listeners))).

Definition stored_listeners (self : HostVerifiedTrust) : list StoredListenerSummary :=
  map (fun record => mkStoredListenerSummary
         (mkStoredListenerId record.(stored_fingerprint) self.(trust_host_fingerprint))
         record.(stored_display_name) record.(stored_revoked))
    (bt_values self.(trust_listeners)).

(** [listeners.get_mut(fingerprint)] followed by [record.revoked = true]. *)
Definition revoke_record (self : HostVerifiedTrust) (fingerprint : list Z)
    : HostVerifiedTrust * bool :=
  match bt_get (fp_key fingerprint) self.(trust_listeners) with
  | Some record =>
      (mkHostVerifiedTrust self.(trust_host_fingerprint)
         (bt_insert (fp_key fingerprint)
            (mkStoredListener record.(stored_fingerprint) record.(stored_display_name) true)
            self.(trust_listeners)), true)
  | None => (self, false)
  end.

Definition revoke_stored (self : HostVerifiedTrust) (id : StoredListenerId)
    : HostVerifiedTrust * bool :=
  if negb (bool_decide (id.(stored_id_host_fingerprint) = self.(trust_host_fingerprint)))
  then (self, false)
  else revoke_record self id.(stored_id_fingerprint).

Definition revoke (self : HostVerifiedTrust) (key : VerifiedListenerKey)
    : HostVerifiedTrust * bool :=
  if negb (bool_decide (key.(key_host_fingerprint) = self.(trust_host_fingerprint)))
  then (self, false)
  else revoke_record self key.(key_fingerprint).

(** ** Admission *)

Record VerifiedJoinAdmission : Type := mkVerifiedJoinAdmission {
  admission_verified_key : VerifiedListenerKey;
  admission_request : JoinRequestSummary;
  admission_disposition : JoinRequestDisposition
}.

Inductive VerifiedJoinError : Type :=
| JoinProofError (error : ListenerProofError)
| RevokedListener.

Section Crypto.
(** [Sha256::digest], [VerifyingKey::from_public_key_der(..).is_ok()],
    [Signature::from_der(..).is_ok()] and [key.verify(transcript, signature).is_ok()]. *)
Context (sha256 : list Z -> list Z).
Context (is_public_key is_signature : list Z -> bool).
Context (verifies : list Z -> list Z -> list Z -> bool).
(** [serde_json::to_string] and [serde_json::from_str] at [TrustSnapshot]. *)
Context (to_json_string : TrustSnapshot -> option rstr).
Context (from_json_str : rstr -> option TrustSnapshot).

Definition PendingListenerProof_new (session_id : rstr) (generation : Z)
    (host_public_key_der nonce exporter_binding : list Z)
    : result PendingListenerProof ListenerProofError :=
  if (generation =? 0) || bool_decide (nonce = zero32) || bool_decide (exporter_binding = zero32)
  then Err InvalidChallenge
  else if negb (is_public_key host_public_key_der) then Err InvalidPublicKey
  else Ok (mkPendingListenerProof session_id generation (sha256 host_public_key_der) nonce
             exporter_binding false).

Definition signing_transcript (self : PendingListenerProof) (listener_public_key_der : list Z)
    : result (list Z) ListenerProofError :=
  if negb (is_public_key listener_public_key_der) then Err InvalidPublicKey
  else
    let session := as_bytes self.(proof_session_id) in
    if u16_max <? len session then Err InvalidChallenge
    else Ok (PROOF_DOMAIN ++ self.(proof_host_fingerprint) ++ sha256 listener_public_key_der
             ++ be_bytes 2 (len session) ++ session ++ be_bytes 8 self.(proof_generation)
             ++ self.(proof_nonce) ++ self.(proof_exporter_binding)).

Definition consume (self : PendingListenerProof) : PendingListenerProof :=
  mkPendingListenerProof self.(proof_session_id) self.(proof_generation)
    self.(proof_host_fingerprint) self.(proof_nonce) self.(proof_exporter_binding) true.

(** [&mut self]: the challenge as the call leaves it, and the result. *)
Definition verify_and_consume (self : PendingListenerProof)
    (listener_public_key_der signature_der : list Z)
    : PendingListenerProof * result VerifiedListenerKey ListenerProofError :=
  if self.(proof_consumed) then (self, Err AlreadyConsumed)
  else
    let self := consume self in
    (self,
     let? transcript := signing_transcript self listener_public_key_der in
     if negb (is_public_key listener_public_key_der) then Err InvalidPublicKey
     else if negb (is_signature signature_der) then Err InvalidSignatureEncoding
     else if negb (verifies listener_public_key_der transcript signature_der) then
       Err SignatureMismatch
     else Ok (mkVerifiedListenerKey (sha256 listener_public_key_der)
                self.(proof_host_fingerprint))).

Definition host_fingerprint (host_public_key_der : list Z) : result (list Z) HostTrustError :=
  if negb (is_public_key host_public_key_der) then Err TrustInvalidHostKey
  else Ok (sha256 host_public_key_der).

Definition HostVerifiedTrust_new (host_public_key_der : list Z)
    : result HostVerifiedTrust HostTrustError :=
  let? fingerprint := host_fingerprint host_public_key_der in
  Ok (mkHostVerifiedTrust fingerprint bt_empty).

(** The [for record in snapshot.listeners] loop of [from_json]. *)
Fixpoint load_listeners (listeners : btmap StoredListener) (records : list StoredListener)
    : result (btmap StoredListener) HostTrustError :=
  match records with
  | [] => Ok listeners
  | record :: rest =>
      let key := fp_key record.(stored_fingerprint) in
      if bool_decide (record.(stored_fingerprint) = zero32)
         || negb (valid_display_name record.(stored_display_name))
         || bt_contains_key key listeners
      then Err TrustInvalidSnapshot
      else load_listeners (bt_insert key record listeners) rest
  end.

Definition from_json (host_public_key_der : list Z) (json : rstr)
    : result HostVerifiedTrust HostTrustError :=
  let? expected_host := host_fingerprint host_public_key_der in
  if MAX_SNAPSHOT_BYTES <? str_len json then Err TrustInvalidSnapshot
  else
    let? snapshot := ok_or (from_json_str json) TrustInvalidSnapshot in
    if negb (snapshot.(snapshot_version) =? TRUST_RECORD_VERSION) then Err TrustUnsupportedVersion
    else if negb (bool_decide (snapshot.(snapshot_host_fingerprint) = expected_host)) then
      Err TrustWrongHostIdentity
    else if MAX_TRUSTED_LISTENERS <? len snapshot.(snapshot_listeners) then
      Err TrustTooManyListeners
    else
      let? listeners := load_listeners bt_empty snapshot.(snapshot_listeners) in
      Ok (mkHostVerifiedTrust expected_host listeners).

Definition to_json (self : HostVerifiedTrust) : result rstr HostTrustError :=
  ok_or (to_json_string (mkTrustSnapshot TRUST_RECORD_VERSION self.(trust_host_fingerprint)
                           (bt_values self.(trust_listeners))))
    TrustInvalidSnapshot.

Definition verify_and_classify_join (draft : HostDraft) (request : JoinRequestSummary)
    (proof : PendingListenerProof) (listener_public_key_der signature_der : list Z)
    (trust : HostVerifiedTrust)
    : PendingListenerProof * result VerifiedJoinAdmission VerifiedJoinError :=
  let '(proof, verified) := verify_and_consume proof listener_public_key_der signature_der in
  (proof,
   let? verified_key := map_err JoinProofError verified in
   let? state := match disposition trust verified_key with
     | KeyTrusted => Ok Trusted
     | KeyUnknown => Ok SessionOnly
     | KeyRevoked => Err RevokedListener
     end in
   let verified_request := mkJoinRequestSummary request.(jr_request_id)
     (canonical_device_id verified_key) request.(jr_display_name) state
     request.(jr_invite_code_valid) request.(jr_received_at) in
   Ok (mkVerifiedJoinAdmission verified_key verified_request
         (classify_join_request draft verified_request))).
End Crypto.

(** ** Fingerprints *)

Lemma be_32_inj (a b : list Z) :
  is_bytes32 a -> is_bytes32 b -> fp_key a = fp_key b -> a = b.
Proof.
  intros [La Ha] [Lb Hb] E. unfold fp_key in E.
  rewrite <- (be_bytes_from_be a Ha), <- (be_bytes_from_be b Hb), E.
  f_equal. unfold len in *. lia.
Qed.

Lemma hex_digit_inj (a b : Z) : 0 <= a < 16 -> 0 <= b < 16 -> hex_digit a = hex_digit b -> a = b.
Proof.
  unfold hex_digit. intros Ha Hb.
  destruct (a <? 10) eqn:Ea, (b <? 10) eqn:Eb; to_prop; lia.
Qed.

Lemma hex_lower_inj (a b : list Z) :
  Forall is_u8 a -> Forall is_u8 b -> hex_lower a = hex_lower b -> a = b.
Proof.
  intros Ha. revert b. induction Ha as [|x a Hx Ha IH]; intros [|y b] Hb; simpl; try done.
  apply Forall_cons in Hb as [Hy Hb]. intros [= E1 E2 E3].
  unfold is_u8, is_uint in Hx, Hy. change (2 ^ 8) with 256 in Hx, Hy.
  apply hex_digit_inj in E1, E2; try (Z.div_mod_to_equations; lia).
  f_equal; [|by apply IH]. Z.div_mod_to_equations; lia.
Qed.

(** Distinct verified keys have distinct routing identities. *)
Lemma canonical_device_id_inj (k1 k2 : VerifiedListenerKey) :
  is_bytes32 k1.(key_fingerprint) -> is_bytes32 k2.(key_fingerprint) ->
  canonical_device_id k1 = canonical_device_id k2 -> k1.(key_fingerprint) = k2.(key_fingerprint).
Proof. intros [_ H1] [_ H2] E%app_inv_head. by apply hex_lower_inj. Qed.

Lemma hex_lower_visible (bytes : list Z) : Forall is_u8 bytes -> Forall is_visible (hex_lower bytes).
Proof.
  induction 1 as [|b bytes Hb Hr IH]; simpl; [constructor|].
  unfold is_u8, is_uint in Hb. change (2 ^ 8) with 256 in Hb.
  assert (forall n, 0 <= n < 16 -> is_visible (hex_digit n)) as Hd.
  { intros n Hn. unfold is_visible, hex_digit. destruct (n <? 10) eqn:E; to_prop; lia. }
  apply Forall_cons; split; [apply Hd; Z.div_mod_to_equations; lia|].
  apply Forall_cons; split; [apply Hd; Z.div_mod_to_equations; lia|done].
Qed.

(** The [expect] of [canonical_device_id] cannot fail. *)
Lemma canonical_device_id_valid (key : VerifiedListenerKey) :
  is_bytes32 key.(key_fingerprint) ->
  identifier_new IdDevice (canonical_device_id key) = Ok (canonical_device_id key).
Proof.
  intros [Hl Hb]. apply identifier_new_visible.
  - apply Forall_app. split; [|by apply hex_lower_visible]. by apply visible_str_true.
  - unfold canonical_device_id. rewrite len_app. change (len (lit "v4-")) with 3.
    assert (forall l, len (hex_lower l) = 2 * len l) as ->.
    { induction l as [|b l IH]; [done|]. cbn [hex_lower]. rewrite !len_cons, IH. lia. }
    rewrite Hl. unfold MAX_IDENTIFIER_BYTES. lia.
Qed.

(** ** The registry invariant *)

Definition key_ok (key : VerifiedListenerKey) : Prop :=
  is_bytes32 key.(key_fingerprint) /\ key.(key_fingerprint) <> zero32.

Record listener_wf (k : Z) (r : StoredListener) : Prop := mkListenerWf {
  lwf_key : k = fp_key r.(stored_fingerprint);
  lwf_bytes : is_bytes32 r.(stored_fingerprint);
  lwf_nonzero : r.(stored_fingerprint) <> zero32;
  lwf_name : valid_display_name r.(stored_display_name) = true
}.

Record trust_wf (t : HostVerifiedTrust) : Prop := mkTrustWf {
  twf_sorted : bt_ok t.(trust_listeners);
  twf_records : bt_forall listener_wf t.(trust_listeners);
  twf_bound : len t.(trust_listeners) <= MAX_TRUSTED_LISTENERS
}.

Lemma bt_len_insert_known {V : Type} (k : Z) (v v' : V) (m : btmap V) :
  bt_get k m = Some v -> bt_ok m -> len (bt_insert k v' m) = len m.
Proof.
  induction m as [|[k0 v0] m IH]; simpl; [done|]. intros Hg Hok.
  destruct (k =? k0) eqn:E; to_prop.
  - subst. rewrite Z.ltb_irrefl. by rewrite !len_cons.
  - assert (k0 < k) as Hlt.
    { apply bt_get_in_keys in Hg. apply StronglySorted_inv in Hok as [_ Hk].
      rewrite List.Forall_forall in Hk. by apply Hk. }
    rewrite (proj2 (Z.ltb_ge _ _)) by lia. rewrite !len_cons.
    apply StronglySorted_inv in Hok as [Hok _]. by rewrite IH.
Qed.

Lemma enroll_wf (t t' : HostVerifiedTrust) (key : VerifiedListenerKey) (name : rstr) :
  trust_wf t -> key_ok key -> enroll t key name = Ok t' -> trust_wf t'.
Proof.
  intros [Hs Hr Hb] [Hk Hnz] H. unfold enroll in H.
  ok_step H. destruct (valid_display_name name) eqn:Hn; [|done]. cbn [negb] in H.
  ok_step H. injection H as <-. split; simpl.
  - by apply bt_ok_insert.
  - by apply bt_forall_insert.
  - unfold bt_contains_key in Heqb0.
    destruct (bt_get _ (trust_listeners t)) eqn:Eg.
    + by rewrite (bt_len_insert_known _ _ _ _ Eg).
    + cbn [negb andb] in Heqb0. to_prop. pose proof (bt_len_insert_le (fp_key (key_fingerprint key))
        (mkStoredListener (key_fingerprint key) name false) (trust_listeners t)). lia.
Qed.

Lemma revoke_record_wf (t : HostVerifiedTrust) (fp : list Z) :
  trust_wf t -> trust_wf (revoke_record t fp).1.
Proof.
  intros [Hs Hr Hb]. unfold revoke_record.
  destruct (bt_get (fp_key fp) (trust_listeners t)) as [r|] eqn:Eg; [|by split].
  pose proof (bt_forall_get _ _ _ _ Hr Eg) as [Hk Hl Hz Hn]. split; simpl.
  - by apply bt_ok_insert.
  - by apply bt_forall_insert.
  - by rewrite (bt_len_insert_known _ _ _ _ Eg).
Qed.

(** What revoking does to every verified key of this host. *)
Lemma revoke_record_disposition (t : HostVerifiedTrust) (fp : list Z) (key : VerifiedListenerKey) :
  is_bytes32 fp -> is_bytes32 key.(key_fingerprint) ->
  disposition (revoke_record t fp).1 key =
  (if bool_decide (key.(key_fingerprint) = fp) then
     match disposition t key with KeyTrusted => KeyRevoked | d => d end
   else disposition t key).
Proof.
  intros Hf Hk. unfold revoke_record, disposition.
  destruct (bt_get (fp_key fp) (trust_listeners t)) as [r|] eqn:Eg; simpl.
  - case_bool_decide as Hh; [|by case_bool_decide]. cbn [negb].
    case_bool_decide as E.
    + rewrite E, bt_get_insert_eq, Eg. simpl. by destruct (stored_revoked r).
    + rewrite bt_get_insert_ne; [done|]. intros E'. apply E. by apply be_32_inj.
  - case_bool_decide as Hh; [|by case_bool_decide]. cbn [negb].
    case_bool_decide as E; [|done]. by rewrite E, Eg.
Qed.

Lemma enroll_disposition (t t' : HostVerifiedTrust) (k key : VerifiedListenerKey) (name : rstr) :
  is_bytes32 k.(key_fingerprint) -> is_bytes32 key.(key_fingerprint) ->
  enroll t k name = Ok t' ->
  k.(key_fingerprint) <> key.(key_fingerprint) -> disposition t' key = disposition t key.
Proof.
  intros Hk Hkey H Hne. unfold enroll in H. ok_step H. ok_step H. ok_step H. injection H as <-.
  unfold disposition. simpl. case_bool_decide; [|done]. cbn [negb].
  rewrite bt_get_insert_ne; [done|]. intros E. apply Hne. by apply be_32_inj.
Qed.

(** Loading the values of a well-formed map rebuilds the map. *)
Lemma bt_insert_last {V : Type} (m : btmap V) (k : Z) (v : V) :
  (forall k', In k' (bt_keys m) -> k' < k) -> bt_insert k v m = m ++ [(k, v)].
Proof.
  induction m as [|[k0 v0] m IH]; intros H; [done|]. simpl.
  assert (k0 < k) by (apply H; by left).
  rewrite (proj2 (Z.ltb_ge _ _)), (proj2 (Z.eqb_neq _ _)) by lia.
  rewrite IH; [done|]. intros k' Hk'. apply H. by right.
Qed.

Lemma load_listeners_values (done_ rest : btmap StoredListener) :
  bt_ok (done_ ++ rest) -> bt_forall listener_wf rest ->
  load_listeners done_ (bt_values rest) = Ok (done_ ++ rest).
Proof.
  revert done_. induction rest as [|[k r] rest IH]; intros done_ Hok Hwf; simpl.
  - by rewrite app_nil_r.
  - apply Forall_cons in Hwf as [[Hk Hb Hz Hn] Hwf]. simpl in *. rewrite <- Hk.
    assert (forall k', In k' (bt_keys done_) -> k' < k) as Hlt.
    { intros k' Hk'. unfold bt_ok, bt_keys in Hok. rewrite map_app in Hok. simpl in Hok.
      eapply StronglySorted_app_1_elem_of; [exact Hok|by apply list_elem_of_In|constructor]. }
    rewrite bool_decide_false, Hn by done. cbn [negb orb].
    rewrite (proj2 (bt_contains_key_false k done_)).
    + rewrite bt_insert_last by done. rewrite IH; [by rewrite <- app_assoc|by rewrite <- app_assoc|done].
    + intros Hin. specialize (Hlt _ Hin). lia.
Qed.

(** ** What the host does to its registry *)

Inductive TrustOp : Type :=
| TrustEnroll (key : VerifiedListenerKey) (name : rstr)
| TrustRevoke (key : VerifiedListenerKey)
| TrustRevokeStored (id : StoredListenerId)
| TrustRestart.

Definition trust_op_ok (op : TrustOp) : Prop :=
  match op with
  | TrustEnroll key _ | TrustRevoke key => key_ok key
  | TrustRevokeStored id => is_bytes32 id.(stored_id_fingerprint)
  | TrustRestart => True
  end.

Section Laws.
Context (sha256 : list Z -> list Z).
Context (is_public_key is_signature : list Z -> bool).
Context (verifies : list Z -> list Z -> list Z -> bool).
Context (to_json_string : TrustSnapshot -> option rstr).
Context (from_json_str : rstr -> option TrustSnapshot).

(** A digest is 32 bytes. *)
Hypothesis sha256_bytes : forall message, is_bytes32 (sha256 message).
(** Serialized snapshots parse back. *)
Hypothesis json_round_trip : forall s json, to_json_string s = Some json -> from_json_str json = Some s.

(** The registry after a host action; a restart saves it and loads it back
    under the host key.  A restart that cannot be saved or loaded yields no
    registry to admit anyone with: it is no step, and the registry the host last
    had stays. *)
Definition trust_step (host : list Z) (t : HostVerifiedTrust) (op : TrustOp) : HostVerifiedTrust :=
  match op with
  | TrustEnroll key name => match enroll t key name with Ok t' => t' | Err _ => t end
  | TrustRevoke key => (revoke t key).1
  | TrustRevokeStored id => (revoke_stored t id).1
  | TrustRestart =>
      match (let? json := to_json to_json_string t in
             from_json sha256 is_public_key from_json_str host json) with
      | Ok t' => t'
      | Err _ => t
      end
  end.

Lemma restart_restores (host : list Z) (t : HostVerifiedTrust) (json : rstr) :
  trust_wf t -> is_public_key host = true -> t.(trust_host_fingerprint) = sha256 host ->
  to_json to_json_string t = Ok json -> str_len json <= MAX_SNAPSHOT_BYTES ->
  from_json sha256 is_public_key from_json_str host json = Ok t.
Proof.
  intros [Hs Hr Hb] Hpk Hfp Hj Hlen. unfold to_json in Hj.
  destruct (to_json_string _) as [j|] eqn:E; [|done]. injection Hj as ->.
  apply json_round_trip in E. unfold from_json, host_fingerprint. rewrite Hpk. cbn [negb].
  rewrite (proj2 (Z.ltb_ge _ _)) by done. rewrite E. cbn [ok_or snapshot_version
    snapshot_host_fingerprint snapshot_listeners].
  rewrite Z.eqb_refl, Hfp, bool_decide_true by done. cbn [negb].
  rewrite (proj2 (Z.ltb_ge _ _)).
  - change bt_empty with (@nil (Z * StoredListener)).
    rewrite (load_listeners_values [] (trust_listeners t)) by done.
    destruct t. simpl in *. by rewrite Hfp.
  - unfold bt_values. by rewrite len_map.
Qed.

(** A load that succeeds returns exactly what was saved. *)
Lemma restart_faithful (host : list Z) (t t' : HostVerifiedTrust) (json : rstr) :
  trust_wf t -> to_json to_json_string t = Ok json ->
  from_json sha256 is_public_key from_json_str host json = Ok t' -> t' = t.
Proof.
  intros Hwf Hj H. pose proof H as H'.
  unfold from_json, host_fingerprint in H. destruct (is_public_key host) eqn:Hpk; [|done].
  cbn [negb] in H. destruct (_ <? _) eqn:El in H; [done|]. to_prop.
  assert (trust_host_fingerprint t = sha256 host) as Hfp.
  { pose proof Hj as Hj'. unfold to_json in Hj'.
    destruct (to_json_string _) as [j|] eqn:E; [|done]. injection Hj' as ->.
    apply json_round_trip in E. rewrite E in H. cbn [ok_or snapshot_version
      snapshot_host_fingerprint] in H. ok_step H.
    by case_bool_decide. }
  rewrite (restart_restores host t json) in H' by done. congruence.
Qed.

Lemma trust_step_wf (host : list Z) (t : HostVerifiedTrust) (op : TrustOp) :
  trust_wf t -> trust_op_ok op -> trust_wf (trust_step host t op).
Proof.
  intros Hwf Hop. destruct op as [key name|key|id|]; cbn [trust_step trust_op_ok] in *.
  - destruct (enroll t key name) eqn:E; [|done]. by eapply enroll_wf.
  - unfold revoke. case_bool_decide; simpl; [by apply revoke_record_wf|done].
  - unfold revoke_stored. case_bool_decide; simpl; [by apply revoke_record_wf|done].
  - destruct (to_json to_json_string t) as [json|] eqn:E; [|done].
    destruct (from_json _ _ _ host json) as [t'|] eqn:E'; [|done].
    by rewrite (restart_faithful host t t' json).
Qed.

(** Only an enrollment of the same key ends a revocation. *)
Lemma trust_step_revoked (host : list Z) (t : HostVerifiedTrust) (op : TrustOp)
    (key : VerifiedListenerKey) :
  trust_wf t -> trust_op_ok op -> is_bytes32 key.(key_fingerprint) ->
  (forall k name, op = TrustEnroll k name -> k.(key_fingerprint) <> key.(key_fingerprint)) ->
  disposition t key = KeyRevoked -> disposition (trust_step host t op) key = KeyRevoked.
Proof.
  intros Hwf Hop Hk Hne Hd. destruct op as [k name|k|id|]; cbn [trust_step trust_op_ok] in *.
  - destruct (enroll t k name) eqn:E; [|done].
    rewrite (enroll_disposition t _ k key name); try done; [by destruct Hop|].
    by apply (Hne k name).
  - unfold revoke. case_bool_decide; simpl; [|done].
    rewrite revoke_record_disposition by (try done; by destruct Hop). rewrite Hd.
    by case_bool_decide.
  - unfold revoke_stored. case_bool_decide; simpl; [|done].
    rewrite revoke_record_disposition by done. rewrite Hd. by case_bool_decide.
  - destruct (to_json to_json_string t) as [json|] eqn:E; [|done].
    destruct (from_json _ _ _ host json) as [t'|] eqn:E'; [|done].
    by rewrite (restart_faithful host t t' json).
Qed.
End Laws.

(** ** Properties *)

Definition proof_ok (p : PendingListenerProof) : Prop :=
  wf_str p.(proof_session_id) /\ is_u64 p.(proof_generation)
  /\ is_bytes32 p.(proof_host_fingerprint) /\ is_bytes32 p.(proof_nonce)
  /\ is_bytes32 p.(proof_exporter_binding).

Lemma bytes32_app_inj (a b r s : list Z) :
  is_bytes32 a -> is_bytes32 b -> a ++ r = b ++ s -> a = b /\ r = s.
Proof. intros [La _] [Lb _]. apply app_inj_1. unfold len in *. lia. Qed.

Lemma be_bytes_app_inj (n : nat) (x y : Z) (r s : list Z) :
  is_uint (8 * Z.of_nat n) x -> is_uint (8 * Z.of_nat n) y ->
  be_bytes n x ++ r = be_bytes n y ++ s -> x = y /\ r = s.
Proof.
  intros Hx Hy E. apply app_inj_1 in E as [E Er]; [|by rewrite !length_be_bytes].
  split; [|done]. rewrite <- (from_be_be_bytes_small n x Hx), E. by apply from_be_be_bytes_small.
Qed.

(** C38. The signed transcript is unambiguous: if two challenges give the same
    bytes to sign, for whatever listener keys, then they agree on the session,
    the generation, the host identity, the nonce and the TLS channel binding,
    and the listener keys have the same fingerprint. A signature made for one
    challenge is therefore never one for another. *)
Theorem transcript_binds_every_field (sha256 : list Z -> list Z) (is_public_key : list Z -> bool)
    (p1 p2 : PendingListenerProof) (key1 key2 transcript : list Z) :
  (forall message, is_bytes32 (sha256 message)) -> proof_ok p1 -> proof_ok p2 ->
  signing_transcript sha256 is_public_key p1 key1 = Ok transcript ->
  signing_transcript sha256 is_public_key p2 key2 = Ok transcript ->
  p1.(proof_session_id) = p2.(proof_session_id)
  /\ p1.(proof_generation) = p2.(proof_generation)
  /\ p1.(proof_host_fingerprint) = p2.(proof_host_fingerprint)
  /\ p1.(proof_nonce) = p2.(proof_nonce)
  /\ p1.(proof_exporter_binding) = p2.(proof_exporter_binding)
  /\ sha256 key1 = sha256 key2.
Proof.
  intros Hsha (Ws1 & Hg1 & Hh1 & Hn1 & _) (Ws2 & Hg2 & Hh2 & Hn2 & _) H1 H2.
  unfold signing_transcript in *. ok_step H1. destruct (_ <? _) eqn:L1 in H1; [done|].
  ok_step H2. destruct (_ <? _) eqn:L2 in H2; [done|]. to_prop.
  pose proof (eq_trans H1 (eq_sym H2)) as E.
  apply (f_equal (fun r => match r with Ok l => l | Err _ => [] end)) in E. cbv beta iota in E.
  apply app_inv_head in E.
  apply bytes32_app_inj in E as [Eh E]; [|done..].
  apply bytes32_app_inj in E as [Ek E]; [|done..].
  apply be_bytes_app_inj in E as [El E];
    [|change (8 * Z.of_nat 2) with 16; unfold is_uint, u16_max in *;
      change (2 ^ 16) with 65536; split; [apply len_nonneg|lia]..].
  apply app_inj_1 in E as [Es E]; [|unfold len in El; lia].
  apply be_bytes_app_inj in E as [Eg E]; [|done..].
  apply bytes32_app_inj in E as [En Ee]; [|done..].
  assert (proof_session_id p1 = proof_session_id p2); [|done].
  assert (Some (proof_session_id p1) = Some (proof_session_id p2)) as [=]; [|done].
  rewrite <- (from_utf8_as_bytes (proof_session_id p1)), <- (from_utf8_as_bytes (proof_session_id p2))
    by done. congruence.
Qed.

(** A challenge is spent by its first use: verification succeeds exactly when
    the challenge is fresh, the key and the signature decode and the signature
    verifies over the challenge's own transcript; the result is the key's
    fingerprint under the challenge's host; and whatever the outcome, every
    later attempt on that challenge is refused. *)
Lemma challenge_is_single_use (sha256 : list Z -> list Z) (is_public_key is_signature : list Z -> bool)
    (verifies : list Z -> list Z -> list Z -> bool) (p : PendingListenerProof)
    (key signature key' signature' : list Z) (verified : VerifiedListenerKey) :
  let attempt := verify_and_consume sha256 is_public_key is_signature verifies in
  (snd (attempt p key signature) = Ok verified <->
   p.(proof_consumed) = false /\ is_signature signature = true
   /\ (exists transcript, signing_transcript sha256 is_public_key p key = Ok transcript
                          /\ verifies key transcript signature = true)
   /\ verified = mkVerifiedListenerKey (sha256 key) p.(proof_host_fingerprint))
  /\ snd (attempt (fst (attempt p key signature)) key' signature') = Err AlreadyConsumed.
Proof.
  cbv zeta. unfold verify_and_consume. destruct (proof_consumed p) eqn:Hc; simpl.
  - rewrite Hc. split; [|done]. naive_solver.
  - split; [|done].
    change (signing_transcript sha256 is_public_key (consume p) key)
      with (signing_transcript sha256 is_public_key p key).
    destruct (signing_transcript sha256 is_public_key p key) as [t|] eqn:E; [|naive_solver].
    assert (is_public_key key = true) as ->.
    { unfold signing_transcript in E. by destruct (is_public_key key). }
    cbn [negb]. destruct (is_signature signature); cbn [negb]; [|naive_solver].
    destruct (verifies key t signature) eqn:Hv; cbn [negb].
    + split; [intros [= <-]; eauto 10|]. by intros (_ & _ & _ & ->).
    + split; [done|]. intros (_ & _ & (t' & [= <-] & Hv') & _). congruence.
Qed.

(** C27. Revocation sticks: once a key is revoked in the host's registry, no
    sequence of enrollments of other keys, further revocations and restarts
    (saving the registry and loading it back) lets it in: in every approval
    mode, whatever the request claims, a valid proof of that key is answered
    with the refusal of a revoked listener. *)
Theorem revoked_listener_stays_out (sha256 : list Z -> list Z)
    (is_public_key is_signature : list Z -> bool) (verifies : list Z -> list Z -> list Z -> bool)
    (to_json_string : TrustSnapshot -> option rstr) (from_json_str : rstr -> option TrustSnapshot)
    (host : list Z) (trust : HostVerifiedTrust) (ops : list TrustOp) (key : VerifiedListenerKey)
    (draft : HostDraft) (request : JoinRequestSummary) (proof : PendingListenerProof)
    (listener signature : list Z) :
  (forall s json, to_json_string s = Some json -> from_json_str json = Some s) ->
  trust_wf trust -> Forall trust_op_ok ops -> is_bytes32 key.(key_fingerprint) ->
  Forall (fun op => forall k name, op = TrustEnroll k name ->
                    k.(key_fingerprint) <> key.(key_fingerprint)) ops ->
  disposition trust key = KeyRevoked ->
  snd (verify_and_consume sha256 is_public_key is_signature verifies proof listener signature)
    = Ok key ->
  snd (verify_and_classify_join sha256 is_public_key is_signature verifies draft request proof
         listener signature
         (fold_left (trust_step sha256 is_public_key to_json_string from_json_str host) ops trust))
  = Err RevokedListener.
Proof.
  intros Hjson Hwf Hops Hk Hne Hd Hv. unfold verify_and_classify_join.
  destruct (verify_and_consume _ _ _ _ proof listener signature) as [proof' r]. simpl in Hv |- *.
  subst r. cbn [map_err].
  enough (disposition (fold_left (trust_step sha256 is_public_key to_json_string from_json_str host)
                         ops trust) key = KeyRevoked) as -> by done.
  revert trust Hwf Hd. induction ops as [|op ops IH]; intros trust Hwf Hd; [done|].
  apply Forall_cons in Hops as [Hop Hops], Hne as [Hn Hne]. cbn [fold_left].
  apply IH; try done; [by apply trust_step_wf|by apply trust_step_revoked].
Qed.

(** Admission rests on verified facts only: the outcome of a proven join does
    not depend on the trust state or the device identifier the request claims;
    the request handed to the actor carries the identity derived from the key;
    and it is approved automatically exactly in the approved-devices mode when
    the host's own registry trusts that key. *)
Lemma admission_ignores_claims (sha256 : list Z -> list Z)
    (is_public_key is_signature : list Z -> bool) (verifies : list Z -> list Z -> list Z -> bool)
    (draft : HostDraft) (request : JoinRequestSummary) (proof : PendingListenerProof)
    (listener signature : list Z) (trust : HostVerifiedTrust)
    (claimed_id : rstr) (claimed_trust : TrustState) :
  let join := fun request => verify_and_classify_join sha256 is_public_key is_signature verifies
                               draft request proof listener signature trust in
  join (mkJoinRequestSummary request.(jr_request_id) claimed_id request.(jr_display_name)
          claimed_trust request.(jr_invite_code_valid) request.(jr_received_at)) = join request
  /\ match snd (join request) with
     | Ok admission =>
         admission.(admission_request).(jr_device_id)
           = canonical_device_id admission.(admission_verified_key)
         /\ (admission.(admission_disposition) = AutoApprove true <->
             draft.(draft_approval_mode) = TrustedDevices
             /\ disposition trust admission.(admission_verified_key) = KeyTrusted)
     | Err _ => True
     end.
Proof.
  cbv zeta. split; [done|]. unfold verify_and_classify_join.
  destruct (verify_and_consume _ _ _ _ proof listener signature) as [proof' [key|]]; simpl; [|done].
  destruct (disposition trust key) eqn:Hd; simpl; try done.
  all: split; [done|]; rewrite classify_auto_approve; simpl; rewrite Hd; naive_solver.
Qed.

(** The registry survives a restart: saving a well-formed registry and loading
    it under the same host key gives back the same registry, so every key keeps
    its disposition, revoked ones included. *)
Lemma trust_survives_restart (sha256 : list Z -> list Z) (is_public_key : list Z -> bool)
    (to_json_string : TrustSnapshot -> option rstr) (from_json_str : rstr -> option TrustSnapshot)
    (host : list Z) (trust : HostVerifiedTrust) (json : rstr) :
  (forall s json, to_json_string s = Some json -> from_json_str json = Some s) ->
  trust_wf trust -> is_public_key host = true -> trust.(trust_host_fingerprint) = sha256 host ->
  to_json to_json_string trust = Ok json -> str_len json <= MAX_SNAPSHOT_BYTES ->
  from_json sha256 is_public_key from_json_str host json = Ok trust.
Proof. intros Hj. by apply restart_restores. Qed.

(** ** Witnesses

    A digest that folds the message into its first byte, keys and signatures
    that always decode, a signature valid when it is the transcript itself, and
    a JSON library that knows one snapshot. *)

#[export] Instance StoredListener_eq_dec : EqDecision StoredListener.
Proof. solve_decision. Defined.
#[export] Instance TrustSnapshot_eq_dec : EqDecision TrustSnapshot.
Proof. solve_decision. Defined.

Definition toy_sha256 (message : list Z) : list Z :=
  (1 + len message mod 255) :: repeat 0 31.

Lemma toy_sha256_bytes (message : list Z) : is_bytes32 (toy_sha256 message).
Proof.
  split; [done|]. apply Forall_cons. pose proof (Z.mod_pos_bound (len message) 255 ltac:(lia)).
  split; [unfold is_u8, is_uint; change (2 ^ 8) with 256; lia|].
  apply List.Forall_forall. intros c ->%repeat_spec. unfold is_u8, is_uint. lia.
Qed.

Definition toy_verifies (key transcript signature : list Z) : bool :=
  bool_decide (transcript = signature).

Definition toy_proof : PendingListenerProof :=
  mkPendingListenerProof (lit "s") 7 (toy_sha256 [1]) (toy_sha256 [2]) (toy_sha256 [3]) false.

Lemma toy_proof_ok : proof_ok toy_proof.
Proof. split_and!; try apply toy_sha256_bytes; [apply wf_str_lit|done]. Qed.

Definition toy_key : VerifiedListenerKey :=
  mkVerifiedListenerKey (toy_sha256 [4; 5]) (toy_sha256 [1]).

Definition toy_other_key : VerifiedListenerKey :=
  mkVerifiedListenerKey (toy_sha256 [4; 5; 6]) (toy_sha256 [1]).

Definition toy_trust : HostVerifiedTrust :=
  mkHostVerifiedTrust (toy_sha256 [1])
    [(fp_key (toy_sha256 [4; 5]), mkStoredListener (toy_sha256 [4; 5]) (lit "Kitchen") true)].

Lemma toy_trust_wf : trust_wf toy_trust.
Proof.
  split; [|apply Forall_cons; split; [|constructor]|done].
  - repeat constructor.
  - split; [done|apply toy_sha256_bytes|discriminate|vm_compute; done].
Qed.

Definition toy_snapshot : TrustSnapshot :=
  mkTrustSnapshot TRUST_RECORD_VERSION (toy_sha256 [1]) (bt_values (trust_listeners toy_trust)).

Definition toy_to_json (s : TrustSnapshot) : option rstr :=
  if bool_decide (s = toy_snapshot) then Some (lit "{}") else None.

Definition toy_from_json (json : rstr) : option TrustSnapshot := Some toy_snapshot.

Lemma toy_json_round_trip (s : TrustSnapshot) (json : rstr) :
  toy_to_json s = Some json -> toy_from_json json = Some s.
Proof. unfold toy_to_json. case_bool_decide; [by subst|done]. Qed.

Definition toy_signature : list Z :=
  match signing_transcript toy_sha256 (fun _ => true) toy_proof [4; 5] with
  | Ok t => t
  | Err _ => []
  end.

Lemma transcript_binds_every_field_witness :
  proof_generation toy_proof = 7.
Proof.
  exact (proj1 (proj2 (transcript_binds_every_field toy_sha256 (fun _ => true) toy_proof
    (mkPendingListenerProof (lit "s") 7 (toy_sha256 [1]) (toy_sha256 [2]) (toy_sha256 [3]) true)
    [4; 5] [4; 5] toy_signature toy_sha256_bytes toy_proof_ok toy_proof_ok
    ltac:(vm_compute; reflexivity) ltac:(vm_compute; reflexivity)))).
Defined.

(** The restart of the next witness saves and loads the registry. *)
Lemma toy_restart :
  (let? json := to_json toy_to_json toy_trust in
   from_json toy_sha256 (fun _ => true) toy_from_json [1] json) = Ok toy_trust.
Proof. vm_compute. reflexivity. Qed.

Lemma revoked_listener_stays_out_witness :
  snd (verify_and_classify_join toy_sha256 (fun _ => true) (fun _ => true) toy_verifies
         HostDraft_default (mkJoinRequestSummary (lit "r") (lit "d") (lit "n") Trusted true 0)
         toy_proof [4; 5] toy_signature
         (fold_left (trust_step toy_sha256 (fun _ => true) toy_to_json toy_from_json [1])
            [TrustRestart; TrustEnroll toy_other_key (lit "Den"); TrustRevoke toy_other_key]
            toy_trust))
  = Err RevokedListener.
Proof.
  apply (revoked_listener_stays_out toy_sha256 (fun _ => true) (fun _ => true) toy_verifies
           toy_to_json toy_from_json [1] toy_trust _ toy_key).
  - exact toy_json_round_trip.
  - exact toy_trust_wf.
  - apply List.Forall_cons; [exact I|].
    apply List.Forall_cons; [split; [apply toy_sha256_bytes|discriminate]|].
    apply List.Forall_cons; [split; [apply toy_sha256_bytes|discriminate]|]. apply List.Forall_nil.
  - apply toy_sha256_bytes.
  - apply List.Forall_cons; [discriminate|].
    apply List.Forall_cons; [intros k name E; injection E as <- _; discriminate|].
    apply List.Forall_cons; [discriminate|].
    apply List.Forall_nil.
  - vm_compute. reflexivity.
  - vm_compute. reflexivity.
Defined.

Lemma trust_survives_restart_witness :
  from_json toy_sha256 (fun _ => true) toy_from_json [1] (lit "{}") = Ok toy_trust.
Proof.
  apply (trust_survives_restart toy_sha256 (fun _ => true) toy_to_json toy_from_json [1] toy_trust).
  - exact toy_json_round_trip.
  - exact toy_trust_wf.
  - reflexivity.
  - reflexivity.
  - vm_compute. reflexivity.
  - vm_compute. discriminate.
Defined.
