(* ===== verification/RuntimeRecords.v ===== *)
(** Contract records of the runtime actor: effects (src/rust/silent-disco-core/src/runtime/effects.rs),
    commands, platform, transport, audio and storage facts, the authoritative
    snapshot and its validation, and the actor's inputs and notifications
    (runtime/records/*.rs, runtime/records_runtime.rs). *)
From Stdlib Require Import ZArith Lia Strings.String Floats.SpecFloat.
From stdpp Require Import numbers list prelude.
From S2P Require Import Prelude Utf8 Float64 Domain Decimal CoreErrors ProtocolTypes RuntimeTypes.
From S2P Require Import HostQueue Admission.

Definition MAX_DISCOVERED_SESSIONS : Z := 128.
Definition MAX_PENDING_JOIN_REQUESTS : Z := 128.
Definition MAX_CONNECTED_LISTENERS : Z := 256.
Definition MAX_CAPABILITY_REQUESTS : Z := 16.
Definition MAX_EXPORT_ID_BYTES : Z := 128.
Definition MAX_STORAGE_TRUSTED_DEVICES : Z := 1024.

Definition current_protocol_version : Z := PROTOCOL_VERSION.

(** ** Contract errors *)

Inductive RuntimeContractError : Type :=
| ConInviteCode | ConLinearGain | ConAudioOutputFormat | ConAudioBackendName | ConCapabilityList
| ConExportId | ConStoredTrustedDeviceLimit | ConDiscoveredSessionLimit | ConPendingRequestLimit
| ConListenerLimit | ConDuplicateSession | ConDuplicateRequest | ConDuplicateListener
| ConDiscoveryStateMismatch | ConUnknownSelectedSession.

(** [impl Display for RuntimeContractError]. *)
Definition contract_error_text (e : RuntimeContractError) : rstr :=
  match e with
  | ConInviteCode => lit "join invite code is invalid"
  | ConLinearGain => lit "linear gain must be finite and between zero and one"
  | ConAudioOutputFormat => lit "audio-output format fields must be nonzero"
  | ConAudioBackendName => lit "audio backend name is invalid"
  | ConCapabilityList => lit "capability request list is invalid"
  | ConExportId => lit "diagnostics export identifier is invalid"
  | ConStoredTrustedDeviceLimit => lit "stored trusted-device limit exceeded"
  | ConDiscoveredSessionLimit => lit "discovered-session limit exceeded"
  | ConPendingRequestLimit => lit "pending join-request limit exceeded"
  | ConListenerLimit => lit "listener limit exceeded"
  | ConDuplicateSession => lit "duplicate discovered session identifier"
  | ConDuplicateRequest => lit "duplicate pending request identifier"
  | ConDuplicateListener => lit "duplicate listener identifier"
  | ConDiscoveryStateMismatch => lit "discovery flag and transport state disagree"
  | ConUnknownSelectedSession => lit "selected session is not present in discovery results"
  end.

Inductive EffectContractError : Type := EffControlReason | EffDeviceDisplayName | EffTuningSettings.

(** [impl Display for EffectContractError]. *)
Definition effect_error_text (e : EffectContractError) : rstr :=
  match e with
  | EffControlReason => lit "transport control reason is invalid"
  | EffDeviceDisplayName => lit "device display name is invalid"
  | EffTuningSettings => lit "tuning settings are invalid"
  end.

(** The three [validate_unique_*] loops: each element against the earlier ones. *)
Fixpoint validate_unique {A : Type} (id : A -> rstr) (error : RuntimeContractError)
    (earlier rest : list A) : result unit RuntimeContractError :=
  match rest with
  | [] => Ok tt
  | x :: rest' =>
      if existsb (fun e => bool_decide (id e = id x)) earlier then Err error
      else validate_unique id error (earlier ++ [x]) rest'
  end.

Definition validate_unique_sessions (sessions : list SessionAdvertisement) :=
  validate_unique ad_session_id ConDuplicateSession [] sessions.
Definition validate_unique_requests (requests : list JoinRequestSummary) :=
  validate_unique jr_request_id ConDuplicateRequest [] requests.
Definition validate_unique_listeners (listeners : list ListenerSummary) :=
  validate_unique ls_device_id ConDuplicateListener [] listeners.

(** ** Effects *)

Inductive TransportEffectRequest : Type :=
| DeliverJoinApproval (request_id session_id listener_id : rstr) (trusted_for_future : bool)
| DeliverJoinRejection (request_id session_id listener_id reason_code : rstr)
| DisconnectListener (session_id listener_id reason_code : rstr).

Definition TransportEffectRequest_validate (r : TransportEffectRequest)
    : result unit EffectContractError :=
  match r with
  | DeliverJoinRejection _ _ _ reason_code | DisconnectListener _ _ reason_code =>
      validate_token reason_code MAX_REASON_BYTES EffControlReason
  | DeliverJoinApproval _ _ _ _ => Ok tt
  end.

Record TransportEffect : Type := mkTransportEffect {
  te_operation_id : rstr;
  te_request : TransportEffectRequest
}.

Definition TransportEffect_new (operation_id : rstr) (request : TransportEffectRequest)
    : result TransportEffect EffectContractError :=
  let? _ := TransportEffectRequest_validate request in
  Ok (mkTransportEffect operation_id request).

Inductive StorageEffectRequest : Type :=
| PersistSettings (settings : TuningSettings)
| PersistTrustedDevice (device_id display_name : rstr).

Definition StorageEffectRequest_validate (r : StorageEffectRequest)
    : result unit EffectContractError :=
  match r with
  | PersistSettings settings => map_err (fun _ => EffTuningSettings) (TuningSettings_validate settings)
  | PersistTrustedDevice _ display_name =>
      validate_human_text display_name MAX_DISPLAY_NAME_BYTES EffDeviceDisplayName
  end.

Record StorageEffect : Type := mkStorageEffect {
  se_operation_id : rstr;
  se_request : StorageEffectRequest
}.

Definition StorageEffect_new (operation_id : rstr) (request : StorageEffectRequest)
    : result StorageEffect EffectContractError :=
  let? _ := StorageEffectRequest_validate request in
  Ok (mkStorageEffect operation_id request).

(** ** Platform work *)

Inductive PermissionCapability : Type :=
| CapNearbyDiscovery | CapNearbyAdvertising | CapLocalNetwork | CapAudioSourceSelection
| CapAudioOutput | CapSecureStore.

#[export] Instance PermissionCapability_eq_dec : EqDecision PermissionCapability.
Proof. solve_decision. Defined.

Record DiscoveryRequest : Type := mkDiscoveryRequest { discovery_scan_window_ms : Z }.

Definition DiscoveryRequest_from_tuning (tuning : TuningSettings) : DiscoveryRequest :=
  mkDiscoveryRequest tuning.(scan_window_ms).

Record NetworkEstablishmentRequest : Type := mkNetworkEstablishmentRequest {
  establish_session_id : rstr;
  establish_endpoint : option NetworkEndpoint
}.

Record AudioOutputRequest : Type := mkAudioOutputRequest {
  output_sample_rate_hz : Z;
  output_channels : Z
}.

Definition AudioOutputRequest_new (sample_rate_hz channels : Z)
    : result AudioOutputRequest RuntimeContractError :=
  if (sample_rate_hz =? 0) || (channels =? 0) then Err ConAudioOutputFormat
  else Ok (mkAudioOutputRequest sample_rate_hz channels).

Record AudioOutputInfo : Type := mkAudioOutputInfo {
  info_sample_rate_hz : Z;
  info_channels : Z;
  info_backend_name : rstr
}.

Definition AudioOutputInfo_new (sample_rate_hz channels : Z) (backend_name : rstr)
    : result AudioOutputInfo RuntimeContractError :=
  let? _ := AudioOutputRequest_new sample_rate_hz channels in
  let? _ := validate_token backend_name 64 ConAudioBackendName in
  Ok (mkAudioOutputInfo sample_rate_hz channels backend_name).

Inductive PlatformEffectRequest : Type :=
| RequestCapabilities (capabilities : list PermissionCapability)
| StartAdvertising (advertisement : SessionAdvertisement)
| StopAdvertising
| StartDiscovery (request : DiscoveryRequest)
| StopDiscovery
| EstablishNetwork (request : NetworkEstablishmentRequest)
| ReleaseNetwork
| PrepareAudioSource (source : AudioSourceDescriptor)
| StartAudioOutput (request : AudioOutputRequest)
| StopAudioOutput
| ShareDiagnostics (export_id : rstr).

(** [capabilities[..index].contains(capability)] for every index. *)
Fixpoint capabilities_distinct (earlier rest : list PermissionCapability)
    : result unit RuntimeContractError :=
  match rest with
  | [] => Ok tt
  | c :: rest' =>
      if bool_decide (c ∈ earlier) then Err ConCapabilityList
      else capabilities_distinct (earlier ++ [c]) rest'
  end.

Definition PlatformEffectRequest_validate (r : PlatformEffectRequest)
    : result unit RuntimeContractError :=
  match r with
  | RequestCapabilities capabilities =>
      if bool_decide (capabilities = []) || (MAX_CAPABILITY_REQUESTS <? len capabilities)
      then Err ConCapabilityList
      else capabilities_distinct [] capabilities
  | ShareDiagnostics export_id => validate_token export_id MAX_EXPORT_ID_BYTES ConExportId
  | _ => Ok tt
  end.

Record PlatformEffect : Type := mkPlatformEffect {
  pe_operation_id : rstr;
  pe_request : PlatformEffectRequest
}.

Definition PlatformEffect_new (operation_id : rstr) (request : PlatformEffectRequest)
    : result PlatformEffect RuntimeContractError :=
  let? _ := PlatformEffectRequest_validate request in
  Ok (mkPlatformEffect operation_id request).

Inductive PlatformOperationCompletion : Type :=
| CapabilitiesResolved (capabilities : CapabilitySnapshot)
| AdvertisingStarted
| AdvertisingStopped
| DiscoveryStarted
| DiscoveryStopped
| NetworkEndpointReady (endpoint : NetworkEndpoint)
| NetworkReleased
| AudioSourcePrepared (source : AudioSourceDescriptor)
| AudioOutputStarted (info : AudioOutputInfo)
| AudioOutputStopped
| DiagnosticsShared (export_id : rstr).

Inductive PlatformEvent : Type :=
| PlatformOperationSucceeded (operation_id : rstr) (completion : PlatformOperationCompletion)
| PlatformOperationFailed (operation_id : rstr) (error : CoreError)
| SessionDiscovered (advertisement : SessionAdvertisement)
| SessionExpired (session_id : rstr)
| CapabilityStateChanged (capabilities : CapabilitySnapshot)
| AppEnteredForeground
| AppEnteredBackground.

Definition PlatformEvent_operation_id (e : PlatformEvent) : option rstr :=
  match e with
  | PlatformOperationSucceeded operation_id _ | PlatformOperationFailed operation_id _ =>
      Some operation_id
  | SessionDiscovered _ | SessionExpired _ | CapabilityStateChanged _ | AppEnteredForeground
  | AppEnteredBackground => None
  end.

(** ** Transport, audio and storage facts *)

Inductive TransportEvent : Type :=
| TransportStateChanged (state : TransportState)
| TransportJoinRequested (request : JoinRequestSummary)
| ListenerConnected (listener : ListenerSummary)
| ListenerDisconnectedEvent (device_id : rstr) (error : option CoreError)
| DeliveryCompleted (operation_id : rstr) (report : DeliveryReport)
| SessionEnded (session_id : rstr)
| TransportFailed (error : CoreError)
| AwaitingApprovalEvent
| JoinApproved (trusted_for_future : bool)
| JoinRejected (reason : rstr).

Inductive AudioEvent : Type :=
| PlaybackStateChanged (state : PlaybackState)
| PositionAdvanced (stream_id : rstr) (position_ms : Z)
| TrackBoundaryApplied (entry_id : rstr) (first_sample_index : Z)
| TrackBoundaryScheduled (entry_id : rstr) (first_sample_index : Z)
| SynchronizationUpdated (device_id : rstr) (summary : SynchronizationSummary)
| EndOfStream (stream_id : rstr)
| UnderrunEvent (missing_frames : Z)
| AudioFailed (error : CoreError).

(** [storage::StoredSettings] and [storage::TrustedDevice]. *)
Record StoredSettings : Type := mkStoredSettings {
  stored_tuning : TuningSettings;
  allow_shared_address_space : bool;
  settings_updated_at_ms : Z
}.

Record TrustedDevice : Type := mkTrustedDevice {
  td_device_id : rstr;
  td_display_name : rstr;
  td_public_key : option (list Z);
  td_private_key_ref : option rstr;
  td_trust_state : TrustState;
  td_first_seen_ms : Z;
  td_last_seen_ms : Z;
  td_updated_at_ms : Z
}.

Inductive StorageCompletion : Type :=
| SettingsLoaded (settings : option StoredSettings)
| SettingsSaved
| TrustedDevicesLoaded (devices : list TrustedDevice)
| TrustedDeviceUpdated (device_id : rstr)
| DiagnosticsExportReady (export_id : rstr).

Definition StorageCompletion_validate (c : StorageCompletion) : result unit RuntimeContractError :=
  match c with
  | TrustedDevicesLoaded devices =>
      if MAX_STORAGE_TRUSTED_DEVICES <? len devices then Err ConStoredTrustedDeviceLimit else Ok tt
  | DiagnosticsExportReady export_id => validate_token export_id MAX_EXPORT_ID_BYTES ConExportId
  | _ => Ok tt
  end.

Inductive StorageEvent : Type :=
| StorageOperationSucceeded (operation_id : rstr) (completion : StorageCompletion)
| StorageOperationFailed (operation_id : rstr) (error : CoreError).

Definition StorageEvent_operation_id (e : StorageEvent) : rstr :=
  match e with
  | StorageOperationSucceeded operation_id _ | StorageOperationFailed operation_id _ => operation_id
  end.

Definition StorageEvent_validate (e : StorageEvent) : result unit RuntimeContractError :=
  match e with
  | StorageOperationSucceeded _ completion => StorageCompletion_validate completion
  | StorageOperationFailed _ _ => Ok tt
  end.

(** ** Commands *)

Inductive CoreCommand : Type :=
| SelectRole (role : AppRole)
| UpdateHostDraft (patch : HostDraftPatch)
| AppendHostQueue (expected_queue_revision : Z) (new_entries : list QueueEntry)
| ReorderHostQueue (expected_queue_revision : Z) (ordered_entry_ids : list rstr)
| RemoveHostQueueEntry (expected_queue_revision : Z) (id : rstr)
| ClearHostQueue (expected_queue_revision : Z)
| CreateHostSession
| EndHostSession
| StartDiscoveryCommand
| StopDiscoveryCommand
| SelectSession (session_id : rstr)
| SubmitJoin (invite_code : option rstr)
| CancelJoin
| ApproveJoin (request_id : rstr) (remember_for_future : bool)
| RejectJoin (request_id : rstr)
| RemoveListener (listener_id : rstr)
| StartPlayback (source : AudioSourceDescriptor)
| PausePlayback
| ResumePlayback
| StopPlayback
| SetLocalVolume (linear_gain : f32)
| RequestResync
| RetryRecoverableFailure
| UpdateTuning (patch : TuningPatch)
| ExportDiagnostics
| Shutdown.

Definition validate_shape (c : CoreCommand) : result unit RuntimeContractError :=
  match c with
  | SubmitJoin (Some code) => validate_token code MAX_INVITE_CODE_BYTES ConInviteCode
  | SetLocalVolume linear_gain =>
      if negb (f32_is_finite linear_gain)
         || negb (SFleb (f32_of_Z 0) linear_gain && SFleb linear_gain (f32_of_Z 1))
      then Err ConLinearGain else Ok tt
  | _ => Ok tt
  end.

Record CoreCommandRequest : Type := mkCoreCommandRequest {
  expected_revision : Z;
  command : CoreCommand
}.

Definition CoreCommandRequest_new (expected_revision : Z) (command : CoreCommand)
    : result CoreCommandRequest RuntimeContractError :=
  let? _ := validate_shape command in
  Ok (mkCoreCommandRequest expected_revision command).

(** ** The snapshot *)

Inductive RecoverableAction : Type :=
| RecoverRetry | RecoverRescan | RecoverReconnect | RecoverResynchronize
| RecoverReselectAudioSource.

#[export] Instance RecoverableAction_eq_dec : EqDecision RecoverableAction.
Proof. solve_decision. Defined.

Record HostQueueBoundary : Type := mkHostQueueBoundary {
  hb_entry_id : rstr;
  hb_first_sample_index : Z
}.

#[export] Instance HostQueueBoundary_eq_dec : EqDecision HostQueueBoundary.
Proof. solve_decision. Defined.

Inductive HostQueuePreparationState : Type := PreparationEmpty | PreparationPrepared.
Inductive HostQueueReadiness : Type :=
| ReadinessEmpty | ReadinessReady | ReadinessBuffering | ReadinessPlaying | ReadinessPaused
| ReadinessUnderrun | ReadinessFailed.

Record HostQueueSnapshot : Type := mkHostQueueSnapshot {
  hqs_revision : Z;
  hqs_current : option QueueEntry;
  hqs_upcoming : list QueueEntry;
  hqs_preparation_state : HostQueuePreparationState;
  hqs_readiness : HostQueueReadiness;
  hqs_error : option CoreError;
  hqs_next_boundary : option HostQueueBoundary
}.

Record CoreSnapshot : Type := mkCoreSnapshot {
  revision : Z;
  selected_role : option AppRole;
  capabilities : CapabilitySnapshot;
  host_draft : HostDraft;
  host_queue : HostQueue;
  host_queue_next_boundary : option HostQueueBoundary;
  host_lifecycle : HostLifecycle;
  listener_lifecycle : ListenerLifecycle;
  transport_state : TransportState;
  discovery_active : bool;
  discovered_sessions : list SessionAdvertisement;
  selected_session : option rstr;
  pending_join_requests : list JoinRequestSummary;
  listeners : list ListenerSummary;
  playback_state : PlaybackState;
  playback_position_ms : Z;
  stream_ended_naturally : bool;
  synchronization : option SynchronizationSummary;
  tuning : TuningSettings;
  last_delivery : option DeliveryReport;
  last_delivery_operation_id : option rstr;
  recoverable_action : option RecoverableAction;
  last_error : option CoreError;
  shutting_down : bool
}.

(** Assignments to one field of the snapshot. *)
Definition set_revision (v : Z) (s : CoreSnapshot) : CoreSnapshot :=
  mkCoreSnapshot
    v s.(selected_role) s.(capabilities) s.(host_draft) s.(host_queue)
    s.(host_queue_next_boundary) s.(host_lifecycle) s.(listener_lifecycle) s.(transport_state)
    s.(discovery_active) s.(discovered_sessions) s.(selected_session) s.(pending_join_requests)
    s.(listeners) s.(playback_state) s.(playback_position_ms) s.(stream_ended_naturally)
    s.(synchronization) s.(tuning) s.(last_delivery) s.(last_delivery_operation_id)
    s.(recoverable_action) s.(last_error) s.(shutting_down).
Definition set_selected_role (v : option AppRole) (s : CoreSnapshot) : CoreSnapshot :=
  mkCoreSnapshot
    s.(revision) v s.(capabilities) s.(host_draft) s.(host_queue) s.(host_queue_next_boundary)
    s.(host_lifecycle) s.(listener_lifecycle) s.(transport_state) s.(discovery_active)
    s.(discovered_sessions) s.(selected_session) s.(pending_join_requests) s.(listeners)
    s.(playback_state) s.(playback_position_ms) s.(stream_ended_naturally) s.(synchronization)
    s.(tuning) s.(last_delivery) s.(last_delivery_operation_id) s.(recoverable_action)
    s.(last_error) s.(shutting_down).
Definition set_capabilities (v : CapabilitySnapshot) (s : CoreSnapshot) : CoreSnapshot :=
  mkCoreSnapshot
    s.(revision) s.(selected_role) v s.(host_draft) s.(host_queue) s.(host_queue_next_boundary)
    s.(host_lifecycle) s.(listener_lifecycle) s.(transport_state) s.(discovery_active)
    s.(discovered_sessions) s.(selected_session) s.(pending_join_requests) s.(listeners)
    s.(playback_state) s.(playback_position_ms) s.(stream_ended_naturally) s.(synchronization)
    s.(tuning) s.(last_delivery) s.(last_delivery_operation_id) s.(recoverable_action)
    s.(last_error) s.(shutting_down).
Definition set_host_draft (v : HostDraft) (s : CoreSnapshot) : CoreSnapshot :=
  mkCoreSnapshot
    s.(revision) s.(selected_role) s.(capabilities) v s.(host_queue) s.(host_queue_next_boundary)
    s.(host_lifecycle) s.(listener_lifecycle) s.(transport_state) s.(discovery_active)
    s.(discovered_sessions) s.(selected_session) s.(pending_join_requests) s.(listeners)
    s.(playback_state) s.(playback_position_ms) s.(stream_ended_naturally) s.(synchronization)
    s.(tuning) s.(last_delivery) s.(last_delivery_operation_id) s.(recoverable_action)
    s.(last_error) s.(shutting_down).
Definition set_host_queue (v : HostQueue) (s : CoreSnapshot) : CoreSnapshot :=
  mkCoreSnapshot
    s.(revision) s.(selected_role) s.(capabilities) s.(host_draft) v s.(host_queue_next_boundary)
    s.(host_lifecycle) s.(listener_lifecycle) s.(transport_state) s.(discovery_active)
    s.(discovered_sessions) s.(selected_session) s.(pending_join_requests) s.(listeners)
    s.(playback_state) s.(playback_position_ms) s.(stream_ended_naturally) s.(synchronization)
    s.(tuning) s.(last_delivery) s.(last_delivery_operation_id) s.(recoverable_action)
    s.(last_error) s.(shutting_down).
Definition set_host_queue_next_boundary (v : option HostQueueBoundary) (s : CoreSnapshot) : CoreSnapshot :=
  mkCoreSnapshot
    s.(revision) s.(selected_role) s.(capabilities) s.(host_draft) s.(host_queue) v
    s.(host_lifecycle) s.(listener_lifecycle) s.(transport_state) s.(discovery_active)
    s.(discovered_sessions) s.(selected_session) s.(pending_join_requests) s.(listeners)
    s.(playback_state) s.(playback_position_ms) s.(stream_ended_naturally) s.(synchronization)
    s.(tuning) s.(last_delivery) s.(last_delivery_operation_id) s.(recoverable_action)
    s.(last_error) s.(shutting_down).
Definition set_host_lifecycle (v : HostLifecycle) (s : CoreSnapshot) : CoreSnapshot :=
  mkCoreSnapshot
    s.(revision) s.(selected_role) s.(capabilities) s.(host_draft) s.(host_queue)
    s.(host_queue_next_boundary) v s.(listener_lifecycle) s.(transport_state)
    s.(discovery_active) s.(discovered_sessions) s.(selected_session) s.(pending_join_requests)
    s.(listeners) s.(playback_state) s.(playback_position_ms) s.(stream_ended_naturally)
    s.(synchronization) s.(tuning) s.(last_delivery) s.(last_delivery_operation_id)
    s.(recoverable_action) s.(last_error) s.(shutting_down).
Definition set_listener_lifecycle (v : ListenerLifecycle) (s : CoreSnapshot) : CoreSnapshot :=
  mkCoreSnapshot
    s.(revision) s.(selected_role) s.(capabilities) s.(host_draft) s.(host_queue)
    s.(host_queue_next_boundary) s.(host_lifecycle) v s.(transport_state) s.(discovery_active)
    s.(discovered_sessions) s.(selected_session) s.(pending_join_requests) s.(listeners)
    s.(playback_state) s.(playback_position_ms) s.(stream_ended_naturally) s.(synchronization)
    s.(tuning) s.(last_delivery) s.(last_delivery_operation_id) s.(recoverable_action)
    s.(last_error) s.(shutting_down).
Definition set_transport_state (v : TransportState) (s : CoreSnapshot) : CoreSnapshot :=
  mkCoreSnapshot
    s.(revision) s.(selected_role) s.(capabilities) s.(host_draft) s.(host_queue)
    s.(host_queue_next_boundary) s.(host_lifecycle) s.(listener_lifecycle) v s.(discovery_active)
    s.(discovered_sessions) s.(selected_session) s.(pending_join_requests) s.(listeners)
    s.(playback_state) s.(playback_position_ms) s.(stream_ended_naturally) s.(synchronization)
    s.(tuning) s.(last_delivery) s.(last_delivery_operation_id) s.(recoverable_action)
    s.(last_error) s.(shutting_down).
Definition set_discovery_active (v : bool) (s : CoreSnapshot) : CoreSnapshot :=
  mkCoreSnapshot
    s.(revision) s.(selected_role) s.(capabilities) s.(host_draft) s.(host_queue)
    s.(host_queue_next_boundary) s.(host_lifecycle) s.(listener_lifecycle) s.(transport_state) v
    s.(discovered_sessions) s.(selected_session) s.(pending_join_requests) s.(listeners)
    s.(playback_state) s.(playback_position_ms) s.(stream_ended_naturally) s.(synchronization)
    s.(tuning) s.(last_delivery) s.(last_delivery_operation_id) s.(recoverable_action)
    s.(last_error) s.(shutting_down).
Definition set_discovered_sessions (v : list SessionAdvertisement) (s : CoreSnapshot) : CoreSnapshot :=
  mkCoreSnapshot
    s.(revision) s.(selected_role) s.(capabilities) s.(host_draft) s.(host_queue)
    s.(host_queue_next_boundary) s.(host_lifecycle) s.(listener_lifecycle) s.(transport_state)
    s.(discovery_active) v s.(selected_session) s.(pending_join_requests) s.(listeners)
    s.(playback_state) s.(playback_position_ms) s.(stream_ended_naturally) s.(synchronization)
    s.(tuning) s.(last_delivery) s.(last_delivery_operation_id) s.(recoverable_action)
    s.(last_error) s.(shutting_down).
Definition set_selected_session (v : option rstr) (s : CoreSnapshot) : CoreSnapshot :=
  mkCoreSnapshot
    s.(revision) s.(selected_role) s.(capabilities) s.(host_draft) s.(host_queue)
    s.(host_queue_next_boundary) s.(host_lifecycle) s.(listener_lifecycle) s.(transport_state)
    s.(discovery_active) s.(discovered_sessions) v s.(pending_join_requests) s.(listeners)
    s.(playback_state) s.(playback_position_ms) s.(stream_ended_naturally) s.(synchronization)
    s.(tuning) s.(last_delivery) s.(last_delivery_operation_id) s.(recoverable_action)
    s.(last_error) s.(shutting_down).
Definition set_pending_join_requests (v : list JoinRequestSummary) (s : CoreSnapshot) : CoreSnapshot :=
  mkCoreSnapshot
    s.(revision) s.(selected_role) s.(capabilities) s.(host_draft) s.(host_queue)
    s.(host_queue_next_boundary) s.(host_lifecycle) s.(listener_lifecycle) s.(transport_state)
    s.(discovery_active) s.(discovered_sessions) s.(selected_session) v s.(listeners)
    s.(playback_state) s.(playback_position_ms) s.(stream_ended_naturally) s.(synchronization)
    s.(tuning) s.(last_delivery) s.(last_delivery_operation_id) s.(recoverable_action)
    s.(last_error) s.(shutting_down).
Definition set_listeners (v : list ListenerSummary) (s : CoreSnapshot) : CoreSnapshot :=
  mkCoreSnapshot
    s.(revision) s.(selected_role) s.(capabilities) s.(host_draft) s.(host_queue)
    s.(host_queue_next_boundary) s.(host_lifecycle) s.(listener_lifecycle) s.(transport_state)
    s.(discovery_active) s.(discovered_sessions) s.(selected_session) s.(pending_join_requests) v
    s.(playback_state) s.(playback_position_ms) s.(stream_ended_naturally) s.(synchronization)
    s.(tuning) s.(last_delivery) s.(last_delivery_operation_id) s.(recoverable_action)
    s.(last_error) s.(shutting_down).
Definition set_playback_state (v : PlaybackState) (s : CoreSnapshot) : CoreSnapshot :=
  mkCoreSnapshot
    s.(revision) s.(selected_role) s.(capabilities) s.(host_draft) s.(host_queue)
    s.(host_queue_next_boundary) s.(host_lifecycle) s.(listener_lifecycle) s.(transport_state)
    s.(discovery_active) s.(discovered_sessions) s.(selected_session) s.(pending_join_requests)
    s.(listeners) v s.(playback_position_ms) s.(stream_ended_naturally) s.(synchronization)
    s.(tuning) s.(last_delivery) s.(last_delivery_operation_id) s.(recoverable_action)
    s.(last_error) s.(shutting_down).
Definition set_playback_position_ms (v : Z) (s : CoreSnapshot) : CoreSnapshot :=
  mkCoreSnapshot
    s.(revision) s.(selected_role) s.(capabilities) s.(host_draft) s.(host_queue)
    s.(host_queue_next_boundary) s.(host_lifecycle) s.(listener_lifecycle) s.(transport_state)
    s.(discovery_active) s.(discovered_sessions) s.(selected_session) s.(pending_join_requests)
    s.(listeners) s.(playback_state) v s.(stream_ended_naturally) s.(synchronization) s.(tuning)
    s.(last_delivery) s.(last_delivery_operation_id) s.(recoverable_action) s.(last_error)
    s.(shutting_down).
Definition set_stream_ended_naturally (v : bool) (s : CoreSnapshot) : CoreSnapshot :=
  mkCoreSnapshot
    s.(revision) s.(selected_role) s.(capabilities) s.(host_draft) s.(host_queue)
    s.(host_queue_next_boundary) s.(host_lifecycle) s.(listener_lifecycle) s.(transport_state)
    s.(discovery_active) s.(discovered_sessions) s.(selected_session) s.(pending_join_requests)
    s.(listeners) s.(playback_state) s.(playback_position_ms) v s.(synchronization) s.(tuning)
    s.(last_delivery) s.(last_delivery_operation_id) s.(recoverable_action) s.(last_error)
    s.(shutting_down).
Definition set_synchronization (v : option SynchronizationSummary) (s : CoreSnapshot) : CoreSnapshot :=
  mkCoreSnapshot
    s.(revision) s.(selected_role) s.(capabilities) s.(host_draft) s.(host_queue)
    s.(host_queue_next_boundary) s.(host_lifecycle) s.(listener_lifecycle) s.(transport_state)
    s.(discovery_active) s.(discovered_sessions) s.(selected_session) s.(pending_join_requests)
    s.(listeners) s.(playback_state) s.(playback_position_ms) s.(stream_ended_naturally) v
    s.(tuning) s.(last_delivery) s.(last_delivery_operation_id) s.(recoverable_action)
    s.(last_error) s.(shutting_down).
Definition set_tuning (v : TuningSettings) (s : CoreSnapshot) : CoreSnapshot :=
  mkCoreSnapshot
    s.(revision) s.(selected_role) s.(capabilities) s.(host_draft) s.(host_queue)
    s.(host_queue_next_boundary) s.(host_lifecycle) s.(listener_lifecycle) s.(transport_state)
    s.(discovery_active) s.(discovered_sessions) s.(selected_session) s.(pending_join_requests)
    s.(listeners) s.(playback_state) s.(playback_position_ms) s.(stream_ended_naturally)
    s.(synchronization) v s.(last_delivery) s.(last_delivery_operation_id) s.(recoverable_action)
    s.(last_error) s.(shutting_down).
Definition set_last_delivery (v : option DeliveryReport) (s : CoreSnapshot) : CoreSnapshot :=
  mkCoreSnapshot
    s.(revision) s.(selected_role) s.(capabilities) s.(host_draft) s.(host_queue)
    s.(host_queue_next_boundary) s.(host_lifecycle) s.(listener_lifecycle) s.(transport_state)
    s.(discovery_active) s.(discovered_sessions) s.(selected_session) s.(pending_join_requests)
    s.(listeners) s.(playback_state) s.(playback_position_ms) s.(stream_ended_naturally)
    s.(synchronization) s.(tuning) v s.(last_delivery_operation_id) s.(recoverable_action)
    s.(last_error) s.(shutting_down).
Definition set_last_delivery_operation_id (v : option rstr) (s : CoreSnapshot) : CoreSnapshot :=
  mkCoreSnapshot
    s.(revision) s.(selected_role) s.(capabilities) s.(host_draft) s.(host_queue)
    s.(host_queue_next_boundary) s.(host_lifecycle) s.(listener_lifecycle) s.(transport_state)
    s.(discovery_active) s.(discovered_sessions) s.(selected_session) s.(pending_join_requests)
    s.(listeners) s.(playback_state) s.(playback_position_ms) s.(stream_ended_naturally)
    s.(synchronization) s.(tuning) s.(last_delivery) v s.(recoverable_action) s.(last_error)
    s.(shutting_down).
Definition set_recoverable_action (v : option RecoverableAction) (s : CoreSnapshot) : CoreSnapshot :=
  mkCoreSnapshot
    s.(revision) s.(selected_role) s.(capabilities) s.(host_draft) s.(host_queue)
    s.(host_queue_next_boundary) s.(host_lifecycle) s.(listener_lifecycle) s.(transport_state)
    s.(discovery_active) s.(discovered_sessions) s.(selected_session) s.(pending_join_requests)
    s.(listeners) s.(playback_state) s.(playback_position_ms) s.(stream_ended_naturally)
    s.(synchronization) s.(tuning) s.(last_delivery) s.(last_delivery_operation_id) v
    s.(last_error) s.(shutting_down).
Definition set_last_error (v : option CoreError) (s : CoreSnapshot) : CoreSnapshot :=
  mkCoreSnapshot
    s.(revision) s.(selected_role) s.(capabilities) s.(host_draft) s.(host_queue)
    s.(host_queue_next_boundary) s.(host_lifecycle) s.(listener_lifecycle) s.(transport_state)
    s.(discovery_active) s.(discovered_sessions) s.(selected_session) s.(pending_join_requests)
    s.(listeners) s.(playback_state) s.(playback_position_ms) s.(stream_ended_naturally)
    s.(synchronization) s.(tuning) s.(last_delivery) s.(last_delivery_operation_id)
    s.(recoverable_action) v s.(shutting_down).
Definition set_shutting_down (v : bool) (s : CoreSnapshot) : CoreSnapshot :=
  mkCoreSnapshot
    s.(revision) s.(selected_role) s.(capabilities) s.(host_draft) s.(host_queue)
    s.(host_queue_next_boundary) s.(host_lifecycle) s.(listener_lifecycle) s.(transport_state)
    s.(discovery_active) s.(discovered_sessions) s.(selected_session) s.(pending_join_requests)
    s.(listeners) s.(playback_state) s.(playback_position_ms) s.(stream_ended_naturally)
    s.(synchronization) s.(tuning) s.(last_delivery) s.(last_delivery_operation_id)
    s.(recoverable_action) s.(last_error) v.

Definition CoreSnapshot_default : CoreSnapshot :=
  mkCoreSnapshot 0 None CapabilitySnapshot_default HostDraft_default HostQueue_default None HostIdle
    ListenerIdle TransportIdle false [] None [] [] PlaybackStopped 0 false None
    TuningSettings_default None None None None false.

Definition host_queue_snapshot (s : CoreSnapshot) : HostQueueSnapshot :=
  let empty := bool_decide (s.(host_queue).(entries) = []) in
  let preparation_state := if empty then PreparationEmpty else PreparationPrepared in
  let readiness := match s.(playback_state), empty with
    | PlaybackError, _ => ReadinessFailed
    | _, true => ReadinessEmpty
    | PlaybackBuffering, false => ReadinessBuffering
    | PlaybackPlaying, false => ReadinessPlaying
    | PlaybackPaused, false => ReadinessPaused
    | Underrun, false => ReadinessUnderrun
    | (PlaybackStopped | PlaybackReady), false => ReadinessReady
    end in
  mkHostQueueSnapshot s.(host_queue).(queue_revision) (queue_current s.(host_queue))
    (upcoming s.(host_queue)) preparation_state readiness
    (if bool_decide (s.(playback_state) = PlaybackError) then s.(last_error) else None)
    s.(host_queue_next_boundary).

Definition CoreSnapshot_validate (s : CoreSnapshot) : result unit RuntimeContractError :=
  if MAX_DISCOVERED_SESSIONS <? len s.(discovered_sessions) then Err ConDiscoveredSessionLimit
  else if MAX_PENDING_JOIN_REQUESTS <? len s.(pending_join_requests) then
    Err ConPendingRequestLimit
  else if MAX_CONNECTED_LISTENERS <? len s.(listeners) then Err ConListenerLimit
  else
    let? _ := validate_unique_sessions s.(discovered_sessions) in
    let? _ := validate_unique_requests s.(pending_join_requests) in
    let? _ := validate_unique_listeners s.(listeners) in
    if negb (Bool.eqb s.(discovery_active) (bool_decide (s.(transport_state) = Discovering))) then
      Err ConDiscoveryStateMismatch
    else match s.(selected_session) with
    | Some session_id =>
        if negb (existsb (fun a => bool_decide (a.(ad_session_id) = session_id))
                   s.(discovered_sessions))
        then Err ConUnknownSelectedSession
        else Ok tt
    | None => Ok tt
    end.

(** ** Inputs and notifications *)

Inductive CoreActorInput : Type :=
| InputCommand (operation_id : rstr) (request : CoreCommandRequest)
| InputPlatform (event : PlatformEvent)
| InputTransport (event : TransportEvent)
| InputAudio (event : AudioEvent)
| InputStorage (event : StorageEvent).

Definition input_operation_id (input : CoreActorInput) : option rstr :=
  match input with
  | InputCommand operation_id _ => Some operation_id
  | InputPlatform event => PlatformEvent_operation_id event
  | InputStorage event => Some (StorageEvent_operation_id event)
  | InputTransport (DeliveryCompleted operation_id _) => Some operation_id
  | InputTransport _ | InputAudio _ => None
  end.

Inductive CoreNotification : Type :=
| NotifySnapshot (snapshot : CoreSnapshot)
| NotifyEffect (effect : PlatformEffect)
| NotifyTransportEffect (effect : TransportEffect)
| NotifyStorageEffect (effect : StorageEffect)
| NotifyError (error : CoreError)
| NotifyDiagnostic (diagnostic : CoreDiagnostic).

(** ** Snapshot validity *)

(** The invariant of the snapshot that [validate] decides. *)
Record snapshot_valid (s : CoreSnapshot) : Prop := mkSnapshotValid {
  sv_sessions : len s.(discovered_sessions) <= MAX_DISCOVERED_SESSIONS;
  sv_requests : len s.(pending_join_requests) <= MAX_PENDING_JOIN_REQUESTS;
  sv_listeners : len s.(listeners) <= MAX_CONNECTED_LISTENERS;
  sv_session_ids : NoDup (map ad_session_id s.(discovered_sessions));
  sv_request_ids : NoDup (map jr_request_id s.(pending_join_requests));
  sv_listener_ids : NoDup (map ls_device_id s.(listeners));
  sv_discovery : s.(discovery_active) = true <-> s.(transport_state) = Discovering;
  sv_selected : forall id, s.(selected_session) = Some id ->
                id ∈ map ad_session_id s.(discovered_sessions)
}.

Lemma existsb_id {A : Type} (id : A -> rstr) (l : list A) (x : rstr) :
  existsb (fun e => bool_decide (id e = x)) l = true <-> x ∈ map id l.
Proof.
  rewrite existsb_exists. split.
  - intros (p & Hp & <-%bool_decide_eq_true). by apply list_elem_of_fmap_2, list_elem_of_In.
  - intros (p & -> & Hp)%list_elem_of_fmap. exists p. rewrite <- list_elem_of_In.
    split; [done|]. by apply bool_decide_eq_true.
Qed.

Lemma validate_unique_ok {A : Type} (id : A -> rstr) (e : RuntimeContractError) (l k : list A) :
  NoDup (map id l) -> validate_unique id e l k = Ok tt <-> NoDup (map id (l ++ k)).
Proof.
  revert l. induction k as [|x k IH]; intros l Hl; simpl; [by rewrite app_nil_r|].
  pose proof (existsb_id id l (id x)) as Hex. destruct (existsb _ l).
  - split; [done|]. rewrite map_app, NoDup_app. intros (_ & H & _). exfalso.
    apply (H (id x)); [by apply Hex|]. simpl. constructor.
  - assert (NoDup (map id (l ++ [x]))) as Hl'.
    { rewrite map_app. apply NoDup_app. split_and!; [done| |apply NoDup_singleton].
      intros y Hy ->%list_elem_of_singleton. by apply Hex in Hy. }
    rewrite IH by done. by rewrite <- (assoc_L (++)).
Qed.

Lemma CoreSnapshot_validate_ok (s : CoreSnapshot) :
  CoreSnapshot_validate s = Ok tt <-> snapshot_valid s.
Proof.
  unfold CoreSnapshot_validate, validate_unique_sessions, validate_unique_requests,
    validate_unique_listeners.
  pose proof (validate_unique_ok ad_session_id ConDuplicateSession [] (discovered_sessions s)
                (NoDup_nil_2 (A := rstr))) as H1.
  pose proof (validate_unique_ok jr_request_id ConDuplicateRequest [] (pending_join_requests s)
                (NoDup_nil_2 (A := rstr))) as H2.
  pose proof (validate_unique_ok ls_device_id ConDuplicateListener [] (listeners s)
                (NoDup_nil_2 (A := rstr))) as H3.
  simpl in H1, H2, H3.
  destruct (MAX_DISCOVERED_SESSIONS <? _) eqn:L1; to_prop; [split; [done|]; intros []; lia|].
  destruct (MAX_PENDING_JOIN_REQUESTS <? _) eqn:L2; to_prop; [split; [done|]; intros []; lia|].
  destruct (MAX_CONNECTED_LISTENERS <? _) eqn:L3; to_prop; [split; [done|]; intros []; lia|].
  destruct (validate_unique ad_session_id _ _ _) as [[]|];
    [|split; [done|]; intros []; by apply H1].
  destruct (validate_unique jr_request_id _ _ _) as [[]|];
    [|split; [done|]; intros []; by apply H2].
  destruct (validate_unique ls_device_id _ _ _) as [[]|];
    [|split; [done|]; intros []; by apply H3].
  assert (Bool.eqb (discovery_active s) (bool_decide (transport_state s = Discovering)) = true
          <-> (discovery_active s = true <-> transport_state s = Discovering)) as Hd.
  { rewrite Bool.eqb_true_iff. case_bool_decide; destruct (discovery_active s); naive_solver. }
  destruct (Bool.eqb _ _); cbn [negb]; [|split; [done|]; intros []; by discriminate (proj2 Hd)].
  destruct (selected_session s) as [id|] eqn:Es.
  - pose proof (existsb_id ad_session_id (discovered_sessions s) id) as Hex.
    destruct (existsb _ _); cbn [negb].
    + split; [|done]. intros _. split; try tauto. intros ? [= <-]%(eq_trans (eq_sym Es)). tauto.
    + split; [done|]. intros Hs. specialize (sv_selected _ Hs id Es) as Hin.
      apply Hex in Hin. done.
  - split; [|done]. intros _. split; try tauto. rewrite Es. done.
Qed.

Lemma CoreSnapshot_default_valid : snapshot_valid CoreSnapshot_default.
Proof. by apply CoreSnapshot_validate_ok. Qed.
