(* ===== verification/ActorState.v ===== *)
(** The authoritative runtime actor
    (src/rust/silent-disco-core/src/runtime/actor_runtime/state/*.rs): its state,
    every command and event handler, and the transaction that applies one input.

    Handlers take [&mut self] and return a [Result]; they are computations of
    the state-and-error monad [M] below, in which an error keeps the mutations
    made before it, as in the source. [process] and [reserve_track_boundary]
    run them on a clone and commit it only on success. *)
From Stdlib Require Import ZArith Lia Strings.String.
From stdpp Require Import numbers list prelude.
From S2P Require Import Prelude Utf8 Domain Decimal CoreErrors RuntimeTypes HostQueue Admission.
From S2P Require Import RuntimeRecords.

(** ** State *)

Definition MAX_PENDING_EFFECT_OPERATIONS : Z := 128.
Definition MAX_RETIRED_AUDIO_STREAM_IDS : Z := 16.

Inductive PendingPlatformOperation : Type :=
| PendingStartAdvertising (session_id : rstr)
| PendingStopAdvertising
| PendingStartDiscovery
| PendingStopDiscovery
| PendingEstablishNetwork (session_id : rstr)
| PendingReleaseNetwork
| PendingShareDiagnostics (export_id : rstr).

Inductive PendingTransportOperation : Type :=
| PendingApproveJoin (delivery : ApprovalDelivery)
| PendingRejectJoin (request_id listener_id : rstr) (confirmation_operation_id : option rstr)
| PendingDisconnectListener (listener_id : rstr).

Inductive PendingStorageOperation : Type :=
| PendingPersistApprovalTrust (persistence : TrustPersistenceRequest)
| PendingPersistTuning (settings : TuningSettings).

#[export] Instance PendingPlatformOperation_eq_dec : EqDecision PendingPlatformOperation.
Proof. solve_decision. Defined.

Record ActorState : Type := mkActorState {
  snapshot : CoreSnapshot;
  local_device_id : rstr;
  host_session_id : option rstr;
  active_audio_stream_id : option rstr;
  pending_host_boundaries : list HostQueueBoundary;
  retired_audio_stream_ids : list rstr;
  pending_platform : list (rstr * PendingPlatformOperation);
  pending_transport : list (rstr * PendingTransportOperation);
  pending_storage : list (rstr * PendingStorageOperation);
  next_effect_sequence : Z;
  next_session_sequence : Z;
  next_export_sequence : Z;
  session_id_namespace : option rstr
}.

(** Assignments to one field of the state. *)
Definition set_snapshot (v : CoreSnapshot) (self : ActorState) : ActorState :=
  mkActorState
    v self.(local_device_id) self.(host_session_id) self.(active_audio_stream_id)
    self.(pending_host_boundaries) self.(retired_audio_stream_ids) self.(pending_platform)
    self.(pending_transport) self.(pending_storage) self.(next_effect_sequence)
    self.(next_session_sequence) self.(next_export_sequence) self.(session_id_namespace).
Definition set_host_session_id (v : option rstr) (self : ActorState) : ActorState :=
  mkActorState
    self.(snapshot) self.(local_device_id) v self.(active_audio_stream_id)
    self.(pending_host_boundaries) self.(retired_audio_stream_ids) self.(pending_platform)
    self.(pending_transport) self.(pending_storage) self.(next_effect_sequence)
    self.(next_session_sequence) self.(next_export_sequence) self.(session_id_namespace).
Definition set_active_audio_stream_id (v : option rstr) (self : ActorState) : ActorState :=
  mkActorState
    self.(snapshot) self.(local_device_id) self.(host_session_id) v
    self.(pending_host_boundaries) self.(retired_audio_stream_ids) self.(pending_platform)
    self.(pending_transport) self.(pending_storage) self.(next_effect_sequence)
    self.(next_session_sequence) self.(next_export_sequence) self.(session_id_namespace).
Definition set_pending_host_boundaries (v : list HostQueueBoundary) (self : ActorState) : ActorState :=
  mkActorState
    self.(snapshot) self.(local_device_id) self.(host_session_id) self.(active_audio_stream_id) v
    self.(retired_audio_stream_ids) self.(pending_platform) self.(pending_transport)
    self.(pending_storage) self.(next_effect_sequence) self.(next_session_sequence)
    self.(next_export_sequence) self.(session_id_namespace).
Definition set_retired_audio_stream_ids (v : list rstr) (self : ActorState) : ActorState :=
  mkActorState
    self.(snapshot) self.(local_device_id) self.(host_session_id) self.(active_audio_stream_id)
    self.(pending_host_boundaries) v self.(pending_platform) self.(pending_transport)
    self.(pending_storage) self.(next_effect_sequence) self.(next_session_sequence)
    self.(next_export_sequence) self.(session_id_namespace).
Definition set_pending_platform (v : list (rstr * PendingPlatformOperation)) (self : ActorState) : ActorState :=
  mkActorState
    self.(snapshot) self.(local_device_id) self.(host_session_id) self.(active_audio_stream_id)
    self.(pending_host_boundaries) self.(retired_audio_stream_ids) v self.(pending_transport)
    self.(pending_storage) self.(next_effect_sequence) self.(next_session_sequence)
    self.(next_export_sequence) self.(session_id_namespace).
Definition set_pending_transport (v : list (rstr * PendingTransportOperation)) (self : ActorState) : ActorState :=
  mkActorState
    self.(snapshot) self.(local_device_id) self.(host_session_id) self.(active_audio_stream_id)
    self.(pending_host_boundaries) self.(retired_audio_stream_ids) self.(pending_platform) v
    self.(pending_storage) self.(next_effect_sequence) self.(next_session_sequence)
    self.(next_export_sequence) self.(session_id_namespace).
Definition set_pending_storage (v : list (rstr * PendingStorageOperation)) (self : ActorState) : ActorState :=
  mkActorState
    self.(snapshot) self.(local_device_id) self.(host_session_id) self.(active_audio_stream_id)
    self.(pending_host_boundaries) self.(retired_audio_stream_ids) self.(pending_platform)
    self.(pending_transport) v self.(next_effect_sequence) self.(next_session_sequence)
    self.(next_export_sequence) self.(session_id_namespace).
Definition set_next_effect_sequence (v : Z) (self : ActorState) : ActorState :=
  mkActorState
    self.(snapshot) self.(local_device_id) self.(host_session_id) self.(active_audio_stream_id)
    self.(pending_host_boundaries) self.(retired_audio_stream_ids) self.(pending_platform)
    self.(pending_transport) self.(pending_storage) v self.(next_session_sequence)
    self.(next_export_sequence) self.(session_id_namespace).
Definition set_next_session_sequence (v : Z) (self : ActorState) : ActorState :=
  mkActorState
    self.(snapshot) self.(local_device_id) self.(host_session_id) self.(active_audio_stream_id)
    self.(pending_host_boundaries) self.(retired_audio_stream_ids) self.(pending_platform)
    self.(pending_transport) self.(pending_storage) self.(next_effect_sequence) v
    self.(next_export_sequence) self.(session_id_namespace).
Definition set_next_export_sequence (v : Z) (self : ActorState) : ActorState :=
  mkActorState
    self.(snapshot) self.(local_device_id) self.(host_session_id) self.(active_audio_stream_id)
    self.(pending_host_boundaries) self.(retired_audio_stream_ids) self.(pending_platform)
    self.(pending_transport) self.(pending_storage) self.(next_effect_sequence)
    self.(next_session_sequence) v self.(session_id_namespace).

Definition new_with_session_id_namespace (local_device_id : rstr) (session_id_namespace : option rstr)
    : ActorState :=
  mkActorState CoreSnapshot_default local_device_id None None [] [] [] [] [] 1 1 1
    session_id_namespace.

Record ApplyOutcome : Type := mkApplyOutcome {
  notifications : list CoreNotification;
  changed : bool;
  stop_requested : bool
}.

Definition outcome_default : ApplyOutcome := mkApplyOutcome [] false false.
Definition outcome_changed : ApplyOutcome := mkApplyOutcome [] true false.
Definition outcome_effect (e : PlatformEffect) : ApplyOutcome :=
  mkApplyOutcome [NotifyEffect e] true false.
Definition outcome_transport_effect (e : TransportEffect) : ApplyOutcome :=
  mkApplyOutcome [NotifyTransportEffect e] true false.
Definition outcome_storage_effect (e : StorageEffect) : ApplyOutcome :=
  mkApplyOutcome [NotifyStorageEffect e] true false.

(** [outcome.changed = true]. *)
Definition mark_changed (o : ApplyOutcome) : ApplyOutcome :=
  mkApplyOutcome o.(notifications) true o.(stop_requested).

(** ** The handler monad *)

Definition M (A : Type) : Type := ActorState -> ActorState * result A CoreError.

Definition ret {A : Type} (a : A) : M A := fun self => (self, Ok a).
Definition fail {A : Type} (e : CoreError) : M A := fun self => (self, Err e).
Definition lift {A : Type} (r : result A CoreError) : M A := fun self => (self, r).
Definition read {A : Type} (f : ActorState -> A) : M A := fun self => (self, Ok (f self)).
Definition modify (f : ActorState -> ActorState) : M unit := fun self => (f self, Ok tt).
Definition modify_snapshot (f : CoreSnapshot -> CoreSnapshot) : M unit :=
  modify (fun self => set_snapshot (f self.(snapshot)) self).
(** [if !condition { return Err(error) }]. *)
Definition ensure (condition : bool) (error : CoreError) : M unit :=
  fun self => (self, if condition then Ok tt else Err error).
Definition bind {A B : Type} (m : M A) (f : A -> M B) : M B := fun self =>
  match m self with
  | (self', Ok a) => f a self'
  | (self', Err e) => (self', Err e)
  end.

Declare Scope actor_scope.
Delimit Scope actor_scope with actor.
Notation "'let!' x := m 'in' k" := (bind m (fun x => k))
  (at level 10, x name, m at level 200, k at level 200) : actor_scope.
Notation "m ;;; k" := (bind m (fun _ => k)) (at level 100, right associativity) : actor_scope.
Open Scope actor_scope.

(** [iter_mut().find(..)] followed by an assignment to what it found. *)
Fixpoint update_first {A : Type} (f : A -> bool) (g : A -> A) (l : list A) : list A :=
  match l with
  | [] => []
  | x :: l' => if f x then g x :: l' else x :: update_first f g l'
  end.

(** Reads the snapshot. *)
Definition snap {A : Type} (f : CoreSnapshot -> A) : M A := read (fun self => f self.(snapshot)).

(** [matches!(x, A | B | ...)] on an enumeration. *)
Definition one_of {A : Type} `{EqDecision A} (x : A) (l : list A) : bool := bool_decide (x ∈ l).

(** ** Support (support.rs) *)

(** The lengths of three in-memory vectors cannot overflow [usize], so the
    [checked_add] failure of the source is unreachable. *)
Definition ensure_effect_capacity : M unit :=
  let! pending := read (fun self => len self.(pending_platform) + len self.(pending_transport)
                                    + len self.(pending_storage)) in
  ensure (negb (MAX_PENDING_EFFECT_OPERATIONS <=? pending))
    (resource_limit (lit "pending effect-operation capacity reached") None).

Definition next_effect_id : M rstr :=
  let! sequence := read next_effect_sequence in
  let! next := lift (ok_or (checked_add u64_max sequence 1)
                       (resource_limit (lit "effect operation identifier overflow") None)) in
  modify (set_next_effect_sequence next) ;;;
  lift (map_err (fun error => from_identifier_validation error None)
          (identifier_new IdOperation (lit "effect-" ++ to_decimal sequence))).

Definition next_session_id : M rstr :=
  let! sequence := read next_session_sequence in
  let! next := lift (ok_or (checked_add u64_max sequence 1)
                       (resource_limit (lit "session identifier overflow") None)) in
  modify (set_next_session_sequence next) ;;;
  let! namespace := read session_id_namespace in
  let value := match namespace with
    | None => lit "session-" ++ to_decimal sequence
    | Some namespace => lit "session-" ++ namespace ++ lit "-" ++ to_decimal sequence
    end in
  lift (map_err (fun error => from_identifier_validation error None)
          (identifier_new IdSession value)).

Definition next_export_id : M rstr :=
  let! sequence := read next_export_sequence in
  let! next := lift (ok_or (checked_add u64_max sequence 1)
                       (resource_limit (lit "diagnostics export identifier overflow") None)) in
  modify (set_next_export_sequence next) ;;;
  ret (lit "diagnostics-" ++ to_decimal sequence).

Definition start_platform_operation (request : PlatformEffectRequest)
    (pending : PendingPlatformOperation) : M PlatformEffect :=
  ensure_effect_capacity ;;;
  let! operation_id := next_effect_id in
  let! effect := lift (map_err (fun e => invalid_argument (contract_error_text e) (Some operation_id))
                         (PlatformEffect_new operation_id request)) in
  modify (fun self => set_pending_platform (self.(pending_platform) ++ [(operation_id, pending)]) self) ;;;
  ret effect.

Definition start_transport_operation (request : TransportEffectRequest)
    (pending : PendingTransportOperation) : M TransportEffect :=
  ensure_effect_capacity ;;;
  let! operation_id := next_effect_id in
  let! effect := lift (map_err (fun e => invalid_argument (effect_error_text e) (Some operation_id))
                         (TransportEffect_new operation_id request)) in
  modify (fun self => set_pending_transport (self.(pending_transport) ++ [(operation_id, pending)]) self) ;;;
  ret effect.

Definition start_storage_operation (request : StorageEffectRequest)
    (pending : PendingStorageOperation) : M StorageEffect :=
  ensure_effect_capacity ;;;
  let! operation_id := next_effect_id in
  let! effect := lift (map_err (fun e => invalid_argument (effect_error_text e) (Some operation_id))
                         (StorageEffect_new operation_id request)) in
  modify (fun self => set_pending_storage (self.(pending_storage) ++ [(operation_id, pending)]) self) ;;;
  ret effect.

(** [iter().find(|(candidate, _)| candidate == operation_id).map(|(_, pending)| pending)]. *)
Fixpoint find_pending {A : Type} (operation_id : rstr) (l : list (rstr * A)) : option A :=
  match l with
  | [] => None
  | (candidate, pending) :: l' =>
      if bool_decide (candidate = operation_id) then Some pending else find_pending operation_id l'
  end.

(** [position(..)] followed by [remove(index)]. *)
Fixpoint drop_pending {A : Type} (operation_id : rstr) (l : list (rstr * A)) : list (rstr * A) :=
  match l with
  | [] => []
  | (candidate, pending) :: l' =>
      if bool_decide (candidate = operation_id) then l'
      else (candidate, pending) :: drop_pending operation_id l'
  end.

Definition remove_pending (operation_id : rstr) : M (option PendingPlatformOperation) :=
  let! found := read (fun self => find_pending operation_id self.(pending_platform)) in
  modify (fun self => set_pending_platform (drop_pending operation_id self.(pending_platform)) self) ;;;
  ret found.

Definition remove_pending_transport (operation_id : rstr) : M (option PendingTransportOperation) :=
  let! found := read (fun self => find_pending operation_id self.(pending_transport)) in
  modify (fun self => set_pending_transport (drop_pending operation_id self.(pending_transport)) self) ;;;
  ret found.

Definition remove_pending_storage (operation_id : rstr) : M (option PendingStorageOperation) :=
  let! found := read (fun self => find_pending operation_id self.(pending_storage)) in
  modify (fun self => set_pending_storage (drop_pending operation_id self.(pending_storage)) self) ;;;
  ret found.

(** [error.retryable.then_some(action)]. *)
Definition then_some {A : Type} (b : bool) (a : A) : option A := if b then Some a else None.

Definition apply_pending_failure (pending : PendingPlatformOperation) (error : CoreError) : M unit :=
  match pending with
  | PendingStartAdvertising _ | PendingStopAdvertising =>
      modify_snapshot (set_host_lifecycle HostError) ;;;
      modify_snapshot (set_transport_state Failed) ;;;
      modify_snapshot (set_recoverable_action (then_some error.(err_retryable) RecoverRetry))
  | PendingStartDiscovery | PendingStopDiscovery =>
      modify_snapshot (set_discovery_active false) ;;;
      modify_snapshot (set_listener_lifecycle ListenerError) ;;;
      modify_snapshot (set_transport_state Failed) ;;;
      modify_snapshot (set_recoverable_action (then_some error.(err_retryable) RecoverRescan))
  | PendingEstablishNetwork _ | PendingReleaseNetwork =>
      modify_snapshot (set_discovery_active false) ;;;
      modify_snapshot (set_listener_lifecycle ListenerError) ;;;
      modify_snapshot (set_transport_state Failed) ;;;
      modify_snapshot (set_recoverable_action (then_some error.(err_retryable) RecoverReconnect))
  | PendingShareDiagnostics _ => ret tt
  end.

Definition require_role (role : AppRole) (operation_id : rstr) : M unit :=
  let! selected := snap selected_role in
  ensure (bool_decide (selected = Some role))
    (invalid_state (lit "command requires the " ++ wire_name role ++ lit " role")
       (Some operation_id)).

Definition require_role_event (role : AppRole) : M unit :=
  let! selected := snap selected_role in
  ensure (bool_decide (selected = Some role))
    (invalid_state (lit "event requires the " ++ wire_name role ++ lit " role") None).

Definition require_discovery_active : M unit :=
  let! active := snap discovery_active in
  ensure active (invalid_state (lit "discovery result arrived while discovery was inactive") None).

Definition clear_failure : M unit :=
  modify_snapshot (set_last_error None) ;;;
  modify_snapshot (set_recoverable_action None).

Definition field (key value : rstr) : M DiagnosticField :=
  lift (map_err (fun e => invalid_argument (record_error_text e) None) (DiagnosticField_new key value)).

Definition diagnostic (name : rstr) (fields : list DiagnosticField) : M ApplyOutcome :=
  let! d := lift (map_err (fun e => invalid_argument (record_error_text e) None)
                    (CoreDiagnostic_new name fields)) in
  ret (mkApplyOutcome [NotifyDiagnostic d] false false).

(** ** Audio (audio.rs) *)

Definition clear_host_boundary_reservations : M unit :=
  modify (set_pending_host_boundaries []) ;;;
  modify_snapshot (set_host_queue_next_boundary None).

Definition publish_earliest_host_boundary : M unit :=
  let! boundaries := read pending_host_boundaries in
  modify_snapshot (set_host_queue_next_boundary (head boundaries)).

Definition retire_active_audio_stream : M unit :=
  clear_host_boundary_reservations ;;;
  let! active := read active_audio_stream_id in
  modify (set_active_audio_stream_id None) ;;;
  match active with
  | Some stream_id =>
      let! retired := read retired_audio_stream_ids in
      if bool_decide (stream_id ∈ retired) then ret tt
      else modify (set_retired_audio_stream_ids
             (push_bounded MAX_RETIRED_AUDIO_STREAM_IDS stream_id retired))
  | None => ret tt
  end.

(** [host_draft.audio_source = source]. *)
Definition set_draft_audio_source (source : option AudioSourceDescriptor) (s : CoreSnapshot)
    : CoreSnapshot :=
  set_host_draft (mkHostDraft s.(host_draft).(draft_session_name) s.(host_draft).(draft_approval_mode)
    s.(host_draft).(draft_invite_code) source s.(host_draft).(draft_remember_approved_devices)) s.

Definition is_persist_tuning (p : PendingStorageOperation) : bool :=
  match p with PendingPersistTuning _ => true | PendingPersistApprovalTrust _ => false end.

Definition reset_host_session : M unit :=
  modify (set_host_session_id None) ;;;
  modify_snapshot (set_host_queue HostQueue_default) ;;;
  clear_host_boundary_reservations ;;;
  modify_snapshot (set_draft_audio_source None) ;;;
  modify (set_pending_transport []) ;;;
  modify (fun self => set_pending_storage
    (List.filter (fun p => is_persist_tuning p.2) self.(pending_storage)) self) ;;;
  modify_snapshot (set_host_lifecycle HostIdle) ;;;
  modify_snapshot (set_transport_state TransportIdle) ;;;
  modify_snapshot (set_pending_join_requests []) ;;;
  modify_snapshot (set_listeners []) ;;;
  modify_snapshot (set_playback_state PlaybackStopped) ;;;
  retire_active_audio_stream ;;;
  modify_snapshot (set_playback_position_ms 0) ;;;
  modify_snapshot (set_last_delivery None) ;;;
  modify_snapshot (set_last_delivery_operation_id None).

Definition reset_listener_connection : M unit :=
  modify_snapshot (set_discovery_active false) ;;;
  modify_snapshot (set_transport_state TransportIdle) ;;;
  modify_snapshot (set_listener_lifecycle ListenerIdle) ;;;
  modify_snapshot (set_selected_session None) ;;;
  modify_snapshot (set_playback_state PlaybackStopped) ;;;
  retire_active_audio_stream.

Definition apply_audio (event : AudioEvent) : M ApplyOutcome :=
  match event with
  | PlaybackStateChanged state =>
      (if bool_decide (state = PlaybackBuffering) then clear_failure else ret tt) ;;;
      let! current := snap playback_state in
      (if bool_decide (state = PlaybackPlaying)
          && negb (one_of current [PlaybackPaused; PlaybackPlaying]) then
         modify_snapshot (set_playback_position_ms 0) ;;;
         retire_active_audio_stream ;;;
         modify_snapshot (set_stream_ended_naturally false) ;;;
         clear_host_boundary_reservations
       else ret tt) ;;;
      (if one_of state [PlaybackStopped; PlaybackError] then
         clear_host_boundary_reservations ;;;
         retire_active_audio_stream
       else ret tt) ;;;
      (if bool_decide (state = PlaybackStopped) then modify_snapshot (set_playback_position_ms 0)
       else ret tt) ;;;
      modify_snapshot (set_playback_state state) ;;;
      ret outcome_changed
  | PositionAdvanced stream_id position_ms =>
      let! state := snap playback_state in
      ensure (one_of state [PlaybackPlaying; PlaybackPaused])
        (invalid_state (lit "playback position advanced while playback was inactive") None) ;;;
      let! retired := read retired_audio_stream_ids in
      ensure (negb (bool_decide (stream_id ∈ retired)))
        (invalid_state (lit "playback position belongs to a retired stream") None) ;;;
      let! active := read active_audio_stream_id in
      ensure (match active with Some active => bool_decide (active = stream_id) | None => true end)
        (invalid_state (lit "playback position belongs to a different stream") None) ;;;
      let! position := snap playback_position_ms in
      ensure (negb (position_ms <? position))
        (invalid_state (lit "playback position moved backward") None) ;;;
      modify (set_active_audio_stream_id (Some stream_id)) ;;;
      modify_snapshot (set_playback_position_ms position_ms) ;;;
      ret outcome_changed
  | TrackBoundaryApplied entry_id first_sample_index =>
      let! state := snap playback_state in
      ensure (bool_decide (state = PlaybackPlaying))
        (invalid_state (lit "track boundary applied while playback was inactive") None) ;;;
      let! queue := snap host_queue in
      let! expected := lift (ok_or (head (upcoming queue))
        (invalid_state (lit "track boundary has no matching queued entry") None)) in
      ensure (bool_decide (expected.(HostQueue.entry_id) = entry_id))
        (invalid_state (lit "track boundary does not match the next queued entry") None) ;;;
      let! boundaries := read pending_host_boundaries in
      let! boundary := lift (ok_or (head boundaries)
        (invalid_state (lit "track boundary was applied without being scheduled") None)) in
      ensure (bool_decide (boundary.(hb_entry_id) = entry_id)
              && (boundary.(hb_first_sample_index) =? first_sample_index))
        (invalid_state (lit "applied track boundary differs from the announced queue boundary") None) ;;;
      let! next := lift (map_err (fun e => invalid_state (queue_error_text e) None)
                           (complete_current queue queue.(queue_revision))) in
      modify_snapshot (set_host_queue next) ;;;
      modify_snapshot (set_draft_audio_source (option_map entry_source (queue_current next))) ;;;
      modify (fun self => set_pending_host_boundaries (tail self.(pending_host_boundaries)) self) ;;;
      publish_earliest_host_boundary ;;;
      ret outcome_changed
  | TrackBoundaryScheduled entry_id first_sample_index =>
      let! state := snap playback_state in
      ensure (one_of state [PlaybackPlaying; PlaybackPaused])
        (invalid_state (lit "track boundary scheduled while playback was inactive") None) ;;;
      let! boundaries := read pending_host_boundaries in
      match List.find (fun b => bool_decide (b.(hb_entry_id) = entry_id)) boundaries with
      | Some boundary =>
          if boundary.(hb_first_sample_index) =? first_sample_index then ret outcome_default
          else fail (invalid_state (lit "track boundary already reserved at another sample index") None)
      | None =>
          let! queue := snap host_queue in
          let! expected := lift (ok_or (upcoming queue !! length boundaries)
            (invalid_state (lit "track boundary has no matching queued entry") None)) in
          ensure (bool_decide (expected.(HostQueue.entry_id) = entry_id))
            (invalid_state (lit "track boundary does not match the next unreserved queued entry") None) ;;;
          ensure (negb ((first_sample_index =? 0)
                        || match last boundaries with
                           | Some previous => first_sample_index <=? previous.(hb_first_sample_index)
                           | None => false
                           end))
            (invalid_state (lit "track boundaries must advance in sample order") None) ;;;
          modify (set_pending_host_boundaries
                    (boundaries ++ [mkHostQueueBoundary entry_id first_sample_index])) ;;;
          publish_earliest_host_boundary ;;;
          ret outcome_changed
      end
  | SynchronizationUpdated device_id summary =>
      modify_snapshot (set_synchronization (Some summary)) ;;;
      modify_snapshot (fun s => set_listeners
        (update_first (fun l => bool_decide (l.(ls_device_id) = device_id))
           (fun l => mkListenerSummary l.(ls_device_id) l.(ls_display_name) l.(ls_trust_state)
                       l.(ls_transport_state) (Some summary) l.(ls_last_contact) l.(ls_last_error))
           s.(listeners)) s) ;;;
      ret outcome_changed
  | EndOfStream stream_id =>
      let! retired := read retired_audio_stream_ids in
      ensure (negb (bool_decide (stream_id ∈ retired)))
        (invalid_state (lit "end of stream belongs to a retired playback stream") None) ;;;
      let! active := read active_audio_stream_id in
      ensure (match active with Some active => bool_decide (active = stream_id) | None => true end)
        (invalid_state (lit "end of stream belongs to a different playback stream") None) ;;;
      let! state := snap playback_state in
      ensure (bool_decide (state = PlaybackPlaying))
        (invalid_state (lit "end of stream received while playback was inactive") None) ;;;
      let! queue := snap host_queue in
      let! next_boundary := snap host_queue_next_boundary in
      if negb (bool_decide (upcoming queue = [])) || bool_decide (next_boundary <> None) then
        modify_snapshot (set_playback_state PlaybackStopped) ;;;
        modify_snapshot (set_playback_position_ms 0) ;;;
        retire_active_audio_stream ;;;
        clear_host_boundary_reservations ;;;
        modify_snapshot (set_stream_ended_naturally false) ;;;
        ret outcome_changed
      else
        let! cleared := lift (map_err (fun e => invalid_state (queue_error_text e) None)
                                (clear queue queue.(queue_revision) false)) in
        modify_snapshot (set_host_queue cleared) ;;;
        modify_snapshot (set_draft_audio_source None) ;;;
        clear_host_boundary_reservations ;;;
        retire_active_audio_stream ;;;
        modify_snapshot (set_playback_state PlaybackStopped) ;;;
        modify_snapshot (set_stream_ended_naturally true) ;;;
        ret outcome_changed
  | UnderrunEvent missing_frames =>
      modify_snapshot (set_playback_state Underrun) ;;;
      clear_host_boundary_reservations ;;;
      let! missing := field (lit "missing_frames") (to_decimal missing_frames) in
      let! outcome := diagnostic (lit "audio_underrun") [missing] in
      ret (mark_changed outcome)
  | AudioFailed error =>
      retire_active_audio_stream ;;;
      modify_snapshot (set_playback_state PlaybackError) ;;;
      clear_host_boundary_reservations ;;;
      modify_snapshot (set_last_error (Some error)) ;;;
      ret (mkApplyOutcome [NotifyError error] true false)
  end.
