(* ===== verification/ActorHandlers.v ===== *)
(** The actor's command and event handlers
    (src/rust/silent-disco-core/src/runtime/actor_runtime/state/{commands,
    admission,platform,transport,storage,tuning,host_audio_control,reservation}.rs)
    and the transaction that applies one input (state/mod.rs). *)
From Stdlib Require Import ZArith Lia Strings.String.
From stdpp Require Import numbers list prelude.
From S2P Require Import Prelude Utf8 Domain Decimal CoreErrors RuntimeTypes HostQueue Admission.
From S2P Require Import RuntimeRecords ActorState.

(** ** Commands (commands.rs) *)

(** Handlers whose [map_err] wraps a record, queue or contract error. *)
Definition of_record {A : Type} (operation_id : option rstr)
    (r : result A RuntimeRecordValidationError) : M A :=
  lift (map_err (fun e => invalid_argument (record_error_text e) operation_id) r).
Definition of_queue {A : Type} (operation_id : rstr) (r : result A HostQueueError) : M A :=
  lift (map_err (fun e => invalid_argument (queue_error_text e) (Some operation_id)) r).

Definition no_pending_operation : M bool :=
  read (fun self => bool_decide (self.(pending_platform) = [])
                    && match self.(pending_transport) with [] => true | _ => false end
                    && match self.(pending_storage) with [] => true | _ => false end).

Definition select_role (operation_id : rstr) (role : AppRole) : M ApplyOutcome :=
  let! host := snap host_lifecycle in
  let! listener := snap listener_lifecycle in
  let! idle := no_pending_operation in
  ensure (bool_decide (host = HostIdle) && bool_decide (listener = ListenerIdle) && idle)
    (invalid_state (lit "role cannot change while a session or operation is active")
       (Some operation_id)) ;;;
  let! selected := snap selected_role in
  if bool_decide (selected = Some role) then ret outcome_default
  else
    modify_snapshot (set_selected_role (Some role)) ;;;
    clear_failure ;;;
    ret outcome_changed.

(** Whether the reserved boundaries differ from the entries they would play. *)
Fixpoint boundaries_mismatch (boundaries : list HostQueueBoundary) (ids : list rstr) : bool :=
  match boundaries with
  | [] => false
  | b :: boundaries' =>
      match ids with
      | [] => true
      | id :: ids' => negb (bool_decide (id = b.(hb_entry_id))) || boundaries_mismatch boundaries' ids'
      end
  end.

Definition clear_stale_host_queue_boundary : M unit :=
  let! queue := snap host_queue in
  let! boundaries := read pending_host_boundaries in
  if boundaries_mismatch boundaries (map entry_id (upcoming queue))
  then clear_host_boundary_reservations
  else ret tt.

Definition sync_legacy_audio_source : M unit :=
  modify_snapshot (fun s => set_draft_audio_source
                              (option_map entry_source (queue_current s.(host_queue))) s).

Definition track_switch_allowed (patch : HostDraftPatch) (s : CoreSnapshot) : bool :=
  let only_audio_source_patched :=
    bool_decide (patch.(patch_session_name) = None) && bool_decide (patch.(patch_approval_mode) = None)
    && match patch.(patch_invite_code) with InviteUnchanged => true | _ => false end
    && bool_decide (patch.(patch_remember_approved_devices) = None) in
  one_of s.(host_lifecycle) [HostReady; WaitingForListeners]
  && bool_decide (s.(playback_state) = PlaybackStopped)
  && only_audio_source_patched.

Definition update_host_draft (operation_id : rstr) (patch : HostDraftPatch) : M ApplyOutcome :=
  require_role RoleHost operation_id ;;;
  let! lifecycle := snap host_lifecycle in
  let! switch := snap (track_switch_allowed patch) in
  ensure (one_of lifecycle [HostIdle; HostError] || switch)
    (invalid_state (lit "host draft cannot change while a session is active, except swapping the audio source once playback has stopped")
       (Some operation_id)) ;;;
  let! draft := snap host_draft in
  let! updated := of_record (Some operation_id) (patched draft patch) in
  (if negb (bool_decide (updated.(draft_audio_source) = draft.(draft_audio_source))) then
     let! new_entries := match updated.(draft_audio_source) with
       | Some source =>
           let! entry := of_queue operation_id (QueueEntry_new source.(source_id) source) in
           ret [entry]
       | None => ret []
       end in
     let! queue := snap host_queue in
     let! queue := of_queue operation_id (replace_all queue queue.(queue_revision) new_entries) in
     modify_snapshot (set_host_queue queue) ;;;
     clear_stale_host_queue_boundary
   else ret tt) ;;;
  modify_snapshot (set_host_draft updated) ;;;
  clear_failure ;;;
  ret outcome_changed.

Definition require_host_queue_editable (operation_id : rstr) : M unit :=
  require_role RoleHost operation_id ;;;
  let! lifecycle := snap host_lifecycle in
  ensure (negb (bool_decide (lifecycle = EndingSession)))
    (invalid_state (lit "host queue cannot change while the session is ending") (Some operation_id)).

(** [matches!(playback_state, Playing | Paused | Buffering | Underrun)]. *)
Definition current_locked : M bool :=
  snap (fun s => one_of s.(playback_state)
                   [PlaybackPlaying; PlaybackPaused; PlaybackBuffering; Underrun]).

Definition append_host_queue (operation_id : rstr) (expected_revision : Z)
    (new_entries : list QueueEntry) : M ApplyOutcome :=
  require_host_queue_editable operation_id ;;;
  let! queue := snap host_queue in
  let! queue := of_queue operation_id (append queue expected_revision new_entries) in
  modify_snapshot (set_host_queue queue) ;;;
  sync_legacy_audio_source ;;;
  clear_stale_host_queue_boundary ;;;
  clear_failure ;;;
  ret outcome_changed.

Definition reorder_host_queue (operation_id : rstr) (expected_revision : Z)
    (ordered_entry_ids : list rstr) : M ApplyOutcome :=
  require_host_queue_editable operation_id ;;;
  let! locked := current_locked in
  let! boundaries := read pending_host_boundaries in
  ensure (negb (boundaries_mismatch boundaries (tail ordered_entry_ids)))
    (invalid_state (lit "queue reorder cannot change already reserved upcoming tracks")
       (Some operation_id)) ;;;
  let! queue := snap host_queue in
  let! queue := of_queue operation_id (reorder queue expected_revision ordered_entry_ids locked) in
  modify_snapshot (set_host_queue queue) ;;;
  sync_legacy_audio_source ;;;
  clear_stale_host_queue_boundary ;;;
  clear_failure ;;;
  ret outcome_changed.

Definition remove_host_queue_entry (operation_id : rstr) (expected_revision : Z) (id : rstr)
    : M ApplyOutcome :=
  require_host_queue_editable operation_id ;;;
  let! locked := current_locked in
  let! boundaries := read pending_host_boundaries in
  ensure (negb (existsb (fun b => bool_decide (b.(hb_entry_id) = id)) boundaries))
    (invalid_state (lit "the already scheduled next track cannot be removed") (Some operation_id)) ;;;
  let! queue := snap host_queue in
  let! queue := of_queue operation_id (remove queue expected_revision id locked) in
  modify_snapshot (set_host_queue queue) ;;;
  sync_legacy_audio_source ;;;
  clear_stale_host_queue_boundary ;;;
  clear_failure ;;;
  ret outcome_changed.

Definition clear_host_queue (operation_id : rstr) (expected_revision : Z) : M ApplyOutcome :=
  require_host_queue_editable operation_id ;;;
  let! boundaries := read pending_host_boundaries in
  ensure (bool_decide (boundaries = []))
    (invalid_state (lit "host queue cannot be cleared while upcoming tracks are reserved")
       (Some operation_id)) ;;;
  let! locked := current_locked in
  let! queue := snap host_queue in
  let! queue := of_queue operation_id (clear queue expected_revision locked) in
  modify_snapshot (set_host_queue queue) ;;;
  sync_legacy_audio_source ;;;
  clear_host_boundary_reservations ;;;
  clear_failure ;;;
  ret outcome_changed.

Definition update_tuning (operation_id : rstr) (patch : TuningPatch) : M ApplyOutcome :=
  let! busy := read (fun self => existsb (fun p => is_persist_tuning p.2) self.(pending_storage)) in
  ensure (negb busy)
    (invalid_state (lit "a tuning update is already pending durable storage") (Some operation_id)) ;;;
  let! current := snap tuning in
  let! settings := of_record (Some operation_id) (apply_to patch current) in
  if TuningSettings_eqb settings current then ret outcome_default
  else
    let! effect := start_storage_operation (PersistSettings settings) (PendingPersistTuning settings) in
    ret (outcome_storage_effect effect).

Definition start_host_advertising (operation_id session_id : rstr) : M PlatformEffect :=
  let! device := read local_device_id in
  let! draft := snap host_draft in
  let! advertisement := of_record (Some operation_id)
    (SessionAdvertisement_new session_id device draft.(draft_session_name)
       draft.(draft_approval_mode) current_protocol_version None) in
  start_platform_operation (StartAdvertising advertisement) (PendingStartAdvertising session_id).

Definition create_host_session (operation_id : rstr) : M ApplyOutcome :=
  require_role RoleHost operation_id ;;;
  let! lifecycle := snap host_lifecycle in
  ensure (one_of lifecycle [HostIdle; HostError])
    (invalid_state (lit "host session creation is not legal now") (Some operation_id)) ;;;
  let! draft := snap host_draft in
  of_record (Some operation_id) (validate_for_creation draft) ;;;
  let! session_id := next_session_id in
  let! effect := start_host_advertising operation_id session_id in
  modify (set_host_session_id (Some session_id)) ;;;
  modify_snapshot (set_host_lifecycle CreatingSession) ;;;
  modify_snapshot (set_transport_state TransportIdle) ;;;
  clear_failure ;;;
  ret (outcome_effect effect).

Definition end_host_session (operation_id : rstr) : M ApplyOutcome :=
  require_role RoleHost operation_id ;;;
  let! session := read host_session_id in
  let! lifecycle := snap host_lifecycle in
  ensure (negb (bool_decide (session = None) || one_of lifecycle [HostIdle; EndingSession]))
    (invalid_state (lit "no active host session can be ended") (Some operation_id)) ;;;
  let! effect := start_platform_operation StopAdvertising PendingStopAdvertising in
  modify_snapshot (set_host_lifecycle EndingSession) ;;;
  ret (outcome_effect effect).

Definition start_discovery (operation_id : rstr) : M ApplyOutcome :=
  require_role RoleListener operation_id ;;;
  let! active := snap discovery_active in
  let! starting := read (fun self =>
    existsb (fun p => bool_decide (p.2 = PendingStartDiscovery)) self.(pending_platform)) in
  ensure (negb (active || starting))
    (invalid_state (lit "discovery is already active or starting") (Some operation_id)) ;;;
  let! lifecycle := snap listener_lifecycle in
  ensure (one_of lifecycle [ListenerIdle; ListenerDisconnected; ListenerError])
    (invalid_state (lit "discovery cannot start in the current lifecycle") (Some operation_id)) ;;;
  let! settings := snap tuning in
  let! effect := start_platform_operation (StartDiscovery (DiscoveryRequest_from_tuning settings))
                   PendingStartDiscovery in
  clear_failure ;;;
  ret (outcome_effect effect).

Definition stop_discovery (operation_id : rstr) : M ApplyOutcome :=
  require_role RoleListener operation_id ;;;
  let! active := snap discovery_active in
  ensure active (invalid_state (lit "discovery is not active") (Some operation_id)) ;;;
  let! effect := start_platform_operation StopDiscovery PendingStopDiscovery in
  ret (outcome_effect effect).

Definition select_session (operation_id session_id : rstr) : M ApplyOutcome :=
  require_role RoleListener operation_id ;;;
  let! sessions := snap discovered_sessions in
  ensure (existsb (fun a => bool_decide (a.(ad_session_id) = session_id)) sessions)
    (invalid_argument (lit "selected session is not in discovery results") (Some operation_id)) ;;;
  let! selected := snap selected_session in
  if bool_decide (selected = Some session_id) then ret outcome_default
  else
    let! lifecycle := snap listener_lifecycle in
    ensure (one_of lifecycle [Scanning; SessionSelected])
      (invalid_state (lit "session selection is not legal now") (Some operation_id)) ;;;
    modify_snapshot (set_selected_session (Some session_id)) ;;;
    modify_snapshot (set_listener_lifecycle SessionSelected) ;;;
    clear_failure ;;;
    ret outcome_changed.

Definition submit_join (operation_id : rstr) : M ApplyOutcome :=
  require_role RoleListener operation_id ;;;
  let! lifecycle := snap listener_lifecycle in
  ensure (bool_decide (lifecycle = SessionSelected))
    (invalid_state (lit "join requires a selected session") (Some operation_id)) ;;;
  let! selected := snap selected_session in
  let! selected_id := lift (ok_or selected
    (invalid_state (lit "join has no selected session") (Some operation_id))) in
  let! sessions := snap discovered_sessions in
  let! advertisement := lift (ok_or
    (List.find (fun a => bool_decide (a.(ad_session_id) = selected_id)) sessions)
    (invalid_state (lit "selected session disappeared before join") (Some operation_id))) in
  let session_id := advertisement.(ad_session_id) in
  let! effect := start_platform_operation
    (EstablishNetwork (mkNetworkEstablishmentRequest session_id advertisement.(ad_endpoint)))
    (PendingEstablishNetwork session_id) in
  modify_snapshot (set_listener_lifecycle JoinRequested) ;;;
  modify_snapshot (set_transport_state TransportConnecting) ;;;
  modify_snapshot (set_discovery_active false) ;;;
  ret (outcome_effect effect).

Definition cancel_join (operation_id : rstr) : M ApplyOutcome :=
  require_role RoleListener operation_id ;;;
  let! transport := snap transport_state in
  if one_of transport [TransportConnecting; Connected; Retrying] then
    let! effect := start_platform_operation ReleaseNetwork PendingReleaseNetwork in
    ret (outcome_effect effect)
  else
    modify_snapshot (set_selected_session None) ;;;
    modify_snapshot (set_listener_lifecycle ListenerIdle) ;;;
    modify_snapshot (set_transport_state TransportIdle) ;;;
    ret outcome_changed.

Definition export_diagnostics : M ApplyOutcome :=
  let! export_id := next_export_id in
  let! effect := start_platform_operation (ShareDiagnostics export_id)
                   (PendingShareDiagnostics export_id) in
  ret (outcome_effect effect).

Definition retry_listener_connection (operation_id : rstr) : M ApplyOutcome :=
  require_role RoleListener operation_id ;;;
  let! idle := no_pending_operation in
  ensure idle (invalid_state (lit "listener retry cannot start while another operation is pending")
                 (Some operation_id)) ;;;
  modify_snapshot (set_selected_session None) ;;;
  let! settings := snap tuning in
  let! effect := start_platform_operation (StartDiscovery (DiscoveryRequest_from_tuning settings))
                   PendingStartDiscovery in
  clear_failure ;;;
  ret (outcome_effect effect).

Definition retry_host_session (operation_id : rstr) : M ApplyOutcome :=
  require_role RoleHost operation_id ;;;
  let! idle := no_pending_operation in
  ensure idle (invalid_state (lit "host retry cannot start while another operation is pending")
                 (Some operation_id)) ;;;
  let! draft := snap host_draft in
  of_record (Some operation_id) (validate_for_creation draft) ;;;
  let! session := read host_session_id in
  let! session_id := lift (ok_or session
    (invalid_state (lit "host retry has no active session identity") (Some operation_id))) in
  let! effect := start_host_advertising operation_id session_id in
  modify_snapshot (set_host_lifecycle CreatingSession) ;;;
  modify_snapshot (set_transport_state TransportIdle) ;;;
  clear_failure ;;;
  ret (outcome_effect effect).

Definition retry_recoverable (operation_id : rstr) : M ApplyOutcome :=
  let! failure := snap last_error in
  let! error := lift (ok_or failure
    (invalid_state (lit "there is no recoverable failure to retry") (Some operation_id))) in
  let! recovery := snap recoverable_action in
  let! action := lift (ok_or recovery
    (invalid_state (lit "the current failure has no recoverable action") (Some operation_id))) in
  ensure error.(err_retryable)
    (invalid_state (lit "the current failure is not retryable") (Some operation_id)) ;;;
  let! role := snap selected_role in
  if bool_decide (role = Some RoleHost) && bool_decide (action = RecoverRetry) then
    retry_host_session operation_id
  else if bool_decide (role = Some RoleListener) && one_of action [RecoverReconnect; RecoverRescan] then
    retry_listener_connection operation_id
  else
    clear_failure ;;;
    ret outcome_changed.

(** ** Admission (admission.rs) *)

Definition admission_lifecycles : list HostLifecycle :=
  [WaitingForListeners; HostReady; Streaming; HostPaused].

Definition require_host_admission_event : M unit :=
  require_role_event RoleHost ;;;
  let! lifecycle := snap host_lifecycle in
  ensure (one_of lifecycle admission_lifecycles)
    (invalid_state (lit "join request arrived while host admission was unavailable") None).

Definition require_host_admission_command (operation_id : rstr) : M unit :=
  require_role RoleHost operation_id ;;;
  let! session := read host_session_id in
  let! lifecycle := snap host_lifecycle in
  ensure (negb (bool_decide (session = None)) && one_of lifecycle admission_lifecycles)
    (invalid_state (lit "host admission command requires an active host session")
       (Some operation_id)).

Definition pending_join_request (request_id operation_id : rstr) : M JoinRequestSummary :=
  let! requests := snap pending_join_requests in
  lift (ok_or (List.find (fun r => bool_decide (r.(jr_request_id) = request_id)) requests)
          (invalid_state (lit "join request is stale or no longer pending") (Some operation_id))).

(** Whether an operation in flight decides this request. *)
Definition transport_concerns (request_id : rstr) (p : PendingTransportOperation) : bool :=
  match p with
  | PendingApproveJoin delivery => bool_decide (delivery.(del_request_id) = request_id)
  | PendingRejectJoin pending_id _ _ => bool_decide (pending_id = request_id)
  | PendingDisconnectListener _ => false
  end.

Definition storage_concerns (request_id : rstr) (p : PendingStorageOperation) : bool :=
  match p with
  | PendingPersistApprovalTrust persistence =>
      bool_decide (persistence.(tp_request_id) = request_id)
  | PendingPersistTuning _ => false
  end.

Definition ensure_request_operation_idle (request_id operation_id : rstr) : M unit :=
  let! transport_pending := read (fun self =>
    existsb (fun p => transport_concerns request_id p.2) self.(pending_transport)) in
  let! storage_pending := read (fun self =>
    existsb (fun p => storage_concerns request_id p.2) self.(pending_storage)) in
  ensure (negb (transport_pending || storage_pending))
    (invalid_state (lit "join request already has an admission operation in progress")
       (Some operation_id)).

Definition active_session (operation_id : option rstr) : M rstr :=
  let! session := read host_session_id in
  lift (ok_or session (invalid_state (lit "host session is not active") operation_id)).

Definition create_approval_transport_effect (delivery : ApprovalDelivery) : M TransportEffect :=
  let! session_id := active_session None in
  start_transport_operation
    (DeliverJoinApproval delivery.(del_request_id) session_id delivery.(del_device_id)
       delivery.(del_trusted_for_future))
    (PendingApproveJoin delivery).

Definition start_approval_delivery (delivery : ApprovalDelivery) : M ApplyOutcome :=
  let! effect := create_approval_transport_effect delivery in
  ret (outcome_transport_effect effect).

Definition start_rejection_delivery (request : JoinRequestSummary) (reason : JoinRejectionReason)
    (confirmation_operation_id : option rstr) : M ApplyOutcome :=
  let! session_id := active_session None in
  let! effect := start_transport_operation
    (DeliverJoinRejection request.(jr_request_id) session_id request.(jr_device_id)
       (rejection_stable_name reason))
    (PendingRejectJoin request.(jr_request_id) request.(jr_device_id) confirmation_operation_id) in
  ret (outcome_transport_effect effect).

Definition handle_join_request (request : JoinRequestSummary) : M ApplyOutcome :=
  require_host_admission_event ;;;
  let! requests := snap pending_join_requests in
  match List.find (fun r => bool_decide (r.(jr_request_id) = request.(jr_request_id))) requests with
  | Some existing =>
      if bool_decide (existing = request) then ret outcome_default
      else fail (invalid_state (lit "join request identifier was reused with different content") None)
  | None =>
      ensure (negb (existsb (fun r => bool_decide (r.(jr_device_id) = request.(jr_device_id))) requests))
        (invalid_state (lit "listener already has a pending join request") None) ;;;
      ensure (negb (MAX_PENDING_JOIN_REQUESTS <=? len requests))
        (resource_limit (lit "pending join-request capacity reached") None) ;;;
      let! draft := snap host_draft in
      modify_snapshot (fun s => set_pending_join_requests (s.(pending_join_requests) ++ [request]) s) ;;;
      match classify_join_request draft request with
      | PendingManualDecision => ret outcome_changed
      | AutoApprove trusted_for_future =>
          start_approval_delivery (mkApprovalDelivery request.(jr_request_id) request.(jr_device_id)
                                     trusted_for_future false)
      | AutoReject reason => start_rejection_delivery request reason None
      end
  end.

Definition approve_join (operation_id request_id : rstr) (remember_for_future : bool)
    : M ApplyOutcome :=
  require_host_admission_command operation_id ;;;
  let! request := pending_join_request request_id operation_id in
  ensure_request_operation_idle request_id operation_id ;;;
  match prepare_explicit_approval request remember_for_future with
  | PersistTrustFirst persistence =>
      let! effect := start_storage_operation
        (PersistTrustedDevice persistence.(tp_device_id) persistence.(tp_display_name))
        (PendingPersistApprovalTrust persistence) in
      ret (outcome_storage_effect effect)
  | Deliver delivery => start_approval_delivery delivery
  end.

Definition reject_join (operation_id request_id : rstr) : M ApplyOutcome :=
  require_host_admission_command operation_id ;;;
  let! request := pending_join_request request_id operation_id in
  ensure_request_operation_idle request_id operation_id ;;;
  start_rejection_delivery request HostRejected (Some operation_id).

Definition remove_listener (operation_id listener_id : rstr) : M ApplyOutcome :=
  require_host_admission_command operation_id ;;;
  let! known := snap listeners in
  ensure (existsb (fun l => bool_decide (l.(ls_device_id) = listener_id)) known)
    (invalid_state (lit "listener is stale or no longer connected") (Some operation_id)) ;;;
  let! removing := read (fun self => existsb (fun p => match p.2 with
    | PendingDisconnectListener pending_id => bool_decide (pending_id = listener_id)
    | _ => false end) self.(pending_transport)) in
  ensure (negb removing)
    (invalid_state (lit "listener removal is already pending") (Some operation_id)) ;;;
  let! session_id := active_session (Some operation_id) in
  let! effect := start_transport_operation
    (DisconnectListener session_id listener_id (lit "host_removed_listener"))
    (PendingDisconnectListener listener_id) in
  ret (outcome_transport_effect effect).

(** [if let Some(inner_id) = &error.operation_id && inner_id != &operation_id]. *)
Definition inner_id_matches (error : CoreError) (operation_id : rstr) : bool :=
  match error.(err_operation_id) with
  | Some inner_id => bool_decide (inner_id = operation_id)
  | None => true
  end.

Definition of_contract {A : Type} (operation_id : rstr) (r : result A RuntimeContractError) : M A :=
  lift (map_err (fun e => invalid_argument (contract_error_text e) (Some operation_id)) r).

Definition apply_admission_storage (event : StorageEvent) : M ApplyOutcome :=
  of_contract (StorageEvent_operation_id event) (StorageEvent_validate event) ;;;
  let wrapper_id := StorageEvent_operation_id event in
  let! removed := remove_pending_storage wrapper_id in
  let! pending := lift (ok_or removed
    (invalid_state (lit "stale or duplicate admission storage completion") (Some wrapper_id))) in
  let mismatch := fail (invalid_state
    (lit "admission storage completion kind does not match the pending operation")
    (Some wrapper_id)) in
  match pending, event with
  | PendingPersistApprovalTrust persistence,
    StorageOperationSucceeded _ (TrustedDeviceUpdated device_id) =>
      if bool_decide (device_id = persistence.(tp_device_id)) then
        start_approval_delivery (approval_after_persistence persistence TrustCommitted)
      else mismatch
  | PendingPersistApprovalTrust persistence, StorageOperationFailed operation_id error =>
      ensure (inner_id_matches error operation_id)
        (invalid_state (lit "storage failure operation ID does not match its wrapper")
           (Some operation_id)) ;;;
      let error := err_set_operation_id error operation_id in
      let! effect := create_approval_transport_effect
        (approval_after_persistence persistence TrustFailed) in
      modify_snapshot (set_last_error (Some error)) ;;;
      ret (mkApplyOutcome [NotifyError error; NotifyTransportEffect effect] true false)
  | _, _ => mismatch
  end.

Definition remove_pending_request (request_id listener_id : rstr) : M JoinRequestSummary :=
  let! requests := snap pending_join_requests in
  let matching := fun r => bool_decide (r.(jr_request_id) = request_id)
                           && bool_decide (r.(jr_device_id) = listener_id) in
  let! index := lift (ok_or (position matching requests)
    (invalid_state (lit "join request disappeared before delivery completed") None)) in
  let! request := lift (ok_or (requests !! index)
    (invalid_state (lit "join request disappeared before delivery completed") None)) in
  modify_snapshot (set_pending_join_requests (delete index requests)) ;;;
  ret request.

(** The insertion shared by [record_approved_listener] and [record_listener]. *)
Definition upsert_listener (listener : ListenerSummary) : M unit :=
  let! known := snap listeners in
  let matching := fun l => bool_decide (l.(ls_device_id) = listener.(ls_device_id)) in
  if existsb matching known then
    modify_snapshot (set_listeners (update_first matching (fun _ => listener) known))
  else
    ensure (negb (MAX_CONNECTED_LISTENERS <=? len known))
      (resource_limit (lit "connected-listener capacity reached") None) ;;;
    modify_snapshot (set_listeners (known ++ [listener])).

Definition record_approved_listener (request : JoinRequestSummary) (delivery : ApprovalDelivery)
    : M unit :=
  let trust_state := if delivery.(del_trusted_for_future) then Trusted else SessionOnly in
  let! listener := of_record None
    (ListenerSummary_new request.(jr_device_id) request.(jr_display_name) trust_state
       TransportConnecting) in
  upsert_listener listener.

(** The [match pending] of [complete_transport_delivery], on a delivery that commits. *)
Definition commit_delivery (operation_id : rstr) (pending : PendingTransportOperation) : M unit :=
  match pending with
  | PendingApproveJoin delivery =>
      let! request := remove_pending_request delivery.(del_request_id) delivery.(del_device_id) in
      record_approved_listener request delivery
  | PendingRejectJoin request_id listener_id confirmation_operation_id =>
      match confirmation_operation_id with
      | Some confirmation =>
          modify_snapshot (set_last_delivery_operation_id (Some confirmation))
      | None => ret tt
      end ;;;
      remove_pending_request request_id listener_id ;;;
      ret tt
  | PendingDisconnectListener listener_id =>
      let! known := snap listeners in
      let kept := List.filter (fun l => negb (bool_decide (l.(ls_device_id) = listener_id))) known in
      modify_snapshot (set_listeners kept) ;;;
      ensure (negb (len known =? len kept))
        (invalid_state (lit "listener disappeared before removal delivery completed")
           (Some operation_id))
  end.

Definition complete_transport_delivery (operation_id : rstr) (report : DeliveryReport)
    : M ApplyOutcome :=
  let! removed := remove_pending_transport operation_id in
  let! pending := lift (ok_or removed
    (invalid_state (lit "stale or duplicate transport delivery completion") (Some operation_id))) in
  modify_snapshot (set_last_delivery (Some report)) ;;;
  modify_snapshot (set_last_delivery_operation_id (Some operation_id)) ;;;
  let disposition := classify_delivery report in
  if negb (commits_domain_decision disposition) then
    let message := match disposition with
      | NoRecipients => lit "transport control delivery had no intended recipients"
      | DeliveryFailed => lit "transport control delivery failed for every intended recipient"
      | Delivered | DeliveredWithFailures => lit "transport control delivery did not commit"
      end in
    let error := transport_delivery_failed message operation_id in
    modify_snapshot (set_last_error (Some error)) ;;;
    ret (mkApplyOutcome [NotifyError error] true false)
  else
    commit_delivery operation_id pending ;;;
    let! failure := snap last_error in
    match failure with
    | Some error =>
        if bool_decide (error.(err_code) = CodeTransportDeliveryFailed)
        then modify_snapshot (set_last_error None) else ret tt
    | None => ret tt
    end ;;;
    if bool_decide (disposition = DeliveredWithFailures) then
      let! intended := field (lit "intended_peers") (to_decimal report.(intended_peers)) in
      let! successful := field (lit "successful_peers") (to_decimal report.(successful_peers)) in
      let! failed := field (lit "failed_peers") (to_decimal report.(failed_peers)) in
      let! outcome := diagnostic (lit "transport_delivery_partial") [intended; successful; failed] in
      ret (mark_changed outcome)
    else ret outcome_changed.

(** What an audio event means for the host's lifecycle. *)
Definition audio_transition (event : AudioEvent) : option PlaybackState :=
  match event with
  | PlaybackStateChanged state => Some state
  | EndOfStream _ => Some PlaybackStopped
  | AudioFailed _ => Some PlaybackError
  | PositionAdvanced _ _ | TrackBoundaryScheduled _ _ | TrackBoundaryApplied _ _
  | SynchronizationUpdated _ _ | UnderrunEvent _ => None
  end.

(** [if listeners.is_empty() { WaitingForListeners } else { Ready }]. *)
Definition resting_lifecycle (s : CoreSnapshot) : HostLifecycle :=
  match s.(listeners) with [] => WaitingForListeners | _ => HostReady end.

Definition apply_audio_with_host_lifecycle (event : AudioEvent) : M ApplyOutcome :=
  let retryable_audio_failure :=
    match event with AudioFailed error => error.(err_retryable) | _ => false end in
  let! outcome := apply_audio event in
  let! role := snap selected_role in
  let! session := read host_session_id in
  if negb (bool_decide (role = Some RoleHost)) || bool_decide (session = None) then ret outcome
  else
    let! lifecycle := snap host_lifecycle in
    match audio_transition event with
    | Some PlaybackPlaying =>
        ensure (one_of lifecycle [HostReady; HostPaused; Streaming])
          (invalid_state (lit "host playback entered playing outside an active ready session") None) ;;;
        modify_snapshot (set_host_lifecycle Streaming)
    | Some PlaybackPaused =>
        ensure (one_of lifecycle [Streaming; HostPaused])
          (invalid_state (lit "host playback entered paused outside a streaming session") None) ;;;
        modify_snapshot (set_host_lifecycle HostPaused)
    | Some PlaybackStopped =>
        if one_of lifecycle [HostReady; Streaming; HostPaused; WaitingForListeners]
        then modify_snapshot (fun s => set_host_lifecycle (resting_lifecycle s) s)
        else ret tt
    | Some PlaybackError =>
        if retryable_audio_failure then
          modify_snapshot (fun s => set_host_lifecycle (resting_lifecycle s) s) ;;;
          modify_snapshot (set_recoverable_action (Some RecoverRetry))
        else
          modify_snapshot (set_host_lifecycle HostError) ;;;
          modify_snapshot (set_recoverable_action (Some RecoverReselectAudioSource))
    | Some (PlaybackBuffering | PlaybackReady | Underrun) | None => ret tt
    end ;;;
    ret outcome.

(** ** Transport (transport.rs) *)

Definition LISTENER_ACTIVE_LIFECYCLES : list ListenerLifecycle :=
  [Scanning; SessionSelected; JoinRequested; AwaitingApproval; Approved; ListenerConnecting;
   SyncingClock; ListenerBuffering; ListenerPlaying; Reconnecting; Desynced].

Definition record_awaiting_approval : M ApplyOutcome :=
  require_role_event RoleListener ;;;
  let! lifecycle := snap listener_lifecycle in
  ensure (bool_decide (lifecycle = ListenerConnecting))
    (invalid_state (lit "awaiting approval arrived outside an active connection attempt") None) ;;;
  modify_snapshot (set_listener_lifecycle AwaitingApproval) ;;;
  ret outcome_changed.

Definition record_join_approved (trusted_for_future : bool) : M ApplyOutcome :=
  require_role_event RoleListener ;;;
  let! lifecycle := snap listener_lifecycle in
  ensure (one_of lifecycle [ListenerConnecting; AwaitingApproval])
    (invalid_state (lit "join approval arrived outside an active join attempt") None) ;;;
  modify_snapshot (set_listener_lifecycle Approved) ;;;
  clear_failure ;;;
  ret outcome_changed.

Definition record_join_rejected (reason : rstr) : M ApplyOutcome :=
  require_role_event RoleListener ;;;
  let! lifecycle := snap listener_lifecycle in
  ensure (one_of lifecycle [ListenerConnecting; AwaitingApproval])
    (invalid_state (lit "join rejection arrived outside an active join attempt") None) ;;;
  let error := join_rejected reason in
  modify_snapshot (set_last_error (Some error)) ;;;
  modify_snapshot (set_listener_lifecycle ListenerError) ;;;
  modify_snapshot (set_selected_session None) ;;;
  modify_snapshot (set_recoverable_action (Some RecoverRescan)) ;;;
  ret (mkApplyOutcome [NotifyError error] true false).

Definition record_join_request (request : JoinRequestSummary) : M ApplyOutcome :=
  require_role_event RoleHost ;;;
  let! lifecycle := snap host_lifecycle in
  ensure (one_of lifecycle [WaitingForListeners; HostReady; Streaming])
    (invalid_state (lit "join request arrived while host admission was unavailable") None) ;;;
  let! requests := snap pending_join_requests in
  ensure (negb (existsb (fun r => bool_decide (r.(jr_request_id) = request.(jr_request_id))) requests))
    (invalid_state (lit "duplicate join request identifier") None) ;;;
  ensure (negb (MAX_PENDING_JOIN_REQUESTS <=? len requests))
    (resource_limit (lit "pending join-request capacity reached") None) ;;;
  modify_snapshot (set_pending_join_requests (requests ++ [request])) ;;;
  ret outcome_changed.

Definition without_device_request (device_id : rstr) (requests : list JoinRequestSummary)
    : list JoinRequestSummary :=
  List.filter (fun r => negb (bool_decide (r.(jr_device_id) = device_id))) requests.

Definition record_listener (listener : ListenerSummary) : M ApplyOutcome :=
  require_role_event RoleHost ;;;
  modify_snapshot (fun s => set_pending_join_requests
    (without_device_request listener.(ls_device_id) s.(pending_join_requests)) s) ;;;
  upsert_listener listener ;;;
  let! lifecycle := snap host_lifecycle in
  (if bool_decide (lifecycle = WaitingForListeners)
   then modify_snapshot (set_host_lifecycle HostReady) else ret tt) ;;;
  ret outcome_changed.

Definition record_listener_disconnect (device_id : rstr) (error : option CoreError)
    : M ApplyOutcome :=
  let! known := snap listeners in
  let! requests := snap pending_join_requests in
  let kept := List.filter (fun l => negb (bool_decide (l.(ls_device_id) = device_id))) known in
  let waiting := without_device_request device_id requests in
  modify_snapshot (set_listeners kept) ;;;
  modify_snapshot (set_pending_join_requests waiting) ;;;
  let listener_removed := negb (len known =? len kept) in
  let request_removed := negb (len requests =? len waiting) in
  let! lifecycle := snap host_lifecycle in
  (if listener_removed && match kept with [] => true | _ => false end
      && bool_decide (lifecycle = HostReady)
   then modify_snapshot (set_host_lifecycle WaitingForListeners) else ret tt) ;;;
  match error with
  | Some error =>
      modify_snapshot (set_last_error (Some error)) ;;;
      ret (mkApplyOutcome [NotifyError error] true false)
  | None =>
      if negb listener_removed && negb request_removed then ret outcome_default
      else ret outcome_changed
  end.

Definition record_transport_failure (error : CoreError) : M ApplyOutcome :=
  modify_snapshot (set_last_error (Some error)) ;;;
  modify_snapshot (set_transport_state Failed) ;;;
  modify_snapshot (set_discovery_active false) ;;;
  let! role := snap selected_role in
  let! lifecycle := snap listener_lifecycle in
  match role with
  | Some RoleHost =>
      modify_snapshot (set_host_lifecycle HostError) ;;;
      modify_snapshot (set_recoverable_action (then_some error.(err_retryable) RecoverRetry))
  | Some RoleListener =>
      if one_of lifecycle LISTENER_ACTIVE_LIFECYCLES then
        modify_snapshot (set_listener_lifecycle ListenerError) ;;;
        modify_snapshot (set_recoverable_action (then_some error.(err_retryable) RecoverReconnect))
      else ret tt
  | None => ret tt
  end ;;;
  ret (mkApplyOutcome [NotifyError error] true false).

Definition apply_transport (event : TransportEvent) : M ApplyOutcome :=
  match event with
  | TransportStateChanged state =>
      modify_snapshot (set_transport_state state) ;;;
      modify_snapshot (set_discovery_active (bool_decide (state = Discovering))) ;;;
      ret outcome_changed
  | TransportJoinRequested request => record_join_request request
  | ListenerConnected listener => record_listener listener
  | ListenerDisconnectedEvent device_id error => record_listener_disconnect device_id error
  | DeliveryCompleted operation_id report =>
      modify_snapshot (set_last_delivery (Some report)) ;;;
      modify_snapshot (set_last_delivery_operation_id (Some operation_id)) ;;;
      ret outcome_changed
  | SessionEnded session_id =>
      let! selected := snap selected_session in
      if negb (bool_decide (selected = Some session_id)) then ret outcome_default
      else
        modify_snapshot (set_listener_lifecycle ListenerDisconnected) ;;;
        modify_snapshot (set_transport_state TransportDisconnected) ;;;
        modify_snapshot (set_playback_state PlaybackStopped) ;;;
        modify_snapshot (set_recoverable_action (Some RecoverReconnect)) ;;;
        ret outcome_changed
  | TransportFailed error => record_transport_failure error
  | AwaitingApprovalEvent => record_awaiting_approval
  | JoinApproved trusted_for_future => record_join_approved trusted_for_future
  | JoinRejected reason => record_join_rejected reason
  end.

Definition apply_transport_state (state : TransportState) : M ApplyOutcome :=
  let! outcome := apply_transport (TransportStateChanged state) in
  let! role := snap selected_role in
  let! lifecycle := snap host_lifecycle in
  (if bool_decide (role = Some RoleHost) && bool_decide (lifecycle = CreatingSession)
      && bool_decide (state = TransportAdvertising)
   then modify_snapshot (set_host_lifecycle HostAdvertising) else ret tt) ;;;
  ret outcome.

(** ** Platform (platform.rs) *)

Definition LISTENER_JOINED_LIFECYCLES : list ListenerLifecycle :=
  [JoinRequested; AwaitingApproval; Approved; ListenerConnecting; SyncingClock; ListenerBuffering;
   ListenerPlaying; Reconnecting; Desynced].

(** [format!("{:?}", lifecycle)]: the variant's name in the source. *)
Definition listener_lifecycle_debug (lifecycle : ListenerLifecycle) : rstr :=
  match lifecycle with
  | ListenerIdle => lit "Idle" | Scanning => lit "Scanning"
  | SessionSelected => lit "SessionSelected" | JoinRequested => lit "JoinRequested"
  | AwaitingApproval => lit "AwaitingApproval" | Approved => lit "Approved"
  | ListenerConnecting => lit "Connecting" | SyncingClock => lit "SyncingClock"
  | ListenerBuffering => lit "Buffering" | ListenerPlaying => lit "Playing"
  | Reconnecting => lit "Reconnecting" | Desynced => lit "Desynced"
  | ListenerDisconnected => lit "Disconnected" | ListenerError => lit "Error"
  end.

Definition apply_platform_failure (operation_id : rstr) (error : CoreError) : M ApplyOutcome :=
  let! removed := remove_pending operation_id in
  let! pending := lift (ok_or removed
    (invalid_state (lit "stale or duplicate platform failure completion") (Some operation_id))) in
  ensure (inner_id_matches error operation_id)
    (invalid_state (lit "platform failure operation ID does not match its wrapper")
       (Some operation_id)) ;;;
  let error := err_set_operation_id error operation_id in
  apply_pending_failure pending error ;;;
  modify_snapshot (set_last_error (Some error)) ;;;
  ret (mkApplyOutcome [NotifyError error] true false).

Definition record_discovered_session (advertisement : SessionAdvertisement) : M ApplyOutcome :=
  require_discovery_active ;;;
  let! sessions := snap discovered_sessions in
  let matching := fun a => bool_decide (a.(ad_session_id) = advertisement.(ad_session_id)) in
  (if existsb matching sessions then
     modify_snapshot (set_discovered_sessions (update_first matching (fun _ => advertisement) sessions))
   else
     ensure (negb (MAX_DISCOVERED_SESSIONS <=? len sessions))
       (resource_limit (lit "discovered-session capacity reached") None) ;;;
     modify_snapshot (set_discovered_sessions (sessions ++ [advertisement]))) ;;;
  ret outcome_changed.

Definition expire_session (session_id : rstr) : M ApplyOutcome :=
  let! selected := snap selected_session in
  let! lifecycle := snap listener_lifecycle in
  if bool_decide (selected = Some session_id) && one_of lifecycle LISTENER_JOINED_LIFECYCLES then
    let! session_field := field (lit "session_id") session_id in
    let! lifecycle_field := field (lit "listener_lifecycle") (listener_lifecycle_debug lifecycle) in
    diagnostic (lit "session_expiry_ignored_while_joined") [session_field; lifecycle_field]
  else
    let! sessions := snap discovered_sessions in
    let kept := List.filter (fun a => negb (bool_decide (a.(ad_session_id) = session_id))) sessions in
    modify_snapshot (set_discovered_sessions kept) ;;;
    if len sessions =? len kept then ret outcome_default
    else
      (if bool_decide (selected = Some session_id) then
         modify_snapshot (set_selected_session None) ;;;
         modify_snapshot (fun s => set_listener_lifecycle
           (if s.(discovery_active) then Scanning else ListenerIdle) s)
       else ret tt) ;;;
      ret outcome_changed.

Definition apply_platform_success (operation_id : rstr) (completion : PlatformOperationCompletion)
    : M ApplyOutcome :=
  let! found := read (fun self => find_pending operation_id self.(pending_platform)) in
  let! pending := lift (ok_or found
    (invalid_state (lit "stale or duplicate platform success completion") (Some operation_id))) in
  let mismatch := fail (invalid_state
    (lit "platform completion kind does not match the pending operation") (Some operation_id)) in
  let! outcome :=
    match pending, completion with
    | PendingStartAdvertising session_id, AdvertisingStarted =>
        let! session := read host_session_id in
        if bool_decide (session = Some session_id) then
          modify_snapshot (set_host_lifecycle WaitingForListeners) ;;;
          modify_snapshot (set_transport_state TransportAdvertising) ;;;
          ret outcome_changed
        else mismatch
    | PendingStopAdvertising, AdvertisingStopped => reset_host_session ;;; ret outcome_changed
    | PendingStartDiscovery, DiscoveryStarted =>
        modify_snapshot (set_discovery_active true) ;;;
        modify_snapshot (set_transport_state Discovering) ;;;
        modify_snapshot (set_listener_lifecycle Scanning) ;;;
        ret outcome_changed
    | PendingStopDiscovery, DiscoveryStopped =>
        modify_snapshot (set_discovery_active false) ;;;
        modify_snapshot (set_transport_state TransportIdle) ;;;
        let! lifecycle := snap listener_lifecycle in
        (if bool_decide (lifecycle = Scanning)
         then modify_snapshot (set_listener_lifecycle ListenerIdle) else ret tt) ;;;
        ret outcome_changed
    | PendingEstablishNetwork session_id, NetworkEndpointReady _ =>
        let! selected := snap selected_session in
        if bool_decide (selected = Some session_id) then
          modify_snapshot (set_discovery_active false) ;;;
          modify_snapshot (set_transport_state Connected) ;;;
          modify_snapshot (set_listener_lifecycle ListenerConnecting) ;;;
          ret outcome_changed
        else mismatch
    | PendingReleaseNetwork, NetworkReleased => reset_listener_connection ;;; ret outcome_changed
    | PendingShareDiagnostics expected, DiagnosticsShared export_id =>
        if bool_decide (expected = export_id) then
          let! export_field := field (lit "export_id") export_id in
          let! outcome := diagnostic (lit "diagnostics_shared") [export_field] in
          ret (mark_changed outcome)
        else mismatch
    | _, _ => mismatch
    end in
  remove_pending operation_id ;;;
  clear_failure ;;;
  ret outcome.

Definition apply_platform (event : PlatformEvent) : M ApplyOutcome :=
  match event with
  | PlatformOperationSucceeded operation_id completion =>
      apply_platform_success operation_id completion
  | PlatformOperationFailed operation_id error => apply_platform_failure operation_id error
  | SessionDiscovered advertisement => record_discovered_session advertisement
  | SessionExpired session_id => expire_session session_id
  | CapabilityStateChanged resolved =>
      let! current := snap capabilities in
      if bool_decide (resolved = current) then ret outcome_default
      else
        modify_snapshot (set_capabilities resolved) ;;;
        ret outcome_changed
  | AppEnteredForeground => diagnostic (lit "app_foreground") []
  | AppEnteredBackground => diagnostic (lit "app_background") []
  end.

(** ** Storage (storage.rs, tuning.rs) *)

(** The [OperationFailed] arm shared by both. *)
Definition storage_failure (operation_id : rstr) (error : CoreError) : M ApplyOutcome :=
  ensure (inner_id_matches error operation_id)
    (invalid_state (lit "storage failure operation ID does not match its wrapper")
       (Some operation_id)) ;;;
  let error := err_set_operation_id error operation_id in
  modify_snapshot (set_last_error (Some error)) ;;;
  ret (mkApplyOutcome [NotifyError error] true false).

Definition apply_storage (event : StorageEvent) : M ApplyOutcome :=
  of_contract (StorageEvent_operation_id event) (StorageEvent_validate event) ;;;
  match event with
  | StorageOperationSucceeded _ completion =>
      match completion with
      | SettingsLoaded (Some settings) =>
          modify_snapshot (set_tuning settings.(stored_tuning)) ;;;
          ret outcome_changed
      | SettingsLoaded None => ret outcome_default
      | SettingsSaved => diagnostic (lit "settings_saved") []
      | TrustedDevicesLoaded devices =>
          let! count := field (lit "count") (to_decimal (len devices)) in
          diagnostic (lit "trusted_devices_loaded") [count]
      | TrustedDeviceUpdated device_id =>
          let! device := field (lit "device_id") device_id in
          diagnostic (lit "trusted_device_updated") [device]
      | DiagnosticsExportReady export_id =>
          let! export_field := field (lit "export_id") export_id in
          diagnostic (lit "diagnostics_export_ready") [export_field]
      end
  | StorageOperationFailed operation_id error => storage_failure operation_id error
  end.

Definition apply_tuning_storage (event : StorageEvent) : M ApplyOutcome :=
  of_contract (StorageEvent_operation_id event) (StorageEvent_validate event) ;;;
  let wrapper_id := StorageEvent_operation_id event in
  let! removed := remove_pending_storage wrapper_id in
  let! pending := lift (ok_or removed
    (invalid_state (lit "stale or duplicate tuning storage completion") (Some wrapper_id))) in
  match pending, event with
  | PendingPersistTuning settings, StorageOperationSucceeded _ SettingsSaved =>
      modify_snapshot (set_tuning settings) ;;;
      let! outcome := diagnostic (lit "settings_saved") [] in
      ret (mark_changed outcome)
  | PendingPersistTuning _, StorageOperationFailed operation_id error =>
      storage_failure operation_id error
  | _, _ => fail (invalid_state
      (lit "tuning storage completion kind does not match the pending operation")
      (Some wrapper_id))
  end.

(** ** Host playback control (host_audio_control.rs) *)

(** The guard on an event's legality for a hosting actor. *)
Definition host_audio_guard (event : AudioEvent) : M unit :=
  let! lifecycle := snap host_lifecycle in
  let! state := snap playback_state in
  match event with
  | PlaybackStateChanged PlaybackBuffering =>
      ensure (one_of lifecycle [HostReady; WaitingForListeners]
              && one_of state [PlaybackStopped; PlaybackReady; PlaybackError])
        (invalid_state (lit "host playback can begin buffering only from an active stopped session") None)
  | PlaybackStateChanged PlaybackPlaying =>
      ensure (one_of lifecycle [HostReady; WaitingForListeners; HostPaused; Streaming]
              && one_of state [PlaybackStopped; PlaybackReady; PlaybackBuffering; PlaybackPaused;
                               PlaybackPlaying])
        (invalid_state (lit "host playback can enter playing only from an active stopped, buffered, or paused session") None)
  | PlaybackStateChanged PlaybackPaused =>
      ensure (bool_decide (lifecycle = Streaming) && bool_decide (state = PlaybackPlaying))
        (invalid_state (lit "host playback can pause only while streaming") None)
  | PlaybackStateChanged PlaybackStopped | EndOfStream _ =>
      ensure (one_of lifecycle [HostReady; WaitingForListeners; Streaming; HostPaused])
        (invalid_state (lit "host playback can stop only during an active host session") None)
  | PlaybackStateChanged PlaybackReady =>
      ensure (one_of state [PlaybackBuffering; PlaybackReady])
        (invalid_state (lit "host playback can become ready only after buffering") None)
  | PlaybackStateChanged (PlaybackError | Underrun) | AudioFailed _ | PositionAdvanced _ _
  | TrackBoundaryScheduled _ _ | TrackBoundaryApplied _ _ | SynchronizationUpdated _ _
  | UnderrunEvent _ => ret tt
  end.

(** What follows the guard. *)
Definition host_audio_apply (event : AudioEvent) : M ApplyOutcome :=
  host_audio_guard event ;;;
  let! lifecycle := snap host_lifecycle in
  let playing := match event with PlaybackStateChanged PlaybackPlaying => true | _ => false end in
  if bool_decide (lifecycle = WaitingForListeners) && playing then
    let! outcome := apply_audio event in
    modify_snapshot (set_host_lifecycle Streaming) ;;;
    ret outcome
  else apply_audio_with_host_lifecycle event.

(** The recursive call of the source is on [PlaybackStateChanged(Playing)],
    which takes the second path. *)
Definition apply_audio_control (event : AudioEvent) : M ApplyOutcome :=
  let! role := snap selected_role in
  let! session := read host_session_id in
  if negb (bool_decide (role = Some RoleHost)) || bool_decide (session = None) then
    apply_audio_with_host_lifecycle event
  else
    let! state := snap playback_state in
    match event with
    | PositionAdvanced _ 0 =>
        if bool_decide (state = PlaybackBuffering) then
          fun self =>
            (* on a clone, committed when both steps succeed *)
            match (host_audio_apply (PlaybackStateChanged PlaybackPlaying) ;;; apply_audio event) self with
            | (candidate, Ok outcome) => (candidate, Ok outcome)
            | (_, Err error) => (self, Err error)
            end
        else host_audio_apply event
    | _ => host_audio_apply event
    end.

(** ** One input (mod.rs) *)

Definition apply_command (operation_id : rstr) (command : CoreCommand) : M ApplyOutcome :=
  match command with
  | SelectRole role => select_role operation_id role
  | UpdateHostDraft patch => update_host_draft operation_id patch
  | AppendHostQueue expected new_entries => append_host_queue operation_id expected new_entries
  | ReorderHostQueue expected ids => reorder_host_queue operation_id expected ids
  | RemoveHostQueueEntry expected id => remove_host_queue_entry operation_id expected id
  | ClearHostQueue expected => clear_host_queue operation_id expected
  | CreateHostSession => create_host_session operation_id
  | EndHostSession => end_host_session operation_id
  | StartDiscoveryCommand => start_discovery operation_id
  | StopDiscoveryCommand => stop_discovery operation_id
  | SelectSession session_id => select_session operation_id session_id
  | SubmitJoin _ => submit_join operation_id
  | CancelJoin => cancel_join operation_id
  | ExportDiagnostics => export_diagnostics
  | RetryRecoverableFailure => retry_recoverable operation_id
  | UpdateTuning patch => update_tuning operation_id patch
  | Shutdown =>
      modify_snapshot (set_shutting_down true) ;;;
      ret (mkApplyOutcome [] true true)
  | ApproveJoin request_id remember => approve_join operation_id request_id remember
  | RejectJoin request_id => reject_join operation_id request_id
  | RemoveListener listener_id => remove_listener operation_id listener_id
  | StartPlayback _ | PausePlayback | ResumePlayback | StopPlayback | SetLocalVolume _
  | RequestResync =>
      fail (invalid_state (lit "playback requires the shared packetizer and scheduler blocks")
              (Some operation_id))
  end.

Definition is_end_host_session (command : CoreCommand) : bool :=
  match command with EndHostSession => true | _ => false end.

(** [Command] arm of [apply]; admission commands go to the same handlers through
    [apply_command]. *)
Definition apply_command_request (operation_id : rstr) (request : CoreCommandRequest)
    : M ApplyOutcome :=
  let! revision := snap revision in
  ensure (negb (negb (request.(expected_revision) =? revision)
                && negb (is_end_host_session request.(command))))
    (invalid_state (lit "command expected snapshot revision " ++ to_decimal request.(expected_revision)
                    ++ lit ", but current revision is " ++ to_decimal revision)
       (Some operation_id)) ;;;
  apply_command operation_id request.(command).

Definition apply (input : CoreActorInput) : M ApplyOutcome :=
  match input with
  | InputCommand operation_id request => apply_command_request operation_id request
  | InputPlatform event => apply_platform event
  | InputTransport event =>
      match event with
      | TransportJoinRequested request => handle_join_request request
      | DeliveryCompleted operation_id report => complete_transport_delivery operation_id report
      | TransportStateChanged state => apply_transport_state state
      | event => apply_transport event
      end
  | InputAudio event => apply_audio_control event
  | InputStorage event =>
      let! pending := read (fun self =>
        find_pending (StorageEvent_operation_id event) self.(pending_storage)) in
      let tuning_completion := match pending with Some (PendingPersistTuning _) => true | _ => false end in
      let admission_completion :=
        match pending with Some (PendingPersistApprovalTrust _) => true | _ => false end
        || match event with
           | StorageOperationSucceeded _ (TrustedDeviceUpdated _) => true
           | _ => false
           end in
      if tuning_completion then apply_tuning_storage event
      else if admission_completion then apply_admission_storage event
      else apply_storage event
  end.

Record ProcessResult : Type := mkProcessResult {
  result_notifications : list CoreNotification;
  result_stop_requested : bool
}.

Definition process (self : ActorState) (input : CoreActorInput) : ActorState * ProcessResult :=
  let operation_id := input_operation_id input in
  match apply input self with
  | (candidate, Ok outcome) =>
      if outcome.(changed) then
        match checked_next candidate.(snapshot).(revision) with
        | Err _ =>
            (self, mkProcessResult
               [NotifyError (resource_limit (lit "snapshot revision overflow") operation_id)] true)
        | Ok revision =>
            let candidate := set_snapshot (set_revision revision candidate.(snapshot)) candidate in
            match CoreSnapshot_validate candidate.(snapshot) with
            | Err error =>
                (self, mkProcessResult
                   [NotifyError (invalid_argument (contract_error_text error) operation_id)] false)
            | Ok _ =>
                (candidate, mkProcessResult
                   (NotifySnapshot candidate.(snapshot) :: outcome.(notifications))
                   outcome.(stop_requested))
            end
        end
      else (candidate, mkProcessResult outcome.(notifications) outcome.(stop_requested))
  | (_, Err error) => (self, mkProcessResult [NotifyError error] false)
  end.

(** ** Boundary reservation (reservation.rs) *)

Definition reserve_track_boundary (self : ActorState) (stream_id entry_id : rstr)
    (first_sample_index : Z) : ActorState * result ProcessResult CoreError :=
  if negb (bool_decide (self.(active_audio_stream_id) = Some stream_id)) then
    (self, Err (invalid_state (lit "track boundary reservation does not match the active stream") None))
  else
    match apply_audio_control (TrackBoundaryScheduled entry_id first_sample_index) self with
    | (_, Err error) => (self, Err error)
    | (candidate, Ok outcome) =>
        if outcome.(changed) then
          match checked_next candidate.(snapshot).(revision) with
          | Err _ => (self, Err (resource_limit (lit "snapshot revision overflow") None))
          | Ok revision =>
              let candidate := set_snapshot (set_revision revision candidate.(snapshot)) candidate in
              match CoreSnapshot_validate candidate.(snapshot) with
              | Err error => (self, Err (invalid_argument (contract_error_text error) None))
              | Ok _ =>
                  (candidate, Ok (mkProcessResult
                     (NotifySnapshot candidate.(snapshot) :: outcome.(notifications))
                     outcome.(stop_requested)))
              end
          end
        else (candidate, Ok (mkProcessResult outcome.(notifications) outcome.(stop_requested)))
    end.
