(* ===== verification/ActorLemmas.v ===== *)
(** Reasoning principles for the actor's handlers: a weakest precondition for
    successful runs with one rule per primitive of the monad, the tactic that
    runs a handler symbolically, and what every handler has in common: it
    leaves the revision and the identity of the actor alone, emits no snapshot
    of its own, and an outcome that reports no change left the state as it was. *)
From Stdlib Require Import ZArith Lia Strings.String.
From stdpp Require Import numbers list prelude.
From S2P Require Import Prelude Utf8 Domain Decimal CoreErrors RuntimeTypes HostQueue Admission.
From S2P Require Import RuntimeRecords ActorState ActorHandlers.

(** ** Weakest preconditions *)

(** If the handler succeeds from [self], [Q] holds of its value and final state. *)
Definition wp {A : Type} (m : M A) (Q : A -> ActorState -> Prop) (self : ActorState) : Prop :=
  match m self with
  | (final, Ok a) => Q a final
  | (_, Err _) => True
  end.

Section Rules.
Context {A B : Type}.
Implicit Types (self : ActorState) (Q : A -> ActorState -> Prop).

Lemma wp_bind (m : M B) (f : B -> M A) Q self :
  wp m (fun b => wp (f b) Q) self -> wp (bind m f) Q self.
Proof. unfold wp, bind. by destruct (m self) as [s [b|e]]. Qed.

Lemma wp_ret (a : A) Q self : Q a self -> wp (ret a) Q self.
Proof. done. Qed.

Lemma wp_fail (e : CoreError) Q self : wp (fail e) Q self.
Proof. done. Qed.

Lemma wp_lift (r : result A CoreError) Q self : (forall a, r = Ok a -> Q a self) -> wp (lift r) Q self.
Proof. unfold wp, lift. destruct r; auto. Qed.

Lemma wp_read (f : ActorState -> A) Q self : Q (f self) self -> wp (read f) Q self.
Proof. done. Qed.

Lemma wp_snap (f : CoreSnapshot -> A) Q self : Q (f self.(snapshot)) self -> wp (snap f) Q self.
Proof. done. Qed.

Lemma wp_mono (m : M A) (P Q : A -> ActorState -> Prop) self :
  wp m P self -> (forall a s, P a s -> Q a s) -> wp m Q self.
Proof. unfold wp. destruct (m self) as [s [a|e]]; auto. Qed.

(** Commands that run on a clone. *)
Lemma wp_clone (m : M A) Q self :
  wp m Q self ->
  wp (fun self => match m self with
                  | (candidate, Ok outcome) => (candidate, Ok outcome)
                  | (_, Err error) => (self, Err error)
                  end) Q self.
Proof. unfold wp. by destruct (m self) as [s [a|e]]. Qed.

Lemma wp_ok (m : M A) Q self final a : wp m Q self -> m self = (final, Ok a) -> Q a final.
Proof. unfold wp. intros H E. by rewrite E in H. Qed.
End Rules.

Lemma wp_modify (f : ActorState -> ActorState) (Q : unit -> ActorState -> Prop) (self : ActorState) :
  Q tt (f self) -> wp (modify f) Q self.
Proof. done. Qed.

Lemma wp_modify_snapshot (f : CoreSnapshot -> CoreSnapshot) (Q : unit -> ActorState -> Prop)
    (self : ActorState) :
  Q tt (set_snapshot (f self.(snapshot)) self) -> wp (modify_snapshot f) Q self.
Proof. done. Qed.

(** The same rules on a state in normal form: the current snapshot over the
    rest of the state, each a chain of assignments. *)
Lemma wp_modify_snapshot_in (f : CoreSnapshot -> CoreSnapshot) (Q : unit -> ActorState -> Prop)
    (sn : CoreSnapshot) (st : ActorState) :
  Q tt (set_snapshot (f sn) st) -> wp (modify_snapshot f) Q (set_snapshot sn st).
Proof. done. Qed.

Lemma wp_modify_in (f : ActorState -> ActorState) (Q : unit -> ActorState -> Prop)
    (sn : CoreSnapshot) (st : ActorState) :
  f (set_snapshot sn st) = set_snapshot sn (f st) ->
  Q tt (set_snapshot sn (f st)) -> wp (modify f) Q (set_snapshot sn st).
Proof. unfold wp, modify. by intros ->. Qed.

Lemma wp_snap_in {A : Type} (f : CoreSnapshot -> A) (Q : A -> ActorState -> Prop)
    (sn : CoreSnapshot) (st : ActorState) :
  Q (f sn) (set_snapshot sn st) -> wp (snap f) Q (set_snapshot sn st).
Proof. done. Qed.

Lemma wp_ensure (b : bool) (e : CoreError) (Q : unit -> ActorState -> Prop) (self : ActorState) :
  (b = true -> Q tt self) -> wp (ensure b e) Q self.
Proof. unfold wp, ensure. destruct b; auto. Qed.

Lemma map_err_ok {A E F : Type} (f : E -> F) (r : result A E) (a : A) :
  map_err f r = Ok a -> r = Ok a.
Proof. destruct r; simpl; congruence. Qed.

Lemma ok_or_ok {A E : Type} (o : option A) (e : E) (a : A) : ok_or o e = Ok a -> o = Some a.
Proof. destruct o; simpl; congruence. Qed.

(** Evaluates the projections of assigned states and snapshots, and nothing else. *)
Ltac st_simpl :=
  cbn [
    revision selected_role capabilities host_draft host_queue host_queue_next_boundary
    host_lifecycle listener_lifecycle transport_state discovery_active discovered_sessions
    selected_session pending_join_requests listeners playback_state playback_position_ms
    stream_ended_naturally synchronization tuning last_delivery last_delivery_operation_id
    recoverable_action last_error shutting_down set_revision set_selected_role set_capabilities
    set_host_draft set_host_queue set_host_queue_next_boundary set_host_lifecycle
    set_listener_lifecycle set_transport_state set_discovery_active set_discovered_sessions
    set_selected_session set_pending_join_requests set_listeners set_playback_state
    set_playback_position_ms set_stream_ended_naturally set_synchronization set_tuning
    set_last_delivery set_last_delivery_operation_id set_recoverable_action set_last_error
    set_shutting_down snapshot local_device_id host_session_id active_audio_stream_id
    pending_host_boundaries retired_audio_stream_ids pending_platform pending_transport
    pending_storage next_effect_sequence next_session_sequence next_export_sequence
    session_id_namespace set_snapshot set_host_session_id set_active_audio_stream_id
    set_pending_host_boundaries set_retired_audio_stream_ids set_pending_platform
    set_pending_transport set_pending_storage set_next_effect_sequence set_next_session_sequence
    set_next_export_sequence set_draft_audio_source draft_session_name draft_approval_mode
    draft_invite_code draft_audio_source draft_remember_approved_devices
  ] in *.

Ltac get_head m := lazymatch m with ?f _ => get_head f | _ => m end.

(** One symbolic step of a handler. Tests are split, values obtained from a
    fallible computation come with the equation that it succeeded. *)
Ltac wp_step :=
  lazymatch goal with
  | |- wp (bind _ _) _ _ => apply wp_bind
  | |- wp (ret _) _ _ => apply wp_ret; cbv beta
  | |- wp (fail _) _ _ => apply wp_fail
  | |- wp (lift _) _ _ =>
      apply wp_lift; intros ? ?;
      repeat match goal with
      | H : map_err _ _ = Ok _ |- _ => apply map_err_ok in H
      | H : ok_or _ _ = Ok _ |- _ => apply ok_or_ok in H
      end; cbv beta
  | |- wp (read _) _ _ => apply wp_read; cbv beta
  | |- wp (snap _) _ (set_snapshot _ _) => apply wp_snap_in; cbv beta
  | |- wp (snap _) _ _ => apply wp_snap; cbv beta
  | |- wp (modify _) _ (set_snapshot _ _) => apply wp_modify_in; [reflexivity|]; cbv beta
  | |- wp (modify _) _ _ => apply wp_modify; cbv beta
  | |- wp (modify_snapshot _) _ (set_snapshot _ _) => apply wp_modify_snapshot_in; cbv beta
  | |- wp (modify_snapshot _) _ _ => apply wp_modify_snapshot; cbv beta
  | |- wp (ensure _ _) _ _ => apply wp_ensure; intros ?; cbv beta
  | |- wp (if ?b then _ else _) _ _ => destruct b eqn:?
  | |- wp (match ?x with _ => _ end) _ _ => destruct x eqn:?
  | |- wp (fun self => match _ self with (_, _) => _ end) _ _ => apply wp_clone
  | |- wp ?m _ _ =>
      let h := get_head m in unfold h; cbv beta zeta
  end.
Ltac wp_run := repeat wp_step.

(** ** Facts common to all handlers *)

Definition is_snapshot (n : CoreNotification) : bool :=
  match n with NotifySnapshot _ => true | _ => false end.

Record framed (self : ActorState) (o : ApplyOutcome) (final : ActorState) : Prop := mkFramed {
  framed_revision : final.(snapshot).(revision) = self.(snapshot).(revision);
  framed_device : final.(local_device_id) = self.(local_device_id);
  framed_namespace : final.(session_id_namespace) = self.(session_id_namespace);
  framed_snapshots : existsb is_snapshot o.(notifications) = false;
  framed_unchanged : o.(changed) = false -> final = self
}.

(** A filter that removes nothing is the identity. *)
Lemma filter_same_len {A : Type} (f : A -> bool) (l : list A) :
  len l = len (List.filter f l) -> List.filter f l = l.
Proof.
  assert (forall k : list A, len (List.filter f k) <= len k) as Hle.
  { induction k as [|x k IH]; simpl; [done|]. destruct (f x); rewrite !len_cons; lia. }
  induction l as [|x l IH]; simpl; [done|]. destruct (f x).
  - rewrite !len_cons. intros H. f_equal. apply IH. lia.
  - rewrite len_cons. specialize (Hle l). lia.
Qed.

Ltac frame_solve :=
  split; [reflexivity..|];
  let E := fresh in intros E; first [discriminate E | reflexivity].

Lemma select_role_frame (op : rstr) (role : AppRole) (self : ActorState) :
  wp (select_role op role) (framed self) self.
Proof. wp_run; frame_solve. Qed.

Lemma update_host_draft_frame (op : rstr) (patch : HostDraftPatch) (self : ActorState) :
  wp (update_host_draft op patch) (framed self) self.
Proof. wp_run; frame_solve. Qed.

Lemma record_listener_disconnect_frame (id : rstr) (error : option CoreError) (self : ActorState) :
  wp (record_listener_disconnect id error) (framed self) self.
Proof.
  wp_run; try frame_solve.
  - exfalso. to_prop. lia.
  - to_prop. split; [reflexivity..|]. intros _. unfold without_device_request in *.
    rewrite (filter_same_len _ (listeners _)), (filter_same_len _ (pending_join_requests _)) by done.
    by destruct self as [[]].
Qed.

Lemma expire_session_frame (id : rstr) (self : ActorState) :
  wp (expire_session id) (framed self) self.
Proof.
  wp_run; try frame_solve. to_prop. split; [reflexivity..|]. intros _.
  rewrite filter_same_len by done. by destruct self as [[]].
Qed.

Lemma apply_platform_success_frame (op : rstr) (c : PlatformOperationCompletion) (self : ActorState) :
  wp (apply_platform_success op c) (framed self) self.
Proof. wp_run; frame_solve. Qed.

Lemma handle_join_request_frame (r : JoinRequestSummary) (self : ActorState) :
  wp (handle_join_request r) (framed self) self.
Proof. wp_run; frame_solve. Qed.

Lemma complete_transport_delivery_frame (op : rstr) (report : DeliveryReport) (self : ActorState) :
  wp (complete_transport_delivery op report) (framed self) self.
Proof. wp_run; frame_solve. Qed.

Lemma apply_admission_storage_frame (ev : StorageEvent) (self : ActorState) :
  wp (apply_admission_storage ev) (framed self) self.
Proof. wp_run; frame_solve. Qed.

Lemma apply_tuning_storage_frame (ev : StorageEvent) (self : ActorState) :
  wp (apply_tuning_storage ev) (framed self) self.
Proof. wp_run; frame_solve. Qed.

Lemma apply_storage_frame (ev : StorageEvent) (self : ActorState) :
  wp (apply_storage ev) (framed self) self.
Proof. wp_run; frame_solve. Qed.

Lemma apply_command_frame (op : rstr) (cmd : CoreCommand) (self : ActorState) :
  wp (apply_command op cmd) (framed self) self.
Proof. wp_run; frame_solve. Qed.

Lemma apply_transport_state_frame (st : TransportState) (self : ActorState) :
  wp (apply_transport_state st) (framed self) self.
Proof. wp_run; frame_solve. Qed.

Lemma apply_platform_frame (e : PlatformEvent) (self : ActorState) :
  wp (apply_platform e) (framed self) self.
Proof.
  destruct e; cbn [apply_platform]; lazymatch goal with
  | |- wp (apply_platform_success _ _) _ _ => apply apply_platform_success_frame
  | |- wp (expire_session _) _ _ => apply expire_session_frame
  | _ => wp_run; frame_solve
  end.
Qed.

Lemma apply_transport_frame (e : TransportEvent) (self : ActorState) :
  wp (apply_transport e) (framed self) self.
Proof.
  destruct e; cbn [apply_transport]; lazymatch goal with
  | |- wp (record_listener_disconnect _ _) _ _ => apply record_listener_disconnect_frame
  | _ => wp_run; frame_solve
  end.
Qed.

(** Re-announcing a reserved boundary is the only audio event that changes nothing. *)
Definition reports_boundary (e : AudioEvent) : bool :=
  match e with TrackBoundaryScheduled _ _ => true | _ => false end.

Lemma apply_audio_frame (e : AudioEvent) (self : ActorState) :
  wp (apply_audio e) (fun o final => framed self o final
                        /\ (reports_boundary e = false -> o.(changed) = true)) self.
Proof. destruct e; cbn [reports_boundary]; wp_run; (split; [frame_solve|try done]). Qed.

(** Steps after an outcome that reported a change. *)
Lemma framed_then (self mid final : ActorState) (o : ApplyOutcome) :
  framed self o mid -> o.(changed) = true ->
  final.(snapshot).(revision) = mid.(snapshot).(revision) ->
  final.(local_device_id) = mid.(local_device_id) ->
  final.(session_id_namespace) = mid.(session_id_namespace) -> framed self o final.
Proof. intros [] Hc H1 H2 H3. split; congruence. Qed.

Lemma apply_audio_with_host_lifecycle_frame (e : AudioEvent) (self : ActorState) :
  wp (apply_audio_with_host_lifecycle e) (framed self) self.
Proof.
  unfold apply_audio_with_host_lifecycle. apply wp_bind. eapply wp_mono; [apply apply_audio_frame|].
  intros o mid [Hf Hc]. wp_run; try exact Hf;
    (eapply framed_then; [exact Hf|apply Hc; by destruct e|reflexivity..]).
Qed.

Lemma host_audio_guard_frame (e : AudioEvent) (self : ActorState) :
  wp (host_audio_guard e) (fun _ final => final = self) self.
Proof. wp_run; reflexivity. Qed.

Lemma host_audio_apply_frame (e : AudioEvent) (self : ActorState) :
  wp (host_audio_apply e) (framed self) self.
Proof.
  unfold host_audio_apply. apply wp_bind. eapply wp_mono; [apply host_audio_guard_frame|].
  intros _ s ->. apply wp_bind, wp_snap. cbv beta zeta.
  destruct (bool_decide _ && _) eqn:E; [|apply apply_audio_with_host_lifecycle_frame].
  apply wp_bind. eapply wp_mono; [apply apply_audio_frame|]. intros o mid [Hf Hc].
  wp_run. eapply framed_then; [exact Hf|apply Hc|reflexivity..].
  apply andb_true_iff in E as [_ E]. by destruct e.
Qed.

Lemma apply_audio_control_frame (e : AudioEvent) (self : ActorState) :
  wp (apply_audio_control e) (framed self) self.
Proof.
  unfold apply_audio_control. repeat (apply wp_bind; first [apply wp_snap | apply wp_read]; cbv beta).
  destruct (negb _ || _); [apply apply_audio_with_host_lifecycle_frame|].
  apply wp_bind, wp_snap. cbv beta.
  destruct e as [|stream [| |]| | | | | |]; try apply host_audio_apply_frame.
  destruct (bool_decide _); [|apply host_audio_apply_frame].
  apply wp_clone, wp_bind. eapply wp_mono; [apply host_audio_apply_frame|].
  intros o mid Hmid. eapply wp_mono; [apply apply_audio_frame|]. intros o' final [Hf Hc].
  specialize (Hc eq_refl). destruct Hmid, Hf. split; congruence.
Qed.

Lemma apply_command_request_frame (op : rstr) (request : CoreCommandRequest) (self : ActorState) :
  wp (apply_command_request op request) (framed self) self.
Proof.
  unfold apply_command_request. apply wp_bind, wp_snap. cbv beta. apply wp_bind, wp_ensure.
  intros _. apply apply_command_frame.
Qed.

Lemma apply_frame (input : CoreActorInput) (self : ActorState) : wp (apply input) (framed self) self.
Proof.
  destruct input as [op request|e|e|e|e]; cbn [apply].
  - apply apply_command_request_frame.
  - apply apply_platform_frame.
  - destruct e; lazymatch goal with
    | |- wp (handle_join_request _) _ _ => apply handle_join_request_frame
    | |- wp (complete_transport_delivery _ _) _ _ => apply complete_transport_delivery_frame
    | |- wp (apply_transport_state _) _ _ => apply apply_transport_state_frame
    | _ => apply apply_transport_frame
    end.
  - apply apply_audio_control_frame.
  - apply wp_bind, wp_read. cbv beta zeta. destruct (match _ with Some _ => _ | None => _ end);
      [apply apply_tuning_storage_frame|].
    destruct (_ || _); [apply apply_admission_storage_frame|apply apply_storage_frame].
Qed.
