(* ===== verification/ActorInvariant.v ===== *)
(** Histories of the runtime actor: the inputs and boundary reservations that
    reach it, how one of them commits, and the invariants every history keeps
    (the host's playlist and its reserved boundaries, the operations in flight,
    the playback stream). *)
From Stdlib Require Import ZArith Lia Strings.String Sorting.Sorted.
From stdpp Require Import numbers list prelude sorting.
From S2P Require Import Prelude Utf8 Domain Decimal CoreErrors RuntimeTypes HostQueue Admission.
From S2P Require Import RuntimeRecords ActorState ActorHandlers ActorLemmas.

(** ** Committing *)

Lemma set_snapshot_same (self : ActorState) (sn : CoreSnapshot) :
  self.(snapshot) = sn -> set_snapshot sn self = self.
Proof. intros <-. by destruct self. Qed.

(** The state and the notifications after one input: either nothing moved, or
    the handler's state was published under the next revision. *)
Inductive committed (self : ActorState) (handler : M ApplyOutcome)
    : ActorState -> list CoreNotification -> Prop :=
| CommittedNothing notes :
    existsb is_snapshot notes = false -> committed self handler self notes
| CommittedChange o s sn :
    handler self = (s, Ok o) -> o.(changed) = true ->
    existsb is_snapshot o.(notifications) = false ->
    sn = set_revision (self.(snapshot).(revision) + 1) s.(snapshot) ->
    sn.(revision) <= u64_max -> snapshot_valid sn ->
    committed self handler (set_snapshot sn s) (NotifySnapshot sn :: o.(notifications)).

Lemma process_commits (self : ActorState) (input : CoreActorInput) :
  committed self (apply input) (process self input).1
    (process self input).2.(result_notifications).
Proof.
  unfold process. pose proof (apply_frame input self) as Hf. unfold wp in Hf.
  destruct (apply input self) as [s [o|e]] eqn:E; [|by apply CommittedNothing].
  destruct Hf as [Hrev _ _ Hs Hun]. destruct (changed o) eqn:Ec.
  - destruct (checked_next _) as [r|] eqn:Er; [|by apply CommittedNothing].
    apply checked_next_ok in Er as [-> Hr].
    destruct (CoreSnapshot_validate _) as [[]|] eqn:Ev; [|by apply CommittedNothing].
    cbn [snapshot set_snapshot] in *.
    apply CoreSnapshot_validate_ok in Ev. rewrite Hrev in *.
    eapply CommittedChange; eauto.
  - rewrite (Hun eq_refl). by apply CommittedNothing.
Qed.

Definition reserve_notifications (r : result ProcessResult CoreError) : list CoreNotification :=
  match r with Ok r => r.(result_notifications) | Err _ => [] end.

Lemma reserve_commits (self : ActorState) (stream entry : rstr) (index : Z) :
  committed self (apply (InputAudio (TrackBoundaryScheduled entry index)))
    (reserve_track_boundary self stream entry index).1
    (reserve_notifications (reserve_track_boundary self stream entry index).2).
Proof.
  unfold reserve_track_boundary. destruct (negb _); [by apply CommittedNothing|].
  pose proof (apply_audio_control_frame (TrackBoundaryScheduled entry index) self) as Hf.
  unfold wp in Hf.
  destruct (apply_audio_control _ self) as [s [o|e]] eqn:E; [|by apply CommittedNothing].
  destruct Hf as [Hrev _ _ Hs Hun]. destruct (changed o) eqn:Ec.
  - destruct (checked_next _) as [r|] eqn:Er; [|by apply CommittedNothing].
    apply checked_next_ok in Er as [-> Hr].
    destruct (CoreSnapshot_validate _) as [[]|] eqn:Ev; [|by apply CommittedNothing].
    cbn [snapshot set_snapshot] in *.
    apply CoreSnapshot_validate_ok in Ev. rewrite Hrev in *.
    eapply CommittedChange; eauto.
  - rewrite (Hun eq_refl). by apply CommittedNothing.
Qed.

(** ** Histories *)

(** What reaches the actor: an input of its mailbox, or the packetizer's
    request for a track boundary. *)
Inductive ActorStep : Type :=
| StepInput (input : CoreActorInput)
| StepReserve (stream_id entry_id : rstr) (first_sample_index : Z).

Definition actor_step (self : ActorState) (step : ActorStep) : ActorState :=
  match step with
  | StepInput input => (process self input).1
  | StepReserve stream entry index => (reserve_track_boundary self stream entry index).1
  end.

Definition actor_notifications (self : ActorState) (step : ActorStep) : list CoreNotification :=
  match step with
  | StepInput input => (process self input).2.(result_notifications)
  | StepReserve stream entry index =>
      reserve_notifications (reserve_track_boundary self stream entry index).2
  end.

Definition actor_run (steps : list ActorStep) (self : ActorState) : ActorState :=
  fold_left actor_step steps self.

(** The machine-width and constructor guarantees of an input's data. *)
Definition source_ok (source : AudioSourceDescriptor) : Prop :=
  match source.(byte_length) with Some n => is_u64 n | None => True end.

Definition input_ok (input : CoreActorInput) : Prop :=
  match input with
  | InputCommand _ (mkCoreCommandRequest _ (AppendHostQueue _ new_entries)) =>
      Forall entry_ok new_entries
  | InputCommand _ (mkCoreCommandRequest _ (UpdateHostDraft patch)) =>
      match patch.(patch_audio_source) with SourceSet source => source_ok source | _ => True end
  | InputAudio (TrackBoundaryScheduled _ index) => 0 <= index
  | _ => True
  end.

Definition step_input (step : ActorStep) : CoreActorInput :=
  match step with
  | StepInput input => input
  | StepReserve _ entry index => InputAudio (TrackBoundaryScheduled entry index)
  end.
Definition step_ok (step : ActorStep) : Prop := input_ok (step_input step).

Lemma step_commits (self : ActorState) (step : ActorStep) :
  committed self (apply (step_input step)) (actor_step self step) (actor_notifications self step).
Proof. destruct step; [apply process_commits|apply reserve_commits]. Qed.

(** A property of the state that does not look at the revision is kept by a
    step when the handler keeps it. *)
Lemma step_keeps (I : ActorState -> Prop) (self : ActorState) (step : ActorStep) :
  (forall r s, I s -> I (set_snapshot (set_revision r s.(snapshot)) s)) ->
  wp (apply (step_input step)) (fun _ => I) self -> I self -> I (actor_step self step).
Proof.
  intros Hrev Hwp HI. destruct (step_commits self step) as [|o s sn E _ _ -> _ _]; [done|].
  apply Hrev. by eapply (wp_ok _ _ _ _ _ Hwp).
Qed.

Lemma run_keeps (I : ActorState -> Prop) (steps : list ActorStep) (self : ActorState) :
  (forall s step, step_ok step -> I s -> I (actor_step s step)) ->
  Forall step_ok steps -> I self -> I (actor_run steps self).
Proof.
  intros Hstep Hok. unfold actor_run. revert self.
  induction Hok as [|step steps ? ? IH]; intros self HI; simpl; auto.
Qed.

(** ** Case analysis on the input *)

Section Elim.
Context (Q : ApplyOutcome -> ActorState -> Prop) (self : ActorState).

Lemma apply_elim (input : CoreActorInput) :
  (forall op c, input = InputCommand op c -> wp (apply_command op c.(command)) Q self) ->
  (forall e, wp (apply_platform e) Q self) ->
  (forall r, wp (handle_join_request r) Q self) ->
  (forall op r, wp (complete_transport_delivery op r) Q self) ->
  (forall st, wp (apply_transport_state st) Q self) ->
  (forall e, wp (apply_transport e) Q self) ->
  (forall e, input = InputAudio e -> wp (apply_audio_control e) Q self) ->
  (forall e, wp (apply_tuning_storage e) Q self) ->
  (forall e, wp (apply_admission_storage e) Q self) ->
  (forall e, wp (apply_storage e) Q self) ->
  wp (apply input) Q self.
Proof.
  intros Hc Hp Hj Hd Hs Ht Ha Htu Had Hst. destruct input as [op request|e|e|e|e]; cbn [apply].
  - unfold apply_command_request. apply wp_bind, wp_snap. cbv beta. apply wp_bind, wp_ensure.
    intros _. by apply Hc.
  - apply Hp.
  - destruct e; [apply Hs|apply Hj|apply Ht|apply Ht|apply Hd|apply Ht..].
  - by apply Ha.
  - apply wp_bind, wp_read. cbv beta zeta. destruct (match _ with Some _ => _ | None => _ end);
      [apply Htu|].
    destruct (_ || _); [apply Had|apply Hst].
Qed.
End Elim.

(** The host's playback control composes [apply_audio] with assignments to the
    host lifecycle. *)
Section AudioElim.
Context (R : ActorState -> ActorState -> Prop) `{!PreOrder R}.
Context (Hlifecycle : forall l self,
  R self (set_snapshot (set_host_lifecycle l self.(snapshot)) self)).
Context (Haction : forall a self,
  R self (set_snapshot (set_recoverable_action a self.(snapshot)) self)).

Lemma audio_with_lifecycle_elim (e : AudioEvent) (self : ActorState) :
  wp (apply_audio e) (fun _ => R self) self ->
  wp (apply_audio_with_host_lifecycle e) (fun _ => R self) self.
Proof.
  intros H. unfold apply_audio_with_host_lifecycle. apply wp_bind. eapply wp_mono; [exact H|].
  intros o mid Hm. wp_run; try exact Hm; try (etrans; [exact Hm|apply Hlifecycle]).
  all: etrans; [exact Hm|]; etrans; [apply Hlifecycle|]; apply (Haction _ (set_snapshot _ _)).
Qed.

Lemma host_audio_apply_elim (e : AudioEvent) (self : ActorState) :
  wp (apply_audio e) (fun _ => R self) self -> wp (host_audio_apply e) (fun _ => R self) self.
Proof.
  intros H. unfold host_audio_apply. apply wp_bind. eapply wp_mono; [apply host_audio_guard_frame|].
  intros _ s ->. apply wp_bind, wp_snap. cbv beta zeta.
  destruct (bool_decide _ && _); [|by apply audio_with_lifecycle_elim].
  apply wp_bind. eapply wp_mono; [exact H|]. intros o mid Hm.
  wp_run. etrans; [exact Hm|apply Hlifecycle].
Qed.

Lemma audio_control_elim (e : AudioEvent) (self : ActorState) :
  (forall self', wp (apply_audio e) (fun _ => R self') self') ->
  (forall self', wp (apply_audio (PlaybackStateChanged PlaybackPlaying)) (fun _ => R self') self') ->
  wp (apply_audio_control e) (fun _ => R self) self.
Proof.
  intros He Hp. unfold apply_audio_control.
  repeat (apply wp_bind; first [apply wp_snap | apply wp_read]; cbv beta).
  destruct (negb _ || _); [by apply audio_with_lifecycle_elim|].
  apply wp_bind, wp_snap. cbv beta.
  destruct e as [|stream [| |]| | | | | |]; try by apply host_audio_apply_elim.
  destruct (bool_decide _); [|by apply host_audio_apply_elim].
  apply wp_clone, wp_bind. eapply wp_mono; [by apply host_audio_apply_elim|].
  intros o mid Hm. eapply wp_mono; [apply He|]. intros o' final Hf. etrans; [exact Hm|exact Hf].
Qed.
End AudioElim.

(** The same for an invariant. *)
Lemma audio_control_keeps (I : ActorState -> Prop) (e : AudioEvent) (self : ActorState) :
  (forall l s, I s -> I (set_snapshot (set_host_lifecycle l s.(snapshot)) s)) ->
  (forall a s, I s -> I (set_snapshot (set_recoverable_action a s.(snapshot)) s)) ->
  (forall s, I s -> wp (apply_audio e) (fun _ => I) s) ->
  (forall s, I s -> wp (apply_audio (PlaybackStateChanged PlaybackPlaying)) (fun _ => I) s) ->
  I self -> wp (apply_audio_control e) (fun _ => I) self.
Proof.
  intros Hl Ha He Hp HI.
  assert (forall e', (forall s, I s -> wp (apply_audio e') (fun _ => I) s) ->
    forall s, wp (apply_audio e') (fun _ s' => I s -> I s') s) as Hw.
  { intros e' H s. specialize (H s). unfold wp in *. destruct (apply_audio e' s) as [s' []]; auto. }
  assert (PreOrder (fun s s' => I s -> I s')) by (split; repeat intro; auto).
  eapply wp_mono; [apply (audio_control_elim (fun s s' => I s -> I s')); auto|]. simpl. auto.
Qed.
