(* ===== verification/ActorPlaylist.v ===== *)
(** The host's playlist inside the runtime actor: the queue, its legacy alias in
    the host draft, and the track boundaries reserved by the packetizer stay
    coherent whatever reaches the actor, and editing the playlist while it plays
    never disturbs a reserved boundary. *)
From Stdlib Require Import ZArith Lia Strings.String Sorting.Sorted.
From stdpp Require Import numbers list prelude sorting.
From S2P Require Import Prelude Utf8 Domain Decimal CoreErrors RuntimeTypes HostQueue Admission.
From S2P Require Import RuntimeRecords ActorState ActorHandlers ActorLemmas ActorInvariant.

(** ** The coherence invariant *)

Record coherent (q : HostQueue) (source : option AudioSourceDescriptor)
    (boundaries : list HostQueueBoundary) (next : option HostQueueBoundary) : Prop := mkCoherent {
  co_queue : queue_wf q;
  co_source : source = option_map entry_source (queue_current q);
  co_reserved : map hb_entry_id boundaries `prefix_of` map entry_id (upcoming q);
  co_samples : StronglySorted Z.lt (0 :: map hb_first_sample_index boundaries);
  co_next : next = head boundaries
}.

Definition playlist_ok (self : ActorState) : Prop :=
  coherent self.(snapshot).(host_queue) self.(snapshot).(host_draft).(draft_audio_source)
    self.(pending_host_boundaries) self.(snapshot).(host_queue_next_boundary).

Lemma queue_default_wf : queue_wf HostQueue_default.
Proof.
  split; [split|]; simpl; try done; try constructor. intros e1 e2 H. by apply elem_of_nil in H.
Qed.

Lemma boundaries_mismatch_prefix (boundaries : list HostQueueBoundary) (ids : list rstr) :
  boundaries_mismatch boundaries ids = false <-> map hb_entry_id boundaries `prefix_of` ids.
Proof.
  revert ids. induction boundaries as [|b boundaries IH]; intros ids; simpl.
  { split; [|done]. intros _. apply prefix_nil. }
  destruct ids as [|id ids]; [split; [done|]; by intros ?%prefix_nil_inv|].
  rewrite orb_false_iff, negb_false_iff, bool_decide_eq_true, IH. split.
  - intros [-> H]. by apply prefix_cons.
  - intros H. split; [by eapply eq_sym, prefix_cons_inv_1|by eapply prefix_cons_inv_2].
Qed.

(** No reservations: any well-formed queue is coherent. *)
Lemma coherent_fresh (q : HostQueue) (source : option AudioSourceDescriptor) :
  queue_wf q -> source = option_map entry_source (queue_current q) -> coherent q source [] None.
Proof. intros. split; try done; [apply prefix_nil|repeat constructor]. Qed.

(** A new queue under the reservations of the old one. *)
Lemma coherent_requeue (q q' : HostQueue) (s s' : option AudioSourceDescriptor)
    (bs : list HostQueueBoundary) (next : option HostQueueBoundary) :
  coherent q s bs next -> queue_wf q' -> s' = option_map entry_source (queue_current q') ->
  boundaries_mismatch bs (map entry_id (upcoming q')) = false -> coherent q' s' bs next.
Proof. intros [] ? ? H%boundaries_mismatch_prefix. by split. Qed.

(** Reserving the boundary of the next unreserved track. *)
Lemma coherent_reserve (q : HostQueue) (s : option AudioSourceDescriptor)
    (bs : list HostQueueBoundary) (next : option HostQueueBoundary) (e : QueueEntry) (index : Z) :
  coherent q s bs next -> upcoming q !! length bs = Some e -> 0 <= index ->
  (index =? 0) || match last bs with Some p => index <=? p.(hb_first_sample_index) | None => false end
    = false ->
  let bs' := bs ++ [mkHostQueueBoundary e.(entry_id) index] in
  coherent q s bs' (head bs').
Proof.
  intros [Hq Hs [k Hp] Hsort Hn] He Hi Hlast bs'. apply orb_false_iff in Hlast as [H0 Hlast]. to_prop.
  split; try done; unfold bs'; rewrite map_app; simpl.
  - exists (tail k). rewrite Hp, <- (assoc_L (++)). f_equal.
    assert (map entry_id (upcoming q) !! length bs = Some (entry_id e)) as Hl.
    { by rewrite list_lookup_fmap, He. }
    rewrite Hp, lookup_app_r in Hl by (by rewrite length_map).
    rewrite length_map, Nat.sub_diag in Hl. destruct k as [|x k]; simpl in *; [done|].
    by injection Hl as ->.
  - rewrite app_comm_cons. apply StronglySorted_app_2; [|done|repeat constructor].
    intros x y Hx ->%list_elem_of_singleton.
    destruct bs as [|b bs _] using rev_ind; simpl in *.
    { apply list_elem_of_singleton in Hx as ->. lia. }
    rewrite last_snoc in Hlast. to_prop. rewrite map_app, app_comm_cons in Hx, Hsort.
    apply elem_of_app in Hx as [Hx| ->%list_elem_of_singleton]; [|lia].
    pose proof (StronglySorted_app_1_elem_of Z.lt _ _ x (hb_first_sample_index b) Hsort Hx) as H.
    simpl in H. rewrite list_elem_of_singleton in H. specialize (H eq_refl). lia.
Qed.

(** Crossing the first reserved boundary. *)
Lemma coherent_advance (q q' : HostQueue) (s : option AudioSourceDescriptor)
    (bs : list HostQueueBoundary) (next : option HostQueueBoundary) (r : Z) :
  coherent q s bs next -> complete_current q r = Ok q' ->
  coherent q' (option_map entry_source (queue_current q')) (tail bs) (head (tail bs)).
Proof.
  intros [Hq Hs Hp Hsort Hn] H. pose proof (queue_op_ok q q' (OpCompleteCurrent r) Hq I H) as [Hq' _].
  unfold complete_current in H. ok_step H. case_bool_decide; [done|]. ok_step H. injection H as <-.
  split; try done.
  - unfold upcoming in *. destruct (entries q) as [|e es]; [done|]. simpl in *. destruct bs as [|b bs]; [apply prefix_nil|].
    destruct es as [|e' es]; [by apply prefix_nil_inv in Hp|]. by eapply prefix_cons_inv_2.
  - destruct bs as [|b bs]; [done|]. simpl in *.
    apply StronglySorted_cons in Hsort as [Hall [Hb Hsort]%StronglySorted_cons].
    apply StronglySorted_cons. apply Forall_cons in Hall as [? Hall]. done.
Qed.

(** ** Every handler keeps it *)

Lemma playlist_same (self final : ActorState) :
  final.(snapshot).(host_queue) = self.(snapshot).(host_queue) ->
  final.(snapshot).(host_draft).(draft_audio_source)
    = self.(snapshot).(host_draft).(draft_audio_source) ->
  final.(pending_host_boundaries) = self.(pending_host_boundaries) ->
  final.(snapshot).(host_queue_next_boundary) = self.(snapshot).(host_queue_next_boundary) ->
  playlist_ok self -> playlist_ok final.
Proof. unfold playlist_ok. by intros -> -> -> ->. Qed.

Lemma playlist_fresh (self : ActorState) :
  queue_wf self.(snapshot).(host_queue) ->
  self.(snapshot).(host_draft).(draft_audio_source)
    = option_map entry_source (queue_current self.(snapshot).(host_queue)) ->
  self.(pending_host_boundaries) = [] -> self.(snapshot).(host_queue_next_boundary) = None ->
  playlist_ok self.
Proof. unfold playlist_ok. intros ? ? -> ->. by apply coherent_fresh. Qed.

(** The assignments of a handler left the playlist alone. *)
Ltac playlist_kept Hinv := apply (playlist_same _ _ eq_refl eq_refl eq_refl eq_refl Hinv).

(** An unlocked clear empties the queue. *)
Lemma clear_unlocked (q q' : HostQueue) (r : Z) :
  queue_wf q -> clear q r false = Ok q' -> queue_wf q' /\ queue_current q' = None.
Proof.
  intros Hq H. split; [by apply (queue_op_ok q q' (OpClear r false))|]. unfold clear in H. ok_step H.
  unfold queue_current. destruct (_ =? _)%nat eqn:E.
  - injection H as <-. apply Nat.eqb_eq in E. by destruct (entries q).
  - ok_step H. by injection H as <-.
Qed.

Lemma apply_audio_playlist (e : AudioEvent) (self : ActorState) :
  input_ok (InputAudio e) -> playlist_ok self -> wp (apply_audio e) (fun _ => playlist_ok) self.
Proof.
  intros Hok Hinv. pose proof (co_queue _ _ _ _ Hinv) as Hq. pose proof (co_source _ _ _ _ Hinv) as Hs.
  destruct e; wp_run; try playlist_kept Hinv; try by apply playlist_fresh.
  - eapply coherent_advance; [exact Hinv|done].
  - match goal with H : bool_decide (_ = entry_id) = true |- _ =>
      apply bool_decide_eq_true in H; subst entry_id end.
    eapply coherent_reserve; [exact Hinv|done|exact Hok|]. by apply negb_true_iff.
  - apply clear_unlocked in H2 as [? Hc]; [|done]. apply coherent_fresh; cbn; [done|by rewrite Hc].
  - apply clear_unlocked in H2 as [? Hc]; [|done]. apply coherent_fresh; cbn; [done|by rewrite Hc].
  - apply clear_unlocked in H2 as [? Hc]; [|done]. apply coherent_fresh; cbn; [done|by rewrite Hc].
Qed.

Lemma audio_control_playlist (e : AudioEvent) (self : ActorState) :
  input_ok (InputAudio e) -> playlist_ok self ->
  wp (apply_audio_control e) (fun _ => playlist_ok) self.
Proof.
  intros Hok Hinv. apply audio_control_keeps; try done; intros s Hs; by apply apply_audio_playlist.
Qed.

(** Replacing the queue by the draft's new source. *)
Lemma replace_all_entries (q q' : HostQueue) (r : Z) (es : list QueueEntry) :
  queue_wf q -> Forall entry_ok es -> replace_all q r es = Ok q' -> queue_wf q' /\ q'.(entries) = es.
Proof.
  intros Hq Hes H. split; [by apply (queue_op_ok q q' (OpReplaceAll r es))|].
  apply replace_all_exact in H as (_ & _ & [[-> ->]|(_ & _ & ->)]); done.
Qed.

Lemma patched_source (d d' : HostDraft) (patch : HostDraftPatch) :
  patched d patch = Ok d' ->
  d'.(draft_audio_source) = match patch.(patch_audio_source) with
                            | SourceUnchanged => d.(draft_audio_source)
                            | SourceSet source => Some source
                            | SourceClear => None
                            end.
Proof. unfold patched. intros H. ok_steps H. by injection H as <-. Qed.

Lemma QueueEntry_new_ok (id : rstr) (source : AudioSourceDescriptor) (e : QueueEntry) :
  QueueEntry_new id source = Ok e -> e = mkQueueEntry id source.
Proof. unfold QueueEntry_new. by destruct (_ || _); intros [= <-]. Qed.

(** A queue installed under the reservations of the old one, with the
    reservations it contradicts dropped. *)
Ltac install Hinv Hwf :=
  first [ eapply coherent_requeue; [exact Hinv|exact Hwf| |eassumption] | apply coherent_fresh; [exact Hwf|] ].

Lemma update_host_draft_playlist (op : rstr) (patch : HostDraftPatch) (self : ActorState) :
  match patch.(patch_audio_source) with SourceSet source => source_ok source | _ => True end ->
  playlist_ok self -> wp (update_host_draft op patch) (fun _ => playlist_ok) self.
Proof.
  intros Hok Hinv. pose proof (co_queue _ _ _ _ Hinv) as Hq. pose proof (co_source _ _ _ _ Hinv) as Hs.
  wp_run; repeat match goal with
  | H : patched _ _ = Ok _ |- _ => apply patched_source in H
  | H : QueueEntry_new _ _ = Ok _ |- _ => apply QueueEntry_new_ok in H; subst
  end.
  all: try match goal with
  | H : replace_all _ _ ?es = Ok ?q |- _ =>
      apply replace_all_entries in H as [Hwf Hes]; [install Hinv Hwf; cbn; unfold queue_current;
        rewrite Hes; simpl; congruence|done|]
  end.
  1,2: apply Forall_singleton; destruct (patch_audio_source patch); to_prop;
    simplify_eq/=; try congruence; exact Hok.
  1,2: constructor.
  destruct Hinv. split; cbn; try done. to_prop. congruence.
Qed.

Lemma apply_command_playlist (op : rstr) (request : CoreCommandRequest) (self : ActorState) :
  input_ok (InputCommand op request) -> playlist_ok self ->
  wp (apply_command op request.(command)) (fun _ => playlist_ok) self.
Proof.
  intros Hok Hinv. pose proof (co_queue _ _ _ _ Hinv) as Hq.
  destruct request as [r c]. destruct c; cbn [command apply_command]; try solve [wp_run; playlist_kept Hinv].
  - by apply update_host_draft_playlist.
  - wp_run; match goal with H : append _ ?r ?es = Ok ?q |- _ =>
      apply (queue_op_ok _ q (OpAppend r es) Hq Hok) in H as [Hwf _]; by install Hinv Hwf end.
  - wp_run; match goal with H : reorder _ ?r ?es ?l = Ok ?q |- _ =>
      apply (queue_op_ok _ q (OpReorder r es l) Hq I) in H as [Hwf _]; by install Hinv Hwf end.
  - wp_run; match goal with H : remove _ ?r ?id ?l = Ok ?q |- _ =>
      apply (queue_op_ok _ q (OpRemove r id l) Hq I) in H as [Hwf _]; by install Hinv Hwf end.
  - wp_run; match goal with H : clear _ ?r ?l = Ok ?q |- _ =>
      apply (queue_op_ok _ q (OpClear r l) Hq I) in H as [Hwf _]; by install Hinv Hwf end.
Qed.

(** The other handlers leave the playlist alone or reset it with the session. *)
Lemma apply_platform_success_playlist (op : rstr) (c : PlatformOperationCompletion) (self : ActorState) :
  playlist_ok self -> wp (apply_platform_success op c) (fun _ => playlist_ok) self.
Proof.
  intros Hinv. pose proof (co_queue _ _ _ _ Hinv). pose proof (co_source _ _ _ _ Hinv).
  wp_run; first [playlist_kept Hinv | by apply playlist_fresh
                | apply playlist_fresh; [apply queue_default_wf|reflexivity..]].
Qed.

Lemma apply_platform_playlist (e : PlatformEvent) (self : ActorState) :
  playlist_ok self -> wp (apply_platform e) (fun _ => playlist_ok) self.
Proof.
  intros Hinv. destruct e; cbn [apply_platform]; lazymatch goal with
  | |- wp (apply_platform_success _ _) _ _ => by apply apply_platform_success_playlist
  | _ => wp_run; playlist_kept Hinv
  end.
Qed.

Lemma apply_transport_playlist (e : TransportEvent) (self : ActorState) :
  playlist_ok self -> wp (apply_transport e) (fun _ => playlist_ok) self.
Proof. intros Hinv. destruct e; wp_run; playlist_kept Hinv. Qed.

Lemma apply_playlist (input : CoreActorInput) (self : ActorState) :
  input_ok input -> playlist_ok self -> wp (apply input) (fun _ => playlist_ok) self.
Proof.
  intros Hok Hinv. apply apply_elim.
  - intros op c ->. by apply apply_command_playlist.
  - intros e. by apply apply_platform_playlist.
  - intros r. wp_run; playlist_kept Hinv.
  - intros op r. wp_run; playlist_kept Hinv.
  - intros st. wp_run; playlist_kept Hinv.
  - intros e. by apply apply_transport_playlist.
  - intros e ->. by apply audio_control_playlist.
  - intros e. wp_run; playlist_kept Hinv.
  - intros e. wp_run; playlist_kept Hinv.
  - intros e. wp_run; playlist_kept Hinv.
Qed.

Lemma actor_step_playlist (self : ActorState) (step : ActorStep) :
  step_ok step -> playlist_ok self -> playlist_ok (actor_step self step).
Proof. intros Hok Hinv. apply step_keeps; [done|by apply apply_playlist|done]. Qed.

Lemma initial_playlist (device : rstr) (namespace : option rstr) :
  playlist_ok (new_with_session_id_namespace device namespace).
Proof. apply coherent_fresh; [apply queue_default_wf|done]. Qed.

(** ** Edits under a running playlist *)

Definition is_queue_edit (c : CoreCommand) : bool :=
  match c with
  | AppendHostQueue _ _ | ReorderHostQueue _ _ | RemoveHostQueueEntry _ _ | ClearHostQueue _ => true
  | _ => false
  end.

(** The states in which the current track is locked. *)
Definition playback_locked (s : CoreSnapshot) : bool :=
  one_of s.(playback_state) [PlaybackPlaying; PlaybackPaused; PlaybackBuffering; Underrun].

Lemma prefix_of_upcoming_append (bs : list HostQueueBoundary) (q q' : HostQueue) (r : Z)
    (es : list QueueEntry) :
  queue_wf q -> Forall entry_ok es -> map hb_entry_id bs `prefix_of` map entry_id (upcoming q) ->
  append q r es = Ok q' -> map hb_entry_id bs `prefix_of` map entry_id (upcoming q').
Proof.
  intros Hq Hes Hp H. apply append_exact in H as (_ & [[_ ->]|(_ & _ & _ & ->)]); [done| |done|done].
  unfold upcoming in *. cbn [entries]. destruct (entries q) as [|e l]; simpl in *.
  - apply prefix_nil_inv in Hp as ->. apply prefix_nil.
  - rewrite map_app. by apply prefix_app_r.
Qed.

Lemma prefix_of_upcoming_reorder (bs : list HostQueueBoundary) (q q' : HostQueue) (r : Z)
    (ids : list rstr) (locked : bool) :
  queue_wf q -> map hb_entry_id bs `prefix_of` tail ids ->
  reorder q r ids locked = Ok q' -> map hb_entry_id bs `prefix_of` map entry_id (upcoming q').
Proof.
  intros Hq Hp H. apply reorder_exact in H as (_ & _ & es & _ & <- & H); [|done].
  assert (entries q' = es) as <- by (destruct H as [[-> ->]|(_ & _ & ->)]; done).
  unfold upcoming. by destruct (entries q').
Qed.

(** Where a locked removal finds its entry. *)
Lemma remove_locked (q q' : HostQueue) (r : Z) (id : rstr) :
  remove q r id true = Ok q' ->
  exists e l i x, q.(entries) = e :: l /\ q'.(entries) = e :: delete i l
                  /\ l !! i = Some x /\ x.(entry_id) = id.
Proof.
  unfold remove. intros H. ok_step H.
  pose proof (position_spec (fun e => bool_decide (entry_id e = id)) (entries q)) as Hp.
  destruct (position _ _) as [[|i]|]; [done| |done]. destruct Hp as (x & Hi & Hx).
  ok_steps H. injection H as <-. destruct (entries q) as [|e l]; [done|].
  exists e, l, i, x. apply bool_decide_eq_true in Hx. done.
Qed.

Lemma prefix_of_upcoming_remove (bs : list HostQueueBoundary) (q q' : HostQueue) (r : Z) (id : rstr) :
  existsb (fun b => bool_decide (b.(hb_entry_id) = id)) bs = false ->
  map hb_entry_id bs `prefix_of` map entry_id (upcoming q) ->
  remove q r id true = Ok q' -> map hb_entry_id bs `prefix_of` map entry_id (upcoming q').
Proof.
  intros Hno [k Hk] (e & l & i & x & Hq & Hq' & Hi & Hx)%remove_locked.
  unfold upcoming in *. rewrite Hq in Hk. rewrite Hq'. simpl in *.
  assert (map entry_id l !! i = Some id) as Hid by (by rewrite list_lookup_fmap, Hi; simpl; rewrite Hx).
  rewrite Hk in Hid. apply lookup_app_Some in Hid as [Hid|[Hlen Hid]].
  { apply list_elem_of_lookup_2, list_elem_of_fmap in Hid as (b & -> & Hb). exfalso.
    assert (existsb (fun b' => bool_decide (hb_entry_id b' = hb_entry_id b)) bs = true); [|congruence].
    apply existsb_exists. exists b. split; [by apply list_elem_of_In|by apply bool_decide_eq_true]. }
  pose proof (list_fmap_delete entry_id l i) as Hd. rewrite (delete_take_drop (entry_id <$> l)) in Hd.
  change (entry_id <$> l) with (map entry_id l) in Hd. rewrite Hk, take_app_ge in Hd by done.
  rewrite <- (assoc_L (++)) in Hd. eexists. exact Hd.
Qed.

(** Distinct identifiers: equal ones name the same entry. *)
Lemma entry_id_inj (es : list QueueEntry) (e e' : QueueEntry) :
  NoDup (map entry_id es) -> e ∈ es -> e' ∈ es -> e.(entry_id) = e'.(entry_id) -> e = e'.
Proof.
  intros Hnd [i Hi]%list_elem_of_lookup [j Hj]%list_elem_of_lookup Hid.
  assert (i = j) as ->; [|congruence]. eapply NoDup_lookup; [exact Hnd| |]; rewrite list_lookup_fmap.
  - by rewrite Hi.
  - rewrite Hj. simpl. by rewrite Hid.
Qed.

Lemma reorder_locked_current (q q' : HostQueue) (r : Z) (ids : list rstr) (e : QueueEntry) :
  queue_wf q -> reorder q r ids true = Ok q' -> queue_current q = Some e -> queue_current q' = Some e.
Proof.
  intros Hq H He. apply reorder_exact in H as (_ & Hhead & es & Hp & Hids & H); [|done].
  specialize (Hhead eq_refl). rewrite He in Hhead. simpl in Hhead.
  assert (entries q' = es) as Hes by (destruct H as [[-> ->]|(_ & _ & ->)]; done).
  unfold queue_current in *. rewrite Hes. destruct es as [|e' es]; [by subst|].
  simpl in *. subst ids. injection Hhead as Hid. f_equal.
  apply (entry_id_inj (entries q)); [exact (wf_ids _ (proj1 Hq))| | |done].
  - rewrite <- Hp. apply list_elem_of_here.
  - destruct (entries q); [done|]. injection He as ->. apply list_elem_of_here.
Qed.

Lemma clear_locked_current (q q' : HostQueue) (r : Z) (e : QueueEntry) :
  clear q r true = Ok q' -> queue_current q = Some e -> queue_current q' = Some e.
Proof.
  unfold clear, queue_current. intros H He. ok_step H. destruct (_ =? _)%nat; [by injection H as <-|].
  ok_step H. injection H as <-. destruct (entries q); [done|]. case_bool_decide; done.
Qed.

Lemma append_current (q q' : HostQueue) (r : Z) (es : list QueueEntry) (e : QueueEntry) :
  queue_wf q -> Forall entry_ok es -> append q r es = Ok q' -> queue_current q = Some e ->
  queue_current q' = Some e.
Proof.
  intros Hq Hes H He. apply append_exact in H as (_ & [[_ ->]|(_ & _ & _ & ->)]); [done| |done|done].
  unfold queue_current in *. by destruct (entries q).
Qed.

(** What an edit of the running playlist leaves alone. *)
Definition reservations_kept (self final : ActorState) : Prop :=
  final.(pending_host_boundaries) = self.(pending_host_boundaries)
  /\ forall e, queue_current self.(snapshot).(host_queue) = Some e ->
              queue_current final.(snapshot).(host_queue) = Some e.

(** The reservations that the new queue contradicts: none. *)
Ltac no_mismatch lemma :=
  exfalso; match goal with H : boundaries_mismatch _ _ = true |- _ =>
    apply (Bool.eq_true_false_abs _ H), boundaries_mismatch_prefix; eapply lemma; eauto end.

Lemma queue_edit_keeps (op : rstr) (request : CoreCommandRequest) (self : ActorState) :
  input_ok (InputCommand op request) -> playlist_ok self ->
  is_queue_edit request.(command) = true -> playback_locked self.(snapshot) = true ->
  wp (apply_command op request.(command)) (fun _ => reservations_kept self) self.
Proof.
  intros Hok [Hq _ Hp _ _] He Hl. unfold playback_locked in Hl.
  destruct request as [r c]. destruct c; try discriminate He; cbn [command apply_command]; wp_run;
    try rewrite Hl in *.
  - no_mismatch prefix_of_upcoming_append.
  - split; [done|]. intros e. by eapply append_current.
  - no_mismatch prefix_of_upcoming_reorder. by apply boundaries_mismatch_prefix, negb_true_iff.
  - split; [done|]. intros e. by eapply reorder_locked_current.
  - no_mismatch prefix_of_upcoming_remove. by apply negb_true_iff.
  - split; [done|]. intros e. 
    match goal with H : remove _ _ _ true = Ok _ |- _ => apply remove_locked in H as (e' & l & i & x & Hes & Hes' & _) end.
    unfold queue_current. cbn. by rewrite Hes, Hes'.
  - to_prop. split; [done|]. intros e. by eapply clear_locked_current.
Qed.

(** ** Properties *)

(** C10. Playlist coherence: after any history of commands, platform, transport,
    audio and storage events and boundary reservations, the host's queue is well
    formed, the audio source of the legacy draft is the queue's current track,
    the reserved boundaries are those of the next tracks in queue order at
    positive, strictly increasing sample indices, and the boundary shown in the
    snapshot is the first reserved one. *)
Theorem playlist_stays_coherent (device : rstr) (namespace : option rstr) (steps : list ActorStep) :
  Forall step_ok steps ->
  playlist_ok (actor_run steps (new_with_session_id_namespace device namespace)).
Proof.
  intros Hok. apply run_keeps; [|done|apply initial_playlist]. intros. by apply actor_step_playlist.
Qed.

(** Editing a running playlist: in any reachable state in which the current
    track is locked (playing, paused, buffering or starved), appending,
    reordering, removing or clearing leaves every reserved boundary as it was
    and the track that is playing in front, whether the edit is accepted or
    refused. *)
Lemma edits_keep_reservations (device : rstr) (namespace : option rstr) (steps : list ActorStep)
    (op : rstr) (request : CoreCommandRequest) :
  Forall step_ok steps -> step_ok (StepInput (InputCommand op request)) ->
  is_queue_edit request.(command) = true ->
  let self := actor_run steps (new_with_session_id_namespace device namespace) in
  playback_locked self.(snapshot) = true ->
  reservations_kept self (actor_step self (StepInput (InputCommand op request))).
Proof.
  intros Hsteps Hok He self Hl.
  assert (playlist_ok self) as Hinv.
  { apply run_keeps; [intros; by apply actor_step_playlist|done|apply initial_playlist]. }
  pose proof (step_commits self (StepInput (InputCommand op request))) as Hc.
  destruct Hc as [|o s sn E _ _ -> _ _]; [by split|].
  assert (reservations_kept self s) as []; [|by split].
  eapply (wp_ok (apply (InputCommand op request)) (fun _ => reservations_kept self)); [|exact E].
  cbn [apply]. unfold apply_command_request. apply wp_bind, wp_snap. cbv beta. apply wp_bind, wp_ensure.
  intros _. by apply queue_edit_keeps.
Qed.

(** ** Witnesses *)

(** A host queues three tracks, playback starts, and the packetizer reserves the
    boundary of the second track. *)
Definition sample_command (revision : Z) (c : CoreCommand) : ActorStep :=
  StepInput (InputCommand (lit "op") (mkCoreCommandRequest revision c)).

Definition sample_history : list ActorStep :=
  [sample_command 0 (SelectRole RoleHost);
   sample_command 1 (AppendHostQueue 0 [sample_entry 97; sample_entry 98; sample_entry 99]);
   StepInput (InputAudio (PlaybackStateChanged PlaybackPlaying));
   StepInput (InputAudio (PositionAdvanced (lit "stream") 0));
   StepReserve (lit "stream") [98] 48000].

Lemma sample_history_ok : Forall step_ok sample_history.
Proof. by repeat (apply Forall_cons; split). Qed.

Lemma playlist_stays_coherent_witness :
  Forall step_ok sample_history
  /\ playlist_ok (actor_run sample_history (new_with_session_id_namespace (lit "device") None))
  /\ (actor_run sample_history
       (new_with_session_id_namespace (lit "device") None)).(pending_host_boundaries)
     = [mkHostQueueBoundary [98] 48000].
Proof.
  split; [exact sample_history_ok|split; [|by vm_compute]].
  apply playlist_stays_coherent, sample_history_ok.
Defined.

(** Removing the third track under the reservation of the second. *)
Lemma edits_keep_reservations_witness :
  let self := actor_run sample_history (new_with_session_id_namespace (lit "device") None) in
  reservations_kept self (actor_step self (sample_command 5 (RemoveHostQueueEntry 1 [99])))
  /\ map entry_id (entries (host_queue (snapshot
       (actor_step self (sample_command 5 (RemoveHostQueueEntry 1 [99])))))) = [[97]; [98]].
Proof.
  split; [|by vm_compute].
  apply edits_keep_reservations; [exact sample_history_ok|done|reflexivity|by vm_compute].
Defined.
