(* ===== verification/ActorEffects.v ===== *)
(** The operations the actor has in flight: every effect it issues has an
    identifier of its own for the life of the actor, at most 128 are pending at
    a time, and a completion is accepted at most once. *)
From Stdlib Require Import ZArith Lia Strings.String.
From stdpp Require Import numbers list prelude.
From S2P Require Import Prelude Utf8 Domain Decimal CoreErrors RuntimeTypes HostQueue Admission.
From S2P Require Import RuntimeRecords ActorState ActorHandlers ActorLemmas ActorInvariant ActorPlaylist.

(** ** Identifiers in flight *)

(** [format!("effect-{sequence}")]. *)
Definition effect_id (k : Z) : rstr := lit "effect-" ++ to_decimal k.

Definition effect_ids (self : ActorState) : list rstr :=
  map fst self.(pending_platform) ++ map fst self.(pending_transport) ++ map fst self.(pending_storage).

Lemma effect_id_inj (j k : Z) : is_u64 j -> is_u64 k -> effect_id j = effect_id k -> j = k.
Proof. intros Hj Hk H. apply app_inv_head in H. by apply to_decimal_inj in H. Qed.

(** [ids] are in flight and [next] is the next sequence number. *)
Record ids_ok (ids : list rstr) (next : Z) : Prop := mkIdsOk {
  ids_distinct : NoDup ids;
  ids_issued : forall id, id ∈ ids -> exists k, 1 <= k < next /\ id = effect_id k;
  ids_bounded : len ids <= MAX_PENDING_EFFECT_OPERATIONS;
  ids_next : 1 <= next <= u64_max
}.

(** What a step does to them: it only issues identifiers never used before. *)
Record ids_step (ids : list rstr) (next : Z) (ids' : list rstr) (next' : Z) : Prop := mkIdsStep {
  is_next : next <= next';
  is_fresh : forall id, id ∈ ids' -> id ∈ ids \/ exists k, next <= k < next' /\ id = effect_id k;
  is_ok : ids_ok ids next -> ids_ok ids' next'
}.

Lemma ids_ok_sub (ids ids' : list rstr) (next : Z) :
  ids' ⊆+ ids -> ids_ok ids next -> ids_ok ids' next.
Proof.
  intros Hsub []. split; [| | |done].
  - apply submseteq_Permutation in Hsub as [k Hk]. rewrite Hk in ids_distinct0.
    by apply NoDup_app in ids_distinct0 as [].
  - intros id Hid. apply ids_issued0. by eapply elem_of_submseteq.
  - apply submseteq_length in Hsub. unfold len in *. lia.
Qed.

Lemma ids_step_sub (ids ids' : list rstr) (next : Z) : ids' ⊆+ ids -> ids_step ids next ids' next.
Proof.
  intros Hsub. split; [lia| |by apply ids_ok_sub]. intros id Hid. left. by eapply elem_of_submseteq.
Qed.

(** Issuing one effect after dropping some. *)
Lemma ids_step_issue (ids kept ids' : list rstr) (next : Z) :
  kept ⊆+ ids -> ids' ≡ₚ effect_id next :: kept -> len kept < MAX_PENDING_EFFECT_OPERATIONS ->
  next + 1 <= u64_max -> ids_step ids next ids' (next + 1).
Proof.
  intros Hsub Hp Hlen Hmax. split; [lia| |].
  - intros id Hid. rewrite Hp in Hid. apply elem_of_cons in Hid as [->|Hid].
    + right. exists next. split; [lia|done].
    + left. by eapply elem_of_submseteq.
  - intros Hok. pose proof (ids_ok_sub _ _ _ Hsub Hok) as [Hnd Hiss Hb Hn]. split.
    + rewrite Hp. apply NoDup_cons. split; [|done]. intros (k & Hk & E)%Hiss.
      apply effect_id_inj in E; unfold_ints; lia.
    + intros id Hid. rewrite Hp in Hid. apply elem_of_cons in Hid as [->|Hid].
      * exists next. split; [lia|done].
      * apply Hiss in Hid as (k & Hk & ->). exists k. split; [lia|done].
    + unfold len in *. rewrite Hp. simpl length. lia.
    + lia.
Qed.

Definition effects_step (self final : ActorState) : Prop :=
  ids_step (effect_ids self) self.(next_effect_sequence)
    (effect_ids final) final.(next_effect_sequence).

Definition effects_ok (self : ActorState) : Prop :=
  ids_ok (effect_ids self) self.(next_effect_sequence).

Lemma effects_step_trans (s1 s2 s3 : ActorState) :
  effects_step s1 s2 -> effects_step s2 s3 -> effects_step s1 s3.
Proof.
  intros [Hn1 Hf1 Ho1] [Hn2 Hf2 Ho2]. split; [lia| |auto].
  intros id [Hid|(k & Hk & ->)]%Hf2; [|right; exists k; split; [lia|done]].
  apply Hf1 in Hid as [Hid|(k & Hk & ->)]; [by left|]. right. exists k. split; [lia|done].
Qed.

(** ** Assignments of the handlers *)

Lemma drop_pending_sub {A : Type} (id : rstr) (l : list (rstr * A)) :
  map fst (drop_pending id l) ⊆+ map fst l.
Proof.
  induction l as [|[x a] l IH]; simpl; [done|]. case_bool_decide; simpl.
  - by apply submseteq_cons.
  - by apply submseteq_skip.
Qed.

Lemma filter_pending_sub {A : Type} (f : rstr * A -> bool) (l : list (rstr * A)) :
  map fst (List.filter f l) ⊆+ map fst l.
Proof.
  induction l as [|x l IH]; simpl; [done|]. destruct (f x); simpl.
  - by apply submseteq_skip.
  - by apply submseteq_cons.
Qed.

Lemma map_fst_snoc {A : Type} (l : list (rstr * A)) (id : rstr) (a : A) :
  map fst (l ++ [(id, a)]) = map fst l ++ [id].
Proof. by rewrite map_app. Qed.

Lemma effects_kept (self final : ActorState) :
  final.(next_effect_sequence) = self.(next_effect_sequence) ->
  map fst final.(pending_platform) ⊆+ map fst self.(pending_platform) ->
  map fst final.(pending_transport) ⊆+ map fst self.(pending_transport) ->
  map fst final.(pending_storage) ⊆+ map fst self.(pending_storage) ->
  effects_step self final.
Proof.
  unfold effects_step. intros -> HP HT HS. apply ids_step_sub. by repeat apply submseteq_app.
Qed.

(** One effect issued on top of the operations [P], [T] and [S] kept in flight. *)
Section Issued.
Context (self final : ActorState) (P : list (rstr * PendingPlatformOperation))
  (T : list (rstr * PendingTransportOperation)) (S : list (rstr * PendingStorageOperation)) (id : rstr)
  (n : Z).
Context (Hn : final.(next_effect_sequence) = n)
  (Hnext : checked_add u64_max self.(next_effect_sequence) 1 = Some n)
  (Hid : identifier_new IdOperation (lit "effect-" ++ to_decimal self.(next_effect_sequence)) = Ok id)
  (Hcap : negb (MAX_PENDING_EFFECT_OPERATIONS <=? len P + len T + len S) = true)
  (HP : map fst P ⊆+ map fst self.(pending_platform))
  (HT : map fst T ⊆+ map fst self.(pending_transport))
  (HS : map fst S ⊆+ map fst self.(pending_storage)).

Lemma effects_issued :
  effect_ids final ≡ₚ id :: map fst P ++ map fst T ++ map fst S -> effects_step self final.
Proof.
  intros Hp. unfold effects_step. rewrite Hn. unfold checked_add in Hnext.
  destruct (_ <=? u64_max) eqn:E; [|done]. injection Hnext as <-. to_prop.
  unfold identifier_new in Hid. destruct (validate_identifier _ _); [|done]. injection Hid as <-.
  eapply ids_step_issue; [|exact Hp| |done].
  - by repeat apply submseteq_app.
  - unfold len in *. rewrite !length_app, !length_map. lia.
Qed.

Lemma effects_issued_platform (p : PendingPlatformOperation) :
  final.(pending_platform) = P ++ [(id, p)] -> final.(pending_transport) = T ->
  final.(pending_storage) = S -> effects_step self final.
Proof.
  intros H1 H2 H3. apply effects_issued. unfold effect_ids. rewrite H1, H2, H3, map_fst_snoc.
  rewrite <- (assoc_L (++)). symmetry. apply Permutation_middle.
Qed.

Lemma effects_issued_transport (p : PendingTransportOperation) :
  final.(pending_platform) = P -> final.(pending_transport) = T ++ [(id, p)] ->
  final.(pending_storage) = S -> effects_step self final.
Proof.
  intros H1 H2 H3. apply effects_issued. unfold effect_ids. rewrite H1, H2, H3, map_fst_snoc.
  rewrite <- (assoc_L (++) (map fst T)), (assoc_L (++)). simpl. rewrite <- Permutation_middle.
  by rewrite <- (assoc_L (++)).
Qed.

Lemma effects_issued_storage (p : PendingStorageOperation) :
  final.(pending_platform) = P -> final.(pending_transport) = T ->
  final.(pending_storage) = S ++ [(id, p)] -> effects_step self final.
Proof.
  intros H1 H2 H3. apply effects_issued. unfold effect_ids. rewrite H1, H2, H3, map_fst_snoc.
  rewrite !(assoc_L (++)). symmetry. apply Permutation_cons_append.
Qed.
End Issued.

Ltac effects_sub :=
  first [ reflexivity | apply drop_pending_sub | apply filter_pending_sub | apply submseteq_nil_l ].
Ltac effects_issue lemma :=
  eapply lemma; [ | | | | | | | reflexivity.. ];
  [ reflexivity
  | match goal with H : checked_add _ (next_effect_sequence _) _ = Some _ |- _ => exact H end
  | match goal with H : identifier_new IdOperation _ = Ok _ |- _ => exact H end
  | match goal with H : negb (MAX_PENDING_EFFECT_OPERATIONS <=? _) = true |- _ => exact H end
  | effects_sub | effects_sub | effects_sub ].
Ltac effects_solve :=
  first [ apply effects_kept; [reflexivity|effects_sub..]
        | effects_issue effects_issued_platform | effects_issue effects_issued_transport
        | effects_issue effects_issued_storage ].

Lemma apply_command_effects (op : rstr) (c : CoreCommand) (self : ActorState) :
  wp (apply_command op c) (fun _ => effects_step self) self.
Proof. destruct c; wp_run; effects_solve. Qed.

Lemma apply_platform_effects (e : PlatformEvent) (self : ActorState) :
  wp (apply_platform e) (fun _ => effects_step self) self.
Proof. destruct e; wp_run; effects_solve. Qed.

Lemma apply_transport_effects (e : TransportEvent) (self : ActorState) :
  wp (apply_transport e) (fun _ => effects_step self) self.
Proof. destruct e; wp_run; effects_solve. Qed.

Lemma handle_join_request_effects (r : JoinRequestSummary) (self : ActorState) :
  wp (handle_join_request r) (fun _ => effects_step self) self.
Proof. wp_run; effects_solve. Qed.

Lemma complete_transport_delivery_effects (op : rstr) (r : DeliveryReport) (self : ActorState) :
  wp (complete_transport_delivery op r) (fun _ => effects_step self) self.
Proof. wp_run; effects_solve. Qed.

Lemma apply_admission_storage_effects (e : StorageEvent) (self : ActorState) :
  wp (apply_admission_storage e) (fun _ => effects_step self) self.
Proof. wp_run; effects_solve. Qed.

Lemma apply_audio_effects (e : AudioEvent) (self : ActorState) :
  wp (apply_audio e) (fun _ => effects_step self) self.
Proof. destruct e; wp_run; effects_solve. Qed.

#[export] Instance effects_step_preorder : PreOrder effects_step.
Proof. split; [intros s; by apply ids_step_sub|intros ? ? ?; apply effects_step_trans]. Qed.

Lemma apply_effects (input : CoreActorInput) (self : ActorState) :
  wp (apply input) (fun _ => effects_step self) self.
Proof.
  apply apply_elim.
  - intros op c _. apply apply_command_effects.
  - intros e. apply apply_platform_effects.
  - intros r. apply handle_join_request_effects.
  - intros op r. apply complete_transport_delivery_effects.
  - intros st. wp_run; effects_solve.
  - intros e. apply apply_transport_effects.
  - intros e _. apply (audio_control_elim effects_step); intros;
      first [apply apply_audio_effects | effects_solve].
  - intros e. wp_run; effects_solve.
  - intros e. apply apply_admission_storage_effects.
  - intros e. wp_run; effects_solve.
Qed.

Lemma actor_step_effects (self : ActorState) (step : ActorStep) :
  effects_step self (actor_step self step).
Proof.
  destruct (step_commits self step) as [|o s sn E _ _ -> _ _]; [reflexivity|].
  pose proof (wp_ok _ _ _ _ _ (apply_effects (step_input step) self) E) as H. exact H.
Qed.

Lemma actor_run_effects (steps : list ActorStep) (self : ActorState) :
  effects_step self (actor_run steps self).
Proof.
  unfold actor_run. revert self. induction steps as [|step steps IH]; intros self; simpl; [reflexivity|].
  etrans; [apply actor_step_effects|apply IH].
Qed.

Lemma initial_effects (device : rstr) (namespace : option rstr) :
  effects_ok (new_with_session_id_namespace device namespace).
Proof.
  split; cbn; [constructor|intros id H; by apply elem_of_nil in H|done|].
  unfold u64_max. lia.
Qed.

(** ** Completions *)

(** The operation a platform or transport completion answers. *)
Definition completes (input : CoreActorInput) : option rstr :=
  match input with
  | InputPlatform (PlatformOperationSucceeded id _ | PlatformOperationFailed id _) => Some id
  | InputTransport (DeliveryCompleted id _) => Some id
  | _ => None
  end.

Lemma find_pending_in {A : Type} (id : rstr) (l : list (rstr * A)) (a : A) :
  find_pending id l = Some a -> id ∈ map fst l.
Proof.
  induction l as [|[x b] l IH]; simpl; [done|]. case_bool_decide as E; intros H.
  - subst. apply list_elem_of_here.
  - apply list_elem_of_further. auto.
Qed.

Lemma find_pending_notin {A : Type} (id : rstr) (l : list (rstr * A)) :
  id ∉ map fst l -> find_pending id l = None.
Proof.
  intros H. destruct (find_pending id l) eqn:E; [|done]. by apply find_pending_in in E.
Qed.

Lemma drop_pending_perm {A : Type} (id : rstr) (l : list (rstr * A)) :
  id ∈ map fst l -> map fst l ≡ₚ id :: map fst (drop_pending id l).
Proof.
  induction l as [|[x a] l IH]; simpl; [by intros ?%elem_of_nil|]. case_bool_decide as E; simpl.
  - by rewrite E.
  - intros [->|H]%elem_of_cons; [done|]. rewrite (IH H) at 1. apply Permutation_swap.
Qed.

(** An operation taken out of flight is in flight no more. *)
Lemma consumed (self final : ActorState) (id : rstr) :
  effects_ok self -> id :: effect_ids final ⊆+ effect_ids self ->
  id ∈ effect_ids self /\ id ∉ effect_ids final.
Proof.
  intros Hok Hsub. split; [eapply elem_of_submseteq; [apply list_elem_of_here|done]|].
  pose proof (ids_distinct _ _ (ids_ok_sub _ _ _ Hsub Hok)) as H. by apply NoDup_cons in H as [].
Qed.

Lemma consumed_platform (self final : ActorState) (id : rstr) (p : PendingPlatformOperation) :
  effects_ok self -> find_pending id self.(pending_platform) = Some p ->
  final.(pending_platform) = drop_pending id self.(pending_platform) ->
  map fst final.(pending_transport) ⊆+ map fst self.(pending_transport) ->
  map fst final.(pending_storage) ⊆+ map fst self.(pending_storage) ->
  id ∈ effect_ids self /\ id ∉ effect_ids final.
Proof.
  intros Hok Hf HP HT HS. apply consumed; [done|]. unfold effect_ids. rewrite HP.
  rewrite (drop_pending_perm id (pending_platform self)) by (by eapply find_pending_in). simpl.
  apply submseteq_skip. by repeat apply submseteq_app.
Qed.

Lemma consumed_transport (self final : ActorState) (id : rstr) (p : PendingTransportOperation) :
  effects_ok self -> find_pending id self.(pending_transport) = Some p ->
  final.(pending_transport) = drop_pending id self.(pending_transport) ->
  map fst final.(pending_platform) ⊆+ map fst self.(pending_platform) ->
  map fst final.(pending_storage) ⊆+ map fst self.(pending_storage) ->
  id ∈ effect_ids self /\ id ∉ effect_ids final.
Proof.
  intros Hok Hf HT HP HS. apply consumed; [done|]. unfold effect_ids. rewrite HT.
  rewrite (drop_pending_perm id (pending_transport self)) by (by eapply find_pending_in).
  rewrite <- app_comm_cons, <- (Permutation_middle (map fst (pending_platform self))). apply submseteq_skip.
  by repeat apply submseteq_app.
Qed.

Lemma completion_consumes (self : ActorState) (input : CoreActorInput) (id : rstr) :
  effects_ok self -> completes input = Some id ->
  wp (apply input) (fun _ s => id ∈ effect_ids self /\ id ∉ effect_ids s) self.
Proof.
  intros Hok Hc. destruct input as [|e|e| |]; try done; destruct e; try done; injection Hc as <-;
    cbn [apply apply_platform].
  - wp_run; (eapply consumed_platform; [done|eassumption|reflexivity|effects_sub|effects_sub]).
  - wp_run; (eapply consumed_platform; [done|eassumption|reflexivity|effects_sub|effects_sub]).
  - wp_run; (eapply consumed_transport; [done|eassumption|reflexivity|effects_sub|effects_sub]).
Qed.

Lemma completion_refused (self : ActorState) (input : CoreActorInput) (id : rstr) :
  completes input = Some id -> id ∉ effect_ids self ->
  exists error, process self input = (self, mkProcessResult [NotifyError error] false).
Proof.
  intros Hc Hid. unfold effect_ids in Hid. rewrite !elem_of_app in Hid.
  assert (exists s error, apply input self = (s, Err error)) as (s & error & E);
    [|exists error; unfold process; by rewrite E].
  destruct input as [|e|e| |]; try done; destruct e; try done; injection Hc as ->;
    cbn [apply apply_platform]; unfold apply_platform_success, apply_platform_failure,
      complete_transport_delivery, remove_pending, remove_pending_transport, bind, read, modify, ret, lift.
  all: rewrite find_pending_notin by tauto; do 2 eexists; reflexivity.
Qed.

(** ** Properties *)

(** C40. Operations in flight: after any history, the effects awaiting completion
    have pairwise distinct identifiers, each the one issued under some earlier
    sequence number, and there are at most 128 of them. *)
Theorem effects_in_flight_are_distinct (device : rstr) (namespace : option rstr)
    (steps : list ActorStep) :
  let self := actor_run steps (new_with_session_id_namespace device namespace) in
  ids_ok (effect_ids self) self.(next_effect_sequence).
Proof. apply (is_ok _ _ _ _ (actor_run_effects steps _)), initial_effects. Qed.

(** C17. At most one completion: once a platform or transport completion of an
    effect has changed the actor's state, no later completion of the same effect,
    successful or failed and whatever happened in between, is accepted: it leaves
    the state as it is and is answered with a single error. *)
Theorem completion_is_consumed_once (device : rstr) (namespace : option rstr)
    (steps later : list ActorStep) (input again : CoreActorInput) (id : rstr) :
  let self := actor_run steps (new_with_session_id_namespace device namespace) in
  let after := actor_step self (StepInput input) in
  completes input = Some id -> completes again = Some id -> after <> self ->
  exists error, process (actor_run later after) again
                = (actor_run later after, mkProcessResult [NotifyError error] false).
Proof.
  intros self after Hi Ha Hne.
  assert (effects_ok self) as Hok by apply (is_ok _ _ _ _ (actor_run_effects steps _)), initial_effects.
  assert (id ∈ effect_ids self /\ id ∉ effect_ids after) as [Hin Hout].
  { unfold after in *. destruct (step_commits self (StepInput input)) as [|o s sn E _ _ -> _ _]; [done|].
    exact (wp_ok _ _ _ _ _ (completion_consumes self input id Hok Hi) E). }
  apply (completion_refused _ _ id Ha). intros Hid.
  apply (is_fresh _ _ _ _ (actor_run_effects later after)) in Hid as [Hid|(k & Hk & ->)]; [done|].
  pose proof (actor_step_effects self (StepInput input)) as Hstep. fold after in Hstep.
  pose proof (is_ok _ _ _ _ Hstep Hok) as [_ _ _ Hmax].
  pose proof (is_ok _ _ _ _ (actor_run_effects later after) (is_ok _ _ _ _ Hstep Hok)) as [_ _ _ Hmax'].
  apply (ids_issued _ _ Hok) in Hin as (j & Hj & E). pose proof (is_next _ _ _ _ Hstep).
  apply effect_id_inj in E; unfold_ints; lia.
Qed.

(** ** Witnesses *)

(** A listener starts scanning; the platform reports success, then failure. *)
Lemma completion_is_consumed_once_witness :
  let start := [sample_command 0 (SelectRole RoleListener); sample_command 1 StartDiscoveryCommand] in
  let self := actor_run start (new_with_session_id_namespace (lit "device") None) in
  let done_ := InputPlatform (PlatformOperationSucceeded (effect_id 1) DiscoveryStarted) in
  let after := actor_step self (StepInput done_) in
  after.(snapshot).(listener_lifecycle) = Scanning
  /\ exists error, process (actor_run [] after) done_
                  = (actor_run [] after, mkProcessResult [NotifyError error] false).
Proof.
  intros start self done_ after. split; [by vm_compute|].
  apply (completion_is_consumed_once (lit "device") None start [] done_ done_ (effect_id 1));
    [reflexivity|reflexivity|].
  intros E%(f_equal (fun s => s.(snapshot).(listener_lifecycle))). by vm_compute in E.
Defined.
