(* ===== verification/ActorProofs.v ===== *)
(** What the runtime actor promises to the shell and to its peers: transactional
    processing, a gap-free sequence of valid snapshots, approvals only where the
    policy allows them, and settings that follow durable storage. Also two
    listener histories the handlers leave stuck. *)
From Stdlib Require Import ZArith Lia Strings.String.
From stdpp Require Import numbers list prelude.
From S2P Require Import Prelude Utf8 Domain Decimal CoreErrors RuntimeTypes HostQueue Admission.
From S2P Require Import RuntimeRecords ActorState ActorHandlers ActorLemmas ActorInvariant ActorPlaylist.

(** ** Published snapshots *)

Definition snapshot_of (n : CoreNotification) : option CoreSnapshot :=
  match n with NotifySnapshot s => Some s | _ => None end.

(** The snapshots the shell receives over a history, in order. *)
Fixpoint published (self : ActorState) (steps : list ActorStep) : list CoreSnapshot :=
  match steps with
  | [] => []
  | step :: rest =>
      omap snapshot_of (actor_notifications self step) ++ published (actor_step self step) rest
  end.

Lemma no_snapshot (notes : list CoreNotification) :
  existsb is_snapshot notes = false -> omap snapshot_of notes = [].
Proof.
  induction notes as [|n notes IH]; simpl; [done|]. intros [H1 H2]%orb_false_iff.
  by destruct n; [|apply IH..].
Qed.

(** ** Outcomes of the audio control *)

Lemma audio_control_outcome (P : ApplyOutcome -> Prop) (e : AudioEvent) (self : ActorState) :
  (forall e s, wp (apply_audio e) (fun o _ => P o) s) ->
  wp (apply_audio_control e) (fun o _ => P o) self.
Proof.
  intros H.
  assert (forall e s, wp (apply_audio_with_host_lifecycle e) (fun o _ => P o) s) as Hl.
  { intros e' s. unfold apply_audio_with_host_lifecycle. apply wp_bind.
    eapply wp_mono; [apply H|]. intros o mid Hp. wp_run; exact Hp. }
  assert (forall e s, wp (host_audio_apply e) (fun o _ => P o) s) as Ha.
  { intros e' s. unfold host_audio_apply. apply wp_bind. eapply wp_mono; [apply host_audio_guard_frame|].
    intros _ ? ->. apply wp_bind, wp_snap. cbv beta zeta. destruct (bool_decide _ && _); [|apply Hl].
    apply wp_bind. eapply wp_mono; [apply H|]. intros o mid Hp. wp_run; exact Hp. }
  unfold apply_audio_control. repeat (apply wp_bind; first [apply wp_snap | apply wp_read]; cbv beta).
  destruct (negb _ || _); [apply Hl|]. apply wp_bind, wp_snap. cbv beta.
  destruct e as [|stream [| |]| | | | | |]; try apply Ha.
  destruct (bool_decide _); [|apply Ha]. apply wp_clone, wp_bind.
  eapply wp_mono; [apply Ha|]. intros o mid _. apply H.
Qed.

(** ** Approvals *)

(** An approval the transport is asked to deliver: request, session, device and
    whether it promises durable trust. *)
Record Approval : Type := mkApproval {
  ap_request : rstr;
  ap_session : rstr;
  ap_device : rstr;
  ap_trusted : bool
}.

Definition approval_of (n : CoreNotification) : option Approval :=
  match n with
  | NotifyTransportEffect (mkTransportEffect _ (DeliverJoinApproval request session device trusted)) =>
      Some (mkApproval request session device trusted)
  | _ => None
  end.

(** What licenses an approval: the trusted-devices policy on the incoming
    request, the host's decision on a pending idle request, or the storage
    answer to the trust record of such a decision. *)
Inductive authorized (self : ActorState) (a : Approval) : CoreActorInput -> Prop :=
| AuthorizedPolicy request :
    a.(ap_request) = request.(jr_request_id) -> a.(ap_device) = request.(jr_device_id) ->
    self.(snapshot).(host_draft).(draft_approval_mode) = TrustedDevices ->
    request.(jr_trust_state) = Trusted -> a.(ap_trusted) = true ->
    authorized self a (InputTransport (TransportJoinRequested request))
| AuthorizedHost op expected request remember :
    request ∈ self.(snapshot).(pending_join_requests) ->
    a.(ap_request) = request.(jr_request_id) -> a.(ap_device) = request.(jr_device_id) ->
    existsb (fun p => transport_concerns a.(ap_request) p.2) self.(pending_transport) = false ->
    existsb (fun p => storage_concerns a.(ap_request) p.2) self.(pending_storage) = false ->
    (a.(ap_trusted) = true <-> request.(jr_trust_state) = Trusted) ->
    authorized self a (InputCommand op
      (mkCoreCommandRequest expected (ApproveJoin a.(ap_request) remember)))
| AuthorizedCommitted op persistence :
    find_pending op self.(pending_storage) = Some (PendingPersistApprovalTrust persistence) ->
    a.(ap_request) = persistence.(tp_request_id) -> a.(ap_device) = persistence.(tp_device_id) ->
    a.(ap_trusted) = true ->
    authorized self a (InputStorage (StorageOperationSucceeded op (TrustedDeviceUpdated a.(ap_device))))
| AuthorizedFailed op persistence error :
    find_pending op self.(pending_storage) = Some (PendingPersistApprovalTrust persistence) ->
    a.(ap_request) = persistence.(tp_request_id) -> a.(ap_device) = persistence.(tp_device_id) ->
    a.(ap_trusted) = false ->
    authorized self a (InputStorage (StorageOperationFailed op error)).

(** Every approval among the notifications is licensed by the input and
    addressed within the active session. *)
Definition approvals_authorized (self : ActorState) (input : CoreActorInput)
    (notes : list CoreNotification) : Prop :=
  forall a, a ∈ omap approval_of notes ->
    self.(host_session_id) = Some a.(ap_session) /\ authorized self a input.

Definition quiet (o : ApplyOutcome) : Prop := omap approval_of o.(notifications) = [].

Lemma quiet_authorized (self : ActorState) (input : CoreActorInput) (o : ApplyOutcome) :
  quiet o -> approvals_authorized self input o.(notifications).
Proof. unfold quiet, approvals_authorized. intros -> a H. by apply elem_of_nil in H. Qed.

Lemma TransportEffect_new_ok (op : rstr) (r : TransportEffectRequest) (e : TransportEffect) :
  TransportEffect_new op r = Ok e -> e = mkTransportEffect op r.
Proof. unfold TransportEffect_new. intros H. ok_step H. by injection H as <-. Qed.

(** Runs a handler that approves nothing. *)
Ltac run_quiet := wp_run;
  repeat match goal with H : TransportEffect_new _ _ = Ok _ |- _ =>
    apply TransportEffect_new_ok in H; subst end; reflexivity.

Lemma apply_audio_quiet (e : AudioEvent) (self : ActorState) :
  wp (apply_audio e) (fun o _ => quiet o) self.
Proof. destruct e; run_quiet. Qed.

Lemma apply_platform_quiet (e : PlatformEvent) (self : ActorState) :
  wp (apply_platform e) (fun o _ => quiet o) self.
Proof. destruct e; run_quiet. Qed.

Lemma apply_transport_quiet (e : TransportEvent) (self : ActorState) :
  wp (apply_transport e) (fun o _ => quiet o) self.
Proof. destruct e; run_quiet. Qed.

Lemma apply_command_quiet (op : rstr) (c : CoreCommand) (self : ActorState) :
  match c with ApproveJoin _ _ => False | _ => True end ->
  wp (apply_command op c) (fun o _ => quiet o) self.
Proof. intros Hc. destruct c; try done; run_quiet. Qed.

(** The approval a request is answered with when the host accepts it. *)
Lemma prepared_delivery (request : JoinRequestSummary) (remember : bool) (d : ApprovalDelivery) :
  prepare_explicit_approval request remember = Deliver d ->
  d.(del_request_id) = request.(jr_request_id) /\ d.(del_device_id) = request.(jr_device_id)
  /\ (d.(del_trusted_for_future) = true <-> request.(jr_trust_state) = Trusted).
Proof.
  unfold prepare_explicit_approval. destruct (_ && _); [done|]. intros [= <-]. cbn.
  by rewrite bool_decide_eq_true.
Qed.

(** Reads off the approvals among a handler's notifications. *)
Ltac run_approvals := wp_run;
  repeat match goal with H : TransportEffect_new _ _ = Ok _ |- _ =>
    apply TransportEffect_new_ok in H; subst end;
  let a := fresh "a" in let Ha := fresh "Ha" in intros a Ha; cbn in Ha;
  first [ by apply elem_of_nil in Ha
        | apply list_elem_of_singleton in Ha as ->; cbn [ap_session]; split; [assumption|] ].

Lemma approve_join_authorized (op : rstr) (expected : Z) (id : rstr) (remember : bool)
    (self : ActorState) :
  wp (approve_join op id remember)
    (fun o _ => approvals_authorized self
       (InputCommand op (mkCoreCommandRequest expected (ApproveJoin id remember))) o.(notifications))
    self.
Proof.
  run_approvals.
  match goal with H : find _ _ = Some ?r |- _ => apply find_some in H as [Hin Hid] end.
  match goal with H : prepare_explicit_approval _ _ = _ |- _ =>
    apply prepared_delivery in H as (Hr & Hd & Ht) end.
  match goal with H : negb (existsb _ _ || _) = true |- _ =>
    apply negb_true_iff, orb_false_iff in H as [Htp Hsp] end.
  apply bool_decide_eq_true in Hid. subst id. rewrite <- Hr in *.
  eapply AuthorizedHost; cbn; eauto. by apply list_elem_of_In.
Qed.

Lemma handle_join_request_authorized (request : JoinRequestSummary) (self : ActorState) :
  wp (handle_join_request request)
    (fun o _ => approvals_authorized self (InputTransport (TransportJoinRequested request))
                  o.(notifications)) self.
Proof.
  run_approvals.
  match goal with H : classify_join_request _ _ = AutoApprove _ |- _ =>
    apply classify_auto_approve in H as (Hm & Ht & ->) end.
  by apply AuthorizedPolicy.
Qed.

Lemma admission_storage_authorized (e : StorageEvent) (self : ActorState) :
  wp (apply_admission_storage e)
    (fun o _ => approvals_authorized self (InputStorage e) o.(notifications)) self.
Proof.
  destruct e as [op completion|op error]; [destruct completion|]; run_approvals.
  all: repeat match goal with H : bool_decide _ = true |- _ => apply bool_decide_eq_true in H; subst end.
  - by eapply AuthorizedCommitted.
  - by eapply AuthorizedFailed.
Qed.

Lemma apply_authorized (input : CoreActorInput) (self : ActorState) :
  wp (apply input) (fun o _ => approvals_authorized self input o.(notifications)) self.
Proof.
  assert (forall m, wp m (fun o _ => quiet o) self ->
    wp m (fun o _ => approvals_authorized self input o.(notifications)) self) as Hq.
  { intros m H. eapply wp_mono; [exact H|]. intros o s. apply quiet_authorized. }
  destruct input as [op [r c]|e|e|e|e]; cbn [apply].
  - unfold apply_command_request. apply wp_bind, wp_snap. cbv beta. apply wp_bind, wp_ensure. intros _.
    cbn [command]. destruct c; try (apply Hq, apply_command_quiet; exact I).
    apply approve_join_authorized.
  - apply Hq, apply_platform_quiet.
  - destruct e; try (apply Hq, apply_transport_quiet).
    + apply Hq. run_quiet.
    + apply handle_join_request_authorized.
    + apply Hq. run_quiet.
  - apply Hq, audio_control_outcome. intros. apply apply_audio_quiet.
  - apply wp_bind, wp_read. cbv beta zeta. destruct (match _ with Some _ => _ | None => _ end).
    { apply Hq. run_quiet. }
    destruct (_ || _); [apply admission_storage_authorized|]. apply Hq. run_quiet.
Qed.

(** ** Settings *)

Definition tuning_kept (self final : ActorState) : Prop :=
  final.(snapshot).(tuning) = self.(snapshot).(tuning).

Inductive tuning_step (self final : ActorState) : CoreActorInput -> Prop :=
| TuningKept input : tuning_kept self final -> tuning_step self final input
| TuningSaved op settings :
    find_pending op self.(pending_storage) = Some (PendingPersistTuning settings) ->
    final.(snapshot).(tuning) = settings ->
    tuning_step self final (InputStorage (StorageOperationSucceeded op SettingsSaved))
| TuningLoaded op stored :
    final.(snapshot).(tuning) = stored.(stored_tuning) ->
    tuning_step self final (InputStorage (StorageOperationSucceeded op (SettingsLoaded (Some stored)))).

#[export] Instance tuning_kept_preorder : PreOrder tuning_kept.
Proof. unfold tuning_kept. split; [by intros s|intros ? ? ?; congruence]. Qed.

Lemma apply_command_tuning (op : rstr) (c : CoreCommand) (self : ActorState) :
  wp (apply_command op c) (fun _ => tuning_kept self) self.
Proof. destruct c; wp_run; reflexivity. Qed.

Lemma apply_platform_tuning (e : PlatformEvent) (self : ActorState) :
  wp (apply_platform e) (fun _ => tuning_kept self) self.
Proof. destruct e; wp_run; reflexivity. Qed.

Lemma apply_transport_tuning (e : TransportEvent) (self : ActorState) :
  wp (apply_transport e) (fun _ => tuning_kept self) self.
Proof. destruct e; wp_run; reflexivity. Qed.

Lemma apply_audio_tuning (e : AudioEvent) (self : ActorState) :
  wp (apply_audio e) (fun _ => tuning_kept self) self.
Proof. destruct e; wp_run; reflexivity. Qed.

Lemma apply_storage_tuning (e : StorageEvent) (self : ActorState) :
  wp (apply (InputStorage e)) (fun _ s => tuning_step self s (InputStorage e)) self.
Proof.
  cbn [apply]. apply wp_bind, wp_read. cbv beta zeta.
  destruct (match _ with Some _ => _ | None => _ end).
  { wp_run; first [apply TuningKept; reflexivity | by eapply TuningSaved]. }
  destruct (_ || _); wp_run; first [apply TuningKept; reflexivity | by eapply TuningLoaded].
Qed.

Lemma apply_tuning (input : CoreActorInput) (self : ActorState) :
  wp (apply input) (fun _ s => tuning_step self s input) self.
Proof.
  assert (forall m, wp m (fun _ => tuning_kept self) self ->
    wp m (fun (_ : ApplyOutcome) s => tuning_step self s input) self) as Hk.
  { intros m H. eapply wp_mono; [exact H|]. intros o s. apply TuningKept. }
  destruct input as [op request|e|e|e|e]; cbn [apply].
  - unfold apply_command_request. apply wp_bind, wp_snap. cbv beta. apply wp_bind, wp_ensure. intros _.
    apply Hk, apply_command_tuning.
  - apply Hk, apply_platform_tuning.
  - destruct e; try (apply Hk, apply_transport_tuning); apply Hk; wp_run; reflexivity.
  - apply Hk, (audio_control_elim tuning_kept); intros; try apply apply_audio_tuning; reflexivity.
  - apply apply_storage_tuning.
Qed.

(** ** Properties *)

(** C24. Processing is a transaction: an input either leaves the whole state as it
    was and publishes no snapshot (every error among these), or moves the
    revision by exactly one, leaves a valid snapshot and publishes precisely that
    snapshot, before any other notification. *)
Theorem process_is_transactional (self : ActorState) (input : CoreActorInput) :
  let '(final, r) := process self input in
  final = self /\ omap snapshot_of r.(result_notifications) = []
  \/ final.(snapshot).(revision) = self.(snapshot).(revision) + 1
     /\ final.(snapshot).(revision) <= u64_max
     /\ snapshot_valid final.(snapshot)
     /\ (exists rest, r.(result_notifications) = NotifySnapshot final.(snapshot) :: rest
                     /\ omap snapshot_of rest = []).
Proof.
  pose proof (process_commits self input) as H. destruct (process self input) as [final r].
  cbn [fst snd] in H. inversion H as [notes Hn|o s sn E Hc Hn Hs Hr Hv]; subst.
  - left. split; [done|]. by apply no_snapshot.
  - right. split_and!; try done. eexists. split; [done|]. by apply no_snapshot.
Qed.

(** The snapshots of a history, one revision apart. *)
Lemma published_consecutive (self : ActorState) (steps : list ActorStep) :
  let views := published self steps in
  map revision views = seqZ (self.(snapshot).(revision) + 1) (len views)
  /\ Forall snapshot_valid views
  /\ (actor_run steps self).(snapshot) = default self.(snapshot) (last views).
Proof.
  revert self. induction steps as [|step steps IH]; intros self; [done|]. cbv zeta in *.
  cbn [published]. unfold actor_run in *. cbn [fold_left].
  specialize (IH (actor_step self step)) as (Hrev & Hval & Hlast).
  destruct (step_commits self step) as [notes Hn|o s sn E Hc Hn Hs Hr Hv].
  - by rewrite (no_snapshot _ Hn).
  - cbn [omap list_omap snapshot_of]. change (list_omap _ _ snapshot_of (notifications o)) with
      (omap snapshot_of (notifications o)). rewrite (no_snapshot _ Hn). cbn [app].
    assert (revision sn = revision (snapshot self) + 1) as Hsn by (by rewrite Hs).
    split_and!; [|by apply Forall_cons|].
    + cbn [map]. rewrite len_cons, seqZ_cons by (pose proof (len_nonneg (published (set_snapshot sn s) steps)); lia).
      rewrite Hrev, Hsn. cbn [snapshot set_snapshot]. rewrite Hsn. do 2 f_equal; lia.
    + rewrite Hlast, last_cons. by destruct (last _).
Qed.

(** The shell's view is gap-free: over any history the published snapshots
    carry consecutive revisions starting after the initial one, each satisfies
    the snapshot contract, and the last one published is the actor's snapshot. *)
Lemma published_snapshots_are_consecutive (self : ActorState) (steps : list ActorStep) :
  let views := published self steps in
  map revision views = seqZ (self.(snapshot).(revision) + 1) (len views)
  /\ Forall snapshot_valid views
  /\ (actor_run steps self).(snapshot) = default self.(snapshot) (last views).
Proof. apply published_consecutive. Qed.

(** C15. Approvals are licensed: whatever the actor is in the middle of, a join
    approval is handed to the transport only for the active session, and only
    because the trusted-devices policy accepted a trusted device's request, the
    host approved a pending request with no decision in flight, or storage
    answered the trust record of such an approval; durable trust is promised only
    to a device already trusted or whose trust record was committed. *)
Theorem approvals_are_licensed (self : ActorState) (input : CoreActorInput) :
  approvals_authorized self input (process self input).2.(result_notifications).
Proof.
  pose proof (apply_authorized input self) as Ha. unfold wp in Ha. unfold process.
  assert (forall e b, approvals_authorized self input
            (mkProcessResult [NotifyError e] b).(result_notifications)) as He.
  { intros e b a H. by apply elem_of_nil in H. }
  destruct (apply input self) as [s [o|e]]; [|apply He].
  destruct (changed o); [|exact Ha]. destruct (checked_next _); [|apply He].
  destruct (CoreSnapshot_validate _); [exact Ha|apply He].
Qed.

(** Settings follow storage: an input changes the tuning of the snapshot only
    if it is storage's confirmation of the settings the actor asked it to save,
    which installs exactly those, or the settings loaded from storage; an update
    command by itself changes nothing. *)
Lemma tuning_follows_storage (self : ActorState) (input : CoreActorInput) :
  tuning_step self (process self input).1 input.
Proof.
  pose proof (process_commits self input) as H.
  destruct H as [|o s sn E _ _ -> _ _]; [by apply TuningKept|].
  pose proof (wp_ok _ _ _ _ _ (apply_tuning input self) E) as H.
  clear E. destruct H; [apply TuningKept|eapply TuningSaved|eapply TuningLoaded]; eassumption.
Qed.

(** A listener cannot cancel while scanning: whenever discovery is active,
    with or without a session selected, [CancelJoin] is answered with an error by
    the actor's own snapshot check and the selection stays, because the handler
    sets the transport idle without ending discovery. *)
Lemma cancel_is_refused_while_scanning (self : ActorState) (op : rstr) (expected : Z) :
  self.(snapshot).(discovery_active) = true -> self.(snapshot).(transport_state) = Discovering ->
  let '(final, r) := process self (InputCommand op (mkCoreCommandRequest expected CancelJoin)) in
  final = self /\ exists error, r.(result_notifications) = [NotifyError error].
Proof.
  intros Hd Ht. set (input := InputCommand _ _).
  assert (wp (apply input) (fun o s => o.(changed) = true
            /\ s.(snapshot).(discovery_active) = true
            /\ s.(snapshot).(transport_state) = TransportIdle) self) as Hw.
  { unfold input, apply, apply_command_request. cbn [command apply_command]. wp_run; [by rewrite Ht in *|]. by rewrite <- Hd. }
  unfold process. unfold wp in Hw. destruct (apply input self) as [s [o|e]]; [|eauto].
  destruct Hw as (-> & Hs & Hi). destruct (checked_next _); [|eauto].
  destruct (CoreSnapshot_validate _) as [[]|] eqn:Ev; [|eauto].
  apply CoreSnapshot_validate_ok in Ev as []. cbn in *. rewrite Hs, Hi in *. naive_solver.
Qed.

(** A session that ended cannot be joined again from the next scan: a
    scanning listener whose old selection is still set finds selecting it a no-op
    that leaves the lifecycle at scanning, and every join attempt is refused. *)
Lemma ended_session_cannot_be_rejoined (self : ActorState) (op id : rstr) (code : option rstr)
    (expected expected' : Z) :
  self.(snapshot).(selected_role) = Some RoleListener ->
  self.(snapshot).(listener_lifecycle) = Scanning ->
  self.(snapshot).(selected_session) = Some id ->
  let selected := actor_step self
    (StepInput (InputCommand op (mkCoreCommandRequest expected (SelectSession id)))) in
  selected = self
  /\ actor_step selected
       (StepInput (InputCommand op (mkCoreCommandRequest expected' (SubmitJoin code)))) = selected.
Proof.
  intros Hr Hl Hs selected. assert (selected = self) as E; [|rewrite E; split; [done|]].
  - pose proof (step_commits self
      (StepInput (InputCommand op (mkCoreCommandRequest expected (SelectSession id))))) as Hc.
    fold selected in Hc. inversion Hc as [|o s sn E Hch _ _ _ _]; [done|].
    assert (o.(changed) = false); [|congruence].
    eapply (wp_ok (apply (InputCommand _ _)) (fun o _ => o.(changed) = false)); [|exact E].
    cbn [step_input]. unfold apply, apply_command_request. cbn [command apply_command].
    wp_run; try done; rewrite Hs in *; case_bool_decide; done.
  - pose proof (step_commits self
      (StepInput (InputCommand op (mkCoreCommandRequest expected' (SubmitJoin code))))) as Hc.
    inversion Hc as [|o s sn E' Hch _ _ _ _]; [congruence|]. exfalso.
    eapply (wp_ok (apply (InputCommand _ _)) (fun _ _ => False)); [|exact E'].
    cbn [step_input]. unfold apply, apply_command_request. cbn [command apply_command]. wp_run;
      match goal with H : bool_decide (_ = SessionSelected) = true |- _ =>
        rewrite Hl in H; discriminate H end.
Qed.

(** ** Witnesses *)

Definition sample_session : SessionAdvertisement :=
  mkSessionAdvertisement (lit "s1") (lit "host") (lit "party") Manual current_protocol_version None.

(** A listener scans, selects a session, loses it before joining and scans again. *)
Definition scanning_history : list ActorStep :=
  [sample_command 0 (SelectRole RoleListener);
   sample_command 1 StartDiscoveryCommand;
   StepInput (InputPlatform (PlatformOperationSucceeded (lit "effect-1") DiscoveryStarted));
   StepInput (InputPlatform (SessionDiscovered sample_session));
   sample_command 4 (SelectSession (lit "s1"))].

Definition ended_history : list ActorStep :=
  scanning_history ++
  [sample_command 5 (SubmitJoin None);
   StepInput (InputTransport (SessionEnded (lit "s1")));
   sample_command 7 StartDiscoveryCommand;
   StepInput (InputPlatform (PlatformOperationSucceeded (lit "effect-3") DiscoveryStarted))].

Definition sample_actor : ActorState := new_with_session_id_namespace (lit "device") None.

Lemma cancel_is_refused_while_scanning_witness :
  let self := actor_run scanning_history sample_actor in
  self.(snapshot).(listener_lifecycle) = SessionSelected
  /\ let '(final, r) := process self (InputCommand (lit "op") (mkCoreCommandRequest 5 CancelJoin)) in
     final = self /\ exists error, r.(result_notifications) = [NotifyError error].
Proof.
  split; [by vm_compute|].
  apply (cancel_is_refused_while_scanning (actor_run scanning_history sample_actor)); by vm_compute.
Defined.

Lemma ended_session_cannot_be_rejoined_witness :
  let self := actor_run ended_history sample_actor in
  let selected := actor_step self (sample_command 9 (SelectSession (lit "s1"))) in
  selected = self /\ actor_step selected (sample_command 9 (SubmitJoin None)) = selected.
Proof.
  apply (ended_session_cannot_be_rejoined (actor_run ended_history sample_actor) (lit "op") (lit "s1")
           None 9 9); by vm_compute.
Defined.
