(* ===== verification/ActorMailbox.v ===== *)
(** The runtime around the actor's transaction
    (src/rust/silent-disco-core/src/runtime/actor_runtime/mod.rs and
    reservation.rs): the bounded mailbox and its client calls, the worker that
    applies one message at a time, the notification worker that calls the
    observer, and the shutdown of both. Each thread is a program counter with
    one transition per access to what the threads share; an execution is any
    sequence of transitions of any of them. *)
From Stdlib Require Import ZArith Lia Strings.String.
From stdpp Require Import numbers list gmap prelude.
From S2P Require Import Prelude Utf8 Domain Decimal CoreErrors RuntimeTypes RuntimeRecords ActorState ActorHandlers ActorLemmas ActorInvariant.

(** ** Configuration *)

Definition DEFAULT_ACTOR_QUEUE_CAPACITY : Z := 64.
Definition DEFAULT_NOTIFICATION_QUEUE_CAPACITY : Z := 64.
Definition MAX_ACTOR_QUEUE_CAPACITY : Z := 4096.
Definition MAX_NOTIFICATION_QUEUE_CAPACITY : Z := 4096.

Record CoreActorConfig : Type := mkCoreActorConfig {
  config_local_device_id : rstr;
  actor_queue_capacity : Z;
  notification_queue_capacity : Z;
  deterministic_session_ids : bool
}.

Definition CoreActorConfig_new (local_device_id : rstr) : CoreActorConfig :=
  mkCoreActorConfig local_device_id DEFAULT_ACTOR_QUEUE_CAPACITY DEFAULT_NOTIFICATION_QUEUE_CAPACITY
    false.

Definition CoreActorConfig_validate (c : CoreActorConfig) : result unit CoreError :=
  if negb (in_range 1 MAX_ACTOR_QUEUE_CAPACITY c.(actor_queue_capacity)) then
    Err (core_error CodeInvalidArgument (lit "actor queue capacity must be between 1 and 4096")
           SeverityError false None)
  else if negb (in_range 1 MAX_NOTIFICATION_QUEUE_CAPACITY c.(notification_queue_capacity)) then
    Err (core_error CodeInvalidArgument (lit "notification queue capacity must be between 1 and 4096")
           SeverityError false None)
  else Ok tt.

Definition worker_stopped (operation_id : option rstr) : CoreError :=
  core_error CodeWorkerStopped (lit "authoritative actor worker is not available") SeverityFatal false
    operation_id.

(** ** Queues

    A [sync_channel]: what is queued, what its receiver has taken, and whether
    the receiver is still there. *)

Record Queue (A : Type) : Type := mkQueue {
  q_capacity : Z;
  q_items : list A;
  q_taken : list A;
  q_open : bool
}.
Arguments mkQueue {A}. Arguments q_capacity {A}. Arguments q_items {A}. Arguments q_taken {A}.
Arguments q_open {A}.

Definition new_queue {A : Type} (capacity : Z) : Queue A := mkQueue capacity [] [] true.

(** Everything that entered the queue, oldest first. *)
Definition entered {A : Type} (q : Queue A) : list A := q.(q_taken) ++ q.(q_items).

Inductive queue_send : Type := QueueSent | QueueFull | QueueClosed.

(** [SyncSender::try_send]. *)
Definition queue_try_send {A : Type} (x : A) (q : Queue A) : queue_send * Queue A :=
  if negb q.(q_open) then (QueueClosed, q)
  else if q.(q_capacity) <=? len q.(q_items) then (QueueFull, q)
  else (QueueSent, mkQueue q.(q_capacity) (q.(q_items) ++ [x]) q.(q_taken) true).

(** [Receiver::recv] of a queue that is not empty. *)
Definition queue_recv {A : Type} (q : Queue A) : option (A * Queue A) :=
  match q.(q_items) with
  | [] => None
  | x :: items => Some (x, mkQueue q.(q_capacity) items (q.(q_taken) ++ [x]) q.(q_open))
  end.

(** The receiver is dropped. *)
Definition queue_close {A : Type} (q : Queue A) : Queue A :=
  mkQueue q.(q_capacity) q.(q_items) q.(q_taken) false.

(** ** State *)

(** [reply] names the call that waits for the answer, which is also the name of
    its cancellation flag. *)
Inductive ActorMessage : Type :=
| MsgInput (input : CoreActorInput)
| MsgReserve (stream_id entry_id : rstr) (first_sample_index : Z) (reply : nat).

Inductive NotificationMessage : Type :=
| Notify (notification : CoreNotification)
| NotifyShutdown.

Record ActorShared : Type := mkActorShared {
  accepting : bool;
  shared_snapshot : CoreSnapshot;
  actor_failure : option CoreError;
  (** the handle's [notification_failure] *)
  notification_failure : option CoreError;
  next_command_sequence : Z
}.

(** Where [run_actor_worker] is. *)
Inductive actor_pc : Type :=
| ActorStarting (st : ActorState)
| ActorReceiving (st : ActorState)
| ActorGot (st : ActorState) (message : ActorMessage)
| ActorNotifying (st : ActorState) (pending : list CoreNotification) (reply : option nat) (stop : bool)
| ActorReturning (result : result unit CoreError)
| ActorExited (result : result unit CoreError).

(** Where [run_notification_worker] is. *)
Inductive notifier_pc : Type :=
| NotifierReceiving
| NotifierObserving (notification : CoreNotification)
| NotifierExited.

(** What the observer does with a notification. *)
Inductive observation : Type := Observed | Refused (error : CoreError) | Panicked.

Inductive call_value : Type :=
| ValueUnit
| ValueReceipt (operation_id : rstr) (accepted_at_revision : Z)
| ValueSnapshot (snapshot : CoreSnapshot).

(** The reads of [check_failure] and [ensure_accepting]. *)
Inductive check : Type := CheckNotification | CheckActor | CheckAccepting.
Definition check_failure : list check := [CheckNotification; CheckActor].
Definition ensure_accepting : list check := check_failure ++ [CheckAccepting].

(** Where a call of the handle is. *)
Inductive call_pc : Type :=
| CallChecks (checks : list check) (next : call_pc)
| CallCommandId (request : CoreCommandRequest)
| CallAcceptedAt (operation_id : rstr) (request : CoreCommandRequest)
| CallTrySend (input : CoreActorInput) (operation_id : option rstr) (value : call_value)
| CallReserve (stream_id entry_id : rstr) (first_sample_index : Z)
| CallReserveSend (stream_id entry_id : rstr) (first_sample_index : Z)
| CallReserveWait
| CallReserveReceive
| CallReadSnapshot
| CallReturned (result : result call_value CoreError).

(** Where the owner's [shutdown] is; the errors found so far are kept. *)
Inductive owner_pc : Type :=
| OwnerRunning
| OwnerCommandId
| OwnerReadRevision (operation_id : rstr)
| OwnerSending (input : CoreActorInput)
| OwnerJoiningActor (queue_error : option CoreError)
| OwnerStoppingNotifier (queue_error actor_error : option CoreError)
| OwnerJoiningNotifier (queue_error actor_error : option CoreError) (send_failed : bool)
| OwnerReturned (result : result unit CoreError).

(** [rt_log] (the steps applied so far), [rt_refused] (the notifications the
    observer refused) and the entry points of calls record the history and are read by no transition. *)
Record Runtime : Type := mkRuntime {
  rt_shared : ActorShared;
  rt_mailbox : Queue ActorMessage;
  rt_notices : Queue NotificationMessage;
  rt_actor : actor_pc;
  rt_notifier : notifier_pc;
  rt_owner : owner_pc;
  (** each call's entry point and where it is *)
  rt_calls : gmap nat (call_pc * call_pc);
  rt_replies : gmap nat (result unit CoreError);
  rt_cancelled : gset nat;
  rt_log : list ActorStep;
  rt_refused : list CoreNotification
}.

Definition set_rt_shared (v : ActorShared) (rt : Runtime) : Runtime :=
  mkRuntime v rt.(rt_mailbox) rt.(rt_notices) rt.(rt_actor) rt.(rt_notifier) rt.(rt_owner)
    rt.(rt_calls) rt.(rt_replies) rt.(rt_cancelled) rt.(rt_log) rt.(rt_refused).
Definition set_rt_mailbox (v : Queue ActorMessage) (rt : Runtime) : Runtime :=
  mkRuntime rt.(rt_shared) v rt.(rt_notices) rt.(rt_actor) rt.(rt_notifier) rt.(rt_owner)
    rt.(rt_calls) rt.(rt_replies) rt.(rt_cancelled) rt.(rt_log) rt.(rt_refused).
Definition set_rt_notices (v : Queue NotificationMessage) (rt : Runtime) : Runtime :=
  mkRuntime rt.(rt_shared) rt.(rt_mailbox) v rt.(rt_actor) rt.(rt_notifier) rt.(rt_owner)
    rt.(rt_calls) rt.(rt_replies) rt.(rt_cancelled) rt.(rt_log) rt.(rt_refused).
Definition set_rt_actor (v : actor_pc) (rt : Runtime) : Runtime :=
  mkRuntime rt.(rt_shared) rt.(rt_mailbox) rt.(rt_notices) v rt.(rt_notifier) rt.(rt_owner)
    rt.(rt_calls) rt.(rt_replies) rt.(rt_cancelled) rt.(rt_log) rt.(rt_refused).
Definition set_rt_notifier (v : notifier_pc) (rt : Runtime) : Runtime :=
  mkRuntime rt.(rt_shared) rt.(rt_mailbox) rt.(rt_notices) rt.(rt_actor) v rt.(rt_owner)
    rt.(rt_calls) rt.(rt_replies) rt.(rt_cancelled) rt.(rt_log) rt.(rt_refused).
Definition set_rt_owner (v : owner_pc) (rt : Runtime) : Runtime :=
  mkRuntime rt.(rt_shared) rt.(rt_mailbox) rt.(rt_notices) rt.(rt_actor) rt.(rt_notifier) v
    rt.(rt_calls) rt.(rt_replies) rt.(rt_cancelled) rt.(rt_log) rt.(rt_refused).
Definition set_rt_calls (v : gmap nat (call_pc * call_pc)) (rt : Runtime) : Runtime :=
  mkRuntime rt.(rt_shared) rt.(rt_mailbox) rt.(rt_notices) rt.(rt_actor) rt.(rt_notifier)
    rt.(rt_owner) v rt.(rt_replies) rt.(rt_cancelled) rt.(rt_log) rt.(rt_refused).
Definition set_rt_replies (v : gmap nat (result unit CoreError)) (rt : Runtime) : Runtime :=
  mkRuntime rt.(rt_shared) rt.(rt_mailbox) rt.(rt_notices) rt.(rt_actor) rt.(rt_notifier)
    rt.(rt_owner) rt.(rt_calls) v rt.(rt_cancelled) rt.(rt_log) rt.(rt_refused).
Definition set_rt_cancelled (v : gset nat) (rt : Runtime) : Runtime :=
  mkRuntime rt.(rt_shared) rt.(rt_mailbox) rt.(rt_notices) rt.(rt_actor) rt.(rt_notifier)
    rt.(rt_owner) rt.(rt_calls) rt.(rt_replies) v rt.(rt_log) rt.(rt_refused).
Definition set_rt_log (v : list ActorStep) (rt : Runtime) : Runtime :=
  mkRuntime rt.(rt_shared) rt.(rt_mailbox) rt.(rt_notices) rt.(rt_actor) rt.(rt_notifier)
    rt.(rt_owner) rt.(rt_calls) rt.(rt_replies) rt.(rt_cancelled) v rt.(rt_refused).
Definition set_rt_refused (v : list CoreNotification) (rt : Runtime) : Runtime :=
  mkRuntime rt.(rt_shared) rt.(rt_mailbox) rt.(rt_notices) rt.(rt_actor) rt.(rt_notifier)
    rt.(rt_owner) rt.(rt_calls) rt.(rt_replies) rt.(rt_cancelled) rt.(rt_log) v.

Definition set_accepting (v : bool) (s : ActorShared) : ActorShared :=
  mkActorShared v s.(shared_snapshot) s.(actor_failure) s.(notification_failure)
    s.(next_command_sequence).
Definition set_next_command_sequence (v : Z) (s : ActorShared) : ActorShared :=
  mkActorShared s.(accepting) s.(shared_snapshot) s.(actor_failure) s.(notification_failure) v.

(** [write_snapshot]. *)
Definition write_snapshot (v : CoreSnapshot) (s : ActorShared) : ActorShared :=
  mkActorShared s.(accepting) v s.(actor_failure) s.(notification_failure) s.(next_command_sequence).

(** [record_failure]: the first failure stays. *)
Definition first_failure (current : option CoreError) (error : CoreError) : option CoreError :=
  match current with Some _ => current | None => Some error end.
Definition record_actor_failure (error : CoreError) (s : ActorShared) : ActorShared :=
  mkActorShared s.(accepting) s.(shared_snapshot) (first_failure s.(actor_failure) error)
    s.(notification_failure) s.(next_command_sequence).
Definition record_notification_failure (error : CoreError) (s : ActorShared) : ActorShared :=
  mkActorShared s.(accepting) s.(shared_snapshot) s.(actor_failure)
    (first_failure s.(notification_failure) error) s.(next_command_sequence).

Definition on_shared (f : ActorShared -> ActorShared) (rt : Runtime) : Runtime :=
  set_rt_shared (f rt.(rt_shared)) rt.

(** [next_command_id]. *)
Definition next_command_id (s : ActorShared) : result rstr CoreError * ActorShared :=
  match checked_add u64_max s.(next_command_sequence) 1 with
  | None => (Err (resource_limit (lit "command operation identifier overflow") None), s)
  | Some next =>
      (map_err (fun error => from_identifier_validation error None)
         (identifier_new IdOperation (lit "command-" ++ to_decimal s.(next_command_sequence))),
       set_next_command_sequence next s)
  end.

(** ** The actor's worker *)

(** [reply.send(result)] on the call's channel of one slot. *)
Definition reply_to (id : nat) (r : result unit CoreError) (rt : Runtime) : Runtime :=
  set_rt_replies (<[id := r]> rt.(rt_replies)) rt.

(** [send_notification]. *)
Definition send_notification (n : CoreNotification) (rt : Runtime) : result unit CoreError * Runtime :=
  match queue_try_send (Notify n) rt.(rt_notices) with
  | (QueueSent, q) => (Ok tt, set_rt_notices q rt)
  | (QueueFull, _) =>
      (Err (core_error CodeQueueOverflow (lit "notification queue is full") SeverityFatal false None), rt)
  | (QueueClosed, _) => (Err (worker_stopped None), rt)
  end.

(** One message, from the read of its cancellation flag to the published
    snapshot; nothing the other threads do in between is visible to it. *)
Definition handle_message (st : ActorState) (message : ActorMessage) (rt : Runtime) : Runtime :=
  match message with
  | MsgInput input =>
      let '(st, r) := process st input in
      set_rt_actor (ActorNotifying st r.(result_notifications) None r.(result_stop_requested))
        (on_shared (write_snapshot st.(snapshot)) (set_rt_log (rt.(rt_log) ++ [StepInput input]) rt))
  | MsgReserve stream entry index id =>
      if bool_decide (id ∈ rt.(rt_cancelled)) then
        set_rt_actor (ActorReceiving st)
          (reply_to id
             (Err (invalid_argument (lit "playlist boundary reservation was cancelled") None)) rt)
      else
        let '(st, outcome) := reserve_track_boundary st stream entry index in
        let rt := set_rt_log (rt.(rt_log) ++ [StepReserve stream entry index]) rt in
        match outcome with
        | Err error => set_rt_actor (ActorReceiving st) (reply_to id (Err error) rt)
        | Ok r =>
            set_rt_actor (ActorNotifying st r.(result_notifications) (Some id) r.(result_stop_requested))
              (on_shared (write_snapshot st.(snapshot)) rt)
        end
  end.

(** [None] is a thread that waits. [recv] cannot fail: the owner keeps a sender
    until it has joined the worker. *)
Definition actor_transition (rt : Runtime) : option Runtime :=
  match rt.(rt_actor) with
  | ActorStarting st =>
      Some match send_notification (NotifySnapshot st.(snapshot)) rt with
           | (Ok _, rt) => set_rt_actor (ActorReceiving st) rt
           | (Err error, rt) => set_rt_actor (ActorReturning (Err error)) rt
           end
  | ActorReceiving st =>
      match queue_recv rt.(rt_mailbox) with
      | None => None
      | Some (message, q) => Some (set_rt_actor (ActorGot st message) (set_rt_mailbox q rt))
      end
  | ActorGot st message => Some (handle_message st message rt)
  | ActorNotifying st (n :: pending) reply stop =>
      Some match send_notification n rt with
           | (Ok _, rt) => set_rt_actor (ActorNotifying st pending reply stop) rt
           | (Err error, rt) =>
               set_rt_actor (ActorReturning (Err error))
                 (on_shared (fun s => set_accepting false (record_actor_failure error s)) rt)
           end
  | ActorNotifying st [] (Some id) stop =>
      Some (set_rt_actor (ActorNotifying st [] None stop) (reply_to id (Ok tt) rt))
  | ActorNotifying st [] None true =>
      Some (set_rt_actor (ActorReturning (Ok tt)) (on_shared (set_accepting false) rt))
  | ActorNotifying st [] None false => Some (set_rt_actor (ActorReceiving st) rt)
  | ActorReturning r =>
      Some (set_rt_actor (ActorExited r) (set_rt_mailbox (queue_close rt.(rt_mailbox)) rt))
  | ActorExited _ => None
  end.

(** ** The notification worker *)

Inductive RefusableEffect : Type :=
| RefusablePlatform (operation_id : rstr)
| RefusableTransport (operation_id : rstr)
| RefusableStorage (operation_id : rstr).

Definition RefusableEffect_of (n : CoreNotification) : option RefusableEffect :=
  match n with
  | NotifyEffect effect => Some (RefusablePlatform effect.(pe_operation_id))
  | NotifyTransportEffect effect => Some (RefusableTransport effect.(te_operation_id))
  | NotifyStorageEffect effect => Some (RefusableStorage effect.(se_operation_id))
  | NotifySnapshot _ | NotifyError _ | NotifyDiagnostic _ => None
  end.

Definition set_operation_id (operation_id : option rstr) (e : CoreError) : CoreError :=
  mkCoreError e.(err_code) e.(err_message) e.(err_subsystem) e.(err_severity) e.(err_retryable)
    operation_id e.(err_context).

Definition failure_input (effect : RefusableEffect) (error : CoreError) : CoreActorInput :=
  match effect with
  | RefusablePlatform operation_id =>
      InputPlatform (PlatformOperationFailed operation_id (set_operation_id (Some operation_id) error))
  | RefusableTransport operation_id =>
      InputTransport (DeliveryCompleted operation_id (mkDeliveryReport 1 0 1 PartialFailure))
  | RefusableStorage operation_id =>
      InputStorage (StorageOperationFailed operation_id (set_operation_id (Some operation_id) error))
  end.

Definition exit_notifier (rt : Runtime) : Runtime :=
  set_rt_notifier NotifierExited (set_rt_notices (queue_close rt.(rt_notices)) rt).

(** What the refusal of an effect becomes. *)
Definition refuse_notification (n : CoreNotification) (error : CoreError) (rt : Runtime) : Runtime :=
  let failed := exit_notifier (on_shared (record_notification_failure error) rt) in
  match RefusableEffect_of n with
  | None => failed
  | Some effect =>
      match queue_try_send (MsgInput (failure_input effect error)) rt.(rt_mailbox) with
      | (QueueSent, q) => set_rt_notifier NotifierReceiving (set_rt_mailbox q rt)
      | _ => failed
      end
  end.

Definition notifier_transition (answer : observation) (rt : Runtime) : option Runtime :=
  match rt.(rt_notifier) with
  | NotifierReceiving =>
      match queue_recv rt.(rt_notices) with
      | None => None
      | Some (Notify n, q) => Some (set_rt_notifier (NotifierObserving n) (set_rt_notices q rt))
      | Some (NotifyShutdown, q) => Some (exit_notifier (set_rt_notices q rt))
      end
  | NotifierObserving n =>
      Some match answer with
           | Observed => set_rt_notifier NotifierReceiving rt
           | Refused error =>
               refuse_notification n error (set_rt_refused (rt.(rt_refused) ++ [n]) rt)
           | Panicked =>
               exit_notifier (on_shared (record_notification_failure
                 (core_error CodeFfiCallbackFailed (lit "notification observer panicked") SeverityFatal
                    false None)) rt)
           end
  | NotifierExited => None
  end.

(** ** Calls of the handle *)

Definition perform_check (c : check) (s : ActorShared) : result unit CoreError :=
  match c with
  | CheckNotification => match s.(notification_failure) with Some error => Err error | None => Ok tt end
  | CheckActor => match s.(actor_failure) with Some error => Err error | None => Ok tt end
  | CheckAccepting =>
      if s.(accepting) then Ok tt
      else Err (core_error CodeShutdownInProgress (lit "authoritative actor shutdown is in progress")
                  SeverityWarning false None)
  end.

Definition transport_event_operation_id (e : TransportEvent) : option rstr :=
  match e with DeliveryCompleted operation_id _ => Some operation_id | _ => None end.

(** The entry of each public method. *)
Definition submit_input (input : CoreActorInput) (operation_id : option rstr) : call_pc :=
  CallChecks ensure_accepting (CallTrySend input operation_id ValueUnit).

Definition submit_command (request : CoreCommandRequest) : call_pc :=
  CallChecks ensure_accepting (CallCommandId request).

Definition submit_platform_event (event : PlatformEvent) : call_pc :=
  submit_input (InputPlatform event) (PlatformEvent_operation_id event).

Definition submit_transport_event (event : TransportEvent) : call_pc :=
  submit_input (InputTransport event) (transport_event_operation_id event).

Definition submit_audio_event (event : AudioEvent) : call_pc := submit_input (InputAudio event) None.

Definition submit_storage_event (event : StorageEvent) : call_pc :=
  match StorageEvent_validate event with
  | Err error =>
      CallReturned (Err (invalid_argument (contract_error_text error)
                           (Some (StorageEvent_operation_id event))))
  | Ok _ => submit_input (InputStorage event) (Some (StorageEvent_operation_id event))
  end.

Definition reserve_host_track_boundary (stream_id entry_id : rstr) (first_sample_index : Z) : call_pc :=
  CallChecks ensure_accepting (CallReserve stream_id entry_id first_sample_index).

Definition current_snapshot : call_pc := CallChecks check_failure CallReadSnapshot.

Inductive entry_point : call_pc -> Prop :=
| EntryCommand request : entry_point (submit_command request)
| EntryPlatform event : entry_point (submit_platform_event event)
| EntryTransport event : entry_point (submit_transport_event event)
| EntryAudio event : entry_point (submit_audio_event event)
| EntryStorage event : entry_point (submit_storage_event event)
| EntryReserve stream entry index : entry_point (reserve_host_track_boundary stream entry index)
| EntrySnapshot : entry_point current_snapshot.

Definition reservation_cancelled : CoreError :=
  core_error CodeShutdownInProgress (lit "playlist boundary reservation was cancelled") SeverityWarning
    false None.

(** Whether some thread still holds the sending end of a call's reply channel. *)
Definition awaits_reply (id : nat) (message : ActorMessage) : bool :=
  match message with MsgReserve _ _ _ reply => bool_decide (reply = id) | MsgInput _ => false end.

Definition reply_possible (id : nat) (rt : Runtime) : bool :=
  (rt.(rt_mailbox).(q_open) && existsb (awaits_reply id) rt.(rt_mailbox).(q_items))
  || match rt.(rt_actor) with
     | ActorGot _ message => awaits_reply id message
     | ActorNotifying _ _ (Some reply) _ => bool_decide (reply = id)
     | _ => false
     end.

(** One access of call [id] at [pc]. *)
Definition call_transition (id : nat) (pc : call_pc) (rt : Runtime) : option (call_pc * Runtime) :=
  match pc with
  | CallChecks [] next => Some (next, rt)
  | CallChecks (c :: checks) next =>
      Some match perform_check c rt.(rt_shared) with
           | Ok _ => (CallChecks checks next, rt)
           | Err error => (CallReturned (Err error), rt)
           end
  | CallCommandId request =>
      Some match validate_shape request.(command) with
           | Err error => (CallReturned (Err (invalid_argument (contract_error_text error) None)), rt)
           | Ok _ =>
               let '(id, shared) := next_command_id rt.(rt_shared) in
               (match id with
                | Err error => CallReturned (Err error)
                | Ok id => CallChecks check_failure (CallAcceptedAt id request)
                end, set_rt_shared shared rt)
           end
  | CallAcceptedAt operation_id request =>
      Some (CallTrySend (InputCommand operation_id request) (Some operation_id)
              (ValueReceipt operation_id rt.(rt_shared).(shared_snapshot).(revision)), rt)
  | CallTrySend input operation_id value =>
      Some match queue_try_send (MsgInput input) rt.(rt_mailbox) with
           | (QueueSent, q) => (CallReturned (Ok value), set_rt_mailbox q rt)
           | (QueueFull, _) =>
               (CallReturned (Err (core_error CodeQueueOverflow
                  (lit "authoritative actor queue is full") SeverityError true operation_id)), rt)
           | (QueueClosed, _) => (CallReturned (Err (worker_stopped operation_id)), rt)
           end
  | CallReserve stream entry index =>
      Some (if bool_decide (id ∈ rt.(rt_cancelled)) then CallReturned (Err reservation_cancelled)
            else CallReserveSend stream entry index, rt)
  | CallReserveSend stream entry index =>
      Some match queue_try_send (MsgReserve stream entry index id) rt.(rt_mailbox) with
           | (QueueSent, q) => (CallReserveWait, set_rt_mailbox q rt)
           | (QueueFull, _) =>
               (CallReturned (Err (core_error CodeQueueOverflow
                  (lit "authoritative actor queue is full during boundary reservation")
                  SeverityError true None)), rt)
           | (QueueClosed, _) => (CallReturned (Err (worker_stopped None)), rt)
           end
  | CallReserveWait =>
      Some (if bool_decide (id ∈ rt.(rt_cancelled)) then CallReturned (Err reservation_cancelled)
            else CallReserveReceive, rt)
  | CallReserveReceive =>
      Some match rt.(rt_replies) !! id with
           | Some (Ok _) => (CallReturned (Ok ValueUnit), rt)
           | Some (Err error) => (CallReturned (Err error), rt)
           | None =>
               if reply_possible id rt then (CallChecks ensure_accepting CallReserveWait, rt)
               else (CallReturned (Err (worker_stopped None)), rt)
           end
  | CallReadSnapshot =>
      Some (CallReturned (Ok (ValueSnapshot rt.(rt_shared).(shared_snapshot))), rt)
  | CallReturned _ => None
  end.

(** ** Shutdown *)

Definition result_err {A E : Type} (r : result A E) : option E :=
  match r with Ok _ => None | Err e => Some e end.

Definition describe_error (error : option CoreError) : rstr :=
  match error with Some _ => lit "failed" | None => lit "ok" end.
Definition status_name (failed : bool) : rstr := if failed then lit "failed" else lit "ok".

Definition shutdown_result (queue_error actor_error : option CoreError)
  (send_failed join_failed : bool) (observer_error : option CoreError) : result unit CoreError :=
  match queue_error, actor_error, send_failed, join_failed, observer_error with
  | None, None, false, false, None => Ok tt
  | _, _, _, _, _ =>
      Err (core_error CodeShutdownFailed
        (lit "controlled shutdown failed (queue=" ++ describe_error queue_error
         ++ lit ", actor=" ++ describe_error actor_error
         ++ lit ", notification_send=" ++ status_name send_failed
         ++ lit ", notification_join=" ++ status_name join_failed
         ++ lit ", observer=" ++ describe_error observer_error ++ lit ")") SeverityFatal false None)
  end.

(** [shutdown] with [queue_shutdown]; the notification worker catches the
    observer's panics, so its join succeeds. *)
Definition owner_transition (rt : Runtime) : option Runtime :=
  match rt.(rt_owner) with
  | OwnerRunning =>
      Some (set_rt_owner (if rt.(rt_shared).(accepting) then OwnerCommandId else OwnerJoiningActor None)
              (on_shared (set_accepting false) rt))
  | OwnerCommandId =>
      let '(id, shared) := next_command_id rt.(rt_shared) in
      Some (set_rt_owner (match id with
                          | Err error => OwnerJoiningActor (Some error)
                          | Ok id => OwnerReadRevision id
                          end) (set_rt_shared shared rt))
  | OwnerReadRevision operation_id =>
      Some (set_rt_owner
        match CoreCommandRequest_new rt.(rt_shared).(shared_snapshot).(revision) Shutdown with
        | Err error =>
            OwnerJoiningActor (Some (invalid_argument (contract_error_text error) (Some operation_id)))
        | Ok request => OwnerSending (InputCommand operation_id request)
        end rt)
  | OwnerSending input =>
      match queue_try_send (MsgInput input) rt.(rt_mailbox) with
      | (QueueSent, q) => Some (set_rt_owner (OwnerJoiningActor None) (set_rt_mailbox q rt))
      | (QueueFull, _) => None
      | (QueueClosed, _) => Some (set_rt_owner (OwnerJoiningActor (Some (worker_stopped None))) rt)
      end
  | OwnerJoiningActor queue_error =>
      match rt.(rt_actor) with
      | ActorExited r => Some (set_rt_owner (OwnerStoppingNotifier queue_error (result_err r)) rt)
      | _ => None
      end
  | OwnerStoppingNotifier queue_error actor_error =>
      match queue_try_send NotifyShutdown rt.(rt_notices) with
      | (QueueSent, q) =>
          Some (set_rt_owner (OwnerJoiningNotifier queue_error actor_error false) (set_rt_notices q rt))
      | (QueueFull, _) => None
      | (QueueClosed, _) => Some (set_rt_owner (OwnerJoiningNotifier queue_error actor_error true) rt)
      end
  | OwnerJoiningNotifier queue_error actor_error send_failed =>
      match rt.(rt_notifier) with
      | NotifierExited =>
          Some (set_rt_owner (OwnerReturned (shutdown_result queue_error actor_error send_failed false
                                rt.(rt_shared).(notification_failure))) rt)
      | _ => None
      end
  | OwnerReturned _ => None
  end.

(** ** Executions *)

Inductive rt_label : Type :=
| RunActor
| RunNotifier (answer : observation)
| RunOwner
| RunCall (id : nat)
| BeginCall (id : nat) (entry : { pc : call_pc | entry_point pc })
| CancelCall (id : nat).

(** A label that is not enabled leaves the runtime as it is. *)
Definition rt_exec (label : rt_label) (rt : Runtime) : Runtime :=
  match label with
  | RunActor => default rt (actor_transition rt)
  | RunNotifier answer => default rt (notifier_transition answer rt)
  | RunOwner => default rt (owner_transition rt)
  | RunCall id =>
      match rt.(rt_calls) !! id with
      | None => rt
      | Some (entry, pc) =>
          match call_transition id pc rt with
          | None => rt
          | Some (pc, rt) => set_rt_calls (<[id := (entry, pc)]> rt.(rt_calls)) rt
          end
      end
  | BeginCall id entry =>
      match rt.(rt_calls) !! id with
      | None => set_rt_calls (<[id := (proj1_sig entry, proj1_sig entry)]> rt.(rt_calls)) rt
      | Some _ => rt
      end
  | CancelCall id => set_rt_cancelled ({[id]} ∪ rt.(rt_cancelled)) rt
  end.

Definition rt_run (labels : list rt_label) (rt : Runtime) : Runtime :=
  fold_left (fun rt label => rt_exec label rt) labels rt.

(** [CoreActorRuntime::start] with both threads running; [namespace] is what
    [new_session_id_namespace] returns. *)
Definition start (config : CoreActorConfig) (namespace : rstr) : result Runtime CoreError :=
  let? _ := CoreActorConfig_validate config in
  Ok (mkRuntime (mkActorShared true CoreSnapshot_default None None 1)
        (new_queue config.(actor_queue_capacity)) (new_queue config.(notification_queue_capacity))
        (ActorStarting (new_with_session_id_namespace config.(config_local_device_id)
           (if config.(deterministic_session_ids) then None else Some namespace)))
        NotifierReceiving OwnerRunning ∅ ∅ ∅ [] []).
