(* ===== verification/ActorMailboxProofs.v ===== *)
(** What the runtime around the actor guarantees over every interleaving of its
    threads (ActorMailbox): inputs are applied once and in the order they were
    admitted, the observer is told exactly the actor's history, a boundary is
    granted only when it was committed and published, a clean shutdown leaves
    nothing undelivered. *)
From Stdlib Require Import ZArith Lia Strings.String.
From stdpp Require Import numbers list gmap prelude.
From S2P Require Import Prelude Utf8 Domain Decimal CoreErrors RuntimeTypes HostQueue RuntimeRecords ActorState ActorHandlers ActorLemmas ActorInvariant ActorProofs ActorMailbox.

(** ** Reading the queues *)

Definition note_of (m : NotificationMessage) : option CoreNotification :=
  match m with Notify n => Some n | NotifyShutdown => None end.
Definition input_of (m : ActorMessage) : option CoreActorInput :=
  match m with MsgInput i => Some i | MsgReserve _ _ _ _ => None end.
Definition step_of (s : ActorStep) : option CoreActorInput :=
  match s with StepInput i => Some i | StepReserve _ _ _ => None end.

(** The notifications handed over so far, and those the observer was called with. *)
Definition notes (rt : Runtime) : list CoreNotification := omap note_of (entered rt.(rt_notices)).
Definition observed (rt : Runtime) : list CoreNotification := omap note_of rt.(rt_notices).(q_taken).

Lemma omap_snoc {A B : Type} (f : A -> option B) (l : list A) (x : A) :
  omap f (l ++ [x]) = omap f l ++ (match f x with Some y => [y] | None => [] end).
Proof. by rewrite omap_app. Qed.

Lemma entered_try_send {A : Type} (x : A) (q : Queue A) :
  match queue_try_send x q with
  | (QueueSent, q') => entered q' = entered q ++ [x] /\ q'.(q_taken) = q.(q_taken)
                       /\ q.(q_open) = true /\ q'.(q_open) = true /\ q'.(q_capacity) = q.(q_capacity)
  | (_, q') => q' = q
  end.
Proof.
  unfold queue_try_send. destruct (q_open q) eqn:E; [|done]. cbn [negb].
  destruct (_ <=? _); [done|]. unfold entered. cbn. by rewrite app_assoc.
Qed.

Lemma entered_recv {A : Type} (x : A) (q q' : Queue A) :
  queue_recv q = Some (x, q') ->
  entered q' = entered q /\ q'.(q_taken) = q.(q_taken) ++ [x] /\ q'.(q_open) = q.(q_open)
  /\ q'.(q_capacity) = q.(q_capacity).
Proof.
  unfold queue_recv. destruct (q_items q) as [|y items] eqn:E; [done|]. intros [= -> <-].
  unfold entered. cbn. by rewrite E, <- app_assoc.
Qed.

(** ** The actor's history *)

Fixpoint history_notifications (self : ActorState) (steps : list ActorStep) : list CoreNotification :=
  match steps with
  | [] => []
  | step :: steps =>
      actor_notifications self step ++ history_notifications (actor_step self step) steps
  end.

(** All the notifications of a history, the initial snapshot first. *)
Definition emitted (init : ActorState) (log : list ActorStep) : list CoreNotification :=
  NotifySnapshot init.(snapshot) :: history_notifications init log.

Lemma actor_run_snoc (init : ActorState) (log : list ActorStep) (step : ActorStep) :
  actor_run (log ++ [step]) init = actor_step (actor_run log init) step.
Proof. unfold actor_run. by rewrite fold_left_app. Qed.

Lemma emitted_snoc (init : ActorState) (log : list ActorStep) (step : ActorStep) :
  emitted init (log ++ [step]) = emitted init log ++ actor_notifications (actor_run log init) step.
Proof.
  unfold emitted. cbn [app]. f_equal. revert init. induction log as [|s log IH]; intros init; cbn.
  - by rewrite app_nil_r.
  - by rewrite IH, app_assoc.
Qed.

Lemma history_published (self : ActorState) (steps : list ActorStep) :
  omap snapshot_of (history_notifications self steps) = published self steps.
Proof.
  revert self. induction steps as [|s steps IH]; intros self; [done|].
  cbn [history_notifications published]. by rewrite omap_app, IH.
Qed.

Lemma revision_grows (init : ActorState) (log more : list ActorStep) :
  (actor_run log init).(snapshot).(revision) <= (actor_run (log ++ more) init).(snapshot).(revision).
Proof.
  revert log. induction more as [|s more IH]; intros log; [by rewrite app_nil_r|].
  replace (log ++ s :: more) with ((log ++ [s]) ++ more) by by rewrite <- app_assoc.
  etrans; [|apply IH]. rewrite actor_run_snoc.
  destruct (step_commits (actor_run log init) s) as [|o st sn _ _ _ -> _ _]; [done|].
  cbn. lia.
Qed.

(** ** Invariant *)

Section Invariant.
Context (init : ActorState).

(** A boundary call whose reservation was committed and published. *)
Definition granted (id : nat) (rt : Runtime) : Prop :=
  exists stream entry index before after,
    MsgReserve stream entry index id ∈ rt.(rt_mailbox).(q_taken)
    /\ rt.(rt_log) = before ++ StepReserve stream entry index :: after
    /\ is_ok (reserve_track_boundary (actor_run before init) stream entry index).2 = true
    /\ emitted init (before ++ [StepReserve stream entry index]) `prefix_of` notes rt.

(** What the actor holds at each point: its state is the run of the log, the
    shared snapshot is its snapshot, and what it has not handed over yet is
    pending. *)
Definition actor_ok (rt : Runtime) : Prop :=
  let st := actor_run rt.(rt_log) init in
  let inputs := omap input_of rt.(rt_mailbox).(q_taken) in
  let applied := omap step_of rt.(rt_log) in
  rt.(rt_shared).(shared_snapshot) = st.(snapshot)
  /\ match rt.(rt_actor) with
     | ActorStarting st' =>
         st' = init /\ rt.(rt_log) = [] /\ entered rt.(rt_notices) = [] /\ rt.(rt_mailbox).(q_taken) = []
         /\ rt.(rt_notifier) = NotifierReceiving
     | ActorReceiving st' => st' = st /\ notes rt = emitted init rt.(rt_log) /\ applied = inputs
     | ActorGot st' message =>
         st' = st /\ notes rt = emitted init rt.(rt_log)
         /\ exists before, rt.(rt_mailbox).(q_taken) = before ++ [message] /\ applied = omap input_of before
     | ActorNotifying st' pending reply _ =>
         st' = st /\ notes rt ++ pending = emitted init rt.(rt_log) /\ applied = inputs
         /\ match reply with
            | None => True
            | Some id => exists stream entry index before,
                MsgReserve stream entry index id ∈ rt.(rt_mailbox).(q_taken)
                /\ rt.(rt_log) = before ++ [StepReserve stream entry index]
                /\ is_ok (reserve_track_boundary (actor_run before init) stream entry index).2 = true
            end
     | ActorReturning r | ActorExited r =>
         notes rt `prefix_of` emitted init rt.(rt_log) /\ applied = inputs
         /\ rt.(rt_shared).(accepting) = false
         /\ match r with
            | Ok _ => notes rt = emitted init rt.(rt_log)
            | Err _ => is_Some rt.(rt_shared).(actor_failure)
            end
     end.

Definition notifier_ok (rt : Runtime) : Prop :=
  1 <= rt.(rt_notices).(q_capacity)
  /\ match rt.(rt_notifier) with
     | NotifierExited =>
         rt.(rt_notices).(q_open) = false
         /\ (is_Some rt.(rt_shared).(notification_failure) \/ last rt.(rt_notices).(q_taken) = Some NotifyShutdown)
     | _ => rt.(rt_notices).(q_open) = true
     end.

Definition owner_ok (rt : Runtime) : Prop :=
  match rt.(rt_owner) with
  | OwnerRunning | OwnerCommandId | OwnerReadRevision _ | OwnerSending _ | OwnerJoiningActor _ =>
      entered rt.(rt_notices) = map Notify (notes rt)
  | OwnerStoppingNotifier _ actor_error =>
      entered rt.(rt_notices) = map Notify (notes rt)
      /\ exists r, rt.(rt_actor) = ActorExited r /\ actor_error = result_err r
  | OwnerJoiningNotifier _ actor_error send_failed =>
      entered rt.(rt_notices) = map Notify (notes rt) ++ (if send_failed then [] else [NotifyShutdown])
      /\ exists r, rt.(rt_actor) = ActorExited r /\ actor_error = result_err r
  | OwnerReturned r =>
      (exists r, rt.(rt_actor) = ActorExited r)
      /\ (r = Ok tt ->
          rt.(rt_notices).(q_taken) = map Notify (notes rt) ++ [NotifyShutdown]
          /\ rt.(rt_notices).(q_items) = [] /\ rt.(rt_actor) = ActorExited (Ok tt)
          /\ rt.(rt_notifier) = NotifierExited)
  end.

Definition is_reserve (entry : call_pc) : Prop :=
  exists stream id index, entry = reserve_host_track_boundary stream id index.

Fixpoint call_ok (id : nat) (entry pc : call_pc) (rt : Runtime) : Prop :=
  match pc with
  | CallChecks _ next => call_ok id entry next rt
  | CallReserve s e i | CallReserveSend s e i => entry = reserve_host_track_boundary s e i
  | CallReserveWait | CallReserveReceive => is_reserve entry
  | CallReturned (Ok _) => is_reserve entry -> granted id rt
  | CallReturned (Err _) => True
  | _ => ~ is_reserve entry
  end.

(** A refused effect reached the actor as its failure, or delivery has failed. *)
Definition refusal_ok (rt : Runtime) (n : CoreNotification) : Prop :=
  is_Some rt.(rt_shared).(notification_failure)
  \/ exists effect error, RefusableEffect_of n = Some effect
       /\ MsgInput (failure_input effect error) ∈ entered rt.(rt_mailbox).

Record rt_ok (rt : Runtime) : Prop := {
ok_actor : actor_ok rt;
ok_notifier : notifier_ok rt;
ok_owner : owner_ok rt;
ok_calls : forall id entry pc, rt.(rt_calls) !! id = Some (entry, pc) -> call_ok id entry pc rt;
ok_messages : forall s e i id, MsgReserve s e i id ∈ entered rt.(rt_mailbox) ->
  exists pc, rt.(rt_calls) !! id = Some (reserve_host_track_boundary s e i, pc);
ok_replies : forall id, rt.(rt_replies) !! id = Some (Ok tt) -> granted id rt;
ok_refused : forall n, n ∈ rt.(rt_refused) -> refusal_ok rt n
}.

(** ** What no transition undoes *)

Record grows (rt rt' : Runtime) : Prop := {
grows_taken : rt.(rt_mailbox).(q_taken) `prefix_of` rt'.(rt_mailbox).(q_taken);
grows_entered : entered rt.(rt_mailbox) `prefix_of` entered rt'.(rt_mailbox);
grows_log : rt.(rt_log) `prefix_of` rt'.(rt_log);
grows_notes : notes rt `prefix_of` notes rt';
grows_failure : is_Some rt.(rt_shared).(notification_failure) ->
  is_Some rt'.(rt_shared).(notification_failure);
grows_calls : forall id entry pc, rt.(rt_calls) !! id = Some (entry, pc) ->
  exists pc', rt'.(rt_calls) !! id = Some (entry, pc')
}.

#[export] Instance grows_refl : Reflexive grows.
Proof. intros rt. split; try done; eauto. Qed.

Lemma prefix_elem {A : Type} (x : A) (l l' : list A) : l `prefix_of` l' -> x ∈ l -> x ∈ l'.
Proof. intros [k ->]. rewrite elem_of_app. by left. Qed.

Lemma granted_grows (id : nat) (rt rt' : Runtime) : grows rt rt' -> granted id rt -> granted id rt'.
Proof.
  intros Hg (s & e & i & before & after & Hm & Hlog & Hok & Hp).
  destruct (grows_log _ _ Hg) as [more Hmore].
  exists s, e, i, before, (after ++ more). split_and!; [|by rewrite Hmore, Hlog, <- app_assoc|done|].
  - by eapply prefix_elem; [apply Hg|].
  - etrans; [exact Hp|apply Hg].
Qed.

Lemma call_ok_grows (id : nat) (entry pc : call_pc) (rt rt' : Runtime) :
  grows rt rt' -> call_ok id entry pc rt -> call_ok id entry pc rt'.
Proof.
  intros Hg. induction pc as [checks next IH| | | | | | | | |[v|e]]; cbn; auto.
  intros H Hr. by eapply granted_grows, H.
Qed.

Lemma refusal_grows (n : CoreNotification) (rt rt' : Runtime) :
  grows rt rt' -> refusal_ok rt n -> refusal_ok rt' n.
Proof.
  intros Hg [Hf|(effect & error & He & Hm)]; [by left; apply (grows_failure _ _ Hg)|].
  right. exists effect, error. split; [done|]. by eapply prefix_elem; [apply Hg|].
Qed.

(** A transition only has to show what it changed. *)
Lemma rt_ok_step (rt rt' : Runtime) :
  rt_ok rt -> grows rt rt' -> actor_ok rt' -> notifier_ok rt' -> owner_ok rt' ->
  (forall id entry pc, rt'.(rt_calls) !! id = Some (entry, pc) ->
     rt.(rt_calls) !! id = Some (entry, pc) \/ call_ok id entry pc rt') ->
  (forall s e i id, MsgReserve s e i id ∈ entered rt'.(rt_mailbox) ->
     MsgReserve s e i id ∈ entered rt.(rt_mailbox)
     \/ exists pc, rt'.(rt_calls) !! id = Some (reserve_host_track_boundary s e i, pc)) ->
  (forall id, rt'.(rt_replies) !! id = Some (Ok tt) ->
     rt.(rt_replies) !! id = Some (Ok tt) \/ granted id rt') ->
  (forall n, n ∈ rt'.(rt_refused) -> n ∈ rt.(rt_refused) \/ refusal_ok rt' n) ->
  rt_ok rt'.
Proof.
  intros Hok Hg Ha Hn Ho Hc Hm Hr Href. split; try done.
  - intros id entry pc H. destruct (Hc _ _ _ H) as [H'|?]; [|done].
    eapply call_ok_grows; [exact Hg|]. by apply (ok_calls _ Hok).
  - intros s e i id H. destruct (Hm _ _ _ _ H) as [H'|?]; [|done].
    destruct (ok_messages _ Hok _ _ _ _ H') as [pc Hpc]. by apply (grows_calls _ _ Hg) in Hpc.
  - intros id H. destruct (Hr _ H) as [H'|?]; [|done].
    eapply granted_grows; [exact Hg|]. by apply (ok_replies _ Hok).
  - intros n H. destruct (Href _ H) as [H'|?]; [|done].
    eapply refusal_grows; [exact Hg|]. by apply (ok_refused _ Hok).
Qed.

(** ** The actor's transitions *)

Definition early (o : owner_pc) : Prop :=
  match o with
  | OwnerStoppingNotifier _ _ | OwnerJoiningNotifier _ _ _ | OwnerReturned _ => False
  | _ => True
  end.

Definition exited (pc : actor_pc) : bool := match pc with ActorExited _ => true | _ => false end.

Lemma owner_alive (rt : Runtime) :
  owner_ok rt -> exited rt.(rt_actor) = false ->
  early rt.(rt_owner) /\ entered rt.(rt_notices) = map Notify (notes rt).
Proof.
  unfold owner_ok. destruct (rt_owner rt); intros H Hx; try done.
  - destruct H as (_ & r & Hr & _). by rewrite Hr in Hx.
  - destruct H as (_ & r & Hr & _). by rewrite Hr in Hx.
  - destruct H as ((r' & Hr) & _). by rewrite Hr in Hx.
Qed.

Lemma owner_early (rt : Runtime) :
  early rt.(rt_owner) -> entered rt.(rt_notices) = map Notify (notes rt) -> owner_ok rt.
Proof. unfold owner_ok. by destruct (rt_owner rt). Qed.

(** Handing over one notification. *)
Lemma send_notification_spec (n : CoreNotification) (rt : Runtime) :
  match send_notification n rt with
  | (Ok _, rt') => exists q, rt' = set_rt_notices q rt /\ entered q = entered rt.(rt_notices) ++ [Notify n]
                             /\ q.(q_taken) = rt.(rt_notices).(q_taken) /\ rt.(rt_notices).(q_open) = true
                             /\ q.(q_open) = true /\ q.(q_capacity) = rt.(rt_notices).(q_capacity)
  | (Err _, rt') => rt' = rt
  end.
Proof.
  unfold send_notification. pose proof (entered_try_send (Notify n) rt.(rt_notices)) as H.
  destruct (queue_try_send _ _) as [[| |] q]; [|done..]. exists q. naive_solver.
Qed.

Lemma notes_snoc (n : CoreNotification) (q : Queue NotificationMessage) (rt : Runtime) :
  entered q = entered rt.(rt_notices) ++ [Notify n] -> notes (set_rt_notices q rt) = notes rt ++ [n].
Proof. intros H. unfold notes. cbn [rt_notices set_rt_notices]. by rewrite H, omap_snoc. Qed.

(** The two outcomes of one more notification. *)
Lemma notify_ok (rt : Runtime) (n : CoreNotification) (q : Queue NotificationMessage) (pc : actor_pc) :
  rt_ok rt -> exited rt.(rt_actor) = false -> rt.(rt_notices).(q_open) = true ->
  entered q = entered rt.(rt_notices) ++ [Notify n] -> q.(q_taken) = rt.(rt_notices).(q_taken) ->
  q.(q_open) = true -> q.(q_capacity) = rt.(rt_notices).(q_capacity) ->
  actor_ok (set_rt_actor pc (set_rt_notices q rt)) ->
  rt_ok (set_rt_actor pc (set_rt_notices q rt)).
Proof.
  intros Hok Hx Hopen He Ht Ho Hc Ha.
  destruct (owner_alive rt (ok_owner _ Hok) Hx) as [Hearly Hown].
  apply (rt_ok_step rt); cbn; try done; auto.
  - split; cbn; try done; eauto. change (notes (set_rt_actor pc (set_rt_notices q rt)))
      with (notes (set_rt_notices q rt)). rewrite (notes_snoc n q rt He). by apply prefix_app_r.
  - destruct (ok_notifier _ Hok) as [H1 H2]. split; cbn; [lia|].
    destruct (rt_notifier rt); try done. destruct H2. congruence.
  - apply owner_early; [done|]. change (notes (set_rt_actor pc (set_rt_notices q rt)))
      with (notes (set_rt_notices q rt)). rewrite (notes_snoc n q rt He).
    cbn. rewrite He, Hown, map_app. done.
Qed.

(** A transition of the actor that touches neither queue nor calls. *)
Lemma actor_moves (rt rt' : Runtime) :
  rt_ok rt -> actor_ok rt' -> exited rt.(rt_actor) = false ->
  rt'.(rt_notices) = rt.(rt_notices) -> rt'.(rt_notifier) = rt.(rt_notifier) ->
  rt'.(rt_owner) = rt.(rt_owner) -> rt'.(rt_calls) = rt.(rt_calls) -> rt'.(rt_refused) = rt.(rt_refused) ->
  rt'.(rt_shared).(notification_failure) = rt.(rt_shared).(notification_failure) ->
  rt.(rt_mailbox).(q_taken) `prefix_of` rt'.(rt_mailbox).(q_taken) ->
  entered rt'.(rt_mailbox) = entered rt.(rt_mailbox) -> rt.(rt_log) `prefix_of` rt'.(rt_log) ->
  (forall id, rt'.(rt_replies) !! id = Some (Ok tt) ->
     rt.(rt_replies) !! id = Some (Ok tt) \/ granted id rt') ->
  rt_ok rt'.
Proof.
  intros Hok Ha Hx Hn Hnf Ho Hc Hr Hf Ht He Hl Hrep.
  assert (notes rt' = notes rt) as Hnotes by (unfold notes; by rewrite Hn).
  destruct (owner_alive rt (ok_owner _ Hok) Hx) as [Hearly Hown].
  apply (rt_ok_step rt); try done.
  - split; rewrite ?Hf, ?Hc, ?He, ?Hnotes; try done; eauto.
  - destruct (ok_notifier _ Hok) as [H1 H2]. unfold notifier_ok. rewrite Hn, Hnf, Hf. done.
  - apply owner_early; [by rewrite Ho|]. by rewrite Hn, Hnotes.
  - rewrite Hc. auto.
  - rewrite He. auto.
  - rewrite Hr. auto.
Qed.

Lemma prefix_snoc_self {A : Type} (l : list A) (x : A) : l `prefix_of` l ++ [x].
Proof. by exists [x]. Qed.

(** The message is applied: its step joins the log and its notifications the
    pending ones. *)
Lemma handle_message_ok (rt : Runtime) (st : ActorState) (message : ActorMessage) :
  rt_ok rt -> rt.(rt_actor) = ActorGot st message -> rt_ok (handle_message st message rt).
Proof.
  intros Hok Hpc. pose proof (ok_actor _ Hok) as (Hsn & Ha). rewrite Hpc in Ha.
  destruct Ha as (-> & Hnotes & before & Htaken & Happ).
  assert (exited rt.(rt_actor) = false) as Hx by (by rewrite Hpc).
  set (st := actor_run rt.(rt_log) init) in *.
  destruct message as [input|s e i id]; cbn [handle_message].
  - destruct (process st input) as [st' r] eqn:E.
    assert (actor_step st (StepInput input) = st') as Est by (cbn; by rewrite E).
    apply (actor_moves rt); try done; cbn; try (apply prefix_snoc_self); auto.
    unfold actor_ok. cbn -[emitted]. rewrite actor_run_snoc. fold st. rewrite Est. split_and!; try done.
    + change (notes _) with (notes rt). rewrite Hnotes, emitted_snoc. cbn. fold st. by rewrite E.
    + rewrite omap_snoc, Htaken, omap_snoc, Happ. done.
  - destruct (bool_decide (id ∈ rt_cancelled rt)).
    + apply (actor_moves rt); try done; cbn.
      * unfold actor_ok. cbn -[emitted]. split_and!; try done. rewrite Htaken, omap_snoc. cbn.
        by rewrite app_nil_r.
      * intros id' H. left. destruct (decide (id = id')) as [->|Hne];
          [by rewrite lookup_insert_eq in H|by rewrite lookup_insert_ne in H].
    + destruct (reserve_track_boundary st s e i) as [st' outcome] eqn:E.
      assert (actor_step st (StepReserve s e i) = st') as Est by (cbn; by rewrite E).
      destruct outcome as [r|error].
      * apply (actor_moves rt); try done; cbn; try (apply prefix_snoc_self); auto.
        unfold actor_ok. cbn -[emitted]. rewrite actor_run_snoc. fold st. rewrite Est. split_and!; try done.
        -- change (notes _) with (notes rt). rewrite Hnotes, emitted_snoc. cbn. fold st. by rewrite E.
        -- by rewrite omap_snoc, Htaken, omap_snoc, Happ.
        -- exists s, e, i, rt.(rt_log). split_and!; [|done|by fold st; rewrite E].
           rewrite Htaken. apply elem_of_app. right. by apply list_elem_of_singleton.
      * assert (st' = st /\ actor_notifications st (StepReserve s e i) = []) as [-> Hnil].
        { split; [|cbn; by rewrite E]. unfold reserve_track_boundary in E. by repeat case_match; simplify_eq. }
        apply (actor_moves rt); try done; cbn; try (apply prefix_snoc_self).
        -- unfold actor_ok. cbn -[emitted]. rewrite actor_run_snoc. fold st. rewrite Est. split_and!; try done.
           ++ change (notes _) with (notes rt). rewrite Hnotes, emitted_snoc. fold st.
              by rewrite Hnil, app_nil_r.
           ++ by rewrite omap_snoc, Htaken, omap_snoc, Happ.
        -- intros id' H. left. destruct (decide (id = id')) as [->|Hne];
             [by rewrite lookup_insert_eq in H|by rewrite lookup_insert_ne in H].
Qed.

Lemma actor_transition_ok (rt rt' : Runtime) :
  rt_ok rt -> actor_transition rt = Some rt' -> rt_ok rt'.
Proof.
  intros Hok. unfold actor_transition.
  pose proof (ok_actor _ Hok) as (Hsn & Ha).
  destruct (rt_actor rt) as [st|st|st message|st [|n pending] reply stop|r|r] eqn:Hpc; try done.
  - destruct Ha as (-> & Hlog & He & Htk & Hnr). intros [= <-].
    pose proof (send_notification_spec (NotifySnapshot (snapshot init)) rt) as H.
    destruct (ok_notifier _ Hok) as [Hcap Hopen]. rewrite Hnr in Hopen.
    unfold send_notification in *. unfold queue_try_send in *. rewrite Hopen in *. cbn [negb] in *.
    assert (q_items (rt_notices rt) = [] /\ q_taken (rt_notices rt) = []) as [Hi Ht].
    { unfold entered in He. by apply app_eq_nil in He as [-> ->]. }
    rewrite Hi in *. replace (q_capacity (rt_notices rt) <=? len []) with false in *
      by (symmetry; apply Z.leb_gt; rewrite len_nil; lia).
    destruct H as (q & Heq & H1 & H2 & _ & H3 & H4). rewrite Heq.
    apply (notify_ok rt (NotifySnapshot (snapshot init))); try done; [by rewrite Hpc|].
    unfold actor_ok. cbn -[emitted]. rewrite Hlog. cbn. rewrite Hlog in Hsn. split_and!; try done.
    + unfold notes. cbn. by rewrite H1, He.
    + by rewrite Htk.
  - destruct (queue_recv _) as [[message q]|] eqn:E; [|done]. intros [= <-].
    apply entered_recv in E as (He & Ht & _). destruct Ha as (-> & Hn & Happ).
    apply (actor_moves rt); try done; cbn; rewrite ?Hpc, ?Ht; auto using prefix_snoc_self.
    unfold actor_ok. cbn -[emitted]. split_and!; try done. exists (q_taken (rt_mailbox rt)). by rewrite Happ.
  - intros [= <-]. by apply handle_message_ok.
  - destruct Ha as (-> & Hn & Happ & Hrep). rewrite app_nil_r in Hn.
    destruct reply as [id|]; [|destruct stop]; intros [= <-].
    + apply (actor_moves rt); try done; cbn; rewrite ?Hpc; auto.
      * unfold actor_ok. cbn -[emitted]. rewrite app_nil_r. done.
      * destruct Hrep as (s & e & i & before & Hm & Hl & Hres). intros id' H.
        destruct (decide (id = id')) as [<-|Hne]; [|left; by rewrite lookup_insert_ne in H].
        right. exists s, e, i, before, []. split_and!; try done. cbn -[emitted]. change (notes _) with (notes rt).
        by rewrite Hn, Hl.
    + apply (actor_moves rt); try done; cbn; rewrite ?Hpc; auto.
      unfold actor_ok. cbn -[emitted]. split_and!; try done. change (notes _) with (notes rt). by rewrite Hn.
    + apply (actor_moves rt); try done; cbn; rewrite ?Hpc; auto.
  - intros [= <-]. destruct Ha as (-> & Hn & Happ & Hrep).
    pose proof (send_notification_spec n rt) as H.
    destruct (send_notification n rt) as [[u|error] rt1].
    + destruct H as (q & -> & H1 & H2 & H3 & H4 & H5).
      apply (notify_ok rt n); try done; [by rewrite Hpc|].
      unfold actor_ok. cbn -[emitted]. split_and!; try done.
      change (notes _) with (notes (set_rt_notices q rt)). by rewrite (notes_snoc n q rt H1), <- app_assoc.
    + subst rt1. apply (actor_moves rt); try done; cbn; rewrite ?Hpc; auto.
      unfold actor_ok. cbn -[emitted]. split_and!; try done.
      * exists (n :: pending). by rewrite <- Hn.
      * unfold first_failure. destruct (actor_failure _); eauto.
  - intros [= <-]. apply (actor_moves rt); try done; cbn; rewrite ?Hpc; auto.
Qed.

(** ** The other threads *)

(** Nothing the actor relies on changes: at most messages are added to its
    mailbox. *)
Record actor_untouched (rt rt' : Runtime) : Prop := {
same_actor : rt'.(rt_actor) = rt.(rt_actor);
same_log : rt'.(rt_log) = rt.(rt_log);
same_taken : rt'.(rt_mailbox).(q_taken) = rt.(rt_mailbox).(q_taken);
same_notes : entered rt'.(rt_notices) = entered rt.(rt_notices);
same_snapshot : rt'.(rt_shared).(shared_snapshot) = rt.(rt_shared).(shared_snapshot);
same_failure : rt'.(rt_shared).(actor_failure) = rt.(rt_shared).(actor_failure);
same_accepting : rt'.(rt_shared).(accepting) = true -> rt.(rt_shared).(accepting) = true;
same_starting : rt.(rt_notifier) = NotifierReceiving -> entered rt.(rt_notices) = [] ->
  rt'.(rt_notifier) = NotifierReceiving
}.

Lemma actor_ok_untouched (rt rt' : Runtime) : actor_untouched rt rt' -> actor_ok rt -> actor_ok rt'.
Proof.
  intros [H1 H2 H3 H4 H5 H6 H7 H8] [Hs Ha].
  assert (notes rt' = notes rt) as Hn by (unfold notes; by rewrite H4).
  unfold actor_ok. rewrite H1, H2, H3, H4, H5, H6, Hn. split; [done|].
  destruct (rt_actor rt); try done.
  - naive_solver.
  - destruct Ha as (? & ? & Hacc & ?). split_and!; try done.
    destruct (accepting (rt_shared rt')) eqn:E; [|done]. by rewrite (H7 eq_refl) in Hacc.
  - destruct Ha as (? & ? & Hacc & ?). split_and!; try done.
    destruct (accepting (rt_shared rt')) eqn:E; [|done]. by rewrite (H7 eq_refl) in Hacc.
Qed.

Lemma notifier_transition_ok (answer : observation) (rt rt' : Runtime) :
  rt_ok rt -> notifier_transition answer rt = Some rt' -> rt_ok rt'.
Proof.
  intros Hok. pose proof (ok_notifier _ Hok) as [Hcap Hn]. unfold notifier_transition.
  assert (rt_notifier rt <> NotifierExited -> forall rt1,
            rt_owner rt1 = rt_owner rt -> rt_actor rt1 = rt_actor rt ->
            entered (rt_notices rt1) = entered (rt_notices rt) -> owner_ok rt1) as Hown.
  { intros Hne rt1 H1 H2 H3. pose proof (ok_owner _ Hok) as Ho. unfold owner_ok in *.
    assert (notes rt1 = notes rt) as -> by (unfold notes; by rewrite H3). rewrite H1, H2, H3.
    destruct (rt_owner rt); try done. destruct Ho as (? & Ho). split; [done|]. intros Hr. naive_solver. }
  destruct (rt_notifier rt) as [|n|] eqn:E; [| |done].
  - destruct (queue_recv _) as [[m q]|] eqn:Er; [|done].
    apply entered_recv in Er as (He & Ht & Hop & Hc). pose proof Ht as Ht'.
    assert (entered (rt_notices rt) <> []) as Hne.
    { rewrite <- He. unfold entered. rewrite Ht. by destruct (q_taken (rt_notices rt)). }
    destruct m as [n|]; intros [= <-].
    + apply (rt_ok_step rt); cbn; [exact Hok| | | | |auto|auto|auto|auto].
      * split; cbn; try done; eauto. unfold notes. cbn. by rewrite He.
      * eapply actor_ok_untouched; [|apply (ok_actor _ Hok)]. by split; cbn.
      * split; cbn; [lia|]. by rewrite Hop.
      * by apply Hown.
    + apply (rt_ok_step rt); cbn; [exact Hok| | | | |auto|auto|auto|auto].
      * split; cbn; try done; eauto. unfold notes. cbn. unfold entered in *. cbn. by rewrite He.
      * eapply actor_ok_untouched; [|apply (ok_actor _ Hok)]. by split; cbn.
      * split; cbn; [lia|]. split; [done|]. right. by rewrite Ht, last_snoc.
      * by apply Hown.
  - assert (forall e, let rt1 := exit_notifier (on_shared (record_notification_failure e) rt) in
      forall refused, (forall x, x ∈ refused -> x ∈ rt.(rt_refused) \/ x = n) -> rt_ok (set_rt_refused refused rt1)) as Hexit.
    { intros e rt1 refused Hrf. assert (is_Some (first_failure (notification_failure (rt_shared rt)) e)) as Hff.
      { unfold first_failure. destruct (notification_failure _); eauto. }
      apply (rt_ok_step rt); cbn; [exact Hok| | | | |auto|auto|auto| ].
      - split; cbn; try done; eauto.
      - eapply actor_ok_untouched; [|apply (ok_actor _ Hok)]. split; cbn; try done. by rewrite E.
      - split; cbn; [lia|]. auto.
      - by apply Hown.
      - intros x Hx. destruct (Hrf x Hx); [by left|right; by left]. }
    intros [= <-]. destruct answer as [|error|].
    + apply (rt_ok_step rt); cbn; [exact Hok| | | | |auto|auto|auto|auto].
      * split; cbn; try done; eauto.
      * eapply actor_ok_untouched; [|apply (ok_actor _ Hok)]. by split; cbn.
      * split; cbn; [lia|done].
      * by apply Hown.
    + assert (forall x, x ∈ rt_refused rt ++ [n] -> x ∈ rt_refused rt \/ x = n) as Hrf.
      { intros x [Hx|Hx]%elem_of_app; [by left|right]. by apply list_elem_of_singleton in Hx. }
      unfold refuse_notification. destruct (RefusableEffect_of n) as [effect|] eqn:Ef;
        [|apply (Hexit error _ Hrf)].
      pose proof (entered_try_send (MsgInput (failure_input effect error)) (rt_mailbox rt)) as Hq.
      cbn [rt_mailbox set_rt_refused].
      destruct (queue_try_send _ (rt_mailbox rt)) as [[| |] q]; [|apply (Hexit error _ Hrf)..].
      destruct Hq as (He & Ht & _).
      apply (rt_ok_step rt); cbn; [exact Hok| | | | |auto| |auto| ].
      * split; cbn; try done; eauto; rewrite ?Ht, ?He; auto using prefix_snoc_self.
      * eapply actor_ok_untouched; [|apply (ok_actor _ Hok)]. by split; cbn.
      * split; cbn; [lia|done].
      * by apply Hown.
      * intros s e i id Hm. rewrite He in Hm. apply elem_of_app in Hm as [Hm|Hm]; [by left|].
        by apply list_elem_of_singleton in Hm.
      * intros x Hx. destruct (Hrf x Hx) as [|Hxn]; [by left|subst x]. right. right. exists effect, error.
        split; [done|]. cbn. rewrite He. apply elem_of_app. right. by apply list_elem_of_singleton.
    + apply (Hexit _ rt.(rt_refused)). by left.
Qed.

(** A call moves to [pc] and leaves the threads as they are. *)
Lemma call_moves (rt rt' : Runtime) (id : nat) (entry pc : call_pc) :
  rt_ok rt -> rt'.(rt_calls) = <[id := (entry, pc)]> rt.(rt_calls) ->
  (forall entry' pc', rt.(rt_calls) !! id = Some (entry', pc') -> entry' = entry) ->
  rt'.(rt_actor) = rt.(rt_actor) -> rt'.(rt_log) = rt.(rt_log) ->
  rt'.(rt_notices) = rt.(rt_notices) -> rt'.(rt_notifier) = rt.(rt_notifier) ->
  rt'.(rt_owner) = rt.(rt_owner) -> rt'.(rt_replies) = rt.(rt_replies) ->
  rt'.(rt_refused) = rt.(rt_refused) ->
  rt'.(rt_shared) = rt.(rt_shared) \/ (exists n, rt'.(rt_shared) = set_next_command_sequence n rt.(rt_shared)) ->
  rt'.(rt_mailbox).(q_taken) = rt.(rt_mailbox).(q_taken) ->
  (entered rt'.(rt_mailbox) = entered rt.(rt_mailbox)
   \/ exists m, entered rt'.(rt_mailbox) = entered rt.(rt_mailbox) ++ [m]
        /\ forall s e i id', m = MsgReserve s e i id' ->
             id' = id /\ entry = reserve_host_track_boundary s e i) ->
  call_ok id entry pc rt' -> rt_ok rt'.
Proof.
  intros Hok Hc Hentry H1 H2 H3 H4 H5 H6 H7 H8 H9 H10 Hcall.
  assert (grows rt rt') as Hg.
  { split; rewrite ?H2, ?H9; try done.
    - destruct H10 as [->|(m & -> & _)]; [done|apply prefix_snoc_self].
    - unfold notes. by rewrite H3.
    - by destruct H8 as [->|[n ->]].
    - intros id' entry' pc' H. rewrite Hc. destruct (decide (id = id')) as [<-|Hne].
      + rewrite lookup_insert_eq. rewrite (Hentry _ _ H). eauto.
      + rewrite lookup_insert_ne by done. eauto. }
  apply (rt_ok_step rt); try done.
  - eapply actor_ok_untouched; [|apply (ok_actor _ Hok)].
    split; rewrite ?H1, ?H2, ?H3, ?H4, ?H9; try done; by destruct H8 as [->|[n ->]].
  - pose proof (ok_notifier _ Hok) as Hn. unfold notifier_ok in *. rewrite H3, H4.
    by destruct H8 as [->|[n ->]].
  - pose proof (ok_owner _ Hok) as Ho. unfold owner_ok, notes in *. by rewrite H1, H3, H4, H5.
  - intros id' entry' pc' H. rewrite Hc in H. destruct (decide (id = id')) as [<-|Hne].
    + rewrite lookup_insert_eq in H. injection H as <- <-. by right.
    + rewrite lookup_insert_ne in H by done. by left.
  - intros s e i id' H. destruct H10 as [<-|(m & Hm & Hres)]; [by left|].
    rewrite Hm in H. apply elem_of_app in H as [H|H]; [by left|]. right.
    apply list_elem_of_singleton in H as <-. destruct (Hres _ _ _ _ eq_refl) as [-> ->].
    exists pc. by rewrite Hc, lookup_insert_eq.
  - intros id' H. rewrite H6 in H. by left.
  - intros n H. rewrite H7 in H. by left.
Qed.

Lemma next_command_shared (s : ActorShared) :
  (next_command_id s).2 = s \/ exists n, (next_command_id s).2 = set_next_command_sequence n s.
Proof. unfold next_command_id. destruct (checked_add _ _ _); [right|left]; eauto. Qed.

Lemma call_transition_ok (rt rt1 : Runtime) (id : nat) (entry pc pc' : call_pc) :
  rt_ok rt -> rt.(rt_calls) !! id = Some (entry, pc) -> call_transition id pc rt = Some (pc', rt1) ->
  rt_ok (set_rt_calls (<[id := (entry, pc')]> rt1.(rt_calls)) rt1).
Proof.
  intros Hok Hpc Ht. pose proof (ok_calls _ Hok _ _ _ Hpc) as Hcall.
  assert (forall entry' pc', rt.(rt_calls) !! id = Some (entry', pc') -> entry' = entry) as Hentry by naive_solver.
  assert (forall pc1, call_ok id entry pc1 rt -> rt_ok (set_rt_calls (<[id := (entry, pc1)]> rt.(rt_calls)) rt)) as Hmove.
  { intros pc1 H1. apply (call_moves rt _ id entry pc1); try done; cbn; auto.
    eapply call_ok_grows; [|exact H1]. split; cbn; try done. intros id' entry' pc2 H.
    destruct (decide (id = id')) as [<-|Hne]; [rewrite lookup_insert_eq|rewrite lookup_insert_ne by done]; naive_solver. }
  assert (forall e, rt_ok (set_rt_calls (<[id := (entry, CallReturned (Err e))]> rt.(rt_calls)) rt)) as Hfail.
  { intros e. by apply Hmove. }
  destruct pc as [[|c checks] next|request|op request|input op value|s e i|s e i| | | |r];
    cbn [call_transition] in Ht; simplify_eq; cbn [call_ok] in Hcall.
  - by apply Hmove.
  - destruct (perform_check _ _); simplify_eq; [by apply Hmove|apply Hfail].
  - destruct (validate_shape _); simplify_eq; [|apply Hfail].
    pose proof (next_command_shared rt.(rt_shared)) as Hs.
    destruct (next_command_id _) as [[id'|e] shared]; simplify_eq; cbn [snd] in Hs;
      eapply (call_moves rt _ id entry _ Hok); cbn; auto; done.
  - by apply Hmove.
  - pose proof (entered_try_send (MsgInput input) (rt_mailbox rt)) as Hq.
    destruct (queue_try_send _ _) as [[| |] q]; simplify_eq; [|apply Hfail..].
    destruct Hq as (He & Hq & _). eapply (call_moves rt _ id entry _ Hok); cbn; auto; [|intros H; by destruct (Hcall H)].
    right. exists (MsgInput input). split; [done|]. done.
  - destruct (bool_decide _); [apply Hfail|by apply Hmove].
  - pose proof (entered_try_send (MsgReserve s e i id) (rt_mailbox rt)) as Hq.
    destruct (queue_try_send _ _) as [[| |] q]; simplify_eq; [|apply Hfail..].
    destruct Hq as (He & Hq & _). eapply (call_moves rt _ id _ _ Hok); cbn; auto; [|by eexists _, _, _].
    right. exists (MsgReserve s e i id). split; [done|]. by intros ? ? ? ? [= <- <- <- <-].
  - destruct (bool_decide _); [apply Hfail|by apply Hmove].
  - destruct (rt_replies rt !! id) as [[[]|error]|] eqn:Er; simplify_eq.
    + apply Hmove. cbn. intros _. by apply (ok_replies _ Hok).
    + apply Hfail.
    + destruct (reply_possible id rt); simplify_eq; [by apply Hmove|apply Hfail].
  - apply Hmove. by cbn.
Qed.

Lemma entry_call_ok (rt : Runtime) (id : nat) (pc : call_pc) : entry_point pc -> call_ok id pc pc rt.
Proof.
  assert (forall input op, call_ok id (submit_input input op) (submit_input input op) rt) as Hin.
  { intros input op. cbn. by intros (? & ? & ? & ?). }
  intros [request|event|event|event|event|stream entry index|]; try apply Hin; cbn.
  - by intros (? & ? & ? & ?).
  - unfold submit_storage_event. destruct (StorageEvent_validate event); [apply Hin|done].
  - done.
  - by intros (? & ? & ? & ?).
Qed.

(** The owner touches the shared flag, sends its two messages and reads the
    rest. *)
Lemma owner_moves (rt rt' : Runtime) :
  rt_ok rt -> rt'.(rt_actor) = rt.(rt_actor) -> rt'.(rt_log) = rt.(rt_log) ->
  rt'.(rt_notifier) = rt.(rt_notifier) -> rt'.(rt_calls) = rt.(rt_calls) ->
  rt'.(rt_replies) = rt.(rt_replies) -> rt'.(rt_refused) = rt.(rt_refused) ->
  rt'.(rt_shared).(shared_snapshot) = rt.(rt_shared).(shared_snapshot) ->
  rt'.(rt_shared).(actor_failure) = rt.(rt_shared).(actor_failure) ->
  rt'.(rt_shared).(notification_failure) = rt.(rt_shared).(notification_failure) ->
  (rt'.(rt_shared).(accepting) = true -> rt.(rt_shared).(accepting) = true) ->
  rt'.(rt_mailbox).(q_taken) = rt.(rt_mailbox).(q_taken) ->
  (entered rt'.(rt_mailbox) = entered rt.(rt_mailbox)
   \/ exists i, entered rt'.(rt_mailbox) = entered rt.(rt_mailbox) ++ [MsgInput i]) ->
  rt'.(rt_notices) = rt.(rt_notices) -> owner_ok rt' -> rt_ok rt'.
Proof.
  intros Hok H1 H2 H3 H4 H5 H6 H7 H8 H9 H10 H11 H12 H13 Ho.
  assert (notes rt' = notes rt) as Hn by (unfold notes; by rewrite H13).
  apply (rt_ok_step rt); try done.
  - split; rewrite ?H2, ?H4, ?H9, ?H11, ?Hn; try done; [|eauto].
    destruct H12 as [->|[i ->]]; [done|apply prefix_snoc_self].
  - eapply actor_ok_untouched; [|apply (ok_actor _ Hok)]. split; rewrite ?H1, ?H2, ?H3, ?H13; done.
  - pose proof (ok_notifier _ Hok) as Hno. unfold notifier_ok in *. by rewrite H3, H9, H13.
  - rewrite H4. auto.
  - intros s e i id H. left. destruct H12 as [<-|[i' Hi]]; [done|]. rewrite Hi in H.
    apply elem_of_app in H as [H|H]; [done|]. by apply list_elem_of_singleton in H.
  - rewrite H5. auto.
  - rewrite H6. auto.
Qed.

Lemma all_notes (ms : list CoreNotification) : omap note_of (map Notify ms) = ms.
Proof. induction ms as [|m ms IH]; [done|]. cbn. by f_equal. Qed.

(** The last message of the notification queue, once sent. *)
Lemma stop_notifier_ok (rt : Runtime) (queue_error actor_error : option CoreError)
  (q : Queue NotificationMessage) (r : result unit CoreError) :
  rt_ok rt -> rt.(rt_actor) = ActorExited r -> actor_error = result_err r ->
  entered rt.(rt_notices) = map Notify (notes rt) -> entered q = entered rt.(rt_notices) ++ [NotifyShutdown] ->
  q.(q_taken) = rt.(rt_notices).(q_taken) -> rt.(rt_notices).(q_open) = true -> q.(q_open) = true ->
  q.(q_capacity) = rt.(rt_notices).(q_capacity) ->
  rt_ok (set_rt_owner (OwnerJoiningNotifier queue_error actor_error false) (set_rt_notices q rt)).
Proof.
  intros Hok Hex Her Hent He Ht Hop Hop' Hc.
  set (rt' := set_rt_owner _ _).
  assert (notes rt' = notes rt) as Hn.
  { unfold notes, rt'. cbn. by rewrite He, omap_snoc, app_nil_r. }
  apply (rt_ok_step rt); try done; cbn; auto.
  - split; cbn; try done; [by rewrite Hn|eauto].
  - pose proof (ok_actor _ Hok) as [Hs Ha]. rewrite Hex in Ha. split; [done|]. cbn. rewrite Hex.
    fold rt'. by rewrite Hn.
  - pose proof (ok_notifier _ Hok) as [Hcap Hno]. split; cbn; [lia|].
    destruct (rt_notifier rt); try done. destruct Hno. congruence.
  - unfold owner_ok, rt'. cbn. fold rt'. rewrite Hn. split; [by rewrite He, Hent|]. by exists r.
Qed.

(** What a clean join of the notification worker shows. *)
Lemma joined_clean (rt : Runtime) (queue_error : option CoreError) (r : result unit CoreError)
  (send_failed : bool) :
  rt_ok rt -> rt.(rt_owner) = OwnerJoiningNotifier queue_error (result_err r) send_failed ->
  rt.(rt_actor) = ActorExited r -> rt.(rt_notifier) = NotifierExited ->
  shutdown_result queue_error (result_err r) send_failed false rt.(rt_shared).(notification_failure) = Ok tt ->
  rt.(rt_notices).(q_taken) = map Notify (notes rt) ++ [NotifyShutdown]
  /\ rt.(rt_notices).(q_items) = [] /\ rt.(rt_actor) = ActorExited (Ok tt).
Proof.
  intros Hok Ho Hex Hno Hr. pose proof (ok_owner _ Hok) as Hown. unfold owner_ok in Hown. rewrite Ho in Hown.
  destruct Hown as (Hent & _). destruct (ok_notifier _ Hok) as [_ Hn]. rewrite Hno in Hn.
  unfold shutdown_result in Hr. destruct queue_error; [done|]. destruct r as [[]|]; [|done].
  destruct send_failed; [done|]. destruct (notification_failure (rt_shared rt)) eqn:Ef; [done|].
  destruct Hn as (_ & [[? ?]|Hlast]); [done|].
  apply last_Some in Hlast as [l Hl]. unfold entered in Hent. rewrite Hl in Hent.
  assert (q_items (rt_notices rt) = []) as Hi.
  { destruct (q_items (rt_notices rt)) as [|x items _] using rev_ind; [done|]. exfalso.
    rewrite app_assoc in Hent. apply app_inj_tail in Hent as [Hent _].
    assert (NotifyShutdown ∈ map Notify (notes rt)) as H.
    { rewrite <- Hent. set_solver. }
    by apply list_elem_of_fmap in H as (? & ? & _). }
  rewrite Hi, app_nil_r in Hent. by rewrite Hl, Hent.
Qed.

Lemma owner_transition_ok (rt rt' : Runtime) :
  rt_ok rt -> owner_transition rt = Some rt' -> rt_ok rt'.
Proof.
  intros Hok Ht. pose proof (ok_owner _ Hok) as Ho. unfold owner_ok in Ho. unfold owner_transition in Ht.
  destruct (rt_owner rt) as [| |op|input|qe|qe ae|qe ae sf|r] eqn:E; try done.
  - injection Ht as <-. apply (owner_moves rt); try done; cbn; auto.
    by destruct (accepting (rt_shared rt)).
  - pose proof (next_command_shared rt.(rt_shared)) as Hs. destruct (next_command_id _) as [id shared].
    injection Ht as <-. cbn [snd] in Hs.
    apply (owner_moves rt); try done; cbn; auto; try (by destruct Hs as [->|[n ->]]). by destruct id.
  - injection Ht as <-. by apply (owner_moves rt); try done; cbn; auto.
  - pose proof (entered_try_send (MsgInput input) (rt_mailbox rt)) as Hq.
    destruct (queue_try_send _ _) as [[| |] q]; simplify_eq; [|by apply (owner_moves rt); try done; cbn; auto].
    destruct Hq as (He & Hq & _). apply (owner_moves rt); try done; cbn; auto. right.
    by exists input.
  - destruct (rt_actor rt) as [| | | | |r] eqn:Ea; try done. injection Ht as <-.
    apply (owner_moves rt); try done; cbn; auto. unfold owner_ok. cbn. split; [done|]. by exists r.
  - destruct Ho as (Hent & r & Ha & Hae).
    pose proof (entered_try_send NotifyShutdown (rt_notices rt)) as Hq.
    destruct (queue_try_send _ _) as [[| |] q]; simplify_eq.
    + destruct Hq as (He & Hq & H1 & H2 & H3). by apply (stop_notifier_ok rt qe _ q r).
    + apply (owner_moves rt); try done; cbn; auto. unfold owner_ok. cbn. rewrite app_nil_r. split; [done|]. by exists r.
  - destruct Ho as (Hent & r & Ha & Hae). destruct (rt_notifier rt) eqn:En; try done. injection Ht as <-. subst ae.
    apply (owner_moves rt); try done; cbn; auto. unfold owner_ok. cbn. split; [by exists r|]. intros Hr.
    destruct (joined_clean rt qe r sf Hok E Ha En Hr) as (H1 & H2 & H3). done.
Qed.

Lemma rt_exec_ok (label : rt_label) (rt : Runtime) : rt_ok rt -> rt_ok (rt_exec label rt).
Proof.
  intros Hok. destruct label as [|answer| |id|id [pc Hpc]|id]; cbn [rt_exec].
  - destruct (actor_transition rt) eqn:E; [|done]. by eapply actor_transition_ok.
  - destruct (notifier_transition answer rt) eqn:E; [|done]. by eapply notifier_transition_ok.
  - destruct (owner_transition rt) eqn:E; [|done]. by eapply owner_transition_ok.
  - destruct (rt_calls rt !! id) as [[entry pc]|] eqn:E; [|done].
    destruct (call_transition id pc rt) as [[pc' rt1]|] eqn:Et; [|done]. by eapply call_transition_ok.
  - destruct (rt_calls rt !! id) as [[entry pc']|] eqn:E; [done|].
    eapply (call_moves rt _ id _ _ Hok); cbn; auto; [by rewrite E|]. by apply entry_call_ok.
  - apply (rt_ok_step rt); cbn; auto; try by destruct Hok.
    split; cbn; try done; eauto.
Qed.

Lemma rt_run_ok (labels : list rt_label) (rt : Runtime) : rt_ok rt -> rt_ok (rt_run labels rt).
Proof.
  unfold rt_run. revert rt. induction labels as [|l labels IH]; intros rt Hok; [done|].
  cbn. by apply IH, rt_exec_ok.
Qed.
End Invariant.

(** ** From the start *)

Definition first_state (config : CoreActorConfig) (namespace : rstr) : ActorState :=
  new_with_session_id_namespace config.(config_local_device_id)
    (if config.(deterministic_session_ids) then None else Some namespace).

Lemma runtime_start_ok (config : CoreActorConfig) (namespace : rstr) (rt : Runtime) :
  start config namespace = Ok rt -> rt_ok (first_state config namespace) rt.
Proof.
  unfold start, CoreActorConfig_validate.
  destruct (in_range 1 MAX_ACTOR_QUEUE_CAPACITY _); [|done].
  destruct (in_range 1 MAX_NOTIFICATION_QUEUE_CAPACITY _) eqn:E; [|done].
  apply in_range_iff in E. intros [= <-]. split; cbn; try done.
  - split; [cbn; lia|done].
  - intros s e i id H. by apply elem_of_nil in H.
  - intros n H. by apply elem_of_nil in H.
Qed.

Lemma run_ok (config : CoreActorConfig) (namespace : rstr) (rt : Runtime) (labels : list rt_label) :
  start config namespace = Ok rt -> rt_ok (first_state config namespace) (rt_run labels rt).
Proof. intros H. by apply rt_run_ok, runtime_start_ok. Qed.

(** What the actor has produced and not handed over yet. *)
Definition unsent (rt : Runtime) : list CoreNotification :=
  match rt.(rt_actor) with
  | ActorStarting st => [NotifySnapshot st.(snapshot)]
  | ActorNotifying _ pending _ _ => pending
  | _ => []
  end.

Lemma actor_ok_view (init : ActorState) (rt : Runtime) :
  actor_ok init rt ->
  rt.(rt_shared).(shared_snapshot) = (actor_run rt.(rt_log) init).(snapshot)
  /\ notes rt `prefix_of` emitted init rt.(rt_log)
  /\ (rt.(rt_shared).(actor_failure) = None -> notes rt ++ unsent rt = emitted init rt.(rt_log))
  /\ omap step_of rt.(rt_log) `prefix_of` omap input_of rt.(rt_mailbox).(q_taken).
Proof.
  unfold actor_ok, unsent. intros [Hs Ha]. split; [done|].
  destruct (rt_actor rt) as [st|st|st message|st pending reply stop|r|r].
  - destruct Ha as (-> & Hl & He & Ht & _). unfold notes. rewrite He, Hl, Ht. cbn. split; [|done]. apply prefix_nil.
  - destruct Ha as (_ & Hn & Hi). rewrite Hn, Hi, app_nil_r. done.
  - destruct Ha as (_ & Hn & before & Ht & Hi). rewrite Hn, Ht, Hi, app_nil_r, omap_snoc.
    split_and!; try done. by apply prefix_app_r.
  - destruct Ha as (_ & Hn & Hi & _). rewrite <- Hn, Hi. split_and!; try done. by apply prefix_app_r.
  - destruct Ha as (Hp & Hi & _ & Hr). rewrite Hi, app_nil_r. split_and!; try done.
    intros Hf. destruct r; [done|]. rewrite Hf in Hr. by destruct Hr.
  - destruct Ha as (Hp & Hi & _ & Hr). rewrite Hi, app_nil_r. split_and!; try done.
    intros Hf. destruct r; [done|]. rewrite Hf in Hr. by destruct Hr.
Qed.

Lemma observed_notes (rt : Runtime) :
  notes rt = observed rt ++ omap note_of rt.(rt_notices).(q_items).
Proof. unfold notes, observed, entered. apply omap_app. Qed.

(** A prefix of the published snapshots is numbered consecutively as well. *)
Lemma seqZ_prefix (l l' : list Z) (m : Z) :
  l `prefix_of` l' -> l' = seqZ m (len l') -> l = seqZ m (len l).
Proof.
  intros [k ->] H. rewrite len_app, seqZ_app in H by apply len_nonneg.
  apply app_inj_1 in H as [H _]; [done|]. rewrite length_seqZ. unfold len. lia.
Qed.

Lemma omap_prefix {A B : Type} (f : A -> option B) (l l' : list A) :
  l `prefix_of` l' -> omap f l `prefix_of` omap f l'.
Proof. intros [k ->]. rewrite omap_app. by apply prefix_app_r. Qed.

Lemma map_prefix {A B : Type} (f : A -> B) (l l' : list A) :
  l `prefix_of` l' -> map f l `prefix_of` map f l'.
Proof. intros [k ->]. rewrite map_app. by apply prefix_app_r. Qed.

Lemma emitted_snapshots (init : ActorState) (log : list ActorStep) :
  let views := omap snapshot_of (emitted init log) in
  map revision views = seqZ init.(snapshot).(revision) (len views).
Proof.
  cbn -[seqZ len]. rewrite history_published. destruct (published_consecutive init log) as (H & _).
  rewrite len_cons, seqZ_cons by (pose proof (len_nonneg (published init log)); lia). f_equal.
  replace (Z.pred (len (published init log) + 1)) with (len (published init log)) by lia.
  by rewrite H.
Qed.

Lemma rt_run_app (a b : list rt_label) (rt : Runtime) : rt_run (a ++ b) rt = rt_run b (rt_run a rt).
Proof. apply fold_left_app. Qed.

(** ** Shutting down behind admitted work *)

(** The owner waits for an actor that waits for a message nobody can send. *)
Fixpoint harmless (pc : call_pc) : Prop :=
  match pc with
  | CallChecks checks next => CheckAccepting ∈ checks \/ harmless next
  | CallReadSnapshot | CallReturned _ => True
  | _ => False
  end.

Record stalled (queue_error : option CoreError) (rt : Runtime) : Prop := {
st_owner : rt.(rt_owner) = OwnerJoiningActor queue_error;
st_actor : exists st, rt.(rt_actor) = ActorReceiving st;
st_mailbox : rt.(rt_mailbox).(q_items) = [];
st_accepting : rt.(rt_shared).(accepting) = false;
st_notices : rt.(rt_notices).(q_items) = [];
st_notifier : rt.(rt_notifier) = NotifierReceiving;
st_calls : forall id entry pc, rt.(rt_calls) !! id = Some (entry, pc) -> harmless pc
}.

Lemma entry_harmless (pc : call_pc) : entry_point pc -> harmless pc.
Proof.
  assert (forall next, harmless (CallChecks ensure_accepting next)) as Hin.
  { intros next. left. unfold ensure_accepting, check_failure. set_solver. }
  intros [request|event|event|event|event|stream entry index|]; [apply Hin..| |apply Hin|].
  - unfold submit_storage_event. destruct (StorageEvent_validate event); [apply Hin|done].
  - by right.
Qed.

Lemma stalled_call (qe : option CoreError) (rt : Runtime) (id : nat) (pc : call_pc) :
  stalled qe rt -> harmless pc ->
  match call_transition id pc rt with
  | Some (pc', rt') => rt' = rt /\ harmless pc'
  | None => True
  end.
Proof.
  intros Hst. destruct pc as [[|c checks] next| | | | | | | | |r]; cbn; try done.
  - intros [H|H]; [by apply elem_of_nil in H|done].
  - intros H. destruct (perform_check c (rt_shared rt)) eqn:E; [|done]. split; [done|].
    destruct H as [H|H]; [|by right]. apply elem_of_cons in H as [<-|H]; [|by left].
    unfold perform_check in E. by rewrite (st_accepting _ _ Hst) in E.
Qed.

Lemma stalled_forever (qe : option CoreError) (label : rt_label) (rt : Runtime) :
  stalled qe rt -> stalled qe (rt_exec label rt).
Proof.
  intros Hst. pose proof Hst as [Ho [st Ha] Hm Hacc Hn Hno Hc].
  assert (forall id entry pc, harmless pc ->
    stalled qe (set_rt_calls (<[id := (entry, pc)]> rt.(rt_calls)) rt)) as Hcall.
  { intros id entry pc H. split; cbn; eauto. intros id' entry' pc' Hl.
    destruct (decide (id = id')) as [<-|Hne]; [rewrite lookup_insert_eq in Hl|rewrite lookup_insert_ne in Hl by done];
      naive_solver. }
  destruct label as [|answer| |id|id [pc Hpc]|id]; cbn [rt_exec].
  - unfold actor_transition, queue_recv. by rewrite Ha, Hm.
  - unfold notifier_transition, queue_recv. by rewrite Hno, Hn.
  - unfold owner_transition. by rewrite Ho, Ha.
  - destruct (rt_calls rt !! id) as [[entry pc]|] eqn:E; [|done].
    pose proof (stalled_call qe rt id pc Hst (Hc _ _ _ E)) as H.
    destruct (call_transition id pc rt) as [[pc' rt']|]; [|done]. destruct H as [-> H]. by apply Hcall.
  - destruct (rt_calls rt !! id) as [[entry pc']|] eqn:E; [done|]. by apply Hcall, entry_harmless.
  - split; cbn; eauto.
Qed.

Lemma stalled_run (qe : option CoreError) (labels : list rt_label) (rt : Runtime) :
  stalled qe rt -> stalled qe (rt_run labels rt).
Proof.
  unfold rt_run. revert rt. induction labels as [|l labels IH]; intros rt H; [done|].
  by apply IH, stalled_forever.
Qed.

(** ** Properties *)

(** C13. The observer is told the actor's history: over every interleaving of
    calls, worker, observer and shutdown, inputs are applied once and in the
    order they were admitted; the shared snapshot is the actor's; the observer
    was called with a prefix of the notifications of that history, its
    snapshots numbered from zero without gap; as long as the actor reports no
    failure the rest is queued or about to be; and an effect the observer
    refused reached the actor as its failure unless delivery itself failed. *)
Theorem observer_follows_actor (config : CoreActorConfig) (namespace : rstr) (rt0 : Runtime)
  (labels : list rt_label) :
  start config namespace = Ok rt0 ->
  let rt := rt_run labels rt0 in
  let init := first_state config namespace in
  let views := omap snapshot_of (observed rt) in
  omap step_of rt.(rt_log) `prefix_of` omap input_of (entered rt.(rt_mailbox))
  /\ rt.(rt_shared).(shared_snapshot) = (actor_run rt.(rt_log) init).(snapshot)
  /\ observed rt `prefix_of` emitted init rt.(rt_log)
  /\ map revision views = seqZ 0 (len views)
  /\ (rt.(rt_shared).(actor_failure) = None ->
      observed rt ++ omap note_of rt.(rt_notices).(q_items) ++ unsent rt = emitted init rt.(rt_log))
  /\ Forall (refusal_ok rt) rt.(rt_refused).
Proof.
  intros Hst rt init views. pose proof (run_ok config namespace rt0 labels Hst) as Hok. fold rt init in Hok.
  destruct (actor_ok_view init rt (ok_actor _ _ Hok)) as (Hs & Hp & Hall & Hin).
  rewrite observed_notes in Hp, Hall.
  assert (observed rt `prefix_of` emitted init rt.(rt_log)) as Hobs.
  { etrans; [|exact Hp]. by apply prefix_app_r. }
  split_and!; try done.
  - etrans; [exact Hin|]. unfold entered. rewrite omap_app. by apply prefix_app_r.
  - pose proof (emitted_snapshots init rt.(rt_log)) as He. cbv zeta in He.
    pose proof (seqZ_prefix (map revision views) _ (revision (snapshot init))
                  (map_prefix revision _ _ (omap_prefix snapshot_of _ _ Hobs))) as H.
    rewrite !len_map in H. apply H, He.
  - intros Hf. rewrite app_assoc. by apply Hall.
  - apply Forall_forall. by apply (ok_refused _ _ Hok).
Qed.

(** C25. A granted boundary is committed and published: when a call to reserve a
    track boundary has returned success, the actor has applied exactly that
    reservation, its notifications were handed over, and the shared snapshot
    is at least as recent. *)
Theorem granted_boundary_is_committed (config : CoreActorConfig) (namespace : rstr) (rt0 : Runtime)
  (labels : list rt_label) (id : nat) (stream entry : rstr) (index : Z) (value : call_value) :
  start config namespace = Ok rt0 ->
  let rt := rt_run labels rt0 in
  let init := first_state config namespace in
  rt.(rt_calls) !! id = Some (reserve_host_track_boundary stream entry index, CallReturned (Ok value)) ->
  exists before after,
    rt.(rt_log) = before ++ StepReserve stream entry index :: after
    /\ is_ok (reserve_track_boundary (actor_run before init) stream entry index).2 = true
    /\ emitted init (before ++ [StepReserve stream entry index]) `prefix_of` notes rt
    /\ (actor_run (before ++ [StepReserve stream entry index]) init).(snapshot).(revision)
       <= rt.(rt_shared).(shared_snapshot).(revision).
Proof.
  intros Hst rt init Hcall. pose proof (run_ok config namespace rt0 labels Hst) as Hok. fold rt init in Hok.
  destruct (ok_calls _ _ Hok _ _ _ Hcall) as (s & e & i & before & after & Hm & Hlog & Hres & Hp).
  { by eexists _, _, _. }
  destruct (ok_messages _ _ Hok s e i id) as [pc Hpc].
  { unfold entered. apply elem_of_app. by left. }
  rewrite Hcall in Hpc. injection Hpc as <- <- <- _.
  exists before, after. split_and!; try done.
  rewrite (proj1 (ok_actor _ _ Hok)), Hlog.
  replace (before ++ StepReserve stream entry index :: after)
    with ((before ++ [StepReserve stream entry index]) ++ after) by (by rewrite <- app_assoc).
  apply revision_grows.
Qed.

(** C26. A clean shutdown leaves nothing behind: when [shutdown] has returned
    success, the actor has stopped by request, every input it received was
    applied, and the observer was called with every notification of the whole
    history. *)
Theorem clean_shutdown_is_complete (config : CoreActorConfig) (namespace : rstr) (rt0 : Runtime)
  (labels : list rt_label) :
  start config namespace = Ok rt0 ->
  let rt := rt_run labels rt0 in
  rt.(rt_owner) = OwnerReturned (Ok tt) ->
  rt.(rt_actor) = ActorExited (Ok tt)
  /\ omap step_of rt.(rt_log) = omap input_of rt.(rt_mailbox).(q_taken)
  /\ observed rt = emitted (first_state config namespace) rt.(rt_log).
Proof.
  intros Hst rt Hown. pose proof (run_ok config namespace rt0 labels Hst) as Hok. fold rt in Hok.
  pose proof (ok_owner _ _ Hok) as Ho. unfold owner_ok in Ho. rewrite Hown in Ho.
  destruct Ho as (_ & Ho). destruct (Ho eq_refl) as (Ht & Hi & Ha & _).
  pose proof (ok_actor _ _ Hok) as (_ & Hact). rewrite Ha in Hact. destruct Hact as (_ & Happ & _ & Hn).
  split_and!; try done. rewrite <- Hn. unfold observed. by rewrite Ht, omap_snoc, all_notes, app_nil_r.
Qed.

(** ** Examples *)

Definition sample_config : CoreActorConfig := mkCoreActorConfig (lit "device") 4 4 true.

Definition entry_command (request : CoreCommandRequest) : { pc : call_pc | entry_point pc } :=
  exist _ (submit_command request) (EntryCommand request).
Definition entry_reserve (stream entry : rstr) (index : Z) : { pc : call_pc | entry_point pc } :=
  exist _ (reserve_host_track_boundary stream entry index) (EntryReserve stream entry index).

(** One command is admitted and not yet applied when the owner begins to shut
    down and reads the revision its own command will carry. *)
Definition overtaken_shutdown : list rt_label :=
  [RunActor; BeginCall 0 (entry_command (mkCoreCommandRequest 0 (SelectRole RoleHost)))]
  ++ replicate 10 (RunCall 0) ++ replicate 4 RunOwner ++ replicate 8 RunActor
  ++ replicate 8 (RunNotifier Observed).

(** Shutting down behind admitted work may never return: the owner's
    shutdown command carries the revision it read; when an admitted command
    changes the revision first, the actor refuses it as stale and waits for
    another message, which nobody can send because submissions are closed. From
    then on no transition of any thread lets the owner return. *)
Lemma shutdown_may_never_return :
  exists rt0, start sample_config [] = Ok rt0 /\
    forall more, (rt_run (overtaken_shutdown ++ more) rt0).(rt_owner) = OwnerJoiningActor None.
Proof.
  destruct (start sample_config []) as [rt0|] eqn:E; [|vm_compute in E; discriminate].
  exists rt0. split; [done|]. intros more.
  assert (stalled None (rt_run overtaken_shutdown rt0)) as Hst.
  { vm_compute in E. injection E as <-.
    split; try (eexists; vm_compute; reflexivity); try (vm_compute; reflexivity).
    intros id entry pc H. apply elem_of_map_to_list in H. vm_compute in H.
    apply list_elem_of_singleton in H. by injection H as _ _ ->. }
  rewrite rt_run_app. exact (st_owner _ _ (stalled_run None more _ Hst)).
Qed.

(** A call that is served at once by the worker and the observer. *)
Definition served (id : nat) (entry : { pc : call_pc | entry_point pc }) : list rt_label :=
  BeginCall id entry :: replicate 10 (RunCall id) ++ replicate 6 RunActor
  ++ replicate 8 (RunNotifier Observed) ++ replicate 6 (RunCall id).

Definition entry_audio (event : AudioEvent) : { pc : call_pc | entry_point pc } :=
  exist _ (submit_audio_event event) (EntryAudio event).

(** A host queues three tracks, playback starts, the packetizer reserves the
    boundary of the second, and the owner shuts down. *)
Definition served_session : list rt_label :=
  [RunActor; RunNotifier Observed]
  ++ served 0 (entry_command (mkCoreCommandRequest 0 (SelectRole RoleHost)))
  ++ served 1 (entry_command (mkCoreCommandRequest 1
       (AppendHostQueue 0 [sample_entry 97; sample_entry 98; sample_entry 99])))
  ++ served 2 (entry_audio (PlaybackStateChanged PlaybackPlaying))
  ++ served 3 (entry_audio (PositionAdvanced (lit "stream") 0))
  ++ served 4 (entry_reserve (lit "stream") [98] 48000)
  ++ replicate 4 RunOwner ++ replicate 6 RunActor ++ replicate 2 RunOwner
  ++ replicate 8 (RunNotifier Observed) ++ [RunOwner].

Lemma observer_follows_actor_witness :
  exists rt0, start sample_config [] = Ok rt0 /\
    let rt := rt_run served_session rt0 in
    omap step_of rt.(rt_log) `prefix_of` omap input_of (entered rt.(rt_mailbox))
    /\ map revision (omap snapshot_of (observed rt)) = [0; 1; 2; 3; 4; 5; 6].
Proof.
  destruct (start sample_config []) as [rt0|] eqn:E; [|vm_compute in E; discriminate].
  exists rt0. split; [done|].
  destruct (observer_follows_actor sample_config [] rt0 served_session E) as (H & _ & _ & Hr & _).
  split; [exact H|]. vm_compute in E. injection E as <-. vm_compute. reflexivity.
Defined.

Lemma granted_boundary_is_committed_witness :
  exists rt0, start sample_config [] = Ok rt0 /\
    let rt := rt_run served_session rt0 in
    rt.(rt_calls) !! 4%nat
      = Some (reserve_host_track_boundary (lit "stream") [98] 48000, CallReturned (Ok ValueUnit))
    /\ exists before after, rt.(rt_log) = before ++ StepReserve (lit "stream") [98] 48000 :: after.
Proof.
  destruct (start sample_config []) as [rt0|] eqn:E; [|vm_compute in E; discriminate].
  exists rt0. split; [done|].
  assert ((rt_run served_session rt0).(rt_calls) !! 4%nat
    = Some (reserve_host_track_boundary (lit "stream") [98] 48000, CallReturned (Ok ValueUnit))) as Hc.
  { vm_compute in E. injection E as <-. vm_compute. reflexivity. }
  split; [exact Hc|].
  destruct (granted_boundary_is_committed sample_config [] rt0 served_session 4 (lit "stream") [98] 48000
              ValueUnit E Hc) as (before & after & H & _).
  exists before, after. exact H.
Defined.

Lemma clean_shutdown_is_complete_witness :
  exists rt0, start sample_config [] = Ok rt0 /\
    let rt := rt_run served_session rt0 in
    rt.(rt_owner) = OwnerReturned (Ok tt) /\ rt.(rt_actor) = ActorExited (Ok tt)
    /\ observed rt = emitted (first_state sample_config []) rt.(rt_log).
Proof.
  destruct (start sample_config []) as [rt0|] eqn:E; [|vm_compute in E; discriminate].
  exists rt0. split; [done|].
  assert ((rt_run served_session rt0).(rt_owner) = OwnerReturned (Ok tt)) as Ho.
  { vm_compute in E. injection E as <-. vm_compute. reflexivity. }
  destruct (clean_shutdown_is_complete sample_config [] rt0 served_session E Ho) as (Ha & _ & Hobs).
  split; [exact Ho|]. split; [exact Ha|exact Hobs].
Defined.
