(* ===== verification/ManualEndpoint.v ===== *)
(** The manual connection payload
    (src/rust/silent-disco-core/src/transport/manual_endpoint.rs): the address,
    ports, session and expiry a listener pastes or reads from an invitation.
    The JSON text is read by serde_json, a parameter here; the address and
    number parsers are the standard library's, written out. *)
From Stdlib Require Import ZArith Lia Strings.String.
From stdpp Require Import numbers list prelude.
From S2P Require Import Prelude Utf8 Domain Decimal CoreErrors ProtocolTypes RuntimeTypes RuntimeRecords TransportTypes.

(** ** [core::net::parser]

    A parser takes the rest of the input and gives a value with what it leaves,
    or nothing; [read_atomically] is then just dropping the rest on failure. *)

Definition parser (A : Type) : Type := list Z -> option (A * list Z).

(** [char::to_digit]. *)
Definition to_digit (radix c : Z) : option Z :=
  let d := if in_range 48 57 c then Some (c - 48)
           else if in_range 97 122 c then Some (c - 87)
           else if in_range 65 90 c then Some (c - 55) else None in
  match d with Some v => if v <? radix then Some v else None | None => None end.

Definition read_given_char (target : Z) : parser unit := fun input =>
  match input with
  | c :: rest => if c =? target then Some (tt, rest) else None
  | [] => None
  end.

(** The separator is only read in front of the second and later elements. *)
Definition read_separator {A : Type} (sep index : Z) (inner : parser A) : parser A := fun input =>
  if 0 <? index then
    match read_given_char sep input with Some (_, rest) => inner rest | None => None end
  else inner input.

(** The [while let] of [read_number]: [None] when a digit beyond [max_digits]
    is read. *)
Fixpoint read_digits (radix max_digits result digit_count : Z) (input : list Z)
    : option (Z * Z * list Z) :=
  match input with
  | c :: rest =>
      match to_digit radix c with
      | Some digit =>
          if max_digits <? digit_count + 1 then None
          else read_digits radix max_digits (result * radix + digit) (digit_count + 1) rest
      | None => Some (result, digit_count, input)
      end
  | [] => Some (result, digit_count, input)
  end.

(** [read_number::<T>(radix, Some(max_digits), allow_zero_prefix)], [max] being
    [T::MAX]. *)
Definition read_number (max radix max_digits : Z) (allow_zero_prefix : bool) : parser Z := fun input =>
  let has_leading_zero := match input with c :: _ => c =? 48 | [] => false end in
  match read_digits radix max_digits 0 0 input with
  | Some (value, digit_count, rest) =>
      if digit_count =? 0 then None
      else if negb allow_zero_prefix && has_leading_zero && (1 <? digit_count) then None
      else if max <? value then None else Some (value, rest)
  | None => None
  end.

Definition read_octet (i : Z) : parser Z := read_separator 46 i (read_number 255 10 3 false).

Definition read_ipv4_addr : parser (Z * Z * Z * Z) := fun input =>
  match read_octet 0 input with
  | Some (a, input) =>
      match read_octet 1 input with
      | Some (b, input) =>
          match read_octet 2 input with
          | Some (c, input) =>
              match read_octet 3 input with
              | Some (d, input) => Some ((a, b, c, d), input)
              | None => None
              end
          | None => None
          end
      | None => None
      end
  | None => None
  end.

(** The groups read, whether they end in an embedded IPv4 address, and the
    rest: [read_groups] from group [i] of [i + limit]. *)
Fixpoint read_groups (limit : nat) (i : Z) (input : list Z) : list Z * bool * list Z :=
  match limit with
  | O => ([], false, input)
  | S limit' =>
      let ipv4 := match limit' with
        | O => None
        | S _ => read_separator 58 i read_ipv4_addr input
        end in
      match ipv4 with
      | Some ((one, two, three, four), rest) =>
          ([one * 256 + two; three * 256 + four], true, rest)
      | None =>
          match read_separator 58 i (read_number 65535 16 4 true) input with
          | Some (group, rest) =>
              let '(groups, embedded, rest) := read_groups limit' (i + 1) rest in
              (group :: groups, embedded, rest)
          | None => ([], false, input)
          end
      end
  end.

Definition ipv6_of_groups (groups : list Z) : option IpAddr :=
  match groups with
  | [a; b; c; d; e; f; g; h] => Some (IpV6 a b c d e f g h)
  | _ => None
  end.

Definition read_ipv6_addr : parser IpAddr := fun input =>
  let '(head, head_ipv4, rest) := read_groups 8 0 input in
  if len head =? 8 then
    match ipv6_of_groups head with Some address => Some (address, rest) | None => None end
  else if head_ipv4 then None
  else
    match read_given_char 58 rest with
    | Some (_, rest) =>
        match read_given_char 58 rest with
        | Some (_, rest) =>
            let '(tail, _, rest) := read_groups (7 - length head) 0 rest in
            match ipv6_of_groups (head ++ repeat 0 (8 - length head - length tail) ++ tail) with
            | Some address => Some (address, rest)
            | None => None
            end
        | None => None
        end
    | None => None
    end.

(** [str::parse::<IpAddr>]: an IPv4 address or else an IPv6 one, and nothing
    after it. *)
Definition parse_ip_addr (text : rstr) : option IpAddr :=
  let input := as_bytes text in
  match
    match read_ipv4_addr input with
    | Some ((a, b, c, d), rest) => Some (IpV4 a b c d, rest)
    | None => read_ipv6_addr input
    end
  with
  | Some (address, []) => Some address
  | _ => None
  end.

Definition is_unspecified (address : IpAddr) : bool :=
  match address with
  | IpV4 a b c d => forallb (Z.eqb 0) [a; b; c; d]
  | IpV6 a b c d e f g h => forallb (Z.eqb 0) [a; b; c; d; e; f; g; h]
  end.

Definition is_multicast (address : IpAddr) : bool :=
  match address with
  | IpV4 a _ _ _ => in_range 224 239 a
  | IpV6 a _ _ _ _ _ _ _ => Z.land a 65280 =? 65280
  end.

(** [Ipv4Addr::is_broadcast], of an IPv4 address. *)
Definition is_broadcast (address : IpAddr) : bool :=
  match address with
  | IpV4 a b c d => forallb (Z.eqb 255) [a; b; c; d]
  | IpV6 _ _ _ _ _ _ _ _ => false
  end.

(** [str::parse::<u64>]: an optional plus sign and at least one digit, without
    overflow. *)
Fixpoint parse_u64_digits (value : Z) (digits : list Z) : option Z :=
  match digits with
  | [] => Some value
  | c :: rest =>
      match to_digit 10 c with
      | Some d => if u64_max <? value * 10 + d then None else parse_u64_digits (value * 10 + d) rest
      | None => None
      end
  end.

Definition parse_u64 (text : rstr) : option Z :=
  match as_bytes text with
  | [] => None
  | [43] | [45] => None
  | 43 :: digits => parse_u64_digits 0 digits
  | digits => parse_u64_digits 0 digits
  end.

(** ** Error texts *)

(** [Display] of [IdValidationReason] and [IdValidationError]. *)
Definition id_reason_text (reason : IdValidationReason) : rstr :=
  match reason with
  | Empty => lit "the identifier is blank"
  | TooLong actual_bytes maximum_bytes =>
      lit "the identifier is " ++ to_decimal actual_bytes ++ lit " bytes; the maximum is "
      ++ to_decimal maximum_bytes ++ lit " bytes"
  | SurroundingWhitespace => lit "leading or trailing whitespace is not allowed"
  | ControlCharacter byte_index =>
      lit "a control character starts at UTF-8 byte index " ++ to_decimal byte_index
  end.

Definition id_error_text (error : IdValidationError) : rstr :=
  lit "invalid " ++ identifier_kind_name error.(identifier_kind) ++ lit ": "
  ++ id_reason_text error.(reason).

(** The derived [Debug] of [TransportErrorKind]. *)
Definition transport_kind_debug (kind : TransportErrorKind) : rstr :=
  match kind with
  | TkInvalidConfiguration => lit "InvalidConfiguration"
  | TkBind => lit "Bind"
  | TkListen => lit "Listen"
  | TkConnect => lit "Connect"
  | TkIo => lit "Io"
  | TkProtocol => lit "Protocol"
  | TkUnauthorized => lit "Unauthorized"
  | TkQueueFull => lit "QueueFull"
  | TkTimeout => lit "Timeout"
  | TkPeerNotFound => lit "PeerNotFound"
  | TkDelivery => lit "Delivery"
  | TkShuttingDown => lit "ShuttingDown"
  | TkWorkerPanicked => lit "WorkerPanicked"
  end.

Definition transport_error_text (error : TransportError) : rstr :=
  channel_stable_name error.(te_channel) ++ lit " transport "
  ++ transport_kind_debug error.(te_kind) ++ lit ": " ++ error.(te_message).

(** ** The payload *)

Definition MAX_MANUAL_ENDPOINT_PAYLOAD_BYTES : Z := 2048.

Record ManualHostEndpointPayload : Type := mkManualHostEndpointPayload {
  mp_host_address : rstr;
  mp_control_port : Z;
  mp_sync_port : Z;
  mp_audio_port : Z;
  mp_session_id : rstr;
  mp_protocol_version : Z;
  mp_invite_code_required : bool;
  mp_expires_at_ms : option rstr
}.

Record ManualHostEndpoint : Type := mkManualHostEndpoint {
  me_endpoint : NetworkEndpoint;
  me_session_id : rstr;
  me_protocol_version : Z;
  me_invite_code_required : bool;
  me_expires_at_ms : option Z
}.

Definition invalid (message : rstr) : TransportError :=
  mkTransportError TkInvalidConfiguration ChRuntime message.

Definition from_payload (payload : ManualHostEndpointPayload) (now_wall_clock_ms : Z)
    : result ManualHostEndpoint TransportError :=
  let? address := ok_or (parse_ip_addr payload.(mp_host_address))
                    (invalid (lit "host address is blank or malformed")) in
  if is_unspecified address || is_multicast address then
    Err (invalid (lit "host address must be a specific unicast destination"))
  else if is_broadcast address then
    Err (invalid (lit "host address must not be a broadcast address"))
  else
  let? endpoint := map_err (fun _ => invalid (lit "connection ports must all be nonzero"))
    (NetworkEndpoint_new address payload.(mp_control_port) payload.(mp_sync_port)
       payload.(mp_audio_port)) in
  let? session_id := map_err (fun error => invalid (lit "session ID is invalid: " ++ id_error_text error))
    (identifier_new IdSession payload.(mp_session_id)) in
  if negb (payload.(mp_protocol_version) =? current_protocol_version) then
    Err (mkTransportError TkProtocol ChControl
           (lit "unsupported protocol version " ++ to_decimal payload.(mp_protocol_version)
            ++ lit "; this build supports version " ++ to_decimal current_protocol_version))
  else
  let? expires_at_ms := match payload.(mp_expires_at_ms) with
    | Some value => ok_or (option_map Some (parse_u64 value))
                      (invalid (lit "expiration timestamp is malformed"))
    | None => Ok None
    end in
  if match expires_at_ms with Some e => e <=? now_wall_clock_ms | None => false end then
    Err (invalid (lit "connection payload has expired"))
  else Ok (mkManualHostEndpoint endpoint session_id payload.(mp_protocol_version)
             payload.(mp_invite_code_required) expires_at_ms).

Section Payload.
(** [serde_json::from_str] at [ManualHostEndpointPayload]; an error is its text. *)
Context (payload_from_str : rstr -> result ManualHostEndpointPayload rstr).

Definition ManualHostEndpoint_parse (raw : rstr) (now_wall_clock_ms : Z)
    : result ManualHostEndpoint TransportError :=
  if MAX_MANUAL_ENDPOINT_PAYLOAD_BYTES <? str_len raw then
    Err (invalid (lit "connection payload exceeds the maximum supported size"))
  else
    let? payload := map_err (fun error =>
        invalid (lit "connection payload is not valid JSON: " ++ error)) (payload_from_str raw) in
    from_payload payload now_wall_clock_ms.
End Payload.

(** ** Numerals *)

Lemma to_digit_decimal (c : Z) : is_digit c -> to_digit 10 c = Some (c - 48).
Proof.
  unfold is_digit, to_digit. intros H. rewrite (proj2 (in_range_iff 48 57 c)) by lia.
  by rewrite (proj2 (Z.ltb_lt _ _)) by lia.
Qed.

(** What follows a numeral is not one of its digits. *)
Definition no_digit_ahead (rest : list Z) : Prop :=
  match rest with c :: _ => to_digit 10 c = None | [] => True end.

Lemma read_digits_decimal (ds rest : list Z) (max value n : Z) :
  Forall is_digit ds -> no_digit_ahead rest -> n + len ds <= max ->
  read_digits 10 max value n (ds ++ rest)
  = Some (fold_left (fun a c => a * 10 + (c - 48)) ds value, n + len ds, rest).
Proof.
  intros Hd Hr. revert value n. induction Hd as [|c ds Hc Hd IH]; intros value n Hn.
  - simpl. change (len (@nil Z)) with 0. rewrite Z.add_0_r.
    destruct rest as [|c rest]; [done|]. cbn [read_digits]. cbn in Hr. by rewrite Hr.
  - rewrite len_cons in Hn. cbn [app read_digits]. rewrite to_digit_decimal by done.
    pose proof (len_nonneg ds). rewrite (proj2 (Z.ltb_ge _ _)) by lia.
    rewrite IH by lia. cbn [fold_left]. rewrite len_cons. do 2 f_equal. f_equal. lia.
Qed.

(** The numeral of an octet: at most three digits, and no redundant zero. *)
Lemma octet_numeral (o : Z) : is_u8 o ->
  len (to_decimal o) <= 3 /\ (match to_decimal o with c :: _ => c =? 48 | [] => false end = false
                              \/ len (to_decimal o) = 1).
Proof.
  intros Ho.
  assert (forallb (fun o => (len (to_decimal o) <=? 3)
            && (negb (match to_decimal o with c :: _ => c =? 48 | [] => false end)
                || (len (to_decimal o) =? 1))) (seqZ 0 256) = true) as H by (vm_compute; reflexivity).
  rewrite forallb_forall in H. specialize (H o). rewrite <- list_elem_of_In, elem_of_seqZ in H.
  unfold is_u8, is_uint in Ho. specialize (H ltac:(lia)).
  apply andb_prop in H as [H1 [H2|H2]%orb_prop]; to_prop; auto.
Qed.

Lemma read_octet_numeral (o : Z) (rest : list Z) :
  is_u8 o -> no_digit_ahead rest ->
  read_number 255 10 3 false (to_decimal o ++ rest) = Some (o, rest).
Proof.
  intros Ho Hr. pose proof (octet_numeral o Ho) as [Hl Hz]. pose proof (to_decimal_length o).
  unfold is_u8, is_uint in Ho. change (2 ^ 8) with 256 in Ho. unfold read_number.
  rewrite read_digits_decimal; [|apply to_decimal_digits; lia|done|lia].
  change (fold_left _ (to_decimal o) 0) with (from_decimal (to_decimal o)).
  rewrite from_to_decimal by (unfold is_u64, is_uint; lia).
  rewrite (proj2 (Z.eqb_neq _ _)) by lia.
  destruct (to_decimal o) as [|c ds] eqn:E; [unfold len in *; simpl in *; lia|].
  cbn [app]. destruct Hz as [-> | Hz].
  - cbn [negb andb]. by rewrite (proj2 (Z.ltb_ge _ _)) by lia.
  - rewrite (proj2 (Z.ltb_ge 1 _)) by lia. rewrite andb_false_r.
    by rewrite (proj2 (Z.ltb_ge _ _)) by lia.
Qed.

Lemma read_octet_separated (i o : Z) (rest : list Z) :
  0 < i -> is_u8 o -> no_digit_ahead rest ->
  read_octet i (46 :: to_decimal o ++ rest) = Some (o, rest).
Proof.
  intros Hi Ho Hr. unfold read_octet, read_separator.
  rewrite (proj2 (Z.ltb_lt _ _)) by done. by apply read_octet_numeral.
Qed.

(** [Display] of an IPv4 address. *)
Definition ipv4_text (a b c d : Z) : rstr :=
  to_decimal a ++ lit "." ++ to_decimal b ++ lit "." ++ to_decimal c ++ lit "." ++ to_decimal d.

Lemma as_bytes_visible (s : rstr) : Forall is_visible s -> as_bytes s = s.
Proof.
  induction 1 as [|c s Hc Hs IH]; [done|]. simpl. rewrite IH. unfold is_visible, utf8_char in *.
  by rewrite (proj2 (Z.ltb_lt _ _)) by lia.
Qed.

Lemma decimal_visible (n : Z) : 0 <= n -> Forall is_visible (to_decimal n).
Proof. intros. by apply digit_visible, to_decimal_digits. Qed.

(** A printed IPv4 address is read back. *)
Lemma parse_ipv4_text (a b c d : Z) : is_u8 a -> is_u8 b -> is_u8 c -> is_u8 d ->
  parse_ip_addr (ipv4_text a b c d) = Some (IpV4 a b c d).
Proof.
  intros Ha Hb Hc Hd. unfold parse_ip_addr. rewrite as_bytes_visible.
  2: { unfold ipv4_text, is_u8, is_uint in *. repeat (apply Forall_app; split); try (apply decimal_visible; lia);
       by apply visible_str_true. }
  unfold ipv4_text, read_ipv4_addr. change (lit ".") with [46]. cbn [app].
  unfold read_octet at 1. change (read_separator 46 0) with (fun p : parser Z => p). cbv beta.
  rewrite read_octet_numeral by done. rewrite !read_octet_separated by done.
  rewrite <- (app_nil_r (to_decimal d)). by rewrite read_octet_separated.
Qed.

Lemma parse_u64_digits_decimal (ds : list Z) (value : Z) :
  Forall is_digit ds -> 0 <= value ->
  fold_left (fun a c => a * 10 + (c - 48)) ds value <= u64_max ->
  parse_u64_digits value ds = Some (fold_left (fun a c => a * 10 + (c - 48)) ds value)
  /\ value <= fold_left (fun a c => a * 10 + (c - 48)) ds value.
Proof.
  intros Hd. revert value. induction Hd as [|c ds Hc Hd IH]; intros value Hv Hm; [split; [done|simpl; lia]|].
  cbn [fold_left parse_u64_digits] in *. rewrite to_digit_decimal by done. unfold is_digit in Hc.
  destruct (IH (value * 10 + (c - 48))) as [-> Hle]; [lia|done|].
  rewrite (proj2 (Z.ltb_ge _ _)) by lia. split; [done|lia].
Qed.

(** A printed timestamp is read back. *)
Lemma parse_u64_decimal (n : Z) : is_u64 n -> parse_u64 (to_decimal n) = Some n.
Proof.
  intros Hn. pose proof (from_to_decimal n Hn) as Hf. unfold is_u64, is_uint in Hn.
  pose proof (to_decimal_digits n ltac:(lia)) as Hd. pose proof (to_decimal_length n) as Hl.
  unfold parse_u64. rewrite as_bytes_visible by (apply decimal_visible; lia).
  destruct (parse_u64_digits_decimal (to_decimal n) 0 Hd ltac:(lia)) as [H _].
  { change (from_decimal (to_decimal n) <= u64_max). rewrite Hf. unfold u64_max. lia. }
  change (fold_left _ (to_decimal n) 0) with (from_decimal (to_decimal n)) in H. rewrite Hf in H.
  destruct (to_decimal n) as [|c ds]; [unfold len in Hl; simpl in Hl; lia|].
  apply Forall_cons in Hd as [Hc _]. unfold is_digit in Hc.
  assert (c <> 43 /\ c <> 45) as [? ?] by lia.
  rewrite <- H. clear H Hf. destruct c as [|c|c]; try lia.
  do 6 (destruct c as [c|c|]; try done; try lia).
Qed.

(** Forms the parser accepts, and some it must not. *)
Lemma ip_addr_forms :
  parse_ip_addr (lit "192.168.1.50") = Some (IpV4 192 168 1 50)
  /\ parse_ip_addr (lit "fe80::1") = Some (IpV6 65152 0 0 0 0 0 0 1)
  /\ parse_ip_addr (lit "::") = Some (IpV6 0 0 0 0 0 0 0 0)
  /\ parse_ip_addr (lit "1:2:3:4:5:6:7::") = Some (IpV6 1 2 3 4 5 6 7 0)
  /\ parse_ip_addr (lit "::ffff:10.0.0.1") = Some (IpV6 0 0 0 0 0 65535 2560 1)
  /\ parse_ip_addr (lit "192.168.01.50") = None /\ parse_ip_addr (lit "256.1.1.1") = None
  /\ parse_ip_addr (lit "1::2::3") = None /\ parse_ip_addr (lit "1.2.3.4::") = None
  /\ parse_ip_addr (lit "1.2.3.4 ") = None /\ parse_ip_addr [] = None.
Proof. vm_compute. tauto. Qed.

(** ** What an accepted payload promises *)

(** An address that can name one host. *)
Definition is_destination (address : IpAddr) : Prop :=
  is_unspecified address = false /\ is_multicast address = false /\ is_broadcast address = false.

(** The expiry a payload carries, and that it is ahead. *)
Definition expiry_of (text : option rstr) (expires_at_ms : option Z) (now : Z) : Prop :=
  match text with
  | Some value => exists e, parse_u64 value = Some e /\ expires_at_ms = Some e /\ now < e
  | None => expires_at_ms = None
  end.

Lemma expiry_of_iff (text : option rstr) (expires_at_ms : option Z) (now : Z) (error : TransportError) :
  expiry_of text expires_at_ms now <->
  match text with
  | Some value => ok_or (option_map Some (parse_u64 value)) error
  | None => Ok None
  end = Ok expires_at_ms
  /\ match expires_at_ms with Some e => e <=? now | None => false end = false.
Proof.
  destruct text as [value|]; simpl; [|split; [by intros -> | by intros [[= <-] _]]].
  destruct (parse_u64 value) as [e|]; simpl.
  - split.
    + intros (? & [= <-] & -> & H). split; [done|by apply Z.leb_gt].
    + intros [[= <-] H%Z.leb_gt]. eauto.
  - split; [by intros (? & ? & _)|by intros [? _]].
Qed.

Lemma identifier_new_session (value id : rstr) :
  identifier_new IdSession value = Ok id -> id = value.
Proof. unfold identifier_new. destruct (validate_identifier _ _); simpl; congruence. Qed.

(** A payload is accepted exactly when its address is one host's, its ports are
    set, its session identifier is valid, it speaks this version and it has not
    expired; the endpoint then has the payload's values. *)
Lemma from_payload_ok (payload : ManualHostEndpointPayload) (now : Z) (e : ManualHostEndpoint) :
  from_payload payload now = Ok e <->
  parse_ip_addr payload.(mp_host_address) = Some e.(me_endpoint).(endpoint_address)
  /\ is_destination e.(me_endpoint).(endpoint_address)
  /\ e.(me_endpoint).(control_port) = payload.(mp_control_port)
  /\ e.(me_endpoint).(sync_port) = payload.(mp_sync_port)
  /\ e.(me_endpoint).(audio_port) = payload.(mp_audio_port)
  /\ payload.(mp_control_port) <> 0 /\ payload.(mp_sync_port) <> 0 /\ payload.(mp_audio_port) <> 0
  /\ identifier_new IdSession payload.(mp_session_id) = Ok e.(me_session_id)
  /\ payload.(mp_protocol_version) = current_protocol_version
  /\ e.(me_protocol_version) = current_protocol_version
  /\ e.(me_invite_code_required) = payload.(mp_invite_code_required)
  /\ expiry_of payload.(mp_expires_at_ms) e.(me_expires_at_ms) now.
Proof.
  unfold from_payload, is_destination, NetworkEndpoint_new.
  rewrite (expiry_of_iff _ _ _ (invalid (lit "expiration timestamp is malformed"))).
  destruct (parse_ip_addr _) as [address|]; simpl; [|split; [done|by intros (? & _)]].
  split.
  - intros H. destruct (is_unspecified address || is_multicast address) eqn:E1; [done|].
    destruct (is_broadcast address) eqn:E2; [done|].
    destruct ((_ =? 0) || _ || _) eqn:E3; simpl in H; [done|].
    destruct (identifier_new _ _) as [sid|] eqn:E4; simpl in H; [|done].
    destruct (mp_protocol_version payload =? _) eqn:E5; simpl in H; [|done].
    destruct (match mp_expires_at_ms payload with Some _ => _ | None => _ end) as [ex|] eqn:E6;
      simpl in H; [|done].
    destruct (match ex with Some _ => _ | None => _ end) eqn:E7; [done|]. injection H as <-.
    to_prop. cbn. rewrite E7. auto 20.
  - destruct e as [[addr cp sp ap] sid pv ic ex]; cbn.
    intros ([= ->] & (-> & -> & ->) & -> & -> & -> & Hc & Hs & Ha & -> & -> & -> & -> & He & Hx).
    cbn. rewrite !(proj2 (Z.eqb_neq _ 0)) by done. cbn. rewrite He. cbn. by rewrite Hx.
Qed.
