(* ===== verification/Invitations.v ===== *)
(** Invitations, recent sessions and remembered hosts
    (src/rust/silent-disco-core/src/p2): the signed QR document, its canonical
    text and validation, and the SQLite store with its replay ledger.

    The JSON, base64, P-256, SHA-256 and SQLite crates are not part of the
    repository.  The first four are parameters; of SQLite the statements the
    code runs are written out on tables that are finite maps by primary key,
    with the schema's CHECK and UNIQUE constraints, and whether a statement
    fails for another reason is an argument of every operation. *)
From Stdlib Require Import ZArith Lia Strings.String.
From stdpp Require Import numbers list prelude sorting gmap.
From S2P Require Import Prelude Utf8 Domain Decimal RuntimeTypes TransportTypes ManualEndpoint.

Definition P2_SCHEMA_VERSION : Z := 1.
Definition DEFAULT_RECENT_MAX_AGE_MS : Z := 30 * 24 * 60 * 60 * 1000.
Definition MAX_RECENT_QUERY_LIMIT : Z := 20.
Definition MAX_QR_LIFETIME_MS : Z := 10 * 60 * 1000.
Definition QR_CLOCK_SKEW_MS : Z := 60 * 1000.
Definition MAX_NAME_BYTES : Z := 256.
Definition MAX_PUBLIC_KEY_BYTES : Z := 1024.
Definition MAX_QR_PAYLOAD_BYTES : Z := 16384.

(** ** Types *)

Inductive RecentSessionRole : Type := RecentHost | RecentListener.

Definition role_wire_name (role : RecentSessionRole) : rstr :=
  match role with RecentHost => lit "host" | RecentListener => lit "listener" end.

Inductive RecentSessionOutcome : Type := Completed | Cancelled | Failed.

Definition outcome_wire_name (outcome : RecentSessionOutcome) : rstr :=
  match outcome with
  | Completed => lit "completed"
  | Cancelled => lit "cancelled"
  | Failed => lit "failed"
  end.

Inductive P2Error : Type :=
| P2InvalidArgument (message : rstr)
| P2Storage (message : rstr)
| P2CorruptStore (message : rstr)
| P2InvalidQr (message : rstr)
| P2ExpiredQr
| P2ReplayedQr
| P2InvalidSignature.

Definition p2_error_text (error : P2Error) : rstr :=
  match error with
  | P2InvalidArgument message => lit "invalid P2 argument: " ++ message
  | P2Storage message => lit "P2 storage failure: " ++ message
  | P2CorruptStore message => lit "P2 storage is corrupt: " ++ message
  | P2InvalidQr message => lit "invalid Silent Disco QR invitation: " ++ message
  | P2ExpiredQr => lit "Silent Disco QR invitation has expired"
  | P2ReplayedQr => lit "Silent Disco QR invitation was already used on this phone"
  | P2InvalidSignature => lit "Silent Disco QR invitation signature is invalid"
  end.

Definition role_parse (value : rstr) : result RecentSessionRole P2Error :=
  if bool_decide (value = lit "host") then Ok RecentHost
  else if bool_decide (value = lit "listener") then Ok RecentListener
  else Err (P2CorruptStore (lit "unknown recent-session role")).

Definition outcome_parse (value : rstr) : result RecentSessionOutcome P2Error :=
  if bool_decide (value = lit "completed") then Ok Completed
  else if bool_decide (value = lit "cancelled") then Ok Cancelled
  else if bool_decide (value = lit "failed") then Ok Failed
  else Err (P2CorruptStore (lit "unknown recent-session outcome")).

Record RecentSessionRecord : Type := mkRecentSessionRecord {
  rs_session_id : rstr;
  rs_role : RecentSessionRole;
  rs_session_name : rstr;
  rs_host_name : rstr;
  rs_host_fingerprint : option rstr;
  rs_started_at_ms : Z;
  rs_ended_at_ms : Z;
  rs_outcome : RecentSessionOutcome
}.

Record TrustedHostRecord : Type := mkTrustedHostRecord {
  th_fingerprint : rstr;
  th_display_name : rstr;
  th_public_key_der : list Z;
  th_first_verified_ms : Z;
  th_last_verified_ms : Z
}.

Record QrInvitationInput : Type := mkQrInvitationInput {
  in_session_id : rstr;
  in_session_name : rstr;
  in_host_name : rstr;
  in_host_public_key_der : list Z;
  in_approval_mode : rstr;
  in_invite_code : option rstr;
  in_issued_at_ms : Z;
  in_expires_at_ms : Z;
  in_nonce : rstr;
  in_connection_payload_json : option rstr
}.

Record ValidatedQrInvitation : Type := mkValidatedQrInvitation {
  vq_session_id : rstr;
  vq_session_name : rstr;
  vq_host_name : rstr;
  vq_host_public_key_der : list Z;
  vq_host_fingerprint : rstr;
  vq_approval_mode : rstr;
  vq_invite_code : option rstr;
  vq_issued_at_ms : Z;
  vq_expires_at_ms : Z;
  vq_nonce : rstr;
  vq_connection_payload_json : option rstr
}.

Record UnsignedQrDocument : Type := mkUnsignedQrDocument {
  qr_v : Z;
  qr_alg : rstr;
  qr_sid : rstr;
  qr_sn : rstr;
  qr_hn : rstr;
  qr_pk : rstr;
  qr_am : rstr;
  qr_code : option rstr;
  qr_iat : Z;
  qr_exp : Z;
  qr_nonce : rstr;
  qr_conn : option rstr
}.

(** [SignedQrDocument]: the fields of the unsigned one, and [sig];
    [From<SignedQrDocument>] is the first projection. *)
Record SignedQrDocument : Type := mkSignedQrDocument {
  signed_document : UnsignedQrDocument;
  signed_sig : rstr
}.

#[export] Instance RecentSessionRole_eq_dec : EqDecision RecentSessionRole.
Proof. solve_decision. Defined.
#[export] Instance P2Error_eq_dec : EqDecision P2Error.
Proof. solve_decision. Defined.
#[export] Instance UnsignedQrDocument_eq_dec : EqDecision UnsignedQrDocument.
Proof. solve_decision. Defined.
#[export] Instance ValidatedQrInvitation_eq_dec : EqDecision ValidatedQrInvitation.
Proof. solve_decision. Defined.

(** ** The documents in JSON

    What [#[derive(Deserialize)]] with [deny_unknown_fields] makes of the
    members of an object, in the order they are read: every name is a field of
    the type and occurs once, a [String] is a string, a [u8] and a [u64] are
    numbers of their width, an [Option<String>] may be null or absent. *)

Inductive JsonValue : Type :=
| JsonString (s : rstr)
| JsonNumber (n : Z)
| JsonNull.

Definition JsonObject : Type := list (rstr * JsonValue).

Fixpoint json_member (name : rstr) (object : JsonObject) : option JsonValue :=
  match object with
  | [] => None
  | (key, value) :: rest => if bool_decide (key = name) then Some value else json_member name rest
  end.

Definition string_field (name : string) (object : JsonObject) : option rstr :=
  match json_member (lit name) object with Some (JsonString s) => Some s | _ => None end.

Definition number_field (max : Z) (name : string) (object : JsonObject) : option Z :=
  match json_member (lit name) object with
  | Some (JsonNumber n) => if in_range 0 max n then Some n else None
  | _ => None
  end.

Definition option_field (name : string) (object : JsonObject) : option (option rstr) :=
  match json_member (lit name) object with
  | None | Some JsonNull => Some None
  | Some (JsonString s) => Some (Some s)
  | Some (JsonNumber _) => None
  end.

Definition known_fields (names : list string) (object : JsonObject) : bool :=
  bool_decide (NoDup object.*1)
  && forallb (fun key => existsb (fun name => bool_decide (key = lit name)) names) object.*1.

Definition document_fields : list string :=
  ["v"; "alg"; "sid"; "sn"; "hn"; "pk"; "am"; "code"; "iat"; "exp"; "nonce"; "conn"]%string.

Definition read_fields (object : JsonObject) : option UnsignedQrDocument :=
  v ← number_field 255 "v" object; alg ← string_field "alg" object;
  sid ← string_field "sid" object; sn ← string_field "sn" object;
  hn ← string_field "hn" object; pk ← string_field "pk" object;
  am ← string_field "am" object; code ← option_field "code" object;
  iat ← number_field u64_max "iat" object; exp ← number_field u64_max "exp" object;
  nonce ← string_field "nonce" object; conn ← option_field "conn" object;
  Some (mkUnsignedQrDocument v alg sid sn hn pk am code iat exp nonce conn).

Definition read_unsigned (object : JsonObject) : option UnsignedQrDocument :=
  if known_fields document_fields object then read_fields object else None.

Definition read_signed (object : JsonObject) : option SignedQrDocument :=
  if known_fields (document_fields ++ ["sig"%string]) object then
    document ← read_fields object; sig ← string_field "sig" object;
    Some (mkSignedQrDocument document sig)
  else None.

(** ** Validation *)

Definition invalid_qr {A : Type} (message : string) : result A P2Error := Err (P2InvalidQr (lit message)).

Definition validate_name (value : rstr) (field : string) : result unit P2Error :=
  if negb (bool_decide (trim value = value)) || bool_decide (value = [])
     || (MAX_NAME_BYTES <? str_len value) || existsb (Z.eqb 0) value
  then Err (P2InvalidArgument (lit field ++ lit " is invalid"))
  else Ok tt.

Definition is_ascii_alphanumeric (b : Z) : bool :=
  in_range 48 57 b || in_range 65 90 b || in_range 97 122 b.

Definition validate_nonce (value : rstr) : result unit P2Error :=
  if negb (in_range 16 80 (str_len value))
     || negb (forallb (fun b => is_ascii_alphanumeric b || (b =? 45) || (b =? 95)) (as_bytes value))
  then invalid_qr "nonce is invalid" else Ok tt.

(** [byte.is_ascii_hexdigit() && !byte.is_ascii_uppercase()]. *)
Definition is_lower_hex (b : Z) : bool :=
  (in_range 48 57 b || in_range 65 70 b || in_range 97 102 b) && negb (in_range 65 90 b).

Definition validate_fingerprint (value : option rstr) : result unit P2Error :=
  match value with
  | None => Ok tt
  | Some value =>
      if negb (str_len value =? 64) || negb (forallb is_lower_hex (as_bytes value)) then
        Err (P2InvalidArgument (lit "host fingerprint is invalid"))
      else Ok tt
  end.

Definition RecentSessionRecord_validate (self : RecentSessionRecord) : result unit P2Error :=
  let? _ := map_err (fun _ => P2InvalidArgument (lit "invalid session identifier"))
              (identifier_new IdSession self.(rs_session_id)) in
  let? _ := validate_name self.(rs_session_name) "session name" in
  let? _ := validate_name self.(rs_host_name) "host name" in
  let? _ := validate_fingerprint self.(rs_host_fingerprint) in
  if (self.(rs_started_at_ms) =? 0) || (self.(rs_ended_at_ms) <? self.(rs_started_at_ms)) then
    Err (P2InvalidArgument (lit "recent-session timestamps are invalid"))
  else Ok tt.

(** The modes an invitation may name, and whether one needs a code. *)
Definition validate_mode (am : rstr) (code : option rstr) : result unit P2Error :=
  if negb (bool_decide (am = lit "manual") || bool_decide (am = lit "invite_code")
           || bool_decide (am = lit "approved_devices"))
  then invalid_qr "approval mode is invalid"
  else if bool_decide (am = lit "invite_code") then
    match code with
    | None => invalid_qr "invite code is missing"
    | Some code =>
        if negb (bool_decide (trim code = code)) || negb (in_range 4 32 (str_len code)) then
          invalid_qr "invite code is invalid"
        else Ok tt
    end
  else match code with
  | Some _ => invalid_qr "invite code is present for a mode that does not use one"
  | None => Ok tt
  end.

(** ** Tables *)

Record RecentRow : Type := mkRecentRow {
  rr_session_name : rstr;
  rr_host_name : rstr;
  rr_host_fingerprint : option rstr;
  rr_started_at_ms : Z;
  rr_ended_at_ms : Z;
  rr_outcome : rstr
}.

Record TrustedRow : Type := mkTrustedRow {
  tr_display_name : rstr;
  tr_public_key_der : list Z;
  tr_first_verified_ms : Z;
  tr_last_verified_ms : Z
}.

Record NonceRow : Type := mkNonceRow {
  nr_consumed_at_ms : Z;
  nr_expires_at_ms : Z
}.

(** The tables by primary key: [(session_id, role)], [fingerprint], [nonce]. *)
Record P2Store : Type := mkP2Store {
  recent_sessions : gmap (rstr * rstr) RecentRow;
  trusted_hosts : gmap rstr TrustedRow;
  consumed_qr_nonces : gmap rstr NonceRow
}.

Definition P2Store_empty : P2Store := mkP2Store ∅ ∅ ∅.

(** [length(TEXT)]: characters up to the first NUL. *)
Fixpoint sql_length (s : rstr) : Z :=
  match s with
  | [] => 0
  | c :: s' => if c =? 0 then 0 else 1 + sql_length s'
  end.

Definition recent_check (key : rstr * rstr) (row : RecentRow) : bool :=
  (bool_decide (key.2 = lit "host") || bool_decide (key.2 = lit "listener"))
  && in_range 1 256 (sql_length row.(rr_session_name))
  && in_range 1 256 (sql_length row.(rr_host_name))
  && match row.(rr_host_fingerprint) with None => true | Some f => sql_length f =? 64 end
  && (0 <? row.(rr_started_at_ms)) && (row.(rr_started_at_ms) <=? row.(rr_ended_at_ms))
  && (bool_decide (row.(rr_outcome) = lit "completed") || bool_decide (row.(rr_outcome) = lit "cancelled")
      || bool_decide (row.(rr_outcome) = lit "failed")).

Definition trusted_check (fingerprint : rstr) (row : TrustedRow) : bool :=
  (sql_length fingerprint =? 64) && in_range 1 256 (sql_length row.(tr_display_name))
  && in_range 1 1024 (len row.(tr_public_key_der))
  && (0 <? row.(tr_first_verified_ms)) && (row.(tr_first_verified_ms) <=? row.(tr_last_verified_ms)).

Definition nonce_check (nonce : rstr) (row : NonceRow) : bool :=
  in_range 16 80 (sql_length nonce) && (0 <? row.(nr_consumed_at_ms))
  && (row.(nr_consumed_at_ms) <=? row.(nr_expires_at_ms)).

(** [i64::MAX]. *)
Definition sql_integer_max : Z := 9223372036854775807.

Definition to_sql_millis (value : Z) : result Z P2Error :=
  if value <=? sql_integer_max then Ok value else Err (P2InvalidArgument (lit "timestamp is too large")).

Definition from_sql_millis (value : Z) : result Z P2Error :=
  if value <? 0 then Err (P2CorruptStore (lit "negative timestamp")) else Ok value.

(** [statement n] of a call fails with a text of SQLite's, or does its work. *)
Definition faults : Type := nat -> option rstr.

Definition statement (io : faults) (n : nat) : result unit P2Error :=
  match io n with Some text => Err (P2Storage text) | None => Ok tt end.

(** The first statement a call's [n]th leaves off at. *)
Definition faults_from (n : nat) (io : faults) : faults := fun k => io (n + k)%nat.

(** A transaction that is not committed is rolled back when it is dropped. *)
Definition transact {A : Type} (self : P2Store) (r : result (P2Store * A) P2Error)
    : P2Store * result A P2Error :=
  match r with
  | Ok (store, a) => (store, Ok a)
  | Err error => (self, Err error)
  end.

(** [DELETE FROM recent_sessions WHERE ended_at_ms < cutoff] and
    [DELETE FROM consumed_qr_nonces WHERE expires_at_ms < now]. *)
Definition prune_recent (cutoff : Z) (table : gmap (rstr * rstr) RecentRow) : gmap (rstr * rstr) RecentRow :=
  filter (fun '(_, row) => cutoff <= row.(rr_ended_at_ms)) table.

Definition prune_nonces (now : Z) (table : gmap rstr NonceRow) : gmap rstr NonceRow :=
  filter (fun '(_, row) => now <= row.(nr_expires_at_ms)) table.

Definition cleanup (self : P2Store) (now_ms recent_max_age_ms : Z) (io : faults)
    : P2Store * result unit P2Error :=
  transact self
    (if (now_ms =? 0) || (recent_max_age_ms =? 0) then
       Err (P2InvalidArgument (lit "cleanup bounds are invalid"))
     else
       let cutoff := saturating_sub now_ms recent_max_age_ms in
       let? _ := statement io 0 in
       let? cutoff := to_sql_millis cutoff in
       let? _ := statement io 1 in
       let recent := prune_recent cutoff self.(recent_sessions) in
       let? now := to_sql_millis now_ms in
       let? _ := statement io 2 in
       let nonces := prune_nonces now self.(consumed_qr_nonces) in
       let? _ := statement io 3 in
       Ok (mkP2Store recent self.(trusted_hosts) nonces, tt)).

Definition delete_trusted_host (self : P2Store) (fingerprint : rstr) (io : faults)
    : P2Store * result bool P2Error :=
  transact self
    (let? _ := validate_fingerprint (Some fingerprint) in
     let? _ := statement io 0 in
     Ok (mkP2Store self.(recent_sessions) (delete fingerprint self.(trusted_hosts))
           self.(consumed_qr_nonces),
         bool_decide (is_Some (self.(trusted_hosts) !! fingerprint)))).

(** ** Ordered queries *)

(** The BINARY collation: [memcmp] of the UTF-8 bytes, the shorter first. *)
Fixpoint bytes_le (a b : list Z) : bool :=
  match a, b with
  | [], _ => true
  | _ :: _, [] => false
  | x :: a', y :: b' => (x <? y) || ((x =? y) && bytes_le a' b')
  end.

(** The NOCASE collation folds the 26 upper-case ASCII letters. *)
Definition nocase (bytes : list Z) : list Z :=
  map (fun b => if in_range 65 90 b then b + 32 else b) bytes.

(** [ORDER BY ended_at_ms DESC, session_id ASC]. *)
Definition recent_before (a b : (rstr * rstr) * RecentRow) : Prop :=
  b.2.(rr_ended_at_ms) < a.2.(rr_ended_at_ms)
  \/ (b.2.(rr_ended_at_ms) = a.2.(rr_ended_at_ms) /\ bytes_le (as_bytes a.1.1) (as_bytes b.1.1) = true).

(** [ORDER BY display_name COLLATE NOCASE ASC, fingerprint ASC]. *)
Definition trusted_before (a b : rstr * TrustedRow) : Prop :=
  let an := nocase (as_bytes a.2.(tr_display_name)) in
  let bn := nocase (as_bytes b.2.(tr_display_name)) in
  (bytes_le an bn = true /\ an <> bn) \/ (an = bn /\ bytes_le (as_bytes a.1) (as_bytes b.1) = true).

#[export] Instance recent_before_dec : RelDecision recent_before.
Proof. intros a b. unfold recent_before. apply _. Defined.
#[export] Instance trusted_before_dec : RelDecision trusted_before.
Proof. intros a b. unfold trusted_before. apply _. Defined.

Fixpoint collect_rows {A B E : Type} (f : A -> result B E) (l : list A) : result (list B) E :=
  match l with
  | [] => Ok []
  | a :: rest => let? b := f a in let? bs := collect_rows f rest in Ok (b :: bs)
  end.

(** A row of the listener query as a record. *)
Definition read_recent (entry : (rstr * rstr) * RecentRow) : result RecentSessionRecord P2Error :=
  let '((session_id, role), row) := entry in
  let? role := role_parse role in
  let? started_at_ms := from_sql_millis row.(rr_started_at_ms) in
  let? ended_at_ms := from_sql_millis row.(rr_ended_at_ms) in
  let? outcome := outcome_parse row.(rr_outcome) in
  let record := mkRecentSessionRecord session_id role row.(rr_session_name) row.(rr_host_name)
    row.(rr_host_fingerprint) started_at_ms ended_at_ms outcome in
  let? _ := RecentSessionRecord_validate record in
  Ok record.

(** [WHERE role = 'listener' AND ended_at_ms >= cutoff ORDER BY .. LIMIT ..]. *)
Definition select_recent (cutoff limit : Z) (table : gmap (rstr * rstr) RecentRow)
    : list ((rstr * rstr) * RecentRow) :=
  take (Z.to_nat limit)
    (merge_sort recent_before
       (map_to_list (filter (fun '(key, row) => key.2 = lit "listener" /\ cutoff <= row.(rr_ended_at_ms))
                       table))).

Definition list_recent_listener_sessions (self : P2Store) (now_ms max_age_ms limit : Z) (io : faults)
    : P2Store * result (list RecentSessionRecord) P2Error :=
  if (now_ms =? 0) || (max_age_ms =? 0) || (limit =? 0) || (MAX_RECENT_QUERY_LIMIT <? limit) then
    (self, Err (P2InvalidArgument (lit "recent-session query bounds are invalid")))
  else
    let cutoff := saturating_sub now_ms max_age_ms in
    let '(self, cleaned) := cleanup self now_ms max_age_ms io in
    (self,
     let? _ := cleaned in
     let? _ := statement io 4 in
     let? cutoff := to_sql_millis cutoff in
     let? _ := statement io 5 in
     collect_rows read_recent (select_recent cutoff limit self.(recent_sessions))).

(** [INSERT .. ON CONFLICT(session_id, role) DO UPDATE]: the row the statement
    leaves under the key. *)
Definition merge_recent (old : option RecentRow) (new : RecentRow) : RecentRow :=
  match old with
  | None => new
  | Some old =>
      mkRecentRow new.(rr_session_name) new.(rr_host_name) new.(rr_host_fingerprint)
        (Z.min old.(rr_started_at_ms) new.(rr_started_at_ms)) new.(rr_ended_at_ms) new.(rr_outcome)
  end.

Definition merge_trusted (old : option TrustedRow) (new : TrustedRow) : TrustedRow :=
  match old with
  | None => new
  | Some old =>
      mkTrustedRow new.(tr_display_name) new.(tr_public_key_der)
        (Z.min old.(tr_first_verified_ms) new.(tr_first_verified_ms))
        (Z.max old.(tr_last_verified_ms) new.(tr_last_verified_ms))
  end.

(** Another row with the key that [UNIQUE] allows once. *)
Definition key_taken (fingerprint : rstr) (public_key_der : list Z) (table : gmap rstr TrustedRow) : bool :=
  existsb (fun entry : rstr * TrustedRow => negb (bool_decide (entry.1 = fingerprint))
             && bool_decide (entry.2.(tr_public_key_der) = public_key_der)) (map_to_list table).

(** ** Operations *)

(** What the code uses of other crates. *)
Record Libraries : Type := mkLibraries {
  (* [Sha256::digest] *)
  sha256 : list Z -> list Z;
  (* [VerifyingKey::from_public_key_der(..).is_ok()],
     [Signature::from_der(..).is_ok()] and [key.verify(text, signature).is_ok()] *)
  is_public_key : list Z -> bool;
  is_signature : list Z -> bool;
  verifies : list Z -> list Z -> list Z -> bool;
  (* [URL_SAFE_NO_PAD.encode] and [URL_SAFE_NO_PAD.decode] *)
  base64_encode : list Z -> rstr;
  base64_decode : list Z -> option (list Z);
  (* [serde_json::to_string] of a [str], [serde_json::from_str] at the two
     documents and at the connection payload; an error is its text *)
  json_text : rstr -> result rstr rstr;
  unsigned_from_str : rstr -> result UnsignedQrDocument rstr;
  signed_from_str : rstr -> result SignedQrDocument rstr;
  payload_from_str : rstr -> result ManualHostEndpointPayload rstr;
  (* what SQLite says when a row of the named table violates a constraint *)
  constraint_text : string -> rstr
}.

Section Store.
Context (lib : Libraries).

Definition constraint (holds : bool) (table : string) : result unit P2Error :=
  if holds then Ok tt else Err (P2Storage (lib.(constraint_text) table)).

Definition HEX_DIGITS : rstr := lit "0123456789abcdef".

Definition public_key_fingerprint (public_key_der : list Z) : rstr :=
  flat_map (fun byte => [nth (Z.to_nat (Z.shiftr byte 4)) HEX_DIGITS 0;
                         nth (Z.to_nat (Z.land byte 15)) HEX_DIGITS 0])
    (lib.(sha256) public_key_der).

Definition TrustedHostRecord_validate (self : TrustedHostRecord) : result unit P2Error :=
  let? _ := validate_fingerprint (Some self.(th_fingerprint)) in
  let? _ := validate_name self.(th_display_name) "trusted-host display name" in
  if bool_decide (self.(th_public_key_der) = []) || (MAX_PUBLIC_KEY_BYTES <? len self.(th_public_key_der))
  then Err (P2InvalidArgument (lit "trusted-host public key has an unsupported size"))
  else if (self.(th_first_verified_ms) =? 0) || (self.(th_last_verified_ms) <? self.(th_first_verified_ms))
  then Err (P2InvalidArgument (lit "trusted-host timestamps are invalid"))
  else if negb (bool_decide (public_key_fingerprint self.(th_public_key_der) = self.(th_fingerprint)))
  then Err (P2InvalidArgument (lit "trusted-host fingerprint does not match its public key"))
  else Ok tt.

Definition record_session (self : P2Store) (value : RecentSessionRecord) (io : faults)
    : P2Store * result unit P2Error :=
  transact self
    (let? _ := RecentSessionRecord_validate value in
     let? _ := statement io 0 in
     let? started := to_sql_millis value.(rs_started_at_ms) in
     let? ended := to_sql_millis value.(rs_ended_at_ms) in
     let key := (value.(rs_session_id), role_wire_name value.(rs_role)) in
     let row := mkRecentRow value.(rs_session_name) value.(rs_host_name) value.(rs_host_fingerprint)
       started ended (outcome_wire_name value.(rs_outcome)) in
     let merged := merge_recent (self.(recent_sessions) !! key) row in
     let? _ := statement io 1 in
     let? _ := constraint (recent_check key row && recent_check key merged) "recent_sessions" in
     let? _ := statement io 2 in
     Ok (mkP2Store (<[key := merged]> self.(recent_sessions)) self.(trusted_hosts)
           self.(consumed_qr_nonces), tt)).

Definition trust_host (self : P2Store) (host : TrustedHostRecord) (io : faults)
    : P2Store * result unit P2Error :=
  transact self
    (let? _ := TrustedHostRecord_validate host in
     let? _ := statement io 0 in
     let? first := to_sql_millis host.(th_first_verified_ms) in
     let? last := to_sql_millis host.(th_last_verified_ms) in
     let key := host.(th_fingerprint) in
     let row := mkTrustedRow host.(th_display_name) host.(th_public_key_der) first last in
     let merged := merge_trusted (self.(trusted_hosts) !! key) row in
     let? _ := statement io 1 in
     let? _ := constraint (trusted_check key row && trusted_check key merged
                           && negb (key_taken key host.(th_public_key_der) self.(trusted_hosts)))
                 "trusted_hosts" in
     let? _ := statement io 2 in
     Ok (mkP2Store self.(recent_sessions) (<[key := merged]> self.(trusted_hosts))
           self.(consumed_qr_nonces), tt)).

Definition read_trusted (entry : rstr * TrustedRow) : result TrustedHostRecord P2Error :=
  let '(fingerprint, row) := entry in
  let? first := from_sql_millis row.(tr_first_verified_ms) in
  let? last := from_sql_millis row.(tr_last_verified_ms) in
  let host := mkTrustedHostRecord fingerprint row.(tr_display_name) row.(tr_public_key_der) first last in
  let? _ := TrustedHostRecord_validate host in
  Ok host.

Definition list_trusted_hosts (self : P2Store) (io : faults) : result (list TrustedHostRecord) P2Error :=
  let? _ := statement io 0 in
  let? _ := statement io 1 in
  collect_rows read_trusted (merge_sort trusted_before (map_to_list self.(trusted_hosts))).

(** ** The document *)

Definition unsigned_document (input : QrInvitationInput) : result UnsignedQrDocument P2Error :=
  if bool_decide (input.(in_host_public_key_der) = [])
     || (MAX_PUBLIC_KEY_BYTES <? len input.(in_host_public_key_der))
  then Err (P2InvalidArgument (lit "host public key has an unsupported size"))
  else Ok (mkUnsignedQrDocument 1 (lit "ES256") input.(in_session_id) input.(in_session_name)
             input.(in_host_name) (lib.(base64_encode) input.(in_host_public_key_der))
             input.(in_approval_mode) input.(in_invite_code) input.(in_issued_at_ms)
             input.(in_expires_at_ms) input.(in_nonce) input.(in_connection_payload_json)).

Definition validate_connection_payload (value : option rstr) (now_ms : Z) : result unit P2Error :=
  match value with
  | None => Ok tt
  | Some value =>
      if bool_decide (value = []) || (MAX_MANUAL_ENDPOINT_PAYLOAD_BYTES <? str_len value) then
        invalid_qr "connection payload size is unsupported"
      else
        let? _ := map_err (fun error => P2InvalidQr (lit "connection payload is invalid: "
                                                     ++ transport_error_text error))
                    (ManualHostEndpoint_parse lib.(payload_from_str) value now_ms) in
        Ok tt
  end.

Definition validate_unsigned (document : UnsignedQrDocument) (now_ms : Z) : result unit P2Error :=
  if negb (document.(qr_v) =? 1) || negb (bool_decide (document.(qr_alg) = lit "ES256")) then
    invalid_qr "unsupported invitation version or signature algorithm"
  else
  let? _ := map_err (fun _ => P2InvalidQr (lit "session identifier is invalid"))
              (identifier_new IdSession document.(qr_sid)) in
  let? _ := map_err (fun error => P2InvalidQr (p2_error_text error))
              (validate_name document.(qr_sn) "session name") in
  let? _ := map_err (fun error => P2InvalidQr (p2_error_text error))
              (validate_name document.(qr_hn) "host name") in
  let? _ := validate_mode document.(qr_am) document.(qr_code) in
  if (document.(qr_iat) =? 0) || (document.(qr_exp) <=? document.(qr_iat))
     || (MAX_QR_LIFETIME_MS <? document.(qr_exp) - document.(qr_iat))
  then invalid_qr "invitation lifetime is invalid"
  else if saturating_add u64_max now_ms QR_CLOCK_SKEW_MS <? document.(qr_iat) then
    invalid_qr "invitation was issued too far in the future"
  else if saturating_add u64_max document.(qr_exp) QR_CLOCK_SKEW_MS <? now_ms then Err P2ExpiredQr
  else
  let? _ := validate_nonce document.(qr_nonce) in
  validate_connection_payload document.(qr_conn) now_ms.

Definition json_string (value : rstr) : result rstr P2Error :=
  map_err P2InvalidQr (lib.(json_text) value).

Definition json_option (value : option rstr) : result rstr P2Error :=
  match value with Some value => json_string value | None => Ok (lit "null") end.

(** A field's name in quotation marks (34), and the colon. *)
Definition field_key (name : string) : rstr := [34] ++ lit name ++ [34; 58].

Definition canonical_unsigned (document : UnsignedQrDocument) : result rstr P2Error :=
  let? alg := json_string document.(qr_alg) in
  let? sid := json_string document.(qr_sid) in
  let? sn := json_string document.(qr_sn) in
  let? hn := json_string document.(qr_hn) in
  let? pk := json_string document.(qr_pk) in
  let? am := json_string document.(qr_am) in
  let? code := json_option document.(qr_code) in
  let? nonce := json_string document.(qr_nonce) in
  let? conn := json_option document.(qr_conn) in
  Ok (lit "{" ++ field_key "v" ++ to_decimal document.(qr_v)
      ++ lit "," ++ field_key "alg" ++ alg
      ++ lit "," ++ field_key "sid" ++ sid
      ++ lit "," ++ field_key "sn" ++ sn
      ++ lit "," ++ field_key "hn" ++ hn
      ++ lit "," ++ field_key "pk" ++ pk
      ++ lit "," ++ field_key "am" ++ am
      ++ lit "," ++ field_key "code" ++ code
      ++ lit "," ++ field_key "iat" ++ to_decimal document.(qr_iat)
      ++ lit "," ++ field_key "exp" ++ to_decimal document.(qr_exp)
      ++ lit "," ++ field_key "nonce" ++ nonce
      ++ lit "," ++ field_key "conn" ++ conn ++ lit "}").

(** ** Issuing *)

Definition prepare_unsigned_qr (input : QrInvitationInput) : result rstr P2Error :=
  let? document := unsigned_document input in
  let? _ := validate_unsigned document input.(in_issued_at_ms) in
  canonical_unsigned document.

(** [str::strip_suffix] of one character. *)
Definition strip_suffix (c : Z) (s : rstr) : option rstr :=
  match rev s with
  | d :: front => if d =? c then Some (rev front) else None
  | [] => None
  end.

Definition finalize_qr (unsigned_json signature_base64url : rstr) : result rstr P2Error :=
  if bool_decide (unsigned_json = []) || (MAX_QR_PAYLOAD_BYTES <? str_len unsigned_json) then
    invalid_qr "unsigned payload size is unsupported"
  else
  let? unsigned := map_err P2InvalidQr (lib.(unsigned_from_str) unsigned_json) in
  let? canonical := canonical_unsigned unsigned in
  if negb (bool_decide (canonical = unsigned_json)) then
    invalid_qr "unsigned payload is not in canonical form"
  else
  let? signature := ok_or (lib.(base64_decode) (as_bytes signature_base64url))
                      (P2InvalidQr (lit "signature is not valid base64url")) in
  if negb (lib.(is_signature) signature) then Err P2InvalidSignature
  else
  let? prefix := ok_or (strip_suffix 125 canonical) (P2InvalidQr (lit "canonical payload is malformed")) in
  let? sig := json_string signature_base64url in
  Ok (prefix ++ lit "," ++ field_key "sig" ++ sig ++ lit "}").

(** ** Redeeming *)

(** The checks of [validate_and_consume_qr] before its transaction: the document
    and the key it was verified with. *)
Definition verify_qr (payload : rstr) (now_ms : Z) : result (UnsignedQrDocument * list Z) P2Error :=
  if bool_decide (payload = []) || (MAX_QR_PAYLOAD_BYTES <? str_len payload) then
    invalid_qr "payload size is unsupported"
  else
  let? signed := map_err P2InvalidQr (lib.(signed_from_str) payload) in
  let unsigned := signed.(signed_document) in
  let? _ := validate_unsigned unsigned now_ms in
  let? canonical := canonical_unsigned unsigned in
  let? public_key_der := ok_or (lib.(base64_decode) (as_bytes unsigned.(qr_pk)))
                           (P2InvalidQr (lit "host public key is not valid base64url")) in
  if bool_decide (public_key_der = []) || (MAX_PUBLIC_KEY_BYTES <? len public_key_der) then
    invalid_qr "host public key size is unsupported"
  else if negb (lib.(is_public_key) public_key_der) then invalid_qr "host public key is not a P-256 key"
  else
  let? signature_der := ok_or (lib.(base64_decode) (as_bytes signed.(signed_sig)))
                          (P2InvalidQr (lit "signature is not valid base64url")) in
  if negb (lib.(is_signature) signature_der) then Err P2InvalidSignature
  else if negb (lib.(verifies) public_key_der (as_bytes canonical) signature_der) then Err P2InvalidSignature
  else Ok (unsigned, public_key_der).

(** The transaction: the ledger it commits. *)
Definition consume_nonce (ledger : gmap rstr NonceRow) (nonce : rstr) (now_ms exp_ms : Z) (io : faults)
    : result (gmap rstr NonceRow) P2Error :=
  let? _ := statement io 0 in
  let? now := to_sql_millis now_ms in
  let? _ := statement io 1 in
  let ledger := prune_nonces now ledger in
  let? _ := statement io 2 in
  if bool_decide (is_Some (ledger !! nonce)) then Err P2ReplayedQr
  else
  let? exp := to_sql_millis exp_ms in
  let? _ := statement io 3 in
  let? _ := constraint (nonce_check nonce (mkNonceRow now exp)) "consumed_qr_nonces" in
  let? _ := statement io 4 in
  Ok (<[nonce := mkNonceRow now exp]> ledger).

Definition validated_invitation (unsigned : UnsignedQrDocument) (public_key_der : list Z)
    : ValidatedQrInvitation :=
  mkValidatedQrInvitation unsigned.(qr_sid) unsigned.(qr_sn) unsigned.(qr_hn) public_key_der
    (public_key_fingerprint public_key_der) unsigned.(qr_am) unsigned.(qr_code) unsigned.(qr_iat)
    unsigned.(qr_exp) unsigned.(qr_nonce) unsigned.(qr_conn).

Definition validate_and_consume_qr (self : P2Store) (payload : rstr) (now_ms : Z) (io : faults)
    : P2Store * result ValidatedQrInvitation P2Error :=
  transact self
    (let? '(unsigned, public_key_der) := verify_qr payload now_ms in
     let? ledger := consume_nonce self.(consumed_qr_nonces) unsigned.(qr_nonce) now_ms
                      unsigned.(qr_exp) io in
     Ok (mkP2Store self.(recent_sessions) self.(trusted_hosts) ledger,
         validated_invitation unsigned public_key_der)).
End Store.

(** ** Opening *)

(** The file: its [user_version], and the tables once they exist. *)
Record Database : Type := mkDatabase {
  user_version : Z;
  db_tables : P2Store
}.

(** [Display] of an [i64]. *)
Definition signed_decimal (value : Z) : rstr :=
  if value <? 0 then lit "-" ++ to_decimal (- value) else to_decimal value.

Definition migrate (db : Database) (io : faults) : Database * result unit P2Error :=
  match statement io 0 with
  | Err error => (db, Err error)
  | Ok _ =>
      if db.(user_version) =? 0 then
        match
          let? _ := statement io 1 in
          let? _ := statement io 2 in
          let? _ := statement io 3 in
          statement io 4
        with
        | Ok _ => (mkDatabase P2_SCHEMA_VERSION P2Store_empty, Ok tt)
        | Err error => (db, Err error)
        end
      else if db.(user_version) =? P2_SCHEMA_VERSION then (db, Ok tt)
      else (db, Err (P2CorruptStore (lit "unsupported P2 schema version " ++ signed_decimal db.(user_version))))
  end.

(** [path] is blank or not, [directory] says whether its parent could be made,
    [file] is what [Connection::open] finds and [quick_check] what the pragma
    answers. *)
Definition P2Store_open (path : rstr) (directory : option rstr) (file : result Database rstr)
    (quick_check : rstr) (io : faults) : result P2Store P2Error :=
  if bool_decide (path = []) then Err (P2InvalidArgument (lit "database path is empty"))
  else match directory with
  | Some error => Err (P2Storage (lit "cannot create database directory: " ++ error))
  | None =>
      let? connection := map_err P2Storage file in
      let? _ := statement io 0 in
      let '(connection, migrated) := migrate connection (faults_from 1 io) in
      let? _ := migrated in
      let? _ := statement io 6 in
      if negb (bool_decide (quick_check = lit "ok")) then
        Err (P2CorruptStore (lit "SQLite quick_check returned " ++ quick_check))
      else Ok connection.(db_tables)
  end.
