(* ===== verification/InvitationsProofs.v ===== *)
(** What the invitation store guarantees: an invitation is redeemed once, while
    it is valid, with exactly the content its host signed; one that was issued
    and signed properly is redeemed; the history and the remembered hosts read
    back from every store that was reached. *)
From Stdlib Require Import ZArith Lia Strings.String.
From stdpp Require Import numbers list prelude sorting gmap.
From S2P Require Import Prelude Utf8 Domain Decimal RuntimeTypes TransportTypes ManualEndpoint Invitations.

(** ** Transactions *)

Lemma transact_ok {A : Type} (self store : P2Store) (r : result (P2Store * A) P2Error) (a : A) :
  transact self r = (store, Ok a) <-> r = Ok (store, a).
Proof. destruct r as [[s x]|e]; simpl; naive_solver. Qed.

(** What every committed result satisfies, the store of a call does. *)
Lemma transact_inv {A : Type} (P : P2Store -> Prop) (self : P2Store) (r : result (P2Store * A) P2Error) :
  P self -> (forall store a, r = Ok (store, a) -> P store) -> P (transact self r).1.
Proof. intros Hs Hr. destruct r as [[s x]|e]; simpl; eauto. Qed.

Lemma transact_err {A : Type} (self store : P2Store) (r : result (P2Store * A) P2Error) (e : P2Error) :
  transact self r = (store, Err e) -> store = self.
Proof. destruct r as [[s x]|e']; simpl; congruence. Qed.

Lemma statement_ok (io : faults) (n : nat) (u : unit) : statement io n = Ok u -> io n = None.
Proof. unfold statement. destruct (io n); congruence. Qed.

Lemma to_sql_millis_ok (value v : Z) :
  to_sql_millis value = Ok v <-> v = value /\ value <= sql_integer_max.
Proof.
  unfold to_sql_millis. destruct (value <=? sql_integer_max) eqn:E; to_prop.
  - split; [intros [= <-]; done|by intros [-> _]].
  - split; [done|lia].
Qed.

Lemma to_sql_millis_fine (value : Z) : value <= sql_integer_max -> to_sql_millis value = Ok value.
Proof. intros H. by apply to_sql_millis_ok. Qed.

Lemma constraint_ok (lib : Libraries) (holds : bool) (table : string) (u : unit) :
  constraint lib holds table = Ok u -> holds = true.
Proof. unfold constraint. by destruct holds. Qed.

Lemma Ok_inj {A E : Type} (a b : A) : @Ok A E a = Ok b -> a = b.
Proof. congruence. Qed.

(** ** Histories *)

(** A call on the store, with the faults its statements meet. *)
Inductive P2Call : Type :=
| CallRecord (value : RecentSessionRecord)
| CallRecent (now_ms max_age_ms limit : Z)
| CallTrust (host : TrustedHostRecord)
| CallForget (fingerprint : rstr)
| CallRedeem (payload : rstr) (now_ms : Z)
| CallCleanup (now_ms max_age_ms : Z).

(** The wall-clock time a call is given. *)
Definition call_time (call : P2Call) : option Z :=
  match call with
  | CallRecent now _ _ | CallRedeem _ now | CallCleanup now _ => Some now
  | CallRecord _ | CallTrust _ | CallForget _ => None
  end.

Definition p2_step (lib : Libraries) (self : P2Store) (entry : P2Call * faults) : P2Store :=
  let io := entry.2 in
  match entry.1 with
  | CallRecord value => (record_session lib self value io).1
  | CallRecent now age limit => (list_recent_listener_sessions self now age limit io).1
  | CallTrust host => (trust_host lib self host io).1
  | CallForget fingerprint => (delete_trusted_host self fingerprint io).1
  | CallRedeem payload now => (validate_and_consume_qr lib self payload now io).1
  | CallCleanup now age => (cleanup self now age io).1
  end.

Definition p2_run (lib : Libraries) (self : P2Store) (calls : list (P2Call * faults)) : P2Store :=
  fold_left (p2_step lib) calls self.

(** ** The replay ledger *)

Lemma consume_nonce_ok (lib : Libraries) (ledger ledger' : gmap rstr NonceRow) (nonce : rstr)
    (now exp : Z) (io : faults) :
  consume_nonce lib ledger nonce now exp io = Ok ledger' ->
  prune_nonces now ledger !! nonce = None
  /\ ledger' = <[nonce := mkNonceRow now exp]> (prune_nonces now ledger)
  /\ nonce_check nonce (mkNonceRow now exp) = true.
Proof.
  unfold consume_nonce. intros H. ok_steps H. injection H as <-.
  repeat match goal with E : to_sql_millis _ = Ok _ |- _ => apply to_sql_millis_ok in E as [-> _] end.
  to_prop. rewrite <- eq_None_not_Some in *. eauto using constraint_ok.
Qed.

Lemma nonce_check_times (nonce : rstr) (row : NonceRow) :
  nonce_check nonce row = true -> 0 < row.(nr_consumed_at_ms) <= row.(nr_expires_at_ms).
Proof. unfold nonce_check. intros H. to_prop. lia. Qed.

Lemma redeem_ok (lib : Libraries) (self store : P2Store) (payload : rstr) (now : Z) (io : faults)
    (inv : ValidatedQrInvitation) :
  validate_and_consume_qr lib self payload now io = (store, Ok inv) ->
  exists document key,
    verify_qr lib payload now = Ok (document, key)
    /\ inv = validated_invitation lib document key
    /\ consume_nonce lib self.(consumed_qr_nonces) inv.(vq_nonce) now inv.(vq_expires_at_ms) io
       = Ok store.(consumed_qr_nonces)
    /\ store.(recent_sessions) = self.(recent_sessions)
    /\ store.(trusted_hosts) = self.(trusted_hosts).
Proof.
  unfold validate_and_consume_qr. rewrite transact_ok. intros H. ok_steps H.
  injection H as <- <-. eauto 10.
Qed.

(** The ledger still knows a nonce that expires at [exp]. *)
Definition remembers (nonce : rstr) (exp : Z) (self : P2Store) : Prop :=
  exists row, self.(consumed_qr_nonces) !! nonce = Some row /\ row.(nr_expires_at_ms) = exp.

Lemma prune_nonces_keeps (now : Z) (ledger : gmap rstr NonceRow) (nonce : rstr) (row : NonceRow) :
  ledger !! nonce = Some row -> now <= row.(nr_expires_at_ms) ->
  prune_nonces now ledger !! nonce = Some row.
Proof. intros H Hn. by apply map_lookup_filter_Some. Qed.

Lemma cleanup_ok (self store : P2Store) (now age : Z) (io : faults) :
  cleanup self now age io = (store, Ok tt) ->
  store = mkP2Store (prune_recent (saturating_sub now age) self.(recent_sessions)) self.(trusted_hosts)
            (prune_nonces now self.(consumed_qr_nonces)).
Proof.
  unfold cleanup. rewrite transact_ok. intros H. ok_steps H. injection H as <-.
  by repeat match goal with E : to_sql_millis _ = Ok _ |- _ => apply to_sql_millis_ok in E as [-> _] end.
Qed.

(** A call that fails leaves the store alone; [cleanup] either prunes or does
    nothing. *)
Lemma cleanup_inv (P : P2Store -> Prop) (self : P2Store) (now age : Z) (io : faults) :
  P self ->
  P (mkP2Store (prune_recent (saturating_sub now age) self.(recent_sessions)) self.(trusted_hosts)
       (prune_nonces now self.(consumed_qr_nonces))) ->
  P (cleanup self now age io).1.
Proof.
  intros Hs Hp. destruct (cleanup self now age io) as [store [[]|e]] eqn:E.
  - apply cleanup_ok in E as ->. done.
  - unfold cleanup, transact in E. destruct (if (now =? 0) || (age =? 0) then _ else _) as [[? ?]|];
      [done|]. by injection E as <- _.
Qed.

Lemma recent_inv (P : P2Store -> Prop) (self : P2Store) (now age limit : Z) (io : faults) :
  P self -> P (cleanup self now age io).1 -> P (list_recent_listener_sessions self now age limit io).1.
Proof.
  intros Hs Hc. unfold list_recent_listener_sessions. destruct (_ || _); [done|].
  destruct (cleanup self now age io) as [store r]. done.
Qed.

Lemma step_remembers (lib : Libraries) (nonce : rstr) (exp now : Z) (self : P2Store)
    (entry : P2Call * faults) :
  now <= exp -> default now (call_time entry.1) <= now ->
  remembers nonce exp self -> remembers nonce exp (p2_step lib self entry).
Proof.
  intros Hexp Ht (row & Hrow & Hr). destruct entry as [call io]. unfold p2_step. cbn in *.
  assert (remembers nonce exp self) as Hself by (by exists row).
  assert (forall t recent trusted, t <= now ->
    remembers nonce exp (mkP2Store recent trusted (prune_nonces t self.(consumed_qr_nonces)))) as Hprune.
  { intros t recent trusted Hle. exists row. split; [|done]. apply prune_nonces_keeps; [done|lia]. }
  destruct call as [value|t age limit|host|fp|payload t|t age]; cbn in *.
  - unfold record_session. apply (transact_inv (remembers nonce exp)); [done|]. intros store a H. ok_steps H. by injection H as <-.
  - apply (recent_inv (remembers nonce exp)); [done|].
    apply (cleanup_inv (remembers nonce exp)); auto.
  - unfold trust_host. apply (transact_inv (remembers nonce exp)); [done|]. intros store a H. ok_steps H. by injection H as <-.
  - unfold delete_trusted_host. apply (transact_inv (remembers nonce exp)); [done|]. intros store a H. ok_steps H. by injection H as <-.
  - unfold validate_and_consume_qr. apply (transact_inv (remembers nonce exp)); [done|]. intros store a H. ok_steps H. injection H as <- <-.
    match goal with E : consume_nonce _ _ _ _ _ _ = Ok _ |- _ =>
      apply consume_nonce_ok in E as (Hnone & -> & _) end.
    destruct (Hprune t self.(recent_sessions) self.(trusted_hosts) ltac:(lia)) as (row' & Hrow' & Hr').
    cbn in Hrow'. exists row'. split; [|done]. cbn. rewrite lookup_insert_ne; [done|congruence].
  - apply (cleanup_inv (remembers nonce exp)); auto.
Qed.

Lemma run_remembers (lib : Libraries) (nonce : rstr) (exp now : Z) (calls : list (P2Call * faults))
    (self : P2Store) :
  now <= exp -> Forall (fun entry => default now (call_time entry.1) <= now) calls ->
  remembers nonce exp self -> remembers nonce exp (p2_run lib self calls).
Proof.
  intros Hexp Hc. revert self. induction Hc as [|entry calls He Hc IH]; intros self Hs; [done|].
  apply IH. by eapply step_remembers.
Qed.

(** C18. An invitation is redeemed at most once.  Once a call redeemed one, and
    whatever calls with whatever faults come in between, none of them given a
    later time than the second call's, that call does not accept the same nonce
    unless the first invitation has expired; since nothing is accepted after
    its expiry, it never accepts the same invitation again. *)
Theorem no_invitation_redeemed_twice (lib : Libraries) (s s1 s2 : P2Store)
    (payload1 payload2 : rstr) (now1 now2 : Z) (io1 io2 : faults)
    (calls : list (P2Call * faults)) (inv1 inv2 : ValidatedQrInvitation) :
  validate_and_consume_qr lib s payload1 now1 io1 = (s1, Ok inv1) ->
  Forall (fun entry => default now2 (call_time entry.1) <= now2) calls ->
  validate_and_consume_qr lib (p2_run lib s1 calls) payload2 now2 io2 = (s2, Ok inv2) ->
  inv2 <> inv1
  /\ (inv2.(vq_nonce) = inv1.(vq_nonce) ->
      inv1.(vq_expires_at_ms) < now2 <= inv2.(vq_expires_at_ms)).
Proof.
  intros H1 Hc H2. apply redeem_ok in H1 as (d1 & k1 & _ & _ & H1 & _).
  apply redeem_ok in H2 as (d2 & k2 & _ & _ & H2 & _).
  apply consume_nonce_ok in H1 as (_ & H1 & _). apply consume_nonce_ok in H2 as (Hnone & _ & Hck).
  apply nonce_check_times in Hck. cbn in Hck.
  assert (inv2.(vq_nonce) = inv1.(vq_nonce) -> inv1.(vq_expires_at_ms) < now2) as Hlt.
  { intros E. destruct (Z.lt_ge_cases inv1.(vq_expires_at_ms) now2) as [|Hge]; [done|exfalso].
    destruct (run_remembers lib inv1.(vq_nonce) inv1.(vq_expires_at_ms) now2 calls s1) as (row & Hrow & Hr);
      [done|done| |].
    - eexists. rewrite H1, lookup_insert_eq. by split.
    - rewrite E in Hnone. rewrite (prune_nonces_keeps _ _ _ row) in Hnone; [done|done|lia]. }
  split; [|intros E; specialize (Hlt E); lia]. intros ->. specialize (Hlt eq_refl). lia.
Qed.

(** ** JSON texts *)

(** The text of an object without insignificant white space (RFC 8259, section
    4): its members between braces, separated by commas, each a name in
    quotation marks, a colon and a value.  Strings are written by the library. *)
Definition value_text (lib : Libraries) (value : JsonValue) : result rstr rstr :=
  match value with
  | JsonString s => lib.(json_text) s
  | JsonNumber n => Ok (to_decimal n)
  | JsonNull => Ok [110; 117; 108; 108]
  end.

Definition member_text (lib : Libraries) (member : rstr * JsonValue) : result rstr rstr :=
  let? value := value_text lib member.2 in Ok (34 :: member.1 ++ [34; 58] ++ value).

Fixpoint members_text (lib : Libraries) (first : rstr * JsonValue) (rest : JsonObject) : result rstr rstr :=
  let? text := member_text lib first in
  match rest with
  | [] => Ok (text ++ [125])
  | next :: rest => let? others := members_text lib next rest in Ok (text ++ 44 :: others)
  end.

Definition object_text (lib : Libraries) (object : JsonObject) : result rstr rstr :=
  match object with
  | [] => Ok [123; 125]
  | first :: rest => let? text := members_text lib first rest in Ok (123 :: text)
  end.

(** Names of lower-case letters, strings of scalar values, numbers of [u64]:
    nothing that a JSON text would have to escape outside its strings. *)
Definition plain_member (member : rstr * JsonValue) : Prop :=
  Forall (fun c => 97 <= c <= 122) member.1
  /\ match member.2 with JsonString s => wf_str s | JsonNumber n => is_u64 n | JsonNull => True end.

(** ** The canonical text *)

(** Documented behaviour of the crates: the JSON text of a string starts with a
    quotation mark and shows where it ends (RFC 8259, section 7), the strings
    that are read and written are strings, numbers are read at their width, and
    base64 decoding inverts encoding. *)
Class LibraryLaws (lib : Libraries) : Prop := {
  json_text_quoted : forall s j, lib.(json_text) s = Ok j -> exists body, j = 34 :: body;
  json_text_delimited : forall s1 s2 j1 j2 rest1 rest2,
    lib.(json_text) s1 = Ok j1 -> lib.(json_text) s2 = Ok j2 -> j1 ++ rest1 = j2 ++ rest2 ->
    s1 = s2 /\ rest1 = rest2;
  json_text_wf : forall s j, wf_str s -> lib.(json_text) s = Ok j -> wf_str j;
  signed_from_str_wf : forall text document,
    lib.(signed_from_str) text = Ok document ->
    is_u8 document.(signed_document).(qr_v) /\ is_u64 document.(signed_document).(qr_iat)
    /\ is_u64 document.(signed_document).(qr_exp)
    /\ wf_str document.(signed_document).(qr_alg) /\ wf_str document.(signed_document).(qr_sid)
    /\ wf_str document.(signed_document).(qr_sn) /\ wf_str document.(signed_document).(qr_hn)
    /\ wf_str document.(signed_document).(qr_pk) /\ wf_str document.(signed_document).(qr_am)
    /\ wf_str (default [] document.(signed_document).(qr_code))
    /\ wf_str document.(signed_document).(qr_nonce)
    /\ wf_str (default [] document.(signed_document).(qr_conn));
  base64_text : forall bytes, Forall is_u8 bytes -> wf_str (lib.(base64_encode) bytes);
  base64_round_trip : forall bytes, Forall is_u8 bytes ->
    lib.(base64_decode) (as_bytes (lib.(base64_encode) bytes)) = Some bytes
}.

(** Documented behaviour of [serde_json::from_str]: of an object's text it makes
    what the derived deserializer makes of the object's members. *)
Class ReadingLaws (lib : Libraries) : Prop := {
  unsigned_from_object : forall object text document,
    Forall plain_member object -> object_text lib object = Ok text ->
    read_unsigned object = Some document -> lib.(unsigned_from_str) text = Ok document;
  signed_from_object : forall object text document,
    Forall plain_member object -> object_text lib object = Ok text ->
    read_signed object = Some document -> lib.(signed_from_str) text = Ok document
}.

(** Numbers at their width and strings of scalar values: what Rust's types say
    of a document. *)
Definition document_wf (d : UnsignedQrDocument) : Prop :=
  is_u8 d.(qr_v) /\ is_u64 d.(qr_iat) /\ is_u64 d.(qr_exp)
  /\ wf_str d.(qr_alg) /\ wf_str d.(qr_sid) /\ wf_str d.(qr_sn) /\ wf_str d.(qr_hn)
  /\ wf_str d.(qr_pk) /\ wf_str d.(qr_am) /\ wf_str (default [] d.(qr_code))
  /\ wf_str d.(qr_nonce) /\ wf_str (default [] d.(qr_conn)).

Lemma digits_delimited (a b rest1 rest2 : list Z) :
  Forall is_digit a -> Forall is_digit b -> a ++ 44 :: rest1 = b ++ 44 :: rest2 ->
  a = b /\ 44 :: rest1 = 44 :: rest2.
Proof.
  intros Ha. revert b. unfold is_digit in *.
  induction Ha as [|c a Hc Ha IH]; intros b Hb E; destruct Hb as [|d b Hd Hb]; simpl in *.
  - by injection E as ->.
  - injection E as <- _. lia.
  - injection E as -> _. lia.
  - injection E as -> E. apply IH in E as [-> ?]; auto.
Qed.

Lemma decimal_delimited (m n : Z) (rest1 rest2 : rstr) :
  is_u64 m -> is_u64 n ->
  to_decimal m ++ lit "," ++ rest1 = to_decimal n ++ lit "," ++ rest2 ->
  m = n /\ lit "," ++ rest1 = lit "," ++ rest2.
Proof.
  intros Hm Hn E. pose proof (to_decimal_digits m ltac:(unfold_ints; lia)).
  pose proof (to_decimal_digits n ltac:(unfold_ints; lia)).
  apply digits_delimited in E as [E1%to_decimal_inj E2]; auto.
Qed.

Section Canonical.
Context (lib : Libraries) {laws : LibraryLaws lib}.

Lemma json_string_delimited (s1 s2 j1 j2 rest1 rest2 : rstr) :
  json_string lib s1 = Ok j1 -> json_string lib s2 = Ok j2 -> j1 ++ rest1 = j2 ++ rest2 ->
  s1 = s2 /\ rest1 = rest2.
Proof.
  unfold json_string, map_err. intros H1 H2. ok_steps H1. ok_steps H2.
  injection H1 as <-. injection H2 as <-. eauto using json_text_delimited.
Qed.

Lemma json_option_delimited (o1 o2 : option rstr) (j1 j2 rest1 rest2 : rstr) :
  json_option lib o1 = Ok j1 -> json_option lib o2 = Ok j2 -> j1 ++ rest1 = j2 ++ rest2 ->
  o1 = o2 /\ rest1 = rest2.
Proof.
  assert (forall s j, json_string lib s = Ok j -> forall r r', j ++ r <> lit "null" ++ r') as Hq.
  { unfold json_string, map_err. intros s j H r r'. ok_steps H. injection H as <-.
    by match goal with E : json_text lib _ = Ok _ |- _ => destruct (json_text_quoted _ _ E) as [body ->] end. }
  destruct o1 as [s1|], o2 as [s2|]; cbn [json_option]; intros H1 H2 E.
  - destruct (json_string_delimited s1 s2 j1 j2 rest1 rest2) as [-> ->]; auto.
  - injection H2 as <-. by destruct (Hq _ _ H1 _ _ E).
  - injection H1 as <-. by destruct (Hq _ _ H2 _ _ (eq_sym E)).
  - injection H1 as <-. injection H2 as <-. by apply app_inv_head in E.
Qed.

(** Peels the next field of two equal texts. *)
Ltac next_field E lemma x :=
  apply app_inv_head in E; apply app_inv_head in E;
  eapply lemma in E; [destruct E as [x E]|eassumption..].

(** Two documents with the same canonical text are the same document. *)
Lemma canonical_unsigned_inj (d1 d2 : UnsignedQrDocument) (text : rstr) :
  document_wf d1 -> document_wf d2 ->
  canonical_unsigned lib d1 = Ok text -> canonical_unsigned lib d2 = Ok text -> d1 = d2.
Proof.
  intros (Hv1 & Hi1 & He1 & _) (Hv2 & Hi2 & He2 & _) H1 H2. unfold canonical_unsigned in *.
  ok_steps H1. ok_steps H2. rewrite <- H2 in H1. apply Ok_inj in H1 as E. clear H1 H2.
  assert (is_u64 (qr_v d1) /\ is_u64 (qr_v d2)) as [Hu1 Hu2] by (unfold_ints; lia).
  next_field E decimal_delimited Ev.
  next_field E json_string_delimited Ealg. next_field E json_string_delimited Esid.
  next_field E json_string_delimited Esn. next_field E json_string_delimited Ehn.
  next_field E json_string_delimited Epk. next_field E json_string_delimited Eam.
  next_field E json_option_delimited Ecode. next_field E decimal_delimited Eiat.
  next_field E decimal_delimited Eexp. next_field E json_string_delimited Enonce.
  next_field E json_option_delimited Econn.
  destruct d1, d2; cbn in *; congruence.
Qed.
End Canonical.

Lemma verify_qr_ok (lib : Libraries) (payload : rstr) (now : Z) (d : UnsignedQrDocument) (key : list Z) :
  verify_qr lib payload now = Ok (d, key) ->
  exists signed canonical signature,
    lib.(signed_from_str) payload = Ok signed /\ d = signed.(signed_document)
    /\ validate_unsigned lib d now = Ok tt /\ canonical_unsigned lib d = Ok canonical
    /\ lib.(base64_decode) (as_bytes d.(qr_pk)) = Some key
    /\ lib.(base64_decode) (as_bytes signed.(signed_sig)) = Some signature
    /\ lib.(is_public_key) key = true /\ lib.(is_signature) signature = true
    /\ lib.(verifies) key (as_bytes canonical) signature = true.
Proof.
  unfold verify_qr, map_err, ok_or. intros H. ok_steps H. injection H as <- <-.
  repeat match goal with
    | u : unit |- _ => destruct u
    | E : match ?x with Some _ => _ | None => _ end = Ok _ |- _ => destruct x eqn:?; [|discriminate E]
    | E : match ?x with Ok _ => _ | Err _ => _ end = Ok _ |- _ => destruct x eqn:?; [|discriminate E]
    | E : Ok _ = Ok _ |- _ => injection E as <-
    end.
  to_prop. eauto 15.
Qed.

(** The part of validation that looks at the clock. *)
Lemma validate_unsigned_times (lib : Libraries) (d : UnsignedQrDocument) (now : Z) :
  validate_unsigned lib d now = Ok tt ->
  d.(qr_iat) < d.(qr_exp) <= d.(qr_iat) + MAX_QR_LIFETIME_MS
  /\ d.(qr_iat) - QR_CLOCK_SKEW_MS <= now <= d.(qr_exp) + QR_CLOCK_SKEW_MS.
Proof.
  unfold validate_unsigned, saturating_add. intros H. ok_steps H. to_prop. lia.
Qed.

Lemma wf_str_app (a b : rstr) : wf_str a -> wf_str b -> wf_str (a ++ b).
Proof. unfold wf_str. rewrite Forall_app. auto. Qed.

Lemma wf_str_visible (s : rstr) : Forall is_visible s -> wf_str s.
Proof. intros H. eapply Forall_impl; [exact H|]. unfold is_visible, is_scalar. lia. Qed.

Lemma as_bytes_inj (a b : rstr) : wf_str a -> wf_str b -> as_bytes a = as_bytes b -> a = b.
Proof.
  intros Ha%from_utf8_as_bytes Hb%from_utf8_as_bytes E. rewrite E, Hb in Ha. by injection Ha.
Qed.

Lemma canonical_unsigned_wf (lib : Libraries) {laws : LibraryLaws lib} (d : UnsignedQrDocument) (text : rstr) :
  document_wf d -> canonical_unsigned lib d = Ok text -> wf_str text.
Proof.
  intros (Hv & Hi & He & Halg & Hsid & Hsn & Hhn & Hpk & Ham & Hcode & Hnonce & Hconn) H.
  assert (forall s j, wf_str s -> json_string lib s = Ok j -> wf_str j) as Hj.
  { unfold json_string, map_err. intros s j Hs Hj. ok_steps Hj. injection Hj as <-.
    eauto using json_text_wf. }
  assert (forall o j, wf_str (default [] o) -> json_option lib o = Ok j -> wf_str j) as Ho.
  { intros [s|] j Hs Hjo; cbn [json_option] in Hjo; [eauto|].
    apply Ok_inj in Hjo as <-. apply wf_str_lit. }
  assert (forall name, wf_str (field_key name)) as Hk.
  { intros name. unfold field_key. apply wf_str_app; [|apply wf_str_app; [apply wf_str_lit|]];
      by apply wf_str_visible, visible_str_true. }
  assert (forall n, 0 <= n -> wf_str (to_decimal n)) as Hn by (intros; by apply wf_str_visible, decimal_visible).
  unfold canonical_unsigned in H. ok_steps H. apply Ok_inj in H as <-. unfold_ints.
  repeat (apply wf_str_app; [eauto using wf_str_lit with lia|]).
  all: eauto using wf_str_lit, wf_str_app with lia.
Qed.

(** ** Genuineness *)

(** The invitation a host describes, as its listener gets it. *)
Definition invitation_of (lib : Libraries) (input : QrInvitationInput) : ValidatedQrInvitation :=
  mkValidatedQrInvitation input.(in_session_id) input.(in_session_name) input.(in_host_name)
    input.(in_host_public_key_der) (public_key_fingerprint lib input.(in_host_public_key_der))
    input.(in_approval_mode) input.(in_invite_code) input.(in_issued_at_ms) input.(in_expires_at_ms)
    input.(in_nonce) input.(in_connection_payload_json).

(** What Rust's types say of the host's input. *)
Definition input_wf (input : QrInvitationInput) : Prop :=
  is_u64 input.(in_issued_at_ms) /\ is_u64 input.(in_expires_at_ms)
  /\ Forall is_u8 input.(in_host_public_key_der)
  /\ wf_str input.(in_session_id) /\ wf_str input.(in_session_name) /\ wf_str input.(in_host_name)
  /\ wf_str input.(in_approval_mode) /\ wf_str (default [] input.(in_invite_code))
  /\ wf_str input.(in_nonce) /\ wf_str (default [] input.(in_connection_payload_json)).

Lemma unsigned_document_wf (lib : Libraries) {laws : LibraryLaws lib} (input : QrInvitationInput)
    (d : UnsignedQrDocument) :
  input_wf input -> unsigned_document lib input = Ok d -> document_wf d.
Proof.
  intros (Hi & He & Hkey & Hsid & Hsn & Hhn & Ham & Hcode & Hnonce & Hconn) H.
  unfold unsigned_document in H. ok_steps H. injection H as <-.
  pose proof (wf_str_lit "ES256"). pose proof (base64_text (in_host_public_key_der input) Hkey).
  assert (is_u8 1) by (unfold_ints; lia). repeat (split; [done|]). done.
Qed.

Lemma prepare_unsigned_qr_ok (lib : Libraries) (input : QrInvitationInput) (text : rstr) :
  prepare_unsigned_qr lib input = Ok text ->
  exists d, unsigned_document lib input = Ok d
    /\ validate_unsigned lib d input.(in_issued_at_ms) = Ok tt /\ canonical_unsigned lib d = Ok text.
Proof.
  unfold prepare_unsigned_qr. intros H. ok_steps H.
  match goal with u : unit |- _ => destruct u end. eauto.
Qed.

(** A document with its input's key is redeemed as the input. *)
Lemma validated_invitation_of (lib : Libraries) (input : QrInvitationInput) (d : UnsignedQrDocument) :
  unsigned_document lib input = Ok d ->
  validated_invitation lib d input.(in_host_public_key_der) = invitation_of lib input
  /\ d.(qr_pk) = lib.(base64_encode) input.(in_host_public_key_der).
Proof. unfold unsigned_document. intros H. ok_steps H. by injection H as <-. Qed.

(** C19. What a listener redeems under a host's key is, field for field, an
    invitation that host issued, at a time at which it is valid: if signatures
    verify under the key only for the canonical texts the host prepared, then
    every accepted payload yields one of the host's inputs, whatever the bytes
    that were scanned; it was issued at most a minute of clock skew ahead of
    the listener's clock, it has not expired and it lives for at most ten
    minutes. *)
Theorem accepted_invitation_is_the_hosts (lib : Libraries) (key : list Z) (issued : list QrInvitationInput)
    (s s' : P2Store) (payload : rstr) (now : Z) (io : faults) (inv : ValidatedQrInvitation) :
  LibraryLaws lib -> Forall input_wf issued ->
  (forall text signature, lib.(verifies) key text signature = true ->
     exists input unsigned, input ∈ issued /\ prepare_unsigned_qr lib input = Ok unsigned
                            /\ text = as_bytes unsigned) ->
  validate_and_consume_qr lib s payload now io = (s', Ok inv) ->
  inv.(vq_host_public_key_der) = key ->
  (exists input, input ∈ issued /\ inv = invitation_of lib input)
  /\ inv.(vq_issued_at_ms) - QR_CLOCK_SKEW_MS <= now <= inv.(vq_expires_at_ms)
  /\ inv.(vq_expires_at_ms) <= inv.(vq_issued_at_ms) + MAX_QR_LIFETIME_MS.
Proof.
  intros laws Hwf Hsigned H Hkey. apply redeem_ok in H as (d & k & Hv & -> & Hc & _). cbn in Hkey. subst k.
  apply consume_nonce_ok in Hc as (_ & _ & Hck%nonce_check_times). cbn in Hck.
  apply verify_qr_ok in Hv as (signed & canonical & signature & Hp & -> & Hu & Ht & Hk & _ & _ & _ & Hver).
  apply validate_unsigned_times in Hu as Htimes.
  split; [|cbn; lia].
  destruct (Hsigned _ _ Hver) as (input & unsigned & Hin & Hprep & E).
  apply prepare_unsigned_qr_ok in Hprep as (d & Hd & _ & Hd').
  pose proof (proj1 (Forall_forall _ _) Hwf input Hin) as Hiw.
  pose proof (unsigned_document_wf lib input d Hiw Hd) as Hdw.
  pose proof (signed_from_str_wf _ _ Hp : document_wf _) as Hsw.
  apply (as_bytes_inj _ _ (canonical_unsigned_wf lib _ _ Hsw Ht) (canonical_unsigned_wf lib _ _ Hdw Hd')) in E as ->.
  pose proof (canonical_unsigned_inj lib _ _ _ Hsw Hdw Ht Hd') as Ed. rewrite Ed in *.
  apply validated_invitation_of in Hd as [Hval Hpk].
  rewrite Hpk, base64_round_trip in Hk by apply Hiw. injection Hk as <-. eauto.
Qed.

(** ** From the host's screen to the listener's session *)

Lemma canonical_unsigned_closed (lib : Libraries) (d : UnsignedQrDocument) (text : rstr) :
  canonical_unsigned lib d = Ok text -> exists front, text = front ++ [125].
Proof.
  unfold canonical_unsigned. intros H. ok_steps H. apply Ok_inj in H as <-.
  change (lit "}") with [125]. eexists. by rewrite !app_assoc.
Qed.

(** The members of a document, in the order the code writes them. *)
Definition json_of_option (value : option rstr) : JsonValue :=
  match value with Some s => JsonString s | None => JsonNull end.

Definition document_members (d : UnsignedQrDocument) : JsonObject :=
  [(lit "v", JsonNumber d.(qr_v)); (lit "alg", JsonString d.(qr_alg)); (lit "sid", JsonString d.(qr_sid));
   (lit "sn", JsonString d.(qr_sn)); (lit "hn", JsonString d.(qr_hn)); (lit "pk", JsonString d.(qr_pk));
   (lit "am", JsonString d.(qr_am)); (lit "code", json_of_option d.(qr_code));
   (lit "iat", JsonNumber d.(qr_iat)); (lit "exp", JsonNumber d.(qr_exp));
   (lit "nonce", JsonString d.(qr_nonce)); (lit "conn", json_of_option d.(qr_conn))].

Lemma json_string_value (lib : Libraries) (s j : rstr) :
  json_string lib s = Ok j -> value_text lib (JsonString s) = Ok j.
Proof. unfold json_string, map_err. cbn. destruct (json_text lib s); naive_solver. Qed.

Lemma json_option_value (lib : Libraries) (o : option rstr) (j : rstr) :
  json_option lib o = Ok j -> value_text lib (json_of_option o) = Ok j.
Proof. destruct o; [apply json_string_value|]. cbn [json_option]. by intros <-%Ok_inj. Qed.

(** What the code writes by hand is the JSON text of the document's members. *)
Lemma canonical_unsigned_text (lib : Libraries) (d : UnsignedQrDocument) (text : rstr) :
  canonical_unsigned lib d = Ok text -> object_text lib (document_members d) = Ok text.
Proof.
  unfold canonical_unsigned. intros H. ok_steps H. apply Ok_inj in H as <-.
  unfold object_text, document_members. cbn [members_text]. unfold member_text. cbn [fst snd].
  repeat match goal with
    | E : json_string _ _ = Ok _ |- _ => apply json_string_value in E; rewrite E; clear E
    | E : json_option _ _ = Ok _ |- _ => apply json_option_value in E; rewrite E; clear E
    end.
  cbn [value_text]. unfold field_key. by rewrite <- !app_assoc.
Qed.

Lemma members_text_snoc (lib : Libraries) (first last : rstr * JsonValue) (rest : JsonObject) (front member : rstr) :
  members_text lib first rest = Ok (front ++ [125]) -> member_text lib last = Ok member ->
  members_text lib first (rest ++ [last]) = Ok (front ++ 44 :: member ++ [125]).
Proof.
  intros H Hm. revert first front H. induction rest as [|next rest IH]; intros first front H; cbn [members_text app] in *.
  - destruct (member_text lib first) as [text|]; [|done]. apply Ok_inj, app_inv_tail in H as ->.
    by rewrite Hm.
  - destruct (member_text lib first) as [text|]; [|done]. cbn [members_text] in *.
    destruct (members_text lib next rest) as [others|] eqn:E; [|done]. apply Ok_inj in H.
    destruct (exists_last (l := others)) as (front' & c & ->).
    { intros ->. apply app_inj_tail in H as [_ H]. discriminate H. }
    rewrite app_comm_cons, app_assoc in H. apply app_inj_tail in H as [<- ->].
    rewrite (IH next front' E). by rewrite <- app_assoc.
Qed.

Lemma object_text_snoc (lib : Libraries) (object : JsonObject) (last : rstr * JsonValue) (front member : rstr) :
  object <> [] -> object_text lib object = Ok (front ++ [125]) -> member_text lib last = Ok member ->
  object_text lib (object ++ [last]) = Ok (front ++ 44 :: member ++ [125]).
Proof.
  intros Ho H Hm. destruct object as [|first rest]; [done|]. cbn [object_text app] in *.
  destruct (members_text lib first rest) as [text|] eqn:E; [|done]. apply Ok_inj in H.
  destruct front as [|c front]; [discriminate H|]. injection H as <- ->.
  by rewrite (members_text_snoc lib first last rest front member).
Qed.

Lemma letters (s : rstr) : forallb (fun c => in_range 97 122 c) s = true -> Forall (fun c => 97 <= c <= 122) s.
Proof.
  induction s as [|c s IH]; cbn; [constructor|]. intros [Hc%in_range_iff Hs]%andb_true_iff. auto.
Qed.

Lemma plain_option (o : option rstr) :
  wf_str (default [] o) ->
  match json_of_option o with JsonString s => wf_str s | JsonNumber n => is_u64 n | JsonNull => True end.
Proof. by destruct o. Qed.

Lemma document_members_plain (d : UnsignedQrDocument) : document_wf d -> Forall plain_member (document_members d).
Proof.
  intros (Hv & Hi & He & Halg & Hsid & Hsn & Hhn & Hpk & Ham & Hcode & Hnonce & Hconn).
  assert (is_u64 (qr_v d)) by (unfold_ints; lia). unfold document_members, plain_member.
  repeat (apply Forall_cons; split; [split; [by apply letters|first [assumption|by apply plain_option]]|]). apply List.Forall_nil.
Qed.

Lemma number_field_member (max : Z) (name : string) (object : JsonObject) (n : Z) :
  json_member (lit name) object = Some (JsonNumber n) -> 0 <= n <= max -> number_field max name object = Some n.
Proof. unfold number_field. intros -> H. by rewrite (proj2 (in_range_iff _ _ _) H). Qed.

Lemma string_field_member (name : string) (object : JsonObject) (s : rstr) :
  json_member (lit name) object = Some (JsonString s) -> string_field name object = Some s.
Proof. unfold string_field. by intros ->. Qed.

Lemma option_field_member (name : string) (object : JsonObject) (o : option rstr) :
  json_member (lit name) object = Some (json_of_option o) -> option_field name object = Some o.
Proof. unfold option_field. intros ->. by destruct o. Qed.

(** The derived deserializer makes of a document's members the document. *)
Lemma read_document_members (d : UnsignedQrDocument) (more : JsonObject) :
  document_wf d -> read_fields (document_members d ++ more) = Some d.
Proof.
  intros (Hv & Hi & He & _). unfold read_fields. set (object := document_members d ++ more).
  rewrite (number_field_member 255 "v" object d.(qr_v)), (number_field_member u64_max "iat" object d.(qr_iat)),
    (number_field_member u64_max "exp" object d.(qr_exp)) by (reflexivity || (unfold_ints; lia)).
  rewrite (string_field_member "alg" object d.(qr_alg)), (string_field_member "sid" object d.(qr_sid)),
    (string_field_member "sn" object d.(qr_sn)), (string_field_member "hn" object d.(qr_hn)),
    (string_field_member "pk" object d.(qr_pk)), (string_field_member "am" object d.(qr_am)),
    (string_field_member "nonce" object d.(qr_nonce)), (option_field_member "code" object d.(qr_code)),
    (option_field_member "conn" object d.(qr_conn)) by reflexivity.
  by destruct d.
Qed.

Lemma unsigned_reads_back (lib : Libraries) {laws : ReadingLaws lib} (d : UnsignedQrDocument) (text : rstr) :
  document_wf d -> canonical_unsigned lib d = Ok text -> lib.(unsigned_from_str) text = Ok d.
Proof.
  intros Hw H. apply (unsigned_from_object (document_members d)).
  - by apply document_members_plain.
  - by apply canonical_unsigned_text.
  - unfold read_unsigned. replace (known_fields _ _) with true by reflexivity.
    pose proof (read_document_members d [] Hw) as E. by rewrite app_nil_r in E.
Qed.

Lemma signed_reads_back (lib : Libraries) {laws : ReadingLaws lib} (d : UnsignedQrDocument)
    (front sig_text json : rstr) :
  document_wf d -> wf_str sig_text -> canonical_unsigned lib d = Ok (front ++ [125]) ->
  lib.(json_text) sig_text = Ok json ->
  lib.(signed_from_str) (front ++ lit "," ++ field_key "sig" ++ json ++ lit "}")
  = Ok (mkSignedQrDocument d sig_text).
Proof.
  intros Hw Hs H Hj. apply (signed_from_object (document_members d ++ [(lit "sig", JsonString sig_text)])).
  - apply Forall_app. split; [by apply document_members_plain|]. apply List.Forall_cons; [|apply List.Forall_nil].
    split; [by apply letters|done].
  - rewrite (object_text_snoc lib (document_members d) _ front (field_key "sig" ++ json)); [|done| |].
    + by rewrite <- app_assoc.
    + by apply canonical_unsigned_text.
    + unfold member_text. cbn [value_text fst snd]. by rewrite Hj.
  - unfold read_signed. replace (known_fields _ _) with true by reflexivity.
    rewrite read_document_members by done. by rewrite (string_field_member "sig" _ sig_text) by reflexivity.
Qed.

Lemma strip_suffix_app (c : Z) (front : rstr) : strip_suffix c (front ++ [c]) = Some front.
Proof. unfold strip_suffix. rewrite rev_app_distr. cbn. by rewrite Z.eqb_refl, rev_involutive. Qed.

Lemma as_bytes_app (a b : rstr) : as_bytes (a ++ b) = as_bytes a ++ as_bytes b.
Proof. induction a as [|c a IH]; [done|]. cbn. by rewrite IH, app_assoc. Qed.

Lemma str_len_app (a b : rstr) : str_len (a ++ b) = str_len a + str_len b.
Proof. unfold str_len. by rewrite as_bytes_app, len_app. Qed.

(** A prepared text with a well-formed signature is finalized into the same
    fields and the signature. *)
Lemma finalize_qr_ok (lib : Libraries) (d : UnsignedQrDocument) (text sig_text json : rstr) (signature : list Z) :
  canonical_unsigned lib d = Ok text -> lib.(unsigned_from_str) text = Ok d ->
  str_len text <= MAX_QR_PAYLOAD_BYTES ->
  lib.(base64_decode) (as_bytes sig_text) = Some signature -> lib.(is_signature) signature = true ->
  lib.(json_text) sig_text = Ok json ->
  exists front, text = front ++ [125]
    /\ finalize_qr lib text sig_text = Ok (front ++ lit "," ++ field_key "sig" ++ json ++ lit "}").
Proof.
  intros Hc Hr Hl Hb Hs Hj. destruct (canonical_unsigned_closed lib d text Hc) as [front Hf].
  exists front. split; [done|]. unfold finalize_qr, json_string. rewrite Hr. cbn [map_err]. rewrite Hc, Hb, Hj.
  rewrite bool_decide_false by (rewrite Hf; by destruct front).
  rewrite (proj2 (Z.ltb_ge _ _)) by done. rewrite bool_decide_true by done. cbn [orb negb ok_or map_err].
  rewrite Hs, Hf, strip_suffix_app. done.
Qed.

(** Only the clock and the connection payload can make a document invalid
    later. *)
Lemma validate_unsigned_later (lib : Libraries) (d : UnsignedQrDocument) (now later : Z) :
  validate_unsigned lib d now = Ok tt -> is_u64 d.(qr_iat) ->
  d.(qr_iat) - QR_CLOCK_SKEW_MS <= later <= d.(qr_exp) -> later <= u64_max ->
  validate_connection_payload lib d.(qr_conn) later = Ok tt ->
  validate_unsigned lib d later = Ok tt.
Proof.
  intros H Hi Ht Hu Hconn.
  assert (saturating_add u64_max later QR_CLOCK_SKEW_MS <? d.(qr_iat) = false) as E1.
  { apply Z.ltb_ge. unfold saturating_add, QR_CLOCK_SKEW_MS in *. unfold_ints. lia. }
  assert (saturating_add u64_max d.(qr_exp) QR_CLOCK_SKEW_MS <? later = false) as E2.
  { apply Z.ltb_ge. unfold saturating_add, QR_CLOCK_SKEW_MS in *. lia. }
  unfold validate_unsigned in *. rewrite E1, E2. by ok_steps H.
Qed.

Lemma statement_fine (io : faults) (n : nat) : (forall k, io k = None) -> statement io n = Ok tt.
Proof. intros H. unfold statement. by rewrite H. Qed.

Lemma consume_nonce_fine (lib : Libraries) (ledger : gmap rstr NonceRow) (nonce : rstr) (now exp : Z)
    (io : faults) :
  (forall k, io k = None) -> 0 < now <= exp -> exp <= sql_integer_max ->
  in_range 16 80 (sql_length nonce) = true ->
  (forall row, ledger !! nonce = Some row -> row.(nr_expires_at_ms) < now) ->
  consume_nonce lib ledger nonce now exp io = Ok (<[nonce := mkNonceRow now exp]> (prune_nonces now ledger)).
Proof.
  intros Hio Ht He Hl Hn. unfold consume_nonce. rewrite !statement_fine by done.
  rewrite !to_sql_millis_fine by lia.
  rewrite bool_decide_false.
  2: { intros [row [H1 H2]%map_lookup_filter_Some]. specialize (Hn _ H1). lia. }
  unfold constraint, nonce_check. cbn. rewrite Hl.
  by rewrite (proj2 (Z.ltb_lt 0 now)), (proj2 (Z.leb_le now exp)) by lia.
Qed.

(** SQLite counts the characters of an ASCII string without a NUL. *)
Lemma ascii_sql_length (allowed : Z -> bool) (s : rstr) :
  (forall b, allowed b = true -> 0 < b < 128) -> forallb allowed (as_bytes s) = true ->
  sql_length s = str_len s.
Proof.
  intros Ha. unfold str_len. induction s as [|c s IH]; [done|]. cbn [as_bytes sql_length].
  rewrite forallb_app, andb_true_iff. intros [Hc Hs]. rewrite len_app, (IH Hs). clear IH Hs.
  assert (forall b, 128 <= b -> allowed b = false) as Hhigh.
  { intros b Hb. destruct (allowed b) eqn:E; [|done]. apply Ha in E. lia. }
  unfold utf8_char in *. destruct (c <? 128) eqn:E1; to_prop.
  - cbn in Hc. rewrite andb_true_r in Hc. apply Ha in Hc. by rewrite (proj2 (Z.eqb_neq c 0)) by lia.
  - exfalso. destruct (c <? 2048) eqn:E2; [|destruct (c <? 65536) eqn:E3]; cbn [forallb] in Hc; to_prop;
      match goal with H : allowed ?b = true |- _ => apply Ha in H; Z.div_mod_to_equations; lia end.
Qed.

Lemma nonce_sql_length (nonce : rstr) :
  validate_nonce nonce = Ok tt -> in_range 16 80 (sql_length nonce) = true.
Proof.
  unfold validate_nonce. destruct (negb _ || negb _) eqn:E; [done|]. intros _. to_prop.
  erewrite ascii_sql_length; [eassumption| |eassumption].
  intros b Hb. unfold is_ascii_alphanumeric, in_range in Hb. lia.
Qed.

Lemma fingerprint_sql_length (value : rstr) (u : unit) :
  validate_fingerprint (Some value) = Ok u -> sql_length value = 64.
Proof.
  unfold validate_fingerprint. destruct (negb _ || negb _) eqn:E; [done|]. intros _. to_prop.
  erewrite ascii_sql_length; [eassumption| |eassumption].
  intros b Hb. unfold is_lower_hex, in_range in Hb. lia.
Qed.

Lemma name_sql_length (value : rstr) (field : string) (u : unit) :
  validate_name value field = Ok u -> in_range 1 256 (sql_length value) = true.
Proof.
  unfold validate_name. destruct (_ || existsb _ _) eqn:E; [done|]. intros _.
  rewrite !orb_false_iff in E. destruct E as [[[_ Hne] Hl] He]. to_prop.
  assert (sql_length value = len value /\ len value <= str_len value) as [-> Hle].
  { clear - He. unfold str_len. induction value as [|c s IH]; [done|]. cbn [existsb] in He.
    apply orb_false_iff in He as [H He]. destruct (IH He) as [IH1 IH2]. cbn [sql_length as_bytes]. rewrite Z.eqb_sym, H, IH1, len_app, len_cons.
    assert (1 <= len (utf8_char c)); [|lia].
    unfold utf8_char. repeat destruct (_ <? _); rewrite !len_cons, len_nil; lia. }
  apply in_range_iff. pose proof (len_nonneg value). unfold MAX_NAME_BYTES in Hl.
  destruct (decide (len value = 0)) as [->%len_zero|]; [done|lia].
Qed.

Lemma verify_qr_fine (lib : Libraries) (d : UnsignedQrDocument) (text payload sig_text : rstr)
    (key signature : list Z) (now : Z) :
  canonical_unsigned lib d = Ok text ->
  payload <> [] -> str_len payload <= MAX_QR_PAYLOAD_BYTES ->
  lib.(signed_from_str) payload = Ok (mkSignedQrDocument d sig_text) ->
  validate_unsigned lib d now = Ok tt ->
  lib.(base64_decode) (as_bytes d.(qr_pk)) = Some key -> 1 <= len key <= MAX_PUBLIC_KEY_BYTES ->
  lib.(is_public_key) key = true ->
  lib.(base64_decode) (as_bytes sig_text) = Some signature -> lib.(is_signature) signature = true ->
  lib.(verifies) key (as_bytes text) signature = true ->
  verify_qr lib payload now = Ok (d, key).
Proof.
  intros Hc Hp Hl Hr Hv Hk Hkl Hpk Hb Hs Hver. unfold verify_qr.
  rewrite (bool_decide_false (payload = [])) by done.
  rewrite (proj2 (Z.ltb_ge _ (str_len payload))) by done. cbn [orb].
  rewrite Hr. cbn [map_err signed_document signed_sig]. rewrite Hv, Hc, Hk. cbn [ok_or].
  rewrite (bool_decide_false (key = [])) by (intros ->; rewrite len_nil in Hkl; lia).
  rewrite (proj2 (Z.ltb_ge _ (len key))) by lia. cbn [orb]. rewrite Hpk. cbn [negb].
  rewrite Hb. cbn [ok_or]. by rewrite Hs, Hver.
Qed.

(** C32. An invitation that was issued properly is redeemed.  Let a host prepare
    the text of its input and sign it, the whole fitting into the 16384 bytes of
    a payload.  Then what the code formats by hand is JSON that reads back as
    the document, [finalize_qr] succeeds, and a listener that scans the payload
    at any time from a minute before it was issued until it expires, while the
    endpoint it carries, if any, still validates, with working storage that does
    not remember the nonce, accepts it, gets every field of the input, and
    remembers the nonce. *)
Theorem issued_invitation_is_redeemed (lib : Libraries) (input : QrInvitationInput) (d : UnsignedQrDocument)
    (text sig_text json : rstr) (signature : list Z) :
  LibraryLaws lib -> ReadingLaws lib -> input_wf input -> wf_str sig_text ->
  unsigned_document lib input = Ok d -> prepare_unsigned_qr lib input = Ok text ->
  lib.(base64_decode) (as_bytes sig_text) = Some signature -> lib.(is_signature) signature = true ->
  lib.(json_text) sig_text = Ok json ->
  lib.(is_public_key) input.(in_host_public_key_der) = true ->
  lib.(verifies) input.(in_host_public_key_der) (as_bytes text) signature = true ->
  str_len text + str_len json + 8 <= MAX_QR_PAYLOAD_BYTES ->
  exists payload, finalize_qr lib text sig_text = Ok payload
    /\ forall (s : P2Store) (now : Z) (io : faults),
       input.(in_issued_at_ms) - QR_CLOCK_SKEW_MS <= now <= input.(in_expires_at_ms) ->
       0 < now -> input.(in_expires_at_ms) <= sql_integer_max ->
       validate_connection_payload lib input.(in_connection_payload_json) now = Ok tt ->
       (forall row, s.(consumed_qr_nonces) !! input.(in_nonce) = Some row -> row.(nr_expires_at_ms) < now) ->
       (forall k, io k = None) ->
       exists s', validate_and_consume_qr lib s payload now io = (s', Ok (invitation_of lib input))
                  /\ remembers input.(in_nonce) input.(in_expires_at_ms) s'.
Proof.
  intros laws reading Hw Hsig Hd Hprep Hb Hs Hj Hpk Hver Hl.
  apply prepare_unsigned_qr_ok in Hprep as (d' & Hd' & Hv & Hc). rewrite Hd in Hd'. injection Hd' as <-.
  pose proof (len_nonneg (as_bytes json)) as Hjl. change (len (as_bytes json)) with (str_len json) in Hjl.
  pose proof (unsigned_document_wf lib input d Hw Hd) as Hdw.
  destruct (finalize_qr_ok lib d text sig_text json signature) as (front & Hf & Hfin);
    try done; [by apply unsigned_reads_back|lia|].
  eexists. split; [exact Hfin|]. rewrite Hf in Hc. pose proof (signed_reads_back lib d front sig_text json Hdw Hsig Hc Hj) as Hread.
  rewrite <- Hf in Hc. intros s now io Ht Hn0 Hmax Hconn Hledger Hio.
  destruct Hw as (Hi & He & Hkw & _).
  apply validated_invitation_of in Hd as Hval. destruct Hval as [Hval Hkey].
  unfold unsigned_document in Hd. destruct (bool_decide _ || _) eqn:Ek; [done|]. to_prop.
  injection Hd as Hd. assert (validate_unsigned lib d now = Ok tt) as Hv'.
  { apply (validate_unsigned_later lib d input.(in_issued_at_ms)); try (subst d; done).
    unfold sql_integer_max, u64_max in *. lia. }
  assert (validate_nonce d.(qr_nonce) = Ok tt) as Hnonce%nonce_sql_length.
  { unfold validate_unsigned in Hv. ok_steps Hv. by repeat match goal with u : unit |- _ => destruct u end. }
  unfold validate_and_consume_qr.
  rewrite (verify_qr_fine lib d text _ sig_text input.(in_host_public_key_der) signature now Hc); try done.
  - rewrite consume_nonce_fine; try done; [|subst d; cbn; lia|by subst d|by subst d].
    cbn [transact]. eexists. split; [by rewrite Hval|].
    eexists. subst d. cbn. rewrite lookup_insert_eq. by split.
  - by destruct front.
  - rewrite Hf, !str_len_app in Hl. rewrite !str_len_app.
    change (str_len [125]) with 1 in Hl. change (str_len (lit ",")) with 1.
    change (str_len (field_key "sig")) with 6. change (str_len (lit "}")) with 1. lia.
  - by rewrite Hkey, base64_round_trip.
  - pose proof (len_nonneg input.(in_host_public_key_der)).
    destruct (decide (len input.(in_host_public_key_der) = 0)) as [E%len_zero|]; [done|lia].
Qed.

(** ** The history *)

Lemma bytes_le_refl (a : list Z) : bytes_le a a = true.
Proof. induction a as [|x a IH]; [done|]. cbn. rewrite Z.eqb_refl, IH. apply orb_true_r. Qed.

Lemma bytes_le_total (a b : list Z) : bytes_le a b = true \/ bytes_le b a = true.
Proof.
  revert b. induction a as [|x a IH]; intros [|y b]; cbn; auto.
  destruct (IH b) as [-> | ->]; destruct (Z.lt_trichotomy x y) as [H|[->|H]];
    rewrite ?Z.eqb_refl, ?(proj2 (Z.ltb_lt _ _) H), ?orb_true_r; auto.
Qed.

Lemma bytes_le_trans (a b c : list Z) :
  bytes_le a b = true -> bytes_le b c = true -> bytes_le a c = true.
Proof.
  revert b c. induction a as [|x a IH]; intros [|y b] [|z c]; cbn; try done.
  rewrite !orb_true_iff, !andb_true_iff, !Z.ltb_lt, !Z.eqb_eq.
  intros [?|[-> ?]] [?|[-> ?]]; [left; lia|left; lia|left; lia|right; eauto].
Qed.

#[export] Instance recent_before_total : Total recent_before.
Proof.
  intros a b. unfold recent_before.
  destruct (bytes_le_total (as_bytes a.1.1) (as_bytes b.1.1));
    destruct (Z.lt_trichotomy (rr_ended_at_ms a.2) (rr_ended_at_ms b.2)) as [?|[?|?]]; auto.
Qed.

#[export] Instance recent_before_trans : Transitive recent_before.
Proof.
  intros a b c. unfold recent_before. intros [H1|[H1 L1]] [H2|[H2 L2]]; [left; lia..|right].
  split; [lia|]. by eapply bytes_le_trans.
Qed.

(** Every row was written from a record that validates. *)
Definition recent_ok (table : gmap (rstr * rstr) RecentRow) : Prop :=
  map_Forall (fun key row => is_ok (read_recent (key, row)) = true) table.

Definition trusted_ok (lib : Libraries) (table : gmap rstr TrustedRow) : Prop :=
  map_Forall (fun fingerprint row => is_ok (read_trusted lib (fingerprint, row)) = true) table.

Definition store_ok (lib : Libraries) (self : P2Store) : Prop :=
  recent_ok self.(recent_sessions) /\ trusted_ok lib self.(trusted_hosts).

Lemma role_round_trip (role : RecentSessionRole) : role_parse (role_wire_name role) = Ok role.
Proof. by destruct role. Qed.

Lemma outcome_round_trip (outcome : RecentSessionOutcome) :
  outcome_parse (outcome_wire_name outcome) = Ok outcome.
Proof. by destruct outcome. Qed.

Lemma from_sql_millis_ok (value v : Z) : from_sql_millis value = Ok v <-> v = value /\ 0 <= value.
Proof.
  unfold from_sql_millis. destruct (value <? 0) eqn:E; to_prop.
  - split; [done|lia].
  - split; [by intros [= <-]|by intros [-> _]].
Qed.

(** A record reads back from the row it is written to. *)
Definition row_of (value : RecentSessionRecord) : RecentRow :=
  mkRecentRow value.(rs_session_name) value.(rs_host_name) value.(rs_host_fingerprint)
    value.(rs_started_at_ms) value.(rs_ended_at_ms) (outcome_wire_name value.(rs_outcome)).

Definition key_of (value : RecentSessionRecord) : rstr * rstr :=
  (value.(rs_session_id), role_wire_name value.(rs_role)).

Lemma read_recent_row (value : RecentSessionRecord) :
  RecentSessionRecord_validate value = Ok tt -> 0 <= value.(rs_started_at_ms) ->
  read_recent (key_of value, row_of value) = Ok value.
Proof.
  intros Hv Hs. assert (0 <= value.(rs_ended_at_ms)) as He.
  { unfold RecentSessionRecord_validate in Hv. ok_steps Hv. to_prop. lia. }
  unfold read_recent, key_of, row_of. cbn. rewrite role_round_trip, outcome_round_trip.
  rewrite (proj2 (from_sql_millis_ok _ _) (conj eq_refl Hs)), (proj2 (from_sql_millis_ok _ _) (conj eq_refl He)).
  destruct value; cbn in *. by rewrite Hv.
Qed.

Lemma read_recent_inv (key : rstr * rstr) (row : RecentRow) (value : RecentSessionRecord) :
  read_recent (key, row) = Ok value ->
  key = key_of value /\ row = row_of value /\ RecentSessionRecord_validate value = Ok tt
  /\ 0 < value.(rs_started_at_ms).
Proof.
  assert (forall t r, role_parse t = Ok r -> t = role_wire_name r) as Hrole.
  { intros t r. unfold role_parse. repeat case_bool_decide; intros [= <-]; done. }
  assert (forall t o, outcome_parse t = Ok o -> t = outcome_wire_name o) as Hout.
  { intros t o. unfold outcome_parse. repeat case_bool_decide; intros [= <-]; done. }
  destruct key as [sid role], row as [sn hn fp st en out]. unfold read_recent. cbn. intros H. ok_steps H.
  injection H as <-.
  repeat match goal with
    | E : role_parse _ = Ok _ |- _ => apply Hrole in E as ->
    | E : outcome_parse _ = Ok _ |- _ => apply Hout in E as ->
    | E : from_sql_millis _ = Ok _ |- _ => apply from_sql_millis_ok in E as [-> ?]
    | u : unit |- _ => destruct u
    end.
  match goal with E : RecentSessionRecord_validate _ = Ok _ |- _ => rename E into Hv end.
  split_and!; [done..|]. unfold RecentSessionRecord_validate in Hv. ok_steps Hv. to_prop. cbn in *. lia.
Qed.

(** The record an upsert leaves: the new one, started when the first was. *)
Definition merged_record (old : option RecentRow) (value : RecentSessionRecord) : RecentSessionRecord :=
  mkRecentSessionRecord value.(rs_session_id) value.(rs_role) value.(rs_session_name) value.(rs_host_name)
    value.(rs_host_fingerprint)
    (match old with Some row => Z.min row.(rr_started_at_ms) value.(rs_started_at_ms)
                  | None => value.(rs_started_at_ms) end)
    value.(rs_ended_at_ms) value.(rs_outcome).

Lemma merge_recent_reads (old : option RecentRow) (key : rstr * rstr) (value : RecentSessionRecord) :
  RecentSessionRecord_validate value = Ok tt -> is_u64 value.(rs_started_at_ms) ->
  (forall row, old = Some row -> is_ok (read_recent (key, row)) = true) ->
  read_recent (key_of value, merge_recent old (row_of value)) = Ok (merged_record old value).
Proof.
  intros Hv Hu Hold.
  assert (merge_recent old (row_of value) = row_of (merged_record old value)) as -> by (by destruct old).
  apply (read_recent_row (merged_record old value)).
  - destruct old as [row|]; [|by destruct value].
    specialize (Hold row eq_refl). destruct (read_recent (key, row)) as [v|] eqn:E; [|done].
    apply read_recent_inv in E as (_ & -> & _ & Hpos).
    unfold RecentSessionRecord_validate in *. cbn in *. ok_steps Hv. to_prop.
    rewrite (proj2 (Z.eqb_neq _ 0)) by (unfold_ints; lia). by rewrite (proj2 (Z.ltb_ge _ _)) by lia.
  - destruct old as [row|]; cbn; [|unfold_ints; lia].
    specialize (Hold row eq_refl). destruct (read_recent (key, row)) as [v|] eqn:E; [|done].
    apply read_recent_inv in E as (_ & -> & _ & Hpos). cbn. unfold_ints. lia.
Qed.

(** The schema accepts every row that was written from a validated record. *)
Lemma recent_check_row (value : RecentSessionRecord) :
  RecentSessionRecord_validate value = Ok tt -> 0 <= value.(rs_started_at_ms) ->
  recent_check (key_of value) (row_of value) = true.
Proof.
  unfold RecentSessionRecord_validate. intros Hv Hs. ok_steps Hv. to_prop.
  unfold recent_check, key_of, row_of. cbn [rr_session_name rr_host_name rr_host_fingerprint
    rr_started_at_ms rr_ended_at_ms rr_outcome fst snd].
  repeat match goal with E : validate_name _ _ = Ok _ |- _ => apply name_sql_length in E; rewrite E; clear E end.
  rewrite (proj2 (Z.ltb_lt 0 _)), (proj2 (Z.leb_le _ _)) by lia.
  destruct (rs_host_fingerprint value) as [fp|].
  - match goal with E : validate_fingerprint _ = Ok _ |- _ => apply fingerprint_sql_length in E as -> end.
    by destruct (rs_role value), (rs_outcome value).
  - by destruct (rs_role value), (rs_outcome value).
Qed.

Lemma recent_ok_lookup (table : gmap (rstr * rstr) RecentRow) (key : rstr * rstr) (row : RecentRow) :
  recent_ok table -> table !! key = Some row -> is_ok (read_recent (key, row)) = true.
Proof. intros H E. exact (H key row E). Qed.

(** What [record_session] does when nothing fails but its own checks. *)
Lemma record_session_fine (lib : Libraries) (self : P2Store) (value : RecentSessionRecord) (io : faults) :
  recent_ok self.(recent_sessions) -> RecentSessionRecord_validate value = Ok tt ->
  is_u64 value.(rs_started_at_ms) -> value.(rs_ended_at_ms) <= sql_integer_max -> (forall k, io k = None) ->
  record_session lib self value io =
  (mkP2Store (<[key_of value := row_of (merged_record (self.(recent_sessions) !! key_of value) value)]>
                self.(recent_sessions)) self.(trusted_hosts) self.(consumed_qr_nonces), Ok tt).
Proof.
  intros Hok Hv Hu He Hio. unfold record_session. rewrite Hv, !statement_fine by done.
  assert (value.(rs_started_at_ms) <= value.(rs_ended_at_ms)).
  { unfold RecentSessionRecord_validate in Hv. ok_steps Hv. to_prop. lia. }
  rewrite !to_sql_millis_fine by lia.
  change (rs_session_id value, role_wire_name (rs_role value)) with (key_of value).
  change (mkRecentRow _ _ _ _ _ _) with (row_of value).
  set (old := recent_sessions self !! key_of value).
  assert (merge_recent old (row_of value) = row_of (merged_record old value)) as -> by (by destruct old).
  pose proof (merge_recent_reads old (key_of value) value Hv Hu) as Hread.
  destruct (read_recent_inv _ _ _ (Hread (fun row E => recent_ok_lookup _ _ row Hok E)))
    as (Hkey & Hrow & Hv' & Hpos).
  rewrite recent_check_row by (unfold_ints; done || lia).
  change (key_of value) with (key_of (merged_record old value)) at 1.
  rewrite recent_check_row by (done || lia). done.
Qed.

Lemma record_session_ok (lib : Libraries) (self store : P2Store) (value : RecentSessionRecord) (io : faults) :
  record_session lib self value io = (store, Ok tt) ->
  RecentSessionRecord_validate value = Ok tt
  /\ store = mkP2Store (<[key_of value := merge_recent (self.(recent_sessions) !! key_of value) (row_of value)]>
                          self.(recent_sessions)) self.(trusted_hosts) self.(consumed_qr_nonces).
Proof.
  unfold record_session. rewrite transact_ok. intros H. ok_steps H. injection H as <-.
  repeat match goal with
    | E : to_sql_millis _ = Ok _ |- _ => apply to_sql_millis_ok in E as [-> _]
    | u : unit |- _ => destruct u end.
  done.
Qed.

(** *** Remembered hosts *)

Definition trusted_row (host : TrustedHostRecord) : TrustedRow :=
  mkTrustedRow host.(th_display_name) host.(th_public_key_der) host.(th_first_verified_ms)
    host.(th_last_verified_ms).

Lemma read_trusted_row (lib : Libraries) (host : TrustedHostRecord) :
  TrustedHostRecord_validate lib host = Ok tt -> 0 <= host.(th_first_verified_ms) ->
  read_trusted lib (host.(th_fingerprint), trusted_row host) = Ok host.
Proof.
  intros Hv Hs. assert (0 <= host.(th_last_verified_ms)) as He.
  { unfold TrustedHostRecord_validate in Hv. ok_steps Hv. to_prop. lia. }
  unfold read_trusted, trusted_row. cbn.
  rewrite (proj2 (from_sql_millis_ok _ _) (conj eq_refl Hs)), (proj2 (from_sql_millis_ok _ _) (conj eq_refl He)).
  destruct host; cbn in *. by rewrite Hv.
Qed.

Lemma read_trusted_inv (lib : Libraries) (fingerprint : rstr) (row : TrustedRow) (host : TrustedHostRecord) :
  read_trusted lib (fingerprint, row) = Ok host ->
  fingerprint = host.(th_fingerprint) /\ row = trusted_row host
  /\ TrustedHostRecord_validate lib host = Ok tt /\ 0 < host.(th_first_verified_ms)
  /\ public_key_fingerprint lib row.(tr_public_key_der) = fingerprint.
Proof.
  destruct row as [dn pk fst lst]. unfold read_trusted. cbn. intros H. ok_steps H. injection H as <-.
  repeat match goal with
    | E : from_sql_millis _ = Ok _ |- _ => apply from_sql_millis_ok in E as [-> ?]
    | u : unit |- _ => destruct u
    end.
  match goal with E : TrustedHostRecord_validate _ _ = Ok _ |- _ => rename E into Hv end.
  assert (0 < fst /\ public_key_fingerprint lib pk = fingerprint) as [? ?].
  { unfold TrustedHostRecord_validate in Hv. ok_steps Hv. to_prop. cbn in *. split; [lia|done]. }
  by split_and!.
Qed.

(** The host an upsert leaves: verified first when the first was and last when
    the later was. *)
Definition merged_host (old : option TrustedRow) (host : TrustedHostRecord) : TrustedHostRecord :=
  match old with
  | None => host
  | Some row =>
      mkTrustedHostRecord host.(th_fingerprint) host.(th_display_name) host.(th_public_key_der)
        (Z.min row.(tr_first_verified_ms) host.(th_first_verified_ms))
        (Z.max row.(tr_last_verified_ms) host.(th_last_verified_ms))
  end.

Lemma merged_host_valid (lib : Libraries) (old : option TrustedRow) (host : TrustedHostRecord) :
  TrustedHostRecord_validate lib host = Ok tt -> is_u64 host.(th_first_verified_ms) ->
  (forall row, old = Some row -> is_ok (read_trusted lib (host.(th_fingerprint), row)) = true) ->
  TrustedHostRecord_validate lib (merged_host old host) = Ok tt
  /\ 0 <= (merged_host old host).(th_first_verified_ms)
  /\ trusted_row (merged_host old host) = merge_trusted old (trusted_row host).
Proof.
  intros Hv Hu Hold. destruct old as [row|]; [|unfold_ints; split_and!; [done|cbn; lia|done]].
  specialize (Hold row eq_refl). destruct (read_trusted lib _) as [h|] eqn:E; [|done].
  apply read_trusted_inv in E as (_ & -> & _ & Hpos & _).
  split_and!; [|cbn; unfold_ints; lia|done].
  unfold TrustedHostRecord_validate in *. cbn in *. ok_steps Hv. to_prop.
  rewrite (proj2 (Z.eqb_neq _ 0)) by (unfold_ints; lia). rewrite (proj2 (Z.ltb_ge _ _)) by lia. done.
Qed.

Lemma trust_host_ok (lib : Libraries) (self store : P2Store) (host : TrustedHostRecord) (io : faults) :
  trust_host lib self host io = (store, Ok tt) ->
  TrustedHostRecord_validate lib host = Ok tt
  /\ store = mkP2Store self.(recent_sessions)
       (<[host.(th_fingerprint) := merge_trusted (self.(trusted_hosts) !! host.(th_fingerprint)) (trusted_row host)]>
          self.(trusted_hosts)) self.(consumed_qr_nonces).
Proof.
  unfold trust_host. rewrite transact_ok. intros H. ok_steps H. injection H as <-.
  repeat match goal with
    | E : to_sql_millis _ = Ok _ |- _ => apply to_sql_millis_ok in E as [-> _]
    | u : unit |- _ => destruct u end.
  done.
Qed.

Lemma trusted_check_row (lib : Libraries) (host : TrustedHostRecord) :
  TrustedHostRecord_validate lib host = Ok tt -> 0 <= host.(th_first_verified_ms) ->
  trusted_check host.(th_fingerprint) (trusted_row host) = true.
Proof.
  unfold TrustedHostRecord_validate. intros Hv Hs. ok_steps Hv. to_prop. unfold trusted_check, trusted_row.
  cbn [tr_display_name tr_public_key_der tr_first_verified_ms tr_last_verified_ms].
  match goal with E : validate_fingerprint _ = Ok _ |- _ => apply fingerprint_sql_length in E as -> end.
  match goal with E : validate_name _ _ = Ok _ |- _ => apply name_sql_length in E as -> end.
  rewrite (proj2 (Z.ltb_lt 0 _)), (proj2 (Z.leb_le _ _)) by lia.
  rewrite (proj2 (in_range_iff _ _ _)); [done|]. unfold MAX_PUBLIC_KEY_BYTES in *.
  pose proof (len_nonneg (th_public_key_der host)).
  destruct (decide (len (th_public_key_der host) = 0)) as [E%len_zero|]; [done|lia].
Qed.

(** The rows' fingerprints are those of their keys, so no other row has one. *)
Lemma key_not_taken (lib : Libraries) (table : gmap rstr TrustedRow) (host : TrustedHostRecord) :
  trusted_ok lib table -> TrustedHostRecord_validate lib host = Ok tt ->
  key_taken host.(th_fingerprint) host.(th_public_key_der) table = false.
Proof.
  intros Hok Hv. apply not_true_iff_false. unfold key_taken. rewrite existsb_exists.
  intros ([fp row] & Hin & E). apply list_elem_of_In, elem_of_map_to_list in Hin. cbn in E. to_prop.
  pose proof (Hok fp row Hin : is_ok (read_trusted lib (fp, row)) = true) as Hrow.
  destruct (read_trusted lib (fp, row)) as [h|] eqn:Er; [|done].
  apply read_trusted_inv in Er as (_ & _ & _ & _ & Hfp).
  unfold TrustedHostRecord_validate in Hv. ok_steps Hv. to_prop. congruence.
Qed.

Lemma trust_host_fine (lib : Libraries) (self : P2Store) (host : TrustedHostRecord) (io : faults) :
  trusted_ok lib self.(trusted_hosts) -> TrustedHostRecord_validate lib host = Ok tt ->
  is_u64 host.(th_first_verified_ms) -> host.(th_last_verified_ms) <= sql_integer_max ->
  (forall k, io k = None) ->
  trust_host lib self host io =
  (mkP2Store self.(recent_sessions)
     (<[host.(th_fingerprint) := trusted_row (merged_host (self.(trusted_hosts) !! host.(th_fingerprint)) host)]>
        self.(trusted_hosts)) self.(consumed_qr_nonces), Ok tt).
Proof.
  intros Hok Hv Hu He Hio. unfold trust_host. rewrite Hv, !statement_fine by done.
  assert (host.(th_first_verified_ms) <= host.(th_last_verified_ms)).
  { unfold TrustedHostRecord_validate in Hv. ok_steps Hv. to_prop. lia. }
  rewrite !to_sql_millis_fine by lia. change (mkTrustedRow _ _ _ _) with (trusted_row host).
  set (old := trusted_hosts self !! th_fingerprint host).
  destruct (merged_host_valid lib old host Hv Hu (fun row E => Hok _ row E)) as (Hv' & Hpos & <-).
  rewrite key_not_taken with (lib := lib) by done.
  rewrite (trusted_check_row lib host) by (unfold_ints; done || lia).
  assert (th_fingerprint host = th_fingerprint (merged_host old host)) as E by (by destruct old).
  rewrite E at 1. by rewrite (trusted_check_row lib (merged_host old host)) by done.
Qed.

(** The times of the records that calls carry are [u64]. *)
Definition call_wf (call : P2Call) : Prop :=
  match call with
  | CallRecord value => is_u64 value.(rs_started_at_ms)
  | CallTrust host => is_u64 host.(th_first_verified_ms)
  | CallRecent _ _ _ | CallForget _ | CallRedeem _ _ | CallCleanup _ _ => True
  end.

Lemma step_store_ok (lib : Libraries) (self : P2Store) (entry : P2Call * faults) :
  call_wf entry.1 -> store_ok lib self -> store_ok lib (p2_step lib self entry).
Proof.
  intros Hw [Hr Ht]. assert (store_ok lib self) as Hs by done. destruct entry as [call io].
  assert (forall now age, store_ok lib (cleanup self now age io).1) as Hclean.
  { intros now age. apply (cleanup_inv (store_ok lib)); [done|]. split; [|done].
    intros key row [Hrow _]%map_lookup_filter_Some. exact (Hr key row Hrow). }
  destruct call as [value|t age limit|host|fp|payload t|t age]; unfold p2_step; cbn in *.
  - destruct (record_session lib self value io) as [store [[]|e]] eqn:E.
    + apply record_session_ok in E as [Hv ->]. split; [|done]. cbn. apply map_Forall_insert_2; [|done].
      rewrite (merge_recent_reads _ (key_of value)); [done..|]. intros row Hrow. exact (Hr _ _ Hrow).
    + unfold record_session in E. by apply transact_err in E as ->.
  - by apply (recent_inv (store_ok lib)).
  - destruct (trust_host lib self host io) as [store [[]|e]] eqn:E.
    + apply trust_host_ok in E as [Hv ->]. split; [done|]. cbn. apply map_Forall_insert_2; [|done].
      destruct (merged_host_valid lib (trusted_hosts self !! th_fingerprint host) host Hv Hw (fun row E => Ht _ row E))
        as (Hv' & Hpos & <-).
      pose proof (read_trusted_row lib _ Hv' Hpos) as Hread. revert Hread.
      replace (th_fingerprint (merged_host _ host)) with (th_fingerprint host) by (by destruct (_ !! _)).
      by intros ->.
    + unfold trust_host in E. by apply transact_err in E as ->.
  - unfold delete_trusted_host. apply (transact_inv (store_ok lib)); [done|]. intros store a H. ok_steps H.
    injection H as <- _. split; [done|]. by apply map_Forall_delete.
  - unfold validate_and_consume_qr. apply (transact_inv (store_ok lib)); [done|]. intros store a H. ok_steps H.
    by injection H as <- _.
  - done.
Qed.

Lemma run_store_ok (lib : Libraries) (calls : list (P2Call * faults)) (self : P2Store) :
  Forall (fun entry => call_wf entry.1) calls -> store_ok lib self -> store_ok lib (p2_run lib self calls).
Proof.
  intros Hc. revert self. induction Hc as [|entry calls Hw Hc IH]; intros self Hs; [done|].
  by apply IH, step_store_ok.
Qed.

Lemma empty_store_ok (lib : Libraries) : store_ok lib P2Store_empty.
Proof. split; apply map_Forall_empty. Qed.

Lemma collect_rows_fine {A B E : Type} (f : A -> result B E) (l : list A) :
  (forall a, a ∈ l -> is_ok (f a) = true) ->
  exists bs, collect_rows f l = Ok bs /\ Forall2 (fun a b => f a = Ok b) l bs.
Proof.
  induction l as [|a l IH]; intros H; [by exists []|].
  destruct IH as (bs & Hbs & HF); [intros; apply H; by right|].
  specialize (H a ltac:(by left)). destruct (f a) as [b|] eqn:Ef; [|done].
  exists (b :: bs). cbn. rewrite Ef, Hbs. split; [done|by constructor].
Qed.

(** The rows a query may return. *)
Definition listed (cutoff : Z) (table : gmap (rstr * rstr) RecentRow) (entry : (rstr * rstr) * RecentRow)
    : Prop :=
  table !! entry.1 = Some entry.2 /\ entry.1.2 = lit "listener" /\ cutoff <= entry.2.(rr_ended_at_ms).

(** The query is the [limit] newest of them, in order. *)
Lemma select_recent_spec (cutoff limit : Z) (table : gmap (rstr * rstr) RecentRow) :
  let rows := select_recent cutoff limit table in
  StronglySorted recent_before rows /\ len rows <= Z.max 0 limit
  /\ (forall entry, entry ∈ rows -> listed cutoff table entry)
  /\ (forall entry, listed cutoff table entry ->
        entry ∈ rows \/ (len rows = Z.max 0 limit /\ Forall (fun r => recent_before r entry) rows)).
Proof.
  unfold select_recent. set (all := merge_sort _ _). cbn zeta.
  assert (StronglySorted recent_before all) as Hs by apply (StronglySorted_merge_sort _).
  assert (forall entry, entry ∈ all <-> listed cutoff table entry) as Hall.
  { intros [key row]. unfold all, listed. rewrite merge_sort_Permutation, elem_of_map_to_list.
    rewrite map_lookup_filter_Some. done. }
  rewrite <- (take_drop (Z.to_nat limit) all) in Hs. apply StronglySorted_app in Hs as (Hcross & Hs & _).
  split_and!; [done| | |].
  - unfold len. rewrite length_take. lia.
  - intros entry H%elem_of_take. apply Hall. destruct H as (i & H & _). by eapply list_elem_of_lookup_2.
  - intros entry He. apply Hall in He. rewrite <- (take_drop (Z.to_nat limit) all) in He.
    apply elem_of_app in He as [He|He]; [by left|right]. split.
    + apply list_elem_of_lookup_1 in He as [i Hi]. rewrite lookup_drop in Hi. apply lookup_lt_Some in Hi.
      unfold len. rewrite length_take. lia.
    + apply Forall_forall. intros r Hr. by apply Hcross.
Qed.

Lemma cleanup_fine (self : P2Store) (now age : Z) (io : faults) :
  0 < now <= sql_integer_max -> 0 < age -> (forall k, io k = None) ->
  cleanup self now age io =
  (mkP2Store (prune_recent (saturating_sub now age) self.(recent_sessions)) self.(trusted_hosts)
     (prune_nonces now self.(consumed_qr_nonces)), Ok tt).
Proof.
  intros Hn Ha Hio. unfold cleanup. rewrite !(proj2 (Z.eqb_neq _ 0)) by lia. cbn [orb].
  rewrite !statement_fine by done. by rewrite !to_sql_millis_fine by (unfold saturating_sub; lia).
Qed.

Lemma listed_pruned (cutoff : Z) (table : gmap (rstr * rstr) RecentRow) (entry : (rstr * rstr) * RecentRow) :
  listed cutoff (prune_recent cutoff table) entry <-> listed cutoff table entry.
Proof. unfold listed, prune_recent. rewrite map_lookup_filter_Some. naive_solver. Qed.

(** A listed row is the record it reads as. *)
Lemma listed_reads (cutoff : Z) (table : gmap (rstr * rstr) RecentRow) (entry : (rstr * rstr) * RecentRow)
    (value : RecentSessionRecord) :
  listed cutoff table entry -> read_recent entry = Ok value ->
  entry = (key_of value, row_of value) /\ value.(rs_role) = RecentListener
  /\ cutoff <= value.(rs_ended_at_ms) /\ table !! key_of value = Some (row_of value).
Proof.
  intros (Hl & Hrole & Hc) Hr. destruct entry as [key row]. apply read_recent_inv in Hr as (-> & -> & _ & _).
  cbn in *. split_and!; try done. by destruct (rs_role value).
Qed.

Definition entry_of (value : RecentSessionRecord) : (rstr * rstr) * RecentRow := (key_of value, row_of value).

Lemma entry_of_inj (a b : RecentSessionRecord) : entry_of a = entry_of b -> a = b.
Proof.
  destruct a as [? ra ? ? ? ? ? oa], b as [? rb ? ? ? ? ? ob]. unfold entry_of, key_of, row_of.
  simpl. intros [= -> Er -> -> -> -> -> Eo]. assert (ra = rb) as -> by (by destruct ra, rb).
  by assert (oa = ob) as -> by (by destruct oa, ob).
Qed.

(** Listed rows are the rows of what they read as. *)
Lemma listed_records (cutoff : Z) (table : gmap (rstr * rstr) RecentRow) (rows : list ((rstr * rstr) * RecentRow))
    (records : list RecentSessionRecord) :
  (forall entry, entry ∈ rows -> listed cutoff table entry) ->
  Forall2 (fun entry value => read_recent entry = Ok value) rows records ->
  rows = map entry_of records
  /\ Forall (fun r => r.(rs_role) = RecentListener /\ cutoff <= r.(rs_ended_at_ms)
                      /\ table !! key_of r = Some (row_of r)) records.
Proof.
  intros Hin HF. induction HF as [|entry value rows records Hr HF IH]; [done|].
  destruct IH as [-> Hall]; [intros; apply Hin; by right|].
  apply (listed_reads cutoff table) in Hr as (-> & Hv); [|apply Hin; by left]. split; [done|by constructor].
Qed.

Lemma list_recent_fine (self : P2Store) (now age limit : Z) (io : faults) :
  recent_ok self.(recent_sessions) ->
  0 < now <= sql_integer_max -> 0 < age -> 1 <= limit <= MAX_RECENT_QUERY_LIMIT -> (forall k, io k = None) ->
  let rows := select_recent (saturating_sub now age) limit
                (prune_recent (saturating_sub now age) self.(recent_sessions)) in
  exists store records,
    list_recent_listener_sessions self now age limit io = (store, Ok records)
    /\ Forall2 (fun entry value => read_recent entry = Ok value) rows records.
Proof.
  intros Hok Hn Ha Hlim Hio. unfold list_recent_listener_sessions. rewrite cleanup_fine by done.
  rewrite !(proj2 (Z.eqb_neq _ 0)), (proj2 (Z.ltb_ge _ _)) by lia. cbn [orb recent_sessions].
  rewrite !statement_fine by done. rewrite to_sql_millis_fine by (unfold saturating_sub; lia).
  cbn zeta. destruct (collect_rows_fine read_recent
    (select_recent (saturating_sub now age) limit (prune_recent (saturating_sub now age) self.(recent_sessions))))
    as (records & Hrec & HF).
  - intros [key row] Hin.
    apply (proj1 (proj2 (proj2 (select_recent_spec _ _ _)))) in Hin.
    apply (proj1 (listed_pruned _ _ _)) in Hin as (Hl & _). exact (Hok _ _ Hl).
  - rewrite Hrec. by eexists _, records.
Qed.

(** C33. The history never goes bad.  After any calls with any storage faults the
    schema accepts every record that validation accepts, and keeps the earliest
    start of a session that is recorded again; and with working storage the
    listener query succeeds: it gives stored listener sessions that are young
    enough, newest first, at most [limit] of them, and omits one only if that
    many at least as recent ones are given. *)
Theorem history_reads_back (lib : Libraries) (calls : list (P2Call * faults)) (now age limit : Z) (io : faults) :
  Forall (fun entry => call_wf entry.1) calls ->
  0 < now <= sql_integer_max -> 0 < age -> 1 <= limit <= MAX_RECENT_QUERY_LIMIT -> (forall k, io k = None) ->
  let s := p2_run lib P2Store_empty calls in
  (forall value, RecentSessionRecord_validate value = Ok tt -> is_u64 value.(rs_started_at_ms) ->
     value.(rs_ended_at_ms) <= sql_integer_max ->
     exists s1, record_session lib s value io = (s1, Ok tt)
       /\ s1.(recent_sessions) !! key_of value
          = Some (row_of (merged_record (s.(recent_sessions) !! key_of value) value)))
  /\ exists s2 records,
     list_recent_listener_sessions s now age limit io = (s2, Ok records) /\ len records <= limit
     /\ StronglySorted (fun a b => b.(rs_ended_at_ms) <= a.(rs_ended_at_ms)) records
     /\ Forall (fun r => r.(rs_role) = RecentListener /\ saturating_sub now age <= r.(rs_ended_at_ms)
                         /\ s.(recent_sessions) !! key_of r = Some (row_of r)) records
     /\ (forall value, s.(recent_sessions) !! key_of value = Some (row_of value) ->
           value.(rs_role) = RecentListener -> saturating_sub now age <= value.(rs_ended_at_ms) ->
           value ∈ records
           \/ (len records = limit /\ Forall (fun r => value.(rs_ended_at_ms) <= r.(rs_ended_at_ms)) records)).
Proof.
  intros Hc Hn Ha Hlim Hio s.
  assert (store_ok lib s) as [Hok _] by (apply run_store_ok; [done|apply empty_store_ok]).
  split.
  { intros value Hv Hu He. rewrite record_session_fine by done. eexists. split; [done|]. apply lookup_insert_eq. }
  destruct (list_recent_fine s now age limit io) as (s2 & records & Hlist & HF); try done.
  destruct (select_recent_spec (saturating_sub now age) limit
              (prune_recent (saturating_sub now age) (recent_sessions s))) as (Hs & Hlen & Hin & Hout).
  apply listed_records with (cutoff := saturating_sub now age) (table := s.(recent_sessions)) in HF as [Erows Hall].
  2: { intros entry He. by apply listed_pruned, Hin. }
  rewrite Erows in *. rewrite Z.max_r in * by lia. rewrite len_map in *.
  exists s2, records. split_and!; [done|done| |done|].
  - clear - Hs. induction records as [|r records IH]; [constructor|]. apply StronglySorted_inv in Hs as [Hs Hr].
    constructor; [by apply IH|]. apply (proj1 (List.Forall_map entry_of _ _)) in Hr. eapply Forall_impl; [exact Hr|].
    intros r'. unfold recent_before. cbn. lia.
  - intros value Hl Hrole Hcut. destruct (Hout (entry_of value)) as [He|[Hfull Hnew]].
    + apply listed_pruned. split_and!; [done| |done]. cbn. by rewrite Hrole.
    + left. apply list_elem_of_fmap in He as (r & E & Hr). by rewrite (entry_of_inj _ _ E).
    + right. split; [done|]. apply (proj1 (List.Forall_map entry_of _ _)) in Hnew. eapply Forall_impl; [exact Hnew|].
      intros r. unfold recent_before. cbn. lia.
Qed.

(** ** The minute after the expiry

    [validate_unsigned] tolerates a clock that is up to a minute late, but the
    ledger's row must not be consumed after it expires: an invitation scanned
    within that minute passes every check and then fails in the table's
    constraint, as a storage failure. *)
Lemma grace_period_is_a_storage_error (lib : Libraries) (s : P2Store) (payload : rstr) (now : Z) (io : faults)
    (d : UnsignedQrDocument) (key : list Z) :
  verify_qr lib payload now = Ok (d, key) -> d.(qr_exp) < now <= sql_integer_max ->
  (forall row, s.(consumed_qr_nonces) !! d.(qr_nonce) = Some row -> row.(nr_expires_at_ms) < now) ->
  (forall k, io k = None) ->
  validate_and_consume_qr lib s payload now io
  = (s, Err (P2Storage (lib.(constraint_text) "consumed_qr_nonces"))).
Proof.
  intros Hv Ht Hn Hio. unfold validate_and_consume_qr, consume_nonce. rewrite Hv, !statement_fine by done.
  rewrite !to_sql_millis_fine by lia. rewrite bool_decide_false.
  2: { intros [row [H1 H2]%map_lookup_filter_Some]. specialize (Hn _ H1). lia. }
  unfold constraint, nonce_check. cbn [nr_consumed_at_ms nr_expires_at_ms].
  rewrite (proj2 (Z.leb_gt now _)) by lia. by rewrite andb_false_r.
Qed.

(** ** A small library

    Strings are written with every character escaped, objects are read by a
    parser of the texts without white space, base64 is UTF-8, and the one text
    that was ever signed is that of [toy_input]. *)

Definition toy_json_text (s : rstr) : result rstr rstr :=
  Ok (34 :: flat_map (fun c => [92; c]) s ++ [34]).

(** What comes before the first [c], and what comes after it. *)
Fixpoint toy_until (c : Z) (text : rstr) : option (rstr * rstr) :=
  match text with
  | [] => None
  | d :: rest => if d =? c then Some ([], rest) else '(front, back) ← toy_until c rest; Some (d :: front, back)
  end.

Fixpoint toy_escaped (text : rstr) : option (rstr * rstr) :=
  match text with
  | c :: rest =>
      if c =? 34 then Some ([], rest)
      else match rest with
           | d :: rest => '(s, back) ← toy_escaped rest; Some (d :: s, back)
           | [] => None
           end
  | [] => None
  end.

Fixpoint toy_digits (text : rstr) : rstr * rstr :=
  match text with
  | c :: rest => if in_range 48 57 c then let '(ds, back) := toy_digits rest in (c :: ds, back) else ([], text)
  | [] => ([], [])
  end.

Definition toy_value (text : rstr) : option (JsonValue * rstr) :=
  match text with
  | c :: rest =>
      if c =? 34 then '(s, back) ← toy_escaped rest; Some (JsonString s, back)
      else if c =? 110 then Some (JsonNull, drop 3 rest)
      else let '(ds, back) := toy_digits text in Some (JsonNumber (from_decimal ds), back)
  | [] => None
  end.

Fixpoint toy_members (fuel : nat) (text : rstr) : option JsonObject :=
  match fuel with
  | O => None
  | S fuel =>
      '(name, rest) ← toy_until 34 (drop 1 text);
      '(value, rest) ← toy_value (drop 1 rest);
      match rest with
      | c :: rest => if c =? 44 then others ← toy_members fuel rest; Some ((name, value) :: others)
                     else Some [(name, value)]
      | [] => None
      end
  end.

Definition toy_scalars (s : rstr) : bool := forallb (fun c => in_range 0 55295 c || in_range 57344 1114111 c) s.

Definition toy_strings (member : rstr * JsonValue) : bool :=
  match member.2 with JsonString s => toy_scalars s | _ => true end.

Definition toy_object (text : rstr) : option JsonObject :=
  object ← toy_members (length text) (drop 1 text);
  if forallb toy_strings object then Some object else None.

Definition toy_from_str {A : Type} (read : JsonObject -> option A) (text : rstr) : result A rstr :=
  match object ← toy_object text; read object with Some a => Ok a | None => Err [] end.

Definition toy_writer : Libraries :=
  mkLibraries (fun _ => repeat 7 32) (fun _ => true) (fun _ => true) (fun _ _ _ => false)
    (fun bytes => bytes) from_utf8 toy_json_text (fun _ => Err []) (fun _ => Err []) (fun _ => Err [])
    (fun _ => lit "CHECK constraint failed").

Definition toy_input : QrInvitationInput :=
  mkQrInvitationInput (lit "session-1") (lit "Party") (lit "Kitchen") [4; 5; 6] (lit "manual") None
    1000000 1300000 (lit "nonce-0123456789") None.

Definition toy_document : UnsignedQrDocument :=
  mkUnsignedQrDocument 1 (lit "ES256") (lit "session-1") (lit "Party") (lit "Kitchen") [4; 5; 6]
    (lit "manual") None 1000000 1300000 (lit "nonce-0123456789") None.

Definition toy_text : rstr :=
  match canonical_unsigned toy_writer toy_document with Ok text => text | Err _ => [] end.

Definition toy_payload : rstr :=
  match strip_suffix 125 toy_text with
  | Some front => front ++ lit "," ++ field_key "sig" ++ [34; 92; 9; 92; 9; 34] ++ lit "}"
  | None => []
  end.

Definition toy_libraries : Libraries :=
  mkLibraries (fun _ => repeat 7 32) (fun _ => true) (fun _ => true)
    (fun _ text _ => bool_decide (text = as_bytes toy_text))
    (fun bytes => bytes) from_utf8 toy_json_text
    (toy_from_str read_unsigned) (toy_from_str read_signed)
    (fun _ => Err []) (fun _ => lit "CHECK constraint failed").

Lemma escaped_delimited (a b rest1 rest2 : rstr) :
  flat_map (fun c => [92; c]) a ++ 34 :: rest1 = flat_map (fun c => [92; c]) b ++ 34 :: rest2 ->
  a = b /\ rest1 = rest2.
Proof.
  revert b. induction a as [|c a IH]; intros [|d b] E; cbn in E; try discriminate E.
  - by injection E as ->.
  - injection E as -> E. apply IH in E as [-> ->]. done.
Qed.

Lemma u8_scalar (bytes : list Z) : Forall is_u8 bytes -> wf_str bytes.
Proof. intros H. eapply Forall_impl; [exact H|]. unfold is_scalar. intros c Hc. unfold_ints. lia. Qed.

Lemma toy_scalars_iff (s : rstr) : toy_scalars s = true <-> wf_str s.
Proof.
  induction s as [|c s IH]; [split; [constructor|done]|]. cbn [toy_scalars forallb]. unfold wf_str.
  rewrite andb_true_iff, Forall_cons, orb_true_iff, !in_range_iff. unfold is_scalar. rewrite IH. split; intros []; split; auto; lia.
Qed.

Lemma toy_until_app (c : Z) (front back : rstr) :
  Forall (fun d => d <> c) front -> toy_until c (front ++ c :: back) = Some (front, back).
Proof.
  induction 1 as [|d front Hd _ IH]; cbn; [by rewrite Z.eqb_refl|].
  by rewrite (proj2 (Z.eqb_neq _ _) Hd), IH.
Qed.

Lemma toy_escaped_app (s back : rstr) :
  toy_escaped (flat_map (fun c => [92; c]) s ++ 34 :: back) = Some (s, back).
Proof. induction s as [|c s IH]; [done|]. cbn. by rewrite IH. Qed.

Lemma toy_digits_app (ds back : rstr) (c : Z) :
  Forall is_digit ds -> ~ is_digit c -> toy_digits (ds ++ c :: back) = (ds, c :: back).
Proof.
  unfold is_digit. induction 1 as [|d ds Hd _ IH]; intros Hc; cbn.
  - destruct (in_range 48 57 c) eqn:E; [by apply in_range_iff in E|done].
  - rewrite (proj2 (in_range_iff _ _ _)) by lia. by rewrite IH.
Qed.

(** The parser reads each value where it stands before a comma or a brace. *)
Lemma toy_value_app (value : JsonValue) (text back : rstr) (c : Z) :
  plain_member ([], value) -> value_text toy_libraries value = Ok text -> c = 44 \/ c = 125 ->
  toy_value (text ++ c :: back) = Some (value, c :: back).
Proof.
  intros [_ Hp] H Hc. destruct value as [s|n|]; cbn [value_text snd] in *; apply Ok_inj in H as <-; [| |done].
  - cbn. rewrite <- app_assoc. cbn. by rewrite toy_escaped_app.
  - pose proof (to_decimal_digits n ltac:(unfold_ints; lia)) as Hd.
    pose proof (toy_digits_app (to_decimal n) back c Hd ltac:(unfold is_digit; lia)) as E.
    pose proof (to_decimal_length n) as Hl. pose proof (from_to_decimal n Hp) as Hn.
    destruct (to_decimal n) as [|d ds]; [rewrite len_nil in Hl; lia|]. unfold toy_value. cbn [app] in *.
    inversion_clear Hd as [|? ? Hd1 Hd2]. unfold is_digit in Hd1.
    rewrite (proj2 (Z.eqb_neq d 34)), (proj2 (Z.eqb_neq d 110)) by lia. by rewrite E, Hn.
Qed.

Lemma toy_members_step (name v back : rstr) (value : JsonValue) (c : Z) (fuel : nat) :
  plain_member (name, value) -> value_text toy_libraries value = Ok v -> c = 44 \/ c = 125 ->
  toy_members (S fuel) (34 :: name ++ [34; 58] ++ v ++ c :: back)
  = if c =? 44 then others ← toy_members fuel back; Some ((name, value) :: others) else Some [(name, value)].
Proof.
  intros [Hn Hv] E Hc. change ([34; 58] ++ v ++ c :: back) with (34 :: 58 :: v ++ c :: back).
  cbn [toy_members]. change (drop 1 (34 :: ?t)) with t. rewrite toy_until_app.
  - cbn [mbind option_bind]. change (drop 1 (58 :: ?t)) with t. by rewrite (toy_value_app value) by (auto; by split).
  - eapply Forall_impl; [exact Hn|]. cbn. lia.
Qed.

Lemma toy_members_text (first : rstr * JsonValue) (rest : JsonObject) (text : rstr) (fuel : nat) :
  Forall plain_member (first :: rest) -> members_text toy_libraries first rest = Ok text ->
  (length rest < fuel)%nat -> toy_members fuel text = Some (first :: rest).
Proof.
  revert first text fuel. induction rest as [|next rest IH]; intros [name value] text [|fuel] Hp H Hf; try lia;
    inversion_clear Hp as [|? ? Hfirst Hrest]; cbn [members_text] in H; unfold member_text in H; cbn [fst snd] in H;
    (destruct (value_text toy_libraries value) as [v|] eqn:E; [|discriminate H]).
  - apply Ok_inj in H as <-. rewrite <- app_comm_cons, <- !app_assoc.
    rewrite (toy_members_step name v [] value 125 fuel) by auto. done.
  - destruct (members_text toy_libraries next rest) as [others|] eqn:Eo; [|discriminate H].
    apply Ok_inj in H as <-. rewrite <- app_comm_cons, <- !app_assoc.
    rewrite (toy_members_step name v others value 44 fuel) by auto. cbn [Z.eqb Pos.eqb].
    rewrite (IH next others fuel) by (auto; cbn in Hf; lia). done.
Qed.

Lemma plain_strings (object : JsonObject) : Forall plain_member object -> forallb toy_strings object = true.
Proof.
  induction 1 as [|[name value] object [_ Hm] _ IH]; [done|]. cbn [forallb]. rewrite IH. unfold toy_strings.
  cbn in *. by destruct value; [rewrite (proj2 (toy_scalars_iff _) Hm)| |].
Qed.

Lemma members_text_length (lib : Libraries) (first : rstr * JsonValue) (rest : JsonObject) (text : rstr) :
  members_text lib first rest = Ok text -> (length rest < length text)%nat.
Proof.
  revert first text. induction rest as [|next rest IH]; intros first text H; cbn [members_text] in H;
    (destruct (member_text lib first) as [m|]; [|discriminate H]).
  - apply Ok_inj in H as <-. rewrite length_app. cbn. lia.
  - destruct (members_text lib next rest) as [others|] eqn:E; [|discriminate H]. apply Ok_inj in H as <-.
    apply IH in E. rewrite length_app. cbn. lia.
Qed.

(** It reads the text of every plain object. *)
Lemma toy_object_text (object : JsonObject) (text : rstr) :
  object <> [] -> Forall plain_member object -> object_text toy_libraries object = Ok text ->
  toy_object text = Some object.
Proof.
  intros Ho Hp H. destruct object as [|first rest]; [done|]. cbn [object_text] in H.
  destruct (members_text toy_libraries first rest) as [members|] eqn:E; [|discriminate H].
  apply Ok_inj in H as <-. unfold toy_object. cbn [drop length].
  pose proof (members_text_length _ _ _ _ E).
  rewrite (toy_members_text first rest members) by (auto; lia). cbn [mbind option_bind].
  by rewrite plain_strings.
Qed.

Lemma toy_from_text {A : Type} (read : JsonObject -> option A) (object : JsonObject) (text : rstr) (a : A) :
  read [] = None -> Forall plain_member object -> object_text toy_libraries object = Ok text ->
  read object = Some a -> toy_from_str read text = Ok a.
Proof.
  intros Hn Hp H Ha. unfold toy_from_str. rewrite (toy_object_text object) by (done || congruence).
  cbn [mbind option_bind]. by rewrite Ha.
Qed.

Lemma member_strings (object : JsonObject) (name s : rstr) :
  forallb toy_strings object = true -> json_member name object = Some (JsonString s) -> wf_str s.
Proof.
  induction object as [|[key value] object IH]; [done|]. cbn. intros [Hv Ho]%andb_true_iff.
  case_bool_decide; [|auto]. intros [= ->]. by apply toy_scalars_iff.
Qed.

Lemma string_field_wf (object : JsonObject) (name : string) (s : rstr) :
  forallb toy_strings object = true -> string_field name object = Some s -> wf_str s.
Proof.
  intros Ho. unfold string_field. destruct (json_member _ _) as [[]|] eqn:E; try done. intros [= <-].
  by eapply member_strings.
Qed.

Lemma option_field_wf (object : JsonObject) (name : string) (o : option rstr) :
  forallb toy_strings object = true -> option_field name object = Some o -> wf_str (default [] o).
Proof.
  intros Ho. unfold option_field. destruct (json_member _ _) as [[]|] eqn:E; try done; intros [= <-];
    [by eapply member_strings|apply List.Forall_nil..].
Qed.

Lemma number_field_range (object : JsonObject) (max : Z) (name : string) (n : Z) :
  number_field max name object = Some n -> 0 <= n <= max.
Proof.
  unfold number_field. destruct (json_member _ _) as [[]|]; try done. case_match eqn:E; [|done].
  intros [= <-]. by apply in_range_iff.
Qed.

Lemma read_fields_wf (object : JsonObject) (d : UnsignedQrDocument) :
  forallb toy_strings object = true -> read_fields object = Some d -> document_wf d.
Proof.
  intros Ho H. unfold read_fields in H.
  repeat match type of H with _ = Some _ => apply bind_Some in H as (? & ? & H) end. injection H as <-.
  unfold document_wf. cbn.
  repeat match goal with E : number_field _ _ _ = Some _ |- _ => apply number_field_range in E end.
  split_and!; eauto using string_field_wf, option_field_wf; unfold_ints; lia.
Qed.

#[local] Instance toy_laws : LibraryLaws toy_libraries.
Proof.
  split; cbn.
  - intros s j [= <-]. eauto.
  - intros s1 s2 j1 j2 rest1 rest2 [= <-] [= <-] E. injection E as E. rewrite <- !app_assoc in E.
    by apply escaped_delimited in E.
  - intros s j Hs [= <-]. apply Forall_cons. split; [unfold is_scalar; lia|]. apply Forall_app. split.
    + induction Hs as [|c s Hc Hs IH]; [constructor|]. cbn.
      apply Forall_cons. split; [unfold is_scalar; lia|by apply Forall_cons].
    + apply Forall_cons. split; [unfold is_scalar; lia|constructor].
  - intros text document H. unfold toy_from_str in H. destruct (_ ≫= _) as [a|] eqn:E; [|done]. injection H as <-.
    apply bind_Some in E as (object & Eo & E). unfold toy_object in Eo. apply bind_Some in Eo as (o & _ & Eo).
    destruct (forallb toy_strings o) eqn:Es; [|done]. injection Eo as ->. unfold read_signed in E.
    destruct (known_fields _ _); [|done]. apply bind_Some in E as (d & Hd & E).
    apply bind_Some in E as (sig & _ & [= <-]). exact (read_fields_wf object d Es Hd).
  - exact u8_scalar.
  - intros bytes H. by apply from_utf8_as_bytes, u8_scalar.
Qed.

#[local] Instance toy_reading : ReadingLaws toy_libraries.
Proof. split; intros object text document; by apply toy_from_text. Qed.

Definition no_faults : faults := fun _ => None.
Definition disk_full : faults := fun n => if (n =? 4)%nat then Some (lit "disk full") else None.

Definition redeemed_store (now : Z) : P2Store :=
  (validate_and_consume_qr toy_libraries P2Store_empty toy_payload now no_faults).1.

Lemma toy_redeemed :
  validate_and_consume_qr toy_libraries P2Store_empty toy_payload 1200000 no_faults
  = (redeemed_store 1200000, Ok (invitation_of toy_libraries toy_input)).
Proof. vm_compute. reflexivity. Qed.

(** One millisecond after its expiry the invitation still validates, and is
    refused by the ledger. *)
Lemma toy_grace_period :
  validate_unsigned toy_libraries toy_document 1300001 = Ok tt
  /\ validate_and_consume_qr toy_libraries P2Store_empty toy_payload 1300001 no_faults
     = (P2Store_empty, Err (P2Storage (lit "CHECK constraint failed"))).
Proof.
  split; [vm_compute; reflexivity|].
  apply (grace_period_is_a_storage_error toy_libraries P2Store_empty toy_payload 1300001 no_faults
           toy_document [4; 5; 6]); [vm_compute; reflexivity|done|by intros row|done].
Qed.

(** Two invitations with one nonce, the second issued after the first's end. *)
Definition toy_two : Libraries :=
  mkLibraries (fun _ => repeat 7 32) (fun _ => true) (fun _ => true) (fun _ _ _ => true)
    (fun bytes => bytes) from_utf8 toy_json_text (fun _ => Err [])
    (fun text =>
       if bool_decide (text = lit "first") then Ok (mkSignedQrDocument toy_document [9; 9])
       else if bool_decide (text = lit "second") then
         Ok (mkSignedQrDocument (mkUnsignedQrDocument 1 (lit "ES256") (lit "session-2") (lit "Party")
               (lit "Kitchen") [4; 5; 6] (lit "manual") None 1400000 1700000 (lit "nonce-0123456789") None) [9; 9])
       else Err [])
    (fun _ => Err []) (fun _ => lit "CHECK constraint failed").

Definition toy_first : P2Store * result ValidatedQrInvitation P2Error :=
  validate_and_consume_qr toy_two P2Store_empty (lit "first") 1200000 no_faults.

Definition toy_calls : list (P2Call * faults) :=
  [(CallRedeem (lit "first") 1250000, no_faults); (CallCleanup 1300000 1, no_faults);
   (CallForget (lit "x"), no_faults); (CallRedeem (lit "first") 1300000, disk_full)].

Definition toy_second : P2Store * result ValidatedQrInvitation P2Error :=
  validate_and_consume_qr toy_two (p2_run toy_two toy_first.1 toy_calls) (lit "second") 1450000 no_faults.

Definition toy_invitation (r : P2Store * result ValidatedQrInvitation P2Error) : ValidatedQrInvitation :=
  match r.2 with Ok inv => inv | Err _ => invitation_of toy_two toy_input end.

Lemma no_invitation_redeemed_twice_witness :
  toy_invitation toy_second <> toy_invitation toy_first
  /\ ((toy_invitation toy_second).(vq_nonce) = (toy_invitation toy_first).(vq_nonce) ->
      (toy_invitation toy_first).(vq_expires_at_ms) < 1450000 <= (toy_invitation toy_second).(vq_expires_at_ms)).
Proof.
  apply (no_invitation_redeemed_twice toy_two P2Store_empty toy_first.1 toy_second.1 (lit "first") (lit "second")
           1200000 1450000 no_faults no_faults toy_calls).
  - vm_compute. reflexivity.
  - repeat (apply List.Forall_cons; [vm_compute; discriminate|]). apply List.Forall_nil.
  - vm_compute. reflexivity.
Defined.

Lemma toy_input_wf : input_wf toy_input.
Proof.
  unfold input_wf, toy_input; cbn [in_issued_at_ms in_expires_at_ms in_host_public_key_der in_session_id
    in_session_name in_host_name in_approval_mode in_invite_code in_nonce in_connection_payload_json default].
  split_and!; try apply wf_str_lit; try (unfold_ints; lia); [|constructor..].
  repeat constructor; unfold_ints; lia.
Qed.

Lemma accepted_invitation_is_the_hosts_witness :
  (exists input, input ∈ [toy_input]
     /\ invitation_of toy_libraries toy_input = invitation_of toy_libraries input)
  /\ 1000000 - QR_CLOCK_SKEW_MS <= 1200000 <= 1300000 /\ 1300000 <= 1000000 + MAX_QR_LIFETIME_MS.
Proof.
  apply (accepted_invitation_is_the_hosts toy_libraries [4; 5; 6] [toy_input] P2Store_empty
           (redeemed_store 1200000) toy_payload 1200000 no_faults (invitation_of toy_libraries toy_input)).
  - exact toy_laws.
  - apply List.Forall_cons; [exact toy_input_wf|apply List.Forall_nil].
  - intros text signature H. exists toy_input, toy_text. split; [by left|]. split; [vm_compute; reflexivity|].
    apply bool_decide_eq_true in H. exact H.
  - exact toy_redeemed.
  - reflexivity.
Defined.

Lemma issued_invitation_is_redeemed_witness :
  exists payload, finalize_qr toy_libraries toy_text [9; 9] = Ok payload /\ payload = toy_payload
    /\ exists s', validate_and_consume_qr toy_libraries P2Store_empty payload 950000 no_faults
                  = (s', Ok (invitation_of toy_libraries toy_input))
                  /\ remembers (lit "nonce-0123456789") 1300000 s'.
Proof.
  destruct (issued_invitation_is_redeemed toy_libraries toy_input toy_document toy_text [9; 9]
              [34; 92; 9; 92; 9; 34] [9; 9]) as (payload & Hfin & Hredeem).
  - exact toy_laws.
  - exact toy_reading.
  - exact toy_input_wf.
  - apply toy_scalars_iff. reflexivity.
  - vm_compute. reflexivity.
  - vm_compute. reflexivity.
  - vm_compute. reflexivity.
  - reflexivity.
  - reflexivity.
  - reflexivity.
  - vm_compute. reflexivity.
  - vm_compute. discriminate.
  - assert (payload = toy_payload) as Hp.
    { assert (finalize_qr toy_libraries toy_text [9; 9] = Ok toy_payload) as H by (vm_compute; reflexivity).
      rewrite Hfin in H. by injection H. }
    exists payload. split; [exact Hfin|]. split; [exact Hp|].
    apply (Hredeem P2Store_empty 950000 no_faults).
    + vm_compute. split; discriminate.
    + reflexivity.
    + vm_compute. discriminate.
    + reflexivity.
    + intros row Hrow. discriminate Hrow.
    + reflexivity.
Defined.

Definition toy_recent (id : string) (ended : Z) : RecentSessionRecord :=
  mkRecentSessionRecord (lit id) RecentListener (lit "Party") (lit "Kitchen") None 100 ended Completed.

Definition toy_history : list (P2Call * faults) :=
  [(CallRecord (toy_recent "a" 2000), no_faults); (CallRecord (toy_recent "b" 3000), no_faults);
   (CallRecord (toy_recent "c" 2500), no_faults)].

Lemma history_reads_back_witness :
  exists s2 records,
    list_recent_listener_sessions (p2_run toy_libraries P2Store_empty toy_history) 4000 5000 2 no_faults
    = (s2, Ok records) /\ len records <= 2.
Proof.
  destruct (history_reads_back toy_libraries toy_history 4000 5000 2 no_faults)
    as (_ & s2 & records & Hlist & Hlen & _).
  - repeat (apply List.Forall_cons; [vm_compute; split; [discriminate|reflexivity]|]). apply List.Forall_nil.
  - vm_compute. split; [reflexivity|discriminate].
  - reflexivity.
  - vm_compute. split; discriminate.
  - reflexivity.
  - exists s2, records. split; [exact Hlist|exact Hlen].
Defined.

(** What the query gives there: the newest two of the three sessions. *)
Lemma toy_history_listed :
  (list_recent_listener_sessions (p2_run toy_libraries P2Store_empty toy_history) 4000 5000 2 no_faults).2
  = Ok [toy_recent "b" 3000; toy_recent "c" 2500].
Proof. vm_compute. reflexivity. Qed.
